(* ===== verification/_CoqProject ===== *)
-Q . S2P
Prelude.v
Fixed.v
Mask.v
Types.v
Interner.v
Columns.v
Undo.v
Store.v
StoreInv.v
StoreOps.v
StoreUnwind.v
StoreThms.v
StoreReads.v
Heap.v
Halt.v
Gate.v
Flash.v
Bonus.v
Eligible.v
Caps.v
Ledger.v
Watch.v
Threshold.v
Bands.v
Exec.v
Dirty.v
Ingest.v
Candidate.v
Engine.v
Bytes.v
Wire.v
Plan.v
PlanCheck.v
Adapter.v
Writer.v
AaveMath.v
Bisect.v
AaveHealth.v
AaveSolve.v
AaveMono.v
AaveGrow.v
AaveQuote.v
AaveConfig.v
Crossing.v
AaveEngine.v
Morpho.v
MorphoThms.v
MorphoApply.v
MorphoBooks.v
RouterFees.v
RouterBand.v
PoolMath.v
PoolV3.v
RouterLog.v
RouterGraph.v
RouterTable.v
RouterSearch.v
RouterSearchThms.v
RouterPairs.v
RouterRoutes.v
RouterLabels.v
RouterLabelThms.v
RouterExit.v
RouterWarm.v
RouterProfit.v
RouterSelect.v
RouterSelectThms.v
Balancer.v
PoolBook.v
PoolBookThms.v
RouterAssemble.v
RouterAssembleThms.v
Oracle.v
OracleThms.v
Overlay.v
OverlayThms.v
Snapshot.v
SnapshotThms.v
Wal.v
WalThms.v
