(* ===== verification/Prelude.v ===== *)
(** * A liquidation searcher, verified

    The program watches lending protocols on an EVM chain, keeps a mirror of their
    positions, finds the positions that became liquidatable, plans a flash-funded
    liquidation and submits it. Its parts, in the order data flows through them:

    - ingest ([crates/liq-node]) receives chain notifications, routes each log to the
      protocol adapters, folds a block into the state store, and rolls back failed blocks
      and reorged chains;
    - the state store ([crates/liq-state]) holds the positions as dense columns, with an
      undo ring over the last blocks; an overlay runs an adapter over it without writing it,
      and a snapshot with a write-ahead log brings it back after a crash;
    - the oracle ([crates/liq-oracle]) follows the feeds a protocol reads, predicts their next
      answers from exchange quotes, and publishes the vector of canonical prices;
    - the engine ([crates/liq-engine]) re-evaluates positions when a price, a block or a
      dirty set says so, keeps what tells it whom to re-evaluate (bands, threshold indexes,
      a time heap), and queues candidates;
    - flash funding ([crates/liq-flash]) finds the cheapest loan for a repayment, cascades
      over several providers, and decides whether a quote can be funded and exited;
    - risk ([crates/liq-risk]) says whether anything may be submitted: halts and their
      classes, caps, the proxy watcher, the ledger's reconcile, the treasury flags;
    - the Aave V3 and Morpho Blue adapters ([crates/liq-adapters/aave-v3], [morpho-blue])
      compute health, the price and the time of a crossing, and a quote; the Morpho adapter's
      log handlers keep its markets and positions in the store;
    - the router ([crates/liq-router]) prices swaps through pools, finds routes over the graph
      of tokens, the sizes at which a liquidation pays, gas and the bid, selects the plans of a
      drain and assembles them;
    - plans ([crates/liq-plan], [crates/liq-wire]) are checked, encoded to the bytes the
      Executor contract reads, and decoded again;
    - execution ([crates/liq-exec]) allocates nonces and binds fees.

    Adapters ([crates/liq-adapters]) are behind two traits: [StateWriter], through which
    their [apply_log] writes the store, and [Protocol], through which the engine asks for
    health, liquidation prices and quotes. Ingest and the proxy watcher raise halts through
    [HaltSink]; the planner of submissions asks [RiskAllow].

    ** Files

    - [Prelude]: [Result] and its [?], machine integers with checked, saturating and wrapping
      operations, vectors updated by index, divisions with a rounding, and the automation.
    - [Fixed]: [liq-types/src/fixed/mod.rs], [mul_div] over a 512-bit product, [Ray], [Wad].
    - [Mask]: [liq-protocol/src/mask.rs], the 128-slot bitmask and its iterator.
    - [Types]: ids, market rows, extras and the error types of [liq-types], [liq-protocol]
      and [liq-state]; the early-return notation of mutating methods.
    - [Interner]: [liq-state/src/interner.rs]; [Columns], [Store]: [liq-state/src/store.rs]
      (one market's columns, then every reader and setter of [StateStore] and [unwind_to]);
      [Undo]: [liq-state/src/undo.rs].
    - [StoreInv], [StoreOps], [StoreUnwind], [StoreThms], [StoreReads]: the store's invariant
      and reader-equivalence, the inverse each setter journals, the refinement of the ring by a
      stack of snapshots, the theorems, and what a read returns after a write.
    - [Overlay], [OverlayThms]: [liq-state/src/view.rs] and its theorems; [Snapshot],
      [SnapshotThms]: [liq-state/src/snapshot.rs]; [Wal], [WalThms]: [liq-state/src/wal.rs], and
      stores that differ in their undo rings.
    - [Heap], [Threshold], [Bands]: [liq-engine/src/heap.rs], [threshold.rs] with the crossing
      sets of [triggers.rs], [band.rs].
    - [Halt], [Gate]: [liq-types/src/halt.rs], [liq-risk/src/matrix.rs], [gate.rs]. The
      [HaltSink] and [RiskAllow] traits are classes; the gate is an instance of both.
    - [Flash], [Bonus], [Eligible]: [liq-flash/src/index.rs], [select.rs], [cascade.rs];
      [liq-protocol/src/bonus.rs] and [quote.rs]; [liq-flash/src/eligibility.rs].
    - [Caps], [Ledger], [Watch]: [liq-risk/src/caps.rs], [ledger.rs], [proxy.rs] and
      [treasury.rs].
    - [Exec]: [liq-exec/src/nonce.rs] and [fee.rs].
    - [Dirty]: [liq-protocol/src/dirty.rs] and [liq-node/src/dirty.rs].
    - [Ingest]: [liq-node/src/router.rs], [apply.rs], [reorg.rs]. An adapter is an arbitrary
      tree of [StateWriter] calls that may panic.
    - [Candidate]: [liq-engine/src/candidate.rs]; [Engine]: [liq-engine/src/engine.rs], every
      entry point of the engine over an arbitrary adapter.
    - [Bytes]: big-endian fields and reads at an offset; [Wire]: [liq-wire/src/wire.rs], the
      decoder; [Plan]: [liq-plan/src/types.rs] and [encode.rs]; [PlanCheck]:
      [liq-plan/src/validate.rs].
    - [Adapter]: what the adapters share (price and position views, quotes, the [Protocol]
      record); [Writer]: programs of [StateWriter] calls and rules to reason about them;
      [Crossing]: an adapter with a price threshold under the engine.
    - [Bisect]: the bisection the adapters and their proofs share. [AaveMath], [AaveHealth],
      [AaveSolve], [AaveQuote], [AaveConfig]: [math.rs]; [layout.rs] and [health.rs];
      [solve.rs]; [quote.rs]; [config.rs] and [encode] of [lib.rs], under
      [liq-adapters/aave-v3/src]. [AaveMono] and [AaveGrow] hold what price and time do to an
      account; [AaveEngine] puts the adapter under the engine.
    - [Morpho], [MorphoThms], [MorphoApply], [MorphoBooks]: [math.rs], [layout.rs],
      [health.rs], [solve.rs], [quote.rs], [config.rs] and [lib.rs] under
      [liq-adapters/morpho-blue/src]; their theorems; [apply.rs] and [events.rs] as programs of
      store calls; the books those programs keep.
    - [RouterFees]: [liq-router/src/gas.rs], [bid.rs], the base fee of [band.rs] and the gas
      terms of [exact.rs]; [RouterBand]: [band.rs]; [PoolMath]: Uniswap V2 and StableSwap in
      [solver.rs]; [PoolV3]: concentrated liquidity in [solver.rs].
    - [RouterLog], [RouterGraph], [RouterTable], [RouterSearch], [RouterLabels]:
      [liq-router/src/graph.rs], the fixed-point logarithm, the token graph, the zero-size
      rate table, the branch-and-bound search over any hop quoter, and the label search.
      [RouterPairs]: V2 pairs and linear unwraps of [solver.rs] as a hop quoter.
      [RouterSearchThms], [RouterRoutes] and [RouterLabelThms]: their theorems.
    - [RouterExit]: what the exact tier answers ([exact.rs]), and the class [ExitBook] of what
      its callers ask of it and of the pool book; [RouterWarm]: [warm.rs] and [cache.rs];
      [RouterProfit]: [profit.rs]; [RouterSelect] and [RouterSelectThms]: [select.rs] and its
      theorem.
    - [Balancer]: [liq-router/src/balancer.rs], weighted pools and their fixed-point power;
      [PoolBook] and [PoolBookThms]: the pool book of [solver.rs], its pools of every kind, its
      indexes, reads and log fold.
    - [RouterAssemble] and [RouterAssembleThms]: [liq-router/src/assemble.rs] with the path
      inputs of [exact.rs], from a selected plan to a validated [BatchPlan], and onto the next
      flash source.
    - [Oracle] and [OracleThms]: [cex.rs], [feeds.rs], [canonical.rs], [aggsim.rs],
      [publish.rs] and [fusion.rs] under [liq-oracle/src], and their theorems.

    A struct is a record, an enum an inductive type, a method a function of the state that
    returns the state and its outcome: an error keeps what was written before it, as
    [&mut self] does. A method that holds its lock throughout is one step; interleavings are
    lists of steps.

    ** What the theorems show

    - The store: a setter that fails changes nothing a reader sees, a write is read back and
      moves nothing else, the mask is set exactly where a balance is nonzero, ids are dense
      and injective. The undo ring refines a stack of snapshots: unwinding to any block of
      the window restores what readers saw there, and outside the window it refuses and
      changes nothing.
    - Over the store: a program run through the overlay that stays away from the slots it lists
      for positions it holds no copy of gets the answers the store would give, and the view
      shows what the program would have written, up to the blank cells of those slots; an
      overlay is refused once the store is written, but not once it is unwound. A snapshot reads back whole, and its file is replaced in one step; a log
      cut by a crash gives back every record up to its last sync; the two together restore the
      live store, column for column, or refuse a reorg below the snapshot.
    - Ingest: whatever the adapters do, a notification leaves the store at a block boundary of
      a reachable history, in line with what it reports; behind the gate, failures deny.
      Routing is a scan of the subscriptions; the dirty-set collapse is exact.
    - The engine: the time heap refines a schedule, the threshold index a list of
      registrations, the bands a map, the candidate queue a list kept in rank order. Through
      all entry points, a price pending inclusion leaves no trace in what is maintained at
      canonical prices, and no crossing of a liquidation price is missed: between two
      evaluations of a position the price of an asset that no overlay prices stays on its side
      of it, as long as the price vector is not reloaded (a reload evaluates nothing).
    - Funding: the route found is the cheapest that covers the amount; the cascade plan is
      optimal, within its margin, over the choices of one to three sources among the first
      eight of the row with planable depth, each filled in order; the pair of legs returned has the best
      bonus net of fee, the published index stays within its threshold of the computed one.
    - Risk and execution: a Class B halt holds until a change is shipped, the action log is
      complete, an upgraded proxy denies submissions, caps equal what the live guards hold,
      nonces are consecutive, a bound fee covers its window, the UTC day parser and the
      reconcile are exact.
    - Plans: decoding inverts encoding and encoding inverts decoding, byte for byte; the
      zero-copy views agree with the decoder; [encode] succeeds exactly on what validates; the
      pulls of a validated group are covered by its flash loan and cover what its exact-output
      swaps buy (but for a swap with both flags in a group of several legs), and each seized
      collateral leaves once.
    - Aave V3: the liquidation price splits the price axis, an account that evaluates ten years
      out evaluates at every second before and its crossing search ends with the crossing, the
      quoted amount is the largest the close factor and the dust rule
      admit, there is a quote exactly when health is liquidatable; with the engine, a position
      that the price of one asset would make unhealthy has been looked at again.
    - Morpho Blue: the same for the price of either token of a market, the crossing time
      separates safe from unsafe times, a quote is fair, and the log handlers keep the share
      totals of each market in line with its positions.
    - The router: fee ceilings cover the headers they are bound to, the percentile is that of
      the latest samples, a bid stays under its cap, a viability band is viable and tight and
      its search ends; a V2 quote is the largest the pair accepts and splitting never pays; a
      StableSwap exchange keeps the pool above its curve; the tick list follows the positions,
      and a swap through it ends and leaves the pool consistent.
    - Routes: the token graph lists exactly the hops of the book, the rate table holds the best
      walk of each length, the pruned search answers what an exhaustive walk would, the label
      search is exact up to three hops over pools of two coins. The logarithms the pruning
      compares are bounded against the real ones.
    - Sizing: the warm table's exits are backed by solved sizes and its averages are over the
      latest blocks; a sized leg is within its ceilings (those in collateral up to less than a
      unit per 10^27 repaid, the price being truncated first) and its funding is the cheapest
      that covers it; the leg chosen for a quote is the best of its combinations. The plans a drain
      selects fit the nonces, the gas of a header and the loans that fund them.
    - Pools: the indexes of the pool book list its pools whatever was folded into it, what an
      exit is quoted on does not change behind its generation, and an applied swap pays its
      quote; a swap on a weighted pool never lowers the weighted product where the power has a
      shortcut.
    - Assembly: an assembled plan is the selected one funded by the planned sources, no leg
      twice and none past its loan, and passes validation; its repay legs buy each pull exactly
      or sell what buys it; the input along a path is the least that delivers; the floor is at
      most what any landing keeps; the next source funds the same plan at no higher a premium.
    - The oracle: the canonical price of an asset is the newest answer of the feed bound to it,
      no exchange quote moves it, and what is published is what was folded; a price past its
      staleness window denies submissions; a pending update is predicted exactly when the deviation or
      the heartbeat says so, at the median quote, and is never taken for certain; a decimal is
      read back to the quote it prints.
    - Nineteen theorems show behaviour the source does not intend:
      [Engine.accrual_hides_unbanded_position], [Gate.class_a_clear_lifts_class_b],
      [Eligible.eligible_ignores_pairing], [AaveSolve.debt_price_beyond_double_missed],
      [AaveConfig.decimals_above_18_unusable], [PlanCheck.both_flags_uncounted],
      [RouterFees.odd_gas_limit_passes_ceiling], [PoolV3.upper_edge_swap_goes_down],
      [PoolV3.swap_log_revives_refused_pool], [MorphoBooks.fee_shares_are_nobodys],
      [RouterLabelThms.three_coin_pool_hides_path], [RouterProfit.seize_cap_overshoots],
      [PoolBookThms.refused_read_changes_rates], [RouterAssembleThms.floor_above_landing],
      [RouterAssembleThms.reencode_overdraws], [OverlayThms.unwound_overlay_admitted],
      [OverlayThms.listed_slot_unreadable], [WalThms.repeated_marker_misrecovers] and
      [WalThms.append_after_torn_frame_unreadable].

    ** Bounds and fuel

    Recursion is structural except in the loops that carry fuel, each shown to reach its end
    with the fuel it is given. [Threshold.merge_loop] takes one more than the length of its
    inputs, one of which shrinks at each turn. [Heap.crossed_next] and [Heap.crossed_loop] take
    one more than the heap's length, and each turn pops an entry or stops.
    [Mask.set_slots] takes 128 and clears a set bit at each turn. [Store.unwind_loop] takes the
    number of blocks to unwind and [Exec.run_loop] the number of nonces to allocate.
    [Bisect.bisect] and [RouterBand.edge] take as many halvings as the width of what they
    halve has bits. [PoolV3.swap_loop] takes one turn per tick of the range and three more:
    every turn but the last moves the tick. Loops that are bounded in the source keep its
    bound: 96 doublings in [AaveSolve.bracket], 256 in [RouterBand.scan], 255 Newton steps in
    [PoolMath.newton]. [RouterSearch.visit] takes the hops left of its budget,
    [RouterTable.rounds] and [RouterLabels.label_loop] the number of hops, as the loops of the
    source do, [RouterProfit.fit_loop] its 80 halvings;
    [RouterAssemble.path_in_for] takes 257 doublings, past which a [U256] overflows, and 256
    halvings; [Balancer.ln] and [Balancer.exp] call themselves once, for the reciprocal; the
    walk of [MorphoApply] over market ids takes the ids left in a [u16]. The counts on the wire
    are bytes: [Wire.items] takes 256 turns. [Wal.replay_loop] takes one more than the length of
    the file, and a frame takes more than eight bytes of it.
    Counters that could wrap are bounded in the statements: fewer than 2^32 calls on the heap
    and the threshold index ([no_crossing_is_missed] counts the folds of the run), fewer than
    2^64 operations of the candidate queue.

    ** Not modelled

    Code outside the repository is an argument, with the behaviour it documents as named
    hypotheses: the bitset crate ([Eligible.BitSet], [BitSetLaws]), SQLite and the decimal
    codec ([Ledger]), keccak256 ([Candidate]), the ABI decoder ([Ingest]), the node's storage
    reads ([Watch]), the tick mathematics of [uniswap_v3_math] ([PoolV3.TickMath],
    [TickMathLaws]). The order [sort_unstable_by] leaves equal keys in is unspecified:
    [RouterSearch] takes the sort as an argument that permutes its input. The solver of
    [liq-router/src/exact.rs] is an argument of [RouterBand] and the class [ExitBook] of
    [RouterWarm], [RouterProfit] and [RouterSelect], which assume nothing of its answers; the
    chain search behind a closer is [RouterAssemble.ChainSearch]. The Newton iterations of
    crypto pools, the storage arithmetic of Fluid and the Pendle curve are the class
    [PoolBook.OtherMath], the event decoders of the pools [PoolBook.PoolAbi], again with no
    laws. The feed registry, the event decoder and the node's reads are arguments of [Oracle]
    ([Oracle.OracleAbi]); the triple buffer a vector is published through is the last vector
    written. [crc32fast] is the class [Snapshot.Crc32], of which the theorems use that a CRC is a
    [u32] and the witnesses an instance, CRC-32 a bit at a time; system calls succeed, or the
    process dies. Log lines, metrics, buffer capacities and reservations have no effect on
    values and are left out. Threads, rings and network clients ([liq-node/src/hot.rs],
    [source.rs], [liq-exec]'s relays, [liq-bot]) are not modelled.

    Of the code that computes, these parts are left out: the water-fill and splits of
    [exact.rs] and the depth probes, curation and chain encoding of [graph.rs], which search
    over the modelled pools behind the classes above; the event folding and
    resync of [aave-v3]; the adapters other than [aave-v3] and [morpho-blue], which repeat the
    shape of those two over other share and interest arithmetic; the drift sampler of
    [liq-state]; derived prices,
    MEV-Share hints, mempool transmissions and governance watching of [liq-oracle]; the parameter triggers of [liq-engine]. *)

From stdpp Require Export base tactics option list list_numbers numbers gmap.
From Stdlib Require Export ZArith Lia.

(** * Results

    [Result<T, E>] of the source, with the [?] operator as a [match] notation so
    that case analysis on a call is case analysis on its outcome. *)

Inductive Result (E A : Type) : Type :=
| Ok (a : A)
| Err (e : E).
Arguments Ok {E A} a.
Arguments Err {E A} e.

Declare Scope res_scope.
Delimit Scope res_scope with res.

Notation "'let?' x ':=' c 'in' k" :=
  (match c with Ok x => k | Err err => Err err end)
  (at level 10, x pattern, c at level 100, k at level 200) : res_scope.
Notation "'let!' x ':=' c 'in' k" :=
  (match c with Some x => k | None => None end)
  (at level 10, x pattern, c at level 100, k at level 200) : res_scope.
Open Scope res_scope.

(** [Option::ok_or], [Result::map], [Result::map_err] and [Result::is_err]. *)
Definition ok_or {E A} (o : option A) (e : E) : Result E A :=
  match o with Some a => Ok a | None => Err e end.

Definition map_res {E A B} (f : A -> B) (r : Result E A) : Result E B :=
  match r with Ok a => Ok (f a) | Err e => Err e end.

Definition map_err {E F A} (f : E -> F) (r : Result E A) : Result F A :=
  match r with Ok a => Ok a | Err e => Err (f e) end.

Definition is_ok {E A} (r : Result E A) : bool :=
  match r with Ok _ => true | Err _ => false end.

#[export] Instance Result_inhabited {E A} `{Inhabited A} : Inhabited (Result E A) :=
  populate (Ok inhabitant).

#[export] Instance Result_eq_dec {E A} `{EqDecision E, EqDecision A} : EqDecision (Result E A).
Proof. solve_decision. Defined.

(** * Machine integers

    A [w]-bit unsigned integer is a [Z] in [0 .. 2^w - 1]; the checked, saturating
    and wrapping operations write their range tests out. *)

Local Open Scope Z_scope.

Definition umax (w : Z) : Z := 2 ^ w - 1.
Definition uint_ok (w x : Z) : Prop := 0 <= x <= umax w.
Definition fitsb (w x : Z) : bool := (0 <=? x) && (x <=? umax w).

#[export] Instance uint_ok_dec w x : Decision (uint_ok w x).
Proof. unfold uint_ok. apply _. Defined.

Definition checked_add (w a b : Z) : option Z :=
  if a + b <=? umax w then Some (a + b) else None.
Definition checked_sub (a b : Z) : option Z :=
  if b <=? a then Some (a - b) else None.
Definition checked_mul (w a b : Z) : option Z :=
  if a * b <=? umax w then Some (a * b) else None.
Definition checked_div (a b : Z) : option Z :=
  if b =? 0 then None else Some (a / b).
Definition saturating_add (w a b : Z) : Z := Z.min (a + b) (umax w).
Definition saturating_sub (a b : Z) : Z := Z.max 0 (a - b).
Definition saturating_mul (w a b : Z) : Z := Z.min (a * b) (umax w).
Definition wrapping_add (w a b : Z) : Z := (a + b) mod 2 ^ w.
Definition wrapping_sub (w a b : Z) : Z := (a - b) mod 2 ^ w.

(** A signed [w]-bit result, [None] on overflow. *)
Definition checked_i (w x : Z) : option Z :=
  if (- 2 ^ (w - 1) <=? x) && (x <=? 2 ^ (w - 1) - 1) then Some x else None.

(** [T::try_from(x)] for a narrower unsigned [T]. *)
Definition try_from (w x : Z) : option Z := if fitsb w x then Some x else None.

(** [usize]/[u32] quantities that index a vector are [nat]; their checked
    operations test the width in [Z]. *)
Definition checked_add_nat (w : Z) (a b : nat) : option nat :=
  if Z.of_nat a + Z.of_nat b <=? umax w then Some (a + b)%nat else None.
Definition checked_mul_nat (w : Z) (a b : nat) : option nat :=
  if Z.of_nat a * Z.of_nat b <=? umax w then Some (a * b)%nat else None.
Definition checked_sub_nat (a b : nat) : option nat :=
  if (b <=? a)%nat then Some (a - b)%nat else None.
Definition try_from_nat (w : Z) (a : nat) : option nat :=
  if Z.of_nat a <=? umax w then Some a else None.

(** [Vec::pop]: the shortened vector and the removed last element. *)
Definition vec_pop {A} (l : list A) : list A * option A :=
  (take (pred (length l)) l, last l).

(** [Vec::get_mut] followed by a write: [None] when the index is out of range. *)
Definition vec_set {A} (l : list A) (i : nat) (x : A) : option (list A) :=
  if (i <? length l)%nat then Some (<[i:=x]> l) else None.

#[global] Arguments umax : simpl never.
#[global] Arguments checked_add : simpl never.
#[global] Arguments checked_sub : simpl never.
#[global] Arguments checked_mul : simpl never.
#[global] Arguments checked_div : simpl never.
#[global] Arguments try_from : simpl never.
#[global] Arguments checked_add_nat : simpl never.
#[global] Arguments checked_mul_nat : simpl never.
#[global] Arguments checked_sub_nat : simpl never.
#[global] Arguments try_from_nat : simpl never.
#[global] Arguments saturating_add : simpl never.
#[global] Arguments saturating_sub : simpl never.
#[global] Arguments saturating_mul : simpl never.
#[global] Arguments vec_set : simpl never.
#[global] Arguments vec_pop : simpl never.

(** * Automation *)

Create HintDb liq.

(** Split an [Ok]/[Some] hypothesis through the binds and tests that produced it. *)
Ltac inv_ok H :=
  repeat (case_match; try discriminate H); simplify_eq.

Ltac zbool :=
  repeat match goal with
  | H : (_ <=? _) = true |- _ => apply Z.leb_le in H
  | H : (_ <=? _) = false |- _ => apply Z.leb_gt in H
  | H : (_ <? _) = true |- _ => apply Z.ltb_lt in H
  | H : (_ <? _) = false |- _ => apply Z.ltb_ge in H
  | H : (_ =? _) = true |- _ => apply Z.eqb_eq in H
  | H : (_ =? _) = false |- _ => apply Z.eqb_neq in H
  | H : (_ <=? _)%nat = true |- _ => apply Nat.leb_le in H
  | H : (_ <=? _)%nat = false |- _ => apply Nat.leb_gt in H
  | H : (_ <? _)%nat = true |- _ => apply Nat.ltb_lt in H
  | H : (_ <? _)%nat = false |- _ => apply Nat.ltb_ge in H
  | H : (_ =? _)%nat = true |- _ => apply Nat.eqb_eq in H
  | H : (_ =? _)%nat = false |- _ => apply Nat.eqb_neq in H
  | H : (_ && _) = true |- _ => apply andb_true_iff in H; destruct H
  | H : (_ || _) = false |- _ => apply orb_false_iff in H; destruct H
  | H : negb _ = true |- _ => apply negb_true_iff in H
  | H : negb _ = false |- _ => apply negb_false_iff in H
  end.

(** * Shared lemmas *)

Lemma umax_pos w : 0 <= w -> 0 <= umax w.
Proof. intros. unfold umax. pose proof (Z.pow_pos_nonneg 2 w). lia. Qed.

Lemma umax_mono v w : 0 <= v <= w -> umax v <= umax w.
Proof. intros. unfold umax. pose proof (Z.pow_le_mono_r 2 v w). lia. Qed.

Lemma fitsb_spec w x : fitsb w x = true <-> uint_ok w x.
Proof. unfold fitsb, uint_ok. rewrite andb_true_iff, !Z.leb_le. tauto. Qed.

Lemma checked_add_Some w a b r :
  checked_add w a b = Some r <-> r = a + b /\ a + b <= umax w.
Proof. unfold checked_add. destruct (Z.leb_spec (a + b) (umax w)); naive_solver lia. Qed.

Lemma checked_sub_Some a b r : checked_sub a b = Some r <-> r = a - b /\ b <= a.
Proof. unfold checked_sub. destruct (Z.leb_spec b a); naive_solver lia. Qed.

Lemma checked_mul_Some w a b r :
  checked_mul w a b = Some r <-> r = a * b /\ a * b <= umax w.
Proof. unfold checked_mul. destruct (Z.leb_spec (a * b) (umax w)); naive_solver lia. Qed.

Lemma checked_add_ok w a b : a + b <= umax w -> checked_add w a b = Some (a + b).
Proof. intros. by apply checked_add_Some. Qed.

Lemma checked_sub_ok a b : b <= a -> checked_sub a b = Some (a - b).
Proof. intros. by apply checked_sub_Some. Qed.

Lemma checked_mul_ok w a b : a * b <= umax w -> checked_mul w a b = Some (a * b).
Proof. intros. by apply checked_mul_Some. Qed.

Lemma try_from_ok w x : uint_ok w x -> try_from w x = Some x.
Proof. intros H. unfold try_from. by rewrite (proj2 (fitsb_spec w x) H). Qed.

Lemma try_from_Some w x r : try_from w x = Some r <-> r = x /\ uint_ok w x.
Proof.
  unfold try_from. destruct (fitsb w x) eqn:E.
  - apply fitsb_spec in E. naive_solver.
  - split; [done|]. intros [_ H%fitsb_spec]. congruence.
Qed.

Lemma checked_add_nat_Some w a b r :
  checked_add_nat w a b = Some r <-> r = (a + b)%nat /\ Z.of_nat (a + b) <= umax w.
Proof.
  unfold checked_add_nat. destruct (Z.leb_spec (Z.of_nat a + Z.of_nat b) (umax w));
    naive_solver lia.
Qed.

Lemma checked_mul_nat_Some w a b r :
  checked_mul_nat w a b = Some r <-> r = (a * b)%nat /\ Z.of_nat (a * b) <= umax w.
Proof.
  unfold checked_mul_nat. rewrite Nat2Z.inj_mul.
  destruct (Z.leb_spec (Z.of_nat a * Z.of_nat b) (umax w)); naive_solver lia.
Qed.

Lemma checked_sub_nat_Some a b r :
  checked_sub_nat a b = Some r <-> r = (a - b)%nat /\ (b <= a)%nat.
Proof. unfold checked_sub_nat. destruct (Nat.leb_spec b a); naive_solver lia. Qed.

Lemma try_from_nat_Some w a r :
  try_from_nat w a = Some r <-> r = a /\ Z.of_nat a <= umax w.
Proof. unfold try_from_nat. destruct (Z.leb_spec (Z.of_nat a) (umax w)); naive_solver lia. Qed.

Lemma ok_or_Ok {E A} (o : option A) (e : E) a : ok_or o e = Ok a <-> o = Some a.
Proof. destruct o; simpl; naive_solver. Qed.

Lemma bind_Ok {E A B} (c : Result E A) (k : A -> Result E B) (y : B) :
  match c with Ok x => k x | Err e => Err e end = Ok y <-> exists x, c = Ok x /\ k x = Ok y.
Proof. destruct c; naive_solver. Qed.

Lemma vec_pop_snoc {A} (l : list A) x : vec_pop (l ++ [x]) = (l, Some x).
Proof.
  unfold vec_pop. rewrite length_app, last_snoc. simpl.
  replace (pred (length l + 1)) with (length l) by lia. by rewrite take_app_length.
Qed.

Lemma vec_set_Some {A} (l : list A) i x l' :
  vec_set l i x = Some l' <-> (i < length l)%nat /\ l' = <[i:=x]> l.
Proof. unfold vec_set. destruct (Nat.ltb_spec i (length l)); naive_solver lia. Qed.

Lemma vec_set_lt {A} (l : list A) i x : (i < length l)%nat -> vec_set l i x = Some (<[i:=x]> l).
Proof. intros. by apply vec_set_Some. Qed.

(** ** Rounded division *)

Definition div_up (n d : Z) : Z := (n + d - 1) / d.

Lemma div_rem_spec n d : 0 < d -> n = d * (n / d) + n mod d /\ 0 <= n mod d < d.
Proof. intros. pose proof (Z.div_mod n d). pose proof (Z.mod_pos_bound n d). lia. Qed.

Lemma div_unique_pos n d q r : 0 <= r < d -> n = d * q + r -> n / d = q.
Proof. intros. symmetry. apply Z.div_unique_pos with r; lia. Qed.

Lemma div_up_exact n d : 0 < d -> n mod d = 0 -> div_up n d = n / d.
Proof.
  intros Hd Hm. pose proof (div_rem_spec n d Hd). unfold div_up.
  apply div_unique_pos with (d - 1); lia.
Qed.

Lemma div_up_inexact n d : 0 < d -> n mod d <> 0 -> div_up n d = n / d + 1.
Proof.
  intros Hd Hm. pose proof (div_rem_spec n d Hd). unfold div_up.
  apply div_unique_pos with (n mod d - 1); lia.
Qed.

Lemma div_up_spec n d : 0 < d -> n <= d * div_up n d < n + d.
Proof.
  intros Hd. pose proof (div_rem_spec n d Hd).
  destruct (decide (n mod d = 0)).
  - rewrite div_up_exact by done. lia.
  - rewrite div_up_inexact by done. lia.
Qed.

Lemma div_up_nonneg n d : 0 < d -> 0 <= n -> 0 <= div_up n d.
Proof. intros. unfold div_up. apply Z.div_pos; lia. Qed.

Lemma div_up_mono n m d : 0 < d -> n <= m -> div_up n d <= div_up m d.
Proof. intros. unfold div_up. apply Z.div_le_mono; lia. Qed.

Lemma div_le_div_up n d : 0 < d -> n / d <= div_up n d <= n / d + 1.
Proof.
  intros Hd. destruct (decide (n mod d = 0)).
  - rewrite div_up_exact by done. lia.
  - rewrite div_up_inexact by done. lia.
Qed.

Lemma checked_i_Some w x r : checked_i w x = Some r <-> r = x /\ - 2 ^ (w - 1) <= x <= 2 ^ (w - 1) - 1.
Proof.
  unfold checked_i. destruct (Z.leb_spec (- 2 ^ (w - 1)) x), (Z.leb_spec x (2 ^ (w - 1) - 1)); simpl; naive_solver lia.
Qed.

(** The sum of [f] over a list. *)
Definition zsum {A} (f : A -> Z) (l : list A) : Z := foldr (fun x a => f x + a) 0 l.

Lemma zsum_app {A} (f : A -> Z) l1 l2 : zsum f (l1 ++ l2) = zsum f l1 + zsum f l2.
Proof. induction l1 as [|x l IH]; simpl; [done|]. rewrite IH. lia. Qed.

Lemma zsum_le {A} (f g : A -> Z) l : Forall (fun x => f x <= g x) l -> zsum f l <= zsum g l.
Proof. induction 1; simpl; lia. Qed.

Lemma zsum_zero {A} (f : A -> Z) l : Forall (fun x => f x = 0) l -> zsum f l = 0.
Proof. induction 1; simpl; lia. Qed.

#[export] Hint Resolve umax_pos div_up_nonneg : liq.
