(* ===== verification/Fixed.v ===== *)
(** Fixed-point arithmetic: [crates/liq-types/src/fixed/mod.rs].

    [mul_div] is the crate's one lossy primitive ([a * b / denom] through a 512-bit
    intermediate); [Ray] and [Wad] are [U256] newtypes whose operations name their
    rounding direction. A [U256] is a [Z] in [0 .. 2^256 - 1]. *)

From S2P Require Import Prelude.
Local Open Scope Z_scope.

Definition RAY : Z := 1000000000000000000000000000.
Definition WAD : Z := 1000000000000000000.
Definition WAD_RAY_RATIO : Z := 1000000000.

Inductive Rounding := Down | Up | HalfUp.

Inductive FixedError := Overflow | Underflow | DivisionByZero | Inexact.

#[export] Instance Rounding_eq_dec : EqDecision Rounding.
Proof. solve_decision. Defined.
#[export] Instance FixedError_eq_dec : EqDecision FixedError.
Proof. solve_decision. Defined.

(** [U256::checked_from_limbs_slice] on a [U512]: the value when it fits. *)
Definition u256_from_u512 (q : Z) : option Z := try_from 256 q.

Definition mul_div (a b denom : Z) (rounding : Rounding) : Result FixedError Z :=
  if denom =? 0 then Err DivisionByZero else
  let prod := a * b in
  let q := prod / denom in
  let r := prod mod denom in
  let? q :=
    match rounding with
    | Down => Ok q
    | Up => if r =? 0 then Ok q else ok_or (checked_add 512 q 1) Overflow
    | HalfUp =>
        let? twice := ok_or (checked_add 512 r r) Overflow in
        if denom <=? twice then ok_or (checked_add 512 q 1) Overflow else Ok q
    end in
  ok_or (u256_from_u512 q) Overflow.

(** ** The [fixed_newtype!] macro

    The macro is instantiated at [Ray] and [Wad]; its methods are functions of the
    scale [one]. *)

Section FixedNewtype.
Variable one : Z.

Definition fixed_mul_down (x y : Z) : Result FixedError Z := mul_div x y one Down.
Definition fixed_mul_up (x y : Z) : Result FixedError Z := mul_div x y one Up.
Definition fixed_div_down (x y : Z) : Result FixedError Z := mul_div x one y Down.
Definition fixed_div_up (x y : Z) : Result FixedError Z := mul_div x one y Up.
Definition fixed_checked_add (x y : Z) : Result FixedError Z :=
  ok_or (checked_add 256 x y) Overflow.
Definition fixed_checked_sub (x y : Z) : Result FixedError Z :=
  ok_or (checked_sub x y) Underflow.
End FixedNewtype.

(** [Ray::to_wad_down], [Ray::to_wad_up], [Wad::to_ray_exact]. *)
Definition to_wad_down (x : Z) : Z := x / WAD_RAY_RATIO.

Definition to_wad_up (x : Z) : Result FixedError Z :=
  let q := x / WAD_RAY_RATIO in
  let r := x mod WAD_RAY_RATIO in
  if r =? 0 then Ok q else ok_or (checked_add 256 q 1) Overflow.

Definition to_ray_exact (x : Z) : Result FixedError Z :=
  ok_or (checked_mul 256 x WAD_RAY_RATIO) Overflow.

(** [From<RayU128> for Ray] and [TryFrom<Ray> for RayU128]. *)
Definition ray_of_rayu128 (x : Z) : Z := x.
Definition rayu128_try_from (x : Z) : Result FixedError Z := ok_or (try_from 128 x) Overflow.

(** ** The exact value each rounding names *)

(** The integer [mul_div] approximates [n / d] by. *)
Definition round_div (rounding : Rounding) (n d : Z) : Z :=
  match rounding with
  | Down => n / d
  | Up => div_up n d
  | HalfUp => (2 * n + d) / (2 * d)
  end.

Abbreviation u256 := (uint_ok 256).

Lemma round_div_half_cases n d :
  0 < d -> round_div HalfUp n d = if d <=? 2 * (n mod d) then n / d + 1 else n / d.
Proof.
  intros Hd. simpl. pose proof (div_rem_spec n d Hd) as [Hn Hr].
  destruct (Z.leb_spec d (2 * (n mod d))).
  - apply div_unique_pos with (2 * (n mod d) - d); lia.
  - apply div_unique_pos with (2 * (n mod d) + d); lia.
Qed.

Lemma round_div_bounds r n d :
  0 < d -> n / d <= round_div r n d <= n / d + 1.
Proof.
  intros Hd. destruct r; simpl round_div.
  - lia.
  - by apply div_le_div_up.
  - pose proof (round_div_half_cases n d Hd) as E. simpl in E. rewrite E. case_match; lia.
Qed.

Lemma round_div_nonneg r n d : 0 < d -> 0 <= n -> 0 <= round_div r n d.
Proof.
  intros Hd Hn. pose proof (round_div_bounds r n d Hd).
  pose proof (Z.div_pos n d Hn Hd). lia.
Qed.

Lemma quot_512 a b d : u256 a -> u256 b -> 0 < d -> 0 <= a * b / d /\ a * b / d + 1 <= umax 512.
Proof.
  intros [Ha Ha'] [Hb Hb'] Hd.
  assert (0 <= a * b) by nia.
  split; [by apply Z.div_pos|].
  assert (a * b / d <= a * b) by (apply Z.div_le_upper_bound; nia).
  assert (a * b <= umax 256 * umax 256) by (apply Z.mul_le_mono_nonneg; lia).
  unfold umax in *. lia.
Qed.

(** The 512-bit additions of [mul_div] never overflow, so the result is the rounded
    quotient cut at 256 bits. *)
Lemma mul_div_eq a b d r :
  u256 a -> u256 b -> u256 d -> d <> 0 ->
  mul_div a b d r = ok_or (try_from 256 (round_div r (a * b) d)) Overflow.
Proof.
  intros Ha Hb [Hd0 Hd] Hnz. assert (0 < d) as Hd1 by lia.
  destruct (quot_512 a b d Ha Hb Hd1) as [Hq0 Hq].
  assert (checked_add 512 (a * b / d) 1 = Some (a * b / d + 1)) as Hadd
    by (apply checked_add_Some; lia).
  unfold mul_div, u256_from_u512. rewrite (proj2 (Z.eqb_neq d 0) Hnz). cbv zeta.
  destruct r.
  - done.
  - destruct (Z.eqb_spec (a * b mod d) 0) as [E|E]; simpl.
    + by rewrite div_up_exact.
    + rewrite Hadd. simpl. by rewrite div_up_inexact.
  - rewrite round_div_half_cases by done.
    pose proof (Z.mod_pos_bound (a * b) d Hd1).
    rewrite (proj2 (checked_add_Some 512 _ _ (2 * (a * b mod d)))).
    + simpl. destruct (d <=? _); [by rewrite Hadd|done].
    + split; [lia|]. unfold umax in *. lia.
Qed.

Lemma mul_div_Ok a b d r v :
  u256 a -> u256 b -> u256 d ->
  mul_div a b d r = Ok v <-> d <> 0 /\ v = round_div r (a * b) d /\ v <= umax 256.
Proof.
  intros Ha Hb Hd. destruct (decide (d = 0)) as [->|Hnz].
  { split; [by unfold mul_div|naive_solver]. }
  rewrite mul_div_eq, ok_or_Ok, try_from_Some by done.
  assert (0 < d) by (destruct Hd; lia).
  pose proof (round_div_nonneg r (a * b) d).
  destruct Ha, Hb. unfold uint_ok. split; intros; naive_solver nia.
Qed.

Lemma mul_div_fits a b d r :
  u256 a -> u256 b -> u256 d -> d <> 0 -> round_div r (a * b) d <= umax 256 ->
  mul_div a b d r = Ok (round_div r (a * b) d).
Proof. intros. by apply mul_div_Ok. Qed.

Lemma mul_div_ok_u256 a b d r v :
  u256 a -> u256 b -> u256 d -> mul_div a b d r = Ok v -> u256 v.
Proof.
  intros Ha Hb Hd H. apply mul_div_Ok in H as (Hnz & -> & Hle); [|done..].
  split; [|done]. apply round_div_nonneg; destruct Ha, Hb, Hd; nia.
Qed.

#[export] Hint Resolve mul_div_ok_u256 : liq.

(** ** Specification: what it means for [v] to be [n / d] rounded *)

Definition rounds (r : Rounding) (n d v : Z) : Prop :=
  match r with
  | Down => d * v <= n < d * (v + 1)
  | Up => d * (v - 1) < n <= d * v
  | HalfUp => 2 * n - d < 2 * d * v <= 2 * n + d
  end.

Lemma rounds_round_div r n d : 0 < d -> rounds r n d (round_div r n d).
Proof.
  intros Hd. pose proof (div_rem_spec n d Hd). destruct r; simpl.
  - nia.
  - pose proof (div_up_spec n d Hd). lia.
  - pose proof (div_rem_spec (2 * n + d) (2 * d)). lia.
Qed.

Lemma rounds_unique r n d v w : 0 < d -> rounds r n d v -> rounds r n d w -> v = w.
Proof. intros Hd. destruct r; simpl; intros; nia. Qed.

Lemma rounds_iff r n d v : 0 < d -> rounds r n d v <-> v = round_div r n d.
Proof.
  intros Hd. split; [|intros ->; by apply rounds_round_div].
  intros. eapply rounds_unique; eauto using rounds_round_div.
Qed.

(** [mul_div] is total and exact: it fails with [DivisionByZero] exactly on a zero
    denominator; otherwise it returns the one integer that is [a * b / denom] rounded in
    the requested direction when that integer fits 256 bits, and [Overflow] exactly when it
    does not (the 512-bit intermediate steps never fail on their own). *)
Theorem mul_div_correct (a b d : Z) (r : Rounding) :
  u256 a -> u256 b -> u256 d ->
  match mul_div a b d r with
  | Ok v => d <> 0 /\ u256 v /\ rounds r (a * b) d v
  | Err DivisionByZero => d = 0
  | Err Overflow => d <> 0 /\ exists v, rounds r (a * b) d v /\ umax 256 < v
  | Err _ => False
  end.
Proof.
  intros Ha Hb Hd. destruct (decide (d = 0)) as [->|Hnz]; [done|].
  assert (0 < d) by (destruct Hd; lia).
  rewrite mul_div_eq by done. set (v := round_div r (a * b) d).
  assert (rounds r (a * b) d v) by by apply rounds_round_div.
  assert (0 <= v) by (apply round_div_nonneg; [done|destruct Ha, Hb; nia]).
  destruct (try_from 256 v) as [w|] eqn:E; simpl.
  - apply try_from_Some in E as [-> ?]. done.
  - split; [done|]. exists v. split; [done|].
    unfold try_from in E. case_match eqn:F; [done|].
    unfold fitsb in F. apply andb_false_iff in F as [F|F]; zbool; lia.
Qed.

Lemma mul_div_correct_witness :
  mul_div 3 5 2 HalfUp = Ok 8 /\
  mul_div (umax 256) 2 1 Down = Err Overflow /\
  match mul_div 3 5 2 HalfUp with
  | Ok v => 2 <> 0 /\ u256 v /\ rounds HalfUp (3 * 5) 2 v
  | Err DivisionByZero => 2 = 0
  | Err Overflow => 2 <> 0 /\ exists v, rounds HalfUp (3 * 5) 2 v /\ umax 256 < v
  | Err _ => False
  end.
Proof.
  split; [vm_compute; reflexivity|split; [vm_compute; reflexivity|]].
  apply (mul_div_correct 3 5 2 HalfUp); vm_compute; split; intro; discriminate.
Defined.

(** [HalfUp] is Solidity's [(a * b + denom / 2) / denom] for an even denominator, and the
    nearest integer (no tie is possible) for an odd one. *)
Theorem half_up_is_solidity (a b d v : Z) :
  u256 a -> u256 b -> u256 d -> mul_div a b d HalfUp = Ok v ->
  (d mod 2 = 0 -> v = (a * b + d / 2) / d) /\
  (d mod 2 = 1 -> 2 * Z.abs (d * v - a * b) < d).
Proof.
  intros Ha Hb Hd H. apply mul_div_Ok in H as (Hnz & Hv & _); [|done..].
  assert (0 < d) as Hd1 by (destruct Hd; lia).
  apply (rounds_iff HalfUp) in Hv as Hr; [|done]. simpl in Hr.
  pose proof (div_rem_spec d 2 ltac:(lia)) as [Hd2 Hm]. split; intros E.
  - symmetry. apply div_unique_pos with (a * b + d / 2 - d * v); lia.
  - assert (2 * d * v <> 2 * (a * b) + d) by lia. lia.
Qed.

Lemma half_up_is_solidity_witness :
  mul_div 3 5 2 HalfUp = Ok 8 /\
  ((2 mod 2 = 0 -> 8 = (3 * 5 + 2 / 2) / 2) /\
   (2 mod 2 = 1 -> 2 * Z.abs (2 * 8 - 3 * 5) < 2)).
Proof.
  split; [vm_compute; reflexivity|].
  apply (half_up_is_solidity 3 5 2 8);
    try (vm_compute; split; intro; discriminate); vm_compute; reflexivity.
Defined.

(** Unit conversions: a [Wad] that scales to a [Ray] comes back unchanged through both
    roundings, [to_wad_up] never overflows, and the two roundings of any [Ray] bracket its
    exact value. *)
Theorem wad_ray_roundtrip (x : Z) :
  u256 x ->
  (forall y, to_ray_exact x = Ok y -> u256 y /\ to_wad_down y = x /\ to_wad_up y = Ok x) /\
  (exists u, to_wad_up x = Ok u /\ u256 u /\
     WAD_RAY_RATIO * to_wad_down x <= x <= WAD_RAY_RATIO * u /\
     u <= to_wad_down x + 1).
Proof.
  intros [Hx Hx']. unfold to_wad_up, to_ray_exact, to_wad_down, WAD_RAY_RATIO in *. split.
  - intros y H%ok_or_Ok. apply checked_mul_Some in H as [-> Hle].
    rewrite Z.mod_mul, Z.div_mul by lia. simpl. split; [split; lia|done].
  - pose proof (div_rem_spec x 1000000000 ltac:(lia)) as [Hq Hr].
    assert (0 <= x / 1000000000) by (apply Z.div_pos; lia).
    destruct (Z.eqb_spec (x mod 1000000000) 0).
    + exists (x / 1000000000). unfold uint_ok. split; [done|lia].
    + rewrite (proj2 (checked_add_Some 256 _ _ (x / 1000000000 + 1))) by lia.
      exists (x / 1000000000 + 1). unfold uint_ok. split; [done|lia].
Qed.

Lemma wad_ray_roundtrip_witness :
  u256 5 /\
  ((forall y, to_ray_exact 5 = Ok y -> u256 y /\ to_wad_down y = 5 /\ to_wad_up y = Ok 5) /\
  (exists u, to_wad_up 5 = Ok u /\ u256 u /\
     WAD_RAY_RATIO * to_wad_down 5 <= 5 <= WAD_RAY_RATIO * u /\
     u <= to_wad_down 5 + 1)).
Proof.
  assert (u256 5) by (vm_compute; split; intro; discriminate).
  split; [done|]. apply (wad_ray_roundtrip 5). done.
Defined.
