(* ===== verification/Mask.v ===== *)
(** Per-position slot bitmask: [crates/liq-protocol/src/mask.rs].

    An [AssetMask] is a [u128]; bit [slot] is set exactly when the position holds a
    nonzero supply or debt in that slot (the store keeps it so, see [Store]). A slot is a
    [u16], here a [nat]. *)

From S2P Require Import Prelude.
From Stdlib Require Import Sorted.
Local Open Scope Z_scope.

Abbreviation AssetMask := Z (only parsing).
Definition EMPTY : AssetMask := 0.
Definition MAX_SLOTS : Z := 128.

(** [1u128.checked_shl(slot as u32)]. *)
Definition slot_bit (slot : nat) : option Z :=
  if Z.of_nat slot <? 128 then Some (Z.shiftl 1 (Z.of_nat slot)) else None.

Definition contains (m : AssetMask) (slot : nat) : bool :=
  match slot_bit slot with
  | Some bit => negb (Z.land m bit =? 0)
  | None => false
  end.

(** [AssetMask::with]. *)
Definition with_slot (m : AssetMask) (slot : nat) : option AssetMask :=
  match slot_bit slot with
  | Some bit => Some (Z.lor m bit)
  | None => None
  end.

(** [AssetMask::without]; [umax 128 - bit] is the 128-bit complement [!bit]. *)
Definition without_slot (m : AssetMask) (slot : nat) : AssetMask :=
  match slot_bit slot with
  | Some bit => Z.land m (umax 128 - bit)
  | None => m
  end.

(** [u128::count_ones] and [u128::trailing_zeros]. *)
Fixpoint ones_pos (p : positive) : nat :=
  match p with
  | xH => 1
  | xO q => ones_pos q
  | xI q => S (ones_pos q)
  end.
Definition count_ones (m : Z) : nat := match m with Zpos p => ones_pos p | _ => 0%nat end.

Fixpoint tz_pos (p : positive) : nat :=
  match p with
  | xO q => S (tz_pos q)
  | _ => 0
  end.
Definition trailing_zeros (m : Z) : nat := match m with Zpos p => tz_pos p | _ => 128%nat end.

(** [AssetMask::len], [AssetMask::is_empty]. *)
Definition mask_len (m : AssetMask) : nat := count_ones m.
Definition is_empty (m : AssetMask) : bool := m =? 0.

(** [SetSlots::next]: the item, and the iterator's new state. *)
Definition set_slots_next (m : Z) : option nat * Z :=
  if m =? 0 then (None, m)
  else
    let tz := trailing_zeros m in
    (try_from_nat 16 tz, Z.land m (wrapping_sub 128 m 1)).

(** Draining [AssetMask::iter]; one step per call of [next]. *)
Fixpoint set_slots (fuel : nat) (m : Z) : list nat :=
  match fuel with
  | O => []
  | S f =>
      match set_slots_next m with
      | (Some s, m') => s :: set_slots f m'
      | (None, _) => []
      end
  end.

(** 128 calls drain any mask: one per set bit. *)
Definition iter (m : AssetMask) : list nat := set_slots 128 m.

(** ** Bit-level facts *)

Abbreviation mask_ok := (uint_ok 128).

Lemma slot_bit_Some s b : slot_bit s = Some b <-> (s < 128)%nat /\ b = 2 ^ Z.of_nat s.
Proof.
  unfold slot_bit. rewrite Z.shiftl_1_l.
  destruct (Z.ltb_spec (Z.of_nat s) 128); split; intros; destruct_and?; simplify_eq; try lia; auto with lia.
Qed.

Lemma slot_bit_None s : slot_bit s = None <-> (128 <= s)%nat.
Proof. unfold slot_bit. destruct (Z.ltb_spec (Z.of_nat s) 128); split; intros; (done || lia). Qed.

Lemma land_pow2_zero m i : 0 <= i -> (Z.land m (2 ^ i) =? 0) = negb (Z.testbit m i).
Proof.
  intros Hi. destruct (Z.testbit m i) eqn:E; simpl.
  - apply Z.eqb_neq. intros H. apply (f_equal (fun z => Z.testbit z i)) in H.
    rewrite Z.land_spec, E, Z.pow2_bits_true, Z.bits_0 in H by done. done.
  - apply Z.eqb_eq. apply Z.bits_inj'. intros j Hj. rewrite Z.land_spec, Z.bits_0.
    destruct (decide (i = j)) as [->|]; [by rewrite E|].
    rewrite Z.pow2_bits_false by done. apply andb_false_r.
Qed.

Lemma contains_spec m s : contains m s = (s <? 128)%nat && Z.testbit m (Z.of_nat s).
Proof.
  unfold contains. destruct (slot_bit s) as [b|] eqn:E.
  - apply slot_bit_Some in E as [Hs ->]. rewrite land_pow2_zero, negb_involutive by lia.
    by rewrite (proj2 (Nat.ltb_lt _ _) Hs).
  - apply slot_bit_None in E. by rewrite (proj2 (Nat.ltb_ge _ _) E).
Qed.

Lemma umax_testbit w i : 0 <= i -> 0 <= w -> Z.testbit (umax w) i = (i <? w).
Proof.
  intros. unfold umax.
  replace (2 ^ w - 1) with (Z.ones w) by (rewrite Z.ones_equiv; lia).
  destruct (Z.ltb_spec i w); [apply Z.ones_spec_low|apply Z.ones_spec_high]; lia.
Qed.

Lemma testbit_complement w b i :
  0 <= b <= umax w -> 0 <= i -> 0 <= w ->
  Z.testbit (umax w - b) i = (i <? w) && negb (Z.testbit b i).
Proof.
  intros Hb Hi Hw.
  replace (umax w - b) with (Z.ldiff (umax w) b).
  { by rewrite Z.ldiff_spec, umax_testbit. }
  symmetry. apply Z.sub_nocarry_ldiff. apply Z.bits_inj'. intros j Hj.
  rewrite Z.ldiff_spec, umax_testbit, Z.bits_0 by done.
  destruct (Z.ltb_spec j w); simpl; [by rewrite andb_false_r|].
  rewrite andb_true_r.
  rewrite <- (Z.mod_small b (2 ^ w)) by (unfold umax in Hb; lia).
  by apply Z.mod_pow2_bits_high.
Qed.

Lemma mask_high_bit m i : mask_ok m -> 128 <= i -> Z.testbit m i = false.
Proof.
  intros [H1 H2] Hi. rewrite <- (Z.mod_small m (2 ^ 128)) by (unfold umax in H2; lia).
  apply Z.mod_pow2_bits_high. lia.
Qed.

(** A mask is determined by its low 128 bits. *)
Lemma mask_ext m n :
  mask_ok m -> mask_ok n ->
  (forall s, (s < 128)%nat -> contains m s = contains n s) -> m = n.
Proof.
  intros Hm Hn H. apply Z.bits_inj'. intros i Hi.
  destruct (Z.lt_ge_cases i 128); [|by rewrite !mask_high_bit].
  specialize (H (Z.to_nat i) ltac:(lia)). rewrite !contains_spec, Z2Nat.id in H by lia.
  by rewrite (proj2 (Nat.ltb_lt _ _)) in H by lia.
Qed.

Lemma mask_ok_bits m : 0 <= m -> (forall i, 128 <= i -> Z.testbit m i = false) -> mask_ok m.
Proof.
  intros Hm H. split; [done|]. unfold umax.
  enough (m = m mod 2 ^ 128) as ->.
  { pose proof (Z.mod_pos_bound m (2 ^ 128)). lia. }
  apply Z.bits_inj'. intros i Hi. destruct (Z.lt_ge_cases i 128).
  - by rewrite Z.mod_pow2_bits_low.
  - rewrite Z.mod_pow2_bits_high by lia. auto.
Qed.

Lemma with_slot_ok m s m' : mask_ok m -> with_slot m s = Some m' -> mask_ok m'.
Proof.
  unfold with_slot. intros Hm H. destruct (slot_bit s) as [b|] eqn:E; simplify_eq.
  apply slot_bit_Some in E as [Hs ->]. apply mask_ok_bits.
  - apply Z.lor_nonneg. destruct Hm. split; [done|apply Z.pow_nonneg; lia].
  - intros i Hi. rewrite Z.lor_spec, mask_high_bit, Z.pow2_bits_false by (done || lia). done.
Qed.

Lemma without_slot_ok m s : mask_ok m -> mask_ok (without_slot m s).
Proof.
  unfold without_slot. intros Hm. destruct (slot_bit s) as [b|] eqn:E; [|done].
  apply mask_ok_bits.
  - apply Z.land_nonneg. left. by destruct Hm.
  - intros i Hi. by rewrite Z.land_spec, mask_high_bit.
Qed.

Lemma contains_with m s m' t :
  with_slot m s = Some m' -> contains m' t = (s =? t)%nat || contains m t.
Proof.
  unfold with_slot. intros H. destruct (slot_bit s) as [b|] eqn:E; simplify_eq.
  apply slot_bit_Some in E as [Hs ->]. rewrite !contains_spec, Z.lor_spec.
  rewrite Z.pow2_bits_eqb by lia.
  destruct (Nat.ltb_spec t 128), (Nat.eqb_spec s t), (Z.eqb_spec (Z.of_nat s) (Z.of_nat t));
    simpl; try lia; destruct (Z.testbit m _); done.
Qed.

Lemma contains_without m s t :
  mask_ok m -> contains (without_slot m s) t = contains m t && negb (s =? t)%nat.
Proof.
  intros Hm. unfold without_slot. destruct (slot_bit s) as [b|] eqn:E.
  - apply slot_bit_Some in E as [Hs ->]. rewrite !contains_spec, Z.land_spec.
    rewrite testbit_complement; [|split; [apply Z.pow_nonneg; lia|]|lia|lia].
    + rewrite Z.pow2_bits_eqb by lia.
      destruct (Nat.ltb_spec t 128), (Nat.eqb_spec s t), (Z.eqb_spec (Z.of_nat s) (Z.of_nat t)),
        (Z.ltb_spec (Z.of_nat t) 128); simpl; try lia; destruct (Z.testbit m _); done.
    + unfold umax. pose proof (Z.pow_lt_mono_r 2 (Z.of_nat s) 128). lia.
  - apply slot_bit_None in E. rewrite contains_spec.
    destruct (Nat.ltb_spec t 128), (Nat.eqb_spec s t); simpl; try lia; by rewrite ?andb_true_r.
Qed.

Lemma with_slot_is_Some m s : is_Some (with_slot m s) <-> (s < 128)%nat.
Proof.
  unfold with_slot. destruct (slot_bit s) eqn:E.
  - apply slot_bit_Some in E as [? _]. split; eauto.
  - apply slot_bit_None in E. split; [by intros []|lia].
Qed.

Lemma EMPTY_ok : mask_ok EMPTY.
Proof. vm_compute. split; discriminate. Qed.

Lemma contains_EMPTY s : contains EMPTY s = false.
Proof. rewrite contains_spec. unfold EMPTY. by rewrite Z.bits_0, andb_false_r. Qed.

#[export] Hint Resolve with_slot_ok without_slot_ok EMPTY_ok : liq.

(** ** The iterator *)

(** Clearing the lowest set bit, structurally. *)
Fixpoint clear_pos (p : positive) : Z :=
  match p with
  | xH => 0
  | xI q => Zpos (xO q)
  | xO q => 2 * clear_pos q
  end.

Lemma land_pred_pos p : Z.land (Zpos p) (Zpos p - 1) = clear_pos p.
Proof.
  induction p as [q IH|q IH|]; [| |done].
  - change (Zpos q~1 - 1) with (2 * Zpos q). simpl clear_pos.
    change (Zpos q~1) with (2 * Zpos q + 1). change (Zpos q~0) with (2 * Zpos q).
    apply Z.bits_inj'. intros i Hi. rewrite Z.land_spec.
    destruct (decide (i = 0)) as [->|]; [by rewrite Z.testbit_odd_0, Z.testbit_even_0|].
    replace i with (Z.succ (Z.pred i)) by lia.
    rewrite Z.testbit_odd_succ, !Z.testbit_even_succ by lia. apply andb_diag.
  - simpl clear_pos. rewrite <- IH.
    replace (Zpos q~0 - 1) with (2 * (Zpos q - 1) + 1) by lia.
    change (Zpos q~0) with (2 * Zpos q).
    apply Z.bits_inj'. intros i Hi. rewrite Z.land_spec.
    destruct (decide (i = 0)) as [->|]; [by rewrite !Z.testbit_even_0|].
    replace i with (Z.succ (Z.pred i)) by lia.
    rewrite Z.testbit_odd_succ, !Z.testbit_even_succ, Z.land_spec by lia. done.
Qed.

Lemma clear_pos_bounds p : 0 <= clear_pos p < Zpos p.
Proof. induction p; simpl; lia. Qed.

Lemma clear_pos_ones p : S (count_ones (clear_pos p)) = ones_pos p.
Proof.
  induction p as [q IH|q IH|]; [done| |done].
  simpl clear_pos. simpl ones_pos. rewrite <- IH.
  pose proof (clear_pos_bounds q). destruct (clear_pos q); [done|done|lia].
Qed.

Lemma clear_pos_testbit p i :
  Z.testbit (clear_pos p) (Z.of_nat i) = Z.testbit (Zpos p) (Z.of_nat i) && negb (i =? tz_pos p)%nat.
Proof.
  revert i. induction p as [q IH|q IH|]; intros [|i]; try done.
  - simpl clear_pos. simpl tz_pos. rewrite andb_true_r.
    change (Zpos q~1) with (2 * Zpos q + 1). change (Zpos q~0) with (2 * Zpos q).
    rewrite Nat2Z.inj_succ, Z.testbit_odd_succ, Z.testbit_even_succ by lia. done.
  - simpl clear_pos. simpl Z.of_nat. by rewrite Z.testbit_even_0.
  - simpl clear_pos. simpl tz_pos. change (Zpos q~0) with (2 * Zpos q).
    rewrite Nat2Z.inj_succ, !Z.testbit_even_succ, IH by lia. done.
Qed.

Lemma tz_pos_set p : Z.testbit (Zpos p) (Z.of_nat (tz_pos p)) = true.
Proof.
  induction p as [q IH|q IH|]; try done.
  simpl tz_pos. change (Zpos q~0) with (2 * Zpos q).
  by rewrite Nat2Z.inj_succ, Z.testbit_even_succ by lia.
Qed.

Lemma tz_pos_least p i : Z.testbit (Zpos p) (Z.of_nat i) = true -> (tz_pos p <= i)%nat.
Proof.
  revert i. induction p as [q IH|q IH|]; intros i H; simpl; try lia.
  destruct i as [|i]; [done|]. rewrite Nat2Z.inj_succ in H.
  change (Zpos q~0) with (2 * Zpos q) in H. rewrite Z.testbit_even_succ in H by lia.
  apply IH in H. lia.
Qed.

Lemma set_slots_next_pos p :
  mask_ok (Zpos p) ->
  set_slots_next (Zpos p) = (Some (tz_pos p), clear_pos p) /\
  (tz_pos p < 128)%nat /\ mask_ok (clear_pos p).
Proof.
  intros Hp. assert (tz_pos p < 128)%nat as Ht.
  { destruct (Nat.lt_ge_cases (tz_pos p) 128); [done|].
    pose proof (tz_pos_set p) as T. rewrite mask_high_bit in T by (done || lia). done. }
  pose proof (clear_pos_bounds p). split; [|split; [done|destruct Hp; split; lia]].
  unfold set_slots_next. simpl. f_equal.
  - apply try_from_nat_Some. split; [done|]. unfold umax. lia.
  - rewrite <- land_pred_pos. unfold wrapping_sub.
    rewrite Z.mod_small; [done|]. destruct Hp as [_ Hp]. unfold umax in Hp. lia.
Qed.

Lemma set_slots_spec f m :
  mask_ok m -> (count_ones m <= f)%nat ->
  StronglySorted lt (set_slots f m) /\ length (set_slots f m) = count_ones m /\
  forall s, s ∈ set_slots f m <-> contains m s = true.
Proof.
  revert m. induction f as [|f IH]; intros m Hm Hc.
  - destruct m as [|p|p]; [|exfalso|destruct Hm; lia].
    + simpl. split; [constructor|]. split; [done|]. intros s.
      change 0 with EMPTY. rewrite contains_EMPTY. set_solver.
    + simpl in Hc. pose proof (clear_pos_ones p). lia.
  - destruct m as [|p|p].
    + simpl. split; [constructor|]. split; [done|]. intros s. change 0 with EMPTY. rewrite contains_EMPTY. set_solver.
    + destruct (set_slots_next_pos p Hm) as (E & Ht & Hok).
      cbn [set_slots]. rewrite E. pose proof (clear_pos_ones p) as Ho. simpl in Hc.
      destruct (IH (clear_pos p) Hok ltac:(lia)) as (HS & HL & HM).
      assert (forall s, contains (clear_pos p) s = contains (Zpos p) s && negb (s =? tz_pos p)%nat) as HC.
      { intros s. rewrite !contains_spec, clear_pos_testbit.
        destruct (s <? 128)%nat; simpl; done. }
      split; [|split].
      * constructor; [done|]. apply Forall_forall. intros s Hs%HM.
        rewrite HC, contains_spec in Hs. zbool.
        match goal with T : Z.testbit _ _ = true |- _ => apply tz_pos_least in T end. lia.
      * simpl. lia.
      * intros s. rewrite elem_of_cons, HM, HC. rewrite !contains_spec.
        destruct (Nat.eqb_spec s (tz_pos p)) as [->|]; simpl.
        -- rewrite tz_pos_set, (proj2 (Nat.ltb_lt _ _) Ht). simpl. naive_solver.
        -- rewrite andb_true_r. naive_solver.
    + destruct Hm; lia.
Qed.

Lemma ones_pos_bound p w : Zpos p <= umax (Z.of_nat w) -> (ones_pos p <= w)%nat.
Proof.
  unfold umax. revert w. induction p as [q IH|q IH|]; intros [|w] H; simpl ones_pos.
  all: try (simpl in H; lia).
  - rewrite Nat2Z.inj_succ, Z.pow_succ_r in H by lia. specialize (IH w). lia.
  - rewrite Nat2Z.inj_succ, Z.pow_succ_r in H by lia. specialize (IH w). lia.
Qed.

Lemma iter_spec m :
  mask_ok m ->
  StronglySorted lt (iter m) /\ length (iter m) = mask_len m /\
  forall s, s ∈ iter m <-> contains m s = true.
Proof.
  intros Hm. apply set_slots_spec; [done|].
  destruct m as [|p|p]; simpl; [lia| |lia]. apply ones_pos_bound.
  destruct Hm as [_ Hm]. exact Hm.
Qed.

(** The bitmask is a set of slots below 128: [with]/[without] add and remove exactly their
    slot, [with] fails exactly from slot 128 on, and draining [iter] yields every set slot once,
    in ascending order, [len] of them. *)
Theorem mask_is_slot_set (m : AssetMask) (s : nat) :
  mask_ok m ->
  (forall t, contains (without_slot m s) t = contains m t && negb (s =? t)%nat) /\
  match with_slot m s with
  | Some m' => (s < 128)%nat /\ mask_ok m' /\
  forall t, contains m' t = (s =? t)%nat || contains m t
  | None => (128 <= s)%nat /\ contains m s = false
  end /\
  StronglySorted lt (iter m) /\ length (iter m) = mask_len m /\
  (forall t, t ∈ iter m <-> contains m t = true).
Proof.
  intros Hm. split; [intros; by apply contains_without|]. split; [|by apply iter_spec].
  destruct (with_slot m s) as [m'|] eqn:E.
  - split; [apply with_slot_is_Some with m; eauto|]. split; [by eapply with_slot_ok|].
    intros. by apply contains_with.
  - assert (~ (s < 128)%nat) by (rewrite <- (with_slot_is_Some m), E; by intros []).
    split; [lia|]. rewrite contains_spec. by rewrite (proj2 (Nat.ltb_ge s 128)) by lia.
Qed.

Lemma mask_is_slot_set_witness :
  iter 37 = [0; 2; 5]%nat /\
  ((forall t, contains (without_slot 37 2) t = contains 37 t && negb (2 =? t)%nat) /\
  match with_slot 37 2 with
  | Some m' => (2 < 128)%nat /\ mask_ok m' /\
  forall t, contains m' t = (2 =? t)%nat || contains 37 t
  | None => (128 <= 2)%nat /\ contains 37 2 = false
  end /\
  StronglySorted lt (iter 37) /\ length (iter 37) = mask_len 37 /\
  (forall t, t ∈ iter 37 <-> contains 37 t = true)).
Proof.
  split; [vm_compute; reflexivity|].
  apply (mask_is_slot_set 37 2). vm_compute. split; discriminate.
Defined.
