(* ===== verification/Types.v ===== *)
(** Shared data of the state mirror: identities ([crates/liq-types/src/ids.rs]), the
    market row and slot address ([crates/liq-protocol/src/market.rs]), the opaque
    per-position cells ([crates/liq-protocol/src/extra.rs]) and the two error types
    ([crates/liq-protocol/src/error.rs], [crates/liq-state/src/error.rs]).

    Ids that index a vector ([PositionId], [MarketId], a slot, a local row) are [nat];
    every narrowing the code performs is written where it performs it. An address is the
    [Z] of its 160 bits. *)

From S2P Require Import Prelude Fixed.
From stdpp Require Import strings.
Local Open Scope Z_scope.

Abbreviation ProtocolId := Z (only parsing).
Abbreviation MarketId := nat (only parsing).
Abbreviation AssetId := Z (only parsing).
Abbreviation PositionId := nat (only parsing).
Abbreviation Address := Z (only parsing).
Abbreviation BlockNum := Z (only parsing).
Abbreviation Timestamp := Z (only parsing).

Record PositionKey := mkKey {
  pk_protocol : ProtocolId;
  pk_market : MarketId;
  pk_user : Address
}.

#[export] Instance PositionKey_eq_dec : EqDecision PositionKey.
Proof. solve_decision. Defined.
#[export] Instance PositionKey_countable : Countable PositionKey.
Proof.
  refine (inj_countable' (fun k => (pk_protocol k, pk_market k, pk_user k))
            (fun '(p, m, u) => mkKey p m u) _).
  by intros [].
Defined.

(** [MarketSlot]: one reserve row of one market. *)
Record MarketSlot := mkSlot { ms_market : MarketId; ms_slot : nat }.

#[export] Instance MarketSlot_eq_dec : EqDecision MarketSlot.
Proof. solve_decision. Defined.

(** [MarketFlags]: bit tests on a [u8]. *)
Definition FROZEN : Z := 1.
Definition PAUSED : Z := 2.
Definition SILOED : Z := 4.
Definition ISOLATED : Z := 8.
Definition UNPRICED : Z := 16.
Definition flags_contains (flags other : Z) : bool := Z.land flags other =? other.

(** [MarketRow]: the neutral header and the adapter's fifteen opaque [u128] cells. *)
Record MarketRow := mkRow {
  mr_asset : AssetId;
  mr_price_feed : Z;
  mr_decimals : Z;
  mr_flags : Z;
  mr_hub_slot : Z;
  mr_hub_market : Z;
  mr_last_update : Z;
  mr_body : list Z
}.

Definition BODY_CELLS : nat := 15.
Definition NO_HUB : Z := umax 32.

Definition blank (asset : AssetId) (decimals : Z) : MarketRow :=
  mkRow asset 0 decimals 0 0 NO_HUB 0 (replicate BODY_CELLS 0).

(** [PositionExtraRepr]: four [u128] cells. *)
Record PositionExtraRepr := mkExtra { ex0 : Z; ex1 : Z; ex2 : Z; ex3 : Z }.
Definition EXTRA_ZERO : PositionExtraRepr := mkExtra 0 0 0 0.

(** [MARKET_ID_LIMIT]: exclusive bound on stored market ids. *)
Definition MARKET_ID_LIMIT : Z := umax 16.

Inductive ArchiveError :=
| Unavailable
| Truncated (from : BlockNum)
| Malformed (block : BlockNum).

Inductive ProtocolError :=
| PFixed (e : FixedError)
| PUnknownPosition (p : PositionId)
| PUnknownMarket (m : MarketId)
| SlotOutOfRange (at_ : MarketSlot)
| MissingPrice (a : AssetId)
| ExtraLayout
| BodyLayout
| ProtocolMismatch
| OracleSourceMismatch
| HaltSignal
| TimestampBeforeUpdate
| SlotMismatch (expected got : Z)
| UnexpectedLog
| MalformedLog
| FundingAssetMismatch
| FundingShort
| CallbackProviderMismatch
| ZeroRecipient
| AmountTooLarge
| EmptyQuote
| LegOutOfRange
| Internal
| UntrackedDebt
| TableFull (table : string) (cap : Z)
| PArchive (e : ArchiveError)
| ProbeUnavailable
| ProbeDecode
| ExecutorUnwired.

Inductive StateError :=
| SUnknownPosition (p : PositionId)
| SUnknownMarket (m : MarketId)
| BlockGap (tip got : BlockNum)
| TargetAboveTip (target tip : BlockNum)
| ReorgTooDeep (depth cap : Z)
| Inconsistent
| OverlayStale (overlay : BlockNum) (overlay_len : nat) (overlay_writes : Z)
    (store : BlockNum) (store_len : nat) (store_writes : Z)
| AssetIdsExhausted.

#[export] Instance StateError_eq_dec : EqDecision StateError.
Proof. solve_decision. Defined.

(** The store's mutators keep their state on an error, as [&mut self] does: an operation
    returns the state and its outcome. [let# x := c at s in k] is [c?] in such a method,
    with [s] the state at that point. *)
Notation "'let#' x ':=' c 'at' s 'in' k" :=
  (match c with Ok x => k | Err err => (s, Err err) end)
  (at level 10, x pattern, c at level 100, s at level 100, k at level 200) : res_scope.
