(* ===== verification/Interner.v ===== *)
(** Interning: [crates/liq-state/src/interner.rs]. Position ids and asset ids are dense
    and assigned in first-sight order. *)

From S2P Require Import Prelude Types.
Local Open Scope Z_scope.

(** ** Positions *)

Record PosEntry := mkEntry { pe_key : PositionKey; pe_local : nat }.

Record PositionTable := mkTable {
  pt_map : gmap PositionKey PositionId;
  pt_entries : list PosEntry
}.

Definition table_empty : PositionTable := mkTable ∅ [].

(** [PositionTable::from_entries]: rebuild the map; a duplicate key is an error. *)
Fixpoint from_entries_loop (i : nat) (es : list PosEntry) (m : gmap PositionKey PositionId)
    : Result StateError (gmap PositionKey PositionId) :=
  match es with
  | [] => Ok m
  | e :: es' =>
      let? id := ok_or (try_from_nat 32 i) Inconsistent in
      match m !! pe_key e with
      | Some _ => Err Inconsistent
      | None => from_entries_loop (S i) es' (<[pe_key e := id]> m)
      end
  end.

Definition from_entries (es : list PosEntry) : Result StateError PositionTable :=
  let? m := from_entries_loop 0 es ∅ in Ok (mkTable m es).

Definition table_len (t : PositionTable) : nat := length (pt_entries t).
Definition table_get (t : PositionTable) (k : PositionKey) : option PositionId := pt_map t !! k.
Definition table_entry (t : PositionTable) (i : nat) : option PosEntry := pt_entries t !! i.
Definition table_next_id (t : PositionTable) : option PositionId :=
  try_from_nat 32 (length (pt_entries t)).

Definition table_push (t : PositionTable) (key : PositionKey) (id : PositionId) (local : nat)
    : PositionTable :=
  mkTable (<[key := id]> (pt_map t)) (pt_entries t ++ [mkEntry key local]).

Definition table_pop (t : PositionTable) : PositionTable * option PosEntry :=
  match vec_pop (pt_entries t) with
  | (es, Some e) => (mkTable (delete (pe_key e) (pt_map t)) es, Some e)
  | (_, None) => (t, None)
  end.

(** ** Assets *)

Record AssetInterner := mkAssets { ai_map : gmap Address AssetId; ai_addrs : list Address }.

Definition assets_empty : AssetInterner := mkAssets ∅ [].

(** [AssetInterner::intern]. *)
Definition asset_intern (t : AssetInterner) (addr : Address)
    : AssetInterner * Result StateError AssetId :=
  match ai_map t !! addr with
  | Some id => (t, Ok id)
  | None =>
      let# id := ok_or (try_from 16 (Z.of_nat (length (ai_addrs t)))) AssetIdsExhausted at t in
      (mkAssets (<[addr := id]> (ai_map t)) (ai_addrs t ++ [addr]), Ok id)
  end.

Definition asset_get (t : AssetInterner) (addr : Address) : option AssetId := ai_map t !! addr.
Definition asset_address (t : AssetInterner) (id : AssetId) : option Address :=
  ai_addrs t !! Z.to_nat id.

(** ** Invariants *)

(** The map is the inverse of the entry vector. *)
Definition table_ok (t : PositionTable) : Prop :=
  forall k i, pt_map t !! k = Some i <-> (pe_key <$> pt_entries t) !! i = Some k.

Definition assets_ok (t : AssetInterner) : Prop :=
  Z.of_nat (length (ai_addrs t)) <= 2 ^ 16 /\
  forall a i, ai_map t !! a = Some i <-> (0 <= i /\ ai_addrs t !! Z.to_nat i = Some a).

Lemma table_empty_ok : table_ok table_empty.
Proof. intros k i. simpl. rewrite lookup_empty. naive_solver. Qed.

Lemma table_keys_NoDup t : table_ok t -> NoDup (pe_key <$> pt_entries t).
Proof.
  intros Ht. apply NoDup_alt. intros i j k Hi Hj. apply Ht in Hi, Hj. congruence.
Qed.

Lemma table_push_ok t k l :
  table_ok t -> pt_map t !! k = None ->
  table_ok (table_push t k (length (pt_entries t)) l).
Proof.
  intros Ht Hk k' i. unfold table_push. simpl.
  rewrite fmap_app, lookup_insert. simpl. case_decide as Hd.
  - subst k'. split.
    + intros [= <-]. rewrite lookup_app_r, length_fmap, Nat.sub_diag; [done|]. by rewrite length_fmap.
    + intros [H|[Hi H]]%lookup_app_Some.
      * apply Ht in H. congruence.
      * rewrite length_fmap in *. apply list_lookup_singleton_Some in H as [Hz _]. f_equal. lia.
  - rewrite (Ht k' i). rewrite lookup_app_Some, length_fmap. split; [naive_solver|].
    intros [H|[Hi H]]; [done|]. apply list_lookup_singleton_Some in H. naive_solver.
Qed.

(** Popping the entry that was pushed last gives the table back. *)
Lemma table_pop_push t k l :
  pt_map t !! k = None ->
  table_pop (table_push t k (length (pt_entries t)) l) = (t, Some (mkEntry k l)).
Proof.
  intros Hk. unfold table_pop, table_push. cbn.
  rewrite vec_pop_snoc. simpl.
  rewrite delete_insert_id by done. by destruct t.
Qed.

Lemma from_entries_loop_spec es m i m' :
  (forall k j, m !! k = Some j -> (j < i)%nat) ->
  from_entries_loop i es m = Ok m' ->
  forall k j, m' !! k = Some j <->
    m !! k = Some j \/ ((i <= j)%nat /\ (pe_key <$> es) !! (j - i)%nat = Some k).
Proof.
  revert m i. induction es as [|e es IH]; simpl; intros m i Hm H k j.
  { simplify_eq. naive_solver. }
  destruct (try_from_nat 32 i) as [id|] eqn:Hid; simpl in H; [|done].
  apply try_from_nat_Some in Hid as [-> _].
  destruct (m !! pe_key e) eqn:He; [done|].
  assert (forall k' j', <[pe_key e := i]> m !! k' = Some j' -> (j' < S i)%nat) as Hm'.
  { intros k' j'. rewrite lookup_insert. case_decide; [by intros [= <-]; lia|].
    intros Hj%Hm. lia. }
  rewrite (IH _ _ Hm' H).
  rewrite lookup_insert. case_decide as Hd.
  - subst. split.
    + intros [[= ->]|[Hj Hl]]; [right; split; [lia|by rewrite Nat.sub_diag]|].
      right. split; [lia|]. replace (j - i)%nat with (S (j - S i)) by lia. done.
    + intros [Hx|[Hj Hl]]; [congruence|].
      destruct (decide (i = j)) as [->|]; [by left|]. right. split; [lia|].
      by replace (j - i)%nat with (S (j - S i)) in Hl by lia.
  - split.
    + intros [Hx|[Hj Hl]]; [by left|]. right. split; [lia|].
      replace (j - i)%nat with (S (j - S i)) by lia. done.
    + intros [Hx|[Hj Hl]]; [by left|].
      destruct (decide (i = j)) as [->|].
      { rewrite Nat.sub_diag in Hl. simpl in Hl. congruence. }
      right. split; [lia|]. by replace (j - i)%nat with (S (j - S i)) in Hl by lia.
Qed.

Lemma from_entries_ok es t : from_entries es = Ok t -> table_ok t /\ pt_entries t = es.
Proof.
  unfold from_entries. intros H. destruct (from_entries_loop 0 es ∅) as [m|] eqn:E; simplify_eq.
  split; [|done]. intros k i. simpl.
  rewrite (from_entries_loop_spec es ∅ 0 m) by
    (first [done|intros ? ?; by rewrite lookup_empty]).
  rewrite lookup_empty, Nat.sub_0_r. naive_solver lia.
Qed.

#[export] Hint Resolve table_empty_ok : liq.
