(* ===== verification/Columns.v ===== *)
(** One market's balance columns: [Market], [restride] and [ensure_stride] of
    [crates/liq-state/src/store.rs].

    Position [local]'s row of a column is the [length rows] cells from
    [local * stride]; the stride is a multiple of four at least [length rows]. *)

From S2P Require Import Prelude Types.
Local Open Scope nat_scope.

Definition LINE_CELLS : nat := 4.

Record Market := mkMarket {
  m_rows : list MarketRow;
  m_stride : nat;
  m_n_pos : nat;
  m_supply : list Z;
  m_debt : list Z;
  m_slot_extra : list PositionExtraRepr
}.

(** [Market::new]. *)
Definition market_new : Market := mkMarket [] 0 0 [] [] [].

(** [Market::cell]: index of [(local, slot)] in a column. *)
Definition cell (m : Market) (local slot : nat) : option nat :=
  let! b := checked_mul_nat 64 local (m_stride m) in
  checked_add_nat 64 b slot.

(** [Market::row_range]: start and end of [local]'s row. *)
Definition row_range (m : Market) (local : nat) : option (nat * nat) :=
  let! start := checked_mul_nat 64 local (m_stride m) in
  let! stop := checked_add_nat 64 start (length (m_rows m)) in
  Some (start, stop).

(** [usize::checked_next_multiple_of]. *)
Definition checked_next_multiple_of (a k : nat) : option nat :=
  match a mod k with
  | 0 => Some a
  | r => checked_add_nat 64 a (k - r)
  end.

(** [<[T]>::copy_within(src..src + n, dst)] and [<[T]>::fill] on [lo..hi]. *)
Definition copy_within {A} (l : list A) (src n dst : nat) : list A :=
  take dst l ++ take n (drop src l) ++ drop (dst + n) l.
Definition fill {A} (l : list A) (lo hi : nat) (x : A) : list A :=
  take lo l ++ replicate (hi - lo) x ++ drop hi l.

Section Restride.
Context {A : Type} (dflt : A).

(** One iteration of [restride]'s loop, for row [l]. *)
Definition restride_row (total old new l : nat) (col : list A) : list A * Result StateError unit :=
  let# src := ok_or (checked_mul_nat 64 l old) Inconsistent at col in
  let# src_end := ok_or (checked_add_nat 64 src old) Inconsistent at col in
  let# dst := ok_or (checked_mul_nat 64 l new) Inconsistent at col in
  let# dst_mid := ok_or (checked_add_nat 64 dst old) Inconsistent at col in
  let# dst_end := ok_or (checked_add_nat 64 dst new) Inconsistent at col in
  if (total <? src_end) || (total <? dst_end) then (col, Err Inconsistent) else
  let col := copy_within col src old dst in
  let col := if (dst_mid <=? dst_end) && (dst_end <=? length col)
             then fill col dst_mid dst_end dflt else col in
  (col, Ok tt).

(** The loop [for l in (0..n_pos).rev()]. *)
Fixpoint restride_loop (total old new n : nat) (col : list A) : list A * Result StateError unit :=
  match n with
  | O => (col, Ok tt)
  | S l =>
      match restride_row total old new l col with
      | (col, Ok _) => restride_loop total old new l col
      | (col, Err e) => (col, Err e)
      end
  end.

Definition restride (col : list A) (n_pos old new : nat) : list A * Result StateError unit :=
  let# total := ok_or (checked_mul_nat 64 n_pos new) Inconsistent at col in
  restride_loop total old new n_pos (resize total dflt col).
End Restride.

(** [Market::ensure_stride]: an error leaves the columns re-laid so far. *)
Definition ensure_stride (m : Market) (slots : nat) : Market * Result StateError unit :=
  if slots <=? m_stride m then (m, Ok tt) else
  let# new := ok_or (checked_next_multiple_of slots LINE_CELLS) Inconsistent at m in
  let n := m_n_pos m in
  match restride 0%Z (m_supply m) n (m_stride m) new with
  | (c, Err e) => (mkMarket (m_rows m) (m_stride m) n c (m_debt m) (m_slot_extra m), Err e)
  | (supply, Ok _) =>
  match restride 0%Z (m_debt m) n (m_stride m) new with
  | (c, Err e) => (mkMarket (m_rows m) (m_stride m) n supply c (m_slot_extra m), Err e)
  | (debt, Ok _) =>
  match restride EXTRA_ZERO (m_slot_extra m) n (m_stride m) new with
  | (c, Err e) => (mkMarket (m_rows m) (m_stride m) n supply debt c, Err e)
  | (se, Ok _) => (mkMarket (m_rows m) new n supply debt se, Ok tt)
  end end end.

(** ** What a re-lay does to a column *)

(** Cell [j] of row [l] at stride [st]. *)
Definition cell_at {A} (col : list A) (st l j : nat) : option A := col !! (l * st + j).

Lemma lookup_copy_within {A} (l : list A) src n dst i :
  dst <= length l -> src + n <= length l -> dst + n <= length l ->
  copy_within l src n dst !! i =
    if decide (dst <= i < dst + n) then l !! (src + (i - dst)) else l !! i.
Proof.
  intros Hd Hs Hdn. unfold copy_within. case_decide as Hi.
  - rewrite lookup_app_r by (rewrite length_take; lia). rewrite length_take, Nat.min_l by lia.
    rewrite lookup_app_l by (rewrite length_take, length_drop; lia).
    by rewrite lookup_take_lt, lookup_drop by lia.
  - destruct (decide (i < dst)).
    + rewrite lookup_app_l by (rewrite length_take; lia). by rewrite lookup_take_lt by lia.
    + rewrite lookup_app_r by (rewrite length_take; lia). rewrite length_take, Nat.min_l by lia.
      rewrite lookup_app_r by (rewrite length_take, length_drop; lia).
      rewrite length_take, length_drop, lookup_drop. f_equal. lia.
Qed.

Lemma length_copy_within {A} (l : list A) src n dst :
  src + n <= length l -> dst + n <= length l -> length (copy_within l src n dst) = length l.
Proof. intros. unfold copy_within. rewrite !length_app, !length_take, !length_drop. lia. Qed.

Lemma lookup_fill {A} (l : list A) lo hi x i :
  lo <= hi <= length l ->
  fill l lo hi x !! i = if decide (lo <= i < hi) then Some x else l !! i.
Proof.
  intros H. unfold fill. case_decide as Hi.
  - rewrite lookup_app_r by (rewrite length_take; lia). rewrite length_take, Nat.min_l by lia.
    rewrite lookup_app_l by (rewrite length_replicate; lia). apply lookup_replicate_2. lia.
  - destruct (decide (i < lo)).
    + rewrite lookup_app_l by (rewrite length_take; lia). by rewrite lookup_take_lt by lia.
    + rewrite lookup_app_r by (rewrite length_take; lia). rewrite length_take, Nat.min_l by lia.
      rewrite lookup_app_r by (rewrite length_replicate; lia).
      rewrite length_replicate, lookup_drop. f_equal. lia.
Qed.

Lemma length_fill {A} (l : list A) lo hi x : lo <= hi <= length l -> length (fill l lo hi x) = length l.
Proof. intros. unfold fill. rewrite !length_app, length_take, length_replicate, length_drop. lia. Qed.

(** One row: rows at or above [l] and below it are separate, so the row arrives in place
    and the cells before [l * old] are untouched. *)
Lemma restride_row_ok {A} (d : A) total old new l (col : list A) :
  old <= new -> length col = total -> S l * new <= total ->
  (Z.of_nat total <= umax 64)%Z ->
  exists col', restride_row d total old new l col = (col', Ok tt) /\ length col' = total /\
    forall i, col' !! i =
      if decide (l * new <= i < l * new + old) then col !! (l * old + (i - l * new))
      else if decide (l * new + old <= i < S l * new) then Some d else col !! i.
Proof.
  intros Ho Hlen Htot Hmax. assert (l * old <= l * new) by (apply Nat.mul_le_mono_l; lia).
  simpl in Htot. unfold restride_row.
  rewrite (proj2 (checked_mul_nat_Some 64 l old (l * old))) by (split; [done|lia]). cbn [ok_or].
  rewrite (proj2 (checked_add_nat_Some 64 (l * old) old (l * old + old))) by (split; [done|lia]). cbn [ok_or].
  rewrite (proj2 (checked_mul_nat_Some 64 l new (l * new))) by (split; [done|lia]). cbn [ok_or].
  rewrite (proj2 (checked_add_nat_Some 64 (l * new) old (l * new + old))) by (split; [done|lia]). cbn [ok_or].
  rewrite (proj2 (checked_add_nat_Some 64 (l * new) new (l * new + new))) by (split; [done|lia]). cbn [ok_or].
  rewrite (proj2 (Nat.ltb_ge total (l * old + old))) by lia.
  rewrite (proj2 (Nat.ltb_ge total (l * new + new))) by lia. cbn [orb].
  rewrite length_copy_within by lia.
  rewrite (proj2 (Nat.leb_le (l * new + old) (l * new + new))) by lia.
  rewrite (proj2 (Nat.leb_le (l * new + new) (length col))) by lia. cbn [andb].
  eexists. split; [reflexivity|]. split.
  { rewrite length_fill, length_copy_within by (rewrite ?length_copy_within; lia). lia. }
  intros i. rewrite lookup_fill by (rewrite length_copy_within by lia; lia).
  rewrite lookup_copy_within by lia.
  repeat case_decide; try lia; done.
Qed.

Lemma restride_loop_ok {A} (d : A) total old new n (col : list A) :
  old <= new -> length col = total -> n * new <= total -> (Z.of_nat total <= umax 64)%Z ->
  exists col', restride_loop d total old new n col = (col', Ok tt) /\ length col' = total /\
    (forall i, n * new <= i -> col' !! i = col !! i) /\
    (forall l j, l < n -> j < new ->
       cell_at col' new l j = if decide (j < old) then cell_at col old l j else Some d).
Proof.
  intros Ho Hlen Hn Hmax. revert col Hlen Hn. induction n as [|l IH]; intros col Hlen Hn.
  { exists col. split; [done|]. split; [done|]. split; [done|lia]. }
  destruct (restride_row_ok d total old new l col Ho Hlen Hn Hmax) as (c1 & E1 & L1 & V1).
  simpl in Hn. destruct (IH c1 L1 ltac:(lia)) as (c2 & E2 & L2 & Hi2 & V2).
  exists c2. simpl. rewrite E1. split; [done|]. split; [done|]. split.
  { intros i Hi. simpl in Hi. rewrite Hi2, V1 by lia. by rewrite !decide_False by lia. }
  intros l' j Hl Hj. destruct (decide (l' = l)) as [->|].
  - unfold cell_at. rewrite Hi2, V1 by lia. repeat case_decide; try lia; [|done].
    f_equal. lia.
  - rewrite V2 by lia. case_decide; [|done]. unfold cell_at. rewrite V1.
    assert (S l' * old <= l * old) by (apply Nat.mul_le_mono_r; lia).
    assert (l * old <= l * new) by (apply Nat.mul_le_mono_l; lia).
    simpl in *. by rewrite !decide_False by lia.
Qed.

(** Re-laying a column of [n] rows keeps every old cell and zeroes the new ones. *)
Lemma restride_ok {A} (d : A) (col : list A) n old new :
  old <= new -> length col = n * old -> (Z.of_nat (n * new) <= umax 64)%Z ->
  exists col', restride d col n old new = (col', Ok tt) /\ length col' = n * new /\
    forall l j, l < n -> j < new ->
      cell_at col' new l j = if decide (j < old) then cell_at col old l j else Some d.
Proof.
  intros Ho Hlen Hmax. unfold restride.
  rewrite (proj2 (checked_mul_nat_Some 64 n new (n * new))) by done. cbn.
  assert (n * old <= n * new) by (apply Nat.mul_le_mono_l; lia).
  destruct (restride_loop_ok d (n * new) old new n (resize (n * new) d col) Ho) as (c & E & L & _ & V);
    [by rewrite length_resize|lia|done|].
  exists c. split; [done|]. split; [done|]. intros l j Hl Hj. rewrite V by done.
  case_decide; [|done]. unfold cell_at. apply lookup_resize; [|].
  - assert (S l * old <= n * old) by (apply Nat.mul_le_mono_r; lia). simpl in *. lia.
  - assert (S l * old <= n * old) by (apply Nat.mul_le_mono_r; lia). simpl in *. lia.
Qed.

Lemma next_multiple_4 a :
  (Z.of_nat a <= umax 16)%Z ->
  exists k, checked_next_multiple_of a LINE_CELLS = Some k /\ a <= k < a + 4 /\ k mod 4 = 0.
Proof.
  intros Ha. unfold checked_next_multiple_of, LINE_CELLS.
  pose proof (Nat.mod_upper_bound a 4 ltac:(lia)) as Hr.
  pose proof (Nat.div_mod_eq a 4) as Hq.
  destruct (a mod 4) as [|r] eqn:E; [by exists a; split; [|split; [lia|]]|].
  exists (a + (4 - S r)). split; [|split; [lia|]].
  - apply checked_add_nat_Some. split; [done|]. unfold umax in *. lia.
  - replace (a + (4 - S r)) with (0 + (a / 4 + 1) * 4) by lia. by rewrite Nat.Div0.mod_add.
Qed.
