(* ===== verification/Undo.v ===== *)
(** The undo ring: [crates/liq-state/src/undo.rs].

    One record of inverses per block of the last [UNDO_DEPTH] blocks. A [Vec] is a list
    whose last element is the top of the stack. Vector capacities, and the [overflows]
    telemetry derived from them, are not part of the model: the allocator chooses them and
    nothing reads them back. *)

From S2P Require Import Prelude Types.
Local Open Scope Z_scope.

Definition UNDO_DEPTH : nat := 128.

Inductive UndoOp :=
| USupply (pos : PositionId) (slot : nat) (prev_set : bool) (prev : Z)
| UDebt (pos : PositionId) (slot : nat) (prev_set : bool) (prev : Z)
| UExtra (pos : PositionId)
| USlotExtra (pos : PositionId) (slot : nat)
| UMarket (at_ : MarketSlot)
| UCreated (pos : PositionId)
| UPushed (market : MarketId) (created : bool).

Record BlockUndo := mkUndo {
  bu_ops : list UndoOp;
  bu_extras : list PositionExtraRepr;
  bu_rows : list MarketRow
}.

(** [BlockUndo::default], which [clear] also leaves. *)
Definition undo_empty : BlockUndo := mkUndo [] [] [].
Definition undo_clear (_ : BlockUndo) : BlockUndo := undo_empty.

Record UndoRing := mkRing {
  ur_blocks : list BlockUndo;
  ur_head : nat;
  ur_tip : BlockNum;
  ur_floor : BlockNum
}.

Definition ring_new (base : BlockNum) : UndoRing :=
  mkRing (replicate UNDO_DEPTH undo_empty) 0 base base.

Definition depth (r : UndoRing) : Z := saturating_sub (ur_tip r) (ur_floor r).

Definition wrap (i : nat) : nat := (i mod UNDO_DEPTH)%nat.

(** [UndoRing::begin]. *)
Definition ring_begin (r : UndoRing) (block : BlockNum) : UndoRing * Result StateError unit :=
  if decide (checked_add 64 (ur_tip r) 1 = Some block) then
    let head := match checked_add_nat 64 (ur_head r) 1 with Some h => wrap h | None => 0%nat end in
    let k := Z.of_nat UNDO_DEPTH in
    let floor := if k <? saturating_sub block (ur_floor r)
                 then saturating_sub block k else ur_floor r in
    let blocks := alter undo_clear head (ur_blocks r) in
    (mkRing blocks head block floor, Ok tt)
  else (r, Err (BlockGap (ur_tip r) block)).

(** [UndoRing::current] and a write through it: nothing while no block is open. *)
Definition upd_current (f : BlockUndo -> BlockUndo) (r : UndoRing) : UndoRing :=
  if depth r =? 0 then r
  else mkRing (alter f (ur_head r) (ur_blocks r)) (ur_head r) (ur_tip r) (ur_floor r).

Definition ring_push (op : UndoOp) : UndoRing -> UndoRing :=
  upd_current (fun rec => mkUndo (bu_ops rec ++ [op]) (bu_extras rec) (bu_rows rec)).

Definition ring_push_extra (pos : PositionId) (prev : PositionExtraRepr) : UndoRing -> UndoRing :=
  upd_current (fun rec => mkUndo (bu_ops rec ++ [UExtra pos]) (bu_extras rec ++ [prev]) (bu_rows rec)).

Definition ring_push_slot_extra (pos : PositionId) (slot : nat) (prev : PositionExtraRepr)
    : UndoRing -> UndoRing :=
  upd_current (fun rec =>
    mkUndo (bu_ops rec ++ [USlotExtra pos slot]) (bu_extras rec ++ [prev]) (bu_rows rec)).

Definition ring_push_market (at_ : MarketSlot) (prev : MarketRow) : UndoRing -> UndoRing :=
  upd_current (fun rec => mkUndo (bu_ops rec ++ [UMarket at_]) (bu_extras rec) (bu_rows rec ++ [prev])).

(** [UndoRing::slot_of]. *)
Definition slot_of (r : UndoRing) (block : BlockNum) : option nat :=
  if (block <=? ur_floor r) || (ur_tip r <? block) then None else
  let! back := checked_sub (ur_tip r) block in
  let back := Z.to_nat back in
  let! h := checked_add_nat 64 (ur_head r) UNDO_DEPTH in
  let! s := checked_sub_nat h (wrap back) in
  Some (wrap s).

(** [UndoRing::take] and [UndoRing::put]. *)
Definition ring_take (r : UndoRing) (slot : nat) : UndoRing * option BlockUndo :=
  match ur_blocks r !! slot with
  | Some rec => (mkRing (<[slot := undo_empty]> (ur_blocks r)) (ur_head r) (ur_tip r) (ur_floor r),
                 Some rec)
  | None => (r, None)
  end.

Definition ring_put (r : UndoRing) (slot : nat) (rec : BlockUndo) : UndoRing :=
  mkRing (<[slot := undo_clear rec]> (ur_blocks r)) (ur_head r) (ur_tip r) (ur_floor r).

(** [UndoRing::rewind]. *)
Definition rewind (r : UndoRing) (target : BlockNum) : UndoRing * Result StateError unit :=
  let# back := ok_or (checked_sub (ur_tip r) target) Inconsistent at r in
  let back := Z.to_nat back in
  let# h := ok_or (let! h := checked_add_nat 64 (ur_head r) UNDO_DEPTH in
                   checked_sub_nat h (wrap back)) Inconsistent at r in
  (mkRing (ur_blocks r) (wrap h) target (ur_floor r), Ok tt).

(** ** Invariant *)

Record ring_ok (r : UndoRing) : Prop := {
  ro_blocks : length (ur_blocks r) = UNDO_DEPTH;
  ro_head : (ur_head r < UNDO_DEPTH)%nat;
  ro_floor : 0 <= ur_floor r;
  ro_order : ur_floor r <= ur_tip r;
  ro_tip : ur_tip r <= umax 64;
  ro_depth : ur_tip r - ur_floor r <= Z.of_nat UNDO_DEPTH
}.

Ltac ring_lia :=
  unfold saturating_sub, UNDO_DEPTH in *; repeat (case_match; zbool); lia.

(** The record a block's inverses are in. *)
Definition record_of (r : UndoRing) (block : BlockNum) : option BlockUndo :=
  let! s := slot_of r block in ur_blocks r !! s.

(** Ring slot of the record [k] blocks below the tip. *)
Definition slot_back (head k : nat) : nat := ((head + UNDO_DEPTH - k) mod UNDO_DEPTH)%nat.

Lemma slot_back_lt h k : (slot_back h k < UNDO_DEPTH)%nat.
Proof. apply Nat.mod_upper_bound. unfold UNDO_DEPTH. lia. Qed.

Lemma slot_back_cases h k :
  (h < UNDO_DEPTH)%nat -> (k < UNDO_DEPTH)%nat ->
  slot_back h k = if decide (k <= h)%nat then (h - k)%nat else (h + UNDO_DEPTH - k)%nat.
Proof.
  unfold slot_back, UNDO_DEPTH. intros Hh Hk. case_decide.
  - replace (h + 128 - k)%nat with ((h - k) + 1 * 128)%nat by lia.
    rewrite Nat.Div0.mod_add. apply Nat.mod_small. lia.
  - apply Nat.mod_small. lia.
Qed.

Lemma slot_back_inj h j k :
  (h < UNDO_DEPTH)%nat -> (j < UNDO_DEPTH)%nat -> (k < UNDO_DEPTH)%nat ->
  slot_back h j = slot_back h k -> j = k.
Proof.
  intros Hh Hj Hk. rewrite !slot_back_cases by done. unfold UNDO_DEPTH in *.
  repeat case_decide; lia.
Qed.

(** Advancing the head shifts every record one further back. *)
Lemma slot_back_succ h k :
  (h < UNDO_DEPTH)%nat -> (S k < UNDO_DEPTH)%nat ->
  slot_back (wrap (h + 1)) (S k) = slot_back h k.
Proof.
  intros Hh Hk. assert (wrap (h + 1) < UNDO_DEPTH)%nat as Hw
    by (apply Nat.mod_upper_bound; unfold UNDO_DEPTH; lia).
  rewrite !slot_back_cases by lia. unfold wrap, UNDO_DEPTH in *.
  destruct (decide (h = 127)%nat) as [->|].
  - change ((127 + 1) mod 128)%nat with 0%nat. repeat case_decide; lia.
  - rewrite !Nat.mod_small in * by lia. repeat case_decide; lia.
Qed.

(** Moving the head back by [j] brings the record [j + k] back to [k]. *)
Lemma slot_back_back h j k :
  (h < UNDO_DEPTH)%nat -> (j + k < UNDO_DEPTH)%nat ->
  slot_back (slot_back h j) k = slot_back h (j + k).
Proof.
  intros Hh Hjk. pose proof (slot_back_lt h j).
  rewrite (slot_back_cases (slot_back h j)), !slot_back_cases by (done || lia).
  unfold UNDO_DEPTH in *. repeat case_decide; lia.
Qed.

Lemma slot_of_Some r b :
  ring_ok r -> ur_floor r < b <= ur_tip r ->
  slot_of r b = Some (slot_back (ur_head r) (Z.to_nat (ur_tip r - b))).
Proof.
  intros [] Hb. unfold slot_of.
  rewrite (proj2 (Z.leb_gt b (ur_floor r))), (proj2 (Z.ltb_ge (ur_tip r) b)) by lia. cbn [orb].
  rewrite (proj2 (checked_sub_Some (ur_tip r) b (ur_tip r - b))) by lia.
  assert (wrap (Z.to_nat (ur_tip r - b)) = Z.to_nat (ur_tip r - b)) as Hw.
  { unfold wrap. apply Nat.mod_small. unfold UNDO_DEPTH in *. lia. }
  cbv zeta. rewrite Hw.
  rewrite (proj2 (checked_add_nat_Some 64 (ur_head r) UNDO_DEPTH (ur_head r + UNDO_DEPTH)%nat)).
  2: { split; [done|]. unfold umax, UNDO_DEPTH in *. lia. }
  rewrite (proj2 (checked_sub_nat_Some (ur_head r + UNDO_DEPTH) (Z.to_nat (ur_tip r - b))
             (ur_head r + UNDO_DEPTH - Z.to_nat (ur_tip r - b))%nat)).
  2: { unfold UNDO_DEPTH in *. lia. }
  done.
Qed.

Lemma record_of_eq r b :
  ring_ok r -> ur_floor r < b <= ur_tip r ->
  record_of r b = ur_blocks r !! slot_back (ur_head r) (Z.to_nat (ur_tip r - b)).
Proof. intros. unfold record_of. by rewrite slot_of_Some. Qed.

Lemma record_of_is_Some r b :
  ring_ok r -> ur_floor r < b <= ur_tip r -> is_Some (record_of r b).
Proof.
  intros Hr Hb. rewrite record_of_eq by done. apply lookup_lt_is_Some.
  rewrite (ro_blocks r Hr). apply slot_back_lt.
Qed.

Lemma ring_new_ok base : 0 <= base <= umax 64 -> ring_ok (ring_new base).
Proof. 
  intros. unfold ring_new. constructor; cbn [ur_blocks ur_head ur_tip ur_floor];
    [by rewrite length_replicate|unfold UNDO_DEPTH; lia..].
 Qed.

Lemma slot_back_0 h : (h < UNDO_DEPTH)%nat -> slot_back h 0 = h.
Proof. intros. rewrite slot_back_cases by (unfold UNDO_DEPTH in *; lia). case_decide; lia. Qed.

(** ** [begin] *)

Lemma ring_begin_Ok r b r' :
  ring_ok r -> ring_begin r b = (r', Ok tt) ->
  b = ur_tip r + 1 /\ ring_ok r' /\ ur_tip r' = b /\
  ur_floor r' = Z.max (ur_floor r) (b - Z.of_nat UNDO_DEPTH) /\
  record_of r' b = Some undo_empty /\
  forall c, ur_floor r' < c <= ur_tip r -> record_of r' c = record_of r c.
Proof.
  intros Hr H. pose proof Hr as []. unfold ring_begin in H. case_decide as Hd; [|done].
  apply checked_add_Some in Hd as [-> Hmax].
  rewrite (proj2 (checked_add_nat_Some 64 (ur_head r) 1 (ur_head r + 1)%nat)) in H
    by (split; [done|]; unfold umax, UNDO_DEPTH in *; lia).
  assert (wrap (ur_head r + 1) < UNDO_DEPTH)%nat as Hw
    by (apply Nat.mod_upper_bound; unfold UNDO_DEPTH; lia).
  simplify_eq. split; [done|].
  assert (ring_ok (mkRing (alter undo_clear (wrap (ur_head r + 1)) (ur_blocks r))
    (wrap (ur_head r + 1)) (ur_tip r + 1)
    (if Z.of_nat UNDO_DEPTH <? saturating_sub (ur_tip r + 1) (ur_floor r)
     then saturating_sub (ur_tip r + 1) (Z.of_nat UNDO_DEPTH) else ur_floor r))) as Hr'.
  { constructor; cbn [ur_blocks ur_head ur_tip ur_floor];
      [by rewrite length_alter|done|ring_lia..]. }
  split; [done|]. split; [done|]. cbn [ur_floor ur_tip]. split.
  { ring_lia. }
  split.
  - rewrite record_of_eq by (try done; cbn [ur_floor ur_tip]; ring_lia).
    cbn [ur_blocks ur_head ur_tip]. rewrite Z.sub_diag, slot_back_0 by done.
    rewrite list_lookup_alter_eq.
    destruct (lookup_lt_is_Some_2 (ur_blocks r) (wrap (ur_head r + 1))) as [x ->]; [by rewrite ro_blocks0|done].
  - intros c Hc. rewrite !record_of_eq; [|done|..].
    + cbn [ur_blocks ur_head ur_tip].
      replace (Z.to_nat (ur_tip r + 1 - c)) with (S (Z.to_nat (ur_tip r - c))) by lia.
      assert (S (Z.to_nat (ur_tip r - c)) < UNDO_DEPTH)%nat.
      { ring_lia. }
      rewrite <- (slot_back_succ (ur_head r)) by lia.
      apply list_lookup_alter_ne. intros E.
      rewrite <- (slot_back_0 (wrap (ur_head r + 1))) in E at 1 by done.
      apply slot_back_inj in E; unfold UNDO_DEPTH in *; lia.
    + ring_lia.
    + done.
    + cbn [ur_floor ur_tip]. lia.
Qed.

(** ** Pushing an inverse *)

Lemma depth_eq r : ring_ok r -> depth r = ur_tip r - ur_floor r.
Proof. intros []. unfold depth, saturating_sub. lia. Qed.

Lemma upd_current_ok f r : ring_ok r -> ring_ok (upd_current f r).
Proof.
  intros Hr. unfold upd_current. case_match; [done|]. destruct Hr.
  constructor; cbn; try done. by rewrite length_alter.
Qed.

Lemma upd_current_tip f r : ur_tip (upd_current f r) = ur_tip r.
Proof. unfold upd_current. by case_match. Qed.
Lemma upd_current_floor f r : ur_floor (upd_current f r) = ur_floor r.
Proof. unfold upd_current. by case_match. Qed.

Lemma upd_current_record f r :
  ring_ok r -> ur_floor r < ur_tip r ->
  record_of (upd_current f r) (ur_tip r) = f <$> record_of r (ur_tip r) /\
  forall b, ur_floor r < b < ur_tip r -> record_of (upd_current f r) b = record_of r b.
Proof.
  intros Hr Hd. pose proof (upd_current_ok f r Hr) as Hr'.
  assert ((depth r =? 0) = false) as Hz by (rewrite depth_eq by done; apply Z.eqb_neq; lia).
  pose proof (ro_head r Hr) as Hh.
  split.
  - rewrite !record_of_eq; [|done|lia|done|rewrite upd_current_tip, upd_current_floor; lia].
    unfold upd_current. rewrite Hz. cbn [ur_blocks ur_head ur_tip].
    rewrite Z.sub_diag, slot_back_0 by done. apply list_lookup_alter_eq.
  - intros b Hb. rewrite !record_of_eq;
      [|done|lia|done|rewrite upd_current_tip, upd_current_floor; lia].
    unfold upd_current. rewrite Hz. cbn [ur_blocks ur_head ur_tip].
    apply list_lookup_alter_ne. intros E.
    rewrite <- (slot_back_0 (ur_head r)) in E at 1 by done.
    pose proof (ro_depth r Hr).
    apply slot_back_inj in E; unfold UNDO_DEPTH in *; lia.
Qed.

Lemma upd_current_closed f r : ring_ok r -> ur_floor r = ur_tip r -> upd_current f r = r.
Proof. intros Hr E. unfold upd_current. rewrite depth_eq, E, Z.sub_diag by done. done. Qed.

(** ** [take]/[put] and [rewind] *)

(** Two rings agree outside block [b]. *)
Lemma ring_put_spec r b rec s :
  ring_ok r -> ur_floor r < b <= ur_tip r -> slot_of r b = Some s ->
  ring_ok (ring_put r s rec) /\
  forall c, ur_floor r < c <= ur_tip r -> c <> b -> record_of (ring_put r s rec) c = record_of r c.
Proof.
  intros Hr Hb Hs. assert (ring_ok (ring_put r s rec)) as Hr'.
  { destruct Hr. constructor; cbn; try done. by rewrite length_insert. }
  split; [done|]. intros c Hc Hne.
  rewrite slot_of_Some in Hs by done. simplify_eq.
  rewrite !record_of_eq by done. cbn [ring_put ur_blocks ur_head ur_tip].
  apply list_lookup_insert_ne. intros E. pose proof (ro_head r Hr). pose proof (ro_depth r Hr).
  apply slot_back_inj in E; unfold UNDO_DEPTH in *; lia.
Qed.

Lemma rewind_spec r t :
  ring_ok r -> ur_floor r <= t <= ur_tip r ->
  exists r', rewind r t = (r', Ok tt) /\ ring_ok r' /\ ur_tip r' = t /\ ur_floor r' = ur_floor r /\
    forall c, ur_floor r < c <= t -> record_of r' c = record_of r c.
Proof.
  intros Hr Ht. pose proof Hr as []. unfold rewind.
  rewrite (proj2 (checked_sub_Some (ur_tip r) t (ur_tip r - t))) by lia. cbn [ok_or]. cbv zeta.
  rewrite (proj2 (checked_add_nat_Some 64 (ur_head r) UNDO_DEPTH (ur_head r + UNDO_DEPTH)%nat)).
  2: { split; [done|]. unfold umax, UNDO_DEPTH in *. lia. }
  set (k := Z.to_nat (ur_tip r - t)).
  assert (wrap k < UNDO_DEPTH)%nat as Hk by (apply Nat.mod_upper_bound; unfold UNDO_DEPTH; lia).
  rewrite (proj2 (checked_sub_nat_Some (ur_head r + UNDO_DEPTH) (wrap k)
             (ur_head r + UNDO_DEPTH - wrap k)%nat)) by lia.
  cbn [ok_or]. eexists. split; [reflexivity|].
  assert (ring_ok (mkRing (ur_blocks r) (wrap (ur_head r + UNDO_DEPTH - wrap k)) t (ur_floor r))) as Hr'.
  { constructor; cbn [ur_blocks ur_head ur_tip ur_floor]; try lia.
    apply Nat.mod_upper_bound. unfold UNDO_DEPTH. lia. }
  split; [done|]. split; [done|]. split; [done|]. intros c Hc.
  rewrite !record_of_eq; [|done|lia|done|cbn; lia]. cbn [ur_blocks ur_head ur_tip].
  change (wrap (ur_head r + UNDO_DEPTH - wrap k)) with (slot_back (ur_head r) (wrap k)).
  assert (wrap k = k) as -> by (apply Nat.mod_small; unfold UNDO_DEPTH in *; lia).
  rewrite slot_back_back by (unfold UNDO_DEPTH in *; lia). do 2 f_equal. lia.
Qed.
