(* ===== verification/Store.v ===== *)
(** The state store: [StateStore] of [crates/liq-state/src/store.rs].

    The single-writer in-memory mirror: per-position columns ([config], [extra], the
    interner's entries), one [Market] per market, a direct [MarketId] table and the undo
    ring. Every mutator resolves what it touches, journals the inverse and then writes; it
    returns the state with its outcome, so an early return shows what was left behind.
    Vector reservations have no effect on the values and are not modelled. *)

From S2P Require Import Prelude Mask Types Interner Columns Undo.
Local Open Scope Z_scope.

(** [NO_MARKET] = [u16::MAX], the empty entry of [market_index]; [MAX_MARKETS]. *)
Definition NO_MARKET : Z := umax 16.
Definition MAX_MARKETS : Z := MARKET_ID_LIMIT.

Inductive Col := Supply | Debt.

#[export] Instance Col_eq_dec : EqDecision Col.
Proof. solve_decision. Defined.

Definition col_get (c : Col) (m : Market) : list Z :=
  match c with Supply => m_supply m | Debt => m_debt m end.
Definition col_set (c : Col) (v : list Z) (m : Market) : Market :=
  match c with
  | Supply => mkMarket (m_rows m) (m_stride m) (m_n_pos m) v (m_debt m) (m_slot_extra m)
  | Debt => mkMarket (m_rows m) (m_stride m) (m_n_pos m) (m_supply m) v (m_slot_extra m)
  end.
Definition other_col (c : Col) : Col := match c with Supply => Debt | Debt => Supply end.

Record StateStore := mkStore {
  st_config : list AssetMask;
  st_positions : PositionTable;
  st_extra : list PositionExtraRepr;
  st_markets : list Market;
  st_market_index : list Z;
  st_undo : UndoRing;
  st_writes : Z
}.

Record PositionRef := mkPosRef {
  pr_id : PositionId;
  pr_key : PositionKey;
  pr_config : AssetMask;
  pr_supply : list Z;
  pr_debt : list Z;
  pr_extra : PositionExtraRepr;
  pr_slot_extra : list PositionExtraRepr;
  pr_markets : list MarketRow;
  pr_timestamp : Timestamp
}.

(** [StateStore::new]. *)
Definition store_new (base : BlockNum) : StateStore :=
  mkStore [] table_empty [] [] [] (ring_new base) 0.

Definition market_idx (index : list Z) (id : MarketId) : option nat :=
  let! i := index !! id in
  if i =? NO_MARKET then None else Some (Z.to_nat i).

(** [StateStore::market]. *)
Definition find_market (s : StateStore) (id : MarketId) : option Market :=
  let! mi := market_idx (st_market_index s) id in st_markets s !! mi.

(** [StateStore::rows]. *)
Definition st_rows (s : StateStore) (id : MarketId) : option (list MarketRow) :=
  m_rows <$> find_market s id.

(** ** Field updates *)

Definition set_undo (u : UndoRing) (s : StateStore) : StateStore :=
  mkStore (st_config s) (st_positions s) (st_extra s) (st_markets s) (st_market_index s) u (st_writes s).
Definition set_market_at (mi : nat) (m : Market) (s : StateStore) : StateStore :=
  mkStore (st_config s) (st_positions s) (st_extra s) (<[mi := m]> (st_markets s))
    (st_market_index s) (st_undo s) (st_writes s).
Definition set_config_at (i : nat) (c : AssetMask) (s : StateStore) : StateStore :=
  mkStore (<[i := c]> (st_config s)) (st_positions s) (st_extra s) (st_markets s)
    (st_market_index s) (st_undo s) (st_writes s).
Definition set_extra_at (i : nat) (e : PositionExtraRepr) (s : StateStore) : StateStore :=
  mkStore (st_config s) (st_positions s) (<[i := e]> (st_extra s)) (st_markets s)
    (st_market_index s) (st_undo s) (st_writes s).
Definition set_index (ix : list Z) (s : StateStore) : StateStore :=
  mkStore (st_config s) (st_positions s) (st_extra s) (st_markets s) ix (st_undo s) (st_writes s).
Definition bump_writes (s : StateStore) : StateStore :=
  mkStore (st_config s) (st_positions s) (st_extra s) (st_markets s) (st_market_index s) (st_undo s)
    (wrapping_add 64 (st_writes s) 1).

Definition set_rows (rows : list MarketRow) (m : Market) : Market :=
  mkMarket rows (m_stride m) (m_n_pos m) (m_supply m) (m_debt m) (m_slot_extra m).
Definition set_slot_extra_col (v : list PositionExtraRepr) (m : Market) : Market :=
  mkMarket (m_rows m) (m_stride m) (m_n_pos m) (m_supply m) (m_debt m) v.

(** ** Reads *)

Definition tip (s : StateStore) : BlockNum := ur_tip (st_undo s).
Definition floor (s : StateStore) : BlockNum := ur_floor (st_undo s).
Definition store_len (s : StateStore) : nat := table_len (st_positions s).
Definition position_id (s : StateStore) (k : PositionKey) : option PositionId :=
  table_get (st_positions s) k.

(** [l.get(range)] on a slice. *)
Definition slice_get {A} (l : list A) (range : nat * nat) : option (list A) :=
  let '(lo, hi) := range in
  if (lo <=? hi)%nat && (hi <=? length l)%nat then Some (take (hi - lo) (drop lo l)) else None.

Definition position_ref (s : StateStore) (id : PositionId) (timestamp : Timestamp)
    : Result StateError PositionRef :=
  let? config := ok_or (st_config s !! id) (SUnknownPosition id) in
  let? entry := ok_or (table_entry (st_positions s) id) (SUnknownPosition id) in
  let? extra := ok_or (st_extra s !! id) (SUnknownPosition id) in
  let market := pk_market (pe_key entry) in
  let? m := ok_or (find_market s market) (SUnknownMarket market) in
  let? range := ok_or (row_range m (pe_local entry)) Inconsistent in
  let? supply := ok_or (slice_get (m_supply m) range) Inconsistent in
  let? debt := ok_or (slice_get (m_debt m) range) Inconsistent in
  let? slot_extra := ok_or (slice_get (m_slot_extra m) range) Inconsistent in
  Ok (mkPosRef id (pe_key entry) config supply debt extra slot_extra (m_rows m) timestamp).

(** [StateWriter::supply] and [StateWriter::debt]. *)
Definition read_column (s : StateStore) (c : Col) (pos : PositionId) (slot : nat)
    : Result ProtocolError Z :=
  let? entry := ok_or (table_entry (st_positions s) pos) (PUnknownPosition pos) in
  let market := pk_market (pe_key entry) in
  let at_ := mkSlot market slot in
  let? m := ok_or (find_market s market) (PUnknownMarket market) in
  if (length (m_rows m) <=? slot)%nat then Err (SlotOutOfRange at_) else
  ok_or (let! ci := cell m (pe_local entry) slot in col_get c m !! ci) (SlotOutOfRange at_).

Definition supply (s : StateStore) (pos : PositionId) (slot : nat) : Result ProtocolError Z :=
  read_column s Supply pos slot.
Definition debt (s : StateStore) (pos : PositionId) (slot : nat) : Result ProtocolError Z :=
  read_column s Debt pos slot.

(** [StateWriter::extra], [StateWriter::slot_extra], [StateWriter::position_key],
    [StateWriter::market]. *)
Definition extra (s : StateStore) (pos : PositionId) : Result ProtocolError PositionExtraRepr :=
  ok_or (st_extra s !! pos) (PUnknownPosition pos).

Definition slot_extra (s : StateStore) (pos : PositionId) (slot : nat)
    : Result ProtocolError PositionExtraRepr :=
  let? entry := ok_or (table_entry (st_positions s) pos) (PUnknownPosition pos) in
  let market := pk_market (pe_key entry) in
  let at_ := mkSlot market slot in
  let? m := ok_or (find_market s market) (PUnknownMarket market) in
  if (length (m_rows m) <=? slot)%nat then Err (SlotOutOfRange at_) else
  ok_or (let! ci := cell m (pe_local entry) slot in m_slot_extra m !! ci) (SlotOutOfRange at_).

Definition position_key (s : StateStore) (pos : PositionId) : Result ProtocolError PositionKey :=
  ok_or (pe_key <$> table_entry (st_positions s) pos) (PUnknownPosition pos).

Definition market (s : StateStore) (at_ : MarketSlot) : Result ProtocolError MarketRow :=
  let? rows := ok_or (st_rows s (ms_market at_)) (PUnknownMarket (ms_market at_)) in
  ok_or (rows !! ms_slot at_) (SlotOutOfRange at_).

Definition markets (s : StateStore) (id : MarketId) : Result ProtocolError (list MarketRow) :=
  ok_or (st_rows s id) (PUnknownMarket id).

Definition positions_len (s : StateStore) : Z :=
  default (umax 32) (try_from 32 (Z.of_nat (table_len (st_positions s)))).

(** ** Setters *)

Definition begin_block (s : StateStore) (block : BlockNum) : StateStore * Result StateError unit :=
  match ring_begin (st_undo s) block with
  | (u, r) => (set_undo u s, r)
  end.

(** [StateStore::set_column]: journal the previous cell and mask bit, then write both. *)
Definition set_column (c : Col) (pos : PositionId) (slot : nat) (shares : Z) (s : StateStore)
    : StateStore * Result ProtocolError unit :=
  let# entry := ok_or (table_entry (st_positions s) pos) (PUnknownPosition pos) at s in
  let market := pk_market (pe_key entry) in
  let local := pe_local entry in
  let at_ := mkSlot market slot in
  let# mi := ok_or (market_idx (st_market_index s) market) (PUnknownMarket market) at s in
  let# m := ok_or (st_markets s !! mi) (PUnknownMarket market) at s in
  if (length (m_rows m) <=? slot)%nat then (s, Err (SlotOutOfRange at_)) else
  let# ci := ok_or (cell m local slot) (SlotOutOfRange at_) at s in
  let# config := ok_or (st_config s !! pos) (PUnknownPosition pos) at s in
  let prev_set := contains config slot in
  let# other := ok_or (col_get (other_col c) m !! ci) (SlotOutOfRange at_) at s in
  let other_nonzero := negb (other =? 0) in
  let# prev := ok_or (col_get c m !! ci) (SlotOutOfRange at_) at s in
  let# new_config :=
    (if negb (shares =? 0) || other_nonzero
     then ok_or (with_slot config slot) (SlotOutOfRange at_)
     else Ok (without_slot config slot)) at s in
  let op := match c with
            | Supply => USupply pos slot prev_set prev
            | Debt => UDebt pos slot prev_set prev
            end in
  let s := set_undo (ring_push op (st_undo s)) s in
  let s := set_market_at mi (col_set c (<[ci := shares]> (col_get c m)) m) s in
  let s := set_config_at pos new_config s in
  (bump_writes s, Ok tt).

Definition set_supply (pos : PositionId) (slot : nat) (shares : Z) (s : StateStore) :=
  set_column Supply pos slot shares s.
Definition set_debt (pos : PositionId) (slot : nat) (shares : Z) (s : StateStore) :=
  set_column Debt pos slot shares s.

Definition intern (key : PositionKey) (s : StateStore)
    : StateStore * Result ProtocolError PositionId :=
  match table_get (st_positions s) key with
  | Some id => (s, Ok id)
  | None =>
      let market := pk_market key in
      let# mi := ok_or (market_idx (st_market_index s) market) (PUnknownMarket market) at s in
      let# m := ok_or (st_markets s !! mi) (PUnknownMarket market) at s in
      let# id := ok_or (table_next_id (st_positions s)) Internal at s in
      let local := m_n_pos m in
      let# n_pos := ok_or (checked_add_nat 32 local 1) Internal at s in
      let# cells := ok_or (checked_add_nat 64 (length (m_supply m)) (m_stride m)) Internal at s in
      let u := ring_push (UCreated id) (st_undo s) in
      let m := mkMarket (m_rows m) (m_stride m) n_pos (resize cells 0 (m_supply m))
                 (resize cells 0 (m_debt m)) (resize cells EXTRA_ZERO (m_slot_extra m)) in
      (bump_writes (mkStore (st_config s ++ [EMPTY]) (table_push (st_positions s) key id local)
         (st_extra s ++ [EXTRA_ZERO]) (<[mi := m]> (st_markets s)) (st_market_index s) u
         (st_writes s)), Ok id)
  end.

Definition set_extra (pos : PositionId) (e : PositionExtraRepr) (s : StateStore)
    : StateStore * Result ProtocolError unit :=
  let# prev := ok_or (st_extra s !! pos) (PUnknownPosition pos) at s in
  let s := set_undo (ring_push_extra pos prev (st_undo s)) s in
  (bump_writes (set_extra_at pos e s), Ok tt).

Definition set_slot_extra (pos : PositionId) (slot : nat) (e : PositionExtraRepr) (s : StateStore)
    : StateStore * Result ProtocolError unit :=
  let# entry := ok_or (table_entry (st_positions s) pos) (PUnknownPosition pos) at s in
  let market := pk_market (pe_key entry) in
  let local := pe_local entry in
  let at_ := mkSlot market slot in
  let# mi := ok_or (market_idx (st_market_index s) market) (PUnknownMarket market) at s in
  let# m := ok_or (st_markets s !! mi) (PUnknownMarket market) at s in
  if (length (m_rows m) <=? slot)%nat then (s, Err (SlotOutOfRange at_)) else
  let# ci := ok_or (cell m local slot) (SlotOutOfRange at_) at s in
  let# prev := ok_or (m_slot_extra m !! ci) (SlotOutOfRange at_) at s in
  let s := set_undo (ring_push_slot_extra pos slot prev (st_undo s)) s in
  (bump_writes (set_market_at mi (set_slot_extra_col (<[ci := e]> (m_slot_extra m)) m) s), Ok tt).

(** [row_mut]: index and market of a row address, and the row. *)
Definition row_at (s : StateStore) (at_ : MarketSlot) : option (nat * Market * MarketRow) :=
  let! mi := market_idx (st_market_index s) (ms_market at_) in
  let! m := st_markets s !! mi in
  let! r := m_rows m !! ms_slot at_ in
  Some (mi, m, r).

Definition set_market (at_ : MarketSlot) (row : MarketRow) (s : StateStore)
    : StateStore * Result ProtocolError unit :=
  let# (mi, m, prev) := ok_or (row_at s at_) (SlotOutOfRange at_) at s in
  let s := set_undo (ring_push_market at_ prev (st_undo s)) s in
  (bump_writes (set_market_at mi (set_rows (<[ms_slot at_ := row]> (m_rows m)) m) s), Ok tt).

Definition push_market (market : MarketId) (row : MarketRow) (s : StateStore)
    : StateStore * Result ProtocolError MarketSlot :=
  let '(mi, created) := match market_idx (st_market_index s) market with
                        | Some i => (i, false)
                        | None => (length (st_markets s), true)
                        end in
  if created && ((MAX_MARKETS <=? Z.of_nat market) || (MAX_MARKETS <=? Z.of_nat mi))
  then (s, Err Internal) else
  let# n := (if (created : bool) then Ok 0%nat
             else let? m := ok_or (st_markets s !! mi) (PUnknownMarket market) in
                  Ok (length (m_rows m))) at s in
  let# slot := ok_or (try_from_nat 16 n) (SlotOutOfRange (mkSlot market (Z.to_nat (umax 16)))) at s in
  let at_ := mkSlot market slot in
  if MAX_SLOTS <=? Z.of_nat slot then (s, Err (SlotOutOfRange at_)) else
  let# slots := ok_or (checked_add_nat 64 n 1) Internal at s in
  if (created : bool) then
    let# s := (if (length (st_market_index s) <=? market)%nat
               then let? len := ok_or (checked_add_nat 64 market 1) Internal in
                    Ok (set_index (resize len NO_MARKET (st_market_index s)) s)
               else Ok s) at s in
    let# mi16 := ok_or (try_from 16 (Z.of_nat mi)) Internal at s in
    match ensure_stride market_new slots with
    | (_, Err _) => (s, Err Internal)
    | (m, Ok _) =>
        let m := set_rows (m_rows m ++ [row]) m in
        if (length (st_market_index s) <=? market)%nat then (s, Err Internal) else
        let u := ring_push (UPushed market true) (st_undo s) in
        (bump_writes (mkStore (st_config s) (st_positions s) (st_extra s) (st_markets s ++ [m])
           (<[market := mi16]> (st_market_index s)) u (st_writes s)), Ok at_)
    end
  else
    let# m := ok_or (st_markets s !! mi) (PUnknownMarket market) at s in
    match ensure_stride m slots with
    | (m, Err _) => (set_market_at mi m s, Err Internal)
    | (m, Ok _) =>
        let s := set_undo (ring_push (UPushed market false) (st_undo s)) s in
        (bump_writes (set_market_at mi (set_rows (m_rows m ++ [row]) m) s), Ok at_)
    end.

(** ** Reverting *)

(** [StateStore::restore_cell]. *)
Definition restore_cell (c : Col) (pos : PositionId) (slot : nat) (prev_set : bool) (prev : Z)
    (s : StateStore) : StateStore * Result StateError unit :=
  let# entry := ok_or (table_entry (st_positions s) pos) Inconsistent at s in
  let market := pk_market (pe_key entry) in
  let local := pe_local entry in
  let# mi := ok_or (market_idx (st_market_index s) market) Inconsistent at s in
  let# m := ok_or (st_markets s !! mi) Inconsistent at s in
  let# ci := ok_or (cell m local slot) Inconsistent at s in
  let# column := ok_or (vec_set (col_get c m) ci prev) Inconsistent at s in
  let s := set_market_at mi (col_set c column m) s in
  let# config := ok_or (st_config s !! pos) Inconsistent at s in
  let# config := (if (prev_set : bool) then ok_or (with_slot config slot) Inconsistent
                  else Ok (without_slot config slot)) at s in
  (set_config_at pos config s, Ok tt).

(** [StateStore::revert]'s [Created] arm. *)
Definition revert_created (pos : PositionId) (s : StateStore) : StateStore * Result StateError unit :=
  let# last := ok_or (checked_sub_nat (table_len (st_positions s)) 1) Inconsistent at s in
  if negb (last =? pos)%nat then (s, Err Inconsistent) else
  match table_pop (st_positions s) with
  | (t, None) => (s, Err Inconsistent)
  | (t, Some entry) =>
      let s := mkStore (fst (vec_pop (st_config s))) t (fst (vec_pop (st_extra s)))
                 (st_markets s) (st_market_index s) (st_undo s) (st_writes s) in
      let# mi := ok_or (market_idx (st_market_index s) (pk_market (pe_key entry))) Inconsistent at s in
      let# m := ok_or (st_markets s !! mi) Inconsistent at s in
      let# n := ok_or (checked_sub_nat (m_n_pos m) 1) Inconsistent at s in
      if negb (pe_local entry =? n)%nat then (s, Err Inconsistent) else
      let m := mkMarket (m_rows m) (m_stride m) n (m_supply m) (m_debt m) (m_slot_extra m) in
      let s := set_market_at mi m s in
      let# len := ok_or (checked_mul_nat 64 n (m_stride m)) Inconsistent at s in
      (set_market_at mi (mkMarket (m_rows m) (m_stride m) n (take len (m_supply m))
         (take len (m_debt m)) (take len (m_slot_extra m))) s, Ok tt)
  end.

(** [StateStore::revert]'s [Pushed] arm. *)
Definition revert_pushed (market : MarketId) (created : bool) (s : StateStore)
    : StateStore * Result StateError unit :=
  let# mi := ok_or (market_idx (st_market_index s) market) Inconsistent at s in
  let# last := ok_or (checked_sub_nat (length (st_markets s)) 1) Inconsistent at s in
  let# m := ok_or (st_markets s !! mi) Inconsistent at s in
  match vec_pop (m_rows m) with
  | (_, None) => (s, Err Inconsistent)
  | (rows, Some _) =>
      let m := set_rows rows m in
      let s := set_market_at mi m s in
      if created then
        if negb (mi =? last)%nat || negb (length (m_rows m) =? 0)%nat || negb (m_n_pos m =? 0)%nat
        then (s, Err Inconsistent) else
        let s := mkStore (st_config s) (st_positions s) (st_extra s) (fst (vec_pop (st_markets s)))
                   (st_market_index s) (st_undo s) (st_writes s) in
        let# ix := ok_or (vec_set (st_market_index s) market NO_MARKET) Inconsistent at s in
        (set_index ix s, Ok tt)
      else (s, Ok tt)
  end.

(** [StateStore::revert]: the block's side tables are popped as the markers ask. *)
Definition revert (op : UndoOp) (extras : list PositionExtraRepr) (rows : list MarketRow)
    (s : StateStore)
    : StateStore * list PositionExtraRepr * list MarketRow * Result StateError unit :=
  let keep (p : StateStore * Result StateError unit) := (fst p, extras, rows, snd p) in
  match op with
  | USupply pos slot prev_set prev => keep (restore_cell Supply pos slot prev_set prev s)
  | UDebt pos slot prev_set prev => keep (restore_cell Debt pos slot prev_set prev s)
  | UExtra pos =>
      match vec_pop extras with
      | (_, None) => keep (s, Err Inconsistent)
      | (extras, Some prev) =>
          match vec_set (st_extra s) pos prev with
          | None => (s, extras, rows, Err Inconsistent)
          | Some _ => (set_extra_at pos prev s, extras, rows, Ok tt)
          end
      end
  | USlotExtra pos slot =>
      match vec_pop extras with
      | (_, None) => keep (s, Err Inconsistent)
      | (extras, Some prev) =>
          let p :=
            let# entry := ok_or (table_entry (st_positions s) pos) Inconsistent at s in
            let market := pk_market (pe_key entry) in
            let local := pe_local entry in
            let# mi := ok_or (market_idx (st_market_index s) market) Inconsistent at s in
            let# m := ok_or (st_markets s !! mi) Inconsistent at s in
            let# ci := ok_or (cell m local slot) Inconsistent at s in
            let# col := ok_or (vec_set (m_slot_extra m) ci prev) Inconsistent at s in
            (set_market_at mi (set_slot_extra_col col m) s, Ok tt) in
          (fst p, extras, rows, snd p)
      end
  | UMarket at_ =>
      match vec_pop rows with
      | (_, None) => keep (s, Err Inconsistent)
      | (rows, Some prev) =>
          match row_at s at_ with
          | None => (s, extras, rows, Err Inconsistent)
          | Some (mi, m, _) =>
              (set_market_at mi (set_rows (<[ms_slot at_ := prev]> (m_rows m)) m) s, extras, rows, Ok tt)
          end
      end
  | UCreated pos => keep (revert_created pos s)
  | UPushed market created => keep (revert_pushed market created s)
  end.

(** The loop [for op in ops.iter().rev()], newest first; it stops at the first error. *)
Fixpoint revert_all (ops : list UndoOp) (extras : list PositionExtraRepr) (rows : list MarketRow)
    (s : StateStore) : StateStore * Result StateError unit :=
  match ops with
  | [] => (s, Ok tt)
  | op :: ops' =>
      match revert op extras rows s with
      | (s, extras, rows, Ok _) => revert_all ops' extras rows s
      | (s, _, _, Err e) => (s, Err e)
      end
  end.

(** One turn of [unwind_to]'s loop: take the block's record, apply it, put it back empty. *)
Definition unwind_block (block : BlockNum) (s : StateStore) : StateStore * Result StateError unit :=
  let# slot := ok_or (slot_of (st_undo s) block) Inconsistent at s in
  match ring_take (st_undo s) slot with
  | (_, None) => (s, Err Inconsistent)
  | (u, Some rec) =>
      let s := set_undo u s in
      let '(s, result) := revert_all (rev (bu_ops rec)) (bu_extras rec) (bu_rows rec) s in
      (set_undo (ring_put (st_undo s) slot rec) s, result)
  end.

Fixpoint unwind_loop (fuel : nat) (block target : BlockNum) (s : StateStore)
    : StateStore * Result StateError unit :=
  if target <? block then
    match fuel with
    | O => (s, Err Inconsistent)
    | S f =>
        match unwind_block block s with
        | (s, Ok _) => unwind_loop f (saturating_sub block 1) target s
        | (s, Err e) => (s, Err e)
        end
    end
  else (s, Ok tt).

(** [StateStore::unwind_to]; the loop runs [tip - target] times. *)
Definition unwind_to (target : BlockNum) (s : StateStore) : StateStore * Result StateError unit :=
  let tip := ur_tip (st_undo s) in
  let floor := ur_floor (st_undo s) in
  if tip <? target then (s, Err (TargetAboveTip target tip)) else
  if target <? floor
  then (s, Err (ReorgTooDeep (saturating_sub tip target) (saturating_sub tip floor))) else
  match unwind_loop (Z.to_nat (tip - target)) tip target s with
  | (s, Err e) => (s, Err e)
  | (s, Ok _) =>
      match rewind (st_undo s) target with
      | (u, r) => (set_undo u s, r)
      end
  end.
