(* ===== verification/StoreInv.v ===== *)
(** Well-formedness of the store and the equivalence the undo ring restores it up to.

    [market_eqv]/[store_eqv] relate two stores that agree on everything a reader can see:
    they may differ in the physical stride of a market, in the length of the sparse
    [MarketId] table, in the undo ring and in the write counter. *)

From S2P Require Import Prelude Mask Types Interner Columns Undo Store.
Local Open Scope nat_scope.

(** ** Markets *)

(** The column has [n] rows of [st] cells and nothing but [z] past cell [rows] of a row. *)
Record column_ok {A} (z : A) (n st rows : nat) (col : list A) : Prop := {
  co_len : length col = n * st;
  co_pad : forall l j, l < n -> rows <= j < st -> cell_at col st l j = Some z
}.

Record market_wf (m : Market) : Prop := {
  mw_rows : length (m_rows m) <= m_stride m;
  mw_stride : m_stride m <= 128;
  mw_line : m_stride m mod LINE_CELLS = 0;
  mw_n_pos : (Z.of_nat (m_n_pos m) <= umax 32)%Z;
  mw_supply : column_ok 0%Z (m_n_pos m) (m_stride m) (length (m_rows m)) (m_supply m);
  mw_debt : column_ok 0%Z (m_n_pos m) (m_stride m) (length (m_rows m)) (m_debt m);
  mw_slot_extra : column_ok EXTRA_ZERO (m_n_pos m) (m_stride m) (length (m_rows m)) (m_slot_extra m)
}.

Definition column_eqv {A} (n rows st1 st2 : nat) (c1 c2 : list A) : Prop :=
  forall l j, l < n -> j < rows -> cell_at c1 st1 l j = cell_at c2 st2 l j.

Record market_eqv (m1 m2 : Market) : Prop := {
  me_rows : m_rows m1 = m_rows m2;
  me_n_pos : m_n_pos m1 = m_n_pos m2;
  me_col : forall c, column_eqv (m_n_pos m1) (length (m_rows m1)) (m_stride m1) (m_stride m2)
             (col_get c m1) (col_get c m2);
  me_slot_extra : column_eqv (m_n_pos m1) (length (m_rows m1)) (m_stride m1) (m_stride m2)
             (m_slot_extra m1) (m_slot_extra m2)
}.

#[export] Instance market_eqv_equivalence : Equivalence market_eqv.
Proof.
  split.
  - intros m. by constructor.
  - intros m1 m2 []. constructor; try done; intros; intros l j Hl Hj; symmetry.
    + apply me_col0; congruence.
    + apply me_slot_extra0; congruence.
  - intros m1 m2 m3 [] [].
    constructor; try congruence; intros; intros l j Hl Hj.
    + rewrite me_col0 by done. apply me_col1; congruence.
    + rewrite me_slot_extra0 by done. apply me_slot_extra1; congruence.
Qed.

(** Row [l] holds a nonzero supply or debt in slot [j]. *)
Definition held (m : Market) (l j : nat) : Prop :=
  exists col v, cell_at (col_get col m) (m_stride m) l j = Some v /\ v <> 0%Z.

(** ** Stores *)

Definition entry_market (e : PosEntry) : MarketId := pk_market (pe_key e).

(** Entries of market [id]; [local] ids are dense within a market. *)
Definition count_market (id : MarketId) (es : list PosEntry) : nat :=
  length (filter (fun e => entry_market e = id) es).

Record store_eqv (s t : StateStore) : Prop := {
  se_config : st_config s = st_config t;
  se_positions : st_positions s = st_positions t;
  se_extra : st_extra s = st_extra t;
  se_index : forall id, market_idx (st_market_index s) id = market_idx (st_market_index t) id;
  se_markets : Forall2 market_eqv (st_markets s) (st_markets t)
}.

#[export] Instance store_eqv_equivalence : Equivalence store_eqv.
Proof.
  split.
  - intros s. by constructor.
  - intros s t []. by constructor.
  - intros s t u [] []. constructor; try congruence. by etransitivity.
Qed.

(** Physical well-formedness, which the equivalence does not preserve on its own. *)
Record layout_ok (s : StateStore) : Prop := {
  lo_markets : Forall market_wf (st_markets s);
  lo_index : Forall (fun z => 0 <= z)%Z (st_market_index s)
}.

(** Logical well-formedness, a property of the equivalence class. *)
Record logical_ok (s : StateStore) : Prop := {
  sw_table : table_ok (st_positions s);
  sw_config_len : length (st_config s) = length (pt_entries (st_positions s));
  sw_extra_len : length (st_extra s) = length (pt_entries (st_positions s));
  sw_mask : Forall mask_ok (st_config s);
  sw_index : forall id mi, market_idx (st_market_index s) id = Some mi -> mi < length (st_markets s);
  sw_index_inj : forall id1 id2 mi, market_idx (st_market_index s) id1 = Some mi ->
    market_idx (st_market_index s) id2 = Some mi -> id1 = id2;
  sw_n_pos : forall id mi m, market_idx (st_market_index s) id = Some mi ->
    st_markets s !! mi = Some m -> m_n_pos m = count_market id (pt_entries (st_positions s));
  sw_entry : forall i e, pt_entries (st_positions s) !! i = Some e ->
    is_Some (market_idx (st_market_index s) (entry_market e)) /\
    pe_local e = count_market (entry_market e) (take i (pt_entries (st_positions s)));
  sw_bits : forall i e m c slot, pt_entries (st_positions s) !! i = Some e ->
    find_market s (entry_market e) = Some m -> st_config s !! i = Some c ->
    contains c slot = true <-> slot < length (m_rows m) /\ held m (pe_local e) slot
}.

Definition store_wf (s : StateStore) : Prop := layout_ok s /\ logical_ok s.

(** ** Counting locals *)

Lemma count_market_app id es fs : count_market id (es ++ fs) = count_market id es + count_market id fs.
Proof. unfold count_market. by rewrite filter_app, length_app. Qed.

Lemma count_market_snoc id es e :
  count_market id (es ++ [e]) = count_market id es + if decide (entry_market e = id) then 1 else 0.
Proof.
  rewrite count_market_app. unfold count_market at 2. rewrite filter_cons, filter_nil.
  by case_decide.
Qed.

Lemma count_market_take id es i e :
  es !! i = Some e -> entry_market e = id -> count_market id (take i es) < count_market id es.
Proof.
  intros Hi He. rewrite <- (take_drop_middle es i e Hi) at 2.
  rewrite count_market_app. unfold count_market at 3. rewrite filter_cons, decide_True by done.
  simpl. lia.
Qed.

(** Two entries with one market and one local are one entry. *)
Lemma count_market_inj id es i j e f :
  es !! i = Some e -> es !! j = Some f -> entry_market e = id -> entry_market f = id ->
  count_market id (take i es) = count_market id (take j es) -> i = j.
Proof.
  assert (forall i j e, i < j -> es !! i = Some e -> entry_market e = id ->
    count_market id (take i es) < count_market id (take j es)) as Hlt.
  { intros i' j' e' Hij Hi He. replace (take i' es) with (take i' (take j' es)) by (rewrite take_take; f_equal; lia).
    apply count_market_take with e'; [|done]. by rewrite lookup_take_lt. }
  intros Hi Hj He Hf E. destruct (Nat.lt_trichotomy i j) as [H|[H|H]]; [|done|].
  - specialize (Hlt i j e H Hi He). lia.
  - specialize (Hlt j i f H Hj Hf). lia.
Qed.

(** ** Resolving a position *)

(** What the setters and readers look up first. *)
Record resolved (s : StateStore) (pos : nat) (e : PosEntry) (mi : nat) (m : Market) : Prop := {
  rs_entry : pt_entries (st_positions s) !! pos = Some e;
  rs_idx : market_idx (st_market_index s) (entry_market e) = Some mi;
  rs_market : st_markets s !! mi = Some m
}.

Lemma entry_resolved s pos e :
  store_wf s -> pt_entries (st_positions s) !! pos = Some e ->
  exists mi m, resolved s pos e mi m /\ market_wf m /\ pe_local e < m_n_pos m.
Proof.
  intros [[Hm _] []] He. destruct (sw_entry0 pos e He) as [[mi Hmi] Hl].
  destruct (lookup_lt_is_Some_2 (st_markets s) mi) as [m Hm']; [by eapply sw_index0|].
  exists mi, m. split; [done|]. split; [by eapply Forall_lookup_1|].
  rewrite (sw_n_pos0 _ _ _ Hmi Hm'), Hl. by eapply count_market_take.
Qed.

Lemma resolved_wf s pos e mi m :
  store_wf s -> resolved s pos e mi m -> market_wf m /\ pe_local e < m_n_pos m.
Proof.
  intros Hs []. destruct (entry_resolved s pos e Hs rs_entry0) as (mi' & m' & [] & ? & ?).
  by simplify_eq.
Qed.

Lemma resolved_find s pos e mi m :
  resolved s pos e mi m -> find_market s (entry_market e) = Some m.
Proof. intros []. unfold find_market. by rewrite rs_idx0. Qed.

(** The cell of a valid local and slot is in range and does not overflow [usize]. *)
Lemma cell_Some m l j :
  market_wf m -> l < m_n_pos m -> j < m_stride m -> cell m l j = Some (l * m_stride m + j).
Proof.
  intros [] Hl Hj. unfold cell.
  assert (Z.of_nat (l * m_stride m + j) <= umax 64)%Z as Hb.
  { assert (l * m_stride m <= l * 128) by (apply Nat.mul_le_mono_l; lia). unfold umax in *. lia. }
  rewrite (proj2 (checked_mul_nat_Some 64 l (m_stride m) (l * m_stride m))) by (split; [done|lia]).
  by apply checked_add_nat_Some.
Qed.

Lemma cell_index_lt n st l j : l < n -> j < st -> l * st + j < n * st.
Proof. intros. assert (S l * st <= n * st) by (apply Nat.mul_le_mono_r; lia). simpl in *. lia. Qed.

(** Cells of different rows are different cells. *)
Lemma cell_index_inj st l1 l2 j1 j2 :
  j1 < st -> j2 < st -> l1 * st + j1 = l2 * st + j2 -> l1 = l2 /\ j1 = j2.
Proof. intros H1 H2 E. destruct (Nat.lt_trichotomy l1 l2) as [|[]]; nia. Qed.

Lemma market_wf_col m c :
  market_wf m -> column_ok 0%Z (m_n_pos m) (m_stride m) (length (m_rows m)) (col_get c m).
Proof. intros []. by destruct c. Qed.

(** Writing one cell of a column. *)
Lemma column_set_ok {A} (z : A) n st rows col l j v :
  column_ok z n st rows col -> l < n -> j < rows -> rows <= st ->
  column_ok z n st rows (<[l * st + j := v]> col).
Proof.
  intros [Hl Hp] Hl1 Hj Hr. constructor; [by rewrite length_insert|].
  intros l' j' Hl' Hj'. unfold cell_at. rewrite list_lookup_insert_ne; [by apply Hp|].
  intros [? ?]%cell_index_inj; lia.
Qed.

Lemma column_set_lookup {A} (z : A) n st rows col l j v l' j' :
  column_ok z n st rows col -> l < n -> j < rows -> rows <= st -> l' < n -> j' < rows ->
  cell_at (<[l * st + j := v]> col) st l' j' =
    if decide (l' = l /\ j' = j) then Some v else cell_at col st l' j'.
Proof.
  intros [Hlen _] Hl Hj Hr Hl' Hj'. unfold cell_at. case_decide as H.
  - destruct H as [-> ->]. apply list_lookup_insert_eq. rewrite Hlen. apply cell_index_lt; lia.
  - apply list_lookup_insert_ne. intros [? ?]%cell_index_inj; lia.
Qed.

Lemma cell_at_Some {A} (z : A) n st rows col l j :
  column_ok z n st rows col -> l < n -> j < st -> is_Some (cell_at col st l j).
Proof. intros [Hlen _] ??. apply lookup_lt_is_Some. rewrite Hlen. by apply cell_index_lt. Qed.

(** ** Transport along the equivalence *)

Lemma store_eqv_market s t mi m :
  store_eqv s t -> st_markets s !! mi = Some m ->
  exists m', st_markets t !! mi = Some m' /\ market_eqv m m'.
Proof. intros [] Hm. by eapply Forall2_lookup_l. Qed.

Lemma store_eqv_market_r s t mi m :
  store_eqv s t -> st_markets t !! mi = Some m ->
  exists m', st_markets s !! mi = Some m' /\ market_eqv m' m.
Proof. intros [] Hm. eapply Forall2_lookup_r in Hm; [|done]. done. Qed.

Lemma store_eqv_find s t id m :
  store_eqv s t -> find_market t id = Some m ->
  exists m', find_market s id = Some m' /\ market_eqv m' m.
Proof.
  intros He. unfold find_market. rewrite (se_index s t He id).
  destruct (market_idx _ id); [|done]. by apply store_eqv_market_r.
Qed.

Lemma store_eqv_resolved s t pos e mi m :
  store_eqv s t -> resolved s pos e mi m ->
  exists m', resolved t pos e mi m' /\ market_eqv m m'.
Proof.
  intros He []. destruct (store_eqv_market s t mi m He rs_market0) as (m' & Hm' & Hq).
  exists m'. split; [|done]. destruct He. constructor; congruence.
Qed.

(** The logical invariant only depends on the class, given the other's layout. *)
Lemma logical_ok_eqv s t : store_eqv s t -> store_wf s -> logical_ok t.
Proof.
  intros He Hs. pose proof Hs as [Hlay []]. pose proof He as [].
  pose proof (Forall2_length _ _ _ se_markets0) as Hlen.
  constructor; rewrite <- ?se_config0, <- ?se_positions0, <- ?se_extra0; try done.
  - intros id mi. rewrite <- se_index0, <- Hlen. by apply sw_index0.
  - intros id1 id2 mi. rewrite <- !se_index0. apply sw_index_inj0.
  - intros id mi m. rewrite <- se_index0. intros Hi Hm.
    destruct (store_eqv_market_r s t mi m He Hm) as (m' & Hm' & Hq).
    rewrite <- (me_n_pos m' m Hq). by eapply sw_n_pos0.
  - intros i e Hi. rewrite <- se_index0. by apply sw_entry0.
  - intros i e m c slot Hi Hm Hc.
    destruct (store_eqv_find s t _ m He Hm) as (m' & Hm' & Hq).
    rewrite (sw_bits0 i e m' c slot Hi Hm' Hc). rewrite (me_rows m' m Hq).
    destruct (entry_resolved s i e Hs Hi) as (mi & m'' & Hr & _ & Hloc).
    assert (m'' = m') as -> by (apply resolved_find in Hr; congruence).
    split; intros [Hsl (col & v & Hv & Hnz)]; (split; [done|]); exists col, v; split; try done.
    + rewrite <- (me_col m' m Hq col); [done..|]. by rewrite (me_rows m' m Hq).
    + rewrite (me_col m' m Hq col); [done..|]. by rewrite (me_rows m' m Hq).
Qed.

Lemma store_wf_eqv s t : store_eqv s t -> store_wf s -> layout_ok t -> store_wf t.
Proof. intros. split; [done|by eapply logical_ok_eqv]. Qed.

(** Replacing one market. *)
Lemma layout_set_market s mi m : layout_ok s -> market_wf m -> layout_ok (set_market_at mi m s).
Proof. intros [] Hm. constructor; cbn; [|done]. by apply Forall_insert. Qed.

Lemma layout_set_config s i c : layout_ok s -> layout_ok (set_config_at i c s).
Proof. by intros []. Qed.
Lemma layout_set_extra s i e : layout_ok s -> layout_ok (set_extra_at i e s).
Proof. by intros []. Qed.
Lemma layout_set_undo s u : layout_ok s -> layout_ok (set_undo u s).
Proof. by intros []. Qed.
Lemma layout_bump s : layout_ok s -> layout_ok (bump_writes s).
Proof. by intros []. Qed.

#[export] Hint Resolve layout_set_market layout_set_config layout_set_extra layout_set_undo
  layout_bump : liq.

Lemma store_eqv_undo u s : store_eqv (set_undo u s) s.
Proof. by constructor. Qed.
Lemma store_eqv_bump s : store_eqv (bump_writes s) s.
Proof. by constructor. Qed.

Lemma logical_ok_undo u s : logical_ok s -> logical_ok (set_undo u s).
Proof. intros []. by constructor. Qed.
Lemma logical_ok_bump s : logical_ok s -> logical_ok (bump_writes s).
Proof. intros []. by constructor. Qed.

#[export] Hint Resolve logical_ok_undo logical_ok_bump : liq.
