(* ===== verification/StoreOps.v ===== *)
(** Each setter preserves well-formedness and journals an exact inverse; a setter that
    fails leaves the store as it was, up to physical room already made. *)

From S2P Require Import Prelude Mask Types Interner Columns Undo Store StoreInv.
Local Open Scope nat_scope.

(** Appending one op with the side-table entries it pops. *)
Definition push_undo (op : UndoOp) (ex : list PositionExtraRepr) (rw : list MarketRow)
    (rec : BlockUndo) : BlockUndo :=
  mkUndo (bu_ops rec ++ [op]) (bu_extras rec ++ ex) (bu_rows rec ++ rw).

(** [op], with [ex] and [rw] on top of the side tables, takes any store that agrees with
    [s'] to one that agrees with [s]. *)
Definition inverse_of (s s' : StateStore) (op : UndoOp) (ex : list PositionExtraRepr)
    (rw : list MarketRow) : Prop :=
  forall t E R, layout_ok t -> store_eqv s' t ->
  exists t', revert op (E ++ ex) (R ++ rw) t = (t', E, R, Ok tt) /\
    layout_ok t' /\ store_eqv s t' /\ st_undo t' = st_undo t.

(** A successful mutation: well-formed, journaled, and undone by what was journaled. *)
Definition mutates (s s' : StateStore) : Prop :=
  store_wf s' /\
  exists op ex rw, st_undo s' = upd_current (push_undo op ex rw) (st_undo s) /\
                   inverse_of s s' op ex rw.

(** No logical change: what a failed setter, or an [intern] of a known key, leaves. *)
Definition unchanged (s s' : StateStore) : Prop :=
  store_wf s' /\ store_eqv s s' /\ st_undo s' = st_undo s.

Lemma upd_current_ext f g r : (forall rec, f rec = g rec) -> upd_current f r = upd_current g r.
Proof.
  intros H. unfold upd_current. case_match; [done|]. f_equal. apply list_alter_ext; [|done].
  intros. apply H.
Qed.

Lemma ring_push_eq op r : ring_push op r = upd_current (push_undo op [] []) r.
Proof. apply upd_current_ext. intros []. unfold push_undo. simpl. by rewrite !app_nil_r. Qed.
Lemma ring_push_extra_eq p e r : ring_push_extra p e r = upd_current (push_undo (UExtra p) [e] []) r.
Proof. apply upd_current_ext. intros []. unfold push_undo. simpl. by rewrite !app_nil_r. Qed.
Lemma ring_push_slot_extra_eq p j e r :
  ring_push_slot_extra p j e r = upd_current (push_undo (USlotExtra p j) [e] []) r.
Proof. apply upd_current_ext. intros []. unfold push_undo. simpl. by rewrite !app_nil_r. Qed.
Lemma ring_push_market_eq a x r :
  ring_push_market a x r = upd_current (push_undo (UMarket a) [] [x]) r.
Proof. apply upd_current_ext. intros []. unfold push_undo. simpl. by rewrite !app_nil_r. Qed.

(** Putting back one market makes the market vectors agree again. *)
Lemma eqv_set_market ms mi m m' m'' ts :
  Forall2 market_eqv (<[mi := m']> ms) ts -> ms !! mi = Some m -> market_eqv m m'' ->
  Forall2 market_eqv ms (<[mi := m'']> ts).
Proof.
  intros HF Hm Hq. assert (mi < length ms) as Hlt by (by eapply lookup_lt_Some).
  replace ms with (<[mi := m]> (<[mi := m']> ms)) by (rewrite list_insert_insert_eq; by apply list_insert_id).
  by apply Forall2_insert.
Qed.

Lemma eqv_refl_insert ms mi m m' :
  ms !! mi = Some m -> market_eqv m m' -> Forall2 market_eqv ms (<[mi := m']> ms).
Proof.
  intros Hm Hq. rewrite <- (list_insert_id ms mi m Hm) at 1. by apply Forall2_insert.
Qed.

Lemma set_market_at_twice mi a b s : set_market_at mi a (set_market_at mi b s) = set_market_at mi a s.
Proof. unfold set_market_at. cbn. by rewrite list_insert_insert_eq. Qed.

(** ** [set_supply] and [set_debt] *)

Lemma market_wf_col_set c m l j v :
  market_wf m -> l < m_n_pos m -> j < length (m_rows m) ->
  market_wf (col_set c (<[l * m_stride m + j := v]> (col_get c m)) m).
Proof. intros [] Hl Hj. destruct c; constructor; cbn; try done; by apply column_set_ok. Qed.

(** What [set_column] does to a resolved position and slot: it succeeds, writes the cell,
    and sets the mask bit exactly when a balance of the slot is nonzero. *)
Lemma set_column_resolved c pos slot v s e mi m :
  store_wf s -> resolved s pos e mi m -> slot < length (m_rows m) ->
  exists cfg cfg' prev other,
    st_config s !! pos = Some cfg /\ mask_ok cfg' /\
    cell_at (col_get c m) (m_stride m) (pe_local e) slot = Some prev /\
    cell_at (col_get (other_col c) m) (m_stride m) (pe_local e) slot = Some other /\
    (forall j, contains cfg' j =
       if decide (j = slot) then negb (v =? 0)%Z || negb (other =? 0)%Z else contains cfg j) /\
    set_column c pos slot v s =
      (bump_writes (set_config_at pos cfg'
         (set_market_at mi (col_set c (<[pe_local e * m_stride m + slot := v]> (col_get c m)) m)
           (set_undo (ring_push (match c with
              | Supply => USupply pos slot (contains cfg slot) prev
              | Debt => UDebt pos slot (contains cfg slot) prev end) (st_undo s)) s))), Ok tt).
Proof.
  intros Hs Hr Hslot. destruct (resolved_wf s pos e mi m Hs Hr) as [Hm Hl].
  pose proof Hr as [Hre Hri Hrm]. pose proof (mw_rows m Hm). pose proof (mw_stride m Hm).
  assert (pos < length (st_config s)) as Hpos.
  { rewrite (sw_config_len s (proj2 Hs)). by eapply lookup_lt_Some. }
  destruct (lookup_lt_is_Some_2 _ _ Hpos) as [cfg Hcfg].
  pose proof (Forall_lookup_1 _ _ _ _ (sw_mask s (proj2 Hs)) Hcfg) as Hmask.
  destruct (cell_at_Some _ _ _ _ _ (pe_local e) slot (market_wf_col m c Hm) Hl ltac:(lia)) as [prev Hprev].
  destruct (cell_at_Some _ _ _ _ _ (pe_local e) slot (market_wf_col m (other_col c) Hm) Hl ltac:(lia))
    as [other Hother].
  destruct (proj2 (with_slot_is_Some cfg slot) ltac:(lia)) as [cw Hcw].
  exists cfg, (if negb (v =? 0)%Z || negb (other =? 0)%Z then cw else without_slot cfg slot), prev, other.
  split; [done|]. split; [case_match; eauto with liq|]. split; [done|]. split; [done|]. split.
  { intros j. case_match eqn:E.
    - rewrite (contains_with _ _ _ j Hcw). case_decide; subst.
      + by rewrite Nat.eqb_refl.
      + rewrite (proj2 (Nat.eqb_neq slot j)) by done. done.
    - rewrite contains_without by done. case_decide; subst.
      + by rewrite Nat.eqb_refl, andb_false_r.
      + rewrite (proj2 (Nat.eqb_neq slot j)) by done. by rewrite andb_true_r. }
  unfold set_column, table_entry. rewrite Hre. cbn [ok_or]. cbv zeta.
  change (pk_market (pe_key e)) with (entry_market e). rewrite Hri. cbn [ok_or].
  rewrite Hrm. cbn [ok_or]. rewrite (proj2 (Nat.leb_gt _ _) Hslot).
  rewrite (cell_Some m _ slot Hm Hl ltac:(lia)). cbn [ok_or]. rewrite Hcfg. cbn [ok_or].
  unfold cell_at in Hprev, Hother. rewrite Hother. cbn [ok_or]. rewrite Hprev. cbn [ok_or].
  rewrite Hcw. cbn [ok_or]. by destruct (negb (v =? 0)%Z || negb (other =? 0)%Z).
Qed.

Lemma col_get_col_set c c' v m :
  col_get c' (col_set c v m) = if decide (c' = c) then v else col_get c' m.
Proof. by destruct c, c'. Qed.

(** Writing a cell changes what is held there and nowhere else. *)
Lemma held_col_set c m l j v other l' j' :
  market_wf m -> l < m_n_pos m -> j < length (m_rows m) ->
  cell_at (col_get (other_col c) m) (m_stride m) l j = Some other ->
  l' < m_n_pos m -> j' < length (m_rows m) ->
  held (col_set c (<[l * m_stride m + j := v]> (col_get c m)) m) l' j' <->
  if decide (l' = l /\ j' = j) then v <> 0%Z \/ other <> 0%Z else held m l' j'.
Proof.
  intros Hm Hl Hj Ho Hl' Hj'. unfold held.
  assert (m_stride (col_set c (<[l * m_stride m + j := v]> (col_get c m)) m) = m_stride m) as -> by by destruct c.
  setoid_rewrite col_get_col_set.
  pose proof (column_set_lookup 0%Z _ _ _ _ l j v l' j' (market_wf_col m c Hm) Hl Hj (mw_rows m Hm) Hl' Hj')
    as Hset.
  case_decide as Hd; [destruct Hd as [-> ->]|]; split.
  - intros (c' & w & Hw & Hnz). case_decide; [left; congruence|right].
    assert (c' = other_col c) as -> by by destruct c, c'. congruence.
  - intros [Hnz|Hnz]; [exists c, v; rewrite decide_True by done|exists (other_col c), other;
      rewrite decide_False by by destruct c]; done.
  - intros (c' & w & Hw & Hnz). exists c', w. case_decide; subst; [|done]. by rewrite <- Hset.
  - intros (c' & w & Hw & Hnz). exists c', w. case_decide; subst; [|done]. by rewrite Hset.
Qed.

(** Writing one cell of a resolved position keeps the logical invariant when the mask
    follows. *)
Lemma logical_set_cell c pos slot v s e mi m cfg cfg' other :
  store_wf s -> resolved s pos e mi m -> slot < length (m_rows m) ->
  st_config s !! pos = Some cfg -> mask_ok cfg' ->
  cell_at (col_get (other_col c) m) (m_stride m) (pe_local e) slot = Some other ->
  (forall j, contains cfg' j =
     if decide (j = slot) then negb (v =? 0)%Z || negb (other =? 0)%Z else contains cfg j) ->
  logical_ok (set_config_at pos cfg'
    (set_market_at mi (col_set c (<[pe_local e * m_stride m + slot := v]> (col_get c m)) m) s)).
Proof.
  intros Hs Hr Hslot Hcfg Hmask Hother Hbits.
  destruct (resolved_wf s pos e mi m Hs Hr) as [Hm Hl]. pose proof Hr as [Hre Hri Hrm].
  pose proof (proj2 Hs) as Hg. pose proof Hg as [? ? ? ? _ Hinj _ Hent _].
  assert (mi < length (st_markets s)) as Hmi by by eapply lookup_lt_Some.
  constructor; cbn [set_config_at set_market_at st_config st_positions st_extra st_markets st_market_index];
    try done.
  - by rewrite length_insert.
  - by apply Forall_insert.
  - intros id mi' Hid. rewrite length_insert. by eapply (sw_index s Hg).
  - intros id mi' m1 Hid. rewrite list_lookup_insert. case_decide as Hd; [destruct Hd as [<- _]|].
    + intros [= <-]. rewrite <- (sw_n_pos s Hg id mi m Hid Hrm). by destruct c.
    + by apply (sw_n_pos s Hg).
  - intros i f m1 c1 j Hi Hm1 Hc1.
    destruct (entry_resolved s i f Hs Hi) as (mf & mm & Hrf & Hmm & Hlf). pose proof Hrf as [_ Hfi Hfm].
    unfold find_market in Hm1. cbn in Hm1. rewrite Hfi in Hm1.
    destruct (decide (mi = mf)) as [<-|Hne].
    2: { rewrite list_lookup_insert_ne in Hm1 by done. simplify_eq.
         rewrite list_lookup_insert_ne in Hc1 by (intros <-; congruence).
         eapply (sw_bits s Hg); eauto using resolved_find. }
    rewrite list_lookup_insert_eq in Hm1 by done. rewrite list_lookup_insert in Hc1. simplify_eq.
    assert (m_rows (col_set c (<[pe_local e * m_stride m + slot := v]> (col_get c m)) m) = m_rows m) as ->
      by by destruct c.
    destruct (decide (j < length (m_rows m))) as [Hj|Hj]; [|].
    + rewrite (held_col_set c m _ _ v other) by done. case_decide as Hp.
      * destruct Hp as [<- _]. simplify_eq. rewrite Hbits.
        case_decide as Hjs; subst.
        -- rewrite decide_True, orb_true_iff, !negb_true_iff, !Z.eqb_neq by done. tauto.
        -- rewrite decide_False by naive_solver. eapply (sw_bits s Hg); eauto using resolved_find.
      * rewrite decide_False; [eapply (sw_bits s Hg); eauto using resolved_find|]. intros [El _].
        assert (entry_market f = entry_market e) as Hfe by by eapply Hinj.
        apply Hp. split; [|by eapply lookup_lt_Some].
        rewrite (proj2 (Hent i f Hi)), (proj2 (Hent pos e Hre)), Hfe in El.
        symmetry. by eapply count_market_inj.
    + split; [|tauto]. intros Hc. exfalso. apply Hj.
      case_decide as Hp; [|by eapply (sw_bits s Hg i f m c1 j Hi (resolved_find _ _ _ _ _ Hrf) Hc1)].
      destruct Hp as [<- _]. simplify_eq. rewrite Hbits in Hc. rewrite decide_False in Hc by lia.
      by eapply (sw_bits s Hg pos e m cfg j Hre (resolved_find _ _ _ _ _ Hr) Hcfg).
Qed.

(** The market a cell write produced, seen through any equivalent market, is restored by
    writing the previous value back. *)
Lemma market_eqv_restore c m m_t l j v prev :
  market_wf m -> market_wf m_t -> l < m_n_pos m -> j < length (m_rows m) ->
  cell_at (col_get c m) (m_stride m) l j = Some prev ->
  market_eqv (col_set c (<[l * m_stride m + j := v]> (col_get c m)) m) m_t ->
  market_eqv m (col_set c (<[l * m_stride m_t + j := prev]> (col_get c m_t)) m_t).
Proof.
  intros Hm Ht Hl Hj Hprev [Er En Ec Ee].
  assert (m_rows m_t = m_rows m /\ m_n_pos m_t = m_n_pos m) as [Er' En'] by by destruct c.
  assert (forall c v m, m_rows (col_set c v m) = m_rows m /\ m_n_pos (col_set c v m) = m_n_pos m /\
    m_stride (col_set c v m) = m_stride m /\ m_slot_extra (col_set c v m) = m_slot_extra m) as Hcs
    by by intros [].
  destruct (Hcs c (<[l * m_stride m + j := v]> (col_get c m)) m) as (E1 & E2 & E3 & E4).
  rewrite E1, E2, E3 in *. rewrite E4 in *.
  destruct (Hcs c (<[l * m_stride m_t + j := prev]> (col_get c m_t)) m_t) as (F1 & F2 & F3 & F4).
  constructor; rewrite ?F1, ?F2, ?F3, ?F4; [done|done| |done].
  intros c' l' j' Hl' Hj'. specialize (Ec c' l' j' Hl' Hj'). rewrite col_get_col_set in *.
  case_decide; [subst c'|done].
  pose proof (market_wf_col m_t c Ht) as Hct. rewrite Er', En' in Hct.
  rewrite (column_set_lookup _ _ _ _ _ _ _ _ _ _ Hct) by (try done; rewrite <- Er'; apply Ht).
  rewrite (column_set_lookup _ _ _ _ _ _ _ _ _ _ (market_wf_col m c Hm)) in Ec by (try done; apply Hm).
  case_decide as Hd; [destruct Hd as [-> ->]; done|done].
Qed.

Lemma restore_cell_inverse c pos slot v s e mi m cfg cfg' prev t :
  store_wf s -> resolved s pos e mi m -> slot < length (m_rows m) ->
  st_config s !! pos = Some cfg -> mask_ok cfg' ->
  (forall j, j <> slot -> contains cfg' j = contains cfg j) ->
  cell_at (col_get c m) (m_stride m) (pe_local e) slot = Some prev ->
  layout_ok t ->
  store_eqv (set_config_at pos cfg'
    (set_market_at mi (col_set c (<[pe_local e * m_stride m + slot := v]> (col_get c m)) m) s)) t ->
  exists t', restore_cell c pos slot (contains cfg slot) prev t = (t', Ok tt) /\
    layout_ok t' /\ store_eqv s t' /\ st_undo t' = st_undo t.
Proof.
  intros Hs Hr Hslot Hcfg Hmask Hbits Hprev Ht Hq.
  destruct (resolved_wf s pos e mi m Hs Hr) as [Hm Hl]. pose proof Hr as [Hre Hri Hrm].
  pose proof Hq as [Qc Qp Qe Qi Qm]. cbn in Qc, Qp, Qe, Qi, Qm.
  assert (mi < length (st_markets s)) as Hmi by by eapply lookup_lt_Some.
  destruct (Forall2_lookup_l _ _ _ mi _ Qm (list_lookup_insert_eq _ _ _ Hmi)) as (m_t & Hmt & Hqm).
  assert (market_wf m_t) as Hwt by (eapply Forall_lookup_1; [apply Ht|done]).
  assert (m_n_pos m_t = m_n_pos m) as En by (rewrite <- (me_n_pos _ _ Hqm); by destruct c).
  assert (m_rows m_t = m_rows m) as Er by (rewrite <- (me_rows _ _ Hqm); by destruct c).
  pose proof (mw_rows m_t Hwt). rewrite Er in *.
  unfold restore_cell, table_entry. rewrite <- Qp, Hre. cbn [ok_or]. cbv zeta.
  change (pk_market (pe_key e)) with (entry_market e). rewrite <- Qi, Hri. cbn [ok_or].
  rewrite Hmt. cbn [ok_or]. rewrite (cell_Some m_t _ slot Hwt) by lia. cbn [ok_or].
  rewrite vec_set_lt.
  2: { rewrite (co_len _ _ _ _ _ (market_wf_col m_t c Hwt)), En.
       apply cell_index_lt; lia. }
  cbn [ok_or]. cbn [set_market_at st_config]. rewrite <- Qc.
  assert (pos < length (st_config s)) as Hpos by by eapply lookup_lt_Some.
  rewrite list_lookup_insert_eq by done. cbn [ok_or].
  assert (mask_ok cfg) as Hmcfg by (eapply Forall_lookup_1; [apply Hs|done]).
  pose proof (mw_stride m Hm). pose proof (mw_rows m Hm).
  assert (forall cf, mask_ok cf ->
    (forall j, contains cf j = if decide (j = slot) then contains cfg slot else contains cfg' j) -> cf = cfg) as Hfix.
  { intros cf Hok Hc. apply mask_ext; [done..|]. intros j _. rewrite Hc. case_decide; subst; auto. }
  assert ((if contains cfg slot then ok_or (with_slot cfg' slot) Inconsistent
           else Ok (without_slot cfg' slot)) = Ok cfg) as ->.
  { destruct (contains cfg slot) eqn:Ec.
    - destruct (proj2 (with_slot_is_Some cfg' slot) ltac:(lia)) as [cw Hcw]. rewrite Hcw. cbn.
      f_equal. apply Hfix; [by apply (with_slot_ok cfg' slot)|]. intros j. rewrite (contains_with _ _ _ j Hcw).
      case_decide; subst; [by rewrite Nat.eqb_refl|by rewrite (proj2 (Nat.eqb_neq slot j))].
    - f_equal. apply Hfix; [by apply without_slot_ok|]. intros j. rewrite contains_without by done.
      case_decide; subst; [by rewrite Nat.eqb_refl, andb_false_r|].
      by rewrite (proj2 (Nat.eqb_neq slot j)), andb_true_r. }
  eexists. split; [reflexivity|]. split.
  { apply layout_set_config, layout_set_market; [done|]. apply market_wf_col_set; [done|lia|by rewrite Er]. }
  split; [|done]. constructor; cbn; [|done|done|done|].
  - rewrite <- Qc, list_insert_insert_eq. by rewrite list_insert_id.
  - eapply eqv_set_market; [done|done|]. by eapply market_eqv_restore.
Qed.

Lemma set_column_Err c pos slot v s s' err : set_column c pos slot v s = (s', Err err) -> s' = s.
Proof.
  unfold set_column. intros H.
  repeat (match type of H with context [match ?x with _ => _ end] => destruct x end; try (by simplify_eq)).
Qed.

Lemma set_column_Ok c pos slot v s s' :
  store_wf s -> set_column c pos slot v s = (s', Ok tt) ->
  exists e mi m, resolved s pos e mi m /\ slot < length (m_rows m).
Proof.
  intros Hs H. unfold set_column, table_entry in H.
  destruct (pt_entries (st_positions s) !! pos) as [e|] eqn:He; cbn in H; [|done].
  destruct (entry_resolved s pos e Hs He) as (mi & m & Hr & _). exists e, mi, m. split; [done|].
  destruct Hr as [_ Hi Hm]. change (pk_market (pe_key e)) with (entry_market e) in H.
  rewrite Hi in H. cbn in H. rewrite Hm in H. cbn in H.
  destruct (Nat.leb_spec (length (m_rows m)) slot); [done|lia].
Qed.

Lemma set_column_mutates c pos slot v s s' :
  store_wf s -> set_column c pos slot v s = (s', Ok tt) -> mutates s s'.
Proof.
  intros Hs H. destruct (set_column_Ok _ _ _ _ _ _ Hs H) as (e & mi & m & Hr & Hslot).
  destruct (set_column_resolved c pos slot v s e mi m Hs Hr Hslot)
    as (cfg & cfg' & prev & other & Hcfg & Hok & Hprev & Hother & Hbits & Heq).
  rewrite Heq in H. simplify_eq. destruct (resolved_wf s pos e mi m Hs Hr) as [Hm Hl].
  split; [split|].
  - apply layout_bump, layout_set_config, layout_set_market; [by apply layout_set_undo, Hs|].
    by apply market_wf_col_set.
  - apply logical_ok_bump.
    pose proof (logical_set_cell c pos slot v s e mi m cfg cfg' other Hs Hr Hslot Hcfg Hok Hother Hbits) as [].
    by constructor.
  - eexists _, [], []. split; [cbn; apply ring_push_eq|].
    intros t E R Ht Hq. rewrite !app_nil_r.
    destruct (restore_cell_inverse c pos slot v s e mi m cfg cfg' prev t) as (t' & E1 & ?); try done.
    + intros j Hj. rewrite Hbits. by rewrite decide_False.
    + destruct Hq. by constructor.
    + exists t'. destruct c; cbn [revert]; by rewrite E1.
Qed.

(** ** Replacing one market *)

(** Replacing a market by one with the same positions and the same holdings keeps the
    logical invariant. *)
Lemma logical_replace s mi m m' :
  store_wf s -> st_markets s !! mi = Some m -> m_n_pos m' = m_n_pos m ->
  (forall l j, l < m_n_pos m ->
     j < length (m_rows m') /\ held m' l j <-> j < length (m_rows m) /\ held m l j) ->
  logical_ok (set_market_at mi m' s).
Proof.
  intros Hs Hm Hn Hh. pose proof (proj2 Hs) as Hg. pose proof Hg as [? ? ? ? _ ? _ ? _].
  assert (mi < length (st_markets s)) as Hmi by by eapply lookup_lt_Some.
  constructor; cbn [set_market_at st_config st_positions st_extra st_markets st_market_index]; try done.
  - intros id mi' Hid. rewrite length_insert. by eapply (sw_index s Hg).
  - intros id mi' m1 Hid. destruct (decide (mi = mi')) as [<-|].
    + rewrite list_lookup_insert_eq by done. intros [= <-]. rewrite Hn. by eapply (sw_n_pos s Hg).
    + rewrite list_lookup_insert_ne by done. by apply (sw_n_pos s Hg).
  - intros i f m1 c1 j Hi Hm1 Hc1.
    destruct (entry_resolved s i f Hs Hi) as (mf & mm & Hrf & Hmm & Hlf). pose proof Hrf as [_ Hfi Hfm].
    unfold find_market in Hm1. cbn in Hm1. rewrite Hfi in Hm1.
    rewrite (sw_bits s Hg i f mm c1 j Hi (resolved_find _ _ _ _ _ Hrf) Hc1).
    destruct (decide (mi = mf)) as [<-|].
    + rewrite list_lookup_insert_eq in Hm1 by done. simplify_eq. symmetry. by apply Hh.
    + rewrite list_lookup_insert_ne in Hm1 by done. by simplify_eq.
Qed.

(** ** [set_extra] *)

Lemma set_extra_Err pos x s s' err : set_extra pos x s = (s', Err err) -> s' = s.
Proof. unfold set_extra. intros H. destruct (st_extra s !! pos); cbn in H; by simplify_eq. Qed.

Lemma set_extra_mutates pos x s s' :
  store_wf s -> set_extra pos x s = (s', Ok tt) -> mutates s s'.
Proof.
  intros Hs H. unfold set_extra in H. destruct (st_extra s !! pos) as [prev|] eqn:Hp; cbn in H; [|done].
  simplify_eq. assert (pos < length (st_extra s)) as Hpos by by eapply lookup_lt_Some.
  split; [split|].
  - by apply layout_bump, layout_set_extra, layout_set_undo, Hs.
  - apply logical_ok_bump. destruct (proj2 Hs). constructor; try done. cbn. by rewrite length_insert.
  - eexists _, [prev], []. split; [cbn; apply ring_push_extra_eq|].
    intros t E R Ht [Qc Qp Qe Qi Qm]. cbn in Qc, Qp, Qe, Qi, Qm. rewrite app_nil_r. cbn [revert].
    rewrite vec_pop_snoc. rewrite vec_set_lt by (rewrite <- Qe, length_insert; done).
    eexists. split; [reflexivity|]. split; [by apply layout_set_extra|]. split; [|done].
    constructor; cbn; try done. by rewrite <- Qe, list_insert_insert_eq, list_insert_id.
Qed.

(** ** [set_slot_extra] *)

Lemma set_slot_extra_Err pos slot x s s' err : set_slot_extra pos slot x s = (s', Err err) -> s' = s.
Proof.
  unfold set_slot_extra. intros H.
  repeat (match type of H with context [match ?x with _ => _ end] => destruct x end; try (by simplify_eq)).
Qed.

Lemma market_wf_slot_extra m l j v :
  market_wf m -> l < m_n_pos m -> j < length (m_rows m) ->
  market_wf (set_slot_extra_col (<[l * m_stride m + j := v]> (m_slot_extra m)) m).
Proof. intros [] Hl Hj. constructor; cbn; try done. by apply column_set_ok. Qed.

Lemma set_slot_extra_Ok pos slot x s s' :
  store_wf s -> set_slot_extra pos slot x s = (s', Ok tt) ->
  exists e mi m prev, resolved s pos e mi m /\ slot < length (m_rows m) /\
    cell_at (m_slot_extra m) (m_stride m) (pe_local e) slot = Some prev /\
    s' = bump_writes (set_market_at mi
           (set_slot_extra_col (<[pe_local e * m_stride m + slot := x]> (m_slot_extra m)) m)
           (set_undo (ring_push_slot_extra pos slot prev (st_undo s)) s)).
Proof.
  intros Hs H. unfold set_slot_extra, table_entry in H.
  destruct (pt_entries (st_positions s) !! pos) as [e|] eqn:He; cbn [ok_or] in H; [|done].
  destruct (entry_resolved s pos e Hs He) as (mi & m & Hr & Hm & Hl). pose proof Hr as [_ Hi Hmm].
  cbv zeta in H. change (pk_market (pe_key e)) with (entry_market e) in H.
  rewrite Hi in H. cbn [ok_or] in H. rewrite Hmm in H. cbn [ok_or] in H.
  destruct (Nat.leb_spec (length (m_rows m)) slot) as [|Hslot]; [done|].
  pose proof (mw_rows m Hm). rewrite (cell_Some m _ slot Hm Hl) in H by lia. cbn [ok_or] in H.
  destruct (m_slot_extra m !! _) as [prev|] eqn:Hp; cbn [ok_or] in H; [|done].
  simplify_eq. by exists e, mi, m, prev.
Qed.

Lemma set_slot_extra_mutates pos slot x s s' :
  store_wf s -> set_slot_extra pos slot x s = (s', Ok tt) -> mutates s s'.
Proof.
  intros Hs H. destruct (set_slot_extra_Ok _ _ _ _ _ Hs H) as (e & mi & m & prev & Hr & Hslot & Hprev & ->).
  destruct (resolved_wf s pos e mi m Hs Hr) as [Hm Hl]. pose proof Hr as [Hre Hri Hrm].
  pose proof (mw_rows m Hm).
  split; [split|].
  - apply layout_bump, layout_set_market; [by apply layout_set_undo, Hs|]. by apply market_wf_slot_extra.
  - apply logical_ok_bump.
    pose proof (logical_replace s mi m (set_slot_extra_col (<[pe_local e * m_stride m + slot := x]> (m_slot_extra m)) m)
      Hs Hrm eq_refl) as [] ; [done|by constructor].
  - eexists _, [prev], []. split; [cbn; apply ring_push_slot_extra_eq|].
    intros t E R Ht [Qc Qp Qe Qi Qm]. cbn in Qc, Qp, Qe, Qi, Qm. rewrite app_nil_r. cbn [revert].
    rewrite vec_pop_snoc. cbv zeta.
    assert (mi < length (st_markets s)) as Hmi by by eapply lookup_lt_Some.
    destruct (Forall2_lookup_l _ _ _ mi _ Qm (list_lookup_insert_eq _ _ _ Hmi)) as (m_t & Hmt & Hqm).
    assert (market_wf m_t) as Hwt by (eapply Forall_lookup_1; [apply Ht|done]).
    pose proof Hqm as [Er En Ec Ee]. cbn in Er, En, Ec, Ee.
    pose proof (mw_rows m_t Hwt). rewrite <- Er in *.
    unfold table_entry. rewrite <- Qp, Hre. cbn [ok_or].
    change (pk_market (pe_key e)) with (entry_market e). rewrite <- Qi, Hri. cbn [ok_or].
    rewrite Hmt. cbn [ok_or]. rewrite (cell_Some m_t _ slot Hwt) by lia. cbn [ok_or].
    rewrite vec_set_lt.
    2: { rewrite (co_len _ _ _ _ _ (mw_slot_extra m_t Hwt)), <- En. apply cell_index_lt; lia. }
    cbn [ok_or fst snd]. eexists. split; [reflexivity|]. split.
    { apply layout_set_market; [done|]. apply market_wf_slot_extra; [done|lia|by rewrite <- Er]. }
    split; [|done]. constructor; cbn; try done. eapply eqv_set_market; [done|done|].
    constructor; cbn; [done|done| |].
    + intros c l j Hl' Hj. specialize (Ec c l j Hl' Hj). by destruct c.
    + intros l j Hl' Hj. specialize (Ee l j Hl' Hj).
      pose proof (mw_slot_extra m_t Hwt) as Hct. rewrite <- Er, <- En in Hct.
      rewrite (column_set_lookup _ _ _ _ _ _ _ _ _ _ Hct) by done.
      rewrite (column_set_lookup _ _ _ _ _ _ _ _ _ _ (mw_slot_extra m Hm)) in Ee by done.
      case_decide as Hd; [destruct Hd as [-> ->]; done|done].
Qed.

(** ** [set_market] *)

Lemma set_market_Err at_ x s s' err : set_market at_ x s = (s', Err err) -> s' = s.
Proof. unfold set_market. intros H. destruct (row_at s at_) as [[[]]|]; cbn in H; by simplify_eq. Qed.

Lemma row_at_Some s at_ mi m r :
  row_at s at_ = Some (mi, m, r) <->
  market_idx (st_market_index s) (ms_market at_) = Some mi /\ st_markets s !! mi = Some m /\
  m_rows m !! ms_slot at_ = Some r.
Proof.
  unfold row_at. destruct (market_idx _ _) as [mi'|]; [|naive_solver].
  destruct (st_markets s !! mi') as [m'|] eqn:E; [|naive_solver].
  destruct (m_rows m' !! _) eqn:E2; naive_solver.
Qed.

Lemma market_wf_set_row m j r : market_wf m -> market_wf (set_rows (<[j := r]> (m_rows m)) m).
Proof. intros []. constructor; cbn; rewrite ?length_insert; done. Qed.

Lemma set_market_mutates at_ x s s' :
  store_wf s -> set_market at_ x s = (s', Ok tt) -> mutates s s'.
Proof.
  intros Hs H. unfold set_market in H.
  destruct (row_at s at_) as [[[mi m] prev]|] eqn:Hrow; cbn [ok_or] in H; [|done]. simplify_eq.
  apply row_at_Some in Hrow as (Hi & Hm & Hrow).
  assert (market_wf m) as Hwm by (eapply Forall_lookup_1; [apply Hs|done]).
  assert (ms_slot at_ < length (m_rows m)) as Hsl by by eapply lookup_lt_Some.
  split; [split|].
  - apply layout_bump, layout_set_market; [by apply layout_set_undo, Hs|]. by apply market_wf_set_row.
  - apply logical_ok_bump.
    pose proof (logical_replace s mi m (set_rows (<[ms_slot at_ := x]> (m_rows m)) m) Hs Hm eq_refl) as [];
      [intros; cbn; by rewrite length_insert|by constructor].
  - eexists _, [], [prev]. split; [cbn; apply ring_push_market_eq|].
    intros t E R Ht [Qc Qp Qe Qi Qm]. cbn in Qc, Qp, Qe, Qi, Qm. rewrite app_nil_r. cbn [revert].
    rewrite vec_pop_snoc.
    assert (mi < length (st_markets s)) as Hmi by by eapply lookup_lt_Some.
    destruct (Forall2_lookup_l _ _ _ mi _ Qm (list_lookup_insert_eq _ _ _ Hmi)) as (m_t & Hmt & Hqm).
    assert (market_wf m_t) as Hwt by (eapply Forall_lookup_1; [apply Ht|done]).
    pose proof Hqm as [Er En Ec Ee]. cbn in Er, En, Ec, Ee.
    assert (row_at t at_ = Some (mi, m_t, x)) as ->.
    { apply row_at_Some. rewrite <- Qi, <- Er. split; [done|]. split; [done|]. by apply list_lookup_insert_eq. }
    eexists. split; [reflexivity|].
    split; [apply layout_set_market; [done|by apply market_wf_set_row]|]. split; [|done].
    constructor; cbn; try done. eapply eqv_set_market; [done|done|].
    rewrite length_insert in Ec, Ee.
    constructor; cbn; [|done| |done].
    + by rewrite <- Er, list_insert_insert_eq, list_insert_id.
    + intros c l j Hl Hj. specialize (Ec c l j Hl Hj). by destruct c.
Qed.

(** ** [intern] *)

Lemma intern_Err k s s' err : intern k s = (s', Err err) -> s' = s.
Proof.
  unfold intern. intros H.
  repeat (match type of H with context [match ?x with _ => _ end] => destruct x end; try (by simplify_eq)).
Qed.

(** Growing every column by one zero row. *)
Lemma column_grow_ok {A} (z : A) n st rows col :
  column_ok z n st rows col -> rows <= st ->
  column_ok z (S n) st rows (resize (n * st + st) z col) /\
  (forall l j, l < n -> j < st -> cell_at (resize (n * st + st) z col) st l j = cell_at col st l j) /\
  (forall j, j < st -> cell_at (resize (n * st + st) z col) st n j = Some z).
Proof.
  intros [Hlen Hpad] Hr.
  assert (forall l j, l < n -> j < st -> cell_at (resize (n * st + st) z col) st l j = cell_at col st l j) as Hold.
  { intros l j Hl Hj. pose proof (cell_index_lt n st l j Hl Hj).
    unfold cell_at. apply lookup_resize; lia. }
  assert (forall j, j < st -> cell_at (resize (n * st + st) z col) st n j = Some z) as Hnew.
  { intros j Hj. unfold cell_at. apply lookup_resize_new; lia. }
  split; [|done]. constructor; [rewrite length_resize; lia|].
  intros l j Hl Hj. destruct (decide (l = n)) as [->|]; [apply Hnew; lia|].
  rewrite Hold by lia. apply Hpad; lia.
Qed.

Definition market_grow (n : nat) (m : Market) : Market :=
  let cells := m_n_pos m * m_stride m + m_stride m in
  mkMarket (m_rows m) (m_stride m) n (resize cells 0%Z (m_supply m))
    (resize cells 0%Z (m_debt m)) (resize cells EXTRA_ZERO (m_slot_extra m)).

Lemma market_wf_grow m :
  market_wf m -> (Z.of_nat (S (m_n_pos m)) <= umax 32)%Z -> market_wf (market_grow (S (m_n_pos m)) m).
Proof.
  intros Hm Hn. pose proof Hm as []. constructor; cbn; try done; by apply column_grow_ok.
Qed.

(** The new row holds nothing and the old rows hold what they held. *)
Lemma held_grow m l j :
  market_wf m -> l <= m_n_pos m -> j < length (m_rows m) ->
  held (market_grow (S (m_n_pos m)) m) l j <-> l < m_n_pos m /\ held m l j.
Proof.
  intros Hm Hl Hj. pose proof (mw_rows m Hm).
  assert (forall c, col_get c (market_grow (S (m_n_pos m)) m) =
    resize (m_n_pos m * m_stride m + m_stride m) 0%Z (col_get c m)) as Hc by by intros [].
  unfold held. change (m_stride (market_grow _ m)) with (m_stride m).
  split.
  - intros (c & v & Hv & Hnz). rewrite Hc in Hv.
    destruct (column_grow_ok _ _ _ _ _ (market_wf_col m c Hm) (mw_rows m Hm)) as (_ & Hold & Hnew).
    destruct (decide (l = m_n_pos m)) as [->|].
    { rewrite Hnew in Hv by lia. congruence. }
    split; [lia|]. exists c, v. by rewrite Hold in Hv by lia.
  - intros (Hl' & c & v & Hv & Hnz). exists c, v. rewrite Hc.
    destruct (column_grow_ok _ _ _ _ _ (market_wf_col m c Hm) (mw_rows m Hm)) as (_ & Hold & _).
    by rewrite Hold by lia.
Qed.

Lemma intern_Ok k s s' id :
  store_wf s -> intern k s = (s', Ok id) ->
  (s' = s /\ pt_map (st_positions s) !! k = Some id) \/
  exists mi m, pt_map (st_positions s) !! k = None /\
    market_idx (st_market_index s) (pk_market k) = Some mi /\ st_markets s !! mi = Some m /\
    id = length (pt_entries (st_positions s)) /\ (Z.of_nat (S (m_n_pos m)) <= umax 32)%Z /\
    s' = bump_writes (mkStore (st_config s ++ [EMPTY])
           (table_push (st_positions s) k (length (pt_entries (st_positions s))) (m_n_pos m))
           (st_extra s ++ [EXTRA_ZERO]) (<[mi := market_grow (S (m_n_pos m)) m]> (st_markets s))
           (st_market_index s) (ring_push (UCreated id) (st_undo s)) (st_writes s)).
Proof.
  intros Hs H. unfold intern, table_get in H.
  destruct (pt_map (st_positions s) !! k) as [i|] eqn:Hk; [left; by simplify_eq|right].
  cbv zeta in H. destruct (market_idx _ _) as [mi|] eqn:Hi; cbn [ok_or] in H; [|done].
  destruct (st_markets s !! mi) as [m|] eqn:Hm; cbn [ok_or] in H; [|done].
  destruct (table_next_id _) as [i|] eqn:Hn; cbn [ok_or] in H; [|done].
  apply try_from_nat_Some in Hn as [-> _].
  destruct (checked_add_nat 32 _ 1) as [n|] eqn:Hn; cbn [ok_or] in H; [|done].
  apply checked_add_nat_Some in Hn as [-> Hn].
  destruct (checked_add_nat 64 _ _) as [n|] eqn:Hc; cbn [ok_or] in H; [|done].
  apply checked_add_nat_Some in Hc as [-> Hc].
  assert (market_wf m) as Hwm by (eapply Forall_lookup_1; [apply Hs|done]).
  rewrite (co_len _ _ _ _ _ (mw_supply m Hwm)), Nat.add_1_r in H. simplify_eq.
  exists mi, m. rewrite Nat.add_1_r in Hn. done.
Qed.

Lemma intern_logical k s mi m :
  store_wf s -> pt_map (st_positions s) !! k = None ->
  market_idx (st_market_index s) (pk_market k) = Some mi -> st_markets s !! mi = Some m ->
  logical_ok (mkStore (st_config s ++ [EMPTY])
    (table_push (st_positions s) k (length (pt_entries (st_positions s))) (m_n_pos m))
    (st_extra s ++ [EXTRA_ZERO]) (<[mi := market_grow (S (m_n_pos m)) m]> (st_markets s))
    (st_market_index s) (st_undo s) (st_writes s)).
Proof.
  intros Hs Hk Hi Hm. pose proof (proj2 Hs) as Hg. pose proof Hg as [? Lc Le ? _ Hinj _ Hent _].
  assert (market_wf m) as Hwm by (eapply Forall_lookup_1; [apply Hs|done]).
  assert (mi < length (st_markets s)) as Hmi by by eapply lookup_lt_Some.
  set (es := pt_entries (st_positions s)) in *. set (e := mkEntry k (m_n_pos m)).
  assert (forall i f, (es ++ [e]) !! i = Some f -> es !! i = Some f \/ (i = length es /\ f = e)) as Hcase.
  { intros i f [?|[? Hf]]%lookup_app_Some; [by left|right].
    apply list_lookup_singleton_Some in Hf as [? <-]. split; [lia|done]. }
  constructor; cbn [st_config st_positions st_extra st_markets st_market_index table_push pt_entries]; fold es; fold e.
  - by apply table_push_ok.
  - rewrite !length_app. simpl. lia.
  - rewrite !length_app. simpl. lia.
  - apply Forall_app. split; [done|]. repeat constructor; apply EMPTY_ok.
  - intros id mi' Hid. rewrite length_insert. by eapply (sw_index s Hg).
  - done.
  - intros id mi' m1 Hid. rewrite count_market_snoc. change (entry_market e) with (pk_market k).
    destruct (decide (mi = mi')) as [<-|].
    + rewrite list_lookup_insert_eq by done. intros [= <-]. cbn.
      assert (id = pk_market k) as -> by by eapply Hinj.
      rewrite decide_True by done. rewrite (sw_n_pos s Hg _ _ _ Hid Hm). fold es. lia.
    + rewrite list_lookup_insert_ne by done. intros Hm1.
      rewrite decide_False by congruence. rewrite (sw_n_pos s Hg _ _ _ Hid Hm1). fold es. lia.
  - intros i f [Hf|[-> ->]]%Hcase.
    + rewrite take_app_le by (apply lookup_lt_Some in Hf; lia). by apply Hent.
    + change (entry_market e) with (pk_market k). split; [by eexists|].
      rewrite take_app_length. cbn. by apply (sw_n_pos s Hg _ _ _ Hi).
  - intros i f m1 c j Hf Hm1 Hc. unfold find_market in Hm1. cbn in Hm1. destruct (Hcase i f Hf) as [Hf'|[-> ->]].
    + rewrite lookup_app_l in Hc by (rewrite Lc; by eapply lookup_lt_Some).
      destruct (entry_resolved s i f Hs Hf') as (mf & mm & Hrf & Hmm & Hlf). pose proof Hrf as [_ Hfi Hfm].
      rewrite Hfi in Hm1. rewrite (sw_bits s Hg i f mm c j Hf' (resolved_find _ _ _ _ _ Hrf) Hc).
      destruct (decide (mi = mf)) as [<-|].
      * rewrite list_lookup_insert_eq in Hm1 by done. simplify_eq. cbn [market_grow m_rows].
        split; intros [Hj Hh]; (split; [done|]).
        -- apply held_grow; [done|lia|done|by split].
        -- by apply held_grow in Hh as [_ ?]; [|done|lia|done].
      * rewrite list_lookup_insert_ne in Hm1 by done. by simplify_eq.
    + rewrite lookup_app_r, Lc, Nat.sub_diag in Hc by lia. cbn in Hc. simplify_eq.
      rewrite contains_EMPTY. split; [done|]. change (entry_market e) with (pk_market k) in Hm1. rewrite Hi in Hm1.
      rewrite list_lookup_insert_eq in Hm1 by done. simplify_eq. cbn [market_grow m_rows].
      intros [Hj Hh]. apply held_grow in Hh; [|done|cbn; lia|done]. cbn in Hh. lia.
Qed.

(** Dropping the newest row. *)
Lemma column_shrink_ok {A} (z : A) n st rows col :
  column_ok z (S n) st rows col -> rows <= st ->
  column_ok z n st rows (take (n * st) col) /\
  (forall l j, l < n -> j < st -> cell_at (take (n * st) col) st l j = cell_at col st l j).
Proof.
  intros [Hlen Hpad] Hr.
  assert (forall l j, l < n -> j < st -> cell_at (take (n * st) col) st l j = cell_at col st l j) as Hold.
  { intros l j Hl Hj. unfold cell_at. apply lookup_take_lt. by apply cell_index_lt. }
  split; [|done]. constructor.
  - rewrite length_take, Hlen. simpl. lia.
  - intros l j Hl Hj. rewrite Hold by lia. apply Hpad; lia.
Qed.

Definition market_shrink (m : Market) : Market :=
  let n := pred (m_n_pos m) in
  mkMarket (m_rows m) (m_stride m) n (take (n * m_stride m) (m_supply m))
    (take (n * m_stride m) (m_debt m)) (take (n * m_stride m) (m_slot_extra m)).

Lemma market_wf_shrink m n : market_wf m -> m_n_pos m = S n -> market_wf (market_shrink m).
Proof.
  intros Hm Hn. pose proof Hm as [Hr ? ? ? Hsu Hde Hse]. rewrite Hn in *.
  constructor; cbn; rewrite ?Hn; try done; try lia; by apply column_shrink_ok.
Qed.

Lemma market_eqv_shrink m m_t :
  market_wf m -> market_wf m_t -> market_eqv (market_grow (S (m_n_pos m)) m) m_t ->
  market_eqv m (market_shrink m_t).
Proof.
  intros Hm Ht [Er En Ec Ee]. cbn in Er, En, Ec, Ee. pose proof (mw_rows m Hm). pose proof (mw_rows m_t Ht).
  assert (forall c, col_get c (market_shrink m_t) = take (m_n_pos m * m_stride m_t) (col_get c m_t)) as Hc.
  { intros c. unfold market_shrink. rewrite <- En. by destruct c. }
  rewrite <- Er in *.
  constructor; cbn; [done|by rewrite <- En| |].
  - intros c l j Hl Hj. rewrite Hc. specialize (Ec c l j ltac:(lia) Hj).
    destruct (column_grow_ok _ _ _ _ _ (market_wf_col m c Hm) (mw_rows m Hm)) as (_ & Hold & _).
    pose proof (market_wf_col m_t c Ht) as Hct. rewrite <- En, <- Er in Hct.
    destruct (column_shrink_ok _ _ _ _ _ Hct ltac:(lia)) as [_ Hsh].
    rewrite Hsh by lia. rewrite <- Ec. replace (col_get c (market_grow (S (m_n_pos m)) m))
      with (resize (m_n_pos m * m_stride m + m_stride m) 0%Z (col_get c m)) by by destruct c.
    symmetry. apply Hold; lia.
  - intros l j Hl Hj. specialize (Ee l j ltac:(lia) Hj).
    destruct (column_grow_ok _ _ _ _ _ (mw_slot_extra m Hm) (mw_rows m Hm)) as (_ & Hold & _).
    pose proof (mw_slot_extra m_t Ht) as Hct. rewrite <- En, <- Er in Hct.
    destruct (column_shrink_ok _ _ _ _ _ Hct ltac:(lia)) as [_ Hsh].
    rewrite <- En. simpl pred. rewrite Hsh, <- Ee by lia. symmetry. apply Hold; lia.
Qed.

Lemma revert_created_inverse k s mi m t :
  store_wf s -> pt_map (st_positions s) !! k = None ->
  market_idx (st_market_index s) (pk_market k) = Some mi -> st_markets s !! mi = Some m ->
  layout_ok t ->
  st_config t = st_config s ++ [EMPTY] ->
  st_positions t = table_push (st_positions s) k (length (pt_entries (st_positions s))) (m_n_pos m) ->
  st_extra t = st_extra s ++ [EXTRA_ZERO] ->
  (forall id, market_idx (st_market_index s) id = market_idx (st_market_index t) id) ->
  Forall2 market_eqv (<[mi := market_grow (S (m_n_pos m)) m]> (st_markets s)) (st_markets t) ->
  exists t', revert_created (length (pt_entries (st_positions s))) t = (t', Ok tt) /\
    layout_ok t' /\ store_eqv s t' /\ st_undo t' = st_undo t.
Proof.
  intros Hs Hk Hi Hm Ht Qc Qp Qe Qi Qm.
  assert (market_wf m) as Hwm by (eapply Forall_lookup_1; [apply Hs|done]).
  assert (mi < length (st_markets s)) as Hmi by by eapply lookup_lt_Some.
  destruct (Forall2_lookup_l _ _ _ mi _ Qm (list_lookup_insert_eq _ _ _ Hmi)) as (m_t & Hmt & Hqm).
  assert (market_wf m_t) as Hwt by (eapply Forall_lookup_1; [apply Ht|done]).
  pose proof (me_n_pos _ _ Hqm) as En. cbn in En.
  unfold revert_created, table_len. rewrite Qp. cbn [table_push pt_entries].
  rewrite (proj2 (checked_sub_nat_Some _ _ (length (pt_entries (st_positions s))))) by
    (rewrite length_app; simpl; lia). cbn [ok_or]. rewrite Nat.eqb_refl. cbn [negb].
  fold (table_push (st_positions s) k (length (pt_entries (st_positions s))) (m_n_pos m)).
  rewrite table_pop_push by done. rewrite Qc, Qe, !vec_pop_snoc. cbn [fst]. cbv zeta.
  cbn [st_market_index st_markets pe_key pe_local]. rewrite <- Qi, Hi. cbn [ok_or]. rewrite Hmt. cbn [ok_or].
  rewrite (proj2 (checked_sub_nat_Some _ _ (m_n_pos m))) by lia. cbn [ok_or].
  rewrite Nat.eqb_refl. cbn [negb m_stride m_rows m_supply m_debt m_slot_extra].
  pose proof (mw_n_pos m_t Hwt). pose proof (mw_stride m_t Hwt).
  rewrite (proj2 (checked_mul_nat_Some 64 _ _ (m_n_pos m * m_stride m_t))).
  2: { split; [done|]. assert (m_n_pos m * m_stride m_t <= m_n_pos m * 128) by (apply Nat.mul_le_mono_l; lia).
       unfold umax in *. lia. }
  cbn [ok_or]. eexists. split; [reflexivity|].
  rewrite set_market_at_twice.
  replace (mkMarket (m_rows m_t) _ _ (take _ _) _ _) with (market_shrink m_t)
    by (unfold market_shrink; by rewrite <- En).
  split; [|split; [|done]].
  - destruct Ht. constructor; cbn; [|done]. apply Forall_insert; [done|]. by eapply market_wf_shrink.
  - constructor; cbn; try done. eapply eqv_set_market; [done|done|]. by apply market_eqv_shrink.
Qed.

Lemma intern_spec k s s' id :
  store_wf s -> intern k s = (s', Ok id) -> unchanged s s' \/ mutates s s'.
Proof.
  intros Hs H. apply intern_Ok in H as [[-> _]|(mi & m & Hk & Hi & Hm & -> & Hn & ->)]; [by left| |done].
  right. assert (market_wf m) as Hwm by (eapply Forall_lookup_1; [apply Hs|done]).
  split; [split|].
  - destruct Hs as [[] _]. constructor; cbn; [|done]. apply Forall_insert; [done|]. by apply market_wf_grow.
  - apply logical_ok_bump. destruct (intern_logical k s mi m Hs Hk Hi Hm). by constructor.
  - eexists _, [], []. split; [cbn; apply ring_push_eq|].
    intros t E R Ht [Qc Qp Qe Qi Qm]. cbn in Qc, Qp, Qe, Qi, Qm. rewrite !app_nil_r. cbn [revert].
    destruct (revert_created_inverse k s mi m t) as (t' & -> & ?); try done. by exists t'.
Qed.

(** ** [push_market] *)

Lemma held_eqv m m' l j :
  market_eqv m m' -> l < m_n_pos m -> j < length (m_rows m) -> held m l j <-> held m' l j.
Proof.
  intros [_ _ Ec _] Hl Hj. unfold held.
  split; intros (c & v & Hv & Hnz); exists c, v; (split; [|done]); specialize (Ec c l j Hl Hj); congruence.
Qed.

Lemma market_eqv_wf_held m l j v c :
  market_wf m -> l < m_n_pos m -> length (m_rows m) <= j < m_stride m ->
  cell_at (col_get c m) (m_stride m) l j = Some v -> v = 0%Z.
Proof.
  intros Hm Hl Hj Hv. rewrite (co_pad _ _ _ _ _ (market_wf_col m c Hm) l j Hl Hj) in Hv. congruence.
Qed.

(** Making room for [slots] cells always succeeds on a well-formed market, changes no cell
    and zeroes the new ones. *)
Lemma ensure_stride_ok m slots :
  market_wf m -> slots <= 128 ->
  exists m', ensure_stride m slots = (m', Ok tt) /\ market_wf m' /\ market_eqv m m' /\
    m_rows m' = m_rows m /\ m_n_pos m' = m_n_pos m /\ slots <= m_stride m'.
Proof.
  intros Hm Hsl. unfold ensure_stride. destruct (Nat.leb_spec slots (m_stride m)).
  { by exists m. }
  destruct (next_multiple_4 slots) as (k & -> & Hk & Hk4); [unfold umax; lia|]. cbn [ok_or].
  assert (k <= 128) as Hk128.
  { pose proof (Nat.div_mod_eq k 4). assert (k < 132) by lia. lia. }
  pose proof Hm as [Hr ? ? Hn Hsu Hde Hse].
  assert (Z.of_nat (m_n_pos m * k) <= umax 64)%Z as Hb.
  { assert (m_n_pos m * k <= m_n_pos m * 128) by (apply Nat.mul_le_mono_l; lia). unfold umax in *. lia. }
  destruct (restride_ok 0%Z (m_supply m) (m_n_pos m) (m_stride m) k ltac:(lia) (co_len _ _ _ _ _ Hsu) Hb)
    as (su & -> & Lsu & Vsu).
  destruct (restride_ok 0%Z (m_debt m) (m_n_pos m) (m_stride m) k ltac:(lia) (co_len _ _ _ _ _ Hde) Hb)
    as (de & -> & Lde & Vde).
  destruct (restride_ok EXTRA_ZERO (m_slot_extra m) (m_n_pos m) (m_stride m) k ltac:(lia)
    (co_len _ _ _ _ _ Hse) Hb) as (se & -> & Lse & Vse).
  eexists. split; [reflexivity|]. split; [|split].
  - constructor; cbn; try done; try lia; (constructor; [done|]); intros l j Hl Hj;
      [rewrite Vsu by lia|rewrite Vde by lia|rewrite Vse by lia]; case_decide; try done;
      by apply co_pad with (rows := length (m_rows m)) (n := m_n_pos m); [| |lia].
  - constructor; cbn; try done.
    + intros c l j Hl Hj. destruct c; cbn; [rewrite Vsu by lia|rewrite Vde by lia];
        by rewrite decide_True by lia.
    + intros l j Hl Hj. rewrite Vse by lia. by rewrite decide_True by lia.
  - cbn. split; [done|]. split; [done|lia].
Qed.

Definition append_row (row : MarketRow) (m : Market) : Market := set_rows (m_rows m ++ [row]) m.

Lemma market_wf_append row m :
  market_wf m -> S (length (m_rows m)) <= m_stride m -> market_wf (append_row row m).
Proof.
  intros [] Hr. assert (length (m_rows m ++ [row]) = S (length (m_rows m))) as Hlen
    by (rewrite length_app; simpl; lia).
  constructor; cbn; rewrite ?Hlen; try done;
    match goal with H : column_ok _ _ _ _ ?c |- column_ok _ _ _ _ ?c => destruct H end;
    (constructor; [done|]); intros l j Hl Hj; eauto with lia.
Qed.

(** Popping the appended row off any equivalent market gives back the market it was
    appended to, with its padding zero again. *)
Lemma market_pop_row row m m' m_t :
  market_wf m -> market_wf m' -> market_wf m_t -> market_eqv m m' ->
  m_rows m' = m_rows m -> m_n_pos m' = m_n_pos m -> length (m_rows m) < m_stride m' ->
  market_eqv (append_row row m') m_t ->
  market_wf (set_rows (m_rows m) m_t) /\ market_eqv m (set_rows (m_rows m) m_t).
Proof.
  intros Hm Hm' Ht Hq Er En Hroom [Qr Qn Qc Qe]. cbn in Qr, Qn, Qc, Qe.
  assert (length (m_rows m' ++ [row]) = S (length (m_rows m))) as Hlen
    by (rewrite length_app, Er; simpl; lia).
  rewrite Hlen in Qc, Qe. pose proof (mw_rows m_t Ht) as Hrt. rewrite <- Qr, Hlen in Hrt. rewrite En in Qn, Qc, Qe.
  split.
  - pose proof Ht as [? ? ? ? Hsu Hde Hse]. rewrite <- Qr, Hlen in *. rewrite <- Qn in *.
    constructor; cbn; rewrite <- ?Qn; try done; try lia.
    + destruct Hsu as [? Hp]. constructor; [done|]. intros l j Hl Hj.
      destruct (decide (j = length (m_rows m))) as [->|]; [|apply Hp; lia].
      rewrite <- (Qc Supply) by lia. cbn. apply (co_pad _ _ _ _ _ (mw_supply m' Hm')); [lia|].
      rewrite Er. lia.
    + destruct Hde as [? Hp]. constructor; [done|]. intros l j Hl Hj.
      destruct (decide (j = length (m_rows m))) as [->|]; [|apply Hp; lia].
      rewrite <- (Qc Debt) by lia. cbn. apply (co_pad _ _ _ _ _ (mw_debt m' Hm')); [lia|].
      rewrite Er. lia.
    + destruct Hse as [? Hp]. constructor; [done|]. intros l j Hl Hj.
      destruct (decide (j = length (m_rows m))) as [->|]; [|apply Hp; lia].
      rewrite <- Qe by lia. apply (co_pad _ _ _ _ _ (mw_slot_extra m' Hm')); [lia|].
      rewrite Er. lia.
  - constructor; cbn; [done|lia| |].
    + intros c l j Hl Hj. rewrite (me_col _ _ Hq c l j Hl Hj).
      specialize (Qc c l j Hl ltac:(lia)). by destruct c.
    + intros l j Hl Hj. rewrite (me_slot_extra _ _ Hq l j Hl Hj). apply Qe; lia.
Qed.

Lemma held_append row m m' l j :
  market_wf m -> market_wf m' -> market_eqv m m' -> m_rows m' = m_rows m -> m_n_pos m' = m_n_pos m ->
  S (length (m_rows m)) <= m_stride m' -> l < m_n_pos m ->
  j < length (m_rows (append_row row m')) /\ held (append_row row m') l j <->
  j < length (m_rows m) /\ held m l j.
Proof.
  intros Hm Hm' Hq Er En Hroom Hl. cbn. rewrite length_app, Er. simpl.
  assert (held (append_row row m') l j <-> held m' l j) as -> .
  { unfold held. split; intros (c & v & ?); exists c, v; by destruct c. }
  destruct (decide (j < length (m_rows m))) as [Hj|Hj].
  - rewrite <- (held_eqv m m') by done. split; intros []; split; auto; lia.
  - split; [|lia]. intros [Hj' (c & v & Hv & Hnz)]. exfalso. apply Hnz.
    eapply (market_eqv_wf_held m' l j v c); [done|lia| |done]. rewrite Er. lia.
Qed.

(** The sparse table: an update changes one id, room changes none. *)
Lemma market_idx_insert ix id id' z :
  id < length ix -> (0 <= z < NO_MARKET)%Z ->
  market_idx (<[id := z]> ix) id' = if decide (id' = id) then Some (Z.to_nat z) else market_idx ix id'.
Proof.
  intros Hid Hz. unfold market_idx. case_decide; subst.
  - rewrite list_lookup_insert_eq by done. by rewrite (proj2 (Z.eqb_neq z NO_MARKET)) by lia.
  - by rewrite list_lookup_insert_ne.
Qed.

Lemma market_idx_clear ix id id' :
  id < length ix ->
  market_idx (<[id := NO_MARKET]> ix) id' = if decide (id' = id) then None else market_idx ix id'.
Proof.
  intros Hid. unfold market_idx. case_decide; subst.
  - rewrite list_lookup_insert_eq by done. by rewrite Z.eqb_refl.
  - by rewrite list_lookup_insert_ne.
Qed.

Lemma market_idx_resize ix n id :
  length ix <= n -> market_idx (resize n NO_MARKET ix) id = market_idx ix id.
Proof.
  intros Hn. unfold market_idx. destruct (decide (id < length ix)).
  - by rewrite lookup_resize by lia.
  - rewrite (lookup_ge_None_2 ix) by lia. destruct (decide (id < n)).
    + rewrite lookup_resize_new by lia. by rewrite Z.eqb_refl.
    + by rewrite lookup_resize_old by lia.
Qed.

Lemma unchanged_refl s : store_wf s -> unchanged s s.
Proof. intros Hs. by split. Qed.

Lemma unchanged_room s n :
  store_wf s -> length (st_market_index s) <= n ->
  unchanged s (set_index (resize n NO_MARKET (st_market_index s)) s).
Proof.
  intros Hs Hn. assert (store_eqv s (set_index (resize n NO_MARKET (st_market_index s)) s)) as Hq.
  { constructor; cbn; try done. intros id. by rewrite market_idx_resize. }
  split; [|done]. eapply store_wf_eqv; [done|done|]. destruct Hs as [[] _]. constructor; cbn; [done|].
  apply Forall_resize; [|done]. vm_compute. discriminate.
Qed.

(** A listing in a known market. *)
Lemma push_market_known id row s mi m :
  store_wf s -> market_idx (st_market_index s) id = Some mi -> st_markets s !! mi = Some m ->
  (128 <= length (m_rows m) /\ exists err, push_market id row s = (s, Err err)) \/
  (length (m_rows m) < 128 /\ exists m', market_wf m' /\ market_eqv m m' /\
    m_rows m' = m_rows m /\ m_n_pos m' = m_n_pos m /\ S (length (m_rows m)) <= m_stride m' /\
    push_market id row s =
      (bump_writes (set_market_at mi (append_row row m')
         (set_undo (ring_push (UPushed id false) (st_undo s)) s)), Ok (mkSlot id (length (m_rows m))))).
Proof.
  intros Hs Hi Hm. assert (market_wf m) as Hwm by (eapply Forall_lookup_1; [apply Hs|done]).
  pose proof (mw_rows m Hwm). pose proof (mw_stride m Hwm).
  unfold push_market. rewrite Hi. cbn [andb]. rewrite Hm. cbn [ok_or].
  rewrite (proj2 (try_from_nat_Some 16 (length (m_rows m)) (length (m_rows m)))).
  2: { split; [done|]. unfold umax. lia. }
  cbn [ok_or]. cbv zeta. unfold MAX_SLOTS.
  destruct (Z.leb_spec 128 (Z.of_nat (length (m_rows m)))); [left; split; [lia|by eexists]|right].
  split; [lia|].
  rewrite (proj2 (checked_add_nat_Some 64 (length (m_rows m)) 1 (length (m_rows m) + 1))).
  2: { split; [done|]. unfold umax. lia. }
  cbn [ok_or].
  destruct (ensure_stride_ok m (length (m_rows m) + 1) Hwm ltac:(lia)) as (m' & -> & Hw' & Hq & Er & En & Hst).
  exists m'. split; [done|]. split; [done|]. split; [done|]. split; [done|]. split; [lia|done].
Qed.

Lemma push_market_known_mutates id row s mi m s' a :
  store_wf s -> market_idx (st_market_index s) id = Some mi -> st_markets s !! mi = Some m ->
  push_market id row s = (s', Ok a) -> mutates s s'.
Proof.
  intros Hs Hi Hm H. assert (market_wf m) as Hwm by (eapply Forall_lookup_1; [apply Hs|done]).
  destruct (push_market_known id row s mi m Hs Hi Hm)
    as [[_ [err E]]|(Hlt & m' & Hw' & Hq & Er & En & Hst & E)]; rewrite E in H; [done|]. simplify_eq.
  assert (market_wf (append_row row m')) as Hwa by (apply market_wf_append; [done|by rewrite Er]).
  assert (mi < length (st_markets s)) as Hmi by by eapply lookup_lt_Some.
  split; [split|].
  - apply layout_bump, layout_set_market; [by apply layout_set_undo, Hs|done].
  - apply logical_ok_bump.
    destruct (logical_replace s mi m (append_row row m') Hs Hm); [done| |by constructor].
    intros. by apply held_append.
  - eexists _, [], []. split; [cbn; apply ring_push_eq|].
    intros t E' R Ht [Qc Qp Qe Qi Qm]. cbn in Qc, Qp, Qe, Qi, Qm. rewrite !app_nil_r. cbn [revert].
    destruct (Forall2_lookup_l _ _ _ mi _ Qm (list_lookup_insert_eq _ _ _ Hmi)) as (m_t & Hmt & Hqm).
    assert (market_wf m_t) as Hwt by (eapply Forall_lookup_1; [apply Ht|done]).
    unfold revert_pushed. rewrite <- Qi, Hi. cbn [ok_or].
    assert (length (st_markets t) <> 0) by (rewrite <- (Forall2_length _ _ _ Qm), length_insert; lia).
    rewrite (proj2 (checked_sub_nat_Some _ _ (length (st_markets t) - 1))) by lia. cbn [ok_or].
    rewrite Hmt. cbn [ok_or]. rewrite <- (me_rows _ _ Hqm). cbn [append_row set_rows m_rows].
    rewrite vec_pop_snoc, Er. cbn [fst snd]. eexists. split; [reflexivity|].
    destruct (market_pop_row row m m' m_t) as [Hwp Hqp]; try done.
    split; [by apply layout_set_market|]. split; [|done].
    constructor; cbn; try done. by eapply eqv_set_market.
Qed.

(** The first listing of a market. *)
Definition first_market (row : MarketRow) : Market := mkMarket [row] 4 0 [] [] [].

Definition index_room (id : nat) (ix : list Z) : list Z :=
  if length ix <=? id then resize (S id) NO_MARKET ix else ix.

Lemma index_room_spec id ix :
  id < length (index_room id ix) /\ (forall i, market_idx (index_room id ix) i = market_idx ix i) /\
  (Forall (fun z => 0 <= z)%Z ix -> Forall (fun z => 0 <= z)%Z (index_room id ix)).
Proof.
  unfold index_room. destruct (Nat.leb_spec (length ix) id); [|done].
  split; [rewrite length_resize; lia|]. split; [intros; apply market_idx_resize; lia|].
  intros. apply Forall_resize; [|done]. vm_compute. discriminate.
Qed.

Lemma push_market_fresh id row s :
  store_wf s -> market_idx (st_market_index s) id = None ->
  ((MAX_MARKETS <= Z.of_nat id \/ MAX_MARKETS <= Z.of_nat (length (st_markets s)))%Z /\
   push_market id row s = (s, Err Internal)) \/
  ((Z.of_nat id < MAX_MARKETS /\ Z.of_nat (length (st_markets s)) < MAX_MARKETS)%Z /\
   push_market id row s =
     (bump_writes (mkStore (st_config s) (st_positions s) (st_extra s)
        (st_markets s ++ [first_market row])
        (<[id := Z.of_nat (length (st_markets s))]> (index_room id (st_market_index s)))
        (ring_push (UPushed id true) (st_undo s)) (st_writes s)), Ok (mkSlot id 0))).
Proof.
  intros Hs Hi. unfold push_market. rewrite Hi. cbn [andb].
  destruct (Z.leb_spec MAX_MARKETS (Z.of_nat id)); [left; by split; [left|]|].
  destruct (Z.leb_spec MAX_MARKETS (Z.of_nat (length (st_markets s)))); [left; by split; [right|]|].
  right. split; [done|]. cbn [orb].
  change (try_from_nat 16 0) with (Some 0). cbn [ok_or]. cbv zeta.
  change (MAX_SLOTS <=? Z.of_nat 0)%Z with false. cbv iota.
  change (checked_add_nat 64 0 1) with (Some 1). cbn [ok_or].
  unfold MAX_MARKETS, MARKET_ID_LIMIT, umax in *.
  assert ((if length (st_market_index s) <=? id
           then let? len := ok_or (checked_add_nat 64 id 1) Internal in
                Ok (set_index (resize len NO_MARKET (st_market_index s)) s)
           else Ok s) = Ok (E := ProtocolError) (set_index (index_room id (st_market_index s)) s)) as ->.
  { unfold index_room. destruct (Nat.leb_spec (length (st_market_index s)) id); [|by destruct s].
    rewrite (proj2 (checked_add_nat_Some 64 id 1 (S id))) by (unfold umax; lia). done. }
  rewrite (proj2 (try_from_Some 16 (Z.of_nat (length (st_markets s))) (Z.of_nat (length (st_markets s)))))
    by (split; [done|]; split; unfold umax; lia).
  cbn [ok_or]. change (ensure_stride market_new 1) with (mkMarket [] 4 0 [] [] [], @Ok StateError unit tt).
  cbv iota. cbn [set_index st_market_index].
  destruct (index_room_spec id (st_market_index s)) as (Hlt & _).
  by rewrite (proj2 (Nat.leb_gt _ _) Hlt).
Qed.

Lemma first_market_wf row : market_wf (first_market row).
Proof. constructor; cbn; try lia; try done; constructor; cbn; (done || lia). Qed.

Lemma push_market_fresh_wf id row s :
  store_wf s -> market_idx (st_market_index s) id = None ->
  (Z.of_nat id < MAX_MARKETS /\ Z.of_nat (length (st_markets s)) < MAX_MARKETS)%Z ->
  store_wf (mkStore (st_config s) (st_positions s) (st_extra s) (st_markets s ++ [first_market row])
     (<[id := Z.of_nat (length (st_markets s))]> (index_room id (st_market_index s)))
     (st_undo s) (st_writes s)).
Proof.
  intros Hs Hi [Hid Hlen]. pose proof (proj2 Hs) as Hg. pose proof Hg as [? ? ? ? Hix Hinj Hnp Hent _].
  destruct (index_room_spec id (st_market_index s)) as (Hroom & Hsame & Hpos).
  set (ms := st_markets s) in *.
  assert (forall i, market_idx (<[id := Z.of_nat (length ms)]> (index_room id (st_market_index s))) i =
    if decide (i = id) then Some (length ms) else market_idx (st_market_index s) i) as Hidx.
  { intros i. rewrite market_idx_insert, Hsame, Nat2Z.id; [done|done|].
    unfold NO_MARKET, MAX_MARKETS, MARKET_ID_LIMIT in *. lia. }
  split.
  { destruct Hs as [[Hm Hz] _]. constructor; cbn.
    - apply Forall_app. split; [done|]. constructor; [apply first_market_wf|constructor].
    - apply Forall_insert; [auto|lia]. }
  constructor; cbn [st_config st_positions st_extra st_markets st_market_index]; try done.
  - intros i mi. rewrite Hidx, length_app. cbn. case_decide; [intros [= <-]; lia|].
    intros Hm%Hix. fold ms in Hm. lia.
  - intros i1 i2 mi. rewrite !Hidx. repeat case_decide; subst; try done.
    + intros [= <-] Hm%Hix. fold ms in Hm. lia.
    + intros Hm%Hix [= <-]. fold ms in Hm. lia.
    + apply Hinj.
  - intros i mi m. rewrite Hidx. case_decide; subst.
    + intros [= <-]. rewrite lookup_app_r, Nat.sub_diag by lia. intros [= <-]. cbn.
      unfold count_market. symmetry. apply length_zero_iff_nil.
      apply elem_of_nil_inv. intros e [He Hin]%list_elem_of_filter.
      apply list_elem_of_lookup in Hin as [k Hk]. destruct (Hent k e Hk) as [[x Hx] _]. congruence.
    + intros Hm. rewrite lookup_app_l by (by eapply Hix). by apply Hnp.
  - intros k e Hk. rewrite Hidx. destruct (Hent k e Hk) as [Hx ?]. split; [|done].
    case_decide; [by eexists|done].
  - intros k e m c j Hk. unfold find_market. cbn. rewrite Hidx.
    destruct (Hent k e Hk) as [[x Hx] _]. rewrite decide_False by congruence. rewrite Hx.
    rewrite lookup_app_l by (by eapply Hix). intros Hm. apply (sw_bits s Hg); [done|].
    unfold find_market. by rewrite Hx.
Qed.

Lemma push_market_fresh_mutates id row s s' a :
  store_wf s -> market_idx (st_market_index s) id = None ->
  push_market id row s = (s', Ok a) -> mutates s s'.
Proof.
  intros Hs Hi H. destruct (push_market_fresh id row s Hs Hi) as [[_ E]|[Hb E]]; rewrite E in H; [done|].
  simplify_eq. pose proof (push_market_fresh_wf id row s Hs Hi Hb) as [[Lm Li] Hlog].
  split; [split|].
  - by constructor.
  - apply logical_ok_bump. destruct Hlog. by constructor.
  - eexists _, [], []. split; [cbn; apply ring_push_eq|].
    intros t E' R Ht [Qc Qp Qe Qi Qm]. cbn in Qc, Qp, Qe, Qi, Qm. rewrite !app_nil_r. cbn [revert].
    destruct (index_room_spec id (st_market_index s)) as (Hroom & Hsame & _).
    assert (forall i, market_idx (st_market_index t) i =
      if decide (i = id) then Some (length (st_markets s)) else market_idx (st_market_index s) i) as Hidx.
    { intros i. rewrite <- Qi, market_idx_insert, Hsame, Nat2Z.id; [done|done|].
      unfold NO_MARKET, MAX_MARKETS, MARKET_ID_LIMIT in *. lia. }
    apply Forall2_app_inv_l in Qm as (ts & tl & Qm & Ql & Et).
    apply Forall2_cons_inv_l in Ql as (m_t & tl' & Hqm & Hnil & ->). apply Forall2_nil_inv_l in Hnil as ->.
    pose proof (Forall2_length _ _ _ Qm) as Hlen.
    assert (market_wf m_t) as Hwt.
    { destruct Ht as [Hf _]. rewrite Et in Hf. apply Forall_app in Hf as [_ Hf]. by inversion Hf. }
    unfold revert_pushed. rewrite Hidx, decide_True by done. cbn [ok_or].
    rewrite Et, (proj2 (checked_sub_nat_Some _ _ (length ts))) by (rewrite length_app; simpl; lia).
    cbn [ok_or]. rewrite Hlen, lookup_app_r, Nat.sub_diag by lia. cbn [lookup list_lookup ok_or].
    rewrite <- (me_rows _ _ Hqm). change (vec_pop (m_rows (first_market row))) with (@nil MarketRow, Some row).
    cbv iota zeta. cbn [set_market_at st_markets]. rewrite Et.
    rewrite Nat.eqb_refl. cbn [set_rows m_rows m_n_pos length negb orb].
    rewrite <- (me_n_pos _ _ Hqm). cbn [first_market m_n_pos].
    change (negb (0 =? 0)) with false. cbn [orb].
    replace (<[length ts := _]> (ts ++ [m_t])) with (ts ++ [set_rows [] m_t]).
    2: { rewrite insert_app_r_alt by lia. by rewrite Nat.sub_diag. }
    rewrite vec_pop_snoc. cbn [fst st_market_index].
    assert (id < length (st_market_index t)) as Hidt.
    { assert (is_Some (market_idx (st_market_index t) id)) as [x Hx] by (rewrite Hidx, decide_True; eauto).
      unfold market_idx in Hx. destruct (st_market_index t !! id) eqn:El; [|done].
      by eapply lookup_lt_Some. }
    rewrite vec_set_lt by done. cbn [ok_or fst snd]. eexists. split; [reflexivity|]. split.
    + destruct Ht as [Hf Hz]. rewrite Et in Hf. apply Forall_app in Hf as [Hf _].
      constructor; cbn; [done|]. apply Forall_insert; [done|]. vm_compute. discriminate.
    + split; [|done]. constructor; cbn; try done.
      intros i. rewrite market_idx_clear by done. rewrite Hidx. by case_decide; subst.
Qed.

Lemma push_market_spec id row s s' r :
  store_wf s -> push_market id row s = (s', r) ->
  match r with Ok _ => mutates s s' | Err _ => unchanged s s' end.
Proof.
  intros Hs H. destruct (market_idx (st_market_index s) id) as [mi|] eqn:Hi.
  - destruct (lookup_lt_is_Some_2 (st_markets s) mi) as [m Hm]; [by eapply (sw_index s (proj2 Hs))|].
    destruct r; [by eapply push_market_known_mutates|].
    destruct (push_market_known id row s mi m Hs Hi Hm) as [[_ [err E]]|(_ & m' & _ & _ & _ & _ & _ & E)];
      rewrite E in H; simplify_eq. by apply unchanged_refl.
  - destruct r; [by eapply push_market_fresh_mutates|].
    destruct (push_market_fresh id row s Hs Hi) as [[_ E]|[_ E]]; rewrite E in H; simplify_eq.
    by apply unchanged_refl.
Qed.
