(* ===== verification/StoreUnwind.v ===== *)
(** The undo ring implements a bounded stack of snapshots.

    The specification keeps the store itself at every block from the floor to the tip
    ([history], newest first): opening a block pushes the current store, a setter replaces
    the top, and unwinding to a block drops what is above it. The ring holds only
    inverses; [hist_ok] is the refinement between the two. *)

From S2P Require Import Prelude Mask Types Interner Columns Undo Store StoreInv StoreOps.
Local Open Scope Z_scope.

(** ** The writer surface *)

(** A call of one of the seven mutators of [StateWriter]. *)
Inductive Setter :=
| WSupply (pos : PositionId) (slot : nat) (shares : Z)
| WDebt (pos : PositionId) (slot : nat) (shares : Z)
| WExtra (pos : PositionId) (x : PositionExtraRepr)
| WSlotExtra (pos : PositionId) (slot : nat) (x : PositionExtraRepr)
| WMarket (at_ : MarketSlot) (row : MarketRow)
| WPush (mkt : MarketId) (row : MarketRow)
| WIntern (key : PositionKey).

(** The store after the call and whether the call succeeded. *)
Definition run_setter (w : Setter) (s : StateStore) : StateStore * bool :=
  match w with
  | WSupply p j v => prod_map id is_ok (set_supply p j v s)
  | WDebt p j v => prod_map id is_ok (set_debt p j v s)
  | WExtra p x => prod_map id is_ok (set_extra p x s)
  | WSlotExtra p j x => prod_map id is_ok (set_slot_extra p j x s)
  | WMarket a r => prod_map id is_ok (set_market a r s)
  | WPush i r => prod_map id is_ok (push_market i r s)
  | WIntern k => prod_map id is_ok (intern k s)
  end.

Ltac setter_case Herr :=
  match goal with
  | |- context [prod_map id is_ok ?c] =>
      let s' := fresh "s'" in let r := fresh "r" in let E := fresh "E" in
      destruct c as [s' r] eqn:E; cbn; destruct r; cbn in *;
      [|apply Herr in E as ->; by apply unchanged_refl]
  end.

Lemma run_setter_spec w s s' b :
  store_wf s -> run_setter w s = (s', b) ->
  if b then unchanged s s' \/ mutates s s' else unchanged s s'.
Proof.
  intros Hs. enough (let '(s1, b1) := run_setter w s in
    if b1 then unchanged s s1 \/ mutates s s1 else unchanged s s1) as Hx
    by (intros E; by rewrite E in Hx).
  destruct w; cbn [run_setter].
  - unfold set_supply. setter_case set_column_Err. right. destruct a. by eapply set_column_mutates.
  - unfold set_debt. setter_case set_column_Err. right. destruct a. by eapply set_column_mutates.
  - setter_case set_extra_Err. right. destruct a. by eapply set_extra_mutates.
  - setter_case set_slot_extra_Err. right. destruct a. by eapply set_slot_extra_mutates.
  - setter_case set_market_Err. right. destruct a. by eapply set_market_mutates.
  - destruct (push_market _ _ s) as [s1 r] eqn:E. apply push_market_spec in E; [|done].
    cbn. destruct r; cbn; [by right|done].
  - setter_case intern_Err. by eapply intern_spec.
Qed.

(** ** Records *)

(** The whole record takes any store that agrees with [d'] back to [d]. *)
Definition undoes (rec : BlockUndo) (d d' : StateStore) : Prop :=
  forall t, layout_ok t -> store_eqv d' t ->
  exists t', revert_all (rev (bu_ops rec)) (bu_extras rec) (bu_rows rec) t = (t', Ok tt) /\
    layout_ok t' /\ store_eqv d t' /\ st_undo t' = st_undo t.

Lemma undoes_empty d d' : store_eqv d d' -> undoes undo_empty d d'.
Proof. intros Hq t Ht Ht'. exists t. split; [done|]. split; [done|]. split; [by etransitivity|done]. Qed.

Lemma undoes_push rec d s s' op ex rw :
  undoes rec d s -> inverse_of s s' op ex rw -> undoes (push_undo op ex rw rec) d s'.
Proof.
  intros Hu Hi t Ht Hq. destruct (Hi t (bu_extras rec) (bu_rows rec) Ht Hq) as (t1 & E1 & Ht1 & Hq1 & Hu1).
  destruct (Hu t1 Ht1 Hq1) as (t2 & E2 & Ht2 & Hq2 & Hu2).
  exists t2. cbn [push_undo bu_ops bu_extras bu_rows]. rewrite rev_app_distr. cbn [rev app revert_all].
  rewrite E1, E2. split; [done|]. split; [done|]. split; [done|congruence].
Qed.

Lemma undoes_eqv rec d s s' : undoes rec d s -> store_eqv s s' -> undoes rec d s'.
Proof. intros Hu Hq t Ht Hq'. apply Hu; [done|]. by etransitivity. Qed.

(** ** Histories *)

Abbreviation history := (list StateStore) (only parsing).

Record hist_ok (s : StateStore) (h : history) : Prop := {
  ho_ring : ring_ok (st_undo s);
  ho_wf : store_wf s;
  ho_all : Forall store_wf h;
  ho_len : Z.of_nat (length h) = tip s - floor s + 1;
  ho_top : exists d, h !! 0%nat = Some d /\ store_eqv d s;
  ho_rec : forall k d d', h !! k = Some d' -> h !! S k = Some d ->
    exists rec, record_of (st_undo s) (tip s - Z.of_nat k) = Some rec /\ undoes rec d d'
}.

Lemma hist_new base : 0 <= base <= umax 64 -> hist_ok (store_new base) [store_new base].
Proof.
  intros Hb. assert (store_wf (store_new base)) as Hw.
  { split; constructor; cbn; try done; try (apply table_empty_ok); intros; by simplify_eq. }
  constructor; [by apply ring_new_ok|done|by constructor|..].
  - unfold tip, floor, store_new, ring_new. cbn [st_undo ur_tip ur_floor length]. lia.
  - by exists (store_new base).
  - done.
Qed.

Lemma begin_block_Ok s b s' :
  begin_block s b = (s', Ok tt) ->
  s' = set_undo (st_undo s') s /\ ring_begin (st_undo s) b = (st_undo s', Ok tt).
Proof. unfold begin_block. destruct (ring_begin _ _) as [u r]. intros [= <- ->]. done. Qed.

Lemma hist_begin s h b s' :
  hist_ok s h -> begin_block s b = (s', Ok tt) -> hist_ok s' (take (S UNDO_DEPTH) (s' :: h)).
Proof.
  intros [Hr Hw Ha Hl [d [Hd Hq]] Hrec] Hb. apply begin_block_Ok in Hb as [Es Hb].
  apply (ring_begin_Ok _ _ _ Hr) in Hb as (-> & Hr' & Ht & Hf & Hnew & Hold).
  assert (store_wf s') as Hw'. { rewrite Es. split; [by apply layout_set_undo, Hw|by apply logical_ok_undo, Hw]. }
  assert (store_eqv s s') as Hq' by (rewrite Es; symmetry; apply store_eqv_undo).
  unfold tip, floor in *. constructor; unfold tip, floor; try done.
  - by apply Forall_take; constructor.
  - rewrite length_take. cbn [length]. pose proof (ro_depth _ Hr). pose proof (ro_order _ Hr).
    unfold UNDO_DEPTH in *. lia.
  - exists s'. done.
  - intros k x x' Hx' Hx. apply lookup_take_Some in Hx' as [Hx' _], Hx as [Hx Hk].
    destruct k as [|k]; cbn in Hx, Hx'; simplify_eq.
    + exists undo_empty. rewrite Z.sub_0_r, Ht. split; [done|]. apply undoes_empty.
      assert (Some x = Some d) as [= ->] by (rewrite <- Hx; exact Hd). by transitivity s.
    + destruct (Hrec k x x' Hx' Hx) as (rec & Hr1 & Hu). exists rec. split; [|done].
      rewrite <- Hr1, Ht. replace (ur_tip (st_undo s) + 1 - Z.of_nat (S k)) with (ur_tip (st_undo s) - Z.of_nat k) by lia.
      apply Hold. apply lookup_lt_Some in Hx. rewrite Hf. unfold UNDO_DEPTH in *. lia.
Qed.

Lemma hist_setter s d h w s' b :
  hist_ok s (d :: h) -> run_setter w s = (s', b) -> hist_ok s' (s' :: h).
Proof.
  intros [Hr Hw Ha Hl [d0 [Hd Hq]] Hrec] Hrun. cbn in Hd. simplify_eq.
  apply run_setter_spec in Hrun; [|done].
  assert (unchanged s s' \/ mutates s s') as [(Hw' & Hq' & Hu)|(Hw' & op & ex & rw & Hu & Hi)]
    by (destruct b; naive_solver); clear Hrun.
  - apply Forall_cons in Ha as [_ Ha]. unfold tip, floor in *. constructor; unfold tip, floor; rewrite ?Hu; try done.
    + by constructor.
    + by exists s'.
    + intros [|k] x x' Hx' Hx; cbn in Hx, Hx'; simplify_eq.
      * destruct (Hrec 0%nat x d0 eq_refl Hx) as (rec & ? & ?). exists rec. split; [done|].
        eapply undoes_eqv; [done|]. by etransitivity.
      * by apply (Hrec (S k)).
  - apply Forall_cons in Ha as [_ Ha]. pose proof (upd_current_ok (push_undo op ex rw) _ Hr) as Hr'.
    rewrite <- Hu in Hr'.
    assert (tip s' = tip s /\ floor s' = floor s) as [Et Ef].
    { unfold tip, floor. by rewrite Hu, upd_current_tip, upd_current_floor. }
    constructor; try done.
    + by constructor.
    + by rewrite Et, Ef.
    + by exists s'.
    + intros k x x' Hx' Hx. rewrite Et, Hu.
      assert (floor s < tip s) as Hopen.
      { apply lookup_lt_Some in Hx. cbn in Hx, Hl. lia. }
      destruct (upd_current_record (push_undo op ex rw) _ Hr Hopen) as [Hcur Hrest].
      destruct k as [|k]; cbn in Hx, Hx'; simplify_eq.
      * destruct (Hrec 0%nat x d0 eq_refl Hx) as (rec & Hrec0 & Hun). rewrite Z.sub_0_r in *.
        exists (push_undo op ex rw rec). unfold tip in *. rewrite Hcur, Hrec0. split; [done|].
        eapply undoes_push; [|done]. by eapply undoes_eqv.
      * destruct (Hrec (S k) x x' Hx' Hx) as (rec & Hrk & Hun). exists rec. split; [|done].
        rewrite <- Hrk. apply Hrest. apply lookup_lt_Some in Hx. cbn in Hl. unfold tip, floor in *. lia.
Qed.

(** ** Unwinding *)

(** One turn of the loop, at block [b], restores what the record says and empties it. *)
Lemma unwind_block_spec b s d d' rec :
  ring_ok (st_undo s) -> layout_ok s -> floor s < b <= tip s ->
  record_of (st_undo s) b = Some rec -> undoes rec d d' -> store_eqv d' s ->
  exists s', unwind_block b s = (s', Ok tt) /\ layout_ok s' /\ store_eqv d s' /\
    ring_ok (st_undo s') /\ tip s' = tip s /\ floor s' = floor s /\
    forall c, floor s < c < b -> record_of (st_undo s') c = record_of (st_undo s) c.
Proof.
  intros Hr Hl Hb Hrec Hu Hq. unfold tip, floor in *.
  pose proof (slot_of_Some _ _ Hr Hb) as Hs. unfold record_of in Hrec. rewrite Hs in Hrec.
  unfold unwind_block. rewrite Hs. cbn [ok_or]. unfold ring_take. rewrite Hrec. cbv zeta.
  set (sl := slot_back _ _) in *. set (u := mkRing _ _ _ _).
  destruct (Hu (set_undo u s)) as (t & E & Ht & Hqt & Hut).
  { by apply layout_set_undo. }
  { etransitivity; [done|]. symmetry. apply store_eqv_undo. }
  rewrite E. eexists. split; [reflexivity|].
  assert (ring_put (st_undo t) sl rec = ring_put (st_undo s) sl rec) as Hput.
  { rewrite Hut. unfold ring_put, u. cbn. by rewrite list_insert_insert_eq. }
  destruct (ring_put_spec (st_undo s) b rec sl Hr Hb Hs) as [Hok Hother].
  split; [by apply layout_set_undo|]. split; [etransitivity; [done|symmetry; apply store_eqv_undo]|].
  cbn [set_undo st_undo]. rewrite Hput. split; [done|]. split; [done|]. split; [done|].
  intros c Hc. apply Hother; lia.
Qed.

Lemma unwind_loop_spec n i s h d :
  ring_ok (st_undo s) -> layout_ok s -> h !! i = Some d -> store_eqv d s ->
  floor s <= tip s - Z.of_nat i - Z.of_nat n ->
  Z.of_nat (length h) = tip s - floor s + 1 ->
  (forall k x x', (i <= k)%nat -> h !! k = Some x' -> h !! S k = Some x ->
     exists rec, record_of (st_undo s) (tip s - Z.of_nat k) = Some rec /\ undoes rec x x') ->
  exists s' d', unwind_loop n (tip s - Z.of_nat i) (tip s - Z.of_nat i - Z.of_nat n) s = (s', Ok tt) /\
    h !! (i + n)%nat = Some d' /\ store_eqv d' s' /\ layout_ok s' /\ ring_ok (st_undo s') /\
    tip s' = tip s /\ floor s' = floor s /\
    forall c, floor s < c <= tip s - Z.of_nat i - Z.of_nat n ->
      record_of (st_undo s') c = record_of (st_undo s) c.
Proof.
  revert i s d. induction n as [|n IH]; intros i s d Hr Hl Hd Hq Hf Hlen Hrec.
  { exists s, d. cbn [unwind_loop]. rewrite (proj2 (Z.ltb_ge _ _)) by lia. rewrite Nat.add_0_r. done. }
  destruct (lookup_lt_is_Some_2 h (S i)) as [d1 Hd1]; [lia|].
  destruct (Hrec i d1 d ltac:(lia) Hd Hd1) as (rec & Hri & Hun).
  assert (0 <= floor s) by (apply Hr).
  destruct (unwind_block_spec (tip s - Z.of_nat i) s d1 d rec) as (s1 & E1 & Hl1 & Hq1 & Hr1 & Et & Ef & Hs1);
    try done; [lia|].
  assert (tip s1 - Z.of_nat (S i) = saturating_sub (tip s - Z.of_nat i) 1) as Eb
    by (unfold saturating_sub; lia).
  destruct (IH (S i) s1 d1) as (s2 & d2 & E2 & Hd2 & Hq2 & Hl2 & Hr2 & Et2 & Ef2 & Hs2); try done.
  - rewrite Et, Ef. lia.
  - by rewrite Et, Ef.
  - intros k x x' Hk Hx' Hx. destruct (Hrec k x x' ltac:(lia) Hx' Hx) as (rk & Hrk & Huk).
    exists rk. split; [|done]. rewrite Et, Hs1; [done|]. apply lookup_lt_Some in Hx. lia.
  - exists s2, d2. cbn [unwind_loop]. rewrite (proj2 (Z.ltb_lt _ _)) by lia. rewrite E1, <- Eb.
    replace (tip s - Z.of_nat i - Z.of_nat (S n)) with (tip s1 - Z.of_nat (S i) - Z.of_nat n) by lia.
    split; [done|]. replace (i + S n)%nat with (S i + n)%nat by lia.
    split; [done|]. split; [done|]. split; [done|]. split; [done|]. split; [congruence|]. split; [congruence|].
    intros c Hc. rewrite Hs2 by lia. apply Hs1. lia.
Qed.

Lemma unwind_spec s h target :
  hist_ok s h -> floor s <= target <= tip s ->
  exists s' d, unwind_to target s = (s', Ok tt) /\
    h !! Z.to_nat (tip s - target) = Some d /\ store_eqv d s' /\
    tip s' = target /\ floor s' = floor s /\
    hist_ok s' (s' :: drop (S (Z.to_nat (tip s - target))) h).
Proof.
  intros [Hr Hw Ha Hl [d0 [Hd0 Hq0]] Hrec] Ht. set (n := Z.to_nat (tip s - target)).
  destruct (unwind_loop_spec n 0 s h d0) as (s1 & d1 & E & Hd1 & Hq1 & Hl1 & Hr1 & Et1 & Ef1 & Hs1);
    try done; [apply Hw|lia|by intros; apply Hrec|].
  rewrite Z.sub_0_r in E, Hs1. replace (tip s - Z.of_nat n) with target in E, Hs1 by lia.
  destruct (rewind_spec (st_undo s1) target Hr1) as (u & Eu & Hru & Etu & Efu & Hsu).
  { fold (tip s1) (floor s1). lia. }
  fold (floor s1) in Efu, Hsu. fold n.
  unfold unwind_to. fold (tip s) (floor s).
  rewrite (proj2 (Z.ltb_ge _ _)), (proj2 (Z.ltb_ge _ _)) by lia. fold n. rewrite E, Eu.
  exists (set_undo u s1), d1. split; [done|]. split; [done|].
  assert (store_eqv d1 (set_undo u s1)) as Hq2 by (etransitivity; [done|symmetry; apply store_eqv_undo]).
  split; [done|]. unfold tip, floor in *. cbn [set_undo st_undo]. split; [done|]. split; [congruence|].
  assert (store_wf (set_undo u s1)) as Hw1.
  { eapply store_wf_eqv; [done| |by apply layout_set_undo]. by eapply Forall_lookup_1. }
  assert (n < length h)%nat as Hn by (by eapply lookup_lt_Some).
  constructor; unfold tip, floor; cbn [set_undo st_undo]; try done.
  - constructor; [done|]. by apply Forall_drop.
  - cbn [length]. rewrite length_drop. lia.
  - by exists (set_undo u s1).
  - intros k x x' Hx' Hx. rewrite Etu.
    assert (h !! S (n + k)%nat = Some x) as Hxx.
    { cbn [lookup list_lookup] in Hx. change (drop (S n) h !! k = Some x) in Hx.
      rewrite lookup_drop in Hx. by replace (S (n + k)) with (S n + k)%nat by lia. }
    pose proof (lookup_lt_Some _ _ _ Hxx) as Hlt.
    assert (exists y, h !! (n + k)%nat = Some y /\ store_eqv y x') as (y & Hy & Hyq).
    { destruct k as [|k]; [cbn in Hx'; simplify_eq; rewrite Nat.add_0_r; by exists d1|].
      change (drop (S n) h !! k = Some x') in Hx'. rewrite lookup_drop in Hx'.
      exists x'. split; [|done]. by replace (n + S k)%nat with (S n + k)%nat by lia. }
    destruct (Hrec (n + k)%nat x y Hy Hxx) as (rec & Hrk & Huk).
    exists rec. split; [|by eapply undoes_eqv].
    rewrite Hsu by lia. rewrite Hs1 by lia. rewrite <- Hrk. f_equal. lia.
Qed.

(** ** Reachable stores *)

(** The hot thread's use of the store: open the next block, call a setter (successful or
    not), unwind to a block. The second component is the specification's history. *)
Inductive reach : StateStore -> history -> Prop :=
| reach_new base : 0 <= base <= umax 64 -> reach (store_new base) [store_new base]
| reach_begin s h b s' :
    reach s h -> begin_block s b = (s', Ok tt) -> reach s' (take (S UNDO_DEPTH) (s' :: h))
| reach_setter s d h w s' ok :
    reach s (d :: h) -> run_setter w s = (s', ok) -> reach s' (s' :: h)
| reach_unwind s h target s' :
    reach s h -> unwind_to target s = (s', Ok tt) ->
    reach s' (s' :: drop (S (Z.to_nat (tip s - target))) h).

Lemma reach_hist s h : reach s h -> hist_ok s h.
Proof.
  induction 1 as [base Hb|s h b s' _ IH Hb|s d h w s' ok _ IH Hw|s h target s' _ IH Hu].
  - by apply hist_new.
  - by eapply hist_begin.
  - by eapply hist_setter.
  - assert (floor s <= target <= tip s) as Ht.
    { unfold unwind_to in Hu. unfold tip, floor. repeat case_match; zbool; try done; lia. }
    destruct (unwind_spec s h target IH Ht) as (s1 & d & E & _ & _ & _ & _ & Hh). congruence.
Qed.
