(* ===== verification/StoreThms.v ===== *)
(** What the state store promises its readers and the reorg handler: the theorems of
    [Store], stated through the store's own operations. *)

From S2P Require Import Prelude Mask Types Interner Columns Undo Store StoreInv StoreOps StoreUnwind.
Local Open Scope Z_scope.

(** ** Readers see the equivalence class *)

Lemma read_column_eq s c pos slot e mi m :
  store_wf s -> resolved s pos e mi m ->
  read_column s c pos slot =
    if decide (slot < length (m_rows m))%nat
    then ok_or (cell_at (col_get c m) (m_stride m) (pe_local e) slot) (SlotOutOfRange (mkSlot (entry_market e) slot))
    else Err (SlotOutOfRange (mkSlot (entry_market e) slot)).
Proof.
  intros Hs Hr. destruct (resolved_wf _ _ _ _ _ Hs Hr) as [Hm Hl]. pose proof (mw_rows m Hm).
  unfold read_column, table_entry. rewrite (rs_entry _ _ _ _ _ Hr). cbn [ok_or]. cbv zeta.
  change (pk_market (pe_key e)) with (entry_market e). rewrite (resolved_find _ _ _ _ _ Hr). cbn [ok_or].
  case_decide.
  - rewrite (proj2 (Nat.leb_gt _ _)) by done. by rewrite cell_Some by (done || lia).
  - by rewrite (proj2 (Nat.leb_le _ _)) by lia.
Qed.

Lemma row_slice {A} (z : A) n st rows (col : list A) l :
  column_ok z n st rows col -> (l < n)%nat -> (rows <= st)%nat ->
  exists v, slice_get col (l * st, l * st + rows)%nat = Some v /\ length v = rows /\
    forall j, (j < rows)%nat -> v !! j = cell_at col st l j.
Proof.
  intros [Hlen _] Hl Hr. unfold slice_get.
  assert (S l * st <= n * st)%nat by (apply Nat.mul_le_mono_r; lia). simpl in *.
  rewrite (proj2 (Nat.leb_le _ _)) by lia. rewrite (proj2 (Nat.leb_le _ _)) by lia. cbn [andb].
  eexists. split; [reflexivity|]. split; [rewrite length_take, length_drop; lia|].
  intros j Hj. by rewrite lookup_take_lt, lookup_drop by lia.
Qed.

Lemma slice_eqv {A} (z : A) n st1 st2 rows (c1 c2 : list A) l :
  column_ok z n st1 rows c1 -> column_ok z n st2 rows c2 -> column_eqv n rows st1 st2 c1 c2 ->
  (l < n)%nat -> (rows <= st1)%nat -> (rows <= st2)%nat ->
  is_Some (slice_get c1 (l * st1, l * st1 + rows)%nat) /\
  slice_get c1 (l * st1, l * st1 + rows)%nat = slice_get c2 (l * st2, l * st2 + rows)%nat.
Proof.
  intros H1 H2 Hq Hl Hr1 Hr2.
  destruct (row_slice z n st1 rows c1 l H1 Hl Hr1) as (v1 & -> & L1 & V1).
  destruct (row_slice z n st2 rows c2 l H2 Hl Hr2) as (v2 & -> & L2 & V2).
  split; [by eexists|]. f_equal. apply (list_eq_same_length v1 v2 rows); [lia|lia|].
  intros j x y Hj Hx Hy. rewrite V1 in Hx by done. rewrite V2 in Hy by done. specialize (Hq l j Hl Hj). congruence.
Qed.

Lemma row_range_eq m l :
  market_wf m -> (l < m_n_pos m)%nat ->
  row_range m l = Some (l * m_stride m, l * m_stride m + length (m_rows m))%nat.
Proof.
  intros [] Hl. unfold row_range.
  assert (Z.of_nat (l * m_stride m + length (m_rows m)) <= umax 64).
  { assert (l * m_stride m <= l * 128)%nat by (apply Nat.mul_le_mono_l; lia). unfold umax in *. lia. }
  rewrite (proj2 (checked_mul_nat_Some 64 l (m_stride m) (l * m_stride m)%nat)) by (split; [done|lia]).
  by rewrite (proj2 (checked_add_nat_Some 64 (l * m_stride m) (length (m_rows m)) _) (conj eq_refl H)).
Qed.

Lemma position_ref_eqv s t id ts :
  store_wf s -> store_wf t -> store_eqv s t -> position_ref s id ts = position_ref t id ts.
Proof.
  intros Hs Ht Hq. pose proof Hq as [Ec Ep Ee Ei Em]. unfold position_ref, table_entry.
  rewrite <- Ec, <- Ep, <- Ee.
  destruct (st_config s !! id) as [c|]; cbn [ok_or]; [|done].
  destruct (pt_entries (st_positions s) !! id) as [e|] eqn:He; cbn [ok_or]; [|done].
  destruct (st_extra s !! id) as [x|]; cbn [ok_or]; [|done]. cbv zeta.
  destruct (entry_resolved s id e Hs He) as (mi & m & Hr & Hm & Hl).
  destruct (store_eqv_resolved s t id e mi m Hq Hr) as (m' & Hr' & Hqm).
  destruct (resolved_wf t id e mi m' Ht Hr') as [Hm' Hl'].
  change (pk_market (pe_key e)) with (entry_market e).
  rewrite (resolved_find _ _ _ _ _ Hr), (resolved_find _ _ _ _ _ Hr'). cbn [ok_or].
  rewrite !row_range_eq by done. cbn [ok_or]. pose proof Hqm as [Er En Eco Es]. rewrite <- Er.
  pose proof (mw_rows m Hm). pose proof (mw_rows m' Hm'). rewrite <- Er in *.
  assert (forall A (z : A) c1 c2, column_ok z (m_n_pos m) (m_stride m) (length (m_rows m)) c1 ->
    column_ok z (m_n_pos m') (m_stride m') (length (m_rows m')) c2 ->
    column_eqv (m_n_pos m) (length (m_rows m)) (m_stride m) (m_stride m') c1 c2 ->
    exists v, slice_get c1 (pe_local e * m_stride m, pe_local e * m_stride m + length (m_rows m))%nat = Some v /\
      slice_get c2 (pe_local e * m_stride m', pe_local e * m_stride m' + length (m_rows m))%nat = Some v) as Hsl.
  { intros A z c1 c2 H1 H2 Hc. rewrite <- Er, <- En in H2.
    destruct (slice_eqv z _ _ _ _ c1 c2 (pe_local e) H1 H2 Hc) as [[v Hv] E]; [lia..|].
    exists v. by rewrite <- E. }
  destruct (Hsl Z 0 _ _ (mw_supply m Hm) (mw_supply m' Hm') (Eco Supply)) as (v1 & -> & ->).
  destruct (Hsl Z 0 _ _ (mw_debt m Hm) (mw_debt m' Hm') (Eco Debt)) as (v2 & -> & ->).
  destruct (Hsl _ _ _ _ (mw_slot_extra m Hm) (mw_slot_extra m' Hm') Es) as (v3 & -> & ->).
  done.
Qed.

(** Everything a reader can ask two equivalent stores has one answer. *)
Definition reads_agree (s t : StateStore) : Prop :=
  (forall id ts, position_ref s id ts = position_ref t id ts) /\
  (forall k, position_id s k = position_id t k) /\
  (forall a, market s a = market t a) /\
  store_len s = store_len t.

Lemma eqv_reads_agree s t : store_wf s -> store_wf t -> store_eqv s t -> reads_agree s t.
Proof.
  intros Hs Ht Hq. split; [intros; by apply position_ref_eqv|]. destruct Hq as [Ec Ep Ee Ei Em].
  unfold position_id, store_len. rewrite Ep. split; [done|]. split; [|done].
  intros a. unfold market, st_rows, find_market. rewrite <- Ei.
  destruct (market_idx _ _) as [mi|]; [|done].
  destruct (st_markets s !! mi) as [m|] eqn:E.
  - destruct (Forall2_lookup_l _ _ _ _ _ Em E) as (m' & -> & Hm). cbn. by rewrite (me_rows _ _ Hm).
  - apply Forall2_length in Em. apply lookup_ge_None_1 in E.
    by rewrite (lookup_ge_None_2 (st_markets t)) by lia.
Qed.

(** ** A concrete run for the witnesses *)

Definition wit_key : PositionKey := mkKey 1 2 7.
Definition wit_run : list Setter :=
  [WPush 2 (blank 5 18); WPush 2 (blank 6 6); WIntern wit_key; WSupply 0 0 100].
Definition wit_s0 : StateStore := fold_left (fun s w => fst (run_setter w s)) wit_run (store_new 1000).
Definition wit_s1 : StateStore := fst (begin_block wit_s0 1001).
Definition wit_s2 : StateStore := fst (run_setter (WDebt 0 1 40) (fst (run_setter (WSupply 0 0 7) wit_s1))).

Lemma reach_run s d h w :
  reach s (d :: h) -> reach (fst (run_setter w s)) (fst (run_setter w s) :: h).
Proof. intros Hr. eapply reach_setter; [done|]. apply surjective_pairing. Qed.

Lemma wit_reach0 : reach wit_s0 [wit_s0].
Proof.
  unfold wit_s0, wit_run. cbn [fold_left].
  do 4 eapply reach_run. apply reach_new. vm_compute. split; discriminate.
Qed.

Lemma wit_reach2 : reach wit_s2 [wit_s2; wit_s0].
Proof.
  unfold wit_s2. eapply reach_run, reach_run.
  apply (reach_begin wit_s0 [wit_s0] 1001 wit_s1 wit_reach0). vm_compute. reflexivity.
Qed.

(** ** Theorems *)

(** C3. Reorg correctness: for every store the hot thread can reach, unwinding to any block
    between the floor and the tip succeeds and gives the store as it was when that block was
    last current: it is equivalent to the snapshot the specification kept, all reads answer
    as they did then, and the tip is the target. *)
Theorem unwind_restores_snapshot (s : StateStore) (h : list StateStore) (target : BlockNum) :
  reach s h -> floor s <= target <= tip s ->
  exists s' d, unwind_to target s = (s', Ok tt) /\
    h !! Z.to_nat (tip s - target) = Some d /\
    store_eqv d s' /\ reads_agree d s' /\ tip s' = target /\ floor s' = floor s.
Proof.
  intros Hr%reach_hist Ht. destruct (unwind_spec s h target Hr Ht) as (s' & d & E & Hd & Hq & Et & Ef & Hh).
  exists s', d. split; [done|]. split; [done|]. split; [done|]. split; [|done].
  apply eqv_reads_agree; [|apply Hh|done]. eapply Forall_lookup_1; [apply Hr|done].
Qed.

Lemma unwind_restores_snapshot_witness :
  supply wit_s2 0 0 = Ok 7 /\
  supply (fst (unwind_to 1000 wit_s2)) 0 0 = Ok 100 /\
  exists s' d, unwind_to 1000 wit_s2 = (s', Ok tt) /\
    [wit_s2; wit_s0] !! Z.to_nat (tip wit_s2 - 1000) = Some d /\
    store_eqv d s' /\ reads_agree d s' /\ tip s' = 1000 /\ floor s' = floor wit_s2.
Proof.
  split; [vm_compute; reflexivity|]. split; [vm_compute; reflexivity|].
  apply (unwind_restores_snapshot wit_s2 [wit_s2; wit_s0] 1000 wit_reach2).
  vm_compute. split; discriminate.
Defined.

(** A target outside the ring's window is refused with the exact error and nothing is
    touched; the window never exceeds [UNDO_DEPTH] blocks. *)
Theorem unwind_out_of_window (s : StateStore) (h : list StateStore) (target : BlockNum) :
  reach s h ->
  (tip s < target -> unwind_to target s = (s, Err (TargetAboveTip target (tip s)))) /\
  (target < floor s -> unwind_to target s = (s, Err (ReorgTooDeep (tip s - target) (tip s - floor s)))) /\
  0 <= tip s - floor s <= Z.of_nat UNDO_DEPTH /\ Z.of_nat (length h) = tip s - floor s + 1.
Proof.
  intros Hr%reach_hist. pose proof (ho_ring _ _ Hr) as []. pose proof (ho_len _ _ Hr) as Hl.
  unfold unwind_to, tip, floor, saturating_sub in *. split; [|split; [|lia]].
  - intros H. by rewrite (proj2 (Z.ltb_lt _ _)).
  - intros H. rewrite (proj2 (Z.ltb_ge _ _)), (proj2 (Z.ltb_lt _ _)) by lia.
    do 2 f_equal. by rewrite !Z.max_r by lia.
Qed.

Lemma unwind_out_of_window_witness :
  (tip wit_s2 < 1002 -> unwind_to 1002 wit_s2 = (wit_s2, Err (TargetAboveTip 1002 (tip wit_s2)))) /\
  (1002 < floor wit_s2 ->
     unwind_to 1002 wit_s2 = (wit_s2, Err (ReorgTooDeep (tip wit_s2 - 1002) (tip wit_s2 - floor wit_s2)))) /\
  0 <= tip wit_s2 - floor wit_s2 <= Z.of_nat UNDO_DEPTH /\
  Z.of_nat (length [wit_s2; wit_s0]) = tip wit_s2 - floor wit_s2 + 1.
Proof. apply (unwind_out_of_window wit_s2 [wit_s2; wit_s0] 1002 wit_reach2). Defined.

(** The mask is maintained: in every reachable store, the bit of a slot is set exactly
    when the position's supply or debt in that slot is nonzero. *)
Theorem mask_bit_iff_balance (s : StateStore) (h : list StateStore) (pos slot : nat) (c : AssetMask) :
  reach s h -> st_config s !! pos = Some c ->
  contains c slot = true <->
  exists v, (supply s pos slot = Ok v \/ debt s pos slot = Ok v) /\ v <> 0.
Proof.
  intros Hr%reach_hist Hc. pose proof (ho_wf _ _ Hr) as Hs. pose proof (proj2 Hs) as Hg.
  destruct (lookup_lt_is_Some_2 (pt_entries (st_positions s)) pos) as [e He].
  { rewrite <- (sw_config_len s Hg). by eapply lookup_lt_Some. }
  destruct (entry_resolved s pos e Hs He) as (mi & m & Hrs & Hm & Hl).
  rewrite (sw_bits s Hg pos e m c slot He (resolved_find _ _ _ _ _ Hrs) Hc).
  unfold supply, debt. rewrite !(read_column_eq s _ pos slot e mi m Hs Hrs). case_decide as Hd.
  - setoid_rewrite ok_or_Ok. unfold held. split.
    + intros (_ & [] & v & Hv & Hnz); exists v; auto.
    + intros (v & [Hv|Hv] & Hnz); (split; [done|]); [exists Supply, v|exists Debt, v]; auto.
  - split; [lia|]. intros (v & [Hv|Hv] & _); done.
Qed.

Lemma mask_bit_iff_balance_witness :
  st_config wit_s2 !! 0%nat = Some 3 /\
  (contains 3 1 = true <->
   exists v, (supply wit_s2 0 1 = Ok v \/ debt wit_s2 0 1 = Ok v) /\ v <> 0).
Proof.
  split; [vm_compute; reflexivity|].
  apply (mask_bit_iff_balance wit_s2 [wit_s2; wit_s0] 0 1 3 wit_reach2). vm_compute. reflexivity.
Defined.

(** A failed write does nothing: in every reachable store a setter that returns an error
    journals nothing and leaves every read as it was. *)
Theorem failed_setter_changes_nothing (s s' : StateStore) (h : list StateStore) (w : Setter) :
  reach s h -> run_setter w s = (s', false) ->
  st_undo s' = st_undo s /\ store_eqv s s' /\ reads_agree s s'.
Proof.
  intros Hr%reach_hist Hw. pose proof (ho_wf _ _ Hr) as Hs.
  apply run_setter_spec in Hw as (Hw' & Hq & Hu); [|done].
  split; [done|]. split; [done|]. by apply eqv_reads_agree.
Qed.

Lemma failed_setter_changes_nothing_witness :
  run_setter (WSupply 0 2 9) wit_s2 = (wit_s2, false) /\
  (st_undo wit_s2 = st_undo wit_s2 /\ store_eqv wit_s2 wit_s2 /\ reads_agree wit_s2 wit_s2).
Proof.
  assert (run_setter (WSupply 0 2 9) wit_s2 = (wit_s2, false)) as E by (vm_compute; reflexivity).
  split; [exact E|].
  apply (failed_setter_changes_nothing wit_s2 wit_s2 [wit_s2; wit_s0] (WSupply 0 2 9) wit_reach2 E).
Defined.

(** ** Writes and reads *)

Lemma resolved_set_cell s pos e mi m m' cfg' u q f mf mm :
  resolved s pos e mi m -> resolved s q f mf mm ->
  resolved (bump_writes (set_config_at pos cfg' (set_market_at mi m' (set_undo u s)))) q f mf
    (if decide (mf = mi) then m' else mm).
Proof.
  intros [Hpe Hpi Hpm] [Hqe Hqi Hqm]. constructor; cbn; [done|done|]. case_decide; subst.
  - apply list_lookup_insert_eq. by eapply lookup_lt_Some.
  - by rewrite list_lookup_insert_ne.
Qed.

Lemma read_after_set_column c pos slot v s s' c' q j :
  store_wf s -> set_column c pos slot v s = (s', Ok tt) ->
  read_column s' c' q j =
    if decide (c' = c /\ q = pos /\ j = slot) then Ok v else read_column s c' q j.
Proof.
  intros Hs H. pose proof (set_column_mutates _ _ _ _ _ _ Hs H) as [Hs' _].
  destruct (set_column_Ok _ _ _ _ _ _ Hs H) as (e & mi & m & Hr & Hslot).
  destruct (set_column_resolved c pos slot v s e mi m Hs Hr Hslot)
    as (cfg & cfg' & prev & other & _ & _ & _ & _ & _ & Heq).
  rewrite Heq in H. simplify_eq. destruct (resolved_wf _ _ _ _ _ Hs Hr) as [Hm Hl].
  destruct (pt_entries (st_positions s) !! q) as [f|] eqn:Hf.
  2: { rewrite decide_False; [|intros (_ & -> & _); destruct Hr; congruence].
       unfold read_column, table_entry. cbn. by rewrite Hf. }
  destruct (entry_resolved s q f Hs Hf) as (mf & mm & Hrf & Hmm & Hlf).
  rewrite (read_column_eq s c' q j f mf mm Hs Hrf).
  rewrite (read_column_eq _ c' q j f mf _ Hs' (resolved_set_cell _ _ _ _ _ _ _ _ _ _ _ _ Hr Hrf)).
  destruct (decide (mf = mi)) as [->|Hne].
  2: { rewrite (decide_False (P := c' = c /\ _)); [done|]. intros (_ & -> & _).
       destruct Hr as [? Hi ?], Hrf as [? Hfi ?]. simplify_eq. }
  assert (mm = m) as -> by (destruct Hr, Hrf; congruence).
  assert (forall x, m_rows (col_set c x m) = m_rows m /\ m_stride (col_set c x m) = m_stride m) as Hcs by by destruct c.
  rewrite !(proj1 (Hcs _)), !(proj2 (Hcs _)). case_decide as Hj.
  2: { rewrite decide_False; [done|]. by intros (_ & _ & ->). }
  rewrite col_get_col_set. destruct (decide (c' = c)) as [->|]; [|by rewrite decide_False by naive_solver].
  rewrite (column_set_lookup _ _ _ _ _ _ _ _ _ _ (market_wf_col m c Hm)) by (done || apply Hm).
  destruct (decide (q = pos)) as [->|Hq].
  - assert (f = e) as -> by (destruct Hr, Hrf; congruence).
    destruct (decide (j = slot)) as [->|]; [by rewrite !decide_True by done|].
    by rewrite !decide_False by naive_solver.
  - rewrite !decide_False; [done|naive_solver|]. intros [El _]. apply Hq.
    pose proof (proj2 Hs) as Hg. destruct Hr as [He Hi ?], Hrf as [Hfe Hfi ?].
    assert (entry_market f = entry_market e) as Hfm by by eapply (sw_index_inj s Hg).
    rewrite (proj2 (sw_entry s Hg q f Hfe)), (proj2 (sw_entry s Hg pos e He)), Hfm in El.
    by eapply count_market_inj.
Qed.

(** Balances are independent cells: writing a position's supply (or debt) succeeds exactly
    when the cell can be read, the written value reads back, and every other supply and debt
    cell of every position reads as before. *)
Theorem write_then_read (s : StateStore) (h : list StateStore) (c : Col) (pos slot : nat) (v : Z) :
  reach s h ->
  (snd (set_column c pos slot v s) = Ok tt <-> is_ok (read_column s c pos slot) = true) /\
  forall s', set_column c pos slot v s = (s', Ok tt) ->
  forall c' q j, read_column s' c' q j =
    if decide (c' = c /\ q = pos /\ j = slot) then Ok v else read_column s c' q j.
Proof.
  intros Hr%reach_hist. pose proof (ho_wf _ _ Hr) as Hs. split.
  2: { intros s' H c' q j. by apply read_after_set_column. }
  split; intros H.
  - destruct (set_column c pos slot v s) as [s' r] eqn:E. cbn in H. subst r.
    destruct (set_column_Ok _ _ _ _ _ _ Hs E) as (e & mi & m & Hrs & Hslot).
    destruct (resolved_wf _ _ _ _ _ Hs Hrs) as [Hm Hl]. pose proof (mw_rows m Hm).
    rewrite (read_column_eq s c pos slot e mi m Hs Hrs), decide_True by done.
    by destruct (cell_at_Some _ _ _ _ _ (pe_local e) slot (market_wf_col m c Hm) Hl ltac:(lia)) as [x ->].
  - destruct (pt_entries (st_positions s) !! pos) as [e|] eqn:He.
    2: { unfold read_column, table_entry in H. by rewrite He in H. }
    destruct (entry_resolved s pos e Hs He) as (mi & m & Hrs & Hm & Hl).
    rewrite (read_column_eq s c pos slot e mi m Hs Hrs) in H. case_decide as Hd; [|done].
    destruct (set_column_resolved c pos slot v s e mi m Hs Hrs Hd)
      as (cfg & cfg' & prev & other & _ & _ & _ & _ & _ & ->). done.
Qed.

Lemma write_then_read_witness :
  (snd (set_column Debt 0 1 11 wit_s2) = Ok tt <-> is_ok (read_column wit_s2 Debt 0 1) = true) /\
  forall s', set_column Debt 0 1 11 wit_s2 = (s', Ok tt) ->
  forall c' q j, read_column s' c' q j =
    if decide (c' = Debt /\ q = 0%nat /\ j = 1%nat) then Ok 11 else read_column wit_s2 c' q j.
Proof. apply (write_then_read wit_s2 [wit_s2; wit_s0] Debt 0 1 11 wit_reach2). Defined.

(** Interning is a dense bijection that only grows: the id returned resolves to the key
    and back, a fresh key gets the next id, known keys keep theirs, and interning again
    returns the same id and changes nothing. *)
Theorem intern_dense_bijection (s s' : StateStore) (h : list StateStore) (k : PositionKey) (id : nat) :
  reach s h -> intern k s = (s', Ok id) ->
  position_id s' k = Some id /\ position_key s' id = Ok k /\
  (position_id s k = None -> id = store_len s /\ store_len s' = S (store_len s)) /\
  (forall k' i, position_id s k' = Some i -> position_id s' k' = Some i) /\
  intern k s' = (s', Ok id).
Proof.
  intros Hr%reach_hist Hi. pose proof (ho_wf _ _ Hr) as Hs.
  assert (store_wf s') as Hs' by (destruct (intern_spec k s s' id Hs Hi) as [[]|[]]; done).
  assert (position_id s' k = Some id) as Hid.
  { destruct (intern_Ok k s s' id Hs Hi) as [[-> Hk]|(mi & m & Hk & _ & _ & -> & _ & ->)]; [done|].
    unfold position_id, table_get. cbn. apply lookup_insert_eq. }
  split; [done|]. split.
  { apply (sw_table s' (proj2 Hs')) in Hid. rewrite list_lookup_fmap in Hid.
    unfold position_key, table_entry. by rewrite Hid. }
  split; [|split].
  - intros Hn. destruct (intern_Ok k s s' id Hs Hi) as [[-> Hk]|(mi & m & Hk & _ & _ & -> & _ & ->)].
    { unfold position_id, table_get in Hn. congruence. }
    unfold store_len, table_len. cbn. rewrite length_app. simpl. split; [done|lia].
  - intros k' i Hk'. destruct (intern_Ok k s s' id Hs Hi) as [[-> _]|(mi & m & Hk & _ & _ & -> & _ & ->)]; [done|].
    unfold position_id, table_get in *. cbn. rewrite lookup_insert_ne; [done|congruence].
  - unfold intern. unfold position_id in Hid. by rewrite Hid.
Qed.

Lemma intern_dense_bijection_witness :
  intern wit_key wit_s2 = (wit_s2, Ok 0%nat) /\
  (position_id wit_s2 wit_key = Some 0%nat /\ position_key wit_s2 0 = Ok wit_key /\
  (position_id wit_s2 wit_key = None -> 0%nat = store_len wit_s2 /\ store_len wit_s2 = S (store_len wit_s2)) /\
  (forall k' i, position_id wit_s2 k' = Some i -> position_id wit_s2 k' = Some i) /\
  intern wit_key wit_s2 = (wit_s2, Ok 0%nat)).
Proof.
  assert (intern wit_key wit_s2 = (wit_s2, Ok 0%nat)) as E by (vm_compute; reflexivity).
  split; [exact E|].
  apply (intern_dense_bijection wit_s2 wit_s2 [wit_s2; wit_s0] wit_key 0 wit_reach2 E).
Defined.
