(* ===== verification/StoreReads.v ===== *)
(** What each successful write does to everything a writer can read: the keys, the balances
    and the market rows. A balance that cannot be read counts as zero, so that making room (a
    new position, a new slot) changes no balance. *)

From S2P Require Import Prelude Mask Types Interner Columns Undo Store StoreInv StoreOps StoreUnwind StoreThms.
Local Open Scope nat_scope.

Definition keys (s : StateStore) : list PositionKey := pe_key <$> pt_entries (st_positions s).
Definition bal (s : StateStore) (c : Col) (p j : nat) : Z :=
  match read_column s c p j with Ok v => v | Err _ => 0%Z end.

(** The reads of two stores agree but for the rows. *)
Definition same_cells (s s' : StateStore) : Prop := forall c p j, bal s' c p j = bal s c p j.
Definition same_rows (s s' : StateStore) : Prop := forall id, st_rows s' id = st_rows s id.

Lemma bal_eq s c p j e mi m :
  store_wf s -> resolved s p e mi m ->
  bal s c p j = if decide (j < length (m_rows m))
                then default 0%Z (cell_at (col_get c m) (m_stride m) (pe_local e) j) else 0%Z.
Proof.
  intros Hs Hr. unfold bal. rewrite (read_column_eq _ _ _ _ _ _ _ Hs Hr). case_decide; [|done].
  by destruct (cell_at _ _ _ _).
Qed.

(** A balance past the rows of its market is zero, whatever the row count. *)
Lemma bal_stride s c p j e mi m :
  store_wf s -> resolved s p e mi m -> j < m_stride m ->
  bal s c p j = default 0%Z (cell_at (col_get c m) (m_stride m) (pe_local e) j).
Proof.
  intros Hs Hr Hj. rewrite (bal_eq _ _ _ _ _ _ _ Hs Hr). case_decide; [done|].
  destruct (resolved_wf _ _ _ _ _ Hs Hr) as [Hm Hl].
  by rewrite (co_pad _ _ _ _ _ (market_wf_col m c Hm)) by (done || lia).
Qed.

Lemma bal_unknown s c p j : pt_entries (st_positions s) !! p = None -> bal s c p j = 0%Z.
Proof. intros H. unfold bal, read_column, table_entry. by rewrite H. Qed.

Lemma set_column_reads c pos slot v s s' :
  store_wf s -> set_column c pos slot v s = (s', Ok tt) ->
  store_wf s' /\ keys s' = keys s /\ same_rows s s' /\
  forall c' p j, bal s' c' p j = if decide (c' = c /\ p = pos /\ j = slot) then v else bal s c' p j.
Proof.
  intros Hs H. split; [by eapply set_column_mutates|].
  pose proof (fun c' p j => read_after_set_column _ _ _ _ _ _ c' p j Hs H) as Hread.
  destruct (set_column_Ok _ _ _ _ _ _ Hs H) as (e & mi & m & Hr & Hslot).
  destruct (set_column_resolved c pos slot v s e mi m Hs Hr Hslot)
    as (cfg & cfg' & prev & other & _ & _ & _ & _ & _ & Heq).
  rewrite Heq in H. simplify_eq. split; [done|]. split.
  - intros id. unfold st_rows, find_market. cbn. destruct (market_idx _ id) as [i|]; [|done].
    destruct (decide (i = mi)) as [-> |]; [|by rewrite list_lookup_insert_ne].
    rewrite list_lookup_insert_eq by (eapply lookup_lt_Some, Hr). rewrite (rs_market _ _ _ _ _ Hr). by destruct c.
  - intros c' p j. unfold bal. rewrite Hread. by case_decide.
Qed.

(** Replacing a market by one whose cells read the same. *)
Lemma replace_cells s s' mi m m' :
  store_wf s -> store_wf s' -> pt_entries (st_positions s') = pt_entries (st_positions s) ->
  st_market_index s' = st_market_index s -> st_markets s !! mi = Some m -> st_markets s' = <[mi := m']> (st_markets s) ->
  (forall c l j, l < m_n_pos m -> default 0%Z (if decide (j < length (m_rows m')) then cell_at (col_get c m') (m_stride m') l j else None) =
    default 0%Z (if decide (j < length (m_rows m)) then cell_at (col_get c m) (m_stride m) l j else None)) ->
  same_cells s s'.
Proof.
  intros Hs Hs' Ep Ei Hm Em Hc c p j. destruct (pt_entries (st_positions s) !! p) as [e|] eqn:He.
  2: { rewrite !bal_unknown by congruence. done. }
  destruct (entry_resolved s p e Hs He) as (i & mm & Hr & _ & Hl).
  assert (resolved s' p e i (if decide (i = mi) then m' else mm)) as Hr'.
  { destruct Hr as [H1 H2 H3]. constructor; [by rewrite Ep|by rewrite Ei|]. rewrite Em. case_decide; subst.
    - apply list_lookup_insert_eq. by eapply lookup_lt_Some.
    - by rewrite list_lookup_insert_ne. }
  rewrite (bal_eq _ _ _ _ _ _ _ Hs' Hr'), (bal_eq _ _ _ _ _ _ _ Hs Hr).
  destruct (decide (i = mi)) as [-> |]; [|done].
  assert (mm = m) as -> by (destruct Hr; congruence).
  specialize (Hc c _ j Hl). repeat case_decide; exact Hc.
Qed.

Lemma set_market_reads at_ row s s' :
  store_wf s -> set_market at_ row s = (s', Ok tt) ->
  store_wf s' /\ keys s' = keys s /\ same_cells s s' /\
  exists rows, st_rows s (ms_market at_) = Some rows /\ is_Some (rows !! ms_slot at_) /\
    forall id, st_rows s' id = if decide (id = ms_market at_) then Some (<[ms_slot at_ := row]> rows) else st_rows s id.
Proof.
  intros Hs H. assert (store_wf s') as Hs' by by eapply set_market_mutates. split; [done|].
  unfold set_market in H. destruct (row_at s at_) as [[[mi m] prev]|] eqn:Hrow; cbn [ok_or] in H; [|done].
  apply row_at_Some in Hrow as (Hi & Hm & Hrow). simplify_eq. split; [done|]. split.
  - eapply (replace_cells s _ mi m _ Hs Hs'); try done. intros c l j Hl. cbn. rewrite length_insert. by destruct c.
  - exists (m_rows m). split; [unfold st_rows, find_market; by rewrite Hi, Hm|]. split; [done|].
    intros id. unfold st_rows, find_market. cbn. case_decide as Hid.
    + subst id. rewrite Hi. rewrite list_lookup_insert_eq by (by eapply lookup_lt_Some). done.
    + destruct (market_idx _ id) as [i|] eqn:Ei; [|done].
      rewrite list_lookup_insert_ne; [done|]. intros ->. apply Hid. by eapply (sw_index_inj s (proj2 Hs)).
Qed.

Lemma col_get_grow c n m :
  col_get c (market_grow n m) = resize (m_n_pos m * m_stride m + m_stride m) 0%Z (col_get c m).
Proof. by destruct c. Qed.

(** Growing a market keeps its rows' cells and adds a row of zeros. *)
Lemma grow_cells m c l j :
  market_wf m -> l <= m_n_pos m -> j < length (m_rows m) ->
  cell_at (col_get c (market_grow (S (m_n_pos m)) m)) (m_stride m) l j =
    if decide (l = m_n_pos m) then Some 0%Z else cell_at (col_get c m) (m_stride m) l j.
Proof.
  intros Hm Hl Hj. rewrite col_get_grow. pose proof (mw_rows m Hm).
  destruct (column_grow_ok _ _ _ _ _ (market_wf_col m c Hm) (mw_rows m Hm)) as (_ & Hold & Hnew).
  case_decide; [subst; apply Hnew; lia|apply Hold; lia].
Qed.

Lemma intern_reads k s s' id :
  store_wf s -> intern k s = (s', Ok id) ->
  store_wf s' /\ same_cells s s' /\ same_rows s s' /\
  (s' = s /\ keys s !! id = Some k \/ keys s' = keys s ++ [k] /\ id = length (keys s)).
Proof.
  intros Hs H. assert (store_wf s') as Hs' by (destruct (intern_spec _ _ _ _ Hs H) as [[? _]|[? _]]; done).
  split; [done|]. destruct (intern_Ok _ _ _ _ Hs H) as [[-> Hk]|(mi & m & Hk & Hi & Hm & -> & Hn & ->)].
  { split; [done|]. split; [done|]. left. split; [done|]. by apply (sw_table s (proj2 Hs)) in Hk. }
  assert (market_wf m) as Hwm by (eapply Forall_lookup_1; [apply Hs|done]).
  assert (mi < length (st_markets s)) as Hmi by by eapply lookup_lt_Some.
  split_and!.
  - intros c p j. set (es := pt_entries (st_positions s)) in *. destruct (es !! p) as [e|] eqn:He.
    + destruct (entry_resolved s p e Hs He) as (i & mm & Hr & Hwmm & Hl). pose proof Hr as [_ R2 R3].
      erewrite (bal_eq _ _ _ _ e i (if decide (i = mi) then market_grow (S (m_n_pos m)) m else mm) Hs').
      2: { constructor; cbn; [by apply lookup_app_l_Some|done|].
           case_decide; [subst; by apply list_lookup_insert_eq|by rewrite list_lookup_insert_ne]. }
      rewrite (bal_eq _ _ _ _ _ _ _ Hs Hr). destruct (decide (i = mi)) as [-> |]; [|done].
      assert (mm = m) as -> by congruence. cbn [market_grow m_rows m_stride]. case_decide; [|done].
      rewrite grow_cells by (done || lia). by rewrite decide_False by lia.
    + rewrite (bal_unknown s) by done. destruct (decide (p = length es)) as [-> |].
      2: { apply bal_unknown. cbn. fold es. rewrite lookup_app_r by (by apply lookup_ge_None_1).
           apply lookup_ge_None_2. cbn. apply lookup_ge_None_1 in He. lia. }
      erewrite (bal_eq _ _ _ _ (mkEntry k (m_n_pos m)) mi (market_grow (S (m_n_pos m)) m) Hs').
      2: { constructor; cbn; [|done|by apply list_lookup_insert_eq].
           fold es. rewrite lookup_app_r, Nat.sub_diag by done. done. }
      cbn [market_grow m_rows m_stride]. case_decide; [|done]. cbn [pe_local].
      rewrite grow_cells by (done || lia). by rewrite decide_True.
  - intros id. unfold st_rows, find_market. cbn. destruct (market_idx _ id) as [i|] eqn:E; [|done].
    destruct (decide (i = mi)) as [-> |]; [|by rewrite list_lookup_insert_ne].
    rewrite list_lookup_insert_eq, Hm by done. done.
  - right. unfold keys. cbn. rewrite fmap_app, length_fmap. done.
Qed.

Lemma fresh_idx id n ix i :
  (Z.of_nat n < MAX_MARKETS)%Z ->
  market_idx (<[id := Z.of_nat n]> (index_room id ix)) i = if decide (i = id) then Some n else market_idx ix i.
Proof.
  intros Hn. destruct (index_room_spec id ix) as (Hroom & Hsame & _).
  rewrite market_idx_insert, Hsame, Nat2Z.id; [done|done|]. unfold NO_MARKET, MAX_MARKETS, MARKET_ID_LIMIT in *. lia.
Qed.

Lemma push_fresh_reads id row s s' a :
  store_wf s -> market_idx (st_market_index s) id = None -> push_market id row s = (s', Ok a) ->
  same_cells s s' /\ a = mkSlot id 0 /\ keys s' = keys s /\ (Z.of_nat id < MAX_MARKETS)%Z /\
  forall i, st_rows s' i = if decide (i = id) then Some [row] else st_rows s i.
Proof.
  intros Hs Hi H. pose proof (push_market_spec _ _ _ _ _ Hs H) as [Hs' _].
  destruct (push_market_fresh id row s Hs Hi) as [[_ E]|[[Hb1 Hb2] E]]; rewrite E in H; [done|]. simplify_eq.
  split_and!; [|done|done|done|].
  - intros c p j. destruct (pt_entries (st_positions s) !! p) as [e|] eqn:He; [|by rewrite !bal_unknown].
    destruct (entry_resolved s p e Hs He) as (i & m & Hr & Hwm & Hl). pose proof Hr as [_ R2 R3].
    rewrite (bal_eq s _ _ _ _ _ _ Hs Hr). apply (bal_eq _ _ _ _ e i m Hs'). constructor; cbn; [done| |by apply lookup_app_l_Some].
    rewrite fresh_idx by done. rewrite decide_False by congruence. done.
  - intros i. unfold st_rows, find_market. cbn. rewrite fresh_idx by done. case_decide.
    + by rewrite lookup_app_r, Nat.sub_diag by done.
    + destruct (market_idx _ i) as [x|] eqn:Ex; [|done]. rewrite lookup_app_l; [done|].
      by eapply (sw_index s (proj2 Hs)).
Qed.

Lemma push_known_reads id row s s' a mi m :
  store_wf s -> market_idx (st_market_index s) id = Some mi -> st_markets s !! mi = Some m ->
  push_market id row s = (s', Ok a) ->
  same_cells s s' /\ a = mkSlot id (length (m_rows m)) /\ keys s' = keys s /\
  forall i, st_rows s' i = if decide (i = id) then Some (m_rows m ++ [row]) else st_rows s i.
Proof.
  intros Hs Hi Hm H. pose proof (push_market_spec _ _ _ _ _ Hs H) as [Hs' _].
  assert (market_wf m) as Hwm by (eapply Forall_lookup_1; [apply Hs|done]).
  destruct (push_market_known id row s mi m Hs Hi Hm)
    as [[_ [err E]]|(Hlt & m' & Hw' & [Er En Ec _] & Er' & En' & Hst & E)]; rewrite E in H; [done|]. simplify_eq.
  split_and!; [|done|done|].
  - eapply (replace_cells s _ mi m _ Hs Hs'); try done. intros c l j Hl. cbn [append_row set_rows m_rows m_stride].
    rewrite length_app, Er'. cbn [length].
    assert (col_get c (append_row row m') = col_get c m') as -> by by destruct c.
    destruct (decide (j < length (m_rows m))).
    + rewrite decide_True by lia. by rewrite <- (Ec c l j Hl) by done.
    + case_decide; [|done]. rewrite (co_pad _ _ _ _ _ (market_wf_col m' c Hw')); [done|lia|]. rewrite Er'. lia.
  - intros i. unfold st_rows, find_market. cbn. case_decide as Hid.
    + subst i. rewrite Hi, list_lookup_insert_eq by (by eapply lookup_lt_Some). cbn. by rewrite Er'.
    + destruct (market_idx _ i) as [x|] eqn:Ex; [|done].
      rewrite list_lookup_insert_ne; [done|]. intros ->. apply Hid. by eapply (sw_index_inj s (proj2 Hs)).
Qed.

(** A listing appends its row, and a first one starts the market. *)
Lemma push_market_reads id row s s' a :
  store_wf s -> push_market id row s = (s', Ok a) ->
  let rows := default [] (st_rows s id) in
  store_wf s' /\ keys s' = keys s /\ same_cells s s' /\ a = mkSlot id (length rows) /\
  forall i, st_rows s' i = if decide (i = id) then Some (rows ++ [row]) else st_rows s i.
Proof.
  intros Hs H rows. pose proof (push_market_spec _ _ _ _ _ Hs H) as [Hs' _]. split; [done|].
  destruct (market_idx (st_market_index s) id) as [mi|] eqn:Hi.
  - destruct (lookup_lt_is_Some_2 (st_markets s) mi) as [m Hm]; [by eapply (sw_index s (proj2 Hs))|].
    destruct (push_known_reads _ _ _ _ _ _ _ Hs Hi Hm H) as (H1 & H2 & H3 & H4).
    assert (st_rows s id = Some (m_rows m)) as E by (unfold st_rows, find_market; by rewrite Hi, Hm).
    subst rows. rewrite E. by split_and!.
  - destruct (push_fresh_reads _ _ _ _ _ Hs Hi H) as (H1 & H2 & H3 & _ & H4).
    assert (st_rows s id = None) as E by (unfold st_rows, find_market; by rewrite Hi).
    subst rows. rewrite E. by split_and!.
Qed.

(** No position is in a market without rows. *)
Lemma keys_listed s p k : store_wf s -> keys s !! p = Some k -> is_Some (st_rows s (pk_market k)).
Proof.
  intros Hs Hk. unfold keys in Hk. rewrite list_lookup_fmap in Hk.
  destruct (pt_entries (st_positions s) !! p) as [e|] eqn:He; [|done]. injection Hk as <-.
  destruct (entry_resolved s p e Hs He) as (mi & m & Hr & _). exists (m_rows m).
  unfold st_rows. change (pk_market (pe_key e)) with (entry_market e). by rewrite (resolved_find _ _ _ _ _ Hr).
Qed.

(** A position's balance in a listed slot can be read. *)
Lemma read_listed s c p j k rows :
  store_wf s -> keys s !! p = Some k -> st_rows s (pk_market k) = Some rows -> j < length rows ->
  read_column s c p j = Ok (bal s c p j).
Proof.
  intros Hs Hk Hr Hj. unfold keys in Hk. rewrite list_lookup_fmap in Hk.
  destruct (pt_entries (st_positions s) !! p) as [e|] eqn:He; [|done]. injection Hk as <-.
  destruct (entry_resolved s p e Hs He) as (mi & m & Hres & Hm & Hl).
  unfold st_rows in Hr. change (pk_market (pe_key e)) with (entry_market e) in Hr.
  rewrite (resolved_find _ _ _ _ _ Hres) in Hr. injection Hr as <-. pose proof (mw_rows m Hm).
  unfold bal. rewrite (read_column_eq _ _ _ _ _ _ _ Hs Hres), decide_True by done.
  by destruct (cell_at_Some _ _ _ _ _ (pe_local e) j (market_wf_col m c Hm) Hl ltac:(lia)) as [x ->].
Qed.

Lemma position_id_key s k p : store_wf s -> position_id s k = Some p <-> keys s !! p = Some k.
Proof. intros Hs. unfold position_id, table_get, keys. symmetry. by rewrite (sw_table s (proj2 Hs) k p). Qed.
