(* ===== verification/Heap.v ===== *)
(** The time-cross heap: [crates/liq-engine/src/heap.rs].

    Positions that become liquidatable from accrual alone, by crossing time. The heap
    deletes lazily: re-scheduling or dropping a position bumps its generation and leaves
    the old entry behind, to be discarded when it surfaces. [std]'s [BinaryHeap] of
    [Reverse] tuples is a bag with its least element at [peek]; a bag is a list here, and
    only [peek], [pop], [push], [retain] and [len] are used on it. *)

From S2P Require Import Prelude Types.
From stdpp Require Import sorting.
Local Open Scope Z_scope.

(** [Timestamp::MAX], the "not scheduled" mark; the compaction slack. *)
Definition NONE : Timestamp := umax 64.
Definition SLACK : Z := 1024.

(** [(crossing time, position, generation)], ordered lexicographically. *)
Record entry := mkEnt { en_t : Timestamp; en_id : PositionId; en_gen : Z }.

#[export] Instance entry_eq_dec : EqDecision entry.
Proof. solve_decision. Defined.

Definition entry_leb (x y : entry) : bool :=
  (en_t x <? en_t y) ||
  ((en_t x =? en_t y) && ((en_id x <? en_id y)%nat ||
    ((en_id x =? en_id y)%nat && (en_gen x <=? en_gen y)))).

(** [BinaryHeap::peek] and [BinaryHeap::pop]. *)
Fixpoint heap_peek (l : list entry) : option entry :=
  match l with
  | [] => None
  | x :: l' => match heap_peek l' with
               | None => Some x
               | Some y => Some (if entry_leb x y then x else y)
               end
  end.

Fixpoint remove_one (x : entry) (l : list entry) : list entry :=
  match l with
  | [] => []
  | y :: l' => if decide (x = y) then l' else y :: remove_one x l'
  end.

Definition heap_pop (l : list entry) : list entry :=
  match heap_peek l with Some x => remove_one x l | None => l end.

Record TimeCrossHeap := mkHeap {
  hp_heap : list entry;
  hp_gen : list Z;
  hp_at : list Timestamp;
  hp_stale_pops : Z;
  hp_compactions : Z
}.

(** [TimeCrossHeap::with_capacity]. *)
Definition heap_empty : TimeCrossHeap := mkHeap [] [] [] 0 0.

Definition scheduled (h : TimeCrossHeap) (id : PositionId) : option Timestamp :=
  match hp_at h !! id with
  | Some t => if t =? NONE then None else Some t
  | None => None
  end.

Definition ensure (h : TimeCrossHeap) (id : PositionId) : TimeCrossHeap :=
  if (length (hp_gen h) <=? id)%nat then
    mkHeap (hp_heap h) (resize (S id) 0 (hp_gen h)) (resize (S id) NONE (hp_at h))
      (hp_stale_pops h) (hp_compactions h)
  else h.

(** [TimeCrossHeap::bump]: the new generation, with the live entry (if any) made stale. *)
Definition bump (h : TimeCrossHeap) (id : PositionId) : TimeCrossHeap * Z :=
  let '(gen, g) := match hp_gen h !! id with
                   | Some g => (<[id := wrapping_add 32 g 1]> (hp_gen h), wrapping_add 32 g 1)
                   | None => (hp_gen h, 0)
                   end in
  (mkHeap (hp_heap h) gen (<[id := NONE]> (hp_at h)) (hp_stale_pops h) (hp_compactions h), g).

Definition is_current (gen : list Z) (e : entry) : bool :=
  bool_decide (gen !! en_id e = Some (en_gen e)).

Definition compact (h : TimeCrossHeap) : TimeCrossHeap :=
  mkHeap (List.filter (is_current (hp_gen h)) (hp_heap h)) (hp_gen h) (hp_at h)
    (hp_stale_pops h) (saturating_add 64 (hp_compactions h) 1).

Definition push (h : TimeCrossHeap) (at_ : Timestamp) (id : PositionId) : TimeCrossHeap :=
  let h := ensure h id in
  if decide (scheduled h id = Some at_) then h else
  let '(h, g) := bump h id in
  let h := mkHeap (mkEnt at_ id g :: hp_heap h) (hp_gen h) (<[id := at_]> (hp_at h))
             (hp_stale_pops h) (hp_compactions h) in
  let bound := saturating_add 64 (saturating_mul 64 (Z.of_nat (length (hp_gen h))) 2) SLACK in
  if bound <? Z.of_nat (length (hp_heap h)) then compact h else h.

Definition invalidate (h : TimeCrossHeap) (id : PositionId) : TimeCrossHeap :=
  let h := ensure h id in
  match scheduled h id with
  | Some _ => fst (bump h id)
  | None => h
  end.

(** [Crossed::next]: one pop per turn of its loop, so the heap's length is enough fuel. *)
Fixpoint crossed_next (fuel : nat) (now : Timestamp) (h : TimeCrossHeap)
    : TimeCrossHeap * option PositionId :=
  match fuel with
  | O => (h, None)
  | S f =>
      match heap_peek (hp_heap h) with
      | None => (h, None)
      | Some e =>
          if now <? en_t e then (h, None) else
          let hp := heap_pop (hp_heap h) in
          if decide (hp_gen h !! en_id e = Some (en_gen e)) then
            (mkHeap hp (hp_gen h) (<[en_id e := NONE]> (hp_at h)) (hp_stale_pops h)
               (hp_compactions h), Some (en_id e))
          else
            crossed_next f now (mkHeap hp (hp_gen h) (hp_at h)
              (saturating_add 64 (hp_stale_pops h) 1) (hp_compactions h))
      end
  end.

Definition next (now : Timestamp) (h : TimeCrossHeap) : TimeCrossHeap * option PositionId :=
  crossed_next (S (length (hp_heap h))) now h.

(** Draining [TimeCrossHeap::crossed]: every yield pops an entry. *)
Fixpoint crossed_loop (fuel : nat) (now : Timestamp) (h : TimeCrossHeap)
    : TimeCrossHeap * list PositionId :=
  match fuel with
  | O => (h, [])
  | S f =>
      match next now h with
      | (h, None) => (h, [])
      | (h, Some id) => let '(h, ids) := crossed_loop f now h in (h, id :: ids)
      end
  end.

Definition crossed (now : Timestamp) (h : TimeCrossHeap) : TimeCrossHeap * list PositionId :=
  crossed_loop (S (length (hp_heap h))) now h.

(** ** The bag *)

Lemma entry_leb_spec x y :
  entry_leb x y = true <->
  en_t x < en_t y \/ (en_t x = en_t y /\
    ((en_id x < en_id y)%nat \/ (en_id x = en_id y /\ en_gen x <= en_gen y))).
Proof.
  unfold entry_leb. rewrite !orb_true_iff, !andb_true_iff, !orb_true_iff, !andb_true_iff.
  rewrite Z.ltb_lt, Z.eqb_eq, Nat.ltb_lt, Nat.eqb_eq, Z.leb_le. tauto.
Qed.

Lemma heap_peek_None l : heap_peek l = None <-> l = [].
Proof. destruct l as [|x l]; simpl; [done|]. destruct (heap_peek l); split; intros; done. Qed.

Lemma heap_peek_Some l x :
  heap_peek l = Some x -> x ∈ l /\ forall y, y ∈ l -> entry_leb x y = true.
Proof.
  revert x. induction l as [|z l IH]; simpl; [done|]. intros x.
  destruct (heap_peek l) as [y|] eqn:E.
  - destruct (IH y eq_refl) as [Hy Hmin]. intros [= <-].
    destruct (entry_leb z y) eqn:Ez.
    + split; [left|]. intros w [->|Hw]%elem_of_cons; [apply entry_leb_spec; lia|].
      specialize (Hmin w Hw). rewrite entry_leb_spec in *. lia.
    + split; [by right|]. intros w [->|Hw]%elem_of_cons; [|by apply Hmin].
      apply not_true_iff_false in Ez. rewrite entry_leb_spec in *. lia.
  - intros [= <-]. apply heap_peek_None in E as ->. split; [left|].
    intros w [->|Hw]%elem_of_cons; [apply entry_leb_spec; lia|by apply elem_of_nil in Hw].
Qed.

Lemma remove_one_perm x l : x ∈ l -> l ≡ₚ x :: remove_one x l.
Proof.
  induction l as [|y l IH]; simpl; [by intros ?%elem_of_nil|].
  intros [->|Hx]%elem_of_cons; [by rewrite decide_True|].
  case_decide; [by subst|]. rewrite IH at 1 by done. apply perm_swap.
Qed.

Lemma heap_pop_perm l x : heap_peek l = Some x -> l ≡ₚ x :: heap_pop l.
Proof. intros E. unfold heap_pop. rewrite E. apply remove_one_perm. by apply heap_peek_Some. Qed.

(** ** Invariant *)

(** Every entry is of a known position and no newer than its generation; an entry of the
    current generation carries the live time, and there is at most one per generation. *)
Record heap_ok (h : TimeCrossHeap) : Prop := {
  hk_len : length (hp_at h) = length (hp_gen h);
  hk_entry : forall e, e ∈ hp_heap h -> en_t e <> NONE /\
    exists g, hp_gen h !! en_id e = Some g /\ en_gen e <= g /\
      (en_gen e = g -> hp_at h !! en_id e = Some (en_t e));
  hk_live : forall id t, scheduled h id = Some t ->
    exists g, hp_gen h !! id = Some g /\ mkEnt t id g ∈ hp_heap h;
  hk_nodup : NoDup ((fun e => (en_id e, en_gen e)) <$> hp_heap h)
}.

(** Generations stay below [n]: no wrap within [n] bumps. *)
Definition gens_below (n : Z) (h : TimeCrossHeap) : Prop :=
  Forall (fun g => 0 <= g <= n) (hp_gen h).

Lemma heap_empty_ok : heap_ok heap_empty.
Proof.
  constructor; cbn; [done|by intros e ?%elem_of_nil| |constructor].
  intros id t. unfold scheduled. cbn. done.
Qed.

Lemma scheduled_Some h id t : scheduled h id = Some t <-> hp_at h !! id = Some t /\ t <> NONE.
Proof.
  unfold scheduled. destruct (hp_at h !! id) as [x|]; [|naive_solver].
  destruct (Z.eqb_spec x NONE); naive_solver.
Qed.

Lemma live_entry h e :
  heap_ok h -> e ∈ hp_heap h -> hp_gen h !! en_id e = Some (en_gen e) ->
  scheduled h (en_id e) = Some (en_t e).
Proof.
  intros Hh He Hg. destruct (hk_entry h Hh e He) as (Hnt & g & Hg' & _ & Hat).
  apply scheduled_Some. split; [|done]. apply Hat. congruence.
Qed.

Lemma ensure_ok h id :
  heap_ok h -> heap_ok (ensure h id) /\ (forall i, scheduled (ensure h id) i = scheduled h i) /\
  (id < length (hp_gen (ensure h id)))%nat.
Proof.
  intros Hh. unfold ensure. destruct (Nat.leb_spec (length (hp_gen h)) id) as [Hlt|]; [|done].
  pose proof Hh as [Hlen He Hl Hnd].
  assert (forall i x, hp_gen h !! i = Some x -> resize (S id) 0 (hp_gen h) !! i = Some x) as Hgen.
  { intros i x Hx. pose proof (lookup_lt_Some _ _ _ Hx). by rewrite lookup_resize by lia. }
  assert (forall i, scheduled (mkHeap (hp_heap h) (resize (S id) 0 (hp_gen h))
    (resize (S id) NONE (hp_at h)) (hp_stale_pops h) (hp_compactions h)) i = scheduled h i) as Hsch.
  { intros i. unfold scheduled. cbn. destruct (decide (i < length (hp_at h)))%nat.
    - by rewrite lookup_resize by lia.
    - rewrite (lookup_ge_None_2 (hp_at h)) by lia. destruct (decide (i < S id)%nat).
      + rewrite lookup_resize_new by lia. by rewrite Z.eqb_refl.
      + by rewrite lookup_resize_old by lia. }
  split; [|split; [done|cbn; rewrite length_resize; lia]].
  constructor; cbn -[scheduled]; [by rewrite !length_resize| | |done].
  - intros e Hin. destruct (He e Hin) as (Hnt & g & Hg & Hle & Hat). split; [done|].
    exists g. split; [by apply Hgen|]. split; [done|]. intros E. specialize (Hat E).
    pose proof (lookup_lt_Some _ _ _ Hat). by rewrite lookup_resize by lia.
  - intros i t. rewrite Hsch. intros Ht. destruct (Hl i t Ht) as (g & Hg & Hin).
    exists g. split; [by apply Hgen|done].
Qed.

Lemma gens_below_ensure n h id : 0 <= n -> gens_below n h -> gens_below n (ensure h id).
Proof. intros Hn Hg. unfold ensure, gens_below. case_match; [|done]. by apply Forall_resize; [lia|]. Qed.

(** Bumping drops the position's live entry and nothing else. *)
Lemma bump_ok h id n :
  heap_ok h -> gens_below n h -> n < umax 32 -> (id < length (hp_gen h))%nat ->
  exists g, hp_gen h !! id = Some g /\ snd (bump h id) = g + 1 /\
    hp_gen (fst (bump h id)) = <[id := g + 1]> (hp_gen h) /\
    hp_at (fst (bump h id)) = <[id := NONE]> (hp_at h) /\
    hp_heap (fst (bump h id)) = hp_heap h /\
    heap_ok (fst (bump h id)) /\ gens_below (n + 1) (fst (bump h id)) /\
    (forall i, scheduled (fst (bump h id)) i = if decide (i = id) then None else scheduled h i).
Proof.
  intros Hh Hn Hb Hid. destruct (lookup_lt_is_Some_2 _ _ Hid) as [g Hg]. exists g. split; [done|].
  pose proof (Forall_lookup_1 _ _ _ _ Hn Hg) as Hgn. cbv beta in Hgn.
  assert (wrapping_add 32 g 1 = g + 1) as Hw.
  { unfold wrapping_add. apply Z.mod_small. unfold umax in Hb. lia. }
  unfold bump. rewrite Hg, Hw. cbn [fst snd hp_gen hp_at hp_heap].
  pose proof Hh as [Hlen He Hl Hnd].
  assert (forall i, scheduled (mkHeap (hp_heap h) (<[id := g + 1]> (hp_gen h)) (<[id := NONE]> (hp_at h))
    (hp_stale_pops h) (hp_compactions h)) i = if decide (i = id) then None else scheduled h i) as Hsch.
  { intros i. unfold scheduled. cbn. case_decide; subst.
    - rewrite list_lookup_insert_eq by lia. by rewrite Z.eqb_refl.
    - by rewrite list_lookup_insert_ne. }
  do 4 (split; [done|]). split; [|split; [|done]].
  - constructor; cbn -[scheduled]; [by rewrite !length_insert| | |done].
    + intros e Hin. destruct (He e Hin) as (Hnt & g' & Hg' & Hle & Hat). split; [done|].
      destruct (decide (id = en_id e)) as [Ei|].
      * exists (g + 1). assert (g' = g) as -> by congruence. rewrite <- Ei.
        rewrite list_lookup_insert_eq by done. split; [done|]. split; [lia|lia].
      * exists g'. rewrite !list_lookup_insert_ne by done. done.
    + intros i t. rewrite Hsch. case_decide; [done|]. intros Ht.
      destruct (Hl i t Ht) as (g' & Hg' & Hin). exists g'. by rewrite list_lookup_insert_ne.
  - unfold gens_below. cbn. apply Forall_insert; [|lia].
    eapply Forall_impl; [exact Hn|]. intros x Hx. cbv beta in *. lia.
Qed.

(** ** [push] and [invalidate] *)

Lemma elem_of_compact h e :
  e ∈ hp_heap (compact h) <-> e ∈ hp_heap h /\ hp_gen h !! en_id e = Some (en_gen e).
Proof. cbn. rewrite !list_elem_of_In, filter_In. unfold is_current. by rewrite bool_decide_eq_true. Qed.

Lemma compact_ok h :
  heap_ok h -> heap_ok (compact h) /\ (forall i, scheduled (compact h) i = scheduled h i).
Proof.
  intros Hh. pose proof Hh as [Hlen He Hl Hnd]. split; [|done].
  constructor; [done| | |].
  - intros e [Hin _]%elem_of_compact. by apply He.
  - intros i t Ht. destruct (Hl i t Ht) as (g & Hg & Hin). exists g.
    split; [done|]. by apply elem_of_compact.
  - eapply sublist_NoDup; [exact Hnd|]. apply fmap_sublist. cbn. clear.
    induction (hp_heap h) as [|x l IH]; simpl; [done|]. destruct (is_current _ x); by constructor.
Qed.

(** A compacted heap holds one entry per position at most. *)
Lemma compact_length h :
  heap_ok (compact h) -> (length (hp_heap (compact h)) <= length (hp_gen h))%nat.
Proof.
  intros [_ _ _ Hnd].
  assert (forall e, e ∈ hp_heap (compact h) -> hp_gen h !! en_id e = Some (en_gen e)) as Hc
    by (intros e [_ ?]%elem_of_compact; done).
  assert (NoDup (en_id <$> hp_heap (compact h))) as Hids.
  { revert Hnd Hc. induction (hp_heap (compact h)) as [|x l IH]; intros Hnd Hc; simpl in *; [constructor|].
    apply NoDup_cons in Hnd as [Hx Hl']. constructor.
    - intros (y & Ey & Hy)%list_elem_of_fmap. apply Hx. apply list_elem_of_fmap. exists y. split; [|done].
      pose proof (Hc x ltac:(left)). pose proof (Hc y ltac:(by right)). f_equal; congruence.
    - apply IH; [done|]. intros e Hin. apply Hc. by right. }
  rewrite <- (length_fmap en_id), <- (length_seq (length (hp_gen h)) 0).
  apply submseteq_length, NoDup_submseteq; [done|]. intros i (e & -> & Hg%Hc)%list_elem_of_fmap.
  apply elem_of_seq. apply lookup_lt_Some in Hg. lia.
Qed.

(** [push] schedules its position, supersedes whatever was scheduled for it, and keeps
    the heap within its bound. *)
Lemma push_ok h t id n :
  heap_ok h -> gens_below n h -> n < umax 32 -> 0 <= n -> t <> NONE ->
  heap_ok (push h t id) /\ gens_below (n + 1) (push h t id) /\
  (forall i, scheduled (push h t id) i = if decide (i = id) then Some t else scheduled h i).
Proof.
  intros Hh Hn Hb H0 Ht. unfold push.
  destruct (ensure_ok h id Hh) as (Hk & Hs & Hid).
  apply (gens_below_ensure n h id H0) in Hn.
  remember (ensure h id) as h1 eqn:E1. clear E1.
  destruct (decide (scheduled h1 id = Some t)) as [E|E].
  { split; [done|]. split; [eapply Forall_impl; [exact Hn|]; intros ? ?; cbv beta in *; lia|].
    intros i. case_decide; subst; [done|apply Hs]. }
  destruct (bump_ok h1 id n Hk Hn Hb Hid) as (g & Hg & Hsnd & Hgen & Hat & Hheap & Hk2 & Hn2 & Hs2).
  destruct (bump h1 id) as [h2 g2]. cbn [fst snd] in *. subst g2.
  set (h3 := mkHeap _ _ _ _ _).
  assert (forall i, scheduled h3 i = if decide (i = id) then Some t else scheduled h i) as Hs3.
  { intros i. unfold scheduled at 1. cbn. rewrite Hat, list_insert_insert_eq. case_decide; subst.
    - rewrite list_lookup_insert_eq by (destruct Hk; lia). by destruct (Z.eqb_spec t NONE).
    - rewrite list_lookup_insert_ne by done. by rewrite <- Hs. }
  assert (heap_ok h3) as Hk3.
  { pose proof Hk2 as [Hlen He Hl Hnd]. constructor; cbn -[scheduled].
    - by rewrite length_insert.
    - intros e [->|Hin]%elem_of_cons; cbn.
      + split; [done|]. exists (g + 1). rewrite Hgen, list_lookup_insert_eq by done.
        split; [done|]. split; [lia|]. intros _. rewrite list_lookup_insert_eq; [done|].
        rewrite Hlen, Hgen, length_insert. done.
      + destruct (He e Hin) as (Hnt & g' & Hg' & Hle & Hat'). split; [done|]. exists g'.
        split; [done|]. split; [done|]. intros Eg.
        destruct (decide (id = en_id e)) as [Ei|]; [|rewrite list_lookup_insert_ne by done; auto].
        exfalso. rewrite Hheap in Hin. destruct (hk_entry h1 Hk e Hin) as (_ & g0 & Hg0 & Hle0 & _).
        rewrite <- Ei in *. rewrite Hgen, list_lookup_insert_eq in Hg' by done.
        injection Hg' as ?. assert (g0 = g) by congruence. lia.
    - intros i t'. rewrite Hs3. case_decide; subst.
      + intros [= <-]. exists (g + 1). rewrite Hgen, list_lookup_insert_eq by done. split; [done|left].
      + rewrite <- Hs. intros Hi. destruct (Hl i t') as (g' & Hg' & Hin); [by rewrite Hs2, decide_False|].
        exists g'. split; [done|by right].
    - constructor; [|done]. cbn. intros (e & [= Ei Eg] & Hin)%list_elem_of_fmap.
      rewrite Hheap in Hin. destruct (hk_entry h1 Hk e Hin) as (_ & g0 & Hg0 & Hle0 & _).
      rewrite <- Ei in Hg0. assert (g0 = g) by congruence. lia. }
  case_match; [|done]. destruct (compact_ok h3 Hk3) as (Hk4 & Hs4).
  split; [done|]. split; [done|]. intros i. by rewrite Hs4.
Qed.

Lemma invalidate_ok h id n :
  heap_ok h -> gens_below n h -> n < umax 32 -> 0 <= n ->
  heap_ok (invalidate h id) /\ gens_below (n + 1) (invalidate h id) /\
  (forall i, scheduled (invalidate h id) i = if decide (i = id) then None else scheduled h i).
Proof.
  intros Hh Hn Hb H0. unfold invalidate.
  destruct (ensure_ok h id Hh) as (Hk & Hs & Hid).
  apply (gens_below_ensure n h id H0) in Hn.
  destruct (scheduled (ensure h id) id) as [t|] eqn:E.
  - destruct (bump_ok _ id n Hk Hn Hb Hid) as (g & _ & _ & _ & _ & _ & Hk2 & Hn2 & Hs2).
    split; [done|]. split; [done|]. intros i. rewrite Hs2. case_decide; [done|apply Hs].
  - split; [done|]. split; [eapply Forall_impl; [exact Hn|]; intros ? ?; cbv beta in *; lia|].
    intros i. case_decide; subst; [done|apply Hs].
Qed.

(** The stated bound on the heap's length. *)
Definition within_bound (h : TimeCrossHeap) : Prop :=
  Z.of_nat (length (hp_heap h)) <= 2 * Z.of_nat (length (hp_gen h)) + SLACK.

Lemma ensure_bound h id : within_bound h -> within_bound (ensure h id).
Proof.
  unfold within_bound, ensure. intros H. destruct (Nat.leb_spec (length (hp_gen h)) id); [|done].
  cbn. rewrite length_resize. lia.
Qed.

Lemma bump_lengths h id :
  hp_heap (fst (bump h id)) = hp_heap h /\ length (hp_gen (fst (bump h id))) = length (hp_gen h).
Proof. unfold bump. destruct (hp_gen h !! id); cbn; by rewrite ?length_insert. Qed.

Lemma push_bound h t id n :
  heap_ok h -> gens_below n h -> n < umax 32 -> 0 <= n -> t <> NONE ->
  within_bound h -> within_bound (push h t id).
Proof.
  intros Hh Hn Hb H0 Ht Hw. pose proof (push_ok h t id n Hh Hn Hb H0 Ht) as Hpush.
  apply (ensure_bound h id) in Hw. unfold push in *.
  destruct (decide _); [done|]. destruct (bump _ id) as [h2 g2].
  cbv zeta in *. set (h3 := mkHeap _ _ _ _ _) in *.
  destruct (Z.ltb_spec (saturating_add 64 (saturating_mul 64 (Z.of_nat (length (hp_gen h3))) 2) SLACK)
     (Z.of_nat (length (hp_heap h3)))) as [Hlt|Hle].
  - destruct Hpush as [Hk _]. apply compact_length in Hk. unfold within_bound, SLACK.
    change (hp_gen (compact h3)) with (hp_gen h3). lia.
  - unfold within_bound. etransitivity; [exact Hle|]. unfold saturating_add, saturating_mul. lia.
Qed.

Lemma invalidate_bound h id : within_bound h -> within_bound (invalidate h id).
Proof.
  intros Hw%(ensure_bound h id). unfold invalidate. destruct (scheduled _ id); [|done].
  unfold within_bound. destruct (bump_lengths (ensure h id) id) as [-> ->]. exact Hw.
Qed.

(** ** [Crossed::next] *)

(** One pop: the live schedule, the invariant and the bound survive a stale pop; a live
    pop takes exactly its position off the schedule. *)
Lemma pop_ok h e (live : bool) sp :
  heap_ok h -> heap_peek (hp_heap h) = Some e ->
  live = bool_decide (hp_gen h !! en_id e = Some (en_gen e)) ->
  let h' := mkHeap (heap_pop (hp_heap h)) (hp_gen h)
              (if live then <[en_id e := NONE]> (hp_at h) else hp_at h) sp (hp_compactions h) in
  heap_ok h' /\
  (forall i, scheduled h' i = if live && bool_decide (i = en_id e) then None else scheduled h i).
Proof.
  intros Hh Hp Hlive h'. pose proof Hh as [Hlen He Hl Hnd].
  pose proof (heap_pop_perm _ _ Hp) as Hperm.
  assert (forall x, x ∈ hp_heap h <-> x = e \/ x ∈ heap_pop (hp_heap h)) as Hin.
  { intros x. rewrite Hperm at 1. apply elem_of_cons. }
  rewrite Hperm in Hnd. cbn in Hnd. apply NoDup_cons in Hnd as [Hne Hnd].
  assert (e ∈ hp_heap h) as Hine by (apply Hin; by left).
  destruct (He e Hine) as (_ & ge & Hge & _ & _).
  assert (forall i, scheduled h' i = if live && bool_decide (i = en_id e) then None else scheduled h i) as Hs.
  { intros i. unfold scheduled, h'. cbn. destruct live; cbn; [|done].
    clear Hlive. destruct (bool_decide_reflect (i = en_id e)) as [->|].
    - rewrite list_lookup_insert_eq by (rewrite Hlen; by eapply lookup_lt_Some).
      by rewrite Z.eqb_refl.
    - by rewrite list_lookup_insert_ne. }
  split; [|done]. constructor.
  - unfold h'. cbn. destruct live; by rewrite ?length_insert.
  - unfold h'. cbn. intros x Hx. destruct (He x) as (Hnt & g & Hg & Hle & Hat); [by apply Hin; right|].
    split; [done|]. exists g. split; [done|]. split; [done|]. intros E. specialize (Hat E).
    destruct live; [|done]. destruct (decide (en_id e = en_id x)) as [Ei|];
      [|by rewrite list_lookup_insert_ne].
    exfalso. apply Hne. apply list_elem_of_fmap. exists x. split; [|done].
    symmetry in Hlive. apply bool_decide_eq_true in Hlive. rewrite Ei in *. f_equal; congruence.
  - intros i t. rewrite Hs. destruct (live && bool_decide (i = en_id e)) eqn:E; [done|].
    intros Ht. destruct (Hl i t Ht) as (g & Hg & Hx%Hin). exists g. split; [done|].
    destruct Hx as [<-|]; [|done]. cbn in *. rewrite Hlive in E.
    rewrite !bool_decide_eq_true_2 in E by done. done.
  - done.
Qed.

(** What one [next] returns: nothing when nothing is due, otherwise the due position with
    the least (time, id). *)
Definition due (h : TimeCrossHeap) (now : Timestamp) (id : PositionId) : Prop :=
  exists t, scheduled h id = Some t /\ t <= now.

Definition before (h : TimeCrossHeap) (i j : PositionId) : Prop :=
  exists ti tj, scheduled h i = Some ti /\ scheduled h j = Some tj /\
    (ti < tj \/ (ti = tj /\ (i < j)%nat)).

Lemma crossed_next_ok fuel now h :
  heap_ok h -> (length (hp_heap h) < fuel)%nat ->
  let '(h', r) := crossed_next fuel now h in
  heap_ok h' /\ hp_gen h' = hp_gen h /\
  match r with
  | None => (length (hp_heap h') <= length (hp_heap h))%nat /\
            (forall i, scheduled h' i = scheduled h i) /\ forall i, ~ due h now i
  | Some id => (length (hp_heap h') < length (hp_heap h))%nat /\ due h now id /\
      (forall i, due h now i -> i = id \/ before h id i) /\
      (forall i, scheduled h' i = if decide (i = id) then None else scheduled h i)
  end.
Proof.
  revert h. induction fuel as [|f IH]; intros h Hh Hf; [lia|]. cbn [crossed_next].
  assert (forall i t, scheduled h i = Some t -> exists g, mkEnt t i g ∈ hp_heap h) as Hin.
  { intros i t Ht. destruct (hk_live h Hh i t Ht) as (g & _ & ?). by exists g. }
  destruct (heap_peek (hp_heap h)) as [e|] eqn:Ep.
  2:{ apply heap_peek_None in Ep. split; [done|]. split; [done|]. split; [done|]. split; [done|].
      intros i (t & Ht & _). destruct (Hin i t Ht) as [g Hg]. rewrite Ep in Hg. by apply elem_of_nil in Hg. }
  destruct (heap_peek_Some _ _ Ep) as [He Hmin].
  destruct (Z.ltb_spec now (en_t e)) as [Hlt|Hge].
  { split; [done|]. split; [done|]. split; [done|]. split; [done|].
    intros i (t & Ht & Hle). destruct (Hin i t Ht) as [g Hg]. apply Hmin, entry_leb_spec in Hg. cbn in Hg. lia. }
  assert (length (hp_heap h) = S (length (heap_pop (hp_heap h)))) as Hlen
    by (by rewrite (heap_pop_perm _ _ Ep) at 1).
  destruct (decide (hp_gen h !! en_id e = Some (en_gen e))) as [Hg|Hg].
  - destruct (pop_ok h e true (hp_stale_pops h) Hh Ep) as [Hk Hs]; [by rewrite bool_decide_eq_true_2|].
    cbn [andb] in Hs. split; [done|]. split; [done|]. cbn [hp_heap]. split; [lia|].
    pose proof (live_entry h e Hh He Hg) as Hsch.
    split; [by exists (en_t e)|]. split; [|intros i; rewrite Hs; by case_bool_decide; case_decide].
    intros i (t & Ht & Hle). destruct (Hin i t Ht) as [g Hi]. apply Hmin, entry_leb_spec in Hi. cbn in Hi.
    destruct (decide (i = en_id e)); [by left|right]. exists (en_t e), t. split; [done|]. split; [done|]. lia.
  - destruct (pop_ok h e false (saturating_add 64 (hp_stale_pops h) 1) Hh Ep) as [Hk Hs];
      [by rewrite bool_decide_eq_false_2|].
    cbn [andb] in Hs. set (h1 := mkHeap _ _ _ _ _) in *.
    assert (forall i, due h1 now i <-> due h now i) as Hd by (intros i; unfold due; by setoid_rewrite Hs).
    assert (forall i j, before h1 i j <-> before h i j) as Hbf by (intros i j; unfold before; by setoid_rewrite Hs).
    specialize (IH h1 Hk). destruct (crossed_next f now h1) as [h' r].
    destruct IH as (? & Hgen & IH); [cbn; lia|]. split; [done|]. split; [done|].
    destruct r as [id|].
    + destruct IH as (? & Hdue & Hfirst & Hsch). cbn [hp_heap h1] in *. split; [lia|].
      split; [by apply Hd|]. split; [|intros i; by rewrite Hsch, Hs].
      intros i Hi%Hd. rewrite <- Hbf. by apply Hfirst.
    + destruct IH as (? & Hsch & Hno). cbn [hp_heap h1] in *. split; [lia|].
      split; [intros i; by rewrite Hsch, Hs|]. intros i. rewrite <- Hd. apply Hno.
Qed.

(** ** Draining [crossed] *)

Lemma crossed_loop_ok fuel now h :
  heap_ok h -> (length (hp_heap h) < fuel)%nat ->
  let '(h', ids) := crossed_loop fuel now h in
  heap_ok h' /\ hp_gen h' = hp_gen h /\ (length (hp_heap h') <= length (hp_heap h))%nat /\
  (forall i, i ∈ ids <-> due h now i) /\ StronglySorted (before h) ids /\
  (forall i, scheduled h' i = if decide (i ∈ ids) then None else scheduled h i).
Proof.
  revert h. induction fuel as [|f IH]; intros h Hh Hf; [lia|]. cbn [crossed_loop]. unfold next.
  pose proof (crossed_next_ok (S (length (hp_heap h))) now h Hh ltac:(lia)) as Hn.
  destruct (crossed_next _ now h) as [h1 [id|]]; destruct Hn as (Hk & Hg & Hn).
  2:{ destruct Hn as (Hl & Hs & Hno). do 3 (split; [done|]). split; [|split; [constructor|]].
      - intros i. split; [by intros ?%elem_of_nil|by intros ?%Hno].
      - intros i. rewrite Hs. case_decide as Hi; [by apply elem_of_nil in Hi|done]. }
  destruct Hn as (Hl & Hdue & Hfirst & Hs). specialize (IH h1 Hk ltac:(lia)).
  destruct (crossed_loop f now h1) as [h2 ids]. destruct IH as (Hk2 & Hg2 & Hl2 & Hin & Hsort & Hs2).
  assert (forall i, due h1 now i <-> i <> id /\ due h now i) as Hd.
  { intros i. unfold due. setoid_rewrite Hs. destruct (decide (i = id)); naive_solver. }
  assert (forall i j, before h1 i j -> before h i j) as Hb.
  { intros i j (ti & tj & Hi & Hj & Hij). rewrite Hs in Hi, Hj.
    destruct (decide (i = id)), (decide (j = id)); [done..|]. by exists ti, tj. }
  split; [done|]. split; [congruence|]. split; [lia|]. split; [|split].
  - intros i. rewrite elem_of_cons, Hin, Hd. destruct (decide (i = id)); naive_solver.
  - constructor.
    + clear -Hsort Hb. induction Hsort as [|x l Hl IH Hall]; constructor; [done|].
      eapply Forall_impl; [exact Hall|]. intros; by apply Hb.
    + apply Forall_forall. intros i [Hne Hi]%Hin%Hd. by destruct (Hfirst i Hi).
  - intros i. rewrite Hs2, Hs. destruct (decide (i = id)) as [->|].
    + rewrite (decide_True (P := id ∈ id :: ids)) by left. by case_decide.
    + assert (i ∈ id :: ids <-> i ∈ ids) as E by (rewrite elem_of_cons; naive_solver).
      destruct (decide (i ∈ ids)), (decide (i ∈ id :: ids)); naive_solver.
Qed.

(** ** The schedule the heap implements *)

Inductive HeapOp :=
  | HPush (t : Timestamp) (id : PositionId)
  | HInvalidate (id : PositionId)
  | HCrossed (now : Timestamp).

Definition run_op (h : TimeCrossHeap) (op : HeapOp) : TimeCrossHeap * list PositionId :=
  match op with
  | HPush t id => (push h t id, [])
  | HInvalidate id => (invalidate h id, [])
  | HCrossed now => crossed now h
  end.

Fixpoint run_heap (h : TimeCrossHeap) (ops : list HeapOp) : TimeCrossHeap * list (list PositionId) :=
  match ops with
  | [] => (h, [])
  | op :: ops => let '(h, out) := run_op h op in
                 let '(h, outs) := run_heap h ops in (h, out :: outs)
  end.

(** The abstract schedule: a finite map from positions to crossing times. *)
Abbreviation schedule := (gmap PositionId Timestamp) (only parsing).

Definition earlier (m : schedule) (i j : PositionId) : Prop :=
  exists ti tj, m !! i = Some ti /\ m !! j = Some tj /\ (ti < tj \/ (ti = tj /\ (i < j)%nat)).

(** One abstract operation: pushing overwrites, invalidating deletes, and draining at [now]
    yields, in (time, id) order, exactly the positions scheduled at or before [now], and
    removes them. *)
Inductive sched_step : schedule -> HeapOp -> schedule -> list PositionId -> Prop :=
  | sched_push m t id : sched_step m (HPush t id) (<[id := t]> m) []
  | sched_invalidate m id : sched_step m (HInvalidate id) (delete id m) []
  | sched_crossed m now ids :
      (forall i, i ∈ ids <-> exists t, m !! i = Some t /\ t <= now) ->
      StronglySorted (earlier m) ids ->
      sched_step m (HCrossed now) (filter (fun '(i, t) => now < t) m) ids.

Inductive sched_run : schedule -> list HeapOp -> schedule -> list (list PositionId) -> Prop :=
  | sched_nil m : sched_run m [] m []
  | sched_cons m op m1 out ops m2 outs :
      sched_step m op m1 out -> sched_run m1 ops m2 outs ->
      sched_run m (op :: ops) m2 (out :: outs).

(** Crossing times are real instants, not the sentinel. *)
Definition op_ok (op : HeapOp) : Prop :=
  match op with HPush t _ => t <> NONE | _ => True end.

Definition abstracts (h : TimeCrossHeap) (m : schedule) : Prop := forall i, m !! i = scheduled h i.

Lemma run_op_refines h m op n :
  heap_ok h -> gens_below n h -> 0 <= n < umax 32 -> within_bound h -> abstracts h m -> op_ok op ->
  let '(h', out) := run_op h op in
  heap_ok h' /\ gens_below (n + 1) h' /\ within_bound h' /\
  exists m', sched_step m op m' out /\ abstracts h' m'.
Proof.
  intros Hh Hn [H0 Hb] Hw Ha Hop. destruct op as [t id|id|now]; cbn [run_op].
  - destruct (push_ok h t id n Hh Hn Hb H0 Hop) as (Hk & Hg & Hs).
    do 2 (split; [done|]). split; [by eapply push_bound|].
    eexists. split; [constructor|]. intros i. rewrite Hs.
    case_decide; subst; [by rewrite lookup_insert_eq|]. by rewrite lookup_insert_ne.
  - destruct (invalidate_ok h id n Hh Hn Hb H0) as (Hk & Hg & Hs).
    do 2 (split; [done|]). split; [by apply invalidate_bound|].
    eexists. split; [constructor|]. intros i. rewrite Hs.
    case_decide; subst; [by rewrite lookup_delete_eq|]. by rewrite lookup_delete_ne.
  - unfold crossed. pose proof (crossed_loop_ok (S (length (hp_heap h))) now h Hh ltac:(lia)) as Hc.
    destruct (crossed_loop _ now h) as [h' ids]. destruct Hc as (Hk & Hg & Hl & Hin & Hsort & Hs).
    split; [done|]. split; [unfold gens_below; rewrite Hg; eapply Forall_impl; [exact Hn|];
      intros ? ?; cbv beta in *; lia|].
    split; [unfold within_bound in *; rewrite Hg; lia|].
    eexists. split; [constructor|].
    + intros i. rewrite Hin. unfold due. by setoid_rewrite Ha.
    + clear -Hsort Ha. induction Hsort as [|x l Hl IH Hall]; constructor; [done|].
      eapply Forall_impl; [exact Hall|]. intros y (tx & ty & ?). exists tx, ty. by rewrite !Ha.
    + intros i. rewrite Hs. apply option_eq. intros t. rewrite map_lookup_filter_Some, Ha.
      case_decide as Hi; rewrite Hin in Hi; unfold due in Hi.
      * split; [|done]. intros [Ht Hlt]. destruct Hi as (t' & Ht' & ?). simplify_eq. lia.
      * split; [naive_solver|]. intros Ht. split; [done|]. destruct (decide (now < t)); [done|].
        exfalso. apply Hi. exists t. split; [done|lia].
Qed.

Lemma run_heap_refines h m ops n :
  heap_ok h -> gens_below n h -> 0 <= n -> n + Z.of_nat (length ops) <= umax 32 ->
  within_bound h -> abstracts h m -> Forall op_ok ops ->
  exists m', sched_run m ops m' (snd (run_heap h ops)) /\ abstracts (fst (run_heap h ops)) m' /\
    within_bound (fst (run_heap h ops)).
Proof.
  revert h m n. induction ops as [|op ops IH]; intros h m n Hh Hn H0 Hb Hw Ha Hops.
  { exists m. split; [constructor|done]. }
  apply Forall_cons in Hops as [Hop Hops]. cbn [length] in Hb. cbn [run_heap].
  pose proof (run_op_refines h m op n Hh Hn ltac:(lia) Hw Ha Hop) as Hstep.
  destruct (run_op h op) as [h1 out]. destruct Hstep as (Hk & Hg & Hw1 & m1 & Hs & Ha1).
  destruct (IH h1 m1 (n + 1) Hk Hg ltac:(lia) ltac:(lia) Hw1 Ha1 Hops) as (m2 & Hr & Ha2 & Hw2).
  destruct (run_heap h1 ops) as [h2 outs]. exists m2. split; [by econstructor|done].
Qed.

Lemma heap_empty_start : abstracts heap_empty ∅ /\ within_bound heap_empty /\ gens_below 0 heap_empty.
Proof.
  split; [intros i; by rewrite lookup_empty|]. split; [unfold within_bound, SLACK; cbn; lia|constructor].
Qed.

(** C33. The lazily deleting time-cross heap implements a plain schedule: over any sequence of
    [push], [invalidate] and drained [crossed] calls of fewer than 2^32 operations, with
    crossing times below the sentinel, the ids each drain yields are exactly the positions
    whose latest scheduled time is due, each once and in (time, id) order, whatever stale
    entries and compactions the heap went through, and [scheduled] reports the map. *)
Theorem heap_refines_schedule (ops : list HeapOp)
    (Hops : Forall op_ok ops) (Hlen : Z.of_nat (length ops) <= umax 32) :
  exists m, sched_run ∅ ops m (snd (run_heap heap_empty ops)) /\
    forall i, scheduled (fst (run_heap heap_empty ops)) i = m !! i.
Proof.
  destruct heap_empty_start as (Ha & Hw & Hg).
  destruct (run_heap_refines heap_empty ∅ ops 0 heap_empty_ok Hg ltac:(done) ltac:(lia) Hw Ha Hops)
    as (m & Hr & Hm & _).
  exists m. split; [done|]. intros i. symmetry. apply Hm.
Qed.

Lemma heap_refines_schedule_witness :
  let ops := [HPush 100 1%nat; HPush 50 2%nat; HPush 70 1%nat; HPush 60 3%nat; HInvalidate 3%nat;
              HCrossed 49; HCrossed 69; HCrossed 1000] in
  snd (run_heap heap_empty ops) = [[]; []; []; []; []; []; [2%nat]; [1%nat]] /\
  exists m, sched_run ∅ ops m (snd (run_heap heap_empty ops)) /\
    forall i, scheduled (fst (run_heap heap_empty ops)) i = m !! i.
Proof.
  split; [vm_compute; reflexivity|].
  apply (heap_refines_schedule _); [|vm_compute; discriminate].
  repeat constructor; vm_compute; discriminate.
Defined.

(** Churn is bounded: however often the same positions are re-scheduled, the heap never
    holds more than twice the tracked universe plus the slack. *)
Theorem heap_churn_bounded (ops : list HeapOp)
    (Hops : Forall op_ok ops) (Hlen : Z.of_nat (length ops) <= umax 32) :
  let h := fst (run_heap heap_empty ops) in
  Z.of_nat (length (hp_heap h)) <= 2 * Z.of_nat (length (hp_gen h)) + SLACK.
Proof.
  destruct heap_empty_start as (Ha & Hw & Hg).
  by destruct (run_heap_refines heap_empty ∅ ops 0 heap_empty_ok Hg ltac:(done) ltac:(lia) Hw Ha Hops)
    as (m & _ & _ & ?).
Qed.

Lemma heap_churn_bounded_witness :
  let ops := List.map (fun k => HPush (Z.of_nat k) 0%nat) (seq 0 1100) in
  let h := fst (run_heap heap_empty ops) in
  hp_compactions h = 1 /\ Z.of_nat (length (hp_heap h)) <= 2 * Z.of_nat (length (hp_gen h)) + SLACK.
Proof.
  split; [vm_compute; reflexivity|].
  apply heap_churn_bounded; [|vm_compute; discriminate].
  apply Forall_forall. intros op (k & <- & Hk%in_seq)%list_elem_of_In%in_map_iff. cbn.
  unfold NONE, umax. lia.
Defined.
