(* ===== verification/Halt.v ===== *)
(** Halts: scopes, reasons and the interfaces between components
    ([crates/liq-types/src/halt.rs], [crates/liq-types/src/ids.rs]) and the halt matrix
    ([crates/liq-risk/src/matrix.rs]). *)

From S2P Require Import Prelude Types.
From stdpp Require Import strings.
Local Open Scope Z_scope.

Inductive TriggerKind :=
  | SvrAuction | OraclePublic | OraclePullHeld | PoolStateChange | UserAction
  | DerivedRate | ParamChange | InterestDrift | Stale | OraclePredicted.

#[export] Instance TriggerKind_eq_dec : EqDecision TriggerKind.
Proof. solve_decision. Defined.

(** [FlashProvider] with its discriminants. *)
Inductive FlashProvider :=
  | FAave | FUniV3 | FUniV4 | FMorpho | FSkyDss | FNone | FUniV3Swap.

#[export] Instance FlashProvider_eq_dec : EqDecision FlashProvider.
Proof. solve_decision. Defined.

Definition flash_u8 (p : FlashProvider) : Z :=
  match p with
  | FAave => 0 | FUniV3 => 1 | FUniV4 => 2 | FMorpho => 3 | FSkyDss => 4 | FNone => 5
  | FUniV3Swap => 6
  end.

(** Map keys: the discriminants are distinct. *)
Definition flash_of_u8 (z : Z) : option FlashProvider :=
  find (fun p => flash_u8 p =? z) [FAave; FUniV3; FUniV4; FMorpho; FSkyDss; FNone; FUniV3Swap].

#[export] Instance FlashProvider_countable : Countable FlashProvider.
Proof. refine (inj_countable flash_u8 flash_of_u8 _). by intros []. Defined.

Definition trigger_u8 (t : TriggerKind) : Z :=
  match t with
  | SvrAuction => 0 | OraclePublic => 1 | OraclePullHeld => 2 | PoolStateChange => 3
  | UserAction => 4 | DerivedRate => 5 | ParamChange => 6 | InterestDrift => 7 | Stale => 8
  | OraclePredicted => 9
  end.

#[export] Instance TriggerKind_countable : Countable TriggerKind.
Proof.
  refine (inj_countable trigger_u8 (fun z => find (fun t => trigger_u8 t =? z)
    [SvrAuction; OraclePublic; OraclePullHeld; PoolStateChange; UserAction; DerivedRate;
     ParamChange; InterestDrift; Stale; OraclePredicted]) _). by intros [].
Defined.

Inductive HaltScope :=
  | SGlobal
  | SProtocol (p : ProtocolId)
  | SMarket (m : MarketId)
  | SAsset (a : AssetId)
  | SFlashProvider (f : FlashProvider)
  | STrigger (t : TriggerKind).

#[export] Instance HaltScope_eq_dec : EqDecision HaltScope.
Proof. solve_decision. Defined.

Inductive HaltReason :=
  | NodeLag | OracleStale | MevShareDisconnected | FlashLiquidityCollapse
  | FlashCallbackRevertStreak | ReorgTooDeep | GasWalletBelowFloor | ProxyUpgrade
  | DriftMismatch | SimChainDivergence | AdapterPanic.

#[export] Instance HaltReason_eq_dec : EqDecision HaltReason.
Proof. solve_decision. Defined.

Inductive Allow := AYes | ADenied (scope : HaltScope) (reason : HaltReason).

#[export] Instance Allow_eq_dec : EqDecision Allow.
Proof. solve_decision. Defined.

Record AllowQuery := mkQuery {
  q_protocol : ProtocolId;
  q_market : MarketId;
  q_collateral : AssetId;
  q_debt : AssetId;
  q_flash : FlashProvider;
  q_trigger : TriggerKind;
  q_operator_key : Address
}.

(** ** Interfaces *)

(** [trait HaltSink]: what ingest, the oracle and the watchers ask of the risk gate; the
    sink's state is threaded. *)
Class HaltSink (S : Type) := {
  sink_halt : S -> HaltScope -> HaltReason -> S;
  sink_clear : S -> HaltScope -> HaltReason -> S
}.

(** [trait RiskAllow]: what submission asks of it. *)
Class RiskAllow (S : Type) := { risk_allow : S -> AllowQuery -> Allow }.

(** A sink that only records what it is told. *)
#[export] Instance HaltSink_log : HaltSink (list (HaltScope * HaltReason)) := {|
  sink_halt l s r := l ++ [(s, r)];
  sink_clear l _ _ := l
|}.

(** ** The matrix *)

Inductive HaltClass := ClassA | ClassB | ClassC.

#[export] Instance HaltClass_eq_dec : EqDecision HaltClass.
Proof. solve_decision. Defined.

Definition class_of (reason : HaltReason) : HaltClass :=
  match reason with
  | NodeLag | OracleStale | MevShareDisconnected | FlashLiquidityCollapse
  | FlashCallbackRevertStreak | ReorgTooDeep | GasWalletBelowFloor | AdapterPanic => ClassA
  | ProxyUpgrade | DriftMismatch | SimChainDivergence => ClassB
  end.

Record MatrixRow := mkMatrixRow {
  mx_name : string;
  mx_metric : string;
  mx_threshold : string;
  mx_action : string;
  mx_class : HaltClass;
  mx_reason : option HaltReason
}.

Local Open Scope string_scope.
Definition MATRIX : list MatrixRow := [
  mkMatrixRow "node_lag" "head_ts vs wall clock"
    "> 2 blocks (~24s)"
    "Halt all submissions (Global); auto-clear on catch-up" ClassA (Some NodeLag);
  mkMatrixRow "oracle_stale" "now − last_update"
    "> heartbeat × 1.5"
    "Mark asset untradeable; clear on next fresh update" ClassA (Some OracleStale);
  mkMatrixRow "mevshare_disconnected" "SSE heartbeat age"
    "> 60s"
    "Halt Trigger(SvrAuction) only" ClassA (Some MevShareDisconnected);
  mkMatrixRow "flash_liquidity_collapse" "FlashIndex available vs baseline"
    "drop > collapse_bps"
    "Mark asset ineligible; never Global" ClassA (Some FlashLiquidityCollapse);
  mkMatrixRow "flash_callback_revert_streak" "consecutive callback reverts per provider"
    ">= revert_streak"
    "Disable that FlashProvider; fall back" ClassA (Some FlashCallbackRevertStreak);
  mkMatrixRow "reorg_too_deep" "unwind ancestor vs undo ring"
    "ancestor not in ring"
    "Halt Global; clear when snapshot rebuild completes" ClassA (Some ReorgTooDeep);
  mkMatrixRow "gas_wallet_below_floor" "operator-key ETH balance"
    "balance < gas_floor[key]"
    "Halt that key only; clear on top-up" ClassA (Some GasWalletBelowFloor);
  mkMatrixRow "adapter_panic" "catch_unwind on protocol apply"
    "panic this block"
    "Halt that protocol; auto-clear after contained unwind" ClassA (Some AdapterPanic);
  mkMatrixRow "proxy_upgrade" "EIP-1967 implementation slot"
    "slot value ≠ last seen"
    "Class B halt that protocol or flash provider" ClassB (Some ProxyUpgrade);
  mkMatrixRow "drift_mismatch" "health() vs health_probe EWMA"
    "> max_mismatch_bps (02B/05C)"
    "Class B halt that protocol (math bug; needs code)" ClassB (Some DriftMismatch);
  mkMatrixRow "sim_chain_divergence" "consecutive sim-pass / chain-revert"
    ">= sim_chain_streak"
    "Class B halt that protocol; dump state" ClassB (Some SimChainDivergence);
  mkMatrixRow "gas_spend_rate" "rolling gas spend vs revenue"
    "config anomaly window"
    "Alert only" ClassC None;
  mkMatrixRow "pnl_drawdown" "rolling realized PnL vs limit"
    "config drawdown window"
    "Alert only (D13b; not a halt)" ClassC None;
  mkMatrixRow "proxy_admin_ownership" "ProxyAdmin.OwnershipTransferred (V4)"
    "any transfer"
    "Alert only (03C early warning)" ClassC None;
  mkMatrixRow "acl_role_granted" "ACL RoleGranted (V3)"
    "any grant"
    "Alert only (03C early warning)" ClassC None;
  mkMatrixRow "single_flash_source" "viable FlashIndex sources per major debt asset"
    "< 2"
    "Alert only" ClassC None;
  mkMatrixRow "provider_concentration" "liquidations through one FlashProvider / total"
    ">= concentration_bps"
    "Alert only" ClassC None;
  mkMatrixRow "flash_depth_short" "available vs median liquidation notional"
    "available < median"
    "Alert only" ClassC None;
  mkMatrixRow "health_wrong" "watcher vs engine HealthWrong (09A)"
    "any"
    "Alert only until 09A alarm wiring" ClassC None
].
Local Close Scope string_scope.

Definition class_c_rows : list MatrixRow :=
  List.filter (fun r => bool_decide (mx_class r = ClassC)) MATRIX.

(** The halt matrix and the classifier agree: every halt reason has exactly one row, that
    row carries the class [class_of] assigns, the rows without a reason are exactly the
    alert-only Class C rows, and no two rows share a name. *)
Theorem matrix_agrees_with_class_of :
  (forall r, List.filter (fun row => bool_decide (mx_reason row = Some r)) MATRIX <> []) /\
  (forall r row row', row ∈ MATRIX -> row' ∈ MATRIX ->
     mx_reason row = Some r -> mx_reason row' = Some r -> row = row') /\
  (forall row r, row ∈ MATRIX -> mx_reason row = Some r -> mx_class row = class_of r) /\
  (forall row, row ∈ MATRIX -> (mx_reason row = None <-> row ∈ class_c_rows)) /\
  NoDup (mx_name <$> MATRIX).
Proof.
  split; [by intros []|]. split; [|split; [|split]].
  - intros r row row' H1 H2. repeat (apply elem_of_cons in H1 as [->|H1]; [cbn; intros E1|]);
      [..|by apply elem_of_nil in H1]; try discriminate E1; injection E1 as <-;
    repeat (apply elem_of_cons in H2 as [->|H2]; [cbn; intros E2; try discriminate E2; try done|]);
    by apply elem_of_nil in H2.
  - intros row r H. repeat (apply elem_of_cons in H as [->|H]; [cbn; intros [=]; by subst|]).
    by apply elem_of_nil in H.
  - intros row H. unfold class_c_rows. rewrite list_elem_of_In, filter_In, <- list_elem_of_In.
    rewrite bool_decide_eq_true. split; [intros E; split; [done|]; revert E|intros [_ E]; revert E];
    repeat (apply elem_of_cons in H as [->|H]; [cbn; done|]); by apply elem_of_nil in H.
  - apply (bool_decide_eq_true_1 _). vm_compute. reflexivity.
Qed.
