(* ===== verification/Gate.v ===== *)
(** The risk gate: [crates/liq-risk/src/gate.rs].

    Active halts per scope, the Class B action log and the two revert streaks. Each
    [RwLock] map is a [gmap]; the two global bits are a [u64] of flags. Every method
    takes its locks for the length of one map operation, so a method is one atomic step
    of the gate here; log lines are not modelled. *)

From S2P Require Import Prelude Types Halt.
Local Open Scope Z_scope.

Record HaltEntry := mkHaltEntry { he_reason : HaltReason; he_metric : Z }.

Record ActionRequired := mkAction {
  ar_protocol : option ProtocolId;
  ar_flash : option FlashProvider;
  ar_reason : HaltReason;
  ar_metric : Z;
  ar_scope : HaltScope
}.

Record RiskGate := mkGate {
  g_global : Z;
  g_protocols : gmap ProtocolId HaltEntry;
  g_markets : gmap MarketId HaltEntry;
  g_assets : gmap AssetId HaltEntry;
  g_flash : gmap FlashProvider HaltEntry;
  g_triggers : gmap TriggerKind HaltEntry;
  g_keys : gmap Address HaltEntry;
  g_action_required : list ActionRequired;
  g_sim_chain_streak : gmap ProtocolId Z;
  g_callback_streak : gmap FlashProvider Z;
  g_sim_chain_threshold : Z;
  g_callback_revert_threshold : Z
}.

Definition G_NODE : Z := 1.
Definition G_REORG : Z := 2.

Definition gate_new : RiskGate := mkGate 0 ∅ ∅ ∅ ∅ ∅ ∅ [] ∅ ∅ 3 3.

(** Field updates. *)
Definition with_global (g : RiskGate) (x : Z) : RiskGate :=
  mkGate x (g_protocols g) (g_markets g) (g_assets g) (g_flash g) (g_triggers g) (g_keys g)
    (g_action_required g) (g_sim_chain_streak g) (g_callback_streak g)
    (g_sim_chain_threshold g) (g_callback_revert_threshold g).
Definition with_protocols (g : RiskGate) (m : gmap ProtocolId HaltEntry) : RiskGate :=
  mkGate (g_global g) m (g_markets g) (g_assets g) (g_flash g) (g_triggers g) (g_keys g)
    (g_action_required g) (g_sim_chain_streak g) (g_callback_streak g)
    (g_sim_chain_threshold g) (g_callback_revert_threshold g).
Definition with_markets (g : RiskGate) (m : gmap MarketId HaltEntry) : RiskGate :=
  mkGate (g_global g) (g_protocols g) m (g_assets g) (g_flash g) (g_triggers g) (g_keys g)
    (g_action_required g) (g_sim_chain_streak g) (g_callback_streak g)
    (g_sim_chain_threshold g) (g_callback_revert_threshold g).
Definition with_assets (g : RiskGate) (m : gmap AssetId HaltEntry) : RiskGate :=
  mkGate (g_global g) (g_protocols g) (g_markets g) m (g_flash g) (g_triggers g) (g_keys g)
    (g_action_required g) (g_sim_chain_streak g) (g_callback_streak g)
    (g_sim_chain_threshold g) (g_callback_revert_threshold g).
Definition with_flash (g : RiskGate) (m : gmap FlashProvider HaltEntry) : RiskGate :=
  mkGate (g_global g) (g_protocols g) (g_markets g) (g_assets g) m (g_triggers g) (g_keys g)
    (g_action_required g) (g_sim_chain_streak g) (g_callback_streak g)
    (g_sim_chain_threshold g) (g_callback_revert_threshold g).
Definition with_triggers (g : RiskGate) (m : gmap TriggerKind HaltEntry) : RiskGate :=
  mkGate (g_global g) (g_protocols g) (g_markets g) (g_assets g) (g_flash g) m (g_keys g)
    (g_action_required g) (g_sim_chain_streak g) (g_callback_streak g)
    (g_sim_chain_threshold g) (g_callback_revert_threshold g).
Definition with_keys (g : RiskGate) (m : gmap Address HaltEntry) : RiskGate :=
  mkGate (g_global g) (g_protocols g) (g_markets g) (g_assets g) (g_flash g) (g_triggers g) m
    (g_action_required g) (g_sim_chain_streak g) (g_callback_streak g)
    (g_sim_chain_threshold g) (g_callback_revert_threshold g).
Definition with_actions (g : RiskGate) (l : list ActionRequired) : RiskGate :=
  mkGate (g_global g) (g_protocols g) (g_markets g) (g_assets g) (g_flash g) (g_triggers g)
    (g_keys g) l (g_sim_chain_streak g) (g_callback_streak g)
    (g_sim_chain_threshold g) (g_callback_revert_threshold g).
Definition with_streaks (g : RiskGate) (s : gmap ProtocolId Z) (c : gmap FlashProvider Z) : RiskGate :=
  mkGate (g_global g) (g_protocols g) (g_markets g) (g_assets g) (g_flash g) (g_triggers g)
    (g_keys g) (g_action_required g) s c
    (g_sim_chain_threshold g) (g_callback_revert_threshold g).

(** ** The submission gate *)

Definition allow (g : RiskGate) (q : AllowQuery) : Allow :=
  if negb (Z.land (g_global g) G_NODE =? 0) then ADenied SGlobal NodeLag else
  if negb (Z.land (g_global g) G_REORG =? 0) then ADenied SGlobal ReorgTooDeep else
  match g_protocols g !! q_protocol q with
  | Some e => ADenied (SProtocol (q_protocol q)) (he_reason e) | None =>
  match g_markets g !! q_market q with
  | Some e => ADenied (SMarket (q_market q)) (he_reason e) | None =>
  match g_assets g !! q_debt q with
  | Some e => ADenied (SAsset (q_debt q)) (he_reason e) | None =>
  match g_assets g !! q_collateral q with
  | Some e => ADenied (SAsset (q_collateral q)) (he_reason e) | None =>
  match g_flash g !! q_flash q with
  | Some e => ADenied (SFlashProvider (q_flash q)) (he_reason e) | None =>
  match g_triggers g !! q_trigger q with
  | Some e => ADenied (STrigger (q_trigger q)) (he_reason e) | None =>
  match g_keys g !! q_operator_key q with
  | Some e => ADenied SGlobal (he_reason e) | None => AYes
  end end end end end end end.

#[export] Instance RiskAllow_gate : RiskAllow RiskGate := {| risk_allow := allow |}.

(** ** Raising a halt *)

Definition normalize_scope (scope : HaltScope) (reason : HaltReason) (class : HaltClass)
    : option HaltScope :=
  match reason with
  | NodeLag | ReorgTooDeep => Some SGlobal
  | MevShareDisconnected => Some (STrigger SvrAuction)
  | GasWalletBelowFloor => None
  | _ =>
      if bool_decide (class = ClassB) && bool_decide (scope = SGlobal) then None
      else Some scope
  end.

Definition apply_halt (g : RiskGate) (scope : HaltScope) (reason : HaltReason) (metric : Z)
    : RiskGate :=
  let e := mkHaltEntry reason metric in
  match scope with
  | SGlobal =>
      match reason with
      | NodeLag => with_global g (Z.lor (g_global g) G_NODE)
      | ReorgTooDeep => with_global g (Z.lor (g_global g) G_REORG)
      | _ => g
      end
  | SProtocol p => with_protocols g (<[p := e]> (g_protocols g))
  | SMarket m => with_markets g (<[m := e]> (g_markets g))
  | SAsset a => with_assets g (<[a := e]> (g_assets g))
  | SFlashProvider p => with_flash g (<[p := e]> (g_flash g))
  | STrigger t => with_triggers g (<[t := e]> (g_triggers g))
  end.

Definition halt (g : RiskGate) (scope : HaltScope) (reason : HaltReason) : RiskGate :=
  let class := class_of reason in
  match normalize_scope scope reason class with
  | None => g
  | Some scope =>
      match class with
      | ClassC => g
      | ClassA => apply_halt g scope reason 0
      | ClassB =>
          let g := apply_halt g scope reason 0 in
          let rec := mkAction
            (match scope with SProtocol p => Some p | _ => None end)
            (match scope with SFlashProvider p => Some p | _ => None end)
            reason 0 scope in
          with_actions g (g_action_required g ++ [rec])
      end
  end.

(** ** Lifting a halt *)

(** [map.get(k).is_some_and(|e| e.reason == reason)] then [map.remove(k)]. *)
Definition remove_entry `{Countable K} (k : K) (reason : HaltReason) (m : gmap K HaltEntry)
    : gmap K HaltEntry :=
  match m !! k with
  | Some e => if bool_decide (he_reason e = reason) then delete k m else m
  | None => m
  end.

(** [fetch_and(!bit)] on a [u64]. *)
Definition clear_bits (x bits : Z) : Z := Z.land x (umax 64 - bits).

Definition remove (g : RiskGate) (scope : HaltScope) (reason : HaltReason) : RiskGate :=
  match scope with
  | SGlobal =>
      match reason with
      | NodeLag => with_global g (clear_bits (g_global g) G_NODE)
      | ReorgTooDeep => with_global g (clear_bits (g_global g) G_REORG)
      | _ => g
      end
  | SProtocol p => with_protocols g (remove_entry p reason (g_protocols g))
  | SMarket m => with_markets g (remove_entry m reason (g_markets g))
  | SAsset a => with_assets g (remove_entry a reason (g_assets g))
  | SFlashProvider p => with_flash g (remove_entry p reason (g_flash g))
  | STrigger t => with_triggers g (remove_entry t reason (g_triggers g))
  end.

Definition clear_auto (g : RiskGate) (scope : HaltScope) (reason : HaltReason) : RiskGate :=
  if bool_decide (class_of reason = ClassA) then remove g scope reason else g.

Definition clear_after_ship (g : RiskGate) (scope : HaltScope) (reason : HaltReason) : RiskGate :=
  if bool_decide (class_of reason = ClassB) then
    let g := remove g scope reason in
    with_actions g (List.filter (fun a => negb (bool_decide (ar_scope a = scope) &&
      bool_decide (ar_reason a = reason))) (g_action_required g))
  else g.

(** ** Observations *)

Definition operator_halt (g : RiskGate) (p : ProtocolId) : RiskGate :=
  halt g (SProtocol p) DriftMismatch.

Definition observe_node_lag (g : RiskGate) (lag_blocks : Z) : RiskGate :=
  if 2 <? lag_blocks then halt g SGlobal NodeLag else clear_auto g SGlobal NodeLag.

Definition observe_reorg_rebuild_done (g : RiskGate) : RiskGate := clear_auto g SGlobal ReorgTooDeep.

Definition observe_oracle_fresh (g : RiskGate) (a : AssetId) : RiskGate :=
  clear_auto g (SAsset a) OracleStale.

Definition observe_mevshare (g : RiskGate) (heartbeat_age_secs : Z) : RiskGate :=
  let scope := STrigger SvrAuction in
  if 60 <? heartbeat_age_secs then halt g scope MevShareDisconnected
  else clear_auto g scope MevShareDisconnected.

Definition observe_gas_key (g : RiskGate) (key : Address) (balance_wei floor_wei : Z) : RiskGate :=
  if balance_wei <? floor_wei
  then with_keys g (<[key := mkHaltEntry GasWalletBelowFloor 1]> (g_keys g))
  else with_keys g (delete key (g_keys g)).

(** [entry(k).or_insert(0)], bumped. *)
Definition bump_streak `{Countable K} (k : K) (m : gmap K Z) : Z :=
  saturating_add 32 (default 0 (m !! k)) 1.

Definition observe_sim_chain (g : RiskGate) (p : ProtocolId) (sim_passed chain_reverted : bool)
    : RiskGate :=
  if negb (sim_passed && chain_reverted)
  then with_streaks g (<[p := 0]> (g_sim_chain_streak g)) (g_callback_streak g)
  else
    let n := bump_streak p (g_sim_chain_streak g) in
    let g := with_streaks g (<[p := n]> (g_sim_chain_streak g)) (g_callback_streak g) in
    if g_sim_chain_threshold g <=? n then halt g (SProtocol p) SimChainDivergence else g.

Definition observe_callback_revert (g : RiskGate) (p : FlashProvider) (reverted : bool) : RiskGate :=
  if negb reverted then
    clear_auto (with_streaks g (g_sim_chain_streak g) (<[p := 0]> (g_callback_streak g)))
      (SFlashProvider p) FlashCallbackRevertStreak
  else
    let n := bump_streak p (g_callback_streak g) in
    let g := with_streaks g (g_sim_chain_streak g) (<[p := n]> (g_callback_streak g)) in
    if g_callback_revert_threshold g <=? n
    then halt g (SFlashProvider p) FlashCallbackRevertStreak else g.

Definition observe_liquidity_collapse (g : RiskGate) (a : AssetId) (drop_bps threshold_bps : Z)
    : RiskGate :=
  if threshold_bps <? drop_bps then halt g (SAsset a) FlashLiquidityCollapse
  else clear_auto g (SAsset a) FlashLiquidityCollapse.

(** [HaltSink::clear]. *)
Definition clear (g : RiskGate) (scope : HaltScope) (reason : HaltReason) : RiskGate :=
  match reason, scope with
  | OracleStale, SAsset asset => observe_oracle_fresh g asset
  | _, _ => clear_auto g scope reason
  end.

#[export] Instance HaltSink_gate : HaltSink RiskGate := {| sink_halt := halt; sink_clear := clear |}.

(** ** Runs of the gate *)

Inductive GateOp :=
  | GHalt (s : HaltScope) (r : HaltReason)
  | GClear (s : HaltScope) (r : HaltReason)
  | GClearAuto (s : HaltScope) (r : HaltReason)
  | GShip (s : HaltScope) (r : HaltReason)
  | GOperatorHalt (p : ProtocolId)
  | GNodeLag (lag : Z)
  | GReorgDone
  | GOracleFresh (a : AssetId)
  | GMevshare (age : Z)
  | GGasKey (key : Address) (balance floor : Z)
  | GSimChain (p : ProtocolId) (sim_passed chain_reverted : bool)
  | GCallback (p : FlashProvider) (reverted : bool)
  | GLiquidity (a : AssetId) (drop_bps threshold_bps : Z).

Definition gate_step (g : RiskGate) (op : GateOp) : RiskGate :=
  match op with
  | GHalt s r => halt g s r
  | GClear s r => clear g s r
  | GClearAuto s r => clear_auto g s r
  | GShip s r => clear_after_ship g s r
  | GOperatorHalt p => operator_halt g p
  | GNodeLag lag => observe_node_lag g lag
  | GReorgDone => observe_reorg_rebuild_done g
  | GOracleFresh a => observe_oracle_fresh g a
  | GMevshare age => observe_mevshare g age
  | GGasKey key balance floor => observe_gas_key g key balance floor
  | GSimChain p s c => observe_sim_chain g p s c
  | GCallback p r => observe_callback_revert g p r
  | GLiquidity a d t => observe_liquidity_collapse g a d t
  end.

Definition gate_run (g : RiskGate) (ops : list GateOp) : RiskGate := fold_left gate_step ops g.

(** ** The halt state by scope *)

(** The reason stored for a non-global scope. *)
Definition entry_at (g : RiskGate) (s : HaltScope) : option HaltReason :=
  match s with
  | SGlobal => None
  | SProtocol p => he_reason <$> g_protocols g !! p
  | SMarket m => he_reason <$> g_markets g !! m
  | SAsset a => he_reason <$> g_assets g !! a
  | SFlashProvider p => he_reason <$> g_flash g !! p
  | STrigger t => he_reason <$> g_triggers g !! t
  end.

(** The scopes a submission falls under. *)
Definition hits (q : AllowQuery) (s : HaltScope) : Prop :=
  match s with
  | SGlobal => False
  | SProtocol p => p = q_protocol q
  | SMarket m => m = q_market q
  | SAsset a => a = q_debt q \/ a = q_collateral q
  | SFlashProvider p => p = q_flash q
  | STrigger t => t = q_trigger q
  end.

(** What an operation does to the halts: at most one halt, one automatic clear or one
    shipped clear; streaks and keys are bookkeeping beside it. *)
Inductive effect :=
  | ENone
  | EHalt (s : HaltScope) (r : HaltReason)
  | EClear (s : HaltScope) (r : HaltReason)
  | EShip (s : HaltScope) (r : HaltReason).

Definition apply_effect (g : RiskGate) (e : effect) : RiskGate :=
  match e with
  | ENone => g
  | EHalt s r => halt g s r
  | EClear s r => clear_auto g s r
  | EShip s r => clear_after_ship g s r
  end.

Definition effect_of (g : RiskGate) (op : GateOp) : effect :=
  match op with
  | GHalt s r => EHalt s r
  | GClear s r | GClearAuto s r => EClear s r
  | GShip s r => EShip s r
  | GOperatorHalt p => EHalt (SProtocol p) DriftMismatch
  | GNodeLag lag => if 2 <? lag then EHalt SGlobal NodeLag else EClear SGlobal NodeLag
  | GReorgDone => EClear SGlobal ReorgTooDeep
  | GOracleFresh a => EClear (SAsset a) OracleStale
  | GMevshare age => if 60 <? age then EHalt (STrigger SvrAuction) MevShareDisconnected
                     else EClear (STrigger SvrAuction) MevShareDisconnected
  | GGasKey _ _ _ => ENone
  | GSimChain p s c =>
      if s && c && (g_sim_chain_threshold g <=? bump_streak p (g_sim_chain_streak g))
      then EHalt (SProtocol p) SimChainDivergence else ENone
  | GCallback p r =>
      if negb r then EClear (SFlashProvider p) FlashCallbackRevertStreak else
      if g_callback_revert_threshold g <=? bump_streak p (g_callback_streak g)
      then EHalt (SFlashProvider p) FlashCallbackRevertStreak else ENone
  | GLiquidity a d t => if t <? d then EHalt (SAsset a) FlashLiquidityCollapse
                        else EClear (SAsset a) FlashLiquidityCollapse
  end.

(** Two gates with the same halts and the same action log. *)
Record same_halts (g g' : RiskGate) : Prop := {
  sh_global : g_global g = g_global g';
  sh_entry : forall s, entry_at g s = entry_at g' s;
  sh_actions : g_action_required g = g_action_required g'
}.

#[export] Instance same_halts_equiv : Equivalence same_halts.
Proof.
  split.
  - by intros g.
  - intros g g' [? ? ?]. by split.
  - intros g1 g2 g3 [? H2 ?] [? H3 ?]. split; [congruence| |congruence]. intros s. by rewrite H2.
Qed.

Lemma apply_halt_streaks g s r m a b :
  same_halts (apply_halt (with_streaks g a b) s r m) (apply_halt g s r m).
Proof. destruct s, r; by split. Qed.

Lemma halt_streaks g s r a b : same_halts (halt (with_streaks g a b) s r) (halt g s r).
Proof.
  unfold halt. destruct (normalize_scope s r (class_of r)) as [s'|]; [|by split].
  destruct (apply_halt_streaks g s' r 0 a b) as [Hg He Ha].
  destruct (class_of r); try done. split; cbn -[apply_halt]; [done| |by rewrite Ha].
  intros s0. specialize (He s0). destruct s0; exact He.
Qed.

Lemma step_effect g op : same_halts (gate_step g op) (apply_effect g (effect_of g op)).
Proof.
  destruct op as [s r|s r|s r|s r|p|lag| |a|age|k b f|p sp cr|p r|a d t]; cbn [gate_step effect_of apply_effect];
    try done.
  - destruct s, r; done.
  - unfold observe_node_lag. by destruct (2 <? lag).
  - unfold observe_mevshare. by destruct (60 <? age).
  - unfold observe_gas_key. destruct (b <? f); split; intros; try done; by destruct s.
  - unfold observe_sim_chain. destruct (sp && cr); cbn [negb andb]; [|split; [done|by intros []|done]].
    cbn [g_sim_chain_threshold with_streaks].
    destruct (g_sim_chain_threshold g <=? _); [apply halt_streaks|split; [done|by intros []|done]].
  - unfold observe_callback_revert. destruct r; cbn [negb].
    + cbn [g_callback_revert_threshold with_streaks].
      destruct (g_callback_revert_threshold g <=? _); [apply halt_streaks|split; [done|by intros []|done]].
    + split; [done|by intros []|done].
  - unfold observe_liquidity_collapse. by destruct (t <? d).
Qed.

(** ** Primitive effects, scope by scope *)

Lemma entry_at_apply_halt g s r m s' :
  entry_at (apply_halt g s r m) s' =
  if bool_decide (s = s' /\ s <> SGlobal) then Some r else entry_at g s'.
Proof.
  case_bool_decide as H.
  - destruct H as [-> Hs]. destruct s'; [done|cbn; by rewrite lookup_insert_eq..].
  - destruct s; [destruct r; by destruct s'|destruct s'; cbn; try done;
      rewrite lookup_insert_ne; [done|intros ->; by apply H]..].
Qed.

Lemma entry_at_halt g s r s' :
  entry_at (halt g s r) s' =
  if bool_decide (normalize_scope s r (class_of r) = Some s' /\ s' <> SGlobal)
  then Some r else entry_at g s'.
Proof.
  unfold halt. destruct (normalize_scope s r (class_of r)) as [s0|] eqn:En.
  2:{ by rewrite bool_decide_eq_false_2 by naive_solver. }
  assert (forall g' l, entry_at (with_actions g' l) s' = entry_at g' s') as Ha by (by destruct s').
  destruct (class_of r) eqn:Ec; [|cbv zeta; rewrite Ha|by destruct r];
    rewrite entry_at_apply_halt; rewrite (bool_decide_ext (s0 = s' /\ s0 <> SGlobal)
      (Some s0 = Some s' /\ s' <> SGlobal)); naive_solver.
Qed.

Lemma remove_entry_lookup `{Countable K} (k k' : K) r (m : gmap K HaltEntry) :
  he_reason <$> remove_entry k r m !! k' =
  if bool_decide (k = k' /\ he_reason <$> m !! k' = Some r) then None else he_reason <$> m !! k'.
Proof.
  unfold remove_entry. destruct (decide (k = k')) as [->|Hk].
  - destruct (m !! k') as [e|] eqn:E; cbn; [|rewrite E; by case_bool_decide].
    destruct (bool_decide_reflect (he_reason e = r)).
    + rewrite lookup_delete_eq. rewrite bool_decide_eq_true_2; [done|split; [done|by f_equal]].
    + rewrite E, bool_decide_eq_false_2; [done|]. intros [_ [= ?]]. done.
  - rewrite (bool_decide_eq_false_2 (k = k' /\ _)) by tauto.
    destruct (m !! k) as [e|]; [|done]. destruct (bool_decide _); [|done].
    by rewrite lookup_delete_ne.
Qed.

Lemma entry_at_remove g s r s' :
  entry_at (remove g s r) s' =
  if bool_decide (s = s' /\ entry_at g s' = Some r) then None else entry_at g s'.
Proof.
  destruct (decide (s = s')) as [->|Hs].
  - destruct s'; [by destruct r|..];
      cbn [remove entry_at with_protocols with_markets with_assets with_flash with_triggers
           g_protocols g_markets g_assets g_flash g_triggers];
      rewrite remove_entry_lookup; erewrite bool_decide_ext; [reflexivity|naive_solver..].
  - rewrite (bool_decide_eq_false_2 (s = s' /\ _)) by tauto.
    destruct s; [by destruct r, s'|..]; destruct s'; try done; cbn [remove entry_at with_protocols
      with_markets with_assets with_flash with_triggers g_protocols g_markets g_assets g_flash g_triggers];
      rewrite remove_entry_lookup, bool_decide_eq_false_2; try done; intros [-> _]; by apply Hs.
Qed.

Lemma entry_at_clear_auto g s r s' :
  entry_at (clear_auto g s r) s' =
  if bool_decide (class_of r = ClassA /\ s = s' /\ entry_at g s' = Some r) then None else entry_at g s'.
Proof.
  unfold clear_auto. destruct (bool_decide_reflect (class_of r = ClassA)).
  - rewrite entry_at_remove. erewrite bool_decide_ext; [reflexivity|naive_solver].
  - by rewrite bool_decide_eq_false_2 by naive_solver.
Qed.

Lemma entry_at_ship g s r s' :
  entry_at (clear_after_ship g s r) s' =
  if bool_decide (class_of r = ClassB /\ s = s' /\ entry_at g s' = Some r) then None else entry_at g s'.
Proof.
  unfold clear_after_ship. destruct (bool_decide_reflect (class_of r = ClassB)).
  - cbv zeta. assert (forall g' l, entry_at (with_actions g' l) s' = entry_at g' s') as -> by (by destruct s').
    rewrite entry_at_remove. erewrite bool_decide_ext; [reflexivity|naive_solver].
  - by rewrite bool_decide_eq_false_2 by naive_solver.
Qed.

Lemma actions_apply_halt g s r m : g_action_required (apply_halt g s r m) = g_action_required g.
Proof. by destruct s, r. Qed.

Lemma actions_remove g s r : g_action_required (remove g s r) = g_action_required g.
Proof. by destruct s, r. Qed.

Lemma actions_clear_auto g s r : g_action_required (clear_auto g s r) = g_action_required g.
Proof. unfold clear_auto. destruct (bool_decide _); [apply actions_remove|done]. Qed.

(** A line is on the action log for a scope and a reason. *)
Definition logged (g : RiskGate) (s : HaltScope) (r : HaltReason) : Prop :=
  exists a, a ∈ g_action_required g /\ ar_scope a = s /\ ar_reason a = r.

Lemma logged_halt g s r s' r' :
  logged (halt g s r) s' r' <->
  logged g s' r' \/ (r = r' /\ class_of r = ClassB /\ normalize_scope s r (class_of r) = Some s').
Proof.
  unfold halt, logged. destruct (normalize_scope s r (class_of r)) as [s0|] eqn:En; [|split; [by left|by intros [?|(_ & _ & ?)]]].
  destruct (class_of r) eqn:Ec; cbn -[apply_halt].
  - rewrite actions_apply_halt. split; [by left|by intros [?|(_ & ? & _)]].
  - rewrite actions_apply_halt. setoid_rewrite elem_of_app. setoid_rewrite list_elem_of_singleton.
    split.
    + intros (a & [Ha|Ha] & Hs & Hr); [left; eauto|]. right. subst a. cbn in *. naive_solver.
    + intros [(a & ? & ? & ?)|(-> & _ & [= ->])]; [by exists a; eauto|]. eexists. split; [by right|done].
  - by destruct r.
Qed.

Lemma logged_ship g s r s' r' :
  logged (clear_after_ship g s r) s' r' <->
  logged g s' r' /\ ~ (class_of r = ClassB /\ s = s' /\ r = r').
Proof.
  unfold clear_after_ship, logged. destruct (bool_decide_reflect (class_of r = ClassB)) as [Hc|Hc]; [|tauto].
  cbn. rewrite actions_remove. setoid_rewrite list_elem_of_In. setoid_rewrite filter_In.
  setoid_rewrite negb_true_iff. setoid_rewrite andb_false_iff. setoid_rewrite bool_decide_eq_false.
  split.
  - intros (a & [Ha Hn] & Hs & Hr). subst. split; [by exists a|]. naive_solver.
  - intros [(a & Ha & Hs & Hr) Hn]. subst. exists a. split; [|done]. split; [done|].
    destruct (decide (ar_scope a = s)) as [Es|]; [|by left]. right. intros Er. apply Hn. by rewrite Er.
Qed.

(** ** [allow] *)

Lemma allow_exact_aux g q :
  match allow g q with
  | AYes => Z.land (g_global g) G_NODE = 0 /\ Z.land (g_global g) G_REORG = 0 /\
            (forall s, hits q s -> entry_at g s = None) /\ g_keys g !! q_operator_key q = None
  | ADenied SGlobal r =>
      (r = NodeLag /\ Z.land (g_global g) G_NODE <> 0) \/
      (r = ReorgTooDeep /\ Z.land (g_global g) G_REORG <> 0) \/
      (he_reason <$> g_keys g !! q_operator_key q = Some r)
  | ADenied s r => hits q s /\ entry_at g s = Some r
  end.
Proof.
  unfold allow.
  destruct (Z.eqb_spec (Z.land (g_global g) G_NODE) 0) as [Hn|Hn]; cbn [negb]; [|by left].
  destruct (Z.eqb_spec (Z.land (g_global g) G_REORG) 0) as [Hr|Hr]; cbn [negb]; [|by right; left].
  destruct (g_protocols g !! q_protocol q) as [e|] eqn:E1; [by split; [|cbn; rewrite E1]|].
  destruct (g_markets g !! q_market q) as [e|] eqn:E2; [by split; [|cbn; rewrite E2]|].
  destruct (g_assets g !! q_debt q) as [e|] eqn:E3; [by split; [left|cbn; rewrite E3]|].
  destruct (g_assets g !! q_collateral q) as [e|] eqn:E4; [by split; [right|cbn; rewrite E4]|].
  destruct (g_flash g !! q_flash q) as [e|] eqn:E5; [by split; [|cbn; rewrite E5]|].
  destruct (g_triggers g !! q_trigger q) as [e|] eqn:E6; [by split; [|cbn; rewrite E6]|].
  destruct (g_keys g !! q_operator_key q) as [e|] eqn:E7; [by right; right|].
  do 2 (split; [done|]). split; [|done].
  intros [|p|m|a|f|t] Hh; cbn in Hh |- *; [done|subst; by rewrite E1|subst; by rewrite E2| |
    subst; by rewrite E5|subst; by rewrite E6].
  destruct Hh as [-> | ->]; by rewrite ?E3, ?E4.
Qed.

Lemma hit_denied g q s r : hits q s -> entry_at g s = Some r -> allow g q <> AYes.
Proof.
  intros Hh He E. pose proof (allow_exact_aux g q) as H. rewrite E in H.
  destruct H as (_ & _ & H & _). by rewrite (H s Hh) in He.
Qed.

(** ** Class B halts *)

(** The operations that can take a Class B halt off scope [s]: shipping a change for it, and
    raising a Class A halt over it (the map keeps one entry per scope). *)
Definition lifts (s : HaltScope) (op : GateOp) : bool :=
  match op with
  | GHalt s' r => bool_decide (class_of r = ClassA) &&
                  bool_decide (normalize_scope s' r ClassA = Some s)
  | GShip s' _ => bool_decide (s' = s)
  | GMevshare age => (60 <? age) && bool_decide (s = STrigger SvrAuction)
  | GCallback p reverted => reverted && bool_decide (s = SFlashProvider p)
  | GLiquidity a d t => (t <? d) && bool_decide (s = SAsset a)
  | _ => false
  end.

Definition held (g : RiskGate) (s : HaltScope) (r : HaltReason) : Prop :=
  (exists r', entry_at g s = Some r' /\ class_of r' = ClassB) /\ logged g s r.

Lemma effect_not_lifting g op s s' r' :
  lifts s op = false -> s <> SGlobal -> effect_of g op = EHalt s' r' ->
  normalize_scope s' r' (class_of r') = Some s -> class_of r' = ClassB.
Proof.
  intros Hl Hs He Hn. destruct op as [s0 r0|s0 r0|s0 r0|s0 r0|p|lag| |a|age|k b f|p sp cr|p rv|a d t];
    cbn [effect_of lifts] in He, Hl; try discriminate He.
  - injection He as -> ->. destruct (class_of r') eqn:Ec; [|done|by destruct r'].
    by rewrite !bool_decide_eq_true_2 in Hl.
  - by injection He as <- <-.
  - destruct (2 <? lag); [|done]. injection He as <- <-. by injection Hn as <-.
  - destruct (60 <? age); [|done]. injection He as <- <-. injection Hn as <-.
    by rewrite bool_decide_eq_true_2 in Hl.
  - destruct (sp && cr && _); [|done]. by injection He as <- <-.
  - destruct rv; cbn [negb] in He; [|done]. destruct (_ <=? _); [|done].
    injection He as <- <-. injection Hn as <-. by rewrite bool_decide_eq_true_2 in Hl.
  - destruct (t <? d); [|done]. injection He as <- <-. injection Hn as <-.
    by rewrite bool_decide_eq_true_2 in Hl.
Qed.

(** Only shipping a change takes a line off the log. *)
Lemma effect_ship g op s r : effect_of g op = EShip s r -> op = GShip s r.
Proof. destruct op; cbn; intros H; repeat case_match; simplify_eq; done. Qed.

Lemma logged_same g g' s r : same_halts g g' -> (logged g s r <-> logged g' s r).
Proof. intros [_ _ Ha]. unfold logged. by rewrite Ha. Qed.

Lemma held_step g op s r : lifts s op = false -> s <> SGlobal -> held g s r -> held (gate_step g op) s r.
Proof.
  intros Hl Hs ((r0 & He & Hc) & Hlog). destruct (step_effect g op) as [_ Hent Hact].
  unfold held. rewrite Hent. rewrite (logged_same _ _ s r (step_effect g op)).
  destruct (effect_of g op) as [|s' r'|s' r'|s' r'] eqn:Eff; cbn [apply_effect].
  - split; [by exists r0|done].
  - split; [|apply logged_halt; by left]. rewrite entry_at_halt. case_bool_decide as H; [|by exists r0].
    exists r'. split; [done|]. by eapply effect_not_lifting; [..|apply H].
  - split; [|unfold logged; rewrite actions_clear_auto; exact Hlog].
    rewrite entry_at_clear_auto. rewrite bool_decide_eq_false_2; [by exists r0|].
    intros (Hca & _ & E). congruence.
  - apply effect_ship in Eff as ->. cbn in Hl. apply bool_decide_eq_false in Hl.
    split; [|apply logged_ship; split; [done|by intros (_ & ? & _)]].
    rewrite entry_at_ship. rewrite bool_decide_eq_false_2; [by exists r0|]. by intros (_ & ? & _).
Qed.

Lemma held_run g ops s r :
  Forall (fun op => lifts s op = false) ops -> s <> SGlobal -> held g s r -> held (gate_run g ops) s r.
Proof.
  intros Hops Hs. revert g. induction Hops as [|op ops Hop _ IH]; intros g Hg; [done|].
  apply IH. by apply held_step.
Qed.

(** C31. A Class B halt holds until a change is shipped: once raised on a scope, every
    submission under that scope is denied, and the line stays on the action log, through
    any later operations of the gate (automatic clears of every kind included), as long as
    none of them ships a change for the scope or raises a Class A halt over it. *)
Theorem class_b_holds_until_shipped (g : RiskGate) (s : HaltScope) (r : HaltReason)
    (ops : list GateOp) (q : AllowQuery)
    (Hb : class_of r = ClassB) (Hs : s <> SGlobal)
    (Hops : Forall (fun op => lifts s op = false) ops) (Hq : hits q s) :
  allow (gate_run (halt g s r) ops) q <> AYes /\ logged (gate_run (halt g s r) ops) s r.
Proof.
  assert (normalize_scope s r (class_of r) = Some s) as Hn.
  { rewrite Hb. unfold normalize_scope. rewrite (bool_decide_eq_false_2 (s = SGlobal)) by done.
    rewrite andb_false_r. by destruct r. }
  assert (held (halt g s r) s r) as Hh.
  { split; [|apply logged_halt; by right]. exists r. split; [|done].
    by rewrite entry_at_halt, bool_decide_eq_true_2. }
  destruct (held_run _ ops s r Hops Hs Hh) as ((r' & He & _) & Hlog).
  split; [by eapply hit_denied|done].
Qed.

Definition sample_query : AllowQuery := mkQuery 3 7%nat 11 12 FMorpho OraclePublic 99.

Lemma class_b_holds_until_shipped_witness :
  let ops := [GClearAuto (SProtocol 3) DriftMismatch; GClear (SProtocol 3) AdapterPanic;
              GSimChain 3 false true; GOperatorHalt 3; GNodeLag 0; GShip (SProtocol 4) DriftMismatch] in
  allow (gate_run (halt gate_new (SProtocol 3) DriftMismatch) ops) sample_query <> AYes /\
  logged (gate_run (halt gate_new (SProtocol 3) DriftMismatch) ops) (SProtocol 3) DriftMismatch.
Proof.
  apply class_b_holds_until_shipped; [reflexivity|discriminate| |reflexivity].
  repeat constructor.
Defined.

(** Halting a scope and clearing it touch neither the global bits nor the keys. *)
Lemma scoped_halt_frame g s s' r :
  s' <> SGlobal -> normalize_scope s r ClassA = Some s' -> class_of r = ClassA ->
  g_global (clear_auto (halt g s r) s' r) = g_global g /\ g_keys (clear_auto (halt g s r) s' r) = g_keys g.
Proof.
  intros Hs Hn Hc. unfold clear_auto, halt. rewrite Hc, Hn, bool_decide_eq_true_2 by done. by destruct s'.
Qed.

(** C38. A Class A halt raised over a Class B one loses it. Whatever Class B halt stands on a scope
    of any gate, through any operations that do not lift it, and whatever Class A reason is
    then raised on the same scope and automatically cleared: the scope's one entry was
    overwritten, so the clear leaves the scope with no halt at all, although the action log
    still lists the Class B line and nothing was shipped. Every other scope is as it was, and
    a query denied before for that scope alone is allowed. *)
Theorem class_a_clear_lifts_class_b (g : RiskGate) (s s' : HaltScope) (rb ra : HaltReason)
    (ops : list GateOp) (q : AllowQuery)
    (Hb : class_of rb = ClassB) (Hs : s <> SGlobal) (Hops : Forall (fun op => lifts s op = false) ops)
    (Ha : class_of ra = ClassA) (Hn : normalize_scope s' ra ClassA = Some s) :
  let g1 := gate_run (halt g s rb) ops in
  let g2 := gate_run g1 [GHalt s' ra; GClearAuto s ra] in
  (hits q s -> allow g1 q <> AYes) /\
  entry_at g2 s = None /\ logged g2 s rb /\
  (forall t, t <> s -> entry_at g2 t = entry_at g1 t) /\
  (Z.land (g_global g1) G_NODE = 0 -> Z.land (g_global g1) G_REORG = 0 ->
   g_keys g1 !! q_operator_key q = None -> (forall t, hits q t -> t <> s -> entry_at g1 t = None) ->
   allow g2 q = AYes).
Proof.
  intros g1 g2. assert (held g1 s rb) as ((r & He & _) & Hlog).
  { apply held_run; [done..|]. unfold held. rewrite entry_at_halt, logged_halt.
    assert (normalize_scope s rb (class_of rb) = Some s) as Hnb.
    { rewrite Hb. unfold normalize_scope. rewrite (bool_decide_eq_false_2 (s = SGlobal)), andb_false_r by done.
      by destruct rb. }
    rewrite bool_decide_eq_true_2 by done. split; [by exists rb|by right]. }
  change g2 with (clear_auto (halt g1 s' ra) s ra).
  assert (forall t, entry_at (clear_auto (halt g1 s' ra) s ra) t = if bool_decide (t = s) then None else entry_at g1 t) as Ht.
  { intros t. rewrite entry_at_clear_auto, entry_at_halt, Ha, Hn. destruct (decide (t = s)) as [->|Hne].
    - by rewrite !(bool_decide_eq_true_2 (_ /\ _)), bool_decide_eq_true_2 by (rewrite ?bool_decide_eq_true_2; done).
    - rewrite (bool_decide_eq_false_2 (t = s)), !bool_decide_eq_false_2 by naive_solver. done. }
  split; [intros Hq; by eapply hit_denied|]. split; [by rewrite Ht, bool_decide_eq_true_2|].
  split; [unfold logged; rewrite actions_clear_auto; apply logged_halt; by left|].
  split; [intros t Hne; by rewrite Ht, bool_decide_eq_false_2|].
  intros H1 H2 H3 H4. destruct (scoped_halt_frame g1 s' s ra Hs Hn Ha) as [Eg Ek].
  pose proof (allow_exact_aux (clear_auto (halt g1 s' ra) s ra) q) as H. rewrite Eg, Ek, H3 in H.
  destruct (allow _ q) as [|t r']; [done|]. exfalso.
  assert (hits q t -> entry_at (clear_auto (halt g1 s' ra) s ra) t = None) as Hnone.
  { intros Hh. rewrite Ht. case_bool_decide; [done|by apply H4]. }
  destruct t; [destruct H as [[_ H]|[[_ H]|H]]; done|..]; destruct H as [Hh H]; by rewrite (Hnone Hh) in H.
Qed.

(** After a source migration halts an asset, and through a drift check that passes, the asset
    goes stale and fresh again: submissions on it are allowed. *)
Lemma class_a_clear_lifts_class_b_witness :
  let g1 := gate_run (halt gate_new (SAsset 11) ProxyUpgrade) [GNodeLag 0; GClearAuto (SAsset 11) ProxyUpgrade] in
  let g2 := gate_run g1 [GHalt (SAsset 11) OracleStale; GClearAuto (SAsset 11) OracleStale] in
  allow g1 sample_query <> AYes /\ allow g2 sample_query = AYes /\ logged g2 (SAsset 11) ProxyUpgrade.
Proof.
  destruct (class_a_clear_lifts_class_b gate_new (SAsset 11) (SAsset 11) ProxyUpgrade OracleStale
    [GNodeLag 0; GClearAuto (SAsset 11) ProxyUpgrade] sample_query) as (H1 & _ & H2 & _ & H3);
    [reflexivity|discriminate|repeat constructor|reflexivity|reflexivity|].
  split; [apply H1; cbn; auto|]. split; [|exact H2]. apply H3; [reflexivity..|].
  intros [| | |a| |] Hh Hne; cbn in Hh |- *; try done.
  assert (a = 12) as -> by (destruct Hh as [-> | ->]; done). reflexivity.
Defined.

(** ** The action log *)

Record log_ok (g : RiskGate) : Prop := {
  lo_entry : forall s r, entry_at g s = Some r -> class_of r = ClassB -> logged g s r;
  lo_clean : forall s r, logged g s r -> class_of r = ClassB /\ s <> SGlobal;
  lo_keys : forall k e, g_keys g !! k = Some e -> he_reason e = GasWalletBelowFloor
}.

Lemma keys_step g op k e :
  g_keys (gate_step g op) !! k = Some e -> he_reason e = GasWalletBelowFloor \/ g_keys g !! k = Some e.
Proof.
  assert (forall g s r, g_keys (halt g s r) = g_keys g) as Hh by (by intros ? [] []).
  assert (forall g s r, g_keys (clear_auto g s r) = g_keys g) as Hc by (by intros ? [] []).
  destruct op as [s0 r0|s0 r0|s0 r0|s0 r0|p|lag| |a|age|k0 b f|p sp cr|p rv|a d t]; cbn [gate_step].
  1,3: rewrite ?Hh, ?Hc; by right.
  1,2: destruct s0, r0; by right.
  - unfold operator_halt. rewrite Hh. by right.
  - unfold observe_node_lag. destruct (2 <? lag); rewrite ?Hh, ?Hc; by right.
  - by right.
  - by right.
  - unfold observe_mevshare. destruct (60 <? age); rewrite ?Hh, ?Hc; by right.
  - unfold observe_gas_key. destruct (b <? f); cbn.
    + rewrite lookup_insert_Some. intros [[_ <-]|[_ ?]]; [by left|by right].
    + rewrite lookup_delete_Some. intros [_ ?]. by right.
  - unfold observe_sim_chain. destruct (sp && cr); cbn [negb]; [|by right].
    cbv zeta. destruct (_ <=? _); rewrite ?Hh; by right.
  - unfold observe_callback_revert. destruct rv; cbn [negb]; [|rewrite Hc; by right].
    cbv zeta. destruct (_ <=? _); rewrite ?Hh; by right.
  - unfold observe_liquidity_collapse. destruct (t <? d); rewrite ?Hh, ?Hc; by right.
Qed.

Lemma normalize_not_global s r s' :
  class_of r = ClassB -> normalize_scope s r (class_of r) = Some s' -> s' <> SGlobal.
Proof.
  intros Hb Hn ->. rewrite Hb in Hn. unfold normalize_scope in Hn.
  destruct (bool_decide_reflect (s = SGlobal)); rewrite ?andb_false_r in Hn; destruct r; by simplify_eq.
Qed.

Lemma log_ok_step g op : log_ok g -> log_ok (gate_step g op).
Proof.
  intros [He Hc Hk]. destruct (step_effect g op) as [_ Hent Hact]. split.
  - intros s r. rewrite Hent, (logged_same _ _ s r (step_effect g op)).
    destruct (effect_of g op) as [|s' r'|s' r'|s' r']; cbn [apply_effect]; [by apply He|..].
    + rewrite entry_at_halt, logged_halt. case_bool_decide as H; [|by left; apply He].
      intros [= <-] Hb. right. by destruct H.
    + rewrite entry_at_clear_auto. case_bool_decide; [done|]. unfold logged.
      rewrite actions_clear_auto. apply He.
    + rewrite entry_at_ship, logged_ship. case_bool_decide as H; [done|]. intros Er Hb.
      split; [by apply He|]. intros (? & -> & ->). by apply H.
  - intros s r. rewrite (logged_same _ _ s r (step_effect g op)).
    destruct (effect_of g op) as [|s' r'|s' r'|s' r']; cbn [apply_effect]; [apply Hc|..].
    + rewrite logged_halt. intros [?|(<- & Hb & Hn)]; [by apply Hc|].
      split; [done|]. by eapply normalize_not_global.
    + unfold logged. rewrite actions_clear_auto. apply Hc.
    + rewrite logged_ship. intros [? _]. by apply Hc.
  - intros k e [?|?]%keys_step; [done|by eapply Hk].
Qed.

Lemma log_ok_run g ops : log_ok g -> log_ok (gate_run g ops).
Proof. revert g. induction ops as [|op ops IH]; intros g Hg; [done|]. by apply IH, log_ok_step. Qed.

Lemma log_ok_new : log_ok gate_new.
Proof.
  split; [intros [] r; cbn; by rewrite ?lookup_empty| |intros k e; cbn; by rewrite lookup_empty].
  intros s r (a & Ha & _). by apply elem_of_nil in Ha.
Qed.

(** The action log is complete and clean on every run of the gate: a denial for a Class B
    reason always has its line on the log, and the log only ever holds Class B reasons on
    scopes narrower than Global. *)
Theorem action_log_complete (ops : list GateOp) (q : AllowQuery) :
  let g := gate_run gate_new ops in
  (forall s r, allow g q = ADenied s r -> class_of r = ClassB -> logged g s r) /\
  (forall s r, logged g s r -> class_of r = ClassB /\ s <> SGlobal).
Proof.
  intros g. destruct (log_ok_run gate_new ops log_ok_new) as [He Hc Hk]. split; [|exact Hc].
  intros s r Hd Hb. pose proof (allow_exact_aux g q) as H. rewrite Hd in H.
  destruct s; [|by apply He; [apply H|]..].
  destruct H as [[-> _]|[[-> _]|H]]; [done|done|].
  apply fmap_Some in H as (e & Hkey & ->). by rewrite (Hk _ _ Hkey) in Hb.
Qed.
