(* ===== verification/Flash.v ===== *)
(** Flash-loan liquidity: routes ([crates/liq-protocol/src/flash.rs]), the per-asset index
    and its haircut ([crates/liq-flash/src/index.rs]), effective-cost ranking
    ([crates/liq-flash/src/select.rs]) and the cascade planner
    ([crates/liq-flash/src/cascade.rs]).

    A [FlashSource] trait object is a record of its methods. [U256] amounts are [Z]; the
    slice sorts are a stable insertion sort (the [sort_unstable_by_key] of [refresh] may
    order equal keys differently, and no statement below depends on that order). *)

From S2P Require Import Prelude Fixed Types Halt.
From stdpp Require Import sorting.
Local Open Scope Z_scope.

(** ** Routes *)

Inductive CallbackShape :=
  | AaveExecuteOperation | UniV3FlashCallback | UniV4UnlockCallback | MorphoFlashCallback
  | SkyDssOnFlashLoan | Direct | UniV3SwapCallback.

#[export] Instance CallbackShape_eq_dec : EqDecision CallbackShape.
Proof. solve_decision. Defined.

Definition CALLBACK_ALL : list CallbackShape :=
  [AaveExecuteOperation; UniV3FlashCallback; UniV4UnlockCallback; MorphoFlashCallback;
   SkyDssOnFlashLoan; Direct; UniV3SwapCallback].

Definition callback_provider (c : CallbackShape) : FlashProvider :=
  match c with
  | AaveExecuteOperation => FAave
  | UniV3FlashCallback => FUniV3
  | UniV4UnlockCallback => FUniV4
  | MorphoFlashCallback => FMorpho
  | SkyDssOnFlashLoan => FSkyDss
  | Direct => FNone
  | UniV3SwapCallback => FUniV3Swap
  end.

Record FlashRoute := mkRoute {
  fr_provider : FlashProvider;
  fr_source : Address;
  fr_asset : AssetId;
  fr_amount : Z;
  fr_fee_bps : Z;
  fr_callback : CallbackShape
}.

(** [trait FlashSource], the methods the index reads. *)
Record FlashSource := mkSource {
  fs_provider : FlashProvider;
  fs_source : Address;
  fs_available : AssetId -> Z;
  fs_fee_bps : AssetId -> Z -> Z;
  fs_callback : CallbackShape;
  fs_gas_overhead : Z
}.

(** ** The index *)

Definition BPS : Z := 10000.

Record SourceEntry := mkEntry {
  se_available : Z;
  se_source : Address;
  se_gas_overhead : Z;
  se_fee_bps : Z;
  se_provider : FlashProvider;
  se_callback : CallbackShape
}.

Definition route (e : SourceEntry) (asset : AssetId) (amount : Z) : FlashRoute :=
  mkRoute (se_provider e) (se_source e) asset amount (se_fee_bps e) (se_callback e).

(** [Haircut]: basis points kept, at most 100 %. *)
Record Haircut := mkHaircut { hc_bps : Z }.

Definition HAIRCUT_NONE : Haircut := mkHaircut 10000.

Definition from_bps (bps : Z) : option Haircut :=
  if 10000 <? bps then None else Some (mkHaircut bps).

Definition haircut_apply (h : Haircut) (available : Z) : Z :=
  match mul_div available (hc_bps h) BPS Down with Ok v => v | Err _ => 0 end.

Definition gross_up (h : Haircut) (amount : Z) : option Z :=
  match mul_div amount BPS (hc_bps h) Up with Ok v => Some v | Err _ => None end.

Record FlashIndex := mkIndex {
  by_asset : list (list SourceEntry);
  max_available : list Z
}.

Definition index_new (assets : nat) : FlashIndex :=
  mkIndex (replicate assets []) (replicate assets 0).

Definition available (idx : FlashIndex) (asset : AssetId) : Z :=
  default 0 (max_available idx !! Z.to_nat asset).

Definition entries (idx : FlashIndex) (asset : AssetId) : list SourceEntry :=
  default [] (by_asset idx !! Z.to_nat asset).

Definition best_route (idx : FlashIndex) (debt : AssetId) (amount : Z) (haircut : Haircut)
    : option FlashRoute :=
  if amount =? 0 then None else
  let! depth := gross_up haircut amount in
  if available idx debt <? depth then None else
  let! e := List.find (fun e => depth <=? se_available e) (entries idx debt) in
  Some (route e debt amount).

(** A slice sort by a key: stable insertion sort. *)
Fixpoint insert_by {A} (leb : A -> A -> bool) (x : A) (l : list A) : list A :=
  match l with
  | [] => [x]
  | y :: l' => if leb x y then x :: l else y :: insert_by leb x l'
  end.

Definition sort_by {A} (leb : A -> A -> bool) (l : list A) : list A :=
  foldr (insert_by leb) [] l.

(** The key [(fee_bps, gas_overhead, Reverse(available))]. *)
Definition entry_key_leb (x y : SourceEntry) : bool :=
  (se_fee_bps x <? se_fee_bps y) ||
  ((se_fee_bps x =? se_fee_bps y) &&
    ((se_gas_overhead x <? se_gas_overhead y) ||
     ((se_gas_overhead x =? se_gas_overhead y) && (se_available y <=? se_available x)))).

(** The body of [refresh]'s inner loop: push the source's entry and track the maximum. *)
Definition refresh_source (asset : AssetId) (st : list SourceEntry * Z) (s : FlashSource)
    : list SourceEntry * Z :=
  let '(row, mx) := st in
  let available := fs_available s asset in
  if available =? 0 then (row, mx) else
  let row := row ++ [mkEntry available (fs_source s) (fs_gas_overhead s)
                       (fs_fee_bps s asset available) (fs_provider s) (fs_callback s)] in
  (row, if mx <? available then available else mx).

Definition refresh_row (sources : list FlashSource) (i : nat) : list SourceEntry * Z :=
  match try_from_nat 16 i with
  | None => ([], 0)
  | Some id =>
      let '(row, mx) := fold_left (refresh_source (Z.of_nat id)) sources ([], 0) in
      (sort_by entry_key_leb row, mx)
  end.

(** [refresh]: the zip of the two vectors, each row and maximum rewritten in place. *)
Definition refresh (idx : FlashIndex) (sources : list FlashSource) : FlashIndex :=
  mkIndex
    (imap (fun i row => if (i <? length (max_available idx))%nat
                        then fst (refresh_row sources i) else row) (by_asset idx))
    (imap (fun i mx => if (i <? length (by_asset idx))%nat
                       then snd (refresh_row sources i) else mx) (max_available idx)).

Definition moved (threshold a b : Z) : bool :=
  match mul_div b threshold BPS Down with
  | Ok lim => lim <? Z.abs (a - b)
  | Err _ => false
  end.

Definition entry_differs (threshold : Z) (x y : SourceEntry) : bool :=
  negb (bool_decide (se_provider x = se_provider y)) ||
  negb (se_source x =? se_source y) ||
  negb (se_fee_bps x =? se_fee_bps y) ||
  negb (se_gas_overhead x =? se_gas_overhead y) ||
  negb (bool_decide (se_callback x = se_callback y)) ||
  moved threshold (se_available x) (se_available y).

Definition differs_materially (self published : FlashIndex) (threshold_bps : Z) : bool :=
  negb (length (by_asset self) =? length (by_asset published))%nat ||
  existsb (fun '(a, b) => negb (length a =? length b)%nat ||
             existsb (fun '(x, y) => entry_differs threshold_bps x y) (zip a b))
    (zip (by_asset self) (by_asset published)).

(** [publish_if_material]: the slot readers load from, and whether it was stored to. *)
Definition publish_if_material (self slot : FlashIndex) (threshold_bps : Z) : FlashIndex * bool :=
  if negb (differs_materially self slot threshold_bps) then (slot, false) else (self, true).

(** ** Ranking by effective cost *)

Record CostModel := mkCost { cm_gas_price_in_debt : Z; cm_failure_premium_gas : list Z }.

Definition FEE_ONLY : CostModel := mkCost 0 (replicate 7 0).

Definition premium (m : CostModel) (p : FlashProvider) : option Z :=
  cm_failure_premium_gas m !! Z.to_nat (flash_u8 p).

Definition ok_opt {E A} (r : Result E A) : option A :=
  match r with Ok a => Some a | Err _ => None end.

Definition fee_amount (provider : FlashProvider) (amount fee_bps : Z) : option Z :=
  if fee_bps =? 0 then Some 0 else
  match provider with
  | FAave =>
      let! bound := checked_div (umax 256) fee_bps in
      if bound <? amount then None else ok_opt (mul_div amount fee_bps BPS Up)
  | FUniV3 => ok_opt (mul_div amount fee_bps BPS Up)
  | FSkyDss => ok_opt (mul_div amount fee_bps BPS Down)
  | FUniV4 | FMorpho | FNone | FUniV3Swap => None
  end.

Definition effective_cost (e : SourceEntry) (notional : Z) (m : CostModel) : option Z :=
  let! fee := fee_amount (se_provider e) notional (se_fee_bps e) in
  let! p := premium m (se_provider e) in
  let! gas := checked_add 64 (se_gas_overhead e) p in
  let! g := checked_mul 256 gas (cm_gas_price_in_debt m) in
  checked_add 256 fee g.

Definition fallback_chain (idx : FlashIndex) (debt : AssetId) (need : Z) (haircut : Haircut)
    (m : CostModel) : list FlashRoute :=
  if need =? 0 then [] else
  match gross_up haircut need with
  | None => []
  | Some depth =>
      let ranked := omap (fun e => let! c := effective_cost e need m in Some (c, route e debt need))
                      (List.filter (fun e => depth <=? se_available e) (entries idx debt)) in
      List.map snd (sort_by (fun x y => fst x <=? fst y) ranked)
  end.

(** ** The cascade planner *)

Definition MAX_GROUPS : nat := 3.
Definition MAX_CANDIDATES : nat := 8.

Definition planable (available : Z) : Z :=
  match mul_div available 99 100 Down with Ok v => v | Err _ => 0 end.

Record Cascade := mkCascade { ca_groups : list FlashRoute; ca_funded : Z; ca_cost : Z }.

Record Cand := mkCand { cd_planable : Z; cd_entry : SourceEntry }.

Fixpoint fill_loop (subset : list Cand) (debt : AssetId) (m : CostModel)
    (remaining cost : Z) (groups : list FlashRoute) : option (Z * Z * list FlashRoute) :=
  match subset with
  | [] => Some (remaining, cost, groups)
  | c :: rest =>
      let take := Z.min (cd_planable c) remaining in
      if take =? 0 then None else
      let! ec := effective_cost (cd_entry c) take m in
      let! cost := checked_add 256 cost ec in
      let! remaining := checked_sub remaining take in
      fill_loop rest debt m remaining cost (groups ++ [route (cd_entry c) debt take])
  end.

Definition fill (subset : list Cand) (debt : AssetId) (need : Z) (m : CostModel) : option Cascade :=
  let! (remaining, cost, groups) := fill_loop subset debt m need 0 [] in
  let! funded := checked_sub need remaining in
  Some (mkCascade groups funded cost).

(** [for_each_subset]: the calls of its closure, in order. *)
Fixpoint for_each_subset (pick cands : list Cand) : list (list Cand) :=
  match cands with
  | [] => []
  | c :: tail =>
      (pick ++ [c]) ::
      (if (length (pick ++ [c]) <? MAX_GROUPS)%nat then for_each_subset (pick ++ [c]) tail else []) ++
      for_each_subset pick tail
  end.

Definition better_partial (c b : Cascade) : bool :=
  (ca_funded b <? ca_funded c) ||
  ((ca_funded c =? ca_funded b) &&
    ((ca_cost c <? ca_cost b) ||
     ((ca_cost c =? ca_cost b) && (length (ca_groups c) <? length (ca_groups b))%nat))).

(** The closure of [plan]: the cheapest feasible plan per group count, and the best partial. *)
Definition plan_visit (debt : AssetId) (need : Z) (m : CostModel)
    (st : list (option Cascade) * option Cascade) (subset : list Cand)
    : list (option Cascade) * option Cascade :=
  let '(feasible, partial) := st in
  match fill subset debt need m with
  | None => st
  | Some c =>
      if ca_funded c <? need then
        match partial with
        | None => (feasible, Some c)
        | Some b => if better_partial c b then (feasible, Some c) else st
        end
      else
        let k := Z.to_nat (wrapping_sub 64 (Z.of_nat (length (ca_groups c))) 1) in
        match feasible !! k with
        | None => st
        | Some None => (<[k := Some c]> feasible, partial)
        | Some (Some b) => if ca_cost c <? ca_cost b then (<[k := Some c]> feasible, partial) else st
        end
  end.

Definition candidates (idx : FlashIndex) (debt : AssetId) : list Cand :=
  take MAX_CANDIDATES
    (List.filter (fun c => negb (cd_planable c =? 0))
       (List.map (fun e => mkCand (planable (se_available e)) e) (entries idx debt))).

Fixpoint min_cost_of (l : list Cascade) : option Z :=
  match l with
  | [] => None
  | c :: l' => match min_cost_of l' with
               | None => Some (ca_cost c)
               | Some x => Some (Z.min (ca_cost c) x)
               end
  end.

(** How much dearer a plan with fewer groups may be. *)
Definition close_margin (need close_bps : Z) : Z :=
  match mul_div need close_bps BPS Down with Ok v => v | Err _ => 0 end.

Definition plan (idx : FlashIndex) (debt : AssetId) (need : Z) (m : CostModel) (close_bps : Z)
    : option Cascade :=
  if need =? 0 then None else
  let cands := candidates idx debt in
  let '(feasible, partial) :=
    fold_left (plan_visit debt need m) (for_each_subset [] cands) ([None; None; None], None) in
  let flat := omap id feasible in
  match min_cost_of flat with
  | None => partial
  | Some min_cost =>
      let margin := close_margin need close_bps in
      let limit := default (umax 256) (checked_add 256 min_cost margin) in
      List.find (fun c => ca_cost c <=? limit) flat
  end.

(** ** Sorting *)

Section SortBy.
Context {A : Type} (leb : A -> A -> bool).
Hypothesis leb_total : forall x y, leb x y = true \/ leb y x = true.
Hypothesis leb_trans : forall x y z, leb x y = true -> leb y z = true -> leb x z = true.

Lemma insert_by_perm x l : insert_by leb x l ≡ₚ x :: l.
Proof.
  induction l as [|y l IH]; simpl; [done|]. destruct (leb x y); [done|].
  rewrite IH. apply perm_swap.
Qed.

Lemma sort_by_perm l : sort_by leb l ≡ₚ l.
Proof. induction l as [|x l IH]; simpl; [done|]. by rewrite insert_by_perm, IH. Qed.

Lemma insert_by_sorted x l :
  StronglySorted (fun a b => leb a b = true) l ->
  StronglySorted (fun a b => leb a b = true) (insert_by leb x l).
Proof.
  induction 1 as [|y l Hs IH Hall]; simpl; [by repeat constructor|].
  destruct (leb x y) eqn:E.
  - constructor; [by constructor|]. constructor; [done|].
    eapply Forall_impl; [exact Hall|]. intros z Hz. by apply leb_trans with y.
  - constructor; [done|]. rewrite insert_by_perm. constructor; [|done].
    destruct (leb_total x y); congruence.
Qed.

Lemma sort_by_sorted l : StronglySorted (fun a b => leb a b = true) (sort_by leb l).
Proof. induction l as [|x l IH]; simpl; [constructor|by apply insert_by_sorted]. Qed.
End SortBy.

Lemma find_first_least {A} (leb : A -> A -> bool) (p : A -> bool) l x :
  StronglySorted (fun a b => leb a b = true) l -> (forall a, leb a a = true) ->
  List.find p l = Some x ->
  x ∈ l /\ p x = true /\ forall y, y ∈ l -> p y = true -> leb x y = true.
Proof.
  intros Hs Hr. induction Hs as [|a l Hs IH Hall]; simpl; [done|].
  destruct (p a) eqn:E.
  - intros [= ->]. split; [left|]. split; [done|]. intros y [->|Hy]%elem_of_cons _; [done|].
    rewrite Forall_forall in Hall. by apply Hall.
  - intros (Hx & Hp & Hy)%IH. split; [by right|]. split; [done|].
    intros y [->|Hin]%elem_of_cons Hpy; [congruence|by apply Hy].
Qed.

Lemma find_None_all {A} (p : A -> bool) l :
  List.find p l = None <-> forall y, y ∈ l -> p y = false.
Proof.
  induction l as [|a l IH]; simpl; [split; [by intros _ y ?%elem_of_nil|done]|].
  destruct (p a) eqn:E.
  - split; [done|]. intros H. rewrite (H a) in E; [done|left].
  - rewrite IH. split; [|intros H y Hy; apply H; by right].
    intros H y [->|Hy]%elem_of_cons; [done|by apply H].
Qed.

Lemma entry_key_leb_spec x y :
  entry_key_leb x y = true <->
  se_fee_bps x < se_fee_bps y \/ (se_fee_bps x = se_fee_bps y /\
    (se_gas_overhead x < se_gas_overhead y \/
     (se_gas_overhead x = se_gas_overhead y /\ se_available y <= se_available x))).
Proof.
  unfold entry_key_leb. rewrite !orb_true_iff, !andb_true_iff, !orb_true_iff, !andb_true_iff.
  rewrite !Z.ltb_lt, !Z.eqb_eq, Z.leb_le. tauto.
Qed.

Lemma entry_key_total x y : entry_key_leb x y = true \/ entry_key_leb y x = true.
Proof. rewrite !entry_key_leb_spec. lia. Qed.

Lemma entry_key_trans x y z :
  entry_key_leb x y = true -> entry_key_leb y z = true -> entry_key_leb x z = true.
Proof. rewrite !entry_key_leb_spec. lia. Qed.

(** ** Haircut *)

Definition haircut_ok (h : Haircut) : Prop := 0 <= hc_bps h <= 10000.

Lemma haircut_apply_eq h a :
  haircut_ok h -> uint_ok 256 a -> haircut_apply h a = a * hc_bps h / BPS.
Proof.
  intros [Hb Hb'] [Ha Ha']. unfold haircut_apply, BPS in *.
  assert (a * hc_bps h / 10000 <= a) by (apply Z.div_le_upper_bound; nia).
  rewrite (proj2 (mul_div_Ok a (hc_bps h) 10000 Down (a * hc_bps h / 10000) ltac:(done)
    ltac:(split; [lia|unfold umax; lia]) ltac:(split; [lia|unfold umax; lia]))); [done|].
  split; [lia|]. split; [done|lia].
Qed.

Lemma gross_up_None h n :
  haircut_ok h -> uint_ok 256 n ->
  gross_up h n = None <-> hc_bps h = 0 \/ umax 256 < div_up (n * BPS) (hc_bps h).
Proof.
  intros [Hb Hb'] Hn. unfold gross_up.
  assert (uint_ok 256 BPS) by (unfold BPS; split; [lia|unfold umax; lia]).
  assert (uint_ok 256 (hc_bps h)) by (split; [lia|unfold umax; lia]).
  destruct (mul_div n BPS (hc_bps h) Up) as [v|e] eqn:E.
  - apply mul_div_Ok in E as (Hnz & -> & Hle); [|done..]. cbn [round_div] in Hle. split; [done|lia].
  - split; [intros _|done]. destruct (decide (hc_bps h = 0)); [by left|right].
    apply Z.nle_gt. intros Hle.
    pose proof (proj2 (mul_div_Ok n BPS (hc_bps h) Up (div_up (n * BPS) (hc_bps h))
      ltac:(done) ltac:(done) ltac:(done)) (conj n0 (conj eq_refl Hle))). congruence.
Qed.

Lemma gross_up_Some h n d :
  haircut_ok h -> uint_ok 256 n -> gross_up h n = Some d ->
  0 < hc_bps h /\ d = div_up (n * BPS) (hc_bps h).
Proof.
  intros [Hb Hb'] Hn. unfold gross_up.
  destruct (mul_div n BPS (hc_bps h) Up) as [v|e] eqn:E; [|done]. intros [= ->].
  apply mul_div_Ok in E as (Hnz & -> & Hle); [|done|unfold BPS; split; [lia|unfold umax; lia]|
    split; [lia|unfold umax; lia]]. split; [lia|done].
Qed.

(** Floor below and ceiling above are adjoint. *)
Lemma floor_ceil_adjoint a b n m : 0 < b -> 0 < m -> (n <= a * b / m <-> div_up (n * m) b <= a).
Proof.
  intros Hb Hm. pose proof (div_rem_spec (a * b) m Hm) as [Ea Hr].
  pose proof (div_up_spec (n * m) b Hb) as [Hu Hu']. split; intros H.
  - assert (n * m <= a * b) by nia. nia.
  - apply Z.div_le_lower_bound; nia.
Qed.

Lemma haircut_covers h a n :
  haircut_ok h -> uint_ok 256 a -> uint_ok 256 n -> n <> 0 ->
  (n <= haircut_apply h a <-> exists d, gross_up h n = Some d /\ d <= a).
Proof.
  intros Hh Ha Hn Hnz. rewrite haircut_apply_eq by done.
  destruct (gross_up h n) as [d|] eqn:E.
  - apply gross_up_Some in E as [Hb ->]; [|done..]. rewrite floor_ceil_adjoint by (unfold BPS; lia).
    naive_solver.
  - apply gross_up_None in E; [|done..]. split; [|naive_solver].
    intros H. exfalso. destruct E as [E|E].
    + rewrite E, Z.mul_0_r, Z.div_0_l in H by done. destruct Hn. lia.
    + destruct (decide (hc_bps h = 0)) as [E0|E0].
      { rewrite E0, Z.mul_0_r, Z.div_0_l in H by done. destruct Hn. lia. }
      apply floor_ceil_adjoint in H; [|destruct Hh; lia|unfold BPS; lia]. destruct Ha. lia.
Qed.

(** The two directions of the flash haircut are adjoint: a depth survives the haircut with
    at least [amount] left exactly when it reaches [gross_up amount], so the one grossed-up
    comparison per query decides the same sources as one haircut per source; an overflow or
    a 0 % haircut means no depth suffices. *)
Theorem haircut_adjoint (h : Haircut) (a n : Z)
    (Hh : 0 <= hc_bps h <= 10000) (Ha : uint_ok 256 a) (Hn : uint_ok 256 n) (Hnz : n <> 0) :
  (n <= haircut_apply h a <-> exists d, gross_up h n = Some d /\ d <= a) /\ haircut_apply h a <= a.
Proof.
  split; [by apply haircut_covers|]. rewrite haircut_apply_eq by done.
  apply Z.div_le_upper_bound; unfold BPS; destruct Ha; nia.
Qed.

Lemma haircut_adjoint_witness :
  (99 <= haircut_apply (mkHaircut 9900) 100 <-> exists d, gross_up (mkHaircut 9900) 99 = Some d /\ d <= 100) /\
  haircut_apply (mkHaircut 9900) 100 <= 100.
Proof. apply (haircut_adjoint (mkHaircut 9900) 100 99); cbn; unfold uint_ok, umax; lia. Defined.

(** ** The refreshed index *)

Definition entry_of (asset : AssetId) (s : FlashSource) : option SourceEntry :=
  let available := fs_available s asset in
  if available =? 0 then None else
  Some (mkEntry available (fs_source s) (fs_gas_overhead s) (fs_fee_bps s asset available)
          (fs_provider s) (fs_callback s)).

Lemma refresh_fold asset sources row mx :
  let '(row', mx') := fold_left (refresh_source asset) sources (row, mx) in
  row' = row ++ omap (entry_of asset) sources /\
  mx <= mx' /\ (forall e, e ∈ omap (entry_of asset) sources -> se_available e <= mx').
Proof.
  revert row mx. induction sources as [|s sources IH]; intros row mx; cbn [fold_left].
  { rewrite app_nil_r. split; [done|]. split; [lia|]. by intros e ?%elem_of_nil. }
  cbn [omap list_omap]. unfold refresh_source at 2.
  change (entry_of asset s) with (if fs_available s asset =? 0 then None else
    Some (mkEntry (fs_available s asset) (fs_source s) (fs_gas_overhead s)
      (fs_fee_bps s asset (fs_available s asset)) (fs_provider s) (fs_callback s))).
  destruct (Z.eqb_spec (fs_available s asset) 0) as [E|E]; [apply IH|].
  set (e := mkEntry _ _ _ _ _ _). set (mx1 := if mx <? _ then _ else mx).
  assert (mx <= mx1 /\ se_available e <= mx1) as [H1 H2]
    by (unfold mx1; cbn; destruct (Z.ltb_spec mx (fs_available s asset)); lia).
  specialize (IH (row ++ [e]) mx1). destruct (fold_left _ sources _) as [row' mx'].
  destruct IH as (-> & Hmx & Hall). split; [by rewrite <- app_assoc|]. split; [lia|].
  intros x [->|Hx]%elem_of_cons; [lia|by apply Hall].
Qed.

Lemma refresh_entries idx sources debt :
  length (by_asset idx) = length (max_available idx) ->
  (Z.to_nat debt < length (by_asset idx))%nat -> uint_ok 16 debt ->
  entries (refresh idx sources) debt ≡ₚ omap (entry_of debt) sources /\
  StronglySorted (fun x y => entry_key_leb x y = true) (entries (refresh idx sources) debt) /\
  (forall e, e ∈ entries (refresh idx sources) debt -> se_available e <= available (refresh idx sources) debt).
Proof.
  intros Hlen Hi [Hd Hd']. unfold entries, available, refresh. cbn [by_asset max_available].
  destruct (lookup_lt_is_Some_2 (by_asset idx) _ Hi) as [r0 Hr0].
  destruct (lookup_lt_is_Some_2 (max_available idx) (Z.to_nat debt)) as [m0 Hm0]; [lia|].
  rewrite !list_lookup_imap, Hr0, Hm0. cbn [fmap option_fmap option_map default].
  rewrite !(proj2 (Nat.ltb_lt _ _)) by lia. unfold refresh_row.
  rewrite (proj2 (try_from_nat_Some 16 _ (Z.to_nat debt))) by (split; [done|rewrite Z2Nat.id; lia]).
  rewrite Z2Nat.id by done.
  pose proof (refresh_fold debt sources [] 0) as H.
  destruct (fold_left _ sources _) as [row mx]. destruct H as (-> & _ & Hall). cbn [fst snd app].
  split; [apply sort_by_perm|]. split; [apply sort_by_sorted; [apply entry_key_total|apply entry_key_trans]|].
  intros e. rewrite sort_by_perm. apply Hall.
Qed.

Lemma elem_of_entry_of asset (sources : list FlashSource) e :
  e ∈ omap (entry_of asset) sources <->
  exists s, s ∈ sources /\ fs_available s asset <> 0 /\
    e = mkEntry (fs_available s asset) (fs_source s) (fs_gas_overhead s)
          (fs_fee_bps s asset (fs_available s asset)) (fs_provider s) (fs_callback s).
Proof.
  rewrite list_elem_of_omap. unfold entry_of. split.
  - intros (s & Hs & H). exists s. destruct (Z.eqb_spec (fs_available s asset) 0); naive_solver.
  - intros (s & Hs & Hnz & ->). exists s. split; [done|]. by destruct (Z.eqb_spec (fs_available s asset) 0).
Qed.

Lemma gross_up_pos h n d :
  haircut_ok h -> uint_ok 256 n -> n <> 0 -> gross_up h n = Some d -> 0 < d.
Proof.
  intros Hh Hn Hnz [Hb ->]%gross_up_Some; [|done..].
  pose proof (div_up_spec (n * BPS) (hc_bps h) Hb). unfold BPS in *. destruct Hn. nia.
Qed.

(** A source deep enough has its entry in the row. *)
Lemma covering_entry idx (sources : list FlashSource) debt s d :
  entries (refresh idx sources) debt ≡ₚ omap (entry_of debt) sources ->
  0 < d -> s ∈ sources -> d <= fs_available s debt ->
  exists e, e ∈ entries (refresh idx sources) debt /\ se_available e = fs_available s debt /\
    se_fee_bps e = fs_fee_bps s debt (fs_available s debt) /\ se_gas_overhead e = fs_gas_overhead s.
Proof.
  intros Hperm Hd Hs Hle. eexists. rewrite Hperm, elem_of_entry_of.
  split; [exists s; split; [done|]; split; [lia|done]|done].
Qed.

(** After a refresh, [best_route] answers from the live sources: it returns a source whose
    haircut depth covers the amount and that no other covering source beats on
    (fee, gas overhead), and it returns none exactly when no source covers the amount; the
    cached maximum and the grossed-up comparison never reject or admit differently. *)
Theorem best_route_is_cheapest (idx : FlashIndex) (sources : list FlashSource)
    (debt : AssetId) (amount : Z) (h : Haircut)
    (Hlen : length (by_asset idx) = length (max_available idx))
    (Hd : uint_ok 16 debt) (Hi : (Z.to_nat debt < length (by_asset idx))%nat)
    (Hh : 0 <= hc_bps h <= 10000) (Hn : uint_ok 256 amount) (Hnz : amount <> 0)
    (Hsrc : Forall (fun s => uint_ok 256 (fs_available s debt)) sources) :
  match best_route (refresh idx sources) debt amount h with
  | None => forall s, s ∈ sources -> haircut_apply h (fs_available s debt) < amount
  | Some r => exists s, s ∈ sources /\ amount <= haircut_apply h (fs_available s debt) /\
      let fee s := fs_fee_bps s debt (fs_available s debt) in
      r = mkRoute (fs_provider s) (fs_source s) debt amount (fee s) (fs_callback s) /\
      forall s', s' ∈ sources -> amount <= haircut_apply h (fs_available s' debt) ->
        fee s < fee s' \/ (fee s = fee s' /\ fs_gas_overhead s <= fs_gas_overhead s')
  end.
Proof.
  destruct (refresh_entries idx sources debt Hlen Hi Hd) as (Hperm & Hsort & Hmax).
  rewrite Forall_forall in Hsrc.
  assert (forall s, s ∈ sources -> (amount <= haircut_apply h (fs_available s debt) <->
    exists d, gross_up h amount = Some d /\ d <= fs_available s debt)) as Hcov.
  { intros s Hs. apply haircut_covers; try done. by apply Hsrc. }
  unfold best_route. rewrite (proj2 (Z.eqb_neq amount 0) Hnz).
  destruct (gross_up h amount) as [d|] eqn:Hg.
  2:{ intros s Hs. apply Z.nle_gt. rewrite Hcov by done. naive_solver. }
  pose proof (gross_up_pos h amount d Hh Hn Hnz Hg) as Hd0.
  pose proof (fun s => covering_entry idx sources debt s d Hperm Hd0) as Hent.
  assert (forall s, s ∈ sources -> (amount <= haircut_apply h (fs_available s debt) <->
    d <= fs_available s debt)) as Hc by (intros s Hs; rewrite Hcov by done; naive_solver).
  destruct (Z.ltb_spec (available (refresh idx sources) debt) d) as [Hlt|Hge].
  { intros s Hs. apply Z.nle_gt. rewrite Hc by done. intros Hle.
    destruct (Hent s Hs Hle) as (e & He & Ea & _). specialize (Hmax e He). lia. }
  destruct (List.find _ _) as [e|] eqn:Ef.
  - destruct (find_first_least entry_key_leb _ _ e Hsort
      ltac:(intros; apply entry_key_leb_spec; lia) Ef) as (He & Hde & Hleast).
    rewrite Hperm, elem_of_entry_of in He. destruct He as (s & Hs & Hs0 & ->).
    apply Z.leb_le in Hde. cbn in Hde. exists s. split; [done|]. split; [by apply Hc|].
    cbv zeta. split; [done|]. intros s' Hs' Hc'%Hc; [|done].
    destruct (Hent s' Hs' Hc') as (e' & He' & Ea & Ef' & Eg).
    specialize (Hleast e' He' ltac:(apply Z.leb_le; lia)). apply entry_key_leb_spec in Hleast. cbn in Hleast. lia.
  - intros s Hs. apply Z.nle_gt. rewrite Hc by done. intros Hle.
    destruct (Hent s Hs Hle) as (e & He & Ea & _).
    rewrite find_None_all in Ef. specialize (Ef e He). apply Z.leb_gt in Ef. lia.
Qed.

Definition sample_source (p : FlashProvider) (av fee gas : Z) : FlashSource :=
  mkSource p 1 (fun _ => av) (fun _ _ => fee) MorphoFlashCallback gas.

Lemma best_route_is_cheapest_witness :
  let sources := [sample_source FAave 5000 5 0; sample_source FMorpho 1000 0 7;
                  sample_source FUniV3 1000 0 3] in
  match best_route (refresh (index_new 4) sources) 2 990 (mkHaircut 9900) with
  | None => forall s, s ∈ sources -> haircut_apply (mkHaircut 9900) (fs_available s 2) < 990
  | Some r => exists s, s ∈ sources /\ 990 <= haircut_apply (mkHaircut 9900) (fs_available s 2) /\
      let fee s := fs_fee_bps s 2 (fs_available s 2) in
      r = mkRoute (fs_provider s) (fs_source s) 2 990 (fee s) (fs_callback s) /\
      forall s', s' ∈ sources -> 990 <= haircut_apply (mkHaircut 9900) (fs_available s' 2) ->
        fee s < fee s' \/ (fee s = fee s' /\ fs_gas_overhead s <= fs_gas_overhead s')
  end.
Proof.
  apply best_route_is_cheapest; [reflexivity|vm_compute; intuition discriminate|cbn; lia|
    cbn; lia|vm_compute; intuition discriminate|discriminate|].
  repeat constructor; vm_compute; discriminate.
Defined.

(** ** The cascade planner *)

Lemma elem_of_for_each_subset pick cands s :
  (length pick < MAX_GROUPS)%nat ->
  s ∈ for_each_subset pick cands <->
  exists t, t <> [] /\ sublist t cands /\ s = pick ++ t /\ (length s <= MAX_GROUPS)%nat.
Proof.
  revert pick. induction cands as [|c cands IH]; intros pick Hp; cbn [for_each_subset].
  { split; [by intros ?%elem_of_nil|]. intros (t & Ht & Hs%sublist_nil_r & _). done. }
  rewrite elem_of_cons, elem_of_app, (IH pick) by done. split.
  - intros [->|[Hs|Hs]].
    + exists [c]. split; [done|]. split; [apply sublist_skip, sublist_nil_l|].
      split; [done|]. rewrite length_app. cbn. lia.
    + destruct (Nat.ltb_spec (length (pick ++ [c])) MAX_GROUPS); [|by apply elem_of_nil in Hs].
      apply IH in Hs as (t & _ & Hsub & -> & Hl); [|done].
      exists (c :: t). split; [done|]. split; [by apply sublist_skip|].
      rewrite <- app_assoc in *. done.
    + destruct Hs as (t & ? & ? & ? & ?). exists t. split; [done|]. split; [by apply sublist_cons|done].
  - intros (t & Ht & Hsub & -> & Hl). apply sublist_cons_r in Hsub as [Hsub|(t' & -> & Hsub)].
    + right; right. by exists t.
    + destruct t' as [|x t']; [by left|]. right; left.
      assert (length (pick ++ [c]) < MAX_GROUPS)%nat as Hlt by (rewrite !length_app in *; cbn in *; lia).
      rewrite (proj2 (Nat.ltb_lt _ _) Hlt). apply IH; [done|].
      exists (x :: t'). split; [done|]. split; [done|]. by rewrite <- app_assoc.
Qed.

Definition total (groups : list FlashRoute) : Z := foldr (fun r acc => fr_amount r + acc) 0 groups.

Lemma total_app l1 l2 : total (l1 ++ l2) = total l1 + total l2.
Proof. induction l1 as [|r l1 IH]; cbn; [done|]. unfold total in *. rewrite IH. lia. Qed.

(** A group draws from its own source, no more than the source's planable depth. *)
Definition draws (debt : AssetId) (c : Cand) (r : FlashRoute) : Prop :=
  r = route (cd_entry c) debt (fr_amount r) /\ 0 < fr_amount r <= cd_planable c.

Lemma fill_loop_spec subset debt m rem cost groups rem' cost' groups' :
  Forall (fun c => 0 <= cd_planable c) subset -> 0 <= rem -> cost <= umax 256 ->
  fill_loop subset debt m rem cost groups = Some (rem', cost', groups') ->
  exists new, groups' = groups ++ new /\ Forall2 (draws debt) subset new /\
    total new = rem - rem' /\ 0 <= rem' /\ cost' <= umax 256.
Proof.
  revert rem cost groups. induction subset as [|c rest IH]; intros rem cost groups Hp Hr Hc; cbn [fill_loop].
  { intros [= -> -> ->]. exists []. rewrite app_nil_r. cbn. split; [done|]. split; [constructor|lia]. }
  apply Forall_cons in Hp as [Hp0 Hp]. cbv zeta.
  destruct (Z.eqb_spec (Z.min (cd_planable c) rem) 0) as [|Hnz]; [done|].
  destruct (effective_cost _ _ m) as [ec|]; [|done].
  destruct (checked_add 256 cost ec) as [cost1|] eqn:Ec; [|done].
  destruct (checked_sub rem _) as [rem1|] eqn:Er; [|done].
  apply checked_add_Some in Ec as [-> Hc1]. apply checked_sub_Some in Er as [-> Hr1].
  intros H. apply IH in H as (new & -> & Hf & Ht & Hr' & Hc'); [|done|lia|done].
  exists (route (cd_entry c) debt (Z.min (cd_planable c) rem) :: new).
  split; [by rewrite <- app_assoc|]. split; [|cbn; unfold total in Ht; lia].
  constructor; [|done]. split; [done|]. cbn. lia.
Qed.

(** A filled subset: what its cascade is. *)
Lemma fill_spec subset debt need m c :
  Forall (fun c => 0 <= cd_planable c) subset -> 0 <= need ->
  fill subset debt need m = Some c ->
  Forall2 (draws debt) subset (ca_groups c) /\ total (ca_groups c) = ca_funded c /\
  ca_funded c <= need /\ ca_cost c <= umax 256.
Proof.
  intros Hp Hn. unfold fill.
  destruct (fill_loop subset debt m need 0 []) as [[[rem cost] groups]|] eqn:E; [|done].
  apply fill_loop_spec in E as (new & -> & Hf & Ht & Hr & Hc); [|done|done|unfold umax; lia].
  destruct (checked_sub need rem) as [f|] eqn:Ef; [|done]. apply checked_sub_Some in Ef as [-> _].
  intros [= <-]. cbn [ca_groups ca_funded ca_cost app]. split; [done|]. lia.
Qed.

Lemma candidates_ok idx debt :
  Forall (fun e => uint_ok 256 (se_available e)) (entries idx debt) ->
  Forall (fun c => 0 <= cd_planable c) (candidates idx debt).
Proof.
  intros He. unfold candidates. apply Forall_take.
  apply Forall_forall. intros c [Hc _]%list_elem_of_In%filter_In.
  apply in_map_iff in Hc as (e & <- & Hin%list_elem_of_In). cbn.
  rewrite Forall_forall in He. unfold planable.
  destruct (mul_div _ 99 100 Down) as [v|] eqn:E; [|lia].
  apply mul_div_ok_u256 in E; [|by apply He|split; [lia|unfold umax; lia]..]. destruct E. lia.
Qed.

Lemma min_cost_of_spec l :
  match min_cost_of l with
  | None => l = []
  | Some x => (exists c, c ∈ l /\ ca_cost c = x) /\ forall c, c ∈ l -> x <= ca_cost c
  end.
Proof.
  induction l as [|c l IH]; cbn; [done|]. destruct (min_cost_of l) as [x|].
  - destruct IH as [(c0 & Hc0 & <-) Hall]. split.
    + destruct (Z.min_spec (ca_cost c) (ca_cost c0)) as [[_ ->]|[_ ->]];
        [exists c; split; [left|done]|exists c0; split; [by right|done]].
    + intros y [->|Hy]%elem_of_cons; [lia|]. specialize (Hall y Hy). lia.
  - subst l. split; [exists c; split; [left|done]|]. intros y [->|Hy]%elem_of_cons; [lia|by apply elem_of_nil in Hy].
Qed.

Section Planner.
Context (debt : AssetId) (need : Z) (m : CostModel).

(** The cascades the visited subsets yield. *)
Definition yields (V : list (list Cand)) (c : Cascade) : Prop :=
  exists s, s ∈ V /\ fill s debt need m = Some c.

(** What the closure keeps of the subsets it has seen. *)
Record plan_inv (V : list (list Cand)) (feasible : list (option Cascade)) (partial : option Cascade)
    : Prop := {
  pi_len : length feasible = MAX_GROUPS;
  pi_from : forall k c, feasible !! k = Some (Some c) ->
    yields V c /\ need <= ca_funded c /\ length (ca_groups c) = S k;
  pi_best : forall c, yields V c -> need <= ca_funded c ->
    exists b, feasible !! pred (length (ca_groups c)) = Some (Some b) /\ ca_cost b <= ca_cost c;
  pi_partial : match partial with
    | None => forall c, yields V c -> need <= ca_funded c
    | Some b => yields V b /\ ca_funded b < need /\
        forall c, yields V c -> ca_funded c < need -> ca_funded c <= ca_funded b
    end
}.

Lemma yields_snoc V s c : yields (V ++ [s]) c <-> yields V c \/ fill s debt need m = Some c.
Proof.
  unfold yields. setoid_rewrite elem_of_app. setoid_rewrite list_elem_of_singleton. naive_solver.
Qed.

Lemma plan_inv_nil : plan_inv [] [None; None; None] None.
Proof.
  split; [done| | |].
  - intros [|[|[|k]]] c; cbn; by intros [=].
  - intros c (s & Hs & _). by apply elem_of_nil in Hs.
  - intros c (s & Hs & _). by apply elem_of_nil in Hs.
Qed.

Lemma plan_inv_skip V f p s : fill s debt need m = None -> plan_inv V f p -> plan_inv (V ++ [s]) f p.
Proof.
  intros Hs [Hl Hf Hb Hp].
  assert (forall c, yields (V ++ [s]) c <-> yields V c) as E.
  { intros c. rewrite yields_snoc, Hs. naive_solver. }
  split; [done| | |].
  - intros k c Hk. rewrite E. by apply Hf.
  - intros c. rewrite E. apply Hb.
  - destruct p as [b|]; [rewrite E; destruct Hp as (? & ? & Hp); split; [done|]; split; [done|]|];
      intros c; rewrite E; apply Hp.
Qed.

(** Recording a new best at its group count. *)
Lemma plan_inv_store V f p s c k :
  fill s debt need m = Some c -> need <= ca_funded c -> length (ca_groups c) = S k ->
  (k < MAX_GROUPS)%nat -> plan_inv V f p ->
  (forall b, f !! k = Some (Some b) -> ca_cost c <= ca_cost b) ->
  plan_inv (V ++ [s]) (<[k := Some c]> f) p.
Proof.
  intros Hs Hc Hk Hlt [Hl Hf Hb Hp] Hle. split.
  - by rewrite length_insert.
  - intros k' c' H. rewrite yields_snoc. destruct (decide (k = k')) as [<-|Hne].
    + rewrite list_lookup_insert_eq in H by lia. injection H as <-. auto.
    + rewrite list_lookup_insert_ne in H by done. destruct (Hf k' c' H) as (? & ? & ?). auto.
  - intros c'. rewrite yields_snoc. intros Hy Hn. destruct (decide (k = pred (length (ca_groups c')))) as [->|Hne].
    + exists c. rewrite list_lookup_insert_eq by lia. split; [done|].
      destruct Hy as [Hy|Hy]; [|assert (c' = c) as -> by congruence; lia].
      destruct (Hb c' Hy Hn) as (b & Hfb & Hcb). specialize (Hle b Hfb). lia.
    + rewrite list_lookup_insert_ne by done.
      destruct Hy as [Hy|Hy]; [by apply Hb|]. assert (c' = c) as -> by congruence. rewrite Hk in Hne. done.
  - destruct p as [b|].
    + rewrite yields_snoc. destruct Hp as (? & ? & Hp). split; [by left|]. split; [done|].
      intros c'. rewrite yields_snoc. intros [Hy|Hy] ?; [by apply Hp|].
      assert (c' = c) as -> by congruence. lia.
    + intros c'. rewrite yields_snoc. intros [Hy|Hy]; [by apply Hp|]. by assert (c' = c) as -> by congruence.
Qed.

(** A cascade no better than what is kept changes nothing. *)
Lemma plan_inv_keep V f p s c :
  fill s debt need m = Some c -> plan_inv V f p ->
  (need <= ca_funded c -> exists b, f !! pred (length (ca_groups c)) = Some (Some b) /\ ca_cost b <= ca_cost c) ->
  (ca_funded c < need -> exists b, p = Some b /\ ca_funded c <= ca_funded b) ->
  plan_inv (V ++ [s]) f p.
Proof.
  intros Hs [Hl Hf Hb Hp] H1 H2. split; [done| | |].
  - intros k c' H. rewrite yields_snoc. destruct (Hf k c' H) as (? & ? & ?). auto.
  - intros c'. rewrite yields_snoc. intros [Hy|Hy] Hn; [by apply Hb|].
    assert (c' = c) as -> by congruence. by apply H1.
  - destruct p as [b|].
    + rewrite yields_snoc. destruct Hp as (? & ? & Hp). split; [by left|]. split; [done|].
      intros c'. rewrite yields_snoc. intros [Hy|Hy] ?; [by apply Hp|].
      assert (c' = c) as -> by congruence. destruct H2 as (b' & [= ->] & ?); [done|lia].
    + intros c'. rewrite yields_snoc. intros [Hy|Hy]; [by apply Hp|].
      assert (c' = c) as -> by congruence. apply Z.nlt_ge. intros (b & ? & _)%H2. done.
Qed.

(** A better partial replaces the kept one. *)
Lemma plan_inv_partial V f p s c :
  fill s debt need m = Some c -> ca_funded c < need -> plan_inv V f p ->
  (forall b, p = Some b -> ca_funded b <= ca_funded c) ->
  plan_inv (V ++ [s]) f (Some c).
Proof.
  intros Hs Hc [Hl Hf Hb Hp] Hle. split; [done| | |].
  - intros k c' H. rewrite yields_snoc. destruct (Hf k c' H) as (? & ? & ?). auto.
  - intros c'. rewrite yields_snoc. intros [Hy|Hy] Hn; [by apply Hb|].
    assert (c' = c) as -> by congruence. lia.
  - rewrite yields_snoc. split; [by right|]. split; [done|].
    intros c'. rewrite yields_snoc. intros [Hy|Hy] Hn; [|assert (c' = c) as -> by congruence; lia].
    destruct p as [b|]; [|specialize (Hp c' Hy); lia].
    destruct Hp as (_ & _ & Hp). specialize (Hp c' Hy Hn). specialize (Hle b eq_refl). lia.
Qed.

Lemma plan_visit_inv V f p s :
  Forall (fun c => 0 <= cd_planable c) s -> (1 <= length s <= MAX_GROUPS)%nat -> 0 <= need ->
  plan_inv V f p ->
  let '(f', p') := plan_visit debt need m (f, p) s in plan_inv (V ++ [s]) f' p'.
Proof.
  intros Hpl Hlen Hn Hinv. unfold plan_visit.
  destruct (fill s debt need m) as [c|] eqn:Ef; [|by apply plan_inv_skip].
  destruct (fill_spec s debt need m c Hpl Hn Ef) as (Hd & _ & _ & _).
  apply Forall2_length in Hd.
  destruct (Z.ltb_spec (ca_funded c) need) as [Hlt|Hge].
  - destruct p as [b|]; [destruct (better_partial c b) eqn:Eb|].
    + eapply plan_inv_partial; [done..|]. intros b' [= <-]. unfold better_partial in Eb.
      apply orb_true_iff in Eb as [?%Z.ltb_lt|[?%Z.eqb_eq _]%andb_true_iff]; lia.
    + eapply plan_inv_keep; [done|done|lia|]. intros _. exists b. split; [done|].
      unfold better_partial in Eb. apply orb_false_iff in Eb as [?%Z.ltb_ge _]. lia.
    + by eapply plan_inv_partial.
  - assert (wrapping_sub 64 (Z.of_nat (length (ca_groups c))) 1 = Z.of_nat (pred (length (ca_groups c)))) as ->.
    { unfold wrapping_sub. rewrite Z.mod_small by (unfold MAX_GROUPS in *; lia). lia. }
    rewrite Nat2Z.id.
    destruct (lookup_lt_is_Some_2 f (pred (length (ca_groups c)))) as [o Ho];
      [destruct Hinv as [Hl _ _ _]; unfold MAX_GROUPS in *; lia|].
    rewrite Ho. assert (length (ca_groups c) = S (pred (length (ca_groups c)))) by lia.
    destruct o as [b|]; [destruct (Z.ltb_spec (ca_cost c) (ca_cost b))|].
    + eapply plan_inv_store; [done..|unfold MAX_GROUPS in *; lia|done|].
      rewrite Ho. intros b' [= <-]. lia.
    + eapply plan_inv_keep; [done..| |lia]. intros _. exists b. split; [done|lia].
    + eapply plan_inv_store; [done..|unfold MAX_GROUPS in *; lia|done|]. by rewrite Ho.
Qed.

Lemma plan_fold_inv V W f p :
  Forall (fun s => Forall (fun c => 0 <= cd_planable c) s /\ (1 <= length s <= MAX_GROUPS)%nat) W ->
  0 <= need -> plan_inv V f p ->
  let '(f', p') := fold_left (plan_visit debt need m) W (f, p) in plan_inv (V ++ W) f' p'.
Proof.
  intros HW Hn. revert V f p. induction HW as [|s W [Hs Hl] _ IH]; intros V f p Hinv; cbn [fold_left].
  { by rewrite app_nil_r. }
  pose proof (plan_visit_inv V f p s Hs Hl Hn Hinv) as H. destruct (plan_visit _ _ _ _ _) as [f1 p1].
  specialize (IH _ f1 p1 H). destruct (fold_left _ W _) as [f2 p2]. by rewrite <- app_assoc in IH.
Qed.
End Planner.

Lemma find_flat {A} (p : A -> bool) (l : list (option A)) c :
  List.find p (omap id l) = Some c ->
  exists k, l !! k = Some (Some c) /\ p c = true /\
    forall j b, (j < k)%nat -> l !! j = Some (Some b) -> p b = false.
Proof.
  induction l as [|o l IH]; cbn; [done|]. destruct o as [x|]; cbn.
  - destruct (p x) eqn:E.
    + intros [= ->]. exists O. split; [done|]. split; [done|]. intros; lia.
    + intros (k & Hk & Hp & Hlt)%IH. exists (S k). split; [done|]. split; [done|].
      intros [|j] b Hj Hb; [by injection Hb as <-|]. apply (Hlt j b); [lia|done].
  - intros (k & Hk & Hp & Hlt)%IH. exists (S k). split; [done|]. split; [done|].
    intros [|j] b Hj Hb; [done|]. apply (Hlt j b); [lia|done].
Qed.

Lemma elem_of_flat {A} (l : list (option A)) c :
  c ∈ omap id l <-> exists k, l !! k = Some (Some c).
Proof.
  rewrite list_elem_of_omap. unfold id. split.
  - intros (o & Ho & ->). by apply list_elem_of_lookup.
  - intros [k Hk]. exists (Some c). split; [|done]. apply list_elem_of_lookup. by exists k.
Qed.

(** The subsets the search visits: up to three of its candidates, in index order. *)
Definition visitable (idx : FlashIndex) (debt : AssetId) (s : list Cand) : Prop :=
  s <> [] /\ sublist s (candidates idx debt) /\ (length s <= MAX_GROUPS)%nat.

Lemma visitable_visited idx debt s : s ∈ for_each_subset [] (candidates idx debt) <-> visitable idx debt s.
Proof.
  rewrite elem_of_for_each_subset by (cbn; unfold MAX_GROUPS; lia). unfold visitable. cbn. split.
  - by intros (t & ? & ? & -> & ?).
  - intros (? & ? & ?). by exists s.
Qed.

Lemma visitable_ok idx debt s :
  Forall (fun e => uint_ok 256 (se_available e)) (entries idx debt) -> visitable idx debt s ->
  Forall (fun c => 0 <= cd_planable c) s /\ (1 <= length s <= MAX_GROUPS)%nat.
Proof.
  intros He (Hne & Hsub & Hl). split; [|destruct s; [done|cbn in *; lia]].
  pose proof (candidates_ok idx debt He) as Hc. rewrite Forall_forall in Hc |- *.
  intros c Hin. apply Hc. by eapply sublist_submseteq, elem_of_submseteq in Hsub.
Qed.

Lemma plan_state idx debt need m :
  Forall (fun e => uint_ok 256 (se_available e)) (entries idx debt) -> 0 <= need ->
  let '(f, p) := fold_left (plan_visit debt need m) (for_each_subset [] (candidates idx debt))
                   ([None; None; None], None) in
  plan_inv debt need m (for_each_subset [] (candidates idx debt)) f p.
Proof.
  intros He Hn.
  pose proof (plan_fold_inv debt need m [] (for_each_subset [] (candidates idx debt)) [None; None; None] None) as H.
  destruct (fold_left _ _ _) as [f p]. apply H; [|done|apply plan_inv_nil].
  apply Forall_forall. intros s Hs%visitable_visited. by apply (visitable_ok idx debt).
Qed.

Lemma close_margin_nonneg need close_bps :
  uint_ok 256 need -> uint_ok 16 close_bps -> 0 <= close_margin need close_bps.
Proof.
  intros Hn [Hc Hc']. unfold close_margin. destruct (mul_div _ _ _ _) as [v|] eqn:E; [|lia].
  apply mul_div_ok_u256 in E; [by destruct E|done|split; unfold umax in *; lia|
    split; unfold BPS, umax; lia].
Qed.

(** With nothing kept as feasible, no visited cascade meets the need. *)
Lemma no_feasible debt need m V f p :
  plan_inv debt need m V f p -> omap id f = [] -> forall c, yields debt need m V c -> ca_funded c < need.
Proof.
  intros [_ _ Hbest _] Hnil c Hy. apply Z.nle_gt. intros Hle.
  destruct (Hbest c Hy Hle) as (b & Hb & _).
  assert (b ∈ omap id f) as Hin by (apply elem_of_flat; eauto). rewrite Hnil in Hin. by apply elem_of_nil in Hin.
Qed.

(** The final scan: the fewest groups within the margin of the cheapest. *)
Lemma find_within debt need m V f p mc margin :
  plan_inv debt need m V f p ->
  (exists c, c ∈ omap id f /\ ca_cost c = mc) /\ (forall c, c ∈ omap id f -> mc <= ca_cost c) ->
  0 <= margin ->
  (forall c, yields debt need m V c -> ca_cost c <= umax 256 /\ ca_groups c <> []) ->
  exists c, List.find (fun c => ca_cost c <=? default (umax 256) (checked_add 256 mc margin)) (omap id f) = Some c /\
    yields debt need m V c /\ need <= ca_funded c /\
    (forall c', yields debt need m V c' -> need <= ca_funded c' -> ca_cost c <= ca_cost c' + margin /\
       exists c2, yields debt need m V c2 /\ need <= ca_funded c2 /\ ca_cost c2 = mc) /\
    (forall c', yields debt need m V c' -> need <= ca_funded c' ->
       (length (ca_groups c') < length (ca_groups c))%nat -> mc + margin < ca_cost c').
Proof.
  intros [_ Hfrom Hbest _] [(c0 & Hc0 & <-) Hmin] Hm Hmax.
  set (limit := default _ _). set (mc := ca_cost c0) in *.
  apply elem_of_flat in Hc0 as Hk0. destruct Hk0 as [k0 Hk0]. destruct (Hfrom k0 c0 Hk0) as (Hy0 & Hf0 & _).
  assert (mc <= limit /\ limit <= mc + margin /\
    (forall c, yields debt need m V c -> limit < ca_cost c -> mc + margin < ca_cost c)) as (Hlim & Hlim' & Hlim2).
  { unfold limit. destruct (checked_add 256 mc margin) as [l|] eqn:E; cbn.
    - apply checked_add_Some in E as [-> _]. split; [lia|]. split; [lia|]. intros; lia.
    - unfold checked_add in E. destruct (Z.leb_spec (mc + margin) (umax 256)); [done|].
      split; [by apply Hmax|]. split; [lia|]. intros c Hc Hlt. destruct (Hmax c Hc). lia. }
  destruct (List.find _ _) as [c|] eqn:Ef.
  2:{ rewrite find_None_all in Ef. specialize (Ef c0 Hc0). apply Z.leb_gt in Ef. fold mc in Ef. lia. }
  exists c. split; [done|]. apply find_flat in Ef as (k & Hk & Hc%Z.leb_le & Hlt).
  destruct (Hfrom k c Hk) as (Hyc & Hfc & Hlc). split; [done|]. split; [done|]. split.
  - intros c' Hy' Hf'. destruct (Hbest c' Hy' Hf') as (b & Hb & Hcb).
    assert (mc <= ca_cost b) by (apply Hmin, elem_of_flat; eauto). split; [lia|]. by exists c0.
  - intros c' Hy' Hf' Hl'. destruct (Hbest c' Hy' Hf') as (b & Hb & Hcb).
    assert ((ca_cost b <=? limit) = false) as Hbl%Z.leb_gt.
    { destruct (Hmax c' Hy') as [_ Hne]. eapply Hlt; [|exact Hb].
      destruct (ca_groups c'); [done|]. cbn in *. lia. }
    destruct (Hfrom _ _ Hb) as (Hyb & _ & _). specialize (Hlim2 b Hyb Hbl). lia.
Qed.

(** The search over the visited subsets. *)
Lemma plan_over_visited (idx : FlashIndex) (debt : AssetId) (need : Z) (m : CostModel) (close_bps : Z)
    (He : Forall (fun e => uint_ok 256 (se_available e)) (entries idx debt))
    (Hn : uint_ok 256 need) (Hnz : need <> 0) (Hb : uint_ok 16 close_bps) :
  let margin := close_margin need close_bps in
  match plan idx debt need m close_bps with
  | None => forall s, visitable idx debt s -> fill s debt need m = None
  | Some c =>
      (exists s, visitable idx debt s /\ fill s debt need m = Some c /\
         Forall2 (draws debt) s (ca_groups c) /\ total (ca_groups c) = ca_funded c) /\
      (ca_funded c = need -> forall s c', visitable idx debt s -> fill s debt need m = Some c' ->
         ca_funded c' = need ->
         ca_cost c <= ca_cost c' + margin /\
         ((length (ca_groups c') < length (ca_groups c))%nat ->
            exists s2 c2, visitable idx debt s2 /\ fill s2 debt need m = Some c2 /\
              ca_funded c2 = need /\ ca_cost c2 + margin < ca_cost c')) /\
      (ca_funded c <> need -> forall s c', visitable idx debt s -> fill s debt need m = Some c' ->
         ca_funded c' < need /\ ca_funded c' <= ca_funded c)
  end.
Proof.
  intros margin. pose proof Hn as [Hn0 Hn1]. pose proof (close_margin_nonneg _ _ Hn Hb) as Hm.
  assert (forall s c, visitable idx debt s -> fill s debt need m = Some c ->
    Forall2 (draws debt) s (ca_groups c) /\ total (ca_groups c) = ca_funded c /\
    ca_funded c <= need /\ ca_cost c <= umax 256) as Hfill.
  { intros s c Hs. by apply fill_spec; [apply (visitable_ok idx debt s He Hs)|]. }
  assert (forall c, yields debt need m (for_each_subset [] (candidates idx debt)) c <->
    exists s, visitable idx debt s /\ fill s debt need m = Some c) as Hy
    by (intros c; unfold yields; by setoid_rewrite visitable_visited).
  pose proof (plan_state idx debt need m He Hn0) as Hinv.
  unfold plan. rewrite (proj2 (Z.eqb_neq need 0) Hnz). cbv zeta. fold margin.
  destruct (fold_left _ _ _) as [f p].
  pose proof (min_cost_of_spec (omap id f)) as Hmin.
  destruct (min_cost_of (omap id f)) as [mc|].
  - destruct (find_within _ _ _ _ f p mc margin Hinv Hmin Hm) as (c & -> & Hc & Hfd & Hcost & Hfew).
    { intros c (s & Hs & Ef)%Hy. destruct (Hfill s c Hs Ef) as (Hd & _ & _ & ?). split; [done|].
      destruct Hs as [Hne _]. intros E. rewrite E in Hd. by apply Forall2_nil_inv_r in Hd. }
    apply Hy in Hc as (s & Hs & Ef). destruct (Hfill s c Hs Ef) as (Hd & Ht & Hle & _).
    split; [by exists s|]. split; [|intros; lia].
    intros _ s' c' Hs' Ef' Hf'. assert (yields debt need m (for_each_subset [] (candidates idx debt)) c')
      as Hyc by (apply Hy; eauto).
    destruct (Hcost c' Hyc ltac:(lia)) as [Hc1 (c2 & Hy2 & Hf2 & Hm2)]. split; [lia|].
    intros Hlt. apply Hy in Hy2 as (s2 & Hs2 & Ef2). exists s2, c2. split; [done|]. split; [done|].
    destruct (Hfill s2 c2 Hs2 Ef2) as (_ & _ & Hle2 & _). split; [lia|].
    specialize (Hfew c' Hyc ltac:(lia) Hlt). lia.
  - pose proof (no_feasible _ _ _ _ f p Hinv Hmin) as Hnone. destruct Hinv as [_ _ _ Hpart].
    destruct p as [b|].
    + destruct Hpart as (Hyb & Hlt & Hall). apply Hy in Hyb as (s & Hs & Ef).
      destruct (Hfill s b Hs Ef) as (Hd & Ht & _ & _). split; [by exists s|]. split; [intros; lia|].
      intros _ s' c' Hs' Ef'. assert (yields debt need m (for_each_subset [] (candidates idx debt)) c')
        as Hyc by (apply Hy; eauto). specialize (Hnone c' Hyc). split; [done|by apply Hall].
    + intros s Hs. destruct (fill s debt need m) as [c|] eqn:Ef; [|done]. exfalso.
      assert (yields debt need m (for_each_subset [] (candidates idx debt)) c) as Hyc by (apply Hy; eauto).
      specialize (Hnone c Hyc). specialize (Hpart c Hyc). lia.
Qed.

(** *** The planner's contract, apart from its code

    What may be greedy_draws of a source is 99 % of it, rounded down. A choice is one to three
    sources of a row, in the row's order, among the first eight that have anything to draw.
    A choice is filled in order: each source gives what it can of what the ones before it
    left, and none gives nothing. *)
Definition lendable (e : SourceEntry) : Z := se_available e * 99 / 100.

Definition choice (row s : list SourceEntry) : Prop :=
  (1 <= length s <= 3)%nat /\ sublist s (take 8 (List.filter (fun e => 0 <? lendable e) row)).

Fixpoint greedy_draws (need : Z) (s : list SourceEntry) : list Z :=
  match s with
  | [] => []
  | e :: s' => Z.min (lendable e) need :: greedy_draws (need - Z.min (lendable e) need) s'
  end.

Definition filling (debt : AssetId) (need : Z) (m : CostModel) (s : list SourceEntry) (c : Cascade) : Prop :=
  Forall (fun a => 0 < a) (greedy_draws need s) /\
  ca_groups c = zip_with (fun e a => route e debt a) s (greedy_draws need s) /\
  ca_funded c = zsum id (greedy_draws need s) /\
  exists costs,
    Forall2 (fun ea k => effective_cost (fst ea) (snd ea) m = Some k) (zip s (greedy_draws need s)) costs /\
    (forall n, zsum id (take n costs) <= umax 256) /\ ca_cost c = zsum id costs.

Definition cand (e : SourceEntry) : Cand := mkCand (planable (se_available e)) e.

Lemma planable_lendable e : uint_ok 256 (se_available e) -> planable (se_available e) = lendable e.
Proof.
  intros He. unfold planable, lendable. pose proof He as [He0 He1].
  assert (se_available e * 99 / 100 <= se_available e) by (apply Z.div_le_upper_bound; lia).
  rewrite (proj2 (mul_div_Ok (se_available e) 99 100 Down (se_available e * 99 / 100) He
    ltac:(split; [lia|unfold umax; lia]) ltac:(split; [lia|unfold umax; lia]))); [done|].
  split; [lia|]. split; [done|lia].
Qed.

Lemma filter_of_map {A B} (f : A -> B) (p : B -> bool) l :
  List.filter p (List.map f l) = List.map f (List.filter (fun x => p (f x)) l).
Proof. induction l as [|x l IH]; cbn; [done|]. destruct (p (f x)); cbn; by rewrite IH. Qed.

(** The candidates of the search are the sources a choice may be made of. *)
Lemma candidates_lendable idx debt :
  Forall (fun e => uint_ok 256 (se_available e)) (entries idx debt) ->
  candidates idx debt = cand <$> take 8 (List.filter (fun e => 0 <? lendable e) (entries idx debt)).
Proof.
  intros He. unfold candidates, MAX_CANDIDATES. rewrite filter_of_map. cbn [cd_planable].
  replace (List.filter (fun x => negb (planable (se_available x) =? 0)) (entries idx debt))
    with (List.filter (fun e => 0 <? lendable e) (entries idx debt)).
  { by rewrite <- fmap_take. }
  apply filter_ext_in. intros e Hin%list_elem_of_In. rewrite Forall_forall in He.
  rewrite planable_lendable by auto. specialize (He e Hin) as [? _].
  assert (0 <= lendable e) by (apply Z.div_pos; lia).
  destruct (Z.ltb_spec 0 (lendable e)), (Z.eqb_spec (lendable e) 0); cbn; lia || done.
Qed.

Lemma sublist_fmap_inv {A B} (f : A -> B) (l : list A) t :
  sublist t (f <$> l) -> exists s, t = f <$> s /\ sublist s l.
Proof.
  revert t. induction l as [|x l IH]; intros t; cbn.
  { intros ->%sublist_nil_r. by exists []. }
  intros [(s & -> & Hs)%IH|(t' & -> & (s & -> & Hs)%IH)]%sublist_cons_r.
  - exists s. split; [done|by apply sublist_cons].
  - exists (x :: s). split; [done|by apply sublist_skip].
Qed.

Lemma visitable_choice idx debt t :
  Forall (fun e => uint_ok 256 (se_available e)) (entries idx debt) ->
  visitable idx debt t <-> exists s, t = cand <$> s /\ choice (entries idx debt) s.
Proof.
  intros He. unfold visitable, choice, MAX_GROUPS. rewrite (candidates_lendable _ _ He). split.
  - intros (Hne & (s & -> & Hs)%sublist_fmap_inv & Hl). exists s. rewrite length_fmap in Hl.
    split; [done|]. split; [|done]. destruct s; [done|cbn in *; lia].
  - intros (s & -> & Hl & Hs). rewrite length_fmap. split; [by destruct s; cbn in *; [lia|]|].
    split; [by apply fmap_sublist|lia].
Qed.

Lemma fill_loop_filling debt m s rem cost groups out :
  Forall (fun e => uint_ok 256 (se_available e)) s -> 0 <= rem -> cost <= umax 256 ->
  fill_loop (cand <$> s) debt m rem cost groups = Some out <->
  Forall (fun a => 0 < a) (greedy_draws rem s) /\
  exists costs,
    Forall2 (fun ea k => effective_cost (fst ea) (snd ea) m = Some k) (zip s (greedy_draws rem s)) costs /\
    (forall n, cost + zsum id (take n costs) <= umax 256) /\
    out = (rem - zsum id (greedy_draws rem s), cost + zsum id costs,
           groups ++ zip_with (fun e a => route e debt a) s (greedy_draws rem s)).
Proof.
  intros Hs. revert rem cost groups. induction Hs as [|e s He Hs IH]; intros rem cost groups Hr Hc.
  { cbn. split.
    - intros [= <-]. split; [done|]. exists []. split; [done|]. split; [intros []; cbn; lia|].
      cbn. by rewrite app_nil_r, Z.sub_0_r, Z.add_0_r.
    - intros (_ & ? & ->%Forall2_nil_inv_l & _ & ->). cbn. by rewrite app_nil_r, Z.sub_0_r, Z.add_0_r. }
  cbn [fmap list_fmap fill_loop greedy_draws zip zip_with cd_planable cd_entry cand].
  rewrite (planable_lendable _ He). set (a := Z.min (lendable e) rem). cbv zeta.
  assert (0 <= lendable e) by (apply Z.div_pos; [destruct He|]; lia).
  destruct (Z.eqb_spec a 0) as [Ha|Ha].
  { split; [done|]. intros (?%Forall_cons_1 & _). lia. }
  destruct (effective_cost e a m) as [k|] eqn:Ek.
  2:{ split; [done|]. intros (_ & costs & Hk & _). apply Forall2_cons_inv_l in Hk as (? & ? & Hk & _).
      cbn in Hk. congruence. }
  assert (checked_sub rem a = Some (rem - a)) as -> by (unfold checked_sub; destruct (Z.leb_spec a rem); [done|lia]).
  destruct (checked_add 256 cost k) as [cost1|] eqn:Ec.
  2:{ split; [done|]. intros (_ & costs & (k' & ks & Hk & _ & ->)%Forall2_cons_inv_l & Hle & _).
      cbn in Hk. rewrite Ek in Hk. injection Hk as <-. specialize (Hle 1%nat).
      unfold checked_add in Ec. destruct (Z.leb_spec (cost + k) (umax 256)); [done|].
      rewrite firstn_cons, take_0 in Hle. unfold zsum, id in Hle. cbn [foldr] in Hle. lia. }
  apply checked_add_Some in Ec as [-> Hck]. rewrite IH by lia. clear IH. split.
  - intros (Hf & ks & Hks & Hle & ->). split; [constructor; [lia|done]|]. exists (k :: ks).
    split; [by constructor|]. split.
    + intros [|n]; [cbn; lia|]. specialize (Hle n). rewrite firstn_cons. unfold id, zsum in *. cbn [foldr]. lia.
    + rewrite <- app_assoc. unfold id, zsum. cbn [foldr]. f_equal; f_equal; lia.
  - intros ([_ Hf]%Forall_cons_1 & costs & (k' & ks & Hk & Hks & ->)%Forall2_cons_inv_l & Hle & ->).
    cbn in Hk. rewrite Ek in Hk. injection Hk as <-. split; [done|]. exists ks. split; [done|]. split.
    + intros n. specialize (Hle (S n)). rewrite firstn_cons in Hle. unfold id, zsum in *. cbn [foldr] in Hle. lia.
    + rewrite <- app_assoc. unfold id, zsum. cbn [foldr]. f_equal; f_equal; lia.
Qed.

(** [fill] computes exactly the filling the contract describes. *)
Lemma fill_filling debt need m s c :
  Forall (fun e => uint_ok 256 (se_available e)) s -> 0 <= need ->
  fill (cand <$> s) debt need m = Some c <-> filling debt need m s c.
Proof.
  intros Hs Hn. unfold fill, filling. split.
  - destruct (fill_loop _ _ _ _ _ _) as [[[rem cost] groups]|] eqn:E; [|done].
    apply fill_loop_filling in E as (Hf & costs & Hk & Hle & [= -> -> ->]); [|done|done|unfold umax; lia].
    destruct (checked_sub need _) as [f|] eqn:Ef; [|done]. apply checked_sub_Some in Ef as [-> _].
    intros [= <-]. cbn. split; [done|]. split; [done|]. split; [lia|]. by exists costs.
  - destruct c as [gs fd co]. cbn. intros (Hf & -> & -> & costs & Hk & Hle & ->).
    rewrite (proj2 (fill_loop_filling debt m s need 0 [] (need - zsum id (greedy_draws need s), 0 + zsum id costs,
      [] ++ zip_with (fun e a => route e debt a) s (greedy_draws need s)) Hs Hn ltac:(unfold umax; lia)));
      [|split; [done|]; by exists costs].
    assert (0 <= zsum id (greedy_draws need s)) as H0.
    { clear - Hf. induction Hf; cbn; [lia|]. unfold id, zsum in *. lia. }
    unfold checked_sub. destruct (Z.leb_spec (need - zsum id (greedy_draws need s)) need); [|lia].
    cbn. f_equal. f_equal; lia.
Qed.

Lemma choice_ok idx debt s :
  Forall (fun e => uint_ok 256 (se_available e)) (entries idx debt) -> choice (entries idx debt) s ->
  Forall (fun e => uint_ok 256 (se_available e)) s.
Proof.
  intros He [_ Hs]. rewrite Forall_forall in He |- *. intros e Hin. apply He.
  eapply elem_of_submseteq in Hin; [|by apply sublist_submseteq].
  apply elem_of_take in Hin as (i & Hi & _). apply list_elem_of_lookup_2, list_elem_of_In, filter_In in Hi as [Hi _].
  by apply list_elem_of_In.
Qed.

Lemma draws_cand debt s rs :
  Forall (fun e => uint_ok 256 (se_available e)) s -> Forall2 (draws debt) (cand <$> s) rs ->
  Forall2 (fun e r => r = route e debt (fr_amount r) /\ 0 < fr_amount r <= lendable e) s rs.
Proof.
  intros Hs. revert rs. induction Hs as [|e s He Hs IH]; intros rs.
  { by intros ->%Forall2_nil_inv_l. }
  intros (r & rs' & Hd & Hr & ->)%Forall2_cons_inv_l. constructor; [|by apply IH].
  unfold draws in Hd. cbn in Hd. by rewrite (planable_lendable _ He) in Hd.
Qed.

(** C22. The cascade planner against its contract: over every choice of one to three sources
    among the first eight of the row that have any planable depth (99 % of the source, rounded
    down; later sources are never considered), each filled in the row's order, a returned plan
    fills a choice, draws from each of its sources within that depth and funds what it says;
    when it meets the need, no choice meets it for less than [close_bps] under its cost, and a
    choice with fewer groups is dearer than that margin over the cheapest; when it does not, no
    choice meets the need or funds more; and it returns none only when no choice can be filled
    at all. *)
Theorem cascade_plan_optimal (idx : FlashIndex) (debt : AssetId) (need : Z) (m : CostModel) (close_bps : Z)
    (He : Forall (fun e => uint_ok 256 (se_available e)) (entries idx debt))
    (Hn : uint_ok 256 need) (Hnz : need <> 0) (Hb : uint_ok 16 close_bps) :
  let row := entries idx debt in
  let margin := close_margin need close_bps in
  match plan idx debt need m close_bps with
  | None => forall s c, choice row s -> ~ filling debt need m s c
  | Some c =>
      (exists s, choice row s /\ filling debt need m s c /\
         Forall2 (fun e r => r = route e debt (fr_amount r) /\ 0 < fr_amount r <= lendable e) s (ca_groups c) /\
         total (ca_groups c) = ca_funded c) /\
      (ca_funded c = need -> forall s c', choice row s -> filling debt need m s c' ->
         ca_funded c' = need ->
         ca_cost c <= ca_cost c' + margin /\
         ((length (ca_groups c') < length (ca_groups c))%nat ->
            exists s2 c2, choice row s2 /\ filling debt need m s2 c2 /\
              ca_funded c2 = need /\ ca_cost c2 + margin < ca_cost c')) /\
      (ca_funded c <> need -> forall s c', choice row s -> filling debt need m s c' ->
         ca_funded c' < need /\ ca_funded c' <= ca_funded c)
  end.
Proof.
  intros row margin. pose proof (plan_over_visited idx debt need m close_bps He Hn Hnz Hb) as H.
  pose proof Hn as [Hn0 _].
  assert (forall s c, choice row s -> fill (cand <$> s) debt need m = Some c <-> filling debt need m s c) as Hfill
    by (intros s c Hs; apply fill_filling; [by eapply choice_ok|done]).
  assert (forall s, choice row s -> visitable idx debt (cand <$> s)) as Hvis
    by (intros s Hs; apply visitable_choice; eauto).
  cbv zeta in H. fold margin in H. destruct (plan idx debt need m close_bps) as [c|].
  2:{ intros s c Hs Hc%Hfill; [|done]. specialize (H _ (Hvis s Hs)). congruence. }
  destruct H as ((t & (s & -> & Hs)%visitable_choice & Hf & Hd & Ht) & Hfull & Hpart); [|done].
  split; [|split].
  - exists s. split; [done|]. split; [by apply Hfill|]. split; [|done].
    apply draws_cand; [by eapply choice_ok|done].
  - intros Hc s' c' Hs' Hc'%Hfill Hf'; [|done].
    destruct (Hfull Hc _ c' (Hvis s' Hs') Hc' Hf') as [Hcost Hfew]. split; [done|].
    intros Hlt. destruct (Hfew Hlt) as (t2 & c2 & (s2 & -> & Hs2)%visitable_choice & Hc2 & Hf2 & Hm2); [|done].
    exists s2, c2. by rewrite <- Hfill.
  - intros Hc s' c' Hs' Hc'%Hfill; [|done]. by apply (Hpart Hc _ c' (Hvis s' Hs')).
Qed.

Lemma cascade_plan_optimal_witness :
  let e p av fee := mkEntry av 1 0 fee p MorphoFlashCallback in
  let row := [e FMorpho 1600 0; e FUniV4 210 0; e FUniV3 70 1; e FAave 28700 5] in
  let idx := mkIndex [row] [28700] in
  let best := mkCascade [route (e FMorpho 1600 0) 0 1584; route (e FAave 28700 5) 0 27916] 29500 14 in
  plan idx 0 29500 FEE_ONLY 0 = Some best /\
  forall s c', choice row s -> filling 0 29500 FEE_ONLY s c' -> ca_funded c' = 29500 ->
    14 <= ca_cost c' + close_margin 29500 0.
Proof.
  intros e row idx best. assert (plan idx 0 29500 FEE_ONLY 0 = Some best) as E by (vm_compute; reflexivity).
  split; [exact E|].
  assert (Forall (fun e => uint_ok 256 (se_available e)) (entries idx 0)) as He
    by (repeat constructor; vm_compute; discriminate).
  pose proof (cascade_plan_optimal idx 0 29500 FEE_ONLY 0 He ltac:(vm_compute; intuition discriminate)
    ltac:(discriminate) ltac:(vm_compute; intuition discriminate)) as H. cbv zeta in H.
  rewrite E in H. destruct H as (_ & H & _).
  intros s c' Hs Hf Hn. exact (proj1 (H eq_refl s c' Hs Hf Hn)).
Defined.

(** ** Publication *)

Lemma existsb_zip_false {A B} (p : A * B -> bool) l1 l2 i x y :
  existsb p (zip l1 l2) = false -> l1 !! i = Some x -> l2 !! i = Some y -> p (x, y) = false.
Proof.
  intros Hf Hx Hy. destruct (p (x, y)) eqn:E; [|done].
  assert (existsb p (zip l1 l2) = true) as H; [|congruence].
  apply existsb_exists. exists (x, y). split; [|done]. apply list_elem_of_In, list_elem_of_lookup.
  exists i. rewrite lookup_zip_with. by rewrite Hx, Hy.
Qed.

Lemma not_moved thr a b :
  0 <= thr <= 10000 -> uint_ok 256 b -> moved thr a b = false -> Z.abs (a - b) * BPS <= thr * b.
Proof.
  intros Ht Hb. unfold moved. pose proof Hb as [Hb0 Hb1].
  assert (b * thr / BPS <= b) by (apply Z.div_le_upper_bound; unfold BPS; nia).
  rewrite (proj2 (mul_div_Ok b thr BPS Down (b * thr / BPS) Hb ltac:(split; [lia|unfold umax; lia])
    ltac:(split; [unfold BPS; lia|unfold BPS, umax; lia])));
    [|split; [done|split; [done|lia]]].
  intros Hlt%Z.ltb_ge. pose proof (div_rem_spec (b * thr) BPS ltac:(unfold BPS; lia)).
  unfold BPS in *. nia.
Qed.

(** What readers see is never materially stale: after [publish_if_material] the published
    index has the writer's shape and identities, fees and gas exactly, and every depth within
    the threshold of the published one. *)
Theorem published_within_threshold (self slot : FlashIndex) (thr : Z)
    (Ht : 0 <= thr <= 10000)
    (Hs : Forall (Forall (fun e => uint_ok 256 (se_available e))) (by_asset self))
    (Hp : Forall (Forall (fun e => uint_ok 256 (se_available e))) (by_asset slot)) :
  let slot' := fst (publish_if_material self slot thr) in
  length (by_asset self) = length (by_asset slot') /\
  forall i a b, by_asset self !! i = Some a -> by_asset slot' !! i = Some b ->
    length a = length b /\
    forall j x y, a !! j = Some x -> b !! j = Some y ->
      se_provider x = se_provider y /\ se_source x = se_source y /\ se_fee_bps x = se_fee_bps y /\
      se_gas_overhead x = se_gas_overhead y /\ se_callback x = se_callback y /\
      Z.abs (se_available x - se_available y) * BPS <= thr * se_available y.
Proof.
  unfold publish_if_material. destruct (differs_materially self slot thr) eqn:E; cbn [negb fst].
  - split; [done|]. intros i a b Ha Hb. simplify_eq. split; [done|]. intros j x y Hx Hy. simplify_eq.
    pose proof (Forall_lookup_1 _ _ _ _ (Forall_lookup_1 _ _ _ _ Hs Ha) Hx) as [? _].
    do 5 (split; [done|]). unfold BPS. nia.
  - unfold differs_materially in E. apply orb_false_iff in E as [El%negb_false_iff%Nat.eqb_eq E].
    split; [done|]. intros i a b Ha Hb. pose proof (existsb_zip_false _ _ _ _ _ _ E Ha Hb) as H.
    cbn beta iota in H. apply orb_false_iff in H as [Hl%negb_false_iff%Nat.eqb_eq H]. split; [done|].
    intros j x y Hx Hy. pose proof (existsb_zip_false _ _ _ _ _ _ H Hx Hy) as Hd. cbn beta iota in Hd.
    unfold entry_differs in Hd. apply orb_false_iff in Hd as [Hd Hm].
    rewrite !orb_false_iff, !negb_false_iff, !bool_decide_eq_true, !Z.eqb_eq in Hd.
    destruct Hd as ((((? & ?) & ?) & ?) & ?). do 5 (split; [done|]).
    apply not_moved; [done| |done]. exact (Forall_lookup_1 _ _ _ _ (Forall_lookup_1 _ _ _ _ Hp Hb) Hy).
Qed.

Lemma published_within_threshold_witness :
  let e av := mkEntry av 1 0 0 FMorpho MorphoFlashCallback in
  let self := mkIndex [[e 1004]] [1004] in let slot := mkIndex [[e 1000]] [1000] in
  fst (publish_if_material self slot 50) = slot /\
  length (by_asset self) = length (by_asset slot).
Proof.
  intros e self slot. assert (fst (publish_if_material self slot 50) = slot) as E by (vm_compute; reflexivity).
  split; [exact E|].
  pose proof (published_within_threshold self slot 50 ltac:(lia)
    ltac:(repeat constructor; vm_compute; discriminate)
    ltac:(repeat constructor; vm_compute; discriminate)) as [H _].
  rewrite E in H. exact H.
Defined.
