(* ===== verification/Bonus.v ===== *)
(** Liquidation economics: the bonus curve ([crates/liq-protocol/src/bonus.rs]) and the quote
    ([crates/liq-protocol/src/quote.rs]). A [Ray] is the [Z] of its raw 27-decimal value. *)

From S2P Require Import Prelude Fixed Types.
Local Open Scope Z_scope.

Inductive AuctionCurve :=
  | LinearDecrease (tau : Z)
  | StairstepExponentialDecrease (step cut : Z)
  | ExponentialDecrease (cut : Z).

Inductive BonusCurve :=
  | Static (bonus : Z)
  | HealthLinear (bonus_at_threshold hf_for_max max_bonus quantum : Z)
  | Reciprocal (min_df : Z)
  | TimeDescending (start : Timestamp) (curve : AuctionCurve).

Definition bonus_at_hf (c : BonusCurve) (hf : Z) : Result FixedError (option Z) :=
  match c with
  | Static bonus => Ok (Some bonus)
  | HealthLinear bonus_at_threshold hf_for_max max_bonus quantum =>
      if RAY <=? hf then Ok (Some bonus_at_threshold) else
      if hf <=? hf_for_max then Ok (Some max_bonus) else
      let? span := fixed_checked_sub max_bonus bonus_at_threshold in
      let? deficit := fixed_checked_sub RAY hf in
      let? width := fixed_checked_sub RAY hf_for_max in
      let? span_q := mul_div span 1 quantum Down in
      if negb (bool_decide (checked_mul 256 span_q quantum = Some span)) then Err Inexact else
      let? rise_q := mul_div span_q deficit width Down in
      let? rise := ok_or (checked_mul 256 rise_q quantum) Overflow in
      map_res Some (fixed_checked_add bonus_at_threshold rise)
  | Reciprocal min_df =>
      if min_df =? 0 then Err DivisionByZero else
      if RAY <=? hf then Ok (Some 0) else
      let df := if hf <=? min_df then min_df else hf in
      let? inv := mul_div RAY RAY df Down in
      ok_or (option_map Some (checked_sub inv RAY)) Underflow
  | TimeDescending _ _ => Ok None
  end.

(** ** The quote *)

Inductive SlotRef := ByAsset | Slot (s : Z) | Contract (a : Address).

Definition slot_ref_slot (r : SlotRef) : option Z := match r with Slot s => Some s | _ => None end.
Definition slot_ref_contract (r : SlotRef) : option Address :=
  match r with Contract a => Some a | _ => None end.

Record RepayOption := mkRepay {
  ro_asset : AssetId;
  ro_max_repay : Z;
  ro_min_repay : Z;
  ro_pair_seize : option Z;
  ro_slot : SlotRef
}.

Definition pairs_with (r : RepayOption) (seize : Z) : bool :=
  match ro_pair_seize r with None => true | Some k => k =? seize end.

Record SeizeOption := mkSeize {
  so_asset : AssetId;
  so_max_seize : Z;
  so_bonus : Z;
  so_curve : BonusCurve;
  so_call_target : Address;
  so_slot : SlotRef
}.

Record Quote := mkQuote {
  q_position : PositionId;
  q_key : PositionKey;
  q_repay_options : list RepayOption;
  q_seize_options : list SeizeOption
}.

Record LegChoice := mkLegs { lc_repay : Z; lc_seize : Z }.
Definition PREFERRED : LegChoice := mkLegs 0 0.

(** ** The curve is a well-behaved function of health *)

(** What an adapter guarantees of the curve it builds. *)
Definition curve_ok (c : BonusCurve) : Prop :=
  match c with
  | Static b => uint_ok 256 b
  | HealthLinear lo hfm hi q =>
      0 <= lo <= hi /\ hi <= umax 256 /\ 0 <= hfm < RAY /\ 0 < q <= umax 256 /\ (q | hi - lo)
  | Reciprocal min_df => 0 < min_df <= RAY
  | TimeDescending _ _ => False
  end.

(** The value the curve names: a floor in the protocol's quantum, or the floored
    reciprocal. *)
Definition bonus_value (c : BonusCurve) (hf : Z) : Z :=
  match c with
  | Static b => b
  | HealthLinear lo hfm hi q =>
      if RAY <=? hf then lo else if hf <=? hfm then hi else
      lo + q * ((hi - lo) / q * (RAY - hf) / (RAY - hfm))
  | Reciprocal min_df => if RAY <=? hf then 0 else RAY * RAY / Z.max hf min_df - RAY
  | TimeDescending _ _ => 0
  end.

(** The interpolation stays within its endpoints and falls as health rises. *)
Lemma interp_bounds s n w : 0 <= s -> 0 <= n <= w -> 0 < w -> 0 <= s * n / w <= s.
Proof.
  intros Hs Hn Hw. split; [apply Z.div_pos; nia|]. apply Z.div_le_upper_bound; nia.
Qed.

Lemma linear_bonus_at lo hfm hi q hf :
  curve_ok (HealthLinear lo hfm hi q) -> uint_ok 256 hf ->
  bonus_at_hf (HealthLinear lo hfm hi q) hf = Ok (Some (bonus_value (HealthLinear lo hfm hi q) hf)).
Proof.
  intros (Hlo & Hhi & Hhfm & Hq & [k Hk]) Hhf. cbn [bonus_at_hf bonus_value].
  destruct (Z.leb_spec RAY hf); [done|]. destruct (Z.leb_spec hf hfm); [done|].
  unfold fixed_checked_sub. rewrite !checked_sub_ok by lia. cbn [ok_or].
  assert (0 <= k) by nia. assert (hi - lo = k * q) as Es by lia.
  assert (k <= umax 256) by nia.
  assert ((hi - lo) / q = k) as Ek by (rewrite Es; apply Z.div_mul; lia).
  pose proof (interp_bounds k (RAY - hf) (RAY - hfm) ltac:(lia) ltac:(lia) ltac:(lia)) as Hi.
  rewrite (proj2 (mul_div_Ok (hi - lo) 1 q Down k ltac:(split; lia) ltac:(split; [lia|unfold umax; lia])
    ltac:(split; lia))) by (split; [lia|]; split; [|lia]; cbn; by rewrite Z.mul_1_r, Ek).
  rewrite (proj2 (checked_mul_Some 256 k q (hi - lo))) by lia.
  rewrite bool_decide_eq_true_2 by done. cbn [negb].
  assert (RAY <= umax 256) by (unfold RAY, umax; lia).
  rewrite (proj2 (mul_div_Ok k (RAY - hf) (RAY - hfm) Down (k * (RAY - hf) / (RAY - hfm))
    ltac:(split; lia) ltac:(destruct Hhf; split; lia) ltac:(split; lia)))
    by (split; [lia|]; split; [done|lia]).
  set (r := k * (RAY - hf) / (RAY - hfm)) in *.
  rewrite (proj2 (checked_mul_Some 256 r q (q * r))) by nia. cbn [ok_or].
  unfold fixed_checked_add. rewrite (proj2 (checked_add_Some 256 lo (q * r) _)) by (split; [done|nia]).
  cbn [ok_or map_res]. rewrite Ek. done.
Qed.

Lemma reciprocal_bonus_at min_df hf :
  0 < min_df <= RAY -> uint_ok 256 hf ->
  bonus_at_hf (Reciprocal min_df) hf = Ok (Some (bonus_value (Reciprocal min_df) hf)).
Proof.
  intros Hm [Hhf _]. cbn [bonus_at_hf bonus_value].
  rewrite (proj2 (Z.eqb_neq min_df 0)) by lia. destruct (Z.leb_spec RAY hf); [done|].
  assert ((if hf <=? min_df then min_df else hf) = Z.max hf min_df) as ->
    by (destruct (Z.leb_spec hf min_df); lia).
  assert (RAY <= umax 256) by (unfold RAY, umax; lia).
  assert (RAY * RAY / Z.max hf min_df <= RAY * RAY) by (apply Z.div_le_upper_bound; unfold RAY in *; nia).
  assert (RAY <= RAY * RAY / Z.max hf min_df) by (apply Z.div_le_lower_bound; unfold RAY in *; nia).
  assert (RAY * RAY <= umax 256) by (unfold RAY, umax; lia).
  rewrite (proj2 (mul_div_Ok RAY RAY (Z.max hf min_df) Down (RAY * RAY / Z.max hf min_df)
    ltac:(split; unfold RAY in *; lia) ltac:(split; unfold RAY in *; lia) ltac:(split; unfold RAY in *; lia)))
    by (split; [lia|]; split; [done|lia]).
  by rewrite checked_sub_ok.
Qed.

Lemma bonus_value_mono c hf hf' :
  curve_ok c -> 0 <= hf <= hf' -> bonus_value c hf' <= bonus_value c hf.
Proof.
  destruct c as [b|lo hfm hi q|min_df|]; cbn [curve_ok bonus_value]; intros Hc Hhf; [lia| | |done].
  - destruct Hc as (Hlo & Hhi & Hhfm & Hq & [k Hk]).
    assert (0 <= k) by nia. assert ((hi - lo) / q = k) as -> by (rewrite Hk; apply Z.div_mul; lia).
    pose proof (fun x => interp_bounds k (RAY - x) (RAY - hfm)) as Hi.
    destruct (Z.leb_spec RAY hf'), (Z.leb_spec RAY hf); try lia; destruct (Z.leb_spec hf hfm); try lia.
    + specialize (Hi hf ltac:(lia) ltac:(lia) ltac:(lia)). nia.
    + destruct (Z.leb_spec hf' hfm); [lia|]. specialize (Hi hf' ltac:(lia) ltac:(lia) ltac:(lia)). nia.
    + destruct (Z.leb_spec hf' hfm); [lia|].
      assert (k * (RAY - hf') / (RAY - hfm) <= k * (RAY - hf) / (RAY - hfm)) by (apply Z.div_le_mono; nia). nia.
  - destruct (Z.leb_spec RAY hf'), (Z.leb_spec RAY hf); try lia.
    + assert (RAY <= RAY * RAY / Z.max hf min_df) by (apply Z.div_le_lower_bound; unfold RAY in *; nia). lia.
    + assert (RAY * RAY / Z.max hf' min_df <= RAY * RAY / Z.max hf min_df); [|lia].
      apply Z.div_le_compat_l; unfold RAY in *; lia.
Qed.

(** A well-formed bonus curve is a total, monotone function of health: [bonus_at_hf]
    succeeds at every health, its value is the protocol's floored formula, it never rises as
    health rises, and it meets both endpoints: the threshold bonus from 1.0 up and the
    maximum from [hf_for_max] down (for the Euler reciprocal, zero from 1.0 up and never
    more than the vault pays). *)
Theorem bonus_curve_monotone (c : BonusCurve) (hf hf' : Z)
    (Hc : curve_ok c) (Hhf : uint_ok 256 hf) (Hhf' : uint_ok 256 hf') (Hle : hf <= hf') :
  exists b b', bonus_at_hf c hf = Ok (Some b) /\ bonus_at_hf c hf' = Ok (Some b') /\
    b = bonus_value c hf /\ b' <= b /\
    match c with
    | HealthLinear lo hfm hi q =>
        lo <= b <= hi /\ (RAY <= hf -> b = lo) /\ (hf <= hfm -> b = hi) /\ (q | b - lo)
    | Reciprocal min_df => (RAY <= hf -> b = 0) /\
        (hf < RAY -> (RAY + b) * Z.max hf min_df <= RAY * RAY)
    | _ => True
    end.
Proof.
  assert (forall x, uint_ok 256 x -> bonus_at_hf c x = Ok (Some (bonus_value c x))) as Hat.
  { destruct c; [done|intros; by apply linear_bonus_at|intros; by apply reciprocal_bonus_at|done]. }
  exists (bonus_value c hf), (bonus_value c hf'). split; [by apply Hat|]. split; [by apply Hat|].
  split; [done|]. split; [apply bonus_value_mono; [done|destruct Hhf; lia]|].
  destruct c as [b|lo hfm hi q|min_df|]; [done| | |done]; cbn [bonus_value]; destruct Hhf as [Hhf0 _].
  - destruct Hc as (Hlo & Hhi & Hhfm & Hq & [k Hk]).
    assert (0 <= k) by nia. assert ((hi - lo) / q = k) as -> by (rewrite Hk; apply Z.div_mul; lia).
    destruct (Z.leb_spec RAY hf); [split; [lia|]; split; [done|]; split; [lia|]; exists 0; lia|].
    destruct (Z.leb_spec hf hfm); [split; [lia|]; split; [lia|]; split; [done|]; exists k; lia|].
    pose proof (interp_bounds k (RAY - hf) (RAY - hfm) ltac:(lia) ltac:(lia) ltac:(lia)) as Hi.
    split; [nia|]. split; [lia|]. split; [lia|]. exists (k * (RAY - hf) / (RAY - hfm)). lia.
  - cbn in Hc. destruct (Z.leb_spec RAY hf); [split; [done|lia]|]. split; [lia|]. intros _.
    replace (RAY + (RAY * RAY / Z.max hf min_df - RAY)) with (RAY * RAY / Z.max hf min_df) by lia.
    rewrite Z.mul_comm. apply Z.mul_div_le. lia.
Qed.

(** An Aave V4 curve in basis points: 1 % at the threshold, 10 % at health 0.8. *)
Lemma bonus_curve_monotone_witness :
  let bp := 100000000000000000000000 in
  let c := HealthLinear (100 * bp) (RAY / 10 * 8) (1000 * bp) bp in
  bonus_at_hf c (RAY / 10 * 9) = Ok (Some (550 * bp)) /\
  exists b b', bonus_at_hf c (RAY / 10 * 9) = Ok (Some b) /\ bonus_at_hf c RAY = Ok (Some b') /\ b' <= b.
Proof.
  intros bp c. split; [vm_compute; reflexivity|].
  destruct (bonus_curve_monotone c (RAY / 10 * 9) RAY) as (b & b' & H1 & H2 & _ & H3 & _).
  - cbn. unfold bp, RAY, umax. repeat split; try (vm_compute; discriminate).
    exists 900. reflexivity.
  - vm_compute. intuition discriminate.
  - vm_compute. intuition discriminate.
  - vm_compute. discriminate.
  - exists b, b'. split; [exact H1|]. split; [exact H2|exact H3].
Defined.
