(* ===== verification/Eligible.v ===== *)
(** Two-sided eligibility: [crates/liq-flash/src/eligibility.rs] and the [RouteCache]
    interface ([crates/liq-protocol/src/routecache.rs]).

    The [fixedbitset] crate behind the fundable mark is an interface here ([BitSet] with
    [BitSetLaws]); the laws are its documented behaviour. *)

From S2P Require Import Prelude Fixed Types Halt Flash Bonus.
Local Open Scope Z_scope.

(** [trait RouteCache]. *)
Class RouteCache (R : Type) := { has_exit : R -> AssetId -> Z -> bool }.

(** [DepthOnlyRouteCache]: an exit exists when one inventory-backed source holds the amount. *)
Record DepthOnlyRouteCache := mkDepthOnly { dr_index : FlashIndex }.

#[export] Instance RouteCache_depth : RouteCache DepthOnlyRouteCache := {|
  has_exit r coll amount :=
    existsb (fun e => negb (bool_decide (se_provider e = FSkyDss)) && (amount <=? se_available e))
      (entries (dr_index r) coll)
|}.

Definition RAY_PER_BP : Z := 100000000000000000000000.

Definition net_of_bonus (bonus fee_bps : Z) : Z :=
  let fee := default (umax 256) (checked_mul 256 fee_bps RAY_PER_BP) in
  saturating_sub bonus fee.

(** [Iterator::position]. *)
Fixpoint position {A} (p : A -> bool) (l : list A) : option nat :=
  match l with
  | [] => None
  | x :: l' => if p x then Some O else let! i := position p l' in Some (S i)
  end.

Definition reward_only (q : Quote) : bool :=
  negb (length (q_repay_options q) =? 0)%nat &&
  forallb (fun r => ro_max_repay r =? 0) (q_repay_options q).

Definition reward_route (asset : AssetId) : FlashRoute := mkRoute FNone 0 asset 0 0 Direct.

Section Routes.
Context {R : Type} `{RouteCache R}.

(** The inner loop's body: keep the strictly better pair. *)
Definition visit_pair (si : nat) (seize : SeizeOption)
    (best : option (Z * LegChoice * FlashRoute)) (p : nat * FlashRoute)
    : option (Z * LegChoice * FlashRoute) :=
  let '(ri, route) := p in
  let key := net_of_bonus (so_bonus seize) (fr_fee_bps route) in
  if match best with None => true | Some (k, _, _) => k <? key end then
    match try_from 8 (Z.of_nat ri), try_from 8 (Z.of_nat si) with
    | Some repay, Some seize => Some (key, mkLegs repay seize, route)
    | _, _ => best
    end
  else best.

(** The outer loop's body. *)
Definition visit_seize (routes : R) (routed : list (nat * FlashRoute))
    (best : option (Z * LegChoice * FlashRoute)) (p : nat * SeizeOption)
    : option (Z * LegChoice * FlashRoute) :=
  let '(si, seize) := p in
  if (so_max_seize seize =? 0) || negb (has_exit routes (so_asset seize) (so_max_seize seize))
  then best
  else fold_left (visit_pair si seize) routed best.

(** Each repay option priced once. *)
Definition routed_options (q : Quote) (idx : FlashIndex) (haircut : Haircut) : list (nat * FlashRoute) :=
  omap (fun '(ri, repay) =>
    let! r := best_route idx (ro_asset repay) (ro_max_repay repay) haircut in Some (ri, r))
    (imap pair (q_repay_options q)).

Definition is_eligible (q : Quote) (idx : FlashIndex) (routes : R) (haircut : Haircut)
    : option (LegChoice * FlashRoute) :=
  if reward_only q then
    let! repay := head (q_repay_options q) in
    let! si := position (fun s => negb (so_max_seize s =? 0)) (q_seize_options q) in
    let! seize := try_from 8 (Z.of_nat si) in
    Some (mkLegs 0 seize, reward_route (ro_asset repay))
  else
    let routed := routed_options q idx haircut in
    if (length routed =? 0)%nat then None else
    let! (_, legs, route) :=
      fold_left (visit_seize routes routed) (imap pair (q_seize_options q)) None in
    Some (legs, route).
End Routes.

(** ** The fundable mark *)

(** [fixedbitset::FixedBitSet], the operations used. *)
Class BitSet (B : Type) := {
  bs_len : B -> nat;
  bs_grow_and_insert : B -> nat -> B;
  bs_remove : B -> nat -> B;
  bs_contains : B -> nat -> bool;
  bs_clear : B -> B
}.

Class BitSetLaws (B : Type) `{BitSet B} := {
  bs_contains_insert b i j : bs_contains (bs_grow_and_insert b i) j = (i =? j)%nat || bs_contains b j;
  bs_contains_remove b i j : (i < bs_len b)%nat ->
    bs_contains (bs_remove b i) j = negb (i =? j)%nat && bs_contains b j;
  bs_contains_len b i : bs_contains b i = true -> (i < bs_len b)%nat;
  bs_contains_clear b i : bs_contains (bs_clear b) i = false
}.

Section Mark.
Context {B : Type} `{BitSet B} {R : Type} `{RouteCache R}.

Definition mark (b : B) (pos : PositionId) (fundable : bool) : B :=
  if fundable then bs_grow_and_insert b pos
  else if (pos <? bs_len b)%nat then bs_remove b pos else b.

Definition is_fundable (b : B) (pos : PositionId) : bool := bs_contains b pos.

Definition evaluate (b : B) (q : Quote) (idx : FlashIndex) (routes : R) (haircut : Haircut)
    : B * option (LegChoice * FlashRoute) :=
  let r := is_eligible q idx routes haircut in
  (mark b (q_position q) (bool_decide (is_Some r)), r).
End Mark.

(** ** The search *)

Section Search.
Context {R : Type} `{RouteCache R}.

(** A pair both market legs of which work. *)
Definition workable (q : Quote) (idx : FlashIndex) (routes : R) (haircut : Haircut)
    (ri si : nat) (key : Z) (route : FlashRoute) : Prop :=
  exists repay seize, q_repay_options q !! ri = Some repay /\ q_seize_options q !! si = Some seize /\
    best_route idx (ro_asset repay) (ro_max_repay repay) haircut = Some route /\
    so_max_seize seize <> 0 /\ has_exit routes (so_asset seize) (so_max_seize seize) = true /\
    key = net_of_bonus (so_bonus seize) (fr_fee_bps route).

Lemma routed_options_spec q idx haircut ri route :
  (ri, route) ∈ routed_options q idx haircut <->
  exists repay, q_repay_options q !! ri = Some repay /\
    best_route idx (ro_asset repay) (ro_max_repay repay) haircut = Some route.
Proof.
  unfold routed_options. rewrite list_elem_of_omap. split.
  - intros ([i r] & Hin & Hr). apply elem_of_lookup_imap in Hin as (j & y & [= -> ->] & Hy).
    destruct (best_route idx (ro_asset y) (ro_max_repay y) haircut) as [x|] eqn:E; [|done].
    injection Hr as -> ->. eauto.
  - intros (repay & Hr & Hb). exists (ri, repay). split; [|by rewrite Hb].
    apply elem_of_lookup_imap. eauto.
Qed.

(** Best so far: a maximum of the candidates seen. *)
Definition best_inv (seen : Z -> LegChoice -> FlashRoute -> Prop)
    (best : option (Z * LegChoice * FlashRoute)) : Prop :=
  match best with
  | None => forall k l r, ~ seen k l r
  | Some (k, l, r) => seen k l r /\ forall k' l' r', seen k' l' r' -> k' <= k
  end.

Lemma best_inv_ext seen seen' best :
  (forall k l r, seen k l r <-> seen' k l r) -> best_inv seen best -> best_inv seen' best.
Proof.
  intros E. unfold best_inv. destruct best as [[[k l] r]|]; setoid_rewrite E; done.
Qed.

Definition legs_at (ri si : nat) (l : LegChoice) : Prop :=
  try_from 8 (Z.of_nat ri) = Some (lc_repay l) /\ try_from 8 (Z.of_nat si) = Some (lc_seize l).

Lemma visit_pairs_inv si seize routed seen best :
  best_inv seen best ->
  best_inv (fun k l r => seen k l r \/ exists ri, (ri, r) ∈ routed /\ legs_at ri si l /\
              k = net_of_bonus (so_bonus seize) (fr_fee_bps r))
    (fold_left (visit_pair si seize) routed best).
Proof.
  revert seen best. induction routed as [|[ri r] routed IH]; intros seen best Hb; cbn [fold_left].
  { eapply best_inv_ext; [|exact Hb]. intros k l r. split; [by left|].
    intros [?|(ri & Hin & _)]; [done|by apply elem_of_nil in Hin]. }
  set (seen1 := fun k l r0 => seen k l r0 \/ (r0 = r /\ legs_at ri si l /\
    k = net_of_bonus (so_bonus seize) (fr_fee_bps r))).
  assert (best_inv seen1 (visit_pair si seize best (ri, r))) as H1.
  { unfold visit_pair. set (key := net_of_bonus _ _). unfold seen1. fold key.
    destruct (try_from 8 (Z.of_nat ri)) as [a|] eqn:Ea; [destruct (try_from 8 (Z.of_nat si)) as [b|] eqn:Eb|].
    2,3: (eapply best_inv_ext; [|destruct (match best with None => _ | _ => _ end); exact Hb]);
      intros k l r0; split; [by left|intros [?|(_ & [? ?] & _)]; congruence].
    destruct best as [[[k l] r1]|]; [destruct (Z.ltb_spec k key)|]; cbn in Hb |- *.
    - split; [right; by split|]. intros k' l' r' [Hs|(_ & _ & ->)]; [|lia].
      destruct Hb as [_ Hb]. specialize (Hb _ _ _ Hs). lia.
    - destruct Hb as [Hs Hb]. split; [by left|]. intros k' l' r' [Hs'|(_ & _ & ->)]; [by eapply Hb|lia].
    - split; [right; by split|]. intros k' l' r' [Hs|(_ & _ & ->)]; [by apply Hb in Hs|lia]. }
  eapply best_inv_ext; [|apply (IH seen1 _ H1)]. intros k l r0. unfold seen1.
  setoid_rewrite elem_of_cons. split.
  - intros [[?|(-> & ? & ?)]|(ri' & ? & ?)]; [by left|right; exists ri; auto|right; exists ri'; auto].
  - intros [?|(ri' & [[= -> ->]|?] & ? & ?)]; [by left; left|left; right; auto|right; eauto].
Qed.
Lemma visit_seizes_inv routes routed opts seen best :
  best_inv seen best ->
  best_inv (fun k l r => seen k l r \/ exists si seize ri, (si, seize) ∈ opts /\
              so_max_seize seize <> 0 /\ has_exit routes (so_asset seize) (so_max_seize seize) = true /\
              (ri, r) ∈ routed /\ legs_at ri si l /\
              k = net_of_bonus (so_bonus seize) (fr_fee_bps r))
    (fold_left (visit_seize routes routed) opts best).
Proof.
  revert seen best. induction opts as [|[si seize] opts IH]; intros seen best Hb; cbn [fold_left].
  { eapply best_inv_ext; [|exact Hb]. intros k l r. split; [by left|].
    intros [?|(si & sz & ri & Hin & _)]; [done|by apply elem_of_nil in Hin]. }
  unfold visit_seize at 2.
  destruct (Z.eqb_spec (so_max_seize seize) 0) as [E0|E0]; cbn [orb].
  2: destruct (has_exit routes (so_asset seize) (so_max_seize seize)) eqn:Ex; cbn [negb].
  1,3: eapply best_inv_ext; [|apply (IH seen best Hb)]; intros k l r; setoid_rewrite elem_of_cons;
    (split; [intros [?|(si' & sz & ri & ? & ?)]; [by left|right; exists si', sz, ri; auto 10]|];
     intros [?|(si' & sz & ri & [[= -> ->]|?] & H1 & H2 & ?)]; [by left|congruence|right; exists si', sz, ri; auto 10]).
  eapply best_inv_ext; [|apply (IH _ _ (visit_pairs_inv si seize routed seen best Hb))].
  intros k l r. setoid_rewrite elem_of_cons. split.
  - intros [[?|(ri & ? & ? & ?)]|(si' & sz & ri & ? & ?)]; [by left| |].
    + right. exists si, seize, ri. auto 10.
    + right. exists si', sz, ri. auto 10.
  - intros [?|(si' & sz & ri & [[= -> ->]|?] & ? & ? & ? & ? & ?)]; [by left; left| |].
    + left; right. exists ri. auto 10.
    + right. exists si', sz, ri. auto 10.
Qed.

Lemma search_spec q idx routes haircut :
  best_inv (fun k l r => exists ri si, workable q idx routes haircut ri si k r /\ legs_at ri si l)
    (fold_left (visit_seize routes (routed_options q idx haircut)) (imap pair (q_seize_options q)) None).
Proof.
  eapply best_inv_ext; [|apply (visit_seizes_inv routes _ _ (fun _ _ _ => False)); unfold best_inv; tauto].
  intros k l r. unfold workable. split.
  - intros [[]|(si & seize & ri & Hs & ? & ? & Hr & ? & ?)].
    apply elem_of_lookup_imap in Hs as (j & y & [= -> ->] & Hy).
    apply routed_options_spec in Hr as (repay & ? & ?). exists ri, j. split; [|done]. by exists repay, y.
  - intros (ri & si & (repay & seize & ? & Hs & ? & ? & ? & ?) & ?). right. exists si, seize, ri.
    split; [apply elem_of_lookup_imap; eauto|]. split; [done|]. split; [done|].
    split; [apply routed_options_spec; eauto|]. by split.
Qed.

Lemma no_route_not_workable q idx routes haircut ri si k r :
  length (routed_options q idx haircut) = O -> ~ workable q idx routes haircut ri si k r.
Proof.
  intros Hl%nil_length_inv (repay & seize & Hr & _ & Hb & _).
  assert ((ri, r) ∈ routed_options q idx haircut) as Hin by (apply routed_options_spec; eauto).
  rewrite Hl in Hin. by apply elem_of_nil in Hin.
Qed.
End Search.

(** Eligibility searches the whole repay x seize product: for a quote that is not
    reward-only, the returned pair has a haircut-fundable debt route (the one
    [best_route] gives that repay leg) and a collateral exit, no other pair with both has a
    larger bonus net of the flash fee, and [None] means no pair has both. *)
Theorem eligible_pair_is_best {R} `{RouteCache R} (q : Quote) (idx : FlashIndex) (routes : R) (haircut : Haircut)
    (Hr : reward_only q = false)
    (Hlr : (length (q_repay_options q) <= 256)%nat) (Hls : (length (q_seize_options q) <= 256)%nat) :
  match is_eligible q idx routes haircut with
  | Some (legs, route) =>
      exists key, workable q idx routes haircut (Z.to_nat (lc_repay legs)) (Z.to_nat (lc_seize legs)) key route /\
        forall ri si key' route', workable q idx routes haircut ri si key' route' -> key' <= key
  | None => forall ri si key route, ~ workable q idx routes haircut ri si key route
  end.
Proof.
  unfold is_eligible. rewrite Hr. cbv zeta.
  assert (forall ri si k r, workable q idx routes haircut ri si k r -> exists l, legs_at ri si l) as Hlegs.
  { intros ri si k r (repay & seize & H1%lookup_lt_Some & H2%lookup_lt_Some & _).
    exists (mkLegs (Z.of_nat ri) (Z.of_nat si)). split; apply try_from_ok; cbn; split; unfold umax; lia. }
  destruct (Nat.eqb_spec (length (routed_options q idx haircut)) 0) as [E|E].
  { intros ri si k r. by apply no_route_not_workable. }
  pose proof (search_spec q idx routes haircut) as Hs.
  destruct (fold_left _ _ None) as [[[k l] r]|]; cbn in Hs.
  - destruct Hs as [(ri & si & Hw & [Hl1 Hl2]) Hmax].
    apply try_from_Some in Hl1 as [-> _]. apply try_from_Some in Hl2 as [-> _].
    rewrite !Nat2Z.id. exists k. split; [done|]. intros ri' si' k' r' Hw'.
    destruct (Hlegs _ _ _ _ Hw') as [l' Hl']. eapply Hmax. eauto.
  - intros ri si k r Hw. destruct (Hlegs _ _ _ _ Hw) as [l Hl]. eapply Hs. eauto.
Qed.

Definition sample_key : PositionKey := mkKey 1 0 7.
Definition sample_seize (asset bonus : Z) : SeizeOption := mkSeize asset 100 bonus (Static bonus) 0 ByAsset.
Definition sample_index : FlashIndex :=
  refresh (index_new 4) [mkSource FMorpho 1 (fun _ => 1000) (fun _ _ => 0) MorphoFlashCallback 0].

Lemma eligible_pair_is_best_witness :
  let q := mkQuote 0 sample_key [mkRepay 0 10 0 None ByAsset; mkRepay 1 20 0 None ByAsset]
             [sample_seize 2 (5 * RAY_PER_BP); sample_seize 3 (9 * RAY_PER_BP)] in
  option_map fst (is_eligible q sample_index (mkDepthOnly sample_index) HAIRCUT_NONE) = Some (mkLegs 0 1) /\
  match is_eligible q sample_index (mkDepthOnly sample_index) HAIRCUT_NONE with
  | Some (legs, route) =>
      exists key, workable q sample_index (mkDepthOnly sample_index) HAIRCUT_NONE
          (Z.to_nat (lc_repay legs)) (Z.to_nat (lc_seize legs)) key route /\
        forall ri si key' route', workable q sample_index (mkDepthOnly sample_index) HAIRCUT_NONE
          ri si key' route' -> key' <= key
  | None => forall ri si key route, ~ workable q sample_index (mkDepthOnly sample_index) HAIRCUT_NONE
      ri si key route
  end.
Proof.
  split; [vm_compute; reflexivity|].
  apply eligible_pair_is_best; [reflexivity|cbn; lia|cbn; lia].
Defined.

(** The search does not read [pair_seize]: on a quote whose only repay leg is valid with
    seize option 1 alone, it returns that leg paired with seize option 0. *)
Theorem eligible_ignores_pairing :
  let repay := mkRepay 0 10 0 (Some 1) ByAsset in
  let q := mkQuote 0 sample_key [repay]
             [sample_seize 2 (9 * RAY_PER_BP); sample_seize 3 (5 * RAY_PER_BP)] in
  exists route, is_eligible q sample_index (mkDepthOnly sample_index) HAIRCUT_NONE = Some (mkLegs 0 0, route) /\
    pairs_with repay 0 = false.
Proof. eexists. split; [vm_compute; reflexivity|reflexivity]. Qed.

(** ** The fundable mark *)

(** A list of bits, the reference bitset. *)
#[export] Instance BitSet_list : BitSet (list bool) := {|
  bs_len b := length b;
  bs_grow_and_insert b i := <[i := true]> (resize (Nat.max (S i) (length b)) false b);
  bs_remove b i := <[i := false]> b;
  bs_contains b i := default false (b !! i);
  bs_clear b := replicate (length b) false
|}.

#[export] Instance BitSetLaws_list : BitSetLaws (list bool).
Proof.
  split; cbn.
  - intros b i j. destruct (Nat.eqb_spec i j) as [<-|Hne]; cbn.
    + rewrite list_lookup_insert_eq; [done|]. rewrite length_resize. lia.
    + rewrite list_lookup_insert_ne by done. destruct (decide (j < length b)%nat).
      * by rewrite lookup_resize by lia.
      * rewrite (lookup_ge_None_2 b) by lia. cbn. destruct (decide (j < Nat.max (S i) (length b))%nat).
        -- by rewrite lookup_resize_new by lia.
        -- by rewrite lookup_resize_old by lia.
  - intros b i j Hi. destruct (Nat.eqb_spec i j) as [<-|Hne]; cbn.
    + by rewrite list_lookup_insert_eq.
    + by rewrite list_lookup_insert_ne.
  - intros b i. destruct (b !! i) eqn:E; [|done]. intros _. by eapply lookup_lt_Some.
  - intros b i. destruct (replicate (length b) false !! i) eqn:E; [|done]. by apply lookup_replicate in E as [-> _].
Qed.

(** The fundable mark follows the last verdict: after [evaluate], the position is fundable
    exactly when the search found a pair, and every other position keeps its mark, whatever
    bitset stands behind it. *)
Theorem evaluate_marks {B R} `{BitSetLaws B, RouteCache R}
    (b : B) (q : Quote) (idx : FlashIndex) (routes : R) (haircut : Haircut) (pos : PositionId) :
  is_fundable (fst (evaluate b q idx routes haircut)) pos =
  if decide (pos = q_position q) then bool_decide (is_Some (is_eligible q idx routes haircut))
  else is_fundable b pos.
Proof.
  unfold evaluate, is_fundable, mark. cbn [fst].
  destruct (bool_decide (is_Some _)) eqn:E.
  - rewrite bs_contains_insert. destruct (decide (pos = q_position q)) as [->|Hne].
    + by rewrite Nat.eqb_refl.
    + by rewrite (proj2 (Nat.eqb_neq _ _)) by done.
  - destruct (Nat.ltb_spec (q_position q) (bs_len b)) as [Hlt|Hge].
    + rewrite bs_contains_remove by done. destruct (decide (pos = q_position q)) as [->|Hne].
      * by rewrite Nat.eqb_refl.
      * by rewrite (proj2 (Nat.eqb_neq _ _)) by done.
    + destruct (decide (pos = q_position q)) as [->|]; [|done].
      destruct (bs_contains b (q_position q)) eqn:Ec; [|done]. apply bs_contains_len in Ec. lia.
Qed.

Lemma evaluate_marks_witness :
  let q := mkQuote 3 sample_key [mkRepay 0 10 0 None ByAsset] [sample_seize 2 (5 * RAY_PER_BP)] in
  is_fundable (fst (evaluate [true; false] q sample_index (mkDepthOnly sample_index) HAIRCUT_NONE)) 3 = true.
Proof.
  intros q. rewrite (evaluate_marks [true; false] q sample_index (mkDepthOnly sample_index) HAIRCUT_NONE 3).
  vm_compute. reflexivity.
Defined.
