(* ===== verification/Caps.v ===== *)
(** Concurrency and exposure caps with the flash haircut's auto-tune:
    [crates/liq-risk/src/caps.rs].

    [live: Mutex<Live>] is the state threaded through; every method holds the lock for its
    whole body, so a method is one atomic step. A [CapGuard] is the triple its [Drop] hands
    back to [release]; the run below keeps the guards alive in a list and drops them in any
    order. *)

From S2P Require Import Prelude Types Halt Flash.
Local Open Scope Z_scope.

Record CapConfig := mkCapConfig {
  per_liquidation_notional : Z;
  per_protocol_exposure : Z;
  global_concurrent : Z;
  per_provider_concurrent : Z;
  concentration_alert_bps : Z;
  haircut_floor_bps : Z;
  haircut_ceil_bps : Z
}.

Definition cap_default : CapConfig :=
  mkCapConfig (umax 256) (umax 256) 20 1 8000 8000 9900.

Inductive CapError :=
  | CapNotional (notional cap : Z)
  | CapProtocol
  | CapGlobal (cap : Z)
  | CapProvider (provider : FlashProvider) (cap : Z).

Record Live := mkLive {
  lv_global : Z;
  lv_by_protocol : gmap ProtocolId Z;
  lv_by_provider : gmap FlashProvider Z;
  lv_liq_by_provider : gmap FlashProvider Z;
  lv_liq_total : Z;
  lv_il_ok : Z;
  lv_il_fail : Z;
  lv_haircut_bps : Z
}.

Record Caps := mkCaps { cp_cfg : CapConfig; cp_live : Live }.

Definition caps_new (cfg : CapConfig) : Caps :=
  mkCaps cfg (mkLive 0 ∅ ∅ ∅ 0 0 0 (haircut_ceil_bps cfg)).

Record CapGuard := mkGuard { cg_protocol : ProtocolId; cg_provider : FlashProvider; cg_notional : Z }.

#[export] Instance CapGuard_eq_dec : EqDecision CapGuard.
Proof. solve_decision. Defined.

Definition with_slots (c : Caps) (global : Z) (by_protocol : gmap ProtocolId Z)
    (by_provider : gmap FlashProvider Z) : Caps :=
  let l := cp_live c in
  mkCaps (cp_cfg c) (mkLive global by_protocol by_provider (lv_liq_by_provider l) (lv_liq_total l)
    (lv_il_ok l) (lv_il_fail l) (lv_haircut_bps l)).

Definition try_acquire (c : Caps) (protocol : ProtocolId) (provider : FlashProvider) (notional : Z)
    : Caps * Result CapError CapGuard :=
  let cfg := cp_cfg c in
  let g := cp_live c in
  if per_liquidation_notional cfg <? notional
  then (c, Err (CapNotional notional (per_liquidation_notional cfg))) else
  if global_concurrent cfg <=? lv_global g then (c, Err (CapGlobal (global_concurrent cfg))) else
  let pc := default 0 (lv_by_provider g !! provider) in
  if per_provider_concurrent cfg <=? pc
  then (c, Err (CapProvider provider (per_provider_concurrent cfg))) else
  let exp := default 0 (lv_by_protocol g !! protocol) in
  match checked_add 256 exp notional with
  | None => (c, Err CapProtocol)
  | Some next =>
      if per_protocol_exposure cfg <? next then (c, Err CapProtocol) else
      (with_slots c (saturating_add 32 (lv_global g) 1) (<[protocol := next]> (lv_by_protocol g))
         (<[provider := saturating_add 32 pc 1]> (lv_by_provider g)),
       Ok (mkGuard protocol provider notional))
  end.

(** [get_mut] then an in-place update: nothing on an absent key. *)
Definition alter_sat `{Countable K} (k : K) (n : Z) (m : gmap K Z) : gmap K Z :=
  match m !! k with Some x => <[k := saturating_sub x n]> m | None => m end.

Definition release (c : Caps) (protocol : ProtocolId) (provider : FlashProvider) (notional : Z) : Caps :=
  let g := cp_live c in
  with_slots c (saturating_sub (lv_global g) 1) (alter_sat protocol notional (lv_by_protocol g))
    (alter_sat provider 1 (lv_by_provider g)).

(** [Drop for CapGuard]. *)
Definition drop_guard (c : Caps) (g : CapGuard) : Caps :=
  release c (cg_protocol g) (cg_provider g) (cg_notional g).

(** [record_fill]: the counters, and whether the concentration alert is logged. *)
Definition record_fill (c : Caps) (provider : FlashProvider) : Caps * bool :=
  let g := cp_live c in
  let total := saturating_add 64 (lv_liq_total g) 1 in
  let fills := <[provider := saturating_add 64 (default 0 (lv_liq_by_provider g !! provider)) 1]>
              (lv_liq_by_provider g) in
  let n := default 0 (fills !! provider) in
  let bps := if total =? 0 then 0 else default 0 (checked_div (saturating_mul 64 n 10000) total) in
  (mkCaps (cp_cfg c) (mkLive (lv_global g) (lv_by_protocol g) (lv_by_provider g) fills total
     (lv_il_ok g) (lv_il_fail g) (lv_haircut_bps g)),
   concentration_alert_bps (cp_cfg c) <=? bps).

Definition haircut_or_none (bps : Z) : Haircut := default HAIRCUT_NONE (from_bps bps).

Definition observe_liquidity_result (c : Caps) (insufficient : bool) : Caps * Haircut :=
  let g := cp_live c in
  let il_fail := if insufficient then saturating_add 64 (lv_il_fail g) 1 else lv_il_fail g in
  let il_ok := if insufficient then lv_il_ok g else saturating_add 64 (lv_il_ok g) 1 in
  let upd h := mkCaps (cp_cfg c) (mkLive (lv_global g) (lv_by_protocol g) (lv_by_provider g)
    (lv_liq_by_provider g) (lv_liq_total g) il_ok il_fail h) in
  let den := saturating_add 64 il_ok il_fail in
  if den =? 0 then (upd (lv_haircut_bps g), haircut_or_none (lv_haircut_bps g)) else
  let fail_bps := default 0 (checked_div (saturating_mul 64 il_fail 10000) den) in
  let h :=
    if 500 <? fail_bps then Z.max (saturating_sub (lv_haircut_bps g) 50) (haircut_floor_bps (cp_cfg c))
    else if fail_bps =? 0 then Z.min (saturating_add 16 (lv_haircut_bps g) 10) (haircut_ceil_bps (cp_cfg c))
    else lv_haircut_bps g in
  (upd h, haircut_or_none h).

Definition haircut (c : Caps) : Haircut := haircut_or_none (lv_haircut_bps (cp_live c)).

(** [observe_index]: the alerts logged for the major assets, single source and shallow depth. *)
Definition observe_index (idx : FlashIndex) (majors : list AssetId) (median_notional : Z)
    : list (AssetId * bool * bool) :=
  List.map (fun a => (a, (length (entries idx a) <? 2)%nat, available idx a <? median_notional)) majors.

(** ** Accounting *)

(** What a set of outstanding guards holds. *)
Definition count_provider (p : FlashProvider) (gs : list CapGuard) : Z :=
  Z.of_nat (length (List.filter (fun g => bool_decide (cg_provider g = p)) gs)).
Definition exposure (p : ProtocolId) (gs : list CapGuard) : Z :=
  foldr (fun g acc => (if bool_decide (cg_protocol g = p) then cg_notional g else 0) + acc) 0 gs.

(** The counters are exactly what the guards outstanding hold, within every cap. *)
Record caps_ok (c : Caps) (gs : list CapGuard) : Prop := {
  co_global : lv_global (cp_live c) = Z.of_nat (length gs);
  co_provider : forall p, default 0 (lv_by_provider (cp_live c) !! p) = count_provider p gs;
  co_protocol : forall p, default 0 (lv_by_protocol (cp_live c) !! p) = exposure p gs;
  co_notional : Forall (fun g => 0 <= cg_notional g <= per_liquidation_notional (cp_cfg c)) gs;
  co_caps : Z.of_nat (length gs) <= Z.max 0 (global_concurrent (cp_cfg c)) /\
    (forall p, count_provider p gs <= Z.max 0 (per_provider_concurrent (cp_cfg c))) /\
    (forall p, exposure p gs <= Z.max 0 (per_protocol_exposure (cp_cfg c)))
}.

Lemma count_provider_cons p g gs :
  count_provider p (g :: gs) = (if bool_decide (cg_provider g = p) then 1 else 0) + count_provider p gs.
Proof. unfold count_provider. cbn. destruct (bool_decide _); cbn; lia. Qed.

Lemma count_provider_nonneg p gs : 0 <= count_provider p gs.
Proof. unfold count_provider. lia. Qed.

Lemma count_provider_perm p gs gs' : gs ≡ₚ gs' -> count_provider p gs = count_provider p gs'.
Proof. induction 1; rewrite ?count_provider_cons; lia. Qed.

Lemma exposure_cons p g gs :
  exposure p (g :: gs) = (if bool_decide (cg_protocol g = p) then cg_notional g else 0) + exposure p gs.
Proof. done. Qed.

Lemma exposure_perm p gs gs' : gs ≡ₚ gs' -> exposure p gs = exposure p gs'.
Proof. induction 1; unfold exposure in *; cbn in *; lia. Qed.

Lemma exposure_nonneg p gs : Forall (fun g => 0 <= cg_notional g) gs -> 0 <= exposure p gs.
Proof. unfold exposure. induction 1; cbn; [lia|]. destruct (bool_decide _); lia. Qed.

Lemma caps_ok_perm c gs gs' : gs ≡ₚ gs' -> caps_ok c gs -> caps_ok c gs'.
Proof.
  intros Hp [Hg Hpr Hpt Hn (Hc1 & Hc2 & Hc3)].
  split.
  - by rewrite <- Hp.
  - intros p. by rewrite <- (count_provider_perm p _ _ Hp).
  - intros p. by rewrite <- (exposure_perm p _ _ Hp).
  - by rewrite <- Hp.
  - rewrite <- Hp. split; [done|]. split; intros p;
      [rewrite <- (count_provider_perm p _ _ Hp)|rewrite <- (exposure_perm p _ _ Hp)]; auto.
Qed.

Lemma default_insert `{Countable K} (k k' : K) (x : Z) (m : gmap K Z) :
  default 0 (<[k := x]> m !! k') = if bool_decide (k = k') then x else default 0 (m !! k').
Proof.
  case_bool_decide; [subst; by rewrite lookup_insert_eq|by rewrite lookup_insert_ne].
Qed.

Lemma default_alter_sat `{Countable K} (k k' : K) (n : Z) (m : gmap K Z) :
  0 <= n -> default 0 (alter_sat k n m !! k') =
  if bool_decide (k = k') then saturating_sub (default 0 (m !! k')) n else default 0 (m !! k').
Proof.
  intros Hn. unfold alter_sat. destruct (m !! k) as [x|] eqn:E.
  - rewrite default_insert. case_bool_decide; [subst; by rewrite E|done].
  - case_bool_decide; [|done]. subst. rewrite E. cbn. unfold saturating_sub. lia.
Qed.

(** Acquiring adds one guard to the account or changes nothing. *)
Lemma try_acquire_ok c gs p f n :
  caps_ok c gs -> 0 <= n -> uint_ok 32 (global_concurrent (cp_cfg c)) ->
  uint_ok 32 (per_provider_concurrent (cp_cfg c)) ->
  match try_acquire c p f n with
  | (c', Ok g) => g = mkGuard p f n /\ caps_ok c' (g :: gs) /\ cp_cfg c' = cp_cfg c
  | (c', Err _) => c' = c
  end.
Proof.
  intros [Hg Hpr Hpt Hn (Hc1 & Hc2 & Hc3)] Hn0 [_ Hg32] [_ Hp32]. unfold try_acquire. cbv zeta.
  destruct (Z.ltb_spec (per_liquidation_notional (cp_cfg c)) n); [done|].
  destruct (Z.leb_spec (global_concurrent (cp_cfg c)) (lv_global (cp_live c))); [done|].
  rewrite (Hpr f). pose proof (count_provider_nonneg f gs) as Hf0.
  destruct (Z.leb_spec (per_provider_concurrent (cp_cfg c)) (count_provider f gs)); [done|].
  rewrite (Hpt p). destruct (checked_add 256 (exposure p gs) n) as [next|] eqn:E; [|done].
  apply checked_add_Some in E as [-> _].
  destruct (Z.ltb_spec (per_protocol_exposure (cp_cfg c)) (exposure p gs + n)); [done|].
  split; [done|]. split; [|done].
  split; cbn [cp_live cp_cfg with_slots lv_global lv_by_provider lv_by_protocol].
  - unfold saturating_add. cbn [length]. lia.
  - intros q. rewrite default_insert, count_provider_cons. cbn [cg_provider].
    case_bool_decide; subst; [unfold saturating_add; lia|]. rewrite Hpr. lia.
  - intros q. rewrite default_insert, exposure_cons. cbn [cg_protocol cg_notional].
    case_bool_decide; subst; [lia|]. rewrite Hpt. lia.
  - constructor; [cbn; lia|done].
  - split; [cbn [length]; lia|]. split; intros q.
    + rewrite count_provider_cons. cbn. specialize (Hc2 q). case_bool_decide; subst; lia.
    + rewrite exposure_cons. cbn. specialize (Hc3 q). case_bool_decide; subst; lia.
Qed.

(** Dropping a guard takes exactly its share off. *)
Lemma drop_guard_ok c gs g : caps_ok c (g :: gs) -> caps_ok (drop_guard c g) gs.
Proof.
  intros [Hg Hpr Hpt Hn (Hc1 & Hc2 & Hc3)]. apply Forall_cons in Hn as [Hg0 Hn].
  assert (forall p, 0 <= exposure p gs) as Hx.
  { intros p. apply exposure_nonneg. eapply Forall_impl; [exact Hn|]. intros; cbv beta in *; lia. }
  split; cbn [cp_live cp_cfg drop_guard release with_slots lv_global lv_by_provider lv_by_protocol].
  - rewrite Hg. unfold saturating_sub. cbn [length]. lia.
  - intros p. rewrite default_alter_sat by lia. rewrite Hpr, count_provider_cons.
    pose proof (count_provider_nonneg p gs). case_bool_decide; unfold saturating_sub; lia.
  - intros p. rewrite default_alter_sat by lia. rewrite Hpt, exposure_cons. specialize (Hx p).
    case_bool_decide; unfold saturating_sub; lia.
  - done.
  - split; [cbn [length] in Hc1; lia|]. split; intros p.
    + specialize (Hc2 p). rewrite count_provider_cons in Hc2. case_bool_decide; lia.
    + specialize (Hc3 p). rewrite exposure_cons in Hc3. case_bool_decide; lia.
Qed.

(** ** Runs *)

Inductive CapOp :=
  | OpAcquire (p : ProtocolId) (f : FlashProvider) (n : Z)
  | OpDrop (k : nat)
  | OpFill (f : FlashProvider)
  | OpLiquidity (insufficient : bool).

(** A step with the guards outstanding: dropping picks any of them. *)
Definition cap_step (st : Caps * list CapGuard) (op : CapOp) : Caps * list CapGuard :=
  let '(c, gs) := st in
  match op with
  | OpAcquire p f n =>
      match try_acquire c p f n with
      | (c, Ok g) => (c, g :: gs)
      | (c, Err _) => (c, gs)
      end
  | OpDrop k => match gs !! k with Some g => (drop_guard c g, delete k gs) | None => st end
  | OpFill f => (fst (record_fill c f), gs)
  | OpLiquidity b => (fst (observe_liquidity_result c b), gs)
  end.

Definition cap_run (cfg : CapConfig) (ops : list CapOp) : Caps * list CapGuard :=
  fold_left cap_step ops (caps_new cfg, []).

Definition op_nonneg (op : CapOp) : Prop :=
  match op with OpAcquire _ _ n => 0 <= n | _ => True end.

Definition cfg_ok (cfg : CapConfig) : Prop :=
  uint_ok 32 (global_concurrent cfg) /\ uint_ok 32 (per_provider_concurrent cfg) /\
  0 <= haircut_floor_bps cfg <= haircut_ceil_bps cfg /\ haircut_ceil_bps cfg <= 10000.

Lemma caps_ok_live c gs l :
  lv_global l = lv_global (cp_live c) -> lv_by_protocol l = lv_by_protocol (cp_live c) ->
  lv_by_provider l = lv_by_provider (cp_live c) -> caps_ok c gs -> caps_ok (mkCaps (cp_cfg c) l) gs.
Proof. intros H1 H2 H3 [? ? ? ? ?]. split; cbn; by rewrite ?H1, ?H2, ?H3. Qed.

Definition run_inv (cfg : CapConfig) (st : Caps * list CapGuard) : Prop :=
  cp_cfg (fst st) = cfg /\ caps_ok (fst st) (snd st) /\
  haircut_floor_bps cfg <= lv_haircut_bps (cp_live (fst st)) <= haircut_ceil_bps cfg.

Lemma liquidity_haircut c b :
  cfg_ok (cp_cfg c) ->
  haircut_floor_bps (cp_cfg c) <= lv_haircut_bps (cp_live c) <= haircut_ceil_bps (cp_cfg c) ->
  let '(c', h) := observe_liquidity_result c b in
  haircut_floor_bps (cp_cfg c) <= lv_haircut_bps (cp_live c') <= haircut_ceil_bps (cp_cfg c) /\
  h = mkHaircut (lv_haircut_bps (cp_live c')).
Proof.
  intros (_ & _ & Hf & Hc) Hh. unfold observe_liquidity_result. cbv zeta.
  assert (forall x, x <= 10000 -> haircut_or_none x = mkHaircut x) as Hhn.
  { intros x Hx. unfold haircut_or_none, from_bps. by rewrite (proj2 (Z.ltb_ge _ _) Hx). }
  destruct (saturating_add 64 _ _ =? 0); [cbn; split; [lia|apply Hhn; lia]|].
  set (fb := default 0 _). cbn [cp_live lv_haircut_bps].
  assert (haircut_floor_bps (cp_cfg c) <=
    (if 500 <? fb then Z.max (saturating_sub (lv_haircut_bps (cp_live c)) 50) (haircut_floor_bps (cp_cfg c))
     else if fb =? 0 then Z.min (saturating_add 16 (lv_haircut_bps (cp_live c)) 10) (haircut_ceil_bps (cp_cfg c))
     else lv_haircut_bps (cp_live c)) <= haircut_ceil_bps (cp_cfg c)) as Hb.
  { unfold saturating_sub, saturating_add, umax. destruct (500 <? fb); [lia|]. destruct (fb =? 0); lia. }
  split; [exact Hb|apply Hhn; lia].
Qed.

Lemma run_inv_step cfg st op :
  cfg_ok cfg -> op_nonneg op -> run_inv cfg st -> run_inv cfg (cap_step st op).
Proof.
  intros Hcfg Hop. destruct st as [c gs]. intros (<- & Hok & Hh). cbn in Hok, Hh.
  destruct op as [p f n|k|f|b]; cbn [cap_step].
  - pose proof (try_acquire_ok c gs p f n Hok Hop (proj1 Hcfg) (proj1 (proj2 Hcfg))) as H.
    assert (lv_haircut_bps (cp_live (fst (try_acquire c p f n))) = lv_haircut_bps (cp_live c)) as Eh.
    { unfold try_acquire. cbv zeta. repeat case_match; done. }
    destruct (try_acquire c p f n) as [c' [g|e]]; [|by subst].
    destruct H as (-> & H & Ec). split; [done|]. split; [done|]. cbn in *. rewrite Eh. exact Hh.
  - destruct (gs !! k) as [g|] eqn:E; [|by split].
    split; [done|]. split; [|done]. apply drop_guard_ok.
    eapply caps_ok_perm; [|exact Hok]. by apply delete_Permutation.
  - split; [done|]. split; [|done]. by apply caps_ok_live.
  - pose proof (liquidity_haircut c b Hcfg Hh) as H.
    assert (exists l, fst (observe_liquidity_result c b) = mkCaps (cp_cfg c) l /\
      lv_global l = lv_global (cp_live c) /\ lv_by_protocol l = lv_by_protocol (cp_live c) /\
      lv_by_provider l = lv_by_provider (cp_live c)) as (l & El & H1 & H2 & H3).
    { unfold observe_liquidity_result. cbv zeta. destruct (saturating_add 64 _ _ =? 0); eexists; split; done. }
    destruct (observe_liquidity_result c b) as [c' h]. cbn in *. subst c'.
    split; [done|]. split; [by apply caps_ok_live|]. exact (proj1 H).
Qed.

Lemma cap_run_inv cfg ops :
  cfg_ok cfg -> Forall op_nonneg ops -> run_inv cfg (cap_run cfg ops).
Proof.
  intros Hcfg Hops. unfold cap_run.
  assert (run_inv cfg (caps_new cfg, [])) as H0.
  { split; [done|]. split; [|destruct Hcfg as (_ & _ & ? & ?); cbn; lia].
    split; cbn; try done; [by intros; rewrite lookup_empty..|].
    split; [lia|]. split; intros; unfold count_provider; cbn; lia. }
  revert H0. generalize (caps_new cfg, @nil CapGuard).
  induction Hops as [|op ops Hop _ IH]; intros st Hst; [done|]. cbn. by apply IH, run_inv_step.
Qed.

(** The caps account exactly for the guards outstanding: after any interleaving of
    acquisitions, guard drops in any order, fills and liquidity observations, the global and
    per-provider counters and the per-protocol exposure equal what the live guards hold (no
    slot leaks and none is freed twice), so no cap is ever exceeded. *)
Theorem caps_account_for_guards (cfg : CapConfig) (ops : list CapOp)
    (Hcfg : cfg_ok cfg) (Hops : Forall op_nonneg ops) :
  let '(c, gs) := cap_run cfg ops in
  lv_global (cp_live c) = Z.of_nat (length gs) /\
  (forall f, default 0 (lv_by_provider (cp_live c) !! f) = count_provider f gs) /\
  (forall p, default 0 (lv_by_protocol (cp_live c) !! p) = exposure p gs) /\
  Z.of_nat (length gs) <= global_concurrent cfg /\
  (forall f, count_provider f gs <= per_provider_concurrent cfg) /\
  (forall p, exposure p gs <= Z.max 0 (per_protocol_exposure cfg)) /\
  Forall (fun g => cg_notional g <= per_liquidation_notional cfg) gs.
Proof.
  pose proof (cap_run_inv cfg ops Hcfg Hops) as H. destruct (cap_run cfg ops) as [c gs].
  destruct H as (<- & [Hg Hpr Hpt Hn (Hc1 & Hc2 & Hc3)] & _). destruct Hcfg as ([? _] & [? _] & _).
  cbn [fst snd] in *. do 3 (split; [done|]). split; [lia|]. split; [intros f; specialize (Hc2 f); lia|].
  split; [done|]. eapply Forall_impl; [exact Hn|]. intros g Hgn. cbv beta in *. lia.
Qed.

Lemma caps_account_for_guards_witness :
  let ops := [OpAcquire 1 FMorpho 50; OpAcquire 1 FMorpho 60; OpAcquire 2 FAave 70; OpDrop 1;
              OpAcquire 1 FMorpho 60; OpFill FMorpho; OpLiquidity true] in
  length (snd (cap_run cap_default ops)) = 2%nat /\
  (let '(c, gs) := cap_run cap_default ops in
   lv_global (cp_live c) = Z.of_nat (length gs) /\
   (forall f, default 0 (lv_by_provider (cp_live c) !! f) = count_provider f gs) /\
   (forall p, default 0 (lv_by_protocol (cp_live c) !! p) = exposure p gs) /\
   Z.of_nat (length gs) <= global_concurrent cap_default /\
   (forall f, count_provider f gs <= per_provider_concurrent cap_default) /\
   (forall p, exposure p gs <= Z.max 0 (per_protocol_exposure cap_default)) /\
   Forall (fun g => cg_notional g <= per_liquidation_notional cap_default) gs).
Proof.
  split; [vm_compute; reflexivity|].
  apply caps_account_for_guards; [|repeat constructor; cbn; lia].
  repeat split; cbn; unfold umax; lia.
Defined.

(** The auto-tuned haircut stays between its configured floor and ceiling on every run,
    and what [observe_liquidity_result] and [haircut] return is the stored value. *)
Theorem haircut_stays_in_range (cfg : CapConfig) (ops : list CapOp) (b : bool)
    (Hcfg : cfg_ok cfg) (Hops : Forall op_nonneg ops) :
  let c := fst (cap_run cfg ops) in
  haircut_floor_bps cfg <= hc_bps (haircut c) <= haircut_ceil_bps cfg /\
  snd (observe_liquidity_result c b) = haircut (fst (observe_liquidity_result c b)).
Proof.
  intros c. destruct (cap_run_inv cfg ops Hcfg Hops) as (Ec & _ & Hh). fold c in Ec, Hh.
  assert (forall x, x <= 10000 -> haircut_or_none x = mkHaircut x) as Hhn.
  { intros x Hx. unfold haircut_or_none, from_bps. by rewrite (proj2 (Z.ltb_ge _ _) Hx). }
  pose proof Hcfg as (_ & _ & ? & ?). split; [unfold haircut; rewrite Hhn by lia; exact Hh|].
  rewrite <- Ec in *. pose proof (liquidity_haircut c b Hcfg Hh) as H'.
  destruct (observe_liquidity_result c b) as [c' h]. destruct H' as [? ->]. cbn [fst snd].
  unfold haircut. by rewrite Hhn by lia.
Qed.

Lemma haircut_stays_in_range_witness :
  let c := fst (cap_run cap_default [OpLiquidity true; OpLiquidity false]) in
  haircut_floor_bps cap_default <= hc_bps (haircut c) <= haircut_ceil_bps cap_default /\
  snd (observe_liquidity_result c true) = haircut (fst (observe_liquidity_result c true)).
Proof.
  apply haircut_stays_in_range; [repeat split; cbn; unfold umax; lia|repeat constructor].
Defined.
