(* ===== verification/Ledger.v ===== *)
(** The operational PnL ledger: [crates/liq-risk/src/ledger.rs].

    The calendar arithmetic, the row sums and the daily reconcile. SQLite and the decimal
    codec of [U256] are not in the repository: the statements the ledger runs and the parser
    it calls are arguments ([Sql], [parse_u256]). A day is the byte list of its string;
    [i32]/[i64] arithmetic is [Z] with its range tested where the code tests it. *)

From S2P Require Import Prelude Types.
From stdpp Require Import strings.
Local Open Scope Z_scope.
Local Open Scope string_scope.
Local Open Scope Z_scope.

Section Errors.
Context {SqlError : Type}.

Inductive LedgerError :=
  | Sql_ (e : SqlError)
  | Parse (column : string)
  | Reconcile (bps : Z)
  | OutcomeEmpty.
End Errors.
Arguments LedgerError : clear implicits.

Definition RECONCILE_MAX_BPS : Z := 100.
Definition SECS_PER_UTC_DAY : Z := 86400.

(** ** The calendar *)

Definition is_leap_year (y : Z) : bool :=
  (y mod 4 =? 0) && (negb (y mod 100 =? 0) || (y mod 400 =? 0)).

Definition days_in_month (y m : Z) : Z :=
  match m with
  | 1 | 3 | 5 | 7 | 8 | 10 | 12 => 31
  | 4 | 6 | 9 | 11 => 30
  | 2 => if is_leap_year y then 29 else 28
  | _ => 0
  end.

Section Calendar.
Context {SqlError : Type}.
Abbreviation LErr := (LedgerError SqlError) (only parsing).

Definition days_from_civil (y m d : Z) : Result LErr Z :=
  let? y := if m <=? 2 then ok_or (checked_i 64 (y - 1)) (Parse "day") else Ok y in
  let era := y / 400 in
  let yoe := y mod 400 in
  let? month_shift := if 2 <? m then ok_or (checked_i 64 (m - 3)) (Parse "day")
                      else ok_or (checked_i 64 (m + 9)) (Parse "day") in
  let? doy := ok_or (let! v := checked_i 64 (153 * month_shift) in
                     let! v := checked_i 64 (v + 2) in
                     let! v := checked_i 64 (Z.quot v 5) in
                     let! v := checked_i 64 (v + d) in
                     checked_i 64 (v - 1)) (Parse "day") in
  let? doe := ok_or (let! v := checked_i 64 (yoe * 365) in
                     let! v := checked_i 64 (v + yoe / 4) in
                     let! v := checked_i 64 (v - yoe / 100) in
                     checked_i 64 (v + doy)) (Parse "day") in
  ok_or (let! v := checked_i 64 (era * 146097) in
         let! v := checked_i 64 (v + doe) in
         checked_i 64 (v - 719468)) (Parse "day").

Fixpoint parse_ascii_loop (b : list Z) (n : Z) : Result LErr Z :=
  match b with
  | [] => Ok n
  | c :: b =>
      if negb ((48 <=? c) && (c <=? 57)) then Err (Parse "day") else
      let? digit := ok_or (checked_sub c 48) (Parse "day") in
      let? n := ok_or (let! n := checked_i 32 (n * 10) in checked_i 32 (n + digit)) (Parse "day") in
      parse_ascii_loop b n
  end.

Definition parse_ascii_i32 (b : list Z) : Result LErr Z := parse_ascii_loop b 0.

Definition parse_ascii_u8 (b : list Z) : Result LErr Z :=
  let? n := parse_ascii_i32 b in ok_or (try_from 8 n) (Parse "day").

(** [b.get(lo..hi)]. *)
Definition get_range (b : list Z) (lo hi : nat) : option (list Z) :=
  if (hi <=? length b)%nat then Some (take (hi - lo) (drop lo b)) else None.

Definition unix_range_utc_day (b : list Z) : Result LErr (Z * Z) :=
  if negb (length b =? 10)%nat || negb (bool_decide (b !! 4%nat = Some 45)) ||
     negb (bool_decide (b !! 7%nat = Some 45))
  then Err (Parse "day") else
  let? b0 := ok_or (get_range b 0 4) (Parse "day") in
  let? y := parse_ascii_i32 b0 in
  let? b1 := ok_or (get_range b 5 7) (Parse "day") in
  let? m := parse_ascii_u8 b1 in
  let? b2 := ok_or (get_range b 8 10) (Parse "day") in
  let? d := parse_ascii_u8 b2 in
  if negb ((1 <=? m) && (m <=? 12)) || (d <? 1) || (days_in_month y m <? d) then Err (Parse "day") else
  let? days := days_from_civil y m d in
  let? start := ok_or (checked_i 64 (days * SECS_PER_UTC_DAY)) (Parse "day") in
  let? stop := ok_or (checked_i 64 (start + SECS_PER_UTC_DAY)) (Parse "day") in
  Ok (start, stop).

(** ** Sums and the daily reconcile *)

(** The statements the ledger runs: the day's [net_wei] column, and the reconcile row's
    write. *)
Record Sql := mkSql {
  sq_net_between : Z -> Z -> Result SqlError (list (Result SqlError (list Z)));
  sq_put_reconcile : list Z -> Z -> Z -> Z -> Result SqlError unit
}.

Context (parse_u256 : list Z -> option Z).

Fixpoint accumulate_loop (strings : list (Result SqlError (list Z))) (acc : Z) : Result LErr Z :=
  match strings with
  | [] => Ok acc
  | s :: rest =>
      let? s := map_err Sql_ s in
      let? v := ok_or (parse_u256 s) (Parse "net_wei") in
      let? acc := ok_or (checked_add 256 acc v) (Parse "net_wei overflow") in
      accumulate_loop rest acc
  end.

Definition accumulate_net_wei (strings : list (Result SqlError (list Z))) : Result LErr Z :=
  accumulate_loop strings 0.

Definition sum_net_for_day (sql : Sql) (day : list Z) : Result LErr Z :=
  let? (start, stop) := unix_range_utc_day day in
  let? strings := map_err Sql_ (sq_net_between sql start stop) in
  accumulate_net_wei strings.

Definition reconcile_bps (ledger chain_net_wei : Z) : Result LErr Z :=
  let diff := if chain_net_wei <? ledger then saturating_sub ledger chain_net_wei
              else saturating_sub chain_net_wei ledger in
  if chain_net_wei =? 0 then
    if ledger =? 0 then Ok 0 else Err (Reconcile (umax 32))
  else
    match (let! n := checked_mul 256 diff 10000 in checked_div n chain_net_wei) with
    | Some b => Ok (default (umax 32) (try_from 32 (Z.min b (umax 32))))
    | None => Err (Parse "reconcile")
    end.

Definition reconcile_day (sql : Sql) (day : list Z) (chain_net_wei : Z) : Result LErr Z :=
  let? ledger := sum_net_for_day sql day in
  let? bps := reconcile_bps ledger chain_net_wei in
  let? _ := map_err Sql_ (sq_put_reconcile sql day ledger chain_net_wei bps) in
  if RECONCILE_MAX_BPS <? bps then Err (Reconcile bps) else Ok bps.
End Calendar.

(** ** The Gregorian calendar, day by day *)

Record date := mkDate { dt_y : Z; dt_m : Z; dt_d : Z }.

Definition next_date (x : date) : date :=
  if dt_d x <? days_in_month (dt_y x) (dt_m x) then mkDate (dt_y x) (dt_m x) (dt_d x + 1)
  else if dt_m x <? 12 then mkDate (dt_y x) (dt_m x + 1) 1
  else mkDate (dt_y x + 1) 1 1.

(** The date [n] days after 1970-01-01. *)
Definition date_after (n : nat) : date := Nat.iter n next_date (mkDate 1970 1 1).

Definition date_ok (x : date) : Prop :=
  1970 <= dt_y x /\ 1 <= dt_m x <= 12 /\ 1 <= dt_d x <= days_in_month (dt_y x) (dt_m x).

Definition digit (n : Z) : Z := 48 + n mod 10.
(** [YYYY-MM-DD]. *)
Definition print_date (x : date) : list Z :=
  [digit (dt_y x / 1000); digit (dt_y x / 100); digit (dt_y x / 10); digit (dt_y x); 45;
   digit (dt_m x / 10); digit (dt_m x); 45; digit (dt_d x / 10); digit (dt_d x)].

Lemma months m : 1 <= m <= 12 ->
  m = 1 \/ m = 2 \/ m = 3 \/ m = 4 \/ m = 5 \/ m = 6 \/ m = 7 \/ m = 8 \/ m = 9 \/ m = 10 \/ m = 11 \/ m = 12.
Proof. lia. Qed.

Ltac by_month m := destruct (months m ltac:(lia)) as
  [-> | [-> | [-> | [-> | [-> | [-> | [-> | [-> | [-> | [-> | [-> | ->]]]]]]]]]]].

Lemma days_in_month_bounds y m : 1 <= m <= 12 -> 28 <= days_in_month y m <= 31.
Proof. intros H. by_month m; cbn; try lia. destruct (is_leap_year y); lia. Qed.

Lemma date_ok_after n : date_ok (date_after n).
Proof.
  induction n as [|n IH]; [repeat split; cbn; lia|].
  change (date_after (S n)) with (next_date (date_after n)).
  destruct (date_after n) as [y m d]. destruct IH as (Hy & Hm & Hd). cbn in *. unfold next_date. cbn.
  destruct (Z.ltb_spec d (days_in_month y m)); [repeat split; cbn; lia|].
  destruct (Z.ltb_spec m 12); [|repeat split; cbn; lia].
  pose proof (days_in_month_bounds y (m + 1) ltac:(lia)). repeat split; cbn; lia.
Qed.

(** The closed form: days since the epoch by whole years and the shifted month table. *)
Definition civil (y m d : Z) : Z :=
  let y := if m <=? 2 then y - 1 else y in
  let ms := if 2 <? m then m - 3 else m + 9 in
  365 * y + y / 4 - y / 100 + y / 400 + ((153 * ms + 2) / 5 + d - 1) - 719468.

Lemma checked_i_ok w x : - 2 ^ (w - 1) <= x <= 2 ^ (w - 1) - 1 -> checked_i w x = Some x.
Proof. intros H. unfold checked_i. by rewrite (proj2 (Z.leb_le _ _)), (proj2 (Z.leb_le _ _)) by lia. Qed.

Lemma days_from_civil_eq {E} y m d :
  0 <= y <= 100000 -> 1 <= m <= 12 -> 1 <= d <= 31 ->
  @days_from_civil E y m d = Ok (civil y m d).
Proof.
  intros Hy Hm Hd. unfold days_from_civil, civil.
  assert (exists y', (if m <=? 2 then y - 1 else y) = y' /\ -1 <= y' <= 100000) as (y' & E1 & Hy')
    by (destruct (m <=? 2); eexists; split; try done; lia).
  assert ((if m <=? 2 then ok_or (checked_i 64 (y - 1)) (@Parse E "day") else Ok y) = Ok y') as ->.
  { rewrite <- E1. destruct (m <=? 2); [|done]. by rewrite checked_i_ok by lia. }
  assert (exists ms, (if 2 <? m then m - 3 else m + 9) = ms /\ 0 <= ms <= 11) as (ms & E2 & Hms)
    by (destruct (Z.ltb_spec 2 m); eexists; split; try done; lia).
  assert ((if 2 <? m then ok_or (checked_i 64 (m - 3)) (@Parse E "day") else ok_or (checked_i 64 (m + 9)) (Parse "day")) = Ok ms) as ->.
  { rewrite <- E2. destruct (2 <? m); by rewrite checked_i_ok by lia. }
  rewrite E1, E2. cbv zeta.
  rewrite (checked_i_ok 64 (153 * ms)), (checked_i_ok 64 (153 * ms + 2)) by lia.
  rewrite Z.quot_div_nonneg by lia.
  assert (0 <= (153 * ms + 2) / 5 <= 400) by (Z.to_euclidean_division_equations; lia).
  set (q := (153 * ms + 2) / 5) in *. rewrite !(checked_i_ok 64) by lia. cbn [ok_or].
  assert (0 <= y' mod 400 < 400) by (apply Z.mod_pos_bound; lia).
  assert (0 <= y' mod 400 / 4 < 100 /\ 0 <= y' mod 400 / 100 < 4 /\ -1 <= y' / 400 <= 250) as (? & ? & ?)
    by (Z.to_euclidean_division_equations; lia).
  rewrite !(checked_i_ok 64) by lia. cbn [ok_or]. rewrite !(checked_i_ok 64) by lia. cbn [ok_or]. f_equal.
  assert (y' mod 400 / 4 = y' / 4 - 100 * (y' / 400) /\ y' mod 400 / 100 = y' / 100 - 4 * (y' / 400) /\
    y' mod 400 = y' - 400 * (y' / 400)) as (-> & -> & ->) by (Z.to_euclidean_division_equations; lia).
  lia.
Qed.

(** Decide the comparisons between known numbers. *)
Ltac concrete_tests := repeat match goal with
  | |- context [?a <=? ?b] => (destruct (Z.leb_spec a b); [|exfalso; lia]) || (destruct (Z.leb_spec a b); [exfalso; lia|])
  | |- context [?a <? ?b] => (destruct (Z.ltb_spec a b); [|exfalso; lia]) || (destruct (Z.ltb_spec a b); [exfalso; lia|])
  end.

Lemma civil_next x : date_ok x -> let x' := next_date x in
  civil (dt_y x') (dt_m x') (dt_d x') = civil (dt_y x) (dt_m x) (dt_d x) + 1.
Proof.
  destruct x as [y m d]. intros (Hy & Hm & Hd). cbn in Hy, Hm, Hd. unfold next_date.
  cbn [dt_y dt_m dt_d].
  destruct (Z.ltb_spec d (days_in_month y m)) as [Hlt|Hge]; [unfold civil; cbn [dt_y dt_m dt_d]; lia|].
  assert (d = days_in_month y m) as -> by lia. clear Hd Hge.
  by_month m; unfold civil; cbn [days_in_month]; concrete_tests; cbn [dt_y dt_m dt_d]; concrete_tests;
    try (Z.to_euclidean_division_equations; lia).
  unfold is_leap_year.
  destruct (Z.eqb_spec (y mod 4) 0), (Z.eqb_spec (y mod 100) 0), (Z.eqb_spec (y mod 400) 0);
    cbn [andb negb orb]; Z.to_euclidean_division_equations; lia.
Qed.

Lemma civil_after n :
  civil (dt_y (date_after n)) (dt_m (date_after n)) (dt_d (date_after n)) = Z.of_nat n.
Proof.
  induction n as [|n IH]; [reflexivity|].
  change (date_after (S n)) with (next_date (date_after n)).
  rewrite civil_next by apply date_ok_after. rewrite IH. lia.
Qed.

(** ** Reading a printed date *)

Lemma digit_ok n : 48 <= digit n <= 57.
Proof. unfold digit. pose proof (Z.mod_pos_bound n 10). lia. Qed.

Lemma parse_digit_step {E} n b acc :
  0 <= acc <= 9999999 -> @parse_ascii_loop E (digit n :: b) acc = parse_ascii_loop b (acc * 10 + n mod 10).
Proof.
  intros Ha. cbn [parse_ascii_loop]. pose proof (digit_ok n). pose proof (Z.mod_pos_bound n 10 ltac:(lia)).
  rewrite (proj2 (Z.leb_le 48 _)), (proj2 (Z.leb_le _ 57)) by lia. cbn [andb negb].
  rewrite checked_sub_ok by lia. cbn [ok_or]. unfold digit. rewrite !checked_i_ok by lia.
  cbn [ok_or]. f_equal. lia.
Qed.

Lemma parse_4 {E} y : 0 <= y <= 9999 ->
  @parse_ascii_i32 E [digit (y / 1000); digit (y / 100); digit (y / 10); digit y] = Ok y.
Proof.
  intros Hy. unfold parse_ascii_i32. pose proof (fun n => Z.mod_pos_bound n 10 ltac:(lia)) as Hm.
  rewrite !parse_digit_step by (pose proof (Hm (y / 1000)); pose proof (Hm (y / 100)); pose proof (Hm (y / 10)); lia).
  cbn [parse_ascii_loop]. f_equal. clear Hm. Z.to_euclidean_division_equations; lia.
Qed.

Lemma parse_2 {E} n : 0 <= n <= 99 -> @parse_ascii_u8 E [digit (n / 10); digit n] = Ok n.
Proof.
  intros Hn. unfold parse_ascii_u8, parse_ascii_i32.
  pose proof (Z.mod_pos_bound (n / 10) 10 ltac:(lia)). rewrite !parse_digit_step by lia.
  cbn [parse_ascii_loop].
  assert ((0 * 10 + (n / 10) mod 10) * 10 + n mod 10 = n) as -> by (Z.to_euclidean_division_equations; lia).
  by rewrite try_from_ok by (split; unfold umax; lia).
Qed.

Lemma unix_range_printed {E} x :
  date_ok x -> dt_y x <= 9999 ->
  @unix_range_utc_day E (print_date x) =
  Ok (civil (dt_y x) (dt_m x) (dt_d x) * SECS_PER_UTC_DAY,
      civil (dt_y x) (dt_m x) (dt_d x) * SECS_PER_UTC_DAY + SECS_PER_UTC_DAY).
Proof.
  intros (Hy & Hm & Hd) Hy'. pose proof (days_in_month_bounds (dt_y x) (dt_m x) Hm) as Hdim.
  unfold unix_range_utc_day, get_range, print_date. cbn [length Nat.eqb negb orb].
  rewrite !bool_decide_eq_true_2 by done. cbn [negb orb Nat.leb length drop take Nat.sub ok_or].
  rewrite parse_4 by lia. rewrite !parse_2 by lia.
  rewrite (proj2 (Z.leb_le 1 _)), (proj2 (Z.leb_le _ 12)), (proj2 (Z.ltb_ge _ 1)),
    (proj2 (Z.ltb_ge (days_in_month _ _) _)) by lia. cbn [andb negb orb].
  rewrite days_from_civil_eq by lia.
  assert (- 1000000 <= civil (dt_y x) (dt_m x) (dt_d x) <= 4000000) as Hc.
  { unfold civil. destruct (dt_m x <=? 2), (2 <? dt_m x); Z.to_euclidean_division_equations; lia. }
  unfold SECS_PER_UTC_DAY. rewrite checked_i_ok by lia. cbn [ok_or]. rewrite checked_i_ok by lia. done.
Qed.

(** The ledger's day boundaries are the Gregorian UTC ones: for the calendar date [n] days
    after 1970-01-01 (up to year 9999), [unix_range_utc_day] of its [YYYY-MM-DD] string is
    exactly the half-open interval of Unix seconds of that day, so consecutive days tile
    time and every timestamp falls in exactly one of them. *)
Theorem utc_day_range {E : Type} (n : nat) (Hy : dt_y (date_after n) <= 9999) :
  @unix_range_utc_day E (print_date (date_after n)) = Ok (86400 * Z.of_nat n, 86400 * (Z.of_nat n + 1)).
Proof.
  rewrite unix_range_printed by (done || apply date_ok_after). rewrite civil_after.
  unfold SECS_PER_UTC_DAY. f_equal. f_equal; lia.
Qed.

Lemma utc_day_range_witness :
  print_date (date_after 789) = [49; 57; 55; 50; 45; 48; 50; 45; 50; 57] /\
  @unix_range_utc_day unit (print_date (date_after 789)) =
    Ok (86400 * Z.of_nat 789, 86400 * (Z.of_nat 789 + 1)).
Proof. split; [vm_compute; reflexivity|]. apply utc_day_range. vm_compute. discriminate. Defined.

(** ** Reconciling *)

Definition net_total (vs : list Z) : Z := foldr Z.add 0 vs.

Lemma accumulate_ok {E} (parse : list Z -> option Z) (rows : list (Result E (list Z))) vs acc :
  Forall2 (fun r v => exists s, r = Ok s /\ parse s = Some v) rows vs -> Forall (Z.le 0) vs ->
  0 <= acc -> acc + net_total vs <= umax 256 ->
  accumulate_loop parse rows acc = Ok (acc + net_total vs).
Proof.
  intros HF. revert acc. induction HF as [|r v rows vs (s & -> & Hp) _ IH]; intros acc Hv Ha Hs.
  { cbn. f_equal. lia. }
  apply Forall_cons in Hv as [Hv0 Hv].
  change (net_total (v :: vs)) with (v + net_total vs) in *. cbn [accumulate_loop map_err]. rewrite Hp.
  assert (0 <= net_total vs) by (clear -Hv; unfold net_total; induction Hv; cbn; lia).
  cbn [ok_or]. rewrite checked_add_ok by lia. cbn [ok_or]. rewrite IH by (done || lia). f_equal. lia.
Qed.

(** The daily reconcile accepts exactly the days within tolerance: when the day's rows parse
    to nets summing to [L] and the reconcile row is written, it returns the floored
    difference in basis points of the chain's net [C] exactly when [10000 * |L - C| < 101 * C]
    (or both are zero), and otherwise fails with the difference, never by accepting. *)
Theorem reconcile_accepts_within_tolerance {E : Type} (parse : list Z -> option Z) (sql : @Sql E)
    (day : list Z) (start stop C : Z) (rows : list (Result E (list Z))) (vs : list Z)
    (Hday : @unix_range_utc_day E day = Ok (start, stop))
    (Hrows : sq_net_between sql start stop = Ok rows)
    (Hparse : Forall2 (fun r v => exists s, r = Ok s /\ parse s = Some v) rows vs)
    (Hvs : Forall (Z.le 0) vs) (HL : net_total vs <= umax 256) (HC : 0 <= C)
    (Hdiff : 10000 * Z.abs (net_total vs - C) <= umax 256)
    (Hput : forall l c b, sq_put_reconcile sql day l c b = Ok tt) :
  reconcile_day parse sql day C =
  if C =? 0 then if net_total vs =? 0 then Ok 0 else Err (Reconcile (umax 32))
  else if 10000 * Z.abs (net_total vs - C) <? 101 * C
       then Ok (10000 * Z.abs (net_total vs - C) / C)
       else Err (Reconcile (Z.min (10000 * Z.abs (net_total vs - C) / C) (umax 32))).
Proof.
  unfold reconcile_day, sum_net_for_day, accumulate_net_wei. rewrite Hday, Hrows. cbn [map_err].
  rewrite (accumulate_ok parse rows vs 0) by (done || lia). rewrite Z.add_0_l.
  set (L := net_total vs) in *. unfold reconcile_bps.
  assert ((if C <? L then saturating_sub L C else saturating_sub C L) = Z.abs (L - C)) as ->
    by (unfold saturating_sub; destruct (Z.ltb_spec C L); lia).
  destruct (Z.eqb_spec C 0) as [E0|E0].
  { destruct (L =? 0); [|done]. rewrite Hput. done. }
  cbv zeta. rewrite checked_mul_ok by lia. unfold checked_div. rewrite (proj2 (Z.eqb_neq C 0) E0).
  rewrite (Z.mul_comm _ 10000). set (D := 10000 * Z.abs (L - C)) in *.
  assert (0 <= D / C) by (apply Z.div_pos; lia).
  rewrite try_from_ok by (split; unfold umax; lia). cbn [default]. unfold id. rewrite Hput. cbn [map_err].
  unfold RECONCILE_MAX_BPS.
  assert (D < 101 * C <-> D / C <= 100) as Hiff.
  { split; intros H'; [apply Z.lt_succ_r, Z.div_lt_upper_bound; lia|].
    pose proof (div_rem_spec D C ltac:(lia)). nia. }
  assert (umax 32 = 4294967295) as -> by reflexivity.
  destruct (Z.ltb_spec D (101 * C)) as [H1|H1].
  - apply Hiff in H1. rewrite (proj2 (Z.ltb_ge 100 (Z.min (D / C) 4294967295))) by lia. f_equal. lia.
  - assert (100 < D / C) by (apply Z.nle_gt; rewrite <- Hiff; lia).
    by rewrite (proj2 (Z.ltb_lt _ _)) by lia.
Qed.

Lemma reconcile_accepts_within_tolerance_witness :
  let parse := fun s : list Z => head s in
  let sql := @mkSql unit (fun _ _ => Ok [Ok [60]; Ok [41]]) (fun _ _ _ _ => Ok tt) in
  reconcile_day parse sql (print_date (date_after 3)) 100 = Ok 100.
Proof.
  intros parse sql.
  rewrite (reconcile_accepts_within_tolerance parse sql (print_date (date_after 3)) 259200 345600 100
    [Ok [60]; Ok [41]] [60; 41]); try (vm_compute; (reflexivity || discriminate)).
  - repeat constructor; eexists; split; reflexivity.
  - repeat constructor; lia.
Defined.
