(* ===== verification/Watch.v ===== *)
(** The EIP-1967 implementation watcher ([crates/liq-risk/src/proxy.rs]) and the treasury's
    sweep and disposal flags ([crates/liq-risk/src/treasury.rs]).

    The watcher is written against the [HaltSink] interface and a storage reader (a node
    connection outside the repository, an argument here); the risk gate is one sink. A
    [SystemTime] is the [Z] of its nanoseconds since the epoch. *)

From S2P Require Import Prelude Types Halt Gate.
Local Open Scope Z_scope.

Definition IMPLEMENTATION_SLOT : Z :=
  0x360894a13ba1a3210667c828492db98dca3e2076cc3735a920a3ca505d382bbc.

Inductive SlotError := ReadFailed (address : Address).

(** [trait SlotReader]. *)
Class SlotReader (R : Type) := { storage_at : R -> Address -> Z -> Result SlotError Z }.

Inductive WatchKind :=
  | WProtocol (p : ProtocolId)
  | WFlash (provider : FlashProvider).

#[export] Instance WatchKind_eq_dec : EqDecision WatchKind.
Proof. solve_decision. Defined.

Record WatchTarget := mkTarget { wt_address : Address; wt_kind : WatchKind }.

Record ProxyWatcher := mkWatcher { pw_targets : list WatchTarget; pw_last : list Z }.

Definition watcher_new (targets : list WatchTarget) : ProxyWatcher :=
  mkWatcher targets (replicate (length targets) 0).

(** [Address::from_word]: the low twenty bytes. *)
Definition implementation_address (word : Z) : Address := word mod 2 ^ 160.

Definition kind_scope (k : WatchKind) : HaltScope :=
  match k with WProtocol p => SProtocol p | WFlash f => SFlashProvider f end.

Section Poll.
Context {R S : Type} `{SlotReader R} `{HaltSink S}.

(** The loop of [seed]: an error returns at once with what was written so far. *)
Fixpoint seed_loop (reader : R) (i : nat) (targets : list WatchTarget) (last : list Z)
    : list Z * Result SlotError unit :=
  match targets with
  | [] => (last, Ok tt)
  | t :: rest =>
      match storage_at reader (wt_address t) IMPLEMENTATION_SLOT with
      | Err e => (last, Err e)
      | Ok v => seed_loop reader (Datatypes.S i) rest (<[i := v]> last)
      end
  end.

Definition seed (w : ProxyWatcher) (reader : R) : ProxyWatcher * Result SlotError unit :=
  let '(last, r) := seed_loop reader 0 (pw_targets w) (pw_last w) in (mkWatcher (pw_targets w) last, r).

Fixpoint poll_loop (reader : R) (i : nat) (targets : list WatchTarget) (last : list Z)
    (sink : S) (changed : Z) : list Z * S * Result SlotError Z :=
  match targets with
  | [] => (last, sink, Ok changed)
  | t :: rest =>
      match storage_at reader (wt_address t) IMPLEMENTATION_SLOT with
      | Err e => (last, sink, Err e)
      | Ok now =>
          let prev := default 0 (last !! i) in
          let '(sink, changed) :=
            if negb (prev =? 0) && negb (now =? prev)
            then (sink_halt sink (kind_scope (wt_kind t)) ProxyUpgrade, saturating_add 32 changed 1)
            else (sink, changed) in
          poll_loop reader (Datatypes.S i) rest (<[i := now]> last) sink changed
      end
  end.

Definition poll (w : ProxyWatcher) (reader : R) (sink : S) : ProxyWatcher * S * Result SlotError Z :=
  let '(last, sink, r) := poll_loop reader 0 (pw_targets w) (pw_last w) sink 0 in
  (mkWatcher (pw_targets w) last, sink, r).
End Poll.

Definition assert_watch_covers_config (configured : list WatchTarget) (w : ProxyWatcher) : bool :=
  if (length configured =? 0)%nat then false else
  forallb (fun c => existsb (fun t => (wt_address t =? wt_address c) &&
    bool_decide (wt_kind t = wt_kind c)) (pw_targets w)) configured.

(** ** What a poll reports *)

(** The scopes of the watched proxies whose slot moved off a nonzero last-seen value. *)
Definition moved_scopes (targets : list WatchTarget) (last now : list Z) : list HaltScope :=
  omap (fun '(t, (prev, cur)) =>
    if negb (prev =? 0) && negb (cur =? prev) then Some (kind_scope (wt_kind t)) else None)
    (zip targets (zip last now)).

Definition halt_all {S} `{HaltSink S} (sink : S) (scopes : list HaltScope) : S :=
  fold_left (fun s sc => sink_halt s sc ProxyUpgrade) scopes sink.

Section PollSpec.
Context {R S : Type} `{SlotReader R} `{HaltSink S}.

Definition reads (reader : R) (targets : list WatchTarget) (vs : list Z) : Prop :=
  Forall2 (fun t v => storage_at reader (wt_address t) IMPLEMENTATION_SLOT = Ok v) targets vs.

Lemma seed_loop_spec reader targets vs done_ rest :
  reads reader targets vs -> length rest = length targets ->
  seed_loop reader (length done_) targets (done_ ++ rest) = (done_ ++ vs, Ok tt).
Proof.
  intros Hr. revert done_ rest. induction Hr as [|t v targets vs Hv _ IH]; intros dn rest Hl; cbn [seed_loop].
  { by destruct rest. }
  rewrite Hv. destruct rest as [|x rest]; [done|].
  rewrite insert_app_r_alt by lia. rewrite Nat.sub_diag. cbn.
  specialize (IH (dn ++ [v]) rest ltac:(cbn in Hl; lia)).
  rewrite length_app, Nat.add_1_r, <- !app_assoc in IH. cbn in IH. exact IH.
Qed.

Lemma poll_loop_spec reader targets vs done_ rest (sink : S) n :
  reads reader targets vs -> length rest = length targets ->
  n + Z.of_nat (length targets) <= umax 32 ->
  poll_loop reader (length done_) targets (done_ ++ rest) sink n =
  (done_ ++ vs, halt_all sink (moved_scopes targets rest vs),
   Ok (n + Z.of_nat (length (moved_scopes targets rest vs)))).
Proof.
  intros Hr. revert done_ rest sink n.
  induction Hr as [|t v targets vs Hv _ IH]; intros dn rest sink n Hl Hn; cbn [poll_loop].
  { destruct rest; [|done]. cbn. by rewrite Z.add_0_r. }
  rewrite Hv. destruct rest as [|x rest]; [done|]. rewrite list_lookup_middle by done. cbn [default].
  rewrite insert_app_r_alt by lia. rewrite Nat.sub_diag. cbn [insert list_insert].
  cbn in Hl, Hn. unfold moved_scopes. cbn [zip zip_with omap list_omap]. fold (moved_scopes targets rest vs).
  unfold id. destruct (negb (x =? 0) && negb (v =? x)).
  - specialize (IH (dn ++ [v]) rest (sink_halt sink (kind_scope (wt_kind t)) ProxyUpgrade)
      (saturating_add 32 n 1) ltac:(lia) ltac:(unfold saturating_add; lia)).
    rewrite length_app, Nat.add_1_r, <- !app_assoc in IH. cbn in IH. rewrite IH. cbn. f_equal. f_equal.
    unfold saturating_add. lia.
  - specialize (IH (dn ++ [v]) rest sink n ltac:(lia) ltac:(lia)).
    rewrite length_app, Nat.add_1_r, <- !app_assoc in IH. cbn in IH. exact IH.
Qed.

Lemma seed_spec reader targets vs :
  reads reader targets vs -> seed (watcher_new targets) reader = (mkWatcher targets vs, Ok tt).
Proof.
  intros Hr. pose proof (seed_loop_spec reader targets vs [] (replicate (length targets) 0) Hr
    (length_replicate _ _)) as E. cbn in E. unfold seed. cbn [watcher_new pw_targets pw_last]. by rewrite E.
Qed.

Lemma poll_spec reader targets v0 vs (sink : S) :
  reads reader targets vs -> length v0 = length targets -> Z.of_nat (length targets) <= umax 32 ->
  poll (mkWatcher targets v0) reader sink =
  (mkWatcher targets vs, halt_all sink (moved_scopes targets v0 vs),
   Ok (Z.of_nat (length (moved_scopes targets v0 vs)))).
Proof.
  intros Hr Hl Hn. pose proof (poll_loop_spec reader targets vs [] v0 sink 0 Hr Hl ltac:(lia)) as E.
  cbn in E. unfold poll. cbn [pw_targets pw_last]. by rewrite E.
Qed.
End PollSpec.

(** A poll reports exactly the upgrades since the last look, to any halt sink: after a
    seed that read [v0], a poll that reads [v1] raises one Class B halt per watched proxy
    whose nonzero slot changed, in target order and for no other, counts them, and
    remembers [v1] for the next poll. *)
Theorem poll_reports_upgrades {R S} `{SlotReader R} `{HaltSink S} (targets : list WatchTarget)
    (r0 r1 : R) (v0 v1 : list Z) (sink : S)
    (Hr0 : reads r0 targets v0) (Hr1 : reads r1 targets v1) (Hn : Z.of_nat (length targets) <= umax 32) :
  let w := fst (seed (watcher_new targets) r0) in
  snd (seed (watcher_new targets) r0) = Ok tt /\
  poll w r1 sink = (mkWatcher targets v1, halt_all sink (moved_scopes targets v0 v1),
                    Ok (Z.of_nat (length (moved_scopes targets v0 v1)))).
Proof.
  cbv zeta. rewrite (seed_spec r0 targets v0 Hr0). cbn [fst snd]. split; [done|].
  apply poll_spec; [done|by rewrite (Forall2_length _ _ _ Hr0)|done].
Qed.

#[export] Instance SlotReader_fun : SlotReader (Address -> Z) := {| storage_at r a _ := Ok (r a) |}.

Lemma poll_reports_upgrades_witness :
  let targets := [mkTarget 10 (WProtocol 1); mkTarget 11 (WFlash FMorpho)] in
  let w := fst (seed (watcher_new targets) (fun a => a + 1)) in
  snd (seed (watcher_new targets) (fun a => a + 1)) = Ok tt /\
  poll w (fun a : Address => if a =? 10 then 99 else a + 1) (@nil (HaltScope * HaltReason)) =
    (mkWatcher targets [99; 12], [(SProtocol 1, ProxyUpgrade)], Ok 1).
Proof.
  intros targets w.
  exact (poll_reports_upgrades targets (fun a : Address => a + 1)
    (fun a : Address => if a =? 10 then 99 else a + 1) [11; 12] [99; 12] (@nil (HaltScope * HaltReason))
    ltac:(repeat constructor) ltac:(repeat constructor) ltac:(vm_compute; discriminate)).
Defined.

(** ** Composed with the risk gate *)

Lemma halt_all_held (g : RiskGate) scopes s :
  s ∈ scopes -> (forall s', s' ∈ scopes -> s' <> SGlobal) -> held (halt_all g scopes) s ProxyUpgrade.
Proof.
  intros Hs Hng. assert (s <> SGlobal) as Hsg by (by apply Hng).
  assert (forall scopes (g : RiskGate), held g s ProxyUpgrade -> held (halt_all g scopes) s ProxyUpgrade) as Hkeep.
  { clear -Hsg. induction scopes as [|s' scopes IH]; intros g Hg; [done|]. cbn. apply IH.
    by apply (held_step g (GHalt s' ProxyUpgrade)). }
  revert g. induction scopes as [|s' scopes IH]; intros g; [by apply elem_of_nil in Hs|].
  apply elem_of_cons in Hs as [<-|Hs]; cbn.
  - apply Hkeep. split; [|apply logged_halt; right; split; [done|]; split; [done|]].
    + exists ProxyUpgrade. split; [|done]. rewrite entry_at_halt, bool_decide_eq_true_2; [done|].
      split; [|done]. unfold normalize_scope. cbn [class_of].
      by rewrite (bool_decide_eq_false_2 (s = SGlobal)), andb_false_r.
    + unfold normalize_scope. cbn [class_of].
      by rewrite (bool_decide_eq_false_2 (s = SGlobal)), andb_false_r.
  - apply IH; [done|]. intros; apply Hng. by right.
Qed.

(** An implementation upgrade stops submissions: once a poll through the risk gate has seen
    a watched protocol's or flash provider's implementation slot change, every submission
    under it is denied, and stays denied under later gate operations that neither ship a
    change for it nor raise a Class A halt over it. *)
Theorem upgrade_denies_submissions {R} `{SlotReader R} (targets : list WatchTarget) (r0 r1 : R)
    (v0 v1 : list Z) (g : RiskGate) (i : nat) (t : WatchTarget) (a b : Z)
    (ops : list GateOp) (q : AllowQuery)
    (Hr0 : reads r0 targets v0) (Hr1 : reads r1 targets v1) (Hn : Z.of_nat (length targets) <= umax 32)
    (Ht : targets !! i = Some t) (Ha : v0 !! i = Some a) (Hb : v1 !! i = Some b)
    (Ha0 : a <> 0) (Hab : b <> a)
    (Hops : Forall (fun op => lifts (kind_scope (wt_kind t)) op = false) ops)
    (Hq : hits q (kind_scope (wt_kind t))) :
  let w := fst (seed (watcher_new targets) r0) in
  allow (gate_run (snd (fst (poll w r1 g))) ops) q <> AYes.
Proof.
  cbv zeta. rewrite (seed_spec r0 targets v0 Hr0). cbn [fst].
  rewrite (poll_spec r1 targets v0 v1 g Hr1) by (done || by rewrite (Forall2_length _ _ _ Hr0)). cbn [fst snd].
  assert (kind_scope (wt_kind t) <> SGlobal) as Hsg by (by destruct (wt_kind t)).
  assert (held (halt_all g (moved_scopes targets v0 v1)) (kind_scope (wt_kind t)) ProxyUpgrade) as Hh.
  { apply halt_all_held.
    - apply list_elem_of_omap. exists (t, (a, b)). split.
      + apply list_elem_of_lookup. exists i. rewrite !lookup_zip_with, Ht, Ha, Hb. done.
      + by rewrite (proj2 (Z.eqb_neq _ _) Ha0), (proj2 (Z.eqb_neq _ _) Hab).
    - intros s' ([t' [x y]] & _ & Hs)%list_elem_of_omap. destruct (negb (x =? 0) && _); [|done].
      injection Hs as <-. by destruct (wt_kind t'). }
  destruct (held_run _ ops _ _ Hops Hsg Hh) as ((r' & He & _) & _). by eapply hit_denied.
Qed.

Lemma upgrade_denies_submissions_witness :
  let targets := [mkTarget 10 (WProtocol 3)] in
  let w := fst (seed (watcher_new targets) (fun a : Address => 5)) in
  allow (gate_run (snd (fst (poll w (fun a : Address => 6) gate_new))) [GNodeLag 0]) sample_query <> AYes.
Proof.
  apply (upgrade_denies_submissions [mkTarget 10 (WProtocol 3)] (fun a : Address => 5) (fun a : Address => 6)
    [5] [6] gate_new 0 (mkTarget 10 (WProtocol 3)) 5 6);
    try reflexivity; try discriminate; repeat constructor; vm_compute; discriminate.
Defined.

(** ** Treasury *)

Definition TRANSFER_GAS_IN_PLAN : Z := 30000.
Definition TRANSFER_GAS_STANDALONE : Z := 50000.

Record TreasuryConfig := mkTreasuryConfig {
  tc_gas_floor : gmap Address Z;
  tc_sweep_k : Z;
  tc_sweep_destination : Address;
  tc_max_age : Z;
  tc_disposal_k : Z;
  tc_disposal_max_age : Z;
  tc_disposal_venue_floor_wei : Z
}.

Definition secs (n : Z) : Z := n * 1000000000.

Definition treasury_default : TreasuryConfig :=
  mkTreasuryConfig ∅ 20 0 (secs (7 * 24 * 3600)) 20 (secs (14 * 24 * 3600)) 0.

Record Treasury := mkTreasury {
  tr_cfg : TreasuryConfig;
  tr_last_sweep : option Z;
  tr_last_disposal : option Z
}.

Definition treasury_new (cfg : TreasuryConfig) : Treasury := mkTreasury cfg None None.

Definition gas_floor (t : Treasury) (key : Address) : option Z := tc_gas_floor (tr_cfg t) !! key.

(** [SystemTime::duration_since]: [None] when the clock went backwards. *)
Definition duration_since (now t : Z) : option Z := checked_sub now t.

Definition sweep_flag (t : Treasury) (balance_wei base_fee_wei : Z) (in_plan : bool) (now : Z) : bool :=
  let cfg := tr_cfg t in
  if tc_sweep_destination cfg =? 0 then false else
  let gas := if in_plan then TRANSFER_GAS_IN_PLAN else TRANSFER_GAS_STANDALONE in
  match (let! c := checked_mul 256 gas base_fee_wei in checked_mul 256 c (tc_sweep_k cfg)) with
  | None => false
  | Some cost =>
      if cost <? balance_wei then true else
      match tr_last_sweep t with
      | Some at_ => match duration_since now at_ with
                    | Some d => (tc_max_age cfg <=? d) && (0 <? balance_wei)
                    | None => false
                    end
      | None => false
      end
  end.

Definition mark_swept (t : Treasury) (at_ : Z) : Treasury :=
  mkTreasury (tr_cfg t) (Some at_) (tr_last_disposal t).

Definition disposal_flag (t : Treasury) (accumulated_eth_wei withdrawal_fee_wei transfer_gas_cost_wei now : Z)
    : bool :=
  let cfg := tr_cfg t in
  match checked_add 256 withdrawal_fee_wei transfer_gas_cost_wei with
  | None => false
  | Some unit =>
      match checked_mul 256 unit (tc_disposal_k cfg) with
      | None => false
      | Some thresh =>
          if thresh <? accumulated_eth_wei then true else
          match tr_last_disposal t with
          | Some at_ => match duration_since now at_ with
                        | Some d => (tc_disposal_max_age cfg <=? d) && (0 <? accumulated_eth_wei)
                        | None => false
                        end
          | None => false
          end
      end
  end.

Definition mark_disposed (t : Treasury) (at_ : Z) : Treasury :=
  mkTreasury (tr_cfg t) (tr_last_sweep t) (Some at_).

Definition aged (last : option Z) (max_age now : Z) : Prop :=
  exists at_, last = Some at_ /\ at_ <= now /\ max_age <= now - at_.

(** The tail both flags share: worth the transfer, or old enough and nonzero. *)
Lemma flag_tail thresh x last max_age now :
  0 <= thresh ->
  (if thresh <? x then true else
   match last with
   | Some at_ => match duration_since now at_ with
                 | Some d => (max_age <=? d) && (0 <? x) | None => false end
   | None => false end) = true <-> thresh < x \/ (0 < x /\ aged last max_age now).
Proof.
  intros Ht. unfold aged, duration_since. destruct (Z.ltb_spec thresh x); [naive_solver|].
  destruct last as [a|]; [|naive_solver lia].
  destruct (checked_sub now a) as [d|] eqn:E.
  - apply checked_sub_Some in E as [-> Hle]. rewrite andb_true_iff, Z.leb_le, Z.ltb_lt.
    split; [intros [? ?]; right; split; [done|]; by exists a|].
    intros [?|(? & ? & [= ->] & ? & ?)]; [lia|done].
  - split; [done|]. intros [?|(_ & ? & [= ->] & ? & _)]; [lia|]. unfold checked_sub in E.
    destruct (Z.leb_spec x0 now); [done|lia].
Qed.

(** Funds leave only when it pays: a sweep is flagged exactly when a destination is set, the
    cost does not overflow, and the balance exceeds the configured multiple of the
    transfer's gas cost or is nonzero and overdue; a disposal exactly when the threshold does
    not overflow and is exceeded, or the balance is nonzero and overdue. A fresh treasury and
    a clock that went backwards never flag on age. *)
Theorem treasury_flags_exact (t : Treasury) (balance base_fee fee gas_cost now : Z) (in_plan : bool)
    (Hb : 0 <= base_fee) (Hk : 0 <= tc_sweep_k (tr_cfg t)) (Hf : 0 <= fee) (Hg : 0 <= gas_cost)
    (Hd : 0 <= tc_disposal_k (tr_cfg t)) :
  let gas := if in_plan then 30000 else 50000 in
  let cost := gas * base_fee * tc_sweep_k (tr_cfg t) in
  let thresh := (fee + gas_cost) * tc_disposal_k (tr_cfg t) in
  (sweep_flag t balance base_fee in_plan now = true <->
     tc_sweep_destination (tr_cfg t) <> 0 /\ gas * base_fee <= umax 256 /\ cost <= umax 256 /\
     (cost < balance \/ (0 < balance /\ aged (tr_last_sweep t) (tc_max_age (tr_cfg t)) now))) /\
  (disposal_flag t balance fee gas_cost now = true <->
     fee + gas_cost <= umax 256 /\ thresh <= umax 256 /\
     (thresh < balance \/ (0 < balance /\ aged (tr_last_disposal t) (tc_disposal_max_age (tr_cfg t)) now))).
Proof.
  intros gas cost thresh. split.
  - unfold sweep_flag. destruct (Z.eqb_spec (tc_sweep_destination (tr_cfg t)) 0); [naive_solver|].
    change (if in_plan then TRANSFER_GAS_IN_PLAN else TRANSFER_GAS_STANDALONE) with gas.
    assert (0 <= gas) by (unfold gas; destruct in_plan; lia). cbv zeta.
    unfold checked_mul. destruct (Z.leb_spec (gas * base_fee) (umax 256)); [|naive_solver lia].
    fold cost. destruct (Z.leb_spec cost (umax 256)); [|naive_solver lia].
    rewrite flag_tail by (unfold cost; nia). naive_solver.
  - unfold disposal_flag, checked_add, checked_mul. cbv zeta.
    destruct (Z.leb_spec (fee + gas_cost) (umax 256)); [|naive_solver lia].
    fold thresh. destruct (Z.leb_spec thresh (umax 256)); [|naive_solver lia].
    rewrite flag_tail by (unfold thresh; nia). naive_solver.
Qed.

Lemma treasury_flags_exact_witness :
  let t := mkTreasury (mkTreasuryConfig ∅ 20 1 (secs 10) 20 (secs 10) 0) (Some 0) None in
  sweep_flag t 1 5 true (secs 10) = true.
Proof.
  intros t. apply (proj1 (treasury_flags_exact t 1 5 0 0 (secs 10) true ltac:(lia) ltac:(cbn; lia)
    ltac:(lia) ltac:(lia) ltac:(cbn; lia))).
  split; [discriminate|]. split; [vm_compute; discriminate|]. split; [vm_compute; discriminate|].
  right. split; [lia|]. exists 0. split; [reflexivity|]. split; vm_compute; discriminate.
Defined.
