(* ===== verification/Threshold.v ===== *)
(** The threshold index: [crates/liq-engine/src/threshold.rs] and the crossing sets of
    [crates/liq-engine/src/triggers.rs].

    One array per (asset, side): a sorted base, a delta with a sorted prefix, and lazy
    deletion by generation. [partition_point] is the length of the satisfying prefix;
    [sort_unstable] is deterministic because the entry order is total. The [spare] buffer
    only saves an allocation and is not modelled. *)

From S2P Require Import Prelude Fixed Types Halt Flash.
From stdpp Require Import sorting.
Local Open Scope Z_scope.

Inductive Side := Falling | Rising.

#[export] Instance Side_eq_dec : EqDecision Side.
Proof. solve_decision. Defined.

Record Entry := mkEntryT { e_price : Z; e_id : PositionId; e_gen : Z }.

(** The derived order: [(price, id, gen)] lexicographically. *)
Definition entry_le (x y : Entry) : bool :=
  (e_price x <? e_price y) ||
  ((e_price x =? e_price y) && ((e_id x <? e_id y)%nat ||
    ((e_id x =? e_id y)%nat && (e_gen x <=? e_gen y)))).

Definition MERGE_DIV : nat := 8.
Definition MERGE_MIN : nat := 256.

(** [slice::partition_point]. *)
Fixpoint partition_point {A} (p : A -> bool) (s : list A) : nat :=
  match s with [] => O | x :: s' => if p x then S (partition_point p s') else O end.

Definition slice_range (s : list Entry) (lo hi : Z) : list Entry :=
  let start := partition_point (fun e => e_price e <? lo) s in
  let stop := partition_point (fun e => e_price e <=? hi) s in
  if (start <=? stop)%nat && (stop <=? length s)%nat then take (stop - start) (drop start s) else [].

Record Sorted := mkSorted { so_base : list Entry; so_delta : list Entry; so_sorted : nat }.

Definition sorted_default : Sorted := mkSorted [] [] 0.

Definition range (s : Sorted) (lo hi : Z) : list Entry :=
  let n := Nat.min (so_sorted s) (length (so_delta s)) in
  let prefix := take n (so_delta s) in
  let tail := drop n (so_delta s) in
  slice_range (so_base s) lo hi ++ slice_range prefix lo hi ++
  List.filter (fun e => (lo <=? e_price e) && (e_price e <=? hi)) tail.

Definition sorted_len (s : Sorted) : nat := length (so_base s) + length (so_delta s).

Definition is_live (gen : list Z) (e : Entry) : bool := bool_decide (gen !! e_id e = Some (e_gen e)).

(** The loop of [merge]: each turn consumes one entry of [base] or [delta]. *)
Fixpoint merge_loop (fuel : nat) (gen : list Z) (base delta out : list Entry) : list Entry :=
  match fuel with
  | O => out
  | S f =>
      match base, delta with
      | l :: base', r :: delta' =>
          if entry_le l r then merge_loop f gen base' delta (if is_live gen l then out ++ [l] else out)
          else merge_loop f gen base delta' (out ++ [r])
      | [], r :: delta' => merge_loop f gen base delta' (out ++ [r])
      | l :: base', [] => merge_loop f gen base' delta (if is_live gen l then out ++ [l] else out)
      | [], [] => out
      end
  end.

Definition merge (s : Sorted) (gen : list Z) : Sorted :=
  mkSorted (merge_loop (S (sorted_len s)) gen (so_base s) (so_delta s) []) [] 0.

Definition sorted_commit (s : Sorted) (gen : list Z) (merge_min : nat) : Sorted :=
  if (length (so_delta s) =? so_sorted s)%nat then s else
  let delta := sort_by entry_le (List.filter (is_live gen) (so_delta s)) in
  let s := mkSorted (so_base s) delta (length delta) in
  if (Nat.max merge_min (length (so_base s) / MERGE_DIV) <? length delta)%nat then merge s gen else s.

Record ThresholdIndex := mkThreshold {
  ti_falling : list Sorted;
  ti_rising : list Sorted;
  ti_gen : list Z;
  ti_merge_min : nat
}.

Definition threshold_new (assets : nat) : ThresholdIndex :=
  mkThreshold (replicate assets sorted_default) (replicate assets sorted_default) [] MERGE_MIN.

(** [EngineError]. *)
Inductive EngineError :=
  | UnknownAsset (a : AssetId)
  | UnknownProtocol (p : ProtocolId)
  | PriceLayout (slot : Z) (found : AssetId)
  | EProtocol (e : ProtocolError)
  | EState (e : StateError)
  | EFixed (e : FixedError).

Definition begin (t : ThresholdIndex) (id : PositionId) : ThresholdIndex :=
  let gen := if (length (ti_gen t) <=? id)%nat then resize (S id) 0 (ti_gen t) else ti_gen t in
  let gen := match gen !! id with Some g => <[id := wrapping_add 32 g 1]> gen | None => gen end in
  mkThreshold (ti_falling t) (ti_rising t) gen (ti_merge_min t).

Definition register (t : ThresholdIndex) (id : PositionId) (asset : AssetId) (side : Side) (price : Z)
    : ThresholdIndex * Result EngineError unit :=
  let gen := default 0 (ti_gen t !! id) in
  let arrays := match side with Falling => ti_falling t | Rising => ti_rising t end in
  let i := Z.to_nat asset in
  match arrays !! i with
  | None => (t, Err (UnknownAsset asset))
  | Some s =>
      let s := mkSorted (so_base s) (so_delta s ++ [mkEntryT price id gen]) (so_sorted s) in
      let arrays := <[i := s]> arrays in
      (match side with
       | Falling => mkThreshold arrays (ti_rising t) (ti_gen t) (ti_merge_min t)
       | Rising => mkThreshold (ti_falling t) arrays (ti_gen t) (ti_merge_min t)
       end, Ok tt)
  end.

Definition crossed (t : ThresholdIndex) (asset : AssetId) (old new : Z) : list PositionId :=
  let '(arrays, lo, hi) := if new <? old then (ti_falling t, new, old) else (ti_rising t, old, new) in
  match arrays !! Z.to_nat asset with
  | None => []
  | Some s => List.map e_id (List.filter (is_live (ti_gen t)) (range s lo hi))
  end.

Definition registered (t : ThresholdIndex) (asset : AssetId) : list PositionId :=
  let i := Z.to_nat asset in
  let all o := match o with Some s => so_base s ++ so_delta s | None => [] end in
  List.map e_id (List.filter (is_live (ti_gen t)) (all (ti_falling t !! i) ++ all (ti_rising t !! i))).

Definition commit (t : ThresholdIndex) : ThresholdIndex :=
  let f s := sorted_commit s (ti_gen t) (ti_merge_min t) in
  mkThreshold (List.map f (ti_falling t)) (List.map f (ti_rising t)) (ti_gen t) (ti_merge_min t).

(** ** Crossing sets (triggers.rs) *)

(** [sort_unstable] on ids, then [dedup]. *)
Fixpoint dedup (l : list nat) : list nat :=
  match l with
  | [] => []
  | x :: l' => match l' with
               | y :: _ => if (x =? y)%nat then dedup l' else x :: dedup l'
               | [] => [x]
               end
  end.

Definition crossing_set (t : ThresholdIndex) (asset : AssetId) (old new : Z) : list PositionId :=
  dedup (sort_by Nat.leb (crossed t asset old new)).

Definition registered_set (t : ThresholdIndex) (asset : AssetId) : list PositionId :=
  dedup (sort_by Nat.leb (registered t asset)).

(** ** One sorted array *)

Abbreviation le_sorted := (StronglySorted (fun x y => entry_le x y = true)) (only parsing).

Lemma entry_le_spec x y :
  entry_le x y = true <->
  e_price x < e_price y \/ (e_price x = e_price y /\
    ((e_id x < e_id y)%nat \/ (e_id x = e_id y /\ e_gen x <= e_gen y))).
Proof.
  unfold entry_le. rewrite !orb_true_iff, !andb_true_iff, !orb_true_iff, !andb_true_iff.
  rewrite Z.ltb_lt, Z.eqb_eq, Nat.ltb_lt, Nat.eqb_eq, Z.leb_le. tauto.
Qed.

Lemma entry_le_total x y : entry_le x y = true \/ entry_le y x = true.
Proof. rewrite !entry_le_spec. lia. Qed.

Lemma entry_le_trans x y z : entry_le x y = true -> entry_le y z = true -> entry_le x z = true.
Proof. rewrite !entry_le_spec. lia. Qed.

Definition in_range (lo hi : Z) (e : Entry) : bool := (lo <=? e_price e) && (e_price e <=? hi).

Lemma filter_none {A} (p : A -> bool) l : Forall (fun x => p x = false) l -> List.filter p l = [].
Proof. induction 1 as [|x l Hx _ IH]; cbn; [done|]. by rewrite Hx. Qed.

Lemma filter_all {A} (p : A -> bool) l : Forall (fun x => p x = true) l -> List.filter p l = l.
Proof. induction 1 as [|x l Hx _ IH]; cbn; [done|]. by rewrite Hx, IH. Qed.

(** Two binary searches and a slice read off exactly the entries in range. *)
Lemma slice_range_filter s lo hi :
  le_sorted s -> lo <= hi -> slice_range s lo hi = List.filter (in_range lo hi) s.
Proof.
  intros Hs Hlh. unfold slice_range.
  assert (forall p : Entry -> bool, (partition_point p s <= length s)%nat) as Hpl.
  { intros p. clear. induction s as [|x s IH]; cbn; [lia|]. destruct (p x); cbn; lia. }
  assert (partition_point (fun e => (e_price e <? lo)%Z) s <= partition_point (fun e => (e_price e <=? hi)%Z) s)%nat as Hle.
  { clear -Hlh. induction s as [|x s IH]; cbn; [lia|].
    destruct (Z.ltb_spec (e_price x) lo), (Z.leb_spec (e_price x) hi); lia. }
  rewrite (proj2 (Nat.leb_le _ _) Hle), (proj2 (Nat.leb_le _ _) (Hpl _)). cbn [andb]. clear Hpl Hle.
  induction Hs as [|x s Hs IH Hall]; [done|]. cbn [partition_point List.filter]. unfold in_range at 1.
  rewrite Forall_forall in Hall.
  destruct (Z.ltb_spec (e_price x) lo) as [Hlo|Hlo].
  - rewrite (proj2 (Z.leb_le (e_price x) hi)), (proj2 (Z.leb_gt lo (e_price x))) by lia. cbn. exact IH.
  - rewrite (proj2 (Z.leb_le lo (e_price x))) by lia. cbn [andb]. rewrite Nat.sub_0_r.
    destruct (Z.leb_spec (e_price x) hi) as [Hhi|Hhi].
    + assert (partition_point (fun e => e_price e <? lo) s = O) as E.
      { destruct s as [|y s]; [done|]. cbn. specialize (Hall y ltac:(left)). apply entry_le_spec in Hall.
        by rewrite (proj2 (Z.ltb_ge (e_price y) lo)) by lia. }
      rewrite E, Nat.sub_0_r, drop_0 in IH. rewrite drop_0. cbn. by rewrite IH.
    + cbn [take]. symmetry. apply filter_none, Forall_forall. intros y Hy.
      specialize (Hall y Hy). apply entry_le_spec in Hall. unfold in_range.
      rewrite (proj2 (Z.leb_gt (e_price y) hi)) by lia. apply andb_false_r.
Qed.

Record sorted_ok (s : Sorted) : Prop := {
  sk_base : le_sorted (so_base s);
  sk_delta : le_sorted (take (so_sorted s) (so_delta s));
  sk_len : (so_sorted s <= length (so_delta s))%nat
}.

Lemma range_filter s lo hi :
  sorted_ok s -> lo <= hi -> range s lo hi = List.filter (in_range lo hi) (so_base s ++ so_delta s).
Proof.
  intros [Hb Hd Hl] Hlh. unfold range. rewrite Nat.min_l by done.
  rewrite !slice_range_filter by done. change (fun e => (lo <=? e_price e) && (e_price e <=? hi)) with (in_range lo hi).
  rewrite List.filter_app, <- List.filter_app, take_drop. done.
Qed.

Lemma filter_idem {A} (p : A -> bool) l : List.filter p (List.filter p l) = List.filter p l.
Proof. induction l as [|x l IH]; cbn; [done|]. destruct (p x) eqn:E; cbn; rewrite ?E, IH; done. Qed.

Lemma filter_perm {A} (p : A -> bool) l l' : l ≡ₚ l' -> List.filter p l ≡ₚ List.filter p l'.
Proof.
  induction 1 as [|x l l' _ IH|x y l|l1 l2 l3 _ IH1 _ IH2]; cbn; [done| | |by rewrite IH1].
  - destruct (p x); by rewrite ?IH.
  - destruct (p x), (p y); try done. apply perm_swap.
Qed.

(** ** Commit and merge keep the live entries *)

Lemma sorted_snoc (l : list Entry) x :
  le_sorted l -> Forall (fun y => entry_le y x = true) l -> le_sorted (l ++ [x]).
Proof.
  intros Hl. induction Hl as [|y l Hl IH Hall]; intros Hx; cbn; [by repeat constructor|].
  apply Forall_cons in Hx as [Hy Hx]. constructor; [by apply IH|].
  apply Forall_app. split; [done|]. by constructor.
Qed.

(** The merge loop: everything already out is below what is left; the result is the live
    part of [base] with all of [delta]. *)
Lemma merge_loop_spec fuel gen base delta out :
  (length base + length delta < fuel)%nat ->
  le_sorted base -> le_sorted delta -> le_sorted out ->
  (forall x y, x ∈ out -> y ∈ base ++ delta -> entry_le x y = true) ->
  le_sorted (merge_loop fuel gen base delta out) /\
  merge_loop fuel gen base delta out ≡ₚ out ++ List.filter (is_live gen) base ++ delta.
Proof.
  revert base delta out. induction fuel as [|f IH]; intros base delta out Hf Hb Hd Ho Hlt; [lia|].
  cbn [merge_loop].
  assert (forall x (out' base' delta' : list Entry), le_sorted out' ->
    (forall a b, a ∈ out' -> b ∈ base' ++ delta' -> entry_le a b = true) -> (forall a, a ∈ out' -> entry_le a x = true) ->
    (forall b, b ∈ base' ++ delta' -> entry_le x b = true) ->
    le_sorted (out' ++ [x]) /\ (forall a b, a ∈ out' ++ [x] -> b ∈ base' ++ delta' -> entry_le a b = true)) as Hsnoc.
  { intros x out' base' delta' H1 H2 H3 H4. split; [apply sorted_snoc; [done|by apply Forall_forall]|].
    intros a b [Ha| ->%list_elem_of_singleton]%elem_of_app Hb'; [by apply H2|by apply H4]. }
  destruct base as [|l base]; destruct delta as [|r delta].
  - cbn. by rewrite !app_nil_r.
  - apply StronglySorted_inv in Hd as [Hd Hr]. rewrite Forall_forall in Hr.
    destruct (Hsnoc r out [] delta Ho) as [Ho' Hlt'];
      [intros; apply Hlt; [done|by right]|intros; apply Hlt; [done|left]|intros b Hb'; by apply Hr|].
    destruct (IH [] delta (out ++ [r]) ltac:(cbn in *; lia) Hb Hd Ho' Hlt') as [Hs Hp].
    split; [done|]. rewrite Hp. cbn. by rewrite <- app_assoc.
  - apply StronglySorted_inv in Hb as [Hb Hl]. rewrite Forall_forall in Hl.
    destruct (is_live gen l) eqn:El; cbn [List.filter]; rewrite El.
    + destruct (Hsnoc l out base [] Ho) as [Ho' Hlt'];
        [intros; apply Hlt; [done|by right]|intros; apply Hlt; [done|left]|
         intros b Hb'; rewrite app_nil_r in Hb'; by apply Hl|].
      destruct (IH base [] (out ++ [l]) ltac:(cbn in *; lia) Hb Hd Ho' Hlt') as [Hs Hp].
      split; [done|]. rewrite Hp. cbn. by rewrite <- app_assoc.
    + apply IH; [cbn in *; lia|done|done|done|]. intros; apply Hlt; [done|by right].
  - pose proof Hb as Hb0. pose proof Hd as Hd0.
    apply StronglySorted_inv in Hb as [Hb Hl]. rewrite Forall_forall in Hl.
    apply StronglySorted_inv in Hd as [Hd Hr]. rewrite Forall_forall in Hr.
    destruct (entry_le l r) eqn:Elr.
    + cbn [List.filter]. destruct (is_live gen l) eqn:El.
      * destruct (Hsnoc l out base (r :: delta) Ho) as [Ho' Hlt'];
          [intros; apply Hlt; [done|by right]|intros; apply Hlt; [done|left]| |].
        { intros b [Hb'|[->|Hb']%elem_of_cons]%elem_of_app; [by apply Hl|done|].
          apply entry_le_trans with r; [done|by apply Hr]. }
        destruct (IH base (r :: delta) (out ++ [l]) ltac:(cbn in *; lia) Hb Hd0 Ho' Hlt') as [Hs Hp].
        split; [done|]. rewrite Hp. by rewrite <- app_assoc.
      * apply IH; [cbn in *; lia|done|done|done|]. intros; apply Hlt; [done|by right].
    + assert (entry_le r l = true) as Erl by (destruct (entry_le_total l r); congruence).
      destruct (Hsnoc r out (l :: base) delta Ho) as [Ho' Hlt'].
      { intros a b Ha Hb'. apply Hlt; [done|]. apply elem_of_app in Hb' as [?|?]; apply elem_of_app; [by left|right; by right]. }
      { intros a Ha. apply Hlt; [done|]. apply elem_of_app. right. left. }
      { intros b [[->|Hb']%elem_of_cons|Hb']%elem_of_app; [done| |by apply Hr].
        apply entry_le_trans with l; [done|by apply Hl]. }
      destruct (IH (l :: base) delta (out ++ [r]) ltac:(cbn in *; lia) Hb0 Hd Ho' Hlt') as [Hs Hp].
      split; [done|]. rewrite Hp. rewrite <- app_assoc. apply Permutation_app_head. cbn [app].
      by rewrite (Permutation_middle _ delta r).
Qed.

Definition live_of (gen : list Z) (s : Sorted) : list Entry :=
  List.filter (is_live gen) (so_base s ++ so_delta s).

Lemma sorted_commit_spec s gen mm :
  sorted_ok s -> sorted_ok (sorted_commit s gen mm) /\ live_of gen (sorted_commit s gen mm) ≡ₚ live_of gen s /\
  (forall e, e ∈ so_base (sorted_commit s gen mm) ++ so_delta (sorted_commit s gen mm) -> e ∈ so_base s ++ so_delta s).
Proof.
  intros Hs. pose proof Hs as [Hb Hd Hl]. unfold sorted_commit.
  destruct (Nat.eqb_spec (length (so_delta s)) (so_sorted s)); [done|]. cbv zeta.
  set (delta := sort_by entry_le (List.filter (is_live gen) (so_delta s))).
  assert (delta ≡ₚ List.filter (is_live gen) (so_delta s)) as Hp by apply sort_by_perm.
  assert (le_sorted delta) as Hsd by (apply sort_by_sorted; [apply entry_le_total|apply entry_le_trans]).
  assert (forall e, e ∈ delta -> e ∈ so_delta s) as Hin.
  { intros e. rewrite Hp, !list_elem_of_In, filter_In. tauto. }
  cbn [so_base so_delta so_sorted].
  destruct (Nat.max _ _ <? _)%nat; unfold merge, sorted_len, live_of; cbn [so_base so_delta so_sorted].
  - destruct (merge_loop_spec (S (length (so_base s) + length delta)) gen (so_base s) delta [])
      as [Hsm Hpm]; [lia|done|done|constructor|by intros ? ? ?%elem_of_nil|]. cbn [app] in Hpm.
    split; [by split; [|constructor|cbn; lia]|]. rewrite !app_nil_r. split.
    + rewrite (filter_perm _ _ _ Hpm), !List.filter_app, filter_idem, (filter_perm _ _ _ Hp), filter_idem. done.
    + intros e. rewrite Hpm, !elem_of_app. intros [He|He]; [left|right; by apply Hin].
      revert He. rewrite !list_elem_of_In, filter_In. tauto.
  - split; [split; cbn; [done|by rewrite firstn_all|done]|]. split.
    + rewrite !List.filter_app, (filter_perm _ _ _ Hp), filter_idem. done.
    + intros e. rewrite !elem_of_app. intros [He|He]; [by left|right; by apply Hin].
Qed.

(** ** The registrations the index stands for *)

Record reg := mkReg { rg_asset : AssetId; rg_side : Side; rg_price : Z; rg_id : PositionId }.

Inductive ThrOp :=
  | TBegin (id : PositionId)
  | TRegister (id : PositionId) (asset : AssetId) (side : Side) (price : Z)
  | TCommit.

Definition thr_step (t : ThresholdIndex) (op : ThrOp) : ThresholdIndex :=
  match op with
  | TBegin id => begin t id
  | TRegister id asset side price => fst (register t id asset side price)
  | TCommit => commit t
  end.

(** Beginning a position drops its registrations, registering adds one on a known asset,
    committing changes nothing. *)
Definition reg_step (assets : nat) (regs : list reg) (op : ThrOp) : list reg :=
  match op with
  | TBegin id => List.filter (fun r => negb (rg_id r =? id)%nat) regs
  | TRegister id asset side price =>
      if (Z.to_nat asset <? assets)%nat then regs ++ [mkReg asset side price id] else regs
  | TCommit => regs
  end.

(** A position is begun before it is registered. *)
Fixpoint ops_ok (begun : list PositionId) (ops : list ThrOp) : Prop :=
  match ops with
  | [] => True
  | TBegin id :: ops => ops_ok (id :: begun) ops
  | TRegister id asset _ _ :: ops => id ∈ begun /\ ops_ok begun ops
  | TCommit :: ops => ops_ok begun ops
  end.

Definition arrays (t : ThresholdIndex) (side : Side) : list Sorted :=
  match side with Falling => ti_falling t | Rising => ti_rising t end.

Definition pair_of (e : Entry) : Z * PositionId := (e_price e, e_id e).

Definition regs_at (i : nat) (side : Side) (regs : list reg) : list (Z * PositionId) :=
  List.map (fun r => (rg_price r, rg_id r))
    (List.filter (fun r => (Z.to_nat (rg_asset r) =? i)%nat && bool_decide (rg_side r = side)) regs).

(** No entry is newer than its position's generation. *)
Definition old_enough (gen : list Z) (s : Sorted) : Prop :=
  forall e, e ∈ so_base s ++ so_delta s -> exists g, gen !! e_id e = Some g /\ e_gen e <= g.

Record stands_for (n : Z) (assets : nat) (t : ThresholdIndex) (begun : list PositionId) (regs : list reg)
    : Prop := {
  sf_len : forall side, length (arrays t side) = assets;
  sf_gens : Forall (fun g => 0 <= g <= n) (ti_gen t);
  sf_begun : forall id, id ∈ begun -> is_Some (ti_gen t !! id);
  sf_array : forall side i s, arrays t side !! i = Some s ->
    sorted_ok s /\ old_enough (ti_gen t) s /\
    List.map pair_of (live_of (ti_gen t) s) ≡ₚ regs_at i side regs
}.

Lemma map_perm {A B} (f : A -> B) l l' : l ≡ₚ l' -> List.map f l ≡ₚ List.map f l'.
Proof. apply Permutation_map. Qed.

Lemma regs_at_snoc i side regs r :
  regs_at i side (regs ++ [r]) = regs_at i side regs ++
    (if (Z.to_nat (rg_asset r) =? i)%nat && bool_decide (rg_side r = side) then [(rg_price r, rg_id r)] else []).
Proof.
  unfold regs_at. rewrite List.filter_app, List.map_app. cbn. by destruct (_ && _).
Qed.

Lemma regs_at_begin i side regs id :
  regs_at i side (List.filter (fun r => negb (rg_id r =? id)%nat) regs) =
  List.filter (fun p => negb (snd p =? id)%nat) (regs_at i side regs).
Proof.
  unfold regs_at. induction regs as [|r regs IH]; cbn; [done|].
  destruct (rg_id r =? id)%nat eqn:E1; cbn; destruct (_ && _) eqn:E2; cbn; rewrite ?E1, ?E2; cbn; by rewrite ?IH.
Qed.

(** The generation vector after [begin]. *)
Lemma begin_gen t id n :
  Forall (fun g => 0 <= g <= n) (ti_gen t) -> 0 <= n < umax 32 ->
  exists g, 0 <= g <= n /\ default 0 (ti_gen t !! id) = g /\
    ti_gen (begin t id) !! id = Some (g + 1) /\
    (forall j x, ti_gen t !! j = Some x -> j <> id -> ti_gen (begin t id) !! j = Some x) /\
    Forall (fun g => 0 <= g <= n + 1) (ti_gen (begin t id)).
Proof.
  intros Hg [H0 Hn]. unfold begin. cbn [ti_gen].
  set (gen := if (length (ti_gen t) <=? id)%nat then _ else _).
  assert (Forall (fun g => 0 <= g <= n) gen) as Hgen.
  { unfold gen. destruct (_ <=? _)%nat; [|done]. by apply Forall_resize; [lia|]. }
  assert (forall j x, ti_gen t !! j = Some x -> gen !! j = Some x) as Hkeep.
  { intros j x Hj. unfold gen. destruct (Nat.leb_spec (length (ti_gen t)) id); [|done].
    apply lookup_lt_Some in Hj as Hlt. by rewrite lookup_resize by lia. }
  assert (gen !! id = Some (default 0 (ti_gen t !! id))) as Hid.
  { destruct (ti_gen t !! id) as [x|] eqn:E; [by rewrite (Hkeep _ _ E)|]. apply lookup_ge_None in E.
    unfold gen. rewrite (proj2 (Nat.leb_le _ _)) by done. by rewrite lookup_resize_new by lia. }
  set (g := default 0 (ti_gen t !! id)) in *. rewrite Hid.
  pose proof (Forall_lookup_1 _ _ _ _ Hgen Hid) as Hgn. cbv beta in Hgn.
  assert (wrapping_add 32 g 1 = g + 1) as ->.
  { unfold wrapping_add. apply Z.mod_small. unfold umax in Hn. lia. }
  exists g. split; [done|]. split; [done|].
  split; [apply list_lookup_insert_eq; by eapply lookup_lt_Some|]. split.
  - intros j x Hj Hne. rewrite list_lookup_insert_ne by done. by apply Hkeep.
  - apply Forall_insert; [|lia]. eapply Forall_impl; [exact Hgen|]. intros; cbv beta in *; lia.
Qed.

Lemma begin_live t id n s :
  Forall (fun g => 0 <= g <= n) (ti_gen t) -> 0 <= n < umax 32 -> old_enough (ti_gen t) s ->
  live_of (ti_gen (begin t id)) s = List.filter (fun e => negb (e_id e =? id)%nat) (live_of (ti_gen t) s) /\
  old_enough (ti_gen (begin t id)) s.
Proof.
  intros Hg Hn Hold. destruct (begin_gen t id n Hg Hn) as (g & Hgn & Hd & Hid & Hne & _).
  split.
  - unfold live_of, old_enough in *. induction (so_base s ++ so_delta s) as [|e l IH]; [done|]. cbn [List.filter].
    assert (is_live (ti_gen (begin t id)) e = is_live (ti_gen t) e && negb (e_id e =? id)%nat) as ->.
    { destruct (Hold e ltac:(left)) as (x & Hx & Hle). unfold is_live.
      destruct (Nat.eqb_spec (e_id e) id) as [E|E]; cbn [negb].
      - rewrite andb_false_r. apply bool_decide_eq_false_2. rewrite E, Hid. intros [= H].
        rewrite E in Hx. rewrite Hx in Hd. cbn in Hd. lia.
      - rewrite andb_true_r, Hx, (Hne _ _ Hx E). done. }
    rewrite IH by (intros; apply Hold; by right). destruct (is_live (ti_gen t) e); cbn; [|done].
    by destruct (negb _).
  - intros e He. destruct (Hold e He) as (x & Hx & Hle). destruct (decide (e_id e = id)) as [E|E].
    + exists (g + 1). rewrite E. split; [done|]. rewrite E in Hx. rewrite Hx in Hd. cbn in Hd. lia.
    + exists x. split; [by apply Hne|done].
Qed.

Lemma filter_map_pair id l :
  List.map pair_of (List.filter (fun e => negb (e_id e =? id)%nat) l) =
  List.filter (fun p => negb (snd p =? id)%nat) (List.map pair_of l).
Proof. induction l as [|e l IH]; cbn; [done|]. destruct (e_id e =? id)%nat; cbn; by rewrite ?IH. Qed.

Lemma stands_begin n assets t begun regs id :
  0 <= n < umax 32 -> stands_for n assets t begun regs ->
  stands_for (n + 1) assets (begin t id) (id :: begun) (reg_step assets regs (TBegin id)).
Proof.
  intros Hn [Hl Hg Hb Ha]. destruct (begin_gen t id n Hg Hn) as (g & Hgn & Hd & Hid & Hne & Hg').
  split; [intros []; apply (Hl Falling) || apply (Hl Rising)|done| |].
  - intros j [->|Hj]%elem_of_cons; [by rewrite Hid|]. destruct (decide (j = id)) as [->|]; [by rewrite Hid|].
    destruct (Hb j Hj) as [x Hx]. by rewrite (Hne j x Hx).
  - intros side i s Hs. assert (arrays t side !! i = Some s) as Hs' by (destruct side; exact Hs).
    destruct (Ha side i s Hs') as (Hok & Hold & Hp). destruct (begin_live t id n s Hg Hn Hold) as [El Hold'].
    split; [done|]. split; [done|]. cbn [reg_step]. rewrite El, filter_map_pair, regs_at_begin.
    by apply filter_perm.
Qed.

Lemma sorted_ok_push s e : sorted_ok s -> sorted_ok (mkSorted (so_base s) (so_delta s ++ [e]) (so_sorted s)).
Proof.
  intros [Hb Hd Hl]. split; cbn; [done|by rewrite take_app_le|rewrite length_app; lia].
Qed.

Lemma stands_register n assets t begun regs id asset side price :
  stands_for n assets t begun regs -> id ∈ begun ->
  stands_for n assets (fst (register t id asset side price)) begun
    (reg_step assets regs (TRegister id asset side price)) /\
  (snd (register t id asset side price) = Ok tt <-> (Z.to_nat asset < assets)%nat).
Proof.
  intros [Hl Hg Hb Ha] Hid. destruct (Hb id Hid) as [g Hgid].
  unfold register. rewrite Hgid. cbn [default reg_step]. fold (arrays t side).
  destruct (arrays t side !! Z.to_nat asset) as [s|] eqn:Es.
  2:{ apply lookup_ge_None in Es. rewrite Hl in Es. rewrite (proj2 (Nat.ltb_ge _ _)) by done.
      cbn. split; [done|]. split; [done|lia]. }
  apply lookup_lt_Some in Es as Hlt. rewrite Hl in Hlt. rewrite (proj2 (Nat.ltb_lt _ _)) by done.
  cbn [fst snd]. split; [|done].
  set (s' := mkSorted _ _ _). set (t' := match side with Falling => _ | Rising => _ end).
  assert (arrays t' side = <[Z.to_nat asset := s']> (arrays t side)) as Eside by (by destruct side).
  assert (forall side', side' <> side -> arrays t' side' = arrays t side') as Eother by (by destruct side, side').
  assert (ti_gen t' = ti_gen t) as Eg by (by destruct side).
  split.
  - intros side'. destruct (decide (side' = side)) as [->|Hne]; [rewrite Eside, length_insert|rewrite Eother by done]; apply Hl.
  - by rewrite Eg.
  - rewrite Eg. apply Hb.
  - intros side' i x Hx. rewrite Eg, regs_at_snoc. cbn [rg_asset rg_side rg_price rg_id].
    destruct (decide (side' = side)) as [->|Hne].
    2:{ rewrite Eother in Hx by done. rewrite (bool_decide_eq_false_2 (side = side')) by congruence.
        rewrite andb_false_r, app_nil_r. by apply Ha. }
    rewrite Eside in Hx. rewrite bool_decide_eq_true_2, andb_true_r by done.
    destruct (Nat.eqb_spec (Z.to_nat asset) i) as [<-|Hne].
    2:{ rewrite list_lookup_insert_ne in Hx by done. rewrite app_nil_r. by apply Ha. }
    rewrite list_lookup_insert_eq in Hx by (rewrite Hl; done). injection Hx as <-.
    destruct (Ha side _ s Es) as (Hok & Hold & Hp). split; [by apply sorted_ok_push|]. split.
    + intros e. cbn. rewrite app_assoc, elem_of_app, list_elem_of_singleton.
      intros [He| ->]; [by apply Hold|]. exists g. cbn. split; [done|lia].
    + unfold live_of in *. cbn. rewrite app_assoc, List.filter_app. cbn [List.filter].
      unfold is_live at 2. cbn [e_id e_gen]. rewrite bool_decide_eq_true_2 by done.
      rewrite List.map_app. cbn. by rewrite Hp.
Qed.

Lemma stands_commit n assets t begun regs :
  stands_for n assets t begun regs -> stands_for n assets (commit t) begun regs.
Proof.
  intros [Hl Hg Hb Ha]. split; [|done|done|].
  - intros []; cbn; rewrite length_map; apply (Hl Falling) || apply (Hl Rising).
  - intros side i s Hs.
    assert (exists s0, arrays t side !! i = Some s0 /\ s = sorted_commit s0 (ti_gen t) (ti_merge_min t)) as (s0 & Hs0 & ->).
    { destruct side; cbn in Hs; rewrite list_lookup_fmap in Hs; apply fmap_Some in Hs; naive_solver. }
    destruct (Ha side i s0 Hs0) as (Hok & Hold & Hp).
    destruct (sorted_commit_spec s0 (ti_gen t) (ti_merge_min t) Hok) as (Hok' & Hlive & Hin).
    split; [done|]. split; [intros e He; by apply Hold, Hin|].
    cbn [commit ti_gen]. by rewrite (map_perm _ _ _ Hlive).
Qed.

Fixpoint begun_after (begun : list PositionId) (ops : list ThrOp) : list PositionId :=
  match ops with
  | [] => begun
  | TBegin id :: ops => begun_after (id :: begun) ops
  | _ :: ops => begun_after begun ops
  end.

Lemma stands_run n assets t begun regs ops :
  0 <= n -> n + Z.of_nat (length ops) <= umax 32 -> ops_ok begun ops ->
  stands_for n assets t begun regs ->
  stands_for (n + Z.of_nat (length ops)) assets (fold_left thr_step ops t) (begun_after begun ops)
    (fold_left (reg_step assets) ops regs).
Proof.
  revert n t begun regs. induction ops as [|op ops IH]; intros n t begun regs H0 Hn Hok Hs.
  { cbn. by rewrite Z.add_0_r. }
  assert (forall m, stands_for m assets t begun regs -> stands_for (m + 1) assets t begun regs) as Hw.
  { intros m [? Hg ? ?]. split; try done. eapply Forall_impl; [exact Hg|]. intros; cbv beta in *; lia. }
  replace (n + Z.of_nat (length (op :: ops))) with (n + 1 + Z.of_nat (length ops)) by (cbn [length]; lia).
  cbn [length] in Hn. destruct op as [id|id asset side price|]; cbn in Hok |- *.
  - apply IH; [lia|lia|done|]. apply stands_begin; [lia|done].
  - destruct Hok as (Hid & Hok). apply IH; [lia|lia|done|]. apply stands_register; auto.
  - apply IH; [lia|lia|done|]. apply stands_commit; auto.
Qed.

Lemma stands_new assets : stands_for 0 assets (threshold_new assets) [] [].
Proof.
  split.
  - intros []; apply length_replicate.
  - constructor.
  - by intros id ?%elem_of_nil.
  - intros side i s Hs. assert (s = sorted_default) as ->.
    { destruct side; cbn in Hs; by apply lookup_replicate in Hs as [-> _]. }
    split; [split; [constructor|constructor|done]|]. split; [by intros e ?%elem_of_nil|done].
Qed.

Lemma crossed_pairs n assets t begun regs asset old new :
  stands_for n assets t begun regs -> (Z.to_nat asset < assets)%nat ->
  crossed t asset old new ≡ₚ
  List.map snd (List.filter (fun p => (Z.min old new <=? fst p) && (fst p <=? Z.max old new))
    (regs_at (Z.to_nat asset) (if new <? old then Falling else Rising) regs)).
Proof.
  intros [Hl _ _ Ha] Hi. unfold crossed.
  set (side := if new <? old then Falling else Rising).
  assert ((if new <? old then (ti_falling t, new, old) else (ti_rising t, old, new)) =
    (arrays t side, Z.min old new, Z.max old new)) as ->.
  { unfold side. destruct (Z.ltb_spec new old); cbn; f_equal; [f_equal|..|f_equal|]; lia. }
  destruct (lookup_lt_is_Some_2 (arrays t side) (Z.to_nat asset)) as [s Hs]; [by rewrite Hl|].
  rewrite Hs. destruct (Ha side _ s Hs) as (Hok & _ & Hp).
  rewrite range_filter by (done || lia). rewrite <- (filter_perm _ _ _ Hp). unfold live_of. clear.
  assert (forall l, List.map e_id (List.filter (is_live (ti_gen t)) (List.filter (in_range (Z.min old new) (Z.max old new)) l)) =
    List.map snd (List.filter (fun p => (Z.min old new <=? fst p) && (fst p <=? Z.max old new))
      (List.map pair_of (List.filter (is_live (ti_gen t)) l)))) as E; [|by rewrite E].
  induction l as [|e l IH]; cbn [List.filter List.map]; [done|].
  destruct (in_range (Z.min old new) (Z.max old new) e) eqn:Er; destruct (is_live (ti_gen t) e) eqn:El;
    cbn [List.filter List.map fst snd pair_of]; unfold in_range in Er; rewrite ?El; cbn [List.map]; rewrite ?Er; cbn; by rewrite ?IH.
Qed.

(** C14. The threshold index is exact: over any sequence of [begin], [register] and [commit]
    calls (each position begun before it registers, fewer than 2^32 calls), a tick
    [old -> new] on a tracked asset yields exactly the positions whose latest registration
    lies between the two prices on the side the move crosses, each registration once,
    whatever stale entries, sorted deltas and base merges the arrays went through. *)
Theorem threshold_index_exact (assets : nat) (ops : list ThrOp) (asset : AssetId) (old new : Z)
    (Hok : ops_ok [] ops) (Hlen : Z.of_nat (length ops) <= umax 32)
    (Hi : (Z.to_nat asset < assets)%nat) :
  let side := if new <? old then Falling else Rising in
  crossed (fold_left thr_step ops (threshold_new assets)) asset old new ≡ₚ
  List.map rg_id (List.filter (fun r => (Z.to_nat (rg_asset r) =? Z.to_nat asset)%nat &&
      bool_decide (rg_side r = side) && ((Z.min old new <=? rg_price r) && (rg_price r <=? Z.max old new)))
    (fold_left (reg_step assets) ops [])).
Proof.
  intros side. rewrite crossed_pairs by (done || by apply (stands_run 0); [..|apply stands_new]). fold side.
  generalize (fold_left (reg_step assets) ops []) as regs. intros regs. unfold regs_at.
  induction regs as [|r regs IH]; cbn [List.filter List.map]; [done|].
  destruct ((Z.to_nat (rg_asset r) =? Z.to_nat asset)%nat && bool_decide (rg_side r = side)); cbn [andb List.map List.filter fst]; [|exact IH].
  destruct ((Z.min old new <=? rg_price r) && (rg_price r <=? Z.max old new)); cbn [List.map snd]; by rewrite ?IH.
Qed.

Lemma threshold_index_exact_witness :
  let ops := [TBegin 1; TRegister 1 0 Falling 90; TBegin 2; TRegister 2 0 Falling 80; TCommit;
              TBegin 1; TRegister 1 0 Falling 70; TRegister 2 0 Rising 85] in
  crossed (fold_left thr_step ops (threshold_new 2)) 0 100 75 = [2%nat] /\
  crossed (fold_left thr_step ops (threshold_new 2)) 0 100 75 ≡ₚ
  List.map rg_id (List.filter (fun r => (Z.to_nat (rg_asset r) =? Z.to_nat 0)%nat &&
      bool_decide (rg_side r = Falling) && ((Z.min 100 75 <=? rg_price r) && (rg_price r <=? Z.max 100 75)))
    (fold_left (reg_step 2) ops [])).
Proof.
  intros ops. split; [vm_compute; reflexivity|].
  apply (threshold_index_exact 2 ops 0 100 75); [|vm_compute; discriminate|cbn; lia].
  repeat split; set_solver.
Defined.

Lemma dedup_spec l :
  StronglySorted (fun x y => Nat.leb x y = true) l ->
  StronglySorted lt (dedup l) /\ forall x, x ∈ dedup l <-> x ∈ l.
Proof.
  induction 1 as [|x l Hs [IHs IHm] Hall]; [split; [constructor|done]|]. cbn [dedup].
  destruct l as [|y l']; [split; [repeat constructor|done]|].
  destruct (Nat.eqb_spec x y) as [->|Hne].
  - split; [done|]. intros z. rewrite IHm, !elem_of_cons. naive_solver.
  - split; [|intros z; rewrite !elem_of_cons, IHm, elem_of_cons; done].
    constructor; [done|]. apply Forall_forall. intros z Hz%IHm.
    pose proof Hall as Hall'. rewrite Forall_forall in Hall. specialize (Hall y ltac:(left)) as Hxy%Nat.leb_le.
    apply elem_of_cons in Hz as [->|Hz]; [lia|].
    apply StronglySorted_inv in Hs as [_ Hy]. rewrite Forall_forall in Hy. specialize (Hy z Hz) as Hyz%Nat.leb_le. lia.
Qed.

Lemma sort_nat_spec l :
  StronglySorted (fun x y => Nat.leb x y = true) (sort_by Nat.leb l) /\ sort_by Nat.leb l ≡ₚ l.
Proof.
  split; [|apply sort_by_perm]. apply sort_by_sorted; intros *; rewrite !Nat.leb_le; lia.
Qed.

(** The precomputed crossing set of a scheduled parameter change is the set of positions the
    live index would yield for the same move, and the registered set every position with a
    live threshold on the asset: strictly ascending, each position once. *)
Theorem crossing_sets_are_sets (t : ThresholdIndex) (asset : AssetId) (old new : Z) :
  StronglySorted lt (crossing_set t asset old new) /\
  (forall id, id ∈ crossing_set t asset old new <-> id ∈ crossed t asset old new) /\
  StronglySorted lt (registered_set t asset) /\
  (forall id, id ∈ registered_set t asset <->
     exists side s e, arrays t side !! Z.to_nat asset = Some s /\ e ∈ so_base s ++ so_delta s /\
       ti_gen t !! id = Some (e_gen e) /\ e_id e = id).
Proof.
  unfold crossing_set, registered_set.
  destruct (sort_nat_spec (crossed t asset old new)) as [Hs Hp].
  destruct (sort_nat_spec (registered t asset)) as [Hs' Hp'].
  destruct (dedup_spec _ Hs) as [H1 H2]. destruct (dedup_spec _ Hs') as [H3 H4].
  split; [done|]. split; [intros id; by rewrite H2, Hp|]. split; [done|].
  intros id. rewrite H4, Hp'. unfold registered. rewrite list_elem_of_In, in_map_iff.
  setoid_rewrite filter_In. setoid_rewrite <- list_elem_of_In. unfold is_live.
  setoid_rewrite bool_decide_eq_true. setoid_rewrite elem_of_app. split.
  - intros (e & Ee & [Hin|Hin] & Hg); rewrite Ee in Hg.
    + exists Falling. cbn. destruct (ti_falling t !! Z.to_nat asset) as [s|]; [|by apply elem_of_nil in Hin].
      exists s, e. rewrite <- elem_of_app. done.
    + exists Rising. cbn. destruct (ti_rising t !! Z.to_nat asset) as [s|]; [|by apply elem_of_nil in Hin].
      exists s, e. rewrite <- elem_of_app. done.
  - intros ([] & s & e & Hs0 & Hin & Hg & Ee); cbn in Hs0; exists e; rewrite Hs0, Ee, elem_of_app; auto.
Qed.
