(* ===== verification/Bands.v ===== *)
(** The band manager: [crates/liq-engine/src/band.rs] and [crates/liq-types/src/band.rs].

    One optional band per position and a dense, swap-removable membership list per walked
    band. *)

From S2P Require Import Prelude Fixed Types.
Local Open Scope Z_scope.

Inductive Band := Hot | Warm | Cool | Cold | Dead | Unfundable.

#[export] Instance Band_eq_dec : EqDecision Band.
Proof. solve_decision. Defined.

Definition HOT_BELOW : Z := 1020000000000000000000000000.
Definition WARM_BELOW : Z := 1150000000000000000000000000.
Definition COOL_BELOW : Z := 1500000000000000000000000000.

Definition classify (hf : Z) (has_debt : bool) : Band :=
  if negb has_debt then Dead
  else if hf <? HOT_BELOW then Hot
  else if hf <? WARM_BELOW then Warm
  else if hf <? COOL_BELOW then Cool
  else Cold.

Definition set_of (b : Band) : option nat :=
  match b with
  | Hot => Some 0%nat | Warm => Some 1%nat | Cool => Some 2%nat | Unfundable => Some 3%nat
  | Cold | Dead => None
  end.

Definition NO_SLOT : Z := umax 32.

Record BandManager := mkBands {
  bm_band : list (option Band);
  bm_slot : list Z;
  bm_sets : list (list PositionId)
}.

Definition bands_new : BandManager := mkBands [] [] [[]; []; []; []].

(** [Vec::get(i).copied().flatten()]. *)
Definition band (m : BandManager) (id : PositionId) : option Band :=
  match bm_band m !! id with Some (Some b) => Some b | _ => None end.

Definition members (m : BandManager) (b : Band) : list PositionId :=
  match set_of b with
  | Some i => default [] (bm_sets m !! i)
  | None => []
  end.

(** Swap-remove position [i]'s entry of set [si]: the popped last entry takes its place. *)
Definition leave (slot : list Z) (sets : list (list PositionId)) (si : nat) (i : PositionId)
    : list Z * list (list PositionId) :=
  let at_ := default NO_SLOT (slot !! i) in
  match sets !! si with
  | None => (slot, sets)
  | Some set =>
      match vec_pop set with
      | (_, None) => (slot, sets)
      | (set, Some last) =>
          if at_ <? Z.of_nat (length set)
          then (<[last := at_]> slot, <[si := <[Z.to_nat at_ := last]> set]> sets)
          else (slot, <[si := set]> sets)
      end
  end.

Definition set_band (m : BandManager) (id : PositionId) (new : Band) : BandManager :=
  let grow := (length (bm_band m) <=? id)%nat in
  let band_ := if grow then resize (S id) None (bm_band m) else bm_band m in
  let slot := if grow then resize (S id) NO_SLOT (bm_slot m) else bm_slot m in
  let old := match band_ !! id with Some (Some b) => Some b | _ => None end in
  if decide (old = Some new) then mkBands band_ slot (bm_sets m) else
  let '(slot, sets) :=
    match (let! b := old in set_of b) with
    | Some si => leave slot (bm_sets m) si id
    | None => (slot, bm_sets m)
    end in
  let '(sets, at_) :=
    match (let! si := set_of new in let! set := sets !! si in Some (si, set)) with
    | Some (si, set) => (<[si := set ++ [id]]> sets, default NO_SLOT (try_from 32 (Z.of_nat (length set))))
    | None => (sets, NO_SLOT)
    end in
  mkBands (<[id := Some new]> band_) (<[id := at_]> slot) sets.

(** ** Invariant *)

Definition member (sets : list (list PositionId)) (si k : nat) (id : PositionId) : Prop :=
  exists l, sets !! si = Some l /\ l !! k = Some id.

(** The lists, the back-pointers and the listed-in relation [inb] agree. *)
Record lists_ok (inb : PositionId -> option nat) (slot : list Z) (sets : list (list PositionId)) : Prop := {
  lk_member : forall si k id, member sets si k id <-> inb id = Some si /\ slot !! id = Some (Z.of_nat k);
  lk_slot : forall id si, inb id = Some si -> exists k, slot !! id = Some (Z.of_nat k)
}.

Lemma lists_ok_ext inb inb' slot sets :
  (forall id, inb id = inb' id) -> lists_ok inb slot sets -> lists_ok inb' slot sets.
Proof. intros E [H1 H2]. split; [intros; by rewrite <- E|intros *; rewrite <- E; apply H2]. Qed.

Lemma lists_nodup inb slot sets si l : lists_ok inb slot sets -> sets !! si = Some l -> NoDup l.
Proof.
  intros [Hm _] Hl. apply NoDup_alt. intros i j x Hi Hj.
  destruct (proj1 (Hm si i x) (ex_intro _ l (conj Hl Hi))) as [_ E1].
  destruct (proj1 (Hm si j x) (ex_intro _ l (conj Hl Hj))) as [_ E2].
  rewrite E1 in E2. injection E2 as ?. lia.
Qed.

(** A list's size is bounded by the tracked universe. *)
Lemma lists_length inb slot sets si l :
  lists_ok inb slot sets -> sets !! si = Some l -> (length l <= length slot)%nat.
Proof.
  intros Hok Hl. rewrite <- (length_seq (length slot) 0). apply submseteq_length, NoDup_submseteq.
  - by eapply lists_nodup.
  - intros x [k Hk]%list_elem_of_lookup. apply elem_of_seq.
    destruct Hok as [Hm _]. destruct (proj1 (Hm si k x) (ex_intro _ l (conj Hl Hk))) as [_ E].
    apply lookup_lt_Some in E. lia.
Qed.

Lemma lookup_snoc_iff {A} (l : list A) (x y : A) j :
  (l ++ [x]) !! j = Some y <-> l !! j = Some y \/ (j = length l /\ y = x).
Proof.
  rewrite lookup_snoc_Some. split; [naive_solver|].
  intros [H|[-> ->]]; [left; split; [by eapply lookup_lt_Some|done]|by right].
Qed.

Definition without (inb : PositionId -> option nat) (id : PositionId) : PositionId -> option nat :=
  fun j => if decide (j = id) then None else inb j.

(** Positions of another list are untouched by what happens to list [si]. *)
Lemma other_list inb slot sets si si' k j id l :
  lists_ok inb slot sets -> inb id = Some si -> si <> si' ->
  member (<[si := l]> sets) si' k j <-> without inb id j = Some si' /\ slot !! j = Some (Z.of_nat k).
Proof.
  intros [Hm _] Hin Hne. unfold member, without. rewrite list_lookup_insert_ne by done.
  fold (member sets si' k j). rewrite Hm. destruct (decide (j = id)) as [->|]; [|done].
  rewrite Hin. naive_solver.
Qed.

(** The removed entry was the last: a pop. *)
Lemma pop_out_ok inb slot sets si l id :
  lists_ok inb slot sets -> sets !! si = Some (l ++ [id]) ->
  lists_ok (without inb id) slot (<[si := l]> sets).
Proof.
  intros Hok Hl. pose proof Hok as [Hm Hs].
  destruct (proj1 (Hm si (length l) id)) as [Hin Hk].
  { exists (l ++ [id]). split; [done|]. apply lookup_snoc_iff. by right. }
  split; [|intros j si'; unfold without; destruct (decide (j = id)); [done|apply Hs]].
  intros si' k' j. destruct (decide (si = si')) as [<-|Hne]; [|by apply other_list].
  unfold member, without. rewrite list_lookup_insert_eq by (by eapply lookup_lt_Some). split.
  - intros (l' & [= <-] & Hj).
    assert (inb j = Some si /\ slot !! j = Some (Z.of_nat k')) as [H1 H2].
    { apply Hm. exists (l ++ [id]). split; [done|]. apply lookup_snoc_iff. by left. }
    rewrite decide_False; [done|]. intros ->. rewrite Hk in H2. injection H2 as ?.
    apply lookup_lt_Some in Hj. lia.
  - destruct (decide (j = id)); [by intros [? _]|]. intros [H1 H2]. exists l. split; [done|].
    destruct (proj2 (Hm si k' j) (conj H1 H2)) as (l0 & Hl0 & Hj).
    assert (l0 = l ++ [id]) as -> by congruence. by apply lookup_snoc_iff in Hj as [Hj|[_ ->]].
Qed.

(** The removed entry was inside: the last one takes its place and its back-pointer. *)
Lemma swap_out_ok inb slot sets si l last id k :
  lists_ok inb slot sets -> sets !! si = Some (l ++ [last]) -> l !! k = Some id ->
  lists_ok (without inb id) (<[last := Z.of_nat k]> slot) (<[si := <[k := last]> l]> sets).
Proof.
  intros Hok Hl Hlk. pose proof Hok as [Hm Hs].
  assert (forall j x, l !! j = Some x -> inb x = Some si /\ slot !! x = Some (Z.of_nat j)) as Hin.
  { intros j x Hj. apply Hm. exists (l ++ [last]). split; [done|]. apply lookup_snoc_iff. by left. }
  destruct (proj1 (Hm si (length l) last)) as [Hil Hsl].
  { exists (l ++ [last]). split; [done|]. apply lookup_snoc_iff. by right. }
  destruct (Hin k id Hlk) as [Hid Hk].
  assert (forall j, l !! j <> Some last) as Hnl.
  { intros j Hj. destruct (Hin j last Hj) as [_ E]. rewrite Hsl in E. injection E as E.
    apply lookup_lt_Some in Hj. lia. }
  assert (last <> id) as Hne by (intros ->; by apply (Hnl k)).
  assert (last < length slot)%nat as Hls by (by eapply lookup_lt_Some).
  split.
  - intros si' k' j. destruct (decide (si = si')) as [<-|Hsi].
    2:{ rewrite (other_list inb slot sets si si' k' j id _ Hok Hid Hsi). unfold without.
        destruct (decide (j = id)); [naive_solver|]. destruct (decide (j = last)) as [->|]; [naive_solver|].
        by rewrite list_lookup_insert_ne. }
    unfold member, without. rewrite list_lookup_insert_eq by (by eapply lookup_lt_Some). split.
    + intros (l' & [= <-] & Hj). apply list_lookup_insert_Some in Hj as [(<- & -> & _)|(Hkk & Hj)].
      * rewrite decide_False, list_lookup_insert_eq by done. done.
      * destruct (Hin k' j Hj) as [H1 H2]. assert (j <> id) by (intros ->; rewrite Hk in H2; simplify_eq; lia).
        assert (j <> last) by (intros ->; by apply (Hnl k')).
        by rewrite decide_False, list_lookup_insert_ne.
    + destruct (decide (j = id)); [by intros [? _]|]. intros [H1 H2]. eexists. split; [done|].
      destruct (decide (j = last)) as [->|Hjl].
      * rewrite list_lookup_insert_eq in H2 by done. injection H2 as H2. assert (k' = k) as -> by lia.
        apply list_lookup_insert_eq. by eapply lookup_lt_Some.
      * rewrite list_lookup_insert_ne in H2 by done.
        destruct (proj2 (Hm si k' j) (conj H1 H2)) as (l0 & Hl0 & Hj). assert (l0 = l ++ [last]) as -> by congruence.
        apply lookup_snoc_iff in Hj as [Hj|[_ ->]]; [|done].
        rewrite list_lookup_insert_ne; [done|]. intros ->. congruence.
  - intros j si'. unfold without. destruct (decide (j = id)); [done|]. intros Hj.
    destruct (decide (j = last)) as [->|]; [exists k; by apply list_lookup_insert_eq|].
    rewrite list_lookup_insert_ne by done. by eapply Hs.
Qed.

Lemma leave_ok inb slot sets si id :
  lists_ok inb slot sets -> inb id = Some si ->
  let '(slot', sets') := leave slot sets si id in
  lists_ok (without inb id) slot' sets' /\ length slot' = length slot /\ length sets' = length sets.
Proof.
  intros Hok Hin. pose proof Hok as [Hm Hs]. destruct (Hs id si Hin) as [k Hk].
  destruct (proj2 (Hm si k id) (conj Hin Hk)) as (l & Hl & Hlk). unfold leave. rewrite Hk, Hl.
  change (default NO_SLOT (Some (Z.of_nat k))) with (Z.of_nat k).
  destruct l as [|last l _] using rev_ind; [done|]. rewrite vec_pop_snoc.
  apply lookup_snoc_iff in Hlk as [Hlk|[-> ->]].
  - apply lookup_lt_Some in Hlk as Hlt. rewrite (proj2 (Z.ltb_lt _ _)) by lia. rewrite Nat2Z.id.
    split; [by apply swap_out_ok|by rewrite !length_insert].
  - rewrite Z.ltb_irrefl. split; [by apply pop_out_ok|by rewrite length_insert].
Qed.

(** Appending a position not listed anywhere. *)
Lemma join_ok inb slot sets si l id :
  lists_ok inb slot sets -> inb id = None -> (id < length slot)%nat -> sets !! si = Some l ->
  lists_ok (fun j => if decide (j = id) then Some si else inb j)
    (<[id := Z.of_nat (length l)]> slot) (<[si := l ++ [id]]> sets).
Proof.
  intros [Hm Hs] Hid Hlt Hl. split.
  - intros si' k' j. unfold member.
    assert (member sets si' k' j -> j <> id) as Hne.
    { intros H ->. apply Hm in H as [H _]. congruence. }
    destruct (decide (si = si')) as [<-|Hsi].
    + rewrite list_lookup_insert_eq by (by eapply lookup_lt_Some). split.
      * intros (l' & [= <-] & Hj). apply lookup_snoc_iff in Hj as [Hj|[-> ->]].
        -- assert (member sets si k' j) as Hmj by (by exists l). specialize (Hne Hmj).
           rewrite decide_False, list_lookup_insert_ne by done. by apply Hm.
        -- rewrite decide_True, list_lookup_insert_eq by done. done.
      * intros [H1 H2]. eexists. split; [done|]. apply lookup_snoc_iff. destruct (decide (j = id)) as [->|Hj].
        -- rewrite list_lookup_insert_eq in H2 by done. injection H2 as ?. right. split; [lia|done].
        -- rewrite list_lookup_insert_ne in H2 by done. left.
           destruct (proj2 (Hm si k' j) (conj H1 H2)) as (l0 & Hl0 & ?). congruence.
    + rewrite list_lookup_insert_ne by done. fold (member sets si' k' j). split.
      * intros H. specialize (Hne H). rewrite decide_False, list_lookup_insert_ne by done. by apply Hm.
      * intros [H1 H2]. destruct (decide (j = id)); [naive_solver|].
        rewrite list_lookup_insert_ne in H2 by done. by apply Hm.
  - intros j si'. destruct (decide (j = id)) as [->|].
    + intros _. exists (length l). by apply list_lookup_insert_eq.
    + rewrite list_lookup_insert_ne by done. apply Hs.
Qed.

(** A position in no list may hold any back-pointer. *)
Lemma unlisted_ok inb slot sets id x :
  lists_ok inb slot sets -> inb id = None -> lists_ok inb (<[id := x]> slot) sets.
Proof.
  intros [Hm Hs] Hid. split.
  - intros si k j. rewrite Hm. split; intros [H1 H2]; (split; [done|]);
      (destruct (decide (j = id)) as [->|]; [congruence|]).
    + by rewrite list_lookup_insert_ne.
    + by rewrite list_lookup_insert_ne in H2.
  - intros j si Hj. destruct (decide (j = id)) as [->|]; [congruence|].
    rewrite list_lookup_insert_ne by done. by eapply Hs.
Qed.

Definition listed (m : BandManager) (id : PositionId) : option nat :=
  match band m id with Some b => set_of b | None => None end.

Record bands_ok (m : BandManager) : Prop := {
  bk_len : length (bm_slot m) = length (bm_band m);
  bk_sets : length (bm_sets m) = 4%nat;
  bk_lists : lists_ok (listed m) (bm_slot m) (bm_sets m)
}.

Lemma set_of_lt b i : set_of b = Some i -> (i < 4)%nat.
Proof. destruct b; cbn; intros [= <-]; lia. Qed.

(** Growing the tables changes no band and no list. *)
Lemma grow_ok m id :
  bands_ok m -> let grow := (length (bm_band m) <=? id)%nat in
  let m' := mkBands (if grow then resize (S id) None (bm_band m) else bm_band m)
              (if grow then resize (S id) NO_SLOT (bm_slot m) else bm_slot m) (bm_sets m) in
  bands_ok m' /\ (id < length (bm_slot m'))%nat /\ (forall j, band m' j = band m j).
Proof.
  intros [Hl H4 [Hm Hs]] grow m'. subst grow m'.
  destruct (Nat.leb_spec (length (bm_band m)) id) as [Hge|Hlt].
  2:{ split; [by split|]. cbn. split; [lia|done]. }
  assert (forall j, band (mkBands (resize (S id) None (bm_band m)) (resize (S id) NO_SLOT (bm_slot m)) (bm_sets m)) j
    = band m j) as Hb.
  { intros j. unfold band. cbn. destruct (decide (j < length (bm_band m))%nat).
    - by rewrite lookup_resize by lia.
    - rewrite (lookup_ge_None_2 (bm_band m)) by lia. destruct (decide (j < S id)%nat);
        [by rewrite lookup_resize_new by lia|by rewrite lookup_resize_old by lia]. }
  assert (forall j si, listed m j = Some si -> resize (S id) NO_SLOT (bm_slot m) !! j = bm_slot m !! j) as Hr.
  { intros j si Hj. destruct (Hs j si Hj) as [k Hk]. apply lookup_lt_Some in Hk. by rewrite lookup_resize by lia. }
  split; [|split; [cbn; rewrite length_resize; lia|done]].
  split; cbn; [by rewrite !length_resize|done|].
  apply (lists_ok_ext (listed m)); [intros j; unfold listed; by rewrite Hb|]. split.
  - intros si k j. rewrite Hm. split; intros [H1 H2]; (split; [done|]); [by rewrite (Hr _ _ H1)|by rewrite <- (Hr _ _ H1)].
  - intros j si Hj. rewrite (Hr _ _ Hj). by eapply Hs.
Qed.

Lemma band_insert bs slot sets id new j :
  (id < length bs)%nat ->
  band (mkBands (<[id := Some new]> bs) slot sets) j =
  if decide (j = id) then Some new else band (mkBands bs slot sets) j.
Proof.
  intros Hid. unfold band. cbn. destruct (decide (j = id)) as [->|].
  - by rewrite list_lookup_insert_eq.
  - by rewrite list_lookup_insert_ne.
Qed.

Lemma set_band_ok m id new :
  bands_ok m -> Z.of_nat (Nat.max (length (bm_band m)) (S id)) <= umax 32 ->
  bands_ok (set_band m id new) /\
  (forall j, band (set_band m id new) j = if decide (j = id) then Some new else band m j) /\
  length (bm_band (set_band m id new)) = Nat.max (length (bm_band m)) (S id).
Proof.
  intros Hok Hu. pose proof (grow_ok m id Hok) as Hg. cbv zeta in Hg. unfold set_band.
  assert (length (if (length (bm_band m) <=? id)%nat then resize (S id) None (bm_band m) else bm_band m)
    = Nat.max (length (bm_band m)) (S id)) as Hlen.
  { destruct (Nat.leb_spec (length (bm_band m)) id); [rewrite length_resize|]; lia. }
  set (bs := if (length (bm_band m) <=? id)%nat then resize (S id) None _ else _) in *.
  set (slot := if (length (bm_band m) <=? id)%nat then resize (S id) NO_SLOT _ else _) in *.
  cbv zeta. destruct Hg as ([Hl H4 Hlists] & Hid & Hb). cbn [bm_slot bm_band bm_sets] in *.
  change (match bs !! id with Some (Some b) => Some b | _ => None end) with (band (mkBands bs slot (bm_sets m)) id).
  rewrite (Hb id). destruct (decide (band m id = Some new)) as [E|E].
  { split; [by split|]. split; [|done]. intros j. rewrite Hb. destruct (decide (j = id)) as [->|]; done. }
  (** Leaving the old list. *)
  assert (exists slot' sets', match (let! b := band m id in set_of b) with
      | Some si => leave slot (bm_sets m) si id | None => (slot, bm_sets m) end = (slot', sets') /\
    lists_ok (without (listed (mkBands bs slot (bm_sets m))) id) slot' sets' /\
    length slot' = length slot /\ length sets' = 4%nat) as (slot' & sets' & -> & Hlv & Hls & Hss).
  { assert (listed (mkBands bs slot (bm_sets m)) id = let! b := band m id in set_of b) as El
      by (unfold listed; rewrite Hb; by destruct (band m id)).
    destruct (let! b := band m id in set_of b) as [si|] eqn:Es.
    - pose proof (leave_ok _ slot (bm_sets m) si id Hlists El) as Hlv.
      destruct (leave slot (bm_sets m) si id) as [slot' sets']. destruct Hlv as (? & ? & ?).
      exists slot', sets'. split; [done|]. split; [done|]. split; [done|lia].
    - exists slot, (bm_sets m). split; [done|]. split; [|done].
      eapply lists_ok_ext; [|exact Hlists]. intros j. unfold without. by destruct (decide (j = id)) as [->|]. }
  (** Joining the new one. *)
  assert (without (listed (mkBands bs slot (bm_sets m))) id id = None) as Hno
    by (unfold without; by rewrite decide_True).
  assert (forall slot'' sets'' j, band (mkBands (<[id := Some new]> bs) slot'' sets'') j =
    if decide (j = id) then Some new else band m j) as Hband.
  { intros slot'' sets'' j. rewrite band_insert by lia. destruct (decide (j = id)); [done|]. apply Hb. }
  assert (forall slot'' sets'' j, listed (mkBands (<[id := Some new]> bs) slot'' sets'') j =
    if decide (j = id) then set_of new else without (listed (mkBands bs slot (bm_sets m))) id j) as Hlisted.
  { intros slot'' sets'' j. unfold without, listed at 1. rewrite Hband. unfold listed. rewrite Hb.
    by destruct (decide (j = id)). }
  destruct (set_of new) as [si|] eqn:Esi.
  - destruct (lookup_lt_is_Some_2 sets' si) as [l El]; [rewrite Hss; by eapply set_of_lt|]. rewrite El.
    assert (length l <= length slot')%nat as Hll by (by eapply lists_length).
    rewrite try_from_ok by (split; lia). cbn [default].
    split; [|split; [intros j; apply Hband|cbn; by rewrite length_insert]].
    split; cbn; [rewrite !length_insert; lia|by rewrite length_insert|].
    eapply lists_ok_ext; [intros j; symmetry; apply Hlisted|]. apply join_ok; [done|done|lia|done].
  - split; [|split; [intros j; apply Hband|cbn; by rewrite length_insert]].
    split; cbn; [rewrite !length_insert; lia|done|].
    eapply lists_ok_ext; [|apply (unlisted_ok _ slot' sets' id NO_SLOT Hlv Hno)].
    intros j. rewrite Hlisted. by destruct (decide (j = id)) as [->|].
Qed.

(** ** Runs *)

Definition bands_run (ops : list (PositionId * Band)) : BandManager :=
  fold_left (fun m '(id, b) => set_band m id b) ops bands_new.

(** The band last given to a position. *)
Definition last_band (ops : list (PositionId * Band)) (id : PositionId) : option Band :=
  fold_left (fun acc '(i, b) => if decide (id = i) then Some b else acc) ops None.

Lemma bands_new_ok : bands_ok bands_new.
Proof.
  split; [done|done|]. split; [|done]. intros si k id. split; [|by intros [? _]].
  intros (l & Hl & Hk). destruct si as [|[|[|[|si]]]]; cbn in Hl; simplify_eq; done.
Qed.

Lemma bands_run_ok ops :
  Forall (fun op => Z.of_nat (fst op) < umax 32) ops ->
  bands_ok (bands_run ops) /\ Z.of_nat (length (bm_band (bands_run ops))) <= umax 32 /\
  forall id, band (bands_run ops) id = last_band ops id.
Proof.
  unfold bands_run, last_band. induction ops as [|[i b] ops IH] using rev_ind; intros Hops.
  { split; [apply bands_new_ok|]. split; [unfold umax; cbn; lia|done]. }
  apply Forall_app in Hops as [Hops Hi]. apply Forall_cons in Hi as [Hi _]. cbn in Hi.
  destruct (IH Hops) as (Hok & Hlen & Hb). rewrite !fold_left_app. cbn [fold_left].
  destruct (set_band_ok _ i b Hok ltac:(lia)) as (Hok' & Hb' & Hl').
  split; [done|]. split; [lia|]. intros id. rewrite Hb'. rewrite fold_left_app. cbn [fold_left].
  destruct (decide (id = i)); [done|]. apply Hb.
Qed.

(** The band manager's walked lists are exact: after any sequence of [set] calls, [band]
    reports the last band given to each position, and [members] of a walked band lists
    exactly the positions in it, each once, through every swap-removal. *)
Theorem band_members_exact (ops : list (PositionId * Band)) (b : Band)
    (Hops : Forall (fun op => Z.of_nat (fst op) < umax 32) ops) :
  (forall id, band (bands_run ops) id = last_band ops id) /\
  NoDup (members (bands_run ops) b) /\
  (is_Some (set_of b) -> forall id, id ∈ members (bands_run ops) b <-> last_band ops id = Some b).
Proof.
  destruct (bands_run_ok ops Hops) as ([_ H4 Hl] & _ & Hb). split; [done|].
  unfold members. destruct (set_of b) as [si|] eqn:Es; [|split; [constructor|by intros [? ?]]].
  destruct (lookup_lt_is_Some_2 (bm_sets (bands_run ops)) si) as [l El];
    [rewrite H4; by eapply set_of_lt|]. rewrite El. cbn [default].
  split; [by eapply lists_nodup|]. intros _ id. rewrite <- Hb. destruct Hl as [Hm Hs].
  assert (forall j, listed (bands_run ops) j = Some si <-> band (bands_run ops) j = Some b) as Hli.
  { intros j. unfold listed. destruct (band (bands_run ops) j) as [b'|]; [|naive_solver].
    split; [|intros [= ->]; done]. intros E'. f_equal. destruct b, b'; cbn in *; congruence. }
  rewrite <- Hli. split.
  - intros [k Hk]%list_elem_of_lookup. apply (Hm si k id). by exists l.
  - intros Hin. destruct (Hs id si Hin) as [k Hk].
    destruct (proj2 (Hm si k id) (conj Hin Hk)) as (l' & Hl' & Hk').
    assert (l' = l) as -> by congruence. apply list_elem_of_lookup. by exists k.
Qed.

Lemma band_members_exact_witness :
  let ops := [(1%nat, Hot); (2%nat, Hot); (3%nat, Hot); (1%nat, Cold); (4%nat, Warm); (3%nat, Unfundable)] in
  members (bands_run ops) Hot = [2%nat] /\
  (forall id, band (bands_run ops) id = last_band ops id) /\
  NoDup (members (bands_run ops) Hot) /\
  (is_Some (set_of Hot) -> forall id, id ∈ members (bands_run ops) Hot <-> last_band ops id = Some Hot).
Proof.
  intros ops. split; [vm_compute; reflexivity|]. apply band_members_exact.
  repeat constructor; vm_compute; reflexivity.
Defined.
