(* ===== verification/Exec.v ===== *)
(** Nonces and fees of the execution path: [crates/liq-exec/src/nonce.rs] and
    [crates/liq-exec/src/fee.rs].

    Each key's [Mutex<KeyState>] is held for the whole of a method, so a method is one step
    on the allocator's list of keys. *)

From S2P Require Import Prelude Types.
From stdpp Require Import strings.
Local Open Scope Z_scope.

Inductive ExecError :=
  | Config (what : string)
  | PublicRpcForbidden
  | EmptyBuilders
  | WrongVenueMevShare
  | WrongVenueBuilder
  | RelayMismatch
  | PredictedNotSubmittable
  | MissingHintHash
  | BadMevShareSpan (span : Z)
  | InvertedSpan (target max : Z)
  | StaleFee (parent target : Z)
  | MissingBaseFee
  | MissingPriority
  | MissingModestPriority
  | FeeOverflow
  | AuctionBpsNotPercent (bps : Z)
  | AuctionBpsRange (bps : Z)
  | BadRefundPercent (percent : Z)
  | ChainId (id : Z)
  | ZeroGasLimit
  | BadSlot (slot : nat)
  | NonceOverflow
  | NonceNotInFlight (nonce : Z)
  | EmptyBundle
  | MissingBackrunTx
  | EmptySignedTx
  | MissingPatch (what : string)
  | BadInputPatch
  | Signer (what : string)
  | Identity (what : string)
  | Http (what : string)
  | Rpc (what : string)
  | AllBuildersUnreachable
  | Record_ (what : string)
  | Serde (what : string)
  | BadInferredBid.

(** ** Nonces *)

Inductive NonceMode := Allocate | DryRun.

Record InFlight := mkInFlight { if_dropped : bool }.

Record KeyState := mkKeyState { ks_next : Z; ks_in_flight : gmap Z InFlight }.

Record KeySlot := mkKeySlot { kl_address : Address; kl_state : KeyState }.

Record NonceAllocator := mkAlloc { na_keys : list KeySlot }.

Record AllocatedNonce := mkAllocated { an_slot : nat; an_nonce : Z; an_address : Address }.

Record GapFill := mkGapFill { gf_slot : nat; gf_nonce : Z; gf_from : Address; gf_to : Address; gf_value : Z }.

Definition from_addresses (addrs : list Address) : Result ExecError NonceAllocator :=
  if (length addrs =? 0)%nat then Err (BadSlot 0) else
  Ok (mkAlloc (List.map (fun a => mkKeySlot a (mkKeyState 0 ∅)) addrs)).

Definition key_slot (n : NonceAllocator) (slot : nat) : Result ExecError KeySlot :=
  ok_or (na_keys n !! slot) (BadSlot slot).

(** Store a key's state back. *)
Definition put_key (n : NonceAllocator) (slot : nat) (k : KeySlot) (s : KeyState) : NonceAllocator :=
  mkAlloc (<[slot := mkKeySlot (kl_address k) s]> (na_keys n)).

Definition address (n : NonceAllocator) (slot : nat) : Result ExecError Address :=
  map_res kl_address (key_slot n slot).

Definition allocate (n : NonceAllocator) (slot : nat) : NonceAllocator * Result ExecError AllocatedNonce :=
  match key_slot n slot with
  | Err e => (n, Err e)
  | Ok key =>
      let g := kl_state key in
      let nonce := ks_next g in
      match checked_add 64 (ks_next g) 1 with
      | None => (n, Err NonceOverflow)
      | Some next =>
          (put_key n slot key (mkKeyState next (<[nonce := mkInFlight false]> (ks_in_flight g))),
           Ok (mkAllocated slot nonce (kl_address key)))
      end
  end.

Definition dry_run (n : NonceAllocator) (slot : nat) : Result ExecError AllocatedNonce :=
  map_res (fun key => mkAllocated slot (ks_next (kl_state key)) (kl_address key)) (key_slot n slot).

(** [in_flight.get_mut(&nonce)] with its flag set, shared by the two marks. *)
Definition mark_flag (n : NonceAllocator) (slot : nat) (nonce : Z) (dropped : bool)
    : NonceAllocator * Result ExecError KeySlot :=
  match key_slot n slot with
  | Err e => (n, Err e)
  | Ok key =>
      let g := kl_state key in
      match ks_in_flight g !! nonce with
      | None => (n, Err (NonceNotInFlight nonce))
      | Some _ =>
          (put_key n slot key (mkKeyState (ks_next g) (<[nonce := mkInFlight dropped]> (ks_in_flight g))),
           Ok key)
      end
  end.

Definition mark_dropped (n : NonceAllocator) (slot : nat) (nonce : Z) : NonceAllocator * Result ExecError GapFill :=
  let '(n, r) := mark_flag n slot nonce true in
  (n, map_res (fun key => mkGapFill slot nonce (kl_address key) (kl_address key) 0) r).

Definition mark_filled (n : NonceAllocator) (slot : nat) (nonce : Z) : NonceAllocator * Result ExecError unit :=
  let '(n, r) := mark_flag n slot nonce false in (n, map_res (fun _ => tt) r).

Definition set_next (n : NonceAllocator) (slot : nat) (chain_next : Z) : NonceAllocator * Result ExecError unit :=
  match key_slot n slot with
  | Err e => (n, Err e)
  | Ok key => (put_key n slot key (mkKeyState chain_next ∅), Ok tt)
  end.

(** The loop of [allocate_run]: at most [n] turns. *)
Fixpoint run_loop (fuel : nat) (k next : Z) (m : gmap Z InFlight) : gmap Z InFlight * Result ExecError unit :=
  match fuel with
  | O => (m, Ok tt)
  | S f =>
      if k <? next then
        let m := <[k := mkInFlight false]> m in
        match checked_add 64 k 1 with
        | None => (m, Err NonceOverflow)
        | Some k => run_loop f k next m
        end
      else (m, Ok tt)
  end.

Definition allocate_run (n : NonceAllocator) (slot : nat) (count : Z) : NonceAllocator * Result ExecError Z :=
  match key_slot n slot with
  | Err e => (n, Err e)
  | Ok key =>
      let g := kl_state key in
      let first := ks_next g in
      match checked_add 64 first count with
      | None => (n, Err NonceOverflow)
      | Some next =>
          let '(m, r) := run_loop (Z.to_nat count) first next (ks_in_flight g) in
          (put_key n slot key (mkKeyState next m), map_res (fun _ => first) r)
      end
  end.

Definition next_of (n : NonceAllocator) (slot : nat) : Result ExecError Z :=
  map_res (fun key => ks_next (kl_state key)) (key_slot n slot).

Definition in_flight (n : NonceAllocator) (slot : nat) : Result ExecError (gmap Z InFlight) :=
  map_res (fun key => ks_in_flight (kl_state key)) (key_slot n slot).

(** ** Fees *)

Record FeeQuote := mkFeeQuote {
  fq_parent_block : BlockNum;
  fq_next_base_fee : Z;
  fq_priority_wei : Z;
  fq_modest_priority_wei : Z
}.

Record BoundFees := mkBoundFees { bf_max_fee_per_gas : Z; bf_max_priority_fee_per_gas : Z; bf_k : Z }.

Fixpoint fee_loop (k : nat) (num den : Z) : Result ExecError (Z * Z) :=
  match k with
  | O => Ok (num, den)
  | S k =>
      let? num := ok_or (checked_mul 256 num 9) FeeOverflow in
      let? den := ok_or (checked_mul 256 den 8) FeeOverflow in
      fee_loop k num den
  end.

Definition max_fee_per_gas (next_base_fee k : Z) : Result ExecError Z :=
  if next_base_fee =? 0 then Err MissingBaseFee else
  if k =? 0 then Ok next_base_fee else
  let? (num, den) := fee_loop (Z.to_nat k) next_base_fee 1 in
  let? bump := ok_or (checked_sub den 1) FeeOverflow in
  let? s := ok_or (checked_add 256 num bump) FeeOverflow in
  let? ceil := ok_or (checked_div s den) FeeOverflow in
  ok_or (try_from 128 ceil) FeeOverflow.

Definition bind (q : FeeQuote) (target_block max_block : BlockNum) : Result ExecError BoundFees :=
  if max_block <? target_block then Err (InvertedSpan target_block max_block) else
  let? expected_target := ok_or (checked_add 64 (fq_parent_block q) 1) FeeOverflow in
  if negb (expected_target =? target_block) then Err (StaleFee (fq_parent_block q) target_block) else
  if fq_next_base_fee q =? 0 then Err MissingBaseFee else
  if fq_priority_wei q =? 0 then Err MissingPriority else
  if fq_modest_priority_wei q =? 0 then Err MissingModestPriority else
  let? k := ok_or (checked_sub max_block target_block) FeeOverflow in
  let? fee := max_fee_per_gas (fq_next_base_fee q) k in
  Ok (mkBoundFees fee (fq_priority_wei q) k).

Definition priority_for (q : FeeQuote) (modest : bool) : Z :=
  if modest then fq_modest_priority_wei q else fq_priority_wei q.

(** ** One key's nonces *)

(** From [c] on: exactly the nonces below [next] are in flight. *)
Definition window_ok (c : Z) (s : KeyState) : Prop :=
  c <= ks_next s <= umax 64 /\
  forall k, is_Some (ks_in_flight s !! k) <-> c <= k < ks_next s.

Lemma run_loop_spec fuel k next m :
  k <= next <= umax 64 -> Z.of_nat fuel = next - k ->
  exists m', run_loop fuel k next m = (m', Ok tt) /\
    forall j, is_Some (m' !! j) <-> is_Some (m !! j) \/ k <= j < next.
Proof.
  revert k m. induction fuel as [|f IH]; intros k m Hk Hf; cbn [run_loop].
  { exists m. split; [done|]. intros j. split; [by left|]. intros [?|?]; [done|lia]. }
  rewrite (proj2 (Z.ltb_lt _ _)) by lia. cbv zeta. rewrite checked_add_ok by lia.
  destruct (IH (k + 1) (<[k := mkInFlight false]> m)) as (m' & -> & Hm); [lia|lia|].
  exists m'. split; [done|]. intros j. rewrite Hm. destruct (decide (j = k)) as [->|].
  - rewrite lookup_insert_eq. split; [intros _; right; lia|left; by eexists].
  - rewrite lookup_insert_ne by done. split; intros [?|?]; [by left|right; lia|by left|right; lia].
Qed.

Inductive NonceOp :=
  | NAllocate
  | NAllocateRun (n : Z)
  | NDropped (nonce : Z)
  | NFilled (nonce : Z).

(** The nonces an operation hands out. *)
Definition nonce_step (n : NonceAllocator) (slot : nat) (op : NonceOp) : NonceAllocator * list Z :=
  match op with
  | NAllocate => match allocate n slot with
                 | (n, Ok a) => (n, [an_nonce a]) | (n, Err _) => (n, []) end
  | NAllocateRun c => match allocate_run n slot c with
                      | (n, Ok first) => (n, seqZ first c) | (n, Err _) => (n, []) end
  | NDropped k => (fst (mark_dropped n slot k), [])
  | NFilled k => (fst (mark_filled n slot k), [])
  end.

Fixpoint nonce_run (n : NonceAllocator) (slot : nat) (ops : list NonceOp) : NonceAllocator * list Z :=
  match ops with
  | [] => (n, [])
  | op :: ops => let '(n, a) := nonce_step n slot op in
                 let '(n, b) := nonce_run n slot ops in (n, a ++ b)
  end.

Definition nonce_op_ok (op : NonceOp) : Prop :=
  match op with NAllocateRun c => 0 <= c | _ => True end.

Lemma mark_flag_ok n slot key c k b :
  na_keys n !! slot = Some key -> window_ok c (kl_state key) ->
  exists key', na_keys (fst (mark_flag n slot k b)) !! slot = Some key' /\ window_ok c (kl_state key') /\
    ks_next (kl_state key') = ks_next (kl_state key).
Proof.
  intros Hk [Hn Hw]. unfold mark_flag, key_slot. rewrite Hk. cbn [ok_or].
  destruct (ks_in_flight (kl_state key) !! k) as [x|] eqn:E; [|exists key; done].
  cbn [fst put_key na_keys]. rewrite list_lookup_insert_eq by (by eapply lookup_lt_Some).
  eexists. split; [done|]. cbn. split; [|done]. split; [done|]. cbn. intros j. rewrite <- Hw.
  destruct (decide (j = k)) as [->|]; [rewrite lookup_insert_eq, E|by rewrite lookup_insert_ne].
  split; intros _; by eexists.
Qed.

Lemma nonce_step_ok n slot op key c :
  na_keys n !! slot = Some key -> window_ok c (kl_state key) -> nonce_op_ok op ->
  let '(n', out) := nonce_step n slot op in
  exists key', na_keys n' !! slot = Some key' /\ window_ok c (kl_state key') /\
    ks_next (kl_state key) <= ks_next (kl_state key') /\
    out = seqZ (ks_next (kl_state key)) (ks_next (kl_state key') - ks_next (kl_state key)).
Proof.
  intros Hk Hwin Hop. pose proof Hwin as [Hn Hw]. apply lookup_lt_Some in Hk as Hlt.
  destruct op as [|cnt|k|k]; cbn [nonce_step].
  - unfold allocate, key_slot. rewrite Hk. cbn [ok_or].
    destruct (checked_add 64 (ks_next (kl_state key)) 1) as [nx|] eqn:E.
    + apply checked_add_Some in E as [-> Hle]. cbn [put_key na_keys].
      rewrite list_lookup_insert_eq by done. eexists. split; [done|]. cbn. split.
      * split; cbn; [lia|]. intros j. destruct (decide (j = ks_next (kl_state key))) as [->|].
        -- rewrite lookup_insert_eq. split; [lia|by eexists].
        -- rewrite lookup_insert_ne by done. rewrite Hw. lia.
      * split; [lia|]. by replace (ks_next (kl_state key) + 1 - ks_next (kl_state key)) with 1 by lia.
    + exists key. rewrite Z.sub_diag. split; [done|]. split; [done|]. split; [lia|done].
  - unfold allocate_run, key_slot. rewrite Hk. cbn [ok_or]. cbn in Hop.
    destruct (checked_add 64 (ks_next (kl_state key)) cnt) as [nx|] eqn:E.
    + apply checked_add_Some in E as [-> Hle].
      destruct (run_loop_spec (Z.to_nat cnt) (ks_next (kl_state key)) (ks_next (kl_state key) + cnt)
        (ks_in_flight (kl_state key))) as (m' & -> & Hm); [lia|lia|].
      cbn [map_res put_key na_keys]. rewrite list_lookup_insert_eq by done. eexists. split; [done|]. cbn. split.
      * split; cbn; [lia|]. intros j. rewrite Hm, Hw. lia.
      * split; [lia|]. f_equal. lia.
    + exists key. rewrite Z.sub_diag. split; [done|]. split; [done|]. split; [lia|done].
  - destruct (mark_flag_ok n slot key c k true Hk Hwin) as (key' & H1 & H2 & H3).
    unfold mark_dropped. destruct (mark_flag n slot k true) as [n' r]. exists key'.
    rewrite H3, Z.sub_diag. split; [done|]. split; [done|]. split; [lia|done].
  - destruct (mark_flag_ok n slot key c k false Hk Hwin) as (key' & H1 & H2 & H3).
    unfold mark_filled. destruct (mark_flag n slot k false) as [n' r]. exists key'.
    rewrite H3, Z.sub_diag. split; [done|]. split; [done|]. split; [lia|done].
Qed.

Lemma nonce_run_ok n slot ops key c :
  na_keys n !! slot = Some key -> window_ok c (kl_state key) -> Forall nonce_op_ok ops ->
  let '(n', out) := nonce_run n slot ops in
  exists key', na_keys n' !! slot = Some key' /\ window_ok c (kl_state key') /\
    ks_next (kl_state key) <= ks_next (kl_state key') /\
    out = seqZ (ks_next (kl_state key)) (ks_next (kl_state key') - ks_next (kl_state key)).
Proof.
  intros Hk Hw Hops. revert n key Hk Hw. induction Hops as [|op ops Hop _ IH]; intros n key Hk Hw; cbn [nonce_run].
  { exists key. rewrite Z.sub_diag. split; [done|]. split; [done|]. split; [lia|done]. }
  pose proof (nonce_step_ok n slot op key c Hk Hw Hop) as H1.
  assert (ks_next (kl_state key) <= umax 64) as Hb by (destruct Hw; lia).
  destruct (nonce_step n slot op) as [n1 out1]. destruct H1 as (key1 & Hk1 & Hw1 & Hle1 & ->).
  specialize (IH n1 key1 Hk1 Hw1). destruct (nonce_run n1 slot ops) as [n2 out2].
  destruct IH as (key2 & Hk2 & Hw2 & Hle & ->).
  exists key2. split; [done|]. split; [done|]. split; [lia|].
  replace (ks_next (kl_state key2) - ks_next (kl_state key)) with
    ((ks_next (kl_state key1) - ks_next (kl_state key)) + (ks_next (kl_state key2) - ks_next (kl_state key1))) by lia.
  rewrite seqZ_app by lia. do 2 f_equal. lia.
Qed.

(** Nonces are handed out without gap or repeat: after a key is resynced to the chain's next
    nonce [c], any sequence of allocations, runs, drops and fills on it hands out exactly
    [c, c+1, ...] in order, and the nonces in flight are exactly those handed out; an
    operation that fails hands out nothing and loses none. *)
Theorem nonces_are_consecutive (n : NonceAllocator) (slot : nat) (c : Z) (ops : list NonceOp)
    (Hs : (slot < length (na_keys n))%nat) (Hc : 0 <= c <= umax 64) (Hops : Forall nonce_op_ok ops) :
  let '(n', out) := nonce_run (fst (set_next n slot c)) slot ops in
  exists next m, next_of n' slot = Ok next /\ in_flight n' slot = Ok m /\
    c <= next <= umax 64 /\ out = seqZ c (next - c) /\
    forall k, is_Some (m !! k) <-> k ∈ out.
Proof.
  destruct (lookup_lt_is_Some_2 _ _ Hs) as [key Hk].
  unfold set_next, key_slot. rewrite Hk. cbn [ok_or fst].
  set (n0 := put_key n slot key (mkKeyState c ∅)).
  assert (na_keys n0 !! slot = Some (mkKeySlot (kl_address key) (mkKeyState c ∅))) as Hk0
    by (by apply list_lookup_insert_eq).
  pose proof (nonce_run_ok n0 slot ops _ c Hk0) as H.
  destruct (nonce_run n0 slot ops) as [n' out]. cbn [kl_state ks_next] in H.
  destruct H as (key' & Hk' & [Hn Hw] & Hle & ->); [|done|].
  { split; cbn; [lia|]. intros k. rewrite lookup_empty. split; [by intros [? ?]|lia]. }
  exists (ks_next (kl_state key')), (ks_in_flight (kl_state key')).
  unfold next_of, in_flight, key_slot. rewrite Hk'. cbn [ok_or map_res].
  split; [done|]. split; [done|]. split; [lia|]. split; [done|]. intros k. rewrite Hw, elem_of_seqZ. lia.
Qed.

Lemma nonces_are_consecutive_witness :
  let n := mkAlloc [mkKeySlot 7 (mkKeyState 0 ∅)] in
  let ops := [NAllocate; NAllocateRun 3; NDropped 6; NAllocate; NFilled 99] in
  snd (nonce_run (fst (set_next n 0 5)) 0 ops) = [5; 6; 7; 8; 9] /\
  (let '(n', out) := nonce_run (fst (set_next n 0 5)) 0 ops in
   exists next m, next_of n' 0 = Ok next /\ in_flight n' 0 = Ok m /\
     5 <= next <= umax 64 /\ out = seqZ 5 (next - 5) /\ forall k, is_Some (m !! k) <-> k ∈ out).
Proof.
  intros n ops. split; [vm_compute; reflexivity|].
  apply (nonces_are_consecutive n 0 5 ops); [cbn; lia|vm_compute; intuition discriminate|].
  repeat constructor; cbn; lia.
Defined.

(** ** The fee ceiling *)

Lemma fee_loop_spec k num den num' den' :
  0 < num -> 0 < den -> fee_loop k num den = Ok (num', den') ->
  num' = num * 9 ^ Z.of_nat k /\ den' = den * 8 ^ Z.of_nat k /\ 0 < den'.
Proof.
  revert num den. induction k as [|k IH]; intros num den Hn Hd; cbn [fee_loop].
  { intros [= <- <-]. cbn. lia. }
  destruct (checked_mul 256 num 9) as [a|] eqn:E1; [|done]. cbn [ok_or].
  destruct (checked_mul 256 den 8) as [b|] eqn:E2; [|done]. cbn [ok_or].
  apply checked_mul_Some in E1 as [-> _]. apply checked_mul_Some in E2 as [-> _].
  intros (-> & -> & ?)%IH; [|lia|lia]. rewrite Nat2Z.inj_succ, !Z.pow_succ_r by lia. split; [lia|]. split; [lia|done].
Qed.

Lemma max_fee_ceil b k v :
  0 < b -> 0 <= k -> max_fee_per_gas b k = Ok v -> v = div_up (b * 9 ^ k) (8 ^ k).
Proof.
  intros Hb Hk. unfold max_fee_per_gas. rewrite (proj2 (Z.eqb_neq b 0)) by lia.
  destruct (Z.eqb_spec k 0) as [->|Hk0].
  { intros [= <-]. cbn [Z.pow]. unfold div_up. rewrite Z.pow_0_r, Z.div_1_r. lia. }
  destruct (fee_loop (Z.to_nat k) b 1) as [[num den]|] eqn:E; [|done].
  apply fee_loop_spec in E as (-> & -> & Hd); [|lia|lia]. rewrite Z2Nat.id, Z.mul_1_l in * by lia.
  rewrite checked_sub_ok by lia. cbn [ok_or].
  destruct (checked_add 256 _ _) as [s|] eqn:Es; [|done]. cbn [ok_or]. apply checked_add_Some in Es as [-> _].
  unfold checked_div. rewrite (proj2 (Z.eqb_neq _ _)) by lia. cbn [ok_or].
  destruct (try_from 128 _) as [x|] eqn:Ex; [|done]. apply try_from_Some in Ex as [-> _].
  intros [= <-]. unfold div_up. f_equal. lia.
Qed.

(** A base-fee path: each block raises the fee by at most an eighth. *)
Fixpoint fee_path (b : Z) (path : list Z) : Prop :=
  match path with [] => True | b' :: path => 0 <= b' <= b + b / 8 /\ fee_path b' path end.

Lemma fee_path_bound b path x :
  0 <= b -> fee_path b path -> x ∈ path -> x * 8 ^ Z.of_nat (length path) <= b * 9 ^ Z.of_nat (length path).
Proof.
  revert b. induction path as [|b' path IH]; intros b Hb Hp Hx; [by apply elem_of_nil in Hx|].
  destruct Hp as [Hb' Hp]. cbn [length]. rewrite Nat2Z.inj_succ, !Z.pow_succ_r by lia.
  set (e := 8 ^ Z.of_nat (length path)) in *. set (n := 9 ^ Z.of_nat (length path)) in *.
  assert (0 < e) by (apply Z.pow_pos_nonneg; lia).
  assert (e <= n) by (apply Z.pow_le_mono_l; lia).
  assert (8 * b' <= 9 * b) by (pose proof (Z.mul_div_le b 8); lia).
  apply elem_of_cons in Hx as [->|Hx].
  - nia.
  - specialize (IH b' ltac:(lia) Hp Hx). nia.
Qed.

(** A bound fee covers its whole inclusion window: when [bind] succeeds, the quote is for
    the block right after its parent, the ceiling is exactly [ceil(base * (9/8)^k)] for the
    span [k], and no base fee reachable in the window under the protocol's one-eighth rule
    exceeds it. *)
Theorem bound_fee_covers_window (q : FeeQuote) (target max : BlockNum) (f : BoundFees) (path : list Z)
    (Hq : 0 <= fq_next_base_fee q) (Hb : bind q target max = Ok f)
    (Hp : fee_path (fq_next_base_fee q) path) (Hk : Z.of_nat (length path) = max - target) :
  target = fq_parent_block q + 1 /\ bf_k f = max - target /\
  bf_max_priority_fee_per_gas f = fq_priority_wei q /\ fq_priority_wei q <> 0 /\
  bf_max_fee_per_gas f = div_up (fq_next_base_fee q * 9 ^ (max - target)) (8 ^ (max - target)) /\
  fq_next_base_fee q <= bf_max_fee_per_gas f /\
  forall x, x ∈ path -> x <= bf_max_fee_per_gas f.
Proof.
  unfold bind in Hb. destruct (Z.ltb_spec max target) as [|Hle]; [done|].
  destruct (checked_add 64 _ 1) as [et|] eqn:Ee; [|done]. cbn [ok_or] in Hb.
  apply checked_add_Some in Ee as [-> _].
  destruct (Z.eqb_spec (fq_parent_block q + 1) target) as [Et|]; cbn [negb] in Hb; [|done].
  destruct (Z.eqb_spec (fq_next_base_fee q) 0) as [|Hnz]; [done|].
  destruct (Z.eqb_spec (fq_priority_wei q) 0) as [|Hpr]; [done|].
  destruct (fq_modest_priority_wei q =? 0); [done|].
  rewrite checked_sub_ok in Hb by lia. cbn [ok_or] in Hb.
  destruct (max_fee_per_gas (fq_next_base_fee q) (max - target)) as [v|] eqn:Ev; [|done].
  injection Hb as <-. apply max_fee_ceil in Ev as Hv; [|lia|lia]. cbn. rewrite Hv.
  assert (0 < 8 ^ (max - target)) as He by (apply Z.pow_pos_nonneg; lia).
  pose proof (div_up_spec (fq_next_base_fee q * 9 ^ (max - target)) _ He) as [Hup _].
  assert (forall x, x * 8 ^ (max - target) <= fq_next_base_fee q * 9 ^ (max - target) ->
    x <= div_up (fq_next_base_fee q * 9 ^ (max - target)) (8 ^ (max - target))) as Hx by (intros; nia).
  split; [done|]. split; [done|]. split; [done|]. split; [done|]. split; [done|]. split.
  - apply Hx. apply Z.mul_le_mono_nonneg_l; [lia|]. apply Z.pow_le_mono_l. lia.
  - intros x Hin. apply Hx. rewrite <- Hk. by apply fee_path_bound.
Qed.

Lemma bound_fee_covers_window_witness :
  let q := mkFeeQuote 99 1000 1 1 in
  bind q 100 102 = Ok (mkBoundFees 1266 1 2) /\ forall x, x ∈ [1125; 1265] -> x <= 1266.
Proof.
  intros q. assert (bind q 100 102 = Ok (mkBoundFees 1266 1 2)) as E by (vm_compute; reflexivity).
  split; [exact E|].
  apply (bound_fee_covers_window q 100 102 (mkBoundFees 1266 1 2) [1125; 1265] ltac:(cbn; lia) E);
    [|reflexivity]. cbn. repeat split; vm_compute; discriminate.
Defined.
