(* ===== verification/Dirty.v ===== *)
(** What a block invalidated: [DirtySet] ([crates/liq-protocol/src/dirty.rs]) and its
    per-block fold ([crates/liq-node/src/dirty.rs]).

    [DirtyAccumulator] keeps, beside the touched positions, three parallel vectors per
    market (id, widest rank, rows); [rows] outlives [clear] so that its buffers are
    reused, and only its prefix of the length of [markets] is live. The specification
    knows only the list of reports since the last [clear]. Buffer capacities are not
    modelled. *)

From S2P Require Import Prelude Mask Types Interner Columns Undo Store.
Local Open Scope Z_scope.

Inductive DirtySet :=
| DNone
| DPositions (ps : list PositionId)
| DAccrual (rows : list MarketSlot)
| DReprice (rows : list MarketSlot)
| DProtocolWide.

Definition rank (d : DirtySet) : Z :=
  match d with
  | DNone => 0
  | DPositions _ => 1
  | DAccrual _ => 2
  | DReprice _ => 3
  | DProtocolWide => 4
  end.

(** [IngestError]: every failure of ingest. *)
Inductive IngestError :=
| IProtocol (e : ProtocolError)
| IState (e : StateError)
| IArchive (e : ArchiveError)
| ISourceUnavailable
| ITruncated (from to : BlockNum)
| IMalformedLog
| ISnapshot
| IBlockGap (tip got : BlockNum)
| ITooManySubscribers
| IHandlerMissing (idx : nat)
| IHotPathAlloc
| IUnknownPosition (p : PositionId)
| IHotStalled
| IPinFailed
| ICannotUnwindGenesis (tip floor : BlockNum).

Record CollapsedDirty := mkCollapsed {
  cd_protocol_wide : bool;
  cd_reprices : list MarketSlot;
  cd_accruals : list MarketSlot;
  cd_positions : list PositionId
}.

Definition collapsed_default : CollapsedDirty := mkCollapsed false [] [] [].

Record DirtyAccumulator := mkDirty {
  da_protocol_wide : bool;
  da_markets : list MarketId;
  da_ranks : list Z;
  da_rows : list (list MarketSlot);
  da_positions : list PositionId;
  da_seen : gset PositionId;
  da_out : CollapsedDirty
}.

Definition dirty_new : DirtyAccumulator := mkDirty false [] [] [] [] ∅ collapsed_default.

Definition clear (d : DirtyAccumulator) : DirtyAccumulator :=
  mkDirty false [] [] ((fun _ => []) <$> da_rows d) [] ∅ collapsed_default.

(** [Iterator::position]. *)
Definition position_of (m : MarketId) (l : list MarketId) : option nat :=
  fst <$> list_find (fun x => x = m) l.

Definition find_or_insert (d : DirtyAccumulator) (market : MarketId) : DirtyAccumulator * nat :=
  match position_of market (da_markets d) with
  | Some i => (d, i)
  | None =>
      let i := length (da_markets d) in
      (mkDirty (da_protocol_wide d) (da_markets d ++ [market]) (da_ranks d ++ [0])
         (if (length (da_rows d) <=? i)%nat then da_rows d ++ [[]] else da_rows d)
         (da_positions d) (da_seen d) (da_out d), i)
  end.

(** The body of [merge_rows]'s loop. *)
Definition merge_row (rank : Z) (d : DirtyAccumulator) (slot : MarketSlot) : DirtyAccumulator :=
  let '(d, i) := find_or_insert d (ms_market slot) in
  match da_ranks d !! i with
  | None => d
  | Some existing =>
      let ranks := if existing <? rank then <[i := rank]> (da_ranks d) else da_ranks d in
      let rows := match da_rows d !! i with
                  | Some set => if decide (slot ∈ set) then da_rows d else <[i := set ++ [slot]]> (da_rows d)
                  | None => da_rows d
                  end in
      mkDirty (da_protocol_wide d) (da_markets d) ranks rows (da_positions d) (da_seen d) (da_out d)
  end.

Definition merge_rows (d : DirtyAccumulator) (rank : Z) (rows : list MarketSlot) : DirtyAccumulator :=
  if da_protocol_wide d then d else fold_left (merge_row rank) rows d.

(** The body of [merge]'s loop over [Positions]. *)
Definition merge_position (d : DirtyAccumulator) (p : PositionId) : DirtyAccumulator :=
  if decide (p ∈ da_seen d) then d
  else mkDirty (da_protocol_wide d) (da_markets d) (da_ranks d) (da_rows d) (da_positions d ++ [p])
         ({[p]} ∪ da_seen d) (da_out d).

Definition merge (d : DirtyAccumulator) (set : DirtySet) : DirtyAccumulator :=
  match set with
  | DNone => d
  | DProtocolWide =>
      mkDirty true (da_markets d) (da_ranks d) (da_rows d) (da_positions d) (da_seen d) (da_out d)
  | DReprice rows => merge_rows d (rank (DReprice [])) rows
  | DAccrual rows => merge_rows d (rank (DAccrual [])) rows
  | DPositions ps => if da_protocol_wide d then d else fold_left merge_position ps d
  end.

Definition set_out (d : DirtyAccumulator) (o : CollapsedDirty) : DirtyAccumulator :=
  mkDirty (da_protocol_wide d) (da_markets d) (da_ranks d) (da_rows d) (da_positions d) (da_seen d) o.

(** [collapse]'s loop over [ranks]: the rows of one market go to one of the two outputs. *)
Definition collapse_market (rows : list (list MarketSlot)) (o : CollapsedDirty) (p : nat * Z) : CollapsedDirty :=
  let '(i, r) := p in
  match rows !! i with
  | None => o
  | Some rs =>
      if r =? rank (DReprice []) then
        mkCollapsed (cd_protocol_wide o) (cd_reprices o ++ rs) (cd_accruals o) (cd_positions o)
      else if r =? rank (DAccrual []) then
        mkCollapsed (cd_protocol_wide o) (cd_reprices o) (cd_accruals o ++ rs) (cd_positions o)
      else o
  end.

Definition covered (d : DirtyAccumulator) (market : MarketId) : bool :=
  match position_of market (da_markets d) with
  | Some i => match da_ranks d !! i with Some r => rank (DAccrual []) <=? r | None => false end
  | None => false
  end.

(** [collapse]'s loop over the positions; it stops at the first unknown one. *)
Fixpoint collapse_positions (d : DirtyAccumulator) (store : StateStore) (ts : Timestamp)
    (ps : list PositionId) (o : CollapsedDirty) : CollapsedDirty * Result IngestError unit :=
  match ps with
  | [] => (o, Ok tt)
  | pos :: ps =>
      match position_ref store pos ts with
      | Err _ => (o, Err (IUnknownPosition pos))
      | Ok pref =>
          let market := pk_market (pr_key pref) in
          let o := if covered d market then o
                   else mkCollapsed (cd_protocol_wide o) (cd_reprices o) (cd_accruals o) (cd_positions o ++ [pos]) in
          collapse_positions d store ts ps o
      end
  end.

Definition collapse (d : DirtyAccumulator) (store : StateStore) (ts : Timestamp)
    : DirtyAccumulator * Result IngestError unit :=
  if da_protocol_wide d then (set_out d (mkCollapsed true [] [] []), Ok tt) else
  let o := fold_left (collapse_market (da_rows d)) (imap pair (da_ranks d)) collapsed_default in
  let '(o, r) := collapse_positions d store ts (da_positions d) o in
  (set_out d o, r).

Definition touched (d : DirtyAccumulator) : list PositionId := da_positions d.
Definition collapsed (d : DirtyAccumulator) : CollapsedDirty := da_out d.

Definition as_dirty_sets (c : CollapsedDirty) : list DirtySet :=
  (if cd_protocol_wide c then [DProtocolWide] else []) ++
  (match cd_reprices c with [] => [] | rs => [DReprice rs] end) ++
  (match cd_accruals c with [] => [] | rs => [DAccrual rs] end) ++
  (match cd_positions c with [] => [] | ps => [DPositions ps] end).

(** ** The reports of a block *)

(** The rows a report names, with its rank, and the positions it names. *)
Definition rows_of (d : DirtySet) : list (Z * MarketSlot) :=
  match d with
  | DAccrual rows => (fun s => (2, s)) <$> rows
  | DReprice rows => (fun s => (3, s)) <$> rows
  | _ => []
  end.

Definition positions_of (d : DirtySet) : list PositionId :=
  match d with DPositions ps => ps | _ => [] end.

Definition reports_market (L : list (Z * MarketSlot)) (r : Z) (m : MarketId) : Prop :=
  exists s, (r, s) ∈ L /\ ms_market s = m.

(** The row part of the accumulator against the rows reported so far, in order. *)
Record rows_inv (d : DirtyAccumulator) (L : list (Z * MarketSlot)) : Prop := {
  ri_nodup : NoDup (da_markets d);
  ri_ranks : length (da_ranks d) = length (da_markets d);
  ri_live : (length (da_markets d) <= length (da_rows d))%nat;
  ri_spare : forall i rs, (length (da_markets d) <= i)%nat -> da_rows d !! i = Some rs -> rs = [];
  ri_mem : forall m, m ∈ da_markets d <-> exists r, reports_market L r m;
  ri_rows : forall i m rs, da_markets d !! i = Some m -> da_rows d !! i = Some rs ->
    NoDup rs /\ forall s, s ∈ rs <-> ms_market s = m /\ exists r, (r, s) ∈ L;
  ri_max : forall i m r, da_markets d !! i = Some m -> da_ranks d !! i = Some r ->
    reports_market L r m /\ forall r', reports_market L r' m -> r' <= r
}.

Record pos_inv (d : DirtyAccumulator) (P : list PositionId) : Prop := {
  pi_nodup : NoDup (da_positions d);
  pi_seen : da_seen d = list_to_set (da_positions d);
  pi_mem : forall p, p ∈ da_positions d <-> p ∈ P
}.

Lemma position_of_Some m l i : position_of m l = Some i -> l !! i = Some m.
Proof.
  unfold position_of. destruct (list_find _ l) as [[j x]|] eqn:E; [|done]. cbn. intros [= ->].
  by apply list_find_Some in E as (? & -> & _).
Qed.

Lemma position_of_None m l : position_of m l = None <-> m ∉ l.
Proof.
  unfold position_of. rewrite fmap_None, list_find_None, Forall_forall. naive_solver.
Qed.

Lemma position_of_lookup m l i : NoDup l -> l !! i = Some m -> position_of m l = Some i.
Proof.
  intros Hn Hi. destruct (position_of m l) as [j|] eqn:E.
  - f_equal. eapply NoDup_lookup; [done|by apply position_of_Some|done].
  - apply position_of_None in E. destruct E. by apply list_elem_of_lookup_2 with i.
Qed.

Lemma reports_market_snoc L r s r' m :
  reports_market (L ++ [(r, s)]) r' m <-> reports_market L r' m \/ (r' = r /\ ms_market s = m).
Proof. unfold reports_market. set_solver. Qed.

Lemma merge_row_old r d s i e rs :
  position_of (ms_market s) (da_markets d) = Some i ->
  da_ranks d !! i = Some e -> da_rows d !! i = Some rs ->
  merge_row r d s = mkDirty (da_protocol_wide d) (da_markets d) (<[i := Z.max e r]> (da_ranks d))
    (<[i := if decide (s ∈ rs) then rs else rs ++ [s]]> (da_rows d)) (da_positions d) (da_seen d) (da_out d).
Proof.
  intros Hi He Hrs. unfold merge_row, find_or_insert. rewrite Hi, He, Hrs. f_equal.
  - destruct (Z.ltb_spec e r); [by rewrite Z.max_r by lia|]. by rewrite Z.max_l, list_insert_id by (done || lia).
  - case_decide; [by rewrite list_insert_id|done].
Qed.

(** The rows once a fresh market has its (possibly recycled) buffer. *)
Definition rows_room (d : DirtyAccumulator) : list (list MarketSlot) :=
  if (length (da_rows d) <=? length (da_markets d))%nat then da_rows d ++ [[]] else da_rows d.

Lemma rows_room_lookup d L i :
  rows_inv d L ->
  rows_room d !! length (da_markets d) = Some [] /\
  ((length (da_markets d) < i)%nat -> forall rs, rows_room d !! i = Some rs -> rs = []) /\
  ((i < length (da_markets d))%nat -> rows_room d !! i = da_rows d !! i) /\
  (length (da_markets d) < length (rows_room d))%nat.
Proof.
  intros []. unfold rows_room. destruct (Nat.leb_spec (length (da_rows d)) (length (da_markets d))).
  - assert (length (da_markets d) = length (da_rows d)) as -> by lia. rewrite length_app. cbn.
    split; [by apply list_lookup_middle|]. split; [|split; [|lia]].
    + intros ? rs Hx%lookup_lt_Some. rewrite length_app in Hx. cbn in Hx. lia.
    + intros. by rewrite lookup_app_l.
  - split; [|split; [|done]].
    + destruct (lookup_lt_is_Some_2 (da_rows d) (length (da_markets d))) as [x Hx]; [lia|].
      rewrite Hx. f_equal. eapply ri_spare0; [|done]. lia.
    + intros ? rs. apply ri_spare0. lia.
Qed.

Lemma merge_row_new r d L s :
  0 < r -> rows_inv d L -> position_of (ms_market s) (da_markets d) = None ->
  merge_row r d s = mkDirty (da_protocol_wide d) (da_markets d ++ [ms_market s]) (da_ranks d ++ [r])
    (<[length (da_markets d) := [s]]> (rows_room d)) (da_positions d) (da_seen d) (da_out d).
Proof.
  intros Hr Hd Hn. destruct (rows_room_lookup d L 0 Hd) as (He & _).
  unfold merge_row, find_or_insert. rewrite Hn. cbn [da_ranks da_rows da_protocol_wide da_markets da_positions da_seen da_out].
  fold (rows_room d). rewrite <- (ri_ranks _ _ Hd) at 1. rewrite list_lookup_middle by done.
  rewrite (proj2 (Z.ltb_lt _ _)) by done. rewrite He, decide_False by set_solver. f_equal.
  rewrite <- (ri_ranks _ _ Hd). by rewrite insert_app_r_alt, Nat.sub_diag by lia.
Qed.

Lemma rows_inv_old r d L s i e rs :
  rows_inv d L -> position_of (ms_market s) (da_markets d) = Some i ->
  da_ranks d !! i = Some e -> da_rows d !! i = Some rs ->
  rows_inv (mkDirty (da_protocol_wide d) (da_markets d) (<[i := Z.max e r]> (da_ranks d))
    (<[i := if decide (s ∈ rs) then rs else rs ++ [s]]> (da_rows d)) (da_positions d) (da_seen d) (da_out d))
    (L ++ [(r, s)]).
Proof.
  intros [Hnd Hlr Hll Hsp Hm Hr Hx] Hi%position_of_Some He Hrs.
  assert (i < length (da_markets d))%nat as Hlt by by eapply lookup_lt_Some.
  constructor; cbn [da_markets da_ranks da_rows]; rewrite ?length_insert; try done.
  - intros j x Hj. rewrite list_lookup_insert_ne by lia. by apply Hsp.
  - intros m. rewrite Hm. split; intros [r' Hr'].
    + exists r'. rewrite reports_market_snoc. by left.
    + apply reports_market_snoc in Hr' as [?|[-> <-]]; [by eexists|]. apply Hm. by eapply list_elem_of_lookup_2.
  - intros j m x Hj. destruct (decide (i = j)) as [<-|Hne].
    2: { rewrite list_lookup_insert_ne by done. intros Hjx. destruct (Hr j m x Hj Hjx) as [Hn Hs].
         split; [done|]. intros s'. rewrite Hs. setoid_rewrite elem_of_app.
         split; [naive_solver|]. intros [<- [r' [?|Heq%list_elem_of_singleton]]]; [naive_solver|].
         simplify_eq. destruct Hne. by apply (NoDup_lookup (da_markets d) i j (ms_market s) Hnd). }
    rewrite list_lookup_insert_eq by lia. intros [= <-]. simplify_eq.
    destruct (Hr i _ rs Hi Hrs) as [Hn Hs]. split.
    { case_decide; [done|]. apply NoDup_app. split; [done|]. split; [set_solver|apply NoDup_singleton]. }
    intros s'. setoid_rewrite elem_of_app. setoid_rewrite list_elem_of_singleton.
    case_decide as Hin; [|rewrite elem_of_app, list_elem_of_singleton]; rewrite Hs;
      (split; [|intros [Hms [r' [?|[= -> ->]]]]]); try naive_solver.
  - intros j m r' Hj. setoid_rewrite reports_market_snoc. destruct (decide (i = j)) as [<-|Hne].
    2: { rewrite list_lookup_insert_ne by done. intros Hjx. destruct (Hx j m r' Hj Hjx) as [? Hb].
         split; [by left|]. intros ? [?|[-> <-]]; [by apply Hb|].
         destruct Hne. by apply (NoDup_lookup (da_markets d) i j (ms_market s) Hnd). }
    rewrite list_lookup_insert_eq by lia. intros [= <-]. simplify_eq.
    destruct (Hx i _ e Hi He) as [? Hb]. split.
    { destruct (Z.max_spec e r) as [[_ ->]|[_ ->]]; [by right|by left]. }
    intros ? [?%Hb|[-> _]]; lia.
Qed.

Lemma rows_inv_new r d L s :
  rows_inv d L -> position_of (ms_market s) (da_markets d) = None ->
  rows_inv (mkDirty (da_protocol_wide d) (da_markets d ++ [ms_market s]) (da_ranks d ++ [r])
    (<[length (da_markets d) := [s]]> (rows_room d)) (da_positions d) (da_seen d) (da_out d)) (L ++ [(r, s)]).
Proof.
  intros Hd Hn%position_of_None. pose proof (rows_room_lookup d L) as Hroom.
  destruct (Hroom 0%nat Hd) as (He & _ & _ & Hlen). destruct Hd as [Hnd Hlr Hll Hsp Hm Hr Hx].
  assert (forall r', ~ reports_market L r' (ms_market s)) as Hno.
  { intros r' Hr'. apply Hn, Hm. by eexists. }
  constructor; cbn [da_markets da_ranks da_rows]; rewrite ?length_insert, ?length_app; cbn [length]; try lia.
  - apply NoDup_app. split; [done|]. split; [set_solver|apply NoDup_singleton].
  - intros i rs Hi. rewrite list_lookup_insert_ne by lia.
    eapply Hroom; [by constructor|lia].
  - intros m. rewrite elem_of_app, list_elem_of_singleton, Hm. setoid_rewrite reports_market_snoc. naive_solver.
  - intros i m rs. rewrite lookup_app_Some, list_lookup_singleton_Some. setoid_rewrite elem_of_app.
    setoid_rewrite list_elem_of_singleton. intros [Hi|(Hi & Hz & <-)].
    + pose proof (lookup_lt_Some _ _ _ Hi). rewrite list_lookup_insert_ne by lia.
      rewrite (proj1 (proj2 (proj2 (Hroom i ltac:(by constructor))))) by done.
      intros Hrs. destruct (Hr i m rs Hi Hrs) as [? Hs]. split; [done|]. intros s'. rewrite Hs.
      split; [naive_solver|]. intros [<- [r' [?|[= -> ->]]]]; [naive_solver|].
      destruct Hn. by eapply list_elem_of_lookup_2.
    + assert (i = length (da_markets d)) as -> by lia. rewrite list_lookup_insert_eq by done.
      intros [= <-]. split; [apply NoDup_singleton|]. intros s'. rewrite list_elem_of_singleton.
      split; [naive_solver|]. intros [Hms [r' [Hin|[= -> ->]]]]; [|done]. destruct (Hno r'). by exists s'.
  - intros i m r'. rewrite !lookup_app_Some, !list_lookup_singleton_Some, Hlr.
    setoid_rewrite reports_market_snoc. intros [Hi|(Hi & Hz & <-)] [Hi'|(Hi' & Hz' & <-)].
    + destruct (Hx i m r' Hi Hi') as [? Hb]. split; [by left|]. intros ? [?|[-> <-]]; [by apply Hb|].
      destruct Hn. by eapply list_elem_of_lookup_2.
    + apply lookup_lt_Some in Hi. lia.
    + apply lookup_lt_Some in Hi'. lia.
    + split; [by right|]. intros ? [Hq|[-> _]]; [by destruct (Hno _ Hq)|lia].
Qed.

Lemma merge_row_inv r d L s :
  0 < r -> rows_inv d L -> rows_inv (merge_row r d s) (L ++ [(r, s)]).
Proof.
  intros Hr Hd. destruct (position_of (ms_market s) (da_markets d)) as [i|] eqn:E.
  - pose proof (lookup_lt_Some _ _ _ (position_of_Some _ _ _ E)) as Hlt. pose proof (ri_live _ _ Hd).
    destruct (lookup_lt_is_Some_2 (da_ranks d) i) as [e He]; [by rewrite (ri_ranks _ _ Hd)|].
    destruct (lookup_lt_is_Some_2 (da_rows d) i) as [rs Hrs]; [lia|].
    rewrite (merge_row_old r d s i e rs) by done. by apply rows_inv_old.
  - rewrite (merge_row_new r d L s) by done. by apply rows_inv_new.
Qed.

Lemma merge_row_frame r d s :
  da_protocol_wide (merge_row r d s) = da_protocol_wide d /\
  da_positions (merge_row r d s) = da_positions d /\ da_seen (merge_row r d s) = da_seen d.
Proof. unfold merge_row, find_or_insert. by repeat case_match; simplify_eq. Qed.

Lemma merge_rows_inv r rows d L P :
  0 < r -> da_protocol_wide d = false -> rows_inv d L -> pos_inv d P ->
  da_protocol_wide (fold_left (merge_row r) rows d) = false /\
  rows_inv (fold_left (merge_row r) rows d) (L ++ ((fun s => (r, s)) <$> rows)) /\
  pos_inv (fold_left (merge_row r) rows d) P.
Proof.
  intros Hr. revert d L. induction rows as [|s rows IH]; intros d L Hw Hd Hp.
  - by rewrite app_nil_r.
  - cbn [fold_left fmap list_fmap]. destruct (merge_row_frame r d s) as (E1 & E2 & E3).
    rewrite cons_middle, app_assoc. apply IH; [congruence|by apply merge_row_inv|].
    destruct Hp. constructor; by rewrite ?E2, ?E3.
Qed.

Lemma merge_positions_inv ps d L P :
  da_protocol_wide d = false -> rows_inv d L -> pos_inv d P ->
  da_protocol_wide (fold_left merge_position ps d) = false /\
  rows_inv (fold_left merge_position ps d) L /\ pos_inv (fold_left merge_position ps d) (P ++ ps).
Proof.
  revert d P. induction ps as [|p ps IH]; intros d P Hw Hd Hp; [by rewrite app_nil_r|].
  cbn [fold_left]. rewrite cons_middle, app_assoc. destruct Hp as [Hn Hs Hm].
  unfold merge_position at 2 4 6. case_decide as Hin; (apply IH; [done|by destruct Hd|]).
  - constructor; [done..|]. intros q. rewrite Hm. rewrite Hs, elem_of_list_to_set, Hm in Hin. set_solver.
  - rewrite Hs, elem_of_list_to_set in Hin. constructor; cbn.
    + apply NoDup_app. split; [done|]. split; [set_solver|apply NoDup_singleton].
    + rewrite Hs, list_to_set_app_L. set_solver.
    + set_solver.
Qed.

#[export] Instance DirtySet_eq_dec : EqDecision DirtySet.
Proof. solve_decision. Defined.

(** The accumulator against the reports merged since the last [clear]. *)
Definition acc_inv (reports : list DirtySet) (d : DirtyAccumulator) : Prop :=
  if decide (DProtocolWide ∈ reports) then da_protocol_wide d = true
  else da_protocol_wide d = false /\
       rows_inv d (reports ≫= rows_of) /\ pos_inv d (reports ≫= positions_of).

Lemma clear_inv d : acc_inv [] (clear d).
Proof.
  unfold acc_inv. rewrite decide_False by set_solver. split; [done|]. split.
  - constructor; cbn; try done; try lia; try apply NoDup_nil_2.
    + intros i rs _. rewrite list_lookup_fmap. by destruct (_ !! i); intros [= <-].
    + unfold reports_market. set_solver.
  - constructor; cbn; [apply NoDup_nil_2|done|set_solver].
Qed.

Lemma merge_inv reports d x : acc_inv reports d -> acc_inv (reports ++ [x]) (merge d x).
Proof.
  unfold acc_inv. rewrite !bind_app. cbn [mbind list_bind]. rewrite !app_nil_r.
  destruct (decide (DProtocolWide ∈ reports)) as [Hin|Hin].
  { intros Hw. rewrite decide_True by set_solver.
    destruct x; cbn [merge]; unfold merge_rows; by rewrite ?Hw. }
  intros (Hw & Hr & Hp). destruct x; cbn [merge rows_of positions_of rank]; unfold merge_rows; rewrite ?Hw.
  5: { by rewrite decide_True by set_solver. }
  all: rewrite decide_False by set_solver; rewrite ?app_nil_r.
  - done.
  - by apply merge_positions_inv.
  - by apply merge_rows_inv.
  - by apply merge_rows_inv.
Qed.

Lemma merge_all_inv reports d : acc_inv reports (fold_left merge reports (clear d)).
Proof.
  induction reports as [|x reports IH] using rev_ind; [apply clear_inv|].
  rewrite fold_left_app. cbn [fold_left]. by apply merge_inv.
Qed.

Lemma collapse_markets_eq rows ps o :
  fold_left (collapse_market rows) ps o =
  mkCollapsed (cd_protocol_wide o)
    (cd_reprices o ++ (ps ≫= fun '(i, r) => if r =? 3 then default [] (rows !! i) else []))
    (cd_accruals o ++ (ps ≫= fun '(i, r) => if r =? 2 then default [] (rows !! i) else []))
    (cd_positions o).
Proof.
  revert o. induction ps as [|[i r] ps IH]; intros o; [cbn; rewrite !app_nil_r; by destruct o|].
  cbn [fold_left]. rewrite IH, !bind_cons. unfold collapse_market. cbn [rank].
  destruct (rows !! i) as [rs|]; cbn [default from_option id].
  - destruct (Z.eqb_spec r 3) as [->|]; cbn [cd_protocol_wide cd_reprices cd_accruals cd_positions].
    { by rewrite <- app_assoc. }
    destruct (r =? 2); cbn [cd_protocol_wide cd_reprices cd_accruals cd_positions]; [by rewrite <- app_assoc|done].
  - by destruct (r =? 3), (r =? 2).
Qed.

(** The rows collapsed under one rank: those of the markets whose widest report it is. *)
Lemma ranked_rows d L k :
  rows_inv d L ->
  let out := imap pair (da_ranks d) ≫= fun '(i, r) => if r =? k then default [] (da_rows d !! i) else [] in
  NoDup out /\ forall s, s ∈ out <->
    (exists r, (r, s) ∈ L) /\ reports_market L k (ms_market s) /\
    forall r, reports_market L r (ms_market s) -> r <= k.
Proof.
  intros [Hnd Hlr Hll Hsp Hm Hr Hx]. cbv zeta.
  assert (forall i r s, da_ranks d !! i = Some r -> s ∈ default [] (da_rows d !! i) ->
    da_markets d !! i = Some (ms_market s) /\ exists r, (r, s) ∈ L) as Hin.
  { intros i r s Hi Hs. pose proof (lookup_lt_Some _ _ _ Hi) as Hlt. rewrite Hlr in Hlt.
    destruct (lookup_lt_is_Some_2 _ _ Hlt) as [m Hmi].
    destruct (da_rows d !! i) as [rs|] eqn:E; [|by apply not_elem_of_nil in Hs].
    apply (proj2 (Hr i m rs Hmi E)) in Hs as [<- ?]. done. }
  split.
  - apply NoDup_bind.
    + intros ? ? s (i1 & r1 & -> & H1)%elem_of_lookup_imap (i2 & r2 & -> & H2)%elem_of_lookup_imap Hs1 Hs2.
      destruct (r1 =? k); [|by apply not_elem_of_nil in Hs1]. destruct (r2 =? k); [|by apply not_elem_of_nil in Hs2].
      assert (i1 = i2) as ->; [|congruence].
      eapply (NoDup_lookup (da_markets d)); [done|by eapply Hin|by eapply Hin].
    + intros ? (i & r & -> & Hi)%elem_of_lookup_imap. destruct (r =? k); [|apply NoDup_nil_2].
      destruct (da_rows d !! i) as [rs|] eqn:E; [|apply NoDup_nil_2]. cbn.
      apply lookup_lt_Some in Hi. rewrite Hlr in Hi. destruct (lookup_lt_is_Some_2 _ _ Hi) as [m Hmi]. by eapply Hr.
    + apply NoDup_alt. intros i j x. rewrite !list_lookup_imap.
      destruct (da_ranks d !! i), (da_ranks d !! j); cbn; congruence.
  - intros s. rewrite list_elem_of_bind. split.
    + intros (? & Hs & (i & r & -> & Hi)%elem_of_lookup_imap).
      destruct (r =? k) eqn:Ek; [|by apply not_elem_of_nil in Hs]. apply Z.eqb_eq in Ek. subst r.
      destruct (Hin i k s Hi Hs) as [Hmi ?]. split; [done|]. by apply (Hx i).
    + intros ([r0 Hr0] & Hk & Hb).
      assert (ms_market s ∈ da_markets d) as [i Hi]%list_elem_of_lookup_1 by (apply Hm; by eexists).
      pose proof (lookup_lt_Some _ _ _ Hi) as Hlt.
      destruct (lookup_lt_is_Some_2 (da_ranks d) i) as [r Hri]; [lia|].
      destruct (lookup_lt_is_Some_2 (da_rows d) i) as [rs Hrs]; [lia|].
      destruct (Hx i _ r Hi Hri) as [Hrm Hrb]. assert (r = k) as -> by (apply Z.le_antisymm; auto).
      exists (i, k). rewrite Z.eqb_refl, Hrs. cbn. split; [|by apply (elem_of_lookup_imap_2 pair)].
      apply (Hr i _ rs Hi Hrs). split; [done|by eexists].
Qed.

Lemma covered_iff d L m :
  rows_inv d L -> (forall r m, reports_market L r m -> 2 <= r) ->
  covered d m = true <-> exists r, reports_market L r m.
Proof.
  intros [Hnd Hlr Hll Hsp Hm Hr Hx] H2. unfold covered. cbn [rank].
  destruct (position_of m (da_markets d)) as [i|] eqn:E.
  - apply position_of_Some in E. pose proof (lookup_lt_Some _ _ _ E).
    destruct (lookup_lt_is_Some_2 (da_ranks d) i) as [r Hri]; [lia|]. rewrite Hri.
    destruct (Hx i m r E Hri) as [Hq _]. rewrite Z.leb_le. split; [by eexists|]. intros _. by eapply H2.
  - apply position_of_None in E. split; [done|]. intros Hex%Hm. done.
Qed.

Lemma collapse_positions_eq d store ts ps o :
  (forall p, p ∈ ps -> is_ok (position_ref store p ts) = true) ->
  collapse_positions d store ts ps o =
  (mkCollapsed (cd_protocol_wide o) (cd_reprices o) (cd_accruals o)
     (cd_positions o ++ List.filter (fun p => match position_ref store p ts with
       Ok pref => negb (covered d (pk_market (pr_key pref))) | Err _ => false end) ps), Ok tt).
Proof.
  revert o. induction ps as [|p ps IH]; intros o Hk; [cbn; rewrite app_nil_r; by destruct o|].
  cbn [collapse_positions List.filter].
  pose proof (Hk p ltac:(left)) as Hp. destruct (position_ref store p ts) as [pref|]; [|done].
  rewrite IH by (intros; apply Hk; by right).
  destruct (covered d _); cbn; [done|]. by rewrite <- app_assoc.
Qed.

Lemma row_reports_rank reports r m : reports_market (reports ≫= rows_of) r m -> r = 2 \/ r = 3.
Proof.
  intros (s & (x & Hs & _)%list_elem_of_bind & _).
  destruct x; cbn [rows_of] in Hs; try by apply not_elem_of_nil in Hs.
  all: apply list_elem_of_fmap in Hs as (? & [= -> _] & _); auto.
Qed.

(** The per-block collapse is exact: after any reports, merged in any order over recycled
    buffers, a protocol-wide report swallows everything; otherwise the rows of a market come
    out once each, all as reprices when the market was repriced and all as accruals when it
    only accrued, and the reported positions come out once each except those whose market
    has a reported row. *)
Theorem collapse_exact (d0 : DirtyAccumulator) (reports : list DirtySet) (store : StateStore) (ts : Timestamp) :
  let L := reports ≫= rows_of in
  let P := reports ≫= positions_of in
  (forall p, p ∈ P -> is_ok (position_ref store p ts) = true) ->
  exists d, collapse (fold_left merge reports (clear d0)) store ts = (d, Ok tt) /\
  if decide (DProtocolWide ∈ reports) then collapsed d = mkCollapsed true [] [] [] else
  cd_protocol_wide (collapsed d) = false /\
  NoDup (cd_reprices (collapsed d)) /\ NoDup (cd_accruals (collapsed d)) /\ NoDup (cd_positions (collapsed d)) /\
  (forall s, s ∈ cd_reprices (collapsed d) <->
     (exists r, (r, s) ∈ L) /\ reports_market L (rank (DReprice [])) (ms_market s)) /\
  (forall s, s ∈ cd_accruals (collapsed d) <->
     (exists r, (r, s) ∈ L) /\ ~ reports_market L (rank (DReprice [])) (ms_market s)) /\
  (forall p, p ∈ cd_positions (collapsed d) <-> p ∈ P /\
     forall pref r, position_ref store p ts = Ok pref -> ~ reports_market L r (pk_market (pr_key pref))).
Proof.
  intros L P Hk. pose proof (merge_all_inv reports d0) as Hi. unfold acc_inv in Hi.
  set (d := fold_left merge reports (clear d0)) in *. unfold collapse.
  destruct (decide (DProtocolWide ∈ reports)); [rewrite Hi; by eexists|].
  destruct Hi as (-> & Hr & [Hn _ Hm]). fold L in Hr. fold P in Hm.
  rewrite collapse_markets_eq, collapse_positions_eq by (intros p Hp%Hm; by apply Hk).
  eexists. split; [done|]. cbn [collapsed da_out set_out cd_protocol_wide cd_reprices cd_accruals cd_positions
    collapsed_default app rank].
  destruct (ranked_rows d L 3 Hr) as [Hn3 H3]. destruct (ranked_rows d L 2 Hr) as [Hn2 H2].
  pose proof (row_reports_rank reports) as Hrk. fold L in Hrk.
  split; [done|]. split; [done|]. split; [done|]. split; [by apply NoDup_ListNoDup, List.NoDup_filter, NoDup_ListNoDup|].
  split; [|split].
  - intros s. rewrite H3. split; [naive_solver|]. intros [? ?]. split; [done|]. split; [done|].
    intros r [->| ->]%Hrk; lia.
  - intros s. rewrite H2. split.
    + intros (? & ? & Hb). split; [done|]. intros Hq%Hb. lia.
    + intros [[r Hq] Hno]. split; [by eexists|].
      assert (forall r', reports_market L r' (ms_market s) -> r' = 2) as He.
      { intros r' Hr'. destruct (Hrk _ _ Hr') as [->| ->]; [done|]. by destruct Hno. }
      split; [|by intros r' ->%He]. rewrite <- (He r); by exists s.
  - intros p. rewrite list_elem_of_In, List.filter_In, <- list_elem_of_In, Hm.
    enough (p ∈ P -> (match position_ref store p ts with Ok pref => negb (covered d (pk_market (pr_key pref))) | Err _ => false end = true <-> forall pref r, position_ref store p ts = Ok pref -> ~ reports_market L r (pk_market (pr_key pref)))) as He by (split; intros [? ?]; (split; [done|]); by apply He).
    intros Hp%Hk. destruct (position_ref store p ts) as [pref|]; [|done].
    rewrite negb_true_iff, <- not_true_iff_false, (covered_iff d L) by (done || intros ? ? [->| ->]%Hrk; lia).
    naive_solver.
Qed.

(** The positions a block's reports named are kept through the collapse. *)
Lemma touched_exact d0 reports store ts p :
  DProtocolWide ∉ reports ->
  p ∈ touched (fst (collapse (fold_left merge reports (clear d0)) store ts)) <-> p ∈ reports ≫= positions_of.
Proof.
  intros Hw. pose proof (merge_all_inv reports d0) as Hi. unfold acc_inv in Hi. rewrite decide_False in Hi by done.
  destruct Hi as (Hpw & _ & [_ _ Hm]). rewrite <- Hm. unfold collapse. rewrite Hpw.
  by destruct (collapse_positions _ _ _ _ _).
Qed.

(** Two markets, a position in each; the first market accrues. *)
Definition wit_dirty_store : StateStore :=
  fst (intern (mkKey 1 3 8) (fst (intern (mkKey 1 2 7)
    (fst (push_market 3 (blank 6 6) (fst (push_market 2 (blank 5 18) (store_new 0)))))))).
Definition wit_reports : list DirtySet := [DPositions [0%nat; 1%nat]; DAccrual [mkSlot 2 0]; DPositions [1%nat]].

Lemma collapse_exact_witness :
  exists d, collapse (fold_left merge wit_reports (clear dirty_new)) wit_dirty_store 5 = (d, Ok tt) /\
    collapsed d = mkCollapsed false [] [mkSlot 2 0] [1%nat] /\
    forall s, s ∈ cd_accruals (collapsed d) <->
      (exists r, (r, s) ∈ wit_reports ≫= rows_of) /\
      ~ reports_market (wit_reports ≫= rows_of) (rank (DReprice [])) (ms_market s).
Proof.
  destruct (collapse_exact dirty_new wit_reports wit_dirty_store 5) as (d & E & H).
  { intros p Hp. cbn in Hp. rewrite !elem_of_cons, elem_of_nil in Hp.
    destruct Hp as [->|[->|[->|[]]]]; vm_compute; reflexivity. }
  exists d. split; [exact E|]. split; [|by apply H].
  assert (Some (collapsed d) = Some (mkCollapsed false [] [mkSlot 2 0] [1%nat])) as [= ->]; [|reflexivity].
  transitivity (Some (collapsed (fst (collapse (fold_left merge wit_reports (clear dirty_new)) wit_dirty_store 5)))).
  - by rewrite E.
  - vm_compute. reflexivity.
Defined.
