(* ===== verification/Ingest.v ===== *)
(** The ingest path of the hot thread: log routing ([crates/liq-node/src/router.rs]), the
    block fold ([apply.rs]), panic and error containment and reorgs ([reorg.rs]), with the
    notification types of [exex.rs] and [source.rs].

    An adapter's [apply_log] touches the store only through [&mut dyn StateWriter], so it is
    a tree of calls on that trait ([Prog]), each continued with the call's result, that
    returns or panics. The decoding of an event's payload is generated from the ABI and is a
    parameter, as is the table of known signatures. Of the bump arena only the copy it hands
    out is modelled. *)

From S2P Require Import Prelude Mask Types Interner Columns Undo Store StoreInv StoreOps StoreUnwind StoreThms.
From S2P Require Import Dirty Halt Gate.
Local Open Scope Z_scope.

(** ** [StateWriter] programs *)

Inductive Prog (A : Type) :=
| PRet (a : A)
| PPanic
| PIntern (key : PositionKey) (k : Result ProtocolError PositionId -> Prog A)
| PSupply (pos : PositionId) (slot : nat) (k : Result ProtocolError Z -> Prog A)
| PDebt (pos : PositionId) (slot : nat) (k : Result ProtocolError Z -> Prog A)
| PSetSupply (pos : PositionId) (slot : nat) (shares : Z) (k : Result ProtocolError unit -> Prog A)
| PSetDebt (pos : PositionId) (slot : nat) (shares : Z) (k : Result ProtocolError unit -> Prog A)
| PExtra (pos : PositionId) (k : Result ProtocolError PositionExtraRepr -> Prog A)
| PSetExtra (pos : PositionId) (x : PositionExtraRepr) (k : Result ProtocolError unit -> Prog A)
| PSlotExtra (pos : PositionId) (slot : nat) (k : Result ProtocolError PositionExtraRepr -> Prog A)
| PSetSlotExtra (pos : PositionId) (slot : nat) (x : PositionExtraRepr) (k : Result ProtocolError unit -> Prog A)
| PPositionsLen (k : Z -> Prog A)
| PPositionKey (pos : PositionId) (k : Result ProtocolError PositionKey -> Prog A)
| PMarket (at_ : MarketSlot) (k : Result ProtocolError MarketRow -> Prog A)
| PMarkets (id : MarketId) (k : Result ProtocolError (list MarketRow) -> Prog A)
| PSetMarket (at_ : MarketSlot) (row : MarketRow) (k : Result ProtocolError unit -> Prog A)
| PPushMarket (id : MarketId) (row : MarketRow) (k : Result ProtocolError MarketSlot -> Prog A).
Arguments PRet {A}. Arguments PPanic {A}. Arguments PIntern {A}. Arguments PSupply {A}.
Arguments PDebt {A}. Arguments PSetSupply {A}. Arguments PSetDebt {A}. Arguments PExtra {A}.
Arguments PSetExtra {A}. Arguments PSlotExtra {A}. Arguments PSetSlotExtra {A}. Arguments PPositionsLen {A}.
Arguments PPositionKey {A}. Arguments PMarket {A}. Arguments PMarkets {A}. Arguments PSetMarket {A}.
Arguments PPushMarket {A}.

(** The store after the calls, and the returned value or [None] for a panic. *)
Fixpoint run_prog {A} (p : Prog A) (s : StateStore) : StateStore * option A :=
  match p with
  | PRet a => (s, Some a)
  | PPanic => (s, None)
  | PIntern key k => let '(s, r) := intern key s in run_prog (k r) s
  | PSupply pos slot k => run_prog (k (supply s pos slot)) s
  | PDebt pos slot k => run_prog (k (debt s pos slot)) s
  | PSetSupply pos slot v k => let '(s, r) := set_supply pos slot v s in run_prog (k r) s
  | PSetDebt pos slot v k => let '(s, r) := set_debt pos slot v s in run_prog (k r) s
  | PExtra pos k => run_prog (k (extra s pos)) s
  | PSetExtra pos x k => let '(s, r) := set_extra pos x s in run_prog (k r) s
  | PSlotExtra pos slot k => run_prog (k (slot_extra s pos slot)) s
  | PSetSlotExtra pos slot x k => let '(s, r) := set_slot_extra pos slot x s in run_prog (k r) s
  | PPositionsLen k => run_prog (k (positions_len s)) s
  | PPositionKey pos k => run_prog (k (position_key s pos)) s
  | PMarket at_ k => run_prog (k (market s at_)) s
  | PMarkets id k => run_prog (k (markets s id)) s
  | PSetMarket at_ row k => let '(s, r) := set_market at_ row s in run_prog (k r) s
  | PPushMarket id row k => let '(s, r) := push_market id row s in run_prog (k r) s
  end.

(** ** Logs, blocks and notifications *)

Record LogFilter := mkFilter { lf_address : Address; lf_topic0 : Z }.

Record OwnedLog := mkLog {
  ol_address : Address;
  ol_topics : list Z;
  ol_data : list Z;
  ol_block : BlockNum;
  ol_timestamp : Timestamp;
  ol_tx_index : Z;
  ol_log_index : Z
}.

Record OwnedBlock := mkBlock {
  ob_number : BlockNum;
  ob_timestamp : Timestamp;
  ob_gas_limit : Z;
  ob_gas_used : Z;
  ob_base_fee_per_gas : Z;
  ob_logs : list OwnedLog
}.

(** [DecodedLog]: the log as the arena copied it. *)
Record DecodedLog := mkDecoded {
  dl_address : Address;
  dl_topics : list Z;
  dl_data : list Z;
  dl_block : BlockNum;
  dl_timestamp : Timestamp
}.

Record NumHash := mkNumHash { nh_number : BlockNum; nh_hash : Z }.
Record FinishedUpTo := mkFinished { fu_num_hash : NumHash }.
Record OwnedChain := mkChain { oc_blocks : list OwnedBlock; oc_tip : NumHash }.

Inductive Notification :=
| Committed (new : OwnedChain)
| Reverted (first : BlockNum) (last : NumHash)
| Reorged (old_first : BlockNum) (old_last : NumHash) (new : OwnedChain).


(** [trait LogHandler]. *)
Record LogHandler := mkHandler {
  lh_subscriptions : list LogFilter;
  lh_apply_log : DecodedLog -> Prog (Result ProtocolError DirtySet)
}.

(** [DecodeArena::copy]. *)
Definition arena_copy (log : OwnedLog) : DecodedLog :=
  mkDecoded (ol_address log) (ol_topics log) (ol_data log) (ol_block log) (ol_timestamp log).

Section Ingest.
Context {EventKind : Type}.
(** [fill_topic0] and [decode_typed]: the signatures known at build time and the check that a
    payload decodes as one. *)
Context (known_topics : gmap Z EventKind).
Context (decode_typed : EventKind -> list Z -> list Z -> Result IngestError unit).

(** ** The router *)

Record LogRouter := mkRouter {
  lr_topic0 : gmap Z EventKind;
  lr_dispatch : gmap (Address * Z) (list nat);
  lr_tracked : gset Address;
  lr_unknown_topic : Z
}.

Inductive Route :=
| Untracked
| UnknownTopic
| Hit (kind : option EventKind) (decoded : DecodedLog) (subs : list nat).

(** The body of [from_subscribers]'s inner loop. *)
Definition subscribe (idx : nat) (acc : gmap (Address * Z) (list nat) * gset Address) (f : LogFilter)
    : gmap (Address * Z) (list nat) * gset Address :=
  let '(dispatch, tracked) := acc in
  let key := (lf_address f, lf_topic0 f) in
  let slot := default [] (dispatch !! key) in
  (<[key := if decide (idx ∈ slot) then slot else slot ++ [idx]]> dispatch, {[lf_address f]} ∪ tracked).

Fixpoint subscribe_all (i : nat) (subs : list (list LogFilter))
    (acc : gmap (Address * Z) (list nat) * gset Address)
    : Result IngestError (gmap (Address * Z) (list nat) * gset Address) :=
  match subs with
  | [] => Ok acc
  | s :: subs =>
      let? idx := ok_or (try_from_nat 16 i) ITooManySubscribers in
      subscribe_all (S i) subs (fold_left (subscribe idx) s acc)
  end.

Definition from_subscribers (subs : list (list LogFilter)) : Result IngestError LogRouter :=
  let? (dispatch, tracked) := subscribe_all 0 subs (∅, ∅) in
  Ok (mkRouter known_topics dispatch tracked 0).

Definition tracks (r : LogRouter) (a : Address) : bool := bool_decide (a ∈ lr_tracked r).

Definition route (r : LogRouter) (log : OwnedLog) : LogRouter * Result IngestError Route :=
  match head (ol_topics log) with
  | None => (r, if tracks r (ol_address log) then Err IMalformedLog else Ok Untracked)
  | Some topic0 =>
      match lr_dispatch r !! (ol_address log, topic0) with
      | None =>
          if negb (tracks r (ol_address log)) then (r, Ok Untracked) else
          (mkRouter (lr_topic0 r) (lr_dispatch r) (lr_tracked r) (wrapping_add 64 (lr_unknown_topic r) 1),
           Ok UnknownTopic)
      | Some subs =>
          let decoded := arena_copy log in
          let kind := lr_topic0 r !! topic0 in
          match kind with
          | Some k => let# _ := decode_typed k (dl_topics decoded) (dl_data decoded) at r in
                      (r, Ok (Hit kind decoded subs))
          | None => (r, Ok (Hit kind decoded subs))
          end
      end
  end.

(** ** The block fold *)

Record ApplyCtx := mkCtx {
  cx_store : StateStore;
  cx_router : LogRouter;
  cx_handlers : list LogHandler;
  cx_dirty : DirtyAccumulator
}.

Definition with_store (c : ApplyCtx) (s : StateStore) : ApplyCtx :=
  mkCtx s (cx_router c) (cx_handlers c) (cx_dirty c).
Definition with_router (c : ApplyCtx) (r : LogRouter) : ApplyCtx :=
  mkCtx (cx_store c) r (cx_handlers c) (cx_dirty c).
Definition with_dirty (c : ApplyCtx) (d : DirtyAccumulator) : ApplyCtx :=
  mkCtx (cx_store c) (cx_router c) (cx_handlers c) d.

(** The outcome under [catch_unwind]: a result, or a panic that unwound to the caller. *)
Abbreviation Caught A := (option (Result IngestError A)) (only parsing).

(** The loop over the subscribers of one log. *)
Fixpoint apply_subs (c : ApplyCtx) (decoded : DecodedLog) (subs : list nat) : ApplyCtx * Caught unit :=
  match subs with
  | [] => (c, Some (Ok tt))
  | idx :: subs =>
      match cx_handlers c !! idx with
      | None => (c, Some (Err (IHandlerMissing idx)))
      | Some handler =>
          let '(s, r) := run_prog (lh_apply_log handler decoded) (cx_store c) in
          let c := with_store c s in
          match r with
          | None => (c, None)
          | Some (Err e) => (c, Some (Err (IProtocol e)))
          | Some (Ok set) => apply_subs (with_dirty c (merge (cx_dirty c) set)) decoded subs
          end
      end
  end.

(** The loop over the logs of the block. *)
Fixpoint apply_logs (c : ApplyCtx) (logs : list OwnedLog) : ApplyCtx * Caught unit :=
  match logs with
  | [] => (c, Some (Ok tt))
  | log :: logs =>
      let '(router, r) := route (cx_router c) log in
      let c := with_router c router in
      match r with
      | Err e => (c, Some (Err e))
      | Ok (Hit _ decoded subs) =>
          match apply_subs c decoded subs with
          | (c, Some (Ok _)) => apply_logs c logs
          | (c, r) => (c, r)
          end
      | Ok _ => apply_logs c logs
      end
  end.

(** [apply_block]; [meter] is the pair of readings the allocation meter gives. *)
Definition apply_block (c : ApplyCtx) (block : OwnedBlock) (meter : option (Z * Z)) : ApplyCtx * Caught unit :=
  let gap := IBlockGap (tip (cx_store c)) (ob_number block) in
  match checked_add 64 (tip (cx_store c)) 1 with
  | None => (c, Some (Err gap))
  | Some expect =>
      if negb (ob_number block =? expect) then (c, Some (Err gap)) else
      let '(s, r) := begin_block (cx_store c) (ob_number block) in
      let c := with_store c s in
      match r with
      | Err e => (c, Some (Err (IState e)))
      | Ok _ =>
          let c := with_dirty c (Dirty.clear (cx_dirty c)) in
          match apply_logs c (ob_logs block) with
          | (c, Some (Ok _)) =>
              let '(d, r) := collapse (cx_dirty c) (cx_store c) (ob_timestamp block) in
              let c := with_dirty c d in
              match r with
              | Err e => (c, Some (Err e))
              | Ok _ =>
                  match meter with
                  | Some (b, a) => (c, Some (if a =? b then Ok tt else Err IHotPathAlloc))
                  | None => (c, Some (Ok tt))
                  end
              end
          | (c, r) => (c, r)
          end
      end
  end.

(** ** Containment and reorgs *)

Context {Sink : Type} `{HaltSink Sink}.

(** [reorg::unwind_to]. *)
Definition ingest_unwind (s : StateStore) (target : BlockNum) : StateStore * Result IngestError unit :=
  let '(s, r) := unwind_to target s in (s, map_err IState r).

Definition unwind_parent (first : BlockNum) : option BlockNum := checked_sub first 1.

Definition halt_protocols (sink : Sink) (ids : list ProtocolId) (reason : HaltReason) : Sink :=
  fold_left (fun sink id => sink_halt sink (SProtocol id) reason) ids sink.

Definition halt_reorg_too_deep (sink : Sink) : Sink := sink_halt sink SGlobal Halt.ReorgTooDeep.

Definition recover_partial (s : StateStore) (prev : BlockNum) (sink : Sink) (protocols : list ProtocolId)
    (reason : HaltReason) : StateStore * Sink * Result IngestError unit :=
  match ingest_unwind s prev with
  | (s, Ok _) => (s, halt_protocols sink protocols reason, Ok tt)
  | (s, Err e) => (s, halt_reorg_too_deep sink, Err e)
  end.

Definition apply_contained (c : ApplyCtx) (block : OwnedBlock) (sink : Sink) (protocols : list ProtocolId)
    : ApplyCtx * Sink * Result IngestError bool :=
  let prev := tip (cx_store c) in
  match apply_block c block None with
  | (c, Some (Ok _)) => (c, sink, Ok true)
  | (c, _) =>
      let '(s, sink, r) := recover_partial (cx_store c) prev sink protocols AdapterPanic in
      (with_store c s, sink, map_res (fun _ => false) r)
  end.

Fixpoint apply_blocks (c : ApplyCtx) (blocks : list OwnedBlock) (sink : Sink) (protocols : list ProtocolId)
    : ApplyCtx * Sink * Result IngestError bool :=
  match blocks with
  | [] => (c, sink, Ok true)
  | b :: blocks =>
      match apply_contained c b sink protocols with
      | (c, sink, Ok true) => apply_blocks c blocks sink protocols
      | x => x
      end
  end.

Definition apply_chain (c : ApplyCtx) (chain : OwnedChain) (sink : Sink) (protocols : list ProtocolId)
    : ApplyCtx * Sink * Result IngestError (option FinishedUpTo) :=
  match oc_blocks chain with
  | [] => (c, sink, Ok None)
  | blocks =>
      match apply_blocks c blocks sink protocols with
      | (c, sink, Err e) => (c, sink, Err e)
      | (c, sink, Ok false) => (c, sink, Ok None)
      | (c, sink, Ok true) =>
          if negb (nh_number (oc_tip chain) =? tip (cx_store c)) then
            (c, halt_reorg_too_deep sink, Err (IBlockGap (tip (cx_store c)) (nh_number (oc_tip chain))))
          else (c, sink, Ok (Some (mkFinished (oc_tip chain))))
      end
  end.

(** [reorg::revert]. *)
Definition revert_blocks (s : StateStore) (first : BlockNum) (last : NumHash) (sink : Sink)
    : StateStore * Sink * Result IngestError unit :=
  match unwind_parent first with
  | None => (s, halt_reorg_too_deep sink, Err (ICannotUnwindGenesis (tip s) (floor s)))
  | Some parent =>
      match ingest_unwind s parent with
      | (s, Ok _) => (s, sink, Ok tt)
      | (s, Err e) => (s, halt_reorg_too_deep sink, Err e)
      end
  end.

Definition handle_notification (c : ApplyCtx) (n : Notification) (sink : Sink) (protocols : list ProtocolId)
    : ApplyCtx * Sink * Result IngestError (option FinishedUpTo) :=
  match n with
  | Committed new => apply_chain c new sink protocols
  | Reverted first last =>
      let '(s, sink, r) := revert_blocks (cx_store c) first last sink in
      (with_store c s, sink, map_res (fun _ => None) r)
  | Reorged old_first old_last new =>
      let '(s, sink, r) := revert_blocks (cx_store c) old_first old_last sink in
      match r with
      | Err e => (with_store c s, sink, Err e)
      | Ok _ => apply_chain (with_store c s) new sink protocols
      end
  end.

(** ** Programs and the fold stay within the store's reach *)

Lemma run_setter_tip s h w : reach s h -> tip (fst (run_setter w s)) = tip s /\ floor (fst (run_setter w s)) = floor s.
Proof.
  intros Hr%reach_hist. destruct (run_setter w s) as [s' b] eqn:E. cbn.
  apply run_setter_spec in E; [|apply Hr]. unfold tip, floor.
  destruct b; [destruct E as [(_ & _ & ->)|(_ & op & ex & rw & -> & _)]|destruct E as (_ & _ & ->)];
    by rewrite ?upd_current_tip, ?upd_current_floor.
Qed.

(** [reach] with the store itself as the newest snapshot. *)
Lemma reach_top s h : reach s h -> exists d t, h = d :: t /\ store_eqv d s /\ reach s (s :: t).
Proof.
  intros Hr. pose proof (reach_hist _ _ Hr) as Hh. destruct (ho_top _ _ Hh) as (d & Hd & Hq).
  destruct h as [|d' t]; [done|]. cbn in Hd. simplify_eq. exists d, t. split; [done|]. split; [done|].
  eapply (reach_setter s d t (WExtra (length (st_extra s)) EXTRA_ZERO)); [done|].
  cbn. unfold set_extra. by rewrite lookup_ge_None_2 by lia.
Qed.

(** The block under construction: reached from [base] by setters on an open block. *)
Record building (base s : StateStore) (t : list StateStore) : Prop := {
  bg_reach : reach s (s :: t);
  bg_tip : tip s = tip base;
  bg_floor : floor s = floor base
}.

Lemma building_setter base s t w :
  building base s t -> building base (fst (run_setter w s)) t.
Proof.
  intros [Hr Ht Hf]. destruct (run_setter_tip s _ w Hr) as [E1 E2].
  split; [by eapply reach_run|congruence..].
Qed.

Lemma building_set {E A} base s t (r : StateStore * Result E A) w :
  prod_map id is_ok r = run_setter w s -> building base s t -> building base (fst r) t.
Proof.
  intros Er Hb. pose proof (building_setter base s t w Hb) as Hw. by rewrite <- Er in Hw.
Qed.

Ltac prog_set w :=
  match goal with
  | IH : context [run_prog] |- context [let '(_, _) := ?c in _] =>
      let s' := fresh "s'" in let r := fresh "r" in let E := fresh "E" in
      destruct c as [s' r] eqn:E; apply IH; eapply (building_set _ _ _ (s', r) w); [by rewrite <- E|done]
  end.

Lemma run_prog_building {A} (p : Prog A) base s t :
  building base s t -> building base (fst (run_prog p s)) t.
Proof.
  revert s. induction p; intros s Hb; cbn [run_prog]; try done;
    try (by match goal with IH : context [run_prog] |- _ => apply IH end).
  - prog_set (WIntern key).
  - prog_set (WSupply pos slot shares).
  - prog_set (WDebt pos slot shares).
  - prog_set (WExtra pos x).
  - prog_set (WSlotExtra pos slot x).
  - prog_set (WMarket at_ row).
  - prog_set (WPush id row).
Qed.

Lemma apply_subs_building c decoded subs base t :
  building base (cx_store c) t -> building base (cx_store (fst (apply_subs c decoded subs))) t.
Proof.
  revert c. induction subs as [|idx subs IH]; intros c Hb; cbn [apply_subs]; [done|].
  destruct (cx_handlers c !! idx) as [hd|]; [|done].
  pose proof (run_prog_building (lh_apply_log hd decoded) base (cx_store c) t Hb) as Hp.
  destruct (run_prog _ _) as [s r]. destruct r as [[set|e]|]; [by apply IH|done|done].
Qed.

Lemma apply_logs_building c logs base t :
  building base (cx_store c) t -> building base (cx_store (fst (apply_logs c logs))) t.
Proof.
  revert c. induction logs as [|log logs IH]; intros c Hb; cbn [apply_logs]; [done|].
  destruct (route (cx_router c) log) as [router r].
  destruct r as [[| |kind decoded subs]|e]; try done; try (by apply IH).
  pose proof (apply_subs_building (with_router c router) decoded subs base t Hb) as Hs.
  destruct (apply_subs _ _ _) as [c' [[[]|e]|]]; [by apply IH|done|done].
Qed.

(** What a fold of one block leaves, whatever the adapters did: nothing at all, or an open
    block on top of the history. *)
Lemma apply_block_spec c block meter h c' r :
  reach (cx_store c) h -> apply_block c block meter = (c', r) ->
  (cx_store c' = cx_store c /\ (exists e, r = Some (Err e))) \/
  (ob_number block = tip (cx_store c) + 1 /\ exists s1,
   tip s1 = ob_number block /\
   floor s1 = Z.max (floor (cx_store c)) (ob_number block - Z.of_nat UNDO_DEPTH) /\
   building s1 (cx_store c') (take UNDO_DEPTH h)).
Proof.
  intros Hr. unfold apply_block.
  destruct (checked_add 64 _ 1) as [expect|] eqn:Ex; [|intros [= <- <-]; left; eauto].
  destruct (Z.eqb_spec (ob_number block) expect) as [<-|]; cbn [negb]; [|intros [= <- <-]; left; eauto].
  destruct (begin_block (cx_store c) (ob_number block)) as [s1 [[]|e]] eqn:Eb.
  2: { unfold begin_block, ring_begin in Eb. rewrite decide_True in Eb by done. done. }
  apply checked_add_Some in Ex as [Hn _]. intros Hc. right. split; [done|]. exists s1.
  pose proof (reach_begin _ _ _ _ Hr Eb) as Hr1. pose proof (reach_hist _ _ Hr) as Hh.
  apply begin_block_Ok in Eb as [_ Eb]. apply (ring_begin_Ok _ _ _ (ho_ring _ _ Hh)) in Eb as (_ & _ & Et & Ef & _).
  split; [done|]. split; [done|].
  pose proof (apply_logs_building (with_dirty (with_store c s1) (Dirty.clear (cx_dirty c))) (ob_logs block) s1
    (take UNDO_DEPTH h) ltac:(by split)) as Hb.
  cbn [with_dirty with_store cx_dirty] in *. destruct (apply_logs _ _) as [c2 [[[]|e]|]]; cbn [fst] in Hb; simplify_eq; try done.
  destruct (collapse _ _ _) as [d r']. repeat case_match; simplify_eq; done.
Qed.


Lemma recover_spec s0 h s prev sink protocols :
  reach s0 h -> prev = tip s0 ->
  (s = s0 \/ exists s1, tip s1 = tip s0 + 1 /\
     floor s1 = Z.max (floor s0) (tip s1 - Z.of_nat UNDO_DEPTH) /\ building s1 s (take UNDO_DEPTH h)) ->
  exists s' n, recover_partial s prev sink protocols AdapterPanic = (s', halt_protocols sink protocols AdapterPanic, Ok tt) /\
    tip s' = tip s0 /\ store_eqv s0 s' /\ reads_agree s0 s' /\ (UNDO_DEPTH - 1 <= n)%nat /\
    reach s' (s' :: take n (tail h)).
Proof.
  intros Hr -> Hcase. pose proof (reach_hist _ _ Hr) as Hh. pose proof (ho_ring _ _ Hh) as Hring.
  destruct (ho_top _ _ Hh) as (d & Hd & Hq). destruct h as [|d' t]; [done|]. cbn in Hd. simplify_eq.
  assert (exists s' d' k, unwind_to (tip s0) s = (s', Ok tt) /\ d' = d /\ store_eqv d' s' /\ tip s' = tip s0 /\
    (UNDO_DEPTH - 1 <= k)%nat /\ reach s' (s' :: take k t)) as (s' & d' & k & E & -> & Hq' & Ht' & Hk & Hr').
  { destruct Hcase as [->|(s1 & Ht & Hf & [Hb Hbt Hbf])].
    - destruct (unwind_spec s0 (d :: t) (tip s0) Hh) as (s' & d' & E & Hd' & Hq' & Ht' & _).
      { destruct Hring. unfold tip, floor. lia. }
      exists s', d', (UNDO_DEPTH + length t)%nat. rewrite Z.sub_diag in Hd'. change (Some d = Some d') in Hd'. simplify_eq.
      do 4 (split; [done|]). split; [lia|]. pose proof (reach_unwind _ _ _ _ Hr E) as Hu.
      rewrite Z.sub_diag in Hu. rewrite take_ge by lia. exact Hu.
    - assert (tip s - tip s0 = 1) as Hone by lia.
      destruct (unwind_spec s _ (tip s0) (reach_hist _ _ Hb)) as (s' & d' & E & Hd' & Hq' & Ht' & _).
      { pose proof Hring as []. unfold UNDO_DEPTH in *. unfold tip, floor in *. lia. }
      rewrite Hone in Hd'. exists s', d', (UNDO_DEPTH - 1)%nat. change (Some d = Some d') in Hd'. simplify_eq. do 4 (split; [done|]).
      split; [lia|]. pose proof (reach_unwind _ _ _ _ Hb E) as Hu. rewrite Hone in Hu. exact Hu. }
  exists s', k. unfold recover_partial, ingest_unwind. rewrite E. cbn [map_err].
  assert (store_eqv s0 s') as Hq2 by (etransitivity; [symmetry|]; done).
  split; [done|]. split; [done|]. split; [done|]. split; [|done].
  apply eqv_reads_agree; [apply Hh|apply (reach_hist _ _ Hr')|done].
Qed.

(** One block under containment: it is folded, or nothing of it remains and the protocols
    are halted. *)
Lemma apply_contained_spec c block sink protocols h c' sink' r :
  reach (cx_store c) h -> apply_contained c block sink protocols = (c', sink', r) ->
  (r = Ok true /\ sink' = sink /\ ob_number block = tip (cx_store c) + 1 /\
   tip (cx_store c') = ob_number block /\ reach (cx_store c') (cx_store c' :: take UNDO_DEPTH h)) \/
  (r = Ok false /\ sink' = halt_protocols sink protocols AdapterPanic /\
   tip (cx_store c') = tip (cx_store c) /\ store_eqv (cx_store c) (cx_store c') /\
   reads_agree (cx_store c) (cx_store c') /\
   exists n, (UNDO_DEPTH - 1 <= n)%nat /\ reach (cx_store c') (cx_store c' :: take n (tail h))).
Proof.
  intros Hr. unfold apply_contained. destruct (apply_block c block None) as [c1 r1] eqn:E.
  pose proof (apply_block_spec _ _ _ _ _ _ Hr E) as Hc.
  assert ((exists u, r1 = Some (Ok u)) \/ forall u, r1 <> Some (Ok u)) as [[[] ->]|Hbad].
  { destruct r1 as [[]|]; [left; by eexists|by right|by right]. }
  - intros [= <- <- <-]. left. destruct Hc as [[_ [e ?]]|(Hn & s1 & Ht & _ & [Hb Hbt _])]; [done|].
    do 3 (split; [done|]). split; [congruence|done].
  - intros H'. right.
    destruct (recover_spec (cx_store c) h (cx_store c1) (tip (cx_store c)) sink protocols Hr eq_refl) as (s' & n & Er & ?).
    { destruct Hc as [[-> _]|(Hn & s1 & Ht & Hf & Hb)]; [by left|]. right. exists s1. rewrite Ht. by split. }
    rewrite Er in H'. destruct r1 as [[]|]; [by destruct (Hbad a)| |]; simplify_eq; cbn; split; try done;
      (split; [done|]); destruct_and!; split_and!; try done; by exists n.
Qed.

(** Exactly the first [k] blocks are in the store, [k] short of all of them. *)
Definition folded_prefix (c : ApplyCtx) (blocks : list OwnedBlock) (sink : Sink)
    (protocols : list ProtocolId) (c' : ApplyCtx) : Prop :=
  exists k c1, (k < length blocks)%nat /\
    apply_blocks c (take k blocks) sink protocols = (c1, sink, Ok true) /\
    tip (cx_store c1) = tip (cx_store c) + Z.of_nat k /\
    tip (cx_store c') = tip (cx_store c1) /\ reads_agree (cx_store c1) (cx_store c').

Lemma apply_blocks_spec c blocks sink protocols h c' sink' r :
  reach (cx_store c) h -> apply_blocks c blocks sink protocols = (c', sink', r) ->
  exists h', reach (cx_store c') h' /\
  ((r = Ok true /\ sink' = sink /\ tip (cx_store c') = tip (cx_store c) + Z.of_nat (length blocks) /\
    forall i b, blocks !! i = Some b -> ob_number b = tip (cx_store c) + 1 + Z.of_nat i) \/
   (r = Ok false /\ sink' = halt_protocols sink protocols AdapterPanic /\
    folded_prefix c blocks sink protocols c')).
Proof.
  revert c h. induction blocks as [|b blocks IH]; intros c h Hr; cbn [apply_blocks].
  { intros [= <- <- <-]. exists h. split; [done|]. left. split_and!; try done. cbn. lia. }
  destruct (apply_contained c b sink protocols) as [[c1 sink1] r1] eqn:E.
  destruct (apply_contained_spec _ _ _ _ _ _ _ _ Hr E) as [(-> & -> & Hn & Ht & Hr1)|(-> & -> & Ht & _ & Hra & n & _ & Hr1)].
  - intros Hb. destruct (IH _ _ Hr1 Hb) as (h' & Hr' & [(-> & -> & Ht' & Hi)|(-> & -> & Ht')]); exists h'; (split; [done|]).
    + left. split; [done|]. split; [done|]. cbn [length]. split; [lia|]. intros [|i] x Hx; cbn in Hx; simplify_eq; [lia|].
      rewrite (Hi i x Hx). lia.
    + right. split; [done|]. split; [done|]. destruct Ht' as (k & c2 & Hk & E2 & Et & Et' & Hra).
      exists (S k), c2. cbn [length take apply_blocks]. rewrite E, E2. split; [lia|]. split; [done|].
      split; [lia|]. by split.
  - intros [= <- <- <-]. eexists. split; [done|]. right. split; [done|]. split; [done|].
    exists 0%nat, c. cbn [length take apply_blocks]. split; [lia|]. split; [done|]. split; [lia|]. by split.
Qed.

Lemma unwind_refused s h target :
  reach s h -> ~ (floor s <= target <= tip s) -> exists e, unwind_to target s = (s, Err e).
Proof.
  intros _ Ht. unfold unwind_to. fold (tip s) (floor s).
  destruct (Z.ltb_spec (tip s) target); [by eexists|]. destruct (Z.ltb_spec target (floor s)); [by eexists|lia].
Qed.

Lemma revert_blocks_spec s h first last sink :
  reach s h ->
  (exists s' d, revert_blocks s first last sink = (s', sink, Ok tt) /\ tip s' = first - 1 /\
     h !! Z.to_nat (tip s - (first - 1)) = Some d /\ store_eqv d s' /\ exists h', reach s' h') \/
  (exists e, revert_blocks s first last sink = (s, halt_reorg_too_deep sink, Err e)).
Proof.
  intros Hr. unfold revert_blocks, unwind_parent, ingest_unwind.
  destruct (checked_sub first 1) as [parent|] eqn:Ep; [|right; by eexists].
  apply checked_sub_Some in Ep as [-> _].
  destruct (decide (floor s <= first - 1 <= tip s)) as [Ht|Ht].
  - left. destruct (unwind_spec s h _ (reach_hist _ _ Hr) Ht) as (s' & d & E & Hd & Hq & Et & _).
    rewrite E. exists s', d. split; [done|]. split; [done|]. split; [done|]. split; [done|].
    eexists. by eapply reach_unwind.
  - right. destruct (unwind_refused s h _ Hr Ht) as [e ->]. by eexists.
Qed.


Lemma apply_chain_spec c chain sink protocols h c' sink' res :
  reach (cx_store c) h -> apply_chain c chain sink protocols = (c', sink', res) ->
  exists h', reach (cx_store c') h' /\
  match res with
  | Ok (Some f) =>
      fu_num_hash f = oc_tip chain /\ sink' = sink /\ oc_blocks chain <> [] /\
      tip (cx_store c') = nh_number (oc_tip chain) /\
      tip (cx_store c') = tip (cx_store c) + Z.of_nat (length (oc_blocks chain)) /\
      forall i b, oc_blocks chain !! i = Some b -> ob_number b = tip (cx_store c) + 1 + Z.of_nat i
  | Ok None =>
      (oc_blocks chain = [] /\ sink' = sink /\ cx_store c' = cx_store c) \/
      (sink' = halt_protocols sink protocols AdapterPanic /\
       folded_prefix c (oc_blocks chain) sink protocols c')
  | Err e => sink' = halt_reorg_too_deep sink /\ tip (cx_store c') <> nh_number (oc_tip chain)
  end.
Proof.
  intros Hr. unfold apply_chain. destruct (oc_blocks chain) as [|b0 blocks] eqn:Eb.
  { intros [= <- <- <-]. exists h. split; [done|]. by left. }
  destruct (apply_blocks c (b0 :: blocks) sink protocols) as [[c1 sink1] r1] eqn:E.
  destruct (apply_blocks_spec _ _ _ _ _ _ _ _ Hr E) as (h' & Hr' & [(-> & -> & Ht & Hi)|(-> & -> & Ht)]).
  - destruct (Z.eqb_spec (nh_number (oc_tip chain)) (tip (cx_store c1))); cbn [negb]; intros [= <- <- <-];
      exists h'; (split; [done|]); cbn; [|by split].
    split_and!; try done.
  - intros [= <- <- <-]. exists h'. split; [done|]. by right.
Qed.


(** ** Routing as a scan *)

(** The reference: walk every subscriber's filters for every log. *)
Definition wants (fs : list LogFilter) (a : Address) (t : Z) : bool :=
  existsb (fun f => (lf_address f =? a) && (lf_topic0 f =? t)) fs.
Definition knows (fs : list LogFilter) (a : Address) : bool := existsb (fun f => lf_address f =? a) fs.

Fixpoint scan (i : nat) (subs : list (list LogFilter)) (a : Address) (t : Z) : list nat :=
  match subs with
  | [] => []
  | fs :: subs => (if wants fs a t then [i] else []) ++ scan (S i) subs a t
  end.

Definition scan_route (subs : list (list LogFilter)) (log : OwnedLog) : Result IngestError Route :=
  let known := existsb (fun fs => knows fs (ol_address log)) subs in
  match head (ol_topics log) with
  | None => if known then Err IMalformedLog else Ok Untracked
  | Some topic0 =>
      match scan 0 subs (ol_address log) topic0 with
      | [] => Ok (if known then UnknownTopic else Untracked)
      | l => match known_topics !! topic0 with
             | Some k => let? _ := decode_typed k (ol_topics log) (ol_data log) in
                         Ok (Hit (Some k) (arena_copy log) l)
             | None => Ok (Hit None (arena_copy log) l)
             end
      end
  end.

Definition with_unknown (r : LogRouter) (k : Z) : LogRouter :=
  mkRouter (lr_topic0 r) (lr_dispatch r) (lr_tracked r) k.

Lemma subscribe_filters idx fs d tr a t :
  let acc := fold_left (subscribe idx) fs (d, tr) in
  let slot := default [] (d !! (a, t)) in
  fst acc !! (a, t) = (if wants fs a t then Some (if decide (idx ∈ slot) then slot else slot ++ [idx])
                       else d !! (a, t)) /\
  (a ∈ snd acc <-> a ∈ tr \/ knows fs a = true).
Proof.
  cbv zeta. revert d tr. induction fs as [|f fs IH]; intros d tr; [cbn; naive_solver|].
  cbn [fold_left subscribe]. destruct (IH (<[(lf_address f, lf_topic0 f) :=
    if decide (idx ∈ default [] (d !! (lf_address f, lf_topic0 f))) then default [] (d !! (lf_address f, lf_topic0 f))
    else default [] (d !! (lf_address f, lf_topic0 f)) ++ [idx]]> d) ({[lf_address f]} ∪ tr)) as [E1 E2].
  unfold wants, knows. cbn [existsb]. fold (wants fs a t) (knows fs a). rewrite E1, E2. split.
  - destruct (Z.eqb_spec (lf_address f) a) as [<-|Hn]; cbn [andb orb].
    2: { rewrite lookup_insert_ne by congruence. done. }
    destruct (Z.eqb_spec (lf_topic0 f) t) as [<-|Hn]; cbn [orb].
    2: { rewrite lookup_insert_ne by congruence. done. }
    rewrite lookup_insert_eq. cbn [default from_option id]. destruct (wants fs _ _); [|done].
    repeat case_decide; set_solver.
  - rewrite elem_of_union, elem_of_singleton, orb_true_iff, Z.eqb_eq. naive_solver.
Qed.

Lemma scan_bounds i subs a t j : j ∈ scan i subs a t -> (i <= j)%nat.
Proof.
  revert i. induction subs as [|fs subs IH]; intros i; cbn [scan]; [by intros ?%not_elem_of_nil|].
  rewrite elem_of_app. destruct (wants fs a t); [rewrite list_elem_of_singleton|rewrite elem_of_nil].
  all: intros [?|?%IH]; [done || lia|lia].
Qed.

Lemma subscribe_all_spec i subs d tr :
  (i + length subs <= Z.to_nat (2 ^ 16))%nat ->
  (forall key slot j, d !! key = Some slot -> j ∈ slot -> (j < i)%nat) ->
  exists d' tr', subscribe_all i subs (d, tr) = Ok (d', tr') /\
  (forall a t, d' !! (a, t) = match scan i subs a t with [] => d !! (a, t) | l => Some (default [] (d !! (a, t)) ++ l) end) /\
  (forall a, a ∈ tr' <-> a ∈ tr \/ existsb (fun fs => knows fs a) subs = true).
Proof.
  revert i d tr. induction subs as [|fs subs IH]; intros i d tr Hi Hb; cbn [subscribe_all].
  { exists d, tr. split; [done|]. cbn. naive_solver. }
  cbn [length] in Hi. rewrite (proj2 (try_from_nat_Some 16 i i)) by (split; [done|]; unfold umax; lia). cbn [ok_or].
  destruct (fold_left (subscribe i) fs (d, tr)) as [d1 tr1] eqn:E1.
  assert (forall a t, let slot := default [] (d !! (a, t)) in
    d1 !! (a, t) = (if wants fs a t then Some (slot ++ [i]) else d !! (a, t)) /\
    (a ∈ tr1 <-> a ∈ tr \/ knows fs a = true)) as Hf.
  { intros a t. pose proof (subscribe_filters i fs d tr a t) as H1. rewrite E1 in H1. cbv zeta in H1 |- *. cbn [fst snd] in H1.
    rewrite decide_False in H1; [done|]. intros Hin. destruct (d !! (a, t)) as [slot|] eqn:E; [|by apply not_elem_of_nil in Hin].
    specialize (Hb _ _ _ E Hin). lia. }
  destruct (IH (S i) d1 tr1) as (d' & tr' & E & Hd & Ht); [lia| |].
  { intros [a t] slot j. destruct (Hf a t) as [-> _]. destruct (wants fs a t); [|intros Hs Hj; specialize (Hb _ _ _ Hs Hj); lia].
    intros [= <-]. rewrite elem_of_app, list_elem_of_singleton. intros [Hj| ->]; [|lia].
    destruct (d !! (a, t)) as [slot|] eqn:Es; [|by apply not_elem_of_nil in Hj]. specialize (Hb _ _ _ Es Hj). lia. }
  exists d', tr'. split; [done|]. split.
  - intros a t. rewrite Hd. destruct (Hf a t) as [-> _]. cbn [scan].
    destruct (wants fs a t); cbn [app default from_option id]; [|done].
    destruct (scan (S i) subs a t); [done|]. by rewrite <- app_assoc.
  - intros a. rewrite Ht. destruct (Hf a 0) as [_ ->]. cbn [existsb]. rewrite orb_true_iff. naive_solver.
Qed.

(** The router's hash dispatch is the linear scan: for any subscribers (up to the 2^16
    the index type holds) and any log, it reaches exactly the subscribers with a filter on
    that address and signature, in subscription order and once each; a signature nobody
    asked for at a tracked address is skipped and counted, an untracked address is ignored,
    and only an anonymous log at a tracked address or an undecodable payload is an error.
    More subscribers are refused. *)
Theorem routing_is_a_scan (subs : list (list LogFilter)) (log : OwnedLog) :
  match from_subscribers subs with
  | Err e => e = ITooManySubscribers /\ 2 ^ 16 < Z.of_nat (length subs)
  | Ok r => Z.of_nat (length subs) <= 2 ^ 16 /\ forall k,
      route (with_unknown r k) log =
      (with_unknown r (match scan_route subs log with Ok UnknownTopic => wrapping_add 64 k 1 | _ => k end),
       scan_route subs log)
  end.
Proof.
  unfold from_subscribers. destruct (decide (Z.of_nat (length subs) <= 2 ^ 16)) as [Hl|Hl].
  - destruct (subscribe_all_spec 0 subs ∅ ∅) as (d & tr & -> & Hd & Ht); [lia| |].
    { intros key slot j. by rewrite lookup_empty. }
    split; [done|]. intros k. unfold route, scan_route, tracks, with_unknown.
    cbn [lr_topic0 lr_dispatch lr_tracked lr_unknown_topic].
    rewrite (bool_decide_ext (ol_address log ∈ tr) (existsb (fun fs => knows fs (ol_address log)) subs = true))
      by (rewrite Ht; set_solver).
    destruct (existsb _ subs); cbn [bool_decide decide_rel];
      (destruct (head (ol_topics log)) as [t0|]; [|done]);
      rewrite Hd, lookup_empty; cbn [default from_option id app];
      (destruct (scan 0 subs _ t0); [done|]); cbn [dl_topics dl_data arena_copy];
      (destruct (known_topics !! t0); [|done]); by destruct (decode_typed _ _ _).
  - enough (forall i d, 0 <= i <= 2 ^ 16 -> 2 ^ 16 < i + Z.of_nat (length subs) ->
      subscribe_all (Z.to_nat i) subs d = Err ITooManySubscribers) as Hx.
    { rewrite (Hx 0 (∅, ∅)) by lia. by split; [|lia]. }
    clear. induction subs as [|fs subs IH]; intros i d Hi Hl; cbn [length subscribe_all] in *; [lia|].
    destruct (decide (i = 2 ^ 16)) as [Hi'|].
    + assert (umax 16 < Z.of_nat (Z.to_nat i)) as Hu by (rewrite Z2Nat.id by lia; unfold umax; lia).
      unfold try_from_nat. by rewrite (proj2 (Z.leb_gt _ _) Hu).
    + rewrite (proj2 (try_from_nat_Some 16 (Z.to_nat i) (Z.to_nat i))) by (split; [done|]; unfold umax; lia).
      cbn [ok_or]. rewrite <- (IH (i + 1) (fold_left (subscribe (Z.to_nat i)) fs d)) by lia. f_equal. lia.
Qed.
End Ingest.

(** ** Ingest behind the risk gate *)

Lemma halt_protocols_entry g ids r p :
  (forall s, normalize_scope (SProtocol s) r (class_of r) = Some (SProtocol s)) ->
  p ∈ ids \/ entry_at g (SProtocol p) = Some r ->
  entry_at (halt_protocols g ids r) (SProtocol p) = Some r.
Proof.
  intros Hn. revert g. induction ids as [|q ids IH]; intros g Hp; cbn.
  { by destruct Hp as [Hp%not_elem_of_nil|]. }
  apply IH. rewrite elem_of_cons in Hp. cbn [sink_halt HaltSink_gate]. rewrite entry_at_halt, Hn.
  case_bool_decide as Hq; [by right|]. destruct Hp as [[->|?]|?]; [|by left|by right].
  by destruct Hq.
Qed.

Lemma reorg_halt_denies g q : allow (halt_reorg_too_deep g) q <> AYes.
Proof.
  intros E. pose proof (allow_exact_aux (halt_reorg_too_deep g) q) as H. rewrite E in H. destruct H as (_ & H & _).
  cbn in H. rewrite Z.land_lor_distr_l, Z.lor_eq_0_iff in H. by destruct H.
Qed.

(** Behind the risk gate, ingest fails closed: when a notification ends in an error no
    submission at all is allowed, when one of its blocks failed no submission on a tracked
    protocol is, and otherwise the gate is as it was. *)
Theorem ingest_failure_denies {EventKind : Type} (decode_typed : EventKind -> list Z -> list Z -> Result IngestError unit)
    (c c' : ApplyCtx) (n : Notification) (g g' : RiskGate) (protocols : list ProtocolId) (h : list StateStore)
    (res : Result IngestError (option FinishedUpTo)) :
  reach (cx_store c) h -> handle_notification decode_typed c n g protocols = (c', g', res) ->
  match res with
  | Err _ => forall q, allow g' q <> AYes
  | Ok None => g' = g \/ forall q, q_protocol q ∈ protocols -> allow g' q <> AYes
  | Ok (Some _) => g' = g
  end.
Proof.
  intros Hr.
  assert (forall q, q_protocol q ∈ protocols -> allow (halt_protocols g protocols AdapterPanic) q <> AYes) as Hdeny.
  { intros q Hq. apply (hit_denied _ _ (SProtocol (q_protocol q)) AdapterPanic); [done|].
    apply halt_protocols_entry; [done|by left]. }
  assert (forall c1 h1 chain, reach (cx_store c1) h1 -> apply_chain decode_typed c1 chain g protocols = (c', g', res) ->
    match res with
    | Err _ => forall q, allow g' q <> AYes
    | Ok None => g' = g \/ forall q, q_protocol q ∈ protocols -> allow g' q <> AYes
    | Ok (Some _) => g' = g
    end) as Hchain.
  { intros c1 h1 chain Hr1 E. destruct (apply_chain_spec _ _ _ _ _ _ _ _ _ Hr1 E) as (_ & _ & Hx).
    destruct res as [[f|]|e]; [by destruct Hx as (_ & -> & _)| |].
    - destruct Hx as [(_ & -> & _)|[-> _]]; [by left|by right].
    - destruct Hx as [-> _]. intros q. apply reorg_halt_denies. }
  destruct n as [new|first last|first last new]; cbn [handle_notification]; [by apply (Hchain c h)|..].
  all: destruct (revert_blocks_spec (cx_store c) h first last g Hr) as [(s' & d & -> & _ & _ & _ & h1 & Hr1)|[e ->]].
  - intros [= <- <- <-]. by left.
  - intros [= <- <- <-]. intros q. apply reorg_halt_denies.
  - by apply (Hchain (with_store c s') h1).
  - intros [= <- <- <-]. intros q. apply reorg_halt_denies.
Qed.

(** ** A concrete session for the witnesses *)

(** An adapter that interns the log's emitter in market 2, adds one to its supply, and
    panics on an empty payload. *)
Definition wit_handler : LogHandler := mkHandler [mkFilter 7 99] (fun log =>
  PIntern (mkKey 1 2 (dl_address log)) (fun r =>
    match r with
    | Err e => PRet (Err e)
    | Ok p => PSupply p 0 (fun r =>
        match r with
        | Err e => PRet (Err e)
        | Ok v => PSetSupply p 0 (saturating_add 128 v 1) (fun _ =>
            match dl_data log with [] => PPanic | _ => PRet (Ok (DPositions [p])) end)
        end)
    end)).

Definition wit_decode : unit -> list Z -> list Z -> Result IngestError unit := fun _ _ _ => Ok tt.
Definition wit_router : LogRouter := mkRouter (EventKind := unit) ∅ {[ (7, 99) := [0%nat] ]} {[7]} 0.
Definition wit_ctx : ApplyCtx := mkCtx wit_s2 wit_router [wit_handler] dirty_new.



Lemma ingest_failure_denies_witness :
  exists c' g', handle_notification wit_decode wit_ctx (Reverted 0 (mkNumHash 0 0)) gate_new [1]
      = (c', g', Err (ICannotUnwindGenesis (tip wit_s2) (floor wit_s2))) /\ forall q, allow g' q <> AYes.
Proof.
  assert (handle_notification wit_decode wit_ctx (Reverted 0 (mkNumHash 0 0)) gate_new [1]
    = (wit_ctx, halt_reorg_too_deep gate_new, Err (ICannotUnwindGenesis (tip wit_s2) (floor wit_s2)))) as E by reflexivity.
  exists wit_ctx, (halt_reorg_too_deep gate_new). split; [exact E|].
  apply (ingest_failure_denies wit_decode wit_ctx _ _ _ _ [1] [wit_s2; wit_s0] _ wit_reach2 E).
Defined.
