(* ===== verification/Candidate.v ===== *)
(** Candidates and the bounded queue between the engine and the router:
    [crates/liq-engine/src/candidate.rs], with [Health] of
    [crates/liq-protocol/src/health.rs].

    The queue stores candidates in a fixed slab addressed by the keys of a [BinaryHeap];
    the heap is a bag with its least rank at [peek]. [std::time::Instant] is a [Z].
    [Drain] is lazy and discards on drop what was not taken, so the list here is the full
    iteration, of which a consumer sees a prefix. keccak256 is a parameter. *)

From S2P Require Import Prelude Fixed Mask Types Halt Flash Bonus.
From stdpp Require Import sorting.
Local Open Scope Z_scope.

Inductive BlockReason := BPaused | BFrozen | BGracePeriod | BDust | BUnread.

Inductive HealthState :=
| HHealthy
| HBlocked (reason : BlockReason)
| HLiquidatable
| HAuctionOpen (started : Timestamp)
| HBadDebt (deficit : Z)
| HSoftLiquidating.

Record Health := mkHealth {
  h_hf : Z;
  h_debt_value : Z;
  h_collateral_value : Z;
  h_price_sensitivity : AssetMask;
  h_state : HealthState
}.

Definition NO_DEBT_HF : Z := umax 256.

Inductive TriggerCause :=
| CSvrAuction (hint : Z) (deadline : Z) (forwarder : Address) (call_data : list Z) (caller : option Address)
| COraclePublic (tx : Z)
| COraclePullHeld (payload : list Z)
| CPoolStateChange (pool : Address)
| CUserAction (tx : option Z)
| CDerivedRate (source : AssetId)
| CParamChange (market : MarketId)
| CInterestDrift
| CStale (liquidatable_since : BlockNum)
| COraclePredicted (conf : Z).

Definition kind (c : TriggerCause) : TriggerKind :=
  match c with
  | CSvrAuction _ _ _ _ _ => SvrAuction
  | COraclePublic _ => OraclePublic
  | COraclePullHeld _ => OraclePullHeld
  | CPoolStateChange _ => PoolStateChange
  | CUserAction _ => UserAction
  | CDerivedRate _ => DerivedRate
  | CParamChange _ => ParamChange
  | CInterestDrift => InterestDrift
  | CStale _ => Stale
  | COraclePredicted _ => OraclePredicted
  end.

Definition cause_fireable (c : TriggerCause) : bool :=
  match c with COraclePredicted _ => false | _ => true end.

Record Candidate := mkCandidate {
  ca_position : PositionId;
  ca_protocol : ProtocolId;
  ca_health : Health;
  ca_quote : Quote;
  ca_legs : LegChoice;
  ca_funding : FlashRoute;
  ca_cause : TriggerCause;
  ca_est_value : Z;
  ca_deadline : option Z;
  ca_trace : Z
}.

Definition fireable (c : Candidate) : bool := cause_fireable (ca_cause c).

Record Rank := mkRank { rk_fireable : bool; rk_value : Z; rk_age : Z; rk_slot : nat }.

#[export] Instance Rank_eq_dec : EqDecision Rank.
Proof. solve_decision. Defined.

(** The derived order: [false < true], then value, then [Reverse] age, then slot. *)
Definition rank_leb (x y : Rank) : bool :=
  (negb (rk_fireable x) && rk_fireable y) ||
  (Bool.eqb (rk_fireable x) (rk_fireable y) &&
    ((rk_value x <? rk_value y) ||
     ((rk_value x =? rk_value y) &&
       ((rk_age y <? rk_age x) ||
        ((rk_age x =? rk_age y) && (rk_slot x <=? rk_slot y)%nat))))).

Record JobKey := mkJob { jk_position : PositionId; jk_follows : option Z; jk_predicted : bool }.

#[export] Instance JobKey_eq_dec : EqDecision JobKey.
Proof. solve_decision. Defined.
#[export] Instance JobKey_countable : Countable JobKey.
Proof.
  refine (inj_countable' (fun k => (jk_position k, jk_follows k, jk_predicted k))
            (fun '(p, f, b) => mkJob p f b) _).
  by intros [].
Defined.

(** [BinaryHeap<Reverse<Rank>>]: [peek] and [pop]. *)
Fixpoint rank_peek (l : list Rank) : option Rank :=
  match l with
  | [] => None
  | x :: l' => match rank_peek l' with
               | None => Some x
               | Some y => Some (if rank_leb x y then x else y)
               end
  end.

Fixpoint rank_remove (x : Rank) (l : list Rank) : list Rank :=
  match l with
  | [] => []
  | y :: l' => if decide (x = y) then l' else y :: rank_remove x l'
  end.

Definition rank_pop (l : list Rank) : list Rank :=
  match rank_peek l with Some x => rank_remove x l | None => l end.

Record CandidateQueue := mkQueue {
  cq_slots : list (option Candidate);
  cq_free : list nat;
  cq_heap : list Rank;
  cq_seq : Z;
  cq_dropped : Z;
  cq_admitted : Z;
  cq_superseded : Z;
  cq_newest : gmap JobKey Z
}.

Definition queue_new (capacity : nat) : CandidateQueue :=
  let capacity := Nat.max capacity 1 in
  mkQueue (replicate capacity None) (rev (seq 0 capacity)) [] 0 0 0 0 ∅.

Definition queue_len (q : CandidateQueue) : nat := length (cq_heap q).

(** The tail of [push], once a slot is free. *)
Definition push_free (q : CandidateQueue) (probe : Rank) (c : Candidate) : CandidateQueue * bool :=
  match vec_pop (cq_free q) with
  | (_, None) => (q, false)
  | (free, Some slot) =>
      (mkQueue (<[slot := Some c]> (cq_slots q)) free
         (mkRank (rk_fireable probe) (rk_value probe) (rk_age probe) slot :: cq_heap q)
         (cq_seq q) (cq_dropped q) (saturating_add 64 (cq_admitted q) 1) (cq_superseded q) (cq_newest q), true)
  end.

Definition queue_push (q : CandidateQueue) (c : Candidate) : CandidateQueue * bool :=
  let probe := mkRank (fireable c) (ca_est_value c) (cq_seq q) 0 in
  let q := mkQueue (cq_slots q) (cq_free q) (cq_heap q) (wrapping_add 64 (cq_seq q) 1) (cq_dropped q)
             (cq_admitted q) (cq_superseded q) (cq_newest q) in
  match cq_free q with
  | [] =>
      match rank_peek (cq_heap q) with
      | None => (q, false)
      | Some lowest =>
          let dropped := saturating_add 64 (cq_dropped q) 1 in
          if rank_leb probe (mkRank (rk_fireable lowest) (rk_value lowest) (rk_age lowest) 0) then
            (mkQueue (cq_slots q) (cq_free q) (cq_heap q) (cq_seq q) dropped (cq_admitted q)
               (cq_superseded q) (cq_newest q), false)
          else
            push_free (mkQueue (<[rk_slot lowest := None]> (cq_slots q)) (cq_free q ++ [rk_slot lowest])
               (rank_pop (cq_heap q)) (cq_seq q) dropped (cq_admitted q) (cq_superseded q) (cq_newest q)) probe c
      end
  | _ => push_free q probe c
  end.

Section Drain.
Context (keccak256 : list Z -> Z).

Definition job_key (c : Candidate) : JobKey :=
  let '(follows, predicted) :=
    match ca_cause c with
    | CSvrAuction hint _ _ _ _ => (Some hint, false)
    | COraclePublic tx => (Some tx, false)
    | COraclePullHeld payload => (Some (keccak256 payload), false)
    | COraclePredicted _ => (None, true)
    | _ => (None, false)
    end in
  mkJob (ca_position c) follows predicted.

(** The loop of [drain] that finds the newest sequence number of each job. *)
Definition note_newest (slots : list (option Candidate)) (newest : gmap JobKey Z) (r : Rank) : gmap JobKey Z :=
  match slots !! rk_slot r with
  | Some (Some c) =>
      let e := default (rk_age r) (newest !! job_key c) in
      <[job_key c := if e <? rk_age r then rk_age r else e]> newest
  | _ => newest
  end.

(** [Drain::next] until it is exhausted. *)
Fixpoint drain_all (sorted : list Rank) (q : CandidateQueue) : CandidateQueue * list Candidate :=
  match sorted with
  | [] => (q, [])
  | r :: sorted =>
      let q := mkQueue (cq_slots q) (cq_free q ++ [rk_slot r]) (cq_heap q) (cq_seq q) (cq_dropped q)
                 (cq_admitted q) (cq_superseded q) (cq_newest q) in
      match cq_slots q !! rk_slot r with
      | Some (Some c) =>
          let slots := <[rk_slot r := None]> (cq_slots q) in
          if decide (cq_newest q !! job_key c = Some (rk_age r)) then
            let '(q, out) := drain_all sorted (mkQueue slots (cq_free q) (cq_heap q) (cq_seq q) (cq_dropped q)
                               (cq_admitted q) (cq_superseded q) (cq_newest q)) in
            (q, c :: out)
          else
            drain_all sorted (mkQueue slots (cq_free q) (cq_heap q) (cq_seq q) (cq_dropped q)
              (cq_admitted q) (saturating_add 64 (cq_superseded q) 1) (cq_newest q))
      | _ => drain_all sorted q
      end
  end.

(** [CandidateQueue::drain], iterated to its end and dropped. *)
Definition queue_drain (q : CandidateQueue) : CandidateQueue * list Candidate :=
  let sorted := sort_by (fun x y => rank_leb y x) (cq_heap q) in
  let newest := fold_left (note_newest (cq_slots q)) sorted ∅ in
  drain_all sorted (mkQueue (cq_slots q) (cq_free q) [] (cq_seq q) (cq_dropped q) (cq_admitted q)
    (cq_superseded q) newest).

(** ** The specification: rank everything, keep the best, one per job *)

Inductive QOp := QPush (c : Candidate) | QDrain.

Fixpoint queue_run (q : CandidateQueue) (ops : list QOp) : list (list Candidate) :=
  match ops with
  | [] => []
  | QPush c :: ops => queue_run (fst (queue_push q c)) ops
  | QDrain :: ops => let '(q, out) := queue_drain q in out :: queue_run q ops
  end.

(** A pushed candidate with its sequence number. *)
Record Queued := mkQueued { qd_age : Z; qd_cand : Candidate }.

Definition rank_of (x : Queued) (slot : nat) : Rank :=
  mkRank (fireable (qd_cand x)) (ca_est_value (qd_cand x)) (qd_age x) slot.

(** [x] ranks at or above [y]. *)
Definition outranks (x y : Queued) : bool := rank_leb (rank_of y 0) (rank_of x 0).

Definition newest_only (l : list Queued) : list Candidate :=
  qd_cand <$> List.filter (fun x => forallb (fun y =>
    negb (bool_decide (job_key (qd_cand y) = job_key (qd_cand x))) || (qd_age y <=? qd_age x)) l) l.

(** What the drains of a run return when nothing is ever evicted before it is ranked:
    [pending] is every push since the last drain. *)
Fixpoint spec_run (capacity : nat) (seq : Z) (pending : list Queued) (ops : list QOp) : list (list Candidate) :=
  match ops with
  | [] => []
  | QPush c :: ops => spec_run capacity (seq + 1) (mkQueued seq c :: pending) ops
  | QDrain :: ops => newest_only (take capacity (sort_by outranks pending)) :: spec_run capacity seq [] ops
  end.
End Drain.

(** ** The order *)

Lemma rank_leb_spec x y :
  rank_leb x y = true <->
  (rk_fireable x = false /\ rk_fireable y = true) \/
  (rk_fireable x = rk_fireable y /\
    (rk_value x < rk_value y \/ (rk_value x = rk_value y /\
      (rk_age y < rk_age x \/ (rk_age x = rk_age y /\ (rk_slot x <= rk_slot y)%nat))))).
Proof.
  unfold rank_leb.
  rewrite !orb_true_iff, !andb_true_iff, !orb_true_iff, !andb_true_iff, !orb_true_iff, !andb_true_iff,
    negb_true_iff, Bool.eqb_true_iff, !Z.ltb_lt, !Z.eqb_eq, Nat.leb_le.
  tauto.
Qed.

Lemma rank_total x y : rank_leb x y = true \/ rank_leb y x = true.
Proof. rewrite !rank_leb_spec. destruct (rk_fireable x), (rk_fireable y); lia. Qed.

Lemma rank_trans x y z : rank_leb x y = true -> rank_leb y z = true -> rank_leb x z = true.
Proof.
  rewrite !rank_leb_spec. destruct (rk_fireable x), (rk_fireable y), (rk_fireable z); intuition (try discriminate; lia).
Qed.

Lemma rank_antisym x y : rank_leb x y = true -> rank_leb y x = true -> x = y.
Proof.
  rewrite !rank_leb_spec. destruct x as [f v a s], y as [f' v' a' s']; cbn. intros H1 H2.
  assert (f = f' /\ v = v' /\ a = a' /\ s = s') as (-> & -> & -> & ->); [|done].
  destruct f, f'; intuition (try discriminate; lia).
Qed.

Lemma rank_slots x y s t :
  qd_age x <> qd_age y -> rank_leb (rank_of x s) (rank_of y t) = rank_leb (rank_of x 0) (rank_of y 0).
Proof.
  intros H. apply eq_bool_prop_intro. rewrite !Is_true_true, !rank_leb_spec. cbn. intuition lia.
Qed.

Lemma outranks_total x y : outranks x y = true \/ outranks y x = true.
Proof. apply rank_total. Qed.
Lemma outranks_trans x y z : outranks x y = true -> outranks y z = true -> outranks x z = true.
Proof. intros H1 H2. by eapply rank_trans. Qed.
Lemma outranks_age x y : outranks x y = true -> outranks y x = true -> qd_age x = qd_age y.
Proof. intros H1 H2. by injection (rank_antisym _ _ H1 H2). Qed.

Lemma rank_peek_least l r : rank_peek l = Some r -> r ∈ l /\ forall x, x ∈ l -> rank_leb r x = true.
Proof.
  revert r. induction l as [|y l IH]; cbn; [done|]. intros r.
  destruct (rank_peek l) as [z|] eqn:E.
  - destruct (IH z eq_refl) as [Hz Hl]. intros [= <-].
    destruct (rank_leb y z) eqn:Eyz; (split; [set_solver|]); intros x [->|Hx]%elem_of_cons.
    + by destruct (rank_total y y).
    + eapply rank_trans; [done|by apply Hl].
    + destruct (rank_total y z); [congruence|done].
    + by apply Hl.
  - intros [= ->]. split; [left|]. destruct l as [|a l]; [|cbn in E; by destruct (rank_peek l)].
    intros x ->%list_elem_of_singleton. by destruct (rank_total r r).
Qed.

Lemma rank_peek_Some l : l <> [] -> is_Some (rank_peek l).
Proof. destruct l; [done|]. intros _. cbn. destruct (rank_peek l); by eexists. Qed.

Lemma rank_remove_perm x l : x ∈ l -> x :: rank_remove x l ≡ₚ l.
Proof.
  induction l as [|y l IH]; [by intros ?%not_elem_of_nil|]. cbn. intros H. case_decide as E; [by subst|].
  rewrite perm_swap. f_equiv. apply IH. set_solver.
Qed.

(** ** Sorted lists and the best of them *)

Abbreviation ranked := (StronglySorted (fun x y => outranks x y = true)).

Lemma take_insert k x l :
  take k (insert_by outranks x (take k l)) = take k (insert_by outranks x l).
Proof.
  revert k. induction l as [|y l IH]; intros [|k]; try done. cbn [take insert_by].
  destruct (outranks x y) eqn:E; cbn [take insert_by].
  - f_equal. destruct k; [done|]. cbn [take]. by rewrite take_take, Nat.min_l by lia.
  - by rewrite IH.
Qed.

Lemma insert_snoc x l y :
  outranks x y = true -> insert_by outranks x (l ++ [y]) = insert_by outranks x l ++ [y].
Proof.
  intros E. induction l as [|z l IH]; cbn; [by rewrite E|]. destruct (outranks x z); [done|]. by rewrite IH.
Qed.

Lemma insert_last x l : (forall y, y ∈ l -> outranks x y = false) -> insert_by outranks x l = l ++ [x].
Proof.
  induction l as [|z l IH]; intros H; cbn; [done|]. rewrite H by left. rewrite IH; [done|].
  intros. apply H. by right.
Qed.

Lemma ranked_snoc l y : ranked (l ++ [y]) -> ranked l /\ forall x, x ∈ l -> outranks x y = true.
Proof.
  induction l as [|z l IH]; cbn; [split; [constructor|by intros ? ?%not_elem_of_nil]|].
  intros [Hs Hf]%StronglySorted_inv. destruct (IH Hs) as [Hl Hy]. apply Forall_app in Hf as [Hf1 Hf2].
  split; [by constructor|]. intros x [->|?]%elem_of_cons; [by inv Hf2|by apply Hy].
Qed.

Lemma age_inj (l : list Queued) x y : NoDup (qd_age <$> l) -> x ∈ l -> y ∈ l -> qd_age x = qd_age y -> x = y.
Proof.
  intros Hn [i Hi]%list_elem_of_lookup_1 [j Hj]%list_elem_of_lookup_1 E.
  assert (i = j) as ->; [|congruence].
  eapply (NoDup_lookup (qd_age <$> l)); [done|rewrite list_lookup_fmap, Hi; cbn; by rewrite E|by rewrite list_lookup_fmap, Hj].
Qed.

(** ** The queue holds a ranked list *)

(** [P] pairs each queued candidate with its slot. *)
Record queue_ok (cap : nat) (q : CandidateQueue) (A : list Queued) (P : list (Queued * nat)) : Prop := {
  qk_ranked : ranked A;
  qk_ages : NoDup (qd_age <$> A);
  qk_seq : forall x, x ∈ A -> qd_age x < cq_seq q;
  qk_perm : P.*1 ≡ₚ A;
  qk_slots : length (cq_slots q) = cap;
  qk_heap : cq_heap q ≡ₚ uncurry rank_of <$> P;
  qk_free : cq_free q ++ P.*2 ≡ₚ seq 0 cap;
  qk_cells : forall x s, (x, s) ∈ P -> cq_slots q !! s = Some (Some (qd_cand x))
}.

Lemma queue_len_ok cap q A P : queue_ok cap q A P -> (length (cq_free q) + length A = cap)%nat.
Proof.
  intros []. apply Permutation_length in qk_free0, qk_perm0. rewrite length_app, length_seq in *.
  rewrite !length_fmap in *. lia.
Qed.

Lemma queue_new_ok cap : queue_ok (Nat.max cap 1) (queue_new cap) [] [].
Proof.
  constructor; cbn; try done; try (by intros ? ?%not_elem_of_nil); try by intros ? ? ?%not_elem_of_nil.
  - constructor.
  - constructor.
  - by rewrite length_replicate.
  - rewrite app_nil_r. symmetry. apply Permutation_rev.
Qed.

Lemma slots_NoDup cap q A P : queue_ok cap q A P -> NoDup (cq_free q ++ P.*2).
Proof. intros []. rewrite qk_free0. apply NoDup_seq. Qed.

(** The newcomer takes a free slot. *)
Lemma push_free_ok cap q A P c age B :
  queue_ok cap q A P -> cq_free q <> [] -> age < cq_seq q -> (forall x, x ∈ A -> qd_age x < age) ->
  ranked B -> B ≡ₚ mkQueued age c :: A ->
  exists P', queue_ok cap (fst (push_free q (mkRank (fireable c) (ca_est_value c) age 0) c)) B P' /\
    cq_seq (fst (push_free q (mkRank (fireable c) (ca_est_value c) age 0) c)) = cq_seq q.
Proof.
  intros Hq Hne Hage Hnew HB HBp. pose proof (slots_NoDup _ _ _ _ Hq) as Hnd.
  destruct (cq_free q) as [|f0 fs _] eqn:Ef using rev_ind; [done|].
  unfold push_free. rewrite Ef, vec_pop_snoc. exists ((mkQueued age c, f0) :: P). split; [|done].
  destruct Hq as [Hr Ha Hs Hp Hl Hh Hf Hc]. rewrite Ef in Hf.
  assert (f0 < length (cq_slots q))%nat as Hlt.
  { assert (f0 ∈ seq 0 cap) as Hin by (rewrite <- Hf; set_solver). apply elem_of_seq in Hin. lia. }
  constructor; cbn [fst cq_slots cq_free cq_heap cq_seq fmap list_fmap]; try done.
  - rewrite HBp. cbn. constructor; [|done]. intros (x & Hx & Hin)%list_elem_of_fmap. specialize (Hnew x Hin). cbn in *. lia.
  - intros x. rewrite HBp, elem_of_cons. intros [->|Hx]; [done|by apply Hs].
  - by rewrite HBp, Hp.
  - by rewrite length_insert.
  - by rewrite Hh.
  - by rewrite <- Hf, <- app_assoc.
  - intros x s [[= -> ->]|Hin]%elem_of_cons; [by apply list_lookup_insert_eq|].
    rewrite list_lookup_insert_ne; [by apply Hc|]. intros ->. rewrite NoDup_app in Hnd.
    destruct Hnd as (_ & Hd & _). apply (Hd s); [set_solver|]. apply list_elem_of_fmap. by exists (x, s).
Qed.

(** The lowest rank of the heap belongs to the last of the ranked list. *)
Lemma lowest_is_last cap q A0 y P r :
  queue_ok cap q (A0 ++ [y]) P -> rank_peek (cq_heap q) = Some r ->
  exists s, r = rank_of y s /\ (y, s) ∈ P.
Proof.
  intros [Hr Ha Hs Hp Hl Hh Hf Hc] [Hin Hleast]%rank_peek_least.
  rewrite Hh in Hin. apply list_elem_of_fmap in Hin as ([x s] & -> & Hx). cbn [uncurry] in *.
  assert (x ∈ A0 ++ [y]) as HxA by (rewrite <- Hp; apply list_elem_of_fmap; by exists (x, s)).
  assert (x = y) as ->; [|by exists s].
  assert (y ∈ A0 ++ [y]) as HyA by set_solver.
  assert (exists t, (y, t) ∈ P) as [t Ht].
  { rewrite <- Hp in HyA. apply list_elem_of_fmap in HyA as ([? t] & -> & Ht). by exists t. }
  destruct (decide (qd_age x = qd_age y)) as [E|E]; [by eapply age_inj|].
  specialize (Hleast (rank_of y t)). rewrite Hh, rank_slots in Hleast by done.
  destruct (ranked_snoc _ _ Hr) as [_ Hy].
  assert (outranks y x = true) as Hyx.
  { apply Hleast. apply list_elem_of_fmap. by exists (y, t). }
  apply elem_of_app in HxA as [HxA|HxA%list_elem_of_singleton]; [|done].
  destruct E. by apply outranks_age; [apply Hy|].
Qed.

Lemma evict_ok cap q A0 y P s :
  queue_ok cap q (A0 ++ [y]) P -> rank_peek (cq_heap q) = Some (rank_of y s) -> (y, s) ∈ P ->
  exists P0, queue_ok cap (mkQueue (<[s := None]> (cq_slots q)) (cq_free q ++ [s]) (rank_pop (cq_heap q))
    (cq_seq q) (saturating_add 64 (cq_dropped q) 1) (cq_admitted q) (cq_superseded q) (cq_newest q)) A0 P0.
Proof.
  intros Hq Hpk Hin. pose proof (slots_NoDup _ _ _ _ Hq) as Hnd. destruct Hq as [Hr Ha Hs Hp Hl Hh Hf Hc].
  apply elem_of_Permutation in Hin as [P0 HP]. exists P0.
  assert (A0 ≡ₚ P0.*1) as HA. { apply (Permutation_cons_inv (a := y)). transitivity (A0 ++ [y]); [apply Permutation_cons_append|]. by rewrite <- Hp, HP. }
  constructor; cbn [cq_slots cq_free cq_heap cq_seq].
  - by apply ranked_snoc in Hr as [? _].
  - rewrite fmap_app in Ha. by apply NoDup_app in Ha as (? & _).
  - intros x Hx. apply Hs. set_solver.
  - done.
  - by rewrite length_insert.
  - unfold rank_pop. rewrite Hpk. apply (Permutation_cons_inv (a := rank_of y s)).
    rewrite rank_remove_perm by (by apply rank_peek_least in Hpk as [? _]). by rewrite Hh, HP.
  - rewrite <- Hf, HP. cbn. by rewrite <- app_assoc.
  - intros x t Hx. rewrite list_lookup_insert_ne; [apply Hc; rewrite HP; by right|]. intros <-.
    rewrite HP in Hnd. cbn in Hnd. apply NoDup_app in Hnd as (_ & _ & Hnd).
    apply NoDup_cons in Hnd as [Hn _]. apply Hn, list_elem_of_fmap. by exists (x, s).
Qed.

Lemma queue_push_ok cap q A P c :
  (0 < cap)%nat -> queue_ok cap q A P -> 0 <= cq_seq q < umax 64 ->
  exists P', queue_ok cap (fst (queue_push q c)) (take cap (insert_by outranks (mkQueued (cq_seq q) c) A)) P' /\
    cq_seq (fst (queue_push q c)) = cq_seq q + 1.
Proof.
  intros Hcap Hq Hseq. pose proof (queue_len_ok _ _ _ _ Hq) as Hlen. set (x := mkQueued (cq_seq q) c).
  assert (wrapping_add 64 (cq_seq q) 1 = cq_seq q + 1) as Hw.
  { unfold wrapping_add, umax in *. apply Z.mod_small. lia. }
  unfold queue_push. cbn [cq_slots cq_free cq_heap cq_seq cq_dropped cq_admitted cq_superseded cq_newest]. rewrite Hw.
  set (q1 := mkQueue (cq_slots q) (cq_free q) (cq_heap q) (cq_seq q + 1) (cq_dropped q) (cq_admitted q)
    (cq_superseded q) (cq_newest q)).
  assert (queue_ok cap q1 A P) as Hq1.
  { destruct Hq. constructor; try done. intros y Hy. cbn. specialize (qk_seq0 y Hy). lia. }
  pose proof (qk_ranked _ _ _ _ Hq) as Hr. pose proof (qk_seq _ _ _ _ Hq) as Hold.
  assert (ranked (insert_by outranks x A)) as Hins.
  { apply insert_by_sorted; [apply outranks_total|apply outranks_trans|done]. }
  destruct (cq_free q) as [|f0 fs] eqn:Ef; cbn [length] in Hlen.
  2: { rewrite take_ge by (rewrite (Permutation_length (insert_by_perm outranks x A)); cbn; lia).
       apply (push_free_ok cap q1 A P c (cq_seq q)); cbn; [done|done|lia|done|done|apply insert_by_perm]. }
  destruct A as [|y A0 _] using rev_ind; [cbn in Hlen; lia|].
  destruct (rank_peek_Some (cq_heap q)) as [r Hpk].
  { intros E. pose proof (qk_heap _ _ _ _ Hq) as Hh. pose proof (qk_perm _ _ _ _ Hq) as Hp.
    apply Permutation_length in Hh, Hp. rewrite E, length_fmap in Hh. rewrite length_fmap in Hp. cbn [length] in Hh. lia. }
  rewrite Hpk. destruct (lowest_is_last _ _ _ _ _ _ Hq Hpk) as (s & -> & Hin).
  change (mkRank (rk_fireable (rank_of y s)) (rk_value (rank_of y s)) (rk_age (rank_of y s)) 0) with (rank_of y 0).
  change (mkRank (fireable c) (ca_est_value c) (cq_seq q) 0) with (rank_of x 0). fold (outranks y x).
  assert (qd_age y < cq_seq q) as Hy by (apply Hold; set_solver).
  destruct (ranked_snoc _ _ Hr) as [HrA HyA]. destruct (outranks y x) eqn:Eyx.
  - exists P. cbn [fst cq_seq]. split; [|done]. rewrite insert_last.
    2: { intros z Hz. destruct (outranks x z) eqn:E; [|done]. assert (outranks z x = true) as Ez.
         { apply elem_of_app in Hz as [Hz|Hz%list_elem_of_singleton]; [|by subst]. eapply outranks_trans; [by apply HyA|done]. }
         pose proof (outranks_age _ _ E Ez) as Eage. cbn in Eage. specialize (Hold z Hz). lia. }
    rewrite take_app_le, take_ge by (rewrite length_app in *; lia). by destruct Hq1; constructor.
  - assert (outranks x y = true) as Exy by (destruct (outranks_total x y); congruence).
    rewrite insert_snoc by done. rewrite take_app_length'.
    2: { rewrite (Permutation_length (insert_by_perm outranks x A0)). rewrite length_app in Hlen. cbn in *. lia. }
    destruct (evict_ok cap q1 A0 y P s Hq1 Hpk Hin) as [P0 Hq2].
    eapply (push_free_ok cap _ A0 P0 c (cq_seq q)) in Hq2; cbn; [exact Hq2|done|lia| | |apply insert_by_perm].
    + intros z Hz. apply Hold. set_solver.
    + apply insert_by_sorted; [apply outranks_total|apply outranks_trans|done].
Qed.

(** ** Draining *)

Section DrainProofs.
Context (keccak256 : list Z -> Z).

(** The heap comes out in the order of the ranked list. *)
Lemma drain_sorted cap q A P :
  queue_ok cap q A P ->
  exists P2, P2 ≡ₚ P /\ P2.*1 = A /\ sort_by (fun x y => rank_leb y x) (cq_heap q) = uncurry rank_of <$> P2.
Proof.
  intros [Hr Ha Hs Hp Hl Hh Hf Hc]. symmetry in Hp. apply Permutation_map_inv in Hp as (P2 & -> & HP).
  exists P2. split; [by rewrite HP|]. split; [done|].
  apply (StronglySorted_unique_strong (fun x y => rank_leb y x = true)).
  - intros x y _ _ H1 H2. by apply rank_antisym.
  - apply sort_by_sorted; [intros; apply rank_total|]. intros x y z H1 H2. by eapply rank_trans.
  - clear -Hr Ha. induction P2 as [|[x s] P2 IH]; cbn in *; [constructor|].
    apply StronglySorted_inv in Hr as [Hr Hx]. apply NoDup_cons in Ha as [Hn Ha]. constructor; [by apply IH|].
    apply Forall_forall. intros r ([y t] & -> & Hy)%list_elem_of_fmap. cbn.
    assert (y ∈ map fst P2) as HyA by (apply list_elem_of_fmap; by exists (y, t)).
    rewrite rank_slots; [by apply (proj1 (Forall_forall _ _) Hx)|]. intros E. destruct Hn.
    apply list_elem_of_fmap. by exists y.
  - rewrite sort_by_perm, Hh. by rewrite HP.
Qed.

(** The newest sequence number of each job among the first entries. *)
Lemma note_newest_spec slots P m k :
  (forall x s, (x, s) ∈ P -> slots !! s = Some (Some (qd_cand x))) ->
  let out := fold_left (note_newest keccak256 slots) (uncurry rank_of <$> P) m in
  (forall a, out !! k = Some a ->
     (m !! k = Some a \/ exists x, x ∈ P.*1 /\ job_key keccak256 (qd_cand x) = k /\ qd_age x = a) /\
     (forall a', m !! k = Some a' -> a' <= a) /\
     forall x, x ∈ P.*1 -> job_key keccak256 (qd_cand x) = k -> qd_age x <= a) /\
  (out !! k = None -> m !! k = None /\ forall x, x ∈ P.*1 -> job_key keccak256 (qd_cand x) <> k).
Proof.
  cbv zeta. revert m. induction P as [|[x s] P IH]; intros m Hc; cbn [fmap list_fmap fold_left uncurry].
  { split; [intros a ->|intros ->]; (split; [auto|]); [split; [naive_solver|]|]; by intros ? ?%not_elem_of_nil. }
  unfold note_newest at 2 4. cbn [rk_slot rk_age rank_of]. rewrite (Hc x s) by left.
  set (e := default (qd_age x) (m !! job_key keccak256 (qd_cand x))).
  set (m' := <[job_key keccak256 (qd_cand x) := if e <? qd_age x then qd_age x else e]> m).
  destruct (IH m') as [H1 H2]; [intros y t Hy; apply Hc; by right|]. setoid_rewrite elem_of_cons. split.
  - intros a Ha. destruct (H1 a Ha) as (Hor & Hb & Hall). unfold m' in Hor, Hb.
    destruct (decide (job_key keccak256 (qd_cand x) = k)) as [<-|Hk].
    + rewrite lookup_insert_eq in Hor, Hb. specialize (Hb _ eq_refl). unfold e in *.
      destruct (m !! job_key keccak256 (qd_cand x)) as [a0|] eqn:Em; cbn [default from_option id] in *.
      * destruct (a0 <? qd_age x) eqn:El; zbool; (split; [|split; [intros ? [= <-]; lia|intros y [->|Hy] Hj; cbn [fst]; [lia|by apply Hall]]]).
        -- destruct Hor as [[= <-]|(y & Hy & Hj & He)]; right; [exists x|exists y]; auto.
        -- destruct Hor as [[= <-]|(y & Hy & Hj & He)]; [by left|right; exists y; auto].
      * rewrite Z.ltb_irrefl in Hor, Hb. split; [|split; [done|intros y [->|Hy] Hj; cbn [fst]; [lia|by apply Hall]]].
        destruct Hor as [[= <-]|(y & Hy & Hj & He)]; right; [exists x|exists y]; auto.
    + rewrite lookup_insert_ne in Hor, Hb by done. split; [naive_solver|]. split; [done|]. naive_solver.
  - intros Hn. destruct (H2 Hn) as [Hm Hno]. unfold m' in Hm.
    destruct (decide (job_key keccak256 (qd_cand x) = k)) as [<-|Hk]; [by rewrite lookup_insert_eq in Hm|].
    rewrite lookup_insert_ne in Hm by done. split; [done|]. naive_solver.
Qed.

(** What [Drain] yields, given the newest number of each job. *)
Lemma drain_all_spec P q :
  (forall x s, (x, s) ∈ P -> cq_slots q !! s = Some (Some (qd_cand x))) -> NoDup P.*2 ->
  let r := drain_all keccak256 (uncurry rank_of <$> P) q in
  snd r = qd_cand <$> List.filter (fun x =>
    bool_decide (cq_newest q !! job_key keccak256 (qd_cand x) = Some (qd_age x))) P.*1 /\
  cq_heap (fst r) = cq_heap q /\ cq_free (fst r) = cq_free q ++ P.*2 /\
  length (cq_slots (fst r)) = length (cq_slots q) /\ cq_seq (fst r) = cq_seq q.
Proof.
  cbv zeta. revert q. induction P as [|[x s] P IH]; intros q Hc Hn; cbn [fmap list_fmap drain_all uncurry].
  { cbn. by rewrite app_nil_r. }
  cbn [fst snd] in *. apply NoDup_cons in Hn as [Hs Hn].
  cbn [cq_slots cq_free cq_heap cq_seq cq_dropped cq_admitted cq_superseded cq_newest rk_slot rk_age rank_of].
  rewrite (Hc x s) by left. cbn [List.filter].
  assert (forall y t, (y, t) ∈ P -> <[s := None]> (cq_slots q) !! t = Some (Some (qd_cand y))) as Hc'.
  { intros y t Hy. rewrite list_lookup_insert_ne; [apply Hc; by right|]. intros <-. destruct Hs.
    apply list_elem_of_fmap. by exists (y, s). }
  case_decide as E.
  - rewrite bool_decide_eq_true_2 by done.
    set (q' := mkQueue _ _ _ _ _ _ _ _). destruct (IH q') as (Ho & Hh & Hf & Hl & Hsq); [done|done|].
    destruct (drain_all _ _ q') as [q2 out]. cbn [fst snd fmap list_fmap] in *. rewrite Ho, Hf, Hl. cbn.
    rewrite length_insert, <- app_assoc. done.
  - rewrite bool_decide_eq_false_2 by done.
    set (q' := mkQueue _ _ _ _ _ _ _ _). destruct (IH q') as (Ho & Hh & Hf & Hl & Hsq); [done|done|].
    rewrite Ho, Hh, Hf, Hl, Hsq. cbn. rewrite length_insert, <- app_assoc. done.
Qed.

Lemma queue_drain_ok cap q A P :
  queue_ok cap q A P ->
  snd (queue_drain keccak256 q) = newest_only keccak256 A /\
  queue_ok cap (fst (queue_drain keccak256 q)) [] [] /\ cq_seq (fst (queue_drain keccak256 q)) = cq_seq q.
Proof.
  intros Hq. destruct (drain_sorted _ _ _ _ Hq) as (P2 & HP & HA & Hsort).
  pose proof (slots_NoDup _ _ _ _ Hq) as Hnd. destruct Hq as [Hr Ha Hs Hp Hl Hh Hf Hc].
  unfold queue_drain. rewrite Hsort.
  set (newest := fold_left _ _ ∅). set (q1 := mkQueue _ _ _ _ _ _ _ newest).
  assert (forall x s, (x, s) ∈ P2 -> cq_slots q !! s = Some (Some (qd_cand x))) as Hc2.
  { intros x s Hx. apply Hc. by rewrite <- HP. }
  assert (NoDup P2.*2) as Hn2 by (rewrite HP; by apply NoDup_app in Hnd as (_ & _ & ?)).
  destruct (drain_all_spec P2 q1 Hc2 Hn2) as (Ho & Eh & Ef & El & Es). split; [|split; [|done]].
  - rewrite Ho, HA. unfold newest_only. f_equal. apply List.filter_ext_in. intros x Hx%list_elem_of_In.
    cbn [cq_newest q1]. apply eq_bool_prop_intro. rewrite !Is_true_true, bool_decide_eq_true, forallb_forall.
    destruct (note_newest_spec (cq_slots q) P2 ∅ (job_key keccak256 (qd_cand x)) Hc2) as [H1 H2]. fold newest in H1, H2.
    rewrite HA in H1, H2. destruct (newest !! job_key keccak256 (qd_cand x)) as [a|] eqn:E.
    + destruct (H1 a eq_refl) as (Hor & _ & Hall). split.
      * intros [= ->] y Hy%list_elem_of_In. rewrite orb_true_iff, negb_true_iff, bool_decide_eq_false, Z.leb_le.
        destruct (decide (job_key keccak256 (qd_cand y) = job_key keccak256 (qd_cand x))); [right; by apply Hall|by left].
      * intros Hmax. f_equal. apply Z.le_antisymm; [|by apply Hall].
        destruct Hor as [Hm|(y & Hy & Hj & <-)]; [by rewrite lookup_empty in Hm|].
        specialize (Hmax y (proj1 (list_elem_of_In _ _) Hy)).
        rewrite orb_true_iff, negb_true_iff, bool_decide_eq_false, Z.leb_le in Hmax. tauto.
    + destruct (H2 eq_refl) as [_ Hno]. by destruct (Hno x Hx).
  - constructor; try done; try (by intros ? ?%not_elem_of_nil); try by intros ? ? ?%not_elem_of_nil.
    + constructor.
    + constructor.
    + by rewrite El.
    + by rewrite Eh.
    + rewrite Ef. cbn [cq_free q1 fmap list_fmap]. rewrite app_nil_r, HP. exact Hf.
Qed.

(** C29. The bounded queue loses nothing that matters: over any run of pushes and drains, each
    drain returns exactly what ranking every candidate pushed since the last drain (fireable
    before pre-warm, then value, then older first), keeping the best [capacity] and then the
    newest of each job would return, in rank order. *)
Theorem queue_keeps_best (capacity : nat) (ops : list QOp) :
  Z.of_nat (length ops) < umax 64 ->
  queue_run keccak256 (queue_new capacity) ops = spec_run keccak256 (Nat.max capacity 1) 0 [] ops.
Proof.
  intros Hlen. set (cap := Nat.max capacity 1).
  enough (forall q P pending, queue_ok cap q (take cap (sort_by outranks pending)) P ->
    0 <= cq_seq q -> cq_seq q + Z.of_nat (length ops) < umax 64 ->
    queue_run keccak256 q ops = spec_run keccak256 cap (cq_seq q) pending ops) as Hx.
  { apply (Hx (queue_new capacity) []); [|done|cbn; lia]. cbn [sort_by foldr take]. rewrite take_nil. apply queue_new_ok. }
  clear Hlen. induction ops as [|[c|] ops IH]; intros q P pending Hq H0 Hlen; cbn [queue_run spec_run length] in *; [done|..].
  - destruct (queue_push_ok cap q _ P c ltac:(lia) Hq ltac:(lia)) as (P' & Hq' & Es). rewrite take_insert in Hq'.
    rewrite <- Es. eapply IH; [exact Hq'|lia|lia].
  - destruct (queue_drain_ok cap q _ P Hq) as (Ho & Hq' & Es).
    destruct (queue_drain keccak256 q) as [q' out]. cbn [fst snd] in *. rewrite Ho. f_equal.
    rewrite <- Es. eapply IH; [|lia|lia]. cbn [sort_by foldr]. rewrite take_nil. exact Hq'.
Qed.
End DrainProofs.

(** Three candidates into two slots: the pre-warm one is evicted, and of two on the same
    position the newer is drained. *)
Definition wit_candidate (pos : PositionId) (value : Z) (cause : TriggerCause) : Candidate :=
  mkCandidate pos 0 (mkHealth 0 0 0 EMPTY HLiquidatable) (mkQuote pos (mkKey 0 0 0) [] []) PREFERRED
    (mkRoute FAave 0 0 0 0 AaveExecuteOperation) cause value None 0.
Definition wit_ops : list QOp :=
  [QPush (wit_candidate 1 90 (COraclePredicted 9000)); QPush (wit_candidate 2 5 (CStale 7));
   QPush (wit_candidate 2 4 CInterestDrift); QDrain].

Lemma queue_keeps_best_witness :
  Z.of_nat (length wit_ops) < umax 64 /\
  queue_run (fun _ => 0) (queue_new 2) wit_ops = [[wit_candidate 2 4 CInterestDrift]] /\
  queue_run (fun _ => 0) (queue_new 2) wit_ops = spec_run (fun _ => 0) (Nat.max 2 1) 0 [] wit_ops.
Proof.
  split; [vm_compute; reflexivity|]. split; [vm_compute; reflexivity|].
  apply (queue_keeps_best (fun _ => 0) 2 wit_ops). vm_compute. reflexivity.
Defined.
