(* ===== verification/Engine.v ===== *)
(** The health engine: [crates/liq-engine/src/engine.rs], with the price types of
    [crates/liq-types/src/price.rs] and the [Protocol] methods it calls
    ([crates/liq-protocol/src/protocol.rs]).

    The engine drives the components of the other files: bands ([Bands]), the two threshold
    indexes ([Threshold]), the time heap ([Heap]), eligibility ([Eligible]) and the
    candidate queue ([Candidate]). An adapter is a record of the methods the engine calls;
    the view is a store and a time (no pending overlay). The [batch] and [saved] buffers are
    scratch: they are arguments and results here. Hint logs are an opaque payload. Errors
    keep what was already written, as [&mut self] does. *)

From S2P Require Import Prelude Fixed Mask Types Interner Columns Undo Store StoreThms Halt Heap Flash Bonus.
From S2P Require Import Eligible Threshold Bands Dirty Candidate.
Local Open Scope Z_scope.

Definition CORRELATED_ASSETS : Z := 3.
Definition MARGIN_BPS : Z := 300.
Definition BPS_PLUS_MARGIN : Z := 10300.

(** ** Prices *)

Record MevShareHint := mkHint {
  mh_hash : Z;
  mh_to : option Address;
  mh_function_selector : option (list Z);
  mh_call_data : option (list Z);
  mh_logs : option (list (list Z));
  mh_from : option Address
}.

Inductive SourceKind :=
| Canonical
| SvrAnnounced (hint : MevShareHint) (deadline : Z)
| PendingPublic (tx confidence : Z)
| Predicted (eta : option Z) (confidence : Z)
| Derived (deps : list AssetId).

Record Price := mkPrice {
  p_asset : AssetId;
  p_price : Z;
  p_source : SourceKind;
  p_block : Z;
  p_ts : Z
}.

Abbreviation PriceVector := (list Price) (only parsing).

(** ** Adapters and the world *)

Record Protocol := mkProtocol {
  pt_id : ProtocolId;
  pt_health : PositionRef -> PriceVector -> Result ProtocolError Health;
  pt_liquidation_price : PositionRef -> PriceVector -> AssetId -> Result ProtocolError (option Price);
  pt_time_to_cross : PositionRef -> PriceVector -> Result ProtocolError (option Timestamp);
  pt_quote : PositionRef -> PriceVector -> Result ProtocolError (option Quote)
}.

Record ProtocolPriceMove := mkMove {
  mv_protocol : ProtocolId;
  mv_market : MarketId;
  mv_asset : AssetId;
  mv_old : Z;
  mv_new : Z
}.

Record World {R : Type} := mkWorld {
  w_store : StateStore;
  w_timestamp : Timestamp;
  w_protocols : list Protocol;
  w_flash : FlashIndex;
  w_routes : R;
  w_haircut : Haircut;
  w_overlay : option (ProtocolId -> MarketId -> list (AssetId * Z))
}.
Arguments World : clear implicits.
Arguments mkWorld {R}.

Definition world_protocol {R} (w : World R) (id : ProtocolId) : Result EngineError Protocol :=
  let scan := ok_or (List.find (fun p => pt_id p =? id) (w_protocols w)) (UnknownProtocol id) in
  match w_protocols w !! Z.to_nat id with
  | Some p => if pt_id p =? id then Ok p else scan
  | None => scan
  end.

Definition view_position {R} (w : World R) (id : PositionId) : Result EngineError PositionRef :=
  map_err EState (position_ref (w_store w) id (w_timestamp w)).

(** ** Tables *)

Record Stats := mkStats {
  sa_ticks : Z;
  sa_folds : Z;
  sa_shadow_folds : Z;
  sa_correlated_sweeps : Z;
  sa_emitted : Z;
  sa_fold_errors : Z
}.

Inductive Cause := Given (c : TriggerCause) | Landed | Accrual.

Record Unfunded := mkUnfunded { uf_position : PositionId; uf_protocol : ProtocolId; uf_quote : Quote }.

Record Tables {B : Type} := mkTables {
  t_bands : BandManager;
  t_index : ThresholdIndex;
  t_overlay_index : ThresholdIndex;
  t_heap : TimeCrossHeap;
  t_elig : B;
  t_queue : CandidateQueue;
  t_liq_since : list BlockNum;
  t_unfunded : list Unfunded;
  t_trace_seq : Z;
  t_stats : Stats
}.
Arguments Tables : clear implicits.
Arguments mkTables {B}.

Record Engine {B : Type} := mkEngine {
  e_px : PriceVector;
  e_shadow : PriceVector;
  e_overridden : list AssetId;
  e_moved : B;
  e_moved_count : Z;
  e_t : Tables B
}.
Arguments Engine : clear implicits.
Arguments mkEngine {B}.

(** One field replaced. *)
Section Updates.
Context {B : Type}.
Definition set_bands (t : Tables B) x : Tables B :=
  mkTables x (t_index t) (t_overlay_index t) (t_heap t) (t_elig t) (t_queue t) (t_liq_since t) (t_unfunded t)
    (t_trace_seq t) (t_stats t).
Definition set_index (t : Tables B) x : Tables B :=
  mkTables (t_bands t) x (t_overlay_index t) (t_heap t) (t_elig t) (t_queue t) (t_liq_since t) (t_unfunded t)
    (t_trace_seq t) (t_stats t).
Definition set_overlay_index (t : Tables B) x : Tables B :=
  mkTables (t_bands t) (t_index t) x (t_heap t) (t_elig t) (t_queue t) (t_liq_since t) (t_unfunded t)
    (t_trace_seq t) (t_stats t).
Definition set_heap (t : Tables B) x : Tables B :=
  mkTables (t_bands t) (t_index t) (t_overlay_index t) x (t_elig t) (t_queue t) (t_liq_since t) (t_unfunded t)
    (t_trace_seq t) (t_stats t).
Definition set_elig (t : Tables B) x : Tables B :=
  mkTables (t_bands t) (t_index t) (t_overlay_index t) (t_heap t) x (t_queue t) (t_liq_since t) (t_unfunded t)
    (t_trace_seq t) (t_stats t).
Definition set_queue (t : Tables B) x : Tables B :=
  mkTables (t_bands t) (t_index t) (t_overlay_index t) (t_heap t) (t_elig t) x (t_liq_since t) (t_unfunded t)
    (t_trace_seq t) (t_stats t).
Definition set_liq_since (t : Tables B) x : Tables B :=
  mkTables (t_bands t) (t_index t) (t_overlay_index t) (t_heap t) (t_elig t) (t_queue t) x (t_unfunded t)
    (t_trace_seq t) (t_stats t).
Definition set_unfunded (t : Tables B) x : Tables B :=
  mkTables (t_bands t) (t_index t) (t_overlay_index t) (t_heap t) (t_elig t) (t_queue t) (t_liq_since t) x
    (t_trace_seq t) (t_stats t).
Definition set_trace_seq (t : Tables B) x : Tables B :=
  mkTables (t_bands t) (t_index t) (t_overlay_index t) (t_heap t) (t_elig t) (t_queue t) (t_liq_since t)
    (t_unfunded t) x (t_stats t).
Definition set_stats (t : Tables B) x : Tables B :=
  mkTables (t_bands t) (t_index t) (t_overlay_index t) (t_heap t) (t_elig t) (t_queue t) (t_liq_since t)
    (t_unfunded t) (t_trace_seq t) x.
Definition set_tables (e : Engine B) x : Engine B :=
  mkEngine (e_px e) (e_shadow e) (e_overridden e) (e_moved e) (e_moved_count e) x.
Definition set_px (e : Engine B) x : Engine B :=
  mkEngine x (e_shadow e) (e_overridden e) (e_moved e) (e_moved_count e) (e_t e).
Definition set_shadow (e : Engine B) x : Engine B :=
  mkEngine (e_px e) x (e_overridden e) (e_moved e) (e_moved_count e) (e_t e).
Definition set_overridden (e : Engine B) x : Engine B :=
  mkEngine (e_px e) (e_shadow e) x (e_moved e) (e_moved_count e) (e_t e).
End Updates.

(** [stats.<counter> = stats.<counter>.saturating_add(1)]. *)
Definition bump_ticks (s : Stats) : Stats :=
  mkStats (saturating_add 64 (sa_ticks s) 1) (sa_folds s) (sa_shadow_folds s) (sa_correlated_sweeps s) (sa_emitted s)
    (sa_fold_errors s).
Definition bump_folds (s : Stats) : Stats :=
  mkStats (sa_ticks s) (saturating_add 64 (sa_folds s) 1) (sa_shadow_folds s) (sa_correlated_sweeps s) (sa_emitted s)
    (sa_fold_errors s).
Definition bump_shadow_folds (s : Stats) : Stats :=
  mkStats (sa_ticks s) (sa_folds s) (saturating_add 64 (sa_shadow_folds s) 1) (sa_correlated_sweeps s) (sa_emitted s)
    (sa_fold_errors s).
Definition bump_correlated (s : Stats) : Stats :=
  mkStats (sa_ticks s) (sa_folds s) (sa_shadow_folds s) (saturating_add 64 (sa_correlated_sweeps s) 1) (sa_emitted s)
    (sa_fold_errors s).
Definition bump_emitted (s : Stats) : Stats :=
  mkStats (sa_ticks s) (sa_folds s) (sa_shadow_folds s) (sa_correlated_sweeps s) (saturating_add 64 (sa_emitted s) 1)
    (sa_fold_errors s).
Definition bump_fold_errors (s : Stats) : Stats :=
  mkStats (sa_ticks s) (sa_folds s) (sa_shadow_folds s) (sa_correlated_sweeps s) (sa_emitted s)
    (saturating_add 64 (sa_fold_errors s) 1).

(** ** Evaluation *)

(** [tick] without the hint's payload. *)
Definition slim (p : Price) : Price :=
  let source := match p_source p with
    | SvrAnnounced hint deadline =>
        SvrAnnounced (mkHint (mh_hash hint) (mh_to hint) (mh_function_selector hint) None None None) deadline
    | other => other
    end in
  mkPrice (p_asset p) (p_price p) source (p_block p) (p_ts p).

Definition has_debt (h : Health) : bool := negb (h_hf h =? NO_DEBT_HF) && negb (h_debt_value h =? 0).

(** [engine::evaluate]. *)
Definition evaluate_at (p : Protocol) (pos : PositionRef) (px : PriceVector)
    : Result EngineError (Health * option Quote) :=
  let? h := map_err EProtocol (pt_health p pos px) in
  if h_hf h <? RAY then
    let? q := map_err EProtocol (pt_quote p pos px) in Ok (h, q)
  else Ok (h, None).

Definition margin (lp cur : Z) : Result EngineError (option Side * Z) :=
  if lp <? cur then
    let? up := map_err EFixed (mul_div lp BPS_PLUS_MARGIN BPS Up) in
    Ok (Some Falling, Z.min up cur)
  else if cur <? lp then
    let? down := map_err EFixed (mul_div lp BPS BPS_PLUS_MARGIN Down) in
    Ok (Some Rising, Z.max down cur)
  else Ok (None, cur).

(** [overlay_on]: the vector, what was replaced, and the outcome. *)
Fixpoint overlay_patch (now : Timestamp) (patch : list (AssetId * Z)) (px : PriceVector) (saved : list (nat * Z * Z))
    : PriceVector * list (nat * Z * Z) * Result EngineError unit :=
  match patch with
  | [] => (px, saved, Ok tt)
  | (asset, price) :: patch =>
      let i := Z.to_nat asset in
      match px !! i with
      | None => (px, saved, Err (UnknownAsset asset))
      | Some cell =>
          let cell' := mkPrice (p_asset cell) price (p_source cell) (p_block cell)
                         (if p_ts cell =? 0 then now else p_ts cell) in
          overlay_patch now patch (<[i := cell']> px) (saved ++ [(i, p_price cell, p_ts cell)])
      end
  end.

Definition overlay_on {R} (px : PriceVector) (w : World R) (id : PositionId)
    : PriceVector * list (nat * Z * Z) * Result EngineError unit :=
  match w_overlay w with
  | None => (px, [], Ok tt)
  | Some ov =>
      match view_position w id with
      | Err e => (px, [], Err e)
      | Ok pos =>
          overlay_patch (w_timestamp w) (ov (pk_protocol (pr_key pos)) (pk_market (pr_key pos))) px []
      end
  end.

Definition restore_price (px : PriceVector) (s : nat * Z * Z) : PriceVector :=
  let '(i, price, ts) := s in
  match px !! i with
  | Some cell => <[i := mkPrice (p_asset cell) price (p_source cell) (p_block cell) ts]> px
  | None => px
  end.

Definition overlay_off (px : PriceVector) (saved : list (nat * Z * Z)) : PriceVector :=
  fold_left restore_price (rev saved) px.

Section Folds.
Context {B : Type} `{BitSet B} {R : Type} `{RouteCache R}.

(** [candidate]: the next trace id and the queued record. *)
Definition candidate (t : Tables B) (id : PositionId) (protocol : ProtocolId) (health : Health) (quote : Quote)
    (legs : LegChoice) (funding : FlashRoute) (cause : TriggerCause) (deadline : option Z)
    : Tables B * Result EngineError Candidate :=
  let# bonus := ok_or (so_bonus <$> q_seize_options quote !! Z.to_nat (lc_seize legs)) (EProtocol Internal) at t in
  let notional := Z.min (h_debt_value health) (h_collateral_value health) in
  let# est_value := map_err EFixed (mul_div notional bonus RAY Down) at t in
  let trace := t_trace_seq t in
  let t := set_trace_seq t (wrapping_add 64 trace 1) in
  let deadline := match deadline with
    | Some d => Some d
    | None => match cause with CSvrAuction _ d _ _ _ => Some d | _ => None end
    end in
  (t, Ok (mkCandidate id protocol health quote legs funding cause est_value deadline trace)).

Definition emit (t : Tables B) (id : PositionId) (protocol : ProtocolId) (health : Health) (quote : Quote)
    (legs : LegChoice) (funding : FlashRoute) (cause : TriggerCause) (deadline : option Z)
    : Tables B * Result EngineError unit :=
  match candidate t id protocol health quote legs funding cause deadline with
  | (t, Err e) => (t, Err e)
  | (t, Ok c) =>
      let t := set_queue t (fst (queue_push (t_queue t) c)) in
      (set_stats t (bump_emitted (t_stats t)), Ok tt)
  end.

(** The registration of one slot's threshold, on the index its price came from. *)
Definition register_on (t : Tables B) (on_overlay : bool) (id : PositionId) (asset : AssetId) (side : Side) (at_ : Z)
    : Tables B * Result EngineError unit :=
  if on_overlay then
    let '(i, r) := register (t_overlay_index t) id asset side at_ in (set_overlay_index t i, r)
  else
    let '(i, r) := register (t_index t) id asset side at_ in (set_index t i, r).

(** The body of [fold]'s loop over the price-sensitive slots. *)
Definition fold_slot (t : Tables B) (p : Protocol) (pos : PositionRef) (px : PriceVector) (id : PositionId)
    (overlaid : list (nat * Z * Z)) (slot : nat) : Tables B * Result EngineError unit :=
  let# row := ok_or (pr_markets pos !! slot)
    (EProtocol (SlotOutOfRange (mkSlot (pk_market (pr_key pos)) slot))) at t in
  let asset := mr_asset row in
  let# cur := ok_or (p_price <$> px !! Z.to_nat asset) (UnknownAsset asset) at t in
  let# lp := map_err EProtocol (pt_liquidation_price p pos px asset) at t in
  match lp with
  | None => (t, Ok tt)
  | Some lp =>
      let# (side, at_) := margin (p_price lp) cur at t in
      let on_overlay := existsb (fun s => (fst (fst s) =? Z.to_nat asset)%nat) overlaid in
      match side with
      | Some side => register_on t on_overlay id asset side at_
      | None =>
          match register_on t on_overlay id asset Falling at_ with
          | (t, Err e) => (t, Err e)
          | (t, Ok _) => register_on t on_overlay id asset Rising at_
          end
      end
  end.

Fixpoint fold_slots (t : Tables B) (p : Protocol) (pos : PositionRef) (px : PriceVector) (id : PositionId)
    (overlaid : list (nat * Z * Z)) (slots : list nat) : Tables B * Result EngineError unit :=
  match slots with
  | [] => (t, Ok tt)
  | s :: slots =>
      match fold_slot t p pos px id overlaid s with
      | (t, Ok _) => fold_slots t p pos px id overlaid slots
      | (t, Err e) => (t, Err e)
      end
  end.

(** The quote's verdict: what [fold] does between [evaluate] and [liq_since]. The result is
    the band and whether the position is liquidatable. *)
Definition fold_quote (t : Tables B) (w : World R) (id : PositionId) (pos : PositionRef) (h : Health)
    (q : option Quote) (cause : Cause) (block since : BlockNum) (band : Band)
    : Tables B * Result EngineError (Band * bool) :=
  match q with
  | None => (t, Ok (band, false))
  | Some q =>
      let '(elig, r) := evaluate (t_elig t) q (w_flash w) (w_routes w) (w_haircut w) in
      let t := set_elig t elig in
      match r with
      | Some (legs, route) =>
          let since := if since =? 0 then block else since in
          let cause := match cause with
            | Given c => c
            | Landed => CStale since
            | Accrual => if since =? block then CInterestDrift else CStale since
            end in
          match emit t id (pk_protocol (pr_key pos)) h q legs route cause None with
          | (t, Err e) => (t, Err e)
          | (t, Ok _) => (t, Ok (band, true))
          end
      | None =>
          (set_unfunded t (t_unfunded t ++ [mkUnfunded id (pk_protocol (pr_key pos)) q]), Ok (Unfundable, false))
      end
  end.

Definition fold (t : Tables B) (px : PriceVector) (w : World R) (id : PositionId) (cause : Cause) (block : BlockNum)
    (overlaid : list (nat * Z * Z)) : Tables B * Result EngineError unit :=
  let t := set_stats t (bump_folds (t_stats t)) in
  let# pos := view_position w id at t in
  let# p := world_protocol w (pk_protocol (pr_key pos)) at t in
  let# (h, q) := evaluate_at p pos px at t in
  let debt := has_debt h in
  let band := classify (h_hf h) debt in
  let t := if (length (t_liq_since t) <=? id)%nat
           then set_liq_since t (resize (S id) 0 (t_liq_since t)) else t in
  let since := default 0 (t_liq_since t !! id) in
  match fold_quote t w id pos h q cause block since band with
  | (t, Err e) => (t, Err e)
  | (t, Ok (band, liquidatable)) =>
      let t := set_liq_since t (<[id := if liquidatable then (if since =? 0 then block else since) else 0]> (t_liq_since t)) in
      let t := set_index t (begin (t_index t) id) in
      let t := set_overlay_index t (begin (t_overlay_index t) id) in
      match (if debt then fold_slots t p pos px id overlaid (iter (h_price_sensitivity h)) else (t, Ok tt)) with
      | (t, Err e) => (t, Err e)
      | (t, Ok _) =>
          if debt && (RAY <=? h_hf h) then
            let# at_ := map_err EProtocol (pt_time_to_cross p pos px) at t in
            let t := set_heap t (Heap.push (t_heap t) (default (w_timestamp w) at_) id) in
            (set_bands t (set_band (t_bands t) id band), Ok tt)
          else
            let t := set_heap t (invalidate (t_heap t) id) in
            (set_bands t (set_band (t_bands t) id band), Ok tt)
      end
  end.

Definition shadow_fold (t : Tables B) (px : PriceVector) (w : World R) (id : PositionId) (cause : Cause)
    (deadline : option Z) : Tables B * Result EngineError unit :=
  let t := set_stats t (bump_shadow_folds (t_stats t)) in
  match cause with
  | Given cause =>
      let# pos := view_position w id at t in
      let# p := world_protocol w (pk_protocol (pr_key pos)) at t in
      let# (h, q) := evaluate_at p pos px at t in
      match q with
      | None => (t, Ok tt)
      | Some q =>
          match is_eligible q (w_flash w) (w_routes w) (w_haircut w) with
          | None => (t, Ok tt)
          | Some (legs, route) => emit t id (pk_protocol (pr_key pos)) h q legs route cause deadline
          end
      end
  | _ => (t, Ok tt)
  end.

(** ** The batch *)

(** The loop of [run]: every id is folded, the first error is kept. *)
Fixpoint run_batch (ids : list PositionId) (px : PriceVector) (t : Tables B) (w : World R) (canonical : bool)
    (cause : Cause) (deadline : option Z) (first : Result EngineError unit)
    : PriceVector * Tables B * Result EngineError unit :=
  match ids with
  | [] => (px, t, first)
  | id :: ids =>
      let '(px, saved, r) := overlay_on px w id in
      let '(t, r) := match r with
        | Err e => (t, Err e)
        | Ok _ => if canonical then fold t px w id cause (tip (w_store w)) saved
                  else shadow_fold t px w id cause deadline
        end in
      let px := overlay_off px saved in
      match r with
      | Ok _ => run_batch ids px t w canonical cause deadline first
      | Err e =>
          run_batch ids px (set_stats t (bump_fold_errors (t_stats t))) w canonical cause deadline
            (if is_ok first then Err e else first)
      end
  end.

Definition run (e : Engine B) (w : World R) (canonical : bool) (cause : Cause) (deadline : option Z)
    (batch : list PositionId) : Engine B * Result EngineError unit :=
  let ids := dedup (sort_by Nat.leb batch) in
  let '(px, t, r) := run_batch ids (if canonical then e_px e else e_shadow e) (e_t e) w canonical cause deadline (Ok tt) in
  (set_tables (if canonical then set_px e px else set_shadow e px) t, r).

(** ** Price ticks *)

Definition engine_new (assets queue : nat) (empty : B) : Engine B :=
  mkEngine [] [] [] empty 0
    (mkTables bands_new (threshold_new assets) (threshold_new assets) heap_empty empty (queue_new queue) [] [] 0
       (mkStats 0 0 0 0 0 0)).

(** [load_prices]: slot [i] must hold asset [i]. *)
Definition layout_error (p : nat * Price) : option EngineError :=
  let '(i, p) := p in
  if decide (try_from 16 (Z.of_nat i) = Some (p_asset p)) then None
  else Some (PriceLayout (default (umax 16) (try_from 16 (Z.of_nat i))) (p_asset p)).

Definition load_prices (e : Engine B) (px : PriceVector) : Engine B * Result EngineError unit :=
  match head (omap layout_error (imap pair px)) with
  | Some err => (e, Err err)
  | None => (mkEngine (slim <$> px) (slim <$> px) [] (bs_clear (e_moved e)) 0 (e_t e), Ok tt)
  end.

Definition slot_of_asset (e : Engine B) (a : AssetId) : Result EngineError nat :=
  if (Z.to_nat a <? length (e_px e))%nat then Ok (Z.to_nat a) else Err (UnknownAsset a).

Definition note_move (e : Engine B) (i : nat) : Engine B * bool :=
  let e := if bs_contains (e_moved e) i then e
           else mkEngine (e_px e) (e_shadow e) (e_overridden e) (bs_grow_and_insert (e_moved e) i)
                  (saturating_add 64 (e_moved_count e) 1) (e_t e) in
  (e, CORRELATED_ASSETS <=? e_moved_count e).

(** [gather]: the sweep set of a move. *)
Definition gather (e : Engine B) (a : AssetId) (old new : Z) (correlated : bool) : Engine B * list PositionId :=
  let t := e_t e in
  let batch :=
    List.filter (fun id => negb (bool_decide (band (t_bands t) id = Some Unfundable)))
      (Threshold.crossed (t_index t) a old new) ++
    members (t_bands t) Hot ++ members (t_bands t) Warm in
  if correlated then
    (set_tables e (set_stats t (bump_correlated (t_stats t))), batch ++ members (t_bands t) Cool)
  else (e, batch).

Definition commit_tick (e : Engine B) (w : World R) (tick : Price) (i : nat) (old : Z) (cause : Cause)
    : Engine B * Result EngineError unit :=
  let '(e, correlated) := note_move e i in
  let '(e, batch) := gather e (p_asset tick) old (p_price tick) correlated in
  let p := slim tick in
  let e := set_shadow e (<[i := p]> (e_shadow e)) in
  let e := set_px e (<[i := p]> (e_px e)) in
  let e := set_overridden e (List.filter (fun a => negb (a =? p_asset tick)) (e_overridden e)) in
  run e w true cause None batch.

Definition announce (e : Engine B) (w : World R) (tick : Price) (i : nat) (canonical : Z) (cause : TriggerCause)
    (deadline : option Z) : Engine B * Result EngineError unit :=
  let '(e, correlated) := note_move e i in
  let '(e, batch) := gather e (p_asset tick) canonical (p_price tick) correlated in
  let e := set_shadow e (<[i := slim tick]> (e_shadow e)) in
  let e := set_overridden e (if decide (p_asset tick ∈ e_overridden e) then e_overridden e
                             else e_overridden e ++ [p_asset tick]) in
  run e w false (Given cause) deadline batch.

Definition on_price_tick (e : Engine B) (w : World R) (tick : Price) : Engine B * Result EngineError unit :=
  let e := set_tables e (set_stats (e_t e) (bump_ticks (t_stats (e_t e)))) in
  let# i := slot_of_asset e (p_asset tick) at e in
  let# canonical := ok_or (p_price <$> e_px e !! i) (UnknownAsset (p_asset tick)) at e in
  match p_source tick with
  | Canonical => commit_tick e w tick i canonical Landed
  | Derived _ => commit_tick e w tick i canonical (Given (CDerivedRate (p_asset tick)))
  | SvrAnnounced hint deadline =>
      announce e w tick i canonical
        (CSvrAuction (mh_hash hint) deadline (default 0 (mh_to hint)) (default [] (mh_call_data hint)) (mh_from hint))
        (Some deadline)
  | PendingPublic tx _ => announce e w tick i canonical (COraclePublic tx) None
  | Predicted _ confidence =>
      let correlated := CORRELATED_ASSETS <=? e_moved_count e in
      let '(e, batch) := gather e (p_asset tick) canonical (p_price tick) correlated in
      match e_shadow e !! i with
      | None => (e, Err (UnknownAsset (p_asset tick)))
      | Some saved =>
          let e := set_shadow e (<[i := slim tick]> (e_shadow e)) in
          let '(e, r) := run e w false (Given (COraclePredicted confidence)) None batch in
          (set_shadow e (<[i := saved]> (e_shadow e)), r)
      end
  end.

(** ** Blocks, dirty sets, flash *)

Definition shadow_back (px : PriceVector) (shadow : PriceVector) (a : AssetId) : PriceVector :=
  match px !! Z.to_nat a with Some src => <[Z.to_nat a := src]> shadow | None => shadow end.

Definition on_block (e : Engine B) (w : World R) : Engine B * Result EngineError unit :=
  let shadow := fold_left (shadow_back (e_px e)) (e_overridden e) (e_shadow e) in
  let t := set_index (e_t e) (Threshold.commit (t_index (e_t e))) in
  let t := set_overlay_index t (Threshold.commit (t_overlay_index t)) in
  let '(heap, due) := Heap.crossed (w_timestamp w) (t_heap t) in
  let t := set_heap t heap in
  let e := mkEngine (e_px e) shadow [] (bs_clear (e_moved e)) 0 t in
  run e w true Accrual None (due ++ members (t_bands t) Hot).

Definition touches (w : World R) (rows : list MarketSlot) (id : PositionId) : Result EngineError bool :=
  let? p := view_position w id in
  Ok (existsb (fun r => (ms_market r =? pk_market (pr_key p))%nat && contains (pr_config p) (ms_slot r)) rows).

(** [for id in ids { if keep(id)? { batch.push(id) } }]. *)
Fixpoint gather_if (keep : PositionId -> Result EngineError bool) (ids : list PositionId)
    : Result EngineError (list PositionId) :=
  match ids with
  | [] => Ok []
  | id :: ids =>
      let? k := keep id in
      let? rest := gather_if keep ids in
      Ok (if k then id :: rest else rest)
  end.

(** The walk of a reprice: one row at a time, both indexes. *)
Fixpoint gather_registered (t : Tables B) (w : World R) (rows : list MarketSlot) (todo : list MarketSlot)
    : Result EngineError (list PositionId) :=
  match todo with
  | [] => Ok []
  | r :: todo =>
      let? ms := map_err EState (ok_or (st_rows (w_store w) (ms_market r)) (SUnknownMarket (ms_market r))) in
      let? row := ok_or (ms !! ms_slot r) (EProtocol (SlotOutOfRange r)) in
      let? here := gather_if (touches w rows)
        (registered (t_index t) (mr_asset row) ++ registered (t_overlay_index t) (mr_asset row)) in
      let? rest := gather_registered t w rows todo in
      Ok (here ++ rest)
  end.

Definition gather_rows (t : Tables B) (w : World R) (rows : list MarketSlot) (reprice : bool)
    : Result EngineError (list PositionId) :=
  let? banded := gather_if (touches w rows)
    (members (t_bands t) Hot ++ members (t_bands t) Warm ++ members (t_bands t) Cool) in
  if reprice then
    let? reg := gather_registered t w rows rows in Ok (banded ++ reg)
  else Ok banded.

(** What [on_dirty] folds. *)
Definition dirty_batch (t : Tables B) (w : World R) (protocol : ProtocolId) (dirty : DirtySet)
    : Result EngineError (list PositionId) :=
  match dirty with
  | DNone => Ok []
  | DPositions ids => Ok ids
  | DAccrual rows => gather_rows t w rows false
  | DReprice rows => gather_rows t w rows true
  | DProtocolWide =>
      gather_if (fun id => let? p := view_position w id in Ok (pk_protocol (pr_key p) =? protocol))
        (seq 0 (Z.to_nat (default (umax 32) (try_from 32 (Z.of_nat (store_len (w_store w)))))))
  end.

Definition on_dirty (e : Engine B) (w : World R) (protocol : ProtocolId) (dirty : DirtySet) (cause : TriggerCause)
    : Engine B * Result EngineError unit :=
  match dirty with
  | DNone => (e, Ok tt)
  | _ =>
      let# batch := dirty_batch (e_t e) w protocol dirty at e in
      run e w true (Given cause) None batch
  end.

(** What [on_protocol_prices] folds: the crossers of every move, then the banded positions
    of the moved markets. *)
Definition moves_batch (t : Tables B) (w : World R) (moves : list ProtocolPriceMove)
    : Result EngineError (list PositionId) :=
  let crossers := mjoin ((fun m => List.filter (fun id => negb (bool_decide (band (t_bands t) id = Some Unfundable)))
    (Threshold.crossed (t_overlay_index t) (mv_asset m) (mv_old m) (mv_new m))) <$> moves) in
  let? banded := gather_if (fun id =>
      let? p := view_position w id in
      Ok (existsb (fun m => (mv_protocol m =? pk_protocol (pr_key p)) &&
                            (mv_market m =? pk_market (pr_key p))%nat) moves))
    (members (t_bands t) Hot ++ members (t_bands t) Warm ++ members (t_bands t) Cool) in
  Ok (crossers ++ banded).

Definition on_protocol_prices (e : Engine B) (w : World R) (moves : list ProtocolPriceMove)
    : Engine B * Result EngineError unit :=
  match moves with
  | [] => (e, Ok tt)
  | _ =>
      let# batch := moves_batch (e_t e) w moves at e in
      run e w true Landed None batch
  end.

Definition on_flash_change (e : Engine B) (w : World R) : Engine B * Result EngineError unit :=
  run e w true Landed None (members (t_bands (e_t e)) Unfundable).

Definition resync (e : Engine B) (w : World R) : Engine B * Result EngineError unit :=
  run e w true Landed None
    (seq 0 (Z.to_nat (default (umax 32) (try_from 32 (Z.of_nat (store_len (w_store w))))))).

(** [probe]: candidates on a hypothetical view. *)
Definition probe_one (px : PriceVector) (t : Tables B) (w : World R) (id : PositionId) (cause : TriggerCause)
    : Tables B * Result EngineError (option Candidate) :=
  let# pos := view_position w id at t in
  let# p := world_protocol w (pk_protocol (pr_key pos)) at t in
  let# (h, q) := evaluate_at p pos px at t in
  match q with
  | None => (t, Ok None)
  | Some q =>
      match is_eligible q (w_flash w) (w_routes w) (w_haircut w) with
      | None => (t, Ok None)
      | Some (legs, route) =>
          match candidate t id (pk_protocol (pr_key pos)) h q legs route cause None with
          | (t, Ok c) => (t, Ok (Some c))
          | (t, Err e) => (t, Err e)
          end
      end
  end.

Fixpoint probe (ids : list PositionId) (e : Engine B) (w : World R) (cause : TriggerCause)
    : Engine B * list Candidate :=
  match ids with
  | [] => (e, [])
  | id :: ids =>
      let '(px, saved, r) := overlay_on (e_px e) w id in
      let '(t, r) := match r with Err err => (e_t e, Err err) | Ok _ => probe_one px (e_t e) w id cause end in
      let e := set_tables (set_px e (overlay_off px saved)) t in
      let '(e', out) := probe ids e w cause in
      (e', match r with Ok (Some c) => c :: out | _ => out end)
  end.

Definition take_unfunded (e : Engine B) : Engine B * list Unfunded :=
  (set_tables e (set_unfunded (e_t e) []), t_unfunded (e_t e)).
End Folds.

(** ** Overlays come off *)

Lemma overlay_off_snoc px saved s : overlay_off px (saved ++ [s]) = overlay_off (restore_price px s) saved.
Proof. unfold overlay_off. by rewrite rev_app_distr. Qed.

Lemma overlay_patch_off now patch px saved :
  let '(px', saved', _) := overlay_patch now patch px saved in overlay_off px' saved' = overlay_off px saved.
Proof.
  revert px saved. induction patch as [|[asset price] patch IH]; intros px saved; cbn [overlay_patch]; [done|].
  destruct (px !! Z.to_nat asset) as [cell|] eqn:E; [|done].
  specialize (IH (<[Z.to_nat asset := mkPrice (p_asset cell) price (p_source cell) (p_block cell)
    (if p_ts cell =? 0 then now else p_ts cell)]> px) (saved ++ [(Z.to_nat asset, p_price cell, p_ts cell)])).
  destruct (overlay_patch _ _ _ _) as [[px' saved'] r]. rewrite IH, overlay_off_snoc. f_equal. cbn [restore_price].
  rewrite list_lookup_insert_eq by (by eapply lookup_lt_Some). cbn [p_asset p_source p_block].
  rewrite list_insert_insert_eq, list_insert_id; [done|]. rewrite E. by destruct cell.
Qed.

Section EngineProofs.
Context {B : Type} `{BitSet B} {R : Type} `{RouteCache R}.

Lemma overlay_round_trip px (w : World R) id :
  let '(px', saved, _) := overlay_on px w id in overlay_off px' saved = px.
Proof.
  unfold overlay_on. destruct (w_overlay w) as [ov|]; [|done]. destruct (view_position w id) as [pos|]; [|done].
  pose proof (overlay_patch_off (w_timestamp w) (ov (pk_protocol (pr_key pos)) (pk_market (pr_key pos))) px []) as Hx.
  by destruct (overlay_patch _ _ _ _) as [[px' saved'] r].
Qed.

(** A whole batch leaves the vector it evaluated on as it was. *)
Lemma run_batch_px ids px (t : Tables B) (w : World R) canonical cause deadline first :
  fst (fst (run_batch ids px t w canonical cause deadline first)) = px.
Proof.
  revert t first. induction ids as [|id ids IH]; intros t first; cbn [run_batch]; [done|].
  pose proof (overlay_round_trip px w id) as Ho. destruct (overlay_on px w id) as [[px' saved] r].
  destruct (match r with Ok _ => _ | Err e => _ end) as [t' r']. rewrite Ho. destruct r'; apply IH.
Qed.

Lemma run_px (e : Engine B) (w : World R) canonical cause deadline batch :
  e_px (fst (run e w canonical cause deadline batch)) = e_px e /\
  e_shadow (fst (run e w canonical cause deadline batch)) = e_shadow e /\
  e_overridden (fst (run e w canonical cause deadline batch)) = e_overridden e /\
  e_moved_count (fst (run e w canonical cause deadline batch)) = e_moved_count e.
Proof.
  unfold run. set (ids := dedup _). pose proof (run_batch_px ids (if canonical then e_px e else e_shadow e) (e_t e) w
    canonical cause deadline (Ok tt)) as Hx.
  destruct (run_batch _ _ _ _ _ _ _ _) as [[px t] r]. cbn in Hx. subst px. by destruct canonical.
Qed.

(** ** Shadow folds only emit *)

(** Everything a canonical fold maintains. *)
Definition standing (t : Tables B) :=
  (t_bands t, t_index t, t_overlay_index t, t_heap t, t_elig t, t_liq_since t, t_unfunded t).

Lemma emit_standing (t : Tables B) id protocol h q legs route cause deadline :
  standing (fst (emit t id protocol h q legs route cause deadline)) = standing t.
Proof. unfold emit, candidate. repeat case_match; simplify_eq; done. Qed.

Lemma shadow_fold_standing (t : Tables B) px (w : World R) id cause deadline :
  standing (fst (shadow_fold t px w id cause deadline)) = standing t.
Proof.
  unfold shadow_fold. destruct cause as [cause| |]; [|done|done].
  destruct (view_position w id) as [pos|]; [|done]. destruct (world_protocol w _) as [p|]; [|done].
  destruct (evaluate_at p pos px) as [[h [q|]]|]; [|done|done].
  destruct (is_eligible q _ _ _) as [[legs route]|]; [|done]. by rewrite emit_standing.
Qed.

Lemma run_shadow_standing (e : Engine B) (w : World R) cause deadline batch :
  standing (e_t (fst (run e w false cause deadline batch))) = standing (e_t e).
Proof.
  unfold run. set (ids := dedup _). generalize (Ok tt : Result EngineError unit) as first.
  generalize (e_t e) as t. generalize (e_shadow e) as px.
  enough (forall px t first, standing (snd (fst (run_batch ids px t w false cause deadline first))) = standing t) as Hx.
  { intros px t first. specialize (Hx px t first). by destruct (run_batch _ _ _ _ _ _ _ _) as [[px' t'] r]. }
  clearbody ids. induction ids as [|id ids IH]; intros px t first; cbn [run_batch]; [done|].
  destruct (overlay_on px w id) as [[px' saved] r].
  destruct r as [[]|e0]; [|rewrite IH; done].
  pose proof (shadow_fold_standing t px' w id cause deadline) as Hs.
  destruct (shadow_fold t px' w id cause deadline) as [t' [[]|e1]]; rewrite IH; done.
Qed.

(** ** Runs of the engine *)

Inductive EOp :=
| ELoad (px : PriceVector)
| ETick (w : World R) (tick : Price)
| EBlock (w : World R)
| EDirty (w : World R) (protocol : ProtocolId) (dirty : DirtySet) (cause : TriggerCause)
| EMoves (w : World R) (moves : list ProtocolPriceMove)
| EFlash (w : World R)
| EResync (w : World R)
| EProbe (w : World R) (ids : list PositionId) (cause : TriggerCause)
| ETakeUnfunded
| EDrain (keccak256 : list Z -> Z).

Definition engine_exec (e : Engine B) (op : EOp) : Engine B * Result EngineError unit :=
  match op with
  | ELoad px => load_prices e px
  | ETick w tick => on_price_tick e w tick
  | EBlock w => on_block e w
  | EDirty w protocol dirty cause => on_dirty e w protocol dirty cause
  | EMoves w moves => on_protocol_prices e w moves
  | EFlash w => on_flash_change e w
  | EResync w => resync e w
  | EProbe w ids cause => (fst (probe ids e w cause), Ok tt)
  | ETakeUnfunded => (fst (take_unfunded e), Ok tt)
  | EDrain keccak256 => (set_tables e (set_queue (e_t e) (fst (queue_drain keccak256 (t_queue (e_t e))))), Ok tt)
  end.

Definition engine_step (e : Engine B) (op : EOp) : Engine B := fst (engine_exec e op).

Definition engine_run (e : Engine B) (ops : list EOp) : Engine B := fold_left engine_step ops e.

(** The shadow vector differs from the canonical one only where an announced price is laid
    over it. *)
Definition shadow_ok (e : Engine B) : Prop :=
  length (e_shadow e) = length (e_px e) /\
  forall i, e_shadow e !! i = e_px e !! i \/ exists a, a ∈ e_overridden e /\ Z.to_nat a = i.

Lemma gather_frame (e : Engine B) a old new correlated :
  let e' := fst (gather e a old new correlated) in
  e_px e' = e_px e /\ e_shadow e' = e_shadow e /\ e_overridden e' = e_overridden e /\
  e_moved_count e' = e_moved_count e /\ standing (e_t e') = standing (e_t e).
Proof. unfold gather. by destruct correlated. Qed.

Lemma note_move_frame (e : Engine B) i :
  let e' := fst (note_move e i) in
  e_px e' = e_px e /\ e_shadow e' = e_shadow e /\ e_overridden e' = e_overridden e /\ e_t e' = e_t e.
Proof. unfold note_move. by destruct (bs_contains _ _). Qed.

Lemma probe_frame ids (e : Engine B) (w : World R) cause :
  let e' := fst (probe ids e w cause) in
  e_px e' = e_px e /\ e_shadow e' = e_shadow e /\ e_overridden e' = e_overridden e.
Proof.
  cbv zeta. revert e. induction ids as [|id ids IH]; intros e; cbn [probe]; [done|].
  pose proof (overlay_round_trip (e_px e) w id) as Ho. destruct (overlay_on (e_px e) w id) as [[px saved] r].
  destruct (match r with Ok _ => _ | Err e => _ end) as [t r'].
  specialize (IH (set_tables (set_px e (overlay_off px saved)) t)).
  destruct (probe ids _ w cause) as [e' out]. cbn [fst] in *. destruct IH as (-> & -> & ->). by rewrite <- Ho.
Qed.

Lemma shadow_back_all (px : PriceVector) l sh :
  length sh = length px ->
  length (fold_left (shadow_back px) l sh) = length px /\
  forall i, fold_left (shadow_back px) l sh !! i = px !! i \/
    (fold_left (shadow_back px) l sh !! i = sh !! i /\ forall a, a ∈ l -> Z.to_nat a <> i).
Proof.
  revert sh. induction l as [|a l IH]; intros sh Hl; cbn [fold_left]; [split; [done|]; intros i; right; split; [done|set_solver]|].
  assert (length (shadow_back px sh a) = length px) as Hl'.
  { unfold shadow_back. destruct (px !! _); by rewrite ?length_insert. }
  destruct (IH _ Hl') as [Hlen Hi]. split; [done|]. intros i. destruct (Hi i) as [->|[-> Hno]]; [by left|].
  unfold shadow_back. destruct (decide (Z.to_nat a = i)) as [<-|Hne].
  - left. destruct (px !! Z.to_nat a) as [src|] eqn:E.
    + apply list_lookup_insert_eq. rewrite Hl. by eapply lookup_lt_Some.
    + apply lookup_ge_None_2. apply lookup_ge_None_1 in E. lia.
  - right. split; [destruct (px !! _); by rewrite ?list_lookup_insert_ne|]. set_solver.
Qed.

Lemma on_block_prices (e : Engine B) (w : World R) :
  shadow_ok e ->
  e_px (fst (on_block e w)) = e_px e /\ e_shadow (fst (on_block e w)) = e_px e /\ e_overridden (fst (on_block e w)) = [].
Proof.
  intros [Hl Ho]. unfold on_block. destruct (Heap.crossed _ _) as [heap due].
  set (e' := mkEngine _ _ _ _ _ _). set (batch := due ++ _).
  destruct (run_px e' w true Accrual None batch) as (-> & -> & -> & _). cbn [e' e_px e_shadow e_overridden].
  split; [done|]. split; [|done]. destruct (shadow_back_all (e_px e) (e_overridden e) (e_shadow e) Hl) as [Hlen Hi].
  apply list_eq. intros i. destruct (Hi i) as [->|[-> Hno]]; [done|].
  destruct (Ho i) as [->|(a & Ha & Hai)]; [done|]. by destruct (Hno a Ha).
Qed.

(** What a tick does to the two vectors, by the source of its price. *)
Lemma tick_prices (e : Engine B) (w : World R) (tick : Price) :
  let e' := fst (on_price_tick e w tick) in
  let i := Z.to_nat (p_asset tick) in
  match p_source tick with
  | Canonical | Derived _ =>
      if (i <? length (e_px e))%nat then
        e_px e' = <[i := slim tick]> (e_px e) /\ e_shadow e' = <[i := slim tick]> (e_shadow e) /\
        forall a, a ∈ e_overridden e -> a = p_asset tick \/ a ∈ e_overridden e'
      else e_px e' = e_px e /\ e_shadow e' = e_shadow e /\ e_overridden e' = e_overridden e
  | SvrAnnounced _ _ | PendingPublic _ _ =>
      e_px e' = e_px e /\ standing (e_t e') = standing (e_t e) /\
      if (i <? length (e_px e))%nat then
        e_shadow e' = <[i := slim tick]> (e_shadow e) /\ p_asset tick ∈ e_overridden e' /\
        forall a, a ∈ e_overridden e -> a ∈ e_overridden e'
      else e_shadow e' = e_shadow e /\ e_overridden e' = e_overridden e
  | Predicted _ _ =>
      e_px e' = e_px e /\ standing (e_t e') = standing (e_t e) /\ e_shadow e' = e_shadow e /\
      e_overridden e' = e_overridden e
  end.
Proof.
  cbv zeta. unfold on_price_tick. set (e0 := set_tables e _).
  assert (standing (e_t e0) = standing (e_t e)) as Est by done.
  unfold slot_of_asset. change (e_px e0) with (e_px e).
  destruct (Nat.ltb_spec (Z.to_nat (p_asset tick)) (length (e_px e))) as [Hi|Hi]; [|by destruct (p_source tick)].
  destruct (lookup_lt_is_Some_2 _ _ Hi) as [c Hc]. rewrite Hc. cbn [ok_or fmap option_fmap option_map].
  assert (forall cause, let e' := fst (commit_tick e0 w tick (Z.to_nat (p_asset tick)) (p_price c) cause) in
    e_px e' = <[Z.to_nat (p_asset tick) := slim tick]> (e_px e) /\
    e_shadow e' = <[Z.to_nat (p_asset tick) := slim tick]> (e_shadow e) /\
    forall a, a ∈ e_overridden e -> a = p_asset tick \/ a ∈ e_overridden e') as Hcommit.
  { intros cause. unfold commit_tick.
    pose proof (note_move_frame e0 (Z.to_nat (p_asset tick))) as Hn. destruct (note_move e0 _) as [e1 cor].
    cbn [fst] in Hn. destruct Hn as (N1 & N2 & N3 & N4).
    pose proof (gather_frame e1 (p_asset tick) (p_price c) (p_price tick) cor) as Hg.
    destruct (gather e1 _ _ _ _) as [e2 batch]. cbn [fst] in Hg. destruct Hg as (G1 & G2 & G3 & _).
    set (e3 := set_overridden _ _). cbv zeta. destruct (run_px e3 w true cause None batch) as (-> & -> & -> & _).
    cbn [e3 set_overridden set_px set_shadow e_px e_shadow e_overridden]. rewrite G1, G2, G3, N1, N2, N3.
    split; [done|]. split; [done|]. intros a Ha. destruct (decide (a = p_asset tick)); [by left|right].
    apply list_elem_of_In, List.filter_In. split; [by apply list_elem_of_In|]. by apply negb_true_iff, Z.eqb_neq. }
  assert (forall cause deadline, let e' := fst (announce e0 w tick (Z.to_nat (p_asset tick)) (p_price c) cause deadline) in
    e_px e' = e_px e /\ standing (e_t e') = standing (e_t e) /\
    e_shadow e' = <[Z.to_nat (p_asset tick) := slim tick]> (e_shadow e) /\ p_asset tick ∈ e_overridden e' /\
    forall a, a ∈ e_overridden e -> a ∈ e_overridden e') as Hann.
  { intros cause deadline. unfold announce.
    pose proof (note_move_frame e0 (Z.to_nat (p_asset tick))) as Hn. destruct (note_move e0 _) as [e1 cor].
    cbn [fst] in Hn. destruct Hn as (N1 & N2 & N3 & N4).
    pose proof (gather_frame e1 (p_asset tick) (p_price c) (p_price tick) cor) as Hg.
    destruct (gather e1 _ _ _ _) as [e2 batch]. cbn [fst] in Hg. destruct Hg as (G1 & G2 & G3 & _ & G5).
    set (e3 := set_overridden _ _). cbv zeta. rewrite run_shadow_standing.
    destruct (run_px e3 w false (Given cause) deadline batch) as (-> & -> & -> & _).
    cbn [e3 set_overridden set_px set_shadow e_px e_shadow e_overridden e_t].
    rewrite G1, G2, G3, G5, N1, N2, N3, N4. split_and!; try done.
    - case_decide; set_solver.
    - intros a Ha. case_decide; set_solver. }
  destruct (p_source tick) as [|hint deadline|tx conf|eta conf|deps].
  - apply Hcommit.
  - apply Hann.
  - apply Hann.
  - pose proof (gather_frame e0 (p_asset tick) (p_price c) (p_price tick) (CORRELATED_ASSETS <=? e_moved_count e0)) as Hg.
    destruct (gather e0 _ _ _ _) as [e2 batch]. cbn [fst] in Hg. destruct Hg as (G1 & G2 & G3 & _ & G5).
    destruct (e_shadow e2 !! Z.to_nat (p_asset tick)) as [saved|] eqn:Es; cbn [fst].
    2: { by rewrite G1, G2, G3, G5. }
    set (e3 := set_shadow e2 _). pose proof (run_shadow_standing e3 w (Given (COraclePredicted conf)) None batch) as Hs.
    pose proof (run_px e3 w false (Given (COraclePredicted conf)) None batch) as Hr.
    destruct (run e3 w false _ None batch) as [e4 r]. cbn [fst] in Hs, Hr |- *. destruct Hr as (R1 & R2 & R3 & _).
    unfold set_shadow. cbn [e_px e_shadow e_overridden e_t]. rewrite R1, R2, R3, Hs. subst e3.
    unfold set_shadow. cbn [e_px e_shadow e_overridden e_t]. rewrite list_insert_insert_eq, list_insert_id by done.
    by rewrite G1, G2, G3, G5.
  - apply Hcommit.
Qed.

Lemma shadow_ok_frame (e e' : Engine B) :
  e_px e' = e_px e -> e_shadow e' = e_shadow e -> e_overridden e' = e_overridden e -> shadow_ok e -> shadow_ok e'.
Proof. unfold shadow_ok. by intros -> -> ->. Qed.

Lemma shadow_ok_tick (e : Engine B) (w : World R) tick : shadow_ok e -> shadow_ok (fst (on_price_tick e w tick)).
Proof.
  intros [Hl Ho]. pose proof (tick_prices e w tick) as Ht. cbv zeta in Ht.
  set (e' := fst (on_price_tick e w tick)) in *. set (i := Z.to_nat (p_asset tick)) in *.
  assert (e_px e' = <[i := slim tick]> (e_px e) /\ e_shadow e' = <[i := slim tick]> (e_shadow e) /\
    (forall a, a ∈ e_overridden e -> a = p_asset tick \/ a ∈ e_overridden e') -> shadow_ok e') as Hcommit.
  { intros (E1 & E2 & E3). unfold shadow_ok. rewrite E1, E2, !length_insert. split; [done|]. intros j.
    destruct (decide (i = j)) as [<-|Hne].
    - left. destruct (decide (i < length (e_px e))%nat).
      + by rewrite !list_lookup_insert_eq by lia.
      + by rewrite !lookup_ge_None_2 by (rewrite length_insert; lia).
    - rewrite !list_lookup_insert_ne by done. destruct (Ho j) as [?|(a & Ha & Hai)]; [by left|].
      destruct (E3 a Ha) as [->|?]; [done|right; eauto]. }
  assert (e_px e' = e_px e /\ standing (e_t e') = standing (e_t e) /\
    (if (i <? length (e_px e))%nat then
      e_shadow e' = <[i := slim tick]> (e_shadow e) /\ p_asset tick ∈ e_overridden e' /\
      forall a, a ∈ e_overridden e -> a ∈ e_overridden e'
     else e_shadow e' = e_shadow e /\ e_overridden e' = e_overridden e) -> shadow_ok e') as Hann.
  { intros (E1 & _ & Hx). destruct (i <? length (e_px e))%nat; [|by apply (shadow_ok_frame e); [..|split]; destruct Hx].
    destruct Hx as (E2 & E3 & E4). unfold shadow_ok. rewrite E1, E2, length_insert. split; [done|]. intros j.
    destruct (decide (i = j)) as [<-|Hne]; [right; by exists (p_asset tick)|].
    rewrite list_lookup_insert_ne by done. destruct (Ho j) as [?|(a & Ha & Hai)]; [by left|right; eauto]. }
  destruct (p_source tick); [| | | |]; try (by apply Hann).
  - destruct (i <? length (e_px e))%nat; [by apply Hcommit|]. by apply (shadow_ok_frame e); [apply Ht..|].
  - by apply (shadow_ok_frame e); [apply Ht..|].
  - destruct (i <? length (e_px e))%nat; [by apply Hcommit|]. by apply (shadow_ok_frame e); [apply Ht..|].
Qed.

Lemma shadow_ok_run (e : Engine B) (w : World R) canonical cause deadline batch :
  shadow_ok e -> shadow_ok (fst (run e w canonical cause deadline batch)).
Proof. intros Hs. apply (shadow_ok_frame e); [by apply run_px..|done]. Qed.

Lemma shadow_ok_step (e : Engine B) op : shadow_ok e -> shadow_ok (engine_step e op).
Proof.
  intros Hs. destruct op; unfold engine_step; cbn [engine_exec].
  - unfold load_prices. destruct (head _); [done|]. cbn. split; [done|]. intros i. by left.
  - by apply shadow_ok_tick.
  - destruct (on_block_prices e w Hs) as (E1 & E2 & E3). unfold shadow_ok. rewrite E1, E2. split; [done|]. by left.
  - unfold on_dirty. destruct dirty; try done; (destruct (dirty_batch _ _ _ _); [by apply shadow_ok_run|done]).
  - unfold on_protocol_prices. destruct moves; [done|]. destruct (moves_batch _ _ _); [by apply shadow_ok_run|done].
  - by apply shadow_ok_run.
  - by apply shadow_ok_run.
  - apply (shadow_ok_frame e); [by apply probe_frame..|done].
  - done.
  - done.
Qed.

Lemma shadow_ok_ops (e : Engine B) ops : shadow_ok e -> shadow_ok (engine_run e ops).
Proof. revert e. induction ops as [|op ops IH]; intros e Hs; [done|]. by apply IH, shadow_ok_step. Qed.

(** A pending price leaves no trace: at any point of any run of the engine, an announced
    or predicted tick leaves the canonical prices and everything a canonical fold maintains
    (bands, both threshold indexes, the time heap, the fundable marks, the ages and the
    unfunded quotes) as they were; a prediction leaves the shadow vector too; and the next
    block makes the shadow equal to the canonical prices again, which it does not move.
    Folds restore every protocol price they lay over either vector. *)
Theorem pending_prices_leave_no_trace (assets queue : nat) (empty : B) (ops : list EOp) :
  let e := engine_run (engine_new assets queue empty) ops in
  (forall w tick, let e' := fst (on_price_tick e w tick) in
     match p_source tick with
     | SvrAnnounced _ _ | PendingPublic _ _ => e_px e' = e_px e /\ standing (e_t e') = standing (e_t e)
     | Predicted _ _ =>
         e_px e' = e_px e /\ standing (e_t e') = standing (e_t e) /\ e_shadow e' = e_shadow e
     | _ => e_px e' = <[Z.to_nat (p_asset tick) := slim tick]> (e_px e)
     end) /\
  (forall w, e_px (fst (on_block e w)) = e_px e /\ e_shadow (fst (on_block e w)) = e_px e).
Proof.
  intros e. assert (shadow_ok e) as Hs.
  { apply shadow_ok_ops. split; [done|]. by left. }
  split.
  - intros w tick e'. pose proof (tick_prices e w tick) as Ht. cbv zeta in Ht.
    destruct (p_source tick).
    + destruct (Nat.ltb_spec (Z.to_nat (p_asset tick)) (length (e_px e))); [apply Ht|].
      rewrite list_insert_ge by lia. apply Ht.
    + by destruct Ht as (? & ? & _).
    + by destruct Ht as (? & ? & _).
    + by destruct Ht as (? & ? & ? & _).
    + destruct (Nat.ltb_spec (Z.to_nat (p_asset tick)) (length (e_px e))); [apply Ht|].
      rewrite list_insert_ge by lia. apply Ht.
  - intros w. by destruct (on_block_prices e w Hs) as (? & ? & _).
Qed.

(** ** Thresholds stay armed *)

Lemma stands_weaken n n' assets i begun regs :
  n <= n' -> stands_for n assets i begun regs -> stands_for n' assets i begun regs.
Proof. intros Hn [? Hg ? ?]. split; try done. eapply Forall_impl; [exact Hg|]. intros; cbv beta in *; lia. Qed.

(** The index after folding [j]: it stands for the registrations of every other position,
    and for whatever [j] registered. *)
Definition index_after (assets : nat) (n : Z) (regs : list reg) (ids : list PositionId) (i : ThresholdIndex) : Prop :=
  exists begun regs', stands_for n assets i begun regs' /\
    forall r, r ∈ regs -> rg_id r ∉ ids -> r ∈ regs'.

Lemma register_on_index assets n (t : Tables B) begun regs ov j a side at_ :
  stands_for n assets (t_index t) begun regs -> j ∈ begun ->
  exists regs', stands_for n assets (t_index (fst (register_on t ov j a side at_))) begun regs' /\
    (forall r, r ∈ regs -> r ∈ regs') /\
    (ov = false -> snd (register_on t ov j a side at_) = Ok tt ->
       mkReg a side at_ j ∈ regs' /\ (Z.to_nat a < assets)%nat).
Proof.
  intros Hs Hj. unfold register_on. destruct ov.
  - destruct (register (t_overlay_index t) j a side at_). cbn. by exists regs.
  - destruct (stands_register n assets _ begun regs j a side at_ Hs Hj) as [Hs' Hok].
    destruct (register (t_index t) j a side at_) as [i r]. cbn [fst snd set_index t_index] in *.
    exists (reg_step assets regs (TRegister j a side at_)). split; [done|]. cbn [reg_step]. split.
    + intros r' Hr'. case_match; [|done]. set_solver.
    + intros _ ->. assert (Z.to_nat a < assets)%nat as Hlt by (by apply Hok). split; [|done].
      rewrite (proj2 (Nat.ltb_lt _ _)) by done. set_solver.
Qed.

Lemma fold_slot_index assets n (t : Tables B) begun regs p pos px j overlaid s :
  stands_for n assets (t_index t) begun regs -> j ∈ begun ->
  exists regs', stands_for n assets (t_index (fst (fold_slot t p pos px j overlaid s))) begun regs' /\
    forall r, r ∈ regs -> r ∈ regs'.
Proof.
  intros Hs Hj. unfold fold_slot. assert (exists regs', stands_for n assets (t_index t) begun regs' /\
    forall r, r ∈ regs -> r ∈ regs') as Hid by (by exists regs).
  destruct (ok_or (pr_markets pos !! s) _) as [row|]; [|done].
  destruct (ok_or (p_price <$> px !! _) _) as [cur|]; [|done].
  destruct (map_err EProtocol _) as [[lp|]|]; [|done|done].
  destruct (margin _ cur) as [[[side|] at_]|]; [| |done].
  - destruct (register_on_index assets n t begun regs (existsb (fun s => (fst (fst s) =? Z.to_nat (mr_asset row))%nat) overlaid)
      j (mr_asset row) side at_ Hs Hj) as (r1 & ? & ? & _). by exists r1.
  - set (ov := existsb _ overlaid).
    destruct (register_on_index assets n t begun regs ov j (mr_asset row) Falling at_ Hs Hj) as (r1 & Hs1 & Hr1 & _).
    destruct (register_on t ov j (mr_asset row) Falling at_) as [t1 [[]|]]; [|by exists r1]. cbn [fst] in Hs1.
    destruct (register_on_index assets n t1 begun r1 ov j (mr_asset row) Rising at_ Hs1 Hj) as (r2 & ? & ? & _).
    exists r2. split; [done|]. auto.
Qed.

Lemma fold_slots_index assets n slots (t : Tables B) begun regs p pos px j overlaid :
  stands_for n assets (t_index t) begun regs -> j ∈ begun ->
  exists regs', stands_for n assets (t_index (fst (fold_slots t p pos px j overlaid slots))) begun regs' /\
    forall r, r ∈ regs -> r ∈ regs'.
Proof.
  revert t regs. induction slots as [|s slots IH]; intros t regs Hs Hj; cbn [fold_slots]; [by exists regs|].
  destruct (fold_slot_index assets n t begun regs p pos px j overlaid s Hs Hj) as (r1 & Hs1 & Hr1).
  destruct (fold_slot t p pos px j overlaid s) as [t1 [[]|]]; [|by exists r1].
  destruct (IH t1 r1 Hs1 Hj) as (r2 & ? & ?). exists r2. split; [done|]. auto.
Qed.

Lemma fold_quote_index (t : Tables B) (w : World R) id pos h q cause block since band :
  t_index (fst (fold_quote t w id pos h q cause block since band)) = t_index t.
Proof.
  unfold fold_quote. destruct q as [q|]; [|done]. destruct (evaluate _ _ _ _ _) as [elig [[legs route]|]]; [|done].
  set (t1 := set_elig t elig).
  match goal with |- context [emit t1 ?a ?b ?c ?d ?e ?f ?g ?k] =>
    pose proof (emit_standing t1 a b c d e f g k) as He; destruct (emit t1 a b c d e f g k) as [t2 [[]|]] end;
    cbn [fst] in *; by injection He.
Qed.

Lemma fold_index assets n (t : Tables B) begun regs px (w : World R) j cause block overlaid :
  0 <= n < umax 32 -> stands_for n assets (t_index t) begun regs ->
  index_after assets (n + 1) regs [j] (t_index (fst (fold t px w j cause block overlaid))).
Proof.
  intros Hn Hs. assert (index_after assets (n + 1) regs [j] (t_index t)) as Hsame.
  { exists begun, regs. split; [|done]. by apply (stands_weaken n); [lia|]. }
  unfold fold. set (t0 := set_stats t _). change (t_index t) with (t_index t0) in *. clearbody t0. clear t. rename t0 into t.
  destruct (view_position w j) as [pos|]; [|done]. destruct (world_protocol w _) as [p|]; [|done].
  destruct (evaluate_at p pos px) as [[h q]|]; [|done].
  set (t1 := if (length (t_liq_since t) <=? j)%nat then _ else _).
  assert (t_index t1 = t_index t) as E1 by (subst t1; by destruct (_ <=? _)%nat).
  set (since := default 0 _). pose proof (fold_quote_index t1 w j pos h q cause block since (classify (h_hf h) (has_debt h))) as E2.
  destruct (fold_quote _ _ _ _ _ _ _ _ _ _) as [t2 [[bd liq]|]]; cbn [fst] in E2; [|cbn [fst]; by rewrite E2, E1].
  set (t3 := set_liq_since t2 _). set (t4 := set_overlay_index (set_index t3 _) _).
  assert (t_index t4 = begin (t_index t) j) as E4 by (subst t4 t3; cbn; by rewrite E2, E1).
  pose proof (stands_begin n assets _ begun regs j Hn Hs) as Hb. rewrite <- E4 in Hb.
  assert (j ∈ j :: begun) as Hj by left.
  assert (forall r, r ∈ regs -> rg_id r ∉ [j] -> r ∈ reg_step assets regs (TBegin j)) as Hkeep.
  { intros r Hr Hrj. cbn. apply list_elem_of_In, List.filter_In. split; [by apply list_elem_of_In|].
    apply negb_true_iff, Nat.eqb_neq. set_solver. }
  assert (exists t5 r5, (if has_debt h then fold_slots t4 p pos px j overlaid (iter (h_price_sensitivity h)) else (t4, Ok tt))
    = (t5, r5) /\ index_after assets (n + 1) regs [j] (t_index t5)) as (t5 & r5 & -> & Hidx).
  { destruct (has_debt h).
    - destruct (fold_slots_index assets _ (iter (h_price_sensitivity h)) t4 (j :: begun) _ p pos px j overlaid Hb Hj) as (r5 & Hs5 & Hr5).
      destruct (fold_slots _ _ _ _ _ _ _) as [t5 x5]. exists t5, x5. split; [done|]. exists (j :: begun), r5. split; [done|]. auto.
    - exists t4, (Ok tt). split; [done|]. by exists (j :: begun), (reg_step assets regs (TBegin j)). }
  destruct r5 as [[]|]; [|done]. destruct (has_debt h && _); [|done]. by destruct (map_err EProtocol _).
Qed.

Lemma run_batch_index assets ids n (t : Tables B) begun regs px (w : World R) cause deadline first :
  0 <= n -> n + Z.of_nat (length ids) <= umax 32 -> stands_for n assets (t_index t) begun regs ->
  index_after assets (n + Z.of_nat (length ids)) regs ids
    (t_index (snd (fst (run_batch ids px t w true cause deadline first)))).
Proof.
  revert n t begun regs px first. induction ids as [|j ids IH]; intros n t begun regs px first Hn0 Hn Hs; cbn [run_batch length].
  { cbn. exists begun, regs. split; [by rewrite Z.add_0_r|done]. }
  cbn [length] in Hn. destruct (overlay_on px w j) as [[px' saved] r].
  assert (exists t1 r1, (match r with Ok _ => fold t px' w j cause (tip (w_store w)) saved | Err e => (t, Err e) end) = (t1, r1) /\
    index_after assets (n + 1) regs [j] (t_index t1)) as (t1 & r1 & -> & (b1 & g1 & Hs1 & Hg1)).
  { destruct r as [[]|].
    - pose proof (fold_index assets n t begun regs px' w j cause (tip (w_store w)) saved ltac:(lia) Hs) as Hf.
      destruct (fold _ _ _ _ _ _ _) as [t1 r1]. by exists t1, r1.
    - exists t, (Err e). split; [done|]. exists begun, regs. split; [by apply (stands_weaken n); [lia|]|done]. }
  assert (forall t2 first, t_index t2 = t_index t1 -> index_after assets (n + Z.of_nat (S (length ids))) regs (j :: ids)
    (t_index (snd (fst (run_batch ids (overlay_off px' saved) t2 w true cause deadline first))))) as Hrest.
  { intros t2 first2 E2. destruct (IH (n + 1) t2 b1 g1 (overlay_off px' saved) first2) as (b2 & g2 & Hs2 & Hg2);
      [lia|lia|by rewrite E2|].
    exists b2, g2. split; [by replace (n + Z.of_nat (S (length ids))) with (n + 1 + Z.of_nat (length ids)) by lia|].
    intros r' Hr' Hnot. apply Hg2; [apply Hg1; [done|]|]; set_solver. }
  destruct r1; by apply Hrest.
Qed.

Lemma margin_side lp cur s at_ :
  u256 lp -> margin lp cur = Ok (s, at_) ->
  match s with
  | Some Falling => lp < cur /\ lp <= at_ <= cur
  | Some Rising => cur < lp /\ cur <= at_ <= lp
  | None => lp = cur /\ at_ = cur
  end.
Proof.
  intros Hlp. assert (u256 BPS /\ u256 BPS_PLUS_MARGIN) as [Hb Hm] by (unfold u256, uint_ok; vm_compute; intuition discriminate).
  assert (0 <= lp) as Hl0 by apply Hlp. unfold margin. destruct (Z.ltb_spec lp cur) as [Hlt|Hge].
  - destruct (mul_div lp BPS_PLUS_MARGIN BPS Up) as [up|] eqn:E; [|done]. cbn. intros [= <- <-].
    apply mul_div_Ok in E as (_ & E & _); [|done..]. split; [done|].
    pose proof (div_up_spec (lp * BPS_PLUS_MARGIN) BPS ltac:(done)) as Hd. cbn in E. rewrite <- E in Hd.
    unfold BPS, BPS_PLUS_MARGIN in Hd. lia.
  - destruct (Z.ltb_spec cur lp) as [Hgt|Hle]; [|intros [= <- <-]; lia].
    destruct (mul_div lp BPS BPS_PLUS_MARGIN Down) as [down|] eqn:E; [|done]. cbn. intros [= <- <-].
    apply mul_div_Ok in E as (_ & E & _); [|done..]. split; [done|]. cbn in E.
    assert (down <= lp). { rewrite E. apply Z.div_le_upper_bound; unfold BPS, BPS_PLUS_MARGIN; lia. } lia.
Qed.

(** Both ways the price can move toward [lp] are covered by a registration before it. *)
Definition guarded (assets : nat) (regs : list reg) (id : PositionId) (a : AssetId) (lp cur : Z) : Prop :=
  (Z.to_nat a < assets)%nat /\
  (lp <= cur -> exists at_, mkReg a Falling at_ id ∈ regs /\ lp <= at_ <= cur) /\
  (cur <= lp -> exists at_, mkReg a Rising at_ id ∈ regs /\ cur <= at_ <= lp).

(** Whether the patch of an evaluation priced an asset. *)
Definition is_overlaid (saved : list (nat * Z * Z)) (asset : AssetId) : bool :=
  existsb (fun s => (fst (fst s) =? Z.to_nat asset)%nat) saved.

(** The prices an evaluation of [id] uses, of which [asset]'s is the engine's own: the vector
    with the overlay of the position's protocol and market on it, if the world has one. *)
Definition evaluated_on (v : PriceVector) (w : World R) (id : PositionId) (px : PriceVector) (asset : AssetId) : Prop :=
  exists saved, overlay_on v w id = (px, saved, Ok tt) /\ is_overlaid saved asset = false.

Lemma overlay_patch_other now asset patch : forall px saved,
  let '(px', saved', _) := overlay_patch now patch px saved in
  is_overlaid saved' asset = false -> is_overlaid saved asset = false /\ px' !! Z.to_nat asset = px !! Z.to_nat asset.
Proof.
  induction patch as [|[a price] patch IH]; intros px saved; cbn [overlay_patch]; [done|].
  destruct (px !! Z.to_nat a) as [cell|]; [|done].
  match goal with |- context [overlay_patch now patch ?x ?y] => specialize (IH x y); destruct (overlay_patch now patch x y) as [[px' saved'] r] end.
  intros Hno. destruct (IH Hno) as [Hs Hx]. unfold is_overlaid in Hs. rewrite existsb_app in Hs.
  apply orb_false_iff in Hs as [Hs Ha]. cbn in Ha. rewrite orb_false_r in Ha. apply Nat.eqb_neq in Ha.
  split; [done|]. by rewrite Hx, list_lookup_insert_ne.
Qed.

Lemma evaluated_on_price v (w : World R) id px asset :
  evaluated_on v w id px asset -> px !! Z.to_nat asset = v !! Z.to_nat asset.
Proof.
  intros (saved & E & Hno). unfold overlay_on in E. destruct (w_overlay w) as [ov|]; [|by injection E as <- _].
  destruct (view_position w id) as [pos|]; [|done].
  pose proof (overlay_patch_other (w_timestamp w) asset (ov (pk_protocol (pr_key pos)) (pk_market (pr_key pos))) v []) as Hx.
  rewrite E in Hx. by apply Hx.
Qed.

(** Without an overlay the evaluation is on the engine's own prices. *)
Lemma evaluated_on_plain v (w : World R) id asset : w_overlay w = None -> evaluated_on v w id v asset.
Proof. intros E. exists []. unfold overlay_on. by rewrite E. Qed.

Lemma fold_slot_guards assets n (t t' : Tables B) begun regs p pos px id ov s row c lp :
  stands_for n assets (t_index t) begun regs -> id ∈ begun ->
  fold_slot t p pos px id ov s = (t', Ok tt) -> is_overlaid ov (mr_asset row) = false ->
  pr_markets pos !! s = Some row -> px !! Z.to_nat (mr_asset row) = Some c ->
  pt_liquidation_price p pos px (mr_asset row) = Ok (Some lp) -> u256 (p_price lp) ->
  exists regs', stands_for n assets (t_index t') begun regs' /\ (forall r, r ∈ regs -> r ∈ regs') /\
    guarded assets regs' id (mr_asset row) (p_price lp) (p_price c).
Proof.
  intros Hs Hid Hf Hov Hrow Hc Hlp Hu. unfold fold_slot in Hf. rewrite Hrow in Hf. cbn [ok_or] in Hf.
  rewrite Hc in Hf. cbn [ok_or fmap option_fmap option_map] in Hf. rewrite Hlp in Hf.
  cbn [map_err] in Hf. unfold is_overlaid in Hov. rewrite Hov in Hf. destruct (margin _ _) as [[s0 at_]|] eqn:Em; [|done].
  apply margin_side in Em; [|done]. destruct s0 as [side|].
  - destruct (register_on_index assets n t begun regs false id (mr_asset row) side at_ Hs Hid) as (r1 & Hs1 & Hk & Hr1).
    rewrite Hf in Hs1, Hr1. destruct (Hr1 eq_refl eq_refl) as [Hin Hlt]. exists r1. split; [done|]. split; [done|].
    split; [done|]. destruct side; cbn in Em; (split; intros ?; [|]); try lia; exists at_; (split; [done|lia]).
  - destruct Em as [-> ->].
    destruct (register_on_index assets n t begun regs false id (mr_asset row) Falling (p_price c) Hs Hid) as (r1 & Hs1 & Hk & Hr1).
    destruct (register_on t false id (mr_asset row) Falling (p_price c)) as [t1 [[]|]]; [|done]. cbn [fst snd] in *.
    destruct (Hr1 eq_refl eq_refl) as [Hin Hlt].
    destruct (register_on_index assets n t1 begun r1 false id (mr_asset row) Rising (p_price c) Hs1 Hid) as (r2 & Hs2 & Hk2 & Hr2).
    rewrite Hf in Hs2, Hr2. destruct (Hr2 eq_refl eq_refl) as [Hin2 _]. exists r2. split; [done|]. split; [auto|].
    split; [done|]. split; intros _; exists (p_price c); (split; [auto|lia]).
Qed.

Lemma guarded_mono assets regs regs' id a lp cur :
  (forall r, r ∈ regs -> r ∈ regs') -> guarded assets regs id a lp cur -> guarded assets regs' id a lp cur.
Proof. intros Hk (Hlt & Hf & Hr). split; [done|]. naive_solver. Qed.

Lemma fold_slots_guards assets n slots (t t' : Tables B) begun regs p pos px id ov s row c lp :
  stands_for n assets (t_index t) begun regs -> id ∈ begun ->
  fold_slots t p pos px id ov slots = (t', Ok tt) -> is_overlaid ov (mr_asset row) = false -> s ∈ slots ->
  pr_markets pos !! s = Some row -> px !! Z.to_nat (mr_asset row) = Some c ->
  pt_liquidation_price p pos px (mr_asset row) = Ok (Some lp) -> u256 (p_price lp) ->
  exists regs', stands_for n assets (t_index t') begun regs' /\
    guarded assets regs' id (mr_asset row) (p_price lp) (p_price c).
Proof.
  intros Hs Hid Hf Hov Hin Hrow Hc Hlp Hu. revert t regs Hs Hf.
  induction slots as [|s0 slots IH]; intros t regs Hs Hf; cbn [fold_slots] in Hf; [by apply not_elem_of_nil in Hin|].
  destruct (fold_slot t p pos px id ov s0) as [t1 [[]|]] eqn:E; [|done].
  destruct (fold_slot_index assets n t begun regs p pos px id ov s0 Hs Hid) as (r1 & Hs1 & Hr1). rewrite E in Hs1.
  apply elem_of_cons in Hin as [->|Hin]; [|by apply (IH Hin t1 r1)].
  destruct (fold_slot_guards assets n t t1 begun regs p pos px id ov s0 row c lp Hs Hid E Hov Hrow Hc Hlp Hu) as (r2 & Hs2 & _ & Hg).
  destruct (fold_slots_index assets n slots t1 begun r2 p pos px id ov Hs2 Hid) as (r3 & Hs3 & Hr3). rewrite Hf in Hs3.
  exists r3. split; [done|]. by eapply guarded_mono.
Qed.

Lemma fold_guards assets n (t t' : Tables B) begun regs px (w : World R) id cause block ov pos p h s row c lp :
  0 <= n < umax 32 -> stands_for n assets (t_index t) begun regs ->
  fold t px w id cause block ov = (t', Ok tt) -> is_overlaid ov (mr_asset row) = false ->
  view_position w id = Ok pos -> world_protocol w (pk_protocol (pr_key pos)) = Ok p ->
  pt_health p pos px = Ok h -> has_debt h = true -> s ∈ iter (h_price_sensitivity h) ->
  pr_markets pos !! s = Some row -> px !! Z.to_nat (mr_asset row) = Some c ->
  pt_liquidation_price p pos px (mr_asset row) = Ok (Some lp) -> u256 (p_price lp) ->
  exists begun' regs', stands_for (n + 1) assets (t_index t') begun' regs' /\
    guarded assets regs' id (mr_asset row) (p_price lp) (p_price c).
Proof.
  intros Hn Hs Hf Hov Hpos Hp Hh Hdebt Hin Hrow Hc Hlp Hu. unfold fold in Hf. rewrite Hpos, Hp in Hf.
  unfold evaluate_at in Hf. rewrite Hh in Hf. cbn [map_err] in Hf.
  destruct (if h_hf h <? RAY then _ else _) as [[h' q]|] eqn:Ee; [|done].
  assert (h' = h) as ->. { destruct (h_hf h <? RAY); [|congruence]. destruct (map_err EProtocol _); congruence. }
  rewrite Hdebt in Hf. cbn [andb] in Hf. set (t1 := if (length _ <=? id)%nat then _ else _) in Hf.
  assert (t_index t1 = t_index t) as E1 by (subst t1; by destruct (_ <=? _)%nat).
  set (since := default 0 _) in Hf.
  pose proof (fold_quote_index t1 w id pos h q cause block since (classify (h_hf h) true)) as E2.
  destruct (fold_quote _ _ _ _ _ _ _ _ _ _) as [t2 [[bd liq]|]]; [|done]. cbn [fst] in E2.
  set (t4 := set_overlay_index _ _) in Hf.
  assert (t_index t4 = begin (t_index t) id) as E4 by (subst t4; cbn; by rewrite E2, E1).
  pose proof (stands_begin n assets _ begun regs id Hn Hs) as Hb. rewrite <- E4 in Hb.
  destruct (fold_slots t4 p pos px id ov (iter (h_price_sensitivity h))) as [t5 [[]|]] eqn:E5; [|done].
  destruct (fold_slots_guards assets _ _ t4 t5 (id :: begun) _ p pos px id ov s row c lp Hb ltac:(left) E5 Hov Hin Hrow Hc Hlp Hu)
    as (r5 & Hs5 & Hg5).
  exists (id :: begun), r5. split; [|done].
  destruct (RAY <=? h_hf h); [destruct (map_err EProtocol _); [|done]|]; by injection Hf as <-.
Qed.

Lemma run_batch_ok ids px (t : Tables B) (w : World R) canonical cause deadline first :
  snd (run_batch ids px t w canonical cause deadline first) = Ok tt -> first = Ok tt.
Proof.
  revert px t first. induction ids as [|id ids IH]; intros px t first; cbn [run_batch]; [done|].
  destruct (overlay_on px w id) as [[px' saved] r]. destruct (match r with Ok _ => _ | Err e => _ end) as [t' [[]|e]].
  - apply IH.
  - intros Hx%IH. destruct first as [[]|]; [done|done].
Qed.

Section Armed.
(** One evaluated position, seen on one price vector through one of its slots. *)
Context (w : World R) (v px : PriceVector) (id : PositionId) (pos : PositionRef) (p : Protocol) (h : Health)
  (s : nat) (row : MarketRow) (c lp : Price).
Context (Hpos : view_position w id = Ok pos) (Hp : world_protocol w (pk_protocol (pr_key pos)) = Ok p)
  (Hh : pt_health p pos px = Ok h) (Hdebt : has_debt h = true) (Hin : s ∈ iter (h_price_sensitivity h))
  (Hrow : pr_markets pos !! s = Some row) (Hc : px !! Z.to_nat (mr_asset row) = Some c)
  (Hlp : pt_liquidation_price p pos px (mr_asset row) = Ok (Some lp)) (Hu : u256 (p_price lp))
  (Hov : evaluated_on v w id px (mr_asset row)).

Lemma run_batch_guards assets ids n (t : Tables B) begun regs cause deadline first :
  0 <= n -> n + Z.of_nat (length ids) <= umax 32 -> stands_for n assets (t_index t) begun regs ->
  NoDup ids -> id ∈ ids -> snd (run_batch ids v t w true cause deadline first) = Ok tt ->
  exists begun' regs',
    stands_for (n + Z.of_nat (length ids)) assets
      (t_index (snd (fst (run_batch ids v t w true cause deadline first)))) begun' regs' /\
    guarded assets regs' id (mr_asset row) (p_price lp) (p_price c).
Proof.
  revert n t begun regs first. induction ids as [|j ids IH]; intros n t begun regs first Hn0 Hn Hs Hnd Hid Hok;
    [by apply not_elem_of_nil in Hid|].
  apply NoDup_cons in Hnd as [Hj Hnd]. cbn [length] in Hn.
  cbn [run_batch] in Hok |- *. pose proof (overlay_round_trip v w j) as Eo.
  destruct (overlay_on v w j) as [[px' saved] r] eqn:E. rewrite Eo in Hok |- *. clear Eo.
  destruct r as [[]|e]; [|apply run_batch_ok in Hok; by destruct first].
  destruct (fold t px' w j cause (tip (w_store w)) saved) as [t1 [[]|e]] eqn:Ef.
  2: { apply run_batch_ok in Hok. by destruct first. }
  replace (n + Z.of_nat (length (j :: ids))) with (n + 1 + Z.of_nat (length ids)) by (cbn; lia).
  destruct (decide (id = j)) as [<-|Hne].
  - destruct Hov as (saved' & E' & Hno). rewrite E in E'. injection E' as -> ->.
    destruct (fold_guards assets n t t1 begun regs px w id cause (tip (w_store w)) saved' pos p h s row c lp ltac:(lia) Hs Ef
      Hno Hpos Hp Hh Hdebt Hin Hrow Hc Hlp Hu) as (b1 & r1 & Hs1 & Hlt & Hf & Hr).
    destruct (run_batch_index assets ids (n + 1) t1 b1 r1 v w cause deadline first ltac:(lia) ltac:(lia) Hs1)
      as (b2 & r2 & Hs2 & Hk). exists b2, r2. split; [done|]. split; [done|].
    split; intros Hle; [destruct (Hf Hle) as (at_ & Ha & ?)|destruct (Hr Hle) as (at_ & Ha & ?)];
      exists at_; (split; [by apply Hk|done]).
  - pose proof (fold_index assets n t begun regs px' w j cause (tip (w_store w)) saved ltac:(lia) Hs) as (b1 & r1 & Hs1 & _).
    rewrite Ef in Hs1. apply (IH (n + 1) t1 b1 r1 first); [lia|lia|done|done| |done]. set_solver.
Qed.
End Armed.

(** ** What a step folds *)

Definition tick_batch (e : Engine B) (tick : Price) : list PositionId :=
  match slot_of_asset e (p_asset tick), e_px e !! Z.to_nat (p_asset tick) with
  | Ok i, Some c =>
      let '(e, correlated) := note_move e i in snd (gather e (p_asset tick) (p_price c) (p_price tick) correlated)
  | _, _ => []
  end.

(** The positions a step evaluates at canonical prices. *)
Definition swept (e : Engine B) (op : EOp) : list PositionId :=
  match op with
  | ETick _ tick => match p_source tick with Canonical | Derived _ => tick_batch e tick | _ => [] end
  | EBlock w => snd (Heap.crossed (w_timestamp w) (t_heap (e_t e))) ++ members (t_bands (e_t e)) Hot
  | EDirty w protocol dirty _ => match dirty_batch (e_t e) w protocol dirty with Ok batch => batch | Err _ => [] end
  | EMoves w moves =>
      match moves, moves_batch (e_t e) w moves with _ :: _, Ok batch => batch | _, _ => [] end
  | EFlash _ => members (t_bands (e_t e)) Unfundable
  | EResync w => seq 0 (Z.to_nat (default (umax 32) (try_from 32 (Z.of_nat (store_len (w_store w))))))
  | _ => []
  end.

(** How many canonical folds a batch, and a run, makes. *)
Definition folds (batch : list PositionId) : Z := Z.of_nat (length (dedup (sort_by Nat.leb batch))).

Fixpoint run_folds (e : Engine B) (ops : list EOp) : Z :=
  match ops with
  | [] => 0
  | op :: ops => folds (swept e op) + run_folds (engine_step e op) ops
  end.

Lemma folds_nonneg batch : 0 <= folds batch.
Proof. unfold folds. lia. Qed.

Lemma run_folds_nonneg (e : Engine B) ops : 0 <= run_folds e ops.
Proof. revert e. induction ops as [|op ops IH]; intros e; cbn; [lia|]. pose proof (folds_nonneg (swept e op)). specialize (IH (engine_step e op)). lia. Qed.

Lemma run_folds_app (e : Engine B) ops1 ops2 :
  run_folds e (ops1 ++ ops2) = run_folds e ops1 + run_folds (engine_run e ops1) ops2.
Proof.
  revert e. induction ops1 as [|op ops1 IH]; intros e; [done|]. cbn [run_folds app].
  change (engine_run e (op :: ops1)) with (engine_run (engine_step e op) ops1). rewrite IH. lia.
Qed.

Lemma batch_ids batch :
  NoDup (dedup (sort_by Nat.leb batch)) /\ forall id, id ∈ dedup (sort_by Nat.leb batch) <-> id ∈ batch.
Proof.
  destruct (sort_nat_spec batch) as [Hs Hp]. destruct (dedup_spec _ Hs) as [H1 H2]. split.
  - clear -H1. induction H1 as [|x l _ IH Hall]; constructor; [|done].
    intros Hx. rewrite Forall_forall in Hall. specialize (Hall x Hx). lia.
  - intros id. by rewrite H2, Hp.
Qed.

Lemma run_index assets n (e : Engine B) begun regs (w : World R) cause deadline batch :
  0 <= n -> n + folds batch <= umax 32 -> stands_for n assets (t_index (e_t e)) begun regs ->
  index_after assets (n + folds batch) regs batch (t_index (e_t (fst (run e w true cause deadline batch)))).
Proof.
  intros Hn0 Hn Hs. destruct (batch_ids batch) as [_ Hm]. unfold run, folds in *. set (ids := dedup _) in *.
  destruct (run_batch_index assets ids n (e_t e) begun regs (e_px e) w cause deadline (Ok tt) ltac:(lia) Hn Hs)
    as (b & r & Hs' & Hk).
  destruct (run_batch _ _ _ _ _ _ _ _) as [[px t] res]. exists b, r. split; [done|].
  intros x Hx Hnot. apply Hk; [done|]. by rewrite Hm.
Qed.

Lemma probe_index ids (e : Engine B) (w : World R) cause :
  standing (e_t (fst (probe ids e w cause))) = standing (e_t e).
Proof.
  revert e. induction ids as [|id ids IH]; intros e; cbn [probe]; [done|].
  destruct (overlay_on (e_px e) w id) as [[px saved] r].
  assert (exists t r', (match r with Err err => (e_t e, Err err) | Ok _ => probe_one px (e_t e) w id cause end) = (t, r') /\
    standing t = standing (e_t e)) as (t & r' & -> & Ht).
  { destruct r as [[]|]; [|by eexists _, _]. unfold probe_one.
    destruct (view_position w id) as [pos|]; [|by eexists _, _]. destruct (world_protocol w _) as [p|]; [|by eexists _, _].
    destruct (evaluate_at p pos px) as [[h [q|]]|]; [|by eexists _, _..].
    destruct (is_eligible q _ _ _) as [[legs route]|]; [|by eexists _, _].
    unfold candidate. destruct (ok_or _ _) as [bonus|]; [|by eexists _, _].
    destruct (map_err EFixed _); by eexists _, _. }
  specialize (IH (set_tables (set_px e (overlay_off px saved)) t)). destruct (probe ids _ w cause) as [e' out].
  cbn [fst] in *. by rewrite IH.
Qed.

(** A canonical tick runs its sweep on the new price. *)
Lemma canonical_tick (e : Engine B) (w : World R) tick :
  match p_source tick with Canonical | Derived _ => True | _ => False end ->
  exists e1 cause, on_price_tick e w tick = run e1 w true cause None (tick_batch e tick) /\
      standing (e_t e1) = standing (e_t e) \/
    tick_batch e tick = [] /\ standing (e_t (fst (on_price_tick e w tick))) = standing (e_t e).
Proof.
  intros Hsrc. unfold on_price_tick, tick_batch. set (e0 := set_tables e _).
  assert (standing (e_t e0) = standing (e_t e)) as E0 by done.
  change (slot_of_asset e0 (p_asset tick)) with (slot_of_asset e (p_asset tick)).
  destruct (slot_of_asset e (p_asset tick)) as [i|err] eqn:Ei; [|by exists e, Landed; right].
  assert (i = Z.to_nat (p_asset tick)) as -> by (unfold slot_of_asset in Ei; case_match; congruence).
  change (e_px e0) with (e_px e). destruct (e_px e !! Z.to_nat (p_asset tick)) as [c|]; [|by exists e, Landed; right].
  cbn [ok_or fmap option_fmap option_map].
  assert (forall cause, exists e1, commit_tick e0 w tick (Z.to_nat (p_asset tick)) (p_price c) cause =
    run e1 w true cause None (let '(e, correlated) := note_move e (Z.to_nat (p_asset tick)) in
       snd (gather e (p_asset tick) (p_price c) (p_price tick) correlated)) /\ standing (e_t e1) = standing (e_t e)) as Hc.
  { intros cause. unfold commit_tick, note_move. change (e_moved e0) with (e_moved e).
    change (e_moved_count e0) with (e_moved_count e). unfold gather.
    destruct (bs_contains (e_moved e) _); cbn [e0 set_tables e_moved_count];
      (match goal with |- context [CORRELATED_ASSETS <=? ?x] => destruct (CORRELATED_ASSETS <=? x) end);
      (eexists; split; [reflexivity|done]). }
  destruct (p_source tick); [| | | |]; try done.
  - destruct (Hc Landed) as (e1 & ? & ?). exists e1, Landed. by left.
  - destruct (Hc (Given (CDerivedRate (p_asset tick)))) as (e1 & ? & ?). eexists e1, _. left. by split.
Qed.

Lemma standing_index (t t' : Tables B) : standing t' = standing t -> t_index t' = t_index t /\ t_bands t' = t_bands t.
Proof. unfold standing. intros [=]. done. Qed.

Lemma step_index assets n (e : Engine B) begun regs op :
  0 <= n -> n + folds (swept e op) <= umax 32 -> stands_for n assets (t_index (e_t e)) begun regs ->
  index_after assets (n + folds (swept e op)) regs (swept e op) (t_index (e_t (engine_step e op))).
Proof.
  intros Hn0 Hn Hs. assert (forall (e' : Engine B) batch, t_index (e_t e') = t_index (e_t e) ->
    index_after assets (n + folds batch) regs batch (t_index (e_t e'))) as Hsame.
  { intros e' batch ->. exists begun, regs. split; [|done]. apply (stands_weaken n); [|done].
    pose proof (folds_nonneg batch). lia. }
  destruct op as [px|w tick|w|w protocol dirty cause|w moves|w|w|w ids cause| |k]; unfold engine_step; cbn [engine_exec swept] in *.
  - apply Hsame. unfold load_prices. by destruct (head _).
  - pose proof (tick_prices e w tick) as Ht. cbv zeta in Ht. pose proof (canonical_tick e w tick) as Hc.
    destruct (p_source tick);
      try (apply Hsame, (standing_index (e_t e)); by destruct Ht as (_ & ? & _));
      (destruct (Hc I) as (e1 & cause & [(-> & E1)|(-> & E1)]);
        [apply (run_index assets n e1 begun); [done..|]; by destruct (standing_index _ _ E1) as [-> _]
        |apply Hsame; by apply standing_index]).
  - unfold on_block. destruct (Heap.crossed _ _) as [heap due]. cbn [snd t_heap set_overlay_index set_index] in *.
    apply (run_index assets n _ begun); [done..|]. cbn. by apply stands_commit.
  - unfold on_dirty. destruct dirty; try (by apply Hsame);
      (destruct (dirty_batch _ _ _ _) as [batch|]; [by apply (run_index assets n e begun)|by apply Hsame]).
  - unfold on_protocol_prices. destruct moves as [|m moves]; [by apply Hsame|].
    destruct (moves_batch _ _ _) as [batch|]; [by apply (run_index assets n e begun)|by apply Hsame].
  - by apply (run_index assets n e begun).
  - by apply (run_index assets n e begun).
  - apply Hsame, (standing_index (e_t e)), probe_index.
  - by apply Hsame.
  - by apply Hsame.
Qed.

Lemma ops_index assets n (e : Engine B) begun regs ops :
  0 <= n -> n + run_folds e ops <= umax 32 -> stands_for n assets (t_index (e_t e)) begun regs ->
  exists begun' regs', stands_for (n + run_folds e ops) assets (t_index (e_t (engine_run e ops))) begun' regs'.
Proof.
  revert n e begun regs. induction ops as [|op ops IH]; intros n e begun regs Hn0 Hn Hs; cbn [run_folds] in *.
  { exists begun, regs. by rewrite Z.add_0_r. }
  pose proof (folds_nonneg (swept e op)). pose proof (run_folds_nonneg (engine_step e op) ops).
  destruct (step_index assets n e begun regs op Hn0 ltac:(lia) Hs) as (b & r & Hs1 & _).
  rewrite Z.add_assoc. apply (IH _ _ b r); [lia|lia|done].
Qed.

(** Whatever is not a tick leaves the canonical prices alone. *)
Lemma step_px (e : Engine B) op :
  match op with ELoad _ | ETick _ _ => True | _ => e_px (engine_step e op) = e_px e end.
Proof.
  destruct op as [px|w tick|w|w protocol dirty cause|w moves|w|w|w ids cause| |k]; unfold engine_step; cbn [engine_exec]; try done.
  - unfold on_block. destruct (Heap.crossed _ _) as [heap due].
    match goal with |- e_px (fst (run ?e1 _ _ _ _ ?b)) = _ => by destruct (run_px e1 w true Accrual None b) as (-> & _) end.
  - unfold on_dirty. destruct dirty; try done; (destruct (dirty_batch _ _ _ _); [apply run_px|done]).
  - unfold on_protocol_prices. destruct moves; [done|]. destruct (moves_batch _ _ _); [apply run_px|done].
  - apply run_px.
  - apply run_px.
  - by apply probe_frame.
Qed.

(** The registrations that stand between the price and [lp], on each side it may come from. *)
Definition armed (assets : nat) (regs : list reg) (id : PositionId) (a : AssetId) (lp : Z) (down up : Prop) (price : Z)
    : Prop :=
  (Z.to_nat a < assets)%nat /\
  (down -> exists at_, mkReg a Falling at_ id ∈ regs /\ lp <= at_ <= price) /\
  (up -> exists at_, mkReg a Rising at_ id ∈ regs /\ price <= at_ <= lp).

Lemma crossed_reg n assets i begun regs asset side at_ id old new :
  stands_for n assets i begun regs -> (Z.to_nat asset < assets)%nat -> mkReg asset side at_ id ∈ regs ->
  side = (if new <? old then Falling else Rising) -> Z.min old new <= at_ <= Z.max old new ->
  forall asset', Z.to_nat asset' = Z.to_nat asset -> id ∈ Threshold.crossed i asset' old new.
Proof.
  intros Hs Hi Hr -> Hat asset' Ea. rewrite (crossed_pairs n assets i begun regs) by (done || by rewrite Ea).
  apply list_elem_of_In, in_map_iff. exists (at_, id). split; [done|]. apply filter_In. split; [|cbn; lia].
  unfold regs_at. apply in_map_iff. eexists. split; [|apply filter_In; split; [by apply list_elem_of_In|]]; [done|].
  cbn. by rewrite Ea, Nat.eqb_refl, bool_decide_true.
Qed.

(** A canonical tick that leaves [id] out of its sweep leaves [id] armed. *)
Lemma tick_keeps_armed n assets (e : Engine B) begun regs id a lp down up c (w : World R) tick :
  stands_for n assets (t_index (e_t e)) begun regs ->
  match p_source tick with Canonical | Derived _ => True | _ => False end ->
  Z.to_nat (p_asset tick) = Z.to_nat a -> e_px e !! Z.to_nat a = Some c ->
  id ∉ tick_batch e tick -> band (t_bands (e_t e)) id <> Some Unfundable ->
  armed assets regs id a lp down up (p_price c) -> armed assets regs id a lp down up (p_price tick).
Proof.
  intros Hs _ Ea Hc Hnot Hband (Hi & Hf & Hr).
  assert (id ∉ Threshold.crossed (t_index (e_t e)) (p_asset tick) (p_price c) (p_price tick)) as Hx.
  { intros Hin. apply Hnot. unfold tick_batch, slot_of_asset. rewrite Ea.
    rewrite (proj2 (Nat.ltb_lt _ _)) by (by eapply lookup_lt_Some). rewrite Hc.
    pose proof (note_move_frame e (Z.to_nat a)) as Hm. destruct (note_move e (Z.to_nat a)) as [e1 cor].
    cbn [fst] in Hm. destruct Hm as (_ & _ & _ & Et). unfold gather. rewrite Et.
    assert (id ∈ List.filter (fun id => negb (bool_decide (band (t_bands (e_t e)) id = Some Unfundable)))
      (Threshold.crossed (t_index (e_t e)) (p_asset tick) (p_price c) (p_price tick))).
    { apply list_elem_of_In, filter_In. split; [by apply list_elem_of_In|]. by rewrite bool_decide_false. }
    destruct cor; cbn [snd]; set_solver. }
  split; [done|]. split.
  - intros Hd. destruct (Hf Hd) as (at_ & Ha & ?). exists at_. split; [done|]. split; [lia|].
    destruct (Z.le_gt_cases at_ (p_price tick)); [done|]. destruct Hx.
    apply (crossed_reg n assets _ begun regs a Falling at_ id _ _ Hs Hi Ha); [|lia|done].
    by rewrite (proj2 (Z.ltb_lt _ _)) by lia.
  - intros Hd. destruct (Hr Hd) as (at_ & Ha & ?). exists at_. split; [done|]. split; [|lia].
    destruct (Z.le_gt_cases (p_price tick) at_); [done|]. destruct Hx.
    apply (crossed_reg n assets _ begun regs a Rising at_ id _ _ Hs Hi Ha); [|lia|done].
    by rewrite (proj2 (Z.ltb_ge _ _)) by lia.
Qed.

(** [id] is evaluated, or benched without funding, at some step of the run. *)
Definition seen (e : Engine B) (ops : list EOp) (id : PositionId) : Prop :=
  exists pre op post, ops = pre ++ op :: post /\
    (id ∈ swept (engine_run e pre) op \/ band (t_bands (e_t (engine_run e pre))) id = Some Unfundable).

Definition is_load (op : EOp) : bool := match op with ELoad _ => true | _ => false end.

Lemma seen_cons (e : Engine B) op ops id : seen (engine_step e op) ops id -> seen e (op :: ops) id.
Proof. intros (pre & o & post & -> & Hx). by exists (op :: pre), o, post. Qed.

(** One step that does not see [id] and loads no prices. *)
Lemma step_keeps_armed n assets (e : Engine B) begun regs id a lp down up c op :
  0 <= n -> n + folds (swept e op) <= umax 32 -> stands_for n assets (t_index (e_t e)) begun regs ->
  is_load op = false -> id ∉ swept e op -> band (t_bands (e_t e)) id <> Some Unfundable ->
  e_px e !! Z.to_nat a = Some c -> armed assets regs id a lp down up (p_price c) ->
  exists begun' regs' c', stands_for (n + folds (swept e op)) assets (t_index (e_t (engine_step e op))) begun' regs' /\
    e_px (engine_step e op) !! Z.to_nat a = Some c' /\ armed assets regs' id a lp down up (p_price c').
Proof.
  intros Hn0 Hn Hs Hload Hnot Hband Hc Ha.
  destruct (step_index assets n e begun regs op Hn0 Hn Hs) as (b' & r' & Hs' & Hk).
  assert (forall price, armed assets regs id a lp down up price -> armed assets r' id a lp down up price) as Hmono.
  { intros price (Hi & Hf & Hr). split; [done|].
    split; intros Hd; [destruct (Hf Hd) as (at_ & Hat & ?)|destruct (Hr Hd) as (at_ & Hat & ?)];
      exists at_; (split; [by apply Hk|done]). }
  assert (e_px (engine_step e op) !! Z.to_nat a = Some c -> exists c', stands_for (n + folds (swept e op)) assets
    (t_index (e_t (engine_step e op))) b' r' /\ e_px (engine_step e op) !! Z.to_nat a = Some c' /\
    armed assets r' id a lp down up (p_price c')) as Hstay by (intros; exists c; auto).
  pose proof (step_px e op) as Hpx.
  exists b', r'. destruct op as [px|w tick|w|w protocol dirty cause|w moves|w|w|w ids cause| |k]; [done| |..];
    try (by apply Hstay; rewrite Hpx). clear Hpx.
  pose proof (tick_prices e w tick) as Ht. cbv zeta in Ht. change (fst (on_price_tick e w tick)) with (engine_step e (ETick w tick)) in Ht.
  assert (match p_source tick with Canonical | Derived _ => True | _ => False end ->
    id ∉ tick_batch e tick ->
    (if (Z.to_nat (p_asset tick) <? length (e_px e))%nat
     then e_px (engine_step e (ETick w tick)) = <[Z.to_nat (p_asset tick) := slim tick]> (e_px e)
     else e_px (engine_step e (ETick w tick)) = e_px e) -> exists c', stands_for (n + folds (swept e (ETick w tick))) assets
    (t_index (e_t (engine_step e (ETick w tick)))) b' r' /\ e_px (engine_step e (ETick w tick)) !! Z.to_nat a = Some c' /\
    armed assets r' id a lp down up (p_price c')) as Hcan.
  { intros Hsrc Hnb Hpx. destruct (Nat.ltb_spec (Z.to_nat (p_asset tick)) (length (e_px e))); [|apply Hstay; by rewrite Hpx].
    destruct (decide (Z.to_nat (p_asset tick) = Z.to_nat a)) as [Ea|Hne].
    - exists (slim tick). split; [done|]. rewrite Hpx, <- Ea, list_lookup_insert_eq by done. split; [done|].
      apply Hmono. by apply (tick_keeps_armed n assets e begun regs id a lp down up c w tick).
    - apply Hstay. by rewrite Hpx, list_lookup_insert_ne. }
  cbn [swept] in Hnot, Hcan, Hstay |- *.
  destruct (p_source tick); try (apply Hstay; by rewrite (proj1 Ht)); (apply Hcan; [done..|]); by case_match; destruct Ht.
Qed.

Lemma ops_keep_armed n assets (e : Engine B) begun regs id a lp down up c ops :
  0 <= n -> n + run_folds e ops <= umax 32 -> stands_for n assets (t_index (e_t e)) begun regs ->
  forallb (fun op => negb (is_load op)) ops = true ->
  e_px e !! Z.to_nat a = Some c -> armed assets regs id a lp down up (p_price c) ->
  seen e ops id \/
  exists regs' c', e_px (engine_run e ops) !! Z.to_nat a = Some c' /\ armed assets regs' id a lp down up (p_price c').
Proof.
  revert n e begun regs c. induction ops as [|op ops IH]; intros n e begun regs c Hn0 Hn Hs Hl Hc Ha.
  { right. by exists regs, c. }
  cbn [run_folds forallb] in Hn, Hl. apply andb_true_iff in Hl as [Hload%negb_true_iff Hl].
  pose proof (folds_nonneg (swept e op)). pose proof (run_folds_nonneg (engine_step e op) ops).
  destruct (decide (id ∈ swept e op)) as [?|Hnot]; [left; exists [], op, ops; auto|].
  destruct (decide (band (t_bands (e_t e)) id = Some Unfundable)) as [?|Hband]; [left; exists [], op, ops; auto|].
  destruct (step_keeps_armed n assets e begun regs id a lp down up c op Hn0 ltac:(lia) Hs Hload Hnot Hband Hc Ha)
    as (b' & r' & c' & Hs' & Hc' & Ha').
  destruct (IH (n + folds (swept e op)) (engine_step e op) b' r' c' ltac:(lia) ltac:(lia) Hs' Hl Hc' Ha') as [?|?];
    [left; by apply seen_cons|by right].
Qed.

Definition op_world (op : EOp) : option (World R) :=
  match op with
  | ETick w _ | EBlock w | EDirty w _ _ _ | EMoves w _ | EFlash w | EResync w | EProbe w _ _ => Some w
  | _ => None
  end.

(** A step that folds [id] is a canonical batch on the prices it leaves. *)
Lemma step_is_run (e : Engine B) op w id :
  op_world op = Some w -> id ∈ swept e op ->
  exists e0 cause, engine_exec e op = run e0 w true cause None (swept e op) /\
    forall n assets begun regs, stands_for n assets (t_index (e_t e)) begun regs ->
      stands_for n assets (t_index (e_t e0)) begun regs.
Proof.
  intros Hw Hid. assert (forall x : Engine B * Result EngineError unit, (exists cause, x = run e w true cause None (swept e op)) ->
    exists e0 cause, x = run e0 w true cause None (swept e op) /\
    forall n assets begun regs, stands_for n assets (t_index (e_t e)) begun regs ->
      stands_for n assets (t_index (e_t e0)) begun regs) as Hself by (intros x (cause & ->); by exists e, cause).
  destruct op as [px|w' tick|w'|w' protocol dirty cause|w' moves|w'|w'|w' ids cause| |k]; try discriminate Hw; injection Hw as ->;
    cbn [engine_exec swept] in *; try (by apply not_elem_of_nil in Hid).
  - pose proof (canonical_tick e w tick) as Hc.
    destruct (p_source tick); try (by apply not_elem_of_nil in Hid);
      (destruct (Hc I) as (e1 & cause & [(-> & E1)|(E & _)]); [|rewrite E in Hid; by apply not_elem_of_nil in Hid]);
      (exists e1, cause; split; [done|]; by destruct (standing_index _ _ E1) as [-> _]).
  - unfold on_block. destruct (Heap.crossed (w_timestamp w) (t_heap (e_t e))) as [heap due] eqn:E.
    cbn [t_heap set_overlay_index set_index t_index]. rewrite E. eexists _, Accrual. split; [reflexivity|].
    intros n assets begun regs Hs. cbn. by apply stands_commit.
  - unfold on_dirty. destruct dirty; try (by apply not_elem_of_nil in Hid);
      (destruct (dirty_batch _ _ _ _) as [batch|]; [|by apply not_elem_of_nil in Hid]);
      apply Hself; by exists (Given cause).
  - unfold on_protocol_prices. destruct moves as [|m moves]; [by apply not_elem_of_nil in Hid|].
    destruct (moves_batch _ _ _) as [batch|]; [|by apply not_elem_of_nil in Hid]. apply Hself. by exists Landed.
  - apply Hself. by exists Landed.
  - apply Hself. by exists Landed.
Qed.

(** What an evaluation leaves behind, whatever the engine does next. *)
Lemma crossing_kept (assets queue : nat) (empty : B) (pre post : list EOp) (op : EOp) (w : World R)
    (id : PositionId) (pos : PositionRef) (p : Protocol) (px : PriceVector) (h : Health) (s : nat) (row : MarketRow) (c lp : Price) :
  let e := engine_run (engine_new assets queue empty) pre in
  let e1 := engine_step e op in
  op_world op = Some w -> evaluated_on (e_px e1) w id px (mr_asset row) -> id ∈ swept e op -> snd (engine_exec e op) = Ok tt ->
  view_position w id = Ok pos -> world_protocol w (pk_protocol (pr_key pos)) = Ok p ->
  pt_health p pos px = Ok h -> has_debt h = true -> s ∈ iter (h_price_sensitivity h) ->
  pr_markets pos !! s = Some row -> e_px e1 !! Z.to_nat (mr_asset row) = Some c ->
  pt_liquidation_price p pos px (mr_asset row) = Ok (Some lp) -> u256 (p_price lp) ->
  forallb (fun op => negb (is_load op)) post = true ->
  run_folds (engine_new assets queue empty) (pre ++ op :: post) <= umax 32 ->
  seen e1 post id \/
  exists c', e_px (engine_run e1 post) !! Z.to_nat (mr_asset row) = Some c' /\
    (p_price lp <= p_price c -> p_price lp <= p_price c') /\ (p_price c <= p_price lp -> p_price c' <= p_price lp).
Proof.
  intros e e1 Hw Hov Hid Hok Hpos Hp Hh Hdebt Hin Hrow Hc Hlp Hu Hl Hn.
  rewrite run_folds_app in Hn. fold e in Hn. cbn [run_folds] in Hn. fold e1 in Hn.
  set (n := run_folds (engine_new assets queue empty) pre) in *.
  assert (0 <= n) as Hn0 by apply run_folds_nonneg.
  pose proof (folds_nonneg (swept e op)) as Hf0. pose proof (run_folds_nonneg e1 post) as Hf1.
  destruct (ops_index assets 0 (engine_new assets queue empty) [] [] pre) as (b & r & Hs);
    [lia|fold n; lia|apply stands_new|]. fold n e in Hs. rewrite Z.add_0_l in Hs.
  destruct (step_is_run e op w id Hw Hid) as (e0 & cause & Er & Hs0). apply Hs0 in Hs. clear Hs0.
  assert (e_px e1 = e_px e0) as Epx by (unfold e1, engine_step; rewrite Er; apply run_px).
  pose proof (evaluated_on_price _ _ _ _ _ Hov) as Hcx. rewrite Hc in Hcx. rewrite Epx in Hov, Hc. destruct (batch_ids (swept e op)) as [Hnd Hm].
  destruct (run_batch_guards w (e_px e0) px id pos p h s row c lp Hpos Hp Hh Hdebt Hin Hrow Hcx Hlp Hu Hov assets
    (dedup (sort_by Nat.leb (swept e op))) n (e_t e0) b r cause None (Ok tt)) as (b1 & r1 & Hs1 & Hg); try done.
  { unfold folds in Hn, Hf0. lia. }
  { by apply Hm. }
  { rewrite Er in Hok. unfold run in Hok. by destruct (run_batch _ _ _ _ _ _ _ _) as [[px1 t1] res]. }
  assert (t_index (e_t e1) = t_index (snd (fst (run_batch (dedup (sort_by Nat.leb (swept e op))) (e_px e0) (e_t e0) w true
    cause None (Ok tt))))) as Ei.
  { unfold e1, engine_step. rewrite Er. unfold run. by destruct (run_batch _ _ _ _ _ _ _ _) as [[px1 t1] res]. }
  rewrite <- Ei in Hs1. rewrite <- Epx in Hc.
  destruct (ops_keep_armed (n + folds (swept e op)) assets e1 b1 r1 id (mr_asset row) (p_price lp)
    (p_price lp <= p_price c) (p_price c <= p_price lp) c post) as [?|(r2 & c' & Hc' & _ & Hd & Hup)];
    [lia|lia|done|done|done|done|by left|]. right. exists c'. split; [done|].
  split; intros Hle; [destruct (Hd Hle) as (? & _ & ?)|destruct (Hup Hle) as (? & _ & ?)]; lia.
Qed.

(** C2. No crossing is missed: take any run of the engine from its start, and a step of it that
    evaluates a position without error, on prices [px]: the engine's own, with the overlay of
    the position's protocol and market on them if there is one. Let one of the assets the
    position's health depends on, that the overlay does not price, have price [c] there, and let
    the adapter put its liquidation price at [lp]. However the run goes on (fewer than 2^32
    folds, no reload of the price vector), either a later step evaluates the position again, or
    finds it benched as unfundable, or the asset's price has not passed [lp]: it is on the side
    of [lp] it was on at the evaluation. *)
Theorem no_crossing_is_missed (assets queue : nat) (empty : B) (pre post : list EOp) (op : EOp) (w : World R)
    (id : PositionId) (pos : PositionRef) (p : Protocol) (px : PriceVector) (h : Health) (s : nat) (row : MarketRow) (c lp : Price) :
  let e := engine_run (engine_new assets queue empty) pre in
  let e1 := engine_step e op in
  op_world op = Some w -> evaluated_on (e_px e1) w id px (mr_asset row) -> id ∈ swept e op -> snd (engine_exec e op) = Ok tt ->
  view_position w id = Ok pos -> world_protocol w (pk_protocol (pr_key pos)) = Ok p ->
  pt_health p pos px = Ok h -> has_debt h = true -> s ∈ iter (h_price_sensitivity h) ->
  pr_markets pos !! s = Some row -> e_px e1 !! Z.to_nat (mr_asset row) = Some c ->
  pt_liquidation_price p pos px (mr_asset row) = Ok (Some lp) -> u256 (p_price lp) ->
  forallb (fun op => negb (is_load op)) post = true ->
  run_folds (engine_new assets queue empty) (pre ++ op :: post) <= umax 32 ->
  seen e1 post id \/
  exists c', e_px (engine_run e1 post) !! Z.to_nat (mr_asset row) = Some c' /\
    (p_price lp <= p_price c -> p_price lp <= p_price c') /\ (p_price c <= p_price lp -> p_price c' <= p_price lp).
Proof. apply crossing_kept. Qed.
End EngineProofs.

(** ** An accrual hides a touched position from the engine *)

Section Hidden.
Context {B : Type} `{BitSet B} {R : Type} `{RouteCache R}.

Lemma gather_if_sub keep ids batch id : gather_if keep ids = Ok batch -> id ∈ batch -> id ∈ ids /\ keep id = Ok true.
Proof.
  revert batch. induction ids as [|j ids IH]; intros batch; cbn [gather_if].
  { intros [= <-] Hid. by apply elem_of_nil in Hid. }
  destruct (keep j) as [k|] eqn:Ek; [|done]. destruct (gather_if keep ids) as [rest|]; [|done]. cbn. intros [= <-] Hid.
  destruct k; [apply elem_of_cons in Hid as [->|Hid]; [split; [left|done]|]|];
    (destruct (IH rest eq_refl Hid); split; [by right|done]).
Qed.

Lemma gather_registered_touches (t : Tables B) (w : World R) rows todo : forall batch id,
  gather_registered t w rows todo = Ok batch -> id ∈ batch -> touches w rows id = Ok true.
Proof.
  induction todo as [|r todo IH]; intros batch id; cbn [gather_registered].
  { intros [= <-] Hid. by apply elem_of_nil in Hid. }
  intros Hq Hid. apply bind_Ok in Hq as (ms & _ & Hq). apply bind_Ok in Hq as (row & _ & Hq).
  apply bind_Ok in Hq as (here & Hh & Hq). apply bind_Ok in Hq as (rest & Hr & [= <-]).
  apply elem_of_app in Hid as [Hid|Hid]; [by apply (gather_if_sub _ _ _ _ Hh)|by apply (IH rest)].
Qed.

(** A position outside the walked bands is gathered only by a reprice of its own market. *)
Lemma gather_rows_hidden (t : Tables B) (w : World R) rows reprice batch p pref :
  gather_rows t w rows reprice = Ok batch -> view_position w p = Ok pref ->
  (forall b, b ∈ [Hot; Warm; Cool] -> p ∉ members (t_bands t) b) ->
  (reprice = true -> forall s, s ∈ rows -> ms_market s <> pk_market (pr_key pref)) -> p ∉ batch.
Proof.
  unfold gather_rows. intros Hq Hp Hb Hm. apply bind_Ok in Hq as (banded & Hg & Hq).
  assert (p ∉ banded) as Hnb.
  { intros [Hin _]%(gather_if_sub _ _ _ _ Hg). rewrite !elem_of_app in Hin.
    destruct Hin as [Hin|[Hin|Hin]]; by apply Hb in Hin; [|set_solver]. }
  destruct reprice; [|by injection Hq as <-]. apply bind_Ok in Hq as (reg & Hr & [= <-]).
  intros [?|Hin]%elem_of_app; [done|]. apply (gather_registered_touches _ _ _ _ _ _ Hr) in Hin.
  unfold touches in Hin. rewrite Hp in Hin. cbn in Hin. injection Hin as Hin.
  apply existsb_exists in Hin as (s & Hs%list_elem_of_In & [He%Nat.eqb_eq _]%andb_true_iff). by apply (Hm eq_refl s Hs).
Qed.

(** C37. In a block that reports a position and an accrual on its market, with no reprice of that
    market and no protocol-wide report, whatever else is reported and in whatever order: the
    collapse keeps the rows of the market and drops the position, and the walk of the rows
    covers the [Hot], [Warm] and [Cool] bands alone. A position in none of them (new, [Cold],
    [Dead] or [Unfundable]) that its own log touched is still listed as touched, but is in no
    batch the engine folds for any of the block's dirty sets. *)
Theorem accrual_hides_unbanded_position (d0 : DirtyAccumulator) (reports : list DirtySet) (t : Tables B) (w : World R)
    (protocol : ProtocolId) (p : PositionId) (pref : PositionRef) :
  let named := reports ≫= positions_of in
  let rows := reports ≫= rows_of in
  DProtocolWide ∉ reports -> p ∈ named ->
  (forall q, q ∈ named -> is_ok (position_ref (w_store w) q (w_timestamp w)) = true) ->
  position_ref (w_store w) p (w_timestamp w) = Ok pref ->
  reports_market rows (rank (DAccrual [])) (pk_market (pr_key pref)) ->
  ~ reports_market rows (rank (DReprice [])) (pk_market (pr_key pref)) ->
  (forall b, b ∈ [Hot; Warm; Cool] -> p ∉ members (t_bands t) b) ->
  exists d, collapse (fold_left Dirty.merge reports (clear d0)) (w_store w) (w_timestamp w) = (d, Ok tt) /\
    p ∈ touched d /\
    forall set batch, set ∈ as_dirty_sets (collapsed d) -> dirty_batch t w protocol set = Ok batch -> p ∉ batch.
Proof.
  intros named rows Hw Hn Hok Hp Ha Hr Hb.
  destruct (collapse_exact d0 reports (w_store w) (w_timestamp w) Hok) as (d & E & Hq).
  rewrite decide_False in Hq by done. destruct Hq as (Hwide & _ & _ & _ & Hrep & _ & Hpos).
  exists d. split; [done|]. split.
  { pose proof (touched_exact d0 reports (w_store w) (w_timestamp w) p Hw) as Ht. rewrite E in Ht. by apply Ht. }
  assert (view_position w p = Ok pref) as Hv by (unfold view_position; by rewrite Hp).
  intros set batch Hset Hbatch. unfold as_dirty_sets in Hset. rewrite Hwide in Hset. cbn [app] in Hset.
  rewrite !elem_of_app in Hset. destruct Hset as [Hs|[Hs|Hs]].
  - destruct (cd_reprices (collapsed d)) as [|s0 rs] eqn:Er; [by apply elem_of_nil in Hs|].
    apply list_elem_of_singleton in Hs as ->. eapply gather_rows_hidden; [exact Hbatch|done|done|].
    intros _ s Hs%Hrep Em. apply Hr. destruct Hs as [_ Hs]. by rewrite Em in Hs.
  - destruct (cd_accruals (collapsed d)) as [|s0 rs]; [by apply elem_of_nil in Hs|].
    apply list_elem_of_singleton in Hs as ->. by eapply gather_rows_hidden.
  - destruct (cd_positions (collapsed d)) as [|s0 ps] eqn:Ep; [by apply elem_of_nil in Hs|].
    apply list_elem_of_singleton in Hs as ->. injection Hbatch as <-. intros Hin%Hpos.
    destruct Hin as [_ Hin]. by eapply Hin.
Qed.
End Hidden.

(** ** A concrete engine for the witness *)

(** An adapter whose health is the price of asset 5 over 50. *)
Definition wit_price (a price : Z) (source : SourceKind) : Price := mkPrice a price source 1001 0.
Definition wit_health (pos : PositionRef) (px : PriceVector) : Result ProtocolError Health :=
  match px !! 5%nat with
  | Some c => Ok (mkHealth (p_price c * RAY / 50) 1000 2000 1 HHealthy)
  | None => Err (MissingPrice 5)
  end.
Definition wit_protocol : Protocol :=
  mkProtocol 1 wit_health (fun _ _ a => Ok (Some (wit_price a 50 Canonical))) (fun _ _ => Ok None)
    (fun pos _ => Ok None).
(** Its markets price asset 3 by themselves. *)
Definition wit_world : World DepthOnlyRouteCache :=
  mkWorld wit_s2 5000 [wit_protocol] sample_index (mkDepthOnly sample_index) HAIRCUT_NONE (Some (fun _ _ => [(3, 77)])).
Definition wit_vector : PriceVector := List.map (fun i => wit_price (Z.of_nat i) 100 Canonical) (seq 0 7).
Definition wit_load : EOp (R := DepthOnlyRouteCache) := ELoad wit_vector.
Definition wit_tick (price : Z) : EOp := ETick wit_world (wit_price 5 price Canonical).
Definition wit_engine : Engine (list bool) :=
  engine_step (engine_run (engine_new 7 16 []) [wit_load]) (EResync wit_world).
Definition wit_pos : PositionRef :=
  match view_position wit_world 0 with
  | Ok pos => pos
  | Err _ => mkPosRef 0 wit_key 0 [] [] EXTRA_ZERO [] [] 0
  end.

(** At 100 the position is cold; a fall to 60 stays above the margin and leaves it alone, a
    fall to 51 sweeps it. *)
Lemma no_crossing_is_missed_witness :
  let row := blank 5 18 in
  let c := wit_price 5 100 Canonical in
  let lp := wit_price 5 50 Canonical in
  band (t_bands (e_t wit_engine)) 0 = Some Cold /\ swept wit_engine (wit_tick 60) = [] /\
  swept (engine_step wit_engine (wit_tick 60)) (wit_tick 51) = [0%nat] /\
  (seen wit_engine [wit_tick 60] 0 \/
   exists c', e_px (engine_run wit_engine [wit_tick 60]) !! Z.to_nat (mr_asset row) = Some c' /\
     (p_price lp <= p_price c -> p_price lp <= p_price c') /\ (p_price c <= p_price lp -> p_price c' <= p_price lp)).
Proof.
  intros row c lp.
  split; [vm_compute; reflexivity|]. split; [vm_compute; reflexivity|]. split; [vm_compute; reflexivity|].
  unfold wit_engine.
  eapply (no_crossing_is_missed 7 16 ([] : list bool) [wit_load] [wit_tick 60] (EResync wit_world) wit_world 0 wit_pos
    wit_protocol (<[3%nat := mkPrice 3 77 Canonical 1001 5000]> wit_vector) (mkHealth (2 * RAY) 1000 2000 1 HHealthy) 0 row c lp).
  - reflexivity.
  - exists [(3%nat, 100, 0)]. split; vm_compute; reflexivity.
  - assert (swept (engine_run (engine_new 7 16 ([] : list bool)) [wit_load]) (EResync wit_world) = [0%nat]) as ->
      by (vm_compute; reflexivity). left.
  - vm_compute; reflexivity.
  - vm_compute; reflexivity.
  - reflexivity.
  - vm_compute; reflexivity.
  - vm_compute; reflexivity.
  - assert (iter (h_price_sensitivity (mkHealth (2 * RAY) 1000 2000 1 HHealthy)) = [0%nat]) as ->
      by (vm_compute; reflexivity). left.
  - vm_compute; reflexivity.
  - vm_compute; reflexivity.
  - vm_compute; reflexivity.
  - split; vm_compute; discriminate.
  - reflexivity.
  - vm_compute; discriminate.
Defined.

(** Position 0 is interned and known to no band; its market accrues in the same block, and
    another one is repriced. *)
Lemma accrual_hides_unbanded_position_witness :
  let reports := [DReprice [mkSlot 9 1]; DPositions [0%nat]; DAccrual [mkSlot 2 0]; DNone] in
  exists d, collapse (fold_left Dirty.merge reports (clear dirty_new)) (w_store wit_world) (w_timestamp wit_world) = (d, Ok tt) /\
  0%nat ∈ touched d /\
  forall set batch, set ∈ as_dirty_sets (collapsed d) ->
    dirty_batch (e_t (engine_new 7 16 ([] : list bool))) wit_world 1 set = Ok batch -> 0%nat ∉ batch.
Proof.
  apply (accrual_hides_unbanded_position dirty_new [DReprice [mkSlot 9 1]; DPositions [0%nat]; DAccrual [mkSlot 2 0]; DNone]
    (e_t (engine_new 7 16 ([] : list bool))) wit_world 1 0 wit_pos).
  - rewrite !elem_of_cons, elem_of_nil. intuition discriminate.
  - left.
  - intros q Hq. cbn in Hq. apply elem_of_cons in Hq as [->|Hq]; [vm_compute; reflexivity|by apply elem_of_nil in Hq].
  - vm_compute. reflexivity.
  - exists (mkSlot 2 0). split; [cbn; right; left|vm_compute; reflexivity].
  - intros (s & Hs & Hm). cbn in Hs. rewrite !elem_of_cons, elem_of_nil in Hs. vm_compute in Hm.
    destruct Hs as [[= ->]|[[=]|[]]]. discriminate Hm.
  - intros b Hb. destruct b; vm_compute; intros Hx; inversion Hx.
Defined.
