(* ===== verification/Bytes.v ===== *)
(** Bytes: [to_be_bytes] and [from_be_bytes] of the standard library's integers (an address,
    a [B256] and a [U256] read the same way), and segments of a buffer at an offset, the
    relation in which the encoders and decoders of plans are compared. A byte is a [Z] in
    [0 .. 255], a buffer a [list Z]. *)

From S2P Require Import Prelude.
Local Open Scope Z_scope.

(** The value of big-endian bytes. *)
Definition of_be (l : list Z) : Z := foldl (fun a b => a * 256 + b) 0 l.

(** The [n] big-endian bytes of [x]: most significant first. *)
Fixpoint be (n : nat) (x : Z) : list Z :=
  match n with
  | O => []
  | S n => be n (x / 256) ++ [x mod 256]
  end.

Definition bytes_ok (l : list Z) : Prop := Forall (uint_ok 8) l.

#[export] Instance bytes_ok_dec l : Decision (bytes_ok l).
Proof. unfold bytes_ok. apply _. Defined.

Lemma bytes_ok_app l l' : bytes_ok (l ++ l') <-> bytes_ok l /\ bytes_ok l'.
Proof. apply Forall_app. Qed.

Lemma byte_range x : uint_ok 8 x <-> 0 <= x < 256.
Proof. unfold uint_ok, umax. lia. Qed.

Lemma be_length n x : length (be n x) = n.
Proof. revert x. induction n as [|n IH]; intros; simpl; [done|]. rewrite length_app, IH. simpl. lia. Qed.

Lemma be_ok n x : bytes_ok (be n x).
Proof.
  revert x. induction n as [|n IH]; intros x; simpl; [constructor|].
  apply Forall_app. split; [apply IH|]. constructor; [|constructor].
  apply byte_range. by apply Z.mod_pos_bound.
Qed.

Lemma of_be_snoc l b : of_be (l ++ [b]) = of_be l * 256 + b.
Proof. unfold of_be. by rewrite foldl_app. Qed.

Lemma pow256_S n : 256 ^ Z.of_nat (S n) = 256 * 256 ^ Z.of_nat n.
Proof. rewrite Nat2Z.inj_succ, Z.pow_succ_r by lia. done. Qed.

Lemma of_be_be n x : 0 <= x < 256 ^ Z.of_nat n -> of_be (be n x) = x.
Proof.
  revert x. induction n as [|n IH]; intros x Hx; [simpl in *; cbn; lia|].
  rewrite pow256_S in Hx. simpl. rewrite of_be_snoc, IH.
  - pose proof (Z.div_mod x 256). lia.
  - split; [apply Z.div_pos; lia|]. apply Z.div_lt_upper_bound; lia.
Qed.

Lemma be_of_be l : bytes_ok l -> be (length l) (of_be l) = l.
Proof.
  induction l as [|b l IH] using rev_ind; [done|]. intros [Hl Hb]%Forall_app.
  apply Forall_singleton, byte_range in Hb.
  rewrite length_app, Nat.add_1_r. simpl. rewrite of_be_snoc.
  rewrite Z.div_add_l, Z.div_small, Z.add_0_r, IH by (done || lia).
  f_equal. f_equal. rewrite Z.add_comm, Z.mod_add by lia. by apply Z.mod_small.
Qed.

Lemma of_be_bound l : bytes_ok l -> 0 <= of_be l < 256 ^ Z.of_nat (length l).
Proof.
  induction l as [|b l IH] using rev_ind; [cbn; lia|]. intros [Hl Hb]%Forall_app.
  apply Forall_singleton, byte_range in Hb. specialize (IH Hl).
  rewrite of_be_snoc, length_app, Nat.add_1_r, pow256_S. lia.
Qed.

(** A [w]-bit integer takes [w / 8] bytes. *)
Lemma of_be_uint n w x : w = 8 * Z.of_nat n -> uint_ok w x -> of_be (be n x) = x.
Proof.
  intros -> [H1 H2]. apply of_be_be. split; [done|]. unfold umax in H2.
  rewrite Z.pow_mul_r in H2 by lia. change (2 ^ 8) with 256 in H2. lia.
Qed.

Lemma of_be_uint_ok l w : w = 8 * Z.of_nat (length l) -> bytes_ok l -> uint_ok w (of_be l).
Proof.
  intros -> H. pose proof (of_be_bound l H) as [H1 H2]. split; [done|].
  unfold umax. rewrite Z.pow_mul_r by lia. change (2 ^ 8) with 256. lia.
Qed.

Lemma be_1 x : uint_ok 8 x -> be 1 x = [x].
Proof. intros ?%byte_range. simpl. by rewrite Z.mod_small. Qed.

#[global] Arguments be : simpl never.

(** * Segments *)

(** [s] stands in [b] at offset [o]. *)
Definition seg (b : list Z) (o : nat) (s : list Z) : Prop :=
  (o + length s <= length b)%nat /\ take (length s) (drop o b) = s.

#[export] Instance seg_dec b o s : Decision (seg b o s).
Proof. unfold seg. apply _. Defined.

Lemma seg_app b o s1 s2 : seg b o (s1 ++ s2) <-> seg b o s1 /\ seg b (o + length s1) s2.
Proof.
  unfold seg. rewrite length_app. split.
  - intros [Hl H]. rewrite <- (take_drop (length s1) (drop o b)) in H.
    rewrite take_app_add' in H by (rewrite length_take, length_drop; lia).
    apply app_inj_1 in H as [H1 H2]; [|rewrite length_take, length_drop; lia].
    rewrite drop_drop in H2. repeat split; try done; lia.
  - intros [[Hl1 H1] [Hl2 H2]]. split; [lia|].
    rewrite <- (take_drop (length s1) (drop o b)), take_app_add', drop_drop, H1, H2; [done|].
    rewrite length_take, length_drop. lia.
Qed.

Lemma seg_intro b o n : (o + n <= length b)%nat -> seg b o (take n (drop o b)).
Proof.
  intros. assert (length (take n (drop o b)) = n) as E by (rewrite length_take, length_drop; lia).
  split; by rewrite E.
Qed.

Lemma seg_all b s : seg b 0 s -> length s = length b -> s = b.
Proof. intros [_ H] E. by rewrite drop_0, E, firstn_all in H. Qed.

Lemma seg_at b o o' s : seg b o s -> o = o' -> seg b o' s.
Proof. by intros ? <-. Qed.

Lemma seg_refl b : seg b 0 b.
Proof. split; [lia|]. by rewrite drop_0, firstn_all. Qed.

Lemma seg_nil b o : (o <= length b)%nat -> seg b o [].
Proof. intros. split; simpl; [lia|done]. Qed.

Lemma seg_ok b o s : bytes_ok b -> seg b o s -> bytes_ok s.
Proof. intros H [_ <-]. by apply Forall_take, Forall_drop. Qed.

Lemma seg_le b o s : seg b o s -> (o + length s <= length b)%nat.
Proof. by intros [? _]. Qed.

Lemma seg_singleton b o x : seg b o [x] <-> b !! o = Some x.
Proof.
  unfold seg. simpl. split.
  - intros [_ H]. rewrite <- (Nat.add_0_r o), <- lookup_drop. by destruct (drop o b); simplify_eq/=.
  - intros H. pose proof (lookup_lt_Some _ _ _ H). split; [lia|].
    by rewrite (drop_S _ _ _ H).
Qed.

Lemma seg_unique b o s t : seg b o s -> seg b o t -> length s = length t -> s = t.
Proof. intros [_ H1] [_ H2] E. by rewrite <- H1, <- H2, E. Qed.

(** A buffer in two parts, the second of which is the one written. *)
Lemma seg_prefix b s t : seg (b ++ t) (length b) s <-> seg t 0 s.
Proof.
  unfold seg. rewrite length_app, drop_app_length, drop_0. simpl.
  split; intros [? ?]; split; try done; lia.
Qed.

(** Reads of a buffer extended at its end. *)
Lemma seg_extend b t o s : seg b o s -> seg (b ++ t) o s.
Proof.
  intros [Hl H]. split; [rewrite length_app; lia|].
  rewrite drop_app_le by lia. rewrite take_app_le; [done|]. rewrite length_drop. lia.
Qed.

#[export] Hint Resolve be_ok seg_nil : liq.
