(* ===== verification/Wire.v ===== *)
(** The packed-plan decoder ([crates/liq-wire/src/wire.rs]) and the adapter ids of
    [crates/liq-protocol/src/plan.rs].

    Offsets are [nat] with the 64-bit test of [usize] where the code adds them. Each read
    is characterised by the segment it finds ([u16_at_Ok] and the like), so a decoder that
    succeeds is equivalent to its fields standing at their offsets. *)

From S2P Require Import Prelude Types Halt Bytes.
Local Open Scope Z_scope.

(** * [ExecutorAdapter] *)

Inductive ExecutorAdapter :=
  | XAaveV3 | XAaveV4 | XMorphoBlue | XEulerV2 | XSiloV2 | XLiquityV2 | XFluid | XGearbox
  | XCompoundV2.

#[export] Instance ExecutorAdapter_eq_dec : EqDecision ExecutorAdapter.
Proof. solve_decision. Defined.

(** [adapter as u8]. *)
Definition adapter_u8 (a : ExecutorAdapter) : Z :=
  match a with
  | XAaveV3 => 0 | XAaveV4 => 1 | XMorphoBlue => 2 | XEulerV2 => 3 | XSiloV2 => 4
  | XLiquityV2 => 5 | XFluid => 6 | XGearbox => 7 | XCompoundV2 => 8
  end.

Definition from_wire (b : Z) : option ExecutorAdapter :=
  match b with
  | 0 => Some XAaveV3 | 1 => Some XAaveV4 | 2 => Some XMorphoBlue | 3 => Some XEulerV2
  | 4 => Some XSiloV2 | 5 => Some XLiquityV2 | 6 => Some XFluid | 7 => Some XGearbox
  | 8 => Some XCompoundV2
  | _ => None
  end.

Definition adapter_tail_len (a : ExecutorAdapter) : nat :=
  match a with
  | XAaveV3 => 0 | XAaveV4 => 4 | XMorphoBlue => 32 | XEulerV2 => 52 | XSiloV2 => 0
  | XLiquityV2 => 32 | XFluid => 98 | XGearbox => 33 | XCompoundV2 => 21
  end.

(** * Constants *)

Definition HEADER_LEN : nat := 35.
Definition GROUP_HEAD_LEN : nat := 59.
Definition LIQ_LEG_LEN : nat := 77.
Definition SWAP_LEG_HEAD_LEN : nat := 60.
Definition FLAG_SWEEP : Z := 1.
Definition FLAG_GOV_EXEC : Z := 2.
Definition PAYLOAD_ID_LEN : nat := 5.
Definition PAYLOAD_ID_MAX : Z := 2 ^ 40 - 1.
Definition FLAG_GOV_SPELL : Z := 4.
Definition SPELL_LEN : nat := 20.
Definition LEG_TAKE_BALANCE : Z := 1.
Definition LEG_EXACT_OUT : Z := 2.
Definition LEG_TIE_SHIFT : Z := 2.
Definition LEG_TIE_MAX : nat := 63.

(** [flags & bit != 0]. *)
Definition has_flag (flags bit : Z) : bool := negb (Z.land flags bit =? 0).

Definition leg_tie (flags : Z) : option nat :=
  checked_sub_nat (Z.to_nat (Z.shiftr flags LEG_TIE_SHIFT)) 1.

Definition tie_flags (flags : Z) (leg : nat) : option Z :=
  if (LEG_TIE_MAX <=? leg)%nat then None else
  let low := Z.land flags (Z.shiftl 1 LEG_TIE_SHIFT - 1) in
  let! next := checked_add_nat 64 leg 1 in
  let! tie := try_from 8 (Z.of_nat next) in
  Some (Z.lor low (Z.shiftl tie LEG_TIE_SHIFT mod 2 ^ 8)).

Definition VENUE_UNIV3_POOL : Z := 0.
Definition VENUE_ROUTER : Z := 1.
Definition VENUE_UNIV2_POOL : Z := 2.
Definition VENUE_CURVE_POOL : Z := 3.
Definition VENUE_CURVE_CRYPTO_POOL : Z := 4.
Definition VENUE_UNWRAP_4626 : Z := 5.
Definition VENUE_PENDLE_PT_REDEEM : Z := 6.
Definition VENUE_CURVE_LP_ONE_COIN : Z := 7.
Definition VENUE_PENDLE_MARKET_SELL : Z := 8.
Definition VENUE_UNIV4_POOL : Z := 9.
Definition V4_KEY_LEN : nat := 66.
Definition VENUE_CHAIN : Z := 10.
Definition VENUE_BALANCER : Z := 11.
Definition BALANCER_POOL_ID_LEN : nat := 32.
Definition VENUE_FLUID : Z := 12.
Definition FLUID_LEG_LEN : nat := 21.
Definition CHAIN_HOP_V3 : Z := 0.
Definition CHAIN_HOP_V4 : Z := 1.
Definition CHAIN_HOP_V2 : Z := 2.
Definition CHAIN_HOP_CURVE : Z := 3.
Definition CHAIN_HOP_CURVE_CRYPTO : Z := 4.
Definition CHAIN_HOP_V3_SUSHI : Z := 5.
Definition CHAIN_HOP_V3_PANCAKE : Z := 6.
Definition CHAIN_HOP_BALANCER : Z := 7.
Definition CHAIN_HOP_FLUID : Z := 8.
Definition CHAIN_CURVE_EXTRA : nat := 23.
Definition CHAIN_MAX_HOPS : nat := 4.
Definition V2_FACTORY_UNISWAP : Z := 0.
Definition V2_FACTORY_SUSHI : Z := 1.
Definition V3_FACTORY_UNISWAP : Z := 0.
Definition V3_FACTORY_SUSHI : Z := 1.
Definition V3_FACTORY_PANCAKE : Z := 2.
Definition FLUID_T1 : Z := 1.
Definition FLUID_T2 : Z := 2.
Definition FLUID_T3 : Z := 3.
Definition FLUID_T4 : Z := 4.
Definition FLUID_DEBT_TOKEN1 : Z := 1.
Definition FLUID_COL_TOKEN1 : Z := 2.
Definition FLUID_ABSORB : Z := 4.
Definition FLUID_NATIVE_DEBT : Z := 8.
Definition FLUID_NATIVE_COL : Z := 16.
Definition FLUID_FLAGS : Z := 31.

(** * Errors and views *)

Inductive WireError :=
  | Truncated (need have : nat)
  | UnknownAdapter (b : Z)
  | UnknownProvider (b : Z)
  | NoGroups
  | BadPlanLength (walked actual : nat)
  | WOverflow
  | BadGearboxMode (m : Z)
  | TwoGovActions.

#[export] Instance WireError_eq_dec : EqDecision WireError.
Proof. solve_decision. Defined.

Record Header := mkHeader {
  h_flags : Z; h_bid_bps : Z; h_gas_cost_wei : Z; h_min_profit : Z; h_group_count : Z;
  h_profit_swap_offset : nat; h_payload_id : option Z; h_spell : option Z }.

Record GroupHead := mkHead {
  gh_provider : FlashProvider; gh_flash_source : Z; gh_debt_asset : Z; gh_flash_amount : Z;
  gh_liq_count : Z; gh_repay_swap_count : Z; gh_liq_offset : nat;
  gh_repay_swap_offset : nat; gh_next : nat }.

Inductive LegTail :=
  | TNone
  | TAaveV4 (collateral_reserve_id debt_reserve_id : Z)
  | TMorpho (market_id : Z)
  | TEuler (min_yield vault : Z)
  | TLiquity (trove_id : Z)
  | TFluid (kind flags col_per_unit_debt debt_shares_min_per_token col_per_share_min : Z)
  | TGearbox (min_seized : Z) (full : bool)
  | TCompoundV2 (ctoken_collateral is_cether : Z).

#[export] Instance LegTail_eq_dec : EqDecision LegTail.
Proof. solve_decision. Defined.

Record LiqLeg := mkWLiq {
  wl_adapter : ExecutorAdapter; wl_market : Z; wl_borrower : Z; wl_collateral_asset : Z;
  wl_repay_amount : Z; wl_tail : LegTail }.

Record SwapLeg := mkWSwap {
  ws_venue : Z; ws_token_in : Z; ws_token_out : Z; ws_flags : Z; ws_amount : Z;
  ws_data : list Z }.

#[export] Instance SwapLeg_eq_dec : EqDecision SwapLeg.
Proof. solve_decision. Defined.
#[export] Instance LiqLeg_eq_dec : EqDecision LiqLeg.
Proof. solve_decision. Defined.

Abbreviation WRes A := (Result WireError A).

(** * Primitive reads *)

Definition add (a b : nat) : WRes nat := ok_or (checked_add_nat 64 a b) WOverflow.

(** [take(b, o, n)]. *)
Definition take_at (b : list Z) (o n : nat) : WRes (list Z) :=
  let? end_ := ok_or (checked_add_nat 64 o n) WOverflow in
  if (end_ <=? length b)%nat then Ok (take n (drop o b))
  else Err (Truncated end_ (length b)).

Definition u8_at (b : list Z) (o : nat) : WRes Z :=
  ok_or (b !! o) (Truncated (Z.to_nat (saturating_add 64 (Z.of_nat o) 1)) (length b)).

Definition u16_at (b : list Z) (o : nat) : WRes Z := map_res of_be (take_at b o 2).
Definition u128_at (b : list Z) (o : nat) : WRes Z := map_res of_be (take_at b o 16).
Definition addr_at (b : list Z) (o : nat) : WRes Z := map_res of_be (take_at b o 20).
Definition b256_at (b : list Z) (o : nat) : WRes Z := map_res of_be (take_at b o 32).
Definition u256_at (b : list Z) (o : nat) : WRes Z := map_res of_be (take_at b o 32).

(** The five bytes copied into the low end of a zeroed eight-byte word. *)
Definition payload_id_at (b : list Z) (o : nat) : WRes Z :=
  let? s := take_at b o PAYLOAD_ID_LEN in
  Ok (of_be (replicate (8 - PAYLOAD_ID_LEN) 0 ++ s)).

Definition provider_from_wire (b : Z) : option FlashProvider :=
  match b with
  | 0 => Some FAave | 1 => Some FUniV3 | 2 => Some FUniV4 | 3 => Some FMorpho
  | 4 => Some FSkyDss | 5 => Some FNone | 6 => Some FUniV3Swap
  | _ => None
  end.

(** * Walking *)

Definition tail_len (adapter : Z) : WRes nat :=
  ok_or (option_map adapter_tail_len (from_wire adapter)) (UnknownAdapter adapter).

(** The bound the walks end with. *)
Definition within (b : list Z) (o : nat) : WRes nat :=
  if (length b <? o)%nat then Err (BadPlanLength o (length b)) else Ok o.

Fixpoint skip_liq_loop (b : list Z) (o n : nat) : WRes nat :=
  match n with
  | O => Ok o
  | S n =>
      let? a := u8_at b o in
      let? t := tail_len a in
      let? o1 := add o LIQ_LEG_LEN in
      let? o2 := add o1 t in
      skip_liq_loop b o2 n
  end.

Definition skip_liq_legs (b : list Z) (o : nat) (n : Z) : WRes nat :=
  let? o' := skip_liq_loop b o (Z.to_nat n) in within b o'.

Fixpoint skip_swap_loop (b : list Z) (o n : nat) : WRes nat :=
  match n with
  | O => Ok o
  | S n =>
      let? p := add o 58 in
      let? data_len := u16_at b p in
      let? o1 := add o SWAP_LEG_HEAD_LEN in
      let? o2 := add o1 (Z.to_nat data_len) in
      skip_swap_loop b o2 n
  end.

Definition skip_swap_legs (b : list Z) (o : nat) (n : Z) : WRes nat :=
  let? o' := skip_swap_loop b o (Z.to_nat n) in within b o'.

(** * Decoders *)

Definition decode_group (b : list Z) (o : nat) : WRes GroupHead :=
  let? provider_byte := u8_at b o in
  let? provider := ok_or (provider_from_wire provider_byte) (UnknownProvider provider_byte) in
  let? o57 := add o 57 in
  let? liq_count := u8_at b o57 in
  let? o58 := add o 58 in
  let? repay_swap_count := u8_at b o58 in
  let? liq_offset := add o GROUP_HEAD_LEN in
  let? repay_swap_offset := skip_liq_legs b liq_offset liq_count in
  let? next := skip_swap_legs b repay_swap_offset repay_swap_count in
  let? o1 := add o 1 in
  let? flash_source := addr_at b o1 in
  let? o21 := add o 21 in
  let? debt_asset := addr_at b o21 in
  let? o41 := add o 41 in
  let? flash_amount := u128_at b o41 in
  Ok (mkHead provider flash_source debt_asset flash_amount liq_count repay_swap_count
        liq_offset repay_swap_offset next).

(** The adapter's tail, at [tail_offset]. *)
Definition decode_tail (b : list Z) (adapter : ExecutorAdapter) (t : nat) : WRes LegTail :=
  match adapter with
  | XAaveV3 | XSiloV2 => Ok TNone
  | XAaveV4 =>
      let? c := u16_at b t in
      let? t2 := add t 2 in
      let? d := u16_at b t2 in
      Ok (TAaveV4 c d)
  | XMorphoBlue => let? m := b256_at b t in Ok (TMorpho m)
  | XEulerV2 =>
      let? y := u256_at b t in
      let? t32 := add t 32 in
      let? v := addr_at b t32 in
      Ok (TEuler y v)
  | XLiquityV2 => let? i := u256_at b t in Ok (TLiquity i)
  | XFluid =>
      let? kind := u8_at b t in
      let? t1 := add t 1 in
      let? flags := u8_at b t1 in
      let? t2 := add t 2 in
      let? c := u256_at b t2 in
      let? t34 := add t 34 in
      let? d := u256_at b t34 in
      let? t66 := add t 66 in
      let? s := u256_at b t66 in
      Ok (TFluid kind flags c d s)
  | XGearbox =>
      let? m := u256_at b t in
      let? t32 := add t 32 in
      let? f := u8_at b t32 in
      match f with
      | 0 => Ok (TGearbox m false)
      | 1 => Ok (TGearbox m true)
      | m => Err (BadGearboxMode m)
      end
  | XCompoundV2 =>
      let? c := addr_at b t in
      let? t20 := add t 20 in
      let? e := u8_at b t20 in
      Ok (TCompoundV2 c e)
  end.

Definition decode_liq_leg (b : list Z) (o : nat) : WRes (LiqLeg * nat) :=
  let? adapter_byte := u8_at b o in
  let? adapter := ok_or (from_wire adapter_byte) (UnknownAdapter adapter_byte) in
  let? tail_offset := add o LIQ_LEG_LEN in
  let? tail := decode_tail b adapter tail_offset in
  let? next := add tail_offset (adapter_tail_len adapter) in
  let? o1 := add o 1 in
  let? market := addr_at b o1 in
  let? o21 := add o 21 in
  let? borrower := addr_at b o21 in
  let? o41 := add o 41 in
  let? collateral_asset := addr_at b o41 in
  let? o61 := add o 61 in
  let? repay_amount := u128_at b o61 in
  Ok (mkWLiq adapter market borrower collateral_asset repay_amount tail, next).

Definition decode_swap_leg (b : list Z) (o : nat) : WRes (SwapLeg * nat) :=
  let? o58 := add o 58 in
  let? n := u16_at b o58 in
  let data_len := Z.to_nat n in
  let? data_offset := add o SWAP_LEG_HEAD_LEN in
  let? data := take_at b data_offset data_len in
  let? venue := u8_at b o in
  let? o1 := add o 1 in
  let? token_in := addr_at b o1 in
  let? o21 := add o 21 in
  let? token_out := addr_at b o21 in
  let? o41 := add o 41 in
  let? flags := u8_at b o41 in
  let? o42 := add o 42 in
  let? amount := u128_at b o42 in
  let? next := add data_offset data_len in
  Ok (mkWSwap venue token_in token_out flags amount data, next).

(** * Plans *)

Record Plan := mkPlan { pl_bytes : list Z; pl_header : Header }.

(** The groups' offsets walked from [o]. *)
Fixpoint walk_groups (b : list Z) (o n : nat) : WRes nat :=
  match n with
  | O => Ok o
  | S n => let? g := decode_group b o in walk_groups b (gh_next g) n
  end.

(** The governance action the flags announce, and the offset after it. *)
Definition parse_gov (b : list Z) (flags : Z) (cur : nat) : WRes (option Z * option Z * nat) :=
  if has_flag flags FLAG_GOV_EXEC then
    if has_flag flags FLAG_GOV_SPELL then Err TwoGovActions else
    let? id := payload_id_at b cur in
    let? cur := add cur PAYLOAD_ID_LEN in
    Ok (Some id, None, cur)
  else if has_flag flags FLAG_GOV_SPELL then
    let? s := addr_at b cur in
    let? cur := add cur SPELL_LEN in
    Ok (None, Some s, cur)
  else Ok (None, None, cur).

Definition parse (bytes : list Z) : WRes Plan :=
  let? group_count := u8_at bytes HEADER_LEN in
  if group_count =? 0 then Err NoGroups else
  let? cur := add HEADER_LEN 1 in
  let? profit_swap_offset := walk_groups bytes cur (Z.to_nat group_count) in
  let? profit_count := u8_at bytes profit_swap_offset in
  let? cur := add profit_swap_offset 1 in
  let? cur := skip_swap_legs bytes cur profit_count in
  let? flags := u8_at bytes 0 in
  let? (payload_id, spell, cur) := parse_gov bytes flags cur in
  if negb (cur =? length bytes)%nat then Err (BadPlanLength cur (length bytes)) else
  let? bid_bps := u16_at bytes 1 in
  let? gas_cost_wei := u128_at bytes 3 in
  let? min_profit := u128_at bytes 19 in
  Ok (mkPlan bytes (mkHeader flags bid_bps gas_cost_wei min_profit group_count
        profit_swap_offset payload_id spell)).

(** A group of a plan: its bytes and its head. *)
Record Group := mkGroup { g_bytes : list Z; g_head : GroupHead }.

(** [Plan::group], [PlanDecoder.groupAt]. *)
Definition plan_group (p : Plan) (g : Z) : WRes Group :=
  if h_group_count (pl_header p) <=? g then Err NoGroups else
  let? o := add HEADER_LEN 1 in
  let? o := walk_groups (pl_bytes p) o (Z.to_nat g) in
  let? head := decode_group (pl_bytes p) o in
  Ok (mkGroup (pl_bytes p) head).

(** ** Iterators: a buffer, an offset, and how many items remain *)

Record Walk := mkWalk { w_bytes : list Z; w_o : nat; w_remaining : Z }.

Definition groups (p : Plan) : Walk :=
  mkWalk (pl_bytes p) (HEADER_LEN + 1) (h_group_count (pl_header p)).

Definition profit_swaps (p : Plan) : WRes Walk :=
  let o := h_profit_swap_offset (pl_header p) in
  let? o1 := add o 1 in
  let? n := u8_at (pl_bytes p) o in
  Ok (mkWalk (pl_bytes p) o1 n).

Definition liq_legs (g : Group) : Walk :=
  mkWalk (g_bytes g) (gh_liq_offset (g_head g)) (gh_liq_count (g_head g)).

Definition repay_swaps (g : Group) : Walk :=
  mkWalk (g_bytes g) (gh_repay_swap_offset (g_head g)) (gh_repay_swap_count (g_head g)).

(** [next] of the three iterators, over what they decode at the offset. *)
Definition walk_next {A} (dec : list Z -> nat -> WRes (A * nat)) (w : Walk)
    : Walk * option (WRes A) :=
  if w_remaining w =? 0 then (w, None) else
  let remaining := saturating_sub (w_remaining w) 1 in
  match dec (w_bytes w) (w_o w) with
  | Ok (x, next) => (mkWalk (w_bytes w) next remaining, Some (Ok x))
  | Err e => (mkWalk (w_bytes w) (w_o w) 0, Some (Err e))
  end.

Definition groups_next : Walk -> Walk * option (WRes Group) :=
  walk_next (fun b o => let? h := decode_group b o in Ok (mkGroup b h, gh_next h)).
Definition liq_legs_next : Walk -> Walk * option (WRes LiqLeg) := walk_next decode_liq_leg.
Definition swap_legs_next : Walk -> Walk * option (WRes SwapLeg) := walk_next decode_swap_leg.

(** What a [for] loop over an iterator sees: a byte counts what remains, so 256 turns reach
    its [None]. *)
Fixpoint items {A} (fuel : nat) (next : Walk -> Walk * option (WRes A)) (w : Walk)
    : list (WRes A) :=
  match fuel with
  | O => []
  | S fuel =>
      match next w with
      | (_, None) => []
      | (w', Some x) => x :: items fuel next w'
      end
  end.
Definition collect {A} (next : Walk -> Walk * option (WRes A)) (w : Walk) : list (WRes A) :=
  items 256 next w.

(** A loop [for _ in 0..n] that decodes, pushes and moves on. *)
Fixpoint walk_n {A} (dec : list Z -> nat -> WRes (A * nat)) (b : list Z) (o n : nat)
    : WRes (list A * nat) :=
  match n with
  | O => Ok ([], o)
  | S n =>
      let? (x, next) := dec b o in
      let? (l, o') := walk_n dec b next n in
      Ok (x :: l, o')
  end.

(** * Layouts

    What the bytes of a leg are, field after field. A decoder succeeds exactly on buffers
    where the layout of its result stands at the offset. *)

Definition field (n : nat) (x : Z) : Prop := 0 <= x < 256 ^ Z.of_nat n.

Definition swap_bytes (s : SwapLeg) : list Z :=
  be 1 (ws_venue s) ++ be 20 (ws_token_in s) ++ be 20 (ws_token_out s) ++
  be 1 (ws_flags s) ++ be 16 (ws_amount s) ++ be 2 (Z.of_nat (length (ws_data s))) ++
  ws_data s.

Definition swap_ok (s : SwapLeg) : Prop :=
  field 1 (ws_venue s) /\ field 20 (ws_token_in s) /\ field 20 (ws_token_out s) /\
  field 1 (ws_flags s) /\ field 16 (ws_amount s) /\
  field 2 (Z.of_nat (length (ws_data s))) /\ bytes_ok (ws_data s).

Definition tail_bytes (t : LegTail) : list Z :=
  match t with
  | TNone => []
  | TAaveV4 c d => be 2 c ++ be 2 d
  | TMorpho m => be 32 m
  | TEuler y v => be 32 y ++ be 20 v
  | TLiquity i => be 32 i
  | TFluid k f c d s => be 1 k ++ be 1 f ++ be 32 c ++ be 32 d ++ be 32 s
  | TGearbox m f => be 32 m ++ be 1 (Z.b2z f)
  | TCompoundV2 c e => be 20 c ++ be 1 e
  end.

(** The tail is the adapter's, with its fields in range. *)
Definition tail_ok (a : ExecutorAdapter) (t : LegTail) : Prop :=
  match a, t with
  | (XAaveV3 | XSiloV2), TNone => True
  | XAaveV4, TAaveV4 c d => field 2 c /\ field 2 d
  | XMorphoBlue, TMorpho m => field 32 m
  | XEulerV2, TEuler y v => field 32 y /\ field 20 v
  | XLiquityV2, TLiquity i => field 32 i
  | XFluid, TFluid k f c d s =>
      field 1 k /\ field 1 f /\ field 32 c /\ field 32 d /\ field 32 s
  | XGearbox, TGearbox m _ => field 32 m
  | XCompoundV2, TCompoundV2 c e => field 20 c /\ field 1 e
  | _, _ => False
  end.

Definition liq_head_bytes (l : LiqLeg) : list Z :=
  be 1 (adapter_u8 (wl_adapter l)) ++ be 20 (wl_market l) ++ be 20 (wl_borrower l) ++
  be 20 (wl_collateral_asset l) ++ be 16 (wl_repay_amount l).

Definition liq_bytes (l : LiqLeg) : list Z := liq_head_bytes l ++ tail_bytes (wl_tail l).

Definition liq_ok (l : LiqLeg) : Prop :=
  field 20 (wl_market l) /\ field 20 (wl_borrower l) /\ field 20 (wl_collateral_asset l) /\
  field 16 (wl_repay_amount l) /\ tail_ok (wl_adapter l) (wl_tail l).

(** ** Reads *)

Lemma from_wire_u8 a : from_wire (adapter_u8 a) = Some a.
Proof. by destruct a. Qed.

Lemma from_wire_Some b a : from_wire b = Some a -> b = adapter_u8 a.
Proof.
  destruct b as [|p|p]; [by intros [= <-]| |done].
  repeat (match goal with p : positive |- _ => destruct p; try done end); by intros [= <-].
Qed.

Lemma adapter_u8_byte a : field 1 (adapter_u8 a).
Proof. unfold field. destruct a; simpl; lia. Qed.

Lemma provider_from_wire_u8 p : provider_from_wire (flash_u8 p) = Some p.
Proof. by destruct p. Qed.

Lemma provider_from_wire_Some b p : provider_from_wire b = Some p -> b = flash_u8 p.
Proof.
  destruct b as [|q|q]; [by intros [= <-]| |done].
  repeat (match goal with p : positive |- _ => destruct p; try done end); by intros [= <-].
Qed.

Lemma flash_u8_byte p : field 1 (flash_u8 p).
Proof. unfold field. destruct p; simpl; lia. Qed.

Lemma field_byte x : field 1 x <-> uint_ok 8 x.
Proof. rewrite byte_range. unfold field. simpl. lia. Qed.

Lemma field_uint n w x : w = 8 * Z.of_nat n -> field n x <-> uint_ok w x.
Proof.
  intros ->. unfold field, uint_ok, umax. rewrite Z.pow_mul_r by lia.
  change (2 ^ 8) with 256. lia.
Qed.

Lemma add_Ok a b c : add a b = Ok c <-> c = (a + b)%nat /\ Z.of_nat (a + b) <= umax 64.
Proof. unfold add. by rewrite ok_or_Ok, checked_add_nat_Some. Qed.

Section Buffer.
Context (b : list Z) (Hb : bytes_ok b) (Hlen : Z.of_nat (length b) <= umax 64).

Lemma take_at_Ok o n s : take_at b o n = Ok s <-> length s = n /\ seg b o s.
Proof.
  unfold take_at. rewrite bind_Ok. setoid_rewrite ok_or_Ok. setoid_rewrite checked_add_nat_Some.
  split.
  - intros (e & [-> He] & H). destruct (Nat.leb_spec (o + n) (length b)) as [Hle|]; [|done].
    injection H as <-. split; [rewrite length_take, length_drop; lia|]. by apply seg_intro.
  - intros [<- [Hl Hs]]. exists (o + length s)%nat. split; [lia|].
    rewrite (proj2 (Nat.leb_le _ _) Hl). by f_equal.
Qed.

Lemma num_at_Ok o n x :
  map_res of_be (take_at b o n) = Ok x <-> field n x /\ seg b o (be n x).
Proof.
  split.
  - destruct (take_at b o n) as [s|] eqn:E; [|done]. simpl. intros [= <-].
    apply take_at_Ok in E as [<- Hs]. pose proof (seg_ok _ _ _ Hb Hs) as Hok.
    split; [by apply of_be_bound|]. by rewrite be_of_be.
  - intros [Hx Hs]. rewrite (proj2 (take_at_Ok o n (be n x))); [|by rewrite be_length].
    simpl. by rewrite of_be_be.
Qed.

Lemma u8_at_Ok o x : u8_at b o = Ok x <-> field 1 x /\ seg b o (be 1 x).
Proof.
  unfold u8_at. rewrite ok_or_Ok, <- seg_singleton. split.
  - intros H. assert (uint_ok 8 x) as Hx by (eapply Forall_singleton, seg_ok; done).
    split; [by apply field_byte|by rewrite be_1].
  - intros [Hx%field_byte H]. by rewrite be_1 in H.
Qed.

Lemma add_in o n : (o + n <= length b)%nat -> add o n = Ok (o + n)%nat.
Proof. intros. apply add_Ok. lia. Qed.

End Buffer.

(** Offsets of a layout: the segments of its fields, each at the sum of the sizes before. *)
Ltac split_layout H :=
  rewrite ?seg_app, ?be_length, <- ?Nat.add_assoc in H; cbn [Nat.add] in H; destruct_and? H.
Ltac layout_goal := rewrite ?seg_app, ?be_length, <- ?Nat.add_assoc; cbn [Nat.add].

(** Take the reads of a decoder that succeeded apart. *)
Ltac inv_reads :=
  repeat match goal with
  | H : match ?c with Ok _ => _ | Err _ => _ end = Ok _ |- _ =>
      let E := fresh "E" in destruct c eqn:E; [|discriminate H]
  | H : add _ _ = Ok _ |- _ => apply add_Ok in H as [-> ?]
  | H : ok_or _ _ = Ok _ |- _ => apply ok_or_Ok in H
  | H : from_wire _ = Some _ |- _ => apply from_wire_Some in H as ->
  | H : provider_from_wire _ = Some _ |- _ => apply provider_from_wire_Some in H as ->
  | H : Ok _ = Ok _ |- _ => injection H as <- <-
  | H : Ok _ = Ok _ |- _ => injection H as <-
  end.

(** Run the reads of a decoder on the segments in the context. *)
Ltac run_reads Hb Hlen :=
  repeat first
    [ rewrite (add_in _ Hlen) by lia; cbn [Nat.add]
    | rewrite (proj2 (u8_at_Ok _ Hb _ _)) by eauto
    | unfold u16_at, u128_at, addr_at, b256_at, u256_at;
      rewrite (proj2 (num_at_Ok _ Hb Hlen _ _ _)) by eauto ].


(** Split a conjunction as written, closing what the context has. *)
Ltac conjs := repeat match goal with |- _ /\ _ => split end; try done.

(** Replace the reads in the context by what they found. *)
Ltac inv_fields Hb Hlen :=
  repeat match goal with
  | H : u8_at _ _ = Ok _ |- _ => apply (u8_at_Ok _ Hb) in H as [? ?]
  | H : u16_at _ _ = Ok _ |- _ => apply (num_at_Ok _ Hb Hlen) in H as [? ?]
  | H : u128_at _ _ = Ok _ |- _ => apply (num_at_Ok _ Hb Hlen) in H as [? ?]
  | H : addr_at _ _ = Ok _ |- _ => apply (num_at_Ok _ Hb Hlen) in H as [? ?]
  | H : b256_at _ _ = Ok _ |- _ => apply (num_at_Ok _ Hb Hlen) in H as [? ?]
  | H : u256_at _ _ = Ok _ |- _ => apply (num_at_Ok _ Hb Hlen) in H as [? ?]
  | H : take_at _ _ _ = Ok _ |- _ => apply (take_at_Ok _ Hlen) in H as [? ?]
  end.

(** ** Decoders and layouts *)

Section Layout.
Context (b : list Z) (Hb : bytes_ok b) (Hlen : Z.of_nat (length b) <= umax 64).

Lemma decode_swap_leg_Ok o s next :
  decode_swap_leg b o = Ok (s, next) <->
  swap_ok s /\ seg b o (swap_bytes s) /\ next = (o + length (swap_bytes s))%nat.
Proof.
  unfold swap_bytes. split.
  - unfold decode_swap_leg. cbv zeta. intros H. inv_reads. inv_fields Hb Hlen.
    unfold swap_ok; cbn [ws_venue ws_token_in ws_token_out ws_flags ws_amount ws_data].
    match goal with E : length ?l = Z.to_nat ?z, F : field 2 ?z |- _ =>
      assert (Z.of_nat (length l) = z) as -> by (unfold field in F; lia) end.
    rewrite !length_app, !be_length. layout_goal.
    unfold SWAP_LEG_HEAD_LEN in *. conjs; [by eapply seg_ok|lia].
  - intros (Hok & Hs & ->). destruct s as [v ti to f a d]. unfold swap_ok in Hok.
    cbn [ws_venue ws_token_in ws_token_out ws_flags ws_amount ws_data] in *.
    pose proof (seg_le _ _ _ Hs) as Hle. rewrite ?length_app, ?be_length in *.
    split_layout Hs. destruct_and! Hok.
    unfold decode_swap_leg, SWAP_LEG_HEAD_LEN. cbv zeta. run_reads Hb Hlen.
    rewrite Nat2Z.id. rewrite (proj2 (take_at_Ok _ Hlen _ _ d)) by done.
    run_reads Hb Hlen. do 2 f_equal. lia.
Qed.

Lemma decode_tail_Ok a o t :
  decode_tail b a o = Ok t -> tail_ok a t /\ (o <= length b -> seg b o (tail_bytes t))%nat.
Proof.
  destruct a; cbn [decode_tail]; intros H; inv_reads; inv_fields Hb Hlen; cbn [tail_ok tail_bytes];
    try (split; [conjs|intros; layout_goal; conjs; by auto with liq]; fail).
  destruct (decide (a1 = 0)) as [->|]; [|destruct (decide (a1 = 1)) as [->|]].
  1, 2: injection H as <-; cbn [tail_ok tail_bytes Z.b2z]; split; [done|intros; layout_goal; conjs].
  destruct a1 as [|[]|]; done.
Qed.

Lemma decode_tail_run a o t :
  tail_ok a t -> seg b o (tail_bytes t) -> decode_tail b a o = Ok t.
Proof.
  intros Hok Hs. pose proof (seg_le _ _ _ Hs) as Hle.
  destruct a, t; try done; cbn [tail_ok tail_bytes decode_tail] in *;
    rewrite ?length_app, ?be_length in Hle; split_layout Hs; destruct_and? Hok;
    run_reads Hb Hlen; try done.
  rewrite (proj2 (u8_at_Ok _ Hb _ (Z.b2z full))); [by destruct full|].
  split; [destruct full; unfold field; simpl; lia|done].
Qed.

Lemma tail_bytes_length a t : tail_ok a t -> length (tail_bytes t) = adapter_tail_len a.
Proof. destruct a, t; try done; intros; cbn [tail_bytes]; by rewrite ?length_app, ?be_length. Qed.

Lemma liq_head_length l : length (liq_head_bytes l) = LIQ_LEG_LEN.
Proof. unfold liq_head_bytes. by rewrite !length_app, !be_length. Qed.

Lemma liq_bytes_length l :
  liq_ok l -> length (liq_bytes l) = (LIQ_LEG_LEN + adapter_tail_len (wl_adapter l))%nat.
Proof.
  intros Hl. destruct_and! Hl. unfold liq_bytes.
  rewrite length_app, liq_head_length. by erewrite tail_bytes_length.
Qed.

Lemma decode_liq_leg_Ok o l next :
  decode_liq_leg b o = Ok (l, next) <->
  liq_ok l /\ seg b o (liq_bytes l) /\ next = (o + length (liq_bytes l))%nat.
Proof.
  split.
  - unfold decode_liq_leg. intros H. inv_reads.
    match goal with E : decode_tail _ _ _ = Ok _ |- _ => apply decode_tail_Ok in E as [Ht Hs] end.
    inv_fields Hb Hlen.
    match goal with |- liq_ok ?l /\ _ => assert (liq_ok l) as Hl by (unfold liq_ok; conjs) end.
    split; [done|]. rewrite liq_bytes_length by done. split; [|cbn [wl_adapter]; lia].
    unfold liq_bytes. rewrite seg_app, liq_head_length. split.
    + unfold liq_head_bytes. cbn [wl_adapter wl_market wl_borrower wl_collateral_asset
        wl_repay_amount]. layout_goal. conjs.
    + apply Hs. unfold LIQ_LEG_LEN.
      match goal with E : seg b (o + 61) _ |- _ => apply seg_le in E; rewrite be_length in E end.
      lia.
  - intros (Hl & Hs & ->). pose proof (seg_le _ _ _ Hs) as Hle.
    rewrite liq_bytes_length in * by done. unfold liq_bytes in Hs.
    rewrite seg_app, liq_head_length in Hs. destruct Hs as [Hs Ht].
    destruct l as [a m bo c r t]. destruct Hl as (Hm & Hbo & Hc & Hr & Htok).
    unfold liq_head_bytes in Hs.
    cbn [wl_adapter wl_market wl_borrower wl_collateral_asset wl_repay_amount wl_tail] in *.
    split_layout Hs. unfold decode_liq_leg, LIQ_LEG_LEN in *.
    rewrite (proj2 (u8_at_Ok _ Hb _ _)) by (split; [apply adapter_u8_byte|done]).
    rewrite from_wire_u8. cbn [ok_or]. rewrite (add_in _ Hlen) by lia.
    rewrite (decode_tail_run _ _ _ Htok Ht). run_reads Hb Hlen.
    do 2 f_equal. lia.
Qed.

(** *** Sequences of legs *)

Lemma walk_n_Ok {A} (dec : list Z -> nat -> WRes (A * nat)) (ok : A -> Prop) (bs : A -> list Z) :
  (forall o x next, dec b o = Ok (x, next) <->
     ok x /\ seg b o (bs x) /\ next = (o + length (bs x))%nat) ->
  forall n o l o', (o <= length b)%nat ->
  walk_n dec b o n = Ok (l, o') <->
  length l = n /\ Forall ok l /\ seg b o (flat_map bs l) /\
  o' = (o + length (flat_map bs l))%nat.
Proof.
  intros Hdec. induction n as [|n IH]; intros o l o' Ho; cbn [walk_n].
  - split.
    + intros [= <- <-]. conjs; first [by apply seg_nil|by constructor|simpl; lia].
    + intros (Hl & _ & _ & ->). destruct l; [|done]. simpl. by rewrite Nat.add_0_r.
  - rewrite bind_Ok. split.
    + intros ([x next] & Hx & H). apply bind_Ok in H as ([l1 o1] & H1 & [= <- <-]).
      apply Hdec in Hx as (Hok & Hs & ->). apply IH in H1 as (Hl & Hf & Hs1 & ->);
        [|by apply seg_le in Hs].
      cbn [flat_map length]. rewrite seg_app, length_app. conjs; first [by f_equal|by constructor|lia].
    + intros (Hl & Hf & Hs & ->). destruct l as [|x l]; [done|].
      apply Forall_cons in Hf as [Hok Hf]. cbn [flat_map length] in *.
      apply seg_app in Hs as [Hs Hs1]. exists (x, (o + length (bs x))%nat).
      split; [by apply Hdec|]. apply bind_Ok.
      exists (l, (o + length (bs x) + length (flat_map bs l))%nat). split.
      * apply IH; [by apply seg_le in Hs|]. conjs. lia.
      * rewrite length_app. do 2 f_equal. lia.
Qed.

Lemma num_at_total o n : (o + n <= length b)%nat -> exists x, map_res of_be (take_at b o n) = Ok x.
Proof.
  intros H. unfold take_at, checked_add_nat.
  rewrite (proj2 (Z.leb_le _ _)) by lia. simpl. rewrite (proj2 (Nat.leb_le _ _) H). eauto.
Qed.

Lemma u8_at_total o : (o < length b)%nat -> exists x, u8_at b o = Ok x.
Proof. intros [x H]%lookup_lt_is_Some. exists x. unfold u8_at. by rewrite H. Qed.

Lemma within_Ok o o' : within b o = Ok o' <-> o' = o /\ (o <= length b)%nat.
Proof. unfold within. destruct (Nat.ltb_spec (length b) o); naive_solver lia. Qed.

Lemma skip_swap_loop_le n : forall o o', skip_swap_loop b o n = Ok o' -> (o <= o')%nat.
Proof.
  induction n as [|n IH]; intros o o' H; cbn [skip_swap_loop] in H; [by simplify_eq|].
  inv_reads. apply IH in H. lia.
Qed.

Lemma skip_liq_loop_le n : forall o o', skip_liq_loop b o n = Ok o' -> (o <= o')%nat.
Proof.
  induction n as [|n IH]; intros o o' H; cbn [skip_liq_loop] in H; [by simplify_eq|].
  inv_reads. apply IH in H. lia.
Qed.

(** Run the reads of a decoder inside the buffer, whatever they find. *)
Ltac total_reads :=
  repeat first
    [ rewrite (add_in _ Hlen) by lia
    | match goal with |- context [u8_at b ?o] =>
        let x := fresh "x" in let E := fresh "E" in
        destruct (u8_at_total o) as [x E]; [lia|rewrite E] end
    | match goal with |- context [map_res of_be (take_at b ?o ?n)] =>
        let x := fresh "x" in let E := fresh "E" in
        destruct (num_at_total o n) as [x E]; [lia|rewrite E] end ].

Lemma decode_swap_total o n :
  u16_at b (o + 58) = Ok n -> (o + 60 + Z.to_nat n <= length b)%nat ->
  exists s, decode_swap_leg b o = Ok (s, o + 60 + Z.to_nat n)%nat.
Proof.
  intros Hn Hle. unfold decode_swap_leg, SWAP_LEG_HEAD_LEN. cbv zeta.
  rewrite (add_in _ Hlen) by lia. rewrite Hn.
  rewrite (add_in _ Hlen) by lia.
  rewrite (proj2 (take_at_Ok _ Hlen _ _ (take (Z.to_nat n) (drop (o + 60) b)))).
  2: { split; [rewrite length_take, length_drop; lia|by apply seg_intro]. }
  unfold u128_at, addr_at. total_reads. eauto.
Qed.

Lemma skip_swap_walk n : forall o o',
  skip_swap_loop b o n = Ok o' -> (o' <= length b)%nat ->
  exists l, walk_n decode_swap_leg b o n = Ok (l, o').
Proof.
  induction n as [|n IH]; intros o o' H Hle; cbn [skip_swap_loop walk_n] in *.
  { injection H as <-. eauto. }
  inv_reads. pose proof (skip_swap_loop_le _ _ _ H) as Hm. unfold SWAP_LEG_HEAD_LEN in *.
  edestruct (decode_swap_total o) as [s Hs]; [done|lia|].
  rewrite Hs. edestruct IH as [l Hl]; [exact H|done|]. rewrite Hl. eauto.
Qed.

Lemma walk_skip_swap n : forall o l o',
  walk_n decode_swap_leg b o n = Ok (l, o') -> skip_swap_loop b o n = Ok o'.
Proof.
  induction n as [|n IH]; intros o l o' H; cbn [skip_swap_loop walk_n] in *; [by simplify_eq|].
  apply bind_Ok in H as ([s next] & Hs & H). apply bind_Ok in H as ([l1 o1] & H & [= <- <-]).
  apply IH in H. revert Hs. unfold decode_swap_leg. cbv zeta. intros Hs. inv_reads. done.
Qed.

Lemma decode_tail_total a t :
  (t + adapter_tail_len a <= length b)%nat ->
  (exists x, decode_tail b a t = Ok x) \/ exists m, decode_tail b a t = Err (BadGearboxMode m).
Proof.
  intros H. destruct a; cbn [adapter_tail_len decode_tail] in *;
    unfold u16_at, addr_at, b256_at, u256_at; total_reads; eauto.
  repeat case_match; eauto.
Qed.

Lemma decode_liq_total o a ad :
  u8_at b o = Ok a -> from_wire a = Some ad ->
  (o + LIQ_LEG_LEN + adapter_tail_len ad <= length b)%nat ->
  (exists l, decode_liq_leg b o = Ok (l, o + LIQ_LEG_LEN + adapter_tail_len ad)%nat) \/
  exists m, decode_liq_leg b o = Err (BadGearboxMode m).
Proof.
  intros Ha Had Hle. unfold decode_liq_leg. rewrite Ha, Had. cbn [ok_or].
  unfold LIQ_LEG_LEN in *. rewrite (add_in _ Hlen) by lia.
  destruct (decode_tail_total ad (o + 77)%nat Hle) as [[x ->]|[m ->]]; [left|eauto].
  unfold u128_at, addr_at. total_reads. eauto.
Qed.

Lemma tail_len_Ok a n :
  tail_len a = Ok n <-> exists ad, from_wire a = Some ad /\ n = adapter_tail_len ad.
Proof. unfold tail_len. destruct (from_wire a); simpl; naive_solver. Qed.

Lemma skip_liq_walk n : forall o o',
  skip_liq_loop b o n = Ok o' -> (o' <= length b)%nat ->
  (exists l, walk_n decode_liq_leg b o n = Ok (l, o')) \/
  exists m, walk_n decode_liq_leg b o n = Err (BadGearboxMode m).
Proof.
  induction n as [|n IH]; intros o o' H Hle; cbn [skip_liq_loop walk_n] in *.
  { injection H as <-. eauto. }
  inv_reads. pose proof (skip_liq_loop_le _ _ _ H) as Hm.
  match goal with E : tail_len _ = Ok _ |- _ => apply tail_len_Ok in E as (ad & Had & ->) end.
  edestruct decode_liq_total as [[l Hl]|[m Hl]]; [done|exact Had|lia| |].
  - rewrite Hl. edestruct IH as [[l' Hl']|[m Hl']]; [exact H|done| |]; rewrite Hl'; eauto.
  - rewrite Hl. eauto.
Qed.

Lemma walk_skip_liq n : forall o l o',
  walk_n decode_liq_leg b o n = Ok (l, o') -> skip_liq_loop b o n = Ok o'.
Proof.
  induction n as [|n IH]; intros o l o' H; cbn [skip_liq_loop walk_n] in *; [by simplify_eq|].
  apply bind_Ok in H as ([s next] & Hs & H). apply bind_Ok in H as ([l1 o1] & H & [= <- <-]).
  apply IH in H. revert Hs. unfold decode_liq_leg. intros Hs. inv_reads.
  unfold tail_len. rewrite from_wire_u8. cbn [option_map ok_or].
  by rewrite (proj2 (add_Ok _ _ _)) by eauto.
Qed.

(** *** Groups *)

Definition head_bytes (h : GroupHead) : list Z :=
  be 1 (flash_u8 (gh_provider h)) ++ be 20 (gh_flash_source h) ++ be 20 (gh_debt_asset h) ++
  be 16 (gh_flash_amount h) ++ be 1 (gh_liq_count h) ++ be 1 (gh_repay_swap_count h).

Definition head_ok (h : GroupHead) : Prop :=
  field 20 (gh_flash_source h) /\ field 20 (gh_debt_asset h) /\ field 16 (gh_flash_amount h) /\
  field 1 (gh_liq_count h) /\ field 1 (gh_repay_swap_count h).

Lemma head_bytes_length h : length (head_bytes h) = GROUP_HEAD_LEN.
Proof. unfold head_bytes. by rewrite !length_app, !be_length. Qed.

Lemma decode_group_Ok o h :
  decode_group b o = Ok h <->
  head_ok h /\ seg b o (head_bytes h) /\ gh_liq_offset h = (o + GROUP_HEAD_LEN)%nat /\
  skip_liq_legs b (gh_liq_offset h) (gh_liq_count h) = Ok (gh_repay_swap_offset h) /\
  skip_swap_legs b (gh_repay_swap_offset h) (gh_repay_swap_count h) = Ok (gh_next h).
Proof.
  unfold head_ok, head_bytes. split.
  - unfold decode_group. intros H. inv_reads. inv_fields Hb Hlen.
    cbn [gh_provider gh_flash_source gh_debt_asset gh_flash_amount gh_liq_count
      gh_repay_swap_count gh_liq_offset gh_repay_swap_offset gh_next]. layout_goal. conjs.
  - destruct h as [p fs da fa lc rc lo ro nx].
    cbn [gh_provider gh_flash_source gh_debt_asset gh_flash_amount gh_liq_count
      gh_repay_swap_count gh_liq_offset gh_repay_swap_offset gh_next].
    intros (Hok & Hs & -> & Hl & Hr). destruct_and! Hok. pose proof (seg_le _ _ _ Hs) as Hle.
    rewrite !length_app, !be_length in Hle. split_layout Hs.
    unfold decode_group, GROUP_HEAD_LEN in *.
    rewrite (proj2 (u8_at_Ok _ Hb _ _)) by (split; [apply flash_u8_byte|done]).
    rewrite provider_from_wire_u8. cbn [ok_or]. run_reads Hb Hlen.
    rewrite Hl, Hr. by run_reads Hb Hlen.
Qed.
End Layout.
