(* ===== verification/Plan.v ===== *)
(** The batch plan and its packed encoding ([crates/liq-plan/src/types.rs], [error.rs],
    [encode.rs]).

    The encoder appends to a buffer; [encode_liq_app] and the like turn each step into the
    layout of [Wire]. Both directions of the codec follow: what was encoded is decoded back,
    less the two fields that are not on the wire, and what decodes was encoded from its
    result. *)

From S2P Require Import Prelude Types Halt Bytes Wire.
From stdpp Require Import strings.
Local Open Scope Z_scope.

(** * Types *)

Record LiqLeg := mkLiq {
  l_adapter : ExecutorAdapter; l_market : Z; l_borrower : Z; l_collateral_asset : Z;
  l_repay_amount : Z; l_tail : LegTail; l_protocol_pull : Z }.

Record SwapLeg := mkSwap {
  s_venue : Z; s_token_in : Z; s_token_out : Z; s_flags : Z; s_amount : Z;
  s_data : list Z }.

Record FlashGroup := mkFlash {
  fg_provider : FlashProvider; fg_flash_source : Z; fg_debt_asset : Z; fg_flash_amount : Z;
  fg_fee_bps : Z; fg_liqs : list LiqLeg; fg_repay_swaps : list SwapLeg }.

Record BatchPlan := mkBatch {
  bp_flags : Z; bp_bid_bps : Z; bp_gas_cost_wei : Z; bp_min_profit_wei : Z;
  bp_groups : list FlashGroup; bp_profit_swaps : list SwapLeg }.

#[export] Instance PlanLiq_eq_dec : EqDecision LiqLeg.
Proof. solve_decision. Defined.
#[export] Instance PlanSwap_eq_dec : EqDecision SwapLeg.
Proof. solve_decision. Defined.
#[export] Instance FlashGroup_eq_dec : EqDecision FlashGroup.
Proof. solve_decision. Defined.
#[export] Instance BatchPlan_eq_dec : EqDecision BatchPlan.
Proof. solve_decision. Defined.

(** [EncodedPlan(Vec<u8>)]. *)
Abbreviation EncodedPlan := (list Z) (only parsing).

Inductive EncodeError :=
  | BadChain (what : string)
  | ENoGroups
  | NoLegs
  | TooManyGroups
  | TooManyLegs
  | DataTooLong (n : nat)
  | BadCollateralClosure (collateral : Z) (closers need : nat)
  | SpentAfterTakeBalance (token : Z)
  | RepayTargetMismatch (group : Z)
  | ProfitTargetNotWeth (weth : Z)
  | TooManySourcesForDebt (debt : Z) (n : nat)
  | DuplicateSourceForDebt (debt : Z) (provider : FlashProvider)
  | V4ReserveUnpinned (spoke id : Z)
  | V4ReserveMismatch (spoke id pinned got : Z)
  | V4TailShape
  | MorphoIdUnknown (id : Z)
  | MorphoTokenMismatch (id loan coll debt got_coll : Z)
  | MorphoIdHashMismatch (id : Z)
  | MorphoTailShape
  | V3TailShape
  | EulerTailShape
  | EulerZeroVault
  | SiloTailShape
  | LiquityTailShape
  | LiquityZeroTrove
  | FluidTailShape
  | FluidZeroColPer
  | FluidBadKind (k : Z)
  | FluidBadFlags (f : Z)
  | FluidPerShare (k : Z)
  | FluidColPerConvert
  | GearboxTailShape
  | GearboxZeroMinSeized
  | CompoundTailShape
  | CompoundZeroCToken
  | CompoundBadFlag
  | CompoundUnpinned (market ctoken_collateral : Z)
  | CompoundMarketMismatch (pinned got : Z)
  | CompoundCTokenMismatch (pinned got : Z)
  | CompoundCEtherMismatch (pinned got : Z)
  | LiquityUnpinned (trove_id : Z)
  | LiquityMarketMismatch (pinned got : Z)
  | LiquityTroveMismatch (pinned got : Z)
  | LiquityBorrowerMismatch (pinned got : Z)
  | UnknownVenue (v : Z)
  | BadPoolDataLen (n : nat)
  | BadRouterDataLen (n : nat)
  | BadV2DataLen (n : nat)
  | BadV2Factory (f : Z)
  | BadBalancerData (n : nat)
  | BadFluidData (n : nat)
  | BadV3Factory (f : Z)
  | BadCurveDataLen (n : nat)
  | CurveExactOut
  | BadUnwrapData (n : nat)
  | UnwrapExactOut
  | RewardGroupBorrows
  | RewardGroupRepays
  | RewardGroupPulls (pull : Z)
  | FlashSwapLegs (legs : nat)
  | FlashSwapRepaysDebt (debt : Z)
  | FlashSwapLegOnLender (pool : Z)
  | UnwrapNotFirst
  | UnwrapOutputUnclosed (asset : Z)
  | ZeroAddress (field : string)
  | ZeroPull (pull : Z)
  | ZeroMinProfit
  | UnderSeizure (leg : nat) (exact_out pull : Z)
  | RepayNotSizedToPull (leg : nat) (exact_out pull : Z)
  | PremiumUncovered (leg : nat)
  | ExactOutNotDebt (token debt : Z)
  | TieOutOfRange (tie legs : nat)
  | UntiedRepay (token : Z) (legs : nat)
  | TiedTakeBalance (token : Z)
  | TiedProfitLeg (token : Z)
  | TooManyTiedLegs (legs max : nat)
  | FlashShort (flash pull : Z)
  | UnpriceableFee (provider : FlashProvider) (fee_bps : Z)
  | PremiumOverflow
  | SurplusDebtUnrouted (debt flash pull : Z)
  | GovFlagWithoutPayload
  | GovPayloadTwice
  | ZeroSpell
  | PayloadIdRange (id : Z)
  | WireErr (e : WireError).

Abbreviation ERes A := (Result EncodeError A).

(** [#[from] WireError], as [?] applies it. *)
Definition wire {A} (r : WRes A) : ERes A := map_err WireErr r.

(** A loop [for x in &xs { f(&mut b, x)?; }]. *)
Fixpoint try_each {S E A} (f : S -> A -> Result E S) (s : S) (l : list A) : Result E S :=
  match l with
  | [] => Ok s
  | x :: l => let? s' := f s x in try_each f s' l
  end.

(** * The encoder *)

(** [size_hint]: checked sums of the sizes. *)
Definition swap_hint (n : nat) (s : SwapLeg) : ERes nat :=
  ok_or (let! x := checked_add_nat 64 n SWAP_LEG_HEAD_LEN in
         checked_add_nat 64 x (length (s_data s))) TooManyLegs.
Definition liq_hint (n : nat) (l : LiqLeg) : ERes nat :=
  ok_or (let! x := checked_add_nat 64 n LIQ_LEG_LEN in
         checked_add_nat 64 x (adapter_tail_len (l_adapter l))) TooManyLegs.
Definition group_hint (n : nat) (g : FlashGroup) : ERes nat :=
  let? n := ok_or (checked_add_nat 64 n GROUP_HEAD_LEN) TooManyGroups in
  let? n := try_each liq_hint n (fg_liqs g) in
  try_each swap_hint n (fg_repay_swaps g).
Definition size_hint (p : BatchPlan) : ERes nat :=
  let? n := ok_or (checked_add_nat 64 HEADER_LEN 1) TooManyGroups in
  let? n := try_each group_hint n (bp_groups p) in
  let? n := ok_or (checked_add_nat 64 n 1) TooManyLegs in
  try_each swap_hint n (bp_profit_swaps p).

Definition encode_swap (b : list Z) (s : SwapLeg) : ERes (list Z) :=
  let? n := ok_or (try_from 16 (Z.of_nat (length (s_data s))))
              (DataTooLong (length (s_data s))) in
  Ok (b ++ [s_venue s] ++ be 20 (s_token_in s) ++ be 20 (s_token_out s) ++ [s_flags s] ++
      be 16 (s_amount s) ++ be 2 n ++ s_data s).

(** The bytes appended for the tail, or the mismatch of adapter and tail. *)
Definition encode_tail (a : ExecutorAdapter) (t : LegTail) : ERes (list Z) :=
  match a, t with
  | (XAaveV3 | XSiloV2), TNone => Ok []
  | XAaveV4, TAaveV4 c d => Ok (be 2 c ++ be 2 d)
  | XMorphoBlue, TMorpho m => Ok (be 32 m)
  | XEulerV2, TEuler y v => Ok (be 32 y ++ be 20 v)
  | XLiquityV2, TLiquity i => Ok (be 32 i)
  | XFluid, TFluid k f c d s => Ok ([k] ++ [f] ++ be 32 c ++ be 32 d ++ be 32 s)
  | XGearbox, TGearbox m full => Ok (be 32 m ++ [Z.b2z full])
  | XCompoundV2, TCompoundV2 c e => Ok (be 20 c ++ [e])
  | XAaveV3, _ => Err V3TailShape
  | XAaveV4, _ => Err V4TailShape
  | XMorphoBlue, _ => Err MorphoTailShape
  | XEulerV2, _ => Err EulerTailShape
  | XSiloV2, _ => Err SiloTailShape
  | XLiquityV2, _ => Err LiquityTailShape
  | XFluid, _ => Err FluidTailShape
  | XGearbox, _ => Err GearboxTailShape
  | XCompoundV2, _ => Err CompoundTailShape
  end.

Definition encode_liq (b : list Z) (l : LiqLeg) : ERes (list Z) :=
  let b := b ++ [adapter_u8 (l_adapter l)] ++ be 20 (l_market l) ++ be 20 (l_borrower l) ++
           be 20 (l_collateral_asset l) ++ be 16 (l_repay_amount l) in
  let? t := encode_tail (l_adapter l) (l_tail l) in
  Ok (b ++ t).

(** [u8::try_from(n).map_err(|_| e)] and the push of the byte. *)
Definition push_count (n : nat) (e : EncodeError) : ERes (list Z) :=
  let? c := ok_or (try_from 8 (Z.of_nat n)) e in Ok [c].

Definition encode_group (b : list Z) (g : FlashGroup) : ERes (list Z) :=
  let b := b ++ [flash_u8 (fg_provider g)] ++ be 20 (fg_flash_source g) ++
           be 20 (fg_debt_asset g) ++ be 16 (fg_flash_amount g) in
  let? n_l := push_count (length (fg_liqs g)) TooManyLegs in
  let? n_r := push_count (length (fg_repay_swaps g)) TooManyLegs in
  let b := b ++ n_l ++ n_r in
  let? b := try_each encode_liq b (fg_liqs g) in
  try_each encode_swap b (fg_repay_swaps g).

Definition encode_unchecked (p : BatchPlan) : ERes EncodedPlan :=
  if (length (bp_groups p) =? 0)%nat then Err ENoGroups else
  if has_flag (bp_flags p) (Z.lor FLAG_GOV_EXEC FLAG_GOV_SPELL) then Err GovFlagWithoutPayload
  else
  let? _ := size_hint p in
  let b := [bp_flags p] ++ be 2 (bp_bid_bps p) ++ be 16 (bp_gas_cost_wei p) ++
           be 16 (bp_min_profit_wei p) in
  if negb (length b =? HEADER_LEN)%nat then Err ENoGroups else
  let? n_g := push_count (length (bp_groups p)) TooManyGroups in
  let? b := try_each encode_group (b ++ n_g) (bp_groups p) in
  let? n_p := push_count (length (bp_profit_swaps p)) TooManyLegs in
  try_each encode_swap (b ++ n_p) (bp_profit_swaps p).

(** * The decoder *)

Definition swap_owned (s : Wire.SwapLeg) : SwapLeg :=
  mkSwap (ws_venue s) (ws_token_in s) (ws_token_out s) (ws_flags s) (ws_amount s) (ws_data s).

Definition liq_owned (l : Wire.LiqLeg) : LiqLeg :=
  mkLiq (wl_adapter l) (wl_market l) (wl_borrower l) (wl_collateral_asset l)
    (wl_repay_amount l) (wl_tail l) 0.

(** The body of the group loop: the group at [o] and the offset of the next. *)
Definition decode_flash_group (b : list Z) (o : nat) : WRes (FlashGroup * nat) :=
  let? head := decode_group b o in
  let? (liqs, _) := walk_n decode_liq_leg b (gh_liq_offset head)
                      (Z.to_nat (gh_liq_count head)) in
  let? (repay_swaps, _) := walk_n decode_swap_leg b (gh_repay_swap_offset head)
                             (Z.to_nat (gh_repay_swap_count head)) in
  Ok (mkFlash (gh_provider head) (gh_flash_source head) (gh_debt_asset head)
        (gh_flash_amount head) 0 (map liq_owned liqs) (map swap_owned repay_swaps),
      gh_next head).

Definition decode_batch (bytes : list Z) : ERes BatchPlan :=
  let? plan := wire (parse bytes) in
  let h := pl_header plan in
  let? o := ok_or (checked_add_nat 64 HEADER_LEN 1) TooManyGroups in
  let? (groups, _) := wire (walk_n decode_flash_group bytes o (Z.to_nat (h_group_count h))) in
  let po := h_profit_swap_offset h in
  let? n_p := ok_or (bytes !! po)
    (WireErr (Truncated (Z.to_nat (saturating_add 64 (Z.of_nat po) 1)) (length bytes))) in
  let? so := ok_or (checked_add_nat 64 po 1) TooManyLegs in
  let? (profit_swaps, _) := wire (walk_n decode_swap_leg bytes so (Z.to_nat n_p)) in
  Ok (mkBatch (h_flags h) (h_bid_bps h) (h_gas_cost_wei h) (h_min_profit h) groups
        (map swap_owned profit_swaps)).

(** * Governance plans *)

(** [flags] set in the first byte. *)
Definition gov_flags (b : EncodedPlan) : ERes Z :=
  let? flags := ok_or (head b) ENoGroups in
  if has_flag flags (Z.lor FLAG_GOV_EXEC FLAG_GOV_SPELL) then Err GovPayloadTwice
  else Ok flags.

(** The last five of the eight big-endian bytes. *)
Definition with_gov_payload (b : EncodedPlan) (payload_id : Z) : ERes EncodedPlan :=
  if PAYLOAD_ID_MAX <? payload_id then Err (PayloadIdRange payload_id) else
  let? flags := gov_flags b in
  let tail := drop (8 - PAYLOAD_ID_LEN) (be 8 payload_id) in
  let b' := <[0%nat := Z.lor flags FLAG_GOV_EXEC]> b ++ tail in
  let? _ := wire (parse b') in
  Ok b'.

Definition with_gov_spell (b : EncodedPlan) (spell : Z) : ERes EncodedPlan :=
  if spell =? 0 then Err ZeroSpell else
  let? flags := gov_flags b in
  let b' := <[0%nat := Z.lor flags FLAG_GOV_SPELL]> b ++ be 20 spell in
  let? _ := wire (parse b') in
  Ok b'.

(** * Surplus legs *)

(** What the group's legs pull, saturating. *)
Definition sat_pull (g : FlashGroup) : Z :=
  foldl (fun a l => saturating_add 128 a (l_protocol_pull l)) 0 (fg_liqs g).

Definition routes_surplus (debt weth : Z) (s : SwapLeg) : bool :=
  (s_token_in s =? debt) && (s_token_out s =? weth) && has_flag (s_flags s) LEG_TAKE_BALANCE.

Definition surplus_leg (weth pool : Z) (swaps : list SwapLeg) (g : FlashGroup) : list SwapLeg :=
  if (fg_debt_asset g =? weth) || (fg_flash_amount g <=? sat_pull g) then swaps else
  if existsb (routes_surplus (fg_debt_asset g) weth) swaps then swaps else
  swaps ++ [mkSwap VENUE_UNIV3_POOL (fg_debt_asset g) weth LEG_TAKE_BALANCE 0 (be 20 pool)].

Definition ensure_surplus_borrow_profit_legs (plan : BatchPlan) (weth univ3_pool : Z)
    : BatchPlan :=
  mkBatch (bp_flags plan) (bp_bid_bps plan) (bp_gas_cost_wei plan) (bp_min_profit_wei plan)
    (bp_groups plan) (foldl (surplus_leg weth univ3_pool) (bp_profit_swaps plan) (bp_groups plan)).

(** * Layout of a plan *)

(** The legs as the wire has them. *)
Definition wire_swap (s : SwapLeg) : Wire.SwapLeg :=
  mkWSwap (s_venue s) (s_token_in s) (s_token_out s) (s_flags s) (s_amount s) (s_data s).
Definition wire_liq (l : LiqLeg) : Wire.LiqLeg :=
  mkWLiq (l_adapter l) (l_market l) (l_borrower l) (l_collateral_asset l) (l_repay_amount l)
    (l_tail l).

Definition swaps_bytes (l : list SwapLeg) : list Z := flat_map (fun s => swap_bytes (wire_swap s)) l.
Definition liqs_bytes (l : list LiqLeg) : list Z := flat_map (fun s => liq_bytes (wire_liq s)) l.

(** The head of a group whose legs start at [o]. *)
Definition group_head (g : FlashGroup) (o : nat) : GroupHead :=
  let lo := (o + GROUP_HEAD_LEN)%nat in
  let so := (lo + length (liqs_bytes (fg_liqs g)))%nat in
  mkHead (fg_provider g) (fg_flash_source g) (fg_debt_asset g) (fg_flash_amount g)
    (Z.of_nat (length (fg_liqs g))) (Z.of_nat (length (fg_repay_swaps g))) lo so
    (so + length (swaps_bytes (fg_repay_swaps g)))%nat.

Definition group_bytes (g : FlashGroup) : list Z :=
  head_bytes (group_head g 0) ++ liqs_bytes (fg_liqs g) ++ swaps_bytes (fg_repay_swaps g).

Definition swaps_ok (l : list SwapLeg) : Prop := Forall (fun s => swap_ok (wire_swap s)) l.
Definition liqs_ok (l : list LiqLeg) : Prop := Forall (fun s => liq_ok (wire_liq s)) l.
Definition group_ok (g : FlashGroup) : Prop :=
  head_ok (group_head g 0) /\ liqs_ok (fg_liqs g) /\ swaps_ok (fg_repay_swaps g).

Definition header_bytes (p : BatchPlan) : list Z :=
  be 1 (bp_flags p) ++ be 2 (bp_bid_bps p) ++ be 16 (bp_gas_cost_wei p) ++
  be 16 (bp_min_profit_wei p) ++ be 1 (Z.of_nat (length (bp_groups p))).

Definition plan_bytes (p : BatchPlan) : list Z :=
  header_bytes p ++ flat_map group_bytes (bp_groups p) ++
  be 1 (Z.of_nat (length (bp_profit_swaps p))) ++ swaps_bytes (bp_profit_swaps p).

Definition header_ok (p : BatchPlan) : Prop :=
  field 1 (bp_flags p) /\ field 2 (bp_bid_bps p) /\ field 16 (bp_gas_cost_wei p) /\
  field 16 (bp_min_profit_wei p) /\ field 1 (Z.of_nat (length (bp_groups p))) /\
  field 1 (Z.of_nat (length (bp_profit_swaps p))) /\ bp_groups p <> [].

Definition plan_ok (p : BatchPlan) : Prop :=
  header_ok p /\ Forall group_ok (bp_groups p) /\ swaps_ok (bp_profit_swaps p).

(** What the wire keeps of a plan: not [protocol_pull] and [fee_bps]. *)
Definition strip_liq (l : LiqLeg) : LiqLeg := liq_owned (wire_liq l).
Definition strip_group (g : FlashGroup) : FlashGroup :=
  mkFlash (fg_provider g) (fg_flash_source g) (fg_debt_asset g) (fg_flash_amount g) 0
    (map strip_liq (fg_liqs g)) (fg_repay_swaps g).
Definition on_wire (p : BatchPlan) : BatchPlan :=
  mkBatch (bp_flags p) (bp_bid_bps p) (bp_gas_cost_wei p) (bp_min_profit_wei p)
    (map strip_group (bp_groups p)) (bp_profit_swaps p).

(** The ranges Rust's types give the fields of a plan. *)
Definition swap_typed (s : SwapLeg) : Prop :=
  field 1 (s_venue s) /\ field 20 (s_token_in s) /\ field 20 (s_token_out s) /\
  field 1 (s_flags s) /\ field 16 (s_amount s) /\ bytes_ok (s_data s).
Definition tail_typed (t : LegTail) : Prop :=
  match t with
  | TNone => True
  | TAaveV4 c d => field 2 c /\ field 2 d
  | TMorpho m => field 32 m
  | TEuler y v => field 32 y /\ field 20 v
  | TLiquity i => field 32 i
  | TFluid k f c d s => field 1 k /\ field 1 f /\ field 32 c /\ field 32 d /\ field 32 s
  | TGearbox m _ => field 32 m
  | TCompoundV2 c e => field 20 c /\ field 1 e
  end.
Definition liq_typed (l : LiqLeg) : Prop :=
  field 20 (l_market l) /\ field 20 (l_borrower l) /\ field 20 (l_collateral_asset l) /\
  field 16 (l_repay_amount l) /\ tail_typed (l_tail l).
Definition group_typed (g : FlashGroup) : Prop :=
  field 20 (fg_flash_source g) /\ field 20 (fg_debt_asset g) /\ field 16 (fg_flash_amount g) /\
  Forall liq_typed (fg_liqs g) /\ Forall swap_typed (fg_repay_swaps g).
Definition plan_typed (p : BatchPlan) : Prop :=
  field 1 (bp_flags p) /\ field 2 (bp_bid_bps p) /\ field 16 (bp_gas_cost_wei p) /\
  field 16 (bp_min_profit_wei p) /\ Forall group_typed (bp_groups p) /\
  Forall swap_typed (bp_profit_swaps p).

#[export] Instance field_dec n x : Decision (field n x).
Proof. unfold field. apply _. Defined.
#[export] Instance swap_typed_dec s : Decision (swap_typed s).
Proof. unfold swap_typed. apply _. Defined.
#[export] Instance tail_typed_dec t : Decision (tail_typed t).
Proof. destruct t; simpl; apply _. Defined.
#[export] Instance liq_typed_dec l : Decision (liq_typed l).
Proof. unfold liq_typed. apply _. Defined.
#[export] Instance group_typed_dec g : Decision (group_typed g).
Proof. unfold group_typed. apply _. Defined.
#[export] Instance plan_typed_dec p : Decision (plan_typed p).
Proof. unfold plan_typed. apply _. Defined.

(** * The encoder writes the layout *)

Lemma wire_swap_owned s : wire_swap (swap_owned s) = s.
Proof. by destruct s. Qed.
Lemma swap_owned_wire s : swap_owned (wire_swap s) = s.
Proof. by destruct s. Qed.
Lemma wire_liq_owned l : wire_liq (liq_owned l) = l.
Proof. by destruct l. Qed.

Lemma encode_swap_ok b s :
  swap_ok (wire_swap s) -> encode_swap b s = Ok (b ++ swap_bytes (wire_swap s)).
Proof.
  destruct s as [v ti to f a d]. unfold swap_ok, encode_swap, swap_bytes, wire_swap.
  cbn [ws_venue ws_token_in ws_token_out ws_flags ws_amount ws_data s_venue s_token_in
    s_token_out s_flags s_amount s_data].
  intros (Hv & _ & _ & Hf & _ & Hd & _).
  rewrite try_from_ok by (by apply (field_uint 2)). cbn [ok_or].
  by rewrite !be_1 by (by apply field_byte).
Qed.

Lemma encode_swap_inv b s b' :
  swap_typed s -> encode_swap b s = Ok b' -> swap_ok (wire_swap s).
Proof.
  destruct s as [v ti to f a d]. unfold swap_typed, swap_ok, encode_swap, wire_swap.
  cbn [ws_venue ws_token_in ws_token_out ws_flags ws_amount ws_data s_venue s_token_in
    s_token_out s_flags s_amount s_data].
  intros Ht H. destruct_and! Ht. inv_reads.
  match goal with E : try_from _ _ = Some _ |- _ => apply try_from_Some in E as [-> E] end.
  conjs. by apply (field_uint 2 16).
Qed.

Lemma encode_tail_ok a t : tail_ok a t -> encode_tail a t = Ok (tail_bytes t).
Proof.
  destruct a, t; try done; cbn [tail_ok encode_tail tail_bytes]; intros Ht; destruct_and? Ht;
    rewrite ?be_1; try done; try (by apply field_byte).
  destruct full; apply byte_range; simpl; lia.
Qed.

Lemma encode_tail_inv a t r : tail_typed t -> encode_tail a t = Ok r -> tail_ok a t.
Proof. by destruct a, t. Qed.

Lemma encode_liq_ok b l :
  liq_ok (wire_liq l) -> encode_liq b l = Ok (b ++ liq_bytes (wire_liq l)).
Proof.
  destruct l as [a m bo c r t pu]. intros Hl. destruct_and! Hl.
  unfold encode_liq, liq_bytes, liq_head_bytes, wire_liq in *.
  cbn [wl_adapter wl_market wl_borrower wl_collateral_asset wl_repay_amount wl_tail l_adapter
    l_market l_borrower l_collateral_asset l_repay_amount l_tail] in *. cbv zeta.
  rewrite encode_tail_ok by done. rewrite be_1 by apply field_byte, adapter_u8_byte.
  by rewrite !app_assoc.
Qed.

Lemma encode_liq_inv b l b' : liq_typed l -> encode_liq b l = Ok b' -> liq_ok (wire_liq l).
Proof.
  destruct l as [a m bo c r t pu]. unfold liq_typed, liq_ok, encode_liq, wire_liq. cbv zeta.
  cbn [wl_adapter wl_market wl_borrower wl_collateral_asset wl_repay_amount wl_tail l_adapter
    l_market l_borrower l_collateral_asset l_repay_amount l_tail].
  intros Ht H. destruct_and! Ht. inv_reads. conjs. by eapply encode_tail_inv.
Qed.

(** A loop that appends each item's bytes. *)
Lemma try_each_app {E A} (f : list Z -> A -> Result E (list Z)) (ok : A -> Prop) bs l b :
  (forall b x, ok x -> f b x = Ok (b ++ bs x)) -> Forall ok l ->
  try_each f b l = Ok (b ++ flat_map bs l).
Proof.
  intros Hf. revert b. induction l as [|x l IH]; intros b Hl; simpl.
  - by rewrite app_nil_r.
  - apply Forall_cons in Hl as [Hx Hl]. rewrite Hf by done. rewrite IH by done.
    by rewrite app_assoc.
Qed.

Lemma try_each_inv {S E A} (f : S -> A -> Result E S) (P ok : A -> Prop) l s s' :
  (forall s x s', P x -> f s x = Ok s' -> ok x) -> Forall P l ->
  try_each f s l = Ok s' -> Forall ok l.
Proof.
  intros Hf. revert s. induction l as [|x l IH]; intros s Hl H; simpl in H; [constructor|].
  apply Forall_cons in Hl as [Hx Hl]. apply bind_Ok in H as (s1 & H1 & H).
  constructor; eauto.
Qed.

Lemma push_count_Ok n e r : push_count n e = Ok r <-> field 1 (Z.of_nat n) /\ r = be 1 (Z.of_nat n).
Proof.
  unfold push_count. rewrite bind_Ok. setoid_rewrite ok_or_Ok. setoid_rewrite try_from_Some.
  rewrite field_byte. split.
  - intros (x & [-> Hx] & [= <-]). by rewrite be_1.
  - intros [Hx ->]. exists (Z.of_nat n). split; [done|]. by rewrite be_1.
Qed.

Lemma encode_group_ok b g : group_ok g -> encode_group b g = Ok (b ++ group_bytes g).
Proof.
  intros (Hh & Hl & Hs). unfold encode_group, group_bytes. cbv zeta.
  destruct Hh as (_ & _ & _ & Hnl & Hns).
  rewrite !(proj2 (push_count_Ok _ _ _)) by done.
  rewrite (try_each_app encode_liq _ _ _ _ encode_liq_ok Hl).
  rewrite (try_each_app encode_swap _ _ _ _ encode_swap_ok Hs).
  f_equal. unfold head_bytes, group_head, liqs_bytes, swaps_bytes.
  cbn [gh_provider gh_flash_source gh_debt_asset gh_flash_amount gh_liq_count
      gh_repay_swap_count]. rewrite (be_1 (flash_u8 _)) by apply field_byte, flash_u8_byte.
  by rewrite !app_assoc.
Qed.

Lemma encode_group_inv b g b' : group_typed g -> encode_group b g = Ok b' -> group_ok g.
Proof.
  intros (H1 & H2 & H3 & Hl & Hs) H. unfold encode_group in H. cbv zeta in H. inv_reads.
  repeat match goal with E : push_count _ _ = Ok _ |- _ => apply push_count_Ok in E as [? ->] end.
  split; [done|]. split.
  - by eapply try_each_inv; [exact encode_liq_inv|done|].
  - by eapply try_each_inv; [exact encode_swap_inv|done|].
Qed.

(** ** Sizes *)

Definition swaps_size (l : list SwapLeg) : nat :=
  sum_list_with (fun s => SWAP_LEG_HEAD_LEN + length (s_data s))%nat l.
Definition liqs_size (l : list LiqLeg) : nat :=
  sum_list_with (fun x => LIQ_LEG_LEN + adapter_tail_len (l_adapter x))%nat l.
Definition group_size (g : FlashGroup) : nat :=
  (GROUP_HEAD_LEN + liqs_size (fg_liqs g) + swaps_size (fg_repay_swaps g))%nat.
Definition plan_size (p : BatchPlan) : nat :=
  (HEADER_LEN + 1 + sum_list_with group_size (bp_groups p) + 1 +
   swaps_size (bp_profit_swaps p))%nat.

(** A loop of checked sums: the sum, when it fits. *)
Lemma try_each_sum {E A} (f : nat -> A -> Result E nat) (sz : A -> nat) l n m :
  (forall n x m, f n x = Ok m <-> m = (n + sz x)%nat /\ Z.of_nat m <= umax 64) ->
  Z.of_nat n <= umax 64 ->
  try_each f n l = Ok m <-> m = (n + sum_list_with sz l)%nat /\ Z.of_nat m <= umax 64.
Proof.
  intros Hf. revert n. induction l as [|x l IH]; intros n Hn; simpl.
  - rewrite Nat.add_0_r. naive_solver.
  - rewrite bind_Ok. split.
    + intros (s & [-> Hs]%Hf & H). apply IH in H as [-> H]; [|done]. split; [lia|done].
    + intros [-> H]. exists (n + sz x)%nat. rewrite Hf, IH by lia. lia.
Qed.

Lemma checked_add_twice n a c m :
  (let! x := checked_add_nat 64 n a in checked_add_nat 64 x c) = Some m <->
  m = (n + (a + c))%nat /\ Z.of_nat m <= umax 64.
Proof.
  unfold checked_add_nat.
  destruct (Z.leb_spec (Z.of_nat n + Z.of_nat a) (umax 64)); [|split; [done|intros [-> ?]; lia]].
  destruct (Z.leb_spec (Z.of_nat (n + a) + Z.of_nat c) (umax 64)).
  - split; [intros [= <-]|intros [-> ?]; f_equal]; lia.
  - split; [done|]. intros [-> ?]. lia.
Qed.

Lemma swap_hint_Ok n s m :
  swap_hint n s = Ok m <->
  m = (n + (SWAP_LEG_HEAD_LEN + length (s_data s)))%nat /\ Z.of_nat m <= umax 64.
Proof.
  unfold swap_hint. rewrite ok_or_Ok. apply checked_add_twice.
Qed.

Lemma liq_hint_Ok n s m :
  liq_hint n s = Ok m <->
  m = (n + (LIQ_LEG_LEN + adapter_tail_len (l_adapter s)))%nat /\ Z.of_nat m <= umax 64.
Proof.
  unfold liq_hint. rewrite ok_or_Ok. apply checked_add_twice.
Qed.

Lemma group_hint_Ok n g m :
  group_hint n g = Ok m <-> m = (n + group_size g)%nat /\ Z.of_nat m <= umax 64.
Proof.
  unfold group_hint, group_size. rewrite bind_Ok. setoid_rewrite ok_or_Ok.
  setoid_rewrite checked_add_nat_Some. setoid_rewrite bind_Ok. split.
  - intros (a & [-> Ha] & c & Hc & H).
    apply (try_each_sum _ _ _ _ _ liq_hint_Ok) in Hc as [-> Hc]; [|done].
    apply (try_each_sum _ _ _ _ _ swap_hint_Ok) in H as [-> H]; [|done].
    split; [unfold liqs_size, swaps_size; lia|done].
  - intros [-> H]. exists (n + GROUP_HEAD_LEN)%nat. split; [lia|].
    exists (n + GROUP_HEAD_LEN + liqs_size (fg_liqs g))%nat.
    split; [apply (try_each_sum _ _ _ _ _ liq_hint_Ok); unfold liqs_size in *; lia|].
    apply (try_each_sum _ _ _ _ _ swap_hint_Ok); unfold swaps_size in *; lia.
Qed.

Lemma size_hint_Ok p n :
  size_hint p = Ok n <-> n = plan_size p /\ Z.of_nat n <= umax 64.
Proof.
  unfold size_hint, plan_size. cbn [ok_or]. rewrite !bind_Ok.
  setoid_rewrite ok_or_Ok. setoid_rewrite checked_add_nat_Some. setoid_rewrite bind_Ok.
  setoid_rewrite bind_Ok. setoid_rewrite ok_or_Ok. setoid_rewrite checked_add_nat_Some. split.
  - intros (a & [-> Ha] & c & Hc & d & [-> Hd] & H).
    apply (try_each_sum _ _ _ _ _ group_hint_Ok) in Hc as [-> Hc]; [|done].
    apply (try_each_sum _ _ _ _ _ swap_hint_Ok) in H as [-> H]; [|done].
    split; [unfold swaps_size; lia|done].
  - intros [-> H]. exists (HEADER_LEN + 1)%nat. split; [lia|].
    exists (HEADER_LEN + 1 + sum_list_with group_size (bp_groups p))%nat.
    split; [apply (try_each_sum _ _ _ _ _ group_hint_Ok); lia|].
    eexists. split; [split; [reflexivity|lia]|].
    apply (try_each_sum _ _ _ _ _ swap_hint_Ok); unfold swaps_size in *; lia.
Qed.

Lemma swap_bytes_length s :
  length (swap_bytes (wire_swap s)) = (SWAP_LEG_HEAD_LEN + length (s_data s))%nat.
Proof. unfold swap_bytes. rewrite !length_app, !be_length. done. Qed.

Lemma flat_map_length_sum {A} (bs : A -> list Z) (sz : A -> nat) l :
  Forall (fun x => length (bs x) = sz x) l -> length (flat_map bs l) = sum_list_with sz l.
Proof. induction 1 as [|x l Hx _ IH]; simpl; [done|]. by rewrite length_app, Hx, IH. Qed.

Lemma swaps_bytes_length l : length (swaps_bytes l) = swaps_size l.
Proof.
  apply flat_map_length_sum. rewrite Forall_forall. intros s _. apply swap_bytes_length.
Qed.

Lemma liqs_bytes_length l : liqs_ok l -> length (liqs_bytes l) = liqs_size l.
Proof.
  intros H. apply flat_map_length_sum. eapply Forall_impl; [exact H|]. intros x Hx.
  by rewrite liq_bytes_length.
Qed.

Lemma group_bytes_length g : group_ok g -> length (group_bytes g) = group_size g.
Proof.
  intros (_ & Hl & _). unfold group_bytes, group_size.
  rewrite !length_app, head_bytes_length, swaps_bytes_length, liqs_bytes_length by done. lia.
Qed.

Lemma header_bytes_length p : length (header_bytes p) = (HEADER_LEN + 1)%nat.
Proof. unfold header_bytes. rewrite !length_app, !be_length. done. Qed.

Lemma plan_bytes_length p : plan_ok p -> length (plan_bytes p) = plan_size p.
Proof.
  intros (_ & Hg & _). unfold plan_bytes, plan_size.
  rewrite !length_app, header_bytes_length, be_length, swaps_bytes_length.
  rewrite (flat_map_length_sum _ group_size); [lia|].
  eapply Forall_impl; [exact Hg|]. apply group_bytes_length.
Qed.

(** ** Plans *)

Definition no_gov (p : BatchPlan) : Prop :=
  has_flag (bp_flags p) (Z.lor FLAG_GOV_EXEC FLAG_GOV_SPELL) = false.

Lemma header_prefix p b :
  header_ok p ->
  ([bp_flags p] ++ be 2 (bp_bid_bps p) ++ be 16 (bp_gas_cost_wei p) ++
   be 16 (bp_min_profit_wei p)) ++ be 1 (Z.of_nat (length (bp_groups p))) ++ b =
  header_bytes p ++ b.
Proof.
  intros [Hf _]. unfold header_bytes. rewrite (be_1 (bp_flags p)) by by apply field_byte.
  by rewrite <- !app_assoc.
Qed.

Lemma encode_unchecked_Ok p b :
  plan_typed p ->
  encode_unchecked p = Ok b <->
  plan_ok p /\ no_gov p /\ Z.of_nat (plan_size p) <= umax 64 /\ b = plan_bytes p.
Proof.
  intros (Hf & Hb & Hgc & Hm & Hg & Hs). unfold encode_unchecked. cbv zeta.
  rewrite !length_app, !be_length. cbn [length Nat.add]. split.
  - intros H. destruct (Nat.eqb_spec (length (bp_groups p)) 0) as [|Hne]; [done|].
    destruct (has_flag _ _) eqn:Hgov; [done|]. inv_reads. simpl in H. inv_reads.
    repeat match goal with E : push_count _ _ = Ok _ |- _ => apply push_count_Ok in E as [? ->] end.
    match goal with E : size_hint _ = Ok _ |- _ => apply size_hint_Ok in E as [-> Hsz] end.
    match goal with E : try_each encode_group _ _ = Ok _ |- _ => rename E into Eg end.
    assert (Forall group_ok (bp_groups p)) as Hgo
      by (by eapply try_each_inv; [exact encode_group_inv|done|]).
    assert (swaps_ok (bp_profit_swaps p)) as Hso
      by (by eapply try_each_inv; [exact encode_swap_inv|done|]).
    rewrite (try_each_app encode_group _ _ _ _ encode_group_ok Hgo) in Eg. injection Eg as <-.
    rewrite (try_each_app encode_swap _ _ _ _ encode_swap_ok Hso) in H. injection H as <-.
    assert (header_ok p) as Hh by (unfold header_ok; conjs; by intros E; rewrite E in Hne).
    conjs. unfold plan_bytes. rewrite <- header_prefix by done. unfold swaps_bytes.
    by rewrite <- !app_assoc.
  - intros (Hok & Hgov & Hsz & ->). destruct Hok as (Hh & Hgo & Hso).
    destruct (Nat.eqb_spec (length (bp_groups p)) 0) as [Hz|_].
    { by apply nil_length_inv in Hz as Hz%Hh. }
    rewrite Hgov, (proj2 (size_hint_Ok p _)) by done. cbn [negb Nat.eqb HEADER_LEN].
    pose proof Hh as (_ & _ & _ & _ & Hng & Hnp & _).
    rewrite !(proj2 (push_count_Ok _ _ _)) by done.
    rewrite (try_each_app encode_group _ _ _ _ encode_group_ok Hgo).
    rewrite (try_each_app encode_swap _ _ _ _ encode_swap_ok Hso).
    unfold plan_bytes. rewrite <- header_prefix by done. unfold swaps_bytes.
    by rewrite <- !app_assoc.
Qed.

(** * The decoder reads the layout *)

Lemma swaps_bytes_owned l : swaps_bytes (map swap_owned l) = flat_map swap_bytes l.
Proof.
  unfold swaps_bytes. induction l as [|x l IH]; [done|]. cbn [map flat_map].
  by rewrite IH, wire_swap_owned.
Qed.
Lemma liqs_bytes_owned l : liqs_bytes (map liq_owned l) = flat_map liq_bytes l.
Proof.
  unfold liqs_bytes. induction l as [|x l IH]; [done|]. cbn [map flat_map].
  by rewrite IH, wire_liq_owned.
Qed.
Lemma swaps_ok_owned l : swaps_ok (map swap_owned l) <-> Forall swap_ok l.
Proof.
  unfold swaps_ok. induction l as [|x l IH]; simpl; [by rewrite !Forall_nil|].
  by rewrite !Forall_cons, IH, wire_swap_owned.
Qed.
Lemma liqs_ok_owned l : liqs_ok (map liq_owned l) <-> Forall liq_ok l.
Proof.
  unfold liqs_ok. induction l as [|x l IH]; simpl; [by rewrite !Forall_nil|].
  by rewrite !Forall_cons, IH, wire_liq_owned.
Qed.

(** The governance action after the profit swaps, as the flags announce it. *)
Definition gov_tail (payload spell : option Z) : list Z :=
  match payload, spell with
  | Some id, _ => be PAYLOAD_ID_LEN id
  | None, Some s => be SPELL_LEN s
  | None, None => []
  end.
Definition gov_ok (flags : Z) (payload spell : option Z) : Prop :=
  match has_flag flags FLAG_GOV_EXEC, has_flag flags FLAG_GOV_SPELL, payload, spell with
  | true, false, Some id, None => field PAYLOAD_ID_LEN id
  | false, true, None, Some s => field SPELL_LEN s
  | false, false, None, None => True
  | _, _, _, _ => False
  end.

(** The header of the plan's bytes. *)
Definition plan_header (p : BatchPlan) (payload spell : option Z) : Header :=
  mkHeader (bp_flags p) (bp_bid_bps p) (bp_gas_cost_wei p) (bp_min_profit_wei p)
    (Z.of_nat (length (bp_groups p)))
    (HEADER_LEN + 1 + length (flat_map group_bytes (bp_groups p))) payload spell.

Section Decode.
Context (b : list Z) (Hb : bytes_ok b) (Hlen : Z.of_nat (length b) <= umax 64).

Lemma walk_swaps_Ok n o l o' :
  (o <= length b)%nat ->
  walk_n decode_swap_leg b o n = Ok (l, o') <->
  length l = n /\ swaps_ok (map swap_owned l) /\ seg b o (swaps_bytes (map swap_owned l)) /\
  o' = (o + length (swaps_bytes (map swap_owned l)))%nat.
Proof.
  intros Ho. rewrite (walk_n_Ok b _ _ _ (decode_swap_leg_Ok b Hb Hlen)) by done.
  by rewrite swaps_ok_owned, swaps_bytes_owned.
Qed.

Lemma walk_liqs_Ok n o l o' :
  (o <= length b)%nat ->
  walk_n decode_liq_leg b o n = Ok (l, o') <->
  length l = n /\ liqs_ok (map liq_owned l) /\ seg b o (liqs_bytes (map liq_owned l)) /\
  o' = (o + length (liqs_bytes (map liq_owned l)))%nat.
Proof.
  intros Ho. rewrite (walk_n_Ok b _ _ _ (decode_liq_leg_Ok b Hb Hlen)) by done.
  by rewrite liqs_ok_owned, liqs_bytes_owned.
Qed.

(** A decoded group has zeros where the wire has nothing. *)
Definition stripped (g : FlashGroup) : Prop := strip_group g = g.

(** The head does not depend on where it stands. *)
Lemma seg_group_bytes o g :
  seg b o (group_bytes g) <->
  seg b o (head_bytes (group_head g o)) /\
  seg b (gh_liq_offset (group_head g o)) (liqs_bytes (fg_liqs g)) /\
  seg b (gh_repay_swap_offset (group_head g o)) (swaps_bytes (fg_repay_swaps g)).
Proof. unfold group_bytes. rewrite !seg_app, head_bytes_length. done. Qed.

Lemma gh_next_length o g : gh_next (group_head g o) = (o + length (group_bytes g))%nat.
Proof. unfold group_bytes. rewrite !length_app, head_bytes_length. cbn [gh_next group_head]. lia. Qed.

Lemma strip_owned l : map strip_liq (map liq_owned l) = map liq_owned l.
Proof. rewrite map_map. apply map_ext. by intros []. Qed.

Lemma owned_wire l : map swap_owned (map wire_swap l) = l.
Proof. rewrite map_map. rewrite <- (map_id l) at 2. apply map_ext. apply swap_owned_wire. Qed.

Lemma decode_flash_group_Ok o g next :
  decode_flash_group b o = Ok (g, next) <->
  (group_ok g /\ stripped g) /\ seg b o (group_bytes g) /\ next = (o + length (group_bytes g))%nat.
Proof.
  unfold decode_flash_group. rewrite bind_Ok. split.
  - intros (h & Hh & H). apply bind_Ok in H as ([ls lo] & Hl & H).
    apply bind_Ok in H as ([ss so] & Hs & [= <- <-]).
    apply (decode_group_Ok b Hb Hlen) in Hh as (Hhok & Hseg & Hlo & Hskl & Hsks).
    unfold skip_liq_legs in Hskl. unfold skip_swap_legs in Hsks.
    pose proof (walk_skip_liq _ _ _ _ _ Hl) as E. rewrite E in Hskl.
    pose proof (walk_skip_swap _ _ _ _ _ Hs) as E'. rewrite E' in Hsks.
    apply within_Ok in Hskl as [Hro ?]. apply within_Ok in Hsks as [Hnx ?].
    pose proof (seg_le _ _ _ Hseg) as Hle. rewrite head_bytes_length in Hle.
    apply walk_liqs_Ok in Hl as (Hnl & Hlok & Hlseg & ->); [|lia].
    apply walk_swaps_Ok in Hs as (Hns & Hsok & Hsseg & ->); [|lia].
    set (g := mkFlash _ _ _ _ _ _ _).
    assert (h = group_head g o) as Eh.
    { destruct Hhok as (_ & _ & _ & Hfl & Hfs). unfold field in Hfl, Hfs.
      destruct h; unfold group_head, g; simpl in *. rewrite !length_map.
      f_equal; try done; lia. }
    assert (stripped g) as Hst.
    { unfold stripped, strip_group, g; simpl. by rewrite strip_owned. }
    change (map liq_owned ls) with (fg_liqs g) in Hlok, Hlseg.
    change (map swap_owned ss) with (fg_repay_swaps g) in Hsok, Hsseg.
    clearbody g. subst h. rewrite seg_group_bytes, gh_next_length. unfold group_ok. conjs.
  - intros ([Hok Hst] & Hs & ->). apply seg_group_bytes in Hs as (Hh & Hl & Hr).
    exists (group_head g o). destruct Hok as (Hhok & Hlok & Hsok).
    pose proof (seg_le _ _ _ Hl) as Hle. pose proof (seg_le _ _ _ Hr) as Hre.
    set (wl := map wire_liq (fg_liqs g)). set (ws := map wire_swap (fg_repay_swaps g)).
    assert (map liq_owned wl = fg_liqs g) as El.
    { unfold wl. rewrite map_map. unfold stripped, strip_group in Hst. destruct g; simpl in *.
      injection Hst as <- Hst. exact Hst. }
    assert (map swap_owned ws = fg_repay_swaps g) as Es by apply owned_wire.
    assert (walk_n decode_liq_leg b (gh_liq_offset (group_head g o))
      (Z.to_nat (gh_liq_count (group_head g o))) =
      Ok (wl, gh_repay_swap_offset (group_head g o))) as Wl.
    { apply walk_liqs_Ok; [lia|]. rewrite El. conjs.
      cbn [gh_liq_count group_head]. rewrite Nat2Z.id. apply length_map. }
    assert (walk_n decode_swap_leg b (gh_repay_swap_offset (group_head g o))
      (Z.to_nat (gh_repay_swap_count (group_head g o))) =
      Ok (ws, gh_next (group_head g o))) as Ws.
    { apply walk_swaps_Ok; [lia|]. rewrite Es. conjs.
      cbn [gh_repay_swap_count group_head]. rewrite Nat2Z.id. apply length_map. }
    split.
    + apply (decode_group_Ok b Hb Hlen). unfold skip_liq_legs, skip_swap_legs.
      rewrite (walk_skip_liq _ _ _ _ _ Wl), (walk_skip_swap _ _ _ _ _ Ws).
      rewrite !within_Ok. conjs.
    + rewrite Wl, Ws, El, Es, gh_next_length. destruct g. simpl in *. do 2 f_equal.
      unfold stripped, strip_group in Hst. simpl in Hst. congruence.
Qed.

Lemma walk_groups_Ok n o l o' :
  (o <= length b)%nat ->
  walk_n decode_flash_group b o n = Ok (l, o') <->
  length l = n /\ (Forall group_ok l /\ Forall stripped l) /\
  seg b o (flat_map group_bytes l) /\ o' = (o + length (flat_map group_bytes l))%nat.
Proof.
  intros. rewrite (walk_n_Ok b _ _ _ decode_flash_group_Ok) by done.
  by rewrite Forall_and.
Qed.

Lemma walk_n_groups n : forall o l o',
  walk_n decode_flash_group b o n = Ok (l, o') -> walk_groups b o n = Ok o'.
Proof.
  induction n as [|n IH]; intros o l o' H; cbn [walk_n walk_groups] in *; [by simplify_eq|].
  apply bind_Ok in H as ([s next] & Hs & H). apply bind_Ok in H as ([l1 o1] & H & [= <- <-]).
  apply IH in H. unfold decode_flash_group in Hs. apply bind_Ok in Hs as (h & Hh & Hs).
  rewrite Hh. apply bind_Ok in Hs as ([ls lo] & _ & Hs).
  apply bind_Ok in Hs as ([ss so] & _ & [= <- <-]). done.
Qed.

Lemma payload_id_at_eq o : payload_id_at b o = map_res of_be (take_at b o PAYLOAD_ID_LEN).
Proof. unfold payload_id_at. by destruct (take_at b o PAYLOAD_ID_LEN). Qed.

Lemma parse_gov_Ok flags cur payload spell cur' :
  (cur <= length b)%nat ->
  parse_gov b flags cur = Ok (payload, spell, cur') <->
  gov_ok flags payload spell /\ seg b cur (gov_tail payload spell) /\
  cur' = (cur + length (gov_tail payload spell))%nat.
Proof.
  intros Hc. unfold parse_gov, gov_ok. rewrite payload_id_at_eq. unfold addr_at.
  destruct (has_flag flags FLAG_GOV_EXEC), (has_flag flags FLAG_GOV_SPELL).
  - split; [done|]. by intros [[] _].
  - split.
    + intros H. inv_reads.
      match goal with E : map_res _ _ = Ok _ |- _ => apply (num_at_Ok _ Hb Hlen) in E as [??] end.
      cbn [gov_tail]. by rewrite be_length.
    + intros (Hok & Hs & ->). destruct payload, spell; try done. cbn [gov_tail] in *.
      pose proof (seg_le _ _ _ Hs) as Hle. rewrite be_length in *.
      rewrite (proj2 (num_at_Ok _ Hb Hlen _ _ _)) by eauto. by rewrite (add_in _ Hlen).
  - split.
    + intros H. inv_reads.
      match goal with E : map_res _ _ = Ok _ |- _ => apply (num_at_Ok _ Hb Hlen) in E as [??] end.
      cbn [gov_tail]. by rewrite be_length.
    + intros (Hok & Hs & ->). destruct payload, spell; try done. cbn [gov_tail] in *.
      pose proof (seg_le _ _ _ Hs) as Hle. rewrite be_length in *.
      rewrite (proj2 (num_at_Ok _ Hb Hlen _ _ _)) by eauto. by rewrite (add_in _ Hlen).
  - split.
    + intros [= <- <- <-]. conjs; first [by apply seg_nil|simpl; lia].
    + intros (Hok & Hs & ->). destruct payload, spell; try done. simpl. by rewrite Nat.add_0_r.
Qed.

(** The bytes of a plan and its governance action parse to its header. *)
Lemma parse_layout p payload spell :
  plan_ok p -> Forall stripped (bp_groups p) -> gov_ok (bp_flags p) payload spell ->
  b = plan_bytes p ++ gov_tail payload spell ->
  parse b = Ok (mkPlan b (plan_header p payload spell)) /\ decode_batch b = Ok p.
Proof.
  intros (Hh & Hg & Hs) Hst Hgov Eb.
  assert (seg b 0 (plan_bytes p ++ gov_tail payload spell)) as Hseg by (rewrite Eb; apply seg_refl).
  apply seg_app in Hseg as [Hseg Ht]. unfold plan_bytes in Hseg.
  assert (length b = length (plan_bytes p) + length (gov_tail payload spell))%nat as Elen
    by by rewrite Eb, length_app.
  unfold plan_bytes in Ht, Elen. rewrite !length_app, header_bytes_length, be_length in Ht, Elen.
  rewrite !seg_app, header_bytes_length, be_length in Hseg.
  destruct Hseg as (Hhd & Hgs & Hn & Hps).
  pose proof Hh as (Hf & Hbid & Hgas & Hmin & Hng & Hnp & Hne).
  unfold header_bytes in Hhd. split_layout Hhd.
  change (HEADER_LEN + 1)%nat with 36%nat in *.
  assert (walk_n decode_flash_group b 36 (length (bp_groups p)) =
    Ok (bp_groups p, (36 + length (flat_map group_bytes (bp_groups p)))%nat)) as Wg.
  { apply walk_groups_Ok; [lia|]. conjs. }
  set (po := (36 + length (flat_map group_bytes (bp_groups p)))%nat) in *.
  assert (walk_n decode_swap_leg b (po + 1) (length (bp_profit_swaps p)) =
    Ok (map wire_swap (bp_profit_swaps p),
        (po + 1 + length (swaps_bytes (bp_profit_swaps p)))%nat)) as Wp.
  { apply walk_swaps_Ok; [unfold po; lia|]. rewrite owned_wire, length_map.
    conjs. }
  assert (parse_gov b (bp_flags p) (po + 1 + length (swaps_bytes (bp_profit_swaps p))) =
    Ok (payload, spell, length b)) as Hpg.
  { apply parse_gov_Ok; [lia|]. conjs; [|lia].
    eapply seg_at; [exact Ht|lia]. }
  assert (parse b = Ok (mkPlan b (plan_header p payload spell))) as Hparse.
  { unfold parse, plan_header. rewrite (proj2 (u8_at_Ok _ Hb _ _)) by eauto.
    rewrite (proj2 (Z.eqb_neq _ _)) by (destruct (bp_groups p); simpl; [done|lia]).
    change (add HEADER_LEN 1) with (Ok 36%nat : WRes nat). rewrite Nat2Z.id.
    rewrite (walk_n_groups _ _ _ _ Wg). fold po. run_reads Hb Hlen.
    unfold skip_swap_legs. rewrite Nat2Z.id, (walk_skip_swap _ _ _ _ _ Wp).
    rewrite (proj2 (within_Ok _ _ _)) by (split; [done|lia]).
    rewrite Hpg, Nat.eqb_refl. simpl negb. cbv iota. by run_reads Hb Hlen. }
  split; [done|]. unfold decode_batch. rewrite Hparse. cbn [wire map_err pl_header plan_header
    h_group_count h_profit_swap_offset h_flags h_bid_bps h_gas_cost_wei h_min_profit].
  change (checked_add_nat 64 HEADER_LEN 1) with (Some 36%nat). cbn [ok_or].
  change (HEADER_LEN + 1)%nat with 36%nat. fold po.
  rewrite Nat2Z.id, Wg. cbn [wire map_err].
  rewrite be_1, seg_singleton in Hn by by apply field_byte.
  change (b !! po = Some (Z.of_nat (length (bp_profit_swaps p)))) in Hn. rewrite Hn. cbn [ok_or].
  rewrite (proj2 (checked_add_nat_Some 64 po 1 _)) by (split; [done|lia]). cbn [ok_or].
  rewrite Nat2Z.id, Wp. cbn [wire map_err]. rewrite owned_wire. by destruct p.
Qed.

(** What a parse that succeeded found. *)
Lemma parse_inv pl :
  parse b = Ok pl ->
  exists flags bid gas min_ n np po cur payload spell,
    pl = mkPlan b (mkHeader flags bid gas min_ n po payload spell) /\
    (field 1 flags /\ field 2 bid /\ field 16 gas /\ field 16 min_ /\ field 1 n /\ n <> 0) /\
    seg b 0 (be 1 flags ++ be 2 bid ++ be 16 gas ++ be 16 min_ ++ be 1 n) /\
    walk_groups b 36 (Z.to_nat n) = Ok po /\ u8_at b po = Ok np /\ (po < length b)%nat /\
    skip_swap_loop b (po + 1) (Z.to_nat np) = Ok cur /\ (cur <= length b)%nat /\
    gov_ok flags payload spell /\ seg b cur (gov_tail payload spell) /\
    length b = (cur + length (gov_tail payload spell))%nat.
Proof.
  unfold parse. change (add HEADER_LEN 1) with (Ok 36%nat : WRes nat). cbv iota beta.
  intros H. apply bind_Ok in H as (n & Hn & H). destruct (Z.eqb_spec n 0); [done|].
  apply bind_Ok in H as (po & Hpo & H). apply bind_Ok in H as (np & Hnp & H).
  apply bind_Ok in H as (p1 & [-> _]%add_Ok & H). apply bind_Ok in H as (cur & Hcur & H).
  apply bind_Ok in H as (flags & Hf & H). apply bind_Ok in H as ([[pay sp] e] & Hg & H).
  unfold skip_swap_legs in Hcur. apply bind_Ok in Hcur as (cur' & Hcur & [-> Hle]%within_Ok).
  apply parse_gov_Ok in Hg as (Hg & Hs & ->); [|done].
  destruct (Nat.eqb_spec (cur' + length (gov_tail pay sp)) (length b)) as [E|]; [|done].
  apply bind_Ok in H as (bid & Hbid & H). apply bind_Ok in H as (gas & Hgas & H).
  apply bind_Ok in H as (mi & Hmi & [= <-]).
  assert (po < length b)%nat.
  { unfold u8_at in Hnp. apply ok_or_Ok in Hnp. by eapply lookup_lt_Some. }
  inv_fields Hb Hlen. exists flags, bid, gas, mi, n, np, po, cur', pay, sp. layout_goal. conjs.
  apply (u8_at_Ok _ Hb). done.
Qed.

(** Where decoding succeeds, the buffer is the layout of the result. *)
Lemma decode_inv p :
  decode_batch b = Ok p ->
  plan_ok p /\ Forall stripped (bp_groups p) /\
  exists payload spell, gov_ok (bp_flags p) payload spell /\
    b = plan_bytes p ++ gov_tail payload spell.
Proof.
  unfold decode_batch. intros H. apply bind_Ok in H as (pl & Hpl & H).
  destruct (parse b) as [pl'|] eqn:Hp; [|done]. injection Hpl as <-.
  apply parse_inv in Hp as (fl & bid & gas & mi & n & np & po & cur & pay & sp & -> & Hok & Hh &
    Hwg & Hnp & Hpo & Hsk & Hcur & Hg & Hgs & Hl).
  change (checked_add_nat 64 HEADER_LEN 1) with (Some 36%nat) in H.
  cbn [pl_header h_group_count h_profit_swap_offset h_flags h_bid_bps h_gas_cost_wei
    h_min_profit ok_or] in H.
  apply bind_Ok in H as ([gs oe] & Hgw & H). apply bind_Ok in H as (np' & Hnp' & H).
  apply bind_Ok in H as (so & Hso & H). apply bind_Ok in H as ([ps pe] & Hpw & [= <-]).
  destruct (walk_n decode_flash_group b 36 (Z.to_nat n)) as [[gs' oe']|] eqn:Eg; [|done].
  injection Hgw as <- <-. pose proof (walk_n_groups _ _ _ _ Eg) as Eg'.
  rewrite Hwg in Eg'. injection Eg' as <-.
  unfold u8_at in Hnp. apply ok_or_Ok in Hnp, Hnp', Hso. rewrite Hnp in Hnp'. injection Hnp' as <-.
  apply checked_add_nat_Some in Hso as [-> _].
  destruct (walk_n decode_swap_leg b (po + 1) (Z.to_nat np)) as [[ps' pe']|] eqn:Ep; [|done].
  injection Hpw as <- <-. pose proof (walk_skip_swap _ _ _ _ _ Ep) as Ep'.
  rewrite Hsk in Ep'. injection Ep' as <-.
  pose proof (seg_le _ _ _ Hh) as Hhl. rewrite !length_app, !be_length in Hhl.
  apply walk_groups_Ok in Eg as (Ln & (Hgo & Hst) & Hgsg & Epo); [|lia].
  apply walk_swaps_Ok in Ep as (Lp & Hso & Hpsg & Ecur); [|lia].
  assert (field 1 np /\ seg b po (be 1 np)) as [Hnpf Hnps]
    by (apply (u8_at_Ok _ Hb); unfold u8_at; by rewrite Hnp).
  destruct Hok as (Hf & Hbid & Hgas & Hmi & Hn & Hn0).
  assert (n = Z.of_nat (length gs')) as -> by (unfold field in Hn; lia).
  assert (np = Z.of_nat (length (map swap_owned ps'))) as ->
    by (rewrite length_map; unfold field in Hnpf; lia).
  set (p := mkBatch _ _ _ _ _ _).
  assert (header_ok p) as Hhok by (unfold header_ok, p; simpl; conjs; by destruct gs').
  conjs. exists pay, sp. conjs. symmetry. apply seg_all.
  - rewrite seg_app. unfold plan_bytes. rewrite !seg_app, !length_app, header_bytes_length, be_length.
    change (header_bytes p) with (be 1 fl ++ be 2 bid ++ be 16 gas ++ be 16 mi ++
      be 1 (Z.of_nat (length gs'))).
    change (bp_groups p) with gs'. change (bp_profit_swaps p) with (map swap_owned ps').
    change (HEADER_LEN + 1)%nat with 36%nat.
    conjs; (eapply seg_at; [eassumption|lia]).
  - unfold plan_bytes. rewrite !length_app, header_bytes_length, be_length.
    change (HEADER_LEN + 1)%nat with 36%nat. subst p. cbn [bp_groups bp_profit_swaps]. lia.
Qed.
End Decode.

(** * The codec *)

Lemma flat_map_ok {A} (bs : A -> list Z) l :
  Forall (fun x => bytes_ok (bs x)) l -> bytes_ok (flat_map bs l).
Proof. induction 1; simpl; [constructor|]. by apply bytes_ok_app. Qed.

Lemma swaps_bytes_ok l : swaps_ok l -> bytes_ok (swaps_bytes l).
Proof.
  intros H. apply flat_map_ok. eapply Forall_impl; [exact H|].
  intros s Hs. destruct_and! Hs. unfold swap_bytes. rewrite !bytes_ok_app. conjs; apply be_ok.
Qed.

Lemma tail_bytes_ok t : bytes_ok (tail_bytes t).
Proof. destruct t; cbn [tail_bytes]; rewrite ?bytes_ok_app; conjs; first [apply be_ok|constructor]. Qed.

Lemma liqs_bytes_ok l : bytes_ok (liqs_bytes l).
Proof.
  apply flat_map_ok, Forall_forall. intros s _. unfold liq_bytes, liq_head_bytes.
  rewrite !bytes_ok_app. conjs; first [apply be_ok|apply tail_bytes_ok].
Qed.

Lemma plan_bytes_ok p : plan_ok p -> bytes_ok (plan_bytes p).
Proof.
  intros (_ & Hg & Hs). unfold plan_bytes, header_bytes. rewrite !bytes_ok_app.
  conjs; try apply be_ok; [|by apply swaps_bytes_ok].
  apply flat_map_ok. eapply Forall_impl; [exact Hg|]. intros g (_ & Hl & Hr).
  unfold group_bytes, head_bytes. rewrite !bytes_ok_app.
  conjs; first [apply be_ok|apply liqs_bytes_ok|by apply swaps_bytes_ok].
Qed.

Lemma gov_tail_ok payload spell : bytes_ok (gov_tail payload spell).
Proof. destruct payload, spell; simpl; first [apply be_ok|constructor]. Qed.

Lemma liqs_bytes_strip l : liqs_bytes (map strip_liq l) = liqs_bytes l.
Proof. unfold liqs_bytes. induction l as [|x l IH]; [done|]. cbn [map flat_map]. by rewrite IH. Qed.

Lemma group_bytes_strip g : group_bytes (strip_group g) = group_bytes g.
Proof.
  unfold group_bytes, group_head, head_bytes, strip_group.
  cbn [gh_provider gh_flash_source gh_debt_asset gh_flash_amount gh_liq_count
    gh_repay_swap_count fg_provider fg_flash_source fg_debt_asset fg_flash_amount fg_liqs
    fg_repay_swaps]. by rewrite length_map, liqs_bytes_strip.
Qed.

Lemma plan_bytes_on_wire p : plan_bytes (on_wire p) = plan_bytes p.
Proof.
  unfold plan_bytes, header_bytes, on_wire. cbn [bp_flags bp_bid_bps bp_gas_cost_wei
    bp_min_profit_wei bp_groups bp_profit_swaps]. rewrite length_map. do 2 f_equal.
  induction (bp_groups p) as [|g l IH]; [done|]. cbn [map flat_map].
  by rewrite group_bytes_strip, IH.
Qed.

Lemma group_ok_strip g : group_ok g -> group_ok (strip_group g).
Proof.
  intros (Hh & Hl & Hs). unfold group_ok. conjs.
  - unfold head_ok, group_head, strip_group in *. cbn [gh_flash_source gh_debt_asset
      gh_flash_amount gh_liq_count gh_repay_swap_count fg_flash_source fg_debt_asset
      fg_flash_amount fg_liqs fg_repay_swaps] in *. by rewrite length_map.
  - unfold liqs_ok in *. cbn [strip_group fg_liqs]. induction Hl; simpl; by constructor.
Qed.

Lemma strip_stripped g : stripped (strip_group g).
Proof.
  unfold stripped, strip_group. cbn [fg_provider fg_flash_source fg_debt_asset fg_flash_amount
    fg_liqs fg_repay_swaps]. f_equal. rewrite map_map. by apply map_ext.
Qed.

Lemma plan_ok_on_wire p : plan_ok p -> plan_ok (on_wire p).
Proof.
  intros (Hh & Hg & Hs). unfold plan_ok. conjs.
  - unfold header_ok, on_wire in *. cbn [bp_flags bp_bid_bps bp_gas_cost_wei bp_min_profit_wei
      bp_groups bp_profit_swaps] in *. rewrite length_map. destruct_and! Hh. conjs.
    by destruct (bp_groups p).
  - cbn [on_wire bp_groups]. induction Hg; simpl; constructor; [by apply group_ok_strip|done].
Qed.

Lemma on_wire_stripped p : Forall stripped (bp_groups (on_wire p)).
Proof.
  cbn [on_wire bp_groups]. induction (bp_groups p); simpl; constructor; [|done].
  apply strip_stripped.
Qed.

Lemma stripped_on_wire p : Forall stripped (bp_groups p) -> on_wire p = p.
Proof.
  intros H. destruct p. unfold on_wire. simpl in *. f_equal.
  induction H as [|g l Hg _ IH]; simpl; [done|]. by rewrite Hg, IH.
Qed.

Lemma plan_ok_typed p : plan_ok p -> plan_typed p.
Proof.
  assert (forall l, swaps_ok l -> Forall swap_typed l) as Hsw.
  { intros l H. eapply Forall_impl; [exact H|]. intros s Hs. unfold swap_ok in Hs.
    destruct_and! Hs. unfold swap_typed. conjs. }
  intros ((Hf & Hb & Hgc & Hm & _) & Hg & Hs). unfold plan_typed. conjs; [|by apply Hsw].
  eapply Forall_impl; [exact Hg|]. intros g ((Ha & Hd & Hfa & _) & Hl & Hr).
  unfold group_typed. conjs; [|by apply Hsw]. eapply Forall_impl; [exact Hl|].
  intros l Hlo. unfold liq_ok in Hlo. destruct_and! Hlo. unfold liq_typed. conjs.
  destruct l as [a ? ? ? ? t ?]. by destruct a, t.
Qed.

(** The flags of a plan without a governance action. *)
Lemma has_flag_lor f a c : has_flag f (Z.lor a c) = has_flag f a || has_flag f c.
Proof.
  unfold has_flag. rewrite Z.land_lor_distr_r, <- negb_andb. f_equal.
  apply eq_iff_eq_true. rewrite andb_true_iff, !Z.eqb_eq. apply Z.lor_eq_0_iff.
Qed.

Lemma no_gov_ok p : no_gov p -> gov_ok (bp_flags p) None None.
Proof.
  unfold no_gov, gov_ok. rewrite has_flag_lor. intros [-> ->]%orb_false_iff. done.
Qed.

Lemma no_gov_only p payload spell :
  no_gov p -> gov_ok (bp_flags p) payload spell -> gov_tail payload spell = [].
Proof.
  unfold no_gov, gov_ok. rewrite has_flag_lor. intros [-> ->]%orb_false_iff.
  by destruct payload, spell.
Qed.

(** C5. What was encoded is decoded back: every field of every group, leg and swap of a plan,
    in order, except the two that are not on the wire ([protocol_pull], [fee_bps]), which
    decode to zero. *)
Theorem decode_of_encode p b :
  plan_typed p -> encode_unchecked p = Ok b -> decode_batch b = Ok (on_wire p).
Proof.
  intros Hty H. apply encode_unchecked_Ok in H as (Hok & Hg & Hsz & ->); [|done].
  assert (plan_bytes p = plan_bytes (on_wire p) ++ gov_tail None None) as E
    by by rewrite plan_bytes_on_wire, app_nil_r.
  eapply parse_layout; [by apply plan_bytes_ok|by rewrite plan_bytes_length
    |by apply plan_ok_on_wire|apply on_wire_stripped|by apply no_gov_ok|exact E].
Qed.

(** The encoding is canonical: a buffer that decodes to a plan without a governance action
    is the encoding of that plan, byte for byte. Two buffers that decode to the same plan are
    the same buffer, so nothing that is submitted can read as two plans. *)
Theorem encode_of_decode b p :
  bytes_ok b -> Z.of_nat (length b) <= umax 64 -> decode_batch b = Ok p -> no_gov p ->
  encode_unchecked p = Ok b.
Proof.
  intros Hb Hl H Hg. apply decode_inv in H as (Hok & Hst & pay & sp & Hgov & ->); [|done..].
  rewrite (no_gov_only _ _ _ Hg Hgov), app_nil_r in *.
  apply encode_unchecked_Ok; [by apply plan_ok_typed|]. conjs. by rewrite <- plan_bytes_length.
Qed.

(** ** Governance plans *)

Lemma be_app m n x : be (m + n) x = be m (x / 256 ^ Z.of_nat n) ++ be n x.
Proof.
  revert x. induction n as [|n IH]; intros x.
  - rewrite Nat.add_0_r, Z.div_1_r. by rewrite app_nil_r.
  - rewrite Nat.add_succ_r. change (be (S (m + n)) x) with (be (m + n) (x / 256) ++ [x mod 256]).
    change (be (S n) x) with (be n (x / 256) ++ [x mod 256]).
    rewrite IH, pow256_S, Z.div_div by lia. by rewrite app_assoc.
Qed.

Lemma lor_field n a c : field n a -> field n c -> field n (Z.lor a c).
Proof.
  unfold field. intros [Ha1 Ha2] [Hc1 Hc2]. assert (0 <= Z.lor a c) by (apply Z.lor_nonneg; lia).
  split; [done|]. change 256 with (2 ^ 8) in *. rewrite <- Z.pow_mul_r in * by lia.
  destruct (decide (Z.lor a c = 0)) as [->|]; [lia|].
  destruct (decide (a = 0)) as [->|]; [by rewrite Z.lor_0_l|].
  destruct (decide (c = 0)) as [->|]; [by rewrite Z.lor_0_r|].
  apply Z.log2_lt_pow2; [lia|]. rewrite Z.log2_lor by done.
  apply Z.max_lub_lt; apply Z.log2_lt_pow2; lia.
Qed.

Lemma has_flag_set f a c : has_flag (Z.lor f a) c = has_flag f c || has_flag a c.
Proof.
  unfold has_flag. rewrite Z.land_lor_distr_l, <- negb_andb. f_equal.
  apply eq_iff_eq_true. rewrite andb_true_iff, !Z.eqb_eq. apply Z.lor_eq_0_iff.
Qed.

(** A plan with its flags changed. *)
Definition with_flags (p : BatchPlan) (f : Z) : BatchPlan :=
  mkBatch f (bp_bid_bps p) (bp_gas_cost_wei p) (bp_min_profit_wei p) (bp_groups p)
    (bp_profit_swaps p).

Lemma plan_bytes_flags p f :
  field 1 (bp_flags p) -> field 1 f -> plan_bytes (with_flags p f) = <[0%nat := f]> (plan_bytes p).
Proof.
  intros Hp Hf. unfold plan_bytes, header_bytes. cbn [with_flags bp_flags bp_bid_bps
    bp_gas_cost_wei bp_min_profit_wei bp_groups bp_profit_swaps].
  by rewrite !be_1 by by apply field_byte.
Qed.

Lemma gov_flags_ok p :
  plan_ok p -> no_gov p -> gov_flags (plan_bytes p) = Ok (bp_flags p).
Proof.
  intros [[Hf _] _] Hg. unfold gov_flags, plan_bytes, header_bytes.
  rewrite (be_1 (bp_flags p)) by by apply field_byte. simpl. unfold no_gov in Hg. by rewrite Hg.
Qed.

Section Gov.
Context (p : BatchPlan) (b : EncodedPlan) (Hty : plan_typed p) (Henc : encode_unchecked p = Ok b).

(** A flag set on an encoded plan, with its tail. *)
Lemma gov_attach bit payload spell :
  field 1 bit -> gov_ok (Z.lor (bp_flags p) bit) payload spell ->
  Z.of_nat (length b + length (gov_tail payload spell)) <= umax 64 ->
  gov_flags b = Ok (bp_flags p) /\
  let b' := <[0%nat := Z.lor (bp_flags p) bit]> b ++ gov_tail payload spell in
  parse b' = Ok (mkPlan b' (plan_header (with_flags p (Z.lor (bp_flags p) bit)) payload spell)) /\
  decode_batch b' = Ok (on_wire (with_flags p (Z.lor (bp_flags p) bit))).
Proof.
  intros Hbit Hgov Hl. apply encode_unchecked_Ok in Henc as (Hok & Hg & Hsz & ->); [|done].
  split; [by apply gov_flags_ok|]. cbv zeta.
  set (f := Z.lor (bp_flags p) bit) in *. set (q := with_flags p f).
  assert (field 1 f) as Hf by (apply lor_field; [apply Hok|done]).
  rewrite <- plan_bytes_flags by (done || apply Hok). fold q.
  assert (plan_ok q) as Hq.
  { destruct Hok as ((? & ? & ? & ? & ? & ? & ?) & ? & ?). unfold plan_ok, header_ok, q.
    cbn [with_flags bp_flags bp_bid_bps bp_gas_cost_wei bp_min_profit_wei bp_groups
      bp_profit_swaps]. conjs. }
  rewrite <- plan_bytes_on_wire.
  replace (plan_header q payload spell) with (plan_header (on_wire q) payload spell).
  2: { unfold plan_header, on_wire. cbn [bp_flags bp_bid_bps bp_gas_cost_wei bp_min_profit_wei
         bp_groups]. rewrite length_map. do 2 f_equal.
       induction (bp_groups q) as [|g l IH]; [done|]. cbn [map flat_map].
       by rewrite !length_app, IH, group_bytes_strip. }
  apply parse_layout; [apply bytes_ok_app; split| |by apply plan_ok_on_wire
    |apply on_wire_stripped|done|done].
  - rewrite plan_bytes_on_wire. by apply plan_bytes_ok.
  - apply gov_tail_ok.
  - rewrite plan_bytes_on_wire, length_app, (plan_bytes_length q) by done.
    rewrite (plan_bytes_length p) in Hl by done. done.
Qed.

Lemma no_gov_bits :
  has_flag (bp_flags p) FLAG_GOV_EXEC = false /\ has_flag (bp_flags p) FLAG_GOV_SPELL = false.
Proof.
  apply encode_unchecked_Ok in Henc as (_ & Hg & _); [|done].
  unfold no_gov in Hg. rewrite has_flag_lor in Hg. by apply orb_false_iff in Hg.
Qed.
End Gov.

(** Both kinds of governance action are refused on a plan that has one. *)
Definition refuses_gov (b : EncodedPlan) : Prop :=
  forall id spell, id <= PAYLOAD_ID_MAX -> spell <> 0 ->
  with_gov_payload b id = Err GovPayloadTwice /\ with_gov_spell b spell = Err GovPayloadTwice.

Lemma refuses_gov_flag f b t :
  b <> [] -> has_flag f (Z.lor FLAG_GOV_EXEC FLAG_GOV_SPELL) = true ->
  refuses_gov (<[0%nat := f]> b ++ t).
Proof.
  intros Hb Hf id spell Hid Hsp. unfold with_gov_payload, with_gov_spell, gov_flags.
  destruct b as [|x b]; [done|]. simpl. rewrite Hf.
  rewrite (proj2 (Z.ltb_ge _ _)) by done. by rewrite (proj2 (Z.eqb_neq _ _)) by done.
Qed.

(** A payload id attached to an encoded plan is the one the parser reports: the result
    parses with that id and no spell, decodes to the same plan with the flag set, and
    refuses a second governance action of either kind. *)
Theorem gov_payload_roundtrip p b id :
  plan_typed p -> encode_unchecked p = Ok b -> 0 <= id <= PAYLOAD_ID_MAX ->
  Z.of_nat (length b + PAYLOAD_ID_LEN) <= umax 64 ->
  exists b' pl, with_gov_payload b id = Ok b' /\ parse b' = Ok pl /\
    h_payload_id (pl_header pl) = Some id /\ h_spell (pl_header pl) = None /\
    decode_batch b' = Ok (on_wire (with_flags p (Z.lor (bp_flags p) FLAG_GOV_EXEC))) /\
    refuses_gov b'.
Proof.
  intros Hty Henc Hid Hl. destruct (no_gov_bits p b Hty Henc) as [H1 H2].
  destruct (gov_attach p b Hty Henc FLAG_GOV_EXEC (Some id) None) as (Hgf & Hp & Hd).
  - unfold field, FLAG_GOV_EXEC. simpl. lia.
  - unfold gov_ok. rewrite !has_flag_set, H1, H2. simpl.
    unfold field, PAYLOAD_ID_MAX, PAYLOAD_ID_LEN in *. simpl. lia.
  - cbn [gov_tail]. by rewrite be_length.
  - do 2 eexists. unfold with_gov_payload. rewrite (proj2 (Z.ltb_ge _ _)) by lia. rewrite Hgf.
    replace (drop (8 - PAYLOAD_ID_LEN) (be 8 id)) with (gov_tail (Some id) None).
    2: { cbn [gov_tail]. 
         change 8%nat with (3 + PAYLOAD_ID_LEN)%nat at 2. rewrite be_app.
         by rewrite drop_app_length' by by rewrite be_length. }
    cbv zeta in *. rewrite Hp. cbn [wire map_err]. conjs.
    apply refuses_gov_flag; [|rewrite has_flag_lor, !has_flag_set; by rewrite orb_true_r].
    intros ->. by apply encode_unchecked_Ok in Henc as (_ & _ & _ & [=]).
Qed.

(** The same for a spell address. *)
Theorem gov_spell_roundtrip p b spell :
  plan_typed p -> encode_unchecked p = Ok b -> field 20 spell -> spell <> 0 ->
  Z.of_nat (length b + SPELL_LEN) <= umax 64 ->
  exists b' pl, with_gov_spell b spell = Ok b' /\ parse b' = Ok pl /\
    h_spell (pl_header pl) = Some spell /\ h_payload_id (pl_header pl) = None /\
    decode_batch b' = Ok (on_wire (with_flags p (Z.lor (bp_flags p) FLAG_GOV_SPELL))) /\
    refuses_gov b'.
Proof.
  intros Hty Henc Hs Hs0 Hl. destruct (no_gov_bits p b Hty Henc) as [H1 H2].
  destruct (gov_attach p b Hty Henc FLAG_GOV_SPELL None (Some spell)) as (Hgf & Hp & Hd).
  - unfold field, FLAG_GOV_SPELL. simpl. lia.
  - unfold gov_ok. by rewrite !has_flag_set, H1, H2.
  - cbn [gov_tail]. by rewrite be_length.
  - do 2 eexists. unfold with_gov_spell. rewrite (proj2 (Z.eqb_neq _ _)) by done. rewrite Hgf.
    cbv zeta in *. cbn [gov_tail] in *. unfold SPELL_LEN in *. rewrite Hp.
    cbn [wire map_err]. conjs.
    apply refuses_gov_flag; [|rewrite has_flag_lor, !has_flag_set; by rewrite !orb_true_r].
    intros ->. by apply encode_unchecked_Ok in Henc as (_ & _ & _ & [=]).
Qed.

(** ** Every parsed plan decodes *)

(** The one byte [parse] skips over that a decoder of legs refuses. *)
Definition bad_mode {A} (r : WRes A) : Prop := exists m, r = Err (BadGearboxMode m).

Lemma decode_flash_group_total b o h :
  bytes_ok b -> Z.of_nat (length b) <= umax 64 -> decode_group b o = Ok h ->
  (exists g, decode_flash_group b o = Ok (g, gh_next h)) \/ bad_mode (decode_flash_group b o).
Proof.
  intros Hb Hl Hh. unfold decode_flash_group. rewrite Hh.
  apply (decode_group_Ok b Hb Hl) in Hh as (_ & _ & _ & Hsl & Hss).
  unfold skip_liq_legs, skip_swap_legs in *.
  apply bind_Ok in Hsl as (ro & Hsl & [Ero ?]%within_Ok).
  apply bind_Ok in Hss as (nx & Hss & [Enx ?]%within_Ok).
  destruct (skip_liq_walk b Hl _ _ _ Hsl) as [[ls ->]|[m ->]]; [done| |right; by exists m].
  destruct (skip_swap_walk b Hl _ _ _ Hss) as [ss ->]; [done|]. left. eauto.
Qed.

Lemma walk_groups_total b n : bytes_ok b -> Z.of_nat (length b) <= umax 64 -> forall o o',
  walk_groups b o n = Ok o' ->
  (exists l, walk_n decode_flash_group b o n = Ok (l, o')) \/
  bad_mode (walk_n decode_flash_group b o n).
Proof.
  intros Hb Hl. induction n as [|n IH]; intros o o' H; cbn [walk_groups walk_n] in *.
  { injection H as <-. eauto. }
  apply bind_Ok in H as (h & Hh & H).
  destruct (decode_flash_group_total b o h) as [[g ->]|[m ->]]; [done..| |right; by exists m].
  destruct (IH _ _ H) as [[l ->]|[m ->]]; [left; eauto|right; by exists m].
Qed.

(** A buffer that parses decodes to a plan; the only failure left is a Gearbox tail whose
    mode byte is neither 0 nor 1. In particular no read of a parsed plan is out of bounds. *)
Theorem parsed_plan_decodes b pl :
  bytes_ok b -> Z.of_nat (length b) <= umax 64 -> parse b = Ok pl ->
  (exists p, decode_batch b = Ok p) \/
  exists m, decode_batch b = Err (WireErr (BadGearboxMode m)).
Proof.
  intros Hb Hl Hp. pose proof Hp as Hp'. unfold decode_batch. rewrite Hp. cbn [wire map_err].
  apply (parse_inv b Hb Hl) in Hp' as (fl & bid & gas & mi & n & np & po & cur & pay & sp & -> &
    Hok & Hh & Hwg & Hnp & Hpo & Hsk & Hcur & _).
  change (checked_add_nat 64 HEADER_LEN 1) with (Some 36%nat).
  cbn [pl_header h_group_count h_profit_swap_offset ok_or].
  destruct (walk_groups_total b _ Hb Hl _ _ Hwg) as [[gs ->]|[m ->]]; [left|right; by exists m].
  cbn [wire map_err]. unfold u8_at in Hnp. apply ok_or_Ok in Hnp. rewrite Hnp. cbn [ok_or].
  rewrite (proj2 (checked_add_nat_Some 64 po 1 _)) by (split; [done|lia]). cbn [ok_or].
  destruct (skip_swap_walk b Hl _ _ _ Hsk Hcur) as [ps ->]. cbn [wire map_err]. eauto.
Qed.

(** ** The iterators *)

Lemma items_walk {A} (dec : list Z -> nat -> WRes (A * nat)) b fuel : forall o n l o',
  (n < fuel)%nat -> walk_n dec b o n = Ok (l, o') ->
  items fuel (walk_next dec) (mkWalk b o (Z.of_nat n)) = map Ok l.
Proof.
  induction fuel as [|fuel IH]; intros o n l o' Hn H; [lia|].
  destruct n as [|n]; cbn [walk_n] in H; [by simplify_eq|].
  apply bind_Ok in H as ([x next] & Hx & H). apply bind_Ok in H as ([l1 o1] & H & [= <- <-]).
  cbn [items]. unfold walk_next at 1. cbn [w_remaining w_bytes w_o].
  rewrite (proj2 (Z.eqb_neq _ _)) by lia. rewrite Hx. cbn [map]. f_equal.
  replace (saturating_sub (Z.of_nat (S n)) 1) with (Z.of_nat n) by (unfold saturating_sub; lia).
  eapply IH; [lia|done].
Qed.

Lemma collect_walk {A} (dec : list Z -> nat -> WRes (A * nat)) b o n l o' :
  field 1 n -> walk_n dec b o (Z.to_nat n) = Ok (l, o') ->
  collect (walk_next dec) (mkWalk b o n) = map Ok l.
Proof.
  intros Hn H. unfold field in Hn. simpl in Hn. unfold collect.
  replace n with (Z.of_nat (Z.to_nat n)) at 1 by lia. eapply items_walk; [lia|done].
Qed.

(** What a view of a group shows is the decoded group. *)
Definition group_view (v : Group) (g : FlashGroup) : Prop :=
  gh_provider (g_head v) = fg_provider g /\ gh_flash_source (g_head v) = fg_flash_source g /\
  gh_debt_asset (g_head v) = fg_debt_asset g /\ gh_flash_amount (g_head v) = fg_flash_amount g /\
  collect liq_legs_next (liq_legs v) = map Ok (map wire_liq (fg_liqs g)) /\
  collect swap_legs_next (repay_swaps v) = map Ok (map wire_swap (fg_repay_swaps g)).

Lemma wire_owned_swaps l : map wire_swap (map swap_owned l) = l.
Proof. rewrite map_map. rewrite <- (map_id l) at 2. apply map_ext. apply wire_swap_owned. Qed.
Lemma wire_owned_liqs l : map wire_liq (map liq_owned l) = l.
Proof. rewrite map_map. rewrite <- (map_id l) at 2. apply map_ext. apply wire_liq_owned. Qed.

Definition view_dec (b : list Z) (o : nat) : WRes (Group * nat) :=
  let? h := decode_group b o in Ok (mkGroup b h, gh_next h).

Section Views.
Context (b : list Z) (Hb : bytes_ok b) (Hlen : Z.of_nat (length b) <= umax 64).

Lemma view_of_group o g next :
  decode_flash_group b o = Ok (g, next) -> exists v, view_dec b o = Ok (v, next) /\ group_view v g.
Proof.
  unfold decode_flash_group, view_dec. intros H. apply bind_Ok in H as (h & Hh & H). rewrite Hh.
  apply bind_Ok in H as ([ls lo] & Hl & H). apply bind_Ok in H as ([ss so] & Hs & [= <- <-]).
  apply (decode_group_Ok b Hb Hlen) in Hh as ((_ & _ & _ & Hn & Hm) & _).
  eexists. split; [done|]. unfold group_view. cbn [g_head fg_provider fg_flash_source
    fg_debt_asset fg_flash_amount fg_liqs fg_repay_swaps]. conjs.
  - rewrite wire_owned_liqs. by eapply collect_walk.
  - rewrite wire_owned_swaps. by eapply collect_walk.
Qed.

Lemma views_of_groups n : forall o l o',
  walk_n decode_flash_group b o n = Ok (l, o') ->
  exists vs, walk_n view_dec b o n = Ok (vs, o') /\ Forall2 group_view vs l.
Proof.
  induction n as [|n IH]; intros o l o' H; cbn [walk_n] in *.
  { injection H as <- <-. by exists []. }
  apply bind_Ok in H as ([g next] & (v & -> & Hv)%view_of_group & H).
  apply bind_Ok in H as ([l1 o1] & (vs & Hvs & Hf)%IH & [= <- <-]).
  rewrite Hvs. exists (v :: vs). split; [done|]. by constructor.
Qed.

(** The [i]-th view is what [group(i)] re-walks to. *)
Lemma view_at n : forall o vs o' i v,
  walk_n view_dec b o n = Ok (vs, o') -> vs !! i = Some v ->
  exists oi, walk_groups b o i = Ok oi /\ decode_group b oi = Ok (g_head v) /\ g_bytes v = b.
Proof.
  induction n as [|n IH]; intros o vs o' i v H Hi; cbn [walk_n] in *; [by simplify_eq|].
  apply bind_Ok in H as ([x next] & Hx & H). apply bind_Ok in H as ([l1 o1] & H & [= <- <-]).
  unfold view_dec in Hx. apply bind_Ok in Hx as (h & Hh & [= <- <-]).
  destruct i as [|i]; cbn [walk_groups].
  - injection Hi as <-. exists o. done.
  - rewrite Hh. by eapply IH.
Qed.
End Views.

(** The zero-copy views agree with the decoder: on a plan that decodes, the group iterator
    yields one view per group, each with that group's head, its liquidation legs and its repay
    swaps in order and no error; the view at index [g] is what [Plan::group(g)] finds by
    walking again; and the profit-swap iterator yields the plan's profit swaps. *)
Theorem views_agree b p pl :
  bytes_ok b -> Z.of_nat (length b) <= umax 64 -> decode_batch b = Ok p -> parse b = Ok pl ->
  exists vs w,
    collect groups_next (groups pl) = map Ok vs /\ Forall2 group_view vs (bp_groups p) /\
    (forall i v, vs !! i = Some v -> plan_group pl (Z.of_nat i) = Ok v) /\
    profit_swaps pl = Ok w /\
    collect swap_legs_next w = map Ok (map wire_swap (bp_profit_swaps p)).
Proof.
  intros Hb Hl Hd Hp. unfold decode_batch in Hd. rewrite Hp in Hd. cbn [wire map_err] in Hd.
  apply (parse_inv b Hb Hl) in Hp as (fl & bid & gas & mi & n & np & po & cur & pay & sp & -> &
    (_ & _ & _ & _ & Hn & _) & Hh & _ & Hnp & Hpo & _).
  change (checked_add_nat 64 HEADER_LEN 1) with (Some 36%nat) in Hd.
  cbn [pl_header h_group_count h_profit_swap_offset ok_or] in Hd.
  destruct (walk_n decode_flash_group b 36 (Z.to_nat n)) as [[gs oe]|] eqn:Eg; [|done].
  cbn [wire map_err] in Hd. pose proof Hnp as Hnp'. unfold u8_at in Hnp. apply ok_or_Ok in Hnp.
  rewrite Hnp in Hd. cbn [ok_or] in Hd.
  rewrite (proj2 (checked_add_nat_Some 64 po 1 _)) in Hd by (split; [done|lia]).
  cbn [ok_or] in Hd.
  destruct (walk_n decode_swap_leg b (po + 1) (Z.to_nat np)) as [[ps pe]|] eqn:Ep; [|done].
  injection Hd as <-. cbn [bp_groups bp_profit_swaps].
  destruct (views_of_groups b Hb Hl _ _ _ _ Eg) as (vs & Hvs & Hf).
  exists vs, (mkWalk b (po + 1) np). conjs.
  - by eapply collect_walk.
  - intros i v Hi. destruct (view_at b _ _ _ _ _ _ Hvs Hi) as (oi & Hwi & Hdi & Ev).
    assert (i < length gs)%nat as Hlt
      by (rewrite <- (Forall2_length _ _ _ Hf); by eapply lookup_lt_Some).
    apply (walk_groups_Ok b Hb Hl) in Eg as (Elen & _);
      [|apply seg_le in Hh; rewrite !length_app, !be_length in Hh; lia].
    unfold plan_group. cbn [pl_header h_group_count pl_bytes].
    rewrite (proj2 (Z.leb_gt _ _)) by lia.
    change (add HEADER_LEN 1) with (Ok 36%nat : WRes nat). rewrite Nat2Z.id, Hwi, Hdi.
    rewrite <- Ev. by destruct v.
  - unfold profit_swaps. cbn [pl_header h_profit_swap_offset pl_bytes].
    rewrite (add_in b Hl) by lia. by rewrite Hnp'.
  - rewrite wire_owned_swaps. eapply collect_walk; [|done].
    by apply (u8_at_Ok b Hb) in Hnp' as [? _].
Qed.

(** ** Ties *)

Lemma tie_flags_eq flags leg :
  0 <= flags -> (leg < LEG_TIE_MAX)%nat ->
  tie_flags flags leg = Some (flags mod 4 + 4 * (Z.of_nat leg + 1)).
Proof.
  intros Hf Hl. unfold tie_flags. rewrite (proj2 (Nat.leb_gt _ _) Hl).
  unfold LEG_TIE_MAX in Hl. unfold checked_add_nat, umax.
  rewrite (proj2 (Z.leb_le _ _)) by lia.
  rewrite try_from_ok by (apply byte_range; lia). f_equal.
  unfold LEG_TIE_SHIFT. change (Z.shiftl 1 2 - 1) with (Z.ones 2).
  rewrite Z.land_ones, Z.shiftl_mul_pow2 by lia. change (2 ^ 2) with 4.
  rewrite (Z.mod_small (_ * 4)) by lia.
  assert (Z.land (flags mod 4) (Z.of_nat (leg + 1) * 4) = 0) as Hland.
  { apply Z.bits_inj'. intros n Hn. rewrite Z.land_spec, Z.bits_0.
    destruct (Z.lt_ge_cases n 2).
    - change 4 with (2 ^ 2) at 2. rewrite Z.mul_pow2_bits_low by done. apply andb_false_r.
    - change 4 with (2 ^ 2) at 1. by rewrite Z.mod_pow2_bits_high. }
  rewrite <- Z.lxor_lor, <- Z.add_nocarry_lxor by done. lia.
Qed.

Lemma leg_tie_eq f t : 0 <= t < 4 -> forall leg : nat, f = t + 4 * (Z.of_nat leg + 1) ->
  leg_tie f = Some leg.
Proof.
  intros Ht leg ->. unfold leg_tie, LEG_TIE_SHIFT. rewrite Z.shiftr_div_pow2 by lia.
  change (2 ^ 2) with 4. rewrite (div_unique_pos _ 4 (Z.of_nat leg + 1) t) by lia.
  apply checked_sub_nat_Some. lia.
Qed.

(** Tying a swap to a leg: every leg below 63 can be named, the tie reads back as that leg,
    the flag bits below it are kept, and the result is still a byte. Past 63 legs the tie is
    refused. *)
Theorem tie_roundtrip flags leg :
  field 1 flags ->
  match tie_flags flags leg with
  | Some f => (leg < 63)%nat /\ leg_tie f = Some leg /\ Z.land f 3 = Z.land flags 3 /\ field 1 f
  | None => (63 <= leg)%nat
  end.
Proof.
  intros [H1 H2]. simpl in H2. destruct (Nat.lt_ge_cases leg 63) as [Hl|Hl].
  - rewrite tie_flags_eq by done. pose proof (Z.mod_pos_bound flags 4).
    change 3 with (Z.ones 2). rewrite !Z.land_ones by lia. change (2 ^ 2) with 4. conjs.
    + by eapply (leg_tie_eq _ (flags mod 4)); [lia|].
    + rewrite Z.add_mod, (Z.mul_comm 4), Z.mod_mul, Z.add_0_r, !Z.mod_mod by lia. done.
    + unfold field. simpl. lia.
  - unfold tie_flags, LEG_TIE_MAX. by rewrite (proj2 (Nat.leb_le _ _) Hl).
Qed.

(** ** Surplus legs *)

(** A group that keeps borrowed debt the protocol did not pull. *)
Definition has_surplus (weth : Z) (g : FlashGroup) : bool :=
  negb ((fg_debt_asset g =? weth) || (fg_flash_amount g <=? sat_pull g)).

Lemma surplus_leg_app weth pool swaps g :
  exists extra, surplus_leg weth pool swaps g = swaps ++ extra /\
    Forall (fun s => routes_surplus (fg_debt_asset g) weth s = true) extra /\
    (has_surplus weth g = true ->
     existsb (routes_surplus (fg_debt_asset g) weth) (swaps ++ extra) = true).
Proof.
  unfold surplus_leg, has_surplus.
  destruct ((fg_debt_asset g =? weth) || (fg_flash_amount g <=? sat_pull g)).
  { exists []. rewrite app_nil_r. done. }
  destruct (existsb _ swaps) eqn:E.
  { exists []. rewrite app_nil_r. by split_and!. }
  eexists. split; [done|]. rewrite existsb_app.
  assert (routes_surplus (fg_debt_asset g) weth
    (mkSwap VENUE_UNIV3_POOL (fg_debt_asset g) weth LEG_TAKE_BALANCE 0 (be 20 pool)) = true) as R.
  { unfold routes_surplus. cbn [s_token_in s_token_out s_flags]. by rewrite !Z.eqb_refl. }
  split; [by constructor|]. cbn [existsb]. by rewrite R, orb_true_r.
Qed.

(** The surplus helper keeps the legs there are, in front, and leaves a TAKE_BALANCE leg to
    WETH for the debt of every group whose flash exceeds what its legs pull. It adds no other
    kind of leg. *)
Lemma surplus_legs_ensured p weth pool :
  exists extra,
    bp_profit_swaps (ensure_surplus_borrow_profit_legs p weth pool) = bp_profit_swaps p ++ extra /\
    Forall (fun s => s_token_out s = weth /\ has_flag (s_flags s) LEG_TAKE_BALANCE = true /\
                     exists g, g ∈ bp_groups p /\ s_token_in s = fg_debt_asset g) extra /\
    Forall (fun g => has_surplus weth g = true ->
      existsb (routes_surplus (fg_debt_asset g) weth)
        (bp_profit_swaps (ensure_surplus_borrow_profit_legs p weth pool)) = true) (bp_groups p).
Proof.
  cbn [ensure_surplus_borrow_profit_legs bp_profit_swaps].
  generalize (bp_profit_swaps p) as swaps. induction (bp_groups p) as [|g l IH]; intros swaps.
  { exists []. simpl. by rewrite app_nil_r. }
  simpl. destruct (surplus_leg_app weth pool swaps g) as (e1 & -> & He & Hr).
  destruct (IH (swaps ++ e1)) as (e2 & E2 & Hf & Hg). exists (e1 ++ e2). rewrite E2, app_assoc.
  split; [done|]. split; [|constructor].
  - apply Forall_app. split.
    + eapply Forall_impl; [exact He|]. intros s [[H1 H2]%andb_true_iff H3]%andb_true_iff.
      apply Z.eqb_eq in H1, H2. split_and!; try done. exists g. split; [by left|done].
    + eapply Forall_impl; [exact Hf|]. intros s (H1 & H2 & g' & H3 & H4).
      split_and!; try done. exists g'. split; [by right|done].
  - intros Hs. rewrite existsb_app, Hr by done. done.
  - by rewrite <- E2.
Qed.

Lemma surplus_routed p weth pool g :
  g ∈ bp_groups p -> has_surplus weth g = true ->
  existsb (routes_surplus (fg_debt_asset g) weth)
    (bp_profit_swaps (ensure_surplus_borrow_profit_legs p weth pool)) = true.
Proof.
  intros Hg Hs. destruct (surplus_legs_ensured p weth pool) as (_ & _ & _ & H).
  rewrite Forall_forall in H. by apply H.
Qed.

(** * Witnesses *)

(** Two legs on one flash loan, a repay swap tied to each, and a closing profit swap. *)
Definition demo_swap (venue tin tout flags amount : Z) (data : list Z) : SwapLeg :=
  mkSwap venue tin tout flags amount data.
Definition demo_group : FlashGroup :=
  mkFlash FAave 11 2 300 5
    [mkLiq XAaveV3 12 21 3 100 TNone 100; mkLiq XAaveV3 12 22 4 200 TNone 200]
    [demo_swap 0 3 2 6 100 (be 20 31); demo_swap 0 4 2 10 200 (be 20 32)].
Definition demo_plan : BatchPlan :=
  mkBatch 1 100 1000 50 [demo_group]
    [demo_swap 0 3 1 1 0 (be 20 33); demo_swap 0 4 1 1 0 (be 20 34)].
Definition demo_bytes : list Z :=
  Eval vm_compute in match encode_unchecked demo_plan with Ok b => b | Err _ => [] end.

Lemma demo_typed : plan_typed demo_plan.
Proof. apply (bool_decide_unpack _). vm_compute. exact I. Defined.

Lemma decode_of_encode_witness : decode_batch demo_bytes = Ok (on_wire demo_plan).
Proof.
  apply (decode_of_encode demo_plan demo_bytes); [exact demo_typed|vm_compute; reflexivity].
Defined.

Lemma encode_of_decode_witness : encode_unchecked (on_wire demo_plan) = Ok demo_bytes.
Proof.
  apply (encode_of_decode demo_bytes (on_wire demo_plan)).
  - apply (bool_decide_unpack _). vm_compute. exact I.
  - vm_compute. discriminate.
  - vm_compute. reflexivity.
  - vm_compute. reflexivity.
Defined.

Lemma gov_payload_roundtrip_witness :
  exists b' pl, with_gov_payload demo_bytes 77 = Ok b' /\ parse b' = Ok pl /\
    h_payload_id (pl_header pl) = Some 77 /\ h_spell (pl_header pl) = None /\
    decode_batch b' = Ok (on_wire (with_flags demo_plan (Z.lor (bp_flags demo_plan) FLAG_GOV_EXEC))) /\
    refuses_gov b'.
Proof.
  apply (gov_payload_roundtrip demo_plan demo_bytes 77);
    [exact demo_typed|vm_compute; reflexivity|vm_compute; split; discriminate
    |vm_compute; discriminate].
Defined.

Lemma parsed_plan_decodes_witness :
  exists pl, parse demo_bytes = Ok pl /\
  ((exists p, decode_batch demo_bytes = Ok p) \/
   exists m, decode_batch demo_bytes = Err (WireErr (BadGearboxMode m))).
Proof.
  destruct (parse demo_bytes) as [pl|] eqn:E; [|vm_compute in E; discriminate E].
  exists pl. split; [reflexivity|]. apply (parsed_plan_decodes demo_bytes pl).
  - apply (bool_decide_unpack _). vm_compute. exact I.
  - vm_compute. discriminate.
  - exact E.
Defined.

Lemma views_agree_witness :
  exists pl, parse demo_bytes = Ok pl /\
  exists vs w,
    collect groups_next (groups pl) = map Ok vs /\
    Forall2 group_view vs (bp_groups (on_wire demo_plan)) /\
    (forall i v, vs !! i = Some v -> plan_group pl (Z.of_nat i) = Ok v) /\
    profit_swaps pl = Ok w /\
    collect swap_legs_next w = map Ok (map wire_swap (bp_profit_swaps (on_wire demo_plan))).
Proof.
  destruct (parse demo_bytes) as [pl|] eqn:E; [|vm_compute in E; discriminate E].
  exists pl. split; [reflexivity|]. apply (views_agree demo_bytes (on_wire demo_plan) pl).
  - apply (bool_decide_unpack _). vm_compute. exact I.
  - vm_compute. discriminate.
  - vm_compute. reflexivity.
  - exact E.
Defined.

Lemma tie_roundtrip_witness :
  match tie_flags 2 5 with
  | Some f => (5 < 63)%nat /\ leg_tie f = Some 5%nat /\ Z.land f 3 = Z.land 2 3 /\ field 1 f
  | None => (63 <= 5)%nat
  end.
Proof. apply (tie_roundtrip 2 5). unfold field. simpl. lia. Defined.
