(* ===== verification/PlanCheck.v ===== *)
(** The encoder-only invariants of a plan ([crates/liq-plan/src/validate.rs]) and the registry
    pins they are checked against ([types.rs], [ValidateCtx]).

    [validate] is translated check by check, in the order of the code, with its errors. The
    theorems say what a plan that passed satisfies, in the terms of the Executor: who repays
    what, what leaves through which leg, and which sources fund a debt. *)

From S2P Require Import Prelude Fixed Types Halt Flash Bytes Wire Plan.
From stdpp Require Import strings.
Local Open Scope Z_scope.

(** * [ValidateCtx] *)

Record V4ReservePin := mkV4Pin { v4_spoke : Z; v4_reserve_id : Z; v4_pin_underlying : Z }.
Record MorphoMarketPin := mkMorphoPin {
  mp_id : Z; mp_morpho : Z; mp_loan_token : Z; mp_collateral_token : Z; mp_oracle : Z;
  mp_irm : Z; mp_lltv : Z }.
Record CompoundMarketPin := mkCompoundPin {
  cp_debt_ctoken : Z; cp_ctoken_collateral : Z; cp_is_cether : Z }.
Record LiquityTrovePin := mkTrovePin { tp_trove_manager : Z; tp_trove_id : Z; tp_borrower : Z }.

Record ValidateCtx := mkCtx {
  vc_weth : Z; vc_v4_underlying : list V4ReservePin; vc_morpho : list MorphoMarketPin;
  vc_compound : list CompoundMarketPin; vc_liquity : list LiquityTrovePin }.

Definition v4_pin (c : ValidateCtx) (spoke id : Z) : option Z :=
  option_map v4_pin_underlying
    (find (fun p => (v4_spoke p =? spoke) && (v4_reserve_id p =? id)) (vc_v4_underlying c)).
Definition morpho_pin (c : ValidateCtx) (id : Z) : option MorphoMarketPin :=
  find (fun p => mp_id p =? id) (vc_morpho c).
Definition compound_pin (c : ValidateCtx) (debt_ctoken ctoken_collateral : Z)
    : option CompoundMarketPin :=
  find (fun p => (cp_debt_ctoken p =? debt_ctoken) &&
                 (cp_ctoken_collateral p =? ctoken_collateral)) (vc_compound c).
Definition liquity_pin (c : ValidateCtx) (trove_id : Z) : option LiquityTrovePin :=
  find (fun p => tp_trove_id p =? trove_id) (vc_liquity c).

Definition is_some {A} (o : option A) : bool := match o with Some _ => true | None => false end.

Definition add_v4 (c : ValidateCtx) (pin : V4ReservePin) : ValidateCtx * bool :=
  if is_some (v4_pin c (v4_spoke pin) (v4_reserve_id pin)) then (c, false) else
  (mkCtx (vc_weth c) (vc_v4_underlying c ++ [pin]) (vc_morpho c) (vc_compound c) (vc_liquity c),
   true).
Definition add_morpho (c : ValidateCtx) (pin : MorphoMarketPin) : ValidateCtx * bool :=
  if is_some (morpho_pin c (mp_id pin)) then (c, false) else
  (mkCtx (vc_weth c) (vc_v4_underlying c) (vc_morpho c ++ [pin]) (vc_compound c) (vc_liquity c),
   true).
Definition add_compound (c : ValidateCtx) (pin : CompoundMarketPin) : ValidateCtx * bool :=
  if is_some (compound_pin c (cp_debt_ctoken pin) (cp_ctoken_collateral pin)) then (c, false) else
  (mkCtx (vc_weth c) (vc_v4_underlying c) (vc_morpho c) (vc_compound c ++ [pin]) (vc_liquity c),
   true).
Definition add_liquity (c : ValidateCtx) (pin : LiquityTrovePin) : ValidateCtx * bool :=
  if is_some (liquity_pin c (tp_trove_id pin)) then (c, false) else
  (mkCtx (vc_weth c) (vc_v4_underlying c) (vc_morpho c) (vc_compound c) (vc_liquity c ++ [pin]),
   true).

(** * Small checks *)

Definition is_unwrap_venue (v : Z) : bool :=
  (v =? VENUE_UNWRAP_4626) || (v =? VENUE_PENDLE_PT_REDEEM) || (v =? VENUE_CURVE_LP_ONE_COIN) ||
  (v =? VENUE_PENDLE_MARKET_SELL).

(** [if bad { return Err(e) }]. *)
Definition refuse (bad : bool) (e : EncodeError) : ERes unit := if bad then Err e else Ok tt.

(** A loop [for x in xs { f(x)?; }]. *)
Definition for_each {A} (f : A -> ERes unit) (l : list A) : ERes unit :=
  try_each (fun _ x => f x) tt l.

Definition nonzero (a : Z) (field : string) : ERes unit := refuse (a =? 0) (ZeroAddress field).

(** [try_fold(0u128, |a, x| a.checked_add(f(x)).ok_or(TooManyLegs))]. *)
Definition sum_u128 {A} (f : A -> Z) (l : list A) : ERes Z :=
  try_each (fun a x => ok_or (checked_add 128 a (f x)) TooManyLegs) 0 l.

Definition pull_of (g : FlashGroup) : ERes Z := sum_u128 l_protocol_pull (fg_liqs g).

Definition reward_group (g : FlashGroup) : ERes unit :=
  if negb (fg_flash_amount g =? 0) || negb (fg_flash_source g =? 0) || negb (fg_fee_bps g =? 0)
  then Err RewardGroupBorrows else
  if negb (length (fg_repay_swaps g) =? 0)%nat then Err RewardGroupRepays else
  match find (fun l => negb (l_protocol_pull l =? 0)) (fg_liqs g) with
  | Some l => Err (RewardGroupPulls (l_protocol_pull l))
  | None => Ok tt
  end.

(** [data.get(..20) == Some(address)]. *)
Definition starts_with (data : list Z) (a : Z) : bool :=
  (20 <=? length data)%nat && bool_decide (take 20 data = be 20 a).

Definition flash_swap_leg (g : FlashGroup) (s : SwapLeg) : ERes unit :=
  let unwrap := is_unwrap_venue (s_venue s) in
  if has_flag (s_flags s) LEG_EXACT_OUT || (negb unwrap && (s_token_out s =? fg_debt_asset g))
  then Err (FlashSwapRepaysDebt (fg_debt_asset g)) else
  refuse ((s_venue s =? VENUE_UNIV3_POOL) && starts_with (s_data s) (fg_flash_source g))
    (FlashSwapLegOnLender (fg_flash_source g)).

Definition flash_swap_group (g : FlashGroup) : ERes unit :=
  if negb (length (fg_liqs g) =? 1)%nat then Err (FlashSwapLegs (length (fg_liqs g))) else
  if negb (fg_fee_bps g =? 0) then Err (UnpriceableFee (fg_provider g) (fg_fee_bps g)) else
  for_each (flash_swap_leg g) (fg_repay_swaps g).

Definition check_pin_v4 (c : ValidateCtx) (spoke id expected : Z) : ERes unit :=
  match v4_pin c spoke id with
  | None => Err (V4ReserveUnpinned spoke id)
  | Some pinned =>
      if pinned =? expected then Ok tt else Err (V4ReserveMismatch spoke id pinned expected)
  end.

Definition check_compound (c : ValidateCtx) (market ctoken_collateral is_cether : Z)
    : ERes unit :=
  let? pin := ok_or (compound_pin c market ctoken_collateral)
                (CompoundUnpinned market ctoken_collateral) in
  if negb (cp_debt_ctoken pin =? market)
  then Err (CompoundMarketMismatch (cp_debt_ctoken pin) market) else
  if negb (cp_ctoken_collateral pin =? ctoken_collateral)
  then Err (CompoundCTokenMismatch (cp_ctoken_collateral pin) ctoken_collateral) else
  refuse (negb (cp_is_cether pin =? is_cether))
    (CompoundCEtherMismatch (cp_is_cether pin) is_cether).

Definition check_liquity (c : ValidateCtx) (market trove_id borrower : Z) : ERes unit :=
  let? pin := ok_or (liquity_pin c trove_id) (LiquityUnpinned trove_id) in
  if negb (tp_trove_manager pin =? market)
  then Err (LiquityMarketMismatch (tp_trove_manager pin) market) else
  if negb (tp_trove_id pin =? trove_id)
  then Err (LiquityTroveMismatch (tp_trove_id pin) trove_id) else
  refuse (negb (tp_borrower pin =? 0) && negb (tp_borrower pin =? borrower))
    (LiquityBorrowerMismatch (tp_borrower pin) borrower).

(** [flags & !mask] of a byte. *)
Definition clear_bits (flags mask : Z) : Z := Z.land flags (Z.lxor mask 255).

Definition check_fluid (kind flags col_per_unit_debt debt_shares_min_per_token
    col_per_share_min : Z) : ERes unit :=
  if negb ((FLUID_T1 <=? kind) && (kind <=? FLUID_T4)) then Err (FluidBadKind kind) else
  if negb (clear_bits flags FLUID_FLAGS =? 0) then Err (FluidBadFlags flags) else
  if col_per_unit_debt =? 0 then Err FluidZeroColPer else
  let smart_debt := (kind =? FLUID_T3) || (kind =? FLUID_T4) in
  let smart_col := (kind =? FLUID_T2) || (kind =? FLUID_T4) in
  if Bool.eqb smart_debt (debt_shares_min_per_token =? 0) ||
     Bool.eqb smart_col (col_per_share_min =? 0)
  then Err (FluidPerShare kind) else
  refuse ((negb smart_debt && has_flag flags FLUID_DEBT_TOKEN1) ||
          (negb smart_col && has_flag flags FLUID_COL_TOKEN1)) (FluidBadFlags flags).

Definition col_per_unit_debt_1e18 (actual_col actual_debt : Z) : ERes Z :=
  if actual_debt =? 0 then Err FluidColPerConvert else
  map_err (fun _ => FluidColPerConvert) (mul_div actual_col WAD actual_debt Down).

(** * Swap legs *)

(** [data.get(h * 4 + k).unwrap_or(0)]. *)
Definition chain_byte (data : list Z) (h k : nat) : Z := default 0 (data !! (h * 4 + k)%nat).

(** One hop: [None] continues, [Some len] has an extra of that length. *)
Definition chain_hop (kind p0 p1 p2 : Z) : ERes (option nat) :=
  if ((kind =? CHAIN_HOP_V3) || (kind =? CHAIN_HOP_V3_SUSHI) || (kind =? CHAIN_HOP_V3_PANCAKE)) &&
     negb ((p0 =? 0) && (p1 =? 0) && (p2 =? 0)) then Ok None else
  if (kind =? CHAIN_HOP_V2) && ((p0 =? 0) && (p1 =? 0) && (p2 <=? 1)) then Ok None else
  if kind =? CHAIN_HOP_V4 then Ok (Some V4_KEY_LEN) else
  if (kind =? CHAIN_HOP_CURVE) || (kind =? CHAIN_HOP_CURVE_CRYPTO)
  then Ok (Some CHAIN_CURVE_EXTRA) else
  if kind =? CHAIN_HOP_BALANCER then Ok (Some BALANCER_POOL_ID_LEN) else
  if kind =? CHAIN_HOP_FLUID then Ok (Some FLUID_LEG_LEN) else
  Err (BadChain "hop").

(** The hop loop from hop [h]: the lengths of the extras and whether exact output may run. *)
Fixpoint chain_hops (data : list Z) (base : nat) (n h extras : nat) (exact_out_ok : bool)
    : ERes (nat * bool) :=
  match n with
  | O => Ok (extras, exact_out_ok)
  | S n =>
      let at_ := chain_byte data h in
      let? hop := chain_hop (at_ 1%nat) (at_ 2%nat) (at_ 3%nat) (at_ 4%nat) in
      match hop with
      | None => chain_hops data base n (S h) extras exact_out_ok
      | Some len =>
          let off := Z.to_nat (Z.lor (Z.lor (Z.shiftl (at_ 2%nat) 16) (Z.shiftl (at_ 3%nat) 8))
                                     (at_ 4%nat)) in
          if (off <? base)%nat || (length data <? off + len)%nat then Err (BadChain "extra") else
          chain_hops data base n (S h) (extras + len)%nat false
      end
  end.

(** [chunks(20)]: [n] tokens from the front. *)
Fixpoint chunks20 (n : nat) (l : list Z) : list (list Z) :=
  match n with
  | O => []
  | S n => match l with [] => [] | _ => take 20 l :: chunks20 n (drop 20 l) end
  end.

Definition bad_mid (s : SwapLeg) (t : list Z) : bool :=
  forallb (Z.eqb 0) t || bool_decide (t = be 20 (s_token_in s)) ||
  bool_decide (t = be 20 (s_token_out s)).

Definition check_chain (s : SwapLeg) : ERes unit :=
  let data := s_data s in
  let? first := ok_or (head data) (BadChain "empty") in
  let n := Z.to_nat first in
  if (n =? 0)%nat || (CHAIN_MAX_HOPS <? n)%nat then Err (BadChain "hop count") else
  let base := (n * 4 + 1 + (n - 1) * 20)%nat in
  if (length data <? base)%nat then Err (BadChain "length") else
  let? (extras, exact_out_ok) := chain_hops data base n 0 0 true in
  if negb (length data =? base + extras)%nat then Err (BadChain "length") else
  if has_flag (s_flags s) LEG_EXACT_OUT && negb exact_out_ok
  then Err (BadChain "exact output through a hop with an extra (V4, Curve, Balancer, Fluid)") else
  let from := (n * 4 + 1)%nat in
  let mids := take (base - from) (drop from data) in
  refuse (existsb (bad_mid s) (chunks20 n mids)) (BadChain "intermediate token").

Definition check_swap (s : SwapLeg) : ERes unit :=
  let? _ := nonzero (s_token_in s) "tokenIn" in
  let? _ := nonzero (s_token_out s) "tokenOut" in
  let data := s_data s in
  let n := length data in
  let v := s_venue s in
  if v =? VENUE_UNIV3_POOL then
    if negb (n =? 20)%nat && negb (n =? 21)%nat then Err (BadPoolDataLen n) else
    match data !! 20%nat with
    | Some fid => refuse ((fid =? V3_FACTORY_UNISWAP) || (V3_FACTORY_PANCAKE <? fid))
                    (BadV3Factory fid)
    | None => Ok tt
    end
  else if v =? VENUE_ROUTER then refuse (n <? 20)%nat (BadRouterDataLen n)
  else if v =? VENUE_UNIV2_POOL then
    if negb (n =? 21)%nat then Err (BadV2DataLen n) else
    match data !! 20%nat with
    | Some fid => refuse (V2_FACTORY_SUSHI <? fid) (BadV2Factory fid)
    | None => Ok tt
    end
  else if v =? VENUE_BALANCER then
    refuse (negb (n =? BALANCER_POOL_ID_LEN)%nat) (BadBalancerData n)
  else if v =? VENUE_FLUID then
    refuse (negb (n =? FLUID_LEG_LEN)%nat ||
            match data !! 20%nat with None => true | Some b => 1 <? b end) (BadFluidData n)
  else if (v =? VENUE_CURVE_POOL) || (v =? VENUE_CURVE_CRYPTO_POOL) then
    if negb (n =? 23)%nat then Err (BadCurveDataLen n) else
    refuse (has_flag (s_flags s) LEG_EXACT_OUT) CurveExactOut
  else if v =? VENUE_UNWRAP_4626 then
    if negb (n =? 20)%nat || negb (bool_decide (data = be 20 (s_token_in s)))
    then Err (BadUnwrapData n) else
    refuse (has_flag (s_flags s) LEG_EXACT_OUT) UnwrapExactOut
  else if v =? VENUE_CURVE_LP_ONE_COIN then
    if negb (n =? 22)%nat || negb (starts_with data (s_token_in s))
    then Err (BadUnwrapData n) else
    refuse (has_flag (s_flags s) LEG_EXACT_OUT) UnwrapExactOut
  else if (v =? VENUE_PENDLE_PT_REDEEM) || (v =? VENUE_PENDLE_MARKET_SELL) then
    if negb (n =? 20)%nat || forallb (Z.eqb 0) data then Err (BadUnwrapData n) else
    refuse (has_flag (s_flags s) LEG_EXACT_OUT) UnwrapExactOut
  else if v =? VENUE_UNIV4_POOL then refuse (negb (n =? V4_KEY_LEN)%nat) (BadPoolDataLen n)
  else if v =? VENUE_CHAIN then check_chain s
  else Err (UnknownVenue v).

(** * Group checks *)

Definition tie_ok (legs : nat) (s : SwapLeg) : ERes unit :=
  let take_ := has_flag (s_flags s) LEG_TAKE_BALANCE in
  match leg_tie (s_flags s) with
  | Some tie =>
      if (legs <=? tie)%nat then Err (TieOutOfRange tie legs) else
      refuse take_ (TiedTakeBalance (s_token_in s))
  | None =>
      if (1 <? legs)%nat && negb take_ then
        if (LEG_TIE_MAX <? legs)%nat then Err (TooManyTiedLegs legs LEG_TIE_MAX)
        else Err (UntiedRepay (s_token_in s) legs)
      else Ok tt
  end.

Definition ties_ok (g : FlashGroup) : ERes unit :=
  for_each (tie_ok (length (fg_liqs g))) (fg_repay_swaps g).

Definition unwraps_first (blob : list SwapLeg) : ERes unit :=
  map_res (fun _ => tt) (try_each (fun seen_other s =>
    if is_unwrap_venue (s_venue s) then
      if (seen_other : bool) then Err UnwrapNotFirst else Ok seen_other
    else Ok true) false blob).

Definition all_swaps (p : BatchPlan) : list SwapLeg :=
  flat_map fg_repay_swaps (bp_groups p) ++ bp_profit_swaps p.

(** A leg that sells all of [token] to WETH, and is not an unwrap. *)
Definition closes (token weth : Z) (s : SwapLeg) : bool :=
  (s_token_in s =? token) && (s_token_out s =? weth) &&
  has_flag (s_flags s) LEG_TAKE_BALANCE && negb (is_unwrap_venue (s_venue s)).

Definition unwrap_outputs_closed (p : BatchPlan) (g : FlashGroup) (weth : Z) : ERes unit :=
  for_each (fun u =>
    let out := s_token_out u in
    if (out =? fg_debt_asset g) || (out =? weth) then Ok tt else
    refuse (negb (existsb (closes out weth) (all_swaps p))) (UnwrapOutputUnclosed out))
    (List.filter (fun s => is_unwrap_venue (s_venue s)) (fg_repay_swaps g)).

(** The tokens taken whole so far, and whether a set amount follows. *)
Definition assert_exact_out_first (blob : list SwapLeg) : ERes unit :=
  map_res (fun _ => tt) (try_each (fun taken s =>
    if has_flag (s_flags s) LEG_TAKE_BALANCE then Ok (taken ++ [s_token_in s])
    else if existsb (Z.eqb (s_token_in s)) taken then Err (SpentAfterTakeBalance (s_token_in s))
    else Ok taken) [] blob).

Definition takes (blob : list SwapLeg) (token : Z) : nat :=
  length (List.filter (fun s => (s_token_in s =? token) && has_flag (s_flags s) LEG_TAKE_BALANCE)
    blob).

Definition close_collateral (p : BatchPlan) (weth : Z) (g : FlashGroup) (l : LiqLeg) : ERes unit :=
  let own := takes (fg_repay_swaps g) (l_collateral_asset l) in
  let closers := if (0 <? own)%nat then own else takes (bp_profit_swaps p) (l_collateral_asset l) in
  let need := if l_collateral_asset l =? weth then 0%nat else 1%nat in
  refuse (negb (closers =? need)%nat) (BadCollateralClosure (l_collateral_asset l) closers need).

Definition close_collaterals (p : BatchPlan) (weth : Z) : ERes unit :=
  for_each (fun g => for_each (close_collateral p weth g) (fg_liqs g)) (bp_groups p).

(** The repay swaps of leg [leg]: those tied to it, and the untied ones of a group of one. *)
Definition mine (g : FlashGroup) (leg : nat) : list SwapLeg :=
  List.filter (fun s => match leg_tie (s_flags s) with
                   | Some t => (t =? leg)%nat
                   | None => (length (fg_liqs g) =? 1)%nat
                   end) (fg_repay_swaps g).

Definition exact_out_amount (s : SwapLeg) : Z :=
  if has_flag (s_flags s) LEG_EXACT_OUT then s_amount s else 0.

Definition overshoots (g : FlashGroup) (leg : nat) (l : LiqLeg) : bool :=
  existsb (fun s => (s_token_out s =? fg_debt_asset g) &&
    negb (has_flag (s_flags s) (Z.lor LEG_EXACT_OUT LEG_TAKE_BALANCE))) (mine g leg) ||
  existsb (fun s => is_unwrap_venue (s_venue s) && (s_token_in s =? l_collateral_asset l) &&
    (s_token_out s =? fg_debt_asset g)) (fg_repay_swaps g) ||
  (l_collateral_asset l =? fg_debt_asset g).

(** The venues whose exact output the Executor can raise by the fee. *)
Definition adds_fee (v : Z) : bool :=
  (v =? VENUE_UNIV3_POOL) || (v =? VENUE_UNIV2_POOL) || (v =? VENUE_UNIV4_POOL) ||
  (v =? VENUE_BALANCER) || (v =? VENUE_FLUID) || (v =? VENUE_CHAIN).

(** One turn of the leg loop. A leg without EXACT_OUT adds nothing to the sum. *)
Definition size_leg (g : FlashGroup) (fee : Z) (leg : nat) (l : LiqLeg) : ERes unit :=
  let? exact_out := sum_u128 exact_out_amount (mine g leg) in
  let pull := l_protocol_pull l in
  if pull <? exact_out then Err (UnderSeizure leg exact_out pull) else
  let over := overshoots g leg l in
  if negb (exact_out =? pull) && negb over then Err (RepayNotSizedToPull leg exact_out pull) else
  let carries := over || existsb (fun s => has_flag (s_flags s) LEG_EXACT_OUT &&
                                           adds_fee (s_venue s)) (mine g leg) in
  refuse (negb (fee =? 0) && negb carries) (PremiumUncovered leg).

(** [liqs.iter().enumerate()]. *)
Definition size_legs (g : FlashGroup) (fee : Z) : ERes unit :=
  map_res (fun _ => tt)
    (try_each (fun leg l => let? _ := size_leg g fee leg l in Ok (S leg)) 0%nat (fg_liqs g)).

Definition size_repay_to_pull (g : FlashGroup) : ERes unit :=
  let? pull := pull_of g in
  if fg_flash_amount g <? pull then Err (FlashShort (fg_flash_amount g) pull) else
  if bool_decide (fg_provider g = FUniV3Swap) then Ok tt else
  let? fee := ok_or (fee_amount (fg_provider g) (fg_flash_amount g) (fg_fee_bps g))
                (UnpriceableFee (fg_provider g) (fg_fee_bps g)) in
  let? _ := ok_or (try_from 128 fee) PremiumOverflow in
  size_legs g fee.

Definition has_exact_in_repay (g : FlashGroup) : bool :=
  existsb (fun s => (s_token_out s =? fg_debt_asset g) &&
    (negb (has_flag (s_flags s) (Z.lor LEG_EXACT_OUT LEG_TAKE_BALANCE)) ||
     is_unwrap_venue (s_venue s))) (fg_repay_swaps g).

Definition surplus_debt_routed (p : BatchPlan) (g : FlashGroup) (weth : Z) : ERes unit :=
  let? pull := pull_of g in
  if (fg_debt_asset g =? weth) ||
     ((fg_flash_amount g <=? pull) && negb (has_exact_in_repay g)) then Ok tt else
  if existsb (routes_surplus (fg_debt_asset g) weth) (bp_profit_swaps p) then Ok tt
  else Err (SurplusDebtUnrouted (fg_debt_asset g) (fg_flash_amount g) pull).

(** * The cascade *)

Definition same_debt (debt : Z) (g : FlashGroup) : bool := fg_debt_asset g =? debt.
Definition same_source (a b : FlashGroup) : bool :=
  bool_decide (fg_provider a = fg_provider b) && (fg_flash_source a =? fg_flash_source b).

(** The pairs [k < m] of one debt. *)
Fixpoint duplicate_source (debt : Z) (groups : list FlashGroup) : ERes unit :=
  match groups with
  | [] => Ok tt
  | a :: rest =>
      if same_debt debt a && existsb (fun b => same_debt debt b && same_source a b) rest
      then Err (DuplicateSourceForDebt debt (fg_provider a))
      else duplicate_source debt rest
  end.

Definition cascade_ok (groups : list FlashGroup) : ERes unit :=
  for_each (fun g0 =>
    let debt := fg_debt_asset g0 in
    let n := length (List.filter (same_debt debt) groups) in
    if (3 <? n)%nat then Err (TooManySourcesForDebt debt n) else
    if (1 <? n)%nat then duplicate_source debt groups else Ok tt) groups.

Definition morpho_actual_pull (asked total_assets total_shares : Z) : option Z :=
  let! s_plus := checked_add 256 total_shares 1000000 in
  let! a_plus := checked_add 256 total_assets 1 in
  let! m := checked_mul 256 asked s_plus in
  let! shares := checked_div m a_plus in
  let! n := checked_mul 256 shares a_plus in
  let! n := checked_add 256 n s_plus in
  let! num := checked_sub n 1 in
  checked_div num s_plus.

(** * [validate] *)

Section Validate.
(** [keccak256] of the ABI encoding of loan token, collateral token, oracle, irm and lltv. *)
Context (market_hash : Z -> Z -> Z -> Z -> Z -> Z).

Definition morpho_id (pin : MorphoMarketPin) : Z :=
  market_hash (mp_loan_token pin) (mp_collateral_token pin) (mp_oracle pin) (mp_irm pin)
    (mp_lltv pin).

Definition check_morpho (c : ValidateCtx) (id market debt coll : Z) : ERes unit :=
  let? pin := ok_or (morpho_pin c id) (MorphoIdUnknown id) in
  if negb (mp_morpho pin =? market) then Err (ZeroAddress "morpho singleton") else
  let hashed := morpho_id pin in
  if negb (hashed =? mp_id pin) then Err (MorphoIdHashMismatch id) else
  refuse (negb (mp_loan_token pin =? debt) || negb (mp_collateral_token pin =? coll))
    (MorphoTokenMismatch id (mp_loan_token pin) (mp_collateral_token pin) debt coll).

(** The tail of a leg against its adapter and the pins. *)
Definition check_tail (c : ValidateCtx) (g : FlashGroup) (l : LiqLeg) : ERes unit :=
  match l_adapter l, l_tail l with
  | (XAaveV3 | XSiloV2), TNone => Ok tt
  | XAaveV4, TAaveV4 cr dr =>
      let? _ := check_pin_v4 c (l_market l) cr (l_collateral_asset l) in
      check_pin_v4 c (l_market l) dr (fg_debt_asset g)
  | XAaveV4, _ => Err V4TailShape
  | XMorphoBlue, TMorpho id =>
      check_morpho c id (l_market l) (fg_debt_asset g) (l_collateral_asset l)
  | XMorphoBlue, _ => Err MorphoTailShape
  | XEulerV2, TEuler _ vault => refuse (vault =? 0) EulerZeroVault
  | XEulerV2, _ => Err EulerTailShape
  | XSiloV2, _ => Err SiloTailShape
  | XLiquityV2, TLiquity trove_id =>
      if trove_id =? 0 then Err LiquityZeroTrove else
      check_liquity c (l_market l) trove_id (l_borrower l)
  | XLiquityV2, _ => Err LiquityTailShape
  | XFluid, TFluid kind flags cpd dsm csm => check_fluid kind flags cpd dsm csm
  | XFluid, _ => Err FluidTailShape
  | XGearbox, TGearbox min_seized _ => refuse (min_seized =? 0) GearboxZeroMinSeized
  | XGearbox, _ => Err GearboxTailShape
  | XCompoundV2, TCompoundV2 ctoken is_cether =>
      if ctoken =? 0 then Err CompoundZeroCToken else
      if 1 <? is_cether then Err CompoundBadFlag else
      check_compound c (l_market l) ctoken is_cether
  | XCompoundV2, _ => Err CompoundTailShape
  | XAaveV3, _ => Err V3TailShape
  end.

Definition check_liq (c : ValidateCtx) (g : FlashGroup) (reward_only : bool) (l : LiqLeg)
    : ERes unit :=
  let? _ := nonzero (l_market l) "market" in
  let? _ := nonzero (l_borrower l) "borrower" in
  let? _ := nonzero (l_collateral_asset l) "collateralAsset" in
  if (l_protocol_pull l =? 0) && negb (bool_decide (l_adapter l = XLiquityV2)) &&
     negb reward_only
  then Err (ZeroPull (l_protocol_pull l)) else
  check_tail c g l.

(** A token some repay leg of the group sells into its debt. *)
Definition into_debt (g : FlashGroup) (t : Z) : bool :=
  existsb (fun s => (s_token_in s =? t) && (s_token_out s =? fg_debt_asset g)) (fg_repay_swaps g).

Definition bad_target (g : FlashGroup) (weth : Z) (s : SwapLeg) : bool :=
  negb (s_token_out s =? fg_debt_asset g) && negb (s_token_out s =? weth) &&
  negb (into_debt g (s_token_out s)) && negb (is_unwrap_venue (s_venue s)).

(** The body of the group loop. *)
Definition check_group (p : BatchPlan) (c : ValidateCtx) (g : FlashGroup) : ERes unit :=
  let reward_only := bool_decide (fg_provider g = FNone) in
  let? _ := if reward_only then reward_group g
            else nonzero (fg_flash_source g) "flashSource" in
  let? _ := if bool_decide (fg_provider g = FUniV3Swap) then flash_swap_group g else Ok tt in
  let? _ := nonzero (fg_debt_asset g) "debtAsset" in
  if (length (fg_liqs g) =? 0)%nat then Err NoLegs else
  let? _ := for_each (check_liq c g reward_only) (fg_liqs g) in
  let? _ := for_each check_swap (fg_repay_swaps g) in
  let? _ := ties_ok g in
  let? _ := assert_exact_out_first (fg_repay_swaps g) in
  let? _ := unwraps_first (fg_repay_swaps g) in
  if existsb (bad_target g (vc_weth c)) (fg_repay_swaps g)
  then Err (RepayTargetMismatch (fg_debt_asset g)) else
  match find (fun s => has_flag (s_flags s) LEG_EXACT_OUT &&
                       negb (s_token_out s =? fg_debt_asset g)) (fg_repay_swaps g) with
  | Some s => Err (ExactOutNotDebt (s_token_out s) (fg_debt_asset g))
  | None =>
      let? _ := unwrap_outputs_closed p g (vc_weth c) in
      let? _ := size_repay_to_pull g in
      surplus_debt_routed p g (vc_weth c)
  end.

(** The body of the profit-swap loop. *)
Definition check_profit (c : ValidateCtx) (s : SwapLeg) : ERes unit :=
  let? _ := check_swap s in
  if negb (s_token_out s =? vc_weth c) then Err (ProfitTargetNotWeth (vc_weth c)) else
  refuse (is_some (leg_tie (s_flags s))) (TiedProfitLeg (s_token_in s)).

Definition validate (p : BatchPlan) (c : ValidateCtx) : ERes unit :=
  if (length (bp_groups p) =? 0)%nat then Err ENoGroups else
  if vc_weth c =? 0 then Err (ZeroAddress "weth") else
  if bp_min_profit_wei p =? 0 then Err ZeroMinProfit else
  let? _ := for_each (check_group p c) (bp_groups p) in
  let? _ := for_each (check_profit c) (bp_profit_swaps p) in
  let? _ := assert_exact_out_first (bp_profit_swaps p) in
  let? _ := close_collaterals p (vc_weth c) in
  cascade_ok (bp_groups p).

(** [EncodedPlan::encode]. *)
Definition encode (p : BatchPlan) (c : ValidateCtx) : ERes EncodedPlan :=
  let? _ := validate p c in encode_unchecked p.

End Validate.

(** * What passing means *)

Lemma refuse_Ok b e u : refuse b e = Ok u <-> b = false.
Proof. destruct u, b; simpl; naive_solver. Qed.

Lemma for_each_Ok {A} (f : A -> ERes unit) l u : for_each f l = Ok u <-> Forall (fun x => f x = Ok tt) l.
Proof.
  destruct u. unfold for_each. induction l as [|x l IH]; simpl.
  - split; [constructor|done].
  - rewrite bind_Ok, Forall_cons. split; [intros ([] & ? & ?)|intros [? ?]; exists tt]; naive_solver.
Qed.

Lemma map_res_Ok {E A} (r : Result E A) u : map_res (fun _ => tt) r = Ok u <-> exists a, r = Ok a.
Proof. destruct u, r; simpl; naive_solver. Qed.

Lemma existsb_false {A} (f : A -> bool) l : existsb f l = false <-> Forall (fun x => f x = false) l.
Proof.
  induction l as [|x l IH]; simpl; [split; [constructor|done]|].
  by rewrite orb_false_iff, Forall_cons, IH.
Qed.

Lemma sum_u128_acc {A} (f : A -> Z) l a s :
  try_each (fun a x => ok_or (checked_add 128 a (f x)) TooManyLegs) a l = Ok s -> s = a + zsum f l.
Proof.
  revert a. induction l as [|x l IH]; intros a H; simpl in *; [simplify_eq; lia|].
  apply bind_Ok in H as (a' & Ha & H). apply ok_or_Ok, checked_add_Some in Ha as [-> _].
  apply IH in H. lia.
Qed.

Lemma sum_u128_Ok {A} (f : A -> Z) l s : sum_u128 f l = Ok s -> s = zsum f l.
Proof. intros H%sum_u128_acc. lia. Qed.

Section Passing.
Context (market_hash : Z -> Z -> Z -> Z -> Z -> Z) (p : BatchPlan) (c : ValidateCtx).
Hypothesis Hval : validate market_hash p c = Ok tt.

Lemma validate_parts :
  Forall (fun g => check_group market_hash p c g = Ok tt) (bp_groups p) /\
  Forall (fun s => check_profit c s = Ok tt) (bp_profit_swaps p) /\
  assert_exact_out_first (bp_profit_swaps p) = Ok tt /\
  close_collaterals p (vc_weth c) = Ok tt /\ cascade_ok (bp_groups p) = Ok tt /\
  bp_groups p <> [] /\ 0 <> vc_weth c /\ 0 <> bp_min_profit_wei p.
Proof.
  unfold validate in Hval.
  destruct (Nat.eqb_spec (length (bp_groups p)) 0) as [|Hn]; [done|].
  destruct (Z.eqb_spec (vc_weth c) 0); [done|].
  destruct (Z.eqb_spec (bp_min_profit_wei p) 0); [done|].
  apply bind_Ok in Hval as ([] & Hg & H). apply bind_Ok in H as ([] & Hp & H).
  apply bind_Ok in H as ([] & Ha & H). apply bind_Ok in H as ([] & Hc & H).
  apply for_each_Ok in Hg. apply for_each_Ok in Hp. split_and!; try done. by intros E; rewrite E in Hn.
Qed.

Lemma group_parts g :
  g ∈ bp_groups p ->
  fg_liqs g <> [] /\
  Forall (fun l => check_liq market_hash c g (bool_decide (fg_provider g = FNone)) l = Ok tt)
    (fg_liqs g) /\
  Forall (fun s => check_swap s = Ok tt) (fg_repay_swaps g) /\
  Forall (fun s => tie_ok (length (fg_liqs g)) s = Ok tt) (fg_repay_swaps g) /\
  assert_exact_out_first (fg_repay_swaps g) = Ok tt /\ unwraps_first (fg_repay_swaps g) = Ok tt /\
  size_repay_to_pull g = Ok tt /\
  (fg_provider g = FUniV3Swap -> flash_swap_group g = Ok tt) /\
  (fg_provider g = FNone -> reward_group g = Ok tt).
Proof.
  intros Hg. destruct validate_parts as (Hgs & _).
  pose proof (proj1 (Forall_forall _ _) Hgs _ Hg) as H. simpl in H. unfold check_group in H.
  apply bind_Ok in H as ([] & H1 & H). apply bind_Ok in H as ([] & H2 & H).
  apply bind_Ok in H as ([] & H3 & H).
  destruct (Nat.eqb_spec (length (fg_liqs g)) 0) as [|Hn]; [done|].
  apply bind_Ok in H as ([] & H4 & H). apply bind_Ok in H as ([] & H5 & H).
  apply bind_Ok in H as ([] & H6 & H). apply bind_Ok in H as ([] & H7 & H).
  apply bind_Ok in H as ([] & H8 & H). destruct (existsb _ _); [done|].
  destruct (find _ _); [done|].
  apply bind_Ok in H as ([] & H9 & H). apply bind_Ok in H as ([] & H10 & H).
  unfold ties_ok in H6. apply for_each_Ok in H4. apply for_each_Ok in H5.
  apply for_each_Ok in H6. split_and!; try done.
  - by intros E; rewrite E in Hn.
  - intros E. by rewrite bool_decide_true in H2.
  - intros E. by rewrite bool_decide_true in H1.
Qed.

(** ** Sizing *)

(** What an exact-output swap buys, but for one that also takes the whole balance in a group
    of several legs: it is tied to no leg, so no leg's pull bounds it. *)
Definition bounded_exact_out (g : FlashGroup) (s : SwapLeg) : Z :=
  if has_flag (s_flags s) LEG_TAKE_BALANCE && (1 <? length (fg_liqs g))%nat then 0
  else exact_out_amount s.

(** The sums of a filter per index cover what falls under some index. *)
Lemma zsum_cover {A B} (w e : A -> Z) (sel : nat -> A -> bool) (l : list A) (idx : list B) i :
  Forall (fun x => 0 <= e x /\ w x <= e x /\
    (w x = 0 \/ exists k, (i <= k < i + length idx)%nat /\ sel k x = true)) l ->
  zsum w l <= zsum (fun k => zsum e (List.filter (sel k) l)) (seq i (length idx)).
Proof.
  induction 1 as [|x l (He & Hw & Hx) _ IH].
  { simpl. induction (seq i (length idx)); simpl; lia. }
  assert (forall k, zsum e (List.filter (sel k) (x :: l)) =
    (if sel k x then e x else 0) + zsum e (List.filter (sel k) l)) as Hstep
    by (intros k; simpl; destruct (sel k x); simpl; lia).
  assert (w x <= zsum (fun k => if sel k x then e x else 0) (seq i (length idx))) as Hx'.
  { clear IH. destruct Hx as [->|(k & Hk & Hs)].
    - induction (seq i (length idx)); simpl; [done|]. destruct (sel _ x); lia.
    - assert (k ∈ seq i (length idx)) as Hin by (apply elem_of_seq; lia).
      induction (seq i (length idx)) as [|j js IHj]; [by apply elem_of_nil in Hin|].
      apply elem_of_cons in Hin as [<-|Hin]; simpl.
      + rewrite Hs. enough (0 <= zsum (fun k => if sel k x then e x else 0) js) by lia.
        clear -He. induction js; simpl; [done|]. destruct (sel _ x); lia.
      + specialize (IHj Hin). destruct (sel j x); lia. }
  cbn [zsum foldr]. fold (zsum w l).
  etransitivity; [apply Z.add_le_mono; [exact Hx'|exact IH]|].
  clear -Hstep. generalize (seq i (length idx)) as ks. unfold zsum at 1 2 4.
  induction ks as [|k ks IH]; [done|]. cbn [foldr]. rewrite Hstep. lia.
Qed.

Lemma size_legs_at g fee : size_legs g fee = Ok tt ->
  forall i l, fg_liqs g !! i = Some l -> size_leg g fee i l = Ok tt.
Proof.
  unfold size_legs. rewrite map_res_Ok. intros [n H].
  enough (forall ls k n, try_each (fun leg l => let? _ := size_leg g fee leg l in Ok (S leg)) k ls
    = Ok n -> forall i l, ls !! i = Some l -> size_leg g fee (k + i) l = Ok tt) as Hx
    by exact (Hx _ 0%nat _ H).
  induction ls as [|x ls IH]; intros k m Hk i l Hi; [done|]. cbn [try_each] in Hk.
  apply bind_Ok in Hk as (k' & Hk & Hr). apply bind_Ok in Hk as ([] & Hx & [= <-]).
  destruct i as [|i]; [injection Hi as <-; by rewrite Nat.add_0_r|].
  rewrite <- Nat.add_succ_comm. by eapply IH.
Qed.

(** What the sizing of one leg says. *)
Lemma size_leg_Ok g fee i l :
  size_leg g fee i l = Ok tt ->
  zsum exact_out_amount (mine g i) <= l_protocol_pull l /\
  (overshoots g i l = false -> zsum exact_out_amount (mine g i) = l_protocol_pull l) /\
  (fee <> 0 -> overshoots g i l = true \/
     Exists (fun s => has_flag (s_flags s) LEG_EXACT_OUT && adds_fee (s_venue s) = true) (mine g i)).
Proof.
  unfold size_leg. intros H. apply bind_Ok in H as (x & ->%sum_u128_Ok & H).
  destruct (Z.ltb_spec (l_protocol_pull l) (zsum exact_out_amount (mine g i))); [done|].
  destruct (negb _ && negb _) eqn:E; [done|]. apply refuse_Ok in H. split; [done|]. split.
  - intros Ho. rewrite Ho, andb_true_r, negb_false_iff in E. by apply Z.eqb_eq.
  - intros Hf. rewrite (proj2 (Z.eqb_neq _ _)) in H by done. simpl in H.
    apply negb_false_iff, orb_true_iff in H as [H|H]; [by left|right].
    rewrite List.Exists_exists. by apply existsb_exists in H.
Qed.

Lemma zsum_seq_le {A} (F : nat -> Z) (G : A -> Z) ls : forall k,
  (forall i l, ls !! i = Some l -> F (k + i)%nat <= G l) ->
  zsum F (seq k (length ls)) <= zsum G ls.
Proof.
  induction ls as [|x ls IH]; intros k H; [done|]. cbn [length seq zsum foldr].
  apply Z.add_le_mono.
  - specialize (H 0%nat x eq_refl). by rewrite Nat.add_0_r in H.
  - apply IH. intros i l Hi. rewrite Nat.add_succ_comm. by apply H.
Qed.

(** A swap that is accepted is tied to a leg of the group, or is the only leg's, or takes the
    whole balance in a group of several legs. *)
Lemma tie_ok_sel n s :
  (0 < n)%nat -> tie_ok n s = Ok tt -> has_flag (s_flags s) LEG_TAKE_BALANCE && (1 <? n)%nat = false ->
  exists k, (0 <= k < n)%nat /\
    match leg_tie (s_flags s) with Some t => (t =? k)%nat | None => (n =? 1)%nat end = true.
Proof.
  unfold tie_ok. intros Hn H Ht. destruct (leg_tie (s_flags s)) as [t|].
  - destruct (Nat.leb_spec n t); [done|]. exists t. rewrite Nat.eqb_refl. split; [lia|done].
  - destruct (Nat.ltb_spec 1 n); simpl in H.
    + rewrite andb_true_r in Ht. rewrite Ht in H. by destruct (_ <? _)%nat.
    + exists 0%nat. split; [lia|]. apply Nat.eqb_eq. lia.
Qed.

(** A flash-swap group: one leg, and repay swaps that never buy its debt. *)
Lemma flash_swap_group_Ok g :
  g ∈ bp_groups p -> fg_provider g = FUniV3Swap ->
  length (fg_liqs g) = 1%nat /\ fg_fee_bps g = 0 /\
  Forall (fun s => has_flag (s_flags s) LEG_EXACT_OUT = false /\
    (is_unwrap_venue (s_venue s) = true \/ s_token_out s <> fg_debt_asset g)) (fg_repay_swaps g).
Proof.
  intros Hg Hp. destruct (group_parts g Hg) as (_ & _ & _ & _ & _ & _ & _ & Hfs & _).
  specialize (Hfs Hp). unfold flash_swap_group in Hfs.
  destruct (Nat.eqb_spec (length (fg_liqs g)) 1); [|done].
  destruct (Z.eqb_spec (fg_fee_bps g) 0); [|done]. cbn [negb] in Hfs. apply for_each_Ok in Hfs.
  split; [done|]. split; [done|]. eapply Forall_impl; [exact Hfs|]. intros s Hs.
  unfold flash_swap_leg in Hs. cbv zeta in Hs. destruct (_ || _) eqn:E; [done|].
  apply orb_false_iff in E as [E1 E2]. split; [done|].
  destruct (is_unwrap_venue (s_venue s)); [by left|right]. by apply Z.eqb_neq.
Qed.

Lemma group_funded g :
  g ∈ bp_groups p -> Forall (fun s => 0 <= s_amount s) (fg_repay_swaps g) ->
  Forall (fun l => 0 <= l_protocol_pull l) (fg_liqs g) ->
  zsum (bounded_exact_out g) (fg_repay_swaps g) <= zsum l_protocol_pull (fg_liqs g) <= fg_flash_amount g.
Proof.
  intros Hg Hty Hpl. destruct (group_parts g Hg) as (Hne & _ & _ & Hties & _ & _ & Hsz & _ & _).
  unfold size_repay_to_pull in Hsz. apply bind_Ok in Hsz as (pull & ->%sum_u128_Ok & Hsz).
  destruct (Z.ltb_spec (fg_flash_amount g) (zsum l_protocol_pull (fg_liqs g))); [done|].
  split; [|done]. destruct (bool_decide_reflect (fg_provider g = FUniV3Swap)) as [Hp|Hp].
  - destruct (flash_swap_group_Ok g Hg Hp) as (_ & _ & Hfs). transitivity 0.
    + rewrite (zsum_zero (bounded_exact_out g)); [done|]. eapply Forall_impl; [exact Hfs|]. intros s [E _].
      unfold bounded_exact_out, exact_out_amount. rewrite E. by destruct (_ && _).
    + clear -Hpl. induction Hpl; simpl; lia.
  - apply bind_Ok in Hsz as (fee & _ & Hsz). apply bind_Ok in Hsz as (f' & _ & Hsz).
    pose proof (size_legs_at _ _ Hsz) as Hlegs.
    transitivity (zsum (fun k => zsum exact_out_amount (mine g k)) (seq 0 (length (fg_liqs g)))).
    2: { apply zsum_seq_le. intros i l Hi. by destruct (size_leg_Ok _ _ _ _ (Hlegs i l Hi)). }
    apply zsum_cover. apply Forall_forall. intros s Hs.
    rewrite Forall_forall in Hty. rewrite Forall_forall in Hties.
    specialize (Hty s Hs). specialize (Hties s Hs).
    assert (0 <= exact_out_amount s) by (unfold exact_out_amount; destruct (has_flag _ _); lia).
    unfold bounded_exact_out. destruct (_ && _) eqn:E; [lia|]. split; [done|]. split; [done|]. right.
    apply tie_ok_sel; [destruct (fg_liqs g); simpl; [done|lia]|done|done].
Qed.
End Passing.

(** C4. In a plan that passes [validate], what the protocols of a group's legs pull is covered
    by the flash loan, and the debt its exact-output swaps buy is at most that pull: all of
    them in a group of one leg; in a group of several legs all but a swap that has both
    TAKE_BALANCE and EXACT_OUT set, which no check counts ([both_flags_uncounted]). A
    flash-swap group (provider UniV3Swap) has one leg, no fee, no exact-output swap, and none
    but unwraps that pays out its debt.
    In a group of any other provider each leg's own swaps buy exactly its pull unless the leg
    overshoots (exact input, unwrap or seize in the debt), and where a premium is due each leg
    overshoots or has a swap that can carry it. *)
Theorem validated_group_funded market_hash p c g :
  validate market_hash p c = Ok tt -> g ∈ bp_groups p ->
  Forall (fun s => 0 <= s_amount s) (fg_repay_swaps g) ->
  Forall (fun l => 0 <= l_protocol_pull l) (fg_liqs g) ->
  zsum (bounded_exact_out g) (fg_repay_swaps g) <= zsum l_protocol_pull (fg_liqs g) <= fg_flash_amount g /\
  (length (fg_liqs g) = 1%nat ->
   zsum exact_out_amount (fg_repay_swaps g) <= zsum l_protocol_pull (fg_liqs g)) /\
  (fg_provider g = FUniV3Swap ->
   length (fg_liqs g) = 1%nat /\ fg_fee_bps g = 0 /\
   Forall (fun s => has_flag (s_flags s) LEG_EXACT_OUT = false /\
     (is_unwrap_venue (s_venue s) = true \/ s_token_out s <> fg_debt_asset g)) (fg_repay_swaps g)) /\
  (fg_provider g <> FUniV3Swap ->
   exists fee, fee_amount (fg_provider g) (fg_flash_amount g) (fg_fee_bps g) = Some fee /\
   forall i l, fg_liqs g !! i = Some l ->
    (overshoots g i l = true \/ zsum exact_out_amount (mine g i) = l_protocol_pull l) /\
    (fee = 0 \/ overshoots g i l = true \/
     Exists (fun s => has_flag (s_flags s) LEG_EXACT_OUT && adds_fee (s_venue s) = true)
       (mine g i))).
Proof.
  intros Hv Hg Ha Hp. pose proof (group_funded _ _ _ Hv g Hg Ha Hp) as Hf. split; [done|]. split.
  { intros H1. destruct Hf as [Hf _]. revert Hf. generalize (zsum l_protocol_pull (fg_liqs g)) as z.
    intros z. unfold zsum, bounded_exact_out. rewrite H1. cbn [Nat.ltb Nat.leb].
    intros H. etransitivity; [|exact H]. clear. induction (fg_repay_swaps g) as [|s l IH]; [done|].
    cbn [foldr]. rewrite andb_false_r. lia. }
  split; [by eapply flash_swap_group_Ok|]. intros Hpr.
  destruct (group_parts _ _ _ Hv g Hg) as (_ & _ & _ & _ & _ & _ & Hsz & _).
  unfold size_repay_to_pull in Hsz. apply bind_Ok in Hsz as (pull & _ & Hsz).
  case_match; [done|]. rewrite bool_decide_false in Hsz by done.
  apply bind_Ok in Hsz as (fee & Hfee%ok_or_Ok & Hsz). apply bind_Ok in Hsz as (f' & _ & Hsz).
  exists fee. split; [done|]. intros i l Hi.
  destruct (size_leg_Ok _ _ _ _ (size_legs_at _ _ Hsz i l Hi)) as (_ & He & Hc). split.
  - destruct (overshoots g i l); [by left|right; by apply He].
  - destruct (decide (fee = 0)); [by left|right; by apply Hc].
Qed.

(** ** Order within a blob *)

(** Nothing spends a set amount of a token after it was taken whole. *)
Definition exact_before_take (blob : list SwapLeg) : Prop :=
  forall i j a b, (i < j)%nat -> blob !! i = Some a -> blob !! j = Some b ->
  has_flag (s_flags a) LEG_TAKE_BALANCE = true -> s_token_in b = s_token_in a ->
  has_flag (s_flags b) LEG_TAKE_BALANCE = true.

Lemma exact_out_first_Ok blob : assert_exact_out_first blob = Ok tt <-> exact_before_take blob.
Proof.
  unfold assert_exact_out_first. rewrite map_res_Ok.
  enough (forall taken, (exists a, try_each (fun taken s =>
      if has_flag (s_flags s) LEG_TAKE_BALANCE then Ok (taken ++ [s_token_in s])
      else if existsb (Z.eqb (s_token_in s)) taken then Err (SpentAfterTakeBalance (s_token_in s))
      else Ok taken) taken blob = Ok a) <->
    exact_before_take blob /\ forall j b, blob !! j = Some b -> s_token_in b ∈ taken ->
      has_flag (s_flags b) LEG_TAKE_BALANCE = true) as Hx.
  { rewrite Hx. split; [by intros [? _]|]. intros H. split; [done|]. by intros ? ? ? ?%elem_of_nil. }
  induction blob as [|x blob IH]; intros taken.
  { cbn [try_each]. split; [intros _; split; by intros ?|eauto]. }
  cbn [try_each]. split.
  - intros [a H]. apply bind_Ok in H as (t1 & Ht & H).
    destruct (has_flag (s_flags x) LEG_TAKE_BALANCE) eqn:Ex.
    + injection Ht as <-. destruct (proj1 (IH _) (ex_intro _ _ H)) as [H1 H2]. split.
      * intros [|i] [|j] y z Hij Hi Hj; try lia; simpl in Hi, Hj.
        -- injection Hi as <-. intros _ Ez. apply (H2 j z Hj). rewrite Ez. set_solver.
        -- apply (H1 i j y z); [lia|done..].
      * intros [|j] z Hj Hin; simpl in Hj; [by injection Hj as <-|]. apply (H2 j z Hj). set_solver.
    + destruct (existsb _ taken) eqn:Et; [done|]. injection Ht as <-.
      destruct (proj1 (IH _) (ex_intro _ _ H)) as [H1 H2]. split.
      * intros [|i] [|j] y z Hij Hi Hj; try lia; simpl in Hi, Hj.
        -- injection Hi as <-. by rewrite Ex.
        -- apply (H1 i j y z); [lia|done..].
      * intros [|j] z Hj Hin; simpl in Hj; [|by eapply H2]. injection Hj as <-.
        apply not_true_iff_false in Et. exfalso. apply Et, existsb_exists.
        exists (s_token_in x). rewrite Z.eqb_refl. split; [by apply list_elem_of_In|done].
  - intros [H1 H2].
    assert (exact_before_take blob) as H1'
      by (intros i j y z Hij Hi Hj; apply (H1 (S i) (S j) y z); [lia|done..]).
    destruct (has_flag (s_flags x) LEG_TAKE_BALANCE) eqn:Ex.
    + apply IH. split; [done|]. intros j z Hj [Hin|Hin]%elem_of_app; [by apply (H2 (S j) z)|].
      apply list_elem_of_singleton in Hin. by apply (H1 0%nat (S j) x z); [lia|..].
    + destruct (existsb _ taken) eqn:Et.
      * apply existsb_exists in Et as (t & Hin%list_elem_of_In & <-%Z.eqb_eq).
        rewrite (H2 0%nat x eq_refl Hin) in Ex. done.
      * apply IH. split; [done|]. intros j z Hj. by apply (H2 (S j) z).
Qed.

(** Unwraps come before every other leg. *)
Definition unwraps_lead (blob : list SwapLeg) : Prop :=
  forall i j a b, (i < j)%nat -> blob !! i = Some a -> blob !! j = Some b ->
  is_unwrap_venue (s_venue b) = true -> is_unwrap_venue (s_venue a) = true.

Lemma unwraps_first_Ok blob : unwraps_first blob = Ok tt <-> unwraps_lead blob.
Proof.
  unfold unwraps_first. rewrite map_res_Ok.
  enough (forall seen, (exists a, try_each (fun seen_other s =>
      if is_unwrap_venue (s_venue s) then
        if (seen_other : bool) then Err UnwrapNotFirst else Ok seen_other
      else Ok true) seen blob = Ok a) <->
    unwraps_lead blob /\ (seen = true ->
      forall j b, blob !! j = Some b -> is_unwrap_venue (s_venue b) = false)) as Hx.
  { rewrite Hx. split; [by intros [? _]|]. done. }
  induction blob as [|x blob IH]; intros seen.
  { cbn [try_each]. split; [intros _; split; by intros ?|eauto]. }
  cbn [try_each]. destruct (is_unwrap_venue (s_venue x)) eqn:Ex; [destruct seen|].
  - split; [by intros [? ?]|]. intros [_ H]. specialize (H eq_refl 0%nat x eq_refl). congruence.
  - rewrite IH. split; intros [H _]; (split; [|done]).
    + intros [|i] [|j] y z Hij Hi Hj; try lia; simpl in Hi, Hj; [by injection Hi as <-|].
      apply (H i j y z); [lia|done..].
    + intros i j y z Hij Hi Hj. apply (H (S i) (S j) y z); [lia|done..].
  - rewrite IH. split.
    + intros [H1 H2]. specialize (H2 eq_refl). split.
      * intros [|i] [|j] y z Hij Hi Hj; try lia; simpl in Hi, Hj.
        -- intros Hz. by rewrite (H2 j z Hj) in Hz.
        -- apply (H1 i j y z); [lia|done..].
      * intros _ [|j] z Hj; simpl in Hj; [by injection Hj as <-|by eapply H2].
    + intros [H1 H2]. split.
      * intros i j y z Hij Hi Hj. apply (H1 (S i) (S j) y z); [lia|done..].
      * intros _ j z Hj. destruct (is_unwrap_venue (s_venue z)) eqn:Ez; [|done].
        assert (is_unwrap_venue (s_venue x) = true) by (by apply (H1 0%nat (S j) x z); [lia|..]).
        congruence.
Qed.

(** In every blob of a validated plan nothing spends a set amount of a token after a
    TAKE_BALANCE leg on it, and in a repay blob every unwrap precedes every other leg. *)
Theorem validated_blob_order market_hash p c :
  validate market_hash p c = Ok tt ->
  exact_before_take (bp_profit_swaps p) /\
  Forall (fun g => exact_before_take (fg_repay_swaps g) /\ unwraps_lead (fg_repay_swaps g))
    (bp_groups p).
Proof.
  intros Hv. split.
  - apply exact_out_first_Ok. by destruct (validate_parts _ _ _ Hv) as (_ & _ & ? & _).
  - apply Forall_forall. intros g Hg.
    destruct (group_parts _ _ _ Hv g Hg) as (_ & _ & _ & _ & H1 & H2 & _).
    split; [by apply exact_out_first_Ok|by apply unwraps_first_Ok].
Qed.

(** ** Every seized collateral leaves once *)

(** In a validated plan every seized collateral other than WETH leaves through exactly one
    TAKE_BALANCE leg: one of its own group's repay swaps, or, when the group has none, one
    profit swap. Seized WETH is taken by no such leg. *)
Theorem validated_collateral_leaves_once market_hash p c g l :
  validate market_hash p c = Ok tt -> g ∈ bp_groups p -> l ∈ fg_liqs g ->
  let own := takes (fg_repay_swaps g) (l_collateral_asset l) in
  let profit := takes (bp_profit_swaps p) (l_collateral_asset l) in
  if l_collateral_asset l =? vc_weth c then own = 0%nat /\ profit = 0%nat
  else own = 1%nat \/ own = 0%nat /\ profit = 1%nat.
Proof.
  intros Hv Hg Hl. cbv zeta. destruct (validate_parts _ _ _ Hv) as (_ & _ & _ & Hc & _).
  unfold close_collaterals in Hc. apply for_each_Ok in Hc. rewrite Forall_forall in Hc.
  specialize (Hc g Hg). apply for_each_Ok in Hc. rewrite Forall_forall in Hc.
  specialize (Hc l Hl). unfold close_collateral in Hc. cbv zeta in Hc.
  apply refuse_Ok, negb_false_iff, Nat.eqb_eq in Hc.
  destruct (l_collateral_asset l =? vc_weth c);
    destruct (Nat.ltb_spec 0 (takes (fg_repay_swaps g) (l_collateral_asset l))); lia.
Qed.

(** ** Sources of a debt *)

Definition source_key (g : FlashGroup) : Z * FlashProvider * Z :=
  (fg_debt_asset g, fg_provider g, fg_flash_source g).

Lemma same_key a b :
  same_debt (fg_debt_asset a) b && same_source a b = true <-> source_key a = source_key b.
Proof.
  unfold same_debt, same_source, source_key.
  rewrite !andb_true_iff, bool_decide_eq_true, !Z.eqb_eq. split; [intros (-> & -> & ->)|]; naive_solver.
Qed.

Lemma duplicate_source_Ok debt gs :
  duplicate_source debt gs = Ok tt <-> NoDup (source_key <$> List.filter (same_debt debt) gs).
Proof.
  induction gs as [|a gs IH]; simpl; [split; [constructor|done]|].
  destruct (same_debt debt a) eqn:Ea; simpl; [|done].
  unfold same_debt in Ea. apply Z.eqb_eq in Ea. subst debt. rewrite NoDup_cons, <- IH.
  destruct (existsb _ gs) eqn:E.
  - split; [done|]. intros [Hn _]. exfalso. apply Hn.
    apply existsb_exists in E as (b & Hb & Hk). apply list_elem_of_fmap. exists b.
    split; [by apply same_key|]. apply list_elem_of_In, filter_In. split; [done|].
    by apply andb_true_iff in Hk as [? _].
  - split; [|by intros [_ ?]]. intros H. split; [|done].
    intros (b & Hk & Hb%list_elem_of_In%filter_In)%list_elem_of_fmap.
    apply not_true_iff_false in E. apply E, existsb_exists. exists b.
    split; [by destruct Hb|by apply same_key].
Qed.

Lemma NoDup_sources gs :
  (forall debt, NoDup (source_key <$> List.filter (same_debt debt) gs)) <-> NoDup (source_key <$> gs).
Proof.
  induction gs as [|a gs IH]; [split; [intros _; constructor|intros _ ?; constructor]|].
  rewrite fmap_cons, NoDup_cons, <- IH. split.
  - intros H. split.
    + intros (b & Hk & Hb)%list_elem_of_fmap. specialize (H (fg_debt_asset a)).
      cbn [List.filter] in H. unfold same_debt at 1 in H. rewrite Z.eqb_refl in H.
      apply NoDup_cons in H as [H _]. apply H, list_elem_of_fmap. exists b. split; [done|].
      apply list_elem_of_In, filter_In. split; [by apply list_elem_of_In|].
      unfold source_key in Hk. unfold same_debt. apply Z.eqb_eq. congruence.
    + intros debt. specialize (H debt). cbn [List.filter] in H.
      destruct (same_debt debt a); [by apply NoDup_cons in H as [_ ?]|done].
  - intros [Hn H] debt. cbn [List.filter]. destruct (same_debt debt a); [|done].
    rewrite fmap_cons, NoDup_cons. split; [|done].
    intros (b & Hk & [Hb _]%list_elem_of_In%filter_In)%list_elem_of_fmap.
    apply Hn, list_elem_of_fmap. exists b. split; [done|by apply list_elem_of_In].
Qed.

(** The cascade check is exact: it passes when no debt is funded by more than three groups
    and no two groups borrow the same debt from the same source of the same provider. *)
Theorem cascade_ok_exact gs :
  cascade_ok gs = Ok tt <->
  (forall debt, (length (List.filter (same_debt debt) gs) <= 3)%nat) /\
  NoDup (source_key <$> gs).
Proof.
  unfold cascade_ok. rewrite for_each_Ok, Forall_forall. split.
  - intros H. assert (forall debt, (length (List.filter (same_debt debt) gs) <= 3)%nat) as Hc.
    { intros debt. destruct (List.filter (same_debt debt) gs) as [|g fs] eqn:E; [simpl; lia|].
      assert (In g (List.filter (same_debt debt) gs)) as Hin by (rewrite E; by left).
      apply filter_In in Hin as [Hin Hd%Z.eqb_eq]. apply list_elem_of_In in Hin.
      specialize (H g Hin). simpl in H. rewrite Hd, E in H.
      destruct (Nat.ltb_spec 3 (length (g :: fs))); [done|lia]. }
    split; [done|]. apply NoDup_sources. intros debt.
    destruct (Nat.ltb_spec 1 (length (List.filter (same_debt debt) gs))) as [Hl|Hl].
    + destruct (List.filter (same_debt debt) gs) as [|g fs] eqn:E; [simpl in Hl; lia|].
      assert (In g (List.filter (same_debt debt) gs)) as Hin by (rewrite E; by left).
      apply filter_In in Hin as [Hin Hd%Z.eqb_eq]. apply list_elem_of_In in Hin.
      specialize (H g Hin). simpl in H. rewrite Hd, E in H.
      rewrite (proj2 (Nat.ltb_ge _ _)) in H by (rewrite <- E; apply Hc).
      rewrite (proj2 (Nat.ltb_lt _ _)) in H by done. apply duplicate_source_Ok in H. by rewrite E in H.
    + destruct (List.filter (same_debt debt) gs) as [|g [|]]; simpl in *; [constructor| |lia].
      apply NoDup_singleton.
  - intros [Hc Hn] g Hg. rewrite (proj2 (Nat.ltb_ge _ _)) by apply Hc.
    destruct (1 <? _)%nat; [|done]. apply duplicate_source_Ok. by apply NoDup_sources.
Qed.

(** ** A validated plan encodes *)

(** The counts and lengths the wire has room for. *)
Definition wire_sized (p : BatchPlan) : Prop :=
  (length (bp_groups p) <= 255)%nat /\ (length (bp_profit_swaps p) <= 255)%nat /\
  Forall (fun s => Z.of_nat (length (s_data s)) <= 65535) (all_swaps p) /\
  Forall (fun g => length (fg_liqs g) <= 255 /\ length (fg_repay_swaps g) <= 255)%nat
    (bp_groups p) /\
  Z.of_nat (plan_size p) <= umax 64.

Lemma check_tail_ok market_hash c g l :
  tail_typed (l_tail l) -> check_tail market_hash c g l = Ok tt -> tail_ok (l_adapter l) (l_tail l).
Proof. unfold check_tail. by destruct (l_adapter l), (l_tail l). Qed.

Lemma count_field n : (n <= 255)%nat -> field 1 (Z.of_nat n).
Proof. unfold field. simpl. lia. Qed.

Lemma swap_sized_ok s :
  swap_typed s -> Z.of_nat (length (s_data s)) <= 65535 -> swap_ok (wire_swap s).
Proof.
  intros Ht Hl. unfold swap_typed in Ht. destruct_and! Ht.
  unfold swap_ok, wire_swap. cbn [ws_venue ws_token_in ws_token_out ws_flags ws_amount ws_data].
  conjs. unfold field. change (256 ^ Z.of_nat 2) with 65536. lia.
Qed.

Lemma sized_plan_ok market_hash p c :
  plan_typed p -> wire_sized p -> validate market_hash p c = Ok tt -> plan_ok p.
Proof.
  intros (Hf & Hb & Hg & Hm & Htg & Htp) (Hng & Hnp & Hd & Hgl & _) Hv.
  destruct (validate_parts _ _ _ Hv) as (_ & _ & _ & _ & _ & Hne & _).
  apply Forall_app in Hd as [Hdg Hdp]. rewrite Forall_flat_map in Hdg. unfold plan_ok. conjs.
  - unfold header_ok. conjs; by apply count_field.
  - apply Forall_forall. intros g Hin. rewrite Forall_forall in Htg, Hdg, Hgl.
    destruct (Htg g Hin) as (H1 & H2 & H3 & Hl & Hr). destruct (Hgl g Hin) as [Hll Hlr].
    unfold group_ok. conjs.
    + unfold head_ok. conjs; by apply count_field.
    + destruct (group_parts _ _ _ Hv g Hin) as (_ & Hcl & _). unfold liqs_ok.
      apply Forall_forall. intros l Hll'. rewrite Forall_forall in Hl, Hcl.
      specialize (Hl l Hll'). specialize (Hcl l Hll'). unfold liq_typed in Hl. destruct_and! Hl.
      unfold liq_ok, wire_liq. cbn [wl_market wl_borrower wl_collateral_asset wl_repay_amount
        wl_adapter wl_tail]. conjs. unfold check_liq in Hcl.
      apply bind_Ok in Hcl as (? & _ & Hcl). apply bind_Ok in Hcl as (? & _ & Hcl).
      apply bind_Ok in Hcl as (? & _ & Hcl). case_match; [done|]. by eapply check_tail_ok.
    + unfold swaps_ok. apply Forall_forall. intros s Hs. specialize (Hdg g Hin).
      rewrite Forall_forall in Hr, Hdg. by apply swap_sized_ok; auto.
  - unfold swaps_ok. apply Forall_forall. intros s Hs. rewrite Forall_forall in Htp, Hdp.
    by apply swap_sized_ok; auto.
Qed.

(** [EncodedPlan::encode] succeeds exactly on the plans that pass [validate], carry no
    governance flag and fit the wire's counts and lengths; what it returns decodes back to the
    plan. A plan that passes [validate] is never refused for the shape of a leg's tail. *)
Theorem encode_exact market_hash p c :
  plan_typed p -> wire_sized p ->
  match encode market_hash p c with
  | Ok b => validate market_hash p c = Ok tt /\ no_gov p /\ decode_batch b = Ok (on_wire p)
  | Err e => validate market_hash p c = Err e \/ ~ no_gov p /\ e = GovFlagWithoutPayload
  end.
Proof.
  intros Hty Hsz. unfold encode. destruct (validate market_hash p c) as [[]|e] eqn:Hv; [|by left].
  pose proof (sized_plan_ok _ _ _ Hty Hsz Hv) as Hok.
  destruct (has_flag (bp_flags p) (Z.lor FLAG_GOV_EXEC FLAG_GOV_SPELL)) eqn:Hg.
  - unfold encode_unchecked. rewrite Hg.
    destruct (Nat.eqb_spec (length (bp_groups p)) 0) as [E|_].
    { apply nil_length_inv in E. by destruct Hok as [(_ & _ & _ & _ & _ & _ & ?) _]. }
    right. unfold no_gov. by rewrite Hg.
  - rewrite (proj2 (encode_unchecked_Ok p _ Hty)) by (conjs; by apply Hsz).
    split; [done|]. split; [done|].
    assert (plan_bytes p = plan_bytes (on_wire p) ++ gov_tail None None) as E
      by by rewrite plan_bytes_on_wire, app_nil_r.
    eapply parse_layout; [by apply plan_bytes_ok|rewrite plan_bytes_length by done; apply Hsz
      |by apply plan_ok_on_wire|apply on_wire_stripped|by apply no_gov_ok|exact E].
Qed.

(** ** Share rounding *)

(** [morpho_actual_pull] never exceeds what was asked, and is short of it by less than the
    price of one share: what the protocol takes for the shares the request buys. *)
Theorem morpho_pull_bounds asked total_assets total_shares r :
  0 <= asked -> 0 <= total_assets -> 0 <= total_shares ->
  morpho_actual_pull asked total_assets total_shares = Some r ->
  0 <= r <= asked /\ (asked - r) * (total_shares + 1000000) < total_assets + 1.
Proof.
  intros Ha Ht Hs H. unfold morpho_actual_pull in H.
  destruct (checked_add 256 total_shares 1000000) as [sp|] eqn:E1; [|done].
  destruct (checked_add 256 total_assets 1) as [ap|] eqn:E2; [|done].
  apply checked_add_Some in E1 as [-> _]. apply checked_add_Some in E2 as [-> _].
  set (S := total_shares + 1000000) in *. set (A := total_assets + 1) in *.
  destruct (checked_mul 256 asked S) as [m|] eqn:E3; [|done].
  apply checked_mul_Some in E3 as [-> _]. unfold checked_div in H.
  rewrite (proj2 (Z.eqb_neq A 0)), (proj2 (Z.eqb_neq S 0)) in H by lia.
  set (q := asked * S / A) in *.
  destruct (checked_mul 256 q A) as [n|] eqn:E4; [|done]. apply checked_mul_Some in E4 as [-> _].
  destruct (checked_add 256 (q * A) S) as [n|] eqn:E5; [|done].
  apply checked_add_Some in E5 as [-> _].
  destruct (checked_sub (q * A + S) 1) as [n|] eqn:E6; [|done].
  apply checked_sub_Some in E6 as [-> _]. injection H as <-.
  pose proof (div_rem_spec (asked * S) A ltac:(lia)) as [Hq Hm]. fold q in Hq.
  change ((q * A + S - 1) / S) with (div_up (q * A) S).
  pose proof (div_up_spec (q * A) S ltac:(lia)) as [Hu1 Hu2].
  assert (0 <= q) by (apply Z.div_pos; nia).
  pose proof (div_up_nonneg (q * A) S ltac:(lia) ltac:(nia)). nia.
Qed.

(** ** Pins *)

Lemma find_app {A} (f : A -> bool) l1 l2 :
  find f (l1 ++ l2) = match find f l1 with Some x => Some x | None => find f l2 end.
Proof. induction l1 as [|x l IH]; simpl; [done|]. by destruct (f x). Qed.

(** Pins are first-come: adding a pin never changes what an existing key is pinned to, and a
    key is pinned after an add, to the pin added when it was new. *)
Theorem v4_pins_first_come c pin spoke id :
  let (c', added) := add_v4 c pin in
  v4_pin c' spoke id =
    match v4_pin c spoke id with
    | Some u => Some u
    | None => if (v4_spoke pin =? spoke) && (v4_reserve_id pin =? id)
              then Some (v4_pin_underlying pin) else None
    end /\
  added = negb (is_some (v4_pin c (v4_spoke pin) (v4_reserve_id pin))).
Proof.
  unfold add_v4. destruct (v4_pin c (v4_spoke pin) (v4_reserve_id pin)) as [u|] eqn:E; simpl.
  - split; [|done]. destruct (v4_pin c spoke id) eqn:E2; [done|].
    destruct (Z.eqb_spec (v4_spoke pin) spoke) as [<-|]; [|done].
    destruct (Z.eqb_spec (v4_reserve_id pin) id) as [<-|]; [|done]. congruence.
  - split; [|done]. unfold v4_pin. simpl. rewrite find_app.
    by destruct (find _ (vc_v4_underlying c)); simpl; [|destruct (_ && _)].
Qed.

(** ** Surplus debt *)

Lemma sat_pull_eq g pull :
  Forall (fun l => 0 <= l_protocol_pull l) (fg_liqs g) -> pull_of g = Ok pull -> sat_pull g = pull.
Proof.
  unfold pull_of, sum_u128, sat_pull. intros Hp.
  generalize 0 as a. induction Hp as [|l ls Hl _ IH]; intros a H; simpl in *; [by simplify_eq|].
  apply bind_Ok in H as (a' & Ha & H). apply ok_or_Ok, checked_add_Some in Ha as [-> Hle].
  unfold saturating_add at 2. rewrite Z.min_l by done. by apply IH.
Qed.

(** After the surplus helper ran, no group without an exact-input repay is refused for
    unrouted surplus debt. *)
Theorem surplus_helper_suffices p weth pool g pull :
  g ∈ bp_groups p -> Forall (fun l => 0 <= l_protocol_pull l) (fg_liqs g) ->
  pull_of g = Ok pull -> has_exact_in_repay g = false ->
  surplus_debt_routed (ensure_surplus_borrow_profit_legs p weth pool) g weth = Ok tt.
Proof.
  intros Hg Hp Hpull He. unfold surplus_debt_routed. rewrite Hpull, He, andb_true_r.
  destruct (_ || _) eqn:E; [done|].
  assert (existsb (routes_surplus (fg_debt_asset g) weth)
    (bp_profit_swaps (ensure_surplus_borrow_profit_legs p weth pool)) = true) as ->; [|done].
  apply (surplus_routed p weth pool g Hg). unfold has_surplus. rewrite (sat_pull_eq _ _ Hp Hpull).
  by rewrite E.
Qed.

(** ** A leg with both flags *)

(** A repay leg that sets both TAKE_BALANCE and EXACT_OUT is accepted, untied, in a group of
    several legs, and its exact output counts towards no leg's pull. *)
Definition both_flags_plan : BatchPlan :=
  mkBatch 1 100 1000 50
    [mkFlash FAave 11 2 300 5 (fg_liqs demo_group)
       (fg_repay_swaps demo_group ++
        [demo_swap 0 3 2 (Z.lor LEG_TAKE_BALANCE LEG_EXACT_OUT) (umax 128) (be 20 31)])]
    [demo_swap 0 4 1 1 0 (be 20 34)].
Definition demo_ctx : ValidateCtx := mkCtx 1 [] [] [] [].

(** [validate] accepts a plan whose exact outputs buy more debt than its legs pull and its
    flash loan covers: a repay leg with both TAKE_BALANCE and EXACT_OUT set is neither refused
    nor counted in any leg's repay. *)
Theorem both_flags_uncounted :
  exists p g, (forall market_hash, validate market_hash p demo_ctx = Ok tt) /\ bp_groups p = [g] /\
    zsum exact_out_amount (fg_repay_swaps g) > zsum l_protocol_pull (fg_liqs g) /\
    zsum exact_out_amount (fg_repay_swaps g) > fg_flash_amount g.
Proof.
  exists both_flags_plan. eexists. split; [intros; vm_compute; reflexivity|].
  split; [reflexivity|]. vm_compute. split; reflexivity.
Qed.

(** * Witnesses *)

Definition demo_hash (a b c d e : Z) : Z := a + b + c + d + e.

Lemma demo_valid : validate demo_hash demo_plan demo_ctx = Ok tt.
Proof. vm_compute. reflexivity. Defined.

Lemma demo_group_in : demo_group ∈ bp_groups demo_plan.
Proof. apply list_elem_of_here. Defined.

Lemma validated_group_funded_witness :
  zsum (bounded_exact_out demo_group) (fg_repay_swaps demo_group) <= zsum l_protocol_pull (fg_liqs demo_group)
    <= fg_flash_amount demo_group.
Proof.
  apply (validated_group_funded demo_hash demo_plan demo_ctx demo_group);
    [exact demo_valid|exact demo_group_in|..];
    (apply (bool_decide_unpack _); vm_compute; exact I).
Defined.

Lemma validated_blob_order_witness : exact_before_take (bp_profit_swaps demo_plan).
Proof. apply (validated_blob_order demo_hash demo_plan demo_ctx). exact demo_valid. Defined.

Lemma validated_collateral_leaves_once_witness :
  takes (fg_repay_swaps demo_group) 3 = 1%nat \/
  takes (fg_repay_swaps demo_group) 3 = 0%nat /\ takes (bp_profit_swaps demo_plan) 3 = 1%nat.
Proof.
  apply (validated_collateral_leaves_once demo_hash demo_plan demo_ctx demo_group
    (mkLiq XAaveV3 12 21 3 100 TNone 100));
    [exact demo_valid|exact demo_group_in|apply list_elem_of_here].
Defined.

Lemma encode_exact_witness :
  match encode demo_hash demo_plan demo_ctx with
  | Ok b => validate demo_hash demo_plan demo_ctx = Ok tt /\ no_gov demo_plan /\
            decode_batch b = Ok (on_wire demo_plan)
  | Err e => validate demo_hash demo_plan demo_ctx = Err e \/
             ~ no_gov demo_plan /\ e = GovFlagWithoutPayload
  end.
Proof.
  apply (encode_exact demo_hash demo_plan demo_ctx); [exact demo_typed|].
  unfold wire_sized. split_and!; [vm_compute; lia..| | |vm_compute; discriminate];
    (apply (bool_decide_unpack _); vm_compute; exact I).
Defined.

Lemma morpho_pull_bounds_witness :
  0 <= 999 <= 1000 /\ (1000 - 999) * (1000000 + 1000000) < 2999999 + 1.
Proof.
  apply (morpho_pull_bounds 1000 2999999 1000000 999); [lia..|vm_compute; reflexivity].
Defined.

Lemma surplus_helper_suffices_witness :
  surplus_debt_routed (ensure_surplus_borrow_profit_legs demo_plan 1 9) demo_group 1 = Ok tt.
Proof.
  apply (surplus_helper_suffices demo_plan 1 9 demo_group 300);
    [exact demo_group_in|apply (bool_decide_unpack _); vm_compute; exact I
    |vm_compute; reflexivity|vm_compute; reflexivity].
Defined.
