(* ===== verification/Adapter.v ===== *)
(** What the protocol adapters share: the [?] conversions of their error type, the prices they
    read and the position at another time ([crates/liq-adapters]), with the facts about
    [mul_div] their proofs use. *)

From S2P Require Import Prelude Fixed Mask Types Columns Undo Store Halt Flash Bonus Candidate Engine Bytes Wire.
Local Open Scope Z_scope.

Abbreviation PRes A := (Result ProtocolError A).

(** [?] on a [FixedError]. *)
Definition fixed {A} (r : Result FixedError A) : PRes A := map_err PFixed r.
Definition overflow {A} (o : option A) : PRes A := ok_or o (PFixed Overflow).
Definition div_zero {A} (o : option A) : PRes A := ok_or o (PFixed DivisionByZero).
Definition underflow {A} (o : option A) : PRes A := ok_or o (PFixed Underflow).

(** [U256::checked_pow]. *)
Definition checked_pow (b e : Z) : option Z := if b ^ e <=? umax 256 then Some (b ^ e) else None.

(** [at.timestamp = ts]. *)
Definition at_time (pos : PositionRef) (ts : Z) : PositionRef :=
  mkPosRef (pr_id pos) (pr_key pos) (pr_config pos) (pr_supply pos) (pr_debt pos) (pr_extra pos)
    (pr_slot_extra pos) (pr_markets pos) ts.

(** [px.0.get(asset).filter(|p| p.asset == asset)]. *)
Definition price_entry (px : PriceVector) (asset : AssetId) : option Price :=
  match px !! Z.to_nat asset with
  | Some e => if p_asset e =? asset then Some e else None
  | None => None
  end.

(** The prices with [asset] at [raw]. *)
Definition set_price (px : PriceVector) (asset : AssetId) (raw : Z) : PRes PriceVector :=
  match price_entry px asset with
  | None => Err (MissingPrice asset)
  | Some e => Ok (<[Z.to_nat asset := mkPrice (p_asset e) raw (p_source e) (p_block e) (p_ts e)]> px)
  end.

(** * The executor's leg *)

Record LiquidationLeg := mkLeg {
  ll_adapter : ExecutorAdapter; ll_market : Address; ll_borrower : Address;
  ll_collateral_asset : Address; ll_repay_amount : Z }.
Record LiquidationPlan := mkLiqPlan {
  lq_provider : FlashProvider; lq_flash_source : Address; lq_debt_asset : Address;
  lq_flash_amount : Z; lq_leg : LiquidationLeg }.

Definition wire (v : Z) : PRes Z := ok_or (try_from 128 v) AmountTooLarge.

(** * Rounded quotients *)

Lemma round_div_mono r n m d : 0 < d -> n <= m -> round_div r n d <= round_div r m d.
Proof.
  intros. destruct r; simpl; [by apply Z.div_le_mono|by apply div_up_mono|].
  apply Z.div_le_mono; lia.
Qed.

(** Whatever [mul_div] returns fits. *)
Lemma mul_div_u256 a b d r v : mul_div a b d r = Ok v -> u256 v.
Proof.
  unfold mul_div. destruct (d =? 0); [done|]. cbv zeta. intros H.
  apply bind_Ok in H as (q & _ & H). by apply ok_or_Ok, try_from_Some in H as [-> ?].
Qed.

Lemma fixed_Ok {A} (r : Result FixedError A) a : fixed r = Ok a <-> r = Ok a.
Proof. unfold fixed, map_err. destruct r; naive_solver. Qed.

(** What it returns is the rounded quotient, whatever its arguments. *)
Lemma mul_div_exact a b d r v :
  0 <= d -> mul_div a b d r = Ok v -> 0 < d /\ v = round_div r (a * b) d /\ u256 v.
Proof.
  intros Hd H. pose proof (mul_div_u256 _ _ _ _ _ H) as Hv. unfold mul_div in H.
  destruct (Z.eqb_spec d 0); [done|]. assert (0 < d) by lia. split; [done|]. split; [|done].
  cbv zeta in H. apply bind_Ok in H as (q & Hq & H). apply ok_or_Ok, try_from_Some in H as [-> _].
  destruct r.
  - by injection Hq as <-.
  - cbn [round_div]. destruct (Z.eqb_spec (a * b mod d) 0).
    + injection Hq as <-. by rewrite div_up_exact.
    + apply ok_or_Ok, checked_add_Some in Hq as [-> _]. by rewrite div_up_inexact.
  - rewrite round_div_half_cases by done. apply bind_Ok in Hq as (tw & Ht & Hq).
    apply ok_or_Ok, checked_add_Some in Ht as [-> _]. rewrite <- Z.add_diag.
    destruct (_ <=? _); [by apply ok_or_Ok, checked_add_Some in Hq as [-> _]|by injection Hq].
Qed.

(** * Prices *)

Definition prices_ok (px : PriceVector) : Prop := Forall (fun e => u256 (p_price e)) px.

Lemma price_entry_u256 px asset e : prices_ok px -> price_entry px asset = Some e -> u256 (p_price e).
Proof.
  unfold price_entry. intros Hpx He. destruct (px !! Z.to_nat asset) eqn:El; [|done].
  destruct (_ =? _); [injection He as <-|done]. by apply (Forall_lookup_1 _ _ _ _ Hpx El).
Qed.

Lemma le_div_iff x n d : 0 < d -> (x <= n / d <-> x * d <= n).
Proof.
  intros Hd. pose proof (div_rem_spec n d Hd) as [Hq Hm]. split; intros Hx; [nia|].
  apply Z.div_le_lower_bound; [done|]. by rewrite Z.mul_comm.
Qed.
Lemma div_up_le_iff n d x : 0 < d -> (div_up n d <= x <-> n <= x * d).
Proof. intros Hd. pose proof (div_up_spec n d Hd) as [Hl Hu]. split; intros Hx; nia. Qed.

Lemma price_entry_set px asset raw px' :
  set_price px asset raw = Ok px' ->
  exists e, price_entry px asset = Some e /\
    price_entry px' asset = Some (mkPrice asset raw (p_source e) (p_block e) (p_ts e)) /\
    forall other, other <> asset -> price_entry px' other = price_entry px other.
Proof.
  unfold set_price. destruct (price_entry px asset) as [e|] eqn:Ee; [|done]. intros [= <-].
  exists e. split; [done|]. unfold price_entry in *.
  destruct (px !! Z.to_nat asset) as [c|] eqn:Ec; [|done].
  destruct (Z.eqb_spec (p_asset c) asset) as [Ha|]; [|done]. injection Ee as <-. split.
  - rewrite list_lookup_insert_eq by (by eapply lookup_lt_Some). cbn [p_asset]. by rewrite Ha, Z.eqb_refl.
  - intros other Hne. destruct (decide (Z.to_nat other = Z.to_nat asset)) as [E|E].
    + rewrite E, list_lookup_insert_eq, Ec by (by eapply lookup_lt_Some). cbn [p_asset]. rewrite Ha.
      by rewrite (proj2 (Z.eqb_neq asset other)) by done.
    + by rewrite list_lookup_insert_ne by done.
Qed.

(** * Configured keys *)

Definition contains {A} `{EqDecision A} (l : list A) (x : A) : bool := bool_decide (x ∈ l).

(** A key that no two elements share is found where it is. *)
Lemma find_key {A} (f : A -> Z) (l : list A) x :
  NoDup (f <$> l) -> x ∈ l -> List.find (fun a => f a =? f x) l = Some x.
Proof.
  induction l as [|a l IH]; cbn [fmap list_fmap]; intros Hn Hx; [by apply not_elem_of_nil in Hx|].
  apply NoDup_cons in Hn as [Ha Hn]. cbn [List.find].
  apply elem_of_cons in Hx as [->|Hx]; [by rewrite Z.eqb_refl|].
  destruct (Z.eqb_spec (f a) (f x)) as [E|]; [|by apply IH].
  exfalso. apply Ha. rewrite E. apply list_elem_of_fmap. eauto.
Qed.

Lemma find_key_inv {A} (f : A -> Z) (l : list A) k x :
  List.find (fun a => f a =? k) l = Some x -> x ∈ l /\ f x = k.
Proof. intros [H1 H2]%find_some. apply Z.eqb_eq in H2. split; [by apply list_elem_of_In|done]. Qed.
