(* ===== verification/Writer.v ===== *)
(** Programs of [StateWriter] calls, sequenced the way an adapter's [?] sequences them, and
    what a run that returns did at each step.

    The calls are [Ingest.Prog]'s; this file adds the bind, the notation and the inversion
    lemmas the adapters' proofs take apart a run with. *)

From S2P Require Import Prelude Mask Types Interner Columns Undo Store StoreInv StoreOps StoreUnwind StoreThms StoreReads.
From S2P Require Import Dirty Halt Gate Ingest Fixed Candidate Engine Adapter.
Local Open Scope Z_scope.

(** * Sequencing *)

Fixpoint pbind {A B} (p : Prog A) (f : A -> Prog B) : Prog B :=
  match p with
  | PRet a => f a
  | PPanic => PPanic
  | PIntern key k => PIntern key (fun r => pbind (k r) f)
  | PSupply pos slot k => PSupply pos slot (fun r => pbind (k r) f)
  | PDebt pos slot k => PDebt pos slot (fun r => pbind (k r) f)
  | PSetSupply pos slot v k => PSetSupply pos slot v (fun r => pbind (k r) f)
  | PSetDebt pos slot v k => PSetDebt pos slot v (fun r => pbind (k r) f)
  | PExtra pos k => PExtra pos (fun r => pbind (k r) f)
  | PSetExtra pos x k => PSetExtra pos x (fun r => pbind (k r) f)
  | PSlotExtra pos slot k => PSlotExtra pos slot (fun r => pbind (k r) f)
  | PSetSlotExtra pos slot x k => PSetSlotExtra pos slot x (fun r => pbind (k r) f)
  | PPositionsLen k => PPositionsLen (fun r => pbind (k r) f)
  | PPositionKey pos k => PPositionKey pos (fun r => pbind (k r) f)
  | PMarket at_ k => PMarket at_ (fun r => pbind (k r) f)
  | PMarkets id k => PMarkets id (fun r => pbind (k r) f)
  | PSetMarket at_ row k => PSetMarket at_ row (fun r => pbind (k r) f)
  | PPushMarket id row k => PPushMarket id row (fun r => pbind (k r) f)
  end.

Abbreviation PProg A := (Prog (PRes A)).

(** [?] on the result of a program. *)
Notation "'do?' x ':=' p 'in' k" :=
  (pbind p (fun r => match r with Ok x => k | Err err => PRet (Err err) end))
  (at level 10, x pattern, p at level 100, k at level 200).
(** [?] on a value. *)
Definition lift {A} (r : PRes A) : PProg A := PRet r.

(** * Runs *)

(** The program returned [a] and left [s']. *)
Definition runs {A} (p : PProg A) (s s' : StateStore) (a : A) : Prop := run_prog p s = (s', Some (Ok a)).

Lemma run_bind {A B} (p : Prog A) (f : A -> Prog B) s :
  run_prog (pbind p f) s =
    match run_prog p s with (s', Some a) => run_prog (f a) s' | (s', None) => (s', None) end.
Proof.
  revert s. induction p; intros s; cbn [pbind run_prog]; try done; try (by rewrite H);
    match goal with |- match ?c with _ => _ end = _ => destruct c end; by rewrite H.
Qed.

Lemma runs_bind {A B} (p : PProg A) (k : A -> PProg B) s s' b :
  runs (do? x := p in k x) s s' b <-> exists s1 x, runs p s s1 x /\ runs (k x) s1 s' b.
Proof.
  unfold runs. rewrite run_bind. destruct (run_prog p s) as [s1 [[x|e]|]]; cbn [run_prog]; naive_solver.
Qed.
Lemma runs_ret {A} (r : PRes A) s s' a : runs (PRet r) s s' a <-> s' = s /\ r = Ok a.
Proof. unfold runs. cbn [run_prog]. split; [intros [= -> ->]|intros [-> ->]]; done. Qed.
Lemma runs_lift {A} (r : PRes A) s s' a : runs (lift r) s s' a <-> s' = s /\ r = Ok a.
Proof. apply runs_ret. Qed.
Lemma runs_intern key s s' id : runs (PIntern key PRet) s s' id <-> Store.intern key s = (s', Ok id).
Proof. unfold runs. cbn [run_prog]. destruct (Store.intern key s). naive_solver. Qed.
Lemma runs_supply pos slot s s' v : runs (PSupply pos slot PRet) s s' v <-> s' = s /\ read_column s Supply pos slot = Ok v.
Proof. unfold runs. cbn [run_prog]. split; [intros [= -> H]|intros [-> H]]; [done|]. unfold supply. by rewrite H. Qed.
Lemma runs_debt pos slot s s' v : runs (PDebt pos slot PRet) s s' v <-> s' = s /\ read_column s Debt pos slot = Ok v.
Proof. unfold runs. cbn [run_prog]. split; [intros [= -> H]|intros [-> H]]; [done|]. unfold debt. by rewrite H. Qed.
Lemma runs_set_supply pos slot v s s' : runs (PSetSupply pos slot v PRet) s s' tt <-> set_column Supply pos slot v s = (s', Ok tt).
Proof. unfold runs. cbn [run_prog]. unfold set_supply. destruct (set_column _ _ _ _ _) as [? [[]|]]; naive_solver. Qed.
Lemma runs_set_debt pos slot v s s' : runs (PSetDebt pos slot v PRet) s s' tt <-> set_column Debt pos slot v s = (s', Ok tt).
Proof. unfold runs. cbn [run_prog]. unfold set_debt. destruct (set_column _ _ _ _ _) as [? [[]|]]; naive_solver. Qed.
Lemma runs_market at_ s s' row : runs (PMarket at_ PRet) s s' row <-> s' = s /\ market s at_ = Ok row.
Proof. unfold runs. cbn [run_prog]. split; [intros [= -> H]|intros [-> H]]; [done|]. by rewrite H. Qed.
Lemma runs_set_market at_ row s s' : runs (PSetMarket at_ row PRet) s s' tt <-> set_market at_ row s = (s', Ok tt).
Proof. unfold runs. cbn [run_prog]. destruct (set_market _ _ _) as [? [[]|]]; naive_solver. Qed.
Lemma runs_push id row s s' a : runs (PPushMarket id row PRet) s s' a <-> push_market id row s = (s', Ok a).
Proof. unfold runs. cbn [run_prog]. destruct (push_market _ _ _). naive_solver. Qed.

(** One step of a run, taken apart. *)
Ltac run_step H x Hx :=
  let s1 := fresh "s" in apply runs_bind in H as (s1 & x & Hx & H).

(** Whatever an adapter calls, the store stays well formed. *)
Lemma run_prog_wf {A} (p : Prog A) s : store_wf s -> store_wf (fst (run_prog p s)).
Proof.
  revert s. induction p as [a| |key k IH|pos slot k IH|pos slot k IH|pos slot v k IH|pos slot v k IH|pos k IH|pos x k IH
    |pos slot k IH|pos slot x k IH|k IH|pos k IH|at_ k IH|id k IH|at_ row k IH|id row k IH]; intros s Hs; cbn [run_prog];
    try done; try (by apply IH).
  - destruct (Store.intern key s) as [s' r] eqn:E. apply IH. destruct r as [id|e].
    + by destruct (intern_reads _ _ _ _ Hs E) as [? _].
    + by rewrite (intern_Err _ _ _ _ E).
  - unfold set_supply. destruct (set_column _ _ _ _ s) as [s' r] eqn:E. apply IH. destruct r as [[]|e].
    + by eapply set_column_mutates. + by rewrite (set_column_Err _ _ _ _ _ _ _ E).
  - unfold set_debt. destruct (set_column _ _ _ _ s) as [s' r] eqn:E. apply IH. destruct r as [[]|e].
    + by eapply set_column_mutates. + by rewrite (set_column_Err _ _ _ _ _ _ _ E).
  - destruct (set_extra pos x s) as [s' r] eqn:E. apply IH. destruct r as [[]|e].
    + by eapply set_extra_mutates. + by rewrite (set_extra_Err _ _ _ _ _ E).
  - destruct (set_slot_extra pos slot x s) as [s' r] eqn:E. apply IH. destruct r as [[]|e].
    + by eapply set_slot_extra_mutates. + by rewrite (set_slot_extra_Err _ _ _ _ _ _ E).
  - destruct (set_market at_ row s) as [s' r] eqn:E. apply IH. destruct r as [[]|e].
    + by eapply set_market_mutates. + by rewrite (set_market_Err _ _ _ _ _ E).
  - destruct (push_market id row s) as [s' r] eqn:E. apply IH.
    pose proof (push_market_spec _ _ _ _ _ Hs E) as Hp. destruct r; apply Hp.
Qed.
