(* ===== verification/AaveMath.v ===== *)
(** Aave V3 arithmetic ([crates/liq-adapters/aave-v3/src/math.rs]) and the instance parameters
    it depends on ([config.rs]): ray, wad and percentage operations with the direction each
    call site rounds in, scaled balances, and interest. *)

From S2P Require Import Prelude Fixed Types Adapter.
Local Open Scope Z_scope.

(** * Instance parameters *)

Inductive BalanceModel := TokenMath35 | WadRayHalfUp.
Inductive CloseFactorScope := PositionBase | ReserveDebt.
Inductive AaveVersion := V3 | V2.

#[export] Instance AaveVersion_eq_dec : EqDecision AaveVersion.
Proof. solve_decision. Defined.
#[export] Instance CloseFactorScope_eq_dec : EqDecision CloseFactorScope.
Proof. solve_decision. Defined.

Record LiquidationParams := mkParams {
  lp_close_factor_bps : Z; lp_close_factor_hf_wad : Z; lp_min_base_max_close : Z;
  lp_oracle_decimals : Z; lp_balance_model : BalanceModel;
  lp_close_factor_scope : CloseFactorScope; lp_version : AaveVersion }.

(** [Config::oracle_scale]: [10^(27 - d)] as a [u128]. *)
Definition oracle_scale (lp : LiquidationParams) : Z :=
  Z.min (10 ^ Z.max 0 (27 - lp_oracle_decimals lp)) (umax 128).

(** * Constants *)

Definition SECONDS_PER_YEAR : Z := 31536000.
Definition BPS : Z := 10000.
Definition BPS_RAY : Z := 100000000000000000000000.
Definition HF_THRESHOLD_WAD : Z := WAD.

(** * Rounded products and quotients *)

Definition ray_mul (a b : Z) : PRes Z := fixed (mul_div a b RAY HalfUp).
Definition ray_mul_floor (a b : Z) : PRes Z := fixed (mul_div a b RAY Down).
Definition ray_mul_ceil (a b : Z) : PRes Z := fixed (mul_div a b RAY Up).
Definition ray_div (a b : Z) : PRes Z := fixed (mul_div a RAY b HalfUp).
Definition ray_div_floor (a b : Z) : PRes Z := fixed (mul_div a RAY b Down).
Definition ray_div_ceil (a b : Z) : PRes Z := fixed (mul_div a RAY b Up).
Definition wad_div (a b : Z) : PRes Z := fixed (mul_div a WAD b HalfUp).
Definition percent_mul (v p : Z) : PRes Z := fixed (mul_div v p BPS HalfUp).
Definition percent_div (v p : Z) : PRes Z := fixed (mul_div v BPS p HalfUp).
Definition percent_mul_floor (v p : Z) : PRes Z := fixed (mul_div v p BPS Down).
Definition percent_mul_ceil (v p : Z) : PRes Z := fixed (mul_div v p BPS Up).
Definition percent_div_floor (v p : Z) : PRes Z := fixed (mul_div v BPS p Down).
Definition percent_div_ceil (v p : Z) : PRes Z := fixed (mul_div v BPS p Up).
Definition mul_div_ceil (a b c : Z) : PRes Z := fixed (mul_div a b c Up).

(** * Scaled balances *)

Definition a_token_balance (scaled index : Z) : PRes Z := ray_mul_floor scaled index.
Definition v_token_balance (scaled index : Z) : PRes Z := ray_mul_ceil scaled index.
Definition a_token_mint_scaled (amount index : Z) : PRes Z := ray_div_floor amount index.
Definition a_token_burn_scaled (amount index : Z) : PRes Z := ray_div_ceil amount index.
Definition v_token_mint_scaled (amount index : Z) : PRes Z := ray_div_ceil amount index.
Definition v_token_burn_scaled (amount index : Z) : PRes Z := ray_div_floor amount index.

Definition supply_assets (m : BalanceModel) (scaled index : Z) : PRes Z :=
  match m with TokenMath35 => a_token_balance scaled index | WadRayHalfUp => ray_mul scaled index end.
Definition debt_assets (m : BalanceModel) (scaled index : Z) : PRes Z :=
  match m with TokenMath35 => v_token_balance scaled index | WadRayHalfUp => ray_mul scaled index end.
Definition supply_mint_scaled (m : BalanceModel) (amount index : Z) : PRes Z :=
  match m with
  | TokenMath35 => a_token_mint_scaled amount index | WadRayHalfUp => ray_div amount index end.
Definition supply_burn_scaled (m : BalanceModel) (amount index : Z) : PRes Z :=
  match m with
  | TokenMath35 => a_token_burn_scaled amount index | WadRayHalfUp => ray_div amount index end.
Definition debt_mint_scaled (m : BalanceModel) (amount index : Z) : PRes Z :=
  match m with
  | TokenMath35 => v_token_mint_scaled amount index | WadRayHalfUp => ray_div amount index end.
Definition debt_burn_scaled (m : BalanceModel) (amount index : Z) : PRes Z :=
  match m with
  | TokenMath35 => v_token_burn_scaled amount index | WadRayHalfUp => ray_div amount index end.

(** * Interest *)

Definition linear_interest (rate dt : Z) : PRes Z :=
  let? growth := fixed (mul_div rate dt SECONDS_PER_YEAR Down) in
  overflow (checked_add 256 RAY growth).

(** [r.ok()] of a [Result]. *)
Definition res_ok {E A} (r : Result E A) : option A := match r with Ok a => Some a | Err _ => None end.

Definition compounded_interest (rate dt : Z) : PRes Z :=
  if dt =? 0 then Ok RAY else
  let? x := fixed (mul_div rate dt SECONDS_PER_YEAR Down) in
  let? x6 := div_zero (checked_div x 6) in
  let? inner := overflow
    (let! h := checked_div x 2 in
     let! q := res_ok (ray_mul x x6) in
     checked_add 256 h q) in
  overflow
    (let! v := checked_add 256 RAY x in
     let! q := res_ok (ray_mul x inner) in
     checked_add 256 v q).

Definition compounded_interest_v2 (rate dt : Z) : PRes Z :=
  if dt =? 0 then Ok RAY else
  let exp := dt in
  let exp1 := saturating_sub dt 1 in
  let exp2 := if 2 <? dt then saturating_sub dt 2 else 0 in
  let? r := overflow (checked_div rate SECONDS_PER_YEAR) in
  let? p2 := ray_mul r r in
  let? p3 := ray_mul p2 r in
  let? s := overflow (let! v := checked_mul 256 exp exp1 in checked_mul 256 v p2) in
  let? second := overflow (checked_div s 2) in
  let? t := overflow (let! v := checked_mul 256 exp exp1 in
                      let! v := checked_mul 256 v exp2 in checked_mul 256 v p3) in
  let? third := overflow (checked_div t 6) in
  let? rn := overflow (checked_mul 256 r exp) in
  overflow (let! v := checked_add 256 RAY rn in
            let! v := checked_add 256 v second in checked_add 256 v third).

(** An index grown from [stored] at [last] to [ts] by [interest]. *)
Definition normalized (interest : Z -> Z -> PRes Z) (rate stored last ts : Z) : PRes Z :=
  if ts <? last then Err TimestampBeforeUpdate else
  if ts =? last then Ok stored else
  let? i := interest rate (wrapping_sub 64 ts last) in
  ray_mul i stored.

(** * Health *)

Definition hf_wad_v2 (weighted collateral debt : Z) : PRes Z :=
  if debt =? 0 then Ok (umax 256) else
  let? avg_lt := if collateral =? 0 then Ok 0 else div_zero (checked_div weighted collateral) in
  let? c := percent_mul collateral avg_lt in
  wad_div c debt.

Definition asset_unit (decimals : Z) : PRes Z := overflow (checked_pow 10 decimals).

Definition p_of (price scale : Z) : option Z :=
  let p := price / scale in if p =? 0 then None else Some p.

Definition hf_wad_to_ray (hf_wad : Z) : PRes Z :=
  if hf_wad =? umax 256 then Ok (umax 256) else overflow (checked_mul 256 hf_wad WAD_RAY_RATIO).

Definition value_ray_of (amount price decimals : Z) : PRes Z :=
  let? unit := asset_unit decimals in
  fixed (mul_div amount price unit Down).
