(* ===== verification/Bisect.v ===== *)
(** Bisection: the loop [while hi - lo > 1 { mid; test; lo = mid or hi = mid }] that the
    adapters and the router share.

    [step] decides the middle: [Some a] moves [lo] there and keeps [a], [None] moves [hi].
    [2 ^ fuel] bounds the width, so a loop that is given the width of its integers in bits
    runs to its end. *)

From S2P Require Import Prelude.
Local Open Scope Z_scope.

Section Bisect.
Context {E A : Type} (mid : Z -> Z -> Result E Z) (step : Z -> Result E (option A)).

Fixpoint bisect (fuel : nat) (lo hi : Z) (best : option A) : Result E (Z * Z * option A) :=
  match fuel with
  | O => Ok (lo, hi, best)
  | S fuel =>
      if 1 <? hi - lo then
        let? m := mid lo hi in
        let? r := step m in
        match r with
        | Some a => bisect fuel m hi (Some a)
        | None => bisect fuel lo m best
        end
      else Ok (lo, hi, best)
  end.

(** The middle, when there is one, halves every interval within [l .. h]. *)
Definition halves (l h : Z) : Prop :=
  forall lo hi m, l <= lo -> hi <= h -> 1 < hi - lo -> mid lo hi = Ok m -> m = lo + (hi - lo) / 2.

Lemma half_between lo hi : 1 < hi - lo -> lo < lo + (hi - lo) / 2 < hi.
Proof. intros. pose proof (div_rem_spec (hi - lo) 2 ltac:(lia)). lia. Qed.

(** Where the loop ends: adjacent ends, each the start or decided by [step]. *)
Lemma bisect_ends fuel l h : halves l h -> forall lo hi best lo' hi' best',
  l <= lo -> hi <= h -> lo < hi -> hi - lo <= 2 ^ Z.of_nat fuel -> bisect fuel lo hi best = Ok (lo', hi', best') ->
  lo <= lo' /\ hi' = lo' + 1 /\ hi' <= hi /\
  (lo' = lo /\ best' = best \/ exists a, step lo' = Ok (Some a) /\ best' = Some a) /\
  (hi' = hi \/ step hi' = Ok None).
Proof.
  intros Hmid. induction fuel as [|fuel IH]; intros lo hi best lo' hi' best' Hl Hh Hlt Hw H;
    cbn [bisect] in H.
  - injection H as <- <- <-. simpl in Hw. split_and!; try lia; left; try done; lia.
  - destruct (Z.ltb_spec 1 (hi - lo)) as [Hgt|Hle].
    2: { injection H as <- <- <-. split_and!; try lia; left; try done; lia. }
    destruct (mid lo hi) as [m|] eqn:Em; [|done]. pose proof (Hmid _ _ _ Hl Hh Hgt Em) as Hm.
    pose proof (half_between lo hi Hgt) as Hb. rewrite <- Hm in Hb.
    assert (hi - lo <= 2 * 2 ^ Z.of_nat fuel) as Hw'
      by (rewrite <- Z.pow_succ_r, <- Nat2Z.inj_succ by lia; done).
    pose proof (div_rem_spec (hi - lo) 2 ltac:(lia)).
    destruct (step m) as [[a|]|] eqn:Es; [| |done].
    + apply IH in H as (H1 & H2 & H3 & H4 & H5); [|lia..]. split_and!; try lia; [|done].
      destruct H4 as [[-> ->]|H4]; [right; eauto|by right].
    + apply IH in H as (H1 & H2 & H3 & H4 & H5); [|lia..]. split_and!; try lia; [done|].
      destruct H5 as [->|H5]; [by right|by right].
Qed.

(** The loop returns when every middle it can reach does. *)
Lemma bisect_total fuel l h : halves l h -> forall lo hi best,
  l <= lo -> hi <= h -> lo < hi ->
  (forall a b, lo <= a -> b <= hi -> 1 < b - a -> exists m, mid a b = Ok m) ->
  (forall x, lo < x < hi -> exists r, step x = Ok r) ->
  exists r, bisect fuel lo hi best = Ok r.
Proof.
  intros Hmid. induction fuel as [|fuel IH]; intros lo hi best Hl Hh Hlt Hm Hs; cbn [bisect]; [eauto|].
  destruct (Z.ltb_spec 1 (hi - lo)) as [Hgt|]; [|eauto].
  destruct (Hm lo hi) as [m Em]; [lia..|]. rewrite Em.
  pose proof (Hmid _ _ _ Hl Hh Hgt Em) as Hmm. pose proof (half_between lo hi Hgt) as Hb.
  rewrite <- Hmm in Hb. destruct (Hs m) as [[a|] Er]; [lia| |]; rewrite Er.
  - apply IH; [lia..| |]; intros; [apply Hm; lia|apply Hs; lia].
  - apply IH; [lia..| |]; intros; [apply Hm; lia|apply Hs; lia].
Qed.

End Bisect.

(** [(lo + hi) / 2] is the same middle. *)
Lemma mid_sum lo hi : (lo + hi) / 2 = lo + (hi - lo) / 2.
Proof. replace (lo + hi) with (lo * 2 + (hi - lo)) by lia. rewrite Z.div_add_l by lia. done. Qed.
