(* ===== verification/AaveHealth.v ===== *)
(** Aave V3 health ([crates/liq-adapters/aave-v3/src/health.rs]) over the store's rows
    ([layout.rs]): the walk over a position's reserves, the account sums, the health factor
    and the health state.

    A row's body is fifteen [u128] cells that the adapter views as a [Pod] struct; a field is
    the little-endian bytes at its offset. The views are at most 240 bytes (16 for extras), so
    [body] and [view] never fail for lack of room. *)

From S2P Require Import Prelude Fixed Mask Types Columns Undo Store Candidate Engine Adapter AaveMath.
Local Open Scope Z_scope.

(** * Layout *)

(** [n] bytes at byte offset [o] of the cells, within one cell. *)
Definition pod (cells : list Z) (o n : Z) : Z :=
  Z.shiftr (default 0 (cells !! Z.to_nat (o / 16))) (8 * (o mod 16)) mod 2 ^ (8 * n).

Record PoolMeta := mkMeta {
  pm_flashloan_premium_total : Z; pm_sentinel_present : Z; pm_sequencer_answer : Z;
  pm_sentinel_grace : Z; pm_sequencer_updated_at : Z; pm_halted : Z; pm_pool_paused : Z }.

Definition meta_of (row : MarketRow) : PoolMeta :=
  let f := pod (mr_body row) in
  mkMeta (f 0 2) (f 2 1) (f 3 1) (f 4 4) (f 8 4) (f 12 1) (f 13 1).

Record EModeCat := mkCat {
  ec_id : Z; ec_isolated : Z; ec_ltv : Z; ec_liq_threshold : Z; ec_liq_bonus : Z }.

Definition PER_ROW : nat := 30.
Definition EMODE_ROWS : nat := 9.
Definition FIRST_RESERVE : nat := 10.

(** [EModeRow]: thirty categories of eight bytes. *)
Definition cat_at (row : MarketRow) (i : nat) : option EModeCat :=
  if (i <? PER_ROW)%nat then
    let o := 8 * Z.of_nat i in
    let f k n := pod (mr_body row) (o + k) n in
    Some (mkCat (f 0 1) (f 1 1) (f 2 2) (f 4 2) (f 6 2))
  else None.

Definition emode_place (id : Z) : option (nat * nat) :=
  let! k := checked_sub_nat (Z.to_nat id) 1 in
  Some ((k / PER_ROW + 1)%nat, (k mod PER_ROW)%nat).

(** [EModeSet]: four [u64] words, one bit per id. *)
Definition emode_contains (words : list Z) (id : Z) : bool :=
  match words !! Z.to_nat (Z.shiftr id 6) with
  | Some w => negb (Z.land (Z.shiftr w (Z.land id 63)) 1 =? 0)
  | None => false
  end.

Definition emode_set (words : list Z) (id : Z) (on : bool) : list Z :=
  let i := Z.to_nat (Z.shiftr id 6) in
  let mask := Z.shiftl 1 (Z.land id 63) in
  match words !! i with
  | Some w => <[i := if on then Z.lor w mask else Z.land w (Z.lxor mask (umax 64))]> words
  | None => words
  end.

Record Reserve := mkReserve {
  rs_liquidity_index : Z; rs_variable_borrow_index : Z; rs_liquidity_rate : Z;
  rs_variable_borrow_rate : Z; rs_emode_coll : list Z; rs_emode_ltv0 : list Z;
  rs_grace_until : Z; rs_ltv : Z; rs_liq_threshold : Z; rs_liq_bonus : Z;
  rs_liq_protocol_fee : Z; rs_flags : Z }.

Definition RESERVE_PAUSED : Z := 4.
Definition RESERVE_PRICED : Z := 128.

(** [deficit], [debt_ceiling] and the token addresses (offsets 64 to 95 and 160 to 219) are
    not read here. *)
Definition reserve_of (row : MarketRow) : Reserve :=
  let f := pod (mr_body row) in
  mkReserve (f 0 16) (f 16 16) (f 32 16) (f 48 16)
    [f 96 8; f 104 8; f 112 8; f 120 8] [f 128 8; f 136 8; f 144 8; f 152 8]
    (f 220 4) (f 224 2) (f 226 2) (f 228 2) (f 230 2) (f 232 1).

Definition extra_cells (e : PositionExtraRepr) : list Z := [ex0 e; ex1 e; ex2 e; ex3 e].

(** [UserExtra] and [UserReserve]. *)
Definition user_emode (e : PositionExtraRepr) : Z := pod (extra_cells e) 0 1.
Definition user_stable_slots (e : PositionExtraRepr) : Z := pod (extra_cells e) 8 8.
Definition user_flags (e : PositionExtraRepr) : Z := pod (extra_cells e) 0 1.
Definition USING_AS_COLLATERAL : Z := 1.
Definition UNMAPPED_ASSET : Z := umax 16.

(** * Terms of one reserve *)

Record Collateral := mkColl { co_assets : Z; co_per_price : Z; co_value : Z; co_lt : Z }.
Record Debt := mkDebt { de_assets : Z; de_per_price : Z; de_value : Z }.

Record SlotTerms := mkTerms {
  st_slot : nat; st_row : MarketRow; st_reserve : Reserve; st_user_flags : Z;
  st_supply_scaled : Z; st_debt_scaled : Z; st_p : Z; st_liq_idx : Z; st_debt_idx : Z;
  st_collateral : option Collateral; st_debt : option Debt; st_liq_bonus : Z }.

Definition bit_set (flags bit : Z) : bool := negb (Z.land flags bit =? 0).

Definition paused (t : SlotTerms) : bool := bit_set (rs_flags (st_reserve t)) RESERVE_PAUSED.
Definition in_grace (t : SlotTerms) (ts : Z) : bool :=
  negb (rs_grace_until (st_reserve t) =? 0) && (ts <=? rs_grace_until (st_reserve t)).
Definition is_some {A} (o : option A) : bool := match o with Some _ => true | None => false end.
Definition seizable (t : SlotTerms) (ts : Z) : bool :=
  is_some (st_collateral t) && negb (paused t) && negb (in_grace t ts).
Definition repayable (t : SlotTerms) (ts : Z) : bool :=
  is_some (st_debt t) && negb (paused t) && negb (in_grace t ts).
Definition seizable_but_for_grace (t : SlotTerms) (ts : Z) : bool :=
  is_some (st_collateral t) && negb (paused t) && in_grace t ts.
Definition repayable_but_for_grace (t : SlotTerms) (ts : Z) : bool :=
  is_some (st_debt t) && negb (paused t) && in_grace t ts.

Definition price_p (px : PriceVector) (asset : AssetId) (scale : Z) : PRes Z :=
  ok_or (let! e := price_entry px asset in p_of (p_price e) scale) (MissingPrice asset).

Definition cell (v : list Z) (slot : nat) : Z := default 0 (v !! slot).

Definition emode_cat (markets : list MarketRow) (market : MarketId) (id : Z)
    : PRes (option EModeCat) :=
  match emode_place id with
  | None => Ok None
  | Some (slot, i) =>
      let? row := ok_or (markets !! slot) (SlotOutOfRange (mkSlot market slot)) in
      Ok (match cat_at row i with
          | Some c => if ec_id c =? id then Some c else None
          | None => None
          end)
  end.

(** LTV, threshold and bonus under e-mode. *)
Definition risk_params (cat : option EModeCat) (r : Reserve) : Z * Z * Z :=
  let own := (rs_ltv r, rs_liq_threshold r, rs_liq_bonus r) in
  match cat with
  | Some c =>
      if emode_contains (rs_emode_coll r) (ec_id c) then
        (if emode_contains (rs_emode_ltv0 r) (ec_id c) then 0 else ec_ltv c,
         ec_liq_threshold c, ec_liq_bonus c)
      else if negb (ec_isolated c =? 0) then (0, rs_liq_threshold r, rs_liq_bonus r)
      else own
  | None => own
  end.

Definition normalized_income (r : Reserve) (last ts : Z) : PRes Z :=
  normalized linear_interest (rs_liquidity_rate r) (rs_liquidity_index r) last ts.

Definition normalized_debt (r : Reserve) (last ts : Z) : PRes Z :=
  normalized compounded_interest (rs_variable_borrow_rate r) (rs_variable_borrow_index r) last ts.

Definition normalized_debt_for (v : AaveVersion) (r : Reserve) (last ts : Z) : PRes Z :=
  if bool_decide (v = V3) then normalized_debt r last ts else
  normalized compounded_interest_v2 (rs_variable_borrow_rate r) (rs_variable_borrow_index r)
    last ts.

(** [assets * p / unit], checked. *)
Definition value_floor (assets p unit : Z) : PRes Z :=
  let? m := overflow (checked_mul 256 assets p) in div_zero (checked_div m unit).

Definition collateral_terms (lp : LiquidationParams) (counted : bool)
    (supply_scaled liq_idx p unit lt : Z) : PRes (option Collateral) :=
  if counted then
    let? assets := supply_assets (lp_balance_model lp) supply_scaled liq_idx in
    let? value := value_floor assets p unit in
    Ok (Some (mkColl assets assets value (if 0 <? lt then lt else 0)))
  else Ok None.

Definition debt_terms (lp : LiquidationParams) (borrowing : bool) (debt_scaled debt_idx p unit : Z)
    : PRes (option Debt) :=
  if borrowing then
    let? assets := debt_assets (lp_balance_model lp) debt_scaled debt_idx in
    let? value := if bool_decide (lp_version lp = V2) then value_floor assets p unit
                  else mul_div_ceil assets p unit in
    Ok (Some (mkDebt assets assets value))
  else Ok None.

(** The terms of the reserve in [slot], or [None] where the position holds nothing there. *)
Definition slot_terms (lp : LiquidationParams) (pos : PositionRef) (cat : option EModeCat)
    (price_of : AssetId -> PRes Z) (slot : nat) : PRes (option SlotTerms) :=
  let? row := ok_or (pr_markets pos !! slot)
                (SlotOutOfRange (mkSlot (pk_market (pr_key pos)) slot)) in
  let supply_scaled := cell (pr_supply pos) slot in
  let debt_scaled := cell (pr_debt pos) slot in
  let flags := match pr_slot_extra pos !! slot with Some e => user_flags e | None => 0 end in
  let reserve := reserve_of row in
  let counted := bit_set flags USING_AS_COLLATERAL && (0 <? supply_scaled) in
  let borrowing := 0 <? debt_scaled in
  if negb counted && negb borrowing then Ok None else
  if flags_contains (mr_flags row) UNPRICED || (mr_asset row =? UNMAPPED_ASSET) ||
     negb (bit_set (rs_flags reserve) RESERVE_PRICED)
  then Err OracleSourceMismatch else
  let? p := price_of (mr_asset row) in
  let? unit := asset_unit (mr_decimals row) in
  let? liq_idx := normalized_income reserve (mr_last_update row) (pr_timestamp pos) in
  let? debt_idx := normalized_debt_for (lp_version lp) reserve (mr_last_update row)
                     (pr_timestamp pos) in
  let '(_, lt, bonus) := risk_params cat reserve in
  let? collateral := collateral_terms lp counted supply_scaled liq_idx p unit lt in
  let? debt := debt_terms lp borrowing debt_scaled debt_idx p unit in
  Ok (Some (mkTerms slot row reserve flags supply_scaled debt_scaled p liq_idx debt_idx
        collateral debt bonus)).

(** The walk: [f] folded over the terms, in slot order. *)
Fixpoint walk_slots {S} (lp : LiquidationParams) (pos : PositionRef) (cat : option EModeCat)
    (price_of : AssetId -> PRes Z) (f : S -> SlotTerms -> PRes S) (s : S) (slots : list nat)
    : PRes S :=
  match slots with
  | [] => Ok s
  | slot :: slots =>
      if (slot <? FIRST_RESERVE)%nat then walk_slots lp pos cat price_of f s slots else
      let? t := slot_terms lp pos cat price_of slot in
      match t with
      | None => walk_slots lp pos cat price_of f s slots
      | Some t => let? s := f s t in walk_slots lp pos cat price_of f s slots
      end
  end.

Definition walk {S} (lp : LiquidationParams) (pos : PositionRef) (price_of : AssetId -> PRes Z)
    (f : S -> SlotTerms -> PRes S) (s : S) : PRes S :=
  if (length (pr_markets pos) =? 0)%nat then Err (PUnknownMarket (pk_market (pr_key pos))) else
  if negb (user_stable_slots (pr_extra pos) =? 0) then Err UntrackedDebt else
  let? cat := emode_cat (pr_markets pos) (pk_market (pr_key pos)) (user_emode (pr_extra pos)) in
  walk_slots lp pos cat price_of f s (iter (pr_config pos)).

(** * The account *)

Record Account := mkAccount {
  ac_market : MarketId; ac_weighted : Z; ac_collateral_value : Z; ac_debt_value : Z;
  ac_any_seizable : bool; ac_any_repayable : bool; ac_grace_seizable : bool;
  ac_grace_repayable : bool; ac_sentinel_ok : bool; ac_oracle_decimals : Z;
  ac_sensitivity : AssetMask; ac_lt_collateral : Z; ac_version : AaveVersion }.

Definition account_new (market : MarketId) (sentinel_ok : bool) (oracle_decimals : Z)
    (version : AaveVersion) : Account :=
  mkAccount market 0 0 0 false false false false sentinel_ok oracle_decimals EMPTY 0 version.

Definition add_collateral (a : Account) (t : SlotTerms) (ts : Z) (c : Collateral) : PRes Account :=
  let? cv := overflow (checked_add 256 (ac_collateral_value a) (co_value c)) in
  let? w := overflow (checked_mul 256 (co_value c) (co_lt c)) in
  let? weighted := overflow (checked_add 256 (ac_weighted a) w) in
  let? ltc := if co_lt c =? 0 then Ok (ac_lt_collateral a)
              else overflow (checked_add 256 (ac_lt_collateral a) (co_value c)) in
  Ok (mkAccount (ac_market a) weighted cv (ac_debt_value a)
        (ac_any_seizable a || seizable t ts) (ac_any_repayable a)
        (ac_grace_seizable a || seizable_but_for_grace t ts) (ac_grace_repayable a)
        (ac_sentinel_ok a) (ac_oracle_decimals a) (ac_sensitivity a) ltc (ac_version a)).

Definition add_debt (a : Account) (t : SlotTerms) (ts : Z) (d : Debt) : PRes Account :=
  let? dv := overflow (checked_add 256 (ac_debt_value a) (de_value d)) in
  Ok (mkAccount (ac_market a) (ac_weighted a) (ac_collateral_value a) dv (ac_any_seizable a)
        (ac_any_repayable a || repayable t ts) (ac_grace_seizable a)
        (ac_grace_repayable a || repayable_but_for_grace t ts) (ac_sentinel_ok a)
        (ac_oracle_decimals a) (ac_sensitivity a) (ac_lt_collateral a) (ac_version a)).

Definition account_add (ts : Z) (a : Account) (t : SlotTerms) : PRes Account :=
  let? a := match st_collateral t with Some c => add_collateral a t ts c | None => Ok a end in
  let? a := match st_debt t with Some d => add_debt a t ts d | None => Ok a end in
  let? s := ok_or (with_slot (ac_sensitivity a) (st_slot t))
              (SlotOutOfRange (mkSlot (ac_market a) (st_slot t))) in
  Ok (mkAccount (ac_market a) (ac_weighted a) (ac_collateral_value a) (ac_debt_value a)
        (ac_any_seizable a) (ac_any_repayable a) (ac_grace_seizable a) (ac_grace_repayable a)
        (ac_sentinel_ok a) (ac_oracle_decimals a) s (ac_lt_collateral a) (ac_version a)).

Definition account_hf_wad (a : Account) : PRes Z :=
  if bool_decide (ac_version a = V2)
  then hf_wad_v2 (ac_weighted a) (ac_lt_collateral a) (ac_debt_value a) else
  if ac_debt_value a =? 0 then Ok (umax 256) else
  let? w := wad_div (ac_weighted a) (ac_debt_value a) in
  div_zero (checked_div w BPS).

(** The L2 sentinel part, shared by [solve.rs]; [health.rs] also asks for no halt and no pause. *)
Definition sequencer_ok (m : PoolMeta) (ts : Z) : bool :=
  if pm_sentinel_present m =? 0 then true else
  if pm_sequencer_updated_at m =? 0 then false else
  (pm_sequencer_answer m =? 0) &&
  (saturating_add 64 (pm_sequencer_updated_at m) (pm_sentinel_grace m) <=? ts).
Definition sentinel_ok (m : PoolMeta) (ts : Z) : bool :=
  if negb (pm_halted m =? 0) || negb (pm_pool_paused m =? 0) then false else sequencer_ok m ts.

(** [pos.markets.first()...body()]. *)
Definition pool_meta (pos : PositionRef) : PRes PoolMeta :=
  let? row := ok_or (head (pr_markets pos)) (PUnknownMarket (pk_market (pr_key pos))) in
  Ok (meta_of row).

Definition health_state (acc : Account) (hf debt_value : Z) : HealthState :=
  if RAY <=? hf then HHealthy
  else if ac_collateral_value acc =? 0 then HBadDebt debt_value
  else if negb (ac_sentinel_ok acc) then HBlocked BPaused
  else if ac_any_seizable acc && ac_any_repayable acc then HLiquidatable
  else
    let grace_would_unblock :=
      (ac_any_seizable acc || ac_grace_seizable acc) &&
      (ac_any_repayable acc || ac_grace_repayable acc) &&
      (ac_grace_seizable acc || ac_grace_repayable acc) in
    HBlocked (if grace_would_unblock then BGracePeriod else BPaused).

Definition finish (acc : Account) : PRes Health :=
  let? w := account_hf_wad acc in
  let? hf := hf_wad_to_ray w in
  let? e := overflow (checked_sub 18 (ac_oracle_decimals acc)) in
  let? lift := overflow (checked_pow 10 e) in
  let? debt_value := overflow (checked_mul 256 (ac_debt_value acc) lift) in
  let? collateral_value := overflow (checked_mul 256 (ac_collateral_value acc) lift) in
  Ok (mkHealth hf debt_value collateral_value (ac_sensitivity acc)
        (health_state acc hf debt_value)).

(** The account of a position at some prices. *)
Definition account_at (lp : LiquidationParams) (pos : PositionRef) (price_of : AssetId -> PRes Z)
    (sentinel : bool) : PRes Account :=
  walk lp pos price_of (account_add (pr_timestamp pos))
    (account_new (pk_market (pr_key pos)) sentinel (lp_oracle_decimals lp) (lp_version lp)).

Definition health_with (lp : LiquidationParams) (pos : PositionRef) (px : PriceVector)
    : PRes Health :=
  let? meta := pool_meta pos in
  let? acc := account_at lp pos (fun a => price_p px a (oracle_scale lp))
                (sentinel_ok meta (pr_timestamp pos)) in
  finish acc.
