(* ===== verification/AaveSolve.v ===== *)
(** Aave V3 crossings ([crates/liq-adapters/aave-v3/src/solve.rs]): the liquidation price of
    an asset and the instant at which accrual alone makes a position liquidatable, both by
    bisection over the health factor. *)

From S2P Require Import Prelude Fixed Mask Types Columns Undo Store Candidate Engine Bisect.
From S2P Require Import Adapter AaveMath AaveHealth.
Local Open Scope Z_scope.

Definition HORIZON : Z := 315360000.

(** The health factor of a position at some prices, in wad. *)
Definition hf_wad_of (lp : LiquidationParams) (pos : PositionRef) (px : PriceVector) : PRes Z :=
  let? meta := pool_meta pos in
  let? acc := account_at lp pos (fun a => price_p px a (oracle_scale lp))
                (sequencer_ok meta (pr_timestamp pos)) in
  account_hf_wad acc.

Definition hf_wad_at (lp : LiquidationParams) (pos : PositionRef) (px : PriceVector) (ts : Z)
    : PRes Z := hf_wad_of lp (at_time pos ts) px.

(** [lo + (hi - lo) / 2] on [u64]. *)
Definition time_mid (lo hi : Z) : PRes Z := Ok (wrapping_add 64 lo (wrapping_sub 64 hi lo / 2)).

(** A healthy second moves [lo]. *)
Definition time_step (lp : LiquidationParams) (pos : PositionRef) (px : PriceVector) (m : Z)
    : PRes (option unit) :=
  let? hf := hf_wad_at lp pos px m in
  Ok (if HF_THRESHOLD_WAD <=? hf then Some tt else None).

Definition time_to_cross (lp : LiquidationParams) (pos : PositionRef) (px : PriceVector)
    : PRes (option Z) :=
  let now := pr_timestamp pos in
  let? start := hf_wad_at lp pos px now in
  if start =? umax 256 then Ok None else
  if start <? HF_THRESHOLD_WAD then Ok (Some now) else
  let? hi := overflow (checked_add 64 now HORIZON) in
  let? hf_hi := hf_wad_at lp pos px hi in
  if HF_THRESHOLD_WAD <=? hf_hi then Ok None else
  let? (_, hi, _) := bisect time_mid (time_step lp pos px) 64 now hi None in
  Ok (Some hi).

(** * The liquidation price *)

Definition hf_at_p (lp : LiquidationParams) (pos : PositionRef) (px : PriceVector)
    (asset : AssetId) (p_int : Z) : PRes Z :=
  let? raw := overflow (checked_mul 256 p_int (oracle_scale lp)) in
  let? v := set_price px asset raw in
  let? w := hf_wad_of lp pos v in
  hf_wad_to_ray w.

Section Price.
Context (lp : LiquidationParams) (pos : PositionRef) (px : PriceVector) (asset : AssetId).

(** The walk that finds whether the position holds [asset]. *)
Definition holds_asset : PRes bool :=
  walk lp pos (fun a => price_p px a (oracle_scale lp))
    (fun held t => Ok (held || (mr_asset (st_row t) =? asset))) false.

(** The doubling loop: at most 96 turns from [h]. *)
Fixpoint bracket (turns : nat) (coll_like : bool) (h : Z) : PRes Z :=
  match turns with
  | O => Ok h
  | S turns =>
      let h := Z.max (saturating_mul 256 h 2) 2 in
      if h =? umax 256 then Ok h else
      let? hf := hf_at_p lp pos px asset h in
      if coll_like && (RAY <=? hf) then bracket turns coll_like h
      else if negb coll_like && (hf <? RAY) then bracket turns coll_like h
      else Ok h
  end.

(** [(lo + hi) / 2] with a checked sum. *)
Definition price_mid (lo hi : Z) : PRes Z :=
  let? s := overflow (checked_add 256 lo hi) in Ok (s / 2).

(** For a collateral an unhealthy price moves [lo], for a debt a healthy one. *)
Definition coll_step (m : Z) : PRes (option unit) :=
  let? hf := hf_at_p lp pos px asset m in Ok (if RAY <=? hf then None else Some tt).
Definition debt_step (m : Z) : PRes (option unit) :=
  let? hf := hf_at_p lp pos px asset m in Ok (if RAY <=? hf then Some tt else None).

Definition derived_price (e : Price) (raw : Z) : Price :=
  mkPrice asset raw (Derived [asset]) (p_block e) (p_ts e).

Definition coll_price (entry : Price) (hi : Z) : PRes (option Price) :=
  let? h1 := hf_at_p lp pos px asset 1 in
  if RAY <=? h1 then Ok None else
  let? hh := hf_at_p lp pos px asset hi in
  if hh <? RAY then Ok None else
  let? (_, hi, _) := bisect price_mid coll_step 256 1 hi None in
  if hi <? 2 then Ok None else
  let? raw := overflow (checked_mul 256 hi (oracle_scale lp)) in
  Ok (Some (derived_price entry raw)).

Definition debt_price (entry : Price) (hi : Z) : PRes (option Price) :=
  let? h1 := hf_at_p lp pos px asset 1 in
  if h1 <? RAY then Ok None else
  let? hh := hf_at_p lp pos px asset hi in
  if RAY <=? hh then Ok None else
  let? (lo, _, _) := bisect price_mid debt_step 256 1 hi None in
  if lo =? 0 then Ok None else
  let? raw := overflow (let! p := checked_add 256 lo 1 in checked_mul 256 p (oracle_scale lp)) in
  Ok (Some (derived_price entry (wrapping_sub 256 raw 1))).

Definition liquidation_price : PRes (option Price) :=
  let? held := holds_asset in
  if negb held then Ok None else
  let? entry := ok_or (price_entry px asset) (MissingPrice asset) in
  let? cur := div_zero (checked_div (p_price entry) (oracle_scale lp)) in
  if cur =? 0 then Ok None else
  let? hf_cur := hf_at_p lp pos px asset cur in
  let? up := overflow (checked_add 256 cur 1) in
  let? hf_up := hf_at_p lp pos px asset up in
  let coll_like := hf_cur <=? hf_up in
  let? hi := bracket 96 coll_like cur in
  if coll_like then coll_price entry hi else debt_price entry hi.

End Price.

(** * The health factor as a function of the prices *)

(** Two walks that both succeed keep a relation that every turn keeps. *)
Lemma walk_slots_rel {S} (R : S -> S -> Prop) (T : SlotTerms -> SlotTerms -> Prop)
    lp pos cat po1 po2 f1 f2 :
  (forall slot t1 t2, slot_terms lp pos cat po1 slot = Ok t1 ->
     slot_terms lp pos cat po2 slot = Ok t2 ->
     match t1, t2 with None, None => True | Some t1, Some t2 => T t1 t2 | _, _ => False end) ->
  (forall s1 s2 t1 t2 r1 r2, R s1 s2 -> T t1 t2 -> f1 s1 t1 = Ok r1 -> f2 s2 t2 = Ok r2 -> R r1 r2) ->
  forall slots s1 s2 r1 r2, R s1 s2 ->
  walk_slots lp pos cat po1 f1 s1 slots = Ok r1 ->
  walk_slots lp pos cat po2 f2 s2 slots = Ok r2 -> R r1 r2.
Proof.
  intros HT Hf. induction slots as [|slot slots IH]; intros s1 s2 r1 r2 HR H1 H2;
    cbn [walk_slots] in H1, H2; [by simplify_eq|].
  destruct (slot <? FIRST_RESERVE)%nat; [by eapply IH|].
  apply bind_Ok in H1 as (t1 & E1 & H1). apply bind_Ok in H2 as (t2 & E2 & H2).
  specialize (HT _ _ _ E1 E2). destruct t1, t2; try done; [|by eapply IH].
  apply bind_Ok in H1 as (u1 & G1 & H1). apply bind_Ok in H2 as (u2 & G2 & H2).
  eapply IH; [|exact H1|exact H2]. by eapply Hf.
Qed.

Lemma account_at_rel (R : Account -> Account -> Prop) (T : SlotTerms -> SlotTerms -> Prop)
    lp pos po1 po2 s1 s2 r1 r2 :
  (forall cat slot t1 t2, slot_terms lp pos cat po1 slot = Ok t1 ->
     slot_terms lp pos cat po2 slot = Ok t2 ->
     match t1, t2 with None, None => True | Some t1, Some t2 => T t1 t2 | _, _ => False end) ->
  (forall a1 a2 t1 t2 r1 r2, R a1 a2 -> T t1 t2 ->
     account_add (pr_timestamp pos) a1 t1 = Ok r1 ->
     account_add (pr_timestamp pos) a2 t2 = Ok r2 -> R r1 r2) ->
  R (account_new (pk_market (pr_key pos)) s1 (lp_oracle_decimals lp) (lp_version lp))
    (account_new (pk_market (pr_key pos)) s2 (lp_oracle_decimals lp) (lp_version lp)) ->
  account_at lp pos po1 s1 = Ok r1 -> account_at lp pos po2 s2 = Ok r2 -> R r1 r2.
Proof.
  intros HT Hf HR. unfold account_at, walk.
  destruct (length (pr_markets pos) =? 0)%nat; [done|]. destruct (negb _); [done|].
  intros H1 H2. apply bind_Ok in H1 as (cat & E1 & H1). apply bind_Ok in H2 as (cat' & E2 & H2).
  rewrite E1 in E2. injection E2 as <-. eapply walk_slots_rel; [apply HT|exact Hf|exact HR|done..].
Qed.

(** What [account_add] does to the sums. *)
Definition coll_value (t : SlotTerms) : Z :=
  match st_collateral t with Some c => co_value c | None => 0 end.
Definition coll_weight (t : SlotTerms) : Z :=
  match st_collateral t with Some c => co_value c * co_lt c | None => 0 end.
Definition debt_value (t : SlotTerms) : Z :=
  match st_debt t with Some d => de_value d | None => 0 end.

Lemma account_add_sums ts a t r :
  account_add ts a t = Ok r ->
  ac_weighted r = ac_weighted a + coll_weight t /\
  ac_collateral_value r = ac_collateral_value a + coll_value t /\
  ac_debt_value r = ac_debt_value a + debt_value t /\
  ac_version r = ac_version a /\ ac_oracle_decimals r = ac_oracle_decimals a /\
  ac_weighted r <= Z.max (ac_weighted a) (umax 256) /\
  ac_debt_value r <= Z.max (ac_debt_value a) (umax 256).
Proof.
  unfold account_add. intros H. apply bind_Ok in H as (a1 & H1 & H).
  apply bind_Ok in H as (a2 & H2 & H). apply bind_Ok in H as (s & _ & [= <-]).
  cbn [ac_weighted ac_collateral_value ac_debt_value ac_version ac_oracle_decimals].
  unfold coll_weight, coll_value, debt_value.
  assert (ac_weighted a1 = ac_weighted a + match st_collateral t with
      Some c => co_value c * co_lt c | None => 0 end /\
    ac_collateral_value a1 = ac_collateral_value a + match st_collateral t with
      Some c => co_value c | None => 0 end /\
    ac_debt_value a1 = ac_debt_value a /\ ac_version a1 = ac_version a /\
    ac_oracle_decimals a1 = ac_oracle_decimals a /\
    ac_weighted a1 <= Z.max (ac_weighted a) (umax 256)) as (E1 & E2 & E3 & E4 & E5 & E6).
  { destruct (st_collateral t) as [c|]; [|injection H1 as <-; split_and!; (lia || done)].
    unfold add_collateral in H1. apply bind_Ok in H1 as (cv & [-> _]%ok_or_Ok%checked_add_Some & H1).
    apply bind_Ok in H1 as (w & [-> _]%ok_or_Ok%checked_mul_Some & H1).
    apply bind_Ok in H1 as (wt & [-> ?]%ok_or_Ok%checked_add_Some & H1).
    apply bind_Ok in H1 as (lc & _ & [= <-]). simpl. split_and!; (lia || done). }
  assert (ac_weighted a2 = ac_weighted a1 /\ ac_collateral_value a2 = ac_collateral_value a1 /\
    ac_debt_value a2 = ac_debt_value a1 + match st_debt t with Some d => de_value d | None => 0 end /\
    ac_version a2 = ac_version a1 /\ ac_oracle_decimals a2 = ac_oracle_decimals a1 /\
    ac_debt_value a2 <= Z.max (ac_debt_value a1) (umax 256)) as (F1 & F2 & F3 & F4 & F5 & F6).
  { destruct (st_debt t) as [d|]; [|injection H2 as <-; split_and!; (lia || done)].
    unfold add_debt in H2. apply bind_Ok in H2 as (dv & [-> ?]%ok_or_Ok%checked_add_Some & [= <-]).
    simpl. split_and!; (lia || done). }
  split_and!; lia || congruence.
Qed.

(** The walk keeps the instance's parameters. *)
Lemma account_at_decimals lp pos po s a :
  account_at lp pos po s = Ok a -> ac_oracle_decimals a = lp_oracle_decimals lp.
Proof.
  intros H. eapply (account_at_rel (fun a _ => ac_oracle_decimals a = lp_oracle_decimals lp) eq _ _ po po);
    [| | |exact H|exact H]; [| |done].
  - intros cat slot t1 t2 E1 E2. rewrite E1 in E2. injection E2 as <-. by destruct t1.
  - intros a1 a2 t1 t2 r1 r2 Hv _ E _. by rewrite (proj1 (proj2 (proj2 (proj2 (proj2 (account_add_sums _ _ _ _ E)))))).
Qed.

(** A walk sees the prices only through [price_of]. *)
Lemma slot_terms_ext lp pos cat po1 po2 slot :
  (forall a, po1 a = po2 a) -> slot_terms lp pos cat po1 slot = slot_terms lp pos cat po2 slot.
Proof.
  intros H. unfold slot_terms. destruct (pr_markets pos !! slot) as [row|]; [|done].
  cbn [ok_or]. by rewrite (H (mr_asset row)).
Qed.

Lemma account_at_ext lp pos po1 po2 s :
  (forall a, po1 a = po2 a) -> account_at lp pos po1 s = account_at lp pos po2 s.
Proof.
  intros H. unfold account_at, walk. destruct (_ =? _)%nat; [done|]. destruct (negb _); [done|].
  destruct (emode_cat _ _ _) as [cat|]; [|done].
  generalize (account_new (pk_market (pr_key pos)) s (lp_oracle_decimals lp) (lp_version lp)).
  induction (iter (pr_config pos)) as [|slot slots IH]; intros a; cbn [walk_slots]; [done|].
  rewrite (slot_terms_ext _ _ _ _ _ _ H). destruct (_ <? _)%nat; [done|].
  destruct (slot_terms _ _ _ _ _) as [[t|]|]; try done.
  by destruct (account_add _ _ _) as [a'|].
Qed.

(** The sentinel does not enter the health factor. *)
Definition with_sentinel (s : bool) (a : Account) : Account :=
  mkAccount (ac_market a) (ac_weighted a) (ac_collateral_value a) (ac_debt_value a)
    (ac_any_seizable a) (ac_any_repayable a) (ac_grace_seizable a) (ac_grace_repayable a) s
    (ac_oracle_decimals a) (ac_sensitivity a) (ac_lt_collateral a) (ac_version a).

Lemma account_add_sentinel ts s a t :
  account_add ts (with_sentinel s a) t = map_res (with_sentinel s) (account_add ts a t).
Proof.
  unfold account_add, add_collateral, add_debt, overflow, ok_or.
  destruct (st_collateral t); cbn; repeat (case_match; cbn in *; try done; simplify_eq); done.
Qed.

Lemma account_at_sentinel lp pos po s1 s2 :
  account_at lp pos po s2 = map_res (with_sentinel s2) (account_at lp pos po s1).
Proof.
  unfold account_at, walk. destruct (_ =? _)%nat; [done|]. destruct (negb _); [done|].
  destruct (emode_cat _ _ _) as [cat|]; [|done].
  change (account_new (pk_market (pr_key pos)) s2 (lp_oracle_decimals lp) (lp_version lp))
    with (with_sentinel s2
      (account_new (pk_market (pr_key pos)) s1 (lp_oracle_decimals lp) (lp_version lp))).
  generalize (account_new (pk_market (pr_key pos)) s1 (lp_oracle_decimals lp) (lp_version lp)).
  induction (iter (pr_config pos)) as [|slot slots IH]; intros a; cbn [walk_slots]; [done|].
  destruct (_ <? _)%nat; [done|]. destruct (slot_terms _ _ _ _ _) as [[t|]|]; try done.
  rewrite account_add_sentinel. destruct (account_add (pr_timestamp pos) a t); [apply IH|done].
Qed.

(** The health factor, in ray, as [liquidation_price] compares it. *)
Definition hf_ray (lp : LiquidationParams) (pos : PositionRef) (px : PriceVector) : PRes Z :=
  let? w := hf_wad_of lp pos px in hf_wad_to_ray w.

(** [health] and the solvers agree on the health factor. *)
Lemma health_hf lp pos px h : health_with lp pos px = Ok h -> hf_ray lp pos px = Ok (h_hf h).
Proof.
  unfold health_with, hf_ray, hf_wad_of. intros H. apply bind_Ok in H as (m & -> & H).
  apply bind_Ok in H as (a & Ha & H).
  rewrite (account_at_sentinel _ _ _ (sentinel_ok m (pr_timestamp pos))), Ha. cbn [map_res].
  unfold finish in H. apply bind_Ok in H as (w & Hw & H).
  assert (account_hf_wad (with_sentinel (sequencer_ok m (pr_timestamp pos)) a) = Ok w) as -> by done.
  apply bind_Ok in H as (hf & Hf & H). rewrite Hf. f_equal.
  apply bind_Ok in H as (? & _ & H). apply bind_Ok in H as (? & _ & H).
  apply bind_Ok in H as (? & _ & H). by apply bind_Ok in H as (? & _ & [= <-]).
Qed.

Lemma oracle_scale_pos lp : 0 < oracle_scale lp.
Proof.
  unfold oracle_scale. apply Z.min_glb_lt; [apply Z.pow_pos_nonneg; lia|]. unfold umax. lia.
Qed.

(** Only the oracle integer of a price matters. *)
Lemma hf_floor lp pos px asset raw v :
  0 <= raw <= umax 256 -> set_price px asset raw = Ok v ->
  hf_ray lp pos v = hf_at_p lp pos px asset (raw / oracle_scale lp).
Proof.
  intros Hr Hv. pose proof (oracle_scale_pos lp) as Hs. unfold hf_at_p.
  pose proof (Z.mul_div_le raw (oracle_scale lp) Hs) as Hle.
  rewrite checked_mul_ok by lia. cbn [overflow ok_or]. unfold set_price in *.
  destruct (price_entry px asset) as [e|] eqn:Ee; [|done]. injection Hv as <-.
  unfold hf_ray, hf_wad_of. destruct (pool_meta pos) as [meta|]; [|done].
  rewrite (account_at_ext lp pos _ (fun a => price_p (<[Z.to_nat asset := mkPrice (p_asset e)
    (raw / oracle_scale lp * oracle_scale lp) (p_source e) (p_block e) (p_ts e)]> px) a
    (oracle_scale lp))); [done|].
  intros a. unfold price_p, price_entry.
  assert (exists y, px !! Z.to_nat asset = Some y) as [y Hy].
  { unfold price_entry in Ee. destruct (px !! Z.to_nat asset); [eauto|done]. }
  destruct (decide (Z.to_nat asset = Z.to_nat a)) as [E|E].
  - rewrite <- E. rewrite !list_lookup_insert_eq by by eapply lookup_lt_Some. cbn [p_asset p_price].
    destruct (p_asset e =? a); [|done]. cbn [p_price]. unfold p_of. by rewrite Z.div_mul by lia.
  - by rewrite !list_lookup_insert_ne by done.
Qed.

Lemma set_price_fails px asset r1 r2 e : set_price px asset r1 = Err e -> set_price px asset r2 = Err e.
Proof. unfold set_price. by destruct (price_entry px asset). Qed.

(** * Bisection over prices *)

Lemma price_mid_halves l h : halves price_mid l h.
Proof.
  intros lo hi m _ _ _ H. unfold price_mid in H. apply bind_Ok in H as (s & Hs & [= <-]).
  apply ok_or_Ok, checked_add_Some in Hs as [-> _]. apply mid_sum.
Qed.

Lemma bracket_range lp pos px asset turns b : forall h r,
  0 <= h <= umax 256 -> bracket lp pos px asset (S turns) b h = Ok r -> 2 <= r <= umax 256.
Proof.
  assert (2 <= umax 256) by (unfold umax; lia).
  induction turns as [|turns IH]; intros h r Hh H1; cbn [bracket] in H1.
  all: set (h' := Z.max (saturating_mul 256 h 2) 2) in H1;
    assert (2 <= h' <= umax 256) by (unfold h', saturating_mul; lia);
    destruct (h' =? umax 256); [by simplify_eq|];
    apply bind_Ok in H1 as (hf & _ & H1).
  - destruct (_ && _); [by simplify_eq|]. by destruct (_ && _); simplify_eq.
  - destruct (_ && _); [apply (IH h'); [lia|exact H1]|].
    destruct (_ && _); [apply (IH h'); [lia|exact H1]|by simplify_eq].
Qed.

Section Crossing.
Context (lp : LiquidationParams) (pos : PositionRef) (px : PriceVector) (asset : AssetId).
Abbreviation hf := (hf_at_p lp pos px asset).

Definition healthy_at (p : Z) : Prop := exists h, hf p = Ok h /\ RAY <= h.
Definition unhealthy_at (p : Z) : Prop := exists h, hf p = Ok h /\ h < RAY.

Lemma coll_step_None p : coll_step lp pos px asset p = Ok None -> healthy_at p.
Proof.
  unfold coll_step. intros H. apply bind_Ok in H as (h & Hh & H). exists h. split; [done|].
  destruct (Z.leb_spec RAY h); [done|discriminate H].
Qed.
Lemma coll_step_Some p u : coll_step lp pos px asset p = Ok (Some u) -> unhealthy_at p.
Proof.
  unfold coll_step. intros H. apply bind_Ok in H as (h & Hh & H). exists h. split; [done|].
  destruct (Z.leb_spec RAY h); [discriminate H|done].
Qed.
Lemma debt_step_None p : debt_step lp pos px asset p = Ok None -> unhealthy_at p.
Proof.
  unfold debt_step. intros H. apply bind_Ok in H as (h & Hh & H). exists h. split; [done|].
  destruct (Z.leb_spec RAY h); [discriminate H|done].
Qed.
Lemma debt_step_Some p u : debt_step lp pos px asset p = Ok (Some u) -> healthy_at p.
Proof.
  unfold debt_step. intros H. apply bind_Ok in H as (h & Hh & H). exists h. split; [done|].
  destruct (Z.leb_spec RAY h); [done|discriminate H].
Qed.

(** The two forms of an answer. *)
Lemma coll_price_crossing e hi r :
  2 <= hi <= umax 256 -> coll_price lp pos px asset e hi = Ok (Some r) ->
  exists p, 2 <= p <= hi /\ p_price r = p * oracle_scale lp /\ p_price r <= umax 256 /\
    healthy_at p /\ unhealthy_at (p - 1).
Proof.
  intros Hhi H. unfold coll_price in H. apply bind_Ok in H as (h1 & E1 & H).
  destruct (Z.leb_spec RAY h1); [done|]. apply bind_Ok in H as (hh & Eh & H).
  destruct (Z.ltb_spec hh RAY); [done|]. apply bind_Ok in H as ([[lo' hi'] bst] & Eb & H).
  apply (bisect_ends _ _ _ 1 hi) in Eb as (B1 & B2 & B3 & B4 & B5);
    [|apply price_mid_halves|lia..|unfold umax in *; lia].
  destruct (Z.ltb_spec hi' 2); [done|]. apply bind_Ok in H as (raw & Hraw & [= <-]).
  apply ok_or_Ok, checked_mul_Some in Hraw as [-> Hraw]. exists hi'. cbn [derived_price p_price].
  split; [lia|]. split; [done|]. split; [done|]. split.
  - destruct B5 as [->|B5]; [by exists hh|by apply coll_step_None].
  - replace (hi' - 1) with lo' by lia.
    destruct B4 as [[-> _]|(u & Hu & _)]; [by exists h1|by eapply coll_step_Some].
Qed.

Lemma debt_price_crossing e hi r :
  2 <= hi <= umax 256 -> debt_price lp pos px asset e hi = Ok (Some r) ->
  exists p, 1 <= p < hi /\ p_price r = (p + 1) * oracle_scale lp - 1 /\ p_price r < umax 256 /\
    healthy_at p /\ unhealthy_at (p + 1).
Proof.
  intros Hhi H. unfold debt_price in H. apply bind_Ok in H as (h1 & E1 & H).
  destruct (Z.ltb_spec h1 RAY); [done|]. apply bind_Ok in H as (hh & Eh & H).
  destruct (Z.leb_spec RAY hh); [done|]. apply bind_Ok in H as ([[lo' hi'] bst] & Eb & H).
  apply (bisect_ends _ _ _ 1 hi) in Eb as (B1 & B2 & B3 & B4 & B5);
    [|apply price_mid_halves|lia..|unfold umax in *; lia].
  destruct (Z.eqb_spec lo' 0); [done|]. apply bind_Ok in H as (raw & Hraw & [= <-]).
  apply ok_or_Ok in Hraw. destruct (checked_add 256 lo' 1) as [q|] eqn:Eq; [|done].
  apply checked_add_Some in Eq as [-> _]. apply checked_mul_Some in Hraw as [-> Hraw].
  pose proof (oracle_scale_pos lp). exists lo'. cbn [derived_price p_price].
  assert (wrapping_sub 256 ((lo' + 1) * oracle_scale lp) 1 = (lo' + 1) * oracle_scale lp - 1) as ->.
  { unfold wrapping_sub. apply Z.mod_small. unfold umax in Hraw. nia. }
  split; [lia|]. split; [done|]. split; [lia|]. split.
  - destruct B4 as [[-> _]|(u & Hu & _)]; [by exists h1|by eapply debt_step_Some].
  - replace (lo' + 1) with hi' by lia. destruct B5 as [->|B5]; [by exists hh|by apply debt_step_None].
Qed.

Lemma liquidation_price_parts r :
  (forall e, price_entry px asset = Some e -> u256 (p_price e)) ->
  liquidation_price lp pos px asset = Ok (Some r) ->
  exists p, 1 <= p /\ healthy_at p /\
    (p_price r = p * oracle_scale lp /\ p_price r <= umax 256 /\ unhealthy_at (p - 1) \/
     p_price r = (p + 1) * oracle_scale lp - 1 /\ p_price r < umax 256 /\ unhealthy_at (p + 1)).
Proof.
  intros Hpx H. unfold liquidation_price in H. apply bind_Ok in H as (held & _ & H).
  destruct held; [|done]. cbn [negb] in H. apply bind_Ok in H as (e & Ee & H). apply ok_or_Ok in Ee.
  specialize (Hpx e Ee) as [Hp0 Hp1].
  apply bind_Ok in H as (cur & Ec & H). apply ok_or_Ok in Ec. unfold checked_div in Ec.
  pose proof (oracle_scale_pos lp) as Hs. rewrite (proj2 (Z.eqb_neq _ _)) in Ec by lia.
  injection Ec as <-. destruct (Z.eqb_spec (p_price e / oracle_scale lp) 0); [done|].
  apply bind_Ok in H as (hc & _ & H). apply bind_Ok in H as (up & _ & H).
  apply bind_Ok in H as (hu & _ & H). apply bind_Ok in H as (hi & Hhi & H).
  assert (0 <= p_price e / oracle_scale lp <= umax 256).
  { split; [apply Z.div_pos; lia|]. etransitivity; [apply Z.div_le_upper_bound with (q := p_price e)|];
      nia. }
  apply bracket_range in Hhi; [|done]. destruct (hc <=? hu).
  - apply coll_price_crossing in H as (p & ? & ? & ? & ? & ?); [|done]. exists p. split; [lia|].
    split; [done|]. by left.
  - apply debt_price_crossing in H as (p & ? & ? & ? & ? & ?); [|done]. exists p. split; [lia|].
    split; [done|]. by right.
Qed.
End Crossing.

(** [health] at a price of [asset]. *)
Definition hf_when (lp : LiquidationParams) (pos : PositionRef) (px : PriceVector) (asset : AssetId)
    (raw : Z) (P : Z -> Prop) : Prop :=
  forall v h, set_price px asset raw = Ok v -> health_with lp pos v = Ok h -> P (h_hf h).

Lemma hf_when_at lp pos px asset raw h (P : Z -> Prop) :
  0 <= raw <= umax 256 -> hf_at_p lp pos px asset (raw / oracle_scale lp) = Ok h -> P h ->
  hf_when lp pos px asset raw P.
Proof.
  intros Hr Hh HP v k Hv Hk. rewrite <- (hf_floor _ _ _ _ _ _ Hr Hv), (health_hf _ _ _ _ Hk) in Hh.
  by injection Hh as <-.
Qed.

(** The liquidation price is the last healthy price, to one unit of the price: health at
    the price returned is at least one, and one unit further in one of the two directions it
    is below one. *)
Theorem liquidation_price_is_last_healthy lp pos px asset r :
  (forall e, price_entry px asset = Some e -> u256 (p_price e)) ->
  liquidation_price lp pos px asset = Ok (Some r) ->
  hf_when lp pos px asset (p_price r) (fun hf => RAY <= hf) /\
  (hf_when lp pos px asset (p_price r - 1) (fun hf => hf < RAY) \/
   hf_when lp pos px asset (p_price r + 1) (fun hf => hf < RAY)).
Proof.
  intros Hpx H. apply liquidation_price_parts in H as (p & Hp & (h & Hh & Hr) & Hc); [|done].
  pose proof (oracle_scale_pos lp) as Hs.
  destruct Hc as [(E & Hb & k & Hk & Hlt)|(E & Hb & k & Hk & Hlt)].
  - split; [|left].
    + eapply hf_when_at; [nia| |exact Hr]. by rewrite E, Z.div_mul by lia.
    + eapply hf_when_at; [nia| |exact Hlt].
      by rewrite E, (div_unique_pos _ _ (p - 1) (oracle_scale lp - 1)) by lia.
  - split; [|right].
    + eapply hf_when_at; [nia| |exact Hr].
      by rewrite E, (div_unique_pos _ _ p (oracle_scale lp - 1)) by lia.
    + eapply hf_when_at; [nia| |exact Hlt].
      rewrite E, Z.sub_add, Z.div_mul by lia. done.
Qed.

(** * The crossing in time *)

Lemma time_mid_halves l h : 0 <= l -> h <= umax 64 -> halves time_mid l h.
Proof.
  intros Hl Hh lo hi m H1 H2 Hgt [= <-]. unfold wrapping_add, wrapping_sub, umax in *.
  rewrite (Z.mod_small (hi - lo)) by lia.
  pose proof (div_rem_spec (hi - lo) 2 ltac:(lia)). apply Z.mod_small. lia.
Qed.

Section Time.
Context (lp : LiquidationParams) (pos : PositionRef) (px : PriceVector).

(** Health at an instant, prices fixed. *)
Definition above_at (t : Z) : Prop := exists w, hf_wad_at lp pos px t = Ok w /\ WAD <= w.
Definition below_at (t : Z) : Prop := exists w, hf_wad_at lp pos px t = Ok w /\ w < WAD.

Lemma time_step_Some t u : time_step lp pos px t = Ok (Some u) -> above_at t.
Proof.
  unfold time_step, HF_THRESHOLD_WAD. intros H. apply bind_Ok in H as (w & Hw & H).
  exists w. split; [done|]. destruct (Z.leb_spec WAD w); [done|discriminate H].
Qed.
Lemma time_step_None t : time_step lp pos px t = Ok None -> below_at t.
Proof.
  unfold time_step, HF_THRESHOLD_WAD. intros H. apply bind_Ok in H as (w & Hw & H).
  exists w. split; [done|]. destruct (Z.leb_spec WAD w); [discriminate H|done].
Qed.
End Time.

(** The instant returned is a crossing: health is below one at it and, unless it is the
    present, at least one a second before; it lies within ten years. [None] means there is no
    debt, or health is at least one now and at the end of the ten years. *)
Theorem time_to_cross_exact lp pos px r :
  0 <= pr_timestamp pos -> time_to_cross lp pos px = Ok r ->
  let now := pr_timestamp pos in
  match r with
  | Some t =>
      t = now /\ below_at lp pos px now \/
      now < t <= now + HORIZON /\ below_at lp pos px t /\ above_at lp pos px (t - 1)
  | None =>
      hf_wad_at lp pos px now = Ok (umax 256) \/
      above_at lp pos px now /\ above_at lp pos px (now + HORIZON)
  end.
Proof.
  intros Hnow H. cbv zeta. unfold time_to_cross in H. cbv zeta in H.
  apply bind_Ok in H as (s & Es & H).
  destruct (Z.eqb_spec s (umax 256)) as [->|]; [injection H as <-; by left|].
  unfold HF_THRESHOLD_WAD in H. destruct (Z.ltb_spec s WAD).
  { injection H as <-. left. split; [done|]. by exists s. }
  apply bind_Ok in H as (hi & Hhi & H). apply ok_or_Ok, checked_add_Some in Hhi as [-> Hhi].
  apply bind_Ok in H as (hh & Eh & H). destruct (Z.leb_spec WAD hh).
  { injection H as <-. right. split; [by exists s|by exists hh]. }
  apply bind_Ok in H as ([[lo' hi'] b'] & Eb & [= <-]).
  apply (bisect_ends _ _ _ (pr_timestamp pos) (pr_timestamp pos + HORIZON)) in Eb
    as (B1 & B2 & B3 & B4 & B5); [|by apply time_mid_halves|unfold HORIZON; simpl; lia..].
  right. split; [lia|]. split.
  - destruct B5 as [->|B5]; [by exists hh|by apply time_step_None].
  - replace (hi' - 1) with lo' by lia.
    destruct B4 as [[-> _]|(u & Hu & _)]; [by exists s|by eapply time_step_Some].
Qed.

(** [time_to_cross] returns whenever health can be evaluated: if the health factor is
    defined at every second of the ten years from now, so is the answer, within 64 halvings. *)
Lemma time_to_cross_returns lp pos px :
  0 <= pr_timestamp pos -> pr_timestamp pos + HORIZON <= umax 64 ->
  (forall t, pr_timestamp pos <= t <= pr_timestamp pos + HORIZON ->
     exists w, hf_wad_at lp pos px t = Ok w) ->
  exists r, time_to_cross lp pos px = Ok r.
Proof.
  intros Hnow Hmax Hall. unfold time_to_cross. cbv zeta.
  destruct (Hall (pr_timestamp pos)) as [s ->]; [unfold HORIZON; lia|].
  destruct (s =? umax 256); [eauto|]. destruct (s <? HF_THRESHOLD_WAD); [eauto|].
  rewrite checked_add_ok by done. cbn [overflow ok_or].
  destruct (Hall (pr_timestamp pos + HORIZON)) as [w ->]; [unfold HORIZON; lia|].
  destruct (HF_THRESHOLD_WAD <=? w); [eauto|].
  destruct (bisect_total time_mid (time_step lp pos px) 64 (pr_timestamp pos)
    (pr_timestamp pos + HORIZON) (time_mid_halves _ _ Hnow Hmax) (pr_timestamp pos)
    (pr_timestamp pos + HORIZON) None) as [[[lo hi] b] Hb]; [unfold HORIZON; lia..| | |].
  - intros; unfold time_mid; eauto.
  - intros t Ht. unfold time_step. destruct (Hall t) as [w' ->]; [lia|eauto].
  - rewrite Hb. eauto.
Qed.

(** * The bracket *)

Lemma bracket_stops lp pos px asset turns h hd :
  1 <= h -> 2 * h < umax 256 -> hf_at_p lp pos px asset (2 * h) = Ok hd -> RAY <= hd ->
  bracket lp pos px asset (S turns) false h = Ok (2 * h).
Proof.
  intros Hh Hmax Ed Hd. cbn [bracket].
  replace (Z.max (saturating_mul 256 h 2) 2) with (2 * h) by (unfold saturating_mul; lia).
  rewrite (proj2 (Z.eqb_neq _ _)) by lia. rewrite Ed. cbn [andb negb].
  by rewrite (proj2 (Z.ltb_ge _ _)) by done.
Qed.

(** A crossing beyond twice the current price of a debt is missed: the doubling loop
    stops at its first healthy price for a debt (it goes on past the unhealthy ones), so a
    position that is still healthy at twice the price gets [None] whatever happens above. *)
Theorem debt_price_beyond_double_missed lp pos px asset e h1 hc hu hd :
  let cur := p_price e / oracle_scale lp in
  holds_asset lp pos px asset = Ok true -> price_entry px asset = Some e ->
  1 <= cur -> 2 * cur < umax 256 ->
  hf_at_p lp pos px asset 1 = Ok h1 -> RAY <= h1 ->
  hf_at_p lp pos px asset cur = Ok hc -> hf_at_p lp pos px asset (cur + 1) = Ok hu -> hu < hc ->
  hf_at_p lp pos px asset (2 * cur) = Ok hd -> RAY <= hd ->
  liquidation_price lp pos px asset = Ok None.
Proof.
  intros cur Hh He Hcur Hmax E1 H1 Ec Eu Hlt Ed Hd. unfold liquidation_price.
  rewrite Hh. cbn [negb]. rewrite He. cbn [ok_or].
  pose proof (oracle_scale_pos lp) as Hs. unfold checked_div.
  rewrite (proj2 (Z.eqb_neq _ 0)) by lia. cbn [div_zero ok_or]. fold cur.
  rewrite (proj2 (Z.eqb_neq cur 0)) by lia. rewrite Ec, checked_add_ok by lia. cbn [overflow ok_or].
  rewrite Eu, (proj2 (Z.leb_gt _ _)) by done. rewrite (bracket_stops _ _ _ _ 95 _ hd) by done.
  unfold debt_price. rewrite E1, (proj2 (Z.ltb_ge _ _)) by done. rewrite Ed.
  by rewrite (proj2 (Z.leb_le _ _)).
Qed.

(** * A position *)

(** Two priced reserves with index one: slot 10 (asset 0, 80% threshold, 5% bonus) holds a
    thousand units of collateral, slot 11 (asset 1, 100% a year) [debt] units of debt. *)
Definition ex_lp : LiquidationParams :=
  mkParams 5000 950000000000000000 200000000000 8 TokenMath35 PositionBase V3.
Definition ex_reserve (asset rate : Z) : MarketRow :=
  mkRow asset 0 6 0 0 NO_HUB 1000
    ([RAY; RAY; 0; rate] ++ replicate 10 0 ++
     [7500 + Z.shiftl 8000 16 + Z.shiftl 10500 32 + Z.shiftl RESERVE_PRICED 64]).
Definition ex_pos (debt : Z) : PositionRef :=
  mkPosRef 0 (mkKey 1 1 7) (2 ^ 10 + 2 ^ 11)
    (replicate 10 0 ++ [1000000000; 0]) (replicate 11 0 ++ [debt]) EXTRA_ZERO
    (replicate 10 EXTRA_ZERO ++ [mkExtra 1 0 0 0; EXTRA_ZERO])
    (replicate 10 (mkRow 0 0 0 0 0 NO_HUB 0 (replicate 15 0)) ++
       [ex_reserve 0 0; ex_reserve 1 RAY]) 1000.
Definition ex_price (asset : Z) : Price := mkPrice asset RAY Canonical 1 1000.
Definition ex_px : PriceVector := [ex_price 0; ex_price 1].

Definition ex_crossing : Price := mkPrice 1 1600000009999999999999999999 (Derived [1]) 1 1000.

Lemma liquidation_price_is_last_healthy_witness :
  liquidation_price ex_lp (ex_pos 500000000) ex_px 1 = Ok (Some ex_crossing) /\
  hf_when ex_lp (ex_pos 500000000) ex_px 1 (p_price ex_crossing) (fun hf => RAY <= hf).
Proof.
  split; [vm_compute; reflexivity|].
  apply (liquidation_price_is_last_healthy ex_lp (ex_pos 500000000) ex_px 1 ex_crossing).
  - intros e [= <-]. vm_compute. split; discriminate.
  - vm_compute. reflexivity.
Defined.

Lemma time_to_cross_exact_witness :
  time_to_cross ex_lp (ex_pos 250000000) ex_px = Ok (Some 37757711) /\
  (37757711 = 1000 /\ below_at ex_lp (ex_pos 250000000) ex_px 1000 \/
   1000 < 37757711 <= 1000 + HORIZON /\ below_at ex_lp (ex_pos 250000000) ex_px 37757711 /\
   above_at ex_lp (ex_pos 250000000) ex_px (37757711 - 1)).
Proof.
  split; [vm_compute; reflexivity|].
  apply (time_to_cross_exact ex_lp (ex_pos 250000000) ex_px (Some 37757711));
    [vm_compute; discriminate|vm_compute; reflexivity].
Defined.

(** The debt crosses at 3.2 times its price, and is reported not to cross. *)
Lemma debt_price_beyond_double_missed_witness :
  healthy_at ex_lp (ex_pos 250000000) ex_px 1 320000000 /\
  unhealthy_at ex_lp (ex_pos 250000000) ex_px 1 320000001 /\
  liquidation_price ex_lp (ex_pos 250000000) ex_px 1 = Ok None.
Proof.
  split; [eexists; split; [vm_compute; reflexivity|vm_compute; discriminate]|].
  split; [eexists; split; [vm_compute; reflexivity|]; vm_compute; reflexivity|].
  eapply (debt_price_beyond_double_missed ex_lp (ex_pos 250000000) ex_px 1 (ex_price 1));
    try (vm_compute; reflexivity); vm_compute; discriminate.
Defined.
