(* ===== verification/AaveMono.v ===== *)
(** Monotonicity of the Aave V3 health factor: in the price of an asset that is only
    collateral or only debt, and of the account's sums in time. With it the price that
    [liquidation_price] finds is the threshold of the whole price axis, and [time_to_cross]
    returns whenever health can be evaluated at the end of its horizon. *)

From S2P Require Import Prelude Fixed Mask Types Columns Undo Store Candidate Engine Bisect.
From S2P Require Import Adapter AaveMath AaveHealth AaveSolve.
Local Open Scope Z_scope.

(** * Rounded quotients are monotone *)

Lemma half_up_antitone n d e : 0 <= n -> 0 < d <= e -> round_div HalfUp n e <= round_div HalfUp n d.
Proof.
  intros Hn Hd. pose proof (rounds_round_div HalfUp n d ltac:(lia)) as H1.
  pose proof (rounds_round_div HalfUp n e ltac:(lia)) as H2. cbn [rounds] in *.
  set (v := round_div HalfUp n d) in *. set (w := round_div HalfUp n e) in *.
  assert (0 <= v) by (apply round_div_nonneg; lia).
  destruct (Z.le_gt_cases w v) as [|Hgt]; [done|]. exfalso. nia.
Qed.

Lemma asset_unit_nonneg d u : asset_unit d = Ok u -> 0 <= u.
Proof.
  unfold asset_unit, checked_pow. intros H. apply ok_or_Ok in H.
  destruct (_ <=? _); [|done]. injection H as <-. apply Z.pow_nonneg. lia.
Qed.

(** * The terms of a slot *)

Lemma slot_terms_inv lp pos cat po slot o :
  slot_terms lp pos cat po slot = Ok o ->
  exists row, pr_markets pos !! slot = Some row /\
  let counted := bit_set (match pr_slot_extra pos !! slot with Some e => user_flags e | None => 0 end)
                   USING_AS_COLLATERAL && (0 <? cell (pr_supply pos) slot) in
  let borrowing := 0 <? cell (pr_debt pos) slot in
  match o with
  | None => counted = false /\ borrowing = false
  | Some t =>
      exists p unit li di, st_slot t = slot /\ counted || borrowing = true /\
        po (mr_asset row) = Ok p /\ asset_unit (mr_decimals row) = Ok unit /\
        normalized_income (reserve_of row) (mr_last_update row) (pr_timestamp pos) = Ok li /\
        normalized_debt_for (lp_version lp) (reserve_of row) (mr_last_update row)
          (pr_timestamp pos) = Ok di /\
        collateral_terms lp counted (cell (pr_supply pos) slot) li p unit
          (snd (fst (risk_params cat (reserve_of row)))) = Ok (st_collateral t) /\
        debt_terms lp borrowing (cell (pr_debt pos) slot) di p unit = Ok (st_debt t)
  end.
Proof.
  unfold slot_terms. intros H. apply bind_Ok in H as (row & Hr & H). apply ok_or_Ok in Hr.
  exists row. split; [done|]. cbv zeta in *.
  set (counted := bit_set _ _ && _) in *. set (borrowing := 0 <? cell (pr_debt pos) slot) in *.
  destruct (negb counted && negb borrowing) eqn:Enb.
  { injection H as <-. by destruct counted, borrowing. }
  destruct (_ || _ || _); [done|]. apply bind_Ok in H as (p & Hp & H).
  apply bind_Ok in H as (unit & Hu & H). apply bind_Ok in H as (li & Hli & H).
  apply bind_Ok in H as (di & Hdi & H).
  destruct (risk_params cat (reserve_of row)) as [[ltv lt] bonus] eqn:Erp.
  apply bind_Ok in H as (c & Hc & H). apply bind_Ok in H as (d & Hd & [= <-]).
  exists p, unit, li, di. cbn [st_slot st_collateral st_debt snd fst]. split_and!; try done.
  by destruct counted, borrowing.
Qed.

Lemma value_floor_Ok assets p unit v :
  0 <= unit -> value_floor assets p unit = Ok v -> 0 < unit /\ v = assets * p / unit.
Proof.
  unfold value_floor, checked_div. intros Hu H.
  apply bind_Ok in H as (m & [-> _]%ok_or_Ok%checked_mul_Some & H).
  destruct (Z.eqb_spec unit 0); [done|]. injection H as <-. split; [lia|done].
Qed.

Lemma supply_assets_u256 m s i v : supply_assets m s i = Ok v -> u256 v.
Proof. destruct m; intros H%fixed_Ok; by eapply mul_div_u256. Qed.
Lemma debt_assets_u256 m s i v : debt_assets m s i = Ok v -> u256 v.
Proof. destruct m; intros H%fixed_Ok; by eapply mul_div_u256. Qed.

(** The values of a slot at two prices. *)
Lemma collateral_terms_price lp b s li p1 p2 unit lt o1 o2 :
  0 <= unit -> p1 <= p2 ->
  collateral_terms lp b s li p1 unit lt = Ok o1 -> collateral_terms lp b s li p2 unit lt = Ok o2 ->
  match o1, o2 with
  | Some c1, Some c2 => b = true /\ co_lt c1 = co_lt c2 /\ 0 <= co_lt c1 /\ co_value c1 <= co_value c2
  | None, None => b = false
  | _, _ => False
  end.
Proof.
  unfold collateral_terms. intros Hu Hp H1 H2. destruct b; [|by simplify_eq].
  apply bind_Ok in H1 as (a & Ha & H1). apply bind_Ok in H2 as (a' & Ha' & H2).
  rewrite Ha in Ha'. injection Ha' as <-. apply supply_assets_u256 in Ha as [Ha _].
  apply bind_Ok in H1 as (v1 & V1 & [= <-]). apply bind_Ok in H2 as (v2 & V2 & [= <-]).
  cbn [co_lt co_value]. split; [done|]. split; [done|].
  split; [destruct (Z.ltb_spec 0 lt); lia|].
  apply value_floor_Ok in V1 as [? ->]; [|done]. apply value_floor_Ok in V2 as [_ ->]; [|done].
  apply Z.div_le_mono; [done|]. by apply Z.mul_le_mono_nonneg_l.
Qed.

Lemma debt_terms_price lp b s di p1 p2 unit o1 o2 :
  0 <= unit -> p1 <= p2 ->
  debt_terms lp b s di p1 unit = Ok o1 -> debt_terms lp b s di p2 unit = Ok o2 ->
  match o1, o2 with
  | Some d1, Some d2 => b = true /\ de_value d1 <= de_value d2
  | None, None => b = false
  | _, _ => False
  end.
Proof.
  unfold debt_terms. intros Hu Hp H1 H2. destruct b; [|by simplify_eq].
  apply bind_Ok in H1 as (a & Ha & H1). apply bind_Ok in H2 as (a' & Ha' & H2).
  rewrite Ha in Ha'. injection Ha' as <-. apply debt_assets_u256 in Ha as [Ha _].
  apply bind_Ok in H1 as (v1 & V1 & [= <-]). apply bind_Ok in H2 as (v2 & V2 & [= <-]).
  cbn [de_value]. split; [done|]. assert (a * p1 <= a * p2) by by apply Z.mul_le_mono_nonneg_l.
  case_bool_decide.
  - apply value_floor_Ok in V1 as [? ->]; [|done]. apply value_floor_Ok in V2 as [_ ->]; [|done].
    by apply Z.div_le_mono.
  - apply fixed_Ok, mul_div_exact in V1 as (? & -> & _); [|done].
    apply fixed_Ok, mul_div_exact in V2 as (_ & -> & _); [|done]. by apply round_div_mono.
Qed.

Lemma collateral_terms_nonneg lp b s li p unit lt c :
  0 <= unit -> 0 <= p -> collateral_terms lp b s li p unit lt = Ok (Some c) -> 0 <= co_value c.
Proof.
  unfold collateral_terms. intros Hu Hp H. destruct b; [|done].
  apply bind_Ok in H as (a & [Ha _]%supply_assets_u256 & H). apply bind_Ok in H as (v & V & [= <-]).
  apply value_floor_Ok in V as [? ->]; [|done]. apply Z.div_pos; [|done].
  by apply Z.mul_nonneg_nonneg.
Qed.

Lemma debt_terms_nonneg lp b s di p unit d :
  0 <= unit -> 0 <= p -> debt_terms lp b s di p unit = Ok (Some d) -> 0 <= de_value d.
Proof.
  unfold debt_terms. intros Hu Hp H. destruct b; [|done].
  apply bind_Ok in H as (a & [Ha _]%debt_assets_u256 & H). apply bind_Ok in H as (v & V & [= <-]).
  cbn [de_value]. case_bool_decide.
  - apply value_floor_Ok in V as [? ->]; [|done]. apply Z.div_pos; [|done].
    by apply Z.mul_nonneg_nonneg.
  - by apply fixed_Ok, mul_div_u256 in V as [? _].
Qed.

(** * Sides of a position *)

Definition counted (pos : PositionRef) (slot : nat) : bool :=
  bit_set (match pr_slot_extra pos !! slot with Some e => user_flags e | None => 0 end)
    USING_AS_COLLATERAL && (0 <? cell (pr_supply pos) slot).
Definition borrowing (pos : PositionRef) (slot : nat) : bool := 0 <? cell (pr_debt pos) slot.

(** No reserve of [asset] is used this way. *)
Definition unused (pos : PositionRef) (used : PositionRef -> nat -> bool) (asset : AssetId) : bool :=
  forallb (fun slot => match pr_markets pos !! slot with
                       | Some row => negb (mr_asset row =? asset) || negb (used pos slot)
                       | None => true
                       end) (seq 0 (length (pr_markets pos))).

Definition only_collateral (pos : PositionRef) (asset : AssetId) : Prop :=
  unused pos borrowing asset = true.
Definition only_debt (pos : PositionRef) (asset : AssetId) : Prop := unused pos counted asset = true.

Lemma unused_spec pos used asset slot row :
  unused pos used asset = true -> pr_markets pos !! slot = Some row -> mr_asset row = asset ->
  used pos slot = false.
Proof.
  unfold unused. rewrite forallb_forall. intros H Hr Ha. specialize (H slot).
  rewrite Hr, Ha, Z.eqb_refl in H. apply negb_true_iff, H, in_seq.
  apply lookup_lt_Some in Hr. lia.
Qed.

(** * Two evaluations side by side *)

(** A relation that sums keep. *)
Definition adds (R : Z -> Z -> Prop) : Prop :=
  R 0 0 /\ forall a b c d, R a b -> R c d -> R (a + c) (b + d).

Lemma adds_le : adds Z.le. Proof. split; intros; lia. Qed.
Lemma adds_eq : adds eq. Proof. split; intros; lia. Qed.

Section Rel.
Context (RW RD : Z -> Z -> Prop) (HW : adds RW) (HD : adds RD).

Definition rel_terms (t1 t2 : SlotTerms) : Prop :=
  0 <= coll_weight t1 /\ 0 <= coll_weight t2 /\ RW (coll_weight t1) (coll_weight t2) /\
  0 <= debt_value t1 /\ 0 <= debt_value t2 /\ RD (debt_value t1) (debt_value t2).

Definition rel_account (a1 a2 : Account) : Prop :=
  ac_version a1 = ac_version a2 /\ u256 (ac_weighted a1) /\ u256 (ac_weighted a2) /\
  RW (ac_weighted a1) (ac_weighted a2) /\ u256 (ac_debt_value a1) /\ u256 (ac_debt_value a2) /\
  RD (ac_debt_value a1) (ac_debt_value a2).

Lemma account_add_rel ts a1 a2 t1 t2 r1 r2 :
  rel_account a1 a2 -> rel_terms t1 t2 ->
  account_add ts a1 t1 = Ok r1 -> account_add ts a2 t2 = Ok r2 -> rel_account r1 r2.
Proof.
  intros (Hv & [? ?] & [? ?] & Hw & [? ?] & [? ?] & Hd) (? & ? & Tw & ? & ? & Td) E1 E2.
  pose proof (account_add_sums _ _ _ _ E1) as (F1 & _ & F2 & F3 & _ & F4 & F5).
  pose proof (account_add_sums _ _ _ _ E2) as (G1 & _ & G2 & G3 & _ & G4 & G5).
  unfold rel_account, uint_ok. rewrite F3, G3.
  split; [done|]. split; [lia|]. split; [lia|]. rewrite F1, G1, F2, G2 in *.
  split; [by apply HW|]. split; [lia|]. split; [lia|]. by apply HD.
Qed.

Lemma account_new_rel m s1 s2 od v : rel_account (account_new m s1 od v) (account_new m s2 od v).
Proof.
  destruct HW, HD. unfold rel_account, uint_ok, account_new; simpl.
  pose proof (umax_pos 256 ltac:(lia)). split_and!; (done || lia).
Qed.
End Rel.

(** ** Prices *)

Section Prices.
Context (lp : LiquidationParams) (pos : PositionRef) (asset : AssetId) (po1 po2 : AssetId -> PRes Z).
Context (Hpo : forall a p1 p2, po1 a = Ok p1 -> po2 a = Ok p2 ->
  0 <= p1 <= p2 /\ (a <> asset -> p1 = p2)).

Lemma slot_terms_price cat slot t1 t2 :
  slot_terms lp pos cat po1 slot = Ok t1 -> slot_terms lp pos cat po2 slot = Ok t2 ->
  match t1, t2 with
  | None, None => True
  | Some t1, Some t2 =>
      (exists row, pr_markets pos !! slot = Some row /\
       (mr_asset row <> asset -> coll_weight t1 = coll_weight t2 /\ debt_value t1 = debt_value t2)) /\
      0 <= coll_weight t1 <= coll_weight t2 /\ 0 <= debt_value t1 <= debt_value t2 /\
      (counted pos slot = false -> coll_weight t1 = 0 /\ coll_weight t2 = 0) /\
      (borrowing pos slot = false -> debt_value t1 = 0 /\ debt_value t2 = 0)
  | _, _ => False
  end.
Proof.
  intros H1 H2. apply slot_terms_inv in H1 as (row & Hrow & H1).
  apply slot_terms_inv in H2 as (row' & Hrow' & H2). rewrite Hrow in Hrow'. injection Hrow' as <-.
  cbv zeta in *. fold (counted pos slot) in H1, H2. fold (borrowing pos slot) in H1, H2.
  destruct t1 as [t1|], t2 as [t2|]; [|..|done].
  2: { destruct H2 as [E1 E2], H1 as (? & ? & ? & ? & ? & E & _). by rewrite E1, E2 in E. }
  2: { destruct H1 as [E1 E2], H2 as (? & ? & ? & ? & ? & E & _). by rewrite E1, E2 in E. }
  destruct H1 as (p1 & unit & li & di & _ & _ & P1 & Hu & Hli & Hdi & C1 & D1).
  destruct H2 as (p2 & unit' & li' & di' & _ & _ & P2 & Hu' & Hli' & Hdi' & C2 & D2).
  rewrite Hu in Hu'. injection Hu' as <-. rewrite Hli in Hli'. injection Hli' as <-.
  rewrite Hdi in Hdi'. injection Hdi' as <-. destruct (Hpo _ _ _ P1 P2) as [[Hp0 Hp] Hne].
  apply asset_unit_nonneg in Hu. split; [|split; [|split; [|split]]].
  - exists row. split; [done|]. intros Ha. rewrite <- (Hne Ha) in C2, D2.
    rewrite C1 in C2. rewrite D1 in D2. injection C2 as E1. injection D2 as E2.
    unfold coll_weight, debt_value. by rewrite E1, E2.
  - pose proof (collateral_terms_price _ _ _ _ _ _ _ _ _ _ Hu Hp C1 C2) as Hc.
    unfold coll_weight. destruct (st_collateral t1) as [c1|] eqn:Ec1, (st_collateral t2) as [c2|];
      try done. destruct Hc as (Eb & <- & Hlt & Hv).
    apply collateral_terms_nonneg in C1; [|done..].
    split; [by apply Z.mul_nonneg_nonneg|by apply Z.mul_le_mono_nonneg_r].
  - pose proof (debt_terms_price _ _ _ _ _ _ _ _ _ Hu Hp D1 D2) as Hc.
    unfold debt_value. destruct (st_debt t1) as [d1|] eqn:Ed1, (st_debt t2) as [d2|]; try done.
    destruct Hc as (Eb & Hv). split; [|done]. by apply debt_terms_nonneg in D1.
  - intros E. rewrite E in C1, C2. injection C1 as E1. injection C2 as E2.
    unfold coll_weight. by rewrite <- E1, <- E2.
  - intros E. rewrite E in D1, D2. injection D1 as E1. injection D2 as E2.
    unfold debt_value. by rewrite <- E1, <- E2.
Qed.

(** More of the price of a collateral, or of a debt, moves one side only. *)
Lemma collateral_price_rel s1 s2 a1 a2 :
  only_collateral pos asset ->
  account_at lp pos po1 s1 = Ok a1 -> account_at lp pos po2 s2 = Ok a2 ->
  rel_account Z.le eq a1 a2.
Proof.
  intros Ho. apply (account_at_rel (rel_account Z.le eq) (rel_terms Z.le eq)).
  - intros cat slot t1 t2 H1 H2. pose proof (slot_terms_price _ _ _ _ H1 H2) as H.
    destruct t1 as [t1|], t2 as [t2|]; try done.
    destruct H as ((row & Hr & Hne) & ? & ? & _ & Hb). unfold rel_terms.
    assert (debt_value t1 = debt_value t2) as Ed; [|split_and!; lia].
    destruct (decide (mr_asset row = asset)) as [E|E]; [|by apply Hne].
    destruct Hb as [-> ->]; [|done]. by eapply unused_spec.
  - intros *. apply account_add_rel; [apply adds_le|apply adds_eq].
  - apply account_new_rel; [apply adds_le|apply adds_eq].
Qed.

Lemma debt_price_rel s1 s2 a1 a2 :
  only_debt pos asset ->
  account_at lp pos po1 s1 = Ok a1 -> account_at lp pos po2 s2 = Ok a2 ->
  rel_account eq Z.le a1 a2.
Proof.
  intros Ho. apply (account_at_rel (rel_account eq Z.le) (rel_terms eq Z.le)).
  - intros cat slot t1 t2 H1 H2. pose proof (slot_terms_price _ _ _ _ H1 H2) as H.
    destruct t1 as [t1|], t2 as [t2|]; try done.
    destruct H as ((row & Hr & Hne) & ? & ? & Hb & _). unfold rel_terms.
    assert (coll_weight t1 = coll_weight t2) as Ed; [|split_and!; lia].
    destruct (decide (mr_asset row = asset)) as [E|E]; [|by apply Hne].
    destruct Hb as [-> ->]; [|done]. by eapply unused_spec.
  - intros *. apply account_add_rel; [apply adds_eq|apply adds_le].
  - apply account_new_rel; [apply adds_eq|apply adds_le].
Qed.
End Prices.

(** ** The health factor *)

Lemma account_at_version lp pos po s a : account_at lp pos po s = Ok a -> ac_version a = lp_version lp.
Proof.
  intros H. eapply (account_at_rel (fun a _ => ac_version a = lp_version lp) eq _ _ po po);
    [| | |exact H|exact H]; [| |done].
  - intros cat slot t1 t2 E1 E2. rewrite E1 in E2. injection E2 as <-. by destruct t1.
  - intros a1 a2 t1 t2 r1 r2 Hv _ E _. pose proof (account_add_sums _ _ _ _ E) as (_ & _ & _ & E' & _).
    by rewrite E'.
Qed.

Lemma hf_wad_V3 a h :
  ac_version a = V3 -> 0 <= ac_debt_value a -> account_hf_wad a = Ok h ->
  ac_debt_value a = 0 /\ h = umax 256 \/
  0 < ac_debt_value a /\ u256 (round_div HalfUp (ac_weighted a * WAD) (ac_debt_value a)) /\
  h = round_div HalfUp (ac_weighted a * WAD) (ac_debt_value a) / BPS.
Proof.
  intros Hv Hd H. unfold account_hf_wad in H. rewrite Hv, bool_decide_eq_false_2 in H by done.
  destruct (Z.eqb_spec (ac_debt_value a) 0) as [E|E]; [injection H as <-; by left|right].
  apply bind_Ok in H as (w & Hw & H). apply fixed_Ok, mul_div_exact in Hw as (? & -> & ?); [|done].
  split; [done|]. split; [done|]. by injection H as <-.
Qed.

Lemma hf_wad_le_max a h : ac_version a = V3 -> 0 <= ac_debt_value a -> account_hf_wad a = Ok h -> h <= umax 256.
Proof.
  intros Hv Hd H. apply hf_wad_V3 in H as [[_ ->]|(_ & [? ?] & ->)]; [done| |done..].
  apply Z.div_le_upper_bound; unfold BPS; lia.
Qed.

Lemma hf_wad_rise a1 a2 h1 h2 :
  rel_account Z.le eq a1 a2 -> ac_version a1 = V3 ->
  account_hf_wad a1 = Ok h1 -> account_hf_wad a2 = Ok h2 -> h1 <= h2.
Proof.
  intros (Hv & _ & _ & Hw & [? ?] & _ & Hd) V E1 E2. rewrite V in Hv.
  apply hf_wad_V3 in E1; [|done..]. apply hf_wad_V3 in E2; [|congruence..|lia].
  rewrite <- Hd in E2. destruct E1 as [[? ->]|(? & _ & ->)], E2 as [[? ->]|(? & _ & ->)]; [lia..|].
  apply Z.div_le_mono; [done|]. apply round_div_mono; [done|]. unfold WAD. lia.
Qed.

Lemma hf_wad_fall a1 a2 h1 h2 :
  rel_account eq Z.le a1 a2 -> ac_version a1 = V3 ->
  account_hf_wad a1 = Ok h1 -> account_hf_wad a2 = Ok h2 -> h2 <= h1.
Proof.
  intros (Hv & [? ?] & _ & Hw & [? ?] & _ & Hd) V E1 E2. rewrite V in Hv.
  pose proof (hf_wad_le_max a2 h2 (eq_sym Hv) ltac:(lia) E2).
  apply hf_wad_V3 in E1; [|done..]. apply hf_wad_V3 in E2; [|done|lia].
  rewrite <- Hw in E2. destruct E1 as [[? ->]|(? & _ & ->)], E2 as [[? ->]|(? & _ & ->)]; [lia..|].
  apply Z.div_le_mono; [done|]. apply half_up_antitone; [unfold WAD; lia|lia].
Qed.

Lemma hf_ray_mono h1 h2 r1 r2 :
  h1 <= h2 -> h2 <= umax 256 -> hf_wad_to_ray h1 = Ok r1 -> hf_wad_to_ray h2 = Ok r2 -> r1 <= r2.
Proof.
  unfold hf_wad_to_ray. intros Hle Hm H1 H2.
  destruct (Z.eqb_spec h1 (umax 256)), (Z.eqb_spec h2 (umax 256)).
  - by simplify_eq.
  - lia.
  - injection H2 as <-. by apply ok_or_Ok, checked_mul_Some in H1 as [-> ?].
  - apply ok_or_Ok, checked_mul_Some in H1 as [-> ?]. apply ok_or_Ok, checked_mul_Some in H2 as [-> ?].
    unfold WAD_RAY_RATIO. lia.
Qed.

Lemma price_p_set px asset r1 r2 v1 v2 scale a p1 p2 :
  prices_ok px -> 0 < scale -> 0 <= r1 <= r2 ->
  set_price px asset r1 = Ok v1 -> set_price px asset r2 = Ok v2 ->
  price_p v1 a scale = Ok p1 -> price_p v2 a scale = Ok p2 ->
  0 <= p1 <= p2 /\ (a <> asset -> p1 = p2).
Proof.
  intros Hpx Hs Hr H1 H2 P1 P2. unfold set_price in *.
  destruct (price_entry px asset) as [e|] eqn:Ee; [|done]. injection H1 as <-. injection H2 as <-.
  unfold price_entry in Ee. destruct (px !! Z.to_nat asset) as [e'|] eqn:El; [|done].
  destruct (Z.eqb_spec (p_asset e') asset) as [Ea|]; [|done]. injection Ee as <-.
  unfold price_p, price_entry, p_of in P1, P2. apply ok_or_Ok in P1. apply ok_or_Ok in P2.
  destruct (decide (Z.to_nat asset = Z.to_nat a)) as [E|E].
  - rewrite <- E, list_lookup_insert_eq in P1, P2 by by eapply lookup_lt_Some.
    cbn [p_asset p_price] in *. rewrite Ea in *. destruct (Z.eqb_spec asset a); [|done].
    cbn [p_price] in *. destruct (_ =? 0); [done|]. destruct (_ =? 0); [done|].
    injection P1 as <-. injection P2 as <-. split; [|done].
    split; [apply Z.div_pos; lia|apply Z.div_le_mono; lia].
  - rewrite list_lookup_insert_ne in P1, P2 by done. rewrite P1 in P2. injection P2 as <-.
    split; [|done]. destruct (px !! Z.to_nat a) as [e|] eqn:El'; [|done].
    destruct (p_asset e =? a); [|done]. destruct (_ =? 0); [done|]. injection P1 as <-.
    pose proof (Forall_lookup_1 _ _ _ _ Hpx El') as [? _]. split; [apply Z.div_pos; lia|done].
Qed.

Section Threshold.
Context (lp : LiquidationParams) (pos : PositionRef) (px : PriceVector) (asset : AssetId).
Context (Hver : lp_version lp = V3) (Hpx : prices_ok px).
Abbreviation hf := (hf_at_p lp pos px asset).

Lemma hf_at_p_inv p h :
  hf p = Ok h -> exists v a w s, set_price px asset (p * oracle_scale lp) = Ok v /\
    account_at lp pos (fun x => price_p v x (oracle_scale lp)) s = Ok a /\
    ac_version a = V3 /\ account_hf_wad a = Ok w /\ hf_wad_to_ray w = Ok h.
Proof.
  unfold hf_at_p, hf_wad_of. intros H.
  apply bind_Ok in H as (raw & [-> _]%ok_or_Ok%checked_mul_Some & H).
  apply bind_Ok in H as (v & Hv & H). apply bind_Ok in H as (w & Hw & H).
  apply bind_Ok in Hw as (m & _ & Hw). apply bind_Ok in Hw as (a & Ha & Hw).
  exists v, a, w, (sequencer_ok m (pr_timestamp pos)). split_and!; try done.
  by rewrite (account_at_version _ _ _ _ _ Ha).
Qed.

Lemma hf_at_p_rise p1 p2 h1 h2 :
  only_collateral pos asset -> 0 <= p1 <= p2 -> hf p1 = Ok h1 -> hf p2 = Ok h2 -> h1 <= h2.
Proof.
  intros Ho Hp (v1 & a1 & w1 & s1 & V1 & A1 & Y1 & W1 & R1)%hf_at_p_inv
    (v2 & a2 & w2 & s2 & V2 & A2 & Y2 & W2 & R2)%hf_at_p_inv.
  pose proof (oracle_scale_pos lp).
  assert (rel_account Z.le eq a1 a2) as Hr.
  { eapply collateral_price_rel; [|exact Ho|exact A1|exact A2].
    intros a q1 q2. apply (price_p_set px asset (p1 * oracle_scale lp) (p2 * oracle_scale lp)); try done.
    nia. }
  assert (0 <= ac_debt_value a2) by apply Hr.
  eapply hf_ray_mono; [| |exact R1|exact R2]; [by eapply hf_wad_rise|by eapply (hf_wad_le_max a2)].
Qed.

Lemma hf_at_p_fall p1 p2 h1 h2 :
  only_debt pos asset -> 0 <= p1 <= p2 -> hf p1 = Ok h1 -> hf p2 = Ok h2 -> h2 <= h1.
Proof.
  intros Ho Hp (v1 & a1 & w1 & s1 & V1 & A1 & Y1 & W1 & R1)%hf_at_p_inv
    (v2 & a2 & w2 & s2 & V2 & A2 & Y2 & W2 & R2)%hf_at_p_inv.
  pose proof (oracle_scale_pos lp).
  assert (rel_account eq Z.le a1 a2) as Hr.
  { eapply debt_price_rel; [|exact Ho|exact A1|exact A2].
    intros a q1 q2. apply (price_p_set px asset (p1 * oracle_scale lp) (p2 * oracle_scale lp)); try done.
    nia. }
  assert (0 <= ac_debt_value a1) by apply Hr.
  eapply hf_ray_mono; [| |exact R2|exact R1]; [by eapply hf_wad_fall|by eapply (hf_wad_le_max a1)].
Qed.
End Threshold.

(** Health at a raw price is health at its oracle integer. *)
Lemma hf_when_of lp pos px asset raw (P : Z -> Prop) :
  0 <= raw <= umax 256 ->
  (forall h, hf_at_p lp pos px asset (raw / oracle_scale lp) = Ok h -> P h) ->
  hf_when lp pos px asset raw P.
Proof.
  intros Hr HP v k Hv Hk. apply HP. by rewrite <- (hf_floor _ _ _ _ _ _ Hr Hv), (health_hf _ _ _ _ Hk).
Qed.

(** The price returned splits the price axis. *)
Lemma threshold_sides lp pos px asset r :
  lp_version lp = V3 -> prices_ok px ->
  liquidation_price lp pos px asset = Ok (Some r) ->
  (only_collateral pos asset -> forall raw, u256 raw ->
     hf_when lp pos px asset raw (fun hf => RAY <= hf <-> p_price r <= raw)) /\
  (only_debt pos asset -> forall raw, u256 raw ->
     hf_when lp pos px asset raw (fun hf => RAY <= hf <-> raw <= p_price r)).
Proof.
  intros Hver Hpx H. pose proof (oracle_scale_pos lp) as Hs.
  apply liquidation_price_parts in H as (p & Hp & (h & Hh & Hr) & Hc);
    [|by intros e; apply price_entry_u256].
  split; intros Ho raw [Hraw Hmax]; apply hf_when_of; try done; intros k Hk;
    pose proof (div_rem_spec raw (oracle_scale lp) Hs) as [Hq Hm]; set (q := raw / oracle_scale lp) in *;
    assert (0 <= q) by (apply Z.div_pos; lia).
  - pose proof (hf_at_p_rise lp pos px asset Hver Hpx) as Hmono.
    destruct Hc as [(E & _ & w & Hw & Hlt)|(_ & _ & w & Hw & Hlt)].
    2: { pose proof (Hmono p (p + 1) h w Ho ltac:(lia) Hh Hw). lia. }
    rewrite E. split; intros Hle.
    + destruct (Z.le_gt_cases p q); [nia|].
      pose proof (Hmono q (p - 1) k w Ho ltac:(lia) Hk Hw). lia.
    + pose proof (Hmono p q h k Ho ltac:(nia) Hh Hk). lia.
  - pose proof (hf_at_p_fall lp pos px asset Hver Hpx) as Hmono.
    destruct Hc as [(_ & _ & w & Hw & Hlt)|(E & _ & w & Hw & Hlt)].
    1: { pose proof (Hmono (p - 1) p w h Ho ltac:(lia) Hw Hh). lia. }
    rewrite E. split; intros Hle.
    + destruct (Z.le_gt_cases q p); [nia|].
      pose proof (Hmono (p + 1) q w k Ho ltac:(lia) Hw Hk). lia.
    + pose proof (Hmono q p k h Ho ltac:(nia) Hk Hh). lia.
Qed.

(** C6. On Aave V3, the liquidation price of an asset held on one side only is a threshold of
    the whole price axis: wherever health evaluates, it is at least one exactly at the prices
    on the safe side of the price returned (at or above it for a collateral, at or below it
    for a debt). *)
Theorem liquidation_price_threshold lp pos px asset r :
  lp_version lp = V3 -> prices_ok px ->
  liquidation_price lp pos px asset = Ok (Some r) ->
  (only_collateral pos asset -> forall raw, u256 raw ->
     hf_when lp pos px asset raw (fun hf => RAY <= hf <-> p_price r <= raw)) /\
  (only_debt pos asset -> forall raw, u256 raw ->
     hf_when lp pos px asset raw (fun hf => RAY <= hf <-> raw <= p_price r)).
Proof. apply threshold_sides. Qed.

Lemma liquidation_price_threshold_witness :
  only_debt (ex_pos 500000000) 1 /\
  (forall raw, u256 raw -> hf_when ex_lp (ex_pos 500000000) ex_px 1 raw
     (fun hf => RAY <= hf <-> raw <= p_price ex_crossing)).
Proof.
  split; [vm_compute; reflexivity|].
  refine (proj2 (liquidation_price_threshold ex_lp (ex_pos 500000000) ex_px 1 ex_crossing _ _ _) _).
  - reflexivity.
  - repeat constructor; vm_compute; discriminate.
  - vm_compute. reflexivity.
  - vm_compute. reflexivity.
Defined.
