(* ===== verification/AaveGrow.v ===== *)
(** Aave V3 balances in time: interest only grows an account's sums, and an account that can
    be evaluated at a later instant can be evaluated before it. [time_to_cross] therefore
    returns as soon as the end of its horizon can be evaluated. *)

From S2P Require Import Prelude Fixed Mask Types Columns Undo Store Candidate Engine Bisect.
From S2P Require Import Adapter AaveMath AaveHealth AaveSolve AaveMono.
Local Open Scope Z_scope.

(** [r1] returns no more than [r2], and returns whenever [r2] does. *)
Definition below {E} (r1 r2 : Result E Z) : Prop :=
  forall y2, r2 = Ok y2 -> exists y1, r1 = Ok y1 /\ 0 <= y1 <= y2 /\ y2 <= umax 256.

Lemma below_Ok {E} x y : 0 <= x <= y -> y <= umax 256 -> @below E (Ok x) (Ok y).
Proof. intros ? ? y2 [= <-]. eauto. Qed.

(** Sequencing: the continuation sees a smaller value. *)
Lemma below_bind {E} (c1 c2 : Result E Z) (k1 k2 : Z -> Result E Z) :
  below c1 c2 -> (forall x y, 0 <= x <= y -> y <= umax 256 -> c2 = Ok y -> below (k1 x) (k2 y)) ->
  below (let? x := c1 in k1 x) (let? x := c2 in k2 x).
Proof.
  intros Hc Hk z Hz. apply bind_Ok in Hz as (y & Hy & Hz).
  destruct (Hc y Hy) as (x & -> & Hx & Hm). by apply (Hk x y Hx Hm Hy z).
Qed.

Lemma below_mul_div a1 a2 b1 b2 d r :
  0 <= a1 <= a2 -> a2 <= umax 256 -> 0 <= b1 <= b2 -> b2 <= umax 256 -> u256 d ->
  below (mul_div a1 b1 d r) (mul_div a2 b2 d r).
Proof.
  intros Ha Ha2 Hb Hb2 Hd v Hv.
  apply mul_div_Ok in Hv as (Hnz & -> & Hle); [|unfold uint_ok; lia..|done].
  assert (0 < d) by (destruct Hd; lia).
  assert (round_div r (a1 * b1) d <= round_div r (a2 * b2) d) by (apply round_div_mono; nia).
  exists (round_div r (a1 * b1) d). split; [|split; [split; [apply round_div_nonneg; nia|done]|done]].
  apply mul_div_fits; unfold uint_ok; (lia || done).
Qed.

Lemma below_fixed r1 r2 : below r1 r2 -> below (fixed r1) (fixed r2).
Proof.
  intros H y Hy%fixed_Ok. destruct (H y Hy) as (x & Hx & ?). exists x. by rewrite fixed_Ok.
Qed.

Lemma below_add {E} (e : E) a1 a2 b1 b2 :
  0 <= a1 <= a2 -> 0 <= b1 <= b2 ->
  below (ok_or (checked_add 256 a1 b1) e) (ok_or (checked_add 256 a2 b2) e).
Proof.
  intros ? ? y Hy%ok_or_Ok. apply checked_add_Some in Hy as [-> ?].
  exists (a1 + b1). rewrite checked_add_ok by lia. split; [done|lia].
Qed.

Lemma below_mul {E} (e : E) a1 a2 b1 b2 :
  0 <= a1 <= a2 -> 0 <= b1 <= b2 ->
  below (ok_or (checked_mul 256 a1 b1) e) (ok_or (checked_mul 256 a2 b2) e).
Proof.
  intros ? ? y Hy%ok_or_Ok. apply checked_mul_Some in Hy as [-> ?].
  assert (a1 * b1 <= a2 * b2) by (apply Z.mul_le_mono_nonneg; lia).
  exists (a1 * b1). rewrite checked_mul_ok by lia. split; [done|nia].
Qed.

Lemma below_div {E} (e : E) a1 a2 d :
  0 <= a1 <= a2 -> a2 <= umax 256 -> 0 <= d ->
  below (ok_or (checked_div a1 d) e) (ok_or (checked_div a2 d) e).
Proof.
  unfold checked_div. intros ? ? Hd. destruct (Z.eqb_spec d 0); [done|]. cbn [ok_or]. apply below_Ok.
  - split; [apply Z.div_pos; lia|apply Z.div_le_mono; lia].
  - etransitivity; [apply Z.div_le_upper_bound with (q := a2)|]; nia.
Qed.

(** ** Interest *)

Lemma RAY_u256 : u256 RAY. Proof. vm_compute. split; discriminate. Qed.

Lemma linear_interest_grows rate d1 d2 :
  u256 rate -> 0 <= d1 <= d2 -> d2 <= umax 256 ->
  below (linear_interest rate d1) (linear_interest rate d2).
Proof.
  intros [? ?] ? ?. unfold linear_interest. pose proof RAY_u256 as [? ?]. apply below_bind.
  - apply below_fixed, below_mul_div; try lia. vm_compute. split; discriminate.
  - intros x y ? ? _. apply below_add; lia.
Qed.

Lemma linear_interest_min rate d i : linear_interest rate d = Ok i -> RAY <= i.
Proof.
  unfold linear_interest. intros E. apply bind_Ok in E as (g & [? _]%fixed_Ok%mul_div_u256 & E).
  apply ok_or_Ok, checked_add_Some in E as [-> _]. lia.
Qed.

Lemma overflow_bind {A B} (o : option A) (k : A -> option B) :
  overflow (let! x := o in k x) = (let? x := overflow o in overflow (k x)).
Proof. by destruct o. Qed.

Lemma below_res_ok (r1 r2 : PRes Z) :
  below r1 r2 -> below (overflow (res_ok r1)) (overflow (res_ok r2)).
Proof.
  intros H y Hy. destruct r2 as [y'|]; [|done]. injection Hy as ->.
  destruct (H y eq_refl) as (x & -> & ?). by exists x.
Qed.

Lemma ray_mul_grows a1 a2 b1 b2 :
  0 <= a1 <= a2 -> a2 <= umax 256 -> 0 <= b1 <= b2 -> b2 <= umax 256 ->
  below (ray_mul a1 b1) (ray_mul a2 b2).
Proof. intros. by apply below_fixed, below_mul_div. Qed.

Lemma compounded_interest_min rate d i : compounded_interest rate d = Ok i -> RAY <= i.
Proof.
  unfold compounded_interest. destruct (d =? 0); [intros [= <-]; lia|]. intros E.
  apply bind_Ok in E as (x & [? _]%fixed_Ok%mul_div_u256 & E). apply bind_Ok in E as (? & _ & E).
  apply bind_Ok in E as (inner & _ & E). apply ok_or_Ok in E.
  destruct (checked_add 256 RAY x) as [v|] eqn:Ev; [|done].
  destruct (ray_mul x inner) as [q|] eqn:Eq; [|done]. cbn [res_ok] in E.
  apply checked_add_Some in Ev as [-> _]. apply checked_add_Some in E as [-> _].
  apply fixed_Ok, mul_div_u256 in Eq as [? _]. lia.
Qed.

Lemma compounded_interest_grows rate d1 d2 :
  u256 rate -> 0 <= d1 <= d2 -> d2 <= umax 256 ->
  below (compounded_interest rate d1) (compounded_interest rate d2).
Proof.
  intros [? ?] ? ?. pose proof RAY_u256 as [? ?]. destruct (Z.eq_dec d1 0) as [->|Hnz].
  { intros y Hy. exists RAY. split; [done|]. split; [split; [done|]|].
    - by eapply compounded_interest_min.
    - unfold compounded_interest in Hy. destruct (d2 =? 0); [by injection Hy as <-|].
      apply bind_Ok in Hy as (? & _ & Hy). apply bind_Ok in Hy as (? & _ & Hy).
      apply bind_Ok in Hy as (? & _ & Hy). apply ok_or_Ok in Hy.
      repeat case_match; try done. by apply checked_add_Some in Hy as [-> ?]. }
  unfold compounded_interest. rewrite !(proj2 (Z.eqb_neq _ 0)) by lia. apply below_bind.
  { apply below_fixed, below_mul_div; try lia. vm_compute. split; discriminate. }
  intros x y ? ? _. apply below_bind; [by apply below_div|]. intros x6 y6 ? ? _.
  rewrite !overflow_bind. apply below_bind.
  - apply below_bind; [by apply below_div|]. intros h1 h2 ? ? _. rewrite !overflow_bind.
    apply below_bind; [by apply below_res_ok, ray_mul_grows|]. intros. by apply below_add.
  - intros i1 i2 ? ? _. rewrite !overflow_bind. apply below_bind; [apply below_add; lia|].
    intros v1 v2 ? ? _. rewrite !overflow_bind.
    apply below_bind; [by apply below_res_ok, ray_mul_grows|]. intros. by apply below_add.
Qed.

Lemma normalized_grows interest rate stored last t1 t2 :
  (forall d1 d2, 0 <= d1 <= d2 -> d2 <= umax 256 -> below (interest rate d1) (interest rate d2)) ->
  (forall d i, interest rate d = Ok i -> RAY <= i) ->
  u256 stored -> 0 <= last -> last <= t1 <= t2 -> t2 <= umax 64 ->
  below (normalized interest rate stored last t1) (normalized interest rate stored last t2).
Proof.
  intros Hi Hmin [? ?] Hl Ht Hm. assert (umax 64 <= umax 256) by (apply umax_mono; lia).
  unfold normalized. rewrite !(proj2 (Z.ltb_ge _ _)) by lia.
  assert (forall t, last <= t <= umax 64 -> wrapping_sub 64 t last = t - last) as Hw
    by (intros t ?; unfold wrapping_sub; apply Z.mod_small; unfold umax in *; lia).
  rewrite !Hw by lia. destruct (Z.eqb_spec t1 last) as [->|].
  - destruct (t2 =? last); [by apply below_Ok|].
    intros y Hy. apply bind_Ok in Hy as (i & Hmi%Hmin & Hy). unfold ray_mul in Hy.
    apply fixed_Ok, mul_div_exact in Hy as (_ & -> & [? ?]); [|by destruct RAY_u256].
    exists stored. split; [done|]. split; [|done]. split; [done|].
    pose proof (round_div_mono HalfUp (RAY * stored) (i * stored) RAY ltac:(done) ltac:(nia)).
    etransitivity; [|done]. pose proof (round_div_bounds HalfUp (RAY * stored) RAY ltac:(done)) as [Hb _].
    replace (RAY * stored / RAY) with stored in Hb; [done|]. by rewrite Z.mul_comm, Z.div_mul.
  - rewrite (proj2 (Z.eqb_neq t2 last)) by lia. apply below_bind; [apply Hi; lia|].
    intros. by apply ray_mul_grows.
Qed.

Lemma pod_u256 cells o n : 0 <= n <= 32 -> u256 (pod cells o n).
Proof.
  intros Hn. unfold pod, uint_ok. pose proof (Z.mod_pos_bound
    (Z.shiftr (default 0 (cells !! Z.to_nat (o / 16))) (8 * (o mod 16))) (2 ^ (8 * n))
    ltac:(apply Z.pow_pos_nonneg; lia)) as Hb.
  pose proof (umax_mono (8 * n) 256 ltac:(lia)). unfold umax in *. lia.
Qed.

(** ** The terms of a slot *)

Definition coll_below (o1 o2 : option Collateral) : Prop :=
  match o1, o2 with
  | Some c1, Some c2 => co_lt c1 = co_lt c2 /\ 0 <= co_lt c1 /\ 0 <= co_value c1 <= co_value c2
  | None, None => True
  | _, _ => False
  end.
Definition debt_below (o1 o2 : option Debt) : Prop :=
  match o1, o2 with
  | Some d1, Some d2 => 0 <= de_value d1 <= de_value d2
  | None, None => True
  | _, _ => False
  end.
Definition terms_below (o1 o2 : option SlotTerms) : Prop :=
  match o1, o2 with
  | Some t1, Some t2 => st_slot t1 = st_slot t2 /\ coll_below (st_collateral t1) (st_collateral t2) /\
      debt_below (st_debt t1) (st_debt t2)
  | None, None => True
  | _, _ => False
  end.

Lemma supply_assets_grows m s i1 i2 :
  u256 s -> 0 <= i1 <= i2 -> i2 <= umax 256 -> below (supply_assets m s i1) (supply_assets m s i2).
Proof. intros [? ?] ? ?. destruct m; by apply below_fixed, below_mul_div. Qed.
Lemma debt_assets_grows m s i1 i2 :
  u256 s -> 0 <= i1 <= i2 -> i2 <= umax 256 -> below (debt_assets m s i1) (debt_assets m s i2).
Proof. intros [? ?] ? ?. destruct m; by apply below_fixed, below_mul_div. Qed.
Lemma value_floor_grows a1 a2 p unit :
  0 <= a1 <= a2 -> 0 <= p -> 0 <= unit -> below (value_floor a1 p unit) (value_floor a2 p unit).
Proof.
  intros. unfold value_floor. apply below_bind; [apply below_mul; lia|].
  intros. apply below_div; lia.
Qed.

Lemma collateral_terms_grows lp b s i1 i2 p unit lt o2 :
  u256 s -> 0 <= i1 <= i2 -> i2 <= umax 256 -> 0 <= p -> 0 <= unit ->
  collateral_terms lp b s i2 p unit lt = Ok o2 ->
  exists o1, collateral_terms lp b s i1 p unit lt = Ok o1 /\ coll_below o1 o2.
Proof.
  intros Hs Hi Hi2 Hp Hu H. unfold collateral_terms in *.
  destruct b; [|injection H as <-; by exists None].
  apply bind_Ok in H as (a2 & Ha2 & H). apply bind_Ok in H as (v2 & Hv2 & [= <-]).
  destruct (supply_assets_grows _ _ _ _ Hs Hi Hi2 _ Ha2) as (a1 & -> & Ha & _).
  destruct (value_floor_grows a1 a2 p unit Ha Hp Hu _ Hv2) as (v1 & -> & Hv & _).
  eexists. split; [done|]. simpl. split; [done|]. split; [destruct (Z.ltb_spec 0 lt); lia|done].
Qed.

Lemma debt_terms_grows lp b s i1 i2 p unit o2 :
  u256 s -> 0 <= i1 <= i2 -> i2 <= umax 256 -> u256 p -> u256 unit ->
  debt_terms lp b s i2 p unit = Ok o2 ->
  exists o1, debt_terms lp b s i1 p unit = Ok o1 /\ debt_below o1 o2.
Proof.
  intros Hs Hi Hi2 [Hp Hp2] [Hu Hu2] H. unfold debt_terms in *.
  destruct b; [|injection H as <-; by exists None].
  apply bind_Ok in H as (a2 & Ha2 & H). apply bind_Ok in H as (v2 & Hv2 & [= <-]).
  destruct (debt_assets_grows _ _ _ _ Hs Hi Hi2 _ Ha2) as (a1 & -> & Ha & ?).
  assert (below (if bool_decide (lp_version lp = V2) then value_floor a1 p unit else mul_div_ceil a1 p unit)
    (if bool_decide (lp_version lp = V2) then value_floor a2 p unit else mul_div_ceil a2 p unit)) as Hb.
  { case_bool_decide; [by apply value_floor_grows|by apply below_fixed, below_mul_div]. }
  destruct (Hb _ Hv2) as (v1 & -> & Hv & _). eexists. split; [done|]. done.
Qed.

(** A position whose cells are machine words and whose rows are not from the future. *)
Record timely (pos : PositionRef) : Prop := {
  tm_supply : forall slot, u256 (cell (pr_supply pos) slot);
  tm_debt : forall slot, u256 (cell (pr_debt pos) slot);
  tm_rows : Forall (fun row => 0 <= mr_last_update row <= pr_timestamp pos) (pr_markets pos) }.

Section Grow.
Context (lp : LiquidationParams) (pos : PositionRef) (po : AssetId -> PRes Z) (t1 t2 : Z).
Context (Hver : lp_version lp = V3) (Htm : timely pos).
Context (Hpo : forall a p, po a = Ok p -> u256 p).
Context (Ht : pr_timestamp pos <= t1 <= t2) (Hmax : t2 <= umax 64).

Lemma slot_terms_grows cat slot o2 :
  slot_terms lp (at_time pos t2) cat po slot = Ok o2 ->
  exists o1, slot_terms lp (at_time pos t1) cat po slot = Ok o1 /\ terms_below o1 o2.
Proof.
  destruct Htm as [Hsup Hdeb Hrows].
  unfold slot_terms. cbn [at_time pr_markets pr_supply pr_debt pr_slot_extra pr_key pr_timestamp].
  intros H. apply bind_Ok in H as (row & Hrow & H). rewrite Hrow. apply ok_or_Ok in Hrow.
  destruct (Forall_lookup_1 _ _ _ _ Hrows Hrow) as [Hl0 Hl]. cbv zeta in *.
  destruct (negb _ && negb _); [injection H as <-; by exists None|].
  destruct (_ || _ || _); [done|]. apply bind_Ok in H as (p & Hp & H). rewrite Hp.
  apply Hpo in Hp. apply bind_Ok in H as (unit & Hu & H). rewrite Hu.
  assert (u256 unit) as Hunit.
  { split; [by eapply asset_unit_nonneg|]. unfold asset_unit, checked_pow in Hu. apply ok_or_Ok in Hu.
    destruct (Z.leb_spec (10 ^ mr_decimals row) (umax 256)); [by injection Hu as <-|done]. }
  apply bind_Ok in H as (li2 & Hli & H). apply bind_Ok in H as (di2 & Hdi & H).
  destruct (normalized_grows linear_interest (rs_liquidity_rate (reserve_of row))
    (rs_liquidity_index (reserve_of row)) (mr_last_update row) t1 t2) with (y2 := li2)
    as (li1 & E1 & Hi & ?); [intros; apply linear_interest_grows; try done; by apply pod_u256|
      apply linear_interest_min|by apply pod_u256|lia..|done|].
  unfold normalized_income at 1. rewrite E1. unfold normalized_debt_for in *. rewrite Hver in *.
  destruct (normalized_grows compounded_interest (rs_variable_borrow_rate (reserve_of row))
    (rs_variable_borrow_index (reserve_of row)) (mr_last_update row) t1 t2) with (y2 := di2)
    as (di1 & E2 & Hi' & ?); [intros; apply compounded_interest_grows; try done; by apply pod_u256|
      apply compounded_interest_min|by apply pod_u256|lia..|done|].
  rewrite bool_decide_eq_true_2 by done. unfold normalized_debt at 1. rewrite E2.
  destruct (risk_params cat (reserve_of row)) as [[ltv lt] bonus].
  apply bind_Ok in H as (c2 & Hc & H). apply bind_Ok in H as (d2 & Hd & [= <-]).
  apply (collateral_terms_grows _ _ _ li1) in Hc as (c1 & -> & Hcb); [|done..|by destruct Hp|by destruct Hunit].
  apply (debt_terms_grows _ _ _ di1) in Hd as (d1 & -> & Hdb); [|done..].
  eexists. split; [done|]. simpl. done.
Qed.

(** The account of the earlier instant: no sum is larger. *)
Definition account_below (a1 a2 : Account) : Prop :=
  ac_market a1 = ac_market a2 /\ ac_sensitivity a1 = ac_sensitivity a2 /\
  ac_version a1 = ac_version a2 /\
  0 <= ac_weighted a1 <= ac_weighted a2 /\
  0 <= ac_collateral_value a1 <= ac_collateral_value a2 /\
  0 <= ac_lt_collateral a1 <= ac_lt_collateral a2 /\
  0 <= ac_debt_value a1 <= ac_debt_value a2.

Lemma add_collateral_grows a1 a2 x1 x2 c1 c2 r2 :
  account_below a1 a2 -> coll_below (Some c1) (Some c2) ->
  add_collateral a2 x2 t2 c2 = Ok r2 ->
  exists r1, add_collateral a1 x1 t1 c1 = Ok r1 /\ account_below r1 r2.
Proof.
  intros (M & S & V & Hw & Hc & Hl & Hd) (El & Hlt & Hv) H. unfold add_collateral in *.
  apply bind_Ok in H as (cv2 & Hcv & H). apply bind_Ok in H as (w2 & Hw2 & H).
  apply bind_Ok in H as (wt2 & Hwt & H). apply bind_Ok in H as (lc2 & Hlc & [= <-]).
  destruct (below_add (PFixed Overflow) _ _ _ _ Hc Hv _ Hcv) as (cv1 & Ecv & Hcv' & _).
  destruct (below_mul (PFixed Overflow) (co_value c1) (co_value c2) (co_lt c1) (co_lt c2)
    Hv ltac:(lia) _ Hw2) as (w1 & Ew & Hw1 & _).
  destruct (below_add (PFixed Overflow) _ _ _ _ Hw Hw1 _ Hwt) as (wt1 & Ewt & Hwt1 & _).
  unfold overflow. rewrite Ecv, Ew, Ewt, El.
  assert (exists lc1, (if co_lt c2 =? 0 then Ok (ac_lt_collateral a1)
    else ok_or (checked_add 256 (ac_lt_collateral a1) (co_value c1)) (PFixed Overflow)) = Ok lc1 /\
    0 <= lc1 <= lc2) as (lc1 & -> & ?).
  { destruct (co_lt c2 =? 0); [injection Hlc as <-; eauto|].
    destruct (below_add (PFixed Overflow) _ _ _ _ Hl Hv _ Hlc) as (lc1 & ? & ? & _). eauto. }
  eexists. split; [done|]. unfold account_below. simpl. done.
Qed.

Lemma account_add_grows a1 a2 x1 x2 r2 :
  account_below a1 a2 -> terms_below (Some x1) (Some x2) ->
  account_add t2 a2 x2 = Ok r2 -> exists r1, account_add t1 a1 x1 = Ok r1 /\ account_below r1 r2.
Proof.
  intros Ha (Es & Hc & Hd) H. unfold account_add in *.
  apply bind_Ok in H as (b2 & Hb & H).
  assert (exists b1, match st_collateral x1 with Some c => add_collateral a1 x1 t1 c | None => Ok a1 end
    = Ok b1 /\ account_below b1 b2) as (b1 & -> & Hb').
  { destruct (st_collateral x1), (st_collateral x2); try done; [by eapply add_collateral_grows|].
    injection Hb as <-. eauto. }
  apply bind_Ok in H as (e2 & He & H).
  assert (exists e1, match st_debt x1 with Some d => add_debt b1 x1 t1 d | None => Ok b1 end
    = Ok e1 /\ account_below e1 e2) as (e1 & -> & He').
  { destruct (st_debt x1) as [d1|], (st_debt x2) as [d2|]; try done; [|injection He as <-; eauto].
    destruct Hb' as (M & S & V & Hw & Hcv & Hl & Hdv). unfold add_debt in *.
    apply bind_Ok in He as (dv2 & Hdv2 & [= <-]).
    destruct (below_add (PFixed Overflow) _ _ _ _ Hdv Hd _ Hdv2) as (dv1 & Edv & Hdv1 & _).
    unfold overflow. rewrite Edv. eexists. split; [done|]. unfold account_below. simpl. done. }
  destruct He' as (M & S & V & Hrest). apply bind_Ok in H as (s & Hs & [= <-]).
  rewrite S, Es, M, Hs. eexists. split; [done|]. unfold account_below. simpl. done.
Qed.

Lemma walk_slots_grows cat : forall slots a1 a2 r2,
  account_below a1 a2 -> walk_slots lp (at_time pos t2) cat po (account_add t2) a2 slots = Ok r2 ->
  exists r1, walk_slots lp (at_time pos t1) cat po (account_add t1) a1 slots = Ok r1 /\ account_below r1 r2.
Proof.
  induction slots as [|slot slots IH]; intros a1 a2 r2 Ha H; cbn [walk_slots] in *.
  { injection H as <-. eauto. }
  destruct (_ <? _)%nat; [by eapply IH|]. apply bind_Ok in H as (o2 & Ho & H).
  destruct (slot_terms_grows cat slot o2 Ho) as (o1 & -> & Hb).
  destruct o1 as [x1|], o2 as [x2|]; try done; [|by eapply IH].
  apply bind_Ok in H as (b2 & Hb2 & H).
  destruct (account_add_grows _ _ _ _ _ Ha Hb Hb2) as (b1 & -> & Hbb). by eapply IH.
Qed.

(** Interest only grows an account, and an account that evaluates later evaluates earlier. *)
Lemma account_grows s1 s2 a2 :
  account_at lp (at_time pos t2) po s2 = Ok a2 ->
  exists a1, account_at lp (at_time pos t1) po s1 = Ok a1 /\ account_below a1 a2.
Proof.
  unfold account_at, walk. cbn [at_time pr_markets pr_extra pr_key pr_config pr_timestamp].
  destruct (_ =? _)%nat; [done|]. destruct (negb _); [done|]. intros H.
  apply bind_Ok in H as (cat & -> & H). eapply walk_slots_grows; [|exact H].
  unfold account_below, account_new. simpl. split_and!; (done || lia).
Qed.
End Grow.

Lemma price_p_u256 px a scale p : prices_ok px -> 0 < scale -> price_p px a scale = Ok p -> u256 p.
Proof.
  intros Hpx Hs H. unfold price_p, price_entry, p_of in H. apply ok_or_Ok in H.
  destruct (px !! Z.to_nat a) as [e|] eqn:El; [|done]. destruct (p_asset e =? a); [|done].
  destruct (_ =? 0); [done|]. injection H as <-.
  pose proof (Forall_lookup_1 _ _ _ _ Hpx El) as [H0 H1].
  split; [apply Z.div_pos; lia|].
  etransitivity; [apply Z.div_le_upper_bound with (q := p_price e)|]; nia.
Qed.

Lemma hf_wad_evaluates a m :
  ac_version a = V3 -> u256 (ac_weighted a) -> u256 (ac_debt_value a) -> ac_weighted a <= m ->
  m * WAD < umax 256 -> exists w, account_hf_wad a = Ok w.
Proof.
  intros V Hw Hd Hle Hm. unfold account_hf_wad. rewrite V, bool_decide_eq_false_2 by done.
  destruct (Z.eqb_spec (ac_debt_value a) 0); [eauto|]. unfold wad_div.
  assert (0 < ac_debt_value a) by (destruct Hd; lia).
  rewrite mul_div_fits; try done; [simpl; eauto|].
  - pose proof (round_div_bounds HalfUp (ac_weighted a * WAD) (ac_debt_value a) ltac:(done)).
    assert (ac_weighted a * WAD / ac_debt_value a <= ac_weighted a * WAD).
    { apply Z.div_le_upper_bound; [done|]. destruct Hw. unfold WAD in *. nia. }
    unfold WAD in *. lia.
Qed.

(** C25. [time_to_cross] answers, and answers right. For a position of a version-3 pool whose
    shares fit their width and whose rows are not stamped after now ([timely]), with prices that
    fit theirs, suppose the account can be evaluated
    at the end of the ten years, with a weighted collateral that the health factor can scale
    without overflow. Then the health factor can be evaluated at every second from now to then
    (interest only grows the sums), the bisection ends with an answer, and the answer is the
    crossing: an instant within the ten years at which health is below one, now or at least
    one a second before; or none, when there is no debt or health is at least one now and at
    the end. *)
Theorem time_to_cross_total lp pos px a :
  lp_version lp = V3 -> timely pos -> prices_ok px -> 0 <= pr_timestamp pos ->
  pr_timestamp pos + HORIZON <= umax 64 -> (exists m, pool_meta pos = Ok m) ->
  account_at lp (at_time pos (pr_timestamp pos + HORIZON))
    (fun x => price_p px x (oracle_scale lp)) true = Ok a ->
  ac_weighted a * WAD < umax 256 -> ac_debt_value a <= umax 256 ->
  let now := pr_timestamp pos in
  (forall t, now <= t <= now + HORIZON -> exists w, hf_wad_at lp pos px t = Ok w) /\
  exists r, time_to_cross lp pos px = Ok r /\
    match r with
    | Some t =>
        t = now /\ below_at lp pos px now \/
        now < t <= now + HORIZON /\ below_at lp pos px t /\ above_at lp pos px (t - 1)
    | None =>
        hf_wad_at lp pos px now = Ok (umax 256) \/
        above_at lp pos px now /\ above_at lp pos px (now + HORIZON)
    end.
Proof.
  intros Hver Htm Hpx Hnow Hmax [m Hm] Ha Hw Hd now.
  assert (forall t, now <= t <= now + HORIZON -> exists w, hf_wad_at lp pos px t = Ok w) as Hev.
  { intros t Ht. unfold hf_wad_at, hf_wad_of.
    assert (pool_meta (at_time pos t) = Ok m) as -> by done.
    destruct (account_grows lp pos (fun x => price_p px x (oracle_scale lp)) t
      (pr_timestamp pos + HORIZON) Hver Htm) with (s1 := sequencer_ok m t) (s2 := true) (a2 := a)
      as (a1 & E & Hb); [|lia|lia|done|].
    { intros x p. apply price_p_u256; [done|apply oracle_scale_pos]. }
    cbn [at_time pr_timestamp] in *. rewrite E. destruct Hb as (_ & _ & Ev & Hw1 & _ & _ & Hd1).
    assert (ac_version a = V3) as Hva by by rewrite (account_at_version _ _ _ _ _ Ha).
    apply (hf_wad_evaluates _ (ac_weighted a)); unfold uint_ok; try lia; [congruence|].
    unfold WAD in *. lia. }
  split; [done|]. destruct (time_to_cross_returns lp pos px Hnow Hmax Hev) as [r Hr].
  exists r. split; [done|]. exact (time_to_cross_exact lp pos px r Hnow Hr).
Qed.

(** The account of the example at the end of the horizon. *)
Definition ex_horizon : Account :=
  match account_at ex_lp (at_time (ex_pos 250000000) (1000 + HORIZON))
          (fun x => price_p ex_px x (oracle_scale ex_lp)) true with
  | Ok a => a
  | Err _ => account_new 0 false 0 V3
  end.

Lemma time_to_cross_total_witness :
  (exists w, hf_wad_at ex_lp (ex_pos 250000000) ex_px 5000 = Ok w) /\
  time_to_cross ex_lp (ex_pos 250000000) ex_px = Ok (Some 37757711) /\
  below_at ex_lp (ex_pos 250000000) ex_px 37757711.
Proof.
  assert (time_to_cross ex_lp (ex_pos 250000000) ex_px = Ok (Some 37757711)) as E by (vm_compute; reflexivity).
  destruct (time_to_cross_total ex_lp (ex_pos 250000000) ex_px ex_horizon) as [Hev (r & Hr & Hx)].
  - reflexivity.
  - constructor.
    + intros slot. do 12 (destruct slot as [|slot]; [vm_compute; split; discriminate|]).
      vm_compute. split; discriminate.
    + intros slot. do 12 (destruct slot as [|slot]; [vm_compute; split; discriminate|]).
      vm_compute. split; discriminate.
    + repeat constructor; vm_compute; discriminate.
  - repeat constructor; vm_compute; discriminate.
  - vm_compute. discriminate.
  - vm_compute. discriminate.
  - exists (mkMeta 0 0 0 0 0 0 0). vm_compute. reflexivity.
  - vm_compute. reflexivity.
  - vm_compute. reflexivity.
  - vm_compute. discriminate.
  - split; [apply Hev; vm_compute; split; discriminate|]. split; [exact E|].
    rewrite E in Hr. injection Hr as <-. destruct Hx as [[Hx _]|(_ & Hx & _)]; [discriminate Hx|exact Hx].
Defined.
