(* ===== verification/AaveQuote.v ===== *)
(** Aave V3 quotes ([crates/liq-adapters/aave-v3/src/quote.rs]): the close factor, the
    collateral a repayment takes, the rule against leaving dust and the bisection under it, and
    the options of a liquidatable position.

    [SmallVec] loops that [continue] or fail are folds over the result type; the terms are the
    walk's, in slot order. *)

From Stdlib Require Import Sorted.
From S2P Require Import Prelude Fixed Mask Types Columns Undo Store Flash Bonus Candidate Engine.
From S2P Require Import Bisect Adapter AaveMath AaveHealth AaveSolve AaveMono AaveGrow.
Local Open Scope Z_scope.

Record AmountsIn := mkAmountsIn {
  ai_coll : SlotTerms; ai_debt : SlotTerms; ai_total_debt_base : Z; ai_hf_wad : Z;
  ai_bonus_bps : Z; ai_debt_to_cover : Z; ai_close_factor_bps : Z; ai_close_hf : Z;
  ai_min_base : Z; ai_version : AaveVersion; ai_scope : CloseFactorScope }.

Record Amounts := mkAmounts { am_repay : Z; am_seize : Z; am_whole : bool }.

Definition ACCRUAL_WINDOW_SECS : Z := 3600.

Definition max_liquidatable_debt (p : AmountsIn) : PRes Z :=
  match st_collateral (ai_coll p), st_debt (ai_debt p) with
  | Some c, Some d =>
      if bool_decide (ai_scope p = ReserveDebt) then
        if ai_close_hf p <? ai_hf_wad p then percent_mul (de_assets d) (ai_close_factor_bps p)
        else Ok (de_assets d)
      else if (ai_min_base p <=? co_value c) && (ai_min_base p <=? de_value d) &&
              (ai_close_hf p <? ai_hf_wad p) then
        let? cap_base := percent_mul (ai_total_debt_base p) (ai_close_factor_bps p) in
        if cap_base <? de_value d then
          let? unit := asset_unit (mr_decimals (st_row (ai_debt p))) in
          let? m := overflow (checked_mul 256 cap_base unit) in
          div_zero (checked_div m (st_p (ai_debt p)))
        else Ok (de_assets d)
      else Ok (de_assets d)
  | _, _ => Err Internal
  end.

(** [a * b * c], checked, over [d * e], checked. *)
Definition ratio (a b c d e : Z) : PRes Z :=
  let? n := overflow (let! v := checked_mul 256 a b in checked_mul 256 v c) in
  let? m := overflow (checked_mul 256 d e) in
  div_zero (checked_div n m).

(** The most collateral [debt_to_cover] could take. *)
Definition max_coll (p : AmountsIn) (debt_to_cover unit_c unit_d : Z) : PRes Z :=
  let dp := st_p (ai_debt p) in let cp := st_p (ai_coll p) in
  let? base := ratio dp debt_to_cover unit_c cp unit_d in
  if bool_decide (ai_version p = V2) then
    let? n := overflow (let! v := checked_mul 256 dp debt_to_cover in checked_mul 256 v unit_c) in
    let? b := percent_mul n (ai_bonus_bps p) in
    let? m := overflow (checked_mul 256 cp unit_d) in
    div_zero (checked_div b m)
  else percent_mul_floor base (ai_bonus_bps p).

(** What the liquidator receives, pays, and what the protocol keeps. *)
Definition available_for (p : AmountsIn) (debt_to_cover : Z) : PRes (Z * Z * Z) :=
  match st_collateral (ai_coll p) with
  | None => Err Internal
  | Some c =>
      let? unit_c := asset_unit (mr_decimals (st_row (ai_coll p))) in
      let? unit_d := asset_unit (mr_decimals (st_row (ai_debt p))) in
      let? mc := max_coll p debt_to_cover unit_c unit_d in
      let? (coll_amt, debt_needed) :=
        if co_assets c <? mc then
          let? raw := ratio (st_p (ai_coll p)) (co_assets c) unit_d (st_p (ai_debt p)) unit_c in
          let? needed := (if bool_decide (ai_version p = V2) then percent_div raw (ai_bonus_bps p)
                          else percent_div_ceil raw (ai_bonus_bps p)) in
          Ok (co_assets c, needed)
        else Ok (mc, debt_to_cover) in
      let fee_pct := rs_liq_protocol_fee (st_reserve (ai_coll p)) in
      if fee_pct =? 0 then Ok (coll_amt, debt_needed, 0) else
      let? back := percent_div_floor coll_amt (ai_bonus_bps p) in
      let? bonus_coll := underflow (checked_sub coll_amt back) in
      let? fee := percent_mul_ceil bonus_coll fee_pct in
      let? to_liq := underflow (checked_sub coll_amt fee) in
      Ok (to_liq, debt_needed, fee)
  end.

(** What would remain of the debt and of the collateral, in base currency. *)
Definition leftovers (p : AmountsIn) (c : Collateral) (d : Debt) (repay seize fee : Z)
    : PRes (Z * Z) :=
  let? rest := underflow (checked_sub (de_assets d) repay) in
  let? unit_d := asset_unit (mr_decimals (st_row (ai_debt p))) in
  let? debt_left := mul_div_ceil rest (st_p (ai_debt p)) unit_d in
  let? rest := underflow (let! v := checked_sub (co_assets c) seize in checked_sub v fee) in
  let? m := overflow (checked_mul 256 rest (st_p (ai_coll p))) in
  let? unit_c := asset_unit (mr_decimals (st_row (ai_coll p))) in
  let? coll_left := div_zero (checked_div m unit_c) in
  Ok (debt_left, coll_left).

Definition leaves_no_dust (p : AmountsIn) (cover : Z) : PRes (option Amounts) :=
  match st_collateral (ai_coll p), st_debt (ai_debt p) with
  | Some c, Some d =>
      let? (seize, repay, fee) := available_for p cover in
      let leftover_base := ai_min_base p / 2 in
      let? whole := (if de_assets d <=? repay then Ok true else
                     let? t := overflow (checked_add 256 seize fee) in Ok (co_assets c <=? t)) in
      if whole then Ok (Some (mkAmounts repay seize whole)) else
      let? (debt_left, coll_left) := leftovers p c d repay seize fee in
      if (debt_left <? leftover_base) || (coll_left <? leftover_base) then Ok None
      else Ok (Some (mkAmounts repay seize whole))
  | _, _ => Err Internal
  end.

Definition with_accrual (p : AmountsIn) (a : Amounts) : PRes Amounts :=
  let rate := Z.max (rs_variable_borrow_rate (st_reserve (ai_debt p)))
                (rs_liquidity_rate (st_reserve (ai_coll p))) in
  let? per := overflow (checked_mul 256 rate ACCRUAL_WINDOW_SECS) in
  let? year_ray := overflow (checked_mul 256 RAY SECONDS_PER_YEAR) in
  let? g := fixed (mul_div (am_repay a) per year_ray Up) in
  let? grow := overflow (checked_add 256 g 1) in
  let? repay := overflow (checked_add 256 (am_repay a) grow) in
  Ok (mkAmounts repay (am_seize a) (am_whole a)).

(** [lo + (hi - lo) / 2], checked. *)
Definition dust_mid (lo hi : Z) : PRes Z :=
  let? w := underflow (checked_sub hi lo) in
  let? h := div_zero (checked_div w 2) in
  overflow (checked_add 256 lo h).

Definition amounts (p : AmountsIn) : PRes (option Amounts) :=
  let? max_d := max_liquidatable_debt p in
  let cover := Z.min (ai_debt_to_cover p) max_d in
  if cover =? 0 then Ok None else
  let? first := leaves_no_dust p cover in
  match first with
  | Some a => if am_whole a then let? a := with_accrual p a in Ok (Some a) else Ok (Some a)
  | None => let? (_, _, best) := bisect dust_mid (leaves_no_dust p) 256 0 cover None in Ok best
  end.

(** * The quote *)

Definition price_ray (px : PriceVector) (asset : AssetId) : PRes Z :=
  ok_or (let! e := price_entry px asset in Some (p_price e)) (MissingPrice asset).

(** A seize option with its value, its slot and its bonus. *)
Record SeizeRow := mkSeizeRow {
  sr_option : SeizeOption; sr_value : Z; sr_slot : nat; sr_liq_bonus : Z }.

(** One turn of the seize loop: [None] is [continue]. *)
Definition seize_row (px : PriceVector) (t : SlotTerms) : PRes (option SeizeRow) :=
  match st_collateral t with
  | None => Ok None
  | Some c =>
      match checked_sub (st_liq_bonus t) BPS with
      | None => Ok None
      | Some bonus_span =>
          let fee_pct := rs_liq_protocol_fee (st_reserve t) in
          let? keep_bps := underflow (checked_sub BPS fee_pct) in
          let? net_span := fixed (mul_div bonus_span keep_bps BPS Down) in
          let? bonus := overflow (checked_mul 256 net_span BPS_RAY) in
          let? back := percent_div_floor (co_assets c) (st_liq_bonus t) in
          let? gross_bonus_coll := underflow (checked_sub (co_assets c) back) in
          let? max_fee := percent_mul_ceil gross_bonus_coll fee_pct in
          let? max_seize := underflow (checked_sub (co_assets c) max_fee) in
          let? price := price_ray px (mr_asset (st_row t)) in
          let? value := value_ray_of max_seize price (mr_decimals (st_row t)) in
          Ok (Some (mkSeizeRow
            (mkSeize (mr_asset (st_row t)) max_seize bonus (Static bonus) 0 ByAsset)
            value (st_slot t) (st_liq_bonus t)))
      end
  end.

(** A loop that pushes what its body returns. *)
Fixpoint collect {A B} (f : A -> PRes (option B)) (l : list A) : PRes (list B) :=
  match l with
  | [] => Ok []
  | a :: l =>
      let? o := f a in
      let? rest := collect f l in
      Ok (match o with Some b => b :: rest | None => rest end)
  end.

(** [b.bonus.cmp(&a.bonus).then(b.value.cmp(&a.value))]: bonus, then value, descending. *)
Definition seize_leb (a b : SeizeRow) : bool :=
  (so_bonus (sr_option b) <? so_bonus (sr_option a)) ||
  ((so_bonus (sr_option a) =? so_bonus (sr_option b)) && (sr_value b <=? sr_value a)).

Definition amounts_in (lp : LiquidationParams) (acc : Account) (hf_wad bonus_bps : Z)
    (coll debt : SlotTerms) : AmountsIn :=
  mkAmountsIn coll debt (ac_debt_value acc) hf_wad bonus_bps (umax 256) (lp_close_factor_bps lp)
    (lp_close_factor_hf_wad lp) (lp_min_base_max_close lp) (lp_version lp) (lp_close_factor_scope lp).

Definition repay_row (lp : LiquidationParams) (px : PriceVector) (acc : Account)
    (hf_wad bonus_bps : Z) (coll t : SlotTerms) : PRes (option (RepayOption * Z)) :=
  let? price := price_ray px (mr_asset (st_row t)) in
  let? a := amounts (amounts_in lp acc hf_wad bonus_bps coll t) in
  match a with
  | None => Ok None
  | Some a =>
      let? value := value_ray_of (am_repay a) price (mr_decimals (st_row t)) in
      Ok (Some (mkRepay (mr_asset (st_row t)) (am_repay a) 0 None ByAsset, value))
  end.

(** The walk that adds to the account and keeps the terms. *)
Definition account_terms (lp : LiquidationParams) (pos : PositionRef) (px : PriceVector)
    (sentinel : bool) : PRes (Account * list SlotTerms) :=
  walk lp pos (fun a => price_p px a (oracle_scale lp))
    (fun st t => let? acc := account_add (pr_timestamp pos) (fst st) t in Ok (acc, snd st ++ [t]))
    (account_new (pk_market (pr_key pos)) sentinel (lp_oracle_decimals lp) (lp_version lp), []).

(** The options, once the position is known to be liquidatable. *)
Definition options (lp : LiquidationParams) (pos : PositionRef) (px : PriceVector) (acc : Account)
    (terms : list SlotTerms) : PRes (option Quote) :=
  let ts := pr_timestamp pos in
  let? hf_wad := account_hf_wad acc in
  let? seize := collect (seize_row px) (List.filter (fun t => seizable t ts) terms) in
  match sort_by seize_leb seize with
  | [] => Err EmptyQuote
  | best :: rest =>
      let? coll := ok_or (List.find (fun t => (st_slot t =? sr_slot best)%nat) terms) Internal in
      let? repay := collect (repay_row lp px acc hf_wad (sr_liq_bonus best) coll)
                      (List.filter (fun t => repayable t ts) terms) in
      let repay := sort_by (fun a b => snd b <=? snd a) repay in
      match repay with
      | [] => Err EmptyQuote
      | _ => Ok (Some (mkQuote (pr_id pos) (pr_key pos) (fst <$> repay)
                  (sr_option <$> best :: rest)))
      end
  end.

Definition quote (lp : LiquidationParams) (pos : PositionRef) (px : PriceVector)
    : PRes (option Quote) :=
  let? meta := pool_meta pos in
  let? (acc, terms) := account_terms lp pos px (sentinel_ok meta (pr_timestamp pos)) in
  let? health := finish acc in
  match h_state health with
  | HLiquidatable => options lp pos px acc terms
  | _ => Ok None
  end.

(** * Amounts *)

(** The inputs are machine words. *)
Record ai_ok (p : AmountsIn) : Prop := {
  ok_cp : 0 <= st_p (ai_coll p);
  ok_dp : 0 <= st_p (ai_debt p);
  ok_bonus : 0 <= ai_bonus_bps p;
  ok_cover : 0 <= ai_debt_to_cover p <= umax 256;
  ok_debt : forall d, st_debt (ai_debt p) = Some d -> 0 <= de_assets d <= umax 256;
  ok_coll : forall c, st_collateral (ai_coll p) = Some c -> 0 <= co_assets c }.

Lemma ratio_Ok a b c d e r :
  0 <= d * e -> ratio a b c d e = Ok r -> 0 < d * e /\ r = a * b * c / (d * e).
Proof.
  intros Hde H. unfold ratio in H. apply bind_Ok in H as (n & Hn & H). apply ok_or_Ok in Hn.
  destruct (checked_mul 256 a b) as [v|] eqn:Ev; [|done].
  apply checked_mul_Some in Ev as [-> _]. apply checked_mul_Some in Hn as [-> _].
  apply bind_Ok in H as (m & [-> _]%ok_or_Ok%checked_mul_Some & H). apply ok_or_Ok in H.
  unfold checked_div in H. destruct (Z.eqb_spec (d * e) 0); [done|]. injection H as <-.
  split; [lia|done].
Qed.

Lemma BPS_pos : 0 < BPS. Proof. done. Qed.

(** The exact value of [max_coll], in the version's order of operations. *)
Definition coll_for (p : AmountsIn) (unit_c unit_d cover : Z) : Z :=
  let n := st_p (ai_debt p) * cover * unit_c in
  let m := st_p (ai_coll p) * unit_d in
  if bool_decide (ai_version p = V2) then round_div HalfUp (n * ai_bonus_bps p) BPS / m
  else n / m * ai_bonus_bps p / BPS.

Lemma max_coll_Ok p cover uc ud r :
  ai_ok p -> 0 <= ud -> max_coll p cover uc ud = Ok r ->
  0 < st_p (ai_coll p) * ud /\ r = coll_for p uc ud cover.
Proof.
  intros Hok Hud H. unfold max_coll in H. cbv zeta in H. destruct Hok as [Hcp Hdp Hb _ _ _].
  assert (0 <= st_p (ai_coll p) * ud) by by apply Z.mul_nonneg_nonneg.
  apply bind_Ok in H as (base & [Hm ->]%ratio_Ok & H); [|done]. split; [done|].
  unfold coll_for. cbv zeta. case_bool_decide.
  - apply bind_Ok in H as (n & Hn & H). apply ok_or_Ok in Hn.
    destruct (checked_mul 256 (st_p (ai_debt p)) cover) as [v|] eqn:Ev; [|done].
    apply checked_mul_Some in Ev as [-> _]. apply checked_mul_Some in Hn as [-> _].
    apply bind_Ok in H as (b & Hb' & H). apply fixed_Ok, mul_div_exact in Hb' as (_ & -> & _); [|done].
    apply bind_Ok in H as (m & [-> _]%ok_or_Ok%checked_mul_Some & H). apply ok_or_Ok in H.
    unfold checked_div in H. destruct (_ =? 0); [done|]. by injection H as <-.
  - apply fixed_Ok, mul_div_exact in H as (_ & -> & _); [|done]. done.
Qed.

Lemma coll_for_mono p uc ud c1 c2 :
  ai_ok p -> 0 <= uc -> 0 < st_p (ai_coll p) * ud -> c1 <= c2 ->
  coll_for p uc ud c1 <= coll_for p uc ud c2.
Proof.
  intros [Hcp Hdp Hb _ _ _] Huc Hm Hle. unfold coll_for. cbv zeta.
  assert (st_p (ai_debt p) * c1 * uc <= st_p (ai_debt p) * c2 * uc).
  { apply Z.mul_le_mono_nonneg_r; [done|]. by apply Z.mul_le_mono_nonneg_l. }
  case_bool_decide.
  - apply Z.div_le_mono; [done|]. apply round_div_mono; [done|]. by apply Z.mul_le_mono_nonneg_r.
  - apply Z.div_le_mono; [done|]. apply Z.mul_le_mono_nonneg_r; [done|]. by apply Z.div_le_mono.
Qed.

Lemma available_for_inv p cover seize repay fee c :
  ai_ok p -> st_collateral (ai_coll p) = Some c -> available_for p cover = Ok (seize, repay, fee) ->
  exists uc ud, asset_unit (mr_decimals (st_row (ai_coll p))) = Ok uc /\
    asset_unit (mr_decimals (st_row (ai_debt p))) = Ok ud /\
    0 < st_p (ai_coll p) * ud /\ 0 <= fee /\
    seize + fee = Z.min (coll_for p uc ud cover) (co_assets c) /\
    (coll_for p uc ud cover <= co_assets c -> repay = cover) /\
    (co_assets c < coll_for p uc ud cover ->
       0 < st_p (ai_debt p) * uc /\
       repay = round_div (if bool_decide (ai_version p = V2) then HalfUp else Up)
         (st_p (ai_coll p) * co_assets c * ud / (st_p (ai_debt p) * uc) * BPS) (ai_bonus_bps p) /\
       0 < ai_bonus_bps p).
Proof.
  intros Hok Hc H. unfold available_for in H. rewrite Hc in H. cbv zeta in H.
  apply bind_Ok in H as (uc & Huc & H). apply bind_Ok in H as (ud & Hud & H).
  pose proof (asset_unit_nonneg _ _ Huc). pose proof (asset_unit_nonneg _ _ Hud).
  apply bind_Ok in H as (mc & [Hm ->]%max_coll_Ok & H); [|done..].
  apply bind_Ok in H as ([amt needed] & Hn & H). exists uc, ud.
  split; [done|]. split; [done|]. split; [done|].
  assert (repay = needed /\ seize + fee = amt /\ 0 <= fee) as (-> & Hs & Hf).
  { destruct (_ =? 0) eqn:Ef; [injection H as -> -> <-; by rewrite Z.add_0_r|].
    apply bind_Ok in H as (? & _ & H). apply bind_Ok in H as (? & _ & H).
    apply bind_Ok in H as (f & [Hf0 _]%fixed_Ok%mul_div_u256 & H).
    apply bind_Ok in H as (tl & [-> _]%ok_or_Ok%checked_sub_Some & [= <- <- <-]).
    split; [done|]. split; [lia|done]. }
  split; [done|]. rewrite Hs. clear H Hs Hf.
  destruct (Z.ltb_spec (co_assets c) (coll_for p uc ud cover)).
  - apply bind_Ok in Hn as (raw & Hr & Hn). apply bind_Ok in Hn as (nd & Hnd & [= <- <-]).
    split; [lia|]. split; [lia|]. intros _. destruct Hok as [Hcp Hdp Hb _ _ _].
    apply ratio_Ok in Hr as [? ->]; [|by apply Z.mul_nonneg_nonneg]. split; [done|].
    case_bool_decide; apply fixed_Ok, mul_div_exact in Hnd as (? & -> & _); done.
  - injection Hn as <- <-. split; [lia|]. split; [done|lia].
Qed.

Lemma round_div_le r n d k : 0 < d -> n <= d * k -> round_div r n d <= k.
Proof.
  intros Hd Hn. transitivity (round_div r (d * k) d); [by apply round_div_mono|].
  destruct r; simpl.
  - rewrite Z.mul_comm, Z.div_mul; lia.
  - unfold div_up. assert ((d * k + d - 1) / d = k) as ->; [|lia].
    apply div_unique_pos with (d - 1); lia.
  - assert ((2 * (d * k) + d) / (2 * d) = k) as ->; [|lia]. apply div_unique_pos with d; lia.
Qed.

(** Taking all of the collateral needs no more than the cover that would take more. *)
Lemma coll_for_exceeds p uc ud cover C :
  0 < st_p (ai_coll p) * ud -> C < coll_for p uc ud cover ->
  BPS * (C * (st_p (ai_coll p) * ud)) <= st_p (ai_debt p) * cover * uc * ai_bonus_bps p \/
  ai_bonus_bps p < 0.
Proof.
  intros Hm HC. unfold coll_for in HC. cbv zeta in HC.
  set (n := st_p (ai_debt p) * cover * uc) in *. set (m := st_p (ai_coll p) * ud) in *.
  destruct (Z.lt_ge_cases (ai_bonus_bps p) 0) as [|Hb]; [by right|left].
  case_bool_decide.
  - pose proof (rounds_round_div HalfUp (n * ai_bonus_bps p) BPS BPS_pos) as Hr. cbn [rounds] in Hr.
    set (v := round_div HalfUp (n * ai_bonus_bps p) BPS) in *.
    pose proof (div_rem_spec v m Hm). unfold BPS in *. nia.
  - pose proof (div_rem_spec (n / m * ai_bonus_bps p) BPS BPS_pos).
    pose proof (div_rem_spec n m Hm). unfold BPS in *.
    assert (10000 * C <= n / m * ai_bonus_bps p) by lia. nia.
Qed.

(** Nothing is asked for beyond the cover, and no more collateral goes than there is. *)
Lemma available_within p cover seize repay fee c :
  ai_ok p -> st_collateral (ai_coll p) = Some c -> available_for p cover = Ok (seize, repay, fee) ->
  repay <= cover /\ 0 <= fee /\ seize + fee <= co_assets c.
Proof.
  intros Hok Hc H. pose proof Hok as [Hcp Hdp Hb _ _ Hca]. specialize (Hca c Hc).
  apply (available_for_inv p cover seize repay fee c) in H
    as (uc & ud & Huc & Hud & Hm & Hf & Hs & Hlo & Hhi); [|done..].
  split; [|lia]. destruct (Z.le_gt_cases (coll_for p uc ud cover) (co_assets c)) as [|Hgt].
  { rewrite Hlo by done. lia. }
  destruct (Hhi Hgt) as (Hdu & -> & Hbp). apply round_div_le; [done|].
  destruct (coll_for_exceeds p uc ud cover _ Hm Hgt) as [He|]; [|lia].
  pose proof (div_rem_spec (st_p (ai_coll p) * co_assets c * ud) _ Hdu) as [Hq Hr].
  set (q := st_p (ai_coll p) * co_assets c * ud / (st_p (ai_debt p) * uc)) in *.
  set (k := st_p (ai_debt p) * uc) in *. unfold BPS in *.
  assert (k * q <= st_p (ai_coll p) * co_assets c * ud) by lia.
  apply (Zmult_le_reg_r _ _ k); [lia|].
  replace (ai_bonus_bps p * cover * k) with (st_p (ai_debt p) * cover * uc * ai_bonus_bps p)
    by (unfold k; ring).
  transitivity (10000 * (co_assets c * (st_p (ai_coll p) * ud))); [|done].
  replace (co_assets c * (st_p (ai_coll p) * ud)) with (st_p (ai_coll p) * co_assets c * ud) by ring.
  lia.
Qed.

(** * Dust *)

Section Dust.
Context (p : AmountsIn) (c : Collateral) (d : Debt) (uc ud : Z).
Context (Hok : ai_ok p) (Hc : st_collateral (ai_coll p) = Some c) (Hd : st_debt (ai_debt p) = Some d).
Context (Huc : asset_unit (mr_decimals (st_row (ai_coll p))) = Ok uc).
Context (Hud : asset_unit (mr_decimals (st_row (ai_debt p))) = Ok ud).

(** What repaying [x] leaves of the debt and of the collateral, in base currency. *)
Definition debt_left (x : Z) : Z := div_up ((de_assets d - x) * st_p (ai_debt p)) ud.
Definition coll_left (x : Z) : Z :=
  (co_assets c - coll_for p uc ud x) * st_p (ai_coll p) / uc.
Definition leaves_enough (x : Z) : Prop :=
  ai_min_base p / 2 <= debt_left x /\ ai_min_base p / 2 <= coll_left x.

(** A cover that repays all of the debt or takes all of the collateral. *)
Definition takes_whole (x : Z) : Prop := co_assets c <= coll_for p uc ud x \/ de_assets d <= x.

Lemma dust_exact x o :
  leaves_no_dust p x = Ok o ->
  0 < st_p (ai_coll p) * ud /\
  match o with
  | Some a => am_repay a <= x /\ (am_whole a = true /\ takes_whole x \/
                am_whole a = false /\ am_repay a = x /\ ~ takes_whole x /\ 0 < uc /\ leaves_enough x)
  | None => ~ takes_whole x /\ 0 < uc /\ ~ leaves_enough x
  end.
Proof.
  intros H. unfold leaves_no_dust in H. rewrite Hc, Hd in H.
  apply bind_Ok in H as ([[seize repay] fee] & Ha & H).
  pose proof (available_within _ _ _ _ _ _ Hok Hc Ha) as (Hle & Hf & _).
  apply (available_for_inv _ _ _ _ _ c) in Ha as (uc' & ud' & Huc' & Hud' & Hm & _ & Hs & Hlo & Hhi);
    [|done..]. rewrite Huc in Huc'. rewrite Hud in Hud'. injection Huc' as <-. injection Hud' as <-.
  split; [done|]. cbv zeta in H. apply bind_Ok in H as (w & Hw & H).
  assert (w = true /\ takes_whole x \/ w = false /\ ~ takes_whole x /\ repay = x) as Hwhole.
  { unfold takes_whole. destruct (Z.leb_spec (de_assets d) repay).
    { injection Hw as <-. left. split; [done|]. right. lia. }
    apply bind_Ok in Hw as (t & [-> _]%ok_or_Ok%checked_add_Some & [= <-]). rewrite Hs.
    destruct (Z.leb_spec (co_assets c) (Z.min (coll_for p uc ud x) (co_assets c))).
    - left. split; [done|]. left. lia.
    - right. split; [done|]. rewrite Hlo in * by lia. split; [lia|done]. }
  destruct w. { injection H as <-. simpl. split; [done|]. left. destruct Hwhole; naive_solver. }
  destruct Hwhole as [[? _]|(_ & Hn & ->)]; [done|].
  apply bind_Ok in H as ([dl cl] & Hl & H). unfold leftovers in Hl.
  apply bind_Ok in Hl as (r1 & [-> _]%ok_or_Ok%checked_sub_Some & Hl). rewrite Hud in Hl.
  apply bind_Ok in Hl as (dl' & Hdl & Hl).
  apply fixed_Ok, mul_div_exact in Hdl as (_ & -> & _); [|by eapply asset_unit_nonneg].
  apply bind_Ok in Hl as (r2 & Hr2 & Hl). apply ok_or_Ok in Hr2.
  destruct (checked_sub (co_assets c) seize) as [v|] eqn:Ev; [|done].
  apply checked_sub_Some in Ev as [-> _]. apply checked_sub_Some in Hr2 as [-> _].
  apply bind_Ok in Hl as (m & [-> _]%ok_or_Ok%checked_mul_Some & Hl). rewrite Huc in Hl.
  apply bind_Ok in Hl as (cl' & Hcl & [= <- <-]). apply ok_or_Ok in Hcl. unfold checked_div in Hcl.
  destruct (Z.eqb_spec uc 0); [done|]. injection Hcl as <-.
  pose proof (asset_unit_nonneg _ _ Huc). assert (0 < uc) by lia.
  assert (co_assets c - seize - fee = co_assets c - coll_for p uc ud x) as Ecl.
  { unfold takes_whole in Hn. lia. }
  rewrite Ecl in H. fold (debt_left x) (coll_left x) in H. unfold leaves_enough.
  change (round_div Up ((de_assets d - x) * st_p (ai_debt p)) ud) with (debt_left x) in H.
  destruct (Z.ltb_spec (debt_left x) (ai_min_base p / 2)); cbn [orb] in H.
  { injection H as <-. split; [done|]. split; [done|]. lia. }
  destruct (Z.ltb_spec (coll_left x) (ai_min_base p / 2)); injection H as <-.
  - split; [done|]. split; [done|]. lia.
  - split; [done|]. right. split_and!; done.
Qed.

(** A smaller cover leaves more of both. *)
Lemma leaves_enough_down x y :
  0 < st_p (ai_coll p) * ud -> 0 < uc -> x <= y -> leaves_enough y -> leaves_enough x.
Proof.
  intros Hm Hu Hxy [H1 H2]. pose proof Hok as [Hcp Hdp _ _ _ _].
  assert (0 < ud) by (pose proof (asset_unit_nonneg _ _ Hud); nia). split.
  - etransitivity; [exact H1|]. apply div_up_mono; [done|]. apply Z.mul_le_mono_nonneg_r; lia.
  - etransitivity; [exact H2|]. apply Z.div_le_mono; [done|]. apply Z.mul_le_mono_nonneg_r; [done|].
    pose proof (coll_for_mono p uc ud x y Hok ltac:(lia) Hm Hxy). lia.
Qed.

Lemma takes_whole_up x y :
  0 < st_p (ai_coll p) * ud -> 0 <= uc -> x <= y -> takes_whole x -> takes_whole y.
Proof.
  intros Hm Hu Hxy [H|H]; [left|right; lia].
  pose proof (coll_for_mono p uc ud x y Hok Hu Hm Hxy). lia.
Qed.

Lemma dust_mid_halves l h : halves dust_mid l h.
Proof.
  intros lo hi m _ _ _ H. unfold dust_mid in H.
  apply bind_Ok in H as (w & [-> _]%ok_or_Ok%checked_sub_Some & H).
  apply bind_Ok in H as (k & Hk & H). apply ok_or_Ok in Hk. injection Hk as <-.
  by apply ok_or_Ok, checked_add_Some in H as [-> _].
Qed.

(** Under a cap that leaves dust, an amount that passes makes every smaller one pass. *)
Lemma dust_boundary cap x y a :
  leaves_no_dust p cap = Ok None -> x <= y <= cap -> leaves_no_dust p x = Ok None ->
  leaves_no_dust p y <> Ok (Some a).
Proof.
  intros Hcap Hxy Hx Hy. apply dust_exact in Hcap as (Hm & Hnw & Hu & _).
  apply dust_exact in Hx as (_ & _ & _ & Hx). apply dust_exact in Hy as (_ & _ & [[_ Hy]|Hy]).
  - apply Hnw. eapply takes_whole_up; [done| |exact (proj2 Hxy)|done]. lia.
  - destruct Hy as (_ & _ & _ & _ & Hy). apply Hx. by eapply leaves_enough_down; [..|apply Hxy|].
Qed.
End Dust.

Lemma max_liquidatable_nonneg p m :
  ai_ok p -> max_liquidatable_debt p = Ok m ->
  0 <= m /\ exists c d, st_collateral (ai_coll p) = Some c /\ st_debt (ai_debt p) = Some d.
Proof.
  intros [Hcp Hdp _ _ Hda _] H. unfold max_liquidatable_debt in H.
  destruct (st_collateral (ai_coll p)) as [c|]; [|done].
  destruct (st_debt (ai_debt p)) as [d|]; [|done]. split; [|eauto].
  specialize (Hda d eq_refl) as [Hd0 _]. case_bool_decide.
  - destruct (_ <? _); [by apply fixed_Ok, mul_div_u256 in H as [? _]|by injection H as <-].
  - destruct (_ && _); [|by injection H as <-]. apply bind_Ok in H as (cb & [Hcb _]%fixed_Ok%mul_div_u256 & H).
    destruct (_ <? _); [|by injection H as <-].
    apply bind_Ok in H as (u & Hu%asset_unit_nonneg & H).
    apply bind_Ok in H as (x & [-> _]%ok_or_Ok%checked_mul_Some & H). apply ok_or_Ok in H.
    unfold checked_div in H. destruct (Z.eqb_spec (st_p (ai_debt p)) 0); [done|]. injection H as <-.
    apply Z.div_pos; [by apply Z.mul_nonneg_nonneg|lia].
Qed.

(** C10. The bisection under the dust rule is exact and ends: the amount quoted comes from a
    cover within the close-factor cap that the rule admits, it asks for no more than that
    cover (before the interest of a whole leg is added), and no larger cover within the cap is
    admitted. Nothing is quoted only when the rule admits no cover within the cap. *)
Theorem amounts_largest p r :
  ai_ok p -> amounts p = Ok r ->
  exists max_d, max_liquidatable_debt p = Ok max_d /\
  let cap := Z.min (ai_debt_to_cover p) max_d in
  exists cover, 0 <= cover <= cap /\
    (forall y b, cover < y <= cap -> leaves_no_dust p y <> Ok (Some b)) /\
    match r with
    | None => cover = 0
    | Some a => exists a0, leaves_no_dust p cover = Ok (Some a0) /\ am_repay a0 <= cover /\
        (am_whole a0 = false /\ a = a0 \/ am_whole a0 = true /\ (a = a0 \/ with_accrual p a0 = Ok a))
    end.
Proof.
  intros Hok H. unfold amounts in H. apply bind_Ok in H as (max_d & Hmax & H).
  destruct (max_liquidatable_nonneg p max_d Hok Hmax) as (Hm0 & c & d & Hc & Hd).
  exists max_d. split; [done|]. cbv zeta in *. set (cap := Z.min (ai_debt_to_cover p) max_d) in *.
  destruct (ok_cover p Hok). assert (0 <= cap <= umax 256) by (unfold cap; lia).
  assert (forall x o, leaves_no_dust p x = Ok o -> exists uc ud,
    asset_unit (mr_decimals (st_row (ai_coll p))) = Ok uc /\
    asset_unit (mr_decimals (st_row (ai_debt p))) = Ok ud) as Hunits.
  { intros x o Hx. unfold leaves_no_dust in Hx. rewrite Hc, Hd in Hx.
    apply bind_Ok in Hx as ([[s r'] f] & Ha & _).
    apply (available_for_inv p x s r' f c) in Ha as (uc & ud & ? & ? & _); [eauto|done..]. }
  destruct (Z.eqb_spec cap 0) as [E|E].
  { injection H as <-. exists 0. split; [lia|]. split; [lia|done]. }
  apply bind_Ok in H as (first & Hf & H). destruct (Hunits _ _ Hf) as (uc & ud & Huc & Hud).
  pose proof (dust_exact p c d uc ud Hok Hc Hd Huc Hud) as Hexact.
  destruct first as [a|].
  - exists cap. split; [lia|]. split; [lia|]. destruct (Hexact _ _ Hf) as (_ & Hle & _).
    destruct (am_whole a) eqn:Ew.
    + apply bind_Ok in H as (a' & Ha' & [= <-]). exists a. rewrite Ew. eauto 6.
    + injection H as <-. exists a. eauto 6.
  - apply bind_Ok in H as ([[lo hi] best] & Hb & [= <-]).
    apply (bisect_ends _ _ _ 0 cap) in Hb as (B1 & B2 & B3 & B4 & B5);
      [|apply dust_mid_halves|lia..|unfold umax in *; lia].
    assert (leaves_no_dust p hi = Ok None) as Hhi by (destruct B5 as [->|]; done).
    exists lo. split; [lia|]. split.
    + intros y b Hy. apply (dust_boundary p c d uc ud Hok Hc Hd Huc Hud cap hi); [done|lia|done].
    + destruct B4 as [[-> ->]|(a & Ha & ->)]; [done|]. exists a. split; [done|].
      destruct (Hexact _ _ Ha) as (_ & Hle & _). split; [done|].
      destruct (am_whole a); [right|left]; eauto.
Qed.

(** * Options *)

Lemma walk_terms lp pos cat po ts : forall slots a l r,
  walk_slots lp pos cat po (fun st t => let? acc := account_add ts (fst st) t in Ok (acc, snd st ++ [t]))
    (a, l) slots = Ok r ->
  walk_slots lp pos cat po (account_add ts) a slots = Ok (fst r).
Proof.
  induction slots as [|slot slots IH]; intros a l r H; cbn [walk_slots] in *.
  { by injection H as <-. }
  destruct (_ <? _)%nat; [by eapply IH|]. apply bind_Ok in H as (o & -> & H).
  destruct o as [t|]; [|by eapply IH]. cbn [fst snd] in H. apply bind_Ok in H as ([a' l'] & H1 & H).
  apply bind_Ok in H1 as (a'' & -> & [= <- <-]). by eapply IH.
Qed.

Lemma account_terms_at lp pos px s acc terms :
  account_terms lp pos px s = Ok (acc, terms) ->
  account_at lp pos (fun a => price_p px a (oracle_scale lp)) s = Ok acc.
Proof.
  unfold account_terms, account_at, walk. destruct (_ =? _)%nat; [done|]. destruct (negb _); [done|].
  destruct (emode_cat _ _ _); [|done]. intros H. by apply walk_terms in H.
Qed.

Lemma collect_In {A B} (f : A -> PRes (option B)) l r b :
  collect f l = Ok r -> b ∈ r -> exists a, a ∈ l /\ f a = Ok (Some b).
Proof.
  revert r. induction l as [|a l IH]; intros r H Hb; cbn [collect] in H.
  { injection H as <-. by apply not_elem_of_nil in Hb. }
  apply bind_Ok in H as (o & Ho & H). apply bind_Ok in H as (rest & Hr & [= <-]).
  destruct o as [b'|].
  - apply elem_of_cons in Hb as [->|Hb]; [exists a; split; [constructor|done]|].
    destruct (IH _ Hr Hb) as (x & ? & ?). exists x. split; [by constructor|done].
  - destruct (IH _ Hr Hb) as (x & ? & ?). exists x. split; [by constructor|done].
Qed.

Lemma seize_leb_total a b : seize_leb a b = true \/ seize_leb b a = true.
Proof. unfold seize_leb. rewrite !orb_true_iff, !andb_true_iff, !Z.ltb_lt, !Z.eqb_eq, !Z.leb_le. lia. Qed.
Lemma seize_leb_trans a b c : seize_leb a b = true -> seize_leb b c = true -> seize_leb a c = true.
Proof. unfold seize_leb. rewrite !orb_true_iff, !andb_true_iff, !Z.ltb_lt, !Z.eqb_eq, !Z.leb_le. lia. Qed.

Lemma seize_row_within px t r c :
  seize_row px t = Ok (Some r) -> st_collateral t = Some c ->
  so_max_seize (sr_option r) <= co_assets c /\ BPS <= st_liq_bonus t.
Proof.
  unfold seize_row. intros H E. rewrite E in H. destruct (checked_sub _ _) as [span|] eqn:Es; [|done].
  apply checked_sub_Some in Es as [_ Hb]. cbv zeta in H.
  apply bind_Ok in H as (? & _ & H). apply bind_Ok in H as (? & _ & H).
  apply bind_Ok in H as (? & _ & H). apply bind_Ok in H as (? & _ & H).
  apply bind_Ok in H as (? & _ & H). apply bind_Ok in H as (f & [Hf0 _]%fixed_Ok%mul_div_u256 & H).
  apply bind_Ok in H as (ms & [-> _]%ok_or_Ok%checked_sub_Some & H).
  apply bind_Ok in H as (? & _ & H). apply bind_Ok in H as (? & _ & [= <-]). simpl. split; [lia|done].
Qed.

(** The options of a liquidatable position. *)
Record quote_ok (pos : PositionRef) (q : Quote) (terms : list SlotTerms) : Prop := {
  qo_repay : q_repay_options q <> [];
  qo_seize : q_seize_options q <> [];
  qo_best_first : StronglySorted (fun a b => so_bonus b <= so_bonus a) (q_seize_options q);
  qo_covered : forall o, o ∈ q_seize_options q -> exists t c, t ∈ terms /\
    seizable t (pr_timestamp pos) = true /\ st_collateral t = Some c /\
    so_asset o = mr_asset (st_row t) /\ so_max_seize o <= co_assets c /\ BPS <= st_liq_bonus t }.

Lemma seize_row_asset px t r : seize_row px t = Ok (Some r) ->
  so_asset (sr_option r) = mr_asset (st_row t) /\ exists c, st_collateral t = Some c.
Proof.
  unfold seize_row. intros H. destruct (st_collateral t) as [c|]; [|done].
  destruct (checked_sub _ _) as [span|]; [|done]. cbv zeta in H.
  do 9 (apply bind_Ok in H as (? & _ & H)). injection H as <-. simpl. eauto.
Qed.

Lemma options_sorted l :
  StronglySorted (fun a b => seize_leb a b = true) l ->
  StronglySorted (fun a b => so_bonus b <= so_bonus a) (sr_option <$> l).
Proof.
  induction 1 as [|a l Hl IH Hall]; [constructor|]. cbn [fmap list_fmap]. constructor; [done|].
  apply Forall_fmap. eapply Forall_impl; [exact Hall|]. intros b Hb. simpl.
  unfold seize_leb in Hb. apply orb_true_iff in Hb as [Hb|Hb]; zbool; lia.
Qed.

Lemma options_ok lp pos px acc terms r :
  options lp pos px acc terms = Ok r -> exists q, r = Some q /\ quote_ok pos q terms.
Proof.
  unfold options. cbv zeta. intros H. apply bind_Ok in H as (hf & _ & H).
  apply bind_Ok in H as (seize & Hs & H).
  pose proof (sort_by_sorted seize_leb seize_leb_total seize_leb_trans seize) as Hsort.
  pose proof (sort_by_perm seize_leb seize) as Hperm.
  destruct (sort_by seize_leb seize) as [|best rest]; [done|].
  apply bind_Ok in H as (coll & _ & H). apply bind_Ok in H as (repay & _ & H).
  destruct (sort_by _ repay) as [|r0 rs] eqn:Er; [done|]. injection H as <-.
  eexists. split; [done|]. constructor; cbn [q_repay_options q_seize_options]; [done|done| |].
  - exact (options_sorted (best :: rest) Hsort).
  - intros o Ho. apply (list_elem_of_fmap sr_option (best :: rest)) in Ho as (row & -> & Hrow). rewrite Hperm in Hrow.
    destruct (collect_In _ _ _ _ Hs Hrow) as (t & Ht & Hf). apply list_elem_of_In, filter_In in Ht as [Ht Hz].
    destruct (seize_row_asset _ _ _ Hf) as [Ea [c Hc]]. exists t, c.
    destruct (seize_row_within _ _ _ _ Hf Hc) as [? ?]. apply list_elem_of_In in Ht. split_and!; done.
Qed.

(** C26. A quote is for liquidatable positions only, and never contradicts [health]: when
    [quote] answers, [health] answers too, and there is a quote exactly when the state is
    liquidatable. The quote has a repay and a seize option, the seize options come best net
    bonus first, and each is a seizable collateral of the position with a bonus of at least
    one hundred per cent, offering no more than the position holds. *)
Theorem quote_iff_liquidatable lp pos px r :
  quote lp pos px = Ok r ->
  exists h, health_with lp pos px = Ok h /\
    match r with
    | None => h_state h <> HLiquidatable
    | Some q => h_state h = HLiquidatable /\ exists terms acc s,
        account_terms lp pos px s = Ok (acc, terms) /\ quote_ok pos q terms
    end.
Proof.
  unfold quote, health_with. intros H. apply bind_Ok in H as (m & -> & H).
  apply bind_Ok in H as ([acc terms] & Ha & H). rewrite (account_terms_at _ _ _ _ _ _ Ha).
  apply bind_Ok in H as (h & Hh & H). exists h. split; [done|].
  destruct (h_state h) eqn:Es; try (by injection H as <-).
  destruct (options_ok _ _ _ _ _ _ H) as (q & -> & Hq). split; [done|]. eauto.
Qed.

(** A 2,300 dollar debt on 2,100 dollars of collateral, at a health factor of 0.96: half of
    the debt would leave 892 dollars of collateral, below the 1,000 the rule asks for. *)
Definition ex_amounts : AmountsIn :=
  let r := reserve_of (ex_reserve 0 0) in
  mkAmountsIn
    (mkTerms 10 (ex_reserve 0 0) r 1 2100000000 0 100000000 RAY RAY
       (Some (mkColl 2100000000 2100000000 210000000000 8000)) None 10500)
    (mkTerms 11 (ex_reserve 1 RAY) (reserve_of (ex_reserve 1 RAY)) 0 0 2300000000 100000000 RAY RAY
       None (Some (mkDebt 2300000000 2300000000 230000000000)) 10500)
    230000000000 960000000000000000 10500 (umax 256) 5000 950000000000000000 200000000000 V3 PositionBase.

Lemma amounts_largest_witness :
  amounts ex_amounts = Ok (Some (mkAmounts 1047619048 1100000000 false)) /\
  max_liquidatable_debt ex_amounts = Ok 1150000000 /\
  forall b, leaves_no_dust ex_amounts 1047619049 <> Ok (Some b).
Proof.
  split; [vm_compute; reflexivity|]. split; [vm_compute; reflexivity|].
  destruct (amounts_largest ex_amounts (Some (mkAmounts 1047619048 1100000000 false)))
    as (m & Hm & cover & Hc & Hall & a0 & Ha & Hle & _).
  - constructor; [vm_compute; discriminate..|vm_compute; split; discriminate| |].
    + intros d [= <-]. vm_compute. split; discriminate.
    + intros c [= <-]. vm_compute. discriminate.
  - vm_compute. reflexivity.
  - intros b. vm_compute. discriminate.
Defined.

Lemma quote_iff_liquidatable_witness :
  exists q, quote ex_lp (ex_pos 900000000) ex_px = Ok (Some q) /\
  exists h, health_with ex_lp (ex_pos 900000000) ex_px = Ok h /\ h_state h = HLiquidatable.
Proof.
  destruct (quote ex_lp (ex_pos 900000000) ex_px) as [r|] eqn:E; [|vm_compute in E; discriminate E].
  destruct r as [q|]; [|vm_compute in E; discriminate E]. exists q. split; [reflexivity|].
  destruct (quote_iff_liquidatable ex_lp (ex_pos 900000000) ex_px (Some q) E) as (h & Hh & Hs & _).
  exists h. split; assumption.
Defined.
