(* ===== verification/AaveConfig.v ===== *)
(** Aave V3 deployment pins ([crates/liq-adapters/aave-v3/src/config.rs]) and the adapter's
    [encode] ([lib.rs]): what a validated configuration guarantees, and the leg a quote becomes. *)

From S2P Require Import Prelude Fixed Mask Types Columns Undo Store Halt Flash Bonus Candidate Engine Bytes Wire.
From S2P Require Import Adapter AaveMath AaveHealth AaveSolve.
Local Open Scope Z_scope.

Record PoolConfig := mkPool {
  pc_address : Address; pc_market : MarketId; pc_oracle : Address; pc_provider : Address;
  pc_configurator : Address; pc_sentinel : Address; pc_sequencer_oracle : Address;
  pc_tokens : list Address; pc_grace_sentinel : Address }.

Record AssetConfig := mkAsset {
  as_underlying : Address; as_asset : AssetId; as_feed : Z; as_siloed : bool; as_isolated : bool;
  as_debt_ceiling : Z; as_decimals : Z }.

Record SourcePin := mkPin { sp_pool : Address; sp_underlying : Address; sp_source : Address }.

Record Config := mkConfig {
  cf_protocol : ProtocolId; cf_pools : list PoolConfig; cf_assets : list AssetConfig;
  cf_price_sources : list SourcePin; cf_liquidation : LiquidationParams; cf_pinned_through : Z }.

Inductive ConfigError :=
| NoPools | DuplicateAddress (a : Address) | DuplicateMarket (m : MarketId)
| ZeroOracle (a : Address) | DuplicateAsset (a : AssetId) | BadOracleDecimals.

Abbreviation CRes A := (Result ConfigError A).

(** The loop that pushes each address not seen before. *)
Fixpoint push_new (addrs : list Address) (l : list Address) : CRes (list Address) :=
  match l with
  | [] => Ok addrs
  | a :: l => if contains addrs a then Err (DuplicateAddress a) else push_new (addrs ++ [a]) l
  end.

(** The same for the optional addresses, where zero means none. *)
Definition present (l : list Address) : list Address := List.filter (fun a => negb (a =? 0)) l.

Definition pool_step (st : list MarketId * list Address) (p : PoolConfig)
    : CRes (list MarketId * list Address) :=
  let '(markets, addrs) := st in
  if contains markets (pc_market p) then Err (DuplicateMarket (pc_market p)) else
  let? addrs := push_new addrs [pc_address p; pc_oracle p; pc_provider p; pc_configurator p] in
  if pc_oracle p =? 0 then Err (ZeroOracle (pc_address p)) else
  let? addrs := push_new addrs (present [pc_sentinel p; pc_sequencer_oracle p]) in
  Ok (markets ++ [pc_market p], addrs).

Fixpoint pools_loop (st : list MarketId * list Address) (l : list PoolConfig)
    : CRes (list MarketId * list Address) :=
  match l with
  | [] => Ok st
  | p :: l => let? st := pool_step st p in pools_loop st l
  end.

Fixpoint assets_loop (l : list AssetConfig) : CRes unit :=
  match l with
  | [] => Ok tt
  | a :: l =>
      if existsb (fun b => (as_asset b =? as_asset a) || (as_underlying b =? as_underlying a)) l
      then Err (DuplicateAsset (as_asset a)) else assets_loop l
  end.

Definition validate (cfg : Config) : CRes unit :=
  if (length (cf_pools cfg) =? 0)%nat then Err NoPools else
  if 27 <? lp_oracle_decimals (cf_liquidation cfg) then Err BadOracleDecimals else
  let? _ := pools_loop ([], []) (cf_pools cfg) in
  assets_loop (cf_assets cfg).

Definition pool_by_market (cfg : Config) (m : MarketId) : option PoolConfig :=
  List.find (fun p => (pc_market p =? m)%nat) (cf_pools cfg).
Definition asset_by_underlying (cfg : Config) (u : Address) : option AssetConfig :=
  List.find (fun a => as_underlying a =? u) (cf_assets cfg).
Definition underlying_of (cfg : Config) (asset : AssetId) : option Address :=
  option_map as_underlying (List.find (fun a => as_asset a =? asset) (cf_assets cfg)).

(** * [encode] *)

Definition encode (cfg : Config) (q : Quote) (legs : LegChoice) (funding : FlashRoute)
    (recipient : Address) : PRes LiquidationPlan :=
  if negb (pk_protocol (q_key q) =? cf_protocol cfg) then Err ProtocolMismatch else
  let? repay := ok_or (q_repay_options q !! Z.to_nat (lc_repay legs)) LegOutOfRange in
  let? seize := ok_or (q_seize_options q !! Z.to_nat (lc_seize legs)) LegOutOfRange in
  if negb (bool_decide (callback_provider (fr_callback funding) = fr_provider funding))
  then Err CallbackProviderMismatch else
  if recipient =? 0 then Err ZeroRecipient else
  if negb (fr_asset funding =? ro_asset repay) then Err FundingAssetMismatch else
  if fr_amount funding <? ro_max_repay repay then Err FundingShort else
  let? pool := ok_or (pool_by_market cfg (pk_market (q_key q))) (PUnknownMarket (pk_market (q_key q))) in
  let? debt_asset := ok_or (underlying_of cfg (ro_asset repay)) OracleSourceMismatch in
  let? collateral_asset := ok_or (underlying_of cfg (so_asset seize)) OracleSourceMismatch in
  let? flash_amount := wire (fr_amount funding) in
  let? repay_amount := wire (ro_max_repay repay) in
  Ok (mkLiqPlan (fr_provider funding) (fr_source funding) debt_asset flash_amount
        (mkLeg XAaveV3 (pc_address pool) (pk_user (q_key q)) collateral_asset repay_amount)).

(** * What validation gives *)

Lemma push_new_NoDup l : forall addrs r,
  NoDup addrs -> push_new addrs l = Ok r -> NoDup r /\ r = addrs ++ l.
Proof.
  induction l as [|a l IH]; intros addrs r Hn H; cbn [push_new] in H.
  { injection H as <-. by rewrite app_nil_r. }
  destruct (contains addrs a) eqn:E; [done|]. apply bool_decide_eq_false in E. apply IH in H as [? ->].
  - split; [done|]. by rewrite <- app_assoc.
  - apply NoDup_app. split; [done|]. split; [|apply NoDup_singleton].
    intros x Hx ->%list_elem_of_singleton. done.
Qed.

(** The contracts a pool names. *)
Definition pool_addrs (p : PoolConfig) : list Address :=
  [pc_address p; pc_oracle p; pc_provider p; pc_configurator p] ++
  present [pc_sentinel p; pc_sequencer_oracle p].

Lemma pools_loop_NoDup l : forall ms addrs ms' addrs',
  NoDup ms -> NoDup addrs -> pools_loop (ms, addrs) l = Ok (ms', addrs') ->
  NoDup ms' /\ NoDup addrs' /\ ms' = ms ++ (pc_market <$> l) /\
  addrs' = addrs ++ concat (pool_addrs <$> l) /\ Forall (fun p => pc_oracle p <> 0) l.
Proof.
  induction l as [|p l IH]; intros ms addrs ms' addrs' Hm Ha H; cbn [pools_loop] in H.
  { injection H as <- <-. rewrite !app_nil_r. by repeat split; auto. }
  apply bind_Ok in H as ([ms1 a1] & H1 & H). unfold pool_step in H1.
  destruct (contains ms (pc_market p)) eqn:Em; [done|]. apply bool_decide_eq_false in Em.
  apply bind_Ok in H1 as (b1 & Hb1 & H1). apply push_new_NoDup in Hb1 as [? ->]; [|done].
  destruct (Z.eqb_spec (pc_oracle p) 0); [done|].
  apply bind_Ok in H1 as (b2 & Hb2 & [= <- <-]). apply push_new_NoDup in Hb2 as [? ->]; [|done].
  apply IH in H as (? & ? & -> & -> & ?); [| |done].
  - split; [done|]. split; [done|]. unfold pool_addrs at 2. cbn [fmap list_fmap concat].
    rewrite <- !app_assoc. split; [done|]. split; [done|]. by constructor.
  - apply NoDup_app. split; [done|]. split; [|apply NoDup_singleton].
    intros x Hx ->%list_elem_of_singleton. done.
Qed.

Lemma assets_loop_NoDup l :
  assets_loop l = Ok tt -> NoDup (as_asset <$> l) /\ NoDup (as_underlying <$> l).
Proof.
  induction l as [|a l IH]; cbn [assets_loop fmap list_fmap]; intros H; [by split; constructor|].
  destruct (existsb _ l) eqn:E; [done|]. destruct (IH H) as [H1 H2].
  assert (forall b, b ∈ l -> as_asset b <> as_asset a /\ as_underlying b <> as_underlying a) as Hne.
  { intros b Hb. apply not_true_iff_false in E.
    destruct (Z.eqb_spec (as_asset b) (as_asset a)) as [E1|], (Z.eqb_spec (as_underlying b) (as_underlying a)) as [E2|];
      try done; exfalso; apply E, existsb_exists; exists b; (split; [by apply list_elem_of_In|]).
    all: by rewrite ?E1, ?E2, ?Z.eqb_refl, ?orb_true_r. }
  split; constructor; try done; intros (b & Eb & Hb)%list_elem_of_fmap; by apply Hne in Hb as [? ?].
Qed.

(** A validated configuration is unambiguous: no market and no contract address is named
    twice (so a log's emitter has one role), every pool has an oracle, and the asset ids and
    the underlying tokens are in bijection: one lookup undoes the other. *)
Theorem validated_config_unambiguous cfg :
  validate cfg = Ok tt ->
  NoDup (pc_market <$> cf_pools cfg) /\ NoDup (concat (pool_addrs <$> cf_pools cfg)) /\
  Forall (fun p => pc_oracle p <> 0) (cf_pools cfg) /\
  forall a u, underlying_of cfg a = Some u <-> option_map as_asset (asset_by_underlying cfg u) = Some a.
Proof.
  unfold validate. intros H. destruct (_ =? _)%nat; [done|]. destruct (27 <? _); [done|].
  apply bind_Ok in H as ([ms addrs] & Hp & H).
  apply pools_loop_NoDup in Hp as (H1 & H2 & -> & -> & H3); [|constructor..].
  split; [done|]. split; [done|]. split; [done|]. apply assets_loop_NoDup in H as [Ha Hu].
  intros a u. unfold underlying_of, asset_by_underlying. split.
  - destruct (List.find _ _) as [x|] eqn:E; [|done]. cbn [option_map]. intros [= <-].
    apply (find_key_inv as_asset) in E as [Hx <-]. by rewrite (find_key as_underlying _ x Hu Hx).
  - destruct (List.find _ _) as [x|] eqn:E; [|done]. cbn [option_map]. intros [= <-].
    apply (find_key_inv as_underlying) in E as [Hx <-]. by rewrite (find_key as_asset _ x Ha Hx).
Qed.

Definition ex_config (decimals : Z) : Config :=
  mkConfig 1 [mkPool 100 1 101 102 103 0 0 [] 0; mkPool 110 2 111 112 113 114 0 [] 0]
    [mkAsset 1000 0 0 false false 0 6; mkAsset 1001 1 1 false false 0 6] []
    (mkParams 5000 950000000000000000 200000000000 decimals TokenMath35 PositionBase V3) 0.

Lemma validated_config_unambiguous_witness :
  validate (ex_config 8) = Ok tt /\ NoDup (pc_market <$> cf_pools (ex_config 8)).
Proof.
  split; [vm_compute; reflexivity|].
  apply (validated_config_unambiguous (ex_config 8)). vm_compute. reflexivity.
Defined.

(** The leg [encode] builds is the quote's: for the configured protocol and the chosen
    options, it repays exactly the option's amount against the quote's borrower, out of a
    flash loan of the repaid asset that covers it, and both amounts fit the wire. *)
Theorem encoded_leg_is_funded cfg q legs funding recipient plan :
  encode cfg q legs funding recipient = Ok plan ->
  exists repay seize pool,
    q_repay_options q !! Z.to_nat (lc_repay legs) = Some repay /\
    q_seize_options q !! Z.to_nat (lc_seize legs) = Some seize /\
    pool_by_market cfg (pk_market (q_key q)) = Some pool /\
    pk_protocol (q_key q) = cf_protocol cfg /\ recipient <> 0 /\
    lq_provider plan = callback_provider (fr_callback funding) /\
    ll_repay_amount (lq_leg plan) = ro_max_repay repay /\
    fr_asset funding = ro_asset repay /\ lq_flash_amount plan = fr_amount funding /\
    ll_repay_amount (lq_leg plan) <= lq_flash_amount plan <= umax 128 /\
    ll_borrower (lq_leg plan) = pk_user (q_key q) /\ ll_market (lq_leg plan) = pc_address pool /\
    underlying_of cfg (ro_asset repay) = Some (lq_debt_asset plan) /\
    underlying_of cfg (so_asset seize) = Some (ll_collateral_asset (lq_leg plan)).
Proof.
  unfold encode. intros H. destruct (Z.eqb_spec (pk_protocol (q_key q)) (cf_protocol cfg)); [|done].
  cbn [negb] in H. apply bind_Ok in H as (repay & Hr%ok_or_Ok & H).
  apply bind_Ok in H as (seize & Hs%ok_or_Ok & H). case_bool_decide as Hcb; [|done]. cbn [negb] in H.
  destruct (Z.eqb_spec recipient 0); [done|].
  destruct (Z.eqb_spec (fr_asset funding) (ro_asset repay)); [|done]. cbn [negb] in H.
  destruct (Z.ltb_spec (fr_amount funding) (ro_max_repay repay)); [done|].
  apply bind_Ok in H as (pool & Hp%ok_or_Ok & H). apply bind_Ok in H as (da & Hd%ok_or_Ok & H).
  apply bind_Ok in H as (ca & Hc%ok_or_Ok & H). unfold wire in H.
  apply bind_Ok in H as (fa & [-> [Hf0 Hf1]]%ok_or_Ok%try_from_Some & H).
  apply bind_Ok in H as (ra & [-> _]%ok_or_Ok%try_from_Some & [= <-]).
  exists repay, seize, pool. cbn. split_and!; done.
Qed.

Definition ex_quote : Quote :=
  mkQuote 0 (mkKey 1 1 7) [mkRepay 1 900 0 None ByAsset] [mkSeize 0 945 0 (Static 0) 0 ByAsset].
Definition ex_plan : LiquidationPlan :=
  mkLiqPlan FAave 55 1001 1000 (mkLeg XAaveV3 100 7 1000 900).

Lemma encoded_leg_is_funded_witness :
  encode (ex_config 8) ex_quote PREFERRED (mkRoute FAave 55 1 1000 5 AaveExecuteOperation) 99 = Ok ex_plan /\
  exists repay seize pool : _, q_repay_options ex_quote !! Z.to_nat 0 = Some repay /\
    ll_repay_amount (lq_leg ex_plan) = ro_max_repay repay /\
    q_seize_options ex_quote !! Z.to_nat 0 = Some seize /\
    pool_by_market (ex_config 8) 1 = Some pool.
Proof.
  split; [vm_compute; reflexivity|].
  destruct (encoded_leg_is_funded (ex_config 8) ex_quote PREFERRED
    (mkRoute FAave 55 1 1000 5 AaveExecuteOperation) 99 ex_plan) as (r & s & p & Hr & Hs & Hp & _ & _ & _ & Ha & _).
  - vm_compute. reflexivity.
  - exists r, s, p. repeat split; assumption.
Defined.

(** A configuration with 19 to 27 oracle decimals validates and then never yields a health
    factor: the check admits up to 27, [finish] lifts values by [10^(18 - decimals)] and fails
    on every position. *)
Theorem decimals_above_18_unusable cfg pos px h :
  18 < lp_oracle_decimals (cf_liquidation cfg) <= 27 ->
  health_with (cf_liquidation cfg) pos px <> Ok h.
Proof.
  intros Hd H. unfold health_with in H. apply bind_Ok in H as (m & _ & H).
  apply bind_Ok in H as (acc & Ha & H). unfold finish in H. apply bind_Ok in H as (w & _ & H).
  apply bind_Ok in H as (hf & _ & H). apply bind_Ok in H as (x & [_ Hle]%ok_or_Ok%checked_sub_Some & _).
  rewrite (account_at_decimals _ _ _ _ _ Ha) in Hle. lia.
Qed.

Lemma decimals_above_18_unusable_witness :
  validate (ex_config 20) = Ok tt /\
  forall h, health_with (cf_liquidation (ex_config 20)) (ex_pos 250000000) ex_px <> Ok h.
Proof.
  split; [vm_compute; reflexivity|]. intros h.
  apply (decimals_above_18_unusable (ex_config 20)). vm_compute. split; [reflexivity|discriminate].
Defined.
