(* ===== verification/Crossing.v ===== *)
(** What an adapter promises the engine about its liquidation price, and what the engine and any
    adapter that keeps the promise give together.

    The engine registers a threshold at the liquidation price of each asset a position depends
    on ([crates/liq-engine/src/engine.rs]); that nobody is left behind needs the price to
    split the axis: health at least one on one side of it, below one on the other. *)

From S2P Require Import Prelude Fixed Mask Types Interner Columns Undo Store Halt Heap Flash Bonus.
From S2P Require Import Eligible Candidate Threshold Bands Engine Adapter.
Local Open Scope Z_scope.

(** Health at the prices with [asset] at [raw], wherever it evaluates. *)
Definition at_price (P : Protocol) (pos : PositionRef) (px : PriceVector) (asset : AssetId) (raw : Z)
    (Q : Z -> Prop) : Prop :=
  forall v k, set_price px asset raw = Ok v -> pt_health P pos v = Ok k -> Q (h_hf k).

(** The promise, on the positions, prices and assets of [dom]. *)
Class SplitsPrices (P : Protocol) (dom : PositionRef -> PriceVector -> AssetId -> Prop) : Prop := {
  splits_entry pos px asset r : pt_liquidation_price P pos px asset = Ok (Some r) ->
    exists c, price_entry px asset = Some c;
  splits_u256 pos px asset r : dom pos px asset -> prices_ok px ->
    pt_liquidation_price P pos px asset = Ok (Some r) -> u256 (p_price r);
  splits_sides pos px asset r : dom pos px asset -> prices_ok px ->
    pt_liquidation_price P pos px asset = Ok (Some r) ->
    (forall raw, u256 raw -> at_price P pos px asset raw (fun hf => RAY <= hf <-> p_price r <= raw)) \/
    (forall raw, u256 raw -> at_price P pos px asset raw (fun hf => RAY <= hf <-> raw <= p_price r)) }.

(** The present price is one of the prices the promise speaks of. *)
Lemma at_price_now P pos px asset c h (Q : Z -> Prop) :
  price_entry px asset = Some c -> pt_health P pos px = Ok h ->
  at_price P pos px asset (p_price c) Q -> Q (h_hf h).
Proof.
  intros Hc Hh HP. apply (HP px); [|done]. unfold set_price. rewrite Hc. unfold price_entry in Hc.
  destruct (px !! Z.to_nat asset) as [e|] eqn:Ee; [|done]. destruct (_ =? _); [|done]. injection Hc as <-.
  f_equal. apply list_insert_id. rewrite Ee. f_equal. by destruct e.
Qed.

Section EndToEnd.
Context {B : Type} `{BitSet B} {R : Type} `{RouteCache R}.

Lemma crossing_seen (P : Protocol) dom `{SplitsPrices P dom} (assets queue : nat) (empty : B)
    (pre post : list EOp) (op : EOp) (w : World R) (id : PositionId) (pos : PositionRef)
    (px : PriceVector) (h : Health) (s : nat) (row : MarketRow) (r : Price) :
  let e := engine_run (engine_new assets queue empty) pre in
  let e1 := engine_step e op in
  let asset := mr_asset row in
  op_world op = Some w -> evaluated_on (e_px e1) w id px asset -> id ∈ swept e op -> snd (engine_exec e op) = Ok tt ->
  view_position w id = Ok pos -> world_protocol w (pk_protocol (pr_key pos)) = Ok P ->
  dom pos px asset -> prices_ok px ->
  pt_health P pos px = Ok h -> has_debt h = true -> RAY <= h_hf h ->
  s ∈ iter (h_price_sensitivity h) -> pr_markets pos !! s = Some row ->
  pt_liquidation_price P pos px asset = Ok (Some r) ->
  forallb (fun op => negb (is_load op)) post = true ->
  run_folds (engine_new assets queue empty) (pre ++ op :: post) <= umax 32 ->
  seen e1 post id \/
  exists c', e_px (engine_run e1 post) !! Z.to_nat asset = Some c' /\
    (u256 (p_price c') -> at_price P pos px asset (p_price c') (fun hf => RAY <= hf)).
Proof.
  intros e e1 asset Hw Hov Hid Hok Hpos Hp Hdom Hpx Hh Hdebt Hhf Hin Hrow Hr Hl Hn.
  destruct (splits_entry _ _ _ _ Hr) as (c & Hce).
  pose proof (price_entry_u256 _ _ _ Hpx Hce) as Hcu.
  assert (e_px e1 !! Z.to_nat asset = Some c) as Hc.
  { rewrite <- (evaluated_on_price _ _ _ _ _ Hov). unfold price_entry in Hce.
    destruct (px !! Z.to_nat asset); [|done]. by destruct (_ =? _). }
  destruct (crossing_kept assets queue empty pre post op w id pos P px h s row c r
    Hw Hov Hid Hok Hpos Hp Hh Hdebt Hin Hrow Hc Hr (splits_u256 _ _ _ _ Hdom Hpx Hr) Hl Hn)
    as [?|(c' & Hc' & Hdn & Hup)]; [by left|right]. exists c'. split; [done|]. intros Hu'.
  destruct (splits_sides _ _ _ _ Hdom Hpx Hr) as [Hs|Hs].
  - pose proof (at_price_now _ _ _ _ _ _ _ Hce Hh (Hs _ Hcu)) as Hnow. cbv beta in Hnow.
    intros v k Hv Hk. apply (Hs _ Hu' v k Hv Hk). apply Hdn. by apply Hnow.
  - pose proof (at_price_now _ _ _ _ _ _ _ Hce Hh (Hs _ Hcu)) as Hnow. cbv beta in Hnow.
    intros v k Hv Hk. apply (Hs _ Hu' v k Hv Hk). apply Hup. by apply Hnow.
Qed.
End EndToEnd.
