(* ===== verification/AaveEngine.v ===== *)
(** The Aave V3 adapter as the engine's protocol ([crates/liq-adapters/aave-v3/src/lib.rs]) and
    what the engine and the adapter give together: a position that the price of one asset
    alone would make unhealthy has been looked at again. *)

From S2P Require Import Prelude Fixed Mask Types Interner Columns Undo Store StoreUnwind StoreThms Halt Heap Flash Bonus.
From S2P Require Import Eligible Candidate Threshold Bands Engine Bisect Adapter AaveMath AaveHealth AaveSolve AaveMono.
From S2P Require Import AaveGrow AaveQuote Crossing.
Local Open Scope Z_scope.

(** [impl Protocol for AaveV3]. *)
Definition aave_v3 (protocol : ProtocolId) (lp : LiquidationParams) : Protocol :=
  mkProtocol protocol (health_with lp) (liquidation_price lp) (time_to_cross lp) (quote lp).

Lemma liquidation_price_u256 lp pos px asset r :
  prices_ok px -> liquidation_price lp pos px asset = Ok (Some r) -> u256 (p_price r).
Proof.
  intros Hpx H. pose proof (oracle_scale_pos lp).
  apply liquidation_price_parts in H as (p & Hp & _ & [(E & Hb & _)|(E & Hb & _)]);
    [unfold uint_ok; nia..|]. by intros e; apply price_entry_u256.
Qed.

(** Where the adapter splits the prices: version 3, and an asset held on one side only. *)
Definition one_sided (lp : LiquidationParams) (pos : PositionRef) (px : PriceVector) (asset : AssetId) : Prop :=
  lp_version lp = V3 /\ (only_collateral pos asset \/ only_debt pos asset).

#[export] Instance aave_splits pid lp : SplitsPrices (aave_v3 pid lp) (one_sided lp).
Proof.
  split; cbn [aave_v3 pt_liquidation_price].
  - intros pos px asset r H. unfold liquidation_price in H. apply bind_Ok in H as (held & _ & H).
    destruct held; [|done]. apply bind_Ok in H as (e & He & _). apply ok_or_Ok in He. eauto.
  - intros pos px asset r _. apply liquidation_price_u256.
  - intros pos px asset r [Hver Hside] Hpx Hr.
    destruct (threshold_sides lp pos px asset r Hver Hpx Hr) as [Hcoll Hdeb].
    destruct Hside as [Ho|Ho]; [left; exact (Hcoll Ho)|right; exact (Hdeb Ho)].
Qed.

Section EndToEnd.
Context {B : Type} `{BitSet B} {R : Type} `{RouteCache R}.

(** C1. The engine and the Aave adapter together leave no position behind on the price of one
    asset. Take any run of the engine and a step that evaluates a position of a version-3 pool
    and finds it healthy, on prices [px]: the engine's own, with the overlay of the position's
    protocol and market on them if the world has one. Let the adapter give a liquidation price
    on an asset that the position holds on one side only and the overlay does not price. As
    long as the run goes on without reloading the price vector (a reload evaluates nothing) and
    makes fewer than 2^32 folds, either a later step evaluates the position again (or finds it
    benched as unfundable), or the position as it was evaluated is still healthy at the price
    the asset has come to, the other prices of [px] unchanged. *)
Theorem aave_crossing_is_seen (assets queue : nat) (empty : B) (pre post : list EOp) (op : EOp)
    (w : World R) (id : PositionId) (pos : PositionRef) (pid : ProtocolId) (lp : LiquidationParams)
    (px : PriceVector) (h : Health) (s : nat) (row : MarketRow) (r : Price) :
  let e := engine_run (engine_new assets queue empty) pre in
  let e1 := engine_step e op in
  let asset := mr_asset row in
  op_world op = Some w -> evaluated_on (e_px e1) w id px asset -> id ∈ swept e op -> snd (engine_exec e op) = Ok tt ->
  view_position w id = Ok pos -> world_protocol w (pk_protocol (pr_key pos)) = Ok (aave_v3 pid lp) ->
  lp_version lp = V3 -> prices_ok px ->
  only_collateral pos asset \/ only_debt pos asset ->
  health_with lp pos px = Ok h -> has_debt h = true -> RAY <= h_hf h ->
  s ∈ iter (h_price_sensitivity h) -> pr_markets pos !! s = Some row ->
  liquidation_price lp pos px asset = Ok (Some r) ->
  forallb (fun op => negb (is_load op)) post = true ->
  run_folds (engine_new assets queue empty) (pre ++ op :: post) <= umax 32 ->
  seen e1 post id \/
  exists c', e_px (engine_run e1 post) !! Z.to_nat asset = Some c' /\
    (u256 (p_price c') -> hf_when lp pos px asset (p_price c') (fun hf => RAY <= hf)).
Proof.
  intros e e1 asset Hw Hov Hid Hok Hpos Hp Hver Hpx Hside.
  exact (crossing_seen (aave_v3 pid lp) (one_sided lp) assets queue empty pre post op w id pos px h s row r
    Hw Hov Hid Hok Hpos Hp (conj Hver Hside) Hpx).
Qed.
End EndToEnd.

(** ** A run *)

(** A store that holds the example's position, and an engine on it. *)
Definition aave_store : StateStore :=
  fold_left (fun s w => fst (run_setter w s))
    (replicate 10 (WPush 2 (blank 9 0)) ++
     [WPush 2 (ex_reserve 0 0); WPush 2 (ex_reserve 1 0); WIntern wit_key;
      WSupply 0 10 1000000000; WDebt 0 11 400000000; WSlotExtra 0 10 (mkExtra 1 0 0 0)])
    (store_new 1000).
(** The pool's oracle has the debt at nine tenths of its canonical price. *)
Definition aave_world : World DepthOnlyRouteCache :=
  mkWorld aave_store 1000 [aave_v3 1 ex_lp] sample_index (mkDepthOnly sample_index) HAIRCUT_NONE
    (Some (fun _ _ => [(1, RAY / 10 * 9)])).
Definition aave_px : PriceVector := [ex_price 0; mkPrice 1 (RAY / 10 * 9) Canonical 1 1000].
Definition aave_tick (price : Z) : EOp := ETick aave_world (mkPrice 0 price Canonical 2 1012).
Definition aave_engine : Engine (list bool) :=
  engine_step (engine_run (engine_new 2 16 []) [ELoad ex_px]) (EResync aave_world).
Definition aave_pos : PositionRef :=
  match view_position aave_world 0 with
  | Ok pos => pos
  | Err _ => mkPosRef 0 wit_key 0 [] [] EXTRA_ZERO [] [] 0
  end.

(** A fall to nine tenths leaves the position alone and healthy, a fall below 0.45, where it
    crosses at the pool's price of the debt, sweeps it. *)
Lemma aave_crossing_is_seen_witness :
  swept aave_engine (aave_tick (RAY / 10 * 9)) = [] /\
  swept aave_engine (aave_tick (RAY / 100 * 44)) = [0%nat] /\
  (seen aave_engine [aave_tick (RAY / 10 * 9)] 0 \/
   exists c', e_px (engine_run aave_engine [aave_tick (RAY / 10 * 9)]) !! Z.to_nat 0 = Some c' /\
     (u256 (p_price c') -> hf_when ex_lp aave_pos aave_px 0 (p_price c') (fun hf => RAY <= hf))).
Proof.
  split; [vm_compute; reflexivity|]. split; [vm_compute; reflexivity|]. unfold aave_engine.
  assert (e_px (engine_step (engine_run (engine_new 2 16 ([] : list bool)) [ELoad ex_px])
    (EResync aave_world)) = ex_px) as Epx by (vm_compute; reflexivity).
  eapply (aave_crossing_is_seen 2 16 ([] : list bool) [ELoad ex_px] [aave_tick (RAY / 10 * 9)]
    (EResync aave_world) aave_world 0 aave_pos 1 ex_lp aave_px
    (mkHealth 2222222222222222222000000000 360000000000000000000 1000000000000000000000 3072 HHealthy) 10
    (ex_reserve 0 0) (mkPrice 0 (RAY / 100 * 45) (Derived [0]) 1 1000)); rewrite ?Epx.
  - reflexivity.
  - exists [(1%nat, RAY, 1000)]. split; vm_compute; reflexivity.
  - assert (swept (engine_run (engine_new 2 16 ([] : list bool)) [ELoad ex_px]) (EResync aave_world)
      = [0%nat]) as -> by (vm_compute; reflexivity). left.
  - vm_compute; reflexivity.
  - vm_compute; reflexivity.
  - reflexivity.
  - reflexivity.
  - repeat constructor; vm_compute; discriminate.
  - left. vm_compute; reflexivity.
  - vm_compute; reflexivity.
  - vm_compute; reflexivity.
  - vm_compute; discriminate.
  - assert (iter 3072 = [10%nat; 11%nat]) as E by (vm_compute; reflexivity).
    cbn [h_price_sensitivity]. rewrite E. left.
  - vm_compute; reflexivity.
  - vm_compute; reflexivity.
  - reflexivity.
  - vm_compute; discriminate.
Defined.
