(* ===== verification/Morpho.v ===== *)
(** Morpho Blue ([crates/liq-adapters/morpho-blue/src]): arithmetic ([math.rs]), the loan row
    ([layout.rs]), health ([health.rs]), crossings ([solve.rs]), the quote ([quote.rs]) and
    [encode] ([lib.rs]).

    Every step rounds down or up, never to nearest. A market is two rows of the store: slot 0
    is the loan side, whose body is a 192-byte view of twelve cells, slot 1 the collateral
    header. *)

From S2P Require Import Prelude Fixed Mask Types Columns Undo Store Halt Flash Bonus Candidate Engine Bytes Wire.
From S2P Require Import Bisect Adapter.
Local Open Scope Z_scope.

(** * Arithmetic *)

Definition VIRTUAL_SHARES : Z := 1000000.
Definition VIRTUAL_ASSETS : Z := 1.
Definition ORACLE_PRICE_SCALE : Z := 10 ^ 36.
Definition LIQUIDATION_CURSOR : Z := 300000000000000000.
Definition MAX_LIF : Z := 1150000000000000000.
Definition HF_THRESHOLD_WAD : Z := WAD.

Definition mul_div_down (a b d : Z) : PRes Z := fixed (mul_div a b d Down).
Definition mul_div_up (a b d : Z) : PRes Z := fixed (mul_div a b d Up).
Definition w_mul_down (a b : Z) : PRes Z := mul_div_down a b WAD.
Definition w_div_down (a b : Z) : PRes Z := mul_div_down a WAD b.
Definition w_div_up (a b : Z) : PRes Z := mul_div_up a WAD b.

Definition to_shares_down (assets total_assets total_shares : Z) : PRes Z :=
  let? s := overflow (checked_add 256 total_shares VIRTUAL_SHARES) in
  let? a := overflow (checked_add 256 total_assets VIRTUAL_ASSETS) in
  mul_div_down assets s a.
Definition to_shares_up (assets total_assets total_shares : Z) : PRes Z :=
  let? s := overflow (checked_add 256 total_shares VIRTUAL_SHARES) in
  let? a := overflow (checked_add 256 total_assets VIRTUAL_ASSETS) in
  mul_div_up assets s a.
Definition to_assets_down (shares total_assets total_shares : Z) : PRes Z :=
  let? a := overflow (checked_add 256 total_assets VIRTUAL_ASSETS) in
  let? s := overflow (checked_add 256 total_shares VIRTUAL_SHARES) in
  mul_div_down shares a s.
Definition to_assets_up (shares total_assets total_shares : Z) : PRes Z :=
  let? a := overflow (checked_add 256 total_assets VIRTUAL_ASSETS) in
  let? s := overflow (checked_add 256 total_shares VIRTUAL_SHARES) in
  mul_div_up shares a s.

Definition w_taylor_compounded (rate elapsed : Z) : PRes Z :=
  let? first := overflow (checked_mul 256 rate elapsed) in
  let? two_wad := overflow (checked_mul 256 WAD 2) in
  let? three_wad := overflow (checked_mul 256 WAD 3) in
  let? second := mul_div_down first first two_wad in
  let? third := mul_div_down second first three_wad in
  overflow (let! v := checked_add 256 first second in checked_add 256 v third).

Definition asset_unit (decimals : Z) : PRes Z := overflow (checked_pow 10 decimals).

(** * The loan row *)

Record LoanRow := mkLoan {
  lr_total_supply_assets : Z; lr_total_supply_shares : Z; lr_total_borrow_assets : Z;
  lr_total_borrow_shares : Z; lr_last_borrow_rate : Z; lr_fee : Z; lr_lltv : Z;
  lr_morpho_id : Z; lr_oracle : Z; lr_irm : Z; lr_coll_asset : Z; lr_coll_decimals : Z;
  lr_flags : Z; lr_pad : Z }.

Definition LOAN_PRICED : Z := 1.
Definition UNMAPPED_ASSET : Z := umax 16.
Definition LAST_MARKET : Z := 63999.
Definition LOAN_SLOT : nat := 0.
Definition COLL_SLOT : nat := 1.

(** Memory order: integers are little-endian, byte arrays as they stand. *)
Definition le (n : nat) (x : Z) : list Z := rev (be n x).
Definition of_le (l : list Z) : Z := of_be (rev l).
Definition LOAN_CELLS : nat := 12.

Definition cell_bytes (cells : list Z) : list Z := concat (map (le 16) cells).
Definition byte_cells (n : nat) (b : list Z) : list Z :=
  map (fun k => of_le (take 16 (drop (16 * k) b))) (seq 0 n).

(** [row.body::<LoanRow>()] and the write through [body_mut]. *)
Definition loan_of (row : MarketRow) : LoanRow :=
  let b := cell_bytes (take LOAN_CELLS (mr_body row)) in
  let f o n := take n (drop o b) in
  mkLoan (of_le (f 0 16)%nat) (of_le (f 16 16)%nat) (of_le (f 32 16)%nat) (of_le (f 48 16)%nat)
    (of_le (f 64 16)%nat) (of_le (f 80 16)%nat) (of_le (f 96 16)%nat) (of_be (f 112 32)%nat)
    (of_be (f 144 20)%nat) (of_be (f 164 20)%nat) (of_le (f 184 2)%nat) (of_le (f 186 1)%nat)
    (of_le (f 187 1)%nat) (of_be (f 188 4)%nat).

Definition loan_bytes (l : LoanRow) : list Z :=
  le 16 (lr_total_supply_assets l) ++ le 16 (lr_total_supply_shares l) ++
  le 16 (lr_total_borrow_assets l) ++ le 16 (lr_total_borrow_shares l) ++
  le 16 (lr_last_borrow_rate l) ++ le 16 (lr_fee l) ++ le 16 (lr_lltv l) ++
  be 32 (lr_morpho_id l) ++ be 20 (lr_oracle l) ++ be 20 (lr_irm l) ++ le 2 (lr_coll_asset l) ++
  le 1 (lr_coll_decimals l) ++ le 1 (lr_flags l) ++ be 4 (lr_pad l).

Definition put_loan (row : MarketRow) (l : LoanRow) : MarketRow :=
  mkRow (mr_asset row) (mr_price_feed row) (mr_decimals row) (mr_flags row) (mr_hub_slot row)
    (mr_hub_market row) (mr_last_update row)
    (byte_cells LOAN_CELLS (loan_bytes l) ++ drop LOAN_CELLS (mr_body row)).

(** * Accrual and incentive *)

(** The accrued totals: supplied assets and shares, borrowed assets and shares. *)
Definition accrued (row : LoanRow) (last_update ts : Z) : PRes (Z * Z * Z * Z) :=
  if ts <? last_update then Err TimestampBeforeUpdate else
  let supply_a := lr_total_supply_assets row in
  let supply_s := lr_total_supply_shares row in
  let borrow_a := lr_total_borrow_assets row in
  let borrow_s := lr_total_borrow_shares row in
  let elapsed := wrapping_sub 64 ts last_update in
  if (elapsed =? 0) || (lr_last_borrow_rate row =? 0) then Ok (supply_a, supply_s, borrow_a, borrow_s) else
  let? growth := w_taylor_compounded (lr_last_borrow_rate row) elapsed in
  let? interest := w_mul_down borrow_a growth in
  let? borrow_a := overflow (checked_add 256 borrow_a interest) in
  let? supply_a := overflow (checked_add 256 supply_a interest) in
  if negb (lr_fee row =? 0) && negb (interest =? 0) then
    let? fee_amount := w_mul_down interest (lr_fee row) in
    let? base := underflow (checked_sub supply_a fee_amount) in
    let? fee_shares := to_shares_down fee_amount base supply_s in
    let? supply_s := overflow (checked_add 256 supply_s fee_shares) in
    Ok (supply_a, supply_s, borrow_a, borrow_s)
  else Ok (supply_a, supply_s, borrow_a, borrow_s).

Definition liquidation_incentive_factor (lltv : Z) : PRes Z :=
  let? rest := underflow (checked_sub WAD lltv) in
  let? inner := w_mul_down LIQUIDATION_CURSOR rest in
  let? den := underflow (checked_sub WAD inner) in
  let? lif := w_div_down WAD den in
  Ok (if MAX_LIF <? lif then MAX_LIF else lif).

Definition bonus_ray (lif : Z) : PRes Z :=
  underflow (let! b := checked_sub lif WAD in checked_mul 256 b WAD_RAY_RATIO).

Definition hf_wad_to_ray (hf_wad : Z) : PRes Z :=
  if hf_wad =? umax 256 then Ok (umax 256) else overflow (checked_mul 256 hf_wad WAD_RAY_RATIO).

Definition value_wad (amount price_ray decimals : Z) : PRes Z :=
  let? unit := asset_unit decimals in
  let? d := overflow (checked_mul 256 unit WAD_RAY_RATIO) in
  mul_div_down amount price_ray d.

(** * Health *)

Record Terms := mkTerms {
  te_loan : LoanRow; te_loan_row : MarketRow; te_coll_row : MarketRow; te_borrow_shares : Z;
  te_collateral : Z; te_borrow_a : Z; te_borrow_s : Z; te_borrowed : Z; te_oracle : Z;
  te_max_borrow : Z; te_p_loan : Z; te_p_coll : Z }.

Definition cell (v : list Z) (slot : nat) : Z := default 0 (v !! slot).

Definition price_ray (px : PriceVector) (asset : AssetId) : PRes Z :=
  ok_or (let! e := price_entry px asset in if p_price e =? 0 then None else Some (p_price e))
    (MissingPrice asset).

(** [IOracle.price]: collateral in loan units, scaled by 1e36. *)
Definition oracle_price (p_coll p_loan coll_decimals loan_decimals : Z) : PRes Z :=
  match loan_decimals ?= coll_decimals with
  | Eq => mul_div_down p_coll ORACLE_PRICE_SCALE p_loan
  | Gt =>
      let? lift := asset_unit (wrapping_sub 8 loan_decimals coll_decimals) in
      let? scale := overflow (checked_mul 256 ORACLE_PRICE_SCALE lift) in
      mul_div_down p_coll scale p_loan
  | Lt =>
      let? lift := asset_unit (wrapping_sub 8 coll_decimals loan_decimals) in
      let? den := overflow (checked_mul 256 p_loan lift) in
      mul_div_down p_coll ORACLE_PRICE_SCALE den
  end.

Definition prices_matching_oracle (price loan_decimals coll_decimals : Z) : PRes (Z * Z) :=
  if price =? 0 then Err Internal else
  let? (p_loan, p_coll) :=
    match loan_decimals ?= coll_decimals with
    | Eq => Ok (ORACLE_PRICE_SCALE, price)
    | Gt =>
        let? lift := asset_unit (wrapping_sub 8 loan_decimals coll_decimals) in
        let? p := overflow (checked_mul 256 ORACLE_PRICE_SCALE lift) in Ok (p, price)
    | Lt =>
        let? lift := asset_unit (wrapping_sub 8 coll_decimals loan_decimals) in
        let? p := overflow (checked_mul 256 price lift) in Ok (ORACLE_PRICE_SCALE, p)
    end in
  let? back := oracle_price p_coll p_loan coll_decimals loan_decimals in
  if negb (back =? price) then Err Internal else Ok (p_loan, p_coll).

Definition terms (pos : PositionRef) : PRes Terms :=
  let m := pk_market (pr_key pos) in
  let? loan_row := ok_or (pr_markets pos !! LOAN_SLOT) (SlotOutOfRange (mkSlot m LOAN_SLOT)) in
  let? coll_row := ok_or (pr_markets pos !! COLL_SLOT) (SlotOutOfRange (mkSlot m COLL_SLOT)) in
  let loan := loan_of loan_row in
  if flags_contains (mr_flags loan_row) UNPRICED || flags_contains (mr_flags coll_row) UNPRICED ||
     (mr_asset loan_row =? UNMAPPED_ASSET) || (mr_asset coll_row =? UNMAPPED_ASSET) ||
     (Z.land (lr_flags loan) LOAN_PRICED =? 0)
  then Err OracleSourceMismatch else
  let? (_, _, borrow_a, borrow_s) := accrued loan (mr_last_update loan_row) (pr_timestamp pos) in
  let borrow_shares := cell (pr_debt pos) LOAN_SLOT in
  let collateral := cell (pr_supply pos) COLL_SLOT in
  let? borrowed := if borrow_shares =? 0 then Ok 0 else to_assets_up borrow_shares borrow_a borrow_s in
  Ok (mkTerms loan loan_row coll_row borrow_shares collateral borrow_a borrow_s borrowed 0 0 0 0).

(** The health state of [finish]. *)
Definition health_state (t : Terms) (hf debt_value : Z) : HealthState :=
  if RAY <=? hf then HHealthy else
  if te_collateral t =? 0 then HBadDebt debt_value else
  if flags_contains (mr_flags (te_loan_row t)) PAUSED then HBlocked BPaused else HLiquidatable.

Definition finish (t : Terms) (px : PriceVector) : PRes (Terms * Health) :=
  let? p_loan := price_ray px (mr_asset (te_loan_row t)) in
  let? p_coll := price_ray px (mr_asset (te_coll_row t)) in
  let? oracle := oracle_price p_coll p_loan (lr_coll_decimals (te_loan t)) (mr_decimals (te_loan_row t)) in
  let? quoted := mul_div_down (te_collateral t) oracle ORACLE_PRICE_SCALE in
  let? max_borrow := w_mul_down quoted (lr_lltv (te_loan t)) in
  let t := mkTerms (te_loan t) (te_loan_row t) (te_coll_row t) (te_borrow_shares t) (te_collateral t)
             (te_borrow_a t) (te_borrow_s t) (te_borrowed t) oracle max_borrow p_loan p_coll in
  let? hf_wad := if te_borrowed t =? 0 then Ok (umax 256) else mul_div_down max_borrow WAD (te_borrowed t) in
  let? hf := hf_wad_to_ray hf_wad in
  let? sensitivity :=
    if (0 <? te_collateral t) || (0 <? te_borrow_shares t)
    then ok_or (let! m := with_slot EMPTY LOAN_SLOT in with_slot m COLL_SLOT) Internal
    else Ok EMPTY in
  let? debt_value := value_wad (te_borrowed t) p_loan (mr_decimals (te_loan_row t)) in
  let? collateral_value := value_wad (te_collateral t) p_coll (lr_coll_decimals (te_loan t)) in
  Ok (t, mkHealth hf debt_value collateral_value sensitivity (health_state t hf debt_value)).

Definition health (pos : PositionRef) (px : PriceVector) : PRes Health :=
  let? t := terms pos in
  let? (_, h) := finish t px in
  Ok h.

(** * Crossings *)

Definition HORIZON : Z := 315360000.

Definition hf_at_ts (pos : PositionRef) (px : PriceVector) (ts : Z) : PRes Z :=
  let? t := terms (at_time pos ts) in
  let? (_, h) := finish t px in
  if h_hf h =? umax 256 then Ok (umax 256) else mul_div_down (h_hf h) 1 WAD_RAY_RATIO.

Definition time_mid (lo hi : Z) : PRes Z := Ok (wrapping_add 64 lo (wrapping_sub 64 hi lo / 2)).
Definition time_step (pos : PositionRef) (px : PriceVector) (m : Z) : PRes (option unit) :=
  let? hf := hf_at_ts pos px m in
  Ok (if HF_THRESHOLD_WAD <=? hf then Some tt else None).

Definition time_to_cross (pos : PositionRef) (px : PriceVector) : PRes (option Z) :=
  let now := pr_timestamp pos in
  let? start := hf_at_ts pos px now in
  if start =? umax 256 then Ok None else
  if start <? HF_THRESHOLD_WAD then Ok (Some now) else
  let? hi := overflow (checked_add 64 now HORIZON) in
  let? hf_hi := hf_at_ts pos px hi in
  if HF_THRESHOLD_WAD <=? hf_hi then Ok None else
  let? (_, hi, _) := bisect time_mid (time_step pos px) 64 now hi None in
  Ok (Some hi).

(** The inverse of [oracle_price] at [oracle_star], in the asset asked for. *)
Definition invert_oracle (oracle_star p_loan p_coll coll_decimals loan_decimals : Z) (is_coll : bool) : PRes Z :=
  match loan_decimals ?= coll_decimals with
  | Eq =>
      if is_coll then fixed (mul_div oracle_star p_loan ORACLE_PRICE_SCALE Up)
      else fixed (mul_div p_coll ORACLE_PRICE_SCALE oracle_star Down)
  | Gt =>
      let? lift := asset_unit (wrapping_sub 8 loan_decimals coll_decimals) in
      let? scale := overflow (checked_mul 256 ORACLE_PRICE_SCALE lift) in
      if is_coll then fixed (mul_div oracle_star p_loan scale Up)
      else fixed (mul_div p_coll scale oracle_star Down)
  | Lt =>
      let? lift := asset_unit (wrapping_sub 8 coll_decimals loan_decimals) in
      if is_coll then
        let? num := overflow (checked_mul 256 p_loan lift) in
        fixed (mul_div oracle_star num ORACLE_PRICE_SCALE Up)
      else
        let? den := overflow (checked_mul 256 oracle_star lift) in
        fixed (mul_div p_coll ORACLE_PRICE_SCALE den Down)
  end.

Definition liquidation_price (pos : PositionRef) (px : PriceVector) (asset : AssetId) : PRes (option Price) :=
  let? t0 := terms pos in
  let? (t, _) := finish t0 px in
  let is_coll := mr_asset (te_coll_row t) =? asset in
  let is_loan := mr_asset (te_loan_row t) =? asset in
  if negb is_coll && negb is_loan then Ok None else
  if (te_borrowed t =? 0) || (te_collateral t =? 0) then Ok None else
  let? entry := ok_or (price_entry px asset) (MissingPrice asset) in
  let? need := fixed (mul_div (te_borrowed t) WAD (lr_lltv (te_loan t)) Up) in
  let? oracle_star := fixed (mul_div need ORACLE_PRICE_SCALE (te_collateral t) Up) in
  if oracle_star =? 0 then Ok None else
  let? raw := invert_oracle oracle_star (te_p_loan t) (te_p_coll t) (lr_coll_decimals (te_loan t))
                (mr_decimals (te_loan_row t)) is_coll in
  if is_coll && (raw <? 2) then Ok None else
  if negb is_coll && (raw =? 0) then Ok None else
  Ok (Some (mkPrice asset raw (Derived [asset]) (p_block entry) (p_ts entry))).

(** * The quote *)

(** What is repaid and seized at a full close. *)
Definition close_amounts (t : Terms) (lif : Z) : PRes (Z * Z) :=
  let? full_repay := to_assets_up (te_borrow_shares t) (te_borrow_a t) (te_borrow_s t) in
  let? seized := to_assets_down (te_borrow_shares t) (te_borrow_a t) (te_borrow_s t) in
  let? seized := w_mul_down seized lif in
  let? seized := mul_div_down seized ORACLE_PRICE_SCALE (te_oracle t) in
  if te_collateral t <? seized then
    let? quoted := mul_div_up (te_collateral t) (te_oracle t) ORACLE_PRICE_SCALE in
    let? part := w_div_up quoted lif in
    let? shares := to_shares_up part (te_borrow_a t) (te_borrow_s t) in
    let? repay := to_assets_up (Z.min shares (te_borrow_shares t)) (te_borrow_a t) (te_borrow_s t) in
    Ok (repay, te_collateral t)
  else Ok (full_repay, seized).

Definition quote (pos : PositionRef) (px : PriceVector) : PRes (option Quote) :=
  let? t0 := terms pos in
  let? (t, health) := finish t0 px in
  match h_state health with
  | HLiquidatable =>
      let? lif := liquidation_incentive_factor (lr_lltv (te_loan t)) in
      let? bonus := bonus_ray lif in
      let curve := Static bonus in
      let? at_hf := (let? o := fixed (bonus_at_hf curve (h_hf health)) in ok_or o Internal) in
      if negb (at_hf =? bonus) then Err Internal else
      let? (repay, seize) := close_amounts t lif in
      if (repay =? 0) || (seize =? 0) then Err EmptyQuote else
      Ok (Some (mkQuote (pr_id pos) (pr_key pos)
        [mkRepay (mr_asset (te_loan_row t)) repay 0 None ByAsset]
        [mkSeize (mr_asset (te_coll_row t)) seize bonus curve 0 ByAsset]))
  | _ => Ok None
  end.

(** * The deployment and [encode] *)

Record AssetConfig := mkAsset { as_underlying : Address; as_asset : AssetId; as_feed : Z; as_decimals : Z }.
Record SourcePin := mkPin { sp_oracle : Address; sp_collateral : AssetId; sp_loan : AssetId }.
Record Config := mkConfig {
  cf_protocol : ProtocolId; cf_morpho : Address; cf_catalog : MarketId; cf_first_market : MarketId;
  cf_assets : list AssetConfig; cf_price_sources : list SourcePin; cf_pinned_through : Z }.

Inductive ConfigError :=
| ZeroMorpho | MarketCollision | MarketRange | DuplicateAddress (a : Address) | DuplicateAsset (a : AssetId).

(** The loop over the pins, by their whole tuple. *)
Fixpoint pins_loop (pins : list (Address * AssetId * AssetId)) (l : list SourcePin) : Result ConfigError unit :=
  match l with
  | [] => Ok tt
  | p :: l =>
      let key := (sp_oracle p, sp_collateral p, sp_loan p) in
      if contains pins key then Err (DuplicateAddress (sp_oracle p)) else pins_loop (pins ++ [key]) l
  end.
Fixpoint assets_loop (l : list AssetConfig) : Result ConfigError unit :=
  match l with
  | [] => Ok tt
  | a :: l =>
      if existsb (fun b => (as_asset b =? as_asset a) || (as_underlying b =? as_underlying a)) l
      then Err (DuplicateAsset (as_asset a)) else assets_loop l
  end.

Definition validate (cfg : Config) : Result ConfigError unit :=
  if cf_morpho cfg =? 0 then Err ZeroMorpho else
  if (cf_catalog cfg =? cf_first_market cfg)%nat then Err MarketCollision else
  if LAST_MARKET <? Z.of_nat (cf_first_market cfg) then Err MarketRange else
  let? _ := pins_loop [] (cf_price_sources cfg) in
  assets_loop (cf_assets cfg).

Definition asset_by_underlying (cfg : Config) (u : Address) : option AssetConfig :=
  List.find (fun a => as_underlying a =? u) (cf_assets cfg).
Definition underlying_of (cfg : Config) (asset : AssetId) : option Address :=
  option_map as_underlying (List.find (fun a => as_asset a =? asset) (cf_assets cfg)).
Definition oracle_pinned (cfg : Config) (oracle : Address) (collateral loan : AssetId) : bool :=
  existsb (fun p => (sp_oracle p =? oracle) && (sp_collateral p =? collateral) && (sp_loan p =? loan))
    (cf_price_sources cfg).

Definition encode (cfg : Config) (q : Quote) (legs : LegChoice) (funding : FlashRoute)
    (recipient : Address) : PRes LiquidationPlan :=
  if negb (pk_protocol (q_key q) =? cf_protocol cfg) then Err ProtocolMismatch else
  let? repay := ok_or (q_repay_options q !! Z.to_nat (lc_repay legs)) LegOutOfRange in
  let? seize := ok_or (q_seize_options q !! Z.to_nat (lc_seize legs)) LegOutOfRange in
  if negb (bool_decide (callback_provider (fr_callback funding) = fr_provider funding))
  then Err CallbackProviderMismatch else
  if recipient =? 0 then Err ZeroRecipient else
  if negb (fr_asset funding =? ro_asset repay) then Err FundingAssetMismatch else
  if fr_amount funding <? ro_max_repay repay then Err FundingShort else
  let? debt_asset := ok_or (underlying_of cfg (ro_asset repay)) OracleSourceMismatch in
  let? collateral_asset := ok_or (underlying_of cfg (so_asset seize)) OracleSourceMismatch in
  let? flash_amount := wire (fr_amount funding) in
  let? repay_amount := wire (ro_max_repay repay) in
  Ok (mkLiqPlan (fr_provider funding) (fr_source funding) debt_asset flash_amount
        (mkLeg XMorphoBlue (cf_morpho cfg) (pk_user (q_key q)) collateral_asset repay_amount)).

(** * Price reads *)

(** [price_call] is the ABI encoding of [IOracle.price()]. *)

Record PriceRead := mkRead {
  rd_market : MarketId; rd_target : Address; rd_calldata : list Z; rd_tag : Z; rd_assets : list AssetId }.

Definition morpho_price_read (price_call : list Z) (market : MarketId) (rows : list MarketRow) : option PriceRead :=
  let! loan_row := rows !! LOAN_SLOT in
  let! coll_row := rows !! COLL_SLOT in
  if flags_contains (mr_flags loan_row) UNPRICED || flags_contains (mr_flags coll_row) UNPRICED ||
     (mr_asset loan_row =? UNMAPPED_ASSET) || (mr_asset coll_row =? UNMAPPED_ASSET)
  then None else
  let loan := loan_of loan_row in
  if Z.land (lr_flags loan) LOAN_PRICED =? 0 then None else
  if lr_oracle loan =? 0 then None else
  let! tag := checked_add 32 (Z.shiftl (mr_decimals loan_row) 8) (lr_coll_decimals loan) in
  Some (mkRead market (lr_oracle loan) price_call tag [mr_asset loan_row; mr_asset coll_row]).

(** [price_reads]: the markets from [first_market] to the first gap. [rows] is the store's. *)
Fixpoint price_reads_from (price_call : list Z) (fuel : nat) (rows : MarketId -> option (list MarketRow)) (n : MarketId)
    (out : list PriceRead) : list PriceRead :=
  match fuel with
  | O => out
  | S fuel =>
      match rows n with
      | None => out
      | Some market_rows =>
          let out := match morpho_price_read price_call n market_rows with Some read => out ++ [read] | None => out end in
          match checked_add_nat 16 n 1 with
          | Some n => price_reads_from price_call fuel rows n out
          | None => out
          end
      end
  end.
Definition price_reads (price_call : list Z) (cfg : Config) (rows : MarketId -> option (list MarketRow)) : list PriceRead :=
  price_reads_from price_call (Z.to_nat (2 ^ 16)) rows (cf_first_market cfg) [].

(** [decode_prices], from the decoded return word: [None] when it does not decode. *)
Definition decode_prices (read : PriceRead) (ret : option Z) (out : list (AssetId * Z)) : PRes (list (AssetId * Z)) :=
  let? price := ok_or ret ProbeDecode in
  if price =? 0 then Ok out else
  let hi := Z.shiftr (rd_tag read) 8 in
  let? loan_dec := ok_or (try_from 8 (Z.land hi 255)) ProbeDecode in
  let? coll_dec := ok_or (try_from 8 (Z.land (rd_tag read) 255)) ProbeDecode in
  let? (p_loan, p_coll) := map_err (fun _ => ProbeDecode) (prices_matching_oracle price loan_dec coll_dec) in
  match rd_assets read !! 0%nat, rd_assets read !! 1%nat with
  | Some loan, Some coll => Ok (out ++ [(loan, p_loan); (coll, p_coll)])
  | _, _ => Err ProbeDecode
  end.
