(* ===== verification/MorphoThms.v ===== *)
(** The Morpho Blue adapter's answers: the liquidation price splits the prices exactly, the
    quote stays within the position, and with the engine no crossing goes unseen. *)

From S2P Require Import Prelude Fixed Mask Types Interner Columns Undo Store StoreUnwind StoreThms Halt Heap Flash Bonus.
From S2P Require Import Eligible Candidate Threshold Bands Engine Bytes Wire Bisect Adapter Crossing Morpho.
Local Open Scope Z_scope.

(** [impl Protocol for MorphoBlue]. *)
Definition morpho_blue (protocol : ProtocolId) : Protocol :=
  mkProtocol protocol health liquidation_price time_to_cross quote.

(** * Arithmetic *)

Lemma mul_div_down_Ok a b d v :
  0 <= d -> mul_div_down a b d = Ok v -> 0 < d /\ v = a * b / d /\ u256 v.
Proof. intros Hd [H1 H2]%fixed_Ok%mul_div_exact; done. Qed.
Lemma mul_div_up_Ok a b d v :
  0 <= d -> mul_div_up a b d = Ok v -> 0 < d /\ v = div_up (a * b) d /\ u256 v.
Proof. intros Hd [H1 H2]%fixed_Ok%mul_div_exact; done. Qed.

Lemma asset_unit_Ok d v : 0 <= d -> asset_unit d = Ok v -> v = 10 ^ d /\ 0 < v.
Proof.
  unfold asset_unit, checked_pow. intros Hd H%ok_or_Ok. destruct (_ <=? _); [|done].
  injection H as <-. split; [done|]. by apply Z.pow_pos_nonneg.
Qed.

(** The lifts that bring the two tokens to one number of decimals. *)
Definition loan_lift (ld cd : Z) : Z := if cd <? ld then 10 ^ wrapping_sub 8 ld cd else 1.
Definition coll_lift (ld cd : Z) : Z := if ld <? cd then 10 ^ wrapping_sub 8 cd ld else 1.

Lemma wrapping_sub_nonneg a b : 0 <= wrapping_sub 8 a b.
Proof. apply Z.mod_pos_bound. done. Qed.
Lemma loan_lift_pos ld cd : 0 < loan_lift ld cd.
Proof. unfold loan_lift. case_match; [|done]. apply Z.pow_pos_nonneg; [done|]. apply wrapping_sub_nonneg. Qed.
Lemma coll_lift_pos ld cd : 0 < coll_lift ld cd.
Proof. unfold coll_lift. case_match; [|done]. apply Z.pow_pos_nonneg; [done|]. apply wrapping_sub_nonneg. Qed.

#[local] Ltac lifts ld cd :=
  unfold loan_lift, coll_lift; destruct (Z.compare_spec ld cd) as [-> | Hlt | Hlt];
  [rewrite Z.ltb_irrefl
  |rewrite (proj2 (Z.ltb_lt _ _) Hlt), (proj2 (Z.ltb_ge cd ld)) by lia
  |rewrite (proj2 (Z.ltb_lt _ _) Hlt), (proj2 (Z.ltb_ge ld cd)) by lia].
#[local] Ltac lift_step H :=
  let G := fresh in
  apply bind_Ok in H as (? & G & H);
  first [apply asset_unit_Ok in G as [-> ?]; [|by apply wrapping_sub_nonneg]
        |apply ok_or_Ok, checked_mul_Some in G as [-> _]].

Lemma oracle_price_Ok pc pl cd ld o :
  0 <= pl -> oracle_price pc pl cd ld = Ok o ->
  0 < pl /\ o = pc * (ORACLE_PRICE_SCALE * loan_lift ld cd) / (pl * coll_lift ld cd).
Proof.
  unfold oracle_price. intros Hpl. lifts ld cd; intros H; repeat lift_step H.
  - apply mul_div_down_Ok in H as (H1 & -> & _); [|done]. split; [done|]. f_equal; lia.
  - apply mul_div_down_Ok in H as (H1 & -> & _); [|lia]. split; [nia|]. f_equal; lia.
  - apply mul_div_down_Ok in H as (H1 & -> & _); [|lia]. split; [nia|]. f_equal; lia.
Qed.

(** The inverse of the collateral price rounds up, of the loan price down. *)
Lemma invert_oracle_Ok star pl pc cd ld is_coll raw :
  0 <= star -> invert_oracle star pl pc cd ld is_coll = Ok raw ->
  u256 raw /\
  raw = if is_coll then div_up (star * (pl * coll_lift ld cd)) (ORACLE_PRICE_SCALE * loan_lift ld cd)
        else pc * (ORACLE_PRICE_SCALE * loan_lift ld cd) / (star * coll_lift ld cd).
Proof.
  unfold invert_oracle. intros Hs. assert (0 < ORACLE_PRICE_SCALE) by (vm_compute; done).
  lifts ld cd; intros H'; repeat lift_step H'; destruct is_coll; repeat lift_step H';
    (apply fixed_Ok, mul_div_exact in H' as (_ & -> & Hu); [|nia]);
    (split; [done|]); cbn [round_div]; f_equal; lia.
Qed.

Lemma hf_wad_to_ray_one w hf : hf_wad_to_ray w = Ok hf -> (RAY <= hf <-> WAD <= w).
Proof.
  unfold hf_wad_to_ray. destruct (Z.eqb_spec w (umax 256)) as [-> |].
  - intros [= <-]. split; intros _; vm_compute; congruence.
  - intros [-> _]%ok_or_Ok%checked_mul_Some. change RAY with (WAD * WAD_RAY_RATIO).
    assert (0 < WAD_RAY_RATIO) by done. nia.
Qed.

(** The least oracle price at which the debt is covered. *)
Definition oracle_star (borrowed lltv collateral : Z) : Z :=
  div_up (div_up (borrowed * WAD) lltv * ORACLE_PRICE_SCALE) collateral.

Lemma cover_iff b lltv coll o :
  0 < lltv -> 0 < coll ->
  (b <= coll * o / ORACLE_PRICE_SCALE * lltv / WAD <-> oracle_star b lltv coll <= o).
Proof.
  intros Hl Hc. unfold oracle_star. assert (0 < WAD) by done.
  assert (0 < ORACLE_PRICE_SCALE) by (vm_compute; done).
  rewrite le_div_iff, div_up_le_iff by done. rewrite <- div_up_le_iff by done.
  rewrite le_div_iff by done. by rewrite (Z.mul_comm o).
Qed.

(** * Health *)

(** The integers of a position as the store keeps them. *)
Definition cells_ok (pos : PositionRef) : Prop :=
  Forall (uint_ok 128) (pr_supply pos) /\ Forall (uint_ok 128) (pr_debt pos).

Lemma cell_ok v s : Forall (uint_ok 128) v -> uint_ok 128 (cell v s).
Proof.
  unfold cell. intros Hv. destruct (v !! s) eqn:E; [by apply (Forall_lookup_1 _ _ _ _ Hv E)|done].
Qed.

Lemma of_le_nonneg l : bytes_ok l -> 0 <= of_le l.
Proof. intros H. apply of_be_bound. by apply Forall_rev. Qed.
Lemma cell_bytes_ok cells : bytes_ok (cell_bytes cells).
Proof.
  apply Forall_concat, Forall_map, Forall_true. intros c. apply Forall_rev, be_ok.
Qed.
Lemma lltv_nonneg row : 0 <= lr_lltv (loan_of row).
Proof. apply of_le_nonneg, Forall_take, Forall_drop, cell_bytes_ok. Qed.

Lemma terms_Ok pos t :
  cells_ok pos -> terms pos = Ok t ->
  0 <= te_borrowed t /\ 0 <= te_collateral t /\ 0 <= lr_lltv (te_loan t) /\
  te_borrow_shares t = cell (pr_debt pos) LOAN_SLOT /\ te_collateral t = cell (pr_supply pos) COLL_SLOT /\
  (te_borrow_shares t <> 0 -> to_assets_up (te_borrow_shares t) (te_borrow_a t) (te_borrow_s t) = Ok (te_borrowed t)) /\
  (te_borrow_shares t = 0 -> te_borrowed t = 0) /\
  pr_markets pos !! LOAN_SLOT = Some (te_loan_row t) /\ pr_markets pos !! COLL_SLOT = Some (te_coll_row t) /\
  exists sa ss, accrued (te_loan t) (mr_last_update (te_loan_row t)) (pr_timestamp pos) =
    Ok (sa, ss, te_borrow_a t, te_borrow_s t).
Proof.
  intros [Hs Hd] H. unfold terms in H. apply bind_Ok in H as (lrow & Hl%ok_or_Ok & H).
  apply bind_Ok in H as (crow & Hc%ok_or_Ok & H). destruct (_ || _); [done|].
  apply bind_Ok in H as ([[[sa ss] ba] bs] & Ha & H). apply bind_Ok in H as (b & Hb & [= <-]).
  cbn [te_borrowed te_collateral te_loan te_loan_row te_coll_row te_borrow_shares te_borrow_a te_borrow_s].
  split_and!; [| |apply lltv_nonneg|done|done| | |done|done|by exists sa, ss].
  - destruct (_ =? 0); [by injection Hb as <-|]. unfold to_assets_up in Hb.
    apply bind_Ok in Hb as (? & _ & Hb). apply bind_Ok in Hb as (? & _ & Hb).
    by apply fixed_Ok, mul_div_u256 in Hb as [? _].
  - by apply cell_ok.
  - intros Hne. by destruct (Z.eqb_spec (cell (pr_debt pos) LOAN_SLOT) 0).
  - intros E. rewrite E in Hb. by injection Hb as <-.
Qed.

Lemma price_ray_Ok px asset p :
  price_ray px asset = Ok p -> p <> 0 /\ exists e, price_entry px asset = Some e /\ p = p_price e.
Proof.
  unfold price_ray. intros H%ok_or_Ok. destruct (price_entry px asset) as [e|]; [|done].
  destruct (Z.eqb_spec (p_price e) 0); [done|]. injection H as <-. eauto.
Qed.
Lemma price_ray_u256 px asset p : prices_ok px -> price_ray px asset = Ok p -> u256 p.
Proof. intros Hpx (_ & e & He & ->)%price_ray_Ok. by eapply price_entry_u256. Qed.

(** What [finish] computed, and when it calls the position safe. *)
Lemma finish_Ok t px t' h :
  prices_ok px -> 0 <= te_borrowed t -> finish t px = Ok (t', h) ->
  let ld := mr_decimals (te_loan_row t) in
  let cd := lr_coll_decimals (te_loan t) in
  price_ray px (mr_asset (te_loan_row t)) = Ok (te_p_loan t') /\
  price_ray px (mr_asset (te_coll_row t)) = Ok (te_p_coll t') /\
  te_oracle t' = te_p_coll t' * (ORACLE_PRICE_SCALE * loan_lift ld cd) / (te_p_loan t' * coll_lift ld cd) /\
  te_max_borrow t' = te_collateral t * te_oracle t' / ORACLE_PRICE_SCALE * lr_lltv (te_loan t) / WAD /\
  t' = mkTerms (te_loan t) (te_loan_row t) (te_coll_row t) (te_borrow_shares t) (te_collateral t)
         (te_borrow_a t) (te_borrow_s t) (te_borrowed t) (te_oracle t') (te_max_borrow t') (te_p_loan t') (te_p_coll t') /\
  h_state h = health_state t' (h_hf h) (h_debt_value h) /\
  (te_borrowed t = 0 -> h_hf h = umax 256) /\
  (0 < te_borrowed t -> (RAY <= h_hf h <-> te_borrowed t <= te_max_borrow t')).
Proof.
  intros Hpx Hb H. unfold finish in H. apply bind_Ok in H as (pl & Hpl & H).
  apply bind_Ok in H as (pc & Hpc & H). apply bind_Ok in H as (o & Ho & H).
  apply oracle_price_Ok in Ho as [_ Ho]; [|by eapply price_ray_u256].
  apply bind_Ok in H as (q & Hq & H). apply mul_div_down_Ok in Hq as (_ & Hq & _); [|vm_compute; done].
  apply bind_Ok in H as (mb & Hm & H). apply mul_div_down_Ok in Hm as (_ & Hm & _); [|vm_compute; done].
  apply bind_Ok in H as (w & Hw & H). apply bind_Ok in H as (hf & Hh & H).
  apply bind_Ok in H as (sens & _ & H). apply bind_Ok in H as (dv & _ & H).
  apply bind_Ok in H as (cv & _ & [= <- <-]).
  cbn [te_borrowed te_collateral te_loan te_loan_row te_coll_row te_borrow_shares te_borrow_a te_borrow_s
    te_oracle te_max_borrow te_p_loan te_p_coll h_hf h_state h_debt_value] in *.
  split_and!; [done|done|done|by rewrite Hm, Hq|done|done| |].
  - intros E. rewrite E in Hw. injection Hw as <-. unfold hf_wad_to_ray in Hh.
    rewrite Z.eqb_refl in Hh. by injection Hh as <-.
  - intros Hpos. rewrite (hf_wad_to_ray_one _ _ Hh). destruct (Z.eqb_spec (te_borrowed t) 0); [lia|].
    apply mul_div_down_Ok in Hw as (_ & -> & _); [|done]. rewrite le_div_iff by done.
    assert (0 < WAD) by done. nia.
Qed.

Lemma finish_nonneg t px t' h : prices_ok px -> 0 <= te_borrowed t -> finish t px = Ok (t', h) -> 0 <= te_oracle t'.
Proof.
  intros Hpx Hb Hf. apply finish_Ok in Hf as (Hpl & Hpc & -> & _); [|done..].
  pose proof (price_ray_u256 _ _ _ Hpx Hpl). pose proof (price_ray_Ok _ _ _ Hpl) as [? _].
  pose proof (price_ray_u256 _ _ _ Hpx Hpc). set (ld := mr_decimals (te_loan_row t)). set (cd := lr_coll_decimals (te_loan t)).
  pose proof (loan_lift_pos ld cd). pose proof (coll_lift_pos ld cd).
  assert (0 < ORACLE_PRICE_SCALE) by (vm_compute; done). unfold uint_ok in *. apply Z.div_pos; nia.
Qed.

(** Safety as an inequality between the two prices. *)
Lemma safe_iff pos px t h :
  cells_ok pos -> prices_ok px -> terms pos = Ok t -> health pos px = Ok h ->
  0 < te_borrowed t -> 0 < te_collateral t -> 0 < lr_lltv (te_loan t) ->
  let ld := mr_decimals (te_loan_row t) in
  let cd := lr_coll_decimals (te_loan t) in
  exists pl pc, price_ray px (mr_asset (te_loan_row t)) = Ok pl /\ price_ray px (mr_asset (te_coll_row t)) = Ok pc /\
    (RAY <= h_hf h <->
     oracle_star (te_borrowed t) (lr_lltv (te_loan t)) (te_collateral t) * (pl * coll_lift ld cd)
       <= pc * (ORACLE_PRICE_SCALE * loan_lift ld cd)).
Proof.
  intros Hc Hpx Ht Hh Hb Hcol Hl ld cd. unfold health in Hh. rewrite Ht in Hh.
  apply bind_Ok in Hh as ([t' h'] & Hf & [= ->]).
  apply finish_Ok in Hf as (Hpl & Hpc & Ho & Hm & _ & _ & _ & Hiff); [|done|lia].
  exists (te_p_loan t'), (te_p_coll t'). split; [done|]. split; [done|]. rewrite (Hiff Hb), Hm, cover_iff, Ho by done.
  pose proof (price_ray_u256 _ _ _ Hpx Hpl). pose proof (price_ray_Ok _ _ _ Hpl) as [? _].
  apply le_div_iff, Z.mul_pos_pos; [unfold uint_ok in *; lia|apply coll_lift_pos].
Qed.

(** The parts of a liquidation price. *)
Lemma liquidation_price_Ok pos px asset r :
  cells_ok pos -> prices_ok px -> liquidation_price pos px asset = Ok (Some r) ->
  exists t, terms pos = Ok t /\
    let star := oracle_star (te_borrowed t) (lr_lltv (te_loan t)) (te_collateral t) in
    let ld := mr_decimals (te_loan_row t) in
    let cd := lr_coll_decimals (te_loan t) in
    0 < te_borrowed t /\ 0 < te_collateral t /\ 0 < lr_lltv (te_loan t) /\ 0 < star /\ u256 (p_price r) /\
    exists pl pc, price_ray px (mr_asset (te_loan_row t)) = Ok pl /\ price_ray px (mr_asset (te_coll_row t)) = Ok pc /\
      (asset = mr_asset (te_coll_row t) /\
         p_price r = div_up (star * (pl * coll_lift ld cd)) (ORACLE_PRICE_SCALE * loan_lift ld cd) \/
       asset <> mr_asset (te_coll_row t) /\ asset = mr_asset (te_loan_row t) /\
         p_price r = pc * (ORACLE_PRICE_SCALE * loan_lift ld cd) / (star * coll_lift ld cd)).
Proof.
  intros Hcells Hpx H. unfold liquidation_price in H. apply bind_Ok in H as (t & Ht & H).
  exists t. split; [done|]. pose proof (terms_Ok _ _ Hcells Ht) as (Hb & Hcol & Hl & _).
  apply bind_Ok in H as ([t' h'] & Hf & H).
  apply finish_Ok in Hf as (Hpl & Hpc & _ & _ & Et & _); [|done|done].
  rewrite Et in H. cbn [te_borrowed te_collateral te_loan te_loan_row te_coll_row te_p_loan te_p_coll] in H.
  destruct (negb _ && negb _) eqn:Eside; [done|].
  destruct (Z.eqb_spec (te_borrowed t) 0); [done|]. destruct (Z.eqb_spec (te_collateral t) 0); [done|]. cbn [orb] in H.
  apply bind_Ok in H as (e & _ & H).
  apply bind_Ok in H as (need & Hn%fixed_Ok & H). apply mul_div_exact in Hn as (Hl' & Hn & _); [|done].
  apply bind_Ok in H as (star & Hs%fixed_Ok & H). apply mul_div_exact in Hs as (Hc' & Hs & [Hs0 _]); [|done].
  cbn [round_div] in Hn, Hs. destruct (Z.eqb_spec star 0); [done|].
  apply bind_Ok in H as (raw & Hraw & H). apply invert_oracle_Ok in Hraw as [Hu Hraw]; [|done].
  destruct (_ && (raw <? 2)); [done|]. destruct (_ && (raw =? 0)); [done|]. injection H as <-. cbn [p_price].
  assert (oracle_star (te_borrowed t) (lr_lltv (te_loan t)) (te_collateral t) = star) as ->
    by (unfold oracle_star; by rewrite <- Hn, <- Hs).
  cbv zeta. split_and!; [lia..|done|].
  exists (te_p_loan t'), (te_p_coll t'). split; [done|]. split; [done|].
  destruct (Z.eqb_spec (mr_asset (te_coll_row t)) asset); [by left|right].
  destruct (Z.eqb_spec (mr_asset (te_loan_row t)) asset); [done|]. done.
Qed.

Lemma prices_ok_set px asset raw v : prices_ok px -> u256 raw -> set_price px asset raw = Ok v -> prices_ok v.
Proof.
  unfold set_price. intros Hpx Hr. destruct (price_entry px asset); [|done]. intros [= <-].
  by apply Forall_insert.
Qed.
Lemma price_ray_set px asset raw v p : set_price px asset raw = Ok v -> price_ray v asset = Ok p -> p = raw.
Proof.
  intros (e & _ & He & _)%price_entry_set (_ & e' & He' & ->)%price_ray_Ok.
  rewrite He in He'. by injection He' as <-.
Qed.
Lemma price_ray_set_ne px asset raw v other :
  set_price px asset raw = Ok v -> other <> asset -> price_ray v other = price_ray px other.
Proof. intros (e & _ & _ & Hne)%price_entry_set Ho. unfold price_ray. by rewrite Hne. Qed.

(** The two tokens of the position's market are different. *)
Definition two_tokens (pos : PositionRef) : Prop :=
  forall lrow crow, pr_markets pos !! LOAN_SLOT = Some lrow -> pr_markets pos !! COLL_SLOT = Some crow ->
    mr_asset lrow <> mr_asset crow.

(** Collateral is safe at and above its liquidation price, a loan at and below. *)
Lemma morpho_sides pos px asset r :
  cells_ok pos -> two_tokens pos -> prices_ok px -> liquidation_price pos px asset = Ok (Some r) ->
  (forall raw, u256 raw -> forall v k, set_price px asset raw = Ok v -> health pos v = Ok k ->
    (RAY <= h_hf k <-> p_price r <= raw)) \/
  (forall raw, u256 raw -> forall v k, set_price px asset raw = Ok v -> health pos v = Ok k ->
    (RAY <= h_hf k <-> raw <= p_price r)).
Proof.
  intros Hcells Htwo Hpx H.
  destruct (liquidation_price_Ok _ _ _ _ Hcells Hpx H)
    as (t & Ht & Hb & Hc & Hl & Hstar & Hu & pl & pc & Hpl & Hpc & Hcase).
  pose proof (terms_Ok _ _ Hcells Ht) as (_ & _ & _ & _ & _ & _ & _ & Hlr & Hcr & _).
  pose proof (Htwo _ _ Hlr Hcr) as Hne. set (ld := mr_decimals (te_loan_row t)) in *.
  set (cd := lr_coll_decimals (te_loan t)) in *.
  pose proof (loan_lift_pos ld cd). pose proof (coll_lift_pos ld cd).
  assert (0 < ORACLE_PRICE_SCALE) by (vm_compute; done).
  destruct Hcase as [[-> Hr]|(Hnc & -> & Hr)]; [left|right]; intros raw Hraw v k Hv Hk;
    destruct (safe_iff pos v t k) as (pl' & pc' & Hpl' & Hpc' & Hiff); try done;
    try (by eapply prices_ok_set); rewrite Hiff, Hr.
  - rewrite (price_ray_set_ne _ _ _ _ _ Hv Hne), Hpl in Hpl'. injection Hpl' as <-.
    rewrite (price_ray_set _ _ _ _ _ Hv Hpc'), div_up_le_iff by nia. done.
  - rewrite (price_ray_set_ne _ _ _ _ _ Hv (not_eq_sym Hne)), Hpc in Hpc'. injection Hpc' as <-.
    rewrite (price_ray_set _ _ _ _ _ Hv Hpl'), le_div_iff by nia. fold ld cd. nia.
Qed.

#[export] Instance morpho_splits pid :
  SplitsPrices (morpho_blue pid) (fun pos _ _ => cells_ok pos /\ two_tokens pos).
Proof.
  split; cbn [morpho_blue pt_liquidation_price].
  - intros pos px asset r H. unfold liquidation_price in H. apply bind_Ok in H as (t & _ & H).
    apply bind_Ok in H as ([t' h'] & _ & H). repeat (case_match; [done|]).
    apply bind_Ok in H as (e & He%ok_or_Ok & _). eauto.
  - intros pos px asset r [Hc _] Hpx H.
    by destruct (liquidation_price_Ok _ _ _ _ Hc Hpx H) as (t & _ & _ & _ & _ & _ & ? & _).
  - intros pos px asset r [Hc Ht] Hpx H. by apply morpho_sides.
Qed.

(** * The quote *)

Lemma of_le_uint l w : w = 8 * Z.of_nat (length l) -> bytes_ok l -> uint_ok w (of_le l).
Proof. intros -> H. apply of_be_uint_ok; [by rewrite length_rev|by apply Forall_rev]. Qed.

(** Every integer of a loan row is one. *)
Definition loan_ok (l : LoanRow) : Prop :=
  0 <= lr_total_supply_assets l /\ 0 <= lr_total_supply_shares l /\ 0 <= lr_total_borrow_assets l /\
  0 <= lr_total_borrow_shares l /\ 0 <= lr_last_borrow_rate l /\ 0 <= lr_fee l /\ 0 <= lr_lltv l.
Lemma loan_of_ok row : loan_ok (loan_of row).
Proof. split_and!; apply of_le_nonneg, Forall_take, Forall_drop, cell_bytes_ok. Qed.

Lemma u256_nonneg x : u256 x -> 0 <= x.
Proof. by intros []. Qed.
#[local] Hint Resolve u256_nonneg : core.

Lemma w_taylor_Ok rate elapsed g :
  w_taylor_compounded rate elapsed = Ok g ->
  let f := rate * elapsed in
  let s := f * f / (2 * WAD) in
  g = f + s + s * f / (3 * WAD).
Proof.
  unfold w_taylor_compounded. intros H. apply bind_Ok in H as (f & [-> _]%ok_or_Ok%checked_mul_Some & H).
  apply bind_Ok in H as (tw & [-> _]%ok_or_Ok%checked_mul_Some & H).
  apply bind_Ok in H as (th & [-> _]%ok_or_Ok%checked_mul_Some & H).
  apply bind_Ok in H as (s & (_ & -> & _)%mul_div_down_Ok & H); [|done].
  apply bind_Ok in H as (t & (_ & -> & _)%mul_div_down_Ok & H); [|done].
  apply ok_or_Ok in H. destruct (checked_add _ _ _) as [v|] eqn:Ev; [|done].
  apply checked_add_Some in Ev as [-> _]. by apply checked_add_Some in H as [-> _].
Qed.

(** Debt after accrual: the shares stay, the assets grow with the time elapsed. *)
Definition growth (rate elapsed : Z) : Z :=
  let f := rate * elapsed in
  let s := f * f / (2 * WAD) in
  f + s + s * f / (3 * WAD).

Lemma growth_mono rate a b : 0 <= rate -> 0 <= a <= b -> 0 <= growth rate a <= growth rate b.
Proof.
  intros Hr Hab. unfold growth. set (f := rate * a). set (g := rate * b).
  assert (0 <= f <= g) as Hf by (unfold f, g; nia).
  assert (0 <= f * f / (2 * WAD) <= g * g / (2 * WAD)) as Hs.
  { split; [apply Z.div_pos; [nia|done]|apply Z.div_le_mono; [done|nia]]. }
  assert (0 <= f * f / (2 * WAD) * f / (3 * WAD) <= g * g / (2 * WAD) * g / (3 * WAD)).
  { split; [apply Z.div_pos; [nia|done]|apply Z.div_le_mono; [done|nia]]. }
  lia.
Qed.

Lemma accrued_Ok l last ts sa ss ba bs :
  loan_ok l -> 0 <= last -> ts <= umax 64 -> accrued l last ts = Ok (sa, ss, ba, bs) ->
  last <= ts /\ bs = lr_total_borrow_shares l /\
  ba = lr_total_borrow_assets l + lr_total_borrow_assets l * growth (lr_last_borrow_rate l) (ts - last) / WAD.
Proof.
  intros Hl H0 Hts H. unfold accrued in H. destruct (Z.ltb_spec ts last); [done|]. split; [done|].
  assert (wrapping_sub 64 ts last = ts - last) as Ew.
  { apply Z.mod_small. unfold umax in Hts. lia. }
  rewrite Ew in H. destruct (Z.eqb_spec (ts - last) 0) as [E|E]; cbn [orb] in H.
  { injection H as <- <- <- <-. split; [done|]. unfold growth. by rewrite E, !Z.mul_0_r, Z.add_0_r. }
  destruct (Z.eqb_spec (lr_last_borrow_rate l) 0) as [E'|E'].
  { injection H as <- <- <- <-. split; [done|]. unfold growth. by rewrite E', !Z.mul_0_r, Z.add_0_r. }
  apply bind_Ok in H as (g & Hg & H). apply w_taylor_Ok in Hg. cbv zeta in Hg.
  apply bind_Ok in H as (i & (_ & Hi & _)%mul_div_down_Ok & H); [|done].
  apply bind_Ok in H as (ba' & [Hba _]%ok_or_Ok%checked_add_Some & H).
  apply bind_Ok in H as (sa' & _ & H).
  assert (ba = ba' /\ bs = lr_total_borrow_shares l) as [-> ->].
  { destruct (_ && _); [|by injection H as <- <- <- <-]. repeat (apply bind_Ok in H as (? & _ & H)).
    by injection H as <- <- <- <-. }
  split; [done|]. rewrite Hba, Hi, Hg. done.
Qed.

(** What a position owes and the pool's totals at its time. *)
Lemma to_assets_up_Ok sh a s v :
  0 <= s -> to_assets_up sh a s = Ok v -> v = div_up (sh * (a + 1)) (s + VIRTUAL_SHARES) /\ 0 <= v.
Proof.
  unfold to_assets_up. intros Hs H. apply bind_Ok in H as (? & [-> _]%ok_or_Ok%checked_add_Some & H).
  apply bind_Ok in H as (? & [-> _]%ok_or_Ok%checked_add_Some & H).
  apply mul_div_up_Ok in H as (_ & -> & Hu); [split; [done|auto]|]. unfold VIRTUAL_SHARES. lia.
Qed.
Lemma to_assets_down_Ok sh a s v :
  0 <= s -> to_assets_down sh a s = Ok v -> v = sh * (a + 1) / (s + VIRTUAL_SHARES).
Proof.
  unfold to_assets_down. intros Hs H. apply bind_Ok in H as (? & [-> _]%ok_or_Ok%checked_add_Some & H).
  apply bind_Ok in H as (? & [-> _]%ok_or_Ok%checked_add_Some & H).
  apply mul_div_down_Ok in H as (_ & -> & Hu); [done|]. unfold VIRTUAL_SHARES. lia.
Qed.
Lemma to_shares_up_Ok x a s v :
  0 <= a -> to_shares_up x a s = Ok v -> v = div_up (x * (s + VIRTUAL_SHARES)) (a + 1).
Proof.
  unfold to_shares_up. intros Hs H. apply bind_Ok in H as (? & [-> _]%ok_or_Ok%checked_add_Some & H).
  apply bind_Ok in H as (? & [-> _]%ok_or_Ok%checked_add_Some & H).
  apply mul_div_up_Ok in H as (_ & -> & Hu); [done|]. unfold VIRTUAL_ASSETS. lia.
Qed.

(** The incentive: at least par, at most fifteen percent. *)
Lemma incentive_bounds lltv lif : 0 <= lltv -> liquidation_incentive_factor lltv = Ok lif -> WAD <= lif <= MAX_LIF.
Proof.
  unfold liquidation_incentive_factor. intros Hl H. apply bind_Ok in H as (rest & [-> Hr]%ok_or_Ok%checked_sub_Some & H).
  apply bind_Ok in H as (inner & (_ & Hi & Hu)%mul_div_down_Ok & H); [|done].
  apply bind_Ok in H as (den & [-> Hd]%ok_or_Ok%checked_sub_Some & H).
  apply bind_Ok in H as (l & (Hd0 & -> & _)%mul_div_down_Ok & H); [|lia]. injection H as <-.
  assert (WAD <= WAD * WAD / (WAD - inner)).
  { apply le_div_iff; [done|]. assert (0 < WAD) by done. destruct Hu. nia. }
  destruct (Z.ltb_spec MAX_LIF (WAD * WAD / (WAD - inner))); [done|]. split; [done|]. done.
Qed.

(** The borrower's collateral is worth at most the incentive times what is repaid. *)
Definition within_incentive (oracle lif repay seize : Z) : Prop :=
  seize * oracle * WAD <= repay * lif * ORACLE_PRICE_SCALE.

Lemma shares_up_covers x a s : 0 <= a -> 0 <= s ->
  x <= div_up (div_up (x * (s + VIRTUAL_SHARES)) (a + 1) * (a + 1)) (s + VIRTUAL_SHARES).
Proof.
  intros Ha Hs. assert (0 < s + VIRTUAL_SHARES) by (unfold VIRTUAL_SHARES; lia).
  pose proof (div_up_spec (x * (s + VIRTUAL_SHARES)) (a + 1) ltac:(lia)).
  pose proof (div_up_spec (div_up (x * (s + VIRTUAL_SHARES)) (a + 1) * (a + 1)) (s + VIRTUAL_SHARES)). nia.
Qed.

Lemma floors_within sh a s lif o seized full :
  0 < s -> 0 < o -> 0 < lif -> seized = sh * a / s * lif / WAD * ORACLE_PRICE_SCALE / o -> full = div_up (sh * a) s ->
  within_incentive o lif full seized.
Proof.
  intros Hs Ho Hl -> ->. unfold within_incentive. assert (0 < ORACLE_PRICE_SCALE) by (vm_compute; done).
  pose proof (div_rem_spec (sh * a) s Hs). pose proof (div_up_spec (sh * a) s Hs).
  set (x := sh * a / s) in *. set (y := div_up (sh * a) s) in *. assert (x <= y) by nia.
  pose proof (div_rem_spec (x * lif) WAD ltac:(done)). set (z := x * lif / WAD) in *.
  pose proof (div_rem_spec (z * ORACLE_PRICE_SCALE) o Ho). set (q := z * ORACLE_PRICE_SCALE / o) in *.
  assert (q * o <= z * ORACLE_PRICE_SCALE) by lia. assert (z * WAD <= x * lif) by lia.
  assert (0 < WAD) by done. transitivity (z * ORACLE_PRICE_SCALE * WAD); [nia|].
  transitivity (x * lif * ORACLE_PRICE_SCALE); [nia|]. apply Z.mul_le_mono_nonneg_r; [lia|]. nia.
Qed.

Lemma close_amounts_Ok t lif repay seize :
  0 <= te_borrow_a t -> 0 <= te_borrow_s t -> 0 <= te_oracle t -> 0 <= te_collateral t -> WAD <= lif ->
  to_assets_up (te_borrow_shares t) (te_borrow_a t) (te_borrow_s t) = Ok (te_borrowed t) ->
  close_amounts t lif = Ok (repay, seize) ->
  seize <= te_collateral t /\ repay <= te_borrowed t /\ within_incentive (te_oracle t) lif repay seize.
Proof.
  intros Ha Hs Ho Hc Hlif Hfull H. assert (0 < WAD) by done. unfold close_amounts in H.
  rewrite Hfull in H. apply bind_Ok in H as (d & ->%to_assets_down_Ok & H); [|done].
  apply bind_Ok in H as (d1 & (_ & -> & _)%mul_div_down_Ok & H); [|done].
  apply bind_Ok in H as (z & (Ho' & Hz & _)%mul_div_down_Ok & H); [|done].
  apply to_assets_up_Ok in Hfull as [Hf _]; [|done].
  assert (0 < te_borrow_s t + VIRTUAL_SHARES) as Hsv by (unfold VIRTUAL_SHARES; lia).
  pose proof (floors_within _ _ _ lif _ _ _ Hsv Ho' ltac:(lia) Hz Hf) as Hin.
  destruct (Z.ltb_spec (te_collateral t) z); [|injection H as <- <-; by split_and!].
  apply bind_Ok in H as (q & (_ & Hq & _)%mul_div_up_Ok & H); [|vm_compute; done].
  apply bind_Ok in H as (p & (_ & Hp & _)%mul_div_up_Ok & H); [|lia].
  apply bind_Ok in H as (sh & Hsh%to_shares_up_Ok & H); [|done].
  apply bind_Ok in H as (r & [Hr _]%to_assets_up_Ok & [= <- <-]); [|done]. split; [done|].
  assert (0 < ORACLE_PRICE_SCALE) as HS by (vm_compute; done).
  destruct (Z.min_spec sh (te_borrow_shares t)) as [[Hlt Em]|[Hge Em]]; rewrite Em in Hr.
  - split; [rewrite Hr, Hf; apply div_up_mono; nia|].
    assert (p <= r) by (rewrite Hr, Hsh; by apply shares_up_covers).
    pose proof (div_up_spec (q * WAD) lif ltac:(lia)) as [Hp1 _]. rewrite <- Hp in Hp1.
    pose proof (div_up_spec (te_collateral t * te_oracle t) _ HS) as [Hq1 _]. rewrite <- Hq in Hq1.
    unfold within_incentive. transitivity (ORACLE_PRICE_SCALE * q * WAD); [nia|].
    transitivity (ORACLE_PRICE_SCALE * (lif * p)); [nia|]. assert (lif * p <= lif * r) by nia. nia.
  - rewrite <- Hf in Hr. subst r. split; [done|]. unfold within_incentive in *.
    etransitivity; [|exact Hin]. assert (te_collateral t * te_oracle t <= z * te_oracle t) by nia. nia.
Qed.

Lemma accrued_nonneg l last ts sa ss ba bs :
  loan_ok l -> accrued l last ts = Ok (sa, ss, ba, bs) -> 0 <= ba /\ 0 <= bs.
Proof.
  intros Hl H. unfold accrued in H. destruct (_ <? _); [done|].
  destruct (_ || _); [injection H as <- <- <- <-; split; apply Hl|].
  apply bind_Ok in H as (g & _ & H).
  apply bind_Ok in H as (i & (_ & _ & [Hi _])%mul_div_down_Ok & H); [|done].
  apply bind_Ok in H as (ba' & [-> _]%ok_or_Ok%checked_add_Some & H). apply bind_Ok in H as (sa' & _ & H).
  assert (0 <= lr_total_borrow_assets l + i /\ 0 <= lr_total_borrow_shares l) by (unfold loan_ok in Hl; lia).
  destruct (_ && _); [|by injection H as <- <- <- <-].
  repeat (apply bind_Ok in H as (? & _ & H)). by injection H as <- <- <- <-.
Qed.

Lemma terms_totals pos t : cells_ok pos -> terms pos = Ok t -> 0 <= te_borrow_a t /\ 0 <= te_borrow_s t.
Proof.
  intros Hc Ht. assert (loan_ok (te_loan t)) as Hl.
  { unfold terms in Ht. apply bind_Ok in Ht as (lrow & _ & H).
    apply bind_Ok in H as (crow & _ & H). destruct (_ || _); [done|].
    apply bind_Ok in H as ([[[sa ss] ba] bs] & Ha & H). apply bind_Ok in H as (b & Hb & [= <-]). apply loan_of_ok. }
  apply terms_Ok in Ht as (_ & _ & _ & _ & _ & _ & _ & _ & _ & sa & ss & Ha); [|done]. by eapply accrued_nonneg.
Qed.

(** A quote is offered exactly to a liquidatable position, and never takes more than the
    protocol gives: it repays at most the debt, seizes at most the collateral, and what it
    seizes is worth, at the oracle's price, at most the incentive factor (between par and 15%)
    times what it repays, both at a full close and when the collateral runs out first. *)
Theorem morpho_quote_fair (pos : PositionRef) (px : PriceVector) (h : Health) :
  cells_ok pos -> prices_ok px -> health pos px = Ok h ->
  (quote pos px = Ok None <-> h_state h <> HLiquidatable) /\
  forall q, quote pos px = Ok (Some q) ->
    h_hf h < RAY /\
    exists t t' lif bonus repay seize,
      terms pos = Ok t /\ finish t px = Ok (t', h) /\
      liquidation_incentive_factor (lr_lltv (te_loan t)) = Ok lif /\ WAD <= lif <= MAX_LIF /\
      q = mkQuote (pr_id pos) (pr_key pos)
            [mkRepay (mr_asset (te_loan_row t)) repay 0 None ByAsset]
            [mkSeize (mr_asset (te_coll_row t)) seize bonus (Static bonus) 0 ByAsset] /\
      bonus = (lif - WAD) * WAD_RAY_RATIO /\
      repay <= te_borrowed t /\ seize <= te_collateral t /\ repay <> 0 /\ seize <> 0 /\
      within_incentive (te_oracle t') lif repay seize.
Proof.
  intros Hc Hpx Hh. unfold health in Hh. apply bind_Ok in Hh as (t & Ht & Hh).
  apply bind_Ok in Hh as ([t' h'] & Hf & [= ->]).
  pose proof (terms_Ok _ _ Hc Ht) as (Hb & Hcol & Hl & _ & _ & Hne & He & _).
  pose proof (terms_totals _ _ Hc Ht) as [Hta Hts].
  pose proof (finish_Ok _ _ _ _ Hpx Hb Hf) as (_ & _ & _ & _ & Et & Hst & H0 & _).
  unfold quote. rewrite Ht, Hf. split.
  { destruct (h_state h); try (split; intros; done). split; [|done]. intros H. exfalso.
    repeat (apply bind_Ok in H as (? & _ & H)). repeat (case_match; try done). }
  intros q H. assert (h_state h = HLiquidatable) as El by (destruct (h_state h); done). rewrite El in H.
  unfold health_state in Hst. rewrite El in Hst. destruct (Z.leb_spec RAY (h_hf h)); [done|]. split; [done|].
  assert (te_borrow_shares t <> 0) as Hsh.
  { intros E. rewrite (H0 (He E)) in *. vm_compute in H1. done. }
  apply bind_Ok in H as (lif & Hlif & H). apply bind_Ok in H as (bonus & Hbo & H).
  apply bind_Ok in H as (at_hf & _ & H). destruct (negb (at_hf =? bonus)); [done|].
  apply bind_Ok in H as ([repay seize] & Hca & H). rewrite Et in H, Hlif, Hca.
  cbn [te_loan te_loan_row te_coll_row] in H, Hlif.
  pose proof (incentive_bounds _ _ Hl Hlif) as Hb1.
  apply close_amounts_Ok in Hca as (Hse & Hre & Hin); cbn; try done; [|by eapply finish_nonneg|lia|by apply Hne].
  cbn [te_borrowed te_collateral te_oracle] in Hse, Hre, Hin.
  destruct (Z.eqb_spec repay 0); [done|]. destruct (Z.eqb_spec seize 0); [done|]. cbn [orb] in H.
  injection H as <-. exists t, t', lif, bonus, repay, seize. split_and!; try done; try lia.
  unfold bonus_ray in Hbo. apply ok_or_Ok in Hbo. destruct (checked_sub lif WAD) as [b|] eqn:Eb; [|done].
  apply checked_sub_Some in Eb as [-> _]. by apply checked_mul_Some in Hbo as [-> _].
Qed.

(** * Time *)

(** At a price vector, a position is safe exactly when its debt is covered. *)
Lemma finish_safe t px t' h :
  prices_ok px -> 0 <= te_borrowed t -> 0 <= te_collateral t -> 0 <= lr_lltv (te_loan t) -> finish t px = Ok (t', h) ->
  (RAY <= h_hf h <-> te_borrowed t <= te_max_borrow t').
Proof.
  intros Hpx Hb Hc Hl Hf. pose proof (finish_nonneg _ _ _ _ Hpx Hb Hf) as Ho.
  pose proof (finish_Ok _ _ _ _ Hpx Hb Hf) as (_ & _ & _ & Hm & _ & _ & H0 & Hiff).
  destruct (Z.eq_dec (te_borrowed t) 0) as [E|]; [|apply Hiff; lia]. rewrite (H0 E), E, Hm. split; intros _.
  - apply Z.div_pos; [|done]. apply Z.mul_nonneg_nonneg; [|done]. apply Z.div_pos; [nia|vm_compute; done].
  - vm_compute. done.
Qed.

Lemma hf_at_ts_Ok pos px ts v :
  hf_at_ts pos px ts = Ok v ->
  exists t t' h, terms (at_time pos ts) = Ok t /\ finish t px = Ok (t', h) /\ (WAD <= v <-> RAY <= h_hf h).
Proof.
  unfold hf_at_ts. intros H. apply bind_Ok in H as (t & Ht & H). apply bind_Ok in H as ([t' h] & Hf & H).
  exists t, t', h. split; [done|]. split; [done|]. destruct (Z.eqb_spec (h_hf h) (umax 256)) as [E|].
  - injection H as <-. rewrite E. split; intros _; vm_compute; congruence.
  - apply mul_div_down_Ok in H as (_ & -> & _); [|done]. rewrite le_div_iff, Z.mul_1_r by done. done.
Qed.

(** Debt does not shrink as time passes. *)
Lemma borrowed_mono pos a b t u :
  cells_ok pos -> Forall (fun r => 0 <= mr_last_update r) (pr_markets pos) -> a <= b -> b <= umax 64 ->
  terms (at_time pos a) = Ok t -> terms (at_time pos b) = Ok u ->
  te_borrowed t <= te_borrowed u /\ te_collateral t = te_collateral u /\ te_loan t = te_loan u /\
  te_loan_row t = te_loan_row u /\ te_coll_row t = te_coll_row u.
Proof.
  intros Hc Hr Hab Hbm Ht Hu. unfold terms in Ht, Hu. cbn [at_time pr_markets pr_key pr_timestamp pr_debt pr_supply] in Ht, Hu.
  apply bind_Ok in Ht as (lrow & Hlr & Ht). apply bind_Ok in Hu as (lrow' & Hlr' & Hu). rewrite Hlr in Hlr'. injection Hlr' as <-.
  apply bind_Ok in Ht as (crow & Hcr & Ht). apply bind_Ok in Hu as (crow' & Hcr' & Hu). rewrite Hcr in Hcr'. injection Hcr' as <-.
  destruct (_ || _); [done|]. apply ok_or_Ok in Hlr. pose proof (Forall_lookup_1 _ _ _ _ Hr Hlr) as Hlast.
  apply bind_Ok in Ht as ([[[sa ss] ba] bs] & Ha & Ht). apply bind_Ok in Hu as ([[[sa' ss'] ba'] bs'] & Ha' & Hu).
  pose proof (loan_of_ok lrow) as Hl.
  apply accrued_Ok in Ha as (Hla & Ebs & Eba); [|done..|lia]. apply accrued_Ok in Ha' as (_ & Ebs' & Eba'); [|done..].
  apply bind_Ok in Ht as (x & Hx & [= <-]). apply bind_Ok in Hu as (y & Hy & [= <-]).
  cbn [te_borrowed te_collateral te_loan te_loan_row te_coll_row]. split; [|done].
  destruct (_ =? 0); [injection Hx as <-; injection Hy as <-; done|].
  destruct Hl as (_ & _ & HA & HS & HR & _).
  apply to_assets_up_Ok in Hx as [-> _]; [|lia]. apply to_assets_up_Ok in Hy as [-> _]; [|lia].
  assert (ba <= ba').
  { rewrite Eba, Eba'. pose proof (growth_mono (lr_last_borrow_rate (loan_of lrow)) (a - mr_last_update lrow) (b - mr_last_update lrow) HR ltac:(lia)) as [Hg1 Hg2].
    apply Z.add_le_mono_l, Z.div_le_mono; [done|]. nia. }
  rewrite Ebs, Ebs'. apply div_up_mono; [unfold VIRTUAL_SHARES; lia|].
  pose proof (cell_ok (pr_debt pos) LOAN_SLOT (proj2 Hc)) as [Hd _]. nia.
Qed.

(** Safe later is safe earlier. *)
Lemma hf_at_ts_mono pos px a b v w :
  cells_ok pos -> prices_ok px -> Forall (fun r => 0 <= mr_last_update r) (pr_markets pos) -> a <= b -> b <= umax 64 ->
  hf_at_ts pos px a = Ok v -> hf_at_ts pos px b = Ok w -> WAD <= w -> WAD <= v.
Proof.
  intros Hc Hpx Hr Hab Hbm (t & t' & h & Ht & Hf & Hv)%hf_at_ts_Ok (u & u' & k & Hu & Hg & Hw)%hf_at_ts_Ok.
  rewrite Hv, Hw. destruct (borrowed_mono _ _ _ _ _ Hc Hr Hab Hbm Ht Hu) as (Hb & Ecol & El & Elr & Ecr).
  destruct (terms_Ok (at_time pos a) _ Hc Ht) as (Hb0 & Hcol & Hl & _).
  destruct (terms_Ok (at_time pos b) _ Hc Hu) as (Hb1 & Hcol1 & Hl1 & _).
  rewrite (finish_safe _ _ _ _ Hpx Hb0 Hcol Hl Hf), (finish_safe _ _ _ _ Hpx Hb1 Hcol1 Hl1 Hg).
  pose proof (finish_Ok _ _ _ _ Hpx Hb0 Hf) as (Hpl & Hpc & Ho & Hm & _).
  pose proof (finish_Ok _ _ _ _ Hpx Hb1 Hg) as (Hpl' & Hpc' & Ho' & Hm' & _).
  rewrite <- Elr, Hpl in Hpl'. injection Hpl' as Ep. rewrite <- Ecr, Hpc in Hpc'. injection Hpc' as Eq.
  rewrite Hm, Hm', Ho, Ho', <- Ep, <- Eq, Ecol, El, Elr. lia.
Qed.

Lemma time_halves l h : 0 <= l -> h <= umax 64 -> halves time_mid l h.
Proof.
  intros Hl Hh lo hi m H1 H2 H3 [= <-]. unfold wrapping_add, wrapping_sub. unfold umax in Hh.
  rewrite (Z.mod_small (hi - lo)) by lia. pose proof (half_between lo hi H3). apply Z.mod_small. lia.
Qed.

Lemma time_step_Ok pos px m r v :
  time_step pos px m = Ok r -> hf_at_ts pos px m = Ok v -> match r with Some _ => WAD <= v | None => v < WAD end.
Proof.
  unfold time_step, HF_THRESHOLD_WAD. intros H E. rewrite E in H. injection H as <-. by destruct (Z.leb_spec WAD v).
Qed.

(** The crossing time is exact: wherever health evaluates over the next ten years, the search
    answers, and the time it gives separates the safe times from the unsafe ones; when it gives
    none, the position has no debt or is safe throughout. *)
Theorem morpho_cross_time_exact (pos : PositionRef) (px : PriceVector) :
  let now := pr_timestamp pos in
  cells_ok pos -> prices_ok px -> Forall (fun r => 0 <= mr_last_update r) (pr_markets pos) ->
  0 <= now -> now + HORIZON <= umax 64 ->
  (forall ts, now <= ts <= now + HORIZON -> exists v, hf_at_ts pos px ts = Ok v) ->
  exists r, time_to_cross pos px = Ok r /\
    match r with
    | Some t => now <= t <= now + HORIZON /\
        forall ts v, now <= ts <= now + HORIZON -> hf_at_ts pos px ts = Ok v -> (WAD <= v <-> ts < t)
    | None => hf_at_ts pos px now = Ok (umax 256) \/
        forall ts v, now <= ts <= now + HORIZON -> hf_at_ts pos px ts = Ok v -> WAD <= v
    end.
Proof.
  intros now Hc Hpx Hr H0 Hmax Hev. assert (0 < HORIZON) as HH by done.
  assert (forall a b v w, now <= a -> a <= b -> b <= now + HORIZON -> hf_at_ts pos px a = Ok v -> hf_at_ts pos px b = Ok w ->
    WAD <= w -> WAD <= v) as Hmono by (intros; eapply (hf_at_ts_mono pos px a b); eauto; lia).
  unfold time_to_cross. fold now. destruct (Hev now) as [s Es]; [lia|]. rewrite Es. unfold HF_THRESHOLD_WAD.
  destruct (Z.eqb_spec s (umax 256)) as [-> |]; [exists None; auto|].
  destruct (Z.ltb_spec s WAD) as [Hs|Hs].
  { exists (Some now). split; [done|]. split; [lia|]. intros ts v Hts Ev. split; [|lia]. intros Hv.
    pose proof (Hmono now ts s v (Z.le_refl _) (proj1 Hts) (proj2 Hts) Es Ev Hv). lia. }
  rewrite checked_add_ok by done. cbn [ok_or overflow]. destruct (Hev (now + HORIZON)) as [e Ee]; [lia|]. rewrite Ee.
  destruct (Z.leb_spec WAD e) as [He|He].
  { exists None. split; [done|]. right. intros ts v Hts Ev.
    exact (Hmono ts _ v e (proj1 Hts) (proj2 Hts) (Z.le_refl _) Ev Ee He). }
  pose proof (time_halves now (now + HORIZON) H0 Hmax) as Hh.
  destruct (bisect_total time_mid (time_step pos px) 64 now (now + HORIZON) Hh now (now + HORIZON) None)
    as [[[lo hi] best] Eb]; [lia..|by eexists| |].
  { intros x Hx. unfold time_step. destruct (Hev x) as [v ->]; [lia|]. eauto. }
  rewrite Eb. exists (Some hi). split; [done|].
  apply (bisect_ends _ _ _ now (now + HORIZON) Hh) in Eb as (Hlo & -> & Hhi & Hl & Hu);
    [|lia|lia|lia|rewrite Z.add_simpl_l; vm_compute; done].
  destruct (Hev lo) as [vl Evl]; [lia|]. destruct (Hev (lo + 1)) as [vh Evh]; [lia|].
  assert (WAD <= vl) as Hvl by (destruct Hl as [[-> _]|(a & Ha & _)]; [congruence|by eapply time_step_Ok in Ha]).
  assert (vh < WAD) as Hvh by (destruct Hu as [E|Ha]; [rewrite E in Evh; congruence|by eapply time_step_Ok in Ha]).
  split; [lia|]. intros ts v Hts Ev. split; intros Hv.
  - destruct (Z.lt_ge_cases ts (lo + 1)); [done|].
    assert (WAD <= vh) by (apply (Hmono (lo + 1) ts vh v); (done || lia)). lia.
  - apply (Hmono ts lo v vl); (done || lia).
Qed.

(** With no rate the terms stand still. *)
Lemma terms_still pos row ts :
  pr_markets pos !! LOAN_SLOT = Some row -> lr_last_borrow_rate (loan_of row) = 0 ->
  mr_last_update row <= pr_timestamp pos -> mr_last_update row <= ts -> terms (at_time pos ts) = terms pos.
Proof.
  intros Hrow Hr H1 H2. unfold terms. cbn [at_time pr_markets pr_key pr_timestamp pr_debt pr_supply]. rewrite Hrow.
  cbn [ok_or]. destruct (pr_markets pos !! COLL_SLOT); [|done]. cbn [ok_or].
  destruct (_ || _); [done|]. unfold accrued.
  rewrite (proj2 (Z.ltb_ge _ _) H1), (proj2 (Z.ltb_ge _ _) H2), Hr, Z.eqb_refl, !orb_true_r. done.
Qed.

(** * With the engine *)

Section EndToEnd.
Context {B : Type} `{BitSet B} {R : Type} `{RouteCache R}.

(** The engine and the Morpho Blue adapter together leave no position behind on the price of
    either token: take any run of the engine and a step that evaluates a position of a market
    of two tokens and finds it healthy, on prices [px] (the engine's own under the overlay of
    the position's market, if there is one), with a liquidation price on a token the overlay
    does not price. As long as the run reloads no prices and makes fewer than 2^32 folds, either
    a later step evaluates the position again (or finds it benched as unfundable), or the
    position as it was evaluated is still healthy at the price the token has come to, the other
    prices unchanged. *)
Theorem morpho_crossing_is_seen (assets queue : nat) (empty : B) (pre post : list EOp) (op : EOp)
    (w : World R) (id : PositionId) (pos : PositionRef) (pid : ProtocolId) (px : PriceVector) (h : Health) (s : nat)
    (row : MarketRow) (r : Price) :
  let e := engine_run (engine_new assets queue empty) pre in
  let e1 := engine_step e op in
  let asset := mr_asset row in
  op_world op = Some w -> evaluated_on (e_px e1) w id px asset -> id ∈ swept e op -> snd (engine_exec e op) = Ok tt ->
  view_position w id = Ok pos -> world_protocol w (pk_protocol (pr_key pos)) = Ok (morpho_blue pid) ->
  cells_ok pos -> two_tokens pos -> prices_ok px ->
  health pos px = Ok h -> has_debt h = true -> RAY <= h_hf h ->
  s ∈ iter (h_price_sensitivity h) -> pr_markets pos !! s = Some row ->
  liquidation_price pos px asset = Ok (Some r) ->
  forallb (fun op => negb (is_load op)) post = true ->
  run_folds (engine_new assets queue empty) (pre ++ op :: post) <= umax 32 ->
  seen e1 post id \/
  exists c', e_px (engine_run e1 post) !! Z.to_nat asset = Some c' /\
    (u256 (p_price c') ->
     forall v k, set_price px asset (p_price c') = Ok v -> health pos v = Ok k -> RAY <= h_hf k).
Proof.
  intros e e1 asset Hw Hov Hid Hok Hpos Hp Hc Ht Hpx.
  exact (crossing_seen (morpho_blue pid) (fun pos _ _ => cells_ok pos /\ two_tokens pos) assets queue empty pre post op w id
    pos px h s row r Hw Hov Hid Hok Hpos Hp (conj Hc Ht) Hpx).
Qed.
End EndToEnd.

(** ** A market, a position and a run *)

(** A million borrowed of two million, at 86%; one unit of collateral at 2000 against 1000 owed. *)
Definition mo_loan : LoanRow :=
  mkLoan 2000000000000 2000000000000000000 1000000000000 1000000000000000000 0 0 860000000000000000
    77 88 99 0 18 LOAN_PRICED 0.
Definition mo_px (coll : Z) : PriceVector := [mkPrice 0 (coll * RAY) Canonical 1 1000; mkPrice 1 RAY Canonical 1 1000].
Definition mo_store : StateStore :=
  fold_left (fun s w => fst (run_setter w s))
    [WPush 2 (put_loan (blank 1 6) mo_loan); WPush 2 (blank 0 18); WIntern wit_key;
      WSupply 0 1 1000000000000000000; WDebt 0 0 1000000000000000]
    (store_new 1000).
Definition mo_world : World DepthOnlyRouteCache :=
  mkWorld mo_store 1000 [morpho_blue 1] sample_index (mkDepthOnly sample_index) HAIRCUT_NONE None.
Definition mo_pos : PositionRef :=
  match view_position mo_world 0 with
  | Ok pos => pos
  | Err _ => mkPosRef 0 wit_key 0 [] [] EXTRA_ZERO [] [] 0
  end.
Definition mo_tick (price : Z) : EOp := ETick mo_world (mkPrice 0 (price * RAY) Canonical 2 1012).
Definition mo_engine : Engine (list bool) :=
  engine_step (engine_run (engine_new 2 16 []) [ELoad (mo_px 2000)]) (EResync mo_world).

Lemma mo_cells : cells_ok mo_pos.
Proof.
  assert (pr_supply mo_pos = [0; 1000000000000000000] /\ pr_debt mo_pos = [1000000000000000; 0]) as [E1 E2]
    by (split; vm_compute; reflexivity).
  split; rewrite ?E1, ?E2; repeat constructor; vm_compute; discriminate.
Qed.
Lemma mo_px_ok : prices_ok (mo_px 2000) /\ prices_ok (mo_px 1100).
Proof. split; repeat constructor; vm_compute; discriminate. Qed.
Lemma mo_two : two_tokens mo_pos.
Proof. intros lrow crow. vm_compute. intros [= <-] [= <-]. done. Qed.

(** A fall to 1200 leaves the position alone and healthy, a fall to 1100 sweeps it. *)
Lemma morpho_crossing_is_seen_witness :
  swept mo_engine (mo_tick 1200) = [] /\ swept mo_engine (mo_tick 1100) = [0%nat] /\
  (seen mo_engine [mo_tick 1200] 0 \/
   exists c', e_px (engine_run mo_engine [mo_tick 1200]) !! Z.to_nat 0 = Some c' /\
    (u256 (p_price c') ->
     forall v k, set_price (e_px mo_engine) 0 (p_price c') = Ok v -> health mo_pos v = Ok k -> RAY <= h_hf k)).
Proof.
  split; [vm_compute; reflexivity|]. split; [vm_compute; reflexivity|]. unfold mo_engine.
  assert (e_px (engine_step (engine_run (engine_new 2 16 ([] : list bool)) [ELoad (mo_px 2000)])
    (EResync mo_world)) = mo_px 2000) as Epx by (vm_compute; reflexivity).
  eapply (morpho_crossing_is_seen 2 16 ([] : list bool) [ELoad (mo_px 2000)] [mo_tick 1200]
    (EResync mo_world) mo_world 0 mo_pos 1 (mo_px 2000)
    (mkHealth 1720000000000000000000000000 1000000000000000000000 2000000000000000000000 3 HHealthy) 1
    (blank 0 18) (mkPrice 0 1162790698000000000000000000000 (Derived [0]) 1 1000)); rewrite ?Epx.
  - reflexivity.
  - apply evaluated_on_plain. reflexivity.
  - assert (swept (engine_run (engine_new 2 16 ([] : list bool)) [ELoad (mo_px 2000)]) (EResync mo_world)
      = [0%nat]) as -> by (vm_compute; reflexivity). left.
  - vm_compute; reflexivity.
  - vm_compute; reflexivity.
  - reflexivity.
  - exact mo_cells.
  - exact mo_two.
  - apply mo_px_ok.
  - vm_compute; reflexivity.
  - vm_compute; reflexivity.
  - vm_compute; discriminate.
  - assert (iter 3 = [0%nat; 1%nat]) as E by (vm_compute; reflexivity).
    cbn [h_price_sensitivity]. rewrite E. right. left.
  - vm_compute; reflexivity.
  - vm_compute; reflexivity.
  - reflexivity.
  - vm_compute; discriminate.
Defined.

(** At 1100 the position is quoted: 1000 repaid for 0.9489 of its collateral. *)
Lemma morpho_quote_fair_witness :
  health mo_pos (mo_px 1100) =
    Ok (mkHealth 946000000000000000000000000 1000000000000000000000 1100000000000000000000 3 HLiquidatable) /\
  option_map q_seize_options (match quote mo_pos (mo_px 1100) with Ok o => o | Err _ => None end) =
    Some [mkSeize 0 948946669090909090 43841336116910229000000000 (Static 43841336116910229000000000) 0 ByAsset] /\
  quote mo_pos (mo_px 1100) <> Ok None.
Proof.
  split; [vm_compute; reflexivity|]. split; [vm_compute; reflexivity|]. intros H.
  pose proof (morpho_quote_fair mo_pos (mo_px 1100)
    (mkHealth 946000000000000000000000000 1000000000000000000000 1100000000000000000000 3 HLiquidatable)
    mo_cells (proj2 mo_px_ok) ltac:(vm_compute; reflexivity)) as [Hq _].
  apply Hq in H. by apply H.
Defined.

(** The market's rate is zero: health evaluates at every time and never crosses. *)
Lemma morpho_cross_time_exact_witness :
  exists r, time_to_cross mo_pos (mo_px 2000) = Ok r /\ r = None.
Proof.
  assert (forall ts, 1000 <= ts -> hf_at_ts mo_pos (mo_px 2000) ts = hf_at_ts mo_pos (mo_px 2000) 1000) as Hst.
  { intros ts Hts. unfold hf_at_ts. rewrite !(terms_still mo_pos (put_loan (blank 1 6) mo_loan));
      [done|vm_compute; (reflexivity || discriminate)..|]. cbn. lia. }
  assert (hf_at_ts mo_pos (mo_px 2000) 1000 = Ok 1720000000000000000) as H1 by (vm_compute; reflexivity).
  destruct (morpho_cross_time_exact mo_pos (mo_px 2000)) as (r & Hr & Hm).
  - exact mo_cells.
  - apply mo_px_ok.
  - assert (mr_last_update <$> pr_markets mo_pos = [0; 0]) as E by (vm_compute; reflexivity).
    apply (proj1 (Forall_fmap mr_last_update (fun x => 0 <= x) _)). rewrite E. by repeat constructor.
  - vm_compute; discriminate.
  - vm_compute; discriminate.
  - intros ts Hts. rewrite Hst by apply Hts. eauto.
  - exists r. split; [done|]. destruct r as [t|]; [|done]. exfalso. destruct Hm as [[Ht1 Ht2] Ht].
    specialize (Ht t 1720000000000000000 (conj Ht1 Ht2)). rewrite Hst, H1 in Ht by done.
    apply (Z.lt_irrefl t), Ht; [done|]. vm_compute. discriminate.
Defined.
