(* ===== verification/MorphoApply.v ===== *)
(** Morpho Blue's [apply_log] ([crates/liq-adapters/morpho-blue/src/apply.rs]) as a program of
    [StateWriter] calls, and its subscriptions ([lib.rs]).

    The event ABI is generated from the signatures in [events.rs]: the topic hashes and the
    decoders are a parameter ([Abi]). A market of the singleton is known by the 32-byte id in
    its loan row; the rows are walked from [first_market] to the first gap. *)

From S2P Require Import Prelude Fixed Mask Types Interner Columns Undo Store StoreInv StoreOps StoreUnwind StoreThms StoreReads.
From S2P Require Import Dirty Halt Flash Bonus Gate Ingest Candidate Engine Bytes Wire Bisect Adapter Writer Morpho.
Local Open Scope Z_scope.

(** * Events *)

Inductive Topic :=
| TSetOwner | TSetFee | TSetFeeRecipient | TEnableIrm | TEnableLltv | TCreateMarket | TSupply
| TWithdraw | TBorrow | TRepay | TSupplyCollateral | TWithdrawCollateral | TLiquidate | TFlashLoan
| TSetAuthorization | TIncrementNonce | TAccrueInterest | TUpgraded | TAdminChanged | TInitialized.

Record CreateMarketEv := mkCreateEv {
  ce_id : Z; ce_loan_token : Address; ce_collateral_token : Address; ce_oracle : Address; ce_irm : Address;
  ce_lltv : Z }.
Record AccrueEv := mkAccrueEv { ae_id : Z; ae_prev_borrow_rate : Z; ae_interest : Z; ae_fee_shares : Z }.
Record FeeEv := mkFeeEv { fe_id : Z; fe_new_fee : Z }.
(** [Supply], [Withdraw], [Borrow] and [Repay]. *)
Record SharesEv := mkSharesEv { se_id : Z; se_on_behalf : Address; se_assets : Z; se_shares : Z }.
(** [SupplyCollateral] and [WithdrawCollateral]. *)
Record CollEv := mkCollEv { le_id : Z; le_on_behalf : Address; le_assets : Z }.
Record LiquidateEv := mkLiquidateEv {
  qe_id : Z; qe_borrower : Address; qe_repaid_assets : Z; qe_repaid_shares : Z; qe_seized_assets : Z;
  qe_bad_debt_assets : Z; qe_bad_debt_shares : Z }.

(** [SIGNATURE_HASH] and [decode_raw_log] of each event. *)
Record Abi := mkAbi {
  ab_sig : Topic -> Z;
  ab_create : DecodedLog -> option CreateMarketEv;
  ab_accrue : DecodedLog -> option AccrueEv;
  ab_fee : DecodedLog -> option FeeEv;
  ab_shares : Topic -> DecodedLog -> option SharesEv;
  ab_coll : Topic -> DecodedLog -> option CollEv;
  ab_liquidate : DecodedLog -> option LiquidateEv }.

Section Apply.
Context (cfg : Config) (abi : Abi).

Definition decode {E} (r : option E) : PRes E := ok_or r MalformedLog.
Definition narrow (v : Z) : PRes Z := ok_or (try_from 128 v) MalformedLog.
Definition last_update (ts : Z) : PRes Z := overflow (try_from 32 ts).

Definition positions (ids : list PositionId) : DirtySet := DPositions ids.
Definition rows_of (market : MarketId) : list MarketSlot := [mkSlot market LOAN_SLOT; mkSlot market COLL_SLOT].

Definition intern (market : MarketId) (user : Address) : PProg PositionId :=
  PIntern (mkKey (cf_protocol cfg) market user) PRet.

(** The fuel is what is left of the [u16] ids, so it does not run out. *)
Fixpoint walk_from (fuel : nat) (n : MarketId) (visit : LoanRow -> bool) : PProg (MarketId * bool) :=
  match fuel with
  | O => PRet (Err Internal)
  | S fuel =>
      PMarkets n (fun r =>
        match r with
        | Err (PUnknownMarket _) => PRet (Ok (n, false))
        | Err e => PRet (Err e)
        | Ok rows =>
            match rows !! LOAN_SLOT with
            | None => PRet (Err (SlotOutOfRange (mkSlot n LOAN_SLOT)))
            | Some loan =>
                if visit (loan_of loan) then PRet (Ok (n, true)) else
                match checked_add_nat 16 n 1 with
                | None => PRet (Err Internal)
                | Some n => walk_from fuel n visit
                end
            end
        end)
  end.
Definition walk (visit : LoanRow -> bool) : PProg (MarketId * bool) :=
  walk_from (Z.to_nat (2 ^ 16) - cf_first_market cfg) (cf_first_market cfg) visit.

Definition lookup_id (id : Z) : PProg (option MarketId) :=
  do? (market, found) := walk (fun loan => lr_morpho_id loan =? id) in
  PRet (Ok (if (found : bool) then Some market else None)).

Definition add_u128 (cur d : Z) (add : bool) : PRes Z :=
  let? n := if add then overflow (checked_add 256 cur d) else underflow (checked_sub cur d) in
  narrow n.

Definition with_row (row : MarketRow) (flags last : Z) : MarketRow :=
  mkRow (mr_asset row) (mr_price_feed row) (mr_decimals row) flags (mr_hub_slot row) (mr_hub_market row) last (mr_body row).

Definition patch_loan (market : MarketId) (ts : option Z) (f : LoanRow -> PRes LoanRow) : PProg (list MarketSlot) :=
  let at_ := mkSlot market LOAN_SLOT in
  do? row := PMarket at_ PRet in
  do? l := lift (f (loan_of row)) in
  let row := put_loan row l in
  let priced := negb (Z.land (lr_flags (loan_of row)) LOAN_PRICED =? 0) in
  let row := with_row row (if priced then 0 else UNPRICED) (default (mr_last_update row) ts) in
  do? _ := PSetMarket at_ row PRet in
  PRet (Ok (rows_of market)).

(** The loan row with its four totals, rate and fee replaced. *)
Definition with_totals (b : LoanRow) (sa ss ba bs rate fee : Z) : LoanRow :=
  mkLoan sa ss ba bs rate fee (lr_lltv b) (lr_morpho_id b) (lr_oracle b) (lr_irm b) (lr_coll_asset b)
    (lr_coll_decimals b) (lr_flags b) (lr_pad b).

(** The rows [create_market] pushes. *)
Definition created_loan (ev : CreateMarketEv) (loan_tok coll_tok : AssetConfig) (priced : bool) (lu lltv : Z) : MarketRow :=
  let row := blank (as_asset loan_tok) (as_decimals loan_tok) in
  let row := mkRow (mr_asset row) (as_feed loan_tok) (mr_decimals row) (if priced then 0 else UNPRICED)
               (mr_hub_slot row) (mr_hub_market row) lu (mr_body row) in
  let b := loan_of row in
  put_loan row (mkLoan (lr_total_supply_assets b) (lr_total_supply_shares b) (lr_total_borrow_assets b)
    (lr_total_borrow_shares b) (lr_last_borrow_rate b) (lr_fee b) lltv (ce_id ev) (ce_oracle ev) (ce_irm ev)
    (as_asset coll_tok) (as_decimals coll_tok) (if priced then LOAN_PRICED else 0) (lr_pad b)).
Definition created_coll (coll_tok : AssetConfig) (priced : bool) (lu : Z) : MarketRow :=
  let row := blank (as_asset coll_tok) (as_decimals coll_tok) in
  mkRow (mr_asset row) (as_feed coll_tok) (mr_decimals row) (if priced then 0 else UNPRICED)
    (mr_hub_slot row) (mr_hub_market row) lu (mr_body row).

Definition slot_is (got : MarketSlot) (expected : nat) : PRes unit :=
  if (ms_slot got =? expected)%nat then Ok tt
  else Err (SlotMismatch (Z.of_nat expected) (Z.of_nat (ms_slot got))).

Definition create_market (log : DecodedLog) : PProg DirtySet :=
  do? ev := lift (decode (ab_create abi log)) in
  match asset_by_underlying cfg (ce_loan_token ev), asset_by_underlying cfg (ce_collateral_token ev) with
  | Some loan_tok, Some coll_tok =>
      do? (market, _) := walk (fun _ => false) in
      if LAST_MARKET <? Z.of_nat market then PRet (Ok DNone) else
      let priced := oracle_pinned cfg (ce_oracle ev) (as_asset coll_tok) (as_asset loan_tok) in
      do? lu := lift (last_update (dl_timestamp log)) in
      do? lltv := lift (narrow (ce_lltv ev)) in
      do? got := PPushMarket market (created_loan ev loan_tok coll_tok priced lu lltv) PRet in
      do? _ := lift (slot_is got LOAN_SLOT) in
      do? lu := lift (last_update (dl_timestamp log)) in
      do? got := PPushMarket market (created_coll coll_tok priced lu) PRet in
      do? _ := lift (slot_is got COLL_SLOT) in
      PRet (Ok (DReprice (rows_of market)))
  | _, _ => PRet (Ok DNone)
  end.

Definition accrue (log : DecodedLog) : PProg DirtySet :=
  do? ev := lift (decode (ab_accrue abi log)) in
  do? found := lookup_id (ae_id ev) in
  match found with
  | None => PRet (Ok DNone)
  | Some market =>
      do? lu := lift (last_update (dl_timestamp log)) in
      do? _ := patch_loan market (Some lu) (fun b =>
        let? rate := narrow (ae_prev_borrow_rate ev) in
        let? ba := add_u128 (lr_total_borrow_assets b) (ae_interest ev) true in
        let? sa := add_u128 (lr_total_supply_assets b) (ae_interest ev) true in
        let? ss := add_u128 (lr_total_supply_shares b) (ae_fee_shares ev) true in
        Ok (with_totals b sa ss ba (lr_total_borrow_shares b) rate (lr_fee b))) in
      PRet (Ok (DAccrual (rows_of market)))
  end.

Definition set_fee (log : DecodedLog) : PProg DirtySet :=
  do? ev := lift (decode (ab_fee abi log)) in
  do? found := lookup_id (fe_id ev) in
  match found with
  | None => PRet (Ok DNone)
  | Some market =>
      do? _ := patch_loan market None (fun b =>
        let? fee := narrow (fe_new_fee ev) in
        Ok (with_totals b (lr_total_supply_assets b) (lr_total_supply_shares b) (lr_total_borrow_assets b)
              (lr_total_borrow_shares b) (lr_last_borrow_rate b) fee)) in
      PRet (Ok (DReprice (rows_of market)))
  end.

Definition supply (log : DecodedLog) (add : bool) : PProg DirtySet :=
  do? ev := lift (decode (ab_shares abi (if add then TSupply else TWithdraw) log)) in
  do? found := lookup_id (se_id ev) in
  match found with
  | None => PRet (Ok DNone)
  | Some market =>
      do? pos := intern market (se_on_behalf ev) in
      do? cur := PSupply pos LOAN_SLOT PRet in
      do? v := lift (add_u128 cur (se_shares ev) add) in
      do? _ := PSetSupply pos LOAN_SLOT v PRet in
      do? lu := lift (last_update (dl_timestamp log)) in
      do? _ := patch_loan market (Some lu) (fun b =>
        let? sa := add_u128 (lr_total_supply_assets b) (se_assets ev) add in
        let? ss := add_u128 (lr_total_supply_shares b) (se_shares ev) add in
        Ok (with_totals b sa ss (lr_total_borrow_assets b) (lr_total_borrow_shares b) (lr_last_borrow_rate b) (lr_fee b))) in
      PRet (Ok (positions [pos]))
  end.

Definition borrow (log : DecodedLog) (add : bool) : PProg DirtySet :=
  do? ev := lift (decode (ab_shares abi (if add then TBorrow else TRepay) log)) in
  do? found := lookup_id (se_id ev) in
  match found with
  | None => PRet (Ok DNone)
  | Some market =>
      do? pos := intern market (se_on_behalf ev) in
      do? cur := PDebt pos LOAN_SLOT PRet in
      do? v := lift (add_u128 cur (se_shares ev) add) in
      do? _ := PSetDebt pos LOAN_SLOT v PRet in
      do? lu := lift (last_update (dl_timestamp log)) in
      do? _ := patch_loan market (Some lu) (fun b =>
        let? ba := if add then add_u128 (lr_total_borrow_assets b) (se_assets ev) true
                   else narrow (saturating_sub (lr_total_borrow_assets b) (se_assets ev)) in
        let? bs := add_u128 (lr_total_borrow_shares b) (se_shares ev) add in
        Ok (with_totals b (lr_total_supply_assets b) (lr_total_supply_shares b) ba bs (lr_last_borrow_rate b) (lr_fee b))) in
      PRet (Ok (positions [pos]))
  end.

Definition coll (log : DecodedLog) (add : bool) : PProg DirtySet :=
  do? ev := lift (decode (ab_coll abi (if add then TSupplyCollateral else TWithdrawCollateral) log)) in
  do? found := lookup_id (le_id ev) in
  match found with
  | None => PRet (Ok DNone)
  | Some market =>
      do? pos := intern market (le_on_behalf ev) in
      do? cur := PSupply pos COLL_SLOT PRet in
      do? v := lift (add_u128 cur (le_assets ev) add) in
      do? _ := PSetSupply pos COLL_SLOT v PRet in
      PRet (Ok (positions [pos]))
  end.

Definition liquidate (log : DecodedLog) : PProg DirtySet :=
  do? ev := lift (decode (ab_liquidate abi log)) in
  do? found := lookup_id (qe_id ev) in
  match found with
  | None => PRet (Ok DNone)
  | Some market =>
      do? pos := intern market (qe_borrower ev) in
      do? cur := PDebt pos LOAN_SLOT PRet in
      do? v := lift (add_u128 cur (qe_repaid_shares ev) false) in
      do? _ := PSetDebt pos LOAN_SLOT v PRet in
      do? cur := PSupply pos COLL_SLOT PRet in
      do? v := lift (add_u128 cur (qe_seized_assets ev) false) in
      do? _ := PSetSupply pos COLL_SLOT v PRet in
      do? _ :=
        (if negb (qe_bad_debt_shares ev =? 0) then
           do? left_ := PDebt pos LOAN_SLOT PRet in
           do? v := lift (add_u128 left_ (qe_bad_debt_shares ev) false) in
           PSetDebt pos LOAN_SLOT v PRet
         else PRet (Ok tt)) in
      do? lu := lift (last_update (dl_timestamp log)) in
      do? _ := patch_loan market (Some lu) (fun b =>
        let? ba := narrow (saturating_sub (lr_total_borrow_assets b) (qe_repaid_assets ev)) in
        let? bs := add_u128 (lr_total_borrow_shares b) (qe_repaid_shares ev) false in
        let? ba := add_u128 ba (qe_bad_debt_assets ev) false in
        let? sa := add_u128 (lr_total_supply_assets b) (qe_bad_debt_assets ev) false in
        let? bs := add_u128 bs (qe_bad_debt_shares ev) false in
        Ok (with_totals b sa (lr_total_supply_shares b) ba bs (lr_last_borrow_rate b) (lr_fee b))) in
      PRet (Ok (positions [pos]))
  end.

Definition HALT : list Topic := [TUpgraded; TAdminChanged; TInitialized].

Definition apply_log (log : DecodedLog) : PProg DirtySet :=
  if negb (dl_address log =? cf_morpho cfg) then PRet (Err UnexpectedLog) else
  match head (dl_topics log) with
  | None => PRet (Err MalformedLog)
  | Some topic0 =>
      let hits t := topic0 =? ab_sig abi t in
      if existsb hits HALT then
        PRet (if dl_block log <=? cf_pinned_through cfg then Ok DNone else Err HaltSignal)
      else if hits TCreateMarket then create_market log
      else if hits TAccrueInterest then accrue log
      else if hits TSetFee then set_fee log
      else if hits TSupply then supply log true
      else if hits TWithdraw then supply log false
      else if hits TBorrow then borrow log true
      else if hits TRepay then borrow log false
      else if hits TSupplyCollateral then coll log true
      else if hits TWithdrawCollateral then coll log false
      else if hits TLiquidate then liquidate log
      else PRet (Ok DNone)
  end.

Definition subscriptions : list LogFilter :=
  map (fun t => mkFilter (cf_morpho cfg) (ab_sig abi t))
    [TSetOwner; TSetFee; TSetFeeRecipient; TEnableIrm; TEnableLltv; TCreateMarket; TSupply; TWithdraw; TBorrow;
     TRepay; TSupplyCollateral; TWithdrawCollateral; TLiquidate; TFlashLoan; TSetAuthorization; TIncrementNonce;
     TAccrueInterest; TUpgraded; TAdminChanged; TInitialized].

Definition morpho_handler : LogHandler := mkHandler subscriptions apply_log.
End Apply.
