(* ===== verification/MorphoBooks.v ===== *)
(** Morpho Blue's books: the loan row's bytes hold what was written, and the totals of a market
    stay in step with the shares of its positions. *)

From S2P Require Import Prelude Fixed Mask Types Interner Columns Undo Store StoreInv StoreOps StoreUnwind StoreThms StoreReads.
From S2P Require Import Dirty Halt Flash Bonus Gate Ingest Candidate Engine Bytes Wire Bisect Adapter Writer Morpho MorphoApply.
Local Open Scope Z_scope.

(** * The loan row in memory *)

(** Every field of the width of its bytes. *)
Definition loan_fits (l : LoanRow) : Prop :=
  Forall (uint_ok 128) [lr_total_supply_assets l; lr_total_supply_shares l; lr_total_borrow_assets l;
    lr_total_borrow_shares l; lr_last_borrow_rate l; lr_fee l; lr_lltv l] /\
  uint_ok 256 (lr_morpho_id l) /\ uint_ok 160 (lr_oracle l) /\ uint_ok 160 (lr_irm l) /\
  uint_ok 16 (lr_coll_asset l) /\ uint_ok 8 (lr_coll_decimals l) /\ uint_ok 8 (lr_flags l) /\ uint_ok 32 (lr_pad l).

Lemma le_length n x : length (le n x) = n.
Proof. unfold le. by rewrite length_rev, be_length. Qed.
Lemma le_ok n x : bytes_ok (le n x).
Proof. apply Forall_rev, be_ok. Qed.
Lemma of_le_le n w x : w = 8 * Z.of_nat n -> uint_ok w x -> of_le (le n x) = x.
Proof. intros Hw Hx. unfold of_le, le. rewrite rev_involutive. by apply (of_be_uint n w). Qed.
Lemma le_of_le l : bytes_ok l -> le (length l) (of_le l) = l.
Proof.
  intros H. unfold le, of_le. rewrite <- (length_rev l), be_of_be by (by apply Forall_rev). apply rev_involutive.
Qed.

(** Cells and bytes are two views of one memory. *)
Lemma cell_bytes_cells n b :
  length b = (16 * n)%nat -> bytes_ok b -> cell_bytes (byte_cells n b) = b.
Proof.
  revert b. induction n as [|n IH]; intros b Hlen Hb.
  { apply length_zero_iff_nil in Hlen as ->. done. }
  unfold byte_cells, cell_bytes. cbn [seq map concat]. rewrite <- seq_shift, map_map.
  transitivity (take 16 b ++ drop 16 b); [|apply take_drop]. f_equal.
  - assert (length (take 16 b) = 16%nat) as E by (rewrite length_take; lia).
    rewrite drop_0. rewrite <- E at 1. apply le_of_le, Forall_take, Hb.
  - transitivity (cell_bytes (byte_cells n (drop 16 b))); [|apply IH; [rewrite length_drop; lia|by apply Forall_drop]].
    unfold cell_bytes, byte_cells. rewrite !map_map. f_equal. apply map_ext. intros k.
    do 3 f_equal. rewrite drop_drop. f_equal. lia.
Qed.

Lemma loan_bytes_ok l : bytes_ok (loan_bytes l) /\ length (loan_bytes l) = 192%nat.
Proof.
  unfold loan_bytes. split.
  - unfold bytes_ok. rewrite !Forall_app. split_and!; (apply le_ok || apply be_ok).
  - rewrite !length_app, !le_length, !be_length. done.
Qed.

Lemma byte_cells_length n b : length (byte_cells n b) = n.
Proof. unfold byte_cells. by rewrite length_map, length_seq. Qed.

Lemma read_le b o n w x : seg b o (le n x) -> w = 8 * Z.of_nat n -> uint_ok w x -> of_le (take n (drop o b)) = x.
Proof. intros [_ H] Hw Hx. rewrite le_length in H. rewrite H. by eapply of_le_le. Qed.
Lemma read_be b o n w x : seg b o (be n x) -> w = 8 * Z.of_nat n -> uint_ok w x -> of_be (take n (drop o b)) = x.
Proof. intros [_ H] Hw Hx. rewrite be_length in H. rewrite H. by eapply of_be_uint. Qed.

(** The bytes [put_loan] writes. *)
Lemma put_bytes row l : cell_bytes (take LOAN_CELLS (mr_body (put_loan row l))) = loan_bytes l.
Proof.
  destruct (loan_bytes_ok l) as [Hb Hlen]. unfold put_loan. cbn [mr_body].
  rewrite take_app_length' by (by rewrite byte_cells_length). apply cell_bytes_cells; [by rewrite Hlen|done].
Qed.

(** Where each field stands in them. *)
Lemma loan_segs l (b := loan_bytes l) :
  seg b 0 (le 16 (lr_total_supply_assets l)) /\ seg b 16 (le 16 (lr_total_supply_shares l)) /\
  seg b 32 (le 16 (lr_total_borrow_assets l)) /\ seg b 48 (le 16 (lr_total_borrow_shares l)) /\
  seg b 64 (le 16 (lr_last_borrow_rate l)) /\ seg b 80 (le 16 (lr_fee l)) /\ seg b 96 (le 16 (lr_lltv l)) /\
  seg b 112 (be 32 (lr_morpho_id l)) /\ seg b 144 (be 20 (lr_oracle l)) /\ seg b 164 (be 20 (lr_irm l)) /\
  seg b 184 (le 2 (lr_coll_asset l)) /\ seg b 186 (le 1 (lr_coll_decimals l)) /\ seg b 187 (le 1 (lr_flags l)) /\
  seg b 188 (be 4 (lr_pad l)).
Proof.
  pose proof (seg_refl (loan_bytes l)) as Hs. fold b in Hs. unfold b at 2, loan_bytes in Hs.
  rewrite !seg_app, !le_length, !be_length in Hs. exact Hs.
Qed.

(** What [put_loan] writes, [loan_of] reads. *)
Lemma loan_of_put row l : loan_fits l -> loan_of (put_loan row l) = l.
Proof.
  intros (Hf & H1 & H2 & H3 & H4 & H5 & H6 & H7). unfold loan_of. rewrite put_bytes.
  repeat (apply Forall_cons in Hf as [? Hf]). pose proof (loan_segs l) as Hs. set (b := loan_bytes l) in *.
  destruct_and! Hs. destruct l as [sa ss ba bs ra fe ll id orc irm ca cd fl pd].
  cbn [lr_total_supply_assets lr_total_supply_shares lr_total_borrow_assets lr_total_borrow_shares lr_last_borrow_rate
    lr_fee lr_lltv lr_morpho_id lr_oracle lr_irm lr_coll_asset lr_coll_decimals lr_flags lr_pad] in *.
  f_equal; ((eapply read_le || eapply read_be); [eassumption|reflexivity|assumption]).
Qed.

Lemma put_borrow_shares row l : uint_ok 128 (lr_total_borrow_shares l) ->
  lr_total_borrow_shares (loan_of (put_loan row l)) = lr_total_borrow_shares l.
Proof. intros H. unfold loan_of. rewrite put_bytes. eapply read_le; [apply loan_segs|reflexivity|done]. Qed.
Lemma put_supply_shares row l : uint_ok 128 (lr_total_supply_shares l) ->
  lr_total_supply_shares (loan_of (put_loan row l)) = lr_total_supply_shares l.
Proof. intros H. unfold loan_of. rewrite put_bytes. eapply read_le; [apply loan_segs|reflexivity|done]. Qed.

(** What [loan_of] reads of a share total fits. *)
Lemma of_le_fits b o : bytes_ok b -> uint_ok 128 (of_le (take 16 (drop o b))).
Proof.
  intros Hb. unfold of_le. set (l := rev _). assert (bytes_ok l) as Hl by by apply Forall_rev, Forall_take, Forall_drop.
  pose proof (of_be_bound l Hl) as [H0 H1]. split; [done|].
  assert (length l <= 16)%nat as Hlen by (unfold l; rewrite length_rev, length_take; lia).
  assert (256 ^ Z.of_nat (length l) <= 256 ^ 16) by (apply Z.pow_le_mono_r; lia).
  change (256 ^ 16) with (2 ^ 128) in *. unfold umax. lia.
Qed.
Lemma cell_bytes_fine l : bytes_ok (cell_bytes l).
Proof. apply Forall_concat, Forall_map, Forall_true. intros c. apply le_ok. Qed.
Lemma loan_shares_fit row :
  uint_ok 128 (lr_total_borrow_shares (loan_of row)) /\ uint_ok 128 (lr_total_supply_shares (loan_of row)).
Proof. split; apply of_le_fits, cell_bytes_fine. Qed.

(** * Totals over positions *)

(** The shares of market [m]'s positions in slot [j] of a column. *)
Definition share (s : StateStore) (c : Col) (j : nat) (m : MarketId) (ik : nat * PositionKey) : Z :=
  if (pk_market (snd ik) =? m)%nat then bal s c (fst ik) j else 0.
Definition total (s : StateStore) (c : Col) (j : nat) (m : MarketId) : Z :=
  zsum (share s c j m) (imap pair (keys s)).

Lemma zsum_ext {A} (f g : A -> Z) l : (forall x, x ∈ l -> f x = g x) -> zsum f l = zsum g l.
Proof.
  induction l as [|a l IH]; intros H; [done|]. cbn [zsum foldr]. f_equal; [apply H; left|].
  apply IH. intros x Hx. apply H. by right.
Qed.
Lemma zsum_point {A} (f g : A -> Z) l p x :
  l !! p = Some x -> (forall i y, l !! i = Some y -> i <> p -> g y = f y) -> zsum g l = zsum f l + (g x - f x).
Proof.
  revert p. induction l as [|a l IH]; intros [|p] Hp Ho; try done.
  - injection Hp as ->. cbn [zsum foldr].
    assert (zsum g l = zsum f l) as E.
    { apply zsum_ext. intros y (i & Hi)%list_elem_of_lookup. by apply (Ho (S i)). }
    unfold zsum in E. rewrite E. lia.
  - cbn [zsum foldr]. rewrite (Ho 0%nat a) by done. fold (zsum g l) (zsum f l).
    rewrite (IH p Hp); [lia|]. intros i y Hi Hne. apply (Ho (S i)); [done|congruence].
Qed.

Lemma total_same s s' c j m : keys s' = keys s -> same_cells s s' -> total s' c j m = total s c j m.
Proof. intros Hk Hc. unfold total. rewrite Hk. apply zsum_ext. intros [i k] _. unfold share. by rewrite Hc. Qed.

Lemma total_set s s' c pos slot v k c' j m :
  keys s' = keys s -> keys s !! pos = Some k ->
  (forall c' p j, bal s' c' p j = if decide (c' = c /\ p = pos /\ j = slot) then v else bal s c' p j) ->
  total s' c' j m = total s c' j m +
    if decide (c' = c /\ j = slot /\ pk_market k = m) then v - bal s c pos slot else 0.
Proof.
  intros Hk Hp Hb. unfold total. rewrite Hk.
  assert (imap pair (keys s) !! pos = Some (pos, k)) as Hl by by rewrite list_lookup_imap, Hp.
  rewrite (zsum_point (share s c' j m) (share s' c' j m) _ _ _ Hl).
  2: { intros i y Hi Hne. rewrite list_lookup_imap in Hi. destruct (keys s !! i); [|done]. injection Hi as <-.
       unfold share. cbn [fst snd]. case_match; [|done]. rewrite Hb, decide_False; [done|]. by intros (_ & ? & _). }
  f_equal. unfold share. cbn [fst snd]. destruct (Nat.eqb_spec (pk_market k) m) as [Em|]; [|rewrite decide_False; [lia|naive_solver]].
  rewrite Hb. destruct (decide (c' = c /\ j = slot)) as [[-> ->]|].
  - by rewrite !decide_True.
  - rewrite !decide_False; [lia|naive_solver|naive_solver].
Qed.

Lemma total_intern k s s' id c j m : store_wf s -> Store.intern k s = (s', Ok id) -> total s' c j m = total s c j m.
Proof.
  intros Hs (_ & Hc & _ & [[-> _]|[Hk _]])%intern_reads; [done| |done].
  unfold total. rewrite Hk, imap_app, zsum_app.
  rewrite (zsum_ext (share s' c j m) (share s c j m)) by (intros [] _; unfold share; by rewrite Hc).
  cbn [imap zsum foldr]. unfold share at 2. cbn [fst snd]. unfold compose. rewrite Nat.add_0_r, Hc, (bal_unknown s c (length (keys s))).
  - case_match; lia.
  - unfold keys. rewrite length_fmap. by apply lookup_ge_None_2.
Qed.

(** A market without rows has no positions. *)
Lemma total_unlisted s c j m : store_wf s -> st_rows s m = None -> total s c j m = 0.
Proof.
  intros Hs Hm. unfold total. transitivity (zsum (fun _ : nat * PositionKey => 0) (imap pair (keys s))).
  - apply zsum_ext. intros [i k] (p & Hp)%list_elem_of_lookup. rewrite list_lookup_imap in Hp.
    destruct (keys s !! p) as [k'|] eqn:E; [|done]. injection Hp as <- <-. unfold share. cbn [fst snd].
    destruct (Nat.eqb_spec (pk_market k') m) as [<-|]; [|done].
    destruct (keys_listed s p k' Hs E) as [? ?]. congruence.
  - induction (imap pair (keys s)); [done|]. cbn [zsum foldr]. unfold zsum in *. lia.
Qed.

(** * Steps *)

(** The positions' shares of market [m] moved by [dd] of debt and [ds] of supply; the rows stayed. *)
Record moves (s s' : StateStore) (m : MarketId) (dd ds : Z) : Prop := {
  mv_wf : store_wf s';
  mv_rows : same_rows s s';
  mv_debt m' : total s' Debt LOAN_SLOT m' = total s Debt LOAN_SLOT m' + if decide (m' = m) then dd else 0;
  mv_supply m' : total s' Supply LOAN_SLOT m' = total s Supply LOAN_SLOT m' + if decide (m' = m) then ds else 0 }.

Lemma moves_refl s m : store_wf s -> moves s s m 0 0.
Proof. intros Hs. constructor; [done|done|..]; intros; case_decide; lia. Qed.
Lemma moves_trans s1 s2 s3 m d1 e1 d2 e2 :
  moves s1 s2 m d1 e1 -> moves s2 s3 m d2 e2 -> moves s1 s3 m (d1 + d2) (e1 + e2).
Proof.
  intros [] []. constructor; [done| | |]; intros.
  - intros id. by rewrite mv_rows1, mv_rows0.
  - rewrite mv_debt1, mv_debt0. case_decide; lia.
  - rewrite mv_supply1, mv_supply0. case_decide; lia.
Qed.

Lemma moves_intern cfg m user s s' pos :
  store_wf s -> runs (intern cfg m user) s s' pos ->
  moves s s' m 0 0 /\ exists k, keys s' !! pos = Some k /\ pk_market k = m.
Proof.
  intros Hs H. apply runs_intern in H. pose proof (intern_reads _ _ _ _ Hs H) as (Hs' & _ & Hr & Hk). split.
  - constructor; [done|done|..]; intros m'; rewrite (total_intern _ _ _ _ _ _ _ Hs H); case_decide; lia.
  - exists (mkKey (cf_protocol cfg) m user). split; [|done]. destruct Hk as [[-> Hk]|[Hk ->]]; [exact Hk|].
    rewrite Hk, lookup_app_r, Nat.sub_diag by done. done.
Qed.

(** Writing one share cell of a position of market [m]. *)
Lemma moves_set c pos slot v cur s s' k :
  store_wf s -> keys s !! pos = Some k -> read_column s c pos slot = Ok cur -> set_column c pos slot v s = (s', Ok tt) ->
  moves s s' (pk_market k)
    (if decide (c = Debt /\ slot = LOAN_SLOT) then v - cur else 0)
    (if decide (c = Supply /\ slot = LOAN_SLOT) then v - cur else 0) /\
  keys s' = keys s.
Proof.
  intros Hs Hk Hcur H. pose proof (set_column_reads _ _ _ _ _ _ Hs H) as (Hs' & Hk' & Hr & Hb).
  assert (bal s c pos slot = cur) as Eb by (unfold bal; by rewrite Hcur).
  split; [|done]. constructor; [done|done|..]; intros m'; rewrite (total_set _ _ _ _ _ _ _ _ _ _ Hk' Hk Hb), Eb;
    f_equal; repeat case_decide; naive_solver.
Qed.

(** The loan row of market [m] is replaced; nothing else is. *)
Lemma patch_reads m ts f s s' r :
  store_wf s -> runs (patch_loan m ts f) s s' r ->
  exists rows row row' l,
    st_rows s m = Some rows /\ rows !! LOAN_SLOT = Some row /\ f (loan_of row) = Ok l /\
    mr_body row' = mr_body (put_loan row l) /\
    store_wf s' /\ keys s' = keys s /\ same_cells s s' /\
    forall id, st_rows s' id = if decide (id = m) then Some (<[LOAN_SLOT := row']> rows) else st_rows s id.
Proof.
  intros Hs H. unfold patch_loan in H. run_step H row Hrow. apply runs_market in Hrow as [-> Hrow].
  run_step H l Hl. apply runs_lift in Hl as [-> Hl]. run_step H u Hu. destruct u. apply runs_set_market in Hu.
  apply runs_ret in H as [-> _]. pose proof (set_market_reads _ _ _ _ Hs Hu) as (Hs' & Hk & Hc & rows & Hrows & _ & Hst).
  unfold market in Hrow. cbn [ms_market ms_slot] in *. rewrite Hrows in Hrow. cbn [ok_or] in Hrow. apply ok_or_Ok in Hrow.
  exists rows, row. eexists _, l. split; [done|]. split; [done|]. split; [exact Hl|].
  split; [|split; [done|]; split; [done|]; split; [done|]; exact Hst]. done.
Qed.

(** The walk changes nothing; it stops at a market of the range with the row asked for, or at
    the first gap. *)
Lemma walk_reads fuel n visit s s' m found :
  runs (walk_from fuel n visit) s s' (m, found) ->
  s' = s /\ (n <= m)%nat /\
  if (found : bool) then exists rows loan, st_rows s m = Some rows /\ rows !! LOAN_SLOT = Some loan /\ visit (loan_of loan) = true
  else st_rows s m = None.
Proof.
  revert n. induction fuel as [|fuel IH]; intros n H; cbn [walk_from] in H; [by apply runs_ret in H as [_ ?]|].
  unfold runs in H. cbn [run_prog] in H. unfold markets in H. destruct (st_rows s n) as [rows|] eqn:Er; cbn [ok_or] in H.
  2: { apply runs_ret in H as [-> [= <- <-]]. done. }
  destruct (rows !! LOAN_SLOT) as [loan|] eqn:El; [|by apply runs_ret in H as [_ ?]].
  destruct (visit (loan_of loan)) eqn:Ev; [apply runs_ret in H as [-> [= <- <-]]; split; [done|]; split; [done|]; eauto|].
  destruct (checked_add_nat 16 n 1) as [n'|] eqn:En; [|by apply runs_ret in H as [_ ?]].
  apply checked_add_nat_Some in En as [-> _]. apply IH in H as (-> & Hle & Hf). split; [done|]. split; [lia|done].
Qed.

Lemma walk_all_reads cfg visit s s' m found :
  runs (walk cfg visit) s s' (m, found) ->
  s' = s /\ (cf_first_market cfg <= m)%nat /\
  if (found : bool) then exists rows loan, st_rows s m = Some rows /\ rows !! LOAN_SLOT = Some loan /\ visit (loan_of loan) = true
  else st_rows s m = None.
Proof. exact (walk_reads (Z.to_nat (2 ^ 16) - cf_first_market cfg) (cf_first_market cfg) visit s s' m found). Qed.
#[local] Opaque walk.
Lemma lookup_reads cfg id s s' found :
  runs (lookup_id cfg id) s s' found -> s' = s /\ forall m, found = Some m -> (cf_first_market cfg <= m)%nat.
Proof.
  intros H. unfold lookup_id in H. apply runs_bind in H as (s1 & [m b] & Hw & H).
  apply walk_all_reads in Hw as (-> & Hle & _). apply runs_ret in H as [-> H]. split; [done|].
  intros m' ->. destruct b; [|done]. by injection H as <-.
Qed.

(** * The books *)

(** The loan row of [m] against its positions: borrow shares to the unit, supply shares at
    most the total. *)
Definition book_ok (s : StateStore) (m : MarketId) (rows : list MarketRow) : Prop :=
  exists loan, rows !! LOAN_SLOT = Some loan /\
    total s Debt LOAN_SLOT m = lr_total_borrow_shares (loan_of loan) /\
    total s Supply LOAN_SLOT m <= lr_total_supply_shares (loan_of loan).
Definition books (cfg : Config) (s : StateStore) : Prop :=
  forall m rows, (cf_first_market cfg <= m)%nat -> Z.of_nat m <= LAST_MARKET -> st_rows s m = Some rows -> book_ok s m rows.

(** Shares that move with the totals keep the books. *)
Lemma books_step cfg s s1 s2 m dd ds ts f r :
  books cfg s -> moves s s1 m dd ds -> runs (patch_loan m ts f) s1 s2 r ->
  (forall b l, uint_ok 128 (lr_total_borrow_shares b) -> uint_ok 128 (lr_total_supply_shares b) -> f b = Ok l ->
    uint_ok 128 (lr_total_borrow_shares l) /\ uint_ok 128 (lr_total_supply_shares l) /\
    lr_total_borrow_shares l = lr_total_borrow_shares b + dd /\ lr_total_supply_shares b + ds <= lr_total_supply_shares l) ->
  store_wf s2 /\ books cfg s2.
Proof.
  intros HB [Hs1 Hr1 Hd Hsu] Hp Hf.
  destruct (patch_reads _ _ _ _ _ _ Hs1 Hp) as (rows & row & row' & l & Hrows & Hrow & Hl & Hbody & Hs2 & Hk & Hc & Hst).
  split; [done|]. destruct (loan_shares_fit row) as [Fb Fs]. destruct (Hf _ _ Fb Fs Hl) as (Ub & Us & Eb & Es).
  assert (loan_of row' = loan_of (put_loan row l)) as E by (unfold loan_of; by rewrite Hbody).
  intros m' rows' Hm' Hlast Hrows'. rewrite Hst in Hrows'. unfold book_ok. rewrite !(total_same s1 s2) by done. rewrite Hd, Hsu.
  destruct (decide (m' = m)) as [-> |].
  - injection Hrows' as <-. rewrite Hr1 in Hrows. destruct (HB m rows Hm' Hlast Hrows) as (loan & Hloan & Hb1 & Hb2).
    assert (loan = row) as -> by congruence. exists row'.
    rewrite list_lookup_insert_eq by (by eapply lookup_lt_Some). split; [done|].
    rewrite E, put_borrow_shares, put_supply_shares by done. lia.
  - rewrite Hr1 in Hrows'. destruct (HB m' rows' Hm' Hlast Hrows') as (loan & Hloan & Hb1 & Hb2).
    exists loan. split; [done|]. lia.
Qed.

Lemma books_moves cfg s s1 m : books cfg s -> moves s s1 m 0 0 -> books cfg s1.
Proof.
  intros HB [Hs1 Hr1 Hd Hsu] m' rows' Hm' Hlast Hrows'. rewrite Hr1 in Hrows'.
  destruct (HB m' rows' Hm' Hlast Hrows') as (loan & Hloan & Hb1 & Hb2). exists loan. split; [done|].
  rewrite Hd, Hsu. case_decide; lia.
Qed.

(** * Handlers *)

Lemma narrow_Ok v r : narrow v = Ok r -> r = v /\ uint_ok 128 v.
Proof. by intros ?%ok_or_Ok%try_from_Some. Qed.
Lemma add_u128_Ok cur d add v : add_u128 cur d add = Ok v -> v = (if add then cur + d else cur - d) /\ uint_ok 128 v.
Proof.
  unfold add_u128. intros H. apply bind_Ok in H as (n & Hn & [-> Hu]%narrow_Ok). split; [|done].
  destruct add; [by apply ok_or_Ok, checked_add_Some in Hn as [-> _]|by apply ok_or_Ok, checked_sub_Some in Hn as [-> _]].
Qed.

(** The prefix every handler shares: the decoded event and the market its id resolves to. *)
#[local] Ltac resolve H m :=
  let ev := fresh "ev" in let G := fresh "G" in let f := fresh "f" in let Hf := fresh "Hf" in
  run_step H ev G; apply runs_lift in G as [-> G];
  run_step H f Hf; apply lookup_reads in Hf as [-> Hf]; destruct f as [m|]; [clear Hf|by apply runs_ret in H as [-> _]].
#[local] Ltac sides := repeat (case_decide; [|try naive_solver]); try naive_solver.
#[local] Ltac pure_step H x G := run_step H x G; apply runs_lift in G as [-> G].

Section Handlers.
Context (cfg : Config) (abi : Abi).

(** The decoder reads the fee as an unsigned word. *)
Hypothesis fee_word : forall log ev, ab_accrue abi log = Some ev -> 0 <= ae_fee_shares ev.

(** What every handler keeps. *)
Definition keeps (p : PProg DirtySet) : Prop :=
  forall s s' d, store_wf s -> books cfg s -> runs p s s' d -> store_wf s' /\ books cfg s'.

Lemma accrue_keeps log : keeps (accrue cfg abi log).
Proof.
  intros s s' d Hs HB H. unfold accrue in H. resolve H m. apply ok_or_Ok, fee_word in G.
  pure_step H lu G'. run_step H r Hp. apply runs_ret in H as [-> _].
  eapply (books_step cfg s s _ m 0 0); [done|by apply moves_refl|exact Hp|]. intros b l Ub Us Hl. cbv beta in Hl.
  apply bind_Ok in Hl as (rate & _ & Hl). apply bind_Ok in Hl as (ba & _ & Hl). apply bind_Ok in Hl as (sa & _ & Hl).
  apply bind_Ok in Hl as (ss & [-> Hss]%add_u128_Ok & [= <-]). cbn [with_totals lr_total_borrow_shares lr_total_supply_shares].
  split; [done|]. split; [done|]. lia.
Qed.

Lemma set_fee_keeps log : keeps (set_fee cfg abi log).
Proof.
  intros s s' d Hs HB H. unfold set_fee in H. resolve H m. run_step H r Hp. apply runs_ret in H as [-> _].
  eapply (books_step cfg s s _ m 0 0); [done|by apply moves_refl|exact Hp|]. intros b l Ub Us Hl. cbv beta in Hl.
  apply bind_Ok in Hl as (fee & _ & [= <-]). cbn [with_totals lr_total_borrow_shares lr_total_supply_shares].
  split; [done|]. split; [done|]. lia.
Qed.

(** A balance of [m]'s position [pos], read, changed and written back. *)
Lemma write_moves c pos slot v cur s s' m k :
  store_wf s -> keys s !! pos = Some k -> pk_market k = m -> read_column s c pos slot = Ok cur ->
  set_column c pos slot v s = (s', Ok tt) ->
  moves s s' m (if decide (c = Debt /\ slot = LOAN_SLOT) then v - cur else 0)
    (if decide (c = Supply /\ slot = LOAN_SLOT) then v - cur else 0) /\ keys s' !! pos = Some k.
Proof. intros Hs Hk <- Hc H. destruct (moves_set _ _ _ _ _ _ _ _ Hs Hk Hc H) as [Hm ->]. done. Qed.

Lemma supply_keeps log add : keeps (supply cfg abi log add).
Proof.
  intros s s' d Hs HB H. unfold supply in H. resolve H m. run_step H pos Hi.
  apply moves_intern in Hi as (Hm0 & k & Hk & Em); [|done]. run_step H cur Hc. apply runs_supply in Hc as [-> Hc].
  pure_step H v Hv. apply add_u128_Ok in Hv as [-> Hv].
  run_step H u Hu. destruct u. apply runs_set_supply in Hu. destruct (write_moves _ _ _ _ _ _ _ _ _ (mv_wf _ _ _ _ _ Hm0) Hk Em Hc Hu) as [Hm1 _].
  pure_step H lu Hlu. run_step H r Hp. apply runs_ret in H as [-> _].
  eapply (books_step cfg s); [done|exact (moves_trans _ _ _ _ _ _ _ _ Hm0 Hm1)|exact Hp|].
  intros b l Ub Us Hl. cbv beta in Hl. apply bind_Ok in Hl as (sa & _ & Hl). apply bind_Ok in Hl as (ss & [-> Hss]%add_u128_Ok & [= <-]).
  cbn [with_totals lr_total_borrow_shares lr_total_supply_shares]. sides.
  split; [done|]. split; [done|]. destruct add; lia.
Qed.

Lemma borrow_keeps log add : keeps (borrow cfg abi log add).
Proof.
  intros s s' d Hs HB H. unfold borrow in H. resolve H m. run_step H pos Hi.
  apply moves_intern in Hi as (Hm0 & k & Hk & Em); [|done]. run_step H cur Hc. apply runs_debt in Hc as [-> Hc].
  pure_step H v Hv. apply add_u128_Ok in Hv as [-> Hv].
  run_step H u Hu. destruct u. apply runs_set_debt in Hu. destruct (write_moves _ _ _ _ _ _ _ _ _ (mv_wf _ _ _ _ _ Hm0) Hk Em Hc Hu) as [Hm1 _].
  pure_step H lu Hlu. run_step H r Hp. apply runs_ret in H as [-> _].
  eapply (books_step cfg s); [done|exact (moves_trans _ _ _ _ _ _ _ _ Hm0 Hm1)|exact Hp|].
  intros b l Ub Us Hl. cbv beta in Hl. apply bind_Ok in Hl as (ba & _ & Hl). apply bind_Ok in Hl as (bs & [-> Hbs]%add_u128_Ok & [= <-]).
  cbn [with_totals lr_total_borrow_shares lr_total_supply_shares]. sides.
  split; [done|]. split; [done|]. destruct add; lia.
Qed.

Lemma coll_keeps log add : keeps (coll cfg abi log add).
Proof.
  intros s s' d Hs HB H. unfold coll in H. resolve H m. run_step H pos Hi.
  apply moves_intern in Hi as (Hm0 & k & Hk & Em); [|done]. run_step H cur Hc. apply runs_supply in Hc as [-> Hc].
  pure_step H v Hv. run_step H u Hu. destruct u. apply runs_set_supply in Hu. apply runs_ret in H as [-> _].
  destruct (write_moves _ _ _ _ _ _ _ _ _ (mv_wf _ _ _ _ _ Hm0) Hk Em Hc Hu) as [Hm1 _].
  rewrite !(@decide_False _ (_ /\ COLL_SLOT = LOAN_SLOT)) in Hm1 by (by intros [_ ?]). split; [apply Hm1|].
  exact (books_moves cfg s _ m HB (moves_trans _ _ _ _ _ _ _ _ Hm0 Hm1)).
Qed.
(** The optional second write of [liquidate]. *)
Lemma bad_debt_moves pos bad s s' m k :
  store_wf s -> keys s !! pos = Some k -> pk_market k = m ->
  runs (if negb (bad =? 0) then
          do? left_ := PDebt pos LOAN_SLOT PRet in
          do? v := lift (add_u128 left_ bad false) in
          PSetDebt pos LOAN_SLOT v PRet
        else PRet (Ok tt)) s s' tt -> moves s s' m (- bad) 0.
Proof.
  intros Hs Hk Em H. destruct (Z.eqb_spec bad 0) as [-> |]; cbn [negb] in H.
  { apply runs_ret in H as [-> _]. by apply moves_refl. }
  run_step H cur Hc. apply runs_debt in Hc as [-> Hc]. pure_step H v Hv. apply add_u128_Ok in Hv as [-> Hv].
  apply runs_set_debt in H. destruct (write_moves _ _ _ _ _ _ _ _ _ Hs Hk Em Hc H) as [Hm _].
  rewrite decide_True in Hm by done. rewrite decide_False in Hm by (by intros [? _]).
  by replace (cur - bad - cur) with (- bad) in Hm by lia.
Qed.

Lemma liquidate_keeps log : keeps (liquidate cfg abi log).
Proof.
  intros s s' d Hs HB H. unfold liquidate in H. resolve H m. run_step H pos Hi.
  apply moves_intern in Hi as (Hm0 & k & Hk & Em); [|done]. run_step H cur Hc. apply runs_debt in Hc as [-> Hc].
  pure_step H v Hv. apply add_u128_Ok in Hv as [-> Hv].
  run_step H u Hu. destruct u. apply runs_set_debt in Hu. destruct (write_moves _ _ _ _ _ _ _ _ _ (mv_wf _ _ _ _ _ Hm0) Hk Em Hc Hu) as [Hm1 Hk1].
  run_step H co Hco. apply runs_supply in Hco as [-> Hco]. pure_step H v Hv'.
  run_step H u Hu'. destruct u. apply runs_set_supply in Hu'.
  destruct (write_moves _ _ _ _ _ _ _ _ _ (mv_wf _ _ _ _ _ Hm1) Hk1 Em Hco Hu') as [Hm2 Hk2].
  run_step H u Hb. destruct u. pose proof (bad_debt_moves _ _ _ _ _ _ (mv_wf _ _ _ _ _ Hm2) Hk2 Em Hb) as Hm3.
  pure_step H lu Hlu. run_step H r Hp. apply runs_ret in H as [-> _].
  pose proof (moves_trans _ _ _ _ _ _ _ _ (moves_trans _ _ _ _ _ _ _ _ Hm0 Hm1) (moves_trans _ _ _ _ _ _ _ _ Hm2 Hm3)) as HM.
  eapply (books_step cfg s); [done|exact HM|exact Hp|].
  intros b l Ub Us Hl. cbv beta in Hl. apply bind_Ok in Hl as (ba & _ & Hl). apply bind_Ok in Hl as (bs & [-> Hbs]%add_u128_Ok & Hl).
  apply bind_Ok in Hl as (ba' & _ & Hl). apply bind_Ok in Hl as (sa & _ & Hl).
  apply bind_Ok in Hl as (bs' & [-> Hbs']%add_u128_Ok & [= <-]).
  cbn [with_totals lr_total_borrow_shares lr_total_supply_shares]. split; [done|]. split; [done|].
  repeat (case_decide; [|try naive_solver]); naive_solver lia.
Qed.

(** A listing on a fresh market starts a book at zero. *)
Lemma created_zero ev lt ct priced lu lltv :
  lr_total_borrow_shares (loan_of (created_loan ev lt ct priced lu lltv)) = 0 /\
  lr_total_supply_shares (loan_of (created_loan ev lt ct priced lu lltv)) = 0.
Proof.
  unfold created_loan. set (row := mkRow _ _ _ _ _ _ _ _).
  rewrite put_borrow_shares, put_supply_shares; apply loan_shares_fit || done.
Qed.

Lemma create_keeps log : keeps (create_market cfg abi log).
Proof.
  intros s s' d Hs HB H. unfold create_market in H. pure_step H ev G.
  destruct (asset_by_underlying cfg (ce_loan_token ev)) as [lt|]; [|by apply runs_ret in H as [-> _]].
  destruct (asset_by_underlying cfg (ce_collateral_token ev)) as [ct|]; [|by apply runs_ret in H as [-> _]].
  apply runs_bind in H as (s1 & [m found] & Hw & H). apply walk_all_reads in Hw as (-> & Hle & Hf).
  destruct found; [by destruct Hf as (? & ? & _ & _ & ?)|].
  destruct (Z.ltb_spec LAST_MARKET (Z.of_nat m)); [by apply runs_ret in H as [-> _]|].
  pure_step H lu Hlu. pure_step H lltv Hll. run_step H got1 Hp1. apply runs_push in Hp1.
  pure_step H u1 Hu1. pure_step H lu2 Hlu2. run_step H got2 Hp2. apply runs_push in Hp2.
  pure_step H u2 Hu2. apply runs_ret in H as [-> _].
  apply push_market_reads in Hp1 as (Hs1 & Hk1 & Hc1 & _ & Hr1); [|done].
  apply push_market_reads in Hp2 as (Hs2 & Hk2 & Hc2 & _ & Hr2); [|done]. split; [done|].
  intros m' rows Hm' Hlast Hrows. rewrite Hr2 in Hrows. unfold book_ok.
  rewrite !(total_same _ _ _ _ _ Hk2 Hc2), !(total_same _ _ _ _ _ Hk1 Hc1).
  destruct (decide (m' = m)) as [-> |]; [|rewrite Hr1, decide_False in Hrows by done; by apply HB].
  injection Hrows as <-. rewrite Hr1, decide_True, Hf by done. eexists. split; [reflexivity|].
  rewrite !total_unlisted by done. destruct (created_zero ev lt ct (oracle_pinned cfg (ce_oracle ev) (as_asset ct) (as_asset lt)) lu lltv) as [E1 E2].
  rewrite E1, E2. done.
Qed.

(** C36. The books of Morpho Blue balance: whatever log [apply_log] accepts, every market of the
    singleton that has rows keeps its loan row's borrow shares equal, to the unit, to the sum of
    its positions' debt shares, and its supply shares at least the sum of theirs. *)
Theorem morpho_books_balance (s s' : StateStore) (log : DecodedLog) (d : DirtySet) :
  store_wf s -> books cfg s -> run_prog (apply_log cfg abi log) s = (s', Some (Ok d)) ->
  store_wf s' /\ books cfg s'.
Proof.
  intros Hs HB H. unfold apply_log in H. destruct (negb _); [by apply runs_ret in H as [_ ?]|].
  destruct (head (dl_topics log)) as [t0|]; [|by apply runs_ret in H as [_ ?]]. cbv zeta in H.
  destruct (existsb _ _); [by apply runs_ret in H as [-> _]|].
  repeat (destruct (t0 =? _);
    [first [exact (create_keeps log s s' d Hs HB H)|exact (accrue_keeps log s s' d Hs HB H)
           |exact (set_fee_keeps log s s' d Hs HB H)|exact (supply_keeps log _ s s' d Hs HB H)
           |exact (borrow_keeps log _ s s' d Hs HB H)|exact (coll_keeps log _ s s' d Hs HB H)
           |exact (liquidate_keeps log s s' d Hs HB H)]|]).
  by apply runs_ret in H as [-> _].
Qed.
End Handlers.

(** * Fees *)

(** Accrual credits the market and nobody in it: it adds the fee's shares to the market's supply
    shares and leaves every position as it was. So the recipient's later withdrawal of those
    shares, which the chain allows, is refused as an underflow. *)
Theorem fee_shares_are_nobodys (cfg : Config) (abi : Abi) (s s1 : StateStore) (la lw : DecodedLog) (ea : AccrueEv)
    (ew : SharesEv) (d : DirtySet) (m : MarketId) (pos : PositionId) :
  store_wf s -> ab_accrue abi la = Some ea -> 0 < ae_fee_shares ea ->
  run_prog (accrue cfg abi la) s = (s1, Some (Ok d)) ->
  ab_shares abi TWithdraw lw = Some ew -> se_shares ew = ae_fee_shares ea ->
  run_prog (lookup_id cfg (se_id ew)) s1 = (s1, Some (Ok (Some m))) ->
  position_id s (mkKey (cf_protocol cfg) m (se_on_behalf ew)) = Some pos -> Store.supply s pos LOAN_SLOT = Ok 0 ->
  (forall c p j, bal s1 c p j = bal s c p j) /\
  run_prog (supply cfg abi lw false) s1 = (s1, Some (Err (PFixed Underflow))).
Proof.
  intros Hs Hea Hfee Ha Hew Hsh Hlook Hpos Hz.
  assert (store_wf s1 /\ same_cells s s1 /\ keys s1 = keys s) as (Hs1 & Hc & Hk).
  { change (runs (accrue cfg abi la) s s1 d) in Ha. unfold accrue in Ha. pure_step Ha ev G.
    run_step Ha f Hf. apply lookup_reads in Hf as [-> _]. destruct f; [|by apply runs_ret in Ha as [-> _]].
    pure_step Ha lu Hlu. run_step Ha r Hp. apply runs_ret in Ha as [-> _].
    by apply patch_reads in Hp as (? & ? & ? & ? & _ & _ & _ & _ & ? & ? & ? & _). }
  split; [exact Hc|]. rewrite position_id_key in Hpos by done. pose proof Hpos as Hpos1. rewrite <- Hk in Hpos1.
  destruct (keys_listed s1 pos _ Hs1 Hpos1) as [rows Hrows]. cbn [pk_market] in Hrows.
  assert (0 < length rows)%nat as Hlen.
  { change (runs (lookup_id cfg (se_id ew)) s1 s1 (Some m)) in Hlook. unfold lookup_id in Hlook.
    apply runs_bind in Hlook as (s2 & [m' b] & Hw & Hl). apply walk_all_reads in Hw as (-> & _ & Hf).
    apply runs_ret in Hl as [_ Hl]. destruct b; [|done]. injection Hl as ->.
    destruct Hf as (rows' & loan & Hr' & Hl' & _). rewrite Hrows in Hr'. injection Hr' as <-.
    apply lookup_lt_Some in Hl'. lia. }
  pose proof (read_listed s1 Supply pos LOAN_SLOT _ rows Hs1 Hpos1 Hrows Hlen) as Hread.
  rewrite Hc in Hread. unfold bal in Hread. unfold Store.supply in Hz. rewrite Hz in Hread.
  unfold supply. rewrite run_bind. cbn [lift run_prog]. rewrite Hew. cbn [decode ok_or]. rewrite run_bind, Hlook.
  rewrite run_bind. unfold intern. cbn [run_prog]. unfold Store.intern.
  assert (table_get (st_positions s1) (mkKey (cf_protocol cfg) m (se_on_behalf ew)) = Some pos) as ->
    by (by apply position_id_key). cbn [run_prog]. rewrite run_bind. cbn [run_prog]. unfold Store.supply. rewrite Hread.
  rewrite run_bind. cbn [lift run_prog]. unfold add_u128, checked_sub. rewrite Hsh.
  destruct (Z.leb_spec (ae_fee_shares ea) 0); [lia|]. done.
Qed.

(** ** A run *)

(** Events carried as their words, a topic per event. *)
Definition mo_topic (t : Topic) : Z :=
  match t with
  | TSetOwner => 1 | TSetFee => 2 | TSetFeeRecipient => 3 | TEnableIrm => 4 | TEnableLltv => 5 | TCreateMarket => 6
  | TSupply => 7 | TWithdraw => 8 | TBorrow => 9 | TRepay => 10 | TSupplyCollateral => 11 | TWithdrawCollateral => 12
  | TLiquidate => 13 | TFlashLoan => 14 | TSetAuthorization => 15 | TIncrementNonce => 16 | TAccrueInterest => 17
  | TUpgraded => 18 | TAdminChanged => 19 | TInitialized => 20
  end.
Definition mo_abi : Abi :=
  mkAbi mo_topic
    (fun l => match dl_data l with [i; lt; ct; o; irm; lltv] => Some (mkCreateEv i lt ct o irm lltv) | _ => None end)
    (fun l => match dl_data l with [i; r; n; f] => if 0 <=? f then Some (mkAccrueEv i r n f) else None | _ => None end)
    (fun l => match dl_data l with [i; f] => Some (mkFeeEv i f) | _ => None end)
    (fun _ l => match dl_data l with [i; u; a; sh] => Some (mkSharesEv i u a sh) | _ => None end)
    (fun _ l => match dl_data l with [i; u; a] => Some (mkCollEv i u a) | _ => None end)
    (fun l => match dl_data l with [i; u; a; sh; c; ba; bs] => Some (mkLiquidateEv i u a sh c ba bs) | _ => None end).
Definition mo_cfg : Config :=
  mkConfig 1 100 1 2 [mkAsset 1000 0 0 18; mkAsset 1001 1 1 6] [mkPin 88 0 1] 0.
Definition mo_log (t : Topic) (data : list Z) : DecodedLog := mkDecoded 100 [mo_topic t] data 5 1000.
Definition mo_run (s : StateStore) (logs : list DecodedLog) : StateStore :=
  fold_left (fun s l => fst (run_prog (apply_log mo_cfg mo_abi l) s)) logs s.

Definition mo_create : DecodedLog := mo_log TCreateMarket [77; 1001; 1000; 88; 99; 860000000000000000].
Definition mo_s1 : StateStore := mo_run (store_new 1000) [mo_create].

Lemma mo_fee_word log ev : ab_accrue mo_abi log = Some ev -> 0 <= ae_fee_shares ev.
Proof.
  cbn. intros H. repeat (case_match; try done). injection H as <-. by apply Z.leb_le.
Qed.
Lemma books_new cfg base : 0 <= base <= umax 64 -> store_wf (store_new base) /\ books cfg (store_new base).
Proof.
  intros Hb. split; [exact (ho_wf _ _ (hist_new base Hb))|]. intros m rows _ _ H. unfold st_rows, find_market in H. cbn in H.
  by destruct (market_idx [] m).
Qed.

(** Listing, supplying, borrowing 1000 shares, repaying 400 and liquidating 500 with 100 of bad debt. *)
Lemma morpho_books_balance_witness :
  books mo_cfg mo_s1 /\
  match run_prog (apply_log mo_cfg mo_abi (mo_log TLiquidate [77; 7; 3; 500; 0; 1; 100]))
          (mo_run mo_s1 [mo_log TSupply [77; 8; 50; 500]; mo_log TBorrow [77; 7; 9; 1000]; mo_log TRepay [77; 7; 2; 400]]) with
  | (s, Some (Ok _)) => total s Debt LOAN_SLOT 2 = 0
  | _ => False
  end.
Proof.
  split; [|vm_compute; reflexivity]. destruct (books_new mo_cfg 1000) as [Hs HB]; [vm_compute; split; discriminate|].
  apply (morpho_books_balance mo_cfg mo_abi mo_fee_word (store_new 1000) mo_s1 mo_create
    (DReprice [mkSlot 2 0; mkSlot 2 1]) Hs HB). vm_compute. reflexivity.
Defined.

(** A recipient that has supplied and withdrawn before is left with no tracked shares; 100 of
    fees accrue, and its withdrawal of them is refused. *)
Definition mo_fee_log : DecodedLog := mo_log TAccrueInterest [77; 5; 1000; 100].
Definition mo_fee_out : DecodedLog := mo_log TWithdraw [77; 7; 10; 100].
Definition mo_s2 : StateStore := mo_run mo_s1 [mo_log TSupply [77; 7; 50; 500]; mo_log TWithdraw [77; 7; 50; 500]].
Definition mo_s3 : StateStore := fst (run_prog (accrue mo_cfg mo_abi mo_fee_log) mo_s2).

Lemma fee_shares_are_nobodys_witness :
  (forall c p j, bal mo_s3 c p j = bal mo_s2 c p j) /\
  run_prog (supply mo_cfg mo_abi mo_fee_out false) mo_s3 = (mo_s3, Some (Err (PFixed Underflow))).
Proof.
  apply (fee_shares_are_nobodys mo_cfg mo_abi mo_s2 mo_s3 mo_fee_log mo_fee_out (mkAccrueEv 77 5 1000 100)
    (mkSharesEv 77 7 10 100) (DAccrual [mkSlot 2 0; mkSlot 2 1]) 2 0).
  - unfold mo_s2, mo_s1, mo_run. cbn [fold_left]. do 3 apply run_prog_wf. apply (books_new mo_cfg 1000).
    vm_compute; split; discriminate.
  - reflexivity.
  - reflexivity.
  - vm_compute. reflexivity.
  - reflexivity.
  - reflexivity.
  - vm_compute. reflexivity.
  - vm_compute. reflexivity.
  - vm_compute. reflexivity.
Defined.
