(* ===== verification/RouterFees.v ===== *)
(** Fees in the router: the next base fee ([crates/liq-router/src/band.rs]), the gas oracle
    ([gas.rs]), gas terms ([exact.rs]) and the committed bid ([bid.rs]). *)

From Stdlib Require Import Sorted.
From S2P Require Import Prelude Fixed Types Flash Exec.
Local Open Scope Z_scope.

Inductive RouteError := BadLeg | StalePool | InsufficientLiquidity | RMath | MissingInput.
Abbreviation RRes A := (Result RouteError A).

#[export] Instance RouteError_eq_dec : EqDecision RouteError.
Proof. solve_decision. Defined.

(** [o.ok_or(RouteError::Math)]. *)
Definition math {A} (o : option A) : RRes A := ok_or o RMath.

(** [mul_div_512]: the product of two [U256] always fits [U512]. *)
Definition mul_div_512 (a b d : Z) : RRes Z :=
  if d =? 0 then Err RMath else
  let? p := math (checked_mul 512 a b) in
  let? q := math (checked_div p d) in
  math (u256_from_u512 q).

(** * Base fee *)

Definition ELASTICITY : Z := 2.
Definition DENOM : Z := 8.

Definition next_base_fee (parent_base_fee parent_gas_used parent_gas_limit : Z) : option Z :=
  let! target := checked_div parent_gas_limit ELASTICITY in
  if target =? 0 then None else
  if parent_gas_used =? target then Some parent_base_fee else
  if target <? parent_gas_used then
    let! delta := checked_sub parent_gas_used target in
    let! m := checked_mul 128 parent_base_fee delta in
    let! q := checked_div m target in
    let! raw := checked_div q DENOM in
    checked_add 128 parent_base_fee (Z.max raw 1)
  else
    let! delta := checked_sub target parent_gas_used in
    let! m := checked_mul 128 parent_base_fee delta in
    let! q := checked_div m target in
    let! raw := checked_div q DENOM in
    checked_sub parent_base_fee raw.

(** * Gas oracle *)

Definition PRIORITY_FEE_WEI : Z := 1000000000.

Inductive GasError :=
| BadHeader | MissingGasLimit | MissingBaseFee | EmptyPriorityWindow | BadPercentile (pct : Z)
| ZeroCapacity.

Definition header_gas_limit (limit : Z) : option Z := if 0 <? limit then Some limit else None.

Record GasOracle := mkGasOracle {
  go_next_base : option Z; go_gas_limit : option Z; go_pri : list Z; go_cap : nat;
  go_next : nat; go_len : nat }.

Definition with_priority_cap (cap : nat) : option GasOracle :=
  if (cap =? 0)%nat then None else Some (mkGasOracle None None [] cap 0 0).

(** [usize::checked_rem(..).unwrap_or(0)]; [cap] is never zero, and an index stays below it. *)
Definition push_priority (g : GasOracle) (p : Z) : GasOracle :=
  if (length (go_pri g) <? go_cap g)%nat then
    let pri := go_pri g ++ [p] in
    mkGasOracle (go_next_base g) (go_gas_limit g) pri (go_cap g) (length pri mod go_cap g) (length pri)
  else
    mkGasOracle (go_next_base g) (go_gas_limit g) (<[go_next g := p]> (go_pri g)) (go_cap g)
      (S (go_next g) mod go_cap g) (go_cap g).

Definition observe_parent (g : GasOracle) (base used limit : Z) (samples : list Z)
    : GasOracle * Result GasError unit :=
  match header_gas_limit limit with
  | None => (g, Err MissingGasLimit)
  | Some limit =>
      match next_base_fee base used limit with
      | None => (g, Err BadHeader)
      | Some next =>
          (fold_left push_priority samples
             (mkGasOracle (Some next) (Some limit) (go_pri g) (go_cap g) (go_next g) (go_len g)), Ok tt)
      end
  end.

Definition priority_percentile (g : GasOracle) (pct : Z) : Result GasError Z :=
  if negb ((1 <=? pct) && (pct <=? 99)) then Err (BadPercentile pct) else
  if (go_len g =? 0)%nat then Err EmptyPriorityWindow else
  let n := go_len g in
  let tmp := sort_by Z.leb (take n (go_pri g)) in
  let? num := ok_or (checked_mul_nat 64 n (Z.to_nat pct)) (BadPercentile pct) in
  let? v := ok_or (checked_add_nat 64 num 99) (BadPercentile pct) in
  let rank := (v / 100)%nat in
  let idx := Nat.min (rank - 1) (n - 1) in
  ok_or (tmp !! idx) EmptyPriorityWindow.

Definition base_fee_cost_wei (g : GasOracle) (gas_used : Z) : Result GasError Z :=
  let? bf := ok_or (go_next_base g) MissingBaseFee in
  ok_or (checked_mul 256 gas_used bf) BadHeader.

Definition inclusion_cost_wei (g : GasOracle) (gas_used priority_wei : Z) : Result GasError Z :=
  let? bf := ok_or (go_next_base g) MissingBaseFee in
  let? per := ok_or (checked_add 128 bf priority_wei) BadHeader in
  ok_or (checked_mul 256 gas_used per) BadHeader.

(** ** Gas in the output token *)

Definition WEI_PER_ETH : Z := 1000000000000000000.

Record GasTerms := mkGas { gt_base_fee_wei : Z; gt_priority_fee_wei : Z; gt_out_per_eth : Z }.

Definition accounting_wei_per_gas (t : GasTerms) : RRes Z :=
  math (checked_add 128 (gt_base_fee_wei t) (gt_priority_fee_wei t)).

Definition cost_in_out (t : GasTerms) (gas : Z) : RRes Z :=
  let? per := accounting_wei_per_gas t in
  let? wei := math (checked_mul 256 gas per) in
  mul_div_512 wei (gt_out_per_eth t) WEI_PER_ETH.

(** * Bid *)

Definition BID_BPS : Z := 10000.

Definition debt_notional_eth_wei (repay per_eth : Z) : option Z :=
  if per_eth =? 0 then None else
  match mul_div_512 repay WEI_PER_ETH per_eth with Ok v => Some v | Err _ => None end.

Record BidConfig := mkBidConfig {
  bc_beta_cap_bps : Z; bc_learning_target_bps : Z; bc_jitter_lo_bps : Z; bc_jitter_hi_bps : Z }.

Definition bid_config_new (cap target lo hi : Z) : option BidConfig :=
  if (cap =? 0) || (BID_BPS <=? cap) then None else
  if cap <? target then None else
  if hi <? lo then None else
  Some (mkBidConfig cap target lo hi).

Record BidSchedule := mkSchedule {
  bs_size_cut_wei : Z; bs_aave_v3 : ProtocolId; bs_aave_v4 : ProtocolId;
  bs_aave_below : BidConfig; bs_aave_above : BidConfig;
  bs_other_below : BidConfig; bs_other_above : BidConfig }.

Definition schedule_config (s : BidSchedule) (protocol : ProtocolId) (size_eth_wei : Z) : BidConfig :=
  let aave := (protocol =? bs_aave_v3 s) || (protocol =? bs_aave_v4 s) in
  let above := bs_size_cut_wei s <=? size_eth_wei in
  match aave, above with
  | true, false => bs_aave_below s
  | true, true => bs_aave_above s
  | false, false => bs_other_below s
  | false, true => bs_other_above s
  end.

Inductive BidError := BadConfig | BadDraw (draw : Z) | MissingPriority.

Record Bid := mkBid { bd_coinbase_bps : Z; bd_priority_wei : Z; bd_refund_bps : Z }.

(** [i32] arithmetic. *)
Definition i32 (x : Z) : option Z :=
  if (- 2 ^ 31 <=? x) && (x <=? 2 ^ 31 - 1) then Some x else None.

Definition beta_of (cfg : BidConfig) (draw : Z) : Result BidError Z :=
  if BID_BPS <? draw then Err (BadDraw draw) else
  let? span := ok_or (i32 (bc_jitter_hi_bps cfg - bc_jitter_lo_bps cfg)) BadConfig in
  let? delta := ok_or (let! n := i32 (span * draw) in Some (Z.quot n BID_BPS)) BadConfig in
  let? jitter := ok_or (i32 (bc_jitter_lo_bps cfg + delta)) BadConfig in
  let? raw := ok_or (i32 (bc_learning_target_bps cfg + jitter)) BadConfig in
  let? floored := ok_or (try_from 16 (Z.max raw 0)) BadConfig in
  Ok (Z.min floored (bc_beta_cap_bps cfg)).

Definition bid (cfg : BidConfig) (draw priority_wei : Z) : Result BidError Bid :=
  if priority_wei =? 0 then Err MissingPriority else
  let? beta := beta_of cfg draw in
  Ok (mkBid beta priority_wei beta).

Definition searcher_net (net bid_bps : Z) : option Z :=
  if BID_BPS <=? bid_bps then None else
  let! keep := checked_sub BID_BPS bid_bps in
  let! m := checked_mul 256 net keep in
  checked_div m BID_BPS.

(** * The base fee rule *)

Lemma checked_div_Some a b r : checked_div a b = Some r <-> b <> 0 /\ r = a / b.
Proof. unfold checked_div. destruct (Z.eqb_spec b 0); naive_solver. Qed.

(** The two ways the fee moves. *)
Lemma next_base_fee_cases b used limit y :
  0 <= b -> 0 <= limit -> next_base_fee b used limit = Some y ->
  let t := limit / 2 in 0 < t /\
  (used = t /\ y = b \/
   t < used /\ y = b + Z.max (b * (used - t) / t / 8) 1 \/
   used < t /\ y = b - b * (t - used) / t / 8 /\ b * (t - used) / t / 8 <= b).
Proof.
  unfold next_base_fee, ELASTICITY, DENOM. intros Hb Hl H.
  destruct (checked_div limit 2) as [t|] eqn:Et; [|done]. apply checked_div_Some in Et as [_ ->].
  cbv zeta. destruct (Z.eqb_spec (limit / 2) 0) as [|Hnz]; [done|].
  assert (0 <= limit / 2) by (apply Z.div_pos; lia). split; [lia|].
  destruct (Z.eqb_spec used (limit / 2)); [injection H as <-; by left|].
  destruct (Z.ltb_spec (limit / 2) used).
  - right. left. split; [done|]. destruct (checked_sub _ _) as [d|] eqn:Ed; [|done].
    apply checked_sub_Some in Ed as [-> _]. destruct (checked_mul _ _ _) as [m|] eqn:Em; [|done].
    apply checked_mul_Some in Em as [-> _]. destruct (checked_div _ (limit / 2)) as [q|] eqn:Eq; [|done].
    apply checked_div_Some in Eq as [_ ->]. cbn [checked_div] in H. unfold checked_div in H.
    cbn in H. by apply checked_add_Some in H as [-> _].
  - right. right. split; [lia|]. destruct (checked_sub _ _) as [d|] eqn:Ed; [|done].
    apply checked_sub_Some in Ed as [-> _]. destruct (checked_mul _ _ _) as [m|] eqn:Em; [|done].
    apply checked_mul_Some in Em as [-> _]. destruct (checked_div _ (limit / 2)) as [q|] eqn:Eq; [|done].
    apply checked_div_Some in Eq as [_ ->]. unfold checked_div in H. cbn in H.
    by apply checked_sub_Some in H as [-> ?].
Qed.

Lemma mul_div_512_Ok a b d r : mul_div_512 a b d = Ok r -> d <> 0 /\ r = a * b / d /\ uint_ok 256 r.
Proof.
  unfold mul_div_512, math. destruct (Z.eqb_spec d 0) as [|Hd]; [done|]. intros H.
  apply bind_Ok in H as (x & [-> _]%ok_or_Ok%checked_mul_Some & H).
  apply bind_Ok in H as (y & [_ ->]%ok_or_Ok%checked_div_Some & H). by apply ok_or_Ok, try_from_Some in H as [-> ?].
Qed.

(** A header whose gas used is within twice the target. *)
Definition header_ok (h : Z * Z) : Prop := 0 <= fst h <= 2 * (snd h / 2) /\ 0 <= snd h.

Lemma next_base_fee_step b h y :
  0 <= b -> header_ok h -> next_base_fee b (fst h) (snd h) = Some y -> 0 <= y /\ 8 * y <= Z.max (9 * b) 64.
Proof.
  destruct h as [used limit]. intros Hb [Hu Hl] H. cbn [fst snd] in *.
  apply next_base_fee_cases in H as (Ht & H); [|done..]. set (t := limit / 2) in *.
  destruct H as [[_ ->]|[[Hlt ->]|(Hlt & -> & Hle)]].
  - lia.
  - assert (b * (used - t) / t <= b) as Hq.
    { apply Z.div_le_upper_bound; [done|]. nia. }
    assert (0 <= b * (used - t) / t) by (apply Z.div_pos; nia).
    pose proof (div_rem_spec (b * (used - t) / t) 8 ltac:(lia)). lia.
  - assert (0 <= b * (t - used) / t / 8).
    { apply Z.div_pos; [|lia]. apply Z.div_pos; [|done]. nia. }
    lia.
Qed.

(** The base fee after some headers. *)
Fixpoint fee_after (b : Z) (hs : list (Z * Z)) : option Z :=
  match hs with
  | [] => Some b
  | h :: hs => let! b := next_base_fee b (fst h) (snd h) in fee_after b hs
  end.

Lemma fee_after_bound hs : forall b m e x,
  0 <= b -> 0 < e -> 8 * e <= m -> b * e <= m -> Forall header_ok hs -> fee_after b hs = Some x ->
  0 <= x /\ x * (e * 8 ^ Z.of_nat (length hs)) <= m * 9 ^ Z.of_nat (length hs).
Proof.
  induction hs as [|h hs IH]; intros b m e x Hb He H8 Hm Hok H; cbn [fee_after length] in *.
  { injection H as <-. cbn. lia. }
  apply Forall_cons in Hok as [Hh Hok].
  destruct (next_base_fee b (fst h) (snd h)) as [y|] eqn:Ey; [|done].
  apply next_base_fee_step in Ey as [Hy Hy8]; [|done..].
  rewrite Nat2Z.inj_succ, !Z.pow_succ_r by lia.
  assert (y * (e * 8) <= m * 9) as Hm'
    by (destruct (Z.max_spec (9 * b) 64) as [[? E]|[? E]]; rewrite E in Hy8; nia).
  destruct (IH y (m * 9) (e * 8) x Hy ltac:(lia) ltac:(lia) Hm' Hok H) as [? Hx].
  split; [done|]. rewrite Z.mul_assoc in Hx. lia.
Qed.

(** The fee ceiling bound to an inclusion window covers every base fee the chain can reach
    in it: from a base fee of at least 8 wei, through up to [k] headers whose gas used is at
    most twice their target, the base fee never passes [max_fee_per_gas]. *)
Theorem ceiling_covers_headers b k v hs x :
  8 <= b -> 0 <= k -> max_fee_per_gas b k = Ok v -> Z.of_nat (length hs) <= k ->
  Forall header_ok hs -> fee_after b hs = Some x -> x <= v.
Proof.
  intros Hb Hk Hv Hlen Hok Hx. apply max_fee_ceil in Hv as ->; [|lia|done].
  apply (fee_after_bound hs b b 1) in Hx as [Hx0 Hx]; [|lia..|done]. set (n := Z.of_nat (length hs)) in *.
  assert (0 < 8 ^ k) as He by (apply Z.pow_pos_nonneg; lia).
  pose proof (div_up_spec (b * 9 ^ k) _ He) as [Hup _].
  assert (x * 8 ^ k <= b * 9 ^ k); [|nia].
  replace k with (n + (k - n)) by lia. rewrite !Z.pow_add_r by lia.
  assert (8 ^ (k - n) <= 9 ^ (k - n)) by (apply Z.pow_le_mono_l; lia).
  assert (0 < 8 ^ (k - n)) by (apply Z.pow_pos_nonneg; lia). nia.
Qed.

Lemma ceiling_covers_headers_witness :
  fee_after 1000 [(30000000, 30000000); (0, 30000000); (30000000, 30000000)] = Some 1108 /\ 1108 <= 1424.
Proof.
  split; [vm_compute; reflexivity|].
  apply (ceiling_covers_headers 1000 3 1424 [(30000000, 30000000); (0, 30000000); (30000000, 30000000)]);
    try (vm_compute; (reflexivity || discriminate)).
  repeat constructor; vm_compute; discriminate.
Defined.

(** Under an odd gas limit the ceiling is too low: a full block then uses more than twice
    its target, and from a base fee that is a multiple of 8 and at least eight times the target
    in wei the next base fee is above [ceil(base * 9/8)], the ceiling of a one-block window. *)
Theorem odd_gas_limit_passes_ceiling t q v y :
  0 < t -> t <= q -> max_fee_per_gas (8 * q) 1 = Ok v ->
  next_base_fee (8 * q) (2 * t + 1) (2 * t + 1) = Some y -> v < y.
Proof.
  intros Ht Hq Hv Hy. apply max_fee_ceil in Hv as ->; [|lia|lia].
  apply next_base_fee_cases in Hy as (_ & Hy); [|lia..].
  assert ((2 * t + 1) / 2 = t) as Et by (apply div_unique_pos with 1; lia). rewrite Et in Hy.
  destruct Hy as [[? _]|[[_ ->]|[? _]]]; [lia| |lia].
  assert (div_up (8 * q * 9 ^ 1) (8 ^ 1) = 9 * q) as ->.
  { unfold div_up. apply div_unique_pos with 7; lia. }
  assert (8 * q + 8 <= 8 * q * (2 * t + 1 - t) / t) by (apply Z.div_le_lower_bound; lia).
  pose proof (div_rem_spec (8 * q * (2 * t + 1 - t) / t) 8 ltac:(lia)). lia.
Qed.

(** One gwei under a gas limit of 29,999,999. *)
Lemma odd_gas_limit_passes_ceiling_witness :
  max_fee_per_gas 1000000000 1 = Ok 1125000000 /\
  next_base_fee 1000000000 29999999 29999999 = Some 1125000008 /\ 1125000000 < 1125000008.
Proof.
  split; [vm_compute; reflexivity|]. split; [vm_compute; reflexivity|].
  apply (odd_gas_limit_passes_ceiling 14999999 125000000);
    try (vm_compute; reflexivity). vm_compute. discriminate.
Defined.

(** * The priority ring *)

(** The last [n] elements. *)
Definition lastn {A} (n : nat) (l : list A) : list A := drop (length l - n) l.

Lemma lastn_snoc {A} n (l : list A) x :
  (0 < n)%nat -> (n <= length l)%nat -> lastn n (l ++ [x]) = tail (lastn n l) ++ [x].
Proof.
  intros Hn Hl. unfold lastn. rewrite length_app. cbn [length].
  rewrite drop_app_le by lia. f_equal.
  assert (forall m : list A, tail m = drop 1 m) as -> by by intros [].
  rewrite drop_drop. f_equal. lia.
Qed.

(** The ring read from its oldest slot. *)
Definition ring_view (g : GasOracle) : list Z := drop (go_next g) (go_pri g) ++ take (go_next g) (go_pri g).

Record ring_ok (g : GasOracle) (hist : list Z) : Prop := {
  rk_cap : (0 < go_cap g)%nat;
  rk_len : go_len g = length (go_pri g);
  rk_size : length (go_pri g) = Nat.min (length hist) (go_cap g);
  rk_next : (go_next g < go_cap g)%nat;
  rk_fill : (length hist < go_cap g)%nat -> go_pri g = hist /\ go_next g = length hist;
  rk_view : (go_cap g <= length hist)%nat -> ring_view g = lastn (go_cap g) hist }.

Lemma ring_view_insert (l : list Z) n p c :
  length l = c -> (n < c)%nat ->
  drop (S n mod c) (<[n := p]> l) ++ take (S n mod c) (<[n := p]> l) = tail (drop n l ++ take n l) ++ [p].
Proof.
  intros Hl Hn. destruct (lookup_lt_is_Some_2 l n) as [x Hx]; [lia|].
  rewrite insert_take_drop by lia. rewrite (drop_S l x n Hx).
  assert (length (take n l) = n) as Ht by (rewrite length_take; lia).
  cbn [app tail]. destruct (Nat.eq_dec (S n) c) as [E|E].
  - rewrite E, Nat.Div0.mod_same. rewrite take_0, drop_0, app_nil_r.
    by rewrite (drop_ge l c) by lia.
  - rewrite Nat.mod_small by lia. rewrite cons_middle, app_assoc.
    rewrite drop_app_length' by (rewrite length_app; cbn; lia).
    rewrite take_app_length' by (rewrite length_app; cbn; lia). by rewrite app_assoc.
Qed.

Lemma push_priority_ok g hist p : ring_ok g hist -> ring_ok (push_priority g p) (hist ++ [p]).
Proof.
  intros [Hc Hlen Hsz Hnx Hfill Hview]. unfold push_priority.
  destruct (Nat.ltb_spec (length (go_pri g)) (go_cap g)) as [Hlt|Hge].
  - destruct Hfill as [Ep En]; [lia|]. constructor; cbn [go_cap go_len go_pri go_next]; rewrite ?length_app; cbn [length].
    + done.
    + done.
    + lia.
    + apply Nat.mod_upper_bound. lia.
    + intros ?. rewrite Ep. split; [done|]. apply Nat.mod_small. lia.
    + intros ?. unfold ring_view. cbn [go_next go_pri].
      assert (length (go_pri g) + 1 = go_cap g)%nat as -> by lia.
      rewrite Nat.Div0.mod_same, drop_0, take_0, app_nil_r. rewrite Ep. unfold lastn.
      rewrite length_app. cbn [length].
      assert (length hist + 1 - go_cap g = 0)%nat as -> by (rewrite Ep in *; lia). by rewrite drop_0.
  - assert (go_cap g <= length hist)%nat as Hfull by lia.
    constructor; cbn [go_cap go_len go_pri go_next]; rewrite ?length_insert, ?length_app; cbn [length]; try lia.
    + apply Nat.mod_upper_bound. lia.
    + intros _. unfold ring_view. cbn [go_next go_pri].
      rewrite (ring_view_insert _ _ _ (go_cap g)) by lia. rewrite lastn_snoc by lia.
      by rewrite <- (Hview Hfull).
Qed.

(** A block seen by the oracle. *)
Record Block := mkBlock { bl_base : Z; bl_used : Z; bl_limit : Z; bl_samples : list Z }.
Definition observe (g : GasOracle) (b : Block) : GasOracle :=
  fst (observe_parent g (bl_base b) (bl_used b) (bl_limit b) (bl_samples b)).
(** The blocks whose header was accepted. *)
Definition accepted (b : Block) : bool :=
  match header_gas_limit (bl_limit b) with
  | Some l => match next_base_fee (bl_base b) (bl_used b) l with Some _ => true | None => false end
  | None => false
  end.

Lemma observe_ok g hist b :
  ring_ok g hist -> ring_ok (observe g b) (hist ++ if accepted b then bl_samples b else []).
Proof.
  intros Hok. unfold observe, observe_parent, accepted.
  destruct (header_gas_limit (bl_limit b)) as [l|]; [|by rewrite app_nil_r].
  destruct (next_base_fee _ _ _) as [nb|]; [|by rewrite app_nil_r]. cbn [fst].
  assert (ring_ok (mkGasOracle (Some nb) (Some l) (go_pri g) (go_cap g) (go_next g) (go_len g)) hist) as H
    by (destruct Hok; by constructor).
  revert H. generalize (mkGasOracle (Some nb) (Some l) (go_pri g) (go_cap g) (go_next g) (go_len g)).
  clear. revert hist. induction (bl_samples b) as [|s l IH]; intros hist g0 Hg; cbn [fold_left].
  { by rewrite app_nil_r. }
  replace (hist ++ s :: l) with ((hist ++ [s]) ++ l) by by rewrite <- app_assoc.
  by apply IH, push_priority_ok.
Qed.

Definition count_le (v : Z) (l : list Z) : nat := length (List.filter (fun x => x <=? v) l).
Definition count_lt (v : Z) (l : list Z) : nat := length (List.filter (fun x => x <? v) l).

Lemma filter_perm_length (f : Z -> bool) l1 l2 :
  l1 ≡ₚ l2 -> length (List.filter f l1) = length (List.filter f l2).
Proof.
  induction 1 as [|x l1 l2 _ IH|x y l|l1 l2 l3 _ IH1 _ IH2]; cbn; [done| | |congruence].
  - destruct (f x); cbn; congruence.
  - by destruct (f x), (f y).
Qed.

Lemma sorted_le l : StronglySorted (fun a b => (a <=? b) = true) (sort_by Z.leb l).
Proof. apply sort_by_sorted; intros; rewrite ?Z.leb_le in *; lia. Qed.

(** The element at [i] of a sorted list has more than [i] elements at or below it and at most
    [i] below it. *)
Lemma sorted_rank l : StronglySorted (fun a b => (a <=? b) = true) l ->
  forall i v, l !! i = Some v -> (i < count_le v l)%nat /\ (count_lt v l <= i)%nat.
Proof.
  induction 1 as [|a l Hs IH Hall]; intros i v Hv; [done|]. unfold count_le, count_lt in *.
  destruct i as [|i]; cbn in Hv |- *.
  - injection Hv as ->. rewrite Z.leb_refl, Z.ltb_irrefl. cbn. split; [lia|].
    assert (List.filter (fun x => x <? v) l = []) as ->; [|done].
    clear Hs IH. induction Hall as [|b l Hb _ IH]; [done|]. cbn. apply Z.leb_le in Hb.
    by rewrite (proj2 (Z.ltb_ge b v)).
  - destruct (IH i v Hv) as [H1 H2]. rewrite Forall_forall in Hall.
    specialize (Hall v (list_elem_of_lookup_2 _ _ _ Hv)). rewrite Hall. cbn. split; [lia|].
    destruct (a <? v); cbn; lia.
Qed.

Lemma observe_cap g b : go_cap (observe g b) = go_cap g.
Proof.
  unfold observe, observe_parent. destruct (header_gas_limit _) as [l|]; [|done].
  destruct (next_base_fee _ _ _) as [nb|]; [|done]. cbn [fst].
  change (go_cap g) with (go_cap (mkGasOracle (Some nb) (Some l) (go_pri g) (go_cap g) (go_next g) (go_len g))) at 2.
  generalize (mkGasOracle (Some nb) (Some l) (go_pri g) (go_cap g) (go_next g) (go_len g)).
  induction (bl_samples b) as [|x xs IH]; intros g'; cbn [fold_left]; [done|].
  rewrite IH. unfold push_priority. by destruct (_ <? _)%nat.
Qed.

Definition seen_samples (blocks : list Block) : list Z :=
  concat (bl_samples <$> List.filter accepted blocks).

Lemma oracle_ring blocks : forall g hist, ring_ok g hist ->
  ring_ok (fold_left observe blocks g) (hist ++ seen_samples blocks) /\
  go_cap (fold_left observe blocks g) = go_cap g.
Proof.
  unfold seen_samples.
  induction blocks as [|b blocks IH]; intros g hist Hg; cbn [fold_left List.filter].
  { by rewrite app_nil_r. }
  destruct (IH _ _ (observe_ok _ _ b Hg)) as [H1 H2]. rewrite observe_cap in H2. split; [|done].
  destruct (accepted b); cbn [fmap list_fmap concat]; [by rewrite app_assoc|by rewrite app_nil_r in H1].
Qed.

(** The ring holds the latest samples. *)
Lemma ring_latest g hist : ring_ok g hist -> go_pri g ≡ₚ lastn (go_cap g) hist.
Proof.
  intros [Hc Hlen Hsz Hnx Hfill Hview]. destruct (Nat.lt_ge_cases (length hist) (go_cap g)) as [Hlt|Hge].
  - destruct (Hfill Hlt) as [-> _]. unfold lastn. assert (length hist - go_cap g = 0)%nat as -> by lia.
    by rewrite drop_0.
  - rewrite <- (Hview Hge). unfold ring_view. rewrite (Permutation_app_comm (drop _ _)). by rewrite take_drop.
Qed.

(** The oracle answers with the nearest-rank percentile of the latest priority fees: over
    any blocks, those with a refused header left out, a percentile from 1 to 99 is one of the
    last [cap] samples, at least that share of them is at or below it and less than that share
    is below it; it fails only when no sample was seen. *)
Theorem percentile_of_latest cap g0 blocks pct :
  with_priority_cap cap = Some g0 -> 1 <= pct <= 99 -> Z.of_nat cap * 99 + 99 <= umax 64 ->
  let g := fold_left observe blocks g0 in
  let latest := lastn cap (seen_samples blocks) in
  let n := Z.of_nat (length latest) in
  match priority_percentile g pct with
  | Ok v => v ∈ latest /\ n * pct <= 100 * Z.of_nat (count_le v latest) /\
            100 * Z.of_nat (count_lt v latest) < n * pct
  | Err e => e = EmptyPriorityWindow /\ latest = []
  end.
Proof.
  intros Hnew Hpct Hcap g latest n.
  assert (ring_ok g (seen_samples blocks) /\ go_cap g = cap) as [Hok Ecap].
  { unfold with_priority_cap in Hnew. destruct (Nat.eqb_spec cap 0); [done|]. injection Hnew as <-.
    apply (oracle_ring blocks (mkGasOracle None None [] cap 0 0) []). constructor; cbn; done || lia. }
  pose proof (ring_latest _ _ Hok) as Hperm. rewrite Ecap in Hperm. fold latest in Hperm.
  pose proof (Permutation_length Hperm) as Hlen. pose proof (rk_len _ _ Hok) as El.
  pose proof (rk_size _ _ Hok) as Esz. rewrite Ecap in Esz.
  unfold priority_percentile. rewrite (proj2 (Z.leb_le 1 pct)), (proj2 (Z.leb_le pct 99)) by lia.
  cbn [andb negb]. rewrite El. destruct (Nat.eqb_spec (length (go_pri g)) 0) as [E0|E0].
  { split; [done|]. apply nil_length_inv. lia. }
  rewrite firstn_all.
  assert (checked_mul_nat 64 (length (go_pri g)) (Z.to_nat pct) = Some (length (go_pri g) * Z.to_nat pct)%nat)
    as -> by (apply checked_mul_nat_Some; split; [done|nia]). cbn [ok_or].
  assert (checked_add_nat 64 (length (go_pri g) * Z.to_nat pct) 99 = Some (length (go_pri g) * Z.to_nat pct + 99)%nat)
    as -> by (apply checked_add_nat_Some; split; [done|nia]). cbn [ok_or].
  set (m := length (go_pri g)) in *. set (rank := ((m * Z.to_nat pct + 99) / 100)%nat).
  assert (100 * rank < m * Z.to_nat pct + 100 /\ m * Z.to_nat pct <= 100 * rank)%nat as [Hr1 Hr2].
  { pose proof (Nat.div_mod_eq (m * Z.to_nat pct + 99) 100).
    pose proof (Nat.mod_upper_bound (m * Z.to_nat pct + 99) 100 ltac:(lia)). unfold rank. lia. }
  assert (Nat.min (rank - 1) (m - 1) = rank - 1)%nat as -> by nia.
  pose proof (sort_by_perm Z.leb (go_pri g)) as Hsort.
  destruct (lookup_lt_is_Some_2 (sort_by Z.leb (go_pri g)) (rank - 1)) as [v Hv].
  { rewrite (Permutation_length Hsort). fold m. nia. }
  rewrite Hv. cbn [ok_or]. destruct (sorted_rank _ (sorted_le (go_pri g)) _ _ Hv) as [Hle Hlt].
  assert (sort_by Z.leb (go_pri g) ≡ₚ latest) as Hall by by rewrite Hsort.
  unfold count_le, count_lt in *. rewrite (filter_perm_length _ _ _ Hall) in Hle.
  rewrite (filter_perm_length _ _ _ Hall) in Hlt.
  split; [rewrite <- Hall; by eapply list_elem_of_lookup_2|]. unfold n. rewrite <- Hlen. fold m.
  split; nia.
Qed.

Lemma percentile_of_latest_witness :
  let blocks := [mkBlock 1000 1 2 [5; 9]; mkBlock 1000 1 0 [7]; mkBlock 1000 1 2 [1; 3]] in
  match priority_percentile (fold_left observe blocks (mkGasOracle None None [] 3 0 0)) 50 with
  | Ok v => v = 3
  | Err _ => False
  end /\
  match priority_percentile (fold_left observe blocks (mkGasOracle None None [] 3 0 0)) 50 with
  | Ok v => v ∈ lastn 3 (seen_samples blocks) /\
      Z.of_nat (length (lastn 3 (seen_samples blocks))) * 50 <=
        100 * Z.of_nat (count_le v (lastn 3 (seen_samples blocks))) /\
      100 * Z.of_nat (count_lt v (lastn 3 (seen_samples blocks))) <
        Z.of_nat (length (lastn 3 (seen_samples blocks))) * 50
  | Err e => e = EmptyPriorityWindow /\ lastn 3 (seen_samples blocks) = []
  end.
Proof.
  intros blocks. split; [vm_compute; reflexivity|].
  apply (percentile_of_latest 3 (mkGasOracle None None [] 3 0 0) blocks 50);
    [reflexivity|lia|vm_compute; discriminate].
Defined.

(** * The bid *)

Lemma i32_ok x : - 2 ^ 31 <= x <= 2 ^ 31 - 1 -> i32 x = Some x.
Proof.
  intros. unfold i32. by rewrite (proj2 (Z.leb_le _ _)), (proj2 (Z.leb_le _ _)) by lia.
Qed.

(** A committed bid is total and stays under its cap: with a configuration that passed its
    checks and any draw up to 10,000, the bid is [min(cap, max(0, target + jitter))] for the
    jitter interpolated between its bounds, strictly below the whole net, the same on both
    channels, and what the searcher keeps of a net is exactly the rest, rounded down. *)
Theorem bid_stays_under_cap cap target lo hi cfg draw pw net :
  bid_config_new cap target lo hi = Some cfg -> 0 <= cap -> 0 <= target ->
  - 2 ^ 15 <= lo -> hi <= 2 ^ 15 - 1 -> 0 <= draw <= BID_BPS -> pw <> 0 ->
  0 <= net -> net * BID_BPS <= umax 256 ->
  let beta := Z.min (Z.max (target + (lo + (hi - lo) * draw / BID_BPS)) 0) cap in
  bid cfg draw pw = Ok (mkBid beta pw beta) /\ 0 <= beta <= cap /\ cap < BID_BPS /\
  exists kept, searcher_net net beta = Some kept /\
    kept * BID_BPS <= net * (BID_BPS - beta) < (kept + 1) * BID_BPS.
Proof.
  intros Hcfg Hcap Ht Hlo Hhi Hdraw Hpw Hnet Hmax beta. unfold bid_config_new in Hcfg.
  destruct (Z.eqb_spec cap 0); [done|]. destruct (Z.leb_spec BID_BPS cap); [done|]. cbn [orb] in Hcfg.
  destruct (Z.ltb_spec cap target); [done|]. destruct (Z.ltb_spec hi lo); [done|].
  injection Hcfg as <-. unfold bid. rewrite (proj2 (Z.eqb_neq pw 0)) by done.
  unfold beta_of. cbn [bc_jitter_hi_bps bc_jitter_lo_bps bc_learning_target_bps bc_beta_cap_bps].
  unfold BID_BPS in *. rewrite (proj2 (Z.ltb_ge _ _)) by lia.
  assert (0 <= (hi - lo) * draw <= 65535 * 10000) by nia.
  assert (0 <= (hi - lo) * draw / 10000 <= hi - lo) as Hj.
  { split; [apply Z.div_pos; lia|]. apply Z.div_le_upper_bound; [lia|]. nia. }
  rewrite (i32_ok (hi - lo)) by lia. cbn [ok_or]. rewrite (i32_ok ((hi - lo) * draw)) by lia. cbn [ok_or].
  rewrite Z.quot_div_nonneg by lia. rewrite i32_ok by lia. cbn [ok_or]. rewrite i32_ok by lia. cbn [ok_or].
  rewrite try_from_ok by (unfold uint_ok, umax; lia). cbn [ok_or]. fold beta.
  split; [done|]. split; [unfold beta; lia|]. split; [lia|]. unfold searcher_net, BID_BPS.
  rewrite (proj2 (Z.leb_gt _ _)) by (unfold beta; lia). rewrite checked_sub_ok by (unfold beta; lia).
  assert (0 <= beta <= 10000) by (unfold beta; lia).
  rewrite checked_mul_ok by nia. exists (net * (10000 - beta) / 10000). split; [done|].
  pose proof (div_rem_spec (net * (10000 - beta)) 10000 ltac:(lia)). lia.
Qed.

Lemma bid_stays_under_cap_witness :
  bid (mkBidConfig 9950 9940 (-5) 20) 10000 PRIORITY_FEE_WEI = Ok (mkBid 9950 PRIORITY_FEE_WEI 9950) /\
  0 <= 9950 <= 9950.
Proof.
  split; [vm_compute; reflexivity|].
  refine (proj1 (proj2 (bid_stays_under_cap 9950 9940 (-5) 20 (mkBidConfig 9950 9940 (-5) 20) 10000
    PRIORITY_FEE_WEI 1000000 _ _ _ _ _ _ _ _ _)));
    try (vm_compute; (reflexivity || discriminate)). vm_compute. split; discriminate.
Defined.
