(* ===== verification/RouterBand.v ===== *)
(** The viability band of a pair ([crates/liq-router/src/band.rs]): the doubling scan, the two
    edge bisections and the table of bands.

    The exact solver ([solve_pair]) and the haircut are arguments: what is shown holds for any
    quote they give. A quote is the amount out and the hop gas, the two fields the band reads. *)

From S2P Require Import Prelude Fixed Types Exec RouterFees.
Local Open Scope Z_scope.

Definition EDGE_TOL : Z := 1000.
Definition BAND_BPS : Z := 10000.

Record ViabilityBand := mkVBand { vb_min_size : Z; vb_max_size : Z; vb_base_fee : Z; vb_block : Z }.
Record PairTerms := mkTerms {
  pt_bonus : Z; pt_coll_per_debt : Z; pt_flash_fee_bps : Z; pt_fixed_gas : Z }.

Definition seized_for (s : Z) (t : PairTerms) : RRes Z :=
  let? one_plus := math (checked_add 256 RAY (pt_bonus t)) in
  let? eq := mul_div_512 s one_plus RAY in
  mul_div_512 eq (pt_coll_per_debt t) RAY.

Section Band.
Context (solve : Z -> RRes (Z * Z)) (haircut : Z -> Z -> Z) (t : PairTerms) (gas : GasTerms).

Definition viable (s : Z) : RRes (option bool) :=
  match seized_for s t with
  | Err _ => Ok None
  | Ok seized =>
      if seized =? 0 then Ok (Some false) else
      match solve seized with
      | Err InsufficientLiquidity | Err RMath => Ok None
      | Err e => Err e
      | Ok (amount_out, hop_gas) =>
          let out := haircut seized amount_out in
          let? flash := mul_div_512 s (pt_flash_fee_bps t) BAND_BPS in
          let? g := math (checked_add 64 (pt_fixed_gas t) hop_gas) in
          let? gas_cost := cost_in_out gas g in
          let? cost := math (let! v := checked_add 256 s flash in checked_add 256 v gas_cost) in
          Ok (Some (cost <=? out))
      end
  end.

Definition is_viable (r : option bool) : bool := match r with Some true => true | _ => false end.

Record Scan := mkScan {
  sc_prev_bad : Z; sc_first_good : option Z; sc_last_good : Z; sc_upper_bad : option Z }.

(** The doubling scan; [None] is the early [return Ok(None)]. *)
Fixpoint scan (turns : nat) (s : Z) (st : Scan) : RRes (option Scan) :=
  match turns with
  | O => Ok (Some st)
  | S turns =>
      let go st := match checked_mul 256 s 2 with
                   | None => Ok (Some st)
                   | Some next => scan turns next st
                   end in
      let? r := viable s in
      match r, sc_first_good st with
      | Some true, None => go (mkScan (sc_prev_bad st) (Some s) s (sc_upper_bad st))
      | Some true, Some g => go (mkScan (sc_prev_bad st) (Some g) s (sc_upper_bad st))
      | Some false, None => go (mkScan s None (sc_last_good st) (sc_upper_bad st))
      | None, None => Ok None
      | _, Some g => Ok (Some (mkScan (sc_prev_bad st) (Some g) (sc_last_good st) (Some s)))
      end
  end.

(** [hi / 1000], at least one. *)
Definition tol (hi : Z) : Z := Z.max (hi / EDGE_TOL) 1.

(** An edge bisection; [up] keeps the lower end viable, otherwise the upper. *)
Fixpoint edge (fuel : nat) (up : bool) (lo hi : Z) : RRes (Z * Z) :=
  let? w := math (checked_sub hi lo) in
  if tol hi <? w then
    match fuel with
    | O => Err RMath
    | S fuel =>
        let? m := math (checked_add 256 lo (Z.shiftr w 1)) in
        let? r := viable m in
        if Bool.eqb (is_viable r) up then edge fuel up m hi else edge fuel up lo m
    end
  else Ok (lo, hi).

Definition compute_band (block : Z) : RRes (option ViabilityBand) :=
  if RAY <=? pt_bonus t then Err BadLeg else
  let? c := cost_in_out gas (pt_fixed_gas t) in
  let? sc := scan 256 (Z.max c 1) (mkScan 0 None 0 None) in
  match sc with
  | None => Ok None
  | Some sc =>
      match sc_first_good sc with
      | None => Ok None
      | Some first_good =>
          let? (_, min_size) := edge 256 false (sc_prev_bad sc) first_good in
          let? max_size :=
            match sc_upper_bad sc with
            | None => Ok (sc_last_good sc)
            | Some bad => let? (lo, _) := edge 256 true (sc_last_good sc) bad in Ok lo
            end in
          Ok (Some (mkVBand min_size max_size (gt_base_fee_wei gas) block))
      end
  end.

(** * The scan *)

Definition good (s : Z) : Prop := viable s = Ok (Some true).
Definition bad (s : Z) : Prop := exists r, viable s = Ok r /\ is_viable r = false.

(** What the scan knows before it probes [s]. *)
Record scan_ok (s : Z) (st : Scan) : Prop := {
  so_prev : 0 <= sc_prev_bad st /\ (sc_prev_bad st = 0 \/ bad (sc_prev_bad st));
  so_good : match sc_first_good st with
            | None => sc_prev_bad st < s
            | Some g => good g /\ good (sc_last_good st) /\ sc_prev_bad st < g <= sc_last_good st /\
                        sc_last_good st <= umax 256
            end;
  so_last : is_Some (sc_first_good st) -> 2 * sc_last_good st = s;
  so_upper : sc_upper_bad st = None }.

(** What it knows at the end. *)
Definition scan_done (st : Scan) : Prop :=
  0 <= sc_prev_bad st /\ (sc_prev_bad st = 0 \/ bad (sc_prev_bad st)) /\
  forall g, sc_first_good st = Some g ->
    good g /\ good (sc_last_good st) /\ sc_prev_bad st < g <= sc_last_good st /\
    sc_last_good st <= umax 256 /\
    match sc_upper_bad st with
    | Some u => bad u /\ sc_last_good st < u <= umax 256
    | None => umax 256 < 2 * sc_last_good st
    end.

Lemma scan_ok_done s st : umax 256 < s -> scan_ok s st -> scan_done st.
Proof.
  intros Hs [Hp Hg Hl Hu]. unfold scan_done. split; [lia|]. split; [apply Hp|]. intros g Eg.
  rewrite Eg in Hg, Hl. destruct Hg as (? & ? & ? & ?). rewrite Hu. specialize (Hl (mk_is_Some _ _ eq_refl)).
  split_and!; (done || lia).
Qed.

Lemma scan_spec turns : forall s st r,
  0 < s <= umax 256 -> umax 256 < s * 2 ^ Z.of_nat turns -> scan_ok s st ->
  scan turns s st = Ok (Some r) -> scan_done r.
Proof.
  induction turns as [|turns IH]; intros s st r Hs Hend Hok H; cbn [scan] in H.
  { rewrite Z.mul_1_r in Hend. lia. }
  rewrite Nat2Z.inj_succ, Z.pow_succ_r in Hend by lia.
  assert (forall st', scan_ok (2 * s) st' ->
    match checked_mul 256 s 2 with None => Ok (Some st') | Some next => scan turns next st' end = Ok (Some r) ->
    scan_done r) as Hgo.
  { intros st' Hst' Hr. destruct (checked_mul 256 s 2) as [nx|] eqn:En.
    - apply checked_mul_Some in En as [-> Hm]. rewrite Z.mul_comm in Hr. apply IH in Hr; [done|lia..|done].
    - injection Hr as <-. eapply scan_ok_done; [|exact Hst']. unfold checked_mul in En.
      destruct (Z.leb_spec (s * 2) (umax 256)); [done|lia]. }
  apply bind_Ok in H as (v & Hv & H). pose proof Hok as [Hp Hg Hl Hu].
  destruct (sc_first_good st) as [g|] eqn:Eg.
  - destruct Hg as (Hg1 & Hg2 & Hg3 & Hg4). specialize (Hl (mk_is_Some _ _ eq_refl)).
    assert (is_viable v = false -> scan_done (mkScan (sc_prev_bad st) (Some g) (sc_last_good st) (Some s))) as Hbad.
    { intros Hb. unfold scan_done. cbn. split; [lia|]. split; [apply Hp|]. intros g' [= <-].
      split_and!; try (done || lia). by exists v. }
    destruct v as [[|]|].
    + eapply Hgo; [|exact H]. constructor; cbn; [done| |lia|done]. split_and!; (done || lia).
    + injection H as <-. by apply Hbad.
    + injection H as <-. by apply Hbad.
  - destruct v as [[|]|]; [| |done].
    + eapply Hgo; [|exact H]. constructor; cbn; [done| |lia|done]. split_and!; (done || lia).
    + eapply Hgo; [|exact H]. constructor; cbn; [|lia| |done].
      * split; [lia|]. right. by exists (Some false).
      * by intros [? ?].
Qed.

(** * The edges *)

(** A probe whose answer is [b]. *)
Definition probed (b : bool) (s : Z) : Prop := exists r, viable s = Ok r /\ is_viable r = b.

Lemma probed_good s : probed true s -> good s.
Proof. intros (r & Hr & Hv). unfold good. by destruct r as [[|]|]. Qed.

Lemma edge_spec fuel up : forall lo hi lo' hi',
  0 <= lo < hi -> hi <= umax 256 -> hi - lo <= 2 ^ Z.of_nat fuel -> edge fuel up lo hi = Ok (lo', hi') ->
  lo <= lo' < hi' /\ hi' <= hi /\ hi' - lo' <= tol hi' /\
  (lo' = lo \/ probed up lo') /\ (hi' = hi \/ probed (negb up) hi').
Proof.
  induction fuel as [|fuel IH]; intros lo hi lo' hi' Hlo Hhi Hw H; cbn [edge] in H.
  all: apply bind_Ok in H as (w & [-> _]%ok_or_Ok%checked_sub_Some & H);
    destruct (Z.ltb_spec (tol hi) (hi - lo)) as [Hgt|];
    [|injection H as <- <-; split_and!; (lia || by left)].
  { done. }
  rewrite Z.shiftr_div_pow2, Z.pow_1_r in H by lia.
  pose proof (div_rem_spec (hi - lo) 2 ltac:(lia)).
  assert (1 < hi - lo) by (unfold tol in Hgt; lia).
  assert (hi - lo <= 2 * 2 ^ Z.of_nat fuel) by (rewrite <- Z.pow_succ_r, <- Nat2Z.inj_succ by lia; done).
  apply bind_Ok in H as (m & [-> _]%ok_or_Ok%checked_add_Some & H).
  apply bind_Ok in H as (v & Hv & H). destruct (is_viable v) eqn:Ev, up; cbn [Bool.eqb] in H.
  all: apply IH in H as (? & ? & ? & Ha & Hb); [|lia..]; split_and!; try lia; try done.
  all: try (destruct Ha as [->|Ha]; [|by right]; right; by exists v).
  all: try (destruct Hb as [->|Hb]; [|by right]; right; by exists v).
Qed.

Lemma cost_in_out_max g c : cost_in_out gas g = Ok c -> c <= umax 256.
Proof.
  unfold cost_in_out, mul_div_512. intros H. apply bind_Ok in H as (? & _ & H). apply bind_Ok in H as (? & _ & H).
  destruct (_ =? 0); [done|]. apply bind_Ok in H as (? & _ & H). apply bind_Ok in H as (? & _ & H).
  by apply ok_or_Ok, try_from_Some in H as [-> [_ ?]].
Qed.

(** The solver refuses no size for a reason other than depth or overflow. *)
Definition answers : Prop := forall s, 0 < s <= umax 256 -> exists r, viable s = Ok r.

Lemma scan_total turns : answers -> forall s st, 0 < s <= umax 256 -> exists r, scan turns s st = Ok r.
Proof.
  intros Ha. induction turns as [|turns IH]; intros s st Hs; cbn [scan]; [eauto|].
  destruct (Ha s Hs) as [v ->].
  assert (forall st', exists r, match checked_mul 256 s 2 with
    | None => Ok (Some st') | Some next => scan turns next st' end = Ok r) as Hgo.
  { intros st'. destruct (checked_mul 256 s 2) as [nx|] eqn:En; [|eauto].
    apply checked_mul_Some in En as [-> Hm]. apply IH. lia. }
  destruct v as [[|]|], (sc_first_good st); eauto.
Qed.

(** As many halvings as bits. *)
Lemma edge_total fuel up : answers -> forall lo hi,
  0 <= lo < hi -> hi <= umax 256 -> hi - lo <= 2 ^ Z.of_nat fuel -> exists r, edge fuel up lo hi = Ok r.
Proof.
  intros Ha. induction fuel as [|fuel IH]; intros lo hi Hlo Hhi Hw; cbn [edge];
    rewrite checked_sub_ok by lia; cbn [math ok_or];
    (destruct (Z.ltb_spec (tol hi) (hi - lo)) as [Hgt|]; [|eauto]).
  { unfold tol in Hgt. change (2 ^ Z.of_nat 0) with 1 in Hw. lia. }
  rewrite Z.shiftr_div_pow2, Z.pow_1_r by lia. pose proof (div_rem_spec (hi - lo) 2 ltac:(lia)).
  assert (1 < hi - lo) by (unfold tol in Hgt; lia).
  assert (hi - lo <= 2 * 2 ^ Z.of_nat fuel) by (rewrite <- Z.pow_succ_r, <- Nat2Z.inj_succ by lia; done).
  rewrite checked_add_ok by lia. cbn [math ok_or]. destruct (Ha (lo + (hi - lo) / 2)) as [v ->]; [lia|].
  destruct (Bool.eqb (is_viable v) up); apply IH; lia.
Qed.

Lemma compute_band_returns block c :
  answers -> pt_bonus t < RAY -> cost_in_out gas (pt_fixed_gas t) = Ok c -> exists r, compute_band block = Ok r.
Proof.
  intros Ha Hb Hc. unfold compute_band. rewrite (proj2 (Z.leb_gt _ _)) by done. rewrite Hc.
  apply cost_in_out_max in Hc. assert (1 <= umax 256) by (unfold umax; lia).
  destruct (scan_total 256 Ha (Z.max c 1) (mkScan 0 None 0 None)) as [sc Hsc]; [lia|]. rewrite Hsc.
  destruct sc as [sc|]; [|eauto].
  apply scan_spec in Hsc as (Hp0 & Hp & Hg); [|lia|unfold umax; lia|].
  2: { constructor; cbn; [split; [lia|by left]|lia|by intros [? ?]|done]. }
  destruct (sc_first_good sc) as [g|] eqn:Eg; [|eauto].
  destruct (Hg g eq_refl) as (Hgg & Hgl & Hgr & Hgm & Hu).
  destruct (edge_total 256 false Ha (sc_prev_bad sc) g) as [[lo1 mn] ->]; [lia|lia|unfold umax in *; lia|].
  destruct (sc_upper_bad sc) as [u|]; [|eauto]. destruct Hu as [Hub Hur].
  destruct (edge_total 256 true Ha (sc_last_good sc) u) as [[lo2 hi2] ->]; [lia|lia|unfold umax in *; lia|eauto].
Qed.

(** A published band is viable at both of its edges and tight: the position sizes
    [min_size] and [max_size] both net at least zero, and within one part in a thousand (or one
    unit) below [min_size] there is a size that does not (or zero), as there is above
    [max_size] unless twice [max_size] is past the word. The scan and the bisections end: where
    the solver answers, with a bonus under one hundred per cent, a result comes back. *)
Theorem band_edges_viable (block : Z) :
  (forall c, answers -> pt_bonus t < RAY -> cost_in_out gas (pt_fixed_gas t) = Ok c ->
     exists r, compute_band block = Ok r) /\
  forall b, compute_band block = Ok (Some b) ->
  good (vb_min_size b) /\ good (vb_max_size b) /\ 0 < vb_min_size b <= vb_max_size b /\
  vb_max_size b <= umax 256 /\ vb_base_fee b = gt_base_fee_wei gas /\
  (exists lo, 0 <= lo < vb_min_size b /\ vb_min_size b - lo <= tol (vb_min_size b) /\ (lo = 0 \/ bad lo)) /\
  (umax 256 < 2 * vb_max_size b \/
   exists hi, vb_max_size b < hi /\ hi - vb_max_size b <= tol hi /\ bad hi).
Proof.
  split; [intros c; apply compute_band_returns|]. intros b.
  unfold compute_band. intros H. destruct (_ <=? _); [done|]. apply bind_Ok in H as (c & Hc & H).
  apply cost_in_out_max in Hc. apply bind_Ok in H as (sc & Hsc & H). destruct sc as [sc|]; [|done].
  assert (1 <= umax 256) by (unfold umax; lia).
  apply scan_spec in Hsc as (Hp0 & Hp & Hg); [|lia|unfold umax; lia|].
  2: { constructor; cbn; [split; [lia|by left]|lia|by intros [? ?]|done]. }
  destruct (sc_first_good sc) as [g|] eqn:Eg; [|done].
  destruct (Hg g eq_refl) as (Hgg & Hgl & Hgr & Hgm & Hu).
  apply bind_Ok in H as ([lo1 mn] & He & H).
  apply edge_spec in He as (E1 & E2 & E3 & E4 & E5); [|lia..|unfold umax in *; lia].
  apply bind_Ok in H as (mx & Hmx & [= <-]). cbn [vb_min_size vb_max_size vb_base_fee].
  assert (good mn) as Hmn by (destruct E5 as [->|E5]; [done|by apply probed_good]).
  assert (exists lo, 0 <= lo < mn /\ mn - lo <= tol mn /\ (lo = 0 \/ bad lo)) as Hlow.
  { exists lo1. split; [lia|]. split; [done|]. destruct E4 as [->|E4]; [done|by right]. }
  destruct (sc_upper_bad sc) as [u|] eqn:Eu.
  - destruct Hu as [Hub Hur]. apply bind_Ok in Hmx as ([lo2 hi2] & He2 & [= <-]).
    apply edge_spec in He2 as (F1 & F2 & F3 & F4 & F5); [|lia..|unfold umax in *; lia].
    assert (good lo2) by (destruct F4 as [->|F4]; [done|by apply probed_good]).
    split_and!; try (done || lia). right. exists hi2. split; [lia|]. split; [done|].
    destruct F5 as [->|F5]; done.
  - injection Hmx as <-. split_and!; (done || lia || by left).
Qed.
End Band.

(** A pool of 100,000,000 units that keeps its product, at no haircut. *)
Definition ex_solve (x : Z) : RRes (Z * Z) := Ok (100000000 * x / (100000000 + x), 100).
Definition ex_terms : PairTerms := RouterBand.mkTerms (RAY / 20) RAY 5 1000.
Definition ex_gas : GasTerms := mkGas 1 1 WEI_PER_ETH.

Lemma band_edges_viable_witness :
  exists b, compute_band ex_solve (fun _ o => o) ex_terms ex_gas 7 = Ok (Some b) /\
  good ex_solve (fun _ o => o) ex_terms ex_gas (vb_min_size b).
Proof.
  destruct (compute_band ex_solve (fun _ o => o) ex_terms ex_gas 7) as [[b|]|] eqn:E;
    [|vm_compute in E; discriminate E..].
  exists b. split; [reflexivity|].
  exact (proj1 (proj2 (band_edges_viable ex_solve (fun _ o => o) ex_terms ex_gas 7) b E)).
Defined.

(** * The table *)

Abbreviation PairKey := (ProtocolId * AssetId * AssetId)%type.

Record BandTable := mkTable { bt_bands : gmap PairKey ViabilityBand; bt_block : Z; bt_base_fee : Z }.

Section Table.
Context (solve_pair : AssetId -> AssetId -> GasTerms -> Z -> RRes (Z * Z)).
Context (pair_terms : PairKey -> option PairTerms) (per_eth : AssetId -> option Z).
Context (haircut : AssetId -> AssetId -> Z -> Z -> Z) (base_fee priority_fee block : Z).

(** The band of one key; [None] where it is skipped, has none, or its solve is refused. *)
Definition key_band (k : PairKey) : option ViabilityBand :=
  let '(protocol, coll, debt) := k in
  match pair_terms k, per_eth debt with
  | Some terms, Some per_eth =>
      let gas := mkGas base_fee priority_fee per_eth in
      match compute_band (solve_pair coll debt gas) (haircut coll debt) terms gas block with
      | Ok (Some b) => Some b
      | _ => None
      end
  | _, _ => None
  end.

Definition put_band (m : gmap PairKey ViabilityBand) (k : PairKey) : gmap PairKey ViabilityBand :=
  match key_band k with Some b => <[k := b]> m | None => m end.

Definition build_table (keys : list PairKey) : BandTable :=
  mkTable (fold_left put_band keys ∅) block base_fee.

Definition table_get (t : BandTable) (k : PairKey) : option ViabilityBand := bt_bands t !! k.

(** The table is exactly the bands of its keys: a key has an entry when it was asked for,
    its terms and price are there and its band computes, and the entry is that band. *)
Theorem table_is_exact (keys : list PairKey) (k : PairKey) :
  table_get (build_table keys) k = if bool_decide (k ∈ keys) then key_band k else None.
Proof.
  unfold table_get, build_table. cbn [bt_bands].
  cut (forall m, fold_left put_band keys m !! k =
    if bool_decide (k ∈ keys) then match key_band k with Some b => Some b | None => m !! k end else m !! k).
  { intros Hm. rewrite Hm, lookup_empty. case_bool_decide; [|done]. by destruct (key_band k). }
  induction keys as [|j keys IH]; intros m; cbn [fold_left]; [done|]. rewrite IH.
  destruct (decide (j = k)) as [->|Hne].
  - rewrite (bool_decide_eq_true_2 (k ∈ k :: keys)) by constructor.
    unfold put_band. destruct (key_band k) as [b|]; [|by case_bool_decide].
    rewrite lookup_insert_eq. by case_bool_decide.
  - assert (put_band m j !! k = m !! k) as ->
      by (unfold put_band; destruct (key_band j); [by rewrite lookup_insert_ne|done]).
    case_bool_decide as Hin; case_bool_decide as Hin'; try done.
    + exfalso. apply Hin'. by right.
    + exfalso. apply elem_of_cons in Hin' as [->|?]; done.
Qed.
End Table.
