(* ===== verification/PoolMath.v ===== *)
(** Pool arithmetic of the router ([crates/liq-router/src/solver.rs]): Uniswap V2 pairs and
    Curve StableSwap, plain and NG, as the contracts compute them.

    A [U256] is a [Z]; a loop bounded by 255 turns is a fixpoint on its turns. *)

From S2P Require Import Prelude Fixed Types RouterFees.
Local Open Scope Z_scope.

Definition zero_for_one (i j : Z) : RRes bool :=
  if (i =? 0) && (j =? 1) then Ok true else
  if (i =? 1) && (j =? 0) then Ok false else Err BadLeg.

(** * Uniswap V2 *)

Record V2State := mkV2 { v2_reserve0 : Z; v2_reserve1 : Z; v2_factory : Z }.

Definition v2_swap (s : V2State) (zfo : bool) (amount_in : Z) : RRes (Z * V2State) :=
  let '(rin, rout) := if zfo then (v2_reserve0 s, v2_reserve1 s) else (v2_reserve1 s, v2_reserve0 s) in
  if (rin =? 0) || (rout =? 0) then Err InsufficientLiquidity else
  let? in_fee := math (checked_mul 256 amount_in 997) in
  let? num := math (checked_mul 256 in_fee rout) in
  let? den := math (let! v := checked_mul 256 rin 1000 in checked_add 256 v in_fee) in
  let? out := math (checked_div num den) in
  if rout <=? out then Err InsufficientLiquidity else
  let? new_in := math (checked_add 256 rin amount_in) in
  let? new_out := math (checked_sub rout out) in
  Ok (out, if zfo then mkV2 new_in new_out (v2_factory s) else mkV2 new_out new_in (v2_factory s)).

(** * Curve StableSwap *)

Definition CURVE_FEE_DENOM : Z := 10000000000.
Definition MAX_COINS : nat := 4.

Record CurveState := mkCurve {
  cv_balances : list Z; cv_rates : list Z; cv_a : Z; cv_a_precision : Z; cv_fee : Z;
  cv_stale : bool; cv_stale_block : Z; cv_ng : bool; cv_d_once : bool;
  cv_offpeg_fee_multiplier : Z; cv_dynamic_rates : bool; cv_read_block : Z; cv_handler : Z }.

Definition reseed (s : CurveState) (balances : list Z) (a fee : Z) : CurveState * RRes unit :=
  if negb (length balances =? length (cv_rates s))%nat then (s, Err BadLeg) else
  (mkCurve balances (cv_rates s) a (cv_a_precision s) fee false (cv_stale_block s) (cv_ng s)
     (cv_d_once s) (cv_offpeg_fee_multiplier s) (cv_dynamic_rates s) (cv_read_block s) (cv_handler s), Ok tt).

Definition reseed_at (s : CurveState) (balances : list Z) (a fee block : Z) : CurveState * RRes bool :=
  if cv_stale s && (block <? cv_stale_block s) then (s, Ok false) else
  match reseed s balances a fee with
  | (s, Err e) => (s, Err e)
  | (s, Ok _) =>
      (mkCurve (cv_balances s) (cv_rates s) (cv_a s) (cv_a_precision s) (cv_fee s) (cv_stale s)
         (cv_stale_block s) (cv_ng s) (cv_d_once s) (cv_offpeg_fee_multiplier s)
         (cv_dynamic_rates s) block (cv_handler s), Ok true)
  end.

Definition set_ng_params (s : CurveState) (rates : list Z) (offpeg : Z) : CurveState * RRes unit :=
  if negb (cv_ng s) || negb (length rates =? length (cv_rates s))%nat || existsb (Z.eqb 0) rates
  then (s, Err BadLeg) else
  (mkCurve (cv_balances s) rates (cv_a s) (cv_a_precision s) (cv_fee s) (cv_stale s)
     (cv_stale_block s) (cv_ng s) (cv_d_once s) offpeg (cv_dynamic_rates s) (cv_read_block s)
     (cv_handler s), Ok tt).

Definition ng_dynamic_fee (xpi xpj fee m : Z) : RRes Z :=
  if m <=? CURVE_FEE_DENOM then Ok fee else
  let? sum := math (checked_add 256 xpi xpj) in
  let? xps2 := math (checked_mul 256 sum sum) in
  if xps2 =? 0 then Err InsufficientLiquidity else
  let? n := math (let! v := checked_sub m CURVE_FEE_DENOM in
                  let! v := checked_mul 256 v 4 in
                  let! v := checked_mul 256 v xpi in checked_mul 256 v xpj) in
  let? skew := math (checked_div n xps2) in
  let? den := math (checked_add 256 skew CURVE_FEE_DENOM) in
  math (let! v := checked_mul 256 m fee in checked_div v den).

Definition swap_fee (s : CurveState) (xpi xpj : Z) : RRes Z :=
  if negb (cv_ng s) then Ok (cv_fee s)
  else ng_dynamic_fee xpi xpj (cv_fee s) (cv_offpeg_fee_multiplier s).

Definition n_coins (s : CurveState) : RRes Z :=
  let n := length (cv_balances s) in
  if negb ((2 <=? n)%nat && (n <=? MAX_COINS)%nat) || negb (length (cv_rates s) =? n)%nat
  then Err BadLeg else Ok (Z.of_nat n).

Fixpoint xp_loop (bs rs : list Z) : RRes (list Z) :=
  match bs, rs with
  | b :: bs, r :: rs =>
      let? x := math (let! v := checked_mul 256 b r in checked_div v WAD) in
      let? rest := xp_loop bs rs in
      Ok (x :: rest)
  | _, _ => Ok []
  end.
Definition curve_xp (s : CurveState) : RRes (list Z) := xp_loop (cv_balances s) (cv_rates s).

Definition curve_ann (s : CurveState) (n : Z) : RRes Z := math (checked_mul 256 (cv_a s) n).

Fixpoint sum_loop (acc : Z) (xs : list Z) : RRes Z :=
  match xs with
  | [] => Ok acc
  | x :: xs => let? acc := math (checked_add 256 acc x) in sum_loop acc xs
  end.

(** [D_P]: the product over the coins. *)
Fixpoint dp_loop (once : bool) (n d d_p : Z) (xs : list Z) : RRes Z :=
  match xs with
  | [] => Ok d_p
  | x :: xs =>
      let? den := if once then Ok x else math (checked_mul 256 x n) in
      if den =? 0 then Err InsufficientLiquidity else
      let? d_p := math (let! v := checked_mul 256 d_p d in checked_div v den) in
      dp_loop once n d d_p xs
  end.

(** One Newton step on the invariant. There are at most four coins, so [n ^ n] and [n + 1]
    always fit. *)
Definition d_step (s : CurveState) (n ann sum d : Z) (xp : list Z) : RRes Z :=
  let ap := cv_a_precision s in
  let? d_p := dp_loop (cv_d_once s) n d d xp in
  let? d_p := (if cv_d_once s then math (checked_div d_p (n ^ n)) else Ok d_p) in
  let? t1 := math (let! v := checked_mul 256 ann sum in
                   let! v := checked_div v ap in
                   let! w := checked_mul 256 d_p n in
                   let! v := checked_add 256 v w in checked_mul 256 v d) in
  let? t2 := math (let! v := checked_sub ann ap in
                   let! v := checked_mul 256 v d in
                   let! v := checked_div v ap in
                   let! w := checked_mul 256 (n + 1) d_p in checked_add 256 v w) in
  math (checked_div t1 t2).

(** A Newton loop that stops at a step of at most one. *)
Fixpoint newton (turns : nat) (step : Z -> RRes Z) (x : Z) : RRes Z :=
  match turns with
  | O => Err RMath
  | S turns =>
      let? y := step x in
      if Z.abs (y - x) <=? 1 then Ok y else newton turns step y
  end.

Definition curve_get_d (s : CurveState) (xp : list Z) : RRes Z :=
  let? n := n_coins s in
  let? sum := sum_loop 0 xp in
  if sum =? 0 then Ok 0 else
  let? ann := curve_ann s n in
  newton 255 (fun d => d_step s n ann sum d xp) sum.

(** The sum of the other coins and the product [c], over [xp] with coin [skip] left out and
    coin [at_] replaced by [x]. *)
Fixpoint c_loop (n d : Z) (skip : nat) (repl : option (nat * Z)) (k : nat) (s_ c : Z) (xs : list Z)
    : RRes (Z * Z) :=
  match xs with
  | [] => Ok (s_, c)
  | xk :: xs =>
      let other := match repl with Some (i, x) => if (k =? i)%nat then Some x else None | None => None end in
      let step xk :=
        let? s_ := math (checked_add 256 s_ xk) in
        let? den := math (checked_mul 256 xk n) in
        if den =? 0 then Err InsufficientLiquidity else
        let? c := math (let! v := checked_mul 256 c d in checked_div v den) in
        c_loop n d skip repl (S k) s_ c xs in
      match other with
      | Some x => step x
      | None => if (k =? skip)%nat then c_loop n d skip repl (S k) s_ c xs else step xk
      end
  end.

(** [y = (y^2 + c) / (2y + b - D)]. *)
Definition y_step (b c d y : Z) : RRes Z :=
  let? num := math (let! v := checked_mul 256 y y in checked_add 256 v c) in
  let? den := math (let! v := checked_mul 256 y 2 in
                    let! v := checked_add 256 v b in checked_sub v d) in
  math (checked_div num den).

(** The coefficients of the quadratic for the coin left out. *)
Definition y_coeffs (s : CurveState) (n ann d : Z) (skip : nat) (repl : option (nat * Z)) (xp : list Z)
    : RRes (Z * Z) :=
  let ap := cv_a_precision s in
  let? (s_, c) := c_loop n d skip repl 0 0 d xp in
  let? ann_n := math (checked_mul 256 ann n) in
  let? c := math (let! v := checked_mul 256 c d in
                  let! v := checked_mul 256 v ap in checked_div v ann_n) in
  let? b := math (let! v := checked_mul 256 d ap in
                  let! v := checked_div v ann in checked_add 256 v s_) in
  Ok (b, c).

Definition curve_get_y (s : CurveState) (i j : nat) (x : Z) (xp : list Z) : RRes Z :=
  let? n := n_coins s in
  let? d := curve_get_d s xp in
  let? ann := curve_ann s n in
  let? (b, c) := y_coeffs s n ann d j (Some (i, x)) xp in
  newton 255 (y_step b c d) d.

Definition curve_get_y_d (s : CurveState) (i : nat) (xp : list Z) (d : Z) : RRes Z :=
  let? n := n_coins s in
  let? ann := curve_ann s n in
  let? (b, c) := y_coeffs s n ann d i None xp in
  newton 255 (y_step b c d) d.

(** [v * 1e18 / rate]. *)
Definition to_raw (v rate : Z) : RRes Z := math (let! v := checked_mul 256 v WAD in checked_div v rate).
Definition half (a b : Z) : RRes Z := math (let! v := checked_add 256 a b in checked_div v 2).

Definition curve_dy (s : CurveState) (i j : nat) (dx : Z) : RRes (Z * Z * Z) :=
  if cv_stale s then Err StalePool else
  let? xp := curve_xp s in
  let? xi := ok_or (xp !! i) BadLeg in
  let? xj := ok_or (xp !! j) BadLeg in
  let? ri := ok_or (cv_rates s !! i) BadLeg in
  let? rj := ok_or (cv_rates s !! j) BadLeg in
  let? x := math (let! v := checked_mul 256 dx ri in
                  let! v := checked_div v WAD in checked_add 256 v xi) in
  let? y := curve_get_y s i j x xp in
  let? dy_xp := ok_or (let! v := checked_sub xj y in checked_sub v 1) InsufficientLiquidity in
  let? hi := half xi x in
  let? hj := half xj y in
  let? fee := swap_fee s hi hj in
  let? fee_xp := math (let! v := checked_mul 256 dy_xp fee in checked_div v CURVE_FEE_DENOM) in
  let? net := math (checked_sub dy_xp fee_xp) in
  let? out := to_raw net rj in
  let? dy_raw := to_raw dy_xp rj in
  Ok (out, dy_raw, y).

Definition curve_exchange (s : CurveState) (i j : nat) (dx : Z) : RRes (Z * Z * Z) :=
  if (i =? j)%nat then Err BadLeg else
  let? (out, dy, _) := curve_dy s i j dx in
  let? b := ok_or (cv_balances s !! i) BadLeg in
  let? bi := math (checked_add 256 b dx) in
  let? b := ok_or (cv_balances s !! j) BadLeg in
  let? bj := ok_or (checked_sub b dy) InsufficientLiquidity in
  Ok (out, bi, bj).

(** The imbalance fee of each coin in [ng_withdraw_one_coin]. *)
Fixpoint reduce_loop (i j : nat) (d0 d1 new_y ys base_fee offpeg : Z) (xp : list Z) : RRes (list Z) :=
  match xp with
  | [] => Ok []
  | xp_j :: xp =>
      let? scaled := math (let! v := checked_mul 256 xp_j d1 in checked_div v d0) in
      let? (dx_expected, xavg) :=
        if (j =? i)%nat then
          let? dxe := math (checked_sub scaled new_y) in
          let? xa := half xp_j new_y in Ok (dxe, xa)
        else let? dxe := math (checked_sub xp_j scaled) in Ok (dxe, xp_j) in
      let? fee := ng_dynamic_fee xavg ys base_fee offpeg in
      let? cut := math (let! v := checked_mul 256 fee dx_expected in checked_div v CURVE_FEE_DENOM) in
      let? red := math (checked_sub xp_j cut) in
      let? rest := reduce_loop i (S j) d0 d1 new_y ys base_fee offpeg xp in
      Ok (red :: rest)
  end.

Definition ng_withdraw_one_coin (s : CurveState) (i : nat) (burn total_supply : Z) : RRes Z :=
  if cv_stale s then Err StalePool else
  if negb (cv_ng s) then Err BadLeg else
  let? n := n_coins s in
  if (length (cv_balances s) <=? i)%nat then Err BadLeg else
  if (burn =? 0) || (total_supply =? 0) then Err InsufficientLiquidity else
  let? xp := curve_xp s in
  let? d0 := curve_get_d s xp in
  if d0 =? 0 then Err InsufficientLiquidity else
  let? d1 := math (let! v := checked_mul 256 burn d0 in
                   let! v := checked_div v total_supply in checked_sub d0 v) in
  let? new_y := curve_get_y_d s i xp d1 in
  let? base_fee := math (let! v := checked_mul 256 (cv_fee s) n in
                         let! m := checked_sub n 1 in
                         let! m := checked_mul 256 4 m in checked_div v m) in
  let? ys := math (let! v := checked_add 256 d0 d1 in
                   let! m := checked_mul 256 2 n in checked_div v m) in
  let? reduced := reduce_loop i 0 d0 d1 new_y ys base_fee (cv_offpeg_fee_multiplier s) xp in
  let? y := curve_get_y_d s i reduced d1 in
  let? x := ok_or (reduced !! i) BadLeg in
  let? dy := ok_or (let! v := checked_sub x y in checked_sub v 1) InsufficientLiquidity in
  let? rate := ok_or (cv_rates s !! i) BadLeg in
  to_raw dy rate.

(** * Pairs *)

(** The pair's own check, [K], in thousandths with the 0.3% fee: what an output must keep. *)
Definition k_holds (rin rout amount out : Z) : Prop :=
  rin * 1000 * rout <= (rin * 1000 + amount * 997) * (rout - out).

Lemma v2_swap_Ok s zfo a out s' :
  0 <= v2_reserve0 s -> 0 <= v2_reserve1 s -> 0 <= a -> v2_swap s zfo a = Ok (out, s') ->
  let rin := if zfo then v2_reserve0 s else v2_reserve1 s in
  let rout := if zfo then v2_reserve1 s else v2_reserve0 s in
  0 < rin /\ 0 < rout /\ out = a * 997 * rout / (rin * 1000 + a * 997) /\ 0 <= out < rout /\
  s' = if zfo then mkV2 (rin + a) (rout - out) (v2_factory s) else mkV2 (rout - out) (rin + a) (v2_factory s).
Proof.
  intros H0 H1 Ha H rin rout. unfold v2_swap in H.
  assert ((if zfo then (v2_reserve0 s, v2_reserve1 s) else (v2_reserve1 s, v2_reserve0 s)) = (rin, rout)) as E
    by by destruct zfo. rewrite E in H.
  assert (0 <= rin /\ 0 <= rout) as [Hi Ho] by by destruct zfo.
  destruct (Z.eqb_spec rin 0); [done|]. destruct (Z.eqb_spec rout 0); [done|]. cbn [orb] in H.
  apply bind_Ok in H as (f & [-> _]%ok_or_Ok%checked_mul_Some & H).
  apply bind_Ok in H as (num & [-> _]%ok_or_Ok%checked_mul_Some & H).
  apply bind_Ok in H as (den & Hd & H). apply ok_or_Ok in Hd.
  destruct (checked_mul 256 rin 1000) as [v|] eqn:Ev; [|done].
  apply checked_mul_Some in Ev as [-> _]. apply checked_add_Some in Hd as [-> _].
  apply bind_Ok in H as (o & [_ ->]%ok_or_Ok%checked_div_Some & H).
  destruct (Z.leb_spec rout (a * 997 * rout / (rin * 1000 + a * 997))); [done|].
  apply bind_Ok in H as (ni & [-> _]%ok_or_Ok%checked_add_Some & H).
  apply bind_Ok in H as (no & [-> _]%ok_or_Ok%checked_sub_Some & [= <- <-]).
  split; [lia|]. split; [lia|]. split; [done|]. split; [split; [apply Z.div_pos; nia|done]|done].
Qed.

(** A pair's quote is the largest output its own check admits: after the swap the fee-adjusted
    product is at least what it was, one more unit out would break it, and the reserves'
    plain product does not fall. *)
Theorem v2_output_is_maximal s zfo a out s' :
  0 <= v2_reserve0 s -> 0 <= v2_reserve1 s -> 0 <= a -> v2_swap s zfo a = Ok (out, s') ->
  let rin := if zfo then v2_reserve0 s else v2_reserve1 s in
  let rout := if zfo then v2_reserve1 s else v2_reserve0 s in
  k_holds rin rout a out /\ ~ k_holds rin rout a (out + 1) /\ 0 <= out < rout /\
  v2_reserve0 s * v2_reserve1 s <= v2_reserve0 s' * v2_reserve1 s'.
Proof.
  intros H0 H1 Ha H. pose proof (v2_swap_Ok s zfo a out s' H0 H1 Ha H) as HO. cbv zeta in *.
  set (rin := if zfo then v2_reserve0 s else v2_reserve1 s) in *.
  set (rout := if zfo then v2_reserve1 s else v2_reserve0 s) in *.
  destruct HO as (Hi & Ho & Eout & Hb & Es). unfold k_holds.
  pose proof (div_rem_spec (a * 997 * rout) (rin * 1000 + a * 997) ltac:(lia)) as [Hq Hm].
  rewrite <- Eout in Hq. split; [nia|]. split; [nia|]. split; [done|].
  assert (rin * rout <= (rin + a) * (rout - out)) by nia.
  rewrite Es. destruct zfo; cbn [v2_reserve0 v2_reserve1]; subst rin rout; lia.
Qed.

Definition ex_pair : V2State := mkV2 1000000 2000000 0.
Lemma v2_output_is_maximal_witness :
  v2_swap ex_pair true 1000 = Ok (1992, mkV2 1001000 1998008 0) /\
  k_holds 1000000 2000000 1000 1992 /\ ~ k_holds 1000000 2000000 1000 (1992 + 1).
Proof.
  split; [vm_compute; reflexivity|].
  destruct (v2_output_is_maximal ex_pair true 1000 1992 (mkV2 1001000 1998008 0)) as (H1 & H2 & _);
    [vm_compute; discriminate..|vm_compute; reflexivity|]. split; assumption.
Defined.

(** The output as the largest integer under the check. *)
Lemma v2_output_max rin rout a out x :
  0 < rin -> 0 < rout -> 0 <= a -> out = a * 997 * rout / (rin * 1000 + a * 997) ->
  k_holds rin rout a x -> x <= out.
Proof.
  unfold k_holds. intros Hi Ho Ha -> Hk. apply Z.div_le_lower_bound; [lia|]. nia.
Qed.

(** Splitting a swap never pays: selling [a] and then [b] through the same pair, the second
    against the state the first left, gives no more than selling [a + b] at once. *)
Theorem v2_split_never_pays s zfo a b o1 s1 o2 s2 o s3 :
  0 <= v2_reserve0 s -> 0 <= v2_reserve1 s -> 0 <= a -> 0 <= b ->
  v2_swap s zfo a = Ok (o1, s1) -> v2_swap s1 zfo b = Ok (o2, s2) -> v2_swap s zfo (a + b) = Ok (o, s3) ->
  o1 + o2 <= o.
Proof.
  intros H0 H1 Ha Hb E1 E2 E3.
  pose proof (v2_swap_Ok s zfo a o1 s1 H0 H1 Ha E1) as (Hi & Ho & -> & Hb1 & Es1).
  pose proof (v2_swap_Ok s zfo (a + b) o s3 H0 H1 ltac:(lia) E3) as (_ & _ & Eo & _ & _).
  set (rin := if zfo then v2_reserve0 s else v2_reserve1 s) in *.
  set (rout := if zfo then v2_reserve1 s else v2_reserve0 s) in *.
  set (o1 := a * 997 * rout / (rin * 1000 + a * 997)) in *.
  assert (0 <= v2_reserve0 s1 /\ 0 <= v2_reserve1 s1) as [G0 G1] by (rewrite Es1; destruct zfo; cbn; lia).
  pose proof (v2_swap_Ok s1 zfo b o2 s2 G0 G1 Hb E2) as (Hi2 & Ho2 & Eo2 & Hb2 & _).
  assert ((if zfo then v2_reserve0 s1 else v2_reserve1 s1) = rin + a) as Er1 by (rewrite Es1; by destruct zfo).
  assert ((if zfo then v2_reserve1 s1 else v2_reserve0 s1) = rout - o1) as Er2 by (rewrite Es1; by destruct zfo).
  rewrite Er1, Er2 in Eo2. apply (v2_output_max rin rout (a + b)); [done..|lia|done|]. unfold k_holds.
  pose proof (div_rem_spec (a * 997 * rout) (rin * 1000 + a * 997) ltac:(lia)) as [Hq1 Hm1]. fold o1 in Hq1.
  pose proof (div_rem_spec (b * 997 * (rout - o1)) ((rin + a) * 1000 + b * 997) ltac:(lia)) as [Hq2 Hm2].
  rewrite <- Eo2 in Hq2.
  assert (rin * 1000 * rout <= (rin * 1000 + a * 997) * (rout - o1)) as K1 by nia.
  assert ((rin + a) * 1000 * (rout - o1) <= ((rin + a) * 1000 + b * 997) * (rout - o1 - o2)) as K2 by nia.
  rewrite Z.sub_add_distr. set (left := rout - o1 - o2) in *. set (mid := rout - o1) in *.
  assert (0 <= left) by (unfold left, mid in *; lia).
  apply (Zmult_le_reg_r _ _ (1000 * (rin + a))); [lia|].
  transitivity ((rin * 1000 + a * 997) * (1000 * (rin + a) * mid)); [nia|].
  transitivity ((rin * 1000 + a * 997) * (((rin + a) * 1000 + b * 997) * left)); [nia|].
  assert ((rin * 1000 + a * 997) * ((rin + a) * 1000 + b * 997) <=
    (rin * 1000 + (a + b) * 997) * (1000 * (rin + a))) by nia.
  nia.
Qed.

Lemma v2_split_never_pays_witness :
  v2_swap ex_pair true 1000 = Ok (1992, mkV2 1001000 1998008 0) /\
  v2_swap (mkV2 1001000 1998008 0) true 1000 = Ok (1988, mkV2 1002000 1996020 0) /\
  v2_swap ex_pair true 2000 = Ok (3980, mkV2 1002000 1996020 0) /\ 1992 + 1988 <= 3980.
Proof.
  split; [vm_compute; reflexivity|]. split; [vm_compute; reflexivity|]. split; [vm_compute; reflexivity|].
  apply (v2_split_never_pays ex_pair true 1000 1000 1992 (mkV2 1001000 1998008 0) 1988
    (mkV2 1002000 1996020 0) 3980 (mkV2 1002000 1996020 0)); try (vm_compute; (reflexivity || discriminate)).
Defined.

(** * StableSwap *)

Lemma newton_stops turns step : forall x y,
  newton turns step x = Ok y -> exists x', step x' = Ok y /\ Z.abs (y - x') <= 1.
Proof.
  induction turns as [|turns IH]; intros x y H; cbn [newton] in H; [done|].
  apply bind_Ok in H as (z & Hz & H). destruct (Z.leb_spec (Z.abs (z - x)) 1); [|by eapply IH].
  injection H as <-. eauto.
Qed.

(** On the curve [Y^2 + (b - D) Y = c], from above and within one unit. *)
Definition above_curve (b c d y : Z) : Prop := c < y * y + (b - d) * y.
Definition near_curve (b c d y : Z) : Prop := y * y + (b - d) * y <= c + 1.

Lemma y_newton_exact turns b c d y0 y :
  newton turns (y_step b c d) y0 = Ok y -> above_curve b c d (y + 1) /\ near_curve b c d y.
Proof.
  intros H. apply newton_stops in H as (x & Hx & He). unfold y_step in Hx.
  apply bind_Ok in Hx as (num & Hn & Hx). apply ok_or_Ok in Hn.
  destruct (checked_mul 256 x x) as [v|] eqn:Ev; [|done]. apply checked_mul_Some in Ev as [-> _].
  apply checked_add_Some in Hn as [-> _]. apply bind_Ok in Hx as (den & Hd & Hx). apply ok_or_Ok in Hd.
  destruct (checked_mul 256 x 2) as [w|] eqn:Ew; [|done]. apply checked_mul_Some in Ew as [-> _].
  destruct (checked_add 256 (x * 2) b) as [w|] eqn:Ew; [|done]. apply checked_add_Some in Ew as [-> _].
  apply checked_sub_Some in Hd as [-> Hle]. apply ok_or_Ok, checked_div_Some in Hx as [Hnz Ey].
  assert (0 < x * 2 + b - d) as Hden by lia.
  pose proof (div_rem_spec (x * x + c) _ Hden) as [Hq Hm]. rewrite <- Ey in Hq.
  unfold above_curve, near_curve. split; [nia|].
  assert (x = y - 1 \/ x = y \/ x = y + 1) as Hc by lia. destruct Hc as [Hc | [Hc | Hc]]; rewrite Hc in *; nia.
Qed.

(** The state of a pool read from the chain. *)
Record curve_ok (s : CurveState) : Prop := {
  ck_rates : Forall (Z.le 0) (cv_rates s);
  ck_balances : Forall (Z.le 0) (cv_balances s);
  ck_fee : 0 <= cv_fee s;
  ck_a : 0 <= cv_a s;
  ck_ap : 0 <= cv_a_precision s;
  ck_offpeg : 0 <= cv_offpeg_fee_multiplier s }.

(** The dynamic fee of a StableSwap-NG pool lies between the base fee and its off-peg
    multiple, and is the base fee when the multiplier is off or the two balances are equal. *)
Theorem dynamic_fee_bounds xpi xpj fee m f :
  0 <= xpi -> 0 <= xpj -> 0 <= fee -> ng_dynamic_fee xpi xpj fee m = Ok f ->
  fee <= f /\ f <= Z.max fee (m * fee / CURVE_FEE_DENOM) /\ (m <= CURVE_FEE_DENOM -> f = fee) /\
  (xpi = xpj -> f = fee).
Proof.
  intros Hi Hj Hf H. unfold ng_dynamic_fee in H. destruct (Z.leb_spec m CURVE_FEE_DENOM) as [|Hm].
  { injection H as <-. split_and!; (done || lia). }
  assert (0 < CURVE_FEE_DENOM) as HD by done. set (den0 := CURVE_FEE_DENOM) in *.
  apply bind_Ok in H as (sum & [-> _]%ok_or_Ok%checked_add_Some & H).
  apply bind_Ok in H as (x2 & [-> _]%ok_or_Ok%checked_mul_Some & H).
  destruct (Z.eqb_spec ((xpi + xpj) * (xpi + xpj)) 0) as [|Hnz]; [done|].
  apply bind_Ok in H as (n & Hn & H). apply ok_or_Ok in Hn.
  destruct (checked_sub m den0) as [a|] eqn:Ea; [|done]. apply checked_sub_Some in Ea as [-> _].
  destruct (checked_mul 256 (m - den0) 4) as [a|] eqn:Ea; [|done]. apply checked_mul_Some in Ea as [-> _].
  destruct (checked_mul 256 _ xpi) as [a|] eqn:Ea; [|done]. apply checked_mul_Some in Ea as [-> _].
  apply checked_mul_Some in Hn as [-> _].
  apply bind_Ok in H as (skew & [_ Esk]%ok_or_Ok%checked_div_Some & H).
  apply bind_Ok in H as (den & [-> _]%ok_or_Ok%checked_add_Some & H). apply ok_or_Ok in H.
  destruct (checked_mul 256 m fee) as [a|] eqn:Em; [|done]. apply checked_mul_Some in Em as [-> _].
  apply checked_div_Some in H as [_ ->].
  set (S2 := (xpi + xpj) * (xpi + xpj)) in *. assert (0 < S2) by (unfold S2 in *; nia).
  assert (4 * (xpi * xpj) <= S2) as Hamgm
    by (unfold S2; pose proof (Z.square_nonneg (xpi - xpj)); lia).
  assert (0 <= xpi * xpj) as Hxy by nia.
  assert ((m - den0) * 4 * xpi * xpj = (m - den0) * (4 * (xpi * xpj))) as En by ring.
  assert (0 <= skew <= m - den0) as Hsk.
  { rewrite Esk, En. split; [apply Z.div_pos; nia|]. apply Z.div_le_upper_bound; [done|]. rewrite Z.mul_comm. apply Z.mul_le_mono_nonneg_r; lia. }
  assert (fee <= m * fee / (skew + den0)) as Hlow.
  { apply Z.div_le_lower_bound; [lia|]. apply Z.mul_le_mono_nonneg_r; lia. }
  split; [done|]. split; [|split; [lia|]].
  - etransitivity; [|apply Z.le_max_r]. apply Z.div_le_compat_l; [nia|lia].
  - intros ->. assert (skew = m - den0) as ->.
    { rewrite Esk, En. apply div_unique_pos with 0; [lia|]. unfold S2. ring. }
    replace (m - den0 + den0) with m by lia. rewrite Z.mul_comm. apply Z.div_mul. lia.
Qed.

Lemma dynamic_fee_bounds_witness :
  ng_dynamic_fee 1000000 3000000 4000000 20000000000 = Ok 4571428 /\ 4000000 <= 4571428.
Proof.
  split; [vm_compute; reflexivity|].
  apply (dynamic_fee_bounds 1000000 3000000 4000000 20000000000 4571428);
    try (vm_compute; (reflexivity || discriminate)).
Defined.

(** Every value of the pool arithmetic is unsigned. *)
Lemma div_nonneg a b : 0 <= a -> 0 <= b -> 0 <= a / b.
Proof. intros Ha Hb. destruct (decide (b = 0)) as [->|]; [by rewrite Z.div_0_r|]. apply Z.div_pos; lia. Qed.

(** Opens the checked operations of a hypothesis one after the other. *)
Ltac open_checked H :=
  repeat match type of H with
  | math _ = Ok _ => apply ok_or_Ok in H
  | match ?c with Ok _ => _ | Err _ => _ end = Ok _ =>
      let x := fresh "v" in let Hx := fresh "Hv" in apply bind_Ok in H as (x & Hx & H); open_checked Hx
  | match ?c with Some _ => _ | None => _ end = Some _ =>
      let x := fresh "v" in let Hx := fresh "Hv" in
      destruct c as [x|] eqn:Hx; [open_checked Hx|discriminate H]
  | checked_mul _ _ _ = Some _ => apply checked_mul_Some in H as [-> _]
  | checked_add _ _ _ = Some _ => apply checked_add_Some in H as [-> _]
  | checked_sub _ _ = Some _ => apply checked_sub_Some in H as [-> H]
  | checked_div _ _ = Some _ => apply checked_div_Some in H as [_ ->]
  end.
Ltac nonneg := repeat first [done | lia | apply div_nonneg | apply Z.mul_nonneg_nonneg | apply Z.add_nonneg_nonneg].

Lemma sum_loop_nonneg xs : forall acc r, 0 <= acc -> Forall (Z.le 0) xs -> sum_loop acc xs = Ok r -> 0 <= r.
Proof.
  induction xs as [|x xs IH]; intros acc r Ha Hx H; cbn [sum_loop] in H; [by injection H as <-|].
  inversion Hx; subst. apply bind_Ok in H as (v & Hv & H). open_checked Hv. eapply IH; [|done|exact H]. lia.
Qed.

Lemma dp_loop_nonneg once n d xs : forall p r,
  0 <= n -> 0 <= d -> 0 <= p -> Forall (Z.le 0) xs -> dp_loop once n d p xs = Ok r -> 0 <= r.
Proof.
  induction xs as [|x xs IH]; intros p r Hn Hd Hp Hx H; cbn [dp_loop] in H; [by injection H as <-|].
  inversion Hx; subst. apply bind_Ok in H as (den & Hden & H). destruct (_ =? 0); [done|].
  apply bind_Ok in H as (v & Hv & H). open_checked Hv. eapply IH; [done|done| |done|exact H].
  assert (0 <= den) by (destruct once; [by injection Hden as <-|open_checked Hden; nonneg]). nonneg.
Qed.

Lemma n_coins_pos s n : n_coins s = Ok n -> 2 <= n.
Proof.
  unfold n_coins. destruct (Nat.leb_spec 2 (length (cv_balances s))); [|done]. cbn [andb].
  destruct (_ || _); [done|]. intros [= <-]. lia.
Qed.

Lemma d_step_nonneg s n ann sum d xp r :
  curve_ok s -> 0 <= n -> 0 <= ann -> 0 <= sum -> 0 <= d -> Forall (Z.le 0) xp ->
  d_step s n ann sum d xp = Ok r -> 0 <= r.
Proof.
  intros Hs Hn Ha Hsum Hd Hx H. pose proof (ck_ap s Hs). unfold d_step in H. cbv zeta in H.
  apply bind_Ok in H as (p & Hp & H). apply dp_loop_nonneg in Hp; [|done..].
  apply bind_Ok in H as (p' & Hp' & H).
  assert (0 <= p') as Hp0.
  { destruct (cv_d_once s); [|by injection Hp' as <-]. open_checked Hp'.
    apply div_nonneg; [done|]. apply Z.pow_nonneg. lia. }
  open_checked H. apply div_nonneg; nonneg.
Qed.

Lemma newton_keeps (P : Z -> Prop) turns step : (forall x y, P x -> step x = Ok y -> P y) ->
  forall x y, P x -> newton turns step x = Ok y -> P y.
Proof.
  intros Hstep. induction turns as [|turns IH]; intros x y Hx H; cbn [newton] in H; [done|].
  apply bind_Ok in H as (z & Hz & H). apply Hstep in Hz; [|done].
  destruct (_ <=? _); [by injection H as <-|]. by eapply IH.
Qed.

Lemma curve_ann_nonneg s n ann : curve_ok s -> 0 <= n -> curve_ann s n = Ok ann -> 0 <= ann.
Proof. intros Hs Hn H. unfold curve_ann in H. open_checked H. pose proof (ck_a s Hs). nonneg. Qed.

Lemma curve_get_d_nonneg s xp d : curve_ok s -> Forall (Z.le 0) xp -> curve_get_d s xp = Ok d -> 0 <= d.
Proof.
  intros Hs Hx H. unfold curve_get_d in H. apply bind_Ok in H as (n & Hn%n_coins_pos & H).
  apply bind_Ok in H as (sum & Hsum & H). apply sum_loop_nonneg in Hsum; [|done..].
  destruct (sum =? 0); [by injection H as <-|]. apply bind_Ok in H as (ann & Ha & H).
  apply curve_ann_nonneg in Ha; [|done|lia].
  refine (newton_keeps (Z.le 0) 255 _ _ sum d Hsum H). intros x y Hx0 Hy.
  eapply d_step_nonneg; [..|exact Hy]; (done || lia).
Qed.

Lemma c_loop_nonneg n d skip repl xs : forall k s_ c r,
  0 <= n -> 0 <= d -> 0 <= c -> Forall (Z.le 0) xs ->
  match repl with Some (_, x) => 0 <= x | None => True end ->
  c_loop n d skip repl k s_ c xs = Ok r -> 0 <= snd r.
Proof.
  induction xs as [|x xs IH]; intros k s_ c r Hn Hd Hc Hx Hrep H; cbn [c_loop] in H; [by injection H as <-|].
  inversion Hx as [|? ? Hx0 Hxs]; subst.
  assert (forall z, 0 <= z ->
    (let? s_ := math (checked_add 256 s_ z) in
     let? den := math (checked_mul 256 z n) in
     if den =? 0 then Err InsufficientLiquidity else
     let? c := math (let! v := checked_mul 256 c d in checked_div v den) in
     c_loop n d skip repl (S k) s_ c xs) = Ok r -> 0 <= snd r) as Hstep.
  { intros z Hz Hr. apply bind_Ok in Hr as (s1 & _ & Hr). apply bind_Ok in Hr as (den & Hden & Hr).
    open_checked Hden. destruct (_ =? 0); [done|]. apply bind_Ok in Hr as (c1 & Hc1 & Hr). open_checked Hc1.
    eapply IH; [done|done| |done|done|exact Hr]. nonneg. }
  destruct repl as [[i z]|].
  - destruct (k =? i)%nat; [by apply Hstep in H|]. destruct (k =? skip)%nat; [eapply IH; [exact Hn|exact Hd|exact Hc|exact Hxs|exact Hrep|exact H]|by apply Hstep in H].
  - destruct (k =? skip)%nat; [eapply IH; [exact Hn|exact Hd|exact Hc|exact Hxs|exact Hrep|exact H]|by apply Hstep in H].
Qed.

Lemma y_coeffs_nonneg s n ann d skip repl xp b c :
  curve_ok s -> 0 <= n -> 0 <= ann -> 0 <= d -> Forall (Z.le 0) xp ->
  match repl with Some (_, x) => 0 <= x | None => True end ->
  y_coeffs s n ann d skip repl xp = Ok (b, c) -> 0 <= c.
Proof.
  intros Hs Hn Ha Hd Hx Hr H. pose proof (ck_ap s Hs). unfold y_coeffs in H. cbv zeta in H.
  apply bind_Ok in H as ([s_ c0] & Hc & H). apply c_loop_nonneg in Hc; [|done..]. cbn [snd] in Hc.
  apply bind_Ok in H as (an & Han & H). open_checked Han.
  apply bind_Ok in H as (c1 & Hc1 & H). open_checked Hc1. apply bind_Ok in H as (b1 & _ & [= <- <-]). nonneg.
Qed.

Lemma y_step_nonneg b c d x y : 0 <= c -> y_step b c d x = Ok y -> 0 <= y.
Proof.
  intros Hc H. unfold y_step in H. open_checked H.
  apply div_nonneg; [|lia]. pose proof (Z.square_nonneg x). lia.
Qed.

Lemma curve_get_y_nonneg s i j x xp y :
  curve_ok s -> 0 <= x -> Forall (Z.le 0) xp -> curve_get_y s i j x xp = Ok y -> 0 <= y.
Proof.
  intros Hs Hx Hxp H. unfold curve_get_y in H. apply bind_Ok in H as (n & Hn%n_coins_pos & H).
  apply bind_Ok in H as (d & Hd & H). apply curve_get_d_nonneg in Hd; [|done..].
  apply bind_Ok in H as (ann & Ha & H). apply curve_ann_nonneg in Ha; [|done|lia].
  apply bind_Ok in H as ([b c] & Hc & H). apply y_coeffs_nonneg in Hc; [|done|lia|done..].
  refine (newton_keeps (Z.le 0) 255 _ _ d y Hd H). intros u v _ Hv. exact (y_step_nonneg b c d u v Hc Hv).
Qed.

Lemma half_Ok a b h : 0 <= a -> 0 <= b -> half a b = Ok h -> 0 <= h.
Proof.
  unfold half. intros Ha Hb H%ok_or_Ok. destruct (checked_add 256 a b) as [v|] eqn:E; [|done].
  apply checked_add_Some in E as [-> _]. apply checked_div_Some in H as [_ ->]. apply Z.div_pos; lia.
Qed.

Lemma to_raw_Ok v r x : to_raw v r = Ok x -> r <> 0 /\ x = v * WAD / r.
Proof.
  unfold to_raw. intros H%ok_or_Ok. destruct (checked_mul 256 v WAD) as [w|] eqn:E; [|done].
  apply checked_mul_Some in E as [-> _]. by apply checked_div_Some in H.
Qed.

Lemma xp_loop_Ok : forall bs rs xp,
  xp_loop bs rs = Ok xp ->
  forall k x, xp !! k = Some x -> exists b r, bs !! k = Some b /\ rs !! k = Some r /\ x = b * r / WAD.
Proof.
  induction bs as [|b bs IH]; intros [|r rs] xp H k x Hk; cbn [xp_loop] in H;
    [by injection H as <-..|].
  apply bind_Ok in H as (v & Hv & H). apply ok_or_Ok in Hv.
  destruct (checked_mul 256 b r) as [w|] eqn:Ew; [|done]. apply checked_mul_Some in Ew as [-> _].
  apply checked_div_Some in Hv as [_ ->]. apply bind_Ok in H as (rest & Hr & [= <-]).
  destruct k as [|k]; [by injection Hk as <-; exists b, r|]. by apply (IH rs rest Hr k x).
Qed.

Lemma swap_fee_nonneg s xpi xpj f :
  curve_ok s -> 0 <= xpi -> 0 <= xpj -> swap_fee s xpi xpj = Ok f -> 0 <= f.
Proof.
  intros Hs Hi Hj. unfold swap_fee. destruct (negb _); [intros [= <-]; apply Hs|].
  intros H. apply dynamic_fee_bounds in H as [H _]; [|done..|apply Hs]. pose proof (ck_fee s Hs). lia.
Qed.

(** [y] solves the pool's quadratic for coin [j] when coin [i] stands at [x]: [y + 1] lies
    strictly above the curve and [y] at most one unit of the quadratic over it. *)
Definition solves (s : CurveState) (i j : nat) (x : Z) (xp : list Z) (y : Z) : Prop :=
  exists n d ann b c,
    n_coins s = Ok n /\ curve_get_d s xp = Ok d /\ curve_ann s n = Ok ann /\
    y_coeffs s n ann d j (Some (i, x)) xp = Ok (b, c) /\
    above_curve b c d (y + 1) /\ near_curve b c d y.

Lemma curve_get_y_solves s i j x xp y : curve_get_y s i j x xp = Ok y -> solves s i j x xp y.
Proof.
  unfold curve_get_y. intros H. apply bind_Ok in H as (n & Hn & H). apply bind_Ok in H as (d & Hd & H).
  apply bind_Ok in H as (ann & Ha & H). apply bind_Ok in H as ([b c] & Hc & H).
  apply y_newton_exact in H as [H1 H2]. by exists n, d, ann, b, c.
Qed.

(** What [curve_dy] pays and keeps. *)
Lemma curve_dy_Ok s i j dx out dy y :
  curve_ok s -> 0 <= dx -> curve_dy s i j dx = Ok (out, dy, y) ->
  exists xp xi xj ri rj, curve_xp s = Ok xp /\ xp !! i = Some xi /\ xp !! j = Some xj /\
    cv_rates s !! i = Some ri /\ cv_rates s !! j = Some rj /\ 0 < rj /\
    solves s i j (dx * ri / WAD + xi) xp y /\ y + 1 <= xj /\
    dy = (xj - y - 1) * WAD / rj /\ out <= dy.
Proof.
  intros Hs Hdx H. unfold curve_dy in H. destruct (cv_stale s); [done|].
  apply bind_Ok in H as (xp & Hxp & H). apply bind_Ok in H as (xi & Hxi%ok_or_Ok & H).
  apply bind_Ok in H as (xj & Hxj%ok_or_Ok & H). apply bind_Ok in H as (ri & Hri%ok_or_Ok & H).
  apply bind_Ok in H as (rj & Hrj%ok_or_Ok & H). apply bind_Ok in H as (x & Hx%ok_or_Ok & H).
  destruct (checked_mul 256 dx ri) as [v|] eqn:Ev; [|done]. apply checked_mul_Some in Ev as [-> _].
  destruct (checked_div (dx * ri) WAD) as [v|] eqn:Ev; [|done]. apply checked_div_Some in Ev as [_ ->].
  apply checked_add_Some in Hx as [-> _]. apply bind_Ok in H as (y' & Hy & H).
  apply bind_Ok in H as (dyx & Hd%ok_or_Ok & H). destruct (checked_sub xj y') as [v|] eqn:Ev; [|done].
  apply checked_sub_Some in Ev as [-> Hle]. apply checked_sub_Some in Hd as [-> Hle1].
  apply bind_Ok in H as (hi & Hhi & H). apply bind_Ok in H as (hj & Hhj & H).
  apply bind_Ok in H as (fee & Hfee & H). apply bind_Ok in H as (fx & Hfx%ok_or_Ok & H).
  destruct (checked_mul 256 (xj - y' - 1) fee) as [v|] eqn:Ev; [|done].
  apply checked_mul_Some in Ev as [-> _]. apply checked_div_Some in Hfx as [_ ->].
  apply bind_Ok in H as (net & [-> Hnet]%ok_or_Ok%checked_sub_Some & H).
  apply bind_Ok in H as (o & [Hrj0 ->]%to_raw_Ok & H). apply bind_Ok in H as (dr & [_ ->]%to_raw_Ok & H).
  injection H as <- <- <-.
  pose proof (proj1 (Forall_lookup _ _) (ck_rates s Hs)) as Hr.
  pose proof (Hr _ _ Hri) as Hri0. pose proof (Hr _ _ Hrj) as Hrj1. cbn beta in *.
  assert (Forall (Z.le 0) xp) as Hxp0.
  { apply Forall_lookup. intros k z Hk. destruct (xp_loop_Ok _ _ _ Hxp k z Hk) as (b & r & Hb & Hr' & ->).
    apply Hr in Hr'. apply (proj1 (Forall_lookup _ _) (ck_balances s Hs)) in Hb. nonneg. }
  pose proof (proj1 (Forall_lookup _ _) Hxp0 _ _ Hxi) as Hxi0.
  pose proof (proj1 (Forall_lookup _ _) Hxp0 _ _ Hxj) as Hxj0. cbn beta in *.
  assert (0 <= dx * ri / WAD + xi) as Hx0 by nonneg.
  pose proof (curve_get_y_nonneg s i j _ xp y' Hs Hx0 Hxp0 Hy) as Hy0.
  assert (0 <= fee) as Hf0.
  { eapply swap_fee_nonneg; [exact Hs| | |exact Hfee]; (eapply half_Ok; [| |eassumption]); done. }
  apply curve_get_y_solves in Hy. exists xp, xi, xj, ri, rj. split_and!; try (done || lia).
  apply Z.div_le_mono; [lia|]. apply Z.mul_le_mono_nonneg_r; [done|].
  assert (0 <= (xj - y' - 1) * fee / CURVE_FEE_DENOM) by nonneg. lia.
Qed.

(** C34. A StableSwap exchange never gives away the invariant: the pool takes exactly [dx] of
    coin [i], its coin [j] falls by at least what the trader receives, and what it keeps of
    coin [j] (in scaled units) is at least [y + 1], a point strictly above the curve solved
    for the new balance of coin [i], while [y] itself is within one unit of the curve. *)
Theorem curve_exchange_never_overpays s i j dx out bi bj :
  curve_ok s -> 0 <= dx -> curve_exchange s i j dx = Ok (out, bi, bj) ->
  exists oi oj xp xi xj ri rj y,
    cv_balances s !! i = Some oi /\ cv_balances s !! j = Some oj /\ curve_xp s = Ok xp /\
    xp !! i = Some xi /\ xp !! j = Some xj /\ cv_rates s !! i = Some ri /\ cv_rates s !! j = Some rj /\
    bi = oi + dx /\ 0 <= bj /\ out <= oj - bj /\
    solves s i j (dx * ri / WAD + xi) xp y /\ (oj - bj) * rj <= (xj - (y + 1)) * WAD.
Proof.
  intros Hs Hdx H. unfold curve_exchange in H. destruct (i =? j)%nat; [done|].
  apply bind_Ok in H as ([[o dy] y] & Hdy & H). apply curve_dy_Ok in Hdy; [|done..].
  destruct Hdy as (xp & xi & xj & ri & rj & Hxp & Hxi & Hxj & Hri & Hrj & Hrj0 & Hsol & Hle & -> & Hout).
  apply bind_Ok in H as (oi & Hoi%ok_or_Ok & H). apply bind_Ok in H as (bi' & [-> _]%ok_or_Ok%checked_add_Some & H).
  apply bind_Ok in H as (oj & Hoj%ok_or_Ok & H). apply bind_Ok in H as (bj' & [-> Hge]%ok_or_Ok%checked_sub_Some & H).
  injection H as <- <- <-. exists oi, oj, xp, xi, xj, ri, rj, y.
  pose proof (div_rem_spec ((xj - y - 1) * WAD) rj Hrj0) as [Hq Hm].
  replace (oj - (oj - (xj - y - 1) * WAD / rj)) with ((xj - y - 1) * WAD / rj) by lia.
  split_and!; (done || lia || nia).
Qed.

Definition ex_curve : CurveState :=
  mkCurve [1000000000000; 2000000000000] [1000000000000000000000000000000; 1000000000000000000000000000000]
    20000 100 4000000 false 0 false false 0 false 0 0.
Lemma ex_curve_ok : curve_ok ex_curve.
Proof. split; try (cbn; lia); repeat constructor; discriminate. Qed.
Lemma curve_exchange_never_overpays_witness :
  curve_exchange ex_curve 0 1 1000000 = Ok (1003795, 1000001000000, 1999998995803) /\ 1003795 <= 2000000000000 - 1999998995803.
Proof.
  assert (curve_exchange ex_curve 0 1 1000000 = Ok (1003795, 1000001000000, 1999998995803)) as E by (vm_compute; reflexivity).
  split; [exact E|].
  destruct (curve_exchange_never_overpays ex_curve 0 1 1000000 _ _ _ ex_curve_ok ltac:(done) E)
    as (oi & oj & xp & xi & xj & ri & rj & y & Hi & Hj & _ & _ & _ & _ & _ & _ & _ & Ho & _).
  injection Hj as <-. exact Ho.
Defined.
