(* ===== verification/PoolV3.v ===== *)
(** Concentrated liquidity in the router ([crates/liq-router/src/solver.rs]): the tick list of a
    Uniswap V3 or V4 pool, how mints and burns fold into it, and the exact-input swap loop.

    An [i32], [i128] or [U256] is a [Z]. The crate [uniswap_v3_math] is outside the repository:
    its functions are the operations of the class [TickMath], and what the code relies on of
    them are the laws [TickMathLaws]. *)

From Stdlib Require Import Sorted.
From S2P Require Import Prelude Threshold RouterFees.
Local Open Scope Z_scope.

(** * State *)

Record Tick := mkTick { tk_tick : Z; tk_net : Z; tk_gross : Z }.

(** A V4 pool's key. *)
Record V4Key := mkV4Key {
  k4_currency0 : Z; k4_currency1 : Z; k4_fee : Z; k4_tick_spacing : Z; k4_hooks : Z; k4_id : Z }.

Record V3State := mkV3 {
  v3_factory : Z; v3_sqrt_price_x96 : Z; v3_tick : Z; v3_liquidity : Z; v3_fee_pips : Z; v3_tick_spacing : Z;
  v3_ticks : list Tick; v3_v4 : option V4Key; v3_window : option (Z * Z) }.

Definition set_price (s : V3State) (p : Z) : V3State :=
  mkV3 (v3_factory s) p (v3_tick s) (v3_liquidity s) (v3_fee_pips s) (v3_tick_spacing s) (v3_ticks s) (v3_v4 s) (v3_window s).
Definition set_liquidity (s : V3State) (l : Z) : V3State :=
  mkV3 (v3_factory s) (v3_sqrt_price_x96 s) (v3_tick s) l (v3_fee_pips s) (v3_tick_spacing s) (v3_ticks s) (v3_v4 s) (v3_window s).
Definition set_ticks (s : V3State) (ts : list Tick) : V3State :=
  mkV3 (v3_factory s) (v3_sqrt_price_x96 s) (v3_tick s) (v3_liquidity s) (v3_fee_pips s) (v3_tick_spacing s) ts (v3_v4 s) (v3_window s).

(** An [i32] operation that saturates. *)
Definition sat32 (x : Z) : Z := Z.max (- 2 ^ 31) (Z.min x (2 ^ 31 - 1)).

(** * The next tick *)

Definition next_tick_within_word (ticks : list Tick) (tick spacing : Z) (zfo : bool) : Z * bool :=
  if spacing <=? 0 then (tick, false) else
  let compressed := tick / spacing in
  if zfo then
    let bit := compressed mod 256 in
    let word_floor := sat32 (sat32 (compressed - bit) * spacing) in
    let bound := sat32 (compressed * spacing) in
    let pos := partition_point (fun t => tk_tick t <=? bound) ticks in
    match pos with
    | O => (word_floor, false)
    | S p =>
        match ticks !! p with
        | Some t => if word_floor <=? tk_tick t then (tk_tick t, true) else (word_floor, false)
        | None => (word_floor, false)
        end
    end
  else
    let next := sat32 (compressed + 1) in
    let bit := next mod 256 in
    let word_ceil := sat32 (sat32 (next + sat32 (255 - bit)) * spacing) in
    let bound := sat32 (next * spacing) in
    let pos := partition_point (fun t => tk_tick t <? bound) ticks in
    match ticks !! pos with
    | Some t => if tk_tick t <=? word_ceil then (tk_tick t, true) else (word_ceil, false)
    | None => (word_ceil, false)
    end.

Definition clamp (lo hi x : Z) : Z := Z.max lo (Z.min x hi).

(** [uniswap_v3_math]: the tick and swap-step functions and their constants. [compute_swap_step]
    answers the price after the step, the input, the output and the fee. *)
Class TickMath := {
  MIN_TICK : Z; MAX_TICK : Z; MIN_SQRT_RATIO : Z; MAX_SQRT_RATIO : Z;
  get_sqrt_ratio_at_tick : Z -> option Z;
  get_tick_at_sqrt_ratio : Z -> option Z;
  compute_swap_step : Z -> Z -> Z -> Z -> Z -> option (Z * Z * Z * Z);
  add_delta : Z -> Z -> option Z }.

Section Swap.
Context `{TickMath}.

Definition bounded_next_tick (s : V3State) (tick : Z) (zfo : bool) : option (Z * bool * bool) :=
  let '(next, initialized) := next_tick_within_word (v3_ticks s) tick (v3_tick_spacing s) zfo in
  let next := clamp MIN_TICK MAX_TICK next in
  match v3_window s with
  | None => Some (next, initialized, false)
  | Some (lo, hi) =>
      if (tick <? lo) || (hi <? tick) then None else
      if zfo && (next <? lo) then Some (lo, false, true) else
      if negb zfo && (hi <? next) then Some (hi, false, true) else
      Some (next, initialized, false)
  end.

(** * The swap loop *)

Record V3SwapResult := mkSwap { sw_out : Z; sw_sqrt_price_x96 : Z; sw_tick : Z; sw_liquidity : Z }.

Definition limit_of (zfo : bool) : RRes Z :=
  if zfo then math (checked_add 256 MIN_SQRT_RATIO 1) else math (checked_sub MAX_SQRT_RATIO 1).

Definition target_of (zfo : bool) (sqrt_next limit : Z) : Z :=
  if (zfo && (sqrt_next <? limit)) || (negb zfo && (limit <? sqrt_next)) then limit else sqrt_next.

(** The liquidity and tick on the other side of [next_tick]. *)
Definition cross (s : V3State) (zfo : bool) (next_tick : Z) (initialized : bool) (liq : Z) : RRes (Z * Z) :=
  let? liq :=
    if initialized then
      let pos := partition_point (fun t => tk_tick t <? next_tick) (v3_ticks s) in
      let net := match v3_ticks s !! pos with Some t => tk_net t | None => 0 end in
      let? net := if zfo then math (checked_i 128 (- net)) else Ok net in
      math (add_delta liq net)
    else Ok liq in
  let? tick := if zfo then math (checked_i 32 (next_tick - 1)) else Ok next_tick in
  Ok (liq, tick).

(** The loop's variables: [remaining], [out], [sqrt_p], [tick] and [liq]. *)
Record Loop := mkLoop { lp_remaining : Z; lp_out : Z; lp_sqrt_p : Z; lp_tick : Z; lp_liq : Z }.

(** One turn of the loop. *)
Definition swap_turn (s : V3State) (zfo : bool) (limit : Z) (st : Loop) : RRes Loop :=
  match bounded_next_tick s (lp_tick st) zfo with
  | None => Err InsufficientLiquidity
  | Some (next_tick, initialized, at_edge) =>
      let? sqrt_next := math (get_sqrt_ratio_at_tick next_tick) in
      let target := target_of zfo sqrt_next limit in
      let step_start := lp_sqrt_p st in
      let? (sqrt_after, step_in, step_out, fee) :=
        math (compute_swap_step (lp_sqrt_p st) target (lp_liq st) (lp_remaining st) (v3_fee_pips s)) in
      let? consumed := math (checked_add 256 step_in fee) in
      let? consumed := math (checked_i 256 consumed) in
      let? remaining := math (checked_i 256 (lp_remaining st - consumed)) in
      let? out := math (checked_add 256 (lp_out st) step_out) in
      if at_edge && (sqrt_after =? sqrt_next) && negb (remaining =? 0) then Err InsufficientLiquidity else
      if sqrt_after =? sqrt_next then
        let? (liq, tick) := cross s zfo next_tick initialized (lp_liq st) in
        Ok (mkLoop remaining out sqrt_after tick liq)
      else if negb (sqrt_after =? step_start) then
        let? tick := math (get_tick_at_sqrt_ratio sqrt_after) in
        Ok (mkLoop remaining out sqrt_after tick (lp_liq st))
      else Ok (mkLoop remaining out sqrt_after (lp_tick st) (lp_liq st))
  end.

(** [while !remaining.is_zero() && sqrt_p != limit]; the outer [None] is fuel used up. *)
Fixpoint swap_loop (fuel : nat) (s : V3State) (zfo : bool) (limit : Z) (st : Loop) : option (RRes Loop) :=
  if negb (lp_remaining st =? 0) && negb (lp_sqrt_p st =? limit) then
    match fuel with
    | O => None
    | S fuel =>
        match swap_turn s zfo limit st with
        | Err e => Some (Err e)
        | Ok st => swap_loop fuel s zfo limit st
        end
    end
  else Some (Ok st).

(** Every turn but the last moves the tick past another one. *)
Definition turns : nat := Z.to_nat (MAX_TICK - MIN_TICK + 3).

Definition v3_swap (s : V3State) (zfo : bool) (amount_in : Z) : option (RRes V3SwapResult) :=
  if v3_sqrt_price_x96 s =? 0 then Some (Err StalePool) else
  match limit_of zfo with
  | Err e => Some (Err e)
  | Ok limit =>
      match checked_i 256 amount_in with
      | None => Some (Err RMath)
      | Some remaining =>
          match swap_loop turns s zfo limit
                  (mkLoop remaining 0 (v3_sqrt_price_x96 s) (v3_tick s) (v3_liquidity s)) with
          | None => None
          | Some (Err e) => Some (Err e)
          | Some (Ok st) =>
              if negb (lp_remaining st =? 0) then Some (Err InsufficientLiquidity)
              else Some (Ok (mkSwap (lp_out st) (lp_sqrt_p st) (lp_tick st) (lp_liq st)))
          end
      end
  end.
End Swap.

(** * Mints and burns *)

(** [apply] of [v3_modify]: the tick list after one end of the position, [None] where the
    source returns [false]. *)
Definition apply_tick (ticks : list Tick) (tick signed amount : Z) (mint : bool) : option (list Tick) :=
  let pos := partition_point (fun t => tk_tick t <? tick) ticks in
  match (match ticks !! pos with Some t => if tk_tick t =? tick then Some t else None | None => None end) with
  | Some t =>
      match checked_i 128 (tk_net t + signed),
            (if mint then checked_add 128 (tk_gross t) amount else checked_sub (tk_gross t) amount) with
      | Some net, Some gross =>
          if gross =? 0 then Some (take pos ticks ++ drop (S pos) ticks)
          else Some (<[pos := mkTick (tk_tick t) net gross]> ticks)
      | _, _ => None
      end
  | None =>
      if mint then Some (take pos ticks ++ mkTick tick signed amount :: drop pos ticks) else None
  end.

(** [signed]: the delta's sign at one end of the position. *)
Definition signed_delta (delta : Z) (net_sign_pos mint : bool) : Z :=
  let signed := if net_sign_pos then delta else - delta in
  if mint then signed else - signed.

Definition v3_modify (s : V3State) (lower upper amount : Z) (mint : bool) : V3State :=
  if (amount =? 0) || (upper <=? lower) then s else
  match checked_i 128 amount with
  | None => set_price s 0
  | Some delta =>
      match apply_tick (v3_ticks s) lower (signed_delta delta true mint) amount mint with
      | None => set_price s 0
      | Some ts =>
          match apply_tick ts upper (signed_delta delta false mint) amount mint with
          | None => set_price (set_ticks s ts) 0
          | Some ts =>
              let s := set_ticks s ts in
              if (lower <=? v3_tick s) && (v3_tick s <? upper) then
                match (if mint then checked_add 128 (v3_liquidity s) amount
                       else checked_sub (v3_liquidity s) amount) with
                | Some l => set_liquidity s l
                | None => set_price s 0
                end
              else s
          end
      end
  end.

(** A pool's log by its topic, with the fields the ABI decoder yields; [None] is a log that
    does not decode. *)
Inductive V3Log :=
| LogSwap (after : option (Z * Z * Z))
| LogMint (ev : option (Z * Z * Z))
| LogBurn (ev : option (Z * Z * Z))
| LogInitialize (ev : option (Z * Z))
| LogOther.

Definition fold_v3 (s : V3State) (log : V3Log) : V3State * bool :=
  match log with
  | LogSwap (Some (price, liquidity, tick)) =>
      (mkV3 (v3_factory s) price tick liquidity (v3_fee_pips s) (v3_tick_spacing s) (v3_ticks s)
         (v3_v4 s) (v3_window s), true)
  | LogMint (Some (lower, upper, amount)) => (v3_modify s lower upper amount true, true)
  | LogBurn (Some (lower, upper, amount)) => (v3_modify s lower upper amount false, true)
  | LogInitialize (Some (price, tick)) =>
      (mkV3 (v3_factory s) price tick (v3_liquidity s) (v3_fee_pips s) (v3_tick_spacing s) (v3_ticks s)
         (v3_v4 s) (v3_window s), true)
  | LogSwap None | LogMint None | LogBurn None | LogInitialize None => (set_price s 0, true)
  | LogOther => (s, false)
  end.

(** [Pool::is_live] of a V3 pool. *)
Definition v3_is_live (s : V3State) : bool := negb (v3_sqrt_price_x96 s =? 0).

(** * Fees of a V4 pool *)

Definition v4_swap_fee (protocol_fee lp_fee : Z) : Z :=
  match (let! sum := checked_add 64 protocol_fee lp_fee in
         let! m := checked_mul 64 protocol_fee lp_fee in
         let! q := checked_div m 1000000 in
         let! f := checked_sub sum q in try_from 32 f) with
  | Some f => f
  | None => umax 32
  end.

(** * What the tick crate promises *)

Class TickMathLaws `{TickMath} : Prop := {
  tick_range : - 2 ^ 24 <= MIN_TICK /\ MIN_TICK < MAX_TICK /\ MAX_TICK <= 2 ^ 24;
  ratio_range : 0 < MIN_SQRT_RATIO /\ MAX_SQRT_RATIO < 2 ^ 256;
  ratio_min : get_sqrt_ratio_at_tick MIN_TICK = Some MIN_SQRT_RATIO;
  ratio_max : get_sqrt_ratio_at_tick MAX_TICK = Some MAX_SQRT_RATIO;
  ratio_total t : MIN_TICK <= t <= MAX_TICK -> exists a, get_sqrt_ratio_at_tick t = Some a;
  ratio_mono t u a b : MIN_TICK <= t -> t < u -> u <= MAX_TICK ->
    get_sqrt_ratio_at_tick t = Some a -> get_sqrt_ratio_at_tick u = Some b -> a < b;
  tick_at_ratio p : MIN_SQRT_RATIO <= p < MAX_SQRT_RATIO ->
    exists t a b, get_tick_at_sqrt_ratio p = Some t /\ MIN_TICK <= t < MAX_TICK /\
      get_sqrt_ratio_at_tick t = Some a /\ get_sqrt_ratio_at_tick (t + 1) = Some b /\ a <= p < b;
  step_law p target liq rem fee after i o f :
    0 <= rem -> compute_swap_step p target liq rem fee = Some (after, i, o, f) ->
    Z.min p target <= after <= Z.max p target /\ 0 <= i /\ 0 <= o /\ 0 <= f /\ i + f <= rem /\
    (after <> target -> i + f = rem);
  add_delta_law l d r : add_delta l d = Some r -> r = l + d }.

(** * Ticks *)

Definition before (a b : Tick) : Prop := tk_tick a < tk_tick b.
Definition none_in (ts : list Tick) (lo hi : Z) : Prop := Forall (fun t => ~ lo < tk_tick t <= hi) ts.

(** Liquidity in range at [tick]: the sum of the nets at or below it. *)
Definition active (ts : list Tick) (tick : Z) : Z :=
  zsum (fun t => if tk_tick t <=? tick then tk_net t else 0) ts.


Lemma before_lookup ts i j a b :
  StronglySorted before ts -> ts !! i = Some a -> ts !! j = Some b -> (i < j)%nat -> before a b.
Proof.
  intros Hs. revert i j. induction Hs as [|t ts Hs IH Hall]; intros i j Hi Hj Hlt; [done|].
  destruct j as [|j]; [lia|]. destruct i as [|i]; simpl in *.
  - injection Hi as <-. rewrite Forall_forall in Hall. apply Hall. by eapply list_elem_of_lookup_2.
  - apply (IH i j); (done || lia).
Qed.

(** The partition point of an order test on an ordered list. *)
Lemma partition_index p ts i t :
  StronglySorted before ts -> (forall a b, before a b -> p b = true -> p a = true) ->
  ts !! i = Some t -> p t = (i <? partition_point p ts)%nat.
Proof.
  intros Hs Hp. revert i. induction Hs as [|x ts Hs IH Hall]; intros i Hi; [done|]. simpl.
  destruct (p x) eqn:E.
  - destruct i as [|i]; simpl in Hi; [by injection Hi as <-|]. by rewrite (IH i Hi).
  - destruct i as [|i]; simpl in Hi; [by injection Hi as <-|].
    destruct (p t) eqn:Et; [|done]. rewrite (Hp x t) in E; [done| |done].
    rewrite Forall_forall in Hall. apply Hall. by eapply list_elem_of_lookup_2.
Qed.


Lemma lt_before b : forall x y, before x y -> (tk_tick y <? b) = true -> (tk_tick x <? b) = true.
Proof. unfold before. intros x y Hxy ?%Z.ltb_lt. apply Z.ltb_lt. lia. Qed.

Lemma sat32_id x : - 2 ^ 31 <= x <= 2 ^ 31 - 1 -> sat32 x = x.
Proof. unfold sat32. lia. Qed.

(** What a swap reads: an ordered list of ticks on the spacing's grid, within range. *)
Record grid_ok `{TickMath} (s : V3State) : Prop := {
  gr_spacing : 0 < v3_tick_spacing s < 2 ^ 15;
  gr_sorted : StronglySorted before (v3_ticks s);
  gr_grid : Forall (fun t => (v3_tick_spacing s | tk_tick t)) (v3_ticks s);
  gr_range : Forall (fun t => MIN_TICK <= tk_tick t <= MAX_TICK) (v3_ticks s) }.


Section NextTick.
Context `{TickMathLaws} (s : V3State) (Hg : grid_ok s) (tick : Z) (Ht : MIN_TICK <= tick < MAX_TICK).
Let d := v3_tick_spacing s.
Let c := tick / d.

Lemma spacing_bounds : 0 < d < 2 ^ 15 /\ c * d <= tick < c * d + d /\ - 2 ^ 24 <= tick <= 2 ^ 24 /\
  - 2 ^ 24 - 1 <= c <= 2 ^ 24.
Proof.
  destruct (gr_spacing s Hg) as [Hd1 Hd2]. fold d in Hd1, Hd2.
  pose proof (div_rem_spec tick d Hd1) as [Hq Hm]. fold c in Hq. destruct tick_range as (H1 & H2 & H3).
  repeat split; try lia; nia.
Qed.


Lemma next_above n i : next_tick_within_word (v3_ticks s) tick d false = (n, i) ->
  tick < n /\ none_in (v3_ticks s) tick (n - 1) /\ (i = true -> exists t, t ∈ v3_ticks s /\ tk_tick t = n) /\
  (i = false -> none_in (v3_ticks s) tick n).
Proof.
  destruct spacing_bounds as (Hd & Hc & Htk & Hcb). unfold next_tick_within_word.
  destruct (Z.leb_spec d 0); [lia|]. cbv zeta. fold c.
  rewrite !(sat32_id (c + 1)) by lia. pose proof (Z.mod_pos_bound (c + 1) 256 ltac:(lia)) as Hbit.
  rewrite !(sat32_id (255 - _)) by lia. rewrite !(sat32_id (c + 1 + _)) by lia.
  rewrite !(sat32_id ((c + 1 + _) * d)) by nia. rewrite !(sat32_id ((c + 1) * d)) by nia.
  set (wc := (c + 1 + (255 - (c + 1) mod 256)) * d). assert (tick < wc) as Hwc by (unfold wc; nia).
  set (q := fun t => tk_tick t <? (c + 1) * d). set (pp := partition_point q (v3_ticks s)).
  assert (forall k t, v3_ticks s !! k = Some t -> tick < tk_tick t -> (pp <= k)%nat) as Hin.
  { intros k t Hk Hlt. apply Nat.ltb_ge. unfold pp.
    rewrite <- (partition_index q _ k t (gr_sorted s Hg) (lt_before _) Hk).
    apply Z.ltb_ge. destruct (Z.le_gt_cases ((c + 1) * d) (tk_tick t)) as [|Hgt]; [done|exfalso].
    pose proof (Forall_lookup_1 _ _ _ _ (gr_grid s Hg) Hk) as [z Hz]. cbn beta in Hz. fold d in Hz.
    assert (c < z) by nia. assert (z < c + 1) by nia. lia. }
  assert (forall a, (forall k t, v3_ticks s !! k = Some t -> tick < tk_tick t -> a < tk_tick t) ->
    none_in (v3_ticks s) tick a) as Hnone.
  { intros a Ha. apply Forall_lookup. intros k t Hk ?. specialize (Ha k t Hk). lia. }
  destruct (v3_ticks s !! pp) as [t0|] eqn:Ht0.
  - assert (tick < tk_tick t0) as Hlt0.
    { pose proof (partition_index q _ pp t0 (gr_sorted s Hg) (lt_before _) Ht0) as E. fold pp in E.
      rewrite (proj2 (Nat.ltb_ge pp pp)) in E by lia. apply Z.ltb_ge in E. lia. }
    assert (forall k t, v3_ticks s !! k = Some t -> tick < tk_tick t -> tk_tick t0 <= tk_tick t) as Hmin.
    { intros k t Hk Hlt. specialize (Hin k t Hk Hlt). destruct (decide (k = pp)) as [->|]; [by simplify_eq|].
      pose proof (before_lookup _ pp k t0 t (gr_sorted s Hg) Ht0 Hk ltac:(lia)) as Hb. unfold before in Hb. lia. }
    destruct (Z.leb_spec (tk_tick t0) wc); intros [= <- <-].
    + split; [done|]. split; [apply Hnone; intros k t Hk Hlt; specialize (Hmin k t Hk Hlt); lia|].
      split; [|done]. intros _. exists t0. split; [|done]. by eapply list_elem_of_lookup_2.
    + split; [done|]. split; [|split; [done|intros _]]; apply Hnone; intros k t Hk Hlt;
        specialize (Hmin k t Hk Hlt); lia.
  - intros [= <- <-]. apply lookup_ge_None in Ht0.
    split; [done|]. split; [|split; [done|intros _]]; apply Hnone; intros k t Hk Hlt;
      specialize (Hin k t Hk Hlt); apply lookup_lt_Some in Hk; lia.
Qed.
End NextTick.





Section Turn.
Context `{TickMathLaws} (s : V3State) (Hg : grid_ok s).







End Turn.

(** * The loop *)

Section Loop.
Context `{TickMathLaws} (s : V3State) (Hg : grid_ok s).






Definition limit_price (zfo : bool) : Z := if zfo then MIN_SQRT_RATIO + 1 else MAX_SQRT_RATIO - 1.



(** The outcomes of a turn. *)
Lemma turn_parts zfo limit st st' :
  0 <= lp_remaining st -> swap_turn s zfo limit st = Ok st' ->
  exists n i e rn, bounded_next_tick s (lp_tick st) zfo = Some (n, i, e) /\
    get_sqrt_ratio_at_tick n = Some rn /\
    let target := target_of zfo rn limit in let p := lp_sqrt_p st in let p' := lp_sqrt_p st' in
    Z.min p target <= p' <= Z.max p target /\ 0 <= lp_remaining st' /\
    (p' <> target -> lp_remaining st' = 0) /\
    (p' = rn /\ (e = true -> lp_remaining st' = 0) /\
       cross s zfo n i (lp_liq st) = Ok (lp_liq st', lp_tick st') \/
     p' <> rn /\ p' <> p /\ get_tick_at_sqrt_ratio p' = Some (lp_tick st') /\ lp_liq st' = lp_liq st \/
     p' <> rn /\ p' = p /\ lp_tick st' = lp_tick st /\ lp_liq st' = lp_liq st).
Proof.
  intros Hrem Ht. unfold swap_turn in Ht.
  destruct (bounded_next_tick s (lp_tick st) zfo) as [[[n i] e]|] eqn:Eb; [|done].
  apply bind_Ok in Ht as (rn & Hrn%ok_or_Ok & Ht). cbv zeta in Ht.
  apply bind_Ok in Ht as ([[[after si] so] f] & Hstep%ok_or_Ok & Ht).
  destruct (step_law _ _ _ _ _ _ _ _ _ Hrem Hstep) as (Hbet & Hi0 & _ & Hf0 & Hsum & Hall).
  apply bind_Ok in Ht as (c & [-> _]%ok_or_Ok%checked_add_Some & Ht).
  apply bind_Ok in Ht as (c' & [-> _]%ok_or_Ok%checked_i_Some & Ht).
  apply bind_Ok in Ht as (rem & [-> _]%ok_or_Ok%checked_i_Some & Ht).
  apply bind_Ok in Ht as (out & _ & Ht).
  exists n, i, e, rn. split; [done|]. split; [done|]. cbv zeta.
  destruct (e && (after =? rn) && negb (lp_remaining st - (si + f) =? 0)) eqn:Edge; [done|].
  destruct (Z.eqb_spec after rn) as [->|Hne].
  - apply bind_Ok in Ht as ([l t] & Hc & [= <-]). cbn [lp_sqrt_p lp_remaining lp_tick lp_liq].
    split; [done|]. split; [lia|]. split; [lia|]. left. split; [done|]. split; [|done].
    intros ->. cbn [andb] in Edge. apply negb_false_iff, Z.eqb_eq in Edge. done.
  - destruct (Z.eqb_spec after (lp_sqrt_p st)) as [->|Hne2]; cbn [negb] in Ht.
    + injection Ht as <-. cbn [lp_sqrt_p lp_remaining lp_tick lp_liq].
      split; [done|]. split; [lia|]. split; [lia|]. right. by right.
    + apply bind_Ok in Ht as (t & Htk%ok_or_Ok & [= <-]). cbn [lp_sqrt_p lp_remaining lp_tick lp_liq].
      split; [done|]. split; [lia|]. split; [lia|]. right. by left.
Qed.




End Loop.

(** * Swaps *)



Lemma limit_of_price `{TickMathLaws} zfo : limit_of zfo = Ok (limit_price zfo).
Proof.
  destruct tick_range as (H1' & H2' & _). destruct ratio_range as [Hr1 Hr2].
  pose proof (ratio_mono MIN_TICK MAX_TICK _ _ (Z.le_refl _) H2' (Z.le_refl _) ratio_min ratio_max).
  unfold limit_of, limit_price. destruct zfo.
  - rewrite checked_add_ok; [done|]. unfold umax. lia.
  - rewrite checked_sub_ok; [done|]. lia.
Qed.


(** An instance of the crate's operations with a linear price and no fee. *)
Definition ex_ratio (t : Z) : option Z := if (-100 <=? t) && (t <=? 100) then Some (2000 + 10 * t) else None.
Definition ex_step (p target liq rem fee : Z) : option (Z * Z * Z * Z) :=
  let need := Z.abs (target - p) * Z.max 1 liq in
  if need <=? rem then Some (target, need, need, 0)
  else let moved := rem / Z.max 1 liq in
       Some (if target <=? p then p - moved else p + moved, rem, moved * Z.max 1 liq, 0).
Instance ex_math : TickMath := {|
  MIN_TICK := -100; MAX_TICK := 100; MIN_SQRT_RATIO := 1000; MAX_SQRT_RATIO := 3000;
  get_sqrt_ratio_at_tick := ex_ratio;
  get_tick_at_sqrt_ratio p := if (1000 <=? p) && (p <? 3000) then Some ((p - 2000) / 10) else None;
  compute_swap_step := ex_step; add_delta l d := Some (l + d) |}.
Instance ex_laws : TickMathLaws.
Proof.
  split; cbn [MIN_TICK MAX_TICK MIN_SQRT_RATIO MAX_SQRT_RATIO get_sqrt_ratio_at_tick get_tick_at_sqrt_ratio
    compute_swap_step add_delta ex_math]; try (vm_compute; tauto).
  - lia.
  - intros t Ht. unfold ex_ratio. rewrite (proj2 (Z.leb_le _ _)), (proj2 (Z.leb_le _ _)) by lia. eauto.
  - intros t u a b Ht Htu Hu. unfold ex_ratio. repeat case_match; try done. intros [= <-] [= <-]. lia.
  - intros p Hp. exists ((p - 2000) / 10), (2000 + 10 * ((p - 2000) / 10)), (2000 + 10 * ((p - 2000) / 10 + 1)).
    pose proof (div_rem_spec (p - 2000) 10 ltac:(lia)) as [Hq Hm]. set (t := (p - 2000) / 10) in *.
    rewrite (proj2 (Z.leb_le _ _)), (proj2 (Z.ltb_lt _ _)) by lia. unfold ex_ratio.
    rewrite !(proj2 (Z.leb_le _ _)) by lia. repeat split; lia.
  - intros p target liq rem fee after i o f Hrem. unfold ex_step. cbv zeta. set (l := Z.max 1 liq).
    assert (1 <= l) by lia. destruct (Z.leb_spec (Z.abs (target - p) * l) rem).
    + intros [= <- <- <- <-]. split_and!; (lia || nia).
    + pose proof (div_rem_spec rem l ltac:(lia)) as [Hq Hm].
      set (q := rem / l) in *. assert (0 <= q < Z.abs (target - p)) by nia.
      destruct (Z.leb_spec target p); intros [= <- <- <- <-]; split_and!; (lia || nia).
  - by intros l d r [= <-].
Qed.

Definition ex_pool (window : option (Z * Z)) : V3State :=
  mkV3 0 2004 0 5 3000 10 [mkTick (-20) 3 3; mkTick 0 2 2; mkTick 20 (-5) 5] None window.
Lemma ex_pool_grid w : grid_ok (ex_pool w).
Proof.
  split; cbn; [lia| | |]; repeat constructor; try (unfold before; cbn; lia); try (cbn; lia).
  - by exists (-2).
  - by exists 0.
  - by exists 2.
Qed.


(** * The upper edge of the known window *)

(** A swap that must raise the price lowers it at the top of the known window: when the
    price stands inside the last known tick, [bounded_next_tick] answers that very tick, so
    the step is aimed below the price; a quote for selling token 1 then comes from a step in
    the other direction, and the price written back is not above the one it started from. *)
Theorem upper_edge_swap_goes_down `{TickMathLaws} (s : V3State) (lo hi a amount_in : Z) (r : V3SwapResult) :
  grid_ok s -> v3_window s = Some (lo, hi) -> lo <= hi -> v3_tick s = hi -> MIN_TICK <= hi < MAX_TICK ->
  get_sqrt_ratio_at_tick hi = Some a -> a < v3_sqrt_price_x96 s -> v3_sqrt_price_x96 s < MAX_SQRT_RATIO - 1 ->
  0 < amount_in -> v3_swap s false amount_in = Some (Ok r) ->
  a <= sw_sqrt_price_x96 r <= v3_sqrt_price_x96 s.
Proof.
  intros Hg Hw Hlo Ht Htr Ha Hap Hpm Hin. unfold v3_swap. destruct (Z.eqb_spec (v3_sqrt_price_x96 s) 0); [done|].
  rewrite limit_of_price. destruct (checked_i 256 amount_in) as [rem|] eqn:Er; [|done].
  apply checked_i_Some in Er as [-> _]. set (st := mkLoop _ _ _ _ _).
  assert (bounded_next_tick s (v3_tick s) false = Some (hi, false, true)) as Hb.
  { unfold bounded_next_tick. destruct (next_tick_within_word _ _ _ false) as [n1 i] eqn:En. rewrite Ht in En.
    destruct (next_above s Hg hi Htr n1 i En) as (Hlt & _). rewrite Hw, Ht, Z.ltb_irrefl.
    rewrite (proj2 (Z.ltb_ge hi lo)) by lia. cbn [orb andb negb]. rewrite (proj2 (Z.ltb_lt _ _)); [done|].
    unfold clamp. lia. }
  destruct turns as [|fuel] eqn:Ef; [unfold turns in Ef; lia|]. cbn [swap_loop].
  destruct (Z.eqb_spec (lp_remaining st) 0); [unfold st in *; cbn in *; lia|].
  destruct (Z.eqb_spec (lp_sqrt_p st) (limit_price false)); [unfold st, limit_price in *; cbn in *; lia|].
  cbn [negb andb]. destruct (swap_turn s false (limit_price false) st) as [st'|] eqn:Es; [|done].
  destruct (turn_parts s false _ st st' ltac:(unfold st; cbn; lia) Es) as (n' & i & e & rn & Hb' & Hrn & Hp).
  cbn [st lp_tick] in Hb'. rewrite Hb in Hb'. injection Hb' as <- <- <-. rewrite Ha in Hrn. injection Hrn as <-.
  destruct Hp as (Hbet & _ & Hne & Hcase). unfold target_of, limit_price in *. cbn [andb negb orb] in *.
  rewrite (proj2 (Z.ltb_ge (MAX_SQRT_RATIO - 1) a)) in Hbet, Hne by lia. cbn [st lp_sqrt_p] in Hbet.
  assert (lp_remaining st' = 0) as Hr0.
  { destruct Hcase as [(_ & Hz & _)|[(Hd & _)|(Hd & _)]]; [by apply Hz|by apply Hne..]. }
  destruct fuel; cbn [swap_loop]; rewrite Hr0, Z.eqb_refl; cbn [negb andb]; rewrite Hr0, Z.eqb_refl;
    cbn [negb]; intros E; injection E as <-; cbn [sw_sqrt_price_x96]; lia.
Qed.

Lemma upper_edge_swap_goes_down_witness :
  v3_swap (ex_pool (Some (-100, 0))) false 12 = Some (Ok (mkSwap 10 2002 0 5)) /\ 2000 <= 2002 <= 2004.
Proof.
  split; [vm_compute; reflexivity|].
  apply (upper_edge_swap_goes_down (ex_pool (Some (-100, 0))) (-100) 0 2000 12 (mkSwap 10 2002 0 5)
    (ex_pool_grid _)); cbn; (reflexivity || lia).
Defined.

(** * Positions

    The specification of the tick list: how much liquidity the open positions put at each tick
    as their lower end and as their upper end. *)

Record Ends := mkEnds { en_lower : Z -> Z; en_upper : Z -> Z }.

Definition bump (f : Z -> Z) (t d : Z) : Z -> Z := fun u => if u =? t then f u + d else f u.
Definition spec_modify (p : Ends) (lower upper amount : Z) (mint : bool) : Ends :=
  if upper <=? lower then p else
  let d := if mint then amount else - amount in
  mkEnds (bump (en_lower p) lower d) (bump (en_upper p) upper d).

Definition net_at (ts : list Tick) (u : Z) : Z := zsum (fun t => if tk_tick t =? u then tk_net t else 0) ts.
Definition gross_at (ts : list Tick) (u : Z) : Z := zsum (fun t => if tk_tick t =? u then tk_gross t else 0) ts.

(** The list holds exactly the ticks some position ends at, with the positions' net and gross. *)
Record ticks_rep (ts : list Tick) (p : Ends) : Prop := {
  rp_sorted : StronglySorted before ts;
  rp_gross : Forall (fun t => 0 < tk_gross t) ts;
  rp_nonneg : forall u, 0 <= en_lower p u /\ 0 <= en_upper p u;
  rp_net : forall u, net_at ts u = en_lower p u - en_upper p u;
  rp_total : forall u, gross_at ts u = en_lower p u + en_upper p u }.

(** The list around a tick: what is below it, itself if it is there, and what is above. *)
Lemma around ts t :
  StronglySorted before ts ->
  exists l r, Forall (fun x => tk_tick x < t) l /\ Forall (fun x => t < tk_tick x) r /\
    partition_point (fun x => tk_tick x <? t) ts = length l /\
    (ts = l ++ r \/ exists x, tk_tick x = t /\ ts = l ++ x :: r).
Proof.
  induction 1 as [|x ts Hs IH Hall]; [exists [], []; split_and!; [constructor..|done|by left]|]. simpl.
  destruct (Z.ltb_spec (tk_tick x) t) as [Hlt|Hge].
  - destruct IH as (l & r & Hl & Hr & Hp & Hc). exists (x :: l), r. split; [by constructor|]. split; [done|].
    split; [by rewrite Hp|]. destruct Hc as [->|(y & Hy & ->)]; [by left|right; eauto].
  - assert (Forall (fun y => tk_tick x < tk_tick y) ts) as Hab by exact Hall.
    destruct (decide (tk_tick x = t)) as [Heq|Hne].
    + exists [], ts. split; [constructor|]. split; [by rewrite <- Heq|]. split; [done|right; eauto].
    + exists [], (x :: ts). split; [constructor|]. split; [|split; [done|by left]].
      constructor; [lia|]. eapply Forall_impl; [exact Hab|]. cbn. lia.
Qed.

Lemma sorted_around l r x :
  Forall (fun y => tk_tick y < tk_tick x) l -> Forall (fun y => tk_tick x < tk_tick y) r ->
  StronglySorted before (l ++ r) -> StronglySorted before (l ++ x :: r).
Proof.
  intros Hl Hr Hs. induction l as [|y l IH]; simpl in *; [by constructor|].
  inversion Hl; subst. inversion Hs as [|? ? Hs' Hall]; subst. constructor; [by apply IH|].
  rewrite Forall_app in Hall. destruct Hall. apply Forall_app. split; [done|]. by constructor.
Qed.

Lemma sorted_without l r x : StronglySorted before (l ++ x :: r) -> StronglySorted before (l ++ r).
Proof.
  induction l as [|y l IH]; simpl; intros Hs; inversion Hs as [|? ? Hs' Hall]; subst; [done|].
  constructor; [by apply IH|]. rewrite Forall_app, Forall_cons in Hall. apply Forall_app. tauto.
Qed.

(** One end of a position: the tick's net and gross move by the given amounts, no other does. *)
Definition moved (ts ts' : list Tick) (t dn dg : Z) : Prop :=
  StronglySorted before ts' /\ Forall (fun x => 0 < tk_gross x) ts' /\
  (forall u, net_at ts' u = net_at ts u + (if u =? t then dn else 0)) /\
  (forall u, gross_at ts' u = gross_at ts u + (if u =? t then dg else 0)) /\
  (forall u, active ts' u = active ts u + (if t <=? u then dn else 0)) /\
  (forall P : Z -> Prop, P t -> Forall (fun x => P (tk_tick x)) ts -> Forall (fun x => P (tk_tick x)) ts').

(** Replacing what stands at [t] between the ticks below and above it. *)
Lemma moved_middle l m m' r t dn dg :
  Forall (fun x => tk_tick x = t) m -> Forall (fun x => tk_tick x = t) m' ->
  StronglySorted before (l ++ m' ++ r) -> Forall (fun x => 0 < tk_gross x) (l ++ m' ++ r) ->
  zsum tk_net m' = zsum tk_net m + dn -> zsum tk_gross m' = zsum tk_gross m + dg ->
  moved (l ++ m ++ r) (l ++ m' ++ r) t dn dg.
Proof.
  intros Hm Hm' Hs Hg Hn Hgr.
  assert (forall (c : Z -> bool) (g : Tick -> Z) k, Forall (fun x => tk_tick x = t) k ->
    zsum (fun x => if c (tk_tick x) then g x else 0) k = if c t then zsum g k else 0) as Hsum.
  { intros c g k. induction 1 as [|x k Hx _ IH]; [by destruct (c t)|].
    unfold zsum in *. simpl. rewrite IH, Hx. by destruct (c t). }
  split; [done|]. split; [done|]. unfold net_at, gross_at, active.
  split; [|split; [|split]].
  - intros u. rewrite !zsum_app, (Hsum (fun z => z =? u) _ m Hm), (Hsum (fun z => z =? u) _ m' Hm'), Hn.
    rewrite (Z.eqb_sym t u). destruct (u =? t); lia.
  - intros u. rewrite !zsum_app, (Hsum (fun z => z =? u) _ m Hm), (Hsum (fun z => z =? u) _ m' Hm'), Hgr.
    rewrite (Z.eqb_sym t u). destruct (u =? t); lia.
  - intros u. rewrite !zsum_app, (Hsum (fun z => z <=? u) _ m Hm), (Hsum (fun z => z <=? u) _ m' Hm'), Hn.
    destruct (t <=? u); lia.
  - intros P Pt. rewrite !Forall_app. intros (? & _ & ?). split; [done|]. split; [|done].
    eapply Forall_impl; [exact Hm'|]. by cbn; intros x ->.
Qed.

Lemma at_middle l x r (g : Tick -> Z) t :
  Forall (fun y => tk_tick y < t) l -> Forall (fun y => t < tk_tick y) r -> tk_tick x = t ->
  zsum (fun y => if tk_tick y =? t then g y else 0) (l ++ x :: r) = g x.
Proof.
  intros Hl Hr Hx. change (x :: r) with ([x] ++ r).
  rewrite !zsum_app, (zsum_zero _ l), (zsum_zero _ r); [cbn; rewrite Hx, Z.eqb_refl; lia| |]; (eapply Forall_impl; [eassumption|]); cbn; intros y Hy;
    destruct (Z.eqb_spec (tk_tick y) t); lia.
Qed.

Lemma apply_tick_moved ts t signed amount (mint : bool) ts' :
  StronglySorted before ts -> Forall (fun x => 0 < tk_gross x) ts -> 0 < amount ->
  (gross_at ts t + (if mint then amount else - amount) = 0 -> net_at ts t + signed = 0) ->
  apply_tick ts t signed amount mint = Some ts' ->
  moved ts ts' t signed (if mint then amount else - amount).
Proof.
  intros Hs Hgr Ham Hz. unfold apply_tick. cbv zeta.
  destruct (around ts t Hs) as (l & r & Hl & Hr & Hp & Hc). rewrite Hp. destruct Hc as [->|(x & Hx & ->)].
  - rewrite lookup_app_r, Nat.sub_diag by done.
    assert ((match r !! 0%nat with Some x => if tk_tick x =? t then Some x else None | None => None end) = None) as ->.
    { destruct r as [|y r]; [done|]. inversion Hr as [|? ? Hy _]; subst. simpl.
      destruct (Z.eqb_spec (tk_tick y) t); [lia|done]. }
    destruct mint; [|done]. rewrite take_app_length, drop_app_length. intros [= <-].
    apply (moved_middle l [] [mkTick t signed amount] r); [constructor|by repeat constructor| | |cbn; lia..].
    + by apply sorted_around.
    + rewrite Forall_app in *. destruct Hgr. split; [done|]. by constructor.
  - rewrite lookup_app_r, Nat.sub_diag by done. cbn [lookup list_lookup]. rewrite Hx, Z.eqb_refl.
    destruct (checked_i 128 (tk_net x + signed)) as [net|] eqn:En; [|done]. apply checked_i_Some in En as [-> _].
    unfold gross_at, net_at in Hz. rewrite !(at_middle l x r _ t Hl Hr Hx) in Hz.
    rewrite Forall_app, Forall_cons in Hgr. destruct Hgr as (Hgl & Hgx & Hgrr).
    destruct (if mint then checked_add 128 (tk_gross x) amount else checked_sub (tk_gross x) amount)
      as [gross|] eqn:Eg; [|done].
    assert (gross = tk_gross x + (if mint then amount else - amount) /\ 0 <= gross) as [Hg Hg0]
      by (destruct mint; [apply checked_add_Some in Eg|apply checked_sub_Some in Eg]; destruct Eg; lia).
    destruct (Z.eqb_spec gross 0) as [Hg1|Hg1]; intros [= <-].
    + specialize (Hz ltac:(lia)). rewrite take_app_length.
      replace (S (length l)) with (length l + 1)%nat by lia. rewrite drop_app_add. cbn [drop].
      apply (moved_middle l [x] [] r); [by repeat constructor|constructor| | |cbn; lia..].
      * by eapply sorted_without.
      * by apply Forall_app.
    + rewrite insert_app_r_alt, Nat.sub_diag by done. cbn [insert list_insert].
      rewrite Hx. apply (moved_middle l [x] [mkTick t (tk_net x + signed) gross] r);
        [by repeat constructor|by repeat constructor| | |cbn; lia..].
      * apply sorted_around; [done..|by eapply sorted_without].
      * apply Forall_app. split; [done|]. constructor; [cbn; lia|done].
Qed.

(** What the contract allows: a burn takes no more than its position's ends hold, and both ends
    are on the grid and in range. *)
Definition legal `{TickMath} (s : V3State) (p : Ends) (lower upper amount : Z) (mint : bool) : Prop :=
  0 <= amount /\ (v3_tick_spacing s | lower) /\ (v3_tick_spacing s | upper) /\
  MIN_TICK <= lower <= MAX_TICK /\ MIN_TICK <= upper <= MAX_TICK /\
  (mint = false -> amount <= en_lower p lower /\ amount <= en_upper p upper).

(** The pool represents the positions. *)
Definition pool_rep `{TickMath} (s : V3State) (p : Ends) : Prop :=
  ticks_rep (v3_ticks s) p /\ grid_ok s /\ v3_liquidity s = active (v3_ticks s) (v3_tick s).

Lemma signed_delta_at a (pos mint : bool) :
  signed_delta a pos mint = (if pos then 1 else -1) * (if mint then a else - a).
Proof. unfold signed_delta. destruct pos, mint; lia. Qed.

(** One end of a legal event on a represented list. *)
Lemma lower_rep ts p t amount mint ts' :
  ticks_rep ts p -> 0 < amount -> (mint = false -> amount <= en_lower p t) ->
  apply_tick ts t (signed_delta amount true mint) amount mint = Some ts' ->
  ticks_rep ts' (mkEnds (bump (en_lower p) t (if mint then amount else - amount)) (en_upper p)) /\
  moved ts ts' t (signed_delta amount true mint) (if mint then amount else - amount).
Proof.
  intros [Hs Hg Hnn Hn Ht] Ha Hburn Hap. pose proof (Hnn t) as [Hl0 Hu0].
  assert (0 <= en_lower p t + (if mint then amount else - amount)) as Hpos by (destruct mint; [lia|specialize (Hburn eq_refl); lia]).
  apply apply_tick_moved in Hap as Hmv; [|done..|rewrite signed_delta_at, Hn, Ht; lia].
  split; [|done]. destruct Hmv as (Hs' & Hg' & Hn' & Ht' & _). split; [done|done| | |]; intros u; cbn; unfold bump.
  - destruct (Z.eqb_spec u t) as [->|]; [lia|apply Hnn].
  - rewrite Hn', Hn, signed_delta_at. destruct (u =? t); lia.
  - rewrite Ht', Ht. destruct (u =? t); lia.
Qed.

Lemma upper_rep ts p t amount mint ts' :
  ticks_rep ts p -> 0 < amount -> (mint = false -> amount <= en_upper p t) ->
  apply_tick ts t (signed_delta amount false mint) amount mint = Some ts' ->
  ticks_rep ts' (mkEnds (en_lower p) (bump (en_upper p) t (if mint then amount else - amount))) /\
  moved ts ts' t (signed_delta amount false mint) (if mint then amount else - amount).
Proof.
  intros [Hs Hg Hnn Hn Ht] Ha Hburn Hap. pose proof (Hnn t) as [Hl0 Hu0].
  assert (0 <= en_upper p t + (if mint then amount else - amount)) as Hpos by (destruct mint; [lia|specialize (Hburn eq_refl); lia]).
  apply apply_tick_moved in Hap as Hmv; [|done..|rewrite signed_delta_at, Hn, Ht; lia].
  split; [|done]. destruct Hmv as (Hs' & Hg' & Hn' & Ht' & _). split; [done|done| | |]; intros u; cbn; unfold bump.
  - destruct (Z.eqb_spec u t) as [->|]; [lia|apply Hnn].
  - rewrite Hn', Hn, signed_delta_at. destruct (u =? t); lia.
  - rewrite Ht', Ht. destruct (u =? t); lia.
Qed.

Lemma ticks_rep_ext ts p p' :
  (forall u, en_lower p' u = en_lower p u /\ en_upper p' u = en_upper p u) -> ticks_rep ts p -> ticks_rep ts p'.
Proof.
  intros He [Hs Hg Hnn Hn Ht]. split; [done|done| | |]; intros u; destruct (He u) as [-> ->]; [apply Hnn|apply Hn|apply Ht].
Qed.

Lemma modify_rep `{TickMath} s p lower upper amount mint :
  pool_rep s p -> legal s p lower upper amount mint ->
  v3_sqrt_price_x96 (v3_modify s lower upper amount mint) = 0 \/
  pool_rep (v3_modify s lower upper amount mint) (spec_modify p lower upper amount mint).
Proof.
  intros (Hr & Hg & Hl) (Ha & Hdl & Hdu & Hml & Hmu & Hburn). unfold v3_modify, spec_modify.
  destruct (Z.leb_spec upper lower) as [|Hlt]; [rewrite orb_true_r; by right|]. rewrite orb_false_r. cbv zeta.
  destruct (Z.eqb_spec amount 0) as [->|Hne].
  { right. split; [|done]. eapply ticks_rep_ext; [|exact Hr]. intros u. cbn. unfold bump.
    destruct mint, (u =? lower), (u =? upper); lia. }
  destruct (checked_i 128 amount) as [delta|] eqn:Ed; [|by left]. apply checked_i_Some in Ed as [-> _].
  destruct (apply_tick (v3_ticks s) lower _ amount mint) as [ts1|] eqn:E1; [|by left].
  destruct (lower_rep _ p lower amount mint _ Hr ltac:(lia) ltac:(intros Hm; by apply Hburn) E1) as [Hr1 Hm1].
  destruct (apply_tick ts1 upper _ amount mint) as [ts2|] eqn:E2; [|by left].
  destruct (upper_rep _ _ upper amount mint _ Hr1 ltac:(lia) ltac:(intros Hm; by apply Hburn) E2) as [Hr2 Hm2].
  destruct Hm1 as (_ & _ & _ & _ & Ha1 & Hf1). destruct Hm2 as (Hs2 & _ & _ & _ & Ha2 & Hf2).
  assert (forall l, grid_ok (set_liquidity (set_ticks s ts2) l)) as Hg2.
  { destruct Hg as [G1 G2 G3 G4]. intros l. split; cbn; [done|done| |].
    - by apply (Hf2 (fun z => (v3_tick_spacing s | z))), (Hf1 (fun z => (v3_tick_spacing s | z))).
    - by apply (Hf2 (fun z => MIN_TICK <= z <= MAX_TICK)), (Hf1 (fun z => MIN_TICK <= z <= MAX_TICK)). }
  assert (active ts2 (v3_tick s) = v3_liquidity s +
    (if (lower <=? v3_tick s) && (v3_tick s <? upper) then (if mint then amount else - amount) else 0)) as Hact.
  { rewrite Ha2, Ha1, Hl, !signed_delta_at.
    destruct (Z.leb_spec lower (v3_tick s)), (Z.leb_spec upper (v3_tick s)), (Z.ltb_spec (v3_tick s) upper);
      cbn [andb]; lia. }
  cbn [v3_tick v3_liquidity set_ticks]. destruct (_ && _).
  - destruct (if mint then checked_add 128 (v3_liquidity s) amount else checked_sub (v3_liquidity s) amount)
      as [l|] eqn:El; [|by left].
    right. split; [done|]. split; [apply Hg2|].
    cbn [v3_liquidity v3_ticks v3_tick set_liquidity set_ticks]. rewrite Hact.
    destruct mint; [apply checked_add_Some in El|apply checked_sub_Some in El]; destruct El; lia.
  - right. split; [done|]. split; [destruct (Hg2 0) as [G1 G2 G3 G4]; by split|].
    cbn [v3_liquidity v3_ticks v3_tick set_liquidity set_ticks]. lia.
Qed.

(** A run of mints and burns on the pool and on the positions. *)
Abbreviation Modify := (Z * Z * Z * bool)%type.
Definition pool_step (s : V3State) (e : Modify) : V3State :=
  let '(lower, upper, amount, mint) := e in v3_modify s lower upper amount mint.
Definition spec_step (p : Ends) (e : Modify) : Ends :=
  let '(lower, upper, amount, mint) := e in spec_modify p lower upper amount mint.
Fixpoint legal_run `{TickMath} (s : V3State) (p : Ends) (evs : list Modify) : Prop :=
  match evs with
  | [] => True
  | (lower, upper, amount, mint) :: evs =>
      legal s p lower upper amount mint /\
      legal_run s (spec_modify p lower upper amount mint) evs
  end.

Lemma modify_keeps s lower upper amount mint :
  v3_tick_spacing (v3_modify s lower upper amount mint) = v3_tick_spacing s /\
  (v3_sqrt_price_x96 s = 0 -> v3_sqrt_price_x96 (v3_modify s lower upper amount mint) = 0).
Proof. unfold v3_modify. cbv zeta. repeat case_match; done. Qed.

Lemma legal_run_spacing `{TickMath} evs : forall s s' p,
  v3_tick_spacing s' = v3_tick_spacing s -> legal_run s p evs -> legal_run s' p evs.
Proof.
  induction evs as [|[[[lo up] a] m] evs IH]; intros s s' p He; [done|]. simpl. unfold legal. rewrite He.
  intros [Hl Hr]. split; [done|]. by eapply IH.
Qed.

(** C23. The folded tick list follows the positions: over any run of mints and burns the contract
    allows, either the fold gave up and the pool is out of use, or the list holds exactly the
    ticks some open position ends at, in order, with their net and gross liquidity, and the
    liquidity in range is the sum of the nets at or below the current tick. *)
Theorem ticks_follow_positions `{TickMath} (s : V3State) (p : Ends) (evs : list Modify) :
  pool_rep s p -> legal_run s p evs ->
  let s' := fold_left pool_step evs s in
  v3_sqrt_price_x96 s' = 0 \/ pool_rep s' (fold_left spec_step evs p).
Proof.
  cbv zeta. revert s p. induction evs as [|[[[lo up] a] m] evs IH]; intros s p Hr Hl; [by right|].
  destruct Hl as [Hl Hrun]. cbn [fold_left pool_step spec_step].
  destruct (modify_keeps s lo up a m) as [Hsp _].
  destruct (modify_rep s p lo up a m Hr Hl) as [H0|Hr'].
  - left. clear -H0. revert H0. generalize (v3_modify s lo up a m).
    induction evs as [|[[[lo' up'] a'] m'] evs IH]; intros s' H0; [done|]. cbn [fold_left pool_step].
    apply IH. by apply modify_keeps.
  - apply IH; [done|]. by eapply legal_run_spacing.
Qed.

Definition ex_events : list Modify := [(-20, 20, 3, true); (0, 20, 4, true); (0, 20, 2, false)].
Lemma ticks_follow_positions_witness :
  v3_ticks (fold_left pool_step ex_events (mkV3 0 2004 0 0 3000 10 [] None None)) = v3_ticks (ex_pool None) /\
  pool_rep (fold_left pool_step ex_events (mkV3 0 2004 0 0 3000 10 [] None None))
    (fold_left spec_step ex_events (mkEnds (fun _ => 0) (fun _ => 0))).
Proof.
  split; [vm_compute; reflexivity|].
  destruct (ticks_follow_positions (mkV3 0 2004 0 0 3000 10 [] None None) (mkEnds (fun _ => 0) (fun _ => 0)) ex_events)
    as [H0|Hr]; [| |vm_compute in H0; discriminate H0|exact Hr].
  - split; [split; try constructor; done|]. split; [|done].
    split; cbn; [lia|constructor..].
  - repeat split; try (cbn; lia); try (vm_compute; discriminate).
    all: first [by exists (-2) | by exists 0 | by exists 2].
Defined.

(** A refused burn does not keep the pool out of use: a burn whose lower tick is not in the
    list (it lies outside the part of the tick map that was read) zeroes the price and leaves
    the upper tick as it was; the next [Swap] log writes the price back, and the pool is
    quoted again on that list. *)
Theorem swap_log_revives_refused_pool (s : V3State) (lower upper amount price liquidity tick : Z) :
  Forall (fun t => tk_tick t <> lower) (v3_ticks s) ->
  0 < amount -> lower < upper -> price <> 0 ->
  let s1 := fst (fold_v3 s (LogBurn (Some (lower, upper, amount)))) in
  let s2 := fst (fold_v3 s1 (LogSwap (Some (price, liquidity, tick)))) in
  v3_is_live s1 = false /\ v3_is_live s2 = true /\ v3_ticks s2 = v3_ticks s.
Proof.
  intros Hno Ha Hlt Hp. cbv zeta.
  assert (fst (fold_v3 s (LogBurn (Some (lower, upper, amount)))) = set_price s 0) as ->.
  { cbn. unfold v3_modify. rewrite (proj2 (Z.eqb_neq amount 0)), (proj2 (Z.leb_gt upper lower)) by lia. cbn [orb].
    destruct (checked_i 128 amount); [|done]. unfold apply_tick. cbv zeta.
    destruct (v3_ticks s !! _) as [t|] eqn:Et; [|done].
    destruct (Z.eqb_spec (tk_tick t) lower) as [He|]; [|done].
    exfalso. exact (Forall_lookup_1 _ _ _ _ Hno Et He). }
  split; [done|]. split; [|done]. unfold v3_is_live. cbn. by destruct (Z.eqb_spec price 0).
Qed.

Lemma swap_log_revives_refused_pool_witness :
  let s1 := fst (fold_v3 (ex_pool None) (LogBurn (Some (-90, 20, 5)))) in
  let s2 := fst (fold_v3 s1 (LogSwap (Some (2100, 5, 10)))) in
  v3_is_live s1 = false /\ v3_is_live s2 = true /\ v3_ticks s2 = v3_ticks (ex_pool None).
Proof.
  apply (swap_log_revives_refused_pool (ex_pool None) (-90) 20 5 2100 5 10); try lia.
  repeat constructor; discriminate.
Defined.
