(* ===== verification/RouterLog.v ===== *)
(** * Logarithms of the router

    [liq-router/src/graph.rs]: [log2_q32], a base two logarithm in Q32, and the rate of a
    [ρ]. The search of routes compares products of rates as sums of these logarithms; what it
    needs from them is how far they are from the true ones. The true logarithm is that of the
    real numbers. *)

From Stdlib Require Import Reals Lra.
From S2P Require Import Prelude RouterFees.
Local Open Scope Z_scope.

(** ** The source *)

Definition ULP : Z := 1.
Definition EDGE_MARGIN : Z := 8 * ULP.
Definition Q96_LOG : Z := Z.shiftl 96 32.

(** A signed word that lost its high bits ([i64::wrapping_shl], [checked_shl]). *)
Definition i64_wrap (x : Z) : Z := (x + 2 ^ 63) mod 2 ^ 64 - 2 ^ 63.

(** [U256::leading_zeros] of a nonzero word. *)
Definition leading_zeros (x : Z) : Z := 255 - Z.log2 x.

(** One turn of the loop: square the mantissa, take its next bit. *)
Definition log_turn (m frac : Z) : option (Z * Z) :=
  let! sq := checked_mul 128 m m in
  let m := Z.shiftr sq 63 in
  let frac := i64_wrap (Z.shiftl frac 1) in
  Some (if Z.shiftl 1 64 <=? m then (Z.shiftr m 1, Z.lor frac 1) else (m, frac)).

Fixpoint log_turns (n : nat) (m frac : Z) : option (Z * Z) :=
  match n with
  | O => Some (m, frac)
  | S n => let! (m, frac) := log_turn m frac in log_turns n m frac
  end.

Definition log2_q32 (x : Z) : option Z :=
  if x =? 0 then None else
  let! msb := checked_sub 255 (leading_zeros x) in
  let! m :=
    if 63 <=? msb then let! s := checked_sub msb 63 in try_from 128 (Z.shiftr x s)
    else let! s := checked_sub 63 msb in try_from 128 (Z.shiftl x s mod 2 ^ 256) in
  let! (_, frac) := log_turns 32 m 0 in
  let! int := checked_i 64 msb in
  checked_i 64 (i64_wrap (Z.shiftl int 32) + frac).

Definition rate_of_rho (rho : Z) : option Z :=
  let! l := log2_q32 rho in
  let! d := checked_i 64 (l - Q96_LOG) in
  let! d := checked_i 64 (d * 2) in
  checked_i 64 (d + EDGE_MARGIN).

Example log2_q32_three : log2_q32 3 = Some 6807362105.
Proof. vm_compute. reflexivity. Qed.

(** ** The true logarithm *)

(** [l2] is the logarithm in base two, [lg] the one in units of [2^-32]. *)
Definition l2 (x : R) : R := (ln x / ln 2)%R.
Definition lg (x : Z) : R := (4294967296 * l2 (IZR x))%R.

Section True.
Local Open Scope R_scope.

Lemma ln2_pos : 1 / 2 < ln 2.
Proof. pose proof ln_lt_2. lra. Qed.

Lemma l2_mult a b : 0 < a -> 0 < b -> l2 (a * b) = l2 a + l2 b.
Proof. intros. unfold l2. rewrite ln_mult by done. pose proof ln2_pos. field. lra. Qed.

Lemma l2_le a b : 0 < a -> a <= b -> l2 a <= l2 b.
Proof.
  intros Ha Hab. pose proof ln2_pos. unfold l2. apply Rmult_le_compat_r.
  - left. apply Rinv_0_lt_compat. lra.
  - destruct Hab as [Hab| ->]; [left; by apply ln_increasing|right; done].
Qed.

Lemma l2_lt a b : 0 < a -> a < b -> l2 a < l2 b.
Proof.
  intros Ha Hab. pose proof ln2_pos. unfold l2. apply Rmult_lt_compat_r.
  - apply Rinv_0_lt_compat. lra.
  - by apply ln_increasing.
Qed.

Lemma l2_near y : 0 <= y -> l2 (1 + y) <= 2 * y.
Proof.
  intros Hy. pose proof ln2_pos. unfold l2. apply Rmult_le_reg_r with (ln 2); [lra|].
  unfold Rdiv. rewrite Rmult_assoc, Rinv_l, Rmult_1_r by lra.
  assert (ln (1 + y) <= y); [|nra].
  destruct Hy as [Hy| <-]; [|rewrite Rplus_0_r, ln_1; lra].
  left. rewrite <- (ln_exp y) at 2. apply ln_increasing; [lra|]. apply exp_ineq1. lra.
Qed.

Lemma l2_pow2 (n : nat) : l2 (IZR (2 ^ Z.of_nat n)) = INR n.
Proof.
  pose proof ln2_pos. rewrite <- (pow_IZR 2 n). unfold l2.
  rewrite ln_pow by lra. field. lra.
Qed.

Lemma l2_pow2_Z n : (0 <= n)%Z -> l2 (IZR (2 ^ n)) = IZR n.
Proof.
  intros Hn. rewrite <- (Z2Nat.id n) by done. rewrite l2_pow2. by rewrite INR_IZR_INZ.
Qed.

(** A quotient that was rounded down: what is lost is at most twice its inverse. *)
Lemma l2_floor a b c : 0 < b -> b <= a -> a <= b + c -> 0 < c -> 0 <= l2 a - l2 b <= 2 * (c / b).
Proof.
  intros Hb Hba Ha Hc. split; [pose proof (l2_le b a Hb Hba); lra|].
  assert (0 < c / b) by (apply Rdiv_lt_0_compat; lra).
  pose proof (l2_near (c / b)) as Hn.
  assert (l2 a <= l2 (b * (1 + c / b))) as Ha'.
  { apply l2_le; [lra|]. field_simplify; lra. }
  rewrite l2_mult in Ha' by lra. lra.
Qed.

End True.

(** ** The loop *)

Definition mantissa (m : Z) : Prop := 2 ^ 63 <= m < 2 ^ 64.

Lemma i64_wrap_id x : - 2 ^ 63 <= x < 2 ^ 63 -> i64_wrap x = x.
Proof. intros. unfold i64_wrap. rewrite Z.mod_small; lia. Qed.

Lemma log_turn_spec m f : mantissa m -> 0 <= f < 2 ^ 62 ->
  exists m' b, log_turn m f = Some (m', 2 * f + b) /\ (b = 0 \/ b = 1) /\ mantissa m' /\
    2 ^ (63 + b) * m' <= m * m < 2 ^ (63 + b) * (m' + 2).
Proof.
  intros [Hm1 Hm2] Hf. unfold log_turn, checked_mul.
  assert (2 ^ 63 * 2 ^ 63 <= m * m < 2 ^ 64 * 2 ^ 64) as Hsq by nia.
  change (2 ^ 64 * 2 ^ 64) with (2 ^ 128) in Hsq.
  rewrite (proj2 (Z.leb_le _ _)) by (unfold umax; lia).
  rewrite (Z.shiftl_mul_pow2 f), (Z.shiftr_div_pow2 (m * m)), Z.shiftl_1_l by lia.
  rewrite i64_wrap_id by lia. change (2 ^ 1) with 2.
  pose proof (Z.div_mod (m * m) (2 ^ 63) ltac:(lia)) as Hd.
  pose proof (Z.mod_pos_bound (m * m) (2 ^ 63) ltac:(lia)) as Hr.
  set (q := m * m / 2 ^ 63) in *.
  destruct (Z.leb_spec (2 ^ 64) q) as [Hq|Hq].
  - exists (q / 2), 1. rewrite Z.shiftr_div_pow2 by lia. change (2 ^ 1) with 2.
    pose proof (Z.div_mod q 2 ltac:(lia)). pose proof (Z.mod_pos_bound q 2 ltac:(lia)).
    split_and!; [|lia|unfold mantissa; lia|..].
    + do 2 f_equal. rewrite Z.mul_comm. rewrite <- (Z.add_lor_land (2 * f) 1).
      assert (Z.land (2 * f) 1 = 0) as ->; [|lia].
      apply Z.bits_inj'. intros n Hn. rewrite Z.land_spec, Z.bits_0.
      destruct (decide (n = 0)) as [->|]; [by rewrite Z.testbit_even_0|].
      rewrite (Z.testbit_odd 1), Z.shiftr_div_pow2 by lia.
      rewrite Z.div_small; [by rewrite andb_false_r|].
      split; [lia|]. apply Z.pow_gt_1; lia.
    + change (2 ^ (63 + 1)) with (2 ^ 63 * 2). lia.
    + change (2 ^ (63 + 1)) with (2 ^ 63 * 2). lia.
  - exists q, 0. rewrite Z.add_0_r, Z.mul_comm, Z.add_0_r.
    split_and!; [done|lia|unfold mantissa; lia|lia|lia].
Qed.

Section Accuracy.
Local Open Scope R_scope.

Lemma mantissa_l2 m : mantissa m -> 63 <= l2 (IZR m) < 64.
Proof.
  intros [H1 H2]. rewrite <- (l2_pow2_Z 63), <- (l2_pow2_Z 64) by lia.
  split; [apply l2_le; [apply IZR_lt; lia|by apply IZR_le]|apply l2_lt; apply IZR_lt; lia].
Qed.

Lemma log_turn_real m m' b : mantissa m -> mantissa m' -> (b = 0 \/ b = 1)%Z ->
  (2 ^ (63 + b) * m' <= m * m < 2 ^ (63 + b) * (m' + 2))%Z ->
  0 <= 2 * l2 (IZR m) - 63 - IZR b - l2 (IZR m') <= 4 / 9223372036854775808.
Proof.
  intros [Hm _] [Hm' _] Hb [H1 H2].
  set (p := (2 ^ (63 + b))%Z) in *. assert (0 < p)%Z as Hp by (apply Z.pow_pos_nonneg; lia).
  assert (l2 (IZR p) = 63 + IZR b) as Hlp.
  { unfold p. rewrite l2_pow2_Z by lia. by rewrite plus_IZR. }
  apply IZR_lt in Hp. apply IZR_le in H1, Hm, Hm'. apply IZR_lt in H2.
  rewrite !mult_IZR, ?plus_IZR in *.
  change (IZR (2 ^ 63)) with 9223372036854775808 in *.
  pose proof (l2_floor (IZR m * IZR m) (IZR p * IZR m') (IZR p * 2)
    ltac:(nra) ltac:(lra) ltac:(lra) ltac:(lra)) as Hf.
  rewrite !l2_mult in Hf by lra.
  replace (IZR p * 2 / (IZR p * IZR m')) with (2 / IZR m') in Hf by (field; lra).
  assert (2 / IZR m' <= 2 / 9223372036854775808).
  { unfold Rdiv. apply Rmult_le_compat_l; [lra|]. apply Rinv_le_contravar; lra. }
  lra.
Qed.

(** After [n] turns the fraction holds the next [n] bits of the logarithm, short by what the
    squarings lost. *)
Lemma log_turns_spec n : forall m f, mantissa m -> (0 <= f)%Z -> ((f + 1) * 2 ^ Z.of_nat n <= 2 ^ 32)%Z ->
  exists m' g, log_turns n m f = Some (m', f * 2 ^ Z.of_nat n + g)%Z /\ mantissa m' /\
    (0 <= g < 2 ^ Z.of_nat n)%Z /\
    0 <= IZR (2 ^ Z.of_nat n) * (l2 (IZR m) - 63) - IZR g - (l2 (IZR m') - 63)
      <= (IZR (2 ^ Z.of_nat n) - 1) * (4 / 9223372036854775808).
Proof.
  induction n as [|n IH]; intros m f Hm Hf Hfn.
  - exists m, 0%Z. change (2 ^ Z.of_nat 0)%Z with 1%Z. cbn [log_turns]. rewrite Z.mul_1_r, Z.add_0_r.
    split_and!; try done; lra.
  - rewrite Nat2Z.inj_succ, Z.pow_succ_r in * by lia.
    assert (1 <= 2 ^ Z.of_nat n)%Z as Hpn.
    { change 1%Z with (2 ^ 0)%Z. apply Z.pow_le_mono_r; lia. }
    assert (0 <= f < 2 ^ 62)%Z as Hf62.
    { split; [done|]. apply Z.lt_le_trans with ((f + 1) * 1)%Z; [lia|].
      transitivity ((f + 1) * (2 * 2 ^ Z.of_nat n))%Z; [apply Z.mul_le_mono_nonneg_l; lia|lia]. }
    destruct (log_turn_spec m f Hm Hf62) as (m1 & b & Ht & Hb & Hm1 & Hr).
    assert ((2 * f + b + 1) * 2 ^ Z.of_nat n <= 2 ^ 32)%Z as Hnext.
    { etransitivity; [|exact Hfn].
      replace ((f + 1) * (2 * 2 ^ Z.of_nat n))%Z with ((2 * f + 2) * 2 ^ Z.of_nat n)%Z by ring.
      apply Z.mul_le_mono_nonneg_r; lia. }
    destruct (IH m1 (2 * f + b)%Z Hm1 ltac:(lia) Hnext) as (m' & g & Hts & Hm' & Hg & He).
    pose proof (log_turn_real m m1 b Hm Hm1 Hb Hr) as Hr1.
    exists m', (b * 2 ^ Z.of_nat n + g)%Z. cbn [log_turns]. rewrite Ht, Hts.
    split_and!; [do 2 f_equal; ring|done|nia|nia|..];
      rewrite plus_IZR, !mult_IZR; apply IZR_le in Hpn; set (P := IZR (2 ^ Z.of_nat n)) in *; nra.
Qed.

(** The mantissa of a word: what the shift dropped is below one part in [2^63]. *)
Lemma shifted_mantissa x : (0 < x < 2 ^ 256)%Z ->
  exists m, (if 63 <=? Z.log2 x then let! s := checked_sub (Z.log2 x) 63 in try_from 128 (Z.shiftr x s)
    else let! s := checked_sub 63 (Z.log2 x) in try_from 128 (Z.shiftl x s mod 2 ^ 256))%Z = Some m /\
    mantissa m /\
    0 <= l2 (IZR x) - IZR (Z.log2 x) - (l2 (IZR m) - 63) <= 2 / 9223372036854775808.
Proof.
  intros Hx. destruct (Z.log2_spec x ltac:(lia)) as [Hl1 Hl2].
  set (k := Z.log2 x) in *. assert (0 <= k)%Z by apply Z.log2_nonneg.
  unfold checked_sub. destruct (Z.leb_spec 63 k) as [Hk|Hk].
  - rewrite Z.shiftr_div_pow2 by lia. set (p := (2 ^ (k - 63))%Z).
    assert (0 < p)%Z as Hp by (apply Z.pow_pos_nonneg; lia).
    assert (2 ^ k = p * 2 ^ 63)%Z as Ek by (unfold p; rewrite <- Z.pow_add_r by lia; f_equal; lia).
    rewrite Z.pow_succ_r, Ek in Hl2 by lia. rewrite Ek in Hl1.
    pose proof (Z.div_mod x p ltac:(lia)) as Hd. pose proof (Z.mod_pos_bound x p Hp) as Hr.
    assert (mantissa (x / p)) as Hm.
    { split; [apply Z.div_le_lower_bound|apply Z.div_lt_upper_bound]; lia. }
    exists (x / p)%Z. split; [|split; [done|]].
    + unfold try_from, fitsb. destruct Hm. rewrite !(proj2 (Z.leb_le _ _)); [done|unfold umax; lia|lia].
    + destruct Hm as [Hm _]. set (m := (x / p)%Z) in *.
      assert (l2 (IZR p) = IZR k - 63) as Elp.
      { unfold p. rewrite l2_pow2_Z, minus_IZR by lia. done. }
      assert (IZR p * IZR m <= IZR x) as H1 by (rewrite <- mult_IZR; apply IZR_le; lia).
      assert (IZR x < IZR p * IZR m + IZR p) as H2 by (rewrite <- mult_IZR, <- plus_IZR; apply IZR_lt; lia).
      apply IZR_lt in Hp. apply IZR_le in Hm. change (IZR (2 ^ 63)) with 9223372036854775808 in *.
      pose proof (l2_floor (IZR x) (IZR p * IZR m) (IZR p) ltac:(nra) H1 ltac:(lra) Hp) as Hf.
      rewrite l2_mult in Hf by lra.
      replace (IZR p / (IZR p * IZR m)) with (/ IZR m) in Hf by (field; lra).
      pose proof (Rinv_le_contravar 9223372036854775808 (IZR m) ltac:(lra) Hm). lra.
  - rewrite (proj2 (Z.leb_le _ _)) by lia. rewrite Z.shiftl_mul_pow2 by lia.
    set (p := (2 ^ (63 - k))%Z).
    assert (0 < p)%Z as Hp by (apply Z.pow_pos_nonneg; lia).
    assert (2 ^ k * p = 2 ^ 63)%Z as Ek by (unfold p; rewrite <- Z.pow_add_r by lia; f_equal; lia).
    rewrite Z.pow_succ_r in Hl2 by lia.
    assert (mantissa (x * p)) as Hm by (split; nia).
    exists (x * p)%Z. split_and!; [|done|..].
    + destruct Hm. rewrite Z.mod_small by lia. unfold try_from, fitsb.
      rewrite !(proj2 (Z.leb_le _ _)); [done|unfold umax; lia|lia].
    + rewrite mult_IZR, l2_mult by (apply IZR_lt; lia). unfold p.
      rewrite l2_pow2_Z, minus_IZR by lia. lra.
    + rewrite mult_IZR, l2_mult by (apply IZR_lt; lia). unfold p.
      rewrite l2_pow2_Z, minus_IZR by lia. lra.
Qed.

(** [log2_q32] of any nonzero word is the logarithm rounded down, to within a unit and a
    fraction. *)
Lemma log2_q32_spec x : (0 < x < 2 ^ 256)%Z ->
  exists l, log2_q32 x = Some l /\ (0 <= l < 2 ^ 40)%Z /\ IZR l <= lg x < IZR l + 1 + 1 / 4.
Proof.
  intros Hx. destruct (shifted_mantissa x Hx) as (m & Em & Hm & Hlm).
  destruct (log_turns_spec 32 m 0 Hm ltac:(lia) ltac:(done)) as (m' & g & Et & Hm' & Hg & Hlg).
  pose proof (mantissa_l2 m' Hm').
  assert (0 <= Z.log2 x <= 255)%Z as Hk.
  { split; [apply Z.log2_nonneg|]. assert (Z.log2 x < 256)%Z; [apply Z.log2_lt_pow2; lia|lia]. }
  change (2 ^ Z.of_nat 32)%Z with 4294967296%Z in *.
  exists (Z.log2 x * 4294967296 + g)%Z. split_and!; try lia.
  - unfold log2_q32, leading_zeros. rewrite (proj2 (Z.eqb_neq x 0)) by lia.
    unfold checked_sub at 1. rewrite (proj2 (Z.leb_le _ _)) by lia.
    replace (255 - (255 - Z.log2 x))%Z with (Z.log2 x) by lia. rewrite Em, Et.
    unfold checked_i at 1. rewrite !(proj2 (Z.leb_le _ _)) by lia. cbn -[i64_wrap Z.shiftl Z.mul].
    rewrite Z.shiftl_mul_pow2, i64_wrap_id by lia. change (2 ^ 32)%Z with 4294967296%Z.
    unfold checked_i. by rewrite !(proj2 (Z.leb_le _ _)) by lia.
  - unfold lg. rewrite plus_IZR, mult_IZR. lra.
  - unfold lg. rewrite plus_IZR, mult_IZR. lra.
Qed.

(** The rate of a [ρ]: twice its logarithm over the scale, high by four units or more and by
    no more than the margin. *)
Lemma rate_of_rho_spec rho : (0 < rho < 2 ^ 256)%Z ->
  exists r, rate_of_rho rho = Some r /\ (Z.abs r <= 2 ^ 42)%Z /\
    2 * (lg rho - IZR Q96_LOG) + 5 < IZR r <= 2 * (lg rho - IZR Q96_LOG) + 8.
Proof.
  intros Hx. destruct (log2_q32_spec rho Hx) as (l & El & Hl & Hlg).
  unfold rate_of_rho. rewrite El. change Q96_LOG with 412316860416%Z in *.
  exists ((l - 412316860416) * 2 + 8)%Z. split_and!; [|lia|..].
  - assert (forall y, (- 2 ^ 63 <= y <= 2 ^ 63 - 1)%Z -> checked_i 64 y = Some y) as Hi.
    { intros y Hy. by apply checked_i_Some. }
    unfold EDGE_MARGIN, ULP. by rewrite !Hi by lia.
  - rewrite plus_IZR, mult_IZR, minus_IZR. lra.
  - rewrite plus_IZR, mult_IZR, minus_IZR. lra.
Qed.
End Accuracy.
