(* ===== verification/RouterGraph.v ===== *)
(** * The token graph

    [liq-router/src/graph.rs], [TokenGraph]: tokens are nodes, each direction through a pool
    and each unwrap an edge, in compressed adjacency by source token. The graph reads the pool
    book through what [Book] states of it: the coins and the gas of each pool, the unwraps,
    and the zero-size rates. *)

From Stdlib Require Import Sorted.
From S2P Require Import Prelude Types Flash RouterFees RouterLog.
Local Open Scope Z_scope.

Abbreviation PoolId := nat (only parsing).
Abbreviation EdgeId := nat (only parsing).

Record Leg := mkLeg { leg_pool : PoolId; leg_i : nat; leg_j : nat }.
Inductive Via := ViaPool (l : Leg) | ViaUnwrap (w : AssetId).
Record Edge := mkEdge { ed_from : AssetId; ed_to : AssetId; ed_via : Via; ed_hop_gas : Z }.

#[export] Instance Leg_eq_dec : EqDecision Leg.
Proof. solve_decision. Defined.
#[export] Instance Via_eq_dec : EqDecision Via.
Proof. solve_decision. Defined.
#[export] Instance Edge_eq_dec : EqDecision Edge.
Proof. solve_decision. Defined.

(** What the graph reads of the pools: the coins and gas of a pool ([Pool::assets],
    [hop_gas]), the wrapper, asset and gas of an unwrap, and a zero-size [ρ] where the pool
    or the unwrap is live and has one ([get(..).filter(is_live)?.rho_at_zero(..).ok()]). *)
Record PoolFace := mkFace { pf_assets : list AssetId; pf_hop_gas : Z }.
Record UnwrapFace := mkUnwrap { uw_wrapper : AssetId; uw_into : AssetId; uw_gas : Z }.

Record Book := mkBook {
  bk_pools : list PoolFace;
  bk_unwraps : list UnwrapFace;
  bk_pool_rho : PoolId -> nat -> nat -> option Z;
  bk_unwrap_rho : AssetId -> option Z
}.

Record TokenGraph := mkGraph {
  tg_nodes : list AssetId;
  tg_index : gmap AssetId nat;
  tg_offsets : list nat;
  tg_edges : list Edge
}.

(** ** Building *)

(** The inner loop of [build_with]: the edges from coin [i] of a pool. *)
Fixpoint coin_edges (id : PoolId) (gas : Z) (i : nat) (a : AssetId) (j : nat) (bs : list AssetId)
  : RRes (list Edge) :=
  match bs with
  | [] => Ok []
  | b :: bs =>
      if (i =? j)%nat || (a =? b) then coin_edges id gas i a (S j) bs else
      match try_from_nat 8 i, try_from_nat 8 j with
      | Some i8, Some j8 =>
          let? es := coin_edges id gas i a (S j) bs in
          Ok (mkEdge a b (ViaPool (mkLeg id i8 j8)) gas :: es)
      | _, _ => Err BadLeg
      end
  end.

Fixpoint pool_edges (id : PoolId) (p : PoolFace) (i : nat) (rest : list AssetId) : RRes (list Edge) :=
  match rest with
  | [] => Ok []
  | a :: rest =>
      let? es := coin_edges id (pf_hop_gas p) i a 0 (pf_assets p) in
      let? es' := pool_edges id p (S i) rest in
      Ok (es ++ es')
  end.

Fixpoint book_edges (keep : PoolId -> bool) (p : nat) (pools : list PoolFace) : RRes (list Edge) :=
  match pools with
  | [] => Ok []
  | pool :: pools =>
      let? id := math (try_from_nat 32 p) in
      if negb (keep id) then book_edges keep (S p) pools else
      let? es := pool_edges id pool 0 (pf_assets pool) in
      let? es' := book_edges keep (S p) pools in
      Ok (es ++ es')
  end.

Definition unwrap_edges (us : list UnwrapFace) : list Edge :=
  flat_map (fun u => if uw_wrapper u =? uw_into u then [] else
    [mkEdge (uw_wrapper u) (uw_into u) (ViaUnwrap (uw_wrapper u)) (uw_gas u)]) us.

(** [Vec::dedup]: the first of each run of equal elements. *)
Fixpoint dedup_runs (l : list Z) : list Z :=
  match l with
  | x :: (y :: _) as l' => if x =? y then dedup_runs l' else x :: dedup_runs l'
  | _ => l
  end.

Fixpoint index_nodes (n : nat) (nodes : list AssetId) (index : gmap AssetId nat)
  : RRes (gmap AssetId nat) :=
  match nodes with
  | [] => Ok index
  | a :: nodes =>
      let? n32 := math (try_from_nat 32 n) in
      index_nodes (S n) nodes (<[a := n32]> index)
  end.

Fixpoint key_edges (index : gmap AssetId nat) (es : list Edge) : RRes (list (nat * Edge)) :=
  match es with
  | [] => Ok []
  | e :: es =>
      let? n := math (index !! ed_from e) in
      let? ks := key_edges index es in
      Ok ((n, e) :: ks)
  end.

(** One counter more, a [u32]. *)
Definition count_at (offsets : list nat) (at_ : nat) (by_ : nat) : RRes (list nat) :=
  let? c := math (offsets !! at_) in
  let? c := math (checked_add_nat 32 c by_) in
  Ok (<[at_ := c]> offsets).

Fixpoint count_edges (keyed : list (nat * Edge)) (offsets : list nat) : RRes (list nat) :=
  match keyed with
  | [] => Ok offsets
  | (n, _) :: keyed => let? offsets := count_at offsets (S n) 1 in count_edges keyed offsets
  end.

(** [for n in 1..offsets.len()]: [turns] are those left, the next is [n]. *)
Fixpoint prefix_sums (turns n : nat) (offsets : list nat) : RRes (list nat) :=
  match turns with
  | O => Ok offsets
  | S turns =>
      let? prev := math (offsets !! pred n) in
      let? offsets := count_at offsets n prev in
      prefix_sums turns (S n) offsets
  end.

Definition build_with (book : Book) (keep : PoolId -> bool) : RRes TokenGraph :=
  let? es := book_edges keep 0 (bk_pools book) in
  let edges := es ++ unwrap_edges (bk_unwraps book) in
  let nodes := dedup_runs (sort_by Z.leb (flat_map (fun e => [ed_from e; ed_to e]) edges)) in
  let? index := index_nodes 0 nodes ∅ in
  let? keyed := key_edges index edges in
  let keyed := sort_by (fun x y => fst x <=? fst y)%nat keyed in
  let offsets := replicate (length nodes + 1) 0%nat in
  let? offsets := count_edges keyed offsets in
  let? offsets := prefix_sums (length offsets - 1) 1 offsets in
  Ok (mkGraph nodes index offsets (snd <$> keyed)).

Definition build (book : Book) : RRes TokenGraph := build_with book (fun _ => true).

Definition edge (g : TokenGraph) (id : EdgeId) : option Edge := tg_edges g !! id.
Definition node (g : TokenGraph) (a : AssetId) : option nat := tg_index g !! a.

(** The range [lo..hi] of edge ids leaving [a]. *)
Definition out_range (g : TokenGraph) (a : AssetId) : nat * nat :=
  match node g a with
  | None => (0, 0)%nat
  | Some n =>
      let lo := default 0%nat (tg_offsets g !! n) in
      (lo, default lo (tg_offsets g !! S n))
  end.

Definition out_edges (g : TokenGraph) (a : AssetId) : list EdgeId :=
  let '(lo, hi) := out_range g a in seq lo (hi - lo).

(** The zero-size rate of an edge now. *)
Definition edge_rate (book : Book) (e : Edge) : option Z :=
  match ed_via e with
  | ViaPool l => let! rho := bk_pool_rho book (leg_pool l) (leg_i l) (leg_j l) in rate_of_rho rho
  | ViaUnwrap w => let! rho := bk_unwrap_rho book w in rate_of_rho rho
  end.

(** Two pools and an unwrap: a pair [1, 2], a three-coin pool of [1, 2, 3], [9] into [1]. *)
Definition ex_book : Book :=
  mkBook [mkFace [1; 2] 90000; mkFace [1; 2; 3] 120000] [mkUnwrap 9 1 60000]
    (fun p i j => Some (2 ^ 96)) (fun _ => Some (2 ^ 96)).

Example ex_graph_built :
  exists g, build ex_book = Ok g /\ tg_nodes g = [1; 2; 3; 9] /\ length (tg_edges g) = 9%nat /\
    out_edges g 1 = [0; 1; 2]%nat /\ out_edges g 9 = [8]%nat /\ out_edges g 7 = [].
Proof. eexists. split; [vm_compute; reflexivity|]. vm_compute. auto. Qed.

(** ** What the loops build *)

Lemma coin_edges_in id gas i a bs : forall j es, coin_edges id gas i a j bs = Ok es ->
  forall e, e ∈ es <-> exists k b, bs !! k = Some b /\ i <> (j + k)%nat /\ a <> b /\
    e = mkEdge a b (ViaPool (mkLeg id i (j + k))) gas.
Proof.
  induction bs as [|b bs IH]; intros j es H e; simpl in H.
  - simplify_eq. split; [by intros ?%elem_of_nil|]. by intros (k & b & ? & _).
  - destruct ((i =? j)%nat || (a =? b)) eqn:Eskip.
    + rewrite (IH _ _ H). split.
      * intros (k & b' & Hk & Hne & Hab & ->). exists (S k), b'. rewrite <- Nat.add_succ_comm. done.
      * intros ([|k] & b' & Hk & Hne & Hab & ->); [|exists k, b'; rewrite Nat.add_succ_comm; done].
        simplify_eq/=. apply orb_true_iff in Eskip as [?%Nat.eqb_eq|?%Z.eqb_eq]; lia.
    + apply orb_false_iff in Eskip as [?%Nat.eqb_neq ?%Z.eqb_neq].
      destruct (try_from_nat 8 i) as [i8|] eqn:Ei; [|done].
      destruct (try_from_nat 8 j) as [j8|] eqn:Ej; [|done].
      apply try_from_nat_Some in Ei as [-> _], Ej as [-> _].
      destruct (coin_edges id gas i a (S j) bs) as [es'|] eqn:Er; [|done]. simplify_eq.
      rewrite elem_of_cons, (IH _ _ Er). split.
      * intros [->|(k & b' & Hk & Hne & Hab & ->)].
        -- exists 0%nat, b. rewrite Nat.add_0_r. done.
        -- exists (S k), b'. rewrite <- Nat.add_succ_comm. done.
      * intros ([|k] & b' & Hk & Hne & Hab & ->).
        -- left. simplify_eq/=. by rewrite Nat.add_0_r.
        -- right. exists k, b'. rewrite Nat.add_succ_comm. done.
Qed.

Lemma coin_edges_ok id gas i a bs : forall j, Z.of_nat i <= umax 8 -> Z.of_nat (j + length bs) <= 2 ^ 8 ->
  exists es, coin_edges id gas i a j bs = Ok es.
Proof.
  induction bs as [|b bs IH]; intros j Hi Hj; simpl in *; [by eexists|].
  destruct (IH (S j) Hi ltac:(lia)) as [es Hes]. rewrite Hes.
  destruct (_ || _); [by eexists|].
  unfold try_from_nat, umax in *. rewrite !(proj2 (Z.leb_le _ _)) by lia. by eexists.
Qed.

Definition pool_edge (id : PoolId) (p : PoolFace) (e : Edge) : Prop :=
  exists i j a b, pf_assets p !! i = Some a /\ pf_assets p !! j = Some b /\ i <> j /\ a <> b /\
    e = mkEdge a b (ViaPool (mkLeg id i j)) (pf_hop_gas p).

Lemma pool_edges_in id p rest : forall i es, pool_edges id p i rest = Ok es ->
  forall e, e ∈ es <-> exists k j a b, rest !! k = Some a /\ pf_assets p !! j = Some b /\ (i + k)%nat <> j /\ a <> b /\
    e = mkEdge a b (ViaPool (mkLeg id (i + k) j)) (pf_hop_gas p).
Proof.
  induction rest as [|a rest IH]; intros i es H e; simpl in H.
  - simplify_eq. split; [by intros ?%elem_of_nil|]. by intros (k & ? & ? & ? & ? & _).
  - destruct (coin_edges _ _ _ _ _ _) as [es1|] eqn:E1; [|done].
    destruct (pool_edges _ _ _ _) as [es2|] eqn:E2; [|done]. simplify_eq.
    rewrite elem_of_app, (coin_edges_in _ _ _ _ _ _ _ E1), (IH _ _ E2). split.
    + intros [(j & b & Hj & Hne & Hab & ->)|(k & j & a' & b & Hk & Hj & Hne & Hab & ->)].
      * exists 0%nat, j, a, b. rewrite Nat.add_0_r. done.
      * exists (S k), j, a', b. rewrite <- Nat.add_succ_comm. done.
    + intros ([|k] & j & a' & b & Hk & Hj & Hne & Hab & ->).
      * left. simplify_eq/=. exists j, b. rewrite Nat.add_0_r in *. done.
      * right. exists k, j, a', b. rewrite Nat.add_succ_comm. done.
Qed.

Lemma pool_edges_ok id p rest : forall i, Z.of_nat (length (pf_assets p)) <= 2 ^ 8 -> Z.of_nat (i + length rest) <= 2 ^ 8 ->
  exists es, pool_edges id p i rest = Ok es.
Proof.
  induction rest as [|a rest IH]; intros i Hp Hi; simpl in *; [by eexists|].
  destruct (coin_edges_ok id (pf_hop_gas p) i a (pf_assets p) 0) as [es ->]; [unfold umax; lia|simpl; lia|].
  destruct (IH (S i) Hp ltac:(lia)) as [es' ->]. by eexists.
Qed.

Lemma book_edges_in keep pools : forall p es, book_edges keep p pools = Ok es ->
  forall e, e ∈ es <-> exists k pool, pools !! k = Some pool /\ keep (p + k)%nat = true /\ pool_edge (p + k) pool e.
Proof.
  induction pools as [|pool pools IH]; intros p es H e; simpl in H.
  - simplify_eq. split; [by intros ?%elem_of_nil|]. by intros (k & ? & ? & _).
  - destruct (try_from_nat 32 p) as [id|] eqn:Ep; [|done]. apply try_from_nat_Some in Ep as [-> _]. cbn in H.
    destruct (keep p) eqn:Ek; simpl in H.
    + destruct (pool_edges _ _ _ _) as [es1|] eqn:E1; [|done].
      destruct (book_edges _ _ _) as [es2|] eqn:E2; [|done]. simplify_eq.
      rewrite elem_of_app, (pool_edges_in _ _ _ _ _ E1), (IH _ _ E2). split.
      * intros [(i & j & a & b & Hi)|(k & q & Hk & Hkeep & Hpe)].
        -- exists 0%nat, pool. rewrite Nat.add_0_r. split_and!; [done|done|]. exists i, j, a, b. exact Hi.
        -- exists (S k), q. rewrite <- Nat.add_succ_comm. done.
      * intros ([|k] & q & Hk & Hkeep & Hpe).
        -- left. simplify_eq/=. rewrite Nat.add_0_r in Hpe. destruct Hpe as (i & j & a & b & Hi). exists i, j, a, b. exact Hi.
        -- right. exists k, q. rewrite Nat.add_succ_comm. done.
    + rewrite (IH _ _ H). split.
      * intros (k & q & Hk). exists (S k), q. rewrite <- Nat.add_succ_comm. done.
      * intros ([|k] & q & Hk & Hkeep & Hpe); [rewrite Nat.add_0_r in Hkeep; congruence|].
        exists k, q. rewrite Nat.add_succ_comm. done.
Qed.

Lemma book_edges_ok keep pools : forall p, Forall (fun q => Z.of_nat (length (pf_assets q)) <= 2 ^ 8) pools ->
  Z.of_nat (p + length pools) <= 2 ^ 32 -> exists es, book_edges keep p pools = Ok es.
Proof.
  induction pools as [|pool pools IH]; intros p Hf Hp; simpl in *; [by eexists|].
  apply Forall_cons in Hf as [Hq Hf].
  unfold try_from_nat. rewrite (proj2 (Z.leb_le _ _)) by (unfold umax; lia). cbn.
  destruct (IH (S p) Hf ltac:(lia)) as [es' ->]. destruct (keep p); simpl; [|by eexists].
  destruct (pool_edges_ok p pool (pf_assets pool) 0 Hq Hq) as [es ->]. by eexists.
Qed.

Lemma unwrap_edges_in us e : e ∈ unwrap_edges us <->
  exists u, u ∈ us /\ uw_wrapper u <> uw_into u /\
    e = mkEdge (uw_wrapper u) (uw_into u) (ViaUnwrap (uw_wrapper u)) (uw_gas u).
Proof.
  unfold unwrap_edges. rewrite list_elem_of_In, in_flat_map. split.
  - intros (u & Hu & He). exists u. apply list_elem_of_In in Hu.
    destruct (Z.eqb_spec (uw_wrapper u) (uw_into u)); [done|]. destruct He as [<-|[]]. done.
  - intros (u & Hu & Hne & ->). exists u. rewrite <- list_elem_of_In. split; [done|].
    rewrite (proj2 (Z.eqb_neq _ _)) by done. by left.
Qed.

(** *** Nodes and their index *)

Lemma dedup_runs_head x l : exists l', dedup_runs (x :: l) = x :: l'.
Proof.
  revert x. induction l as [|y l IH]; intros x; [by exists []|]. cbn [dedup_runs].
  destruct (Z.eqb_spec x y) as [->|]; [apply IH|by eexists].
Qed.

Lemma dedup_runs_spec l : StronglySorted (fun a b => (a <=? b) = true) l ->
  StronglySorted Z.lt (dedup_runs l) /\ forall x, x ∈ dedup_runs l <-> x ∈ l.
Proof.
  induction 1 as [|x l Hs [IHs IHin] Hall]; [by split; [constructor|]|].
  destruct l as [|y l]; [split; [by repeat constructor|done]|].
  cbn [dedup_runs]. destruct (Z.eqb_spec x y) as [->|Hne].
  - split; [exact IHs|]. intros z. rewrite IHin, !elem_of_cons. tauto.
  - split; [|intros z; rewrite !elem_of_cons, IHin, elem_of_cons; tauto].
    constructor; [done|]. apply Forall_forall. intros z Hz%IHin.
    rewrite Forall_cons in Hall. destruct Hall as [Hxy%Z.leb_le Hall]. inversion Hs as [|? ? Hs' Hy]; subst.
    apply elem_of_cons in Hz as [->|Hz]; [lia|]. rewrite Forall_forall in Hy. apply Hy, Z.leb_le in Hz. lia.
Qed.

Lemma index_nodes_spec nodes : forall n m m', NoDup nodes -> index_nodes n nodes m = Ok m' ->
  (forall a, a ∈ nodes -> m !! a = None) ->
  forall a k, m' !! a = Some k <-> m !! a = Some k \/ exists i, nodes !! i = Some a /\ k = (n + i)%nat.
Proof.
  induction nodes as [|x nodes IH]; intros n m m' Hnd H Hfresh a k; simpl in H.
  - simplify_eq. split; [by left|]. intros [?|(i & ? & _)]; done.
  - apply NoDup_cons in Hnd as [Hx Hnd].
    destruct (try_from_nat 32 n) as [n32|] eqn:En; [|done]. apply try_from_nat_Some in En as [-> _]. cbn in H.
    rewrite (IH _ _ _ Hnd H).
    + split.
      * intros [Hm|(i & Hi & ->)].
        -- apply lookup_insert_Some in Hm as [[<- <-]|[_ Hm]]; [|by left].
           right. exists 0%nat. rewrite Nat.add_0_r. done.
        -- right. exists (S i). rewrite Nat.add_succ_comm. done.
      * intros [Hm|([|i] & Hi & ->)].
        -- left. rewrite lookup_insert_ne; [done|]. intros ->. rewrite Hfresh in Hm by constructor. done.
        -- left. simplify_eq/=. rewrite lookup_insert_eq, Nat.add_0_r. done.
        -- right. exists i. rewrite Nat.add_succ_comm. done.
    + intros b Hb. rewrite lookup_insert_ne by (intros ->; done). apply Hfresh. by constructor.
Qed.

Lemma index_of_nodes nodes index : NoDup nodes -> index_nodes 0 nodes ∅ = Ok index ->
  forall a n, index !! a = Some n <-> nodes !! n = Some a.
Proof.
  intros Hnd Ei a n. rewrite (index_nodes_spec _ _ _ _ Hnd Ei) by (intros; apply lookup_empty).
  rewrite lookup_empty. split; [intros [?|(i & ? & ->)]; done|]. intros Ha. right. by exists n.
Qed.

Lemma index_nodes_size nodes : forall n m m', index_nodes n nodes m = Ok m' ->
  nodes = [] \/ Z.of_nat (n + length nodes) <= 2 ^ 32.
Proof.
  induction nodes as [|x nodes IH]; intros n m m' H; [by left|right]. simpl in *.
  destruct (try_from_nat 32 n) as [n32|] eqn:En; [|done]. apply try_from_nat_Some in En as [-> Hn]. cbn in H.
  destruct (IH _ _ _ H) as [->|]; unfold umax in *; simpl in *; lia.
Qed.

Lemma index_nodes_ok nodes : forall n m, Z.of_nat (n + length nodes) <= 2 ^ 32 ->
  exists m', index_nodes n nodes m = Ok m'.
Proof.
  induction nodes as [|x nodes IH]; intros n m Hn; simpl in *; [by eexists|].
  unfold try_from_nat. rewrite (proj2 (Z.leb_le _ _)) by (unfold umax; lia). apply IH. lia.
Qed.

Lemma key_edges_spec index es : forall ks, key_edges index es = Ok ks ->
  snd <$> ks = es /\ Forall (fun k => index !! ed_from (snd k) = Some (fst k)) ks.
Proof.
  induction es as [|e es IH]; intros ks H; simpl in H; [by simplify_eq|].
  destruct (index !! ed_from e) as [n|] eqn:En; [|done].
  destruct (key_edges index es) as [ks'|] eqn:Ek; [|done]. simplify_eq/=.
  destruct (IH _ eq_refl) as [<- Hf]. split; [done|]. by constructor.
Qed.

Lemma key_edges_ok index es : (forall e, e ∈ es -> is_Some (index !! ed_from e)) ->
  exists ks, key_edges index es = Ok ks.
Proof.
  induction es as [|e es IH]; intros H; simpl; [by eexists|].
  destruct (H e ltac:(by constructor)) as [n ->]. cbn.
  destruct IH as [ks ->]; [|by eexists]. intros e' He'. apply H. by constructor.
Qed.

(** *** Offsets *)

(** How many keys are below [n], and how many are [n]. *)
Definition below (n : nat) (ks : list (nat * Edge)) : nat := length (List.filter (fun k => fst k <? n)%nat ks).
Definition equal (n : nat) (ks : list (nat * Edge)) : nat := length (List.filter (fun k => fst k =? n)%nat ks).

Lemma below_succ n ks : below (S n) ks = (below n ks + equal n ks)%nat.
Proof.
  unfold below, equal. induction ks as [|[k e] ks IH]; [done|]. cbn [List.filter fst].
  destruct (Nat.ltb_spec k (S n)), (Nat.ltb_spec k n), (Nat.eqb_spec k n); cbn [length]; lia.
Qed.

Lemma below_le n ks : (below n ks <= length ks)%nat.
Proof. unfold below. induction ks as [|k ks IH]; simpl; [done|]. destruct (_ <? _)%nat; simpl; lia. Qed.

Lemma count_at_ok offsets n by_ c : offsets !! n = Some c -> Z.of_nat (c + by_) <= umax 32 ->
  count_at offsets n by_ = Ok (<[n := (c + by_)%nat]> offsets).
Proof.
  intros Hn Hc. unfold count_at. rewrite Hn. cbn. unfold checked_add_nat.
  rewrite (proj2 (Z.leb_le _ _)) by lia. done.
Qed.

Lemma count_at_Ok offsets n by_ r : count_at offsets n by_ = Ok r ->
  exists c, offsets !! n = Some c /\ r = <[n := (c + by_)%nat]> offsets.
Proof.
  unfold count_at. destruct (offsets !! n) as [c|]; [|done]. cbn.
  destruct (checked_add_nat 32 c by_) as [c'|] eqn:Ec; [|done]. cbn. intros [= <-].
  apply checked_add_nat_Some in Ec as [-> _]. by exists c.
Qed.

Lemma count_edges_spec ks : forall off r, count_edges ks off = Ok r ->
  length r = length off /\ r !! 0%nat = off !! 0%nat /\
  forall n c, off !! S n = Some c -> r !! S n = Some (c + equal n ks)%nat.
Proof.
  induction ks as [|[k e] ks IH]; intros off r H; simpl in H.
  - simplify_eq. split_and!; [done|done|]. intros n c ->. by rewrite Nat.add_0_r.
  - destruct (count_at off (S k) 1) as [off'|] eqn:E; [|done].
    apply count_at_Ok in E as (c0 & Hc0 & ->).
    destruct (IH _ _ H) as (Hlen & H0 & Hn). rewrite length_insert in Hlen.
    split_and!; [done|by rewrite H0, list_lookup_insert_ne|].
    intros n c Hc. unfold equal. cbn [List.filter fst]. destruct (Nat.eqb_spec k n) as [->|Hne].
    + rewrite (Hn n (c0 + 1)%nat).
      * rewrite Hc0 in Hc. simplify_eq. cbn [length]. unfold equal. f_equal. lia.
      * apply list_lookup_insert_eq. by eapply lookup_lt_Some.
    + apply Hn. rewrite list_lookup_insert_ne by lia. done.
Qed.

Lemma count_edges_ok ks : forall off m, Forall (fun k => S (fst k) < length off)%nat ks ->
  Forall (fun c => c <= m)%nat off -> Z.of_nat (m + length ks) <= umax 32 ->
  exists r, count_edges ks off = Ok r.
Proof.
  induction ks as [|[k e] ks IH]; intros off m Hk Hm Hb; simpl in *; [by eexists|].
  apply Forall_cons in Hk as [Hk Hks]. cbn [fst] in Hk.
  destruct (lookup_lt_is_Some_2 off (S k) Hk) as [c Hc].
  assert (c <= m)%nat by (by eapply Forall_lookup_1 in Hm; [|exact Hc]).
  rewrite (count_at_ok off (S k) 1 c Hc) by lia. apply (IH _ (S m)).
  - by rewrite length_insert.
  - apply Forall_insert; [|lia]. eapply Forall_impl; [exact Hm|]. intros; simpl in *; lia.
  - lia.
Qed.

Lemma prefix_sums_spec turns : forall n off r, (1 <= n)%nat -> (n + turns = length off)%nat ->
  prefix_sums turns n off = Ok r -> length r = length off /\
  (forall i, (i < n)%nat -> r !! i = off !! i) /\
  (forall i c, (n <= S i)%nat -> off !! S i = Some c -> exists p, r !! i = Some p /\ r !! S i = Some (c + p)%nat).
Proof.
  induction turns as [|turns IH]; intros n off r Hn Hlen H; simpl in H.
  - simplify_eq. split_and!; [done|done|]. intros i c Hi Hc. apply lookup_lt_Some in Hc. lia.
  - destruct (off !! pred n) as [prev|] eqn:Ep; [|done]. cbn in H.
    destruct (count_at off n prev) as [off'|] eqn:E; [|done].
    apply count_at_Ok in E as (c0 & Hc0 & ->).
    destruct (IH (S n) (<[n := (c0 + prev)%nat]> off) r ltac:(lia) ltac:(rewrite length_insert; lia) H) as (Hl & Hlow & Hhigh).
    rewrite length_insert in Hl. split_and!; [done|..].
    + intros i Hi. rewrite Hlow by lia. apply list_lookup_insert_ne. lia.
    + intros i c Hi Hc. destruct (decide (S i = n)) as [<-|Hne].
      * exists prev. rewrite !Hlow by lia. rewrite list_lookup_insert_ne by lia. split; [done|].
        rewrite list_lookup_insert_eq by (by eapply lookup_lt_Some). congruence.
      * apply Hhigh; [lia|]. rewrite list_lookup_insert_ne by lia. done.
Qed.

Lemma sum_list_insert (l : list nat) n c d : l !! n = Some c ->
  (sum_list (<[n := (c + d)%nat]> l) = sum_list l + d)%nat.
Proof.
  revert n. induction l as [|x l IH]; intros [|n] H; simplify_eq/=; [lia|]. rewrite (IH _ H). lia.
Qed.

Lemma count_edges_sum ks : forall off r, count_edges ks off = Ok r ->
  (sum_list r = sum_list off + length ks)%nat.
Proof.
  induction ks as [|[k e] ks IH]; intros off r H; simpl in H; [simplify_eq/=; lia|].
  destruct (count_at off (S k) 1) as [off'|] eqn:E; [|done].
  apply count_at_Ok in E as (c & Hc & ->). rewrite (IH _ _ H), (sum_list_insert _ _ _ _ Hc). simpl. lia.
Qed.

Lemma prefix_sums_ok turns : forall n off p, (1 <= n)%nat -> (n + turns = length off)%nat ->
  off !! pred n = Some p -> Z.of_nat (p + sum_list (drop n off)) <= umax 32 ->
  exists r, prefix_sums turns n off = Ok r.
Proof.
  induction turns as [|turns IH]; intros n off p Hn Hlen Hp Hb; simpl; [by eexists|].
  rewrite Hp. cbn. destruct (lookup_lt_is_Some_2 off n ltac:(lia)) as [c Hc].
  rewrite (drop_S _ _ _ Hc) in Hb. cbn [sum_list sum_list_with foldr] in Hb. simpl in Hb.
  rewrite (count_at_ok off n p c Hc) by lia.
  apply (IH (S n) _ (c + p)%nat); [lia|rewrite length_insert; lia| |].
  - simpl. apply list_lookup_insert_eq. by eapply lookup_lt_Some.
  - rewrite drop_insert_lt by lia. lia.
Qed.

(** After both passes [offsets[n]] is the number of edges whose source is before node [n]. *)
Lemma offsets_below ks N o1 off :
  count_edges ks (replicate (N + 1) 0%nat) = Ok o1 -> prefix_sums (length o1 - 1) 1 o1 = Ok off ->
  forall n, (n <= N)%nat -> off !! n = Some (below n ks).
Proof.
  intros Hc Hp. destruct (count_edges_spec _ _ _ Hc) as (Hl & H0 & Hs).
  rewrite length_replicate in Hl.
  destruct (prefix_sums_spec (length o1 - 1) 1 o1 off ltac:(lia) ltac:(lia) Hp) as (Hl' & Hlow & Hhigh).
  induction n as [|n IH]; intros Hn.
  - rewrite Hlow, H0 by lia. rewrite (lookup_replicate_2 (N + 1)) by lia.
    unfold below. f_equal. clear. induction ks as [|k ks IH]; simpl; [done|exact IH].
  - destruct (Hhigh n (equal n ks)) as (p & Hp1 & Hp2); [lia| |].
    + rewrite (Hs n 0%nat); [done|]. apply lookup_replicate_2. lia.
    + rewrite IH in Hp1 by lia. simplify_eq. rewrite Hp2, below_succ. f_equal. lia.
Qed.

Lemma below_none n ks : Forall (fun k => n <= fst k)%nat ks -> below n ks = 0%nat.
Proof.
  unfold below. induction 1 as [|k ks Hk _ IH]; [done|]. cbn [List.filter].
  by rewrite (proj2 (Nat.ltb_ge _ _)).
Qed.

Lemma below_all n ks : Forall (fun k => fst k < n)%nat ks -> below n ks = length ks.
Proof.
  unfold below. induction 1 as [|k ks Hk _ IH]; [done|]. cbn [List.filter].
  rewrite (proj2 (Nat.ltb_lt _ _)) by done. cbn [length]. by rewrite IH.
Qed.

(** No offset passes a [u32]. *)
Definition words (off : list nat) : Prop := Forall (fun c => Z.of_nat c <= umax 32) off.

Lemma count_at_words off n by_ r : words off -> count_at off n by_ = Ok r -> words r.
Proof.
  unfold count_at, words. intros Hw. destruct (off !! n) as [c|]; [|done]. cbn.
  destruct (checked_add_nat 32 c by_) as [c'|] eqn:Ec; [|done]. cbn. intros [= <-].
  apply checked_add_nat_Some in Ec as [-> Hc]. by apply Forall_insert.
Qed.

Lemma count_edges_words ks : forall off r, words off -> count_edges ks off = Ok r -> words r.
Proof.
  induction ks as [|[k e] ks IH]; intros off r Hw H; simpl in H; [by simplify_eq|].
  destruct (count_at off (S k) 1) as [off'|] eqn:E; [|done]. eapply IH; [|exact H]. by eapply count_at_words.
Qed.

Lemma prefix_sums_words turns : forall n off r, words off -> prefix_sums turns n off = Ok r -> words r.
Proof.
  induction turns as [|turns IH]; intros n off r Hw H; simpl in H; [by simplify_eq|].
  destruct (off !! pred n) as [p|]; [|done]. cbn in H.
  destruct (count_at off n p) as [off'|] eqn:E; [|done]. eapply IH; [|exact H]. by eapply count_at_words.
Qed.

(** In a list sorted by key, the keys below [n] come first. *)
Lemma below_sorted ks : StronglySorted (fun x y : nat * Edge => (fst x <=? fst y)%nat = true) ks ->
  forall id k n, ks !! id = Some k -> (below n ks <= id <-> n <= fst k)%nat.
Proof.
  induction 1 as [|x ks Hs IH Hall]; intros id k n Hk; [done|].
  assert (Forall (fun y => fst x <= fst y)%nat ks) as Hx
    by (eapply Forall_impl; [exact Hall|intros y Hy; by apply Nat.leb_le]).
  assert (below n (x :: ks) = (if fst x <? n then S (below n ks) else below n ks)%nat) as ->
    by (unfold below; cbn [List.filter]; by destruct (_ <? _)%nat).
  destruct (Nat.ltb_spec (fst x) n) as [Hlt|Hge].
  - destruct id as [|id]; simplify_eq/=; [lia|]. specialize (IH _ _ n Hk). lia.
  - rewrite below_none by (eapply Forall_impl; [exact Hx|intros; simpl in *; lia]).
    destruct id as [|id]; simplify_eq/=; [lia|].
    assert (fst x <= fst k)%nat by (by eapply Forall_lookup_1 in Hx; [|exact Hk]). lia.
Qed.

(** ** The graph *)

(** An edge of the book: a direction through a kept pool between two coins, or an unwrap. *)
Definition book_edge (book : Book) (keep : PoolId -> bool) (e : Edge) : Prop :=
  (exists p pool, bk_pools book !! p = Some pool /\ keep p = true /\ pool_edge p pool e) \/
  (exists u, u ∈ bk_unwraps book /\ uw_wrapper u <> uw_into u /\
     e = mkEdge (uw_wrapper u) (uw_into u) (ViaUnwrap (uw_wrapper u)) (uw_gas u)).

Lemma book_edge_distinct book keep e : book_edge book keep e -> ed_from e <> ed_to e.
Proof. intros [(p & q & _ & _ & i & j & a & b & _ & _ & _ & Hab & ->)|(u & _ & Hu & ->)]; done. Qed.

(** What the search and the table rely on: nodes are the ends of edges, numbered without
    repetition, and [out_edges] lists the edges that leave a token, no other. *)
Record graph_ok (g : TokenGraph) : Prop := {
  gk_nodup : NoDup (tg_nodes g);
  gk_node : forall a n, node g a = Some n <-> tg_nodes g !! n = Some a;
  gk_ends : forall id e, edge g id = Some e ->
    ed_from e ∈ tg_nodes g /\ ed_to e ∈ tg_nodes g /\ ed_from e <> ed_to e;
  gk_out : forall a id, id ∈ out_edges g a <-> exists e, edge g id = Some e /\ ed_from e = a;
  gk_ids : Z.of_nat (length (tg_edges g)) <= umax 32;
  gk_size : Z.of_nat (length (tg_nodes g)) <= 2 ^ 32
}.

Lemma nodes_of_edges (es : list Edge) :
  let nodes := dedup_runs (sort_by Z.leb (flat_map (fun e => [ed_from e; ed_to e]) es)) in
  NoDup nodes /\ forall a, a ∈ nodes <-> exists e, e ∈ es /\ (a = ed_from e \/ a = ed_to e).
Proof.
  cbv zeta. destruct (dedup_runs_spec _ (sorted_le (flat_map (fun e => [ed_from e; ed_to e]) es))) as [Hs Hin].
  split.
  - clear Hin. induction Hs as [|x l Hs IH Hall]; constructor; [|done].
    intros Hx. rewrite Forall_forall in Hall. apply Hall in Hx. lia.
  - intros a. rewrite Hin, sort_by_perm, list_elem_of_In, in_flat_map. split.
    + intros (e & He & Ha). exists e. rewrite list_elem_of_In. split; [done|]. simpl in Ha. naive_solver.
    + intros (e & He & Ha). exists e. rewrite <- list_elem_of_In. split; [done|]. simpl. naive_solver.
Qed.

Lemma key_order ks : StronglySorted (fun x y : nat * Edge => (fst x <=? fst y)%nat = true)
  (sort_by (fun x y => fst x <=? fst y)%nat ks).
Proof. apply sort_by_sorted; intros; rewrite ?Nat.leb_le in *; lia. Qed.

(** The compressed adjacency: with offsets that count the keys below each node, the range of
    a node is where its edges are. *)
Lemma csr_out nodes (index : gmap AssetId nat) off keyed :
  (forall a n, index !! a = Some n <-> nodes !! n = Some a) ->
  StronglySorted (fun x y : nat * Edge => (fst x <=? fst y)%nat = true) keyed ->
  Forall (fun k => index !! ed_from (snd k) = Some (fst k)) keyed ->
  (forall n, (n <= length nodes)%nat -> off !! n = Some (below n keyed)) ->
  forall a id, id ∈ out_edges (mkGraph nodes index off (snd <$> keyed)) a <->
    exists e, (snd <$> keyed) !! id = Some e /\ ed_from e = a.
Proof.
  intros Hidx Hsort Hkeys Hoff a id. pose proof (below_sorted keyed Hsort) as Hrank.
  unfold out_edges, out_range, node. cbn [tg_index tg_offsets].
  assert (Hkey : forall k, keyed !! id = Some k -> index !! ed_from (snd k) = Some (fst k))
    by (intros k Hk; by apply (Forall_lookup_1 _ _ _ _ Hkeys Hk)).
  setoid_rewrite list_lookup_fmap_Some. destruct (index !! a) as [n|] eqn:En.
  - apply Hidx in En as Hn. apply lookup_lt_Some in Hn as Hlt.
    rewrite (Hoff n), (Hoff (S n)) by lia. cbn. rewrite elem_of_seq.
    pose proof (below_succ n keyed). split.
    + intros Hid. pose proof (below_le (S n) keyed).
      destruct (lookup_lt_is_Some_2 keyed id ltac:(lia)) as [k Hk]. exists (snd k). split; [by exists k|].
      assert (n <= fst k)%nat by (apply (Hrank _ _ _ Hk); lia).
      assert (~ S n <= fst k)%nat by (intros ?%(Hrank _ _ _ Hk); lia).
      assert (fst k = n) as Hkn by lia. specialize (Hkey _ Hk). rewrite Hkn in Hkey.
      apply Hidx in Hkey. congruence.
    + intros (e & (k & -> & Hk) & Ha). specialize (Hkey _ Hk). rewrite Ha, En in Hkey.
      assert (fst k = n) as Hkn by congruence.
      assert (below n keyed <= id)%nat by (apply (Hrank _ _ n Hk); lia).
      assert (~ below (S n) keyed <= id)%nat by (rewrite (Hrank _ _ (S n) Hk); lia). lia.
  - cbn. split; [by intros ?%elem_of_nil|]. intros (e & (k & -> & Hk) & Ha).
    specialize (Hkey _ Hk). rewrite Ha in Hkey. congruence.
Qed.

Lemma build_with_ok book keep g : build_with book keep = Ok g ->
  graph_ok g /\ forall e, e ∈ tg_edges g <-> book_edge book keep e.
Proof.
  unfold build_with. intros H. destruct (book_edges keep 0 (bk_pools book)) as [es|] eqn:Ees; [|done].
  set (edges := es ++ unwrap_edges (bk_unwraps book)) in *.
  destruct (nodes_of_edges edges) as [Hnd Hnodes].
  set (nodes := dedup_runs (sort_by Z.leb (flat_map (fun e => [ed_from e; ed_to e]) edges))) in *.
  destruct (index_nodes 0 nodes ∅) as [index|] eqn:Ei; [|done].
  destruct (key_edges index edges) as [ks|] eqn:Ek; [|done].
  destruct (count_edges _ _) as [o1|] eqn:Ec; [|done].
  destruct (prefix_sums _ _ _) as [off|] eqn:Ep; [|done]. injection H as <-.
  set (keyed := sort_by (fun x y => fst x <=? fst y)%nat ks) in *.
  assert (keyed ≡ₚ ks) as Hperm by apply sort_by_perm.
  destruct (key_edges_spec _ _ _ Ek) as [Hsnd Hkeys].
  pose proof (index_of_nodes _ _ Hnd Ei) as Hidx.
  assert (Hedges : forall e, e ∈ snd <$> keyed <-> e ∈ edges) by (intros e; by rewrite Hperm, Hsnd).
  assert (Hbook : forall e, e ∈ snd <$> keyed <-> book_edge book keep e).
  { intros e. rewrite Hedges. unfold edges.
    rewrite elem_of_app, unwrap_edges_in, (book_edges_in _ _ _ _ Ees). done. }
  split; [|exact Hbook]. split; [exact Hnd|exact Hidx|..].
  - intros id e He%list_elem_of_lookup_2. cbn in He. apply Hedges in He as Hin. apply Hbook in He.
    split_and!; [apply Hnodes; eauto|apply Hnodes; eauto|by eapply book_edge_distinct].
  - apply csr_out; [done|apply key_order|by rewrite Hperm|exact (offsets_below _ _ _ _ Ec Ep)].
  - cbn. rewrite length_fmap. rewrite <- (below_all (length nodes) keyed).
    + apply (Forall_lookup_1 (fun c => Z.of_nat c <= umax 32) off (length nodes));
        [|exact (offsets_below _ _ _ _ Ec Ep _ (le_n _))].
      eapply prefix_sums_words; [|exact Ep]. eapply count_edges_words; [|exact Ec].
      apply Forall_replicate. unfold umax. lia.
    + rewrite Hperm. eapply Forall_impl; [exact Hkeys|]. intros k Hk%Hidx%lookup_lt_Some. done.
  - cbn. destruct (index_nodes_size _ _ _ _ Ei) as [->|]; [done|lia].
Qed.

(** Books that fit the ids of the source build. *)
Definition book_fits (book : Book) : Prop :=
  Z.of_nat (length (bk_pools book)) <= 2 ^ 32 /\
  Forall (fun q => Z.of_nat (length (pf_assets q)) <= 2 ^ 8) (bk_pools book).

Lemma build_with_total book keep : book_fits book ->
  (forall es, book_edges keep 0 (bk_pools book) = Ok es ->
     2 * Z.of_nat (length (es ++ unwrap_edges (bk_unwraps book))) <= umax 32) ->
  exists g, build_with book keep = Ok g.
Proof.
  intros [Hp Ha] Hsmall. unfold build_with.
  destruct (book_edges_ok keep _ 0 Ha Hp) as [es Hes]. specialize (Hsmall es Hes). rewrite Hes.
  set (edges := es ++ unwrap_edges (bk_unwraps book)) in *.
  destruct (nodes_of_edges edges) as [Hnd Hnodes].
  set (nodes := dedup_runs (sort_by Z.leb (flat_map (fun e => [ed_from e; ed_to e]) edges))) in *.
  assert (length nodes <= 2 * length edges)%nat as Hlen.
  { transitivity (length (flat_map (fun e => [ed_from e; ed_to e]) edges)).
    - apply submseteq_length, NoDup_submseteq; [done|]. intros x (e & He & Hx)%Hnodes.
      apply list_elem_of_In, in_flat_map. exists e. rewrite <- list_elem_of_In. split; [done|]. simpl. naive_solver.
    - clear. induction edges; simpl in *; lia. }
  destruct (index_nodes_ok nodes 0 ∅ ltac:(unfold umax in *; lia)) as [index Ei]. rewrite Ei.
  pose proof (index_of_nodes _ _ Hnd Ei) as Hidx.
  destruct (key_edges_ok index edges) as [ks Ek].
  { intros e He. destruct (list_elem_of_lookup_1 nodes (ed_from e)) as [n Hn]; [apply Hnodes; eauto|].
    exists n. by apply Hidx. }
  rewrite Ek. destruct (key_edges_spec _ _ _ Ek) as [Hsnd Hkeys].
  set (keyed := sort_by (fun x y => fst x <=? fst y)%nat ks).
  assert (keyed ≡ₚ ks) as Hperm by apply sort_by_perm.
  assert (length keyed = length edges) as Hlk by (rewrite Hperm, <- Hsnd, length_fmap; done).
  destruct (count_edges_ok keyed (replicate (length nodes + 1) 0%nat) 0) as [o1 Ec].
  - rewrite Hperm. eapply Forall_impl; [exact Hkeys|]. intros k Hk%Hidx%lookup_lt_Some.
    rewrite length_replicate. lia.
  - apply Forall_replicate. lia.
  - lia.
  - rewrite Ec. destruct (count_edges_spec _ _ _ Ec) as (Hl & H0 & _). rewrite length_replicate in Hl.
    destruct (prefix_sums_ok (length o1 - 1) 1 o1 0) as [off ->]; [lia|lia| |  |by eexists].
    + simpl. rewrite H0. apply lookup_replicate_2. lia.
    + pose proof (count_edges_sum _ _ _ Ec) as Hsum. rewrite sum_list_replicate in Hsum.
      destruct o1 as [|c o1]; simpl in *; rewrite ?drop_0; lia.
Qed.

(** A book that fits builds, and the graph's [out_edges] of a token are, one id each, the ways
    the book has of leaving it: every direction through every kept pool between two different
    coins, and its unwrap. *)
Theorem graph_lists_every_hop book keep :
  book_fits book ->
  (forall es, book_edges keep 0 (bk_pools book) = Ok es ->
     2 * Z.of_nat (length (es ++ unwrap_edges (bk_unwraps book))) <= umax 32) ->
  exists g, build_with book keep = Ok g /\
    forall a e, (exists id, id ∈ out_edges g a /\ edge g id = Some e) <-> book_edge book keep e /\ ed_from e = a.
Proof.
  intros Hfit Hsmall. destruct (build_with_total book keep Hfit Hsmall) as [g Hg]. exists g. split; [done|].
  destruct (build_with_ok _ _ _ Hg) as [Hok Hin]. intros a e. split.
  - intros (id & Hid & He). apply (gk_out _ Hok) in Hid as (e' & He' & Ha). rewrite He in He'. simplify_eq.
    split; [|done]. apply Hin. by eapply list_elem_of_lookup_2.
  - intros [He%Hin Ha]. apply list_elem_of_lookup_1 in He as [id Hid]. exists id. split; [|done].
    apply (gk_out _ Hok). by exists e.
Qed.

Lemma graph_lists_every_hop_witness :
  exists g, build_with ex_book (fun p => p =? 1)%nat = Ok g /\
    forall a e, (exists id, id ∈ out_edges g a /\ edge g id = Some e) <->
      book_edge ex_book (fun p => p =? 1)%nat e /\ ed_from e = a.
Proof.
  apply graph_lists_every_hop.
  - split; [vm_compute; discriminate|repeat constructor; vm_compute; discriminate].
  - intros es Hes. vm_compute in Hes. injection Hes as <-. vm_compute. discriminate.
Defined.
