(* ===== verification/RouterTable.v ===== *)
(** * The zero-size table

    [liq-router/src/graph.rs], [ZeroTable]: for every pair of tokens the best product of
    zero-size rates over the walks of at most [k] hops, as a sum of logarithms, by a
    hop-limited Bellman-Ford run backward from each target. The sentinel of [next] is
    [None]. *)

From S2P Require Import Prelude Types RouterFees RouterLog RouterGraph.
Local Open Scope Z_scope.

Definition UNREACHED : Z := - 2 ^ 63.
Definition TABLE_MAX_HOPS : nat := 10.

(** [i64::saturating_add]. *)
Definition sat_add64 (a b : Z) : Z := Z.max (- 2 ^ 63) (Z.min (a + b) (2 ^ 63 - 1)).

Record ZeroTable := mkTable {
  zt_k : nat;
  zt_n : nat;
  zt_best : list Z;
  zt_next : list (option EdgeId)
}.

(** A rated edge: source node, target node, rate and id. *)
Record Rated := mkRated { rt_u : nat; rt_v : nat; rt_rate : Z; rt_id : EdgeId }.

Definition rate_edge (g : TokenGraph) (book : Book) (id : nat) (e : Edge) : option Rated :=
  let! rate := edge_rate book e in
  let! u := node g (ed_from e) in
  let! v := node g (ed_to e) in
  let! id := try_from_nat 32 id in
  Some (mkRated u v rate id).

Fixpoint rate_edges (g : TokenGraph) (book : Book) (id : nat) (es : list Edge) : list Rated :=
  match es with
  | [] => []
  | e :: es =>
      match rate_edge g book id e with
      | Some r => r :: rate_edges g book (S id) es
      | None => rate_edges g book (S id) es
      end
  end.

(** The body of a round: one edge relaxed against the last round's [prev]. *)
Record Round := mkRound { rd_cur : list Z; rd_hop : list (option EdgeId); rd_moved : bool }.

Definition relax (t : nat) (prev : list Z) (st : Round) (r : Rated) : RRes Round :=
  let? to_t := math (prev !! rt_v r) in
  if (to_t =? UNREACHED) || (rt_u r =? t)%nat then Ok st else
  let cand := sat_add64 (rt_rate r) to_t in
  let? cell := math (rd_cur st !! rt_u r) in
  if cell <? cand then
    let cur := <[rt_u r := cand]> (rd_cur st) in
    let? hop := math (vec_set (rd_hop st) (rt_u r) (Some (rt_id r))) in
    Ok (mkRound cur hop true)
  else Ok st.

Fixpoint relax_all (t : nat) (prev : list Z) (rated : list Rated) (st : Round) : RRes Round :=
  match rated with
  | [] => Ok st
  | r :: rated => let? st := relax t prev st r in relax_all t prev rated st
  end.

Fixpoint rounds (k : nat) (t : nat) (rated : list Rated) (prev : list Z) (hop : list (option EdgeId))
  : RRes (list Z * list (option EdgeId)) :=
  match k with
  | O => Ok (prev, hop)
  | S k =>
      let? st := relax_all t prev rated (mkRound prev hop false) in
      if rd_moved st then rounds k t rated (rd_cur st) (rd_hop st) else Ok (rd_cur st, rd_hop st)
  end.

(** [slice.get_mut(row..end)?.copy_from_slice(src)]. *)
Definition copy_row {A} (l : list A) (row : nat) (src : list A) : RRes (list A) :=
  if (row + length src <=? length l)%nat then Ok (take row l ++ src ++ drop (row + length src) l)
  else Err RMath.

(** [for t in 0..n]: [todo] targets to go, the next is [t]. *)
Fixpoint targets (todo t n k : nat) (rated : list Rated) (best : list Z) (next : list (option EdgeId))
  : RRes (list Z * list (option EdgeId)) :=
  match todo with
  | O => Ok (best, next)
  | S todo =>
      let? prev := math (vec_set (replicate n UNREACHED) t 0) in
      let? (prev, hop) := rounds k t rated prev (replicate n None) in
      let? best := copy_row best (t * n) prev in
      let? next := copy_row next (t * n) hop in
      targets todo (S t) n k rated best next
  end.

Definition table_build (g : TokenGraph) (book : Book) (k : nat) : RRes ZeroTable :=
  if (k =? 0)%nat || (TABLE_MAX_HOPS <? k)%nat then Err BadLeg else
  let n := length (tg_nodes g) in
  let rated := rate_edges g book 0 (tg_edges g) in
  let? (best, next) := targets n 0 n k rated (replicate (n * n) UNREACHED) (replicate (n * n) None) in
  Ok (mkTable k n best next).

Definition table_hops (z : ZeroTable) : nat := zt_k z.

Definition table_cell (z : ZeroTable) (g : TokenGraph) (from to_ : AssetId) : option nat :=
  let! s := node g from in
  let! t := node g to_ in
  Some (t * zt_n z + s)%nat.

Definition table_best (z : ZeroTable) (g : TokenGraph) (from to_ : AssetId) : option Z :=
  if from =? to_ then Some 0 else
  let! c := table_cell z g from to_ in
  let! v := zt_best z !! c in
  if v =? UNREACHED then None else Some v.

Definition first_hop (z : ZeroTable) (g : TokenGraph) (from to_ : AssetId) : option EdgeId :=
  let! c := table_cell z g from to_ in
  let! e := zt_next z !! c in e.

Example ex_table :
  exists g z, build ex_book = Ok g /\ table_build g ex_book 2 = Ok z /\
    table_best z g 9 3 = Some 16 /\ first_hop z g 9 3 = Some 8%nat /\ table_best z g 3 9 = None.
Proof. do 2 eexists. split; [vm_compute; reflexivity|]. split; [vm_compute; reflexivity|]. vm_compute. auto. Qed.

(** ** Walks *)

(** A walk of at most [k] hops into [t] that leaves [t] never, and the sum of its rates. *)
Inductive walk (rated : list Rated) (t : nat) : nat -> nat -> Z -> Prop :=
| walk_here k : walk rated t k t 0
| walk_hop k r x : r ∈ rated -> rt_u r <> t -> walk rated t k (rt_v r) x ->
    walk rated t (S k) (rt_u r) (rt_rate r + x).

Definition RATE_MAX : Z := 2 ^ 42.

Section Rounds.
Context (n t : nat) (rated : list Rated).
Hypothesis nodes_fit : Forall (fun r => rt_u r < n /\ rt_v r < n)%nat rated.
Hypothesis rates_fit : Forall (fun r => Z.abs (rt_rate r) <= RATE_MAX) rated.

Lemma walk_bound k s x : walk rated t k s x -> Z.abs x <= Z.of_nat k * RATE_MAX.
Proof using rates_fit.
  induction 1 as [k|k r x Hr Hne Hw IH]; [unfold RATE_MAX; lia|].
  rewrite Forall_forall in rates_fit. specialize (rates_fit _ Hr). lia.
Qed.

Lemma walk_more k s x : walk rated t k s x -> walk rated t (S k) s x.
Proof. induction 1; by constructor. Qed.

(** What relaxing [r] against [prev] offers its source. *)
Definition offers (prev : list Z) (r : Rated) (c : Z) : Prop :=
  exists x, prev !! rt_v r = Some x /\ x <> UNREACHED /\ rt_u r <> t /\ c = rt_rate r + x.

Definition reach_fits (prev : list Z) : Prop :=
  length prev = n /\ Forall (fun x => x = UNREACHED \/ Z.abs x <= 2 ^ 62 - RATE_MAX) prev.

Record relaxed (prev : list Z) (done_ : list Rated) (st st' : Round) : Prop := {
  rx_len : length (rd_cur st') = length (rd_cur st);
  rx_hop_len : length (rd_hop st') = length (rd_hop st);
  rx_ge : forall u x, rd_cur st !! u = Some x -> exists x', rd_cur st' !! u = Some x' /\ x <= x';
  rx_offer : forall r c, r ∈ done_ -> offers prev r c ->
    exists x', rd_cur st' !! rt_u r = Some x' /\ c <= x';
  rx_from : forall u x', rd_cur st' !! u = Some x' ->
    rd_cur st !! u = Some x' /\ rd_hop st' !! u = rd_hop st !! u \/
    exists r, r ∈ done_ /\ rt_u r = u /\ offers prev r x' /\ rd_hop st' !! u = Some (Some (rt_id r));
  rx_moved : st' = st \/ rd_moved st' = true
}.

Lemma relaxed_stay prev st r cell : rd_cur st !! rt_u r = Some cell ->
  (forall c, offers prev r c -> c <= cell) -> relaxed prev [r] st st.
Proof.
  intros Hcell Hno. split; [done|done|intros u y Hy; by exists y| |by auto|by left].
  intros r' c ->%list_elem_of_singleton Hoff. exists cell. auto.
Qed.

Lemma relax_spec prev st r : reach_fits prev -> r ∈ rated ->
  length (rd_cur st) = n -> length (rd_hop st) = n ->
  exists st', relax t prev st r = Ok st' /\ relaxed prev [r] st st'.
Proof using nodes_fit rates_fit.
  intros [Hlen Hfit] Hr Hc Hh. rewrite Forall_forall in nodes_fit, rates_fit.
  destruct (nodes_fit _ Hr) as [Hu Hv]. specialize (rates_fit _ Hr).
  unfold relax. destruct (lookup_lt_is_Some_2 prev (rt_v r) ltac:(lia)) as [x Hx]. rewrite Hx.
  destruct (lookup_lt_is_Some_2 (rd_cur st) (rt_u r) ltac:(lia)) as [cell Hcell].
  cbn [math ok_or]. destruct (Z.eqb_spec x UNREACHED) as [->|Hxne]; cbn [orb].
  { exists st. split; [done|]. apply (relaxed_stay _ _ _ _ Hcell). intros c (y & Hy & Hne & _). congruence. }
  destruct (Nat.eqb_spec (rt_u r) t) as [Hut|Hut].
  { exists st. split; [done|]. apply (relaxed_stay _ _ _ _ Hcell). intros c (y & _ & _ & Hne & _). done. }
  rewrite Hcell. cbn [math ok_or].
  assert (sat_add64 (rt_rate r) x = rt_rate r + x) as ->.
  { destruct (Forall_lookup_1 _ _ _ _ Hfit Hx) as [|Hb]; [done|]. unfold sat_add64, RATE_MAX in *. lia. }
  assert (Hoffers : offers prev r (rt_rate r + x)) by (exists x; done).
  destruct (Z.ltb_spec cell (rt_rate r + x)) as [Hlt|Hge].
  - rewrite vec_set_lt by lia. cbn. eexists. split; [reflexivity|].
    split; cbn; [by rewrite length_insert|by rewrite length_insert|..|by right].
    + intros u y Hy. destruct (decide (u = rt_u r)) as [->|Hne].
      * exists (rt_rate r + x). rewrite list_lookup_insert_eq by lia. split; [done|]. rewrite Hcell in Hy. simplify_eq. lia.
      * exists y. rewrite list_lookup_insert_ne by done. done.
    + intros r' c ->%list_elem_of_singleton (y & Hy & _ & _ & ->). rewrite Hx in Hy. simplify_eq.
      exists (rt_rate r + y). rewrite list_lookup_insert_eq by lia. done.
    + intros u x' Hu'. apply list_lookup_insert_Some in Hu' as [(<- & <- & _)|[Hne Hu']].
      * right. exists r. rewrite list_elem_of_singleton, list_lookup_insert_eq by lia. done.
      * left. rewrite list_lookup_insert_ne by done. done.
  - exists st. split; [done|]. apply (relaxed_stay _ _ _ _ Hcell).
    intros c (y & Hy & _ & _ & ->). rewrite Hx in Hy. simplify_eq. lia.
Qed.

Lemma relaxed_trans prev s0 s1 s2 d1 d2 :
  relaxed prev d1 s0 s1 -> relaxed prev d2 s1 s2 -> relaxed prev (d1 ++ d2) s0 s2.
Proof.
  intros [Hl1 Hh1 Hg1 Ho1 Hf1 Hm1] [Hl2 Hh2 Hg2 Ho2 Hf2 Hm2]. split.
  - congruence.
  - congruence.
  - intros u x (x1 & Hx1 & Hle1)%Hg1. destruct (Hg2 _ _ Hx1) as (x2 & Hx2 & Hle2). exists x2. split; [done|lia].
  - intros r c [Hr|Hr]%elem_of_app Hoff; [|by apply Ho2].
    destruct (Ho1 _ _ Hr Hoff) as (x1 & Hx1 & Hle1). destruct (Hg2 _ _ Hx1) as (x2 & Hx2 & Hle2). exists x2. split; [done|lia].
  - intros u x' [[Hu Hhop]|(r & Hr & Hru & Hoff & Hhop)]%Hf2.
    + rewrite Hhop. destruct (Hf1 _ _ Hu) as [?|(r & Hr & Hru & Hoff & Hhop')]; [by left|].
      right. exists r. rewrite elem_of_app. auto.
    + right. exists r. rewrite elem_of_app. auto.
  - destruct Hm2 as [->|]; [|by right]. destruct Hm1 as [->|]; [by left|by right].
Qed.

Lemma relax_all_spec prev rs : forall st, reach_fits prev -> rs ⊆ rated ->
  length (rd_cur st) = n -> length (rd_hop st) = n ->
  exists st', relax_all t prev rs st = Ok st' /\ relaxed prev rs st st'.
Proof using nodes_fit rates_fit.
  induction rs as [|r rs IH]; intros st Hp Hsub Hc Hh; simpl.
  - exists st. split; [done|]. split; [done|done|intros u y Hy; by exists y|by intros ? ? ?%elem_of_nil|by auto|by left].
  - destruct (relax_spec prev st r Hp ltac:(set_solver) Hc Hh) as (s1 & -> & Hx1).
    pose proof (rx_len _ _ _ _ Hx1) as Hl1. pose proof (rx_hop_len _ _ _ _ Hx1) as Hl2.
    destruct (IH s1 Hp ltac:(set_solver) ltac:(lia) ltac:(lia)) as (s2 & -> & Hx2).
    exists s2. split; [done|by apply (relaxed_trans _ _ _ _ [r] rs Hx1 Hx2)].
Qed.

(** A row is exact for [k] hops: its cells are the best walks, its hops start one of them. *)
Record exact (k : nat) (row : list Z) (hop : list (option EdgeId)) : Prop := {
  ex_len : length row = n;
  ex_hop_len : length hop = n;
  ex_walk : forall s x, row !! s = Some x -> x <> UNREACHED -> walk rated t k s x;
  ex_best : forall s y, (s < n)%nat -> walk rated t k s y ->
    exists x, row !! s = Some x /\ x <> UNREACHED /\ y <= x;
  ex_hop : forall s id, hop !! s = Some (Some id) -> exists r k' x, r ∈ rated /\ rt_id r = id /\
    rt_u r = s /\ s <> t /\ k = S k' /\ walk rated t k' (rt_v r) x /\ row !! s = Some (rt_rate r + x);
  ex_no_hop : forall s x, hop !! s = Some None -> row !! s = Some x -> s = t \/ x = UNREACHED
}.

Lemma exact_fits k row hop : (k <= 10)%nat -> exact k row hop -> reach_fits row.
Proof using rates_fit.
  intros Hk [Hl _ Hw _ _ _]. split; [done|]. apply Forall_lookup_2. intros s x Hx.
  destruct (decide (x = UNREACHED)); [by left|]. right.
  pose proof (walk_bound _ _ _ (Hw _ _ Hx ltac:(done))). unfold RATE_MAX in *. lia.
Qed.

Lemma exact_round k row hop st : (k < 10)%nat -> exact k row hop ->
  relaxed row rated (mkRound row hop false) st -> exact (S k) (rd_cur st) (rd_hop st).
Proof using nodes_fit rates_fit.
  intros Hk Hex Hx. pose proof (exact_fits k row hop ltac:(lia) Hex) as [_ Hfit].
  destruct Hex as [Hl Hh Hw Hb Hhop Hno]. destruct Hx as [Hl' Hh' Hge Hoff Hfrom _]. cbn in *.
  split; [lia|lia|..].
  - intros s x Hs Hne. destruct (Hfrom _ _ Hs) as [[Hs' _]|(r & Hr & <- & (y & Hy & Hyne & Hut & ->) & _)].
    + by apply walk_more, Hw.
    + apply walk_hop; [done|done|]. by apply Hw.
  - intros s y Hs Hwalk. inversion Hwalk as [k0|k0 r x Hr Hut Hw']; subst.
    + destruct (Hb t 0 Hs ltac:(constructor)) as (x0 & Hx0 & Hne & Hle).
      destruct (Hge _ _ Hx0) as (x' & Hx' & Hle'). exists x'. unfold UNREACHED. split_and!; [done|lia|lia].
    + pose proof nodes_fit as Hnf. rewrite Forall_forall in Hnf. destruct (Hnf _ Hr) as [Hu Hv].
      pose proof rates_fit as Hrf. rewrite Forall_forall in Hrf. specialize (Hrf _ Hr).
      destruct (Hb _ _ Hv Hw') as (z & Hz & Hzne & Hle).
      destruct (Hoff r (rt_rate r + z) Hr) as (x' & Hx' & Hle'); [by exists z|].
      exists x'. split_and!; [done| |lia].
      destruct (Forall_lookup_1 _ _ _ _ Hfit Hz) as [|Hzb]; [done|]. unfold UNREACHED, RATE_MAX in *. lia.
  - intros s id Hid. apply lookup_lt_Some in Hid as Hlt.
    destruct (lookup_lt_is_Some_2 (rd_cur st) s ltac:(lia)) as [x' Hx'].
    destruct (Hfrom _ _ Hx') as [[Hs' Heq]|(r & Hr & <- & (y & Hy & Hyne & Hut & ->) & Hhop')].
    + rewrite Heq in Hid. destruct (Hhop _ _ Hid) as (r & k' & x & Hr & Hri & Hru & Hst & -> & Hw' & Hrow).
      exists r, (S k'), x. rewrite Hs' in Hrow. split_and!; try done; [by apply walk_more|]. rewrite Hx'. exact Hrow.
    + rewrite Hid in Hhop'. simplify_eq. exists r, k, y. split_and!; try done. by apply Hw.
  - intros s x Hs Hx. destruct (Hfrom _ _ Hx) as [[Hs' Heq]|(r & Hr & <- & _ & Hhop')].
    + apply (Hno s x); [|done]. by rewrite <- Heq.
    + congruence.
Qed.

(** A round that moves nothing: the row is exact for every further hop. *)
Lemma exact_still k m row hop : (k + m <= 10)%nat -> exact k row hop ->
  relaxed row rated (mkRound row hop false) (mkRound row hop false) -> exact (k + m) row hop.
Proof using nodes_fit rates_fit.
  intros Hkm Hex Hx. induction m as [|m IH]; [by rewrite Nat.add_0_r|].
  rewrite Nat.add_succ_r. apply (exact_round (k + m) row hop (mkRound row hop false)); [lia|apply IH; lia|done].
Qed.

Lemma rounds_exact m : forall k row hop, (k + m <= 10)%nat -> exact k row hop ->
  exists row' hop', rounds m t rated row hop = Ok (row', hop') /\ exact (k + m) row' hop'.
Proof using nodes_fit rates_fit.
  induction m as [|m IH]; intros k row hop Hkm Hex; simpl.
  - exists row, hop. by rewrite Nat.add_0_r.
  - destruct (relax_all_spec row rated (mkRound row hop false)) as (st & -> & Hx);
      [by apply (exact_fits k row hop); [lia|]|done|apply Hex|apply Hex|].
    destruct (rd_moved st) eqn:Em.
    + destruct (IH (S k) (rd_cur st) (rd_hop st) ltac:(lia)) as (row' & hop' & -> & Hex').
      * by apply (exact_round k row hop); [lia|..].
      * exists row', hop'. by rewrite Nat.add_succ_r.
    + destruct (rx_moved _ _ _ _ Hx) as [->|]; [|congruence]. cbn.
      exists row, hop. split; [done|]. by apply exact_still.
Qed.

Lemma exact_start : (t < n)%nat -> exact 0 (<[t := 0]> (replicate n UNREACHED)) (replicate n None).
Proof.
  intros Ht. split.
  - by rewrite length_insert, length_replicate.
  - by rewrite length_replicate.
  - intros s x Hs Hne. apply list_lookup_insert_Some in Hs as [(<- & <- & _)|[_ Hs]]; [constructor|].
    by apply lookup_replicate_1 in Hs as [-> _].
  - intros s y Hs Hw. inversion Hw; subst. exists 0.
    rewrite list_lookup_insert_eq by (by rewrite length_replicate). done.
  - intros s id Hs. by apply lookup_replicate_1 in Hs as [? _].
  - intros s x _ Hs. apply list_lookup_insert_Some in Hs as [(<- & _)|[_ Hs]]; [by left|].
    right. by apply lookup_replicate_1 in Hs as [-> _].
Qed.
End Rounds.

(** ** The table *)

Lemma copy_row_spec {A} (l src : list A) row n :
  length src = n -> (row + n <= length l)%nat ->
  exists l', copy_row l row src = Ok l' /\ length l' = length l /\
    (forall i, (i < n)%nat -> l' !! (row + i)%nat = src !! i) /\
    (forall i, (i < row)%nat -> l' !! i = l !! i).
Proof.
  intros <- Hl. unfold copy_row. rewrite (proj2 (Nat.leb_le _ _)) by lia. eexists. split; [reflexivity|].
  assert (length (take row l) = row) as Hr by (rewrite length_take; lia). split_and!.
  - rewrite !length_app, Hr, length_drop. lia.
  - intros i Hi. rewrite lookup_app_r, Hr by lia. rewrite lookup_app_l by lia. f_equal. lia.
  - intros i Hi. rewrite lookup_app_l by lia. by apply lookup_take_lt.
Qed.

Section Targets.
Context (n k : nat) (rated : list Rated).
Hypothesis k_small : (k <= 10)%nat.
Hypothesis nodes_fit : Forall (fun r => rt_u r < n /\ rt_v r < n)%nat rated.
Hypothesis rates_fit : Forall (fun r => Z.abs (rt_rate r) <= RATE_MAX) rated.

(** The rows of the targets before [t] are in place. *)
Definition filled (t : nat) (best : list Z) (next : list (option EdgeId)) : Prop :=
  length best = (n * n)%nat /\ length next = (n * n)%nat /\
  forall t', (t' < t)%nat -> exists row hop, exact n t' rated k row hop /\
    forall s, (s < n)%nat -> best !! (t' * n + s)%nat = row !! s /\ next !! (t' * n + s)%nat = hop !! s.

Lemma targets_filled todo : forall t best next, (t + todo = n)%nat -> filled t best next ->
  exists best' next', targets todo t n k rated best next = Ok (best', next') /\ filled n best' next'.
Proof using k_small nodes_fit rates_fit.
  induction todo as [|todo IH]; intros t best next Ht Hf; simpl.
  - exists best, next. replace n with t by lia. done.
  - rewrite vec_set_lt by (rewrite length_replicate; lia). cbn.
    destruct (rounds_exact n t rated nodes_fit rates_fit k 0 _ _ ltac:(lia) (exact_start n t rated ltac:(lia)))
      as (row & hop & -> & Hex).
    cbn in Hex. destruct Hf as (Hlb & Hln & Hrows).
    destruct (copy_row_spec best row (t * n) n) as (b' & -> & Hb' & Hnew & Hold); [apply Hex|nia|].
    destruct (copy_row_spec next hop (t * n) n) as (n' & -> & Hn' & Hnew' & Hold'); [apply Hex|nia|].
    apply IH; [lia|]. split_and!; [lia|lia|]. intros t' Hlt. destruct (decide (t' = t)) as [->|].
    + exists row, hop. split; [done|]. intros s Hs. by rewrite Hnew, Hnew'.
    + destruct (Hrows t' ltac:(lia)) as (r0 & h0 & Hex0 & Hr0). exists r0, h0. split; [done|].
      intros s Hs. rewrite Hold, Hold' by nia. by apply Hr0.
Qed.
End Targets.

(** A book whose [ρ]s are 256-bit words. *)
Record book_words (book : Book) : Prop := {
  bw_pool : forall p i j rho, bk_pool_rho book p i j = Some rho -> 0 <= rho < 2 ^ 256;
  bw_unwrap : forall w rho, bk_unwrap_rho book w = Some rho -> 0 <= rho < 2 ^ 256
}.

Lemma rate_of_rho_fits rho r : 0 <= rho < 2 ^ 256 -> rate_of_rho rho = Some r -> Z.abs r <= RATE_MAX.
Proof.
  intros Hr H. destruct (decide (rho = 0)) as [->|]; [done|].
  destruct (rate_of_rho_spec rho ltac:(lia)) as (r' & H' & Hb & _). rewrite H in H'. injection H' as <-. exact Hb.
Qed.

Lemma edge_rate_fits book e r : book_words book -> edge_rate book e = Some r -> Z.abs r <= RATE_MAX.
Proof.
  intros [Hp Hu]. unfold edge_rate. destruct (ed_via e) as [l|w].
  - destruct (bk_pool_rho _ _ _ _) as [rho|] eqn:E; [|done]. by apply rate_of_rho_fits, (Hp _ _ _ _ E).
  - destruct (bk_unwrap_rho _ _) as [rho|] eqn:E; [|done]. by apply rate_of_rho_fits, (Hu _ _ E).
Qed.

Lemma rate_edges_in g book es : forall id r, r ∈ rate_edges g book id es <->
  exists i e, es !! i = Some e /\ rate_edge g book (id + i) e = Some r.
Proof.
  induction es as [|e es IH]; intros id r; simpl.
  - split; [by intros ?%elem_of_nil|]. by intros (i & e & ? & _).
  - assert ((exists i e', (e :: es) !! i = Some e' /\ rate_edge g book (id + i) e' = Some r) <->
      rate_edge g book id e = Some r \/ r ∈ rate_edges g book (S id) es) as ->.
    { rewrite IH. split.
      - intros ([|i] & e' & He & Hr); [simplify_eq/=; rewrite Nat.add_0_r in Hr; by left|].
        right. exists i, e'. rewrite Nat.add_succ_comm. done.
      - intros [Hr|(i & e' & He & Hr)]; [exists 0%nat, e; rewrite Nat.add_0_r; done|].
        exists (S i), e'. rewrite <- Nat.add_succ_comm. done. }
    destruct (rate_edge g book id e) as [r0|]; [|naive_solver].
    rewrite elem_of_cons. naive_solver.
Qed.

(** A walk over edges of the graph that can be quoted now, into [to_], and the sum of its
    rates. *)
Inductive rate_walk (g : TokenGraph) (book : Book) (to_ : AssetId) : nat -> AssetId -> Z -> Prop :=
| rate_here k : rate_walk g book to_ k to_ 0
| rate_hop k id e rate x : edge g id = Some e -> edge_rate book e = Some rate -> ed_from e <> to_ ->
    rate_walk g book to_ k (ed_to e) x -> rate_walk g book to_ (S k) (ed_from e) (rate + x).

Section Table.
Context (g : TokenGraph) (book : Book).
Hypothesis Hg : graph_ok g.
Hypothesis Hbook : book_words book.

Abbreviation rated := (rate_edges g book 0 (tg_edges g)).

Lemma rated_in r : r ∈ rated <-> exists e, edge g (rt_id r) = Some e /\ edge_rate book e = Some (rt_rate r) /\
  tg_nodes g !! rt_u r = Some (ed_from e) /\ tg_nodes g !! rt_v r = Some (ed_to e).
Proof using Hg.
  rewrite rate_edges_in. unfold rate_edge. cbn [plus]. setoid_rewrite <- (gk_node g Hg). split.
  - intros (i & e & He & Hr). apply lookup_lt_Some in He as Hlt.
    destruct (edge_rate book e) as [rate|] eqn:Erate; [|done].
    destruct (node g (ed_from e)) as [u|] eqn:Eu; [|done].
    destruct (node g (ed_to e)) as [v|] eqn:Ev; [|done].
    destruct (try_from_nat 32 i) as [i'|] eqn:Ei; [|done]. apply try_from_nat_Some in Ei as [-> _].
    simplify_eq. exists e. done.
  - intros (e & He & Hr & Hu & Hv). exists (rt_id r), e. split; [exact He|]. rewrite Hr, Hu, Hv.
    apply lookup_lt_Some in He. pose proof (gk_ids g Hg).
    unfold try_from_nat. rewrite (proj2 (Z.leb_le _ _)) by lia. by destruct r.
Qed.

Lemma rated_fits : Forall (fun r => rt_u r < length (tg_nodes g) /\ rt_v r < length (tg_nodes g))%nat rated /\
  Forall (fun r => Z.abs (rt_rate r) <= RATE_MAX) rated.
Proof using Hg Hbook.
  split; apply Forall_forall; intros r (e & He & Hr & Hu & Hv)%rated_in.
  - split; by eapply lookup_lt_Some.
  - by eapply edge_rate_fits.
Qed.

Lemma walk_rate_walk to_ t k s x : tg_nodes g !! t = Some to_ -> walk rated t k s x ->
  forall a, tg_nodes g !! s = Some a -> rate_walk g book to_ k a x.
Proof using Hg.
  intros Ht. induction 1 as [k|k r x Hr Hut Hw IH]; intros a Ha.
  - rewrite Ht in Ha. simplify_eq. constructor.
  - apply rated_in in Hr as (e & He & Hrate & Hu & Hv). rewrite Hu in Ha. simplify_eq.
    econstructor; [done|done| |by apply IH]. intros Heq. apply Hut.
    eapply NoDup_lookup; [apply (gk_nodup g Hg)|exact Hu|by rewrite Heq].
Qed.

Lemma rate_walk_walk to_ t k a x : tg_nodes g !! t = Some to_ -> rate_walk g book to_ k a x ->
  exists s, tg_nodes g !! s = Some a /\ walk rated t k s x.
Proof using Hg.
  intros Ht. induction 1 as [k|k id e rate x He Hrate Hne Hw IH].
  - exists t. split; [done|constructor].
  - destruct IH as (v & Hv & Hwv). destruct (gk_ends g Hg _ _ He) as (Hfrom & _).
    apply list_elem_of_lookup_1 in Hfrom as [u Hu]. exists u. split; [done|].
    apply (walk_hop _ _ k (mkRated u v rate id) x); cbn; [|intros ->; congruence|done].
    apply rated_in. by exists e.
Qed.

Lemma rate_walk_self to_ k x : rate_walk g book to_ k to_ x -> x = 0.
Proof. by inversion 1. Qed.

Lemma rate_walk_node to_ k a x : rate_walk g book to_ k a x -> a <> to_ ->
  is_Some (node g a) /\ is_Some (node g to_).
Proof using Hg.
  induction 1 as [k|k id e rate x He _ Hne _ IH]; [done|]. intros _.
  destruct (gk_ends g Hg _ _ He) as ([i Hi]%list_elem_of_lookup_1 & [j Hj]%list_elem_of_lookup_1 & _).
  apply (gk_node g Hg) in Hi, Hj. split; [by exists i|].
  destruct (decide (ed_to e = to_)) as [<-|]; [by exists j|]. by apply IH.
Qed.

(** The row of a target holds its source nodes' best walks. *)
Definition table_rows (k : nat) (z : ZeroTable) : Prop :=
  table_hops z = k /\ forall from to_ s t, node g from = Some s -> node g to_ = Some t ->
    exists row hop, exact (length (tg_nodes g)) t rated k row hop /\ (s < length row)%nat /\
      table_cell z g from to_ = Some (t * zt_n z + s)%nat /\
      zt_best z !! (t * zt_n z + s)%nat = row !! s /\ zt_next z !! (t * zt_n z + s)%nat = hop !! s.

Lemma table_build_rows k : (1 <= k <= 10)%nat ->
  exists z, table_build g book k = Ok z /\ table_rows k z.
Proof using Hg Hbook.
  intros Hk. unfold table_build.
  rewrite (proj2 (Nat.eqb_neq _ _)), (proj2 (Nat.ltb_ge _ _)) by (unfold TABLE_MAX_HOPS; lia). cbn [orb].
  destruct rated_fits as [Hnf Hrf]. set (n := length (tg_nodes g)) in *.
  destruct (targets_filled n k rated ltac:(lia) Hnf Hrf n 0 (replicate (n * n) UNREACHED) (replicate (n * n) None))
    as (best & next & -> & Hlb & _ & Hrows); [lia|split_and!; [apply length_replicate|apply length_replicate|lia]|].
  eexists. split; [reflexivity|]. split; [done|]. intros from to_ s t Es Et.
  unfold table_cell. rewrite Es, Et. cbn.
  apply (gk_node g Hg) in Es, Et. apply lookup_lt_Some in Es as Hs, Et as Ht.
  destruct (Hrows t Ht) as (row & hop & Hex & Hrow). destruct (Hrow s Hs) as [Hb Hn].
  exists row, hop. split_and!; try done. by rewrite (ex_len _ _ _ _ _ _ Hex).
Qed.

(** What the table holds for a pair of tokens. *)
Definition table_ok (k : nat) (z : ZeroTable) : Prop :=
  table_hops z = k /\ forall from to_,
    match table_best z g from to_ with
    | Some v => rate_walk g book to_ k from v /\ forall x, rate_walk g book to_ k from x -> x <= v
    | None => forall x, ~ rate_walk g book to_ k from x
    end.

Lemma table_rows_ok k z : table_rows k z -> table_ok k z.
Proof using Hg.
  intros [Hk Hrows]. split; [done|]. intros from to_. unfold table_best.
  destruct (Z.eqb_spec from to_) as [->|Hne].
  { split; [constructor|]. intros x ->%rate_walk_self. lia. }
  destruct (node g from) as [s|] eqn:Es.
  2: { unfold table_cell. rewrite Es. intros x Hw. destruct (rate_walk_node _ _ _ _ Hw Hne) as [[i Hi] _]. congruence. }
  destruct (node g to_) as [t|] eqn:Et.
  2: { unfold table_cell. rewrite Es, Et. intros x Hw. destruct (rate_walk_node _ _ _ _ Hw Hne) as [_ [i Hi]]. congruence. }
  destruct (Hrows _ _ _ _ Es Et) as (row & hop & Hex & Hs & -> & -> & _).
  destruct (lookup_lt_is_Some_2 row s Hs) as [v Hv]. rewrite Hv. rewrite (ex_len _ _ _ _ _ _ Hex) in Hs.
  apply (gk_node g Hg) in Es, Et.
  assert (Hup : forall x, rate_walk g book to_ k from x -> v <> UNREACHED /\ x <= v).
  { intros x (s' & Hs' & Hw)%(rate_walk_walk _ t); [|done].
    assert (s' = s) as -> by (eapply NoDup_lookup; [apply (gk_nodup g Hg)|exact Hs'|exact Es]).
    destruct (ex_best _ _ _ _ _ _ Hex s x Hs Hw) as (v' & Hv' & Hne' & Hle). rewrite Hv in Hv'. by simplify_eq. }
  destruct (Z.eqb_spec v UNREACHED) as [Hun|Hun].
  - intros x Hx. by apply Hup in Hx as [? _].
  - split; [|intros x Hx; by apply Hup]. eapply walk_rate_walk; [exact Et| |exact Es].
    by apply (ex_walk _ _ _ _ _ _ Hex).
Qed.

Lemma first_hop_attains k z from to_ id : (k <= 10)%nat -> table_rows k z -> first_hop z g from to_ = Some id ->
  exists e rate x k', edge g id = Some e /\ ed_from e = from /\ edge_rate book e = Some rate /\ k = S k' /\
    rate_walk g book to_ k' (ed_to e) x /\ table_best z g from to_ = Some (rate + x).
Proof using Hg Hbook.
  intros Hk10 [Hk Hrows]. unfold first_hop, table_best, table_cell.
  destruct (node g from) as [s|] eqn:Es; [|done]. destruct (node g to_) as [t|] eqn:Et; [|done].
  destruct (Hrows _ _ _ _ Es Et) as (row & hop & Hex & Hs & _ & -> & ->).
  destruct (hop !! s) as [[h|]|] eqn:Eh; [|done|done]. intros [= ->].
  destruct (ex_hop _ _ _ _ _ _ Hex s id Eh) as (r & k' & x & Hr & <- & Hru & Hst & -> & Hw & Hrow).
  apply rated_in in Hr as (e & He & Hrate & Hu & Hv). apply (gk_node g Hg) in Es, Et.
  rewrite Hru, Es in Hu. injection Hu as Hfrom.
  exists e, (rt_rate r), x, k'. split_and!; try done; [by eapply walk_rate_walk|].
  rewrite (proj2 (Z.eqb_neq _ _)) by (intros ->; apply Hst; eapply NoDup_lookup; [apply (gk_nodup g Hg)|exact Es|exact Et]).
  rewrite Hrow. rewrite (proj2 (Z.eqb_neq _ _)); [done|].
  destruct rated_fits as [_ Hrf].
  assert (Hb : Z.abs x <= Z.of_nat k' * RATE_MAX) by (eapply walk_bound; [exact Hrf|exact Hw]).
  pose proof (edge_rate_fits _ _ _ Hbook Hrate).
  unfold RATE_MAX, UNREACHED in *. lia.
Qed.
End Table.

(** On the graph of a book, [ZeroTable::build] of one to ten hops succeeds; a cell is the best
    sum of zero-size rates over every walk of at most [k] quotable hops that does not leave
    its target, and [None] exactly where there is no such walk; the first hop it names is one
    that attains the cell. *)
Theorem table_is_the_best_walk book keep g k :
  build_with book keep = Ok g -> book_words book -> (1 <= k <= 10)%nat ->
  exists z, table_build g book k = Ok z /\ table_hops z = k /\
    forall from to_,
      match table_best z g from to_ with
      | Some v => rate_walk g book to_ k from v /\ forall x, rate_walk g book to_ k from x -> x <= v
      | None => forall x, ~ rate_walk g book to_ k from x
      end /\
      forall id, first_hop z g from to_ = Some id ->
        exists e rate x k', edge g id = Some e /\ ed_from e = from /\ edge_rate book e = Some rate /\
          k = S k' /\ rate_walk g book to_ k' (ed_to e) x /\ table_best z g from to_ = Some (rate + x).
Proof.
  intros Hb Hw Hk. destruct (build_with_ok _ _ _ Hb) as [Hg _].
  destruct (table_build_rows g book Hg Hw k Hk) as (z & Hz & Hrows). exists z.
  destruct (table_rows_ok g book Hg k z Hrows) as [Hh Hbest]. split_and!; [done|done|].
  intros from to_. split; [apply Hbest|]. intros id Hid. eapply first_hop_attains; [done|done| |done|done]. lia.
Qed.

Lemma ex_book_words : book_words ex_book.
Proof. split; cbn; intros; simplify_eq; lia. Qed.

Lemma table_is_the_best_walk_witness :
  exists g z, build ex_book = Ok g /\ table_build g ex_book 2 = Ok z /\
    match table_best z g 9 3 with
    | Some v => rate_walk g ex_book 3 2 9 v /\ forall x, rate_walk g ex_book 3 2 9 x -> x <= v
    | None => forall x, ~ rate_walk g ex_book 3 2 9 x
    end.
Proof.
  destruct ex_graph_built as (g & Hg & _).
  destruct (table_is_the_best_walk ex_book (fun _ => true) g 2 Hg ex_book_words ltac:(lia)) as (z & Hz & _ & Hall).
  exists g, z. split_and!; [exact Hg|exact Hz|apply Hall].
Defined.
