(* ===== verification/RouterSearch.v ===== *)
(** * The route search

    [liq-router/src/graph.rs], [search]: a depth-first branch and bound over the simple paths
    of the token graph. The amount is carried through each hop by the pools' own quotes; a
    branch is cut when the zero-size table says that it cannot beat the routes kept.

    [path] and [visited] are restored by the source after each child, so here they are passed
    down. [hops_left] is [budget.max_hops] less the length of the path. The children are
    sorted by [sort_unstable_by_key]: any function that reorders them. *)

From Stdlib Require Import Reals Lra Sorted.
From S2P Require Import Prelude Types Flash RouterFees RouterLog RouterGraph RouterTable.
Local Open Scope Z_scope.

(** The trait: the exact output of one hop for an input amount. *)
Class HopQuoter := quote : Edge -> Z -> RRes Z.

Record Route := mkRoute {
  ro_edges : list EdgeId;
  ro_amount_out : Z;
  ro_hop_gas : Z;
  ro_net : Z
}.

Record SearchBudget := mkBudget {
  sb_max_hops : nat;
  sb_top_n : nat;
  sb_max_quotes : Z;
  sb_min_share_bps : Z
}.

Record SearchResult := mkResult {
  sr_routes : list Route;
  sr_quotes : Z;
  sr_pruned : Z;
  sr_exhausted : bool
}.

Definition no_result : SearchResult := mkResult [] 0 0 false.

Definition set_routes (o : SearchResult) (rs : list Route) : SearchResult :=
  mkResult rs (sr_quotes o) (sr_pruned o) (sr_exhausted o).
Definition one_quote (o : SearchResult) : SearchResult :=
  mkResult (sr_routes o) (saturating_add 32 (sr_quotes o) 1) (sr_pruned o) (sr_exhausted o).
Definition one_pruned (o : SearchResult) : SearchResult :=
  mkResult (sr_routes o) (sr_quotes o) (saturating_add 32 (sr_pruned o) 1) (sr_exhausted o).
Definition set_exhausted (o : SearchResult) : SearchResult :=
  mkResult (sr_routes o) (sr_quotes o) (sr_pruned o) true.

(** [Option::max]: [None] is below every [Some]. *)
Definition opt_max (a b : option Z) : option Z :=
  match a, b with
  | Some x, Some y => Some (Z.max x y)
  | Some x, None => Some x
  | None, b => b
  end.

(** A child of a node: its bound, its edge and the amount quoted. *)
Record Child := mkChild { ch_bound : Z; ch_id : EdgeId; ch_got : Z }.

(** [routes.insert(at, route)], [at] the first place with a smaller net. *)
Fixpoint insert_net (r : Route) (rs : list Route) : list Route :=
  match rs with
  | [] => [r]
  | x :: rs' => if ro_net x <? ro_net r then r :: rs else x :: insert_net r rs'
  end.

Section Search.
Context (g : TokenGraph) (table : ZeroTable) `{HopQuoter} (gas : GasTerms) (to_ : AssetId)
  (budget : SearchBudget) (sort : list Child -> list Child).

Definition share_bar (rs : list Route) : option Z :=
  match rs with
  | [] => None
  | best :: _ =>
      match mul_div_512 (ro_net best) (sb_min_share_bps budget) 10000 with
      | Ok b => if b =? 0 then None else Some b
      | Err _ => None
      end
  end.

Definition bar (rs : list Route) : option Z :=
  let nth := if (sb_top_n budget <=? length rs)%nat then ro_net <$> last rs else None in
  opt_max nth (share_bar rs).

Definition record (o : SearchResult) (path : list EdgeId) (amount_out hop_gas : Z) : RRes SearchResult :=
  let? cost := cost_in_out gas hop_gas in
  let route := mkRoute path amount_out hop_gas (saturating_sub amount_out cost) in
  let rs := take (sb_top_n budget) (insert_net route (sr_routes o)) in
  Ok (set_routes o
    (match share_bar rs with
     | Some b => List.filter (fun r => b <=? ro_net r) rs
     | None => rs
     end)).

(** A pool the path went through. *)
Definition through (path : list EdgeId) (p : PoolId) : bool :=
  existsb (fun id => match ed_via <$> edge g id with
                     | Some (ViaPool m) => (leg_pool m =? p)%nat
                     | _ => false
                     end) path.

Definition pool_used (path : list EdgeId) (v : Via) : bool :=
  match v with ViaPool l => through path (leg_pool l) | ViaUnwrap _ => false end.

(** Quote every live child; [None] when the quotes ran out. *)
Fixpoint quote_children (ids : list EdgeId) (path : list EdgeId) (visited : list bool) (amount : Z)
  (o : SearchResult) : SearchResult * option (list Child) :=
  match ids with
  | [] => (o, Some [])
  | id :: ids =>
      match edge g id with
      | None => quote_children ids path visited amount o
      | Some e =>
          match node g (ed_to e) with
          | None => quote_children ids path visited amount o
          | Some n =>
              if default true (visited !! n) then quote_children ids path visited amount o else
              if pool_used path (ed_via e) then quote_children ids path visited amount o else
              match table_best table g (ed_to e) to_ with
              | None => quote_children ids path visited amount o
              | Some onward =>
                  if sb_max_quotes budget <=? sr_quotes o then (set_exhausted o, None) else
                  let o := one_quote o in
                  match quote e amount with
                  | Err _ => quote_children ids path visited amount o
                  | Ok got =>
                      match log2_q32 got with
                      | None => quote_children ids path visited amount o
                      | Some lg =>
                          let bound := sat_add64 (sat_add64 lg onward) EDGE_MARGIN in
                          let '(o, cs) := quote_children ids path visited amount o in
                          (o, cons (mkChild bound id got) <$> cs)
                      end
                  end
              end
          end
      end
  end.

Definition pruned (rs : list Route) (bound : Z) : bool :=
  match bar rs with
  | Some b => match log2_q32 b with Some lb => bound <? lb | None => false end
  | None => false
  end.

(** The descent into the children; [go] visits one. *)
Fixpoint descend (go : AssetId -> Z -> Z -> list EdgeId -> list bool -> SearchResult -> RRes SearchResult)
  (hop_gas : Z) (path : list EdgeId) (visited : list bool) (cs : list Child) (o : SearchResult)
  : RRes SearchResult :=
  match cs with
  | [] => Ok o
  | c :: cs =>
      if pruned (sr_routes o) (ch_bound c) then descend go hop_gas path visited cs (one_pruned o) else
      match edge g (ch_id c) with
      | None => descend go hop_gas path visited cs o
      | Some e =>
          match node g (ed_to e) with
          | None => descend go hop_gas path visited cs o
          | Some n =>
              let? o := go (ed_to e) (ch_got c) (saturating_add 64 hop_gas (ed_hop_gas e))
                          (path ++ [ch_id c]) (<[n := true]> visited) o in
              if sr_exhausted o then Ok o else descend go hop_gas path visited cs o
          end
      end
  end.

Fixpoint visit (hops_left : nat) (at_ : AssetId) (amount hop_gas : Z) (path : list EdgeId)
  (visited : list bool) (o : SearchResult) : RRes SearchResult :=
  if at_ =? to_ then record o path amount hop_gas else
  match hops_left with
  | O => Ok o
  | S hops_left =>
      match quote_children (out_edges g at_) path visited amount o with
      | (o, None) => Ok o
      | (o, Some cs) => descend (visit hops_left) hop_gas path visited (sort cs) o
      end
  end.

Definition search (from : AssetId) (amount : Z) : RRes SearchResult :=
  if (sb_top_n budget =? 0)%nat || (sb_max_hops budget =? 0)%nat ||
     (table_hops table <? sb_max_hops budget)%nat || (10000 <? sb_min_share_bps budget)
  then Err BadLeg else
  match node g from with
  | None => Ok no_result
  | Some start =>
      if from =? to_ then Ok no_result else
      visit (sb_max_hops budget) from amount 0 []
        (<[start := true]> (replicate (length (tg_nodes g)) false)) no_result
  end.
End Search.
