(* ===== verification/RouterSearchThms.v ===== *)
(** * What the route search finds

    The routes it keeps are real: simple paths of the graph with the exact amounts their hops
    quote. Unless its budget of quotes ran out, it misses none that would have made the list:
    the cut is justified by the table, whose rates bound what a hop can pay
    ([QuoterLaws]). *)

From Stdlib Require Import Reals Lra Sorted.
From S2P Require Import Prelude Fixed Types Flash RouterFees RouterLog RouterGraph RouterTable RouterSearch.
Local Open Scope Z_scope.

(** ** The list of routes *)

Definition net_ge (a b : Route) : Prop := ro_net b <= ro_net a.

Section Routes.
Context (budget : SearchBudget).
Abbreviation top_n := (sb_top_n budget).
Abbreviation share := (sb_min_share_bps budget).
Hypothesis top_pos : (0 < top_n)%nat.
Hypothesis share_ok : 0 <= share <= 10000.

(** Best first, at most [top_n], none under the share of the best. *)
Record good (rs : list Route) : Prop := {
  gd_sorted : StronglySorted net_ge rs;
  gd_len : (length rs <= top_n)%nat;
  gd_share : forall b, share_bar budget rs = Some b -> Forall (fun r => b <= ro_net r) rs;
  gd_word : Forall (fun r => 0 <= ro_net r < 2 ^ 256) rs
}.

(** A route of net [N] along [full] has its due: it is in the list, or the list is full of
    routes as good, or it is under the share of the best. *)
Definition has_due (rs : list Route) (full : list EdgeId) (N : Z) : Prop :=
  (exists r, r ∈ rs /\ ro_edges r = full /\ ro_net r = N) \/
  (length rs = top_n /\ Forall (fun r => N <= ro_net r) rs) \/
  (exists b, share_bar budget rs = Some b /\ N < b).

Lemma share_bar_eq r rs : 0 <= ro_net r < 2 ^ 256 ->
  share_bar budget (r :: rs) = (let b := ro_net r * share / 10000 in if b =? 0 then None else Some b).
Proof.
  intros Hr. unfold share_bar, mul_div_512. cbn [Z.eqb].
  rewrite checked_mul_ok by (unfold umax; nia). cbn.
  unfold checked_div. cbn. unfold u256_from_u512.
  rewrite try_from_ok; [done|]. unfold uint_ok, umax.
  assert (ro_net r * share / 10000 <= ro_net r) by (apply Z.div_le_upper_bound; nia).
  split; [apply Z.div_pos; nia|lia].
Qed.

Lemma share_bar_le r rs b : 0 <= ro_net r < 2 ^ 256 -> share_bar budget (r :: rs) = Some b -> 0 < b <= ro_net r.
Proof.
  intros Hr. rewrite share_bar_eq by done. cbv zeta.
  assert (ro_net r * share / 10000 <= ro_net r) by (apply Z.div_le_upper_bound; nia).
  assert (0 <= ro_net r * share / 10000) by (apply Z.div_pos; nia).
  destruct (Z.eqb_spec (ro_net r * share / 10000) 0); [done|]. intros [= <-]. lia.
Qed.

Lemma share_bar_mono r rs r' rs' b : 0 <= ro_net r < 2 ^ 256 -> 0 <= ro_net r' < 2 ^ 256 ->
  ro_net r <= ro_net r' -> share_bar budget (r :: rs) = Some b ->
  exists b', share_bar budget (r' :: rs') = Some b' /\ b <= b'.
Proof.
  intros Hr Hr' Hle Hb. pose proof (share_bar_le _ _ _ Hr Hb) as Hpos.
  rewrite share_bar_eq in * by done. cbv zeta in *.
  assert (ro_net r * share / 10000 <= ro_net r' * share / 10000) by (apply Z.div_le_mono; nia).
  destruct (Z.eqb_spec (ro_net r * share / 10000) 0); [done|]. injection Hb as <-.
  rewrite (proj2 (Z.eqb_neq _ _)) by lia. eauto.
Qed.

Lemma insert_net_perm r rs : insert_net r rs ≡ₚ r :: rs.
Proof.
  induction rs as [|x rs IH]; simpl; [done|]. destruct (_ <? _); [done|]. rewrite IH. apply perm_swap.
Qed.

Lemma insert_net_sorted r rs : StronglySorted net_ge rs -> StronglySorted net_ge (insert_net r rs).
Proof.
  induction 1 as [|x rs Hs IH Hall]; simpl; [by repeat constructor|].
  destruct (Z.ltb_spec (ro_net x) (ro_net r)) as [Hlt|Hge].
  - constructor; [by constructor|]. constructor; [unfold net_ge; lia|].
    eapply Forall_impl; [exact Hall|]. unfold net_ge. intros y Hy. lia.
  - constructor; [done|]. rewrite insert_net_perm. by constructor.
Qed.

Lemma sorted_app_split (l1 l2 : list Route) : StronglySorted net_ge (l1 ++ l2) ->
  StronglySorted net_ge l1 /\ forall a b, a ∈ l1 -> b ∈ l2 -> ro_net b <= ro_net a.
Proof.
  induction l1 as [|x l1 IH]; simpl; [split; [constructor|by intros ? ? ?%elem_of_nil]|].
  inversion 1 as [|? ? Hs Hall]; subst. destruct (IH Hs) as [H1 H2]. rewrite Forall_app in Hall. destruct Hall as [Ha Hb].
  split; [by constructor|]. intros a b [->|Hal]%elem_of_cons Hbl; [|by apply H2].
  rewrite Forall_forall in Hb. by apply Hb.
Qed.

(** The step from the list with the new route to the list kept. *)
Definition keep_share (rs : list Route) : list Route :=
  match share_bar budget rs with
  | Some b => List.filter (fun r => b <=? ro_net r) rs
  | None => rs
  end.

Lemma keep_share_sub rs r : r ∈ keep_share rs -> r ∈ rs.
Proof.
  unfold keep_share. destruct (share_bar budget rs); [|done].
  rewrite !list_elem_of_In, filter_In. by intros [? _].
Qed.

Lemma keep_share_head r rs : 0 <= ro_net r < 2 ^ 256 -> exists rs', keep_share (r :: rs) = r :: rs'.
Proof.
  intros Hr. unfold keep_share. destruct (share_bar budget (r :: rs)) as [b|] eqn:Eb; [|by eexists].
  apply share_bar_le in Eb; [|done]. cbn [List.filter]. rewrite (proj2 (Z.leb_le _ _)) by lia. by eexists.
Qed.

Lemma keep_share_bar rs : Forall (fun r => 0 <= ro_net r < 2 ^ 256) rs ->
  share_bar budget (keep_share rs) = share_bar budget rs.
Proof.
  destruct 1 as [|r rs Hr _]; [done|]. destruct (keep_share_head r rs Hr) as [rs' ->]. done.
Qed.

Lemma keep_share_good rs : StronglySorted net_ge rs -> (length rs <= top_n)%nat ->
  Forall (fun r => 0 <= ro_net r < 2 ^ 256) rs -> good (keep_share rs).
Proof.
  intros Hs Hl Hw. pose proof (keep_share_bar rs Hw) as Hbar. split.
  - unfold keep_share. destruct (share_bar budget rs) as [b|]; [|done].
    clear -Hs. induction Hs as [|x rs Hs IH Hall]; simpl; [constructor|]. destruct (b <=? ro_net x); [|done].
    constructor; [done|]. rewrite Forall_forall in *. intros y Hy. apply Hall.
    apply list_elem_of_In, filter_In in Hy as [Hy _]. by apply list_elem_of_In.
  - unfold keep_share. destruct (share_bar budget rs) as [b|]; [|done].
    pose proof (filter_length_le (fun r => b <=? ro_net r) rs). lia.
  - intros b Hb. rewrite Hbar in Hb. unfold keep_share. rewrite Hb. apply Forall_forall. intros r Hr.
    apply list_elem_of_In, filter_In in Hr as [_ Hr]. by apply Z.leb_le.
  - rewrite Forall_forall in *. intros r Hr%keep_share_sub. by apply Hw.
Qed.

(** A full list whose routes are as good: cutting at the share keeps the due. *)
Lemma keep_share_full rs full N : Forall (fun r => 0 <= ro_net r < 2 ^ 256) rs ->
  length rs = top_n -> Forall (fun r => N <= ro_net r) rs -> has_due (keep_share rs) full N.
Proof.
  intros Hw Hl HN. pose proof (keep_share_bar rs Hw) as Hbar.
  destruct (share_bar budget rs) as [b|] eqn:Eb; [|unfold keep_share; rewrite Eb; by right; left].
  destruct (decide (N < b)) as [Hlt|Hge]; [right; right; by exists b|].
  right; left. assert (keep_share rs = rs) as ->; [|done]. unfold keep_share. rewrite Eb.
  clear -HN Hge. induction HN as [|r rs Hr _ IH]; [done|]. cbn [List.filter].
  rewrite (proj2 (Z.leb_le _ _)) by lia. by rewrite IH.
Qed.

Lemma insert_net_last r rs : Forall (fun x => ro_net r <= ro_net x) rs -> insert_net r rs = rs ++ [r].
Proof.
  induction 1 as [|x rs Hx _ IH]; [done|]. simpl. rewrite (proj2 (Z.ltb_ge _ _)) by lia. by rewrite IH.
Qed.

Section Step.
Context (rs : list Route) (r : Route).
Hypothesis rs_good : good rs.
Hypothesis r_word : 0 <= ro_net r < 2 ^ 256.

Abbreviation grown := (insert_net r rs).
Abbreviation cut := (take top_n grown).

Lemma cut_sorted : StronglySorted net_ge cut /\ forall a b, a ∈ cut -> b ∈ drop top_n grown -> ro_net b <= ro_net a.
Proof. apply sorted_app_split. rewrite take_drop. apply insert_net_sorted, rs_good. Qed.

Lemma cut_word : Forall (fun r => 0 <= ro_net r < 2 ^ 256) cut.
Proof.
  apply Forall_take. rewrite insert_net_perm. constructor; [done|]. apply rs_good.
Qed.

Lemma cut_due x : x ∈ grown -> has_due (keep_share cut) (ro_edges x) (ro_net x).
Proof.
  intros Hx. destruct cut_sorted as [_ Hle]. rewrite <- (take_drop top_n grown), elem_of_app in Hx.
  destruct Hx as [Hx|Hx].
  - destruct (share_bar budget cut) as [b|] eqn:Eb.
    + destruct (decide (ro_net x < b)) as [Hlt|Hge].
      * right; right. exists b. split; [|done]. rewrite keep_share_bar; [done|apply cut_word].
      * left. exists x. split; [|done]. unfold keep_share. rewrite Eb.
        apply list_elem_of_In, filter_In. rewrite <- list_elem_of_In, Z.leb_le. split; [done|lia].
    + left. exists x. unfold keep_share. rewrite Eb. done.
  - apply keep_share_full; [apply cut_word| |].
    + destruct (decide (length grown <= top_n)%nat) as [Hl|Hl]; [|rewrite length_take; lia].
      rewrite drop_ge in Hx by done. by apply elem_of_nil in Hx.
    + apply Forall_forall. intros y Hy. by apply Hle.
Qed.

Lemma cut_keeps full N : has_due rs full N -> has_due (keep_share cut) full N.
Proof.
  intros [(x & Hx & <- & <-)|[[Hl HN]|(b & Hb & HN)]].
  - apply cut_due. rewrite insert_net_perm. by constructor.
  - apply keep_share_full; [apply cut_word|..].
    + rewrite length_take, insert_net_perm. simpl. lia.
    + destruct (decide (N <= ro_net r)) as [Hr|Hr].
      * apply Forall_take. rewrite insert_net_perm. by constructor.
      * rewrite insert_net_last by (eapply Forall_impl; [exact HN|intros; simpl in *; lia]).
        by rewrite take_app_le, take_ge by lia.
  - right; right. assert (exists best rest, rs = best :: rest) as (best & rest & Ers).
    { clear -Hb. destruct rs; [done|by eauto]. }
    pose proof (gd_word _ rs_good) as Hw. pose proof cut_word as Hcw.
    pose proof (insert_net_sorted r _ (gd_sorted _ rs_good)) as Hs.
    rewrite Ers in Hb, Hw, Hcw, Hs |- *. apply Forall_cons in Hw as [Hbest _].
    assert (exists h tl, take top_n (insert_net r (best :: rest)) = h :: tl /\ ro_net best <= ro_net h) as (h & tl & Hcut & Hh).
    { assert (best ∈ insert_net r (best :: rest)) as Hin by (rewrite insert_net_perm; by do 2 constructor).
      destruct (insert_net r (best :: rest)) as [|h tl]; [by apply elem_of_nil in Hin|].
      destruct top_n as [|m]; [lia|]. exists h, (take m tl). split; [done|].
      apply elem_of_cons in Hin as [->|Hin]; [done|]. inversion Hs as [|? ? _ Hall]; subst.
      rewrite Forall_forall in Hall. by apply Hall. }
    rewrite Hcut in *. apply Forall_cons in Hcw as [Hhw Htw].
    destruct (share_bar_mono best rest h tl b Hbest Hhw Hh Hb) as (b' & Hb' & Hle).
    exists b'. split; [|lia]. rewrite keep_share_bar; [done|by constructor].
Qed.

Lemma cut_good : good (keep_share cut).
Proof. apply keep_share_good; [apply cut_sorted|rewrite length_take; lia|apply cut_word]. Qed.

Lemma cut_in x : x ∈ keep_share cut -> x = r \/ x ∈ rs.
Proof.
  intros Hx%keep_share_sub. assert (x ∈ grown) as Hg by (rewrite <- (take_drop top_n grown), elem_of_app; by left).
  rewrite insert_net_perm, elem_of_cons in Hg. exact Hg.
Qed.
End Step.

Lemma bar_word rs b : good rs -> bar budget rs = Some b -> 0 <= b < 2 ^ 256.
Proof.
  intros Hg. pose proof (gd_word _ Hg) as Hw. unfold bar.
  assert (Hsb : forall sb, share_bar budget rs = Some sb -> 0 <= sb < 2 ^ 256).
  { intros sb Hsb. destruct Hw as [|r rs' Hr _]; [done|]. apply share_bar_le in Hsb; [lia|done]. }
  destruct (sb_top_n budget <=? length rs)%nat; [|apply Hsb].
  destruct (last rs) as [r|] eqn:El; cbn [fmap option_fmap option_map opt_max]; [|apply Hsb].
  assert (0 <= ro_net r < 2 ^ 256).
  { rewrite Forall_forall in Hw. apply Hw. apply last_Some in El as [l ->]. apply elem_of_app. right. by constructor. }
  destruct (share_bar budget rs) as [sb|]; intros [= <-]; [|done]. specialize (Hsb _ eq_refl). lia.
Qed.

(** What the bar says: a net below it has its due already. *)
Lemma bar_due rs b full N : good rs -> bar budget rs = Some b -> N < b -> has_due rs full N.
Proof.
  intros Hg. unfold bar. destruct (Nat.leb_spec top_n (length rs)) as [Hl|Hl].
  - destruct (last rs) as [r|] eqn:El.
    2: { apply last_None in El. subst rs. simpl in Hl. lia. }
    cbn [fmap option_fmap option_map]. intros Hb HN.
    assert (N < ro_net r -> has_due rs full N) as Hlast.
    { intros Hr. right; left. pose proof (gd_len _ Hg). split; [lia|].
      apply last_Some in El as [l ->]. destruct (sorted_app_split _ _ (gd_sorted _ Hg)) as [_ Hle].
      apply Forall_forall. intros x [Hx| ->%list_elem_of_singleton]%elem_of_app; [|lia].
      specialize (Hle x r Hx ltac:(by constructor)). lia. }
    destruct (share_bar budget rs) as [sb|] eqn:Es; cbn in Hb; injection Hb as <-; [|by apply Hlast].
    destruct (decide (N < sb)); [right; right; by exists sb|]. apply Hlast. lia.
  - cbn. intros Hb HN. right; right. by exists b.
Qed.
End Routes.

(** ** Quotes under the table *)

(** What the search needs of the hops: amounts are words, and no hop pays more than its
    zero-size rate. *)
Class QuoterLaws (g : TokenGraph) (book : Book) `{HopQuoter} : Prop := {
  quote_word : forall e a b, 0 <= a < 2 ^ 256 -> quote e a = Ok b -> 0 <= b < 2 ^ 256;
  quote_rate : forall id e a b, edge g id = Some e -> 0 < a < 2 ^ 256 -> quote e a = Ok b -> 0 < b ->
    exists rate, edge_rate book e = Some rate /\ (lg b <= lg a + IZR rate)%R
}.

Lemma cost_nonneg t gs c : cost_in_out t gs = Ok c -> 0 <= c.
Proof.
  unfold cost_in_out, mul_div_512. destruct (accounting_wei_per_gas t); [|done].
  destruct (checked_mul 256 gs a); [|done]. cbn -[checked_mul checked_div].
  destruct (checked_mul 512 _ _); [|done]. cbn -[checked_div].
  destruct (checked_div _ _); [|done]. cbn. unfold u256_from_u512.
  intros H%ok_or_Ok. apply try_from_Some in H as [-> [? _]]. done.
Qed.

Lemma lg_lt a b : 0 < b -> (lg a < lg b)%R -> 0 < a -> a < b.
Proof.
  intros Hb Hlg Ha. apply Z.nle_gt. intros Hle%IZR_le. unfold lg in Hlg.
  pose proof (l2_le (IZR b) (IZR a) ltac:(by apply IZR_lt) Hle). lra.
Qed.

(** A bound under the logarithm of [b]: what the rate onward lets an amount become is less. *)
Lemma bound_under have out fh b lh lb : 0 < have < 2 ^ 256 -> 0 < b < 2 ^ 256 -> 0 < out ->
  Z.abs fh <= 10 * RATE_MAX -> log2_q32 have = Some lh -> log2_q32 b = Some lb ->
  sat_add64 (sat_add64 lh fh) EDGE_MARGIN < lb -> (lg out <= lg have + IZR fh)%R -> out < b.
Proof.
  intros Hh Hb Hout Hfh Elh Elb Hlt Hle.
  destruct (log2_q32_spec have Hh) as (l & Hl & Hlr & Hlg). rewrite Elh in Hl. injection Hl as <-.
  destruct (log2_q32_spec b Hb) as (l & Hl & _ & Hlgb). rewrite Elb in Hl. injection Hl as <-.
  assert (sat_add64 (sat_add64 lh fh) EDGE_MARGIN = lh + fh + 8) as Heq
    by (unfold sat_add64, EDGE_MARGIN, ULP, RATE_MAX in *; lia).
  apply lg_lt; [lia| |lia]. rewrite Heq in Hlt. apply IZR_lt in Hlt. rewrite !plus_IZR in Hlt. lra.
Qed.

Section Found.
Context (g : TokenGraph) (book : Book) (table : ZeroTable) `{HopQuoter} (gas : GasTerms) (to_ : AssetId)
  (budget : SearchBudget) (sort : list Child -> list Child).
Hypothesis Hg : graph_ok g.
Hypothesis Hbook : book_words book.
Context (k : nat).
Hypothesis Hk : (k <= 10)%nat.
Hypothesis Htable : table_ok g book k table.
Context `{!QuoterLaws g book}.
Hypothesis Hsort : forall cs, sort cs ≡ₚ cs.
Hypothesis top_pos : (0 < sb_top_n budget)%nat.
Hypothesis share_ok : 0 <= sb_min_share_bps budget <= 10000.

(** The ways on from a node: from [at_] with [amount], after [path] and [visited], at most
    [h] more hops reach the target with [full], the amount and the gas. *)
Inductive finish : nat -> AssetId -> Z -> Z -> list EdgeId -> list bool -> list EdgeId -> Z -> Z -> Prop :=
| finish_here h amount gs path vis : finish h to_ amount gs path vis path amount gs
| finish_hop h id e n amount got gs path vis full out gs' :
    ed_from e <> to_ -> edge g id = Some e -> node g (ed_to e) = Some n -> vis !! n = Some false ->
    pool_used g path (ed_via e) = false -> quote e amount = Ok got -> 0 < got ->
    finish h (ed_to e) got (saturating_add 64 gs (ed_hop_gas e)) (path ++ [id]) (<[n := true]> vis) full out gs' ->
    finish (S h) (ed_from e) amount gs path vis full out gs'.

Lemma rate_walk_mono h h' a x : (h <= h')%nat -> rate_walk g book to_ h a x -> rate_walk g book to_ h' a x.
Proof.
  clear Hk top_pos share_ok.
  intros Hle Hw. revert h' Hle. induction Hw as [h|h id e rate x He Hr Hne Hw IH]; intros h' Hle; [constructor|].
  destruct h' as [|h']; [lia|]. econstructor; [done|done|done|]. apply IH. lia.
Qed.

Lemma rate_walk_bound h a x : rate_walk g book to_ h a x -> Z.abs x <= Z.of_nat h * RATE_MAX.
Proof.
  clear Hk top_pos share_ok.
  induction 1 as [h|h id e rate x He Hr Hne Hw IH]; [unfold RATE_MAX; lia|].
  pose proof (edge_rate_fits _ _ _ Hbook Hr). lia.
Qed.

(** A way on pays at most the amount at the rates of a walk. *)
Lemma finish_walk h at_ amount gs path vis full out gs' :
  finish h at_ amount gs path vis full out gs' -> 0 < amount < 2 ^ 256 ->
  0 < out < 2 ^ 256 /\ exists x, rate_walk g book to_ h at_ x /\ (lg out <= lg amount + IZR x)%R.
Proof.
  induction 1 as [h amount gs path vis|h id e n amount got gs path vis full out gs' Hne He Hn Hv Hp Hq Hgot Hf IH];
    intros Ha.
  - split; [done|]. exists 0. split; [constructor|]. lra.
  - pose proof (quote_word e amount got ltac:(lia) Hq) as Hw.
    destruct (quote_rate _ _ _ _ He Ha Hq Hgot) as (rate & Hr & Hle).
    destruct (IH ltac:(lia)) as (Hout & x & Hx & Hlex). split; [done|].
    exists (rate + x). split; [by econstructor|]. rewrite plus_IZR. lra.
Qed.

Lemma finish_table h at_ amount gs path vis full out gs' : (h <= k)%nat ->
  finish h at_ amount gs path vis full out gs' -> 0 < amount < 2 ^ 256 ->
  exists v, table_best table g at_ to_ = Some v /\ Z.abs v <= Z.of_nat k * RATE_MAX /\ 0 < out < 2 ^ 256 /\
    (lg out <= lg amount + IZR v)%R.
Proof.
  intros Hh Hf Ha. destruct (finish_walk _ _ _ _ _ _ _ _ _ Hf Ha) as (Hout & x & Hx & Hle).
  apply (rate_walk_mono h k) in Hx; [|done]. destruct Htable as [_ Ht]. specialize (Ht at_ to_).
  destruct (table_best table g at_ to_) as [v|]; [|by apply Ht in Hx]. destruct Ht as [Hw Hmax].
  exists v. split_and!; [done|by apply rate_walk_bound with at_|lia|lia|].
  apply Hmax, IZR_le in Hx. lra.
Qed.

(** A child as [quote_children] makes it. *)
Definition child_ok (at_ : AssetId) (amount : Z) (path : list EdgeId) (vis : list bool) (c : Child) : Prop :=
  exists e n onward l, edge g (ch_id c) = Some e /\ ed_from e = at_ /\ node g (ed_to e) = Some n /\
    vis !! n = Some false /\ pool_used g path (ed_via e) = false /\ quote e amount = Ok (ch_got c) /\
    0 < ch_got c < 2 ^ 256 /\ table_best table g (ed_to e) to_ = Some onward /\
    log2_q32 (ch_got c) = Some l /\ ch_bound c = sat_add64 (sat_add64 l onward) EDGE_MARGIN.

(** The ways on through a child. *)
Definition through_child (h : nat) (gs : Z) (path : list EdgeId) (vis : list bool) (c : Child)
  (full : list EdgeId) (out gs' : Z) : Prop :=
  exists e n, edge g (ch_id c) = Some e /\ node g (ed_to e) = Some n /\
    finish h (ed_to e) (ch_got c) (saturating_add 64 gs (ed_hop_gas e)) (path ++ [ch_id c]) (<[n := true]> vis)
      full out gs'.

(** The cut is sound: a way on through a child under the bar is under it at its end. *)
Lemma pruned_under h at_ amount gs path vis c full out gs' rs : (h <= k)%nat ->
  good budget rs -> child_ok at_ amount path vis c -> pruned budget rs (ch_bound c) = true ->
  through_child h gs path vis c full out gs' -> exists b, bar budget rs = Some b /\ out < b.
Proof.
  intros Hh Hgood (e & n & onward & l & He & _ & Hn & _ & _ & _ & Hgot & Hon & Hl & Hb) Hpr (e' & n' & He' & Hn' & Hf).
  rewrite He in He'. injection He' as <-. unfold pruned in Hpr.
  destruct (bar budget rs) as [b|] eqn:Ebar; [|done].
  destruct (log2_q32 b) as [lb|] eqn:Elb; [|done]. apply Z.ltb_lt in Hpr. exists b. split; [done|].
  destruct (finish_table _ _ _ _ _ _ _ _ _ Hh Hf Hgot) as (v & Hv & Hvb & Hout & Hle).
  rewrite Hon in Hv. injection Hv as <-.
  assert (0 < b < 2 ^ 256) as Hbw.
  { pose proof (bar_word budget top_pos share_ok rs b Hgood Ebar).
    assert (b <> 0) by (intros ->; done). lia. }
  rewrite Hb in Hpr. eapply bound_under; [exact Hgot|exact Hbw|lia| |exact Hl|exact Elb|exact Hpr|exact Hle].
  unfold RATE_MAX in *. lia.
Qed.

(** What the loop over the out edges may do: only the counters move; every eligible edge
    becomes a child. *)
Definition eligible (amount : Z) (path : list EdgeId) (vis : list bool) (id : EdgeId) (got : Z) : Prop :=
  exists e n onward, edge g id = Some e /\ node g (ed_to e) = Some n /\ vis !! n = Some false /\
    pool_used g path (ed_via e) = false /\ table_best table g (ed_to e) to_ = Some onward /\
    quote e amount = Ok got /\ 0 < got.

Definition children_made (at_ : AssetId) (amount : Z) (path : list EdgeId) (vis : list bool) (ids : list EdgeId)
  (o o' : SearchResult) (res : option (list Child)) : Prop :=
  sr_routes o' = sr_routes o /\
  match res with
  | None => sr_exhausted o' = true
  | Some cs => sr_exhausted o' = sr_exhausted o /\ (ch_id <$> cs) `sublist_of` ids /\
      Forall (child_ok at_ amount path vis) cs /\
      forall id got, id ∈ ids -> eligible amount path vis id got -> exists c, c ∈ cs /\ ch_id c = id /\ ch_got c = got
  end.

(** An edge that is not eligible is passed over. *)
Lemma children_skip at_ amount path vis id ids o o1 o' res :
  sr_routes o1 = sr_routes o -> sr_exhausted o1 = sr_exhausted o ->
  (forall got, ~ eligible amount path vis id got) ->
  children_made at_ amount path vis ids o1 o' res -> children_made at_ amount path vis (id :: ids) o o' res.
Proof.
  intros Hr He Hno [Hr' Hres]. split; [congruence|].
  destruct res as [cs|]; [|done]. destruct Hres as (Hex & Hsub & Hok & Hall).
  split_and!; [congruence|by constructor|done|].
  intros id' got [->|Hin]%elem_of_cons Hel; [by apply Hno in Hel|by apply Hall].
Qed.

Ltac skip_child IH o1 :=
  apply (children_skip _ _ _ _ _ _ _ o1); [done|done| |by apply IH];
  intros ? (? & ? & ? & ? & ? & ? & ? & ? & ? & ?); try congruence.

Lemma quote_children_spec at_ amount path vis ids : 0 < amount < 2 ^ 256 ->
  (forall id e, id ∈ ids -> edge g id = Some e -> ed_from e = at_) ->
  forall o o' res, quote_children g table to_ budget ids path vis amount o = (o', res) ->
  children_made at_ amount path vis ids o o' res.
Proof.
  intros Ha. induction ids as [|id ids IH]; intros Hids o o' res Hq; simpl in Hq.
  { simplify_eq. split; [done|]. split_and!; [done|done|constructor|by intros ? ? ?%elem_of_nil]. }
  specialize (IH ltac:(intros i e Hi; apply Hids; by constructor)).
  destruct (edge g id) as [e|] eqn:Ee; [|skip_child IH o].
  destruct (node g (ed_to e)) as [n|] eqn:En; [|skip_child IH o].
  destruct (vis !! n) as [[|]|] eqn:Ev; simpl in Hq; [skip_child IH o| |skip_child IH o].
  destruct (pool_used g path (ed_via e)) eqn:Ep; [skip_child IH o|].
  destruct (table_best table g (ed_to e) to_) as [onward|] eqn:Et; [|skip_child IH o].
  destruct (sb_max_quotes budget <=? sr_quotes o); [by injection Hq as <- <-|].
  destruct (quote e amount) as [got|err] eqn:Eq; [|skip_child IH (one_quote o)].
  pose proof (quote_word e amount got ltac:(lia) Eq) as Hgw.
  destruct (decide (got = 0)) as [->|Hg0];
    [skip_child IH (one_quote o); match goal with Hz : 0 < ?z |- _ => assert (z = 0) by congruence; lia end|].
  destruct (log2_q32_spec got ltac:(lia)) as (l & El & _). rewrite El in Hq.
  destruct (quote_children g table to_ budget ids path vis amount (one_quote o)) as [o1 [cs|]] eqn:Erest.
  - destruct (IH _ _ _ Erest) as (Hr & Hex & Hsub & Hok & Hall). simpl in Hq. simplify_eq.
    split; [done|]. split_and!; [done|rewrite fmap_cons; by apply sublist_skip| |].
    + constructor; [|done]. exists e, n, onward, l. cbn [ch_id ch_got ch_bound]. split_and!; try done; try lia.
      eapply Hids; [by constructor|done].
    + intros id' got' [->|Hin]%elem_of_cons Hel.
      * eexists. split; [by constructor|]. cbn. split; [done|].
        destruct Hel as (? & ? & ? & ? & ? & ? & ? & ? & ? & ?). congruence.
      * destruct (Hall _ _ Hin Hel) as (c & Hc & Hcc). exists c. split; [by constructor|done].
  - destruct (IH _ _ _ Erest) as [Hr Hex]. simpl in Hq. simplify_eq. done.
Qed.

(** From [o] to [o'] the routes of [F] were tried: what is new is of [F], what had its due
    keeps it, and unless the quotes ran out all of [F] have theirs. *)
Record tried (F : list EdgeId -> Z -> Z -> Prop) (o o' : SearchResult) : Prop := {
  tr_good : good budget (sr_routes o');
  tr_due : forall full N, has_due budget (sr_routes o) full N -> has_due budget (sr_routes o') full N;
  tr_new : forall r, r ∈ sr_routes o' -> r ∈ sr_routes o \/
    F (ro_edges r) (ro_amount_out r) (ro_hop_gas r) /\
    exists c, cost_in_out gas (ro_hop_gas r) = Ok c /\ ro_net r = saturating_sub (ro_amount_out r) c;
  tr_all : sr_exhausted o' = false -> forall full out gs c, F full out gs -> cost_in_out gas gs = Ok c ->
    has_due budget (sr_routes o') full (saturating_sub out c)
}.

Lemma tried_weaken (F F' : list EdgeId -> Z -> Z -> Prop) o o' :
  (forall full out gs, F full out gs <-> F' full out gs) -> tried F o o' -> tried F' o o'.
Proof.
  intros HF [Hgood Hdue Hnew Hall]. split; [done|done|..].
  - intros r Hr. destruct (Hnew r Hr) as [?|[HFr ?]]; [by left|]. right. split; [by apply HF|done].
  - intros He full out gs c Hf%HF. by apply Hall.
Qed.

(** Nothing to try; the counters may move. *)
Lemma tried_none (F : list EdgeId -> Z -> Z -> Prop) o o' : sr_routes o' = sr_routes o -> good budget (sr_routes o) ->
  (sr_exhausted o' = false -> forall full out gs c, F full out gs -> cost_in_out gas gs = Ok c ->
     has_due budget (sr_routes o) full (saturating_sub out c)) -> tried F o o'.
Proof. intros Hr Hgood HF. split; rewrite ?Hr; try done. intros r Hin. by left. Qed.

Lemma tried_trans (F1 F2 : list EdgeId -> Z -> Z -> Prop) o o1 o2 : tried F1 o o1 -> tried F2 o1 o2 ->
  (sr_exhausted o2 = false -> sr_exhausted o1 = false) ->
  tried (fun full out gs => F1 full out gs \/ F2 full out gs) o o2.
Proof.
  intros [G1 D1 N1 A1] [G2 D2 N2 A2] Hex. split; [done|by auto|..].
  - intros r [Hr|[HF Hc]]%N2; [|by right; auto]. destruct (N1 r Hr) as [?|[HF Hc]]; [by left|by right; auto].
  - intros He full out gs c [Hf|Hf] Hc; [|by eapply A2]. eapply D2, A1; eauto.
Qed.

Lemma record_tried o o' path amount gs : 0 <= amount < 2 ^ 256 -> good budget (sr_routes o) ->
  record gas budget o path amount gs = Ok o' ->
  sr_exhausted o' = sr_exhausted o /\
  tried (fun full out gs' => full = path /\ out = amount /\ gs' = gs) o o'.
Proof.
  intros Ha Hgood. unfold record. destruct (cost_in_out gas gs) as [c|] eqn:Ec; [|done]. intros [= <-].
  split; [done|]. pose proof (cost_nonneg _ _ _ Ec) as Hc.
  set (r := mkRoute path amount gs (saturating_sub amount c)).
  assert (0 <= ro_net r < 2 ^ 256) as Hr by (unfold r, saturating_sub; cbn; lia).
  change (match share_bar budget (take (sb_top_n budget) (insert_net r (sr_routes o))) with
    | Some b => List.filter (fun r => b <=? ro_net r) (take (sb_top_n budget) (insert_net r (sr_routes o)))
    | None => take (sb_top_n budget) (insert_net r (sr_routes o)) end)
    with (keep_share budget (take (sb_top_n budget) (insert_net r (sr_routes o)))).
  split; cbn [sr_routes set_routes].
  - by apply cut_good.
  - intros full N. by apply cut_keeps.
  - intros x Hx. apply cut_in in Hx as [->|Hx]; [|by left]. right. split; [done|]. exists c. done.
  - intros _ full out gs' c' (-> & -> & ->) Hc'. rewrite Ec in Hc'. simplify_eq.
    apply (cut_due budget top_pos share_ok (sr_routes o) r Hgood Hr r). rewrite insert_net_perm. by constructor.
Qed.

Definition go_tries (h : nat) (go : AssetId -> Z -> Z -> list EdgeId -> list bool -> SearchResult -> RRes SearchResult) :=
  forall at_ amount gs path vis o o', 0 < amount < 2 ^ 256 -> good budget (sr_routes o) ->
    sr_exhausted o = false -> go at_ amount gs path vis o = Ok o' -> tried (finish h at_ amount gs path vis) o o'.

Lemma descend_tried h go at_ amount gs path vis cs : (h <= k)%nat -> go_tries h go ->
  Forall (child_ok at_ amount path vis) cs ->
  forall o o', good budget (sr_routes o) -> sr_exhausted o = false ->
  descend g budget go gs path vis cs o = Ok o' ->
  tried (fun full out gs' => exists c, c ∈ cs /\ through_child h gs path vis c full out gs') o o'.
Proof.
  intros Hh Hgo. induction 1 as [|c cs Hc Hcs IH]; intros o o' Hgood Hex Hd; simpl in Hd.
  { simplify_eq. apply tried_none; [done|done|]. intros _ full out gs' n (c & ?%elem_of_nil & _). done. }
  assert (Hsplit : forall full out gs',
    through_child h gs path vis c full out gs' \/ (exists c', c' ∈ cs /\ through_child h gs path vis c' full out gs') <->
    exists c', c' ∈ c :: cs /\ through_child h gs path vis c' full out gs').
  { intros. setoid_rewrite elem_of_cons. naive_solver. }
  apply (tried_weaken _ _ _ _ Hsplit).
  destruct (pruned budget (sr_routes o) (ch_bound c)) eqn:Epr.
  - apply (tried_trans _ _ _ (one_pruned o)); [|by apply IH|done]. apply tried_none; [done|done|].
    intros _ full out gs' cost Hthr Hcost.
    destruct (pruned_under h _ _ _ _ _ _ _ _ _ _ Hh Hgood Hc Epr Hthr) as (b & Hb & Hlt).
    apply (bar_due budget top_pos _ b); [done|done|].
    pose proof (cost_nonneg _ _ _ Hcost). destruct Hc as (e & n & ? & ? & He & _ & Hn & _ & _ & _ & Hgot & _).
    destruct Hthr as (e' & n' & He' & Hn' & Hf). apply finish_walk in Hf as [Hout _]; [|done].
    unfold saturating_sub. lia.
  - destruct Hc as (e & n & ? & ? & He & _ & Hn & _ & _ & _ & Hgot & _). rewrite He, Hn in Hd.
    destruct (go (ed_to e) _ _ _ _ o) as [o1|] eqn:Ego; [|done].
    pose proof (Hgo _ _ _ _ _ _ _ Hgot Hgood Hex Ego) as Htr.
    assert (Htr' : tried (through_child h gs path vis c) o o1).
    { eapply tried_weaken; [|exact Htr]. intros full out gs'. unfold through_child. rewrite He. split.
      - intros Hf. by exists e, n.
      - intros (e' & n' & [= <-] & Hn' & Hf). rewrite Hn in Hn'. by simplify_eq. }
    destruct (sr_exhausted o1) eqn:Ex1.
    + injection Hd as <-. apply (tried_trans _ _ _ o1); [done| |done].
      apply tried_none; [done|apply Htr|]. congruence.
    + apply (tried_trans _ _ _ o1); [done| |done]. apply IH; [apply Htr|done|done].
Qed.

Lemma tried_from F o o1 o' : sr_routes o1 = sr_routes o -> tried F o1 o' -> tried F o o'.
Proof. intros Hr [G D N A]. split; [done|by rewrite <- Hr|by rewrite <- Hr|done]. Qed.

(** The ways on from a node that is not the target are those through its children. *)
Lemma finish_children h at_ amount gs path vis o o' cs : (h <= k)%nat -> 0 < amount < 2 ^ 256 -> at_ <> to_ ->
  children_made at_ amount path vis (out_edges g at_) o o' (Some cs) ->
  forall full out gs', (exists c, c ∈ cs /\ through_child h gs path vis c full out gs') <->
    finish (S h) at_ amount gs path vis full out gs'.
Proof.
  intros Hh Ha Hne (_ & _ & _ & Hok & Hall) full out gs'. split.
  - intros (c & Hc & e & n & He & Hn & Hf). rewrite Forall_forall in Hok.
    destruct (Hok _ Hc) as (e' & n' & ? & ? & He' & <- & Hn' & Hv & Hp & Hq & Hgot & _).
    rewrite He in He'. simplify_eq. econstructor; try done. lia.
  - intros Hf. inversion Hf as [|? id e n ? got ? ? ? ? ? ? Hft He Hn Hv Hp Hq Hgot Hf']; subst; [done|].
    pose proof (quote_word e amount got ltac:(lia) Hq) as Hgw.
    destruct (finish_table _ _ _ _ _ _ _ _ _ Hh Hf' ltac:(lia)) as (v & Hv' & _).
    destruct (Hall id got) as (c & Hc & <- & <-).
    + apply (gk_out g Hg). by exists e.
    + exists e, n, v. done.
    + exists c. split; [done|]. exists e, n. done.
Qed.

Lemma visit_tried h : (h <= k)%nat -> go_tries h (visit g table gas to_ budget sort h).
Proof.
  induction h as [|h IH]; intros Hh at_ amount gs path vis o o' Ha Hgood Hex Hv; simpl in Hv;
    (destruct (Z.eqb_spec at_ to_) as [->|Hne];
     [destruct (record_tried o o' path amount gs ltac:(lia) Hgood Hv) as [_ Htr];
      eapply tried_weaken; [|exact Htr]; intros full out gs'; split; [intros (-> & -> & ->); constructor|];
      by inversion 1|]).
  - injection Hv as <-. apply tried_none; [done|done|]. intros _ full out gs' c Hf. by inversion Hf.
  - destruct (quote_children _ _ _ _ _ _ _ _ _) as [o1 res] eqn:Eq.
    apply (quote_children_spec at_) in Eq as [Hr Hres]; [|done|].
    2: { intros id e Hid He. apply (gk_out g Hg) in Hid as (e' & He' & <-). rewrite He in He'. by simplify_eq. }
    destruct res as [cs|]; [|injection Hv as <-; apply tried_none; [done|done|congruence]].
    apply (tried_from _ _ o1); [done|].
    eapply tried_weaken; [apply (finish_children h _ _ _ _ _ o o1 cs); [lia|done|done|by split]|].
    destruct Hres as (Hex1 & Hsub & Hok & Hall).
    assert (Hd : tried (fun full out gs' => exists c, c ∈ sort cs /\ through_child h gs path vis c full out gs') o1 o').
    { eapply (descend_tried h); [lia|by apply IH; lia|by rewrite Hsort|by rewrite Hr|congruence|exact Hv]. }
    eapply tried_weaken; [|exact Hd]. intros full out gs'. by setoid_rewrite (elem_of_Permutation_proper _ _ _ (Hsort cs)).
Qed.

(** ** Routes, in the graph's own terms *)

Definition pool_of (e : Edge) : option PoolId :=
  match ed_via e with ViaPool l => Some (leg_pool l) | ViaUnwrap _ => None end.

Fixpoint linked (a : AssetId) (es : list Edge) (b : AssetId) : Prop :=
  match es with [] => a = b | e :: es => ed_from e = a /\ linked (ed_to e) es b end.

(** The amount that comes out of a list of hops, each paying something. *)
Fixpoint pays (amount : Z) (es : list Edge) : option Z :=
  match es with
  | [] => Some amount
  | e :: es => match quote e amount with
               | Ok got => if 0 <? got then pays got es else None
               | Err _ => None
               end
  end.

Definition gas_of (gs : Z) (es : list Edge) : Z := foldl (fun gs e => saturating_add 64 gs (ed_hop_gas e)) gs es.

(** A path of the graph from [from] to the target of at most [h] hops, no token and no pool
    twice, and what it pays. *)
Definition real_path (h : nat) (from : AssetId) (amount : Z) (ids : list EdgeId) (out gs : Z) : Prop :=
  exists es, Forall2 (fun id e => edge g id = Some e) ids es /\ (length ids <= h)%nat /\
    linked from es to_ /\ NoDup (from :: (ed_to <$> es)) /\ NoDup (omap pool_of es) /\
    pays amount es = Some out /\ gs = gas_of 0 es.

Lemma pool_used_spec path pes v : Forall2 (fun id e => edge g id = Some e) path pes ->
  pool_used g path v = false <-> forall l, v = ViaPool l -> leg_pool l ∉ omap pool_of pes.
Proof.
  clear Hk top_pos share_ok.
  intros Hp. unfold pool_used, through. destruct v as [l|w]; [|split; [by intros _ ? ?|done]].
  assert ((forall l0, ViaPool l = ViaPool l0 -> leg_pool l0 ∉ omap pool_of pes) <-> leg_pool l ∉ omap pool_of pes) as ->
    by (split; [by auto|by intros ? ? [= <-]]).
  induction Hp as [|id e path pes He Hp IH]; cbn [existsb omap list_omap].
  { split; [intros _; apply not_elem_of_nil|done]. }
  rewrite He. cbn [fmap option_fmap option_map]. rewrite orb_false_iff, IH. unfold pool_of at 2.
  destruct (ed_via e) as [m|w]; [|naive_solver]. cbn. rewrite not_elem_of_cons, Nat.eqb_neq. naive_solver.
Qed.

Definition marks (T : list AssetId) (vis : list bool) : Prop :=
  forall n a, tg_nodes g !! n = Some a -> vis !! n = Some (bool_decide (a ∈ T)).

Lemma marks_insert T vis n a : marks T vis -> tg_nodes g !! n = Some a -> marks (a :: T) (<[n := true]> vis).
Proof.
  intros Hm Hn m b Hb. destruct (decide (m = n)) as [->|Hne].
  - rewrite list_lookup_insert_eq by (eapply lookup_lt_Some; by apply Hm). rewrite Hn in Hb. simplify_eq.
    rewrite bool_decide_true; [done|by constructor].
  - rewrite list_lookup_insert_ne, (Hm m b Hb) by done. f_equal. apply bool_decide_ext. rewrite elem_of_cons.
    split; [by right|]. intros [->|?]; [|done]. destruct Hne.
    eapply NoDup_lookup; [apply (gk_nodup g Hg)|exact Hb|exact Hn].
Qed.

Lemma linked_last a es b : linked a es b -> es <> [] -> b ∈ ed_to <$> es.
Proof.
  clear Hk top_pos share_ok.
  revert a. induction es as [|e es IH]; intros a Hl Hne; [done|]. destruct Hl as [_ Hl].
  destruct es as [|e' es]; [simpl in *; subst; by constructor|]. right. by eapply IH.
Qed.

(** What may follow a path: the same, with the tokens of [T] and the pools of [pes] barred. *)
Definition onward (h : nat) (at_ : AssetId) (amount gs : Z) (T : list AssetId) (pes : list Edge)
  (ids : list EdgeId) (es : list Edge) (out gs' : Z) : Prop :=
  Forall2 (fun id e => edge g id = Some e) ids es /\ (length ids <= h)%nat /\ linked at_ es to_ /\
  NoDup (ed_to <$> es) /\ (forall e, e ∈ es -> ed_to e ∉ T) /\
  NoDup (omap pool_of (pes ++ es)) /\ pays amount es = Some out /\ gs' = gas_of gs es.

Lemma finish_onward h at_ amount gs path vis full out gs' :
  finish h at_ amount gs path vis full out gs' -> forall T pes, marks T vis ->
  Forall2 (fun id e => edge g id = Some e) path pes -> NoDup (omap pool_of pes) ->
  exists ids es, full = path ++ ids /\ onward h at_ amount gs T pes ids es out gs'.
Proof.
  clear Hk top_pos share_ok.
  induction 1 as [h amount gs path vis|h id e n amount got gs path vis full out gs' Hne He Hn Hv Hp Hq Hgot Hf IH];
    intros T pes Hm Hpes Hnd.
  - exists [], []. rewrite app_nil_r. split; [done|].
    split_and!; [constructor|simpl; lia|done|constructor|by intros ? ?%elem_of_nil|by rewrite app_nil_r|done|done].
  - apply (gk_node g Hg) in Hn. pose proof (Hm _ _ Hn) as Hvn. rewrite Hv in Hvn. injection Hvn as Hvn.
    symmetry in Hvn. apply bool_decide_eq_false_1 in Hvn.
    rewrite (pool_used_spec _ pes) in Hp by done.
    assert (Hnd' : NoDup (omap pool_of (pes ++ [e]))).
    { rewrite omap_app. apply NoDup_app. split_and!; [done| |].
      - intros p Hin Hpe. cbn in Hpe. unfold pool_of in Hpe. destruct (ed_via e) as [l|w]; [|by apply elem_of_nil in Hpe].
        apply list_elem_of_singleton in Hpe as ->. by eapply Hp.
      - cbn. destruct (pool_of e); [apply NoDup_singleton|constructor]. }
    destruct (IH (ed_to e :: T) (pes ++ [e])) as (ids & es & -> & Hids & Hlen & Hlink & Hto & HT & Hpools & Hpays & ->);
      [by apply marks_insert|apply Forall2_app; [done|by repeat constructor]|done|].
    exists (id :: ids), (e :: es). rewrite <- app_assoc. split; [done|]. split_and!.
    + by constructor.
    + simpl. lia.
    + done.
    + rewrite fmap_cons. constructor; [|done]. intros (e' & He' & Hin)%list_elem_of_fmap.
      apply (HT e' Hin). rewrite <- He'. by constructor.
    + intros e' [->|Hin]%elem_of_cons; [done|]. intros HT'. apply (HT e' Hin). by constructor.
    + by rewrite <- app_assoc in Hpools.
    + simpl. rewrite Hq. by rewrite (proj2 (Z.ltb_lt _ _)).
    + done.
Qed.

Lemma onward_finish es : forall h at_ amount gs path vis T pes ids out gs',
  marks T vis -> at_ ∈ T -> Forall2 (fun id e => edge g id = Some e) path pes ->
  onward h at_ amount gs T pes ids es out gs' -> finish h at_ amount gs path vis (path ++ ids) out gs'.
Proof.
  clear Hk top_pos share_ok.
  induction es as [|e es IH]; intros h at_ amount gs path vis T pes ids out gs' Hm Hat Hpes
    (Hids & Hlen & Hlink & Hto & HT & Hpools & Hpays & Hgs).
  - inversion Hids; subst. simpl in *. simplify_eq. rewrite app_nil_r. constructor.
  - inversion Hids as [|id ? ids' ? He Hids']; subst. destruct h as [|h]; [simpl in Hlen; lia|].
    assert (Hne : at_ <> to_).
    { intros ->. apply linked_last in Hlink as (e' & Heq & Hin)%list_elem_of_fmap; [|done].
      apply (HT e' Hin). by rewrite <- Heq. }
    destruct Hlink as [<- Hlink]. simpl in Hpays.
    destruct (quote e amount) as [got|] eqn:Eq; [|done].
    destruct (Z.ltb_spec 0 got) as [Hgot|]; [|done].
    destruct (gk_ends g Hg _ _ He) as (_ & [n Hn]%list_elem_of_lookup_1 & _).
    rewrite fmap_cons in Hto. apply NoDup_cons in Hto as [Hto1 Hto2].
    apply (finish_hop h id e n amount got); try done.
    + by apply (gk_node g Hg).
    + rewrite (Hm _ _ Hn). f_equal. apply bool_decide_eq_false_2, HT. by constructor.
    + apply (pool_used_spec _ pes); [done|]. intros l Hl Hin. rewrite omap_app in Hpools.
      apply NoDup_app in Hpools as (_ & Hdis & _). apply (Hdis _ Hin). cbn. unfold pool_of. rewrite Hl. by constructor.
    + change (id :: ids') with ([id] ++ ids'). rewrite app_assoc.
      apply (IH _ _ _ _ _ _ (ed_to e :: T) (pes ++ [e])); [by apply marks_insert|by constructor|
        apply Forall2_app; [done|by repeat constructor]|].
      simpl in Hlen. split_and!; try done; [lia| |by rewrite <- app_assoc].
      intros e' Hin [Heq|HT']%elem_of_cons; [|by apply (HT e'); [constructor|]].
      apply Hto1. apply list_elem_of_fmap. exists e'. done.
Qed.

Lemma finish_real h from amount start ids out gs : node g from = Some start ->
  finish h from amount 0 [] (<[start := true]> (replicate (length (tg_nodes g)) false)) ids out gs <->
  real_path h from amount ids out gs.
Proof.
  clear Hk top_pos share_ok.
  intros Hs%(gk_node g Hg).
  assert (Hm : marks [from] (<[start := true]> (replicate (length (tg_nodes g)) false))).
  { apply marks_insert; [|done]. intros n a Ha%lookup_lt_Some.
    rewrite lookup_replicate_2 by done. rewrite bool_decide_false; [done|apply not_elem_of_nil]. }
  assert (Hnd : forall es, NoDup (from :: (ed_to <$> es)) <-> NoDup (ed_to <$> es) /\ forall e, e ∈ es -> ed_to e ∉ [from]).
  { intros es. rewrite NoDup_cons. setoid_rewrite list_elem_of_singleton. split.
    - intros [Hn Hd]. split; [done|]. intros e He <-. apply Hn, list_elem_of_fmap. by exists e.
    - intros [Hd Hn]. split; [|done]. intros (e & He & Hin)%list_elem_of_fmap. by apply (Hn e Hin). }
  split.
  - intros Hf. destruct (finish_onward _ _ _ _ _ _ _ _ _ Hf [from] [] Hm) as (ids' & es & -> & Hon); [constructor|constructor|].
    destruct Hon as (Hids & Hlen & Hlink & Hto & HT & Hpools & Hpays & ->).
    exists es. split_and!; try done. by apply Hnd.
  - intros (es & Hids & Hlen & Hlink & [Hto HT]%Hnd & Hpools & Hpays & ->).
    apply (onward_finish es _ _ _ _ [] _ [from] []); [done|by constructor|constructor|].
    split_and!; done.
Qed.

(** *** No route twice *)

Definition extends (path : list EdgeId) (r : Route) : Prop := path `prefix_of` ro_edges r.

(** From [o] to [o'] only routes along [path] came in, and none twice. *)
Definition distinct (path : list EdgeId) (o o' : SearchResult) : Prop :=
  NoDup (ro_edges <$> sr_routes o') /\ forall r, r ∈ sr_routes o' -> r ∈ sr_routes o \/ extends path r.

Lemma record_distinct o o' path amount gs : record gas budget o path amount gs = Ok o' ->
  NoDup (ro_edges <$> sr_routes o) -> (forall r, r ∈ sr_routes o -> ~ extends path r) -> distinct path o o'.
Proof.
  unfold record. destruct (cost_in_out gas gs) as [c|] eqn:Ec; [|done]. intros [= <-] Hnd Hno.
  set (r := mkRoute path amount gs (saturating_sub amount c)).
  set (cut := take (sb_top_n budget) (insert_net r (sr_routes o))).
  assert (Hsub : match share_bar budget cut with
    | Some b => List.filter (fun r => b <=? ro_net r) cut | None => cut end `sublist_of` insert_net r (sr_routes o)).
  { transitivity cut; [|apply sublist_take]. destruct (share_bar budget cut) as [b|]; [|done].
    induction cut as [|x l IH]; simpl; [done|]. destruct (_ <=? _); by constructor. }
  split; cbn [sr_routes set_routes].
  - eapply sublist_NoDup; [|apply (fmap_sublist ro_edges), Hsub]. rewrite insert_net_perm, fmap_cons. constructor; [|done].
    intros (x & Hx & Hin)%list_elem_of_fmap. apply (Hno x Hin). unfold extends. rewrite <- Hx. done.
  - intros x Hx. pose proof (elem_of_submseteq _ _ _ Hx (sublist_submseteq _ _ Hsub)) as Hx'. rewrite insert_net_perm, elem_of_cons in Hx'.
    destruct Hx' as [->|?]; [right; by apply (reflexivity (R:=prefix))|by left].
Qed.

Definition go_distinct (go : AssetId -> Z -> Z -> list EdgeId -> list bool -> SearchResult -> RRes SearchResult) :=
  forall at_ amount gs path vis o o', go at_ amount gs path vis o = Ok o' ->
    NoDup (ro_edges <$> sr_routes o) -> (forall r, r ∈ sr_routes o -> ~ extends path r) -> distinct path o o'.

Lemma extends_snoc path id r : extends (path ++ [id]) r -> extends path r.
Proof. unfold extends. intros Hp. etransitivity; [|exact Hp]. by apply prefix_app_r. Qed.

Lemma extends_same path id id' r : extends (path ++ [id]) r -> extends (path ++ [id']) r -> id = id'.
Proof.
  intros [l Hl] [l' Hl']. rewrite Hl, <- !app_assoc in Hl'. apply app_inv_head in Hl'. by simplify_eq/=.
Qed.

Lemma descend_distinct go gs path vis cs : go_distinct go -> NoDup (ch_id <$> cs) ->
  forall o o', descend g budget go gs path vis cs o = Ok o' -> NoDup (ro_edges <$> sr_routes o) ->
  (forall r c, r ∈ sr_routes o -> c ∈ cs -> ~ extends (path ++ [ch_id c]) r) -> distinct path o o'.
Proof.
  intros Hgo. induction cs as [|c cs IH]; intros Hids o o' Hd Hnd Hno; simpl in Hd.
  { simplify_eq. split; [done|by left]. }
  rewrite fmap_cons in Hids. apply NoDup_cons in Hids as [Hc Hids].
  assert (Hrest : forall r c', r ∈ sr_routes o -> c' ∈ cs -> ~ extends (path ++ [ch_id c']) r)
    by (intros r c' Hr Hc'; apply Hno; [done|by constructor]).
  destruct (pruned _ _ _); [by apply (IH Hids (one_pruned o))|].
  destruct (edge g (ch_id c)) as [e|]; [|by apply (IH Hids o)].
  destruct (node g (ed_to e)) as [n|]; [|by apply (IH Hids o)].
  destruct (go _ _ _ _ _ o) as [o1|] eqn:Ego; [|done].
  destruct (Hgo _ _ _ _ _ _ _ Ego Hnd) as [Hnd1 Hnew1]; [intros r Hr; apply Hno; [done|by constructor]|].
  assert (Hin1 : forall r, r ∈ sr_routes o1 -> r ∈ sr_routes o \/ extends path r)
    by (intros r [?|?%extends_snoc]%Hnew1; auto).
  destruct (sr_exhausted o1); [by simplify_eq|].
  destruct (IH Hids o1 o' Hd Hnd1) as [Hnd' Hnew'].
  - intros r c' [Hr|Hr]%Hnew1 Hc' Hext; [by eapply Hrest|].
    apply Hc. rewrite (extends_same _ _ _ _ Hr Hext). by apply list_elem_of_fmap_2.
  - split; [done|]. intros r [Hr|?]%Hnew'; [by apply Hin1|by right].
Qed.

Lemma quote_children_shape ids path vis amount : forall o o' res,
  quote_children g table to_ budget ids path vis amount o = (o', res) ->
  sr_routes o' = sr_routes o /\ forall cs, res = Some cs -> (ch_id <$> cs) `sublist_of` ids.
Proof.
  induction ids as [|id ids IH]; intros o o' res Hq; simpl in Hq; [split; [|intros cs Hcs]; by simplify_eq|].
  assert (Hpass : forall o1, sr_routes o1 = sr_routes o ->
    quote_children g table to_ budget ids path vis amount o1 = (o', res) ->
    sr_routes o' = sr_routes o /\ forall cs, res = Some cs -> (ch_id <$> cs) `sublist_of` id :: ids).
  { intros o1 Ho Hq1. destruct (IH _ _ _ Hq1) as [Hr Hs]. split; [congruence|].
    intros cs Hcs. by apply sublist_cons, Hs. }
  destruct (edge g id) as [e|]; [|by apply (Hpass o)].
  destruct (node g (ed_to e)) as [n|]; [|by apply (Hpass o)].
  destruct (default true (vis !! n)); [by apply (Hpass o)|].
  destruct (pool_used g path (ed_via e)); [by apply (Hpass o)|].
  destruct (table_best table g (ed_to e) to_); [|by apply (Hpass o)].
  destruct (_ <=? _); [by injection Hq as <- <-|].
  destruct (quote e amount); [|by apply (Hpass (one_quote o))].
  destruct (log2_q32 a); [|by apply (Hpass (one_quote o))].
  destruct (quote_children g table to_ budget ids path vis amount (one_quote o)) as [o1 cs1] eqn:E1.
  injection Hq as <- <-. destruct (IH _ _ _ E1) as [Hr Hs]. split; [done|].
  intros cs Hcs. destruct cs1 as [cs1|]; [|done]. simplify_eq/=. by apply sublist_skip, Hs.
Qed.

Lemma visit_distinct h : go_distinct (visit g table gas to_ budget sort h).
Proof.
  induction h as [|h IH]; intros at_ amount gs path vis o o' Hv Hnd Hno; simpl in Hv;
    (destruct (at_ =? to_); [by eapply record_distinct|]).
  - simplify_eq. split; [done|by left].
  - destruct (quote_children _ _ _ _ _ _ _ _ _) as [o1 res] eqn:Eq.
    apply quote_children_shape in Eq as [Hr Hsub].
    destruct res as [cs|]; [|injection Hv as <-; split; [by rewrite Hr|by rewrite Hr; left]].
    assert (distinct path o1 o') as [Hd Hin].
    { eapply descend_distinct; [exact IH| |exact Hv|by rewrite Hr|].
      - rewrite Hsort. eapply sublist_NoDup; [|by apply Hsub].
        unfold out_edges. destruct (out_range g at_). apply NoDup_seq.
      - intros r c Hrin _ Hext%extends_snoc. rewrite Hr in Hrin. by eapply Hno. }
    split; [done|]. by rewrite <- Hr.
Qed.

(** *** No error but the gas *)

Definition gas_priced : Prop := forall gs, 0 <= gs <= umax 64 -> exists c, cost_in_out gas gs = Ok c.

Lemma descend_total go gs path vis cs :
  (forall id e, edge g id = Some e -> 0 <= ed_hop_gas e) -> 0 <= gs <= umax 64 ->
  (forall at_ amount gs path vis o, 0 <= gs <= umax 64 -> exists o', go at_ amount gs path vis o = Ok o') ->
  forall o, exists o', descend g budget go gs path vis cs o = Ok o'.
Proof.
  clear Hk top_pos share_ok.
  intros Hhg Hgs Hgo. induction cs as [|c cs IH]; intros o; simpl; [by eexists|].
  destruct (pruned _ _ _); [apply IH|]. destruct (edge g (ch_id c)) as [e|] eqn:Ee; [|apply IH].
  destruct (node g (ed_to e)) as [n|]; [|apply IH].
  destruct (Hgo (ed_to e) (ch_got c) (saturating_add 64 gs (ed_hop_gas e)) (path ++ [ch_id c]) (<[n := true]> vis) o)
    as [o1 ->].
  { pose proof (Hhg _ _ Ee). unfold saturating_add. lia. }
  destruct (sr_exhausted o1); [by eexists|apply IH].
Qed.

Lemma visit_total h : (forall id e, edge g id = Some e -> 0 <= ed_hop_gas e) -> gas_priced ->
  forall at_ amount gs path vis o, 0 <= gs <= umax 64 ->
  exists o', visit g table gas to_ budget sort h at_ amount gs path vis o = Ok o'.
Proof.
  clear Hk top_pos share_ok.
  intros Hhg Hp. induction h as [|h IH]; intros at_ amount gs path vis o Hgs; simpl;
    (destruct (at_ =? to_); [unfold record; destruct (Hp gs Hgs) as [c ->]; by eexists|]); [by eexists|].
  destruct (quote_children _ _ _ _ _ _ _ _ _) as [o1 [cs|]]; [|by eexists].
  by apply descend_total.
Qed.
End Found.
