(* ===== verification/RouterPairs.v ===== *)
(** * Pairs and linear unwraps as hops

    The book of [liq-router/src/solver.rs] where its pools are Uniswap V2 pairs and its
    unwraps linear: the zero-size [ρ] of each, the hop quotes of [HopQuoter for PoolBook], and
    that no hop pays more than the rate the table has for it ([QuoterLaws]). *)

From Stdlib Require Import Reals Lra.
From S2P Require Import Prelude Fixed Types RouterFees PoolMath RouterLog RouterGraph RouterTable RouterSearch RouterSearchThms.
Local Open Scope Z_scope.

Definition Q192 : Z := 2 ^ 192.

(** [narrow]. *)
Definition narrow (q : Z) : RRes Z := math (u256_from_u512 q).

(** ** Pairs *)

Record Pair := mkPair { pr_asset0 : AssetId; pr_asset1 : AssetId; pr_state : V2State; pr_hop_gas : Z }.

Definition v2_is_live (s : V2State) : bool := negb (v2_reserve0 s =? 0) && negb (v2_reserve1 s =? 0).

(** [rho_at_zero] of a pair. *)
Definition v2_rho (s : V2State) (i j : nat) : RRes Z :=
  let? zfo := zero_for_one (Z.of_nat i) (Z.of_nat j) in
  let '(rin, rout) := if zfo : bool then (v2_reserve0 s, v2_reserve1 s) else (v2_reserve1 s, v2_reserve0 s) in
  let? num := math (let! v := checked_mul 512 rout Q192 in checked_mul 512 v 997) in
  let? den := math (checked_mul 512 rin 1000) in
  if den =? 0 then Err InsufficientLiquidity else
  let? q := math (checked_div num den) in
  narrow (Z.sqrt q).

(** [PoolState::quote] of a pair. *)
Definition v2_quote (s : V2State) (i j : nat) (amount_in : Z) : RRes Z :=
  if amount_in =? 0 then Ok 0 else
  let? zfo := zero_for_one (Z.of_nat i) (Z.of_nat j) in
  let? r := v2_swap s zfo amount_in in
  Ok (fst r).

(** ** Linear unwraps *)

Record Unwrap := mkLinear {
  un_wrapper : AssetId;
  un_into : AssetId;
  un_assets_per_scale : Z;
  un_max_into : option Z;
  un_scale : Z;
  un_read_block : Z;
  un_gas : Z
}.

Definition un_is_live (u : Unwrap) : bool :=
  if (un_read_block u =? 0) || (un_scale u =? 0) then false else negb (un_assets_per_scale u =? 0).

Definition convert (u : Unwrap) (amount : Z) : RRes Z :=
  if negb (un_is_live u) then Err StalePool else
  let? raw := mul_div_512 amount (un_assets_per_scale u) (un_scale u) in
  if match un_max_into u with Some cap => cap <? raw | None => false end then Err InsufficientLiquidity else
  let haircut := default 0 (checked_div raw 1000000) in
  Ok (saturating_sub (saturating_sub raw haircut) 1).

Definition un_rho (u : Unwrap) : RRes Z :=
  let? q := math (let! v := checked_mul 512 (un_assets_per_scale u) Q192 in checked_div v (un_scale u)) in
  narrow (Z.sqrt q).

(** ** The book *)

Record PairBook := mkPairBook { pb_pairs : list Pair; pb_unwraps : list Unwrap }.

Definition unwrap_of (b : PairBook) (w : AssetId) : option Unwrap :=
  List.find (fun u => un_wrapper u =? w) (pb_unwraps b).

Definition res_ok {A} (r : RRes A) : option A := match r with Ok a => Some a | Err _ => None end.

Definition pair_view (b : PairBook) : Book := {|
  bk_pools := (fun p => mkFace [pr_asset0 p; pr_asset1 p] (pr_hop_gas p)) <$> pb_pairs b;
  bk_unwraps := (fun u => mkUnwrap (un_wrapper u) (un_into u) (un_gas u)) <$> pb_unwraps b;
  bk_pool_rho := fun p i j =>
    let! pool := pb_pairs b !! p in
    if v2_is_live (pr_state pool) then res_ok (v2_rho (pr_state pool) i j) else None;
  bk_unwrap_rho := fun w =>
    let! u := unwrap_of b w in
    if un_is_live u then res_ok (un_rho u) else None
|}.

#[export] Instance pair_quoter (b : PairBook) : HopQuoter := fun e amount_in =>
  match ed_via e with
  | ViaPool l =>
      let? pool := ok_or (pb_pairs b !! leg_pool l) BadLeg in
      if negb (v2_is_live (pr_state pool)) then Err StalePool else
      v2_quote (pr_state pool) (leg_i l) (leg_j l) amount_in
  | ViaUnwrap w =>
      let? u := ok_or (unwrap_of b w) BadLeg in
      convert u amount_in
  end.
#[global] Arguments pair_quoter b e amount_in /.

(** Reserves are [uint112] in the pair contract; a scale is a power of ten well below
    [2^128]. *)
Record pairs_fit (b : PairBook) : Prop := {
  pw_pairs : Forall (fun p => 0 <= v2_reserve0 (pr_state p) < 2 ^ 112 /\ 0 <= v2_reserve1 (pr_state p) < 2 ^ 112) (pb_pairs b);
  pw_unwraps : Forall (fun u => 0 <= un_assets_per_scale u < 2 ^ 256 /\ 0 <= un_scale u <= 2 ^ 128) (pb_unwraps b)
}.

(** ** Rates bound quotes *)

(** A [ρ] that is the rounded root of [num / den], not too small: what pays at most
    [num / den] per unit pays at most its rate. *)
Lemma rho_bounds num den rho a out : 0 < num -> 0 < den -> 0 < a -> 0 < out ->
  rho = Z.sqrt (num * Q192 / den) -> 2 ^ 32 <= rho < 2 ^ 256 -> out * den <= a * num ->
  exists rate, rate_of_rho rho = Some rate /\ (lg out <= lg a + IZR rate)%R.
Proof.
  intros Hn Hd Ha Hout -> Hrho Hpay. set (q := num * Q192 / den) in *. set (rho := Z.sqrt q) in *.
  destruct (rate_of_rho_spec rho ltac:(lia)) as (rate & Hr & _ & Hrate & _). exists rate. split; [done|].
  assert (0 <= q) as Hq by (apply Z.div_pos; unfold Q192; lia).
  destruct (Z.sqrt_spec q Hq) as [_ Hsq]. fold rho in Hsq.
  assert (num * Q192 < den * ((rho + 1) * (rho + 1))) as Hnum.
  { pose proof (Z.mul_succ_div_gt (num * Q192) den Hd). fold q in H.
    apply Z.lt_le_trans with (den * Z.succ q); [done|]. apply Z.mul_le_mono_nonneg_l; lia. }
  assert (out * Q192 <= a * ((rho + 1) * (rho + 1))) as Hle.
  { apply (Z.mul_le_mono_pos_r _ _ den Hd). transitivity (a * num * Q192).
    - replace (out * Q192 * den) with (out * den * Q192) by ring. by apply Z.mul_le_mono_nonneg_r.
    - replace (a * num * Q192) with (a * (num * Q192)) by ring.
      replace (a * ((rho + 1) * (rho + 1)) * den) with (a * (den * ((rho + 1) * (rho + 1)))) by ring.
      apply Z.mul_le_mono_nonneg_l; lia. }
  apply IZR_le in Hle. rewrite !mult_IZR in Hle.
  pose proof (IZR_lt 0 out Hout). pose proof (IZR_lt 0 a Ha).
  assert (0 < IZR (rho + 1))%R by (apply IZR_lt; lia).
  assert (l2 (IZR Q192) = 192)%R as HQ by (unfold Q192; by rewrite l2_pow2_Z).
  assert (0 < IZR Q192)%R by (apply IZR_lt; done).
  pose proof (l2_le (IZR out * IZR Q192) _ ltac:(apply Rmult_lt_0_compat; lra) Hle) as Hl2.
  assert (0 < IZR (rho + 1) * IZR (rho + 1))%R by (by apply Rmult_lt_0_compat).
  rewrite !l2_mult in Hl2 by done.
  assert (4294967296 <= IZR rho)%R as Hr32 by (apply (IZR_le (2 ^ 32)); lia).
  pose proof (l2_floor (IZR (rho + 1)) (IZR rho) 1 ltac:(lra)) as Hfl. rewrite plus_IZR in *.
  specialize (Hfl ltac:(lra) ltac:(lra) ltac:(lra)).
  assert (1 / IZR rho <= 1 / 4294967296)%R.
  { unfold Rdiv. apply Rmult_le_compat_l; [lra|]. apply Rinv_le_contravar; lra. }
  change (IZR Q96_LOG) with 412316860416%R in Hrate. unfold lg in *. lra.
Qed.

Lemma narrow256_Ok q r : narrow q = Ok r <-> r = q /\ 0 <= q < 2 ^ 256.
Proof.
  unfold narrow, math, u256_from_u512. rewrite ok_or_Ok, try_from_Some. unfold uint_ok, umax. lia.
Qed.

Lemma sqrt_lower q m : 0 <= m -> m * m <= q -> m <= Z.sqrt q.
Proof. intros Hm Hq. rewrite <- (Z.sqrt_square m) by done. by apply Z.sqrt_le_mono. Qed.

Lemma sqrt_upper q m : 0 <= q -> 0 < m -> q < m * m -> Z.sqrt q < m.
Proof. intros Hq Hm Hlt. apply (proj1 (Z.sqrt_lt_square q m Hq ltac:(lia))). done. Qed.

(** The side of a pair that takes the input, and the side that pays. *)
Definition sides (s : V2State) (zfo : bool) : Z * Z :=
  if zfo then (v2_reserve0 s, v2_reserve1 s) else (v2_reserve1 s, v2_reserve0 s).

Lemma v2_rho_value s i j zfo rin rout : zero_for_one (Z.of_nat i) (Z.of_nat j) = Ok zfo -> sides s zfo = (rin, rout) ->
  0 < rin < 2 ^ 112 -> 0 < rout < 2 ^ 112 ->
  let rho := Z.sqrt (rout * 997 * Q192 / (rin * 1000)) in
  v2_rho s i j = Ok rho /\ 2 ^ 32 <= rho < 2 ^ 256.
Proof.
  intros Hz Hs Hi Ho rho. unfold v2_rho. rewrite Hz. unfold sides in Hs. rewrite Hs.
  rewrite checked_mul_ok by (unfold umax, Q192; nia).
  rewrite checked_mul_ok by (unfold umax, Q192; nia). cbn [math ok_or].
  rewrite checked_mul_ok by (unfold umax; lia). cbn [math ok_or].
  rewrite (proj2 (Z.eqb_neq _ _)) by lia. unfold checked_div.
  rewrite (proj2 (Z.eqb_neq _ _)) by lia. cbn [math ok_or].
  replace (rout * Q192 * 997) with (rout * 997 * Q192) by ring. fold rho.
  assert (2 ^ 32 <= rho < 2 ^ 256) as Hrho.
  { split.
    - apply sqrt_lower; [lia|]. apply Z.div_le_lower_bound; [lia|]. unfold Q192. nia.
    - apply sqrt_upper; [apply Z.div_pos; unfold Q192; nia|lia|].
      apply Z.div_lt_upper_bound; [lia|]. unfold Q192. nia. }
  split; [|done]. apply narrow256_Ok. split; [done|lia].
Qed.

Lemma v2_quote_rate s i j a out : 0 <= v2_reserve0 s < 2 ^ 112 -> 0 <= v2_reserve1 s < 2 ^ 112 ->
  0 < a -> v2_quote s i j a = Ok out -> 0 < out ->
  exists rho rate, v2_rho s i j = Ok rho /\ rate_of_rho rho = Some rate /\ (lg out <= lg a + IZR rate)%R.
Proof.
  intros H0 H1 Ha Hq Hout. unfold v2_quote in Hq. rewrite (proj2 (Z.eqb_neq _ _)) in Hq by lia.
  destruct (zero_for_one _ _) as [zfo|] eqn:Ez; [|done].
  destruct (v2_swap s zfo a) as [[o s']|] eqn:Es; [|done]. injection Hq as <-. cbn in Hout |- *.
  apply v2_swap_Ok in Es as (Hin & Hrout & Ho & _); [|lia|lia|lia].
  set (rin := if zfo then v2_reserve0 s else v2_reserve1 s) in *.
  set (rout := if zfo then v2_reserve1 s else v2_reserve0 s) in *.
  assert (0 < rin < 2 ^ 112 /\ 0 < rout < 2 ^ 112) as [Hrin Hro] by (destruct zfo; lia).
  destruct (v2_rho_value s i j zfo rin rout Ez) as [Hrho Hfit]; [by destruct zfo|done|done|].
  eexists. destruct (rho_bounds (rout * 997) (rin * 1000) (Z.sqrt (rout * 997 * Q192 / (rin * 1000))) a o) as (rate & Hr & Hle);
    try done; try lia.
  - rewrite Ho. transitivity (a * 997 * rout / (rin * 1000 + a * 997) * (rin * 1000 + a * 997)).
    + apply Z.mul_le_mono_nonneg_l; [apply Z.div_pos; nia|lia].
    + pose proof (Z.mul_div_le (a * 997 * rout) (rin * 1000 + a * 997) ltac:(lia)). lia.
  - by exists rate.
Qed.

Lemma un_rho_value u : un_is_live u = true -> 0 <= un_assets_per_scale u < 2 ^ 256 -> 0 <= un_scale u <= 2 ^ 128 ->
  let rho := Z.sqrt (un_assets_per_scale u * Q192 / un_scale u) in
  un_rho u = Ok rho /\ 2 ^ 32 <= rho < 2 ^ 256 /\ 0 < un_assets_per_scale u /\ 0 < un_scale u.
Proof.
  intros Hl Ha Hs rho. unfold un_is_live in Hl.
  destruct (un_read_block u =? 0); [done|]. destruct (Z.eqb_spec (un_scale u) 0); [done|].
  destruct (Z.eqb_spec (un_assets_per_scale u) 0); [done|].
  unfold un_rho. rewrite checked_mul_ok by (unfold umax, Q192; nia). unfold checked_div.
  rewrite (proj2 (Z.eqb_neq _ _)) by lia. cbn [math ok_or]. fold rho.
  assert (2 ^ 32 <= rho < 2 ^ 256) as Hrho.
  { split.
    - apply sqrt_lower; [lia|]. apply Z.div_le_lower_bound; [lia|]. unfold Q192. nia.
    - apply sqrt_upper; [apply Z.div_pos; unfold Q192; nia|lia|].
      apply Z.div_lt_upper_bound; [lia|]. unfold Q192. nia. }
  split_and!; [apply narrow256_Ok; split; [done|lia]|lia|lia|lia|lia].
Qed.

Lemma convert_rate u a out : 0 <= un_assets_per_scale u < 2 ^ 256 -> 0 <= un_scale u <= 2 ^ 128 ->
  0 < a -> convert u a = Ok out -> 0 < out ->
  un_is_live u = true /\
  exists rho rate, un_rho u = Ok rho /\ rate_of_rho rho = Some rate /\ (lg out <= lg a + IZR rate)%R.
Proof.
  intros Hu Hs Ha Hc Hout. unfold convert in Hc. destruct (un_is_live u) eqn:El; [|done]. cbn [negb] in Hc.
  split; [done|]. destruct (un_rho_value u El Hu Hs) as (Hrho & Hfit & Hap & Hsp).
  destruct (mul_div_512 a (un_assets_per_scale u) (un_scale u)) as [raw|] eqn:Em; [|done].
  destruct (match un_max_into u with Some cap => cap <? raw | None => false end); [done|].
  injection Hc as Hc. unfold checked_div in Hc. cbn in Hc.
  assert (out <= raw /\ raw = a * un_assets_per_scale u / un_scale u) as [Hle Hraw].
  { unfold mul_div_512 in Em. rewrite (proj2 (Z.eqb_neq _ _)) in Em by lia.
    apply bind_Ok in Em as (p & [-> _]%ok_or_Ok%checked_mul_Some & Em).
    apply bind_Ok in Em as (q & [_ ->]%ok_or_Ok%checked_div_Some & Em).
    unfold u256_from_u512 in Em. apply ok_or_Ok, try_from_Some in Em as [-> Hw]. split; [|done].
    assert (0 <= a * un_assets_per_scale u / un_scale u / 1000000) by (apply Z.div_pos; [apply Hw|lia]).
    unfold saturating_sub in Hc. lia. }
  eexists. destruct (rho_bounds (un_assets_per_scale u) (un_scale u)
    (Z.sqrt (un_assets_per_scale u * Q192 / un_scale u)) a out) as (rate & Hr & Hlg); try done.
  - pose proof (Z.mul_div_le (a * un_assets_per_scale u) (un_scale u) Hsp). nia.
  - by exists rate.
Qed.

(** *** Words *)

Lemma v2_quote_word s i j a out : 0 <= v2_reserve0 s < 2 ^ 112 -> 0 <= v2_reserve1 s < 2 ^ 112 ->
  0 <= a -> v2_quote s i j a = Ok out -> 0 <= out < 2 ^ 256.
Proof.
  intros H0 H1 Ha Hq. unfold v2_quote in Hq. destruct (a =? 0); [simplify_eq; lia|].
  destruct (zero_for_one _ _) as [zfo|]; [|done].
  destruct (v2_swap s zfo a) as [[o s']|] eqn:Es; [|done]. injection Hq as <-. cbn.
  apply v2_swap_Ok in Es as (_ & _ & _ & Ho & _); [|lia|lia|lia]. destruct zfo; lia.
Qed.

Lemma convert_word u a out : convert u a = Ok out -> 0 <= out < 2 ^ 256.
Proof.
  unfold convert. destruct (negb _); [done|].
  destruct (mul_div_512 a (un_assets_per_scale u) (un_scale u)) as [raw|] eqn:Em; [|done].
  destruct (match un_max_into u with Some cap => cap <? raw | None => false end); [done|]. intros [= <-].
  unfold mul_div_512 in Em. destruct (_ =? 0); [done|].
  apply bind_Ok in Em as (p & _ & Em). apply bind_Ok in Em as (q & _ & Em).
  unfold u256_from_u512 in Em. apply ok_or_Ok, try_from_Some in Em as [-> Hw].
  unfold uint_ok, umax in Hw. unfold checked_div. cbn.
  assert (0 <= q / 1000000) by (apply Z.div_pos; lia). unfold saturating_sub. lia.
Qed.

Lemma pairs_at b p q : pairs_fit b -> pb_pairs b !! p = Some q ->
  0 <= v2_reserve0 (pr_state q) < 2 ^ 112 /\ 0 <= v2_reserve1 (pr_state q) < 2 ^ 112.
Proof. intros Hb Hq. by apply (Forall_lookup_1 _ _ _ _ (pw_pairs b Hb)) in Hq. Qed.

Lemma unwrap_at b w u : pairs_fit b -> unwrap_of b w = Some u ->
  0 <= un_assets_per_scale u < 2 ^ 256 /\ 0 <= un_scale u <= 2 ^ 128.
Proof.
  intros Hb Hu. apply find_some in Hu as [Hin _]. pose proof (pw_unwraps b Hb) as Hf.
  rewrite Forall_forall in Hf. apply Hf. by apply list_elem_of_In.
Qed.

Lemma pair_view_words b : book_words (pair_view b).
Proof.
  split; cbn.
  - intros p i j rho. destruct (pb_pairs b !! p) as [q|]; [|done]. destruct (v2_is_live _); [|done].
    unfold v2_rho. destruct (zero_for_one _ _) as [zfo|]; [|done]. cbn.
    destruct (if zfo : bool then _ else _) as [rin rout].
    destruct (math (let! v := checked_mul 512 rout Q192 in checked_mul 512 v 997)) as [num|]; [|done].
    destruct (math (checked_mul 512 rin 1000)) as [den|]; [|done]. destruct (den =? 0); [done|].
    destruct (math (checked_div num den)) as [r|]; [|done].
    destruct (narrow (Z.sqrt r)) as [x|] eqn:En; [|done]. cbn. intros [= <-]. apply narrow256_Ok in En as [-> ?]. done.
  - intros w rho. destruct (unwrap_of b w) as [u|]; [|done]. destruct (un_is_live u); [|done].
    unfold un_rho. destruct (math _) as [q|]; [|done].
    destruct (narrow (Z.sqrt q)) as [x|] eqn:En; [|done]. cbn. intros [= <-]. apply narrow256_Ok in En as [-> ?]. done.
Qed.

(** No hop through a pair or a linear unwrap pays more than the rate the table has for it. *)
#[export] Instance pair_laws g b : pairs_fit b -> @QuoterLaws g (pair_view b) (pair_quoter b).
Proof.
  intros Hb. split.
  - intros e a out Ha Hq. unfold quote, pair_quoter in Hq. destruct (ed_via e) as [l|w].
    + destruct (pb_pairs b !! leg_pool l) as [p|] eqn:Ep; [|done]. cbn in Hq.
      destruct (v2_is_live (pr_state p)); [|done]. destruct (pairs_at _ _ _ Hb Ep).
      eapply v2_quote_word; [done|done| |exact Hq]. lia.
    + destruct (unwrap_of b w) as [u|]; [|done]. by apply convert_word in Hq.
  - intros id e a out _ Ha Hq Hout. unfold quote, pair_quoter in Hq. unfold edge_rate. cbn [pair_view bk_pool_rho bk_unwrap_rho].
    destruct (ed_via e) as [l|w].
    + destruct (pb_pairs b !! leg_pool l) as [p|] eqn:Ep; [|done]. cbn in Hq.
      destruct (v2_is_live (pr_state p)); [|done]. destruct (pairs_at _ _ _ Hb Ep) as [H0 H1].
      destruct (v2_quote_rate (pr_state p) (leg_i l) (leg_j l) a out H0 H1 ltac:(lia) Hq Hout) as (rho & rate & -> & Hr & Hle). by exists rate.
    + destruct (unwrap_of b w) as [u|] eqn:Eu; [|done]. cbn in Hq. destruct (unwrap_at _ _ _ Hb Eu) as [H1 H2].
      destruct (convert_rate u a out H1 H2 ltac:(lia) Hq Hout) as (-> & rho & rate & -> & Hr & Hle). by exists rate.
Qed.
