(* ===== verification/RouterRoutes.v ===== *)
(** * The routes found

    The theorem of the route search, over any book whose hops obey [QuoterLaws], and the
    books of pairs and linear unwraps as one. *)

From Stdlib Require Import Reals Lra Sorted.
From S2P Require Import Prelude Fixed Types Flash RouterFees PoolMath RouterLog RouterGraph RouterTable RouterSearch RouterSearchThms RouterPairs.
Local Open Scope Z_scope.

Record budget_ok (budget : SearchBudget) (k : nat) : Prop := {
  bo_top : (0 < sb_top_n budget)%nat;
  bo_hops : (1 <= sb_max_hops budget <= k)%nat;
  bo_share : 0 <= sb_min_share_bps budget <= 10000
}.

(** What a search returned: real routes, each once, best first, and unless the quotes ran out
    every real route has its due. *)
Record found (g : TokenGraph) `{HopQuoter} (gas : GasTerms) (budget : SearchBudget) (from to_ : AssetId)
  (amount : Z) (res : SearchResult) : Prop := {
  fo_real : forall r, r ∈ sr_routes res ->
    real_path g to_ (sb_max_hops budget) from amount (ro_edges r) (ro_amount_out r) (ro_hop_gas r) /\
    exists c, cost_in_out gas (ro_hop_gas r) = Ok c /\ ro_net r = saturating_sub (ro_amount_out r) c;
  fo_once : NoDup (ro_edges <$> sr_routes res);
  fo_order : StronglySorted net_ge (sr_routes res);
  fo_len : (length (sr_routes res) <= sb_top_n budget)%nat;
  fo_all : sr_exhausted res = false -> forall ids out gs c,
    real_path g to_ (sb_max_hops budget) from amount ids out gs -> cost_in_out gas gs = Ok c ->
    has_due budget (sr_routes res) ids (saturating_sub out c)
}.

Lemma no_result_found g `{HopQuoter} gas budget from to_ amount : graph_ok g -> from <> to_ ->
  node g from = None -> found g gas budget from to_ amount no_result.
Proof.
  intros Hg Hne Hnode. split; cbn; [by intros ? ?%elem_of_nil|constructor|constructor|lia|].
  intros _ ids out gs c (es & Hids & _ & Hlink & _) _. destruct es as [|e es]; [done|].
  destruct Hlink as [<- _]. inversion Hids as [|id ? ? ? He _]; subst.
  destruct (gk_ends g Hg _ _ He) as ([n Hn]%list_elem_of_lookup_1 & _). apply (gk_node g Hg) in Hn. congruence.
Qed.

(** C15. The route search returns, and what it returns is right: every route is a path of the
    graph from [from] to [to_] within the hops allowed, no token and no pool twice, with the
    amount its hops quote one after the other and the net of its gas; no route is listed
    twice; the best net is first; and unless the budget of quotes ran out, every such path is
    listed, or the list is full of routes that net as much, or it nets less than the minimum
    share of the best: no route that would have made the list is cut. *)
Theorem search_finds_the_best book keep g k table `{HopQuoter} gas budget sort from to_ amount :
  build_with book keep = Ok g -> book_words book ->
  (forall e, book_edge book keep e -> 0 <= ed_hop_gas e) ->
  (1 <= k <= 10)%nat -> table_build g book k = Ok table -> QuoterLaws g book ->
  (forall cs, sort cs ≡ₚ cs) -> budget_ok budget k -> gas_priced gas -> 0 < amount < 2 ^ 256 -> from <> to_ ->
  exists res, search g table gas to_ budget sort from amount = Ok res /\ found g gas budget from to_ amount res.
Proof.
  intros Hbuild Hwords Hgas Hk Htab Hlaws Hsort [Htop Hhops Hshare] Hpriced Ha Hne.
  destruct (build_with_ok _ _ _ Hbuild) as [Hg Hin].
  assert (Htable : table_ok g book k table).
  { destruct (table_build_rows g book Hg Hwords k Hk) as (z & Hz & Hrows). rewrite Htab in Hz. injection Hz as <-.
    by apply table_rows_ok. }
  unfold search. rewrite (proj1 Htable).
  rewrite (proj2 (Nat.eqb_neq _ _)), (proj2 (Nat.eqb_neq _ _)), (proj2 (Nat.ltb_ge _ _)), (proj2 (Z.ltb_ge _ _)) by lia.
  cbn [orb]. destruct (node g from) as [start|] eqn:Es; [|by eexists; split; [done|apply no_result_found]].
  rewrite (proj2 (Z.eqb_neq _ _)) by done.
  destruct (visit_total g table gas to_ budget sort (sb_max_hops budget)) with (at_ := from) (amount := amount)
    (gs := 0) (path := @nil EdgeId) (vis := <[start := true]> (replicate (length (tg_nodes g)) false)) (o := no_result)
    as [res Hres]; [|done|unfold umax; lia|].
  { intros id e He. apply Hgas, Hin. by eapply list_elem_of_lookup_2. }
  exists res. split; [done|].
  assert (Hgood : good budget (sr_routes no_result)) by (split; cbn; [constructor|lia|done|constructor]).
  pose proof (visit_tried g book table gas to_ budget sort Hg Hwords k ltac:(lia) Htable Hsort Htop Hshare
    (sb_max_hops budget) ltac:(lia) _ _ _ _ _ _ _ Ha Hgood eq_refl Hres) as Htr.
  destruct (visit_distinct g table gas to_ budget sort Hsort _ _ _ _ _ _ _ _ Hres) as [Hnd _];
    [constructor|by intros ? ?%elem_of_nil|].
  destruct Htr as [[Hs Hl _ _] _ Hnew Hall]. split; [|done|done|done|].
  - intros r Hr. destruct (Hnew r Hr) as [?%elem_of_nil|[Hf Hc]]; [done|]. split; [|done].
    by apply (finish_real g to_ Hg _ _ _ _ _ _ _ Es).
  - intros Hex ids out gs c Hp Hc. apply (Hall Hex _ _ gs); [|done]. by apply (finish_real g to_ Hg _ _ _ _ _ _ _ Es).
Qed.

(** Three tokens: a thin direct pair [1, 3], deep pairs [1, 2] and [2, 3]. *)
Definition ex_pairs : PairBook := mkPairBook
  [mkPair 1 3 (mkV2 1000000 1000000 0) 90000;
   mkPair 1 2 (mkV2 1000000000 1000000000 0) 90000;
   mkPair 2 3 (mkV2 1000000000 1000000000 0) 90000] [].
Definition ex_pair_graph : TokenGraph :=
  match build (pair_view ex_pairs) with Ok g => g | Err _ => mkGraph [] ∅ [] [] end.
Definition ex_pair_table : ZeroTable :=
  match table_build ex_pair_graph (pair_view ex_pairs) 3 with Ok z => z | Err _ => mkTable 0 0 [] [] end.
Definition ex_budget : SearchBudget := mkBudget 3 2 100 5000.
Definition ex_gas : GasTerms := mkGas 1 1 1000000000000000.
Definition best_first (cs : list Child) : list Child := sort_by (fun a b => ch_bound b <=? ch_bound a) cs.

Lemma ex_pairs_fit : pairs_fit ex_pairs.
Proof. split; [repeat constructor; cbn; lia|constructor]. Qed.

Lemma ex_gas_priced : gas_priced ex_gas.
Proof.
  intros gs Hgs. unfold umax in Hgs. exists (gs * 2 * 1000000000000000 / WEI_PER_ETH).
  unfold cost_in_out, accounting_wei_per_gas, ex_gas. cbn [gt_base_fee_wei gt_priority_fee_wei gt_out_per_eth].
  rewrite checked_add_ok by (unfold umax; lia). cbn [math ok_or]. change (1 + 1) with 2.
  rewrite checked_mul_ok by (unfold umax; lia). cbn [math ok_or]. unfold mul_div_512, WEI_PER_ETH. cbn [Z.eqb].
  rewrite checked_mul_ok by (unfold umax; lia). cbn [math ok_or]. unfold checked_div. cbn [Z.eqb math ok_or].
  unfold u256_from_u512. rewrite try_from_ok; [done|]. unfold uint_ok, umax.
  split; [apply Z.div_pos; lia|]. apply Z.lt_succ_r, Z.div_lt_upper_bound; lia.
Qed.

Lemma search_finds_the_best_witness :
  exists res, search ex_pair_graph ex_pair_table (H := pair_quoter ex_pairs) ex_gas 3 ex_budget best_first 1 100000 = Ok res /\
    ro_edges <$> sr_routes res = [[1; 3]; [0]]%nat /\ sr_exhausted res = false /\
    found ex_pair_graph (H := pair_quoter ex_pairs) ex_gas ex_budget 1 3 100000 res.
Proof.
  destruct (search_finds_the_best (pair_view ex_pairs) (fun _ => true) ex_pair_graph 3 ex_pair_table
    (H := pair_quoter ex_pairs) ex_gas ex_budget best_first 1 3 100000) as (res & Hres & Hfound).
  - vm_compute. reflexivity.
  - apply pair_view_words.
  - intros e [(p & q & Hq & _ & i & j & a & b & _ & _ & _ & _ & ->)|(u & Hu & _)]; [|by apply elem_of_nil in Hu].
    destruct p as [|[|[|p]]]; cbn in Hq; simplify_eq; cbn; lia.
  - lia.
  - vm_compute. reflexivity.
  - apply pair_laws, ex_pairs_fit.
  - intros cs. apply sort_by_perm.
  - split; cbn; lia.
  - apply ex_gas_priced.
  - lia.
  - lia.
  - exists res. pose proof Hres as Hval. vm_compute in Hval. injection Hval as Hval.
    split; [exact Hres|]. split; [rewrite <- Hval; reflexivity|]. split; [rewrite <- Hval; reflexivity|exact Hfound].
Defined.
