(* ===== verification/RouterLabels.v ===== *)
(** * The label search

    [liq-router/src/graph.rs], [best_path], [best_paths_by_hops], [label_layers] and
    [route_from]: layer [h] holds, per token, the most of it that a path of [h] hops was found
    to deliver. The sentinels of a cell ([NO_EDGE], [u32::MAX]) are [None]. *)

From S2P Require Import Prelude Types Flash RouterFees RouterLog RouterGraph RouterTable RouterSearch.
Local Open Scope Z_scope.

Record Cell := mkCell { cl_amount : Z; cl_edge : option EdgeId; cl_prev : option nat }.
Definition blank_cell : Cell := mkCell 0 None None.
Abbreviation Layer := (list Cell) (only parsing).

Section Labels.
Context (g : TokenGraph) (table : ZeroTable) `{HopQuoter} (to_ : AssetId).

Definition cell_at (layers : list Layer) (h k : nat) : option Cell :=
  let! l := layers !! h in l !! k.

(** The tokens and the pools on the path of the label at [k] in layer [h]. *)
Fixpoint label_path (layers : list Layer) (h k : nat) : list nat * list PoolId :=
  match cell_at layers h k with
  | None => ([k], [])
  | Some c =>
      match cl_prev c, h with
      | Some prev, S h' =>
          let '(ks, ps) := label_path layers h' prev in
          (k :: ks,
           match (let! id := cl_edge c in ed_via <$> edge g id) with
           | Some (ViaPool l) => leg_pool l :: ps
           | _ => ps
           end)
      | _, _ => ([k], [])
      end
  end.

Record Labelled := mkLabelled { lb_next : Layer; lb_best : option (Z * nat); lb_quotes : Z }.

(** One edge out of the label [have] at [u] in layer [h]. *)
Definition label_edge (min_hops max_hops h u : nat) (have : Z) (on_path : list nat) (on_pools : list PoolId)
  (st : Labelled) (id : EdgeId) : Labelled :=
  match edge g id with
  | None => st
  | Some e =>
      match node g (ed_to e) with
      | None => st
      | Some v =>
          if bool_decide (v ∈ on_path) then st else
          if match ed_via e with ViaPool l => bool_decide (leg_pool l ∈ on_pools) | ViaUnwrap _ => false end then st else
          match table_best table g (ed_to e) to_ with
          | None => st
          | Some _ =>
              let st := mkLabelled (lb_next st) (lb_best st) (saturating_add 32 (lb_quotes st) 1) in
              match quote e have with
              | Err _ => st
              | Ok got =>
                  match lb_next st !! v with
                  | None => st
                  | Some cell =>
                      if cl_amount cell <? got then
                        match try_from_nat 32 u with
                        | None => st
                        | Some ui =>
                            let next := <[v := mkCell got (Some id) (Some ui)]> (lb_next st) in
                            let better := match lb_best st with Some (b, _) => b <? got | None => true end in
                            if (ed_to e =? to_) && (min_hops <=? S h)%nat && better
                            then mkLabelled next (Some (got, default max_hops (try_from_nat 8 (S h)))) (lb_quotes st)
                            else mkLabelled next (lb_best st) (lb_quotes st)
                        end
                      else st
                  end
              end
          end
      end
  end.

(** Whether a label can no longer beat the best output found. *)
Definition label_cut (best : option (Z * nat)) (have from_here : Z) : bool :=
  match best, log2_q32 have with
  | Some (b, _), Some lh =>
      match log2_q32 b with
      | Some lb => sat_add64 (sat_add64 lh from_here) EDGE_MARGIN <? lb
      | None => false
      end
  | _, _ => false
  end.

Definition label_token (min_hops max_hops : nat) (layers : list Layer) (h u : nat) (c : Cell) (st : Labelled) : Labelled :=
  if cl_amount c =? 0 then st else
  match tg_nodes g !! u with
  | None => st
  | Some at_ =>
      if at_ =? to_ then st else
      let '(on_path, on_pools) := label_path layers h u in
      match table_best table g at_ to_ with
      | None => st
      | Some from_here =>
          if label_cut (lb_best st) (cl_amount c) from_here then st else
          foldl (label_edge min_hops max_hops h u (cl_amount c) on_path on_pools) st (out_edges g at_)
      end
  end.

Fixpoint label_tokens (min_hops max_hops : nat) (layers : list Layer) (h u : nat) (cur : Layer) (st : Labelled) : Labelled :=
  match cur with
  | [] => st
  | c :: cur =>
      label_tokens min_hops max_hops layers h (S u) cur (label_token min_hops max_hops layers h u c st)
  end.

(** [for h in 0..max_hops]: [turns] are those left. *)
Fixpoint label_loop (turns min_hops max_hops h : nat) (layers : list Layer) (best : option (Z * nat)) (quotes : Z)
  : list Layer * option (Z * nat) * Z :=
  match turns with
  | O => (layers, best, quotes)
  | S turns =>
      match layers !! h, layers !! S h with
      | Some cur, Some next =>
          let st := label_tokens min_hops max_hops layers h 0 cur (mkLabelled next best quotes) in
          label_loop turns min_hops max_hops (S h) (<[S h := lb_next st]> layers) (lb_best st) (lb_quotes st)
      | _, _ => (layers, best, quotes)
      end
  end.

Definition label_layers (from : AssetId) (amount : Z) (min_hops max_hops : nat) : list Layer * option (Z * nat) * Z :=
  let n := length (tg_nodes g) in
  match node g from with
  | None => ([], None, 0)
  | Some start =>
      if (from =? to_) || (amount =? 0) || (max_hops =? 0)%nat || (table_hops table <? max_hops)%nat
      then ([], None, 0) else
      let layers := <[0%nat := <[start := mkCell amount None None]> (replicate n blank_cell)]>
                      (replicate (S max_hops) (replicate n blank_cell)) in
      label_loop max_hops min_hops max_hops 0 layers None 0
  end.

(** The walk back from [k] in layer [h]: the edges, of which the source pushes the last one
    first and reverses the list at the end, and their gas. *)
Fixpoint walk_back (layers : list Layer) (h k : nat) (edges : list EdgeId) (hop_gas : Z) : option (list EdgeId * Z) :=
  match h with
  | O => Some (edges, hop_gas)
  | S h' =>
      let! c := cell_at layers h k in
      let! id := cl_edge c in
      let! e := edge g id in
      let! prev := cl_prev c in
      walk_back layers h' prev (id :: edges) (saturating_add 64 hop_gas (ed_hop_gas e))
  end.

Definition route_from (layers : list Layer) (hops : nat) : option Route :=
  let! k := node g to_ in
  let! c := cell_at layers hops k in
  if cl_amount c =? 0 then None else
  let! (edges, hop_gas) := walk_back layers hops k [] 0 in
  Some (mkRoute edges (cl_amount c) hop_gas (cl_amount c)).

Definition best_path (from : AssetId) (amount : Z) (min_hops max_hops : nat) : option Route * Z :=
  let '(layers, best, quotes) := label_layers from amount min_hops max_hops in
  match best with
  | None => (None, quotes)
  | Some (_, hops) => (route_from layers hops, quotes)
  end.

Definition best_paths_by_hops (from : AssetId) (amount : Z) (min_hops max_hops : nat) : list Route * Z :=
  let '(layers, _, quotes) := label_layers from amount min_hops max_hops in
  let found := omap (fun hops => if (hops <? min_hops)%nat then None else route_from layers hops) (seq 1 max_hops) in
  (sort_by (fun a b => ro_amount_out b <=? ro_amount_out a) found, quotes).
End Labels.
