(* ===== verification/RouterLabelThms.v ===== *)
(** * What the label search finds

    A label is the end of a real path; [best_path] returns one. On a graph whose pools have
    two coins and whose hops pay more for more, no path of up to three hops pays more than the
    one returned. With a pool of three coins that fails at two hops. *)

From Stdlib Require Import Reals Lra.
From S2P Require Import Prelude Fixed Types Flash RouterFees PoolMath RouterLog RouterGraph RouterTable RouterSearch RouterSearchThms RouterPairs RouterRoutes RouterLabels.
Local Open Scope Z_scope.

Lemma gas_sum_nonneg es : Forall (fun e => 0 <= ed_hop_gas e) es -> 0 <= zsum ed_hop_gas es.
Proof.
  induction 1 as [|e es He _ IH]; [done|]. change (zsum ed_hop_gas (e :: es)) with (ed_hop_gas e + zsum ed_hop_gas es). lia.
Qed.

(** Gas adds up to the same in either direction. *)
Lemma gas_of_sum es : forall gs, Forall (fun e => 0 <= ed_hop_gas e) es -> 0 <= gs <= umax 64 ->
  gas_of gs es = Z.min (gs + zsum ed_hop_gas es) (umax 64).
Proof.
  induction es as [|e es IH]; intros gs Hf Hgs; [cbn; lia|].
  apply Forall_cons in Hf as [He Hf]. unfold gas_of in *. cbn [foldl].
  pose proof (gas_sum_nonneg es Hf).
  rewrite IH by (try done; unfold saturating_add; lia). unfold saturating_add.
  change (zsum ed_hop_gas (e :: es)) with (ed_hop_gas e + zsum ed_hop_gas es). lia.
Qed.

Definition gas_back (gs : Z) (es : list Edge) : Z := foldr (fun e gs => saturating_add 64 gs (ed_hop_gas e)) gs es.

Lemma gas_back_of es : Forall (fun e => 0 <= ed_hop_gas e) es -> gas_back 0 es = gas_of 0 es.
Proof.
  intros Hf. rewrite gas_of_sum by (try done; unfold umax; lia). unfold gas_back.
  induction Hf as [|e es He Hf IH]; [done|]. cbn [foldr]. rewrite IH. unfold saturating_add.
  pose proof (gas_sum_nonneg es Hf).
  change (zsum ed_hop_gas (e :: es)) with (ed_hop_gas e + zsum ed_hop_gas es). lia.
Qed.

Lemma pays_app `{HopQuoter} es1 es2 : forall a,
  pays a (es1 ++ es2) = (let! b := pays a es1 in pays b es2).
Proof.
  induction es1 as [|e es1 IH]; intros a; [done|]. simpl. destruct (quote e a) as [got|]; [|done].
  destruct (0 <? got); [apply IH|done].
Qed.

Lemma linked_app es1 es2 : forall a b c, linked a es1 b -> linked b es2 c -> linked a (es1 ++ es2) c.
Proof.
  induction es1 as [|e es1 IH]; intros a b c H1 H2; simpl in *; [by subst|].
  destruct H1 as [Ha H1]. split; [done|by eapply IH].
Qed.

Section Labels.
Context (g : TokenGraph) (book : Book) (table : ZeroTable) `{HopQuoter} (to_ : AssetId)
  (from : AssetId) (amount : Z) (min_hops max_hops : nat).
Hypothesis Hg : graph_ok g.
Hypothesis Hgas : forall id e, edge g id = Some e -> 0 <= ed_hop_gas e.

Abbreviation n := (length (tg_nodes g)).

(** A label: a path of [h] hops from [from] to the token at [v] that does not pass the target
    before its end, no token and no pool twice, that pays the amount, and which the two walks
    back recover. *)
Record label (layers : list Layer) (h v : nat) (c : Cell) (ids : list EdgeId) (es : list Edge) : Prop := {
  la_ids : Forall2 (fun id e => edge g id = Some e) ids es;
  la_len : length ids = h;
  la_link : exists a, tg_nodes g !! v = Some a /\ linked from es a;
  la_tokens : NoDup (from :: (ed_to <$> es));
  la_pools : NoDup (omap pool_of es);
  la_pays : pays amount es = Some (cl_amount c);
  la_before : forall e, e ∈ es -> ed_from e <> to_;
  la_nodes : forall k, k ∈ fst (label_path g layers h v) <->
    exists a, tg_nodes g !! k = Some a /\ a ∈ from :: (ed_to <$> es);
  la_used : forall p, p ∈ snd (label_path g layers h v) <-> p ∈ omap pool_of es;
  la_back : forall acc gs, walk_back g layers h v acc gs = Some (ids ++ acc, gas_back gs es)
}.

Definition labelled (layers : list Layer) (h v : nat) (c : Cell) : Prop := exists ids es, label layers h v c ids es.

(** How a cell of layer [h + 1] came about. *)
Definition came_from (layers : list Layer) (h v : nat) (c : Cell) : Prop :=
  exists u cu id e, cell_at layers h u = Some cu /\ 0 < cl_amount cu /\ edge g id = Some e /\
    tg_nodes g !! u = Some (ed_from e) /\ tg_nodes g !! v = Some (ed_to e) /\ ed_from e <> to_ /\
    (v ∉ fst (label_path g layers h u)) /\
    (forall p, pool_of e = Some p -> p ∉ snd (label_path g layers h u)) /\
    quote e (cl_amount cu) = Ok (cl_amount c) /\ 0 < cl_amount c /\ cl_edge c = Some id /\ cl_prev c = Some u.

(** Layers up to [h] are done. *)
Definition layers_ok (layers : list Layer) (h : nat) : Prop :=
  forall h' v c, (h' <= h)%nat -> cell_at layers h' v = Some c ->
    0 <= cl_amount c /\ (0 < cl_amount c -> labelled layers h' v c).

Lemma label_path_low layers layers' h : (forall h', (h' <= h)%nat -> layers' !! h' = layers !! h') ->
  forall v, label_path g layers' h v = label_path g layers h v.
Proof.
  induction h as [|h IH]; intros Hsame v; cbn [label_path]; unfold cell_at; rewrite Hsame by lia; [done|].
  destruct (let! l := layers !! S h in l !! v) as [c|]; [|done]. destruct (cl_prev c) as [p|]; [|done].
  rewrite IH; [done|]. intros h' Hh. apply Hsame. lia.
Qed.

Lemma walk_back_low layers layers' h : (forall h', (h' <= h)%nat -> layers' !! h' = layers !! h') ->
  forall v acc gs, walk_back g layers' h v acc gs = walk_back g layers h v acc gs.
Proof.
  induction h as [|h IH]; intros Hsame v acc gs; cbn [walk_back]; [done|]. unfold cell_at. rewrite Hsame by lia.
  destruct (let! l := layers !! S h in l !! v) as [c|]; [|done]. destruct (cl_edge c) as [id|]; [|done].
  destruct (edge g id) as [e|]; [|done]. destruct (cl_prev c) as [p|]; [|done].
  apply IH. intros h' Hh. apply Hsame. lia.
Qed.

Lemma label_low layers layers' h v c : (forall h', (h' <= h)%nat -> layers' !! h' = layers !! h') ->
  labelled layers h v c -> labelled layers' h v c.
Proof.
  intros Hsame (ids & es & [H1 H2 H3 H4 H5 H6 H7 H8 H9 H10]). exists ids, es. split; try done.
  - intros k. by rewrite (label_path_low layers layers' h Hsame).
  - intros p. by rewrite (label_path_low layers layers' h Hsame).
  - intros acc gs. by rewrite (walk_back_low layers layers' h Hsame).
Qed.

Lemma label_extend layers h v c : layers_ok layers h -> cell_at layers (S h) v = Some c ->
  came_from layers h v c -> labelled layers (S h) v c.
Proof.
  intros Hok Hc (u & cu & id & e & Hcu & Hpos & He & Hu & Hv & Hne & Hnv & Hnp & Hq & Hc0 & Hid & Hprev).
  destruct (Hok h u cu (le_n _) Hcu) as [_ Hl]. destruct (Hl Hpos) as (ids & es & [L1 L2 (a & La & L3) L4 L5 L6 L7 L8 L9 L10]).
  rewrite Hu in La. injection La as <-.
  assert (Hnew : ed_to e ∉ from :: (ed_to <$> es)).
  { intros Hin. apply Hnv, L8. by exists (ed_to e). }
  assert (Hpool : forall p, pool_of e = Some p -> p ∉ omap pool_of es).
  { intros p Hp Hin. apply (Hnp p Hp). by apply L9. }
  exists (ids ++ [id]), (es ++ [e]). split.
  - apply Forall2_app; [done|by repeat constructor].
  - rewrite length_app. simpl. lia.
  - exists (ed_to e). split; [done|]. by eapply linked_app.
  - rewrite fmap_app. change (from :: ?l ++ ?k) with ((from :: l) ++ k). apply NoDup_app. split_and!; [done| |apply NoDup_singleton].
    intros x Hx ->%list_elem_of_singleton. done.
  - rewrite omap_app. apply NoDup_app. split_and!; [done| |cbn; destruct (pool_of e); [apply NoDup_singleton|constructor]].
    intros p Hp Hin. cbn in Hin. destruct (pool_of e) as [q|] eqn:Eq; [|by apply elem_of_nil in Hin].
    apply list_elem_of_singleton in Hin as ->. by apply (Hpool q).
  - rewrite pays_app, L6. simpl. rewrite Hq. by rewrite (proj2 (Z.ltb_lt _ _)).
  - intros e' [Hin| ->%list_elem_of_singleton]%elem_of_app; [by apply L7|done].
  - intros k. cbn [label_path]. rewrite Hc, Hprev. destruct (label_path g layers h u) as [ks ps] eqn:Ep. cbn in *.
    rewrite elem_of_cons, L8, fmap_app. setoid_rewrite elem_of_cons. setoid_rewrite elem_of_app. cbn.
    setoid_rewrite list_elem_of_singleton. split.
    + intros [->|(b & Hb & Hin)]; [by exists (ed_to e); auto|]. exists b. naive_solver.
    + intros (b & Hb & [->|[Hin| ->]]); [right; exists from; auto|right; exists b; auto|].
      left. eapply NoDup_lookup; [apply (gk_nodup g Hg)|exact Hb|exact Hv].
  - intros p. cbn [label_path]. rewrite Hc, Hprev. destruct (label_path g layers h u) as [ks ps] eqn:Ep. cbn in *.
    rewrite Hid, He. cbn. rewrite omap_app, elem_of_app. cbn. unfold pool_of at 2.
    destruct (ed_via e) as [l|w]; [|rewrite L9, elem_of_nil; tauto].
    rewrite elem_of_cons, list_elem_of_singleton, L9. tauto.
  - intros acc gs. cbn [walk_back]. rewrite Hc. cbn. rewrite Hid, He, Hprev, L10. rewrite <- app_assoc. simpl.
    unfold gas_back. rewrite foldr_app. done.
Qed.

(** ** One layer *)

Definition best_val (b : option (Z * nat)) : Z := match b with Some (x, _) => x | None => 0 end.

(** The next layer and the best output, while layer [h] is left. *)
Record filling (layers : list Layer) (h : nat) (st : Labelled) : Prop := {
  fi_len : length (lb_next st) = n;
  fi_cell : forall v c, lb_next st !! v = Some c -> c = blank_cell \/ came_from layers h v c;
  fi_best : forall b hp, lb_best st = Some (b, hp) -> 0 < b /\ (1 <= hp)%nat /\ (min_hops <= hp <= S h)%nat /\
    exists t c, node g to_ = Some t /\ cell_at (<[S h := lb_next st]> layers) hp t = Some c /\ cl_amount c = b;
  fi_top : forall l t c, (min_hops <= l <= S h)%nat -> (1 <= l)%nat -> node g to_ = Some t ->
    cell_at (<[S h := lb_next st]> layers) l t = Some c -> cl_amount c <= best_val (lb_best st)
}.

Definition grown (st st' : Labelled) : Prop :=
  best_val (lb_best st) <= best_val (lb_best st') /\
  forall v c, lb_next st !! v = Some c -> exists c', lb_next st' !! v = Some c' /\ cl_amount c <= cl_amount c'.

Lemma grown_refl st : grown st st.
Proof. split; [lia|]. intros v c Hc. by exists c. Qed.

Lemma grown_trans a b c : grown a b -> grown b c -> grown a c.
Proof.
  intros [B1 C1] [B2 C2]. split; [lia|]. intros v x (y & Hy & Hle)%C1. destruct (C2 _ _ Hy) as (z & Hz & Hle').
  exists z. split; [done|lia].
Qed.

(** An edge the label at [u] may take. *)
Definition takes (layers : list Layer) (h u : nat) (have : Z) (id : EdgeId) (v : nat) (got : Z) : Prop :=
  exists e, edge g id = Some e /\ node g (ed_to e) = Some v /\ (v ∉ fst (label_path g layers h u)) /\
    (forall p, pool_of e = Some p -> p ∉ snd (label_path g layers h u)) /\
    is_Some (table_best table g (ed_to e) to_) /\ quote e have = Ok got.

Lemma cell_at_next layers h next t : (S h < length layers)%nat ->
  cell_at (<[S h := next]> layers) (S h) t = next !! t.
Proof. intros Hl. unfold cell_at. by rewrite list_lookup_insert_eq. Qed.

Lemma cell_at_other layers h next l t : l <> S h -> cell_at (<[S h := next]> layers) l t = cell_at layers l t.
Proof. intros Hl. unfold cell_at. by rewrite list_lookup_insert_ne. Qed.

Definition better (b : option (Z * nat)) (x : Z) : bool := match b with Some (y, _) => y <? x | None => true end.

(** A cell of the next layer set to a larger amount, and the best output with it. *)
Lemma filling_set layers h st v c c' best' quotes' :
  filling layers h st -> (S h < length layers)%nat -> lb_next st !! v = Some c -> cl_amount c < cl_amount c' ->
  came_from layers h v c' ->
  best' = (if decide (node g to_ = Some v /\ (min_hops <= S h)%nat)
           then if better (lb_best st) (cl_amount c') then Some (cl_amount c', S h) else lb_best st
           else lb_best st) ->
  let st' := mkLabelled (<[v := c']> (lb_next st)) best' quotes' in
  filling layers h st' /\ grown st st'.
Proof.
  intros [Flen Fcell Fbest Ftop] Hh Hc Hlt Hcame Hb'. cbv zeta.
  assert (Hvlt : (v < length (lb_next st))%nat) by (by eapply lookup_lt_Some).
  assert (Hc0 : 0 < cl_amount c').
  { destruct Hcame as (? & ? & ? & ? & _ & _ & _ & _ & _ & _ & _ & _ & _ & Hc0 & _). done. }
  assert (Hval : best_val (lb_best st) <= best_val best' /\
    (node g to_ = Some v -> (min_hops <= S h)%nat -> cl_amount c' <= best_val best')).
  { rewrite Hb'. destruct (decide _) as [Hhit|Hno]; [|split; [lia|]; intros; exfalso; by apply Hno].
    unfold better. destruct (lb_best st) as [[b hp]|]; cbn; [|split; intros; lia].
    destruct (Z.ltb_spec b (cl_amount c')); cbn; split; intros; lia. }
  destruct Hval as [Hval1 Hval2]. split; [split|split]; cbn [lb_next lb_best].
  - by rewrite length_insert.
  - intros w d Hd. apply list_lookup_insert_Some in Hd as [(<- & <- & _)|[_ Hd]]; [by right|by apply Fcell].
  - intros b hp Hbhp. rewrite Hb' in Hbhp.
    assert (Hold : lb_best st = Some (b, hp) -> (hp = S h -> node g to_ = Some v -> better (lb_best st) (cl_amount c') = true -> False) ->
      0 < b /\ (1 <= hp)%nat /\ (min_hops <= hp <= S h)%nat /\
      exists t c0, node g to_ = Some t /\ cell_at (<[S h := <[v := c']> (lb_next st)]> layers) hp t = Some c0 /\ cl_amount c0 = b).
    { intros Hbo Hnot. destruct (Fbest b hp Hbo) as (Hb0 & H1 & Hm & t & d & Ht & Hd & Hdb).
      split_and!; try done; try lia. exists t, d. split; [done|]. split; [|done].
      destruct (decide (hp = S h)) as [->|Hne]; [|by rewrite cell_at_other in Hd |- * by done].
      rewrite cell_at_next in Hd |- * by done. rewrite list_lookup_insert_ne; [done|]. intros ->.
      rewrite Hc in Hd. simplify_eq. apply Hnot; [done|done|]. rewrite Hbo. cbn. by apply Z.ltb_lt. }
    destruct (decide _) as [[Hv Hm]|Hno].
    + destruct (better (lb_best st) (cl_amount c')) eqn:Ebet; [|by apply Hold].
      simplify_eq. split_and!; try done; try lia. exists v, c'. split; [done|].
      rewrite cell_at_next by done. by rewrite list_lookup_insert_eq.
    + apply Hold; [done|]. intros -> Hv _. apply Hno. split; [done|].
      destruct (Fbest _ _ Hbhp) as (_ & _ & Hm & _). lia.
  - intros l t d Hl H1 Ht Hd. destruct (decide (l = S h)) as [->|Hne].
    + rewrite cell_at_next in Hd by done. apply list_lookup_insert_Some in Hd as [(-> & <- & _)|[_ Hd]].
      * apply Hval2; [done|lia].
      * etransitivity; [|exact Hval1]. eapply Ftop; [exact Hl|done|exact Ht|]. by rewrite cell_at_next.
    + rewrite cell_at_other in Hd by done. etransitivity; [|exact Hval1].
      eapply Ftop; [exact Hl|done|exact Ht|]. by rewrite cell_at_other.
  - done.
  - intros w d Hd. destruct (decide (w = v)) as [->|Hne].
    + exists c'. rewrite list_lookup_insert_eq by done. rewrite Hc in Hd. simplify_eq. split; [done|lia].
    + exists d. rewrite list_lookup_insert_ne by done. done.
Qed.

(** One label left: what the loop over the edges out of [u] may rely on. *)
Section Leave.
Context (layers : list Layer) (h u : nat) (c : Cell) (at_ : AssetId).
Hypothesis Hlen : (S h < length layers)%nat.
Hypothesis Hh : (S h <= 255)%nat.
Hypothesis Hcell : cell_at layers h u = Some c.
Hypothesis Hpos : 0 < cl_amount c.
Hypothesis Hu : tg_nodes g !! u = Some at_.
Hypothesis Hat : at_ <> to_.

Abbreviation lp := (label_path g layers h u).

(** The best output after a cell [c'] was set at [v]. *)
Definition best_after (b : option (Z * nat)) (v : nat) (x : Z) : option (Z * nat) :=
  if decide (node g to_ = Some v /\ (min_hops <= S h)%nat)
  then if better b x then Some (x, S h) else b
  else b.

Lemma best_after_eq (b : option (Z * nat)) v e x : node g (ed_to e) = Some v ->
  best_after b v x = if (ed_to e =? to_) && (min_hops <=? S h)%nat && better b x then Some (x, S h) else b.
Proof.
  intros Hv%(gk_node g Hg). unfold best_after.
  assert (Heq : ed_to e = to_ <-> node g to_ = Some v).
  { rewrite (gk_node g Hg), Hv. split; [by intros ->|by intros [= ->]]. }
  destruct (decide _) as [[Ht Hm]|Hno].
  - rewrite (proj2 (Z.eqb_eq _ _)) by (by apply Heq). rewrite (proj2 (Nat.leb_le _ _)) by done. done.
  - destruct (Z.eqb_spec (ed_to e) to_), (Nat.leb_spec min_hops (S h)); try done.
    exfalso. apply Hno. split; [by apply Heq|done].
Qed.

(** Either nothing but the counter moves, and what the edge offers is already there, or a
    cell is set to it. *)
Lemma label_edge_cases st id : filling layers h st -> (forall e, edge g id = Some e -> ed_from e = at_) ->
  let st' := label_edge g table to_ min_hops max_hops h u (cl_amount c) (fst lp) (snd lp) st id in
  (exists q, st' = mkLabelled (lb_next st) (lb_best st) q /\
     forall v got, takes layers h u (cl_amount c) id v got -> exists c', lb_next st !! v = Some c' /\ got <= cl_amount c') \/
  (exists v cell c' q, st' = mkLabelled (<[v := c']> (lb_next st)) (best_after (lb_best st) v (cl_amount c')) q /\
     lb_next st !! v = Some cell /\ cl_amount cell < cl_amount c' /\ came_from layers h v c' /\
     forall v' got', takes layers h u (cl_amount c) id v' got' -> v' = v /\ got' = cl_amount c').
Proof.
  intros Hfill Hfrom. cbv zeta. unfold label_edge.
  assert (Hskip : forall st0 q, st0 = mkLabelled (lb_next st) (lb_best st) q ->
    (forall v got, ~ takes layers h u (cl_amount c) id v got) ->
    exists q', st0 = mkLabelled (lb_next st) (lb_best st) q' /\
     forall v got, takes layers h u (cl_amount c) id v got -> exists c', lb_next st !! v = Some c' /\ got <= cl_amount c').
  { intros st0 q -> Hno. exists q. split; [done|]. intros v got Ht. by apply Hno in Ht. }
  destruct (edge g id) as [e|] eqn:Ee;
    [|left; apply (Hskip st (lb_quotes st)); [by destruct st|]; intros v got (e & ? & _); congruence].
  destruct (node g (ed_to e)) as [v|] eqn:Ev;
    [|left; apply (Hskip st (lb_quotes st)); [by destruct st|]; intros v got (e' & ? & ? & _); congruence].
  destruct (bool_decide_reflect (v ∈ fst lp)) as [Hin|Hnin];
    [left; apply (Hskip st (lb_quotes st)); [by destruct st|]; intros v' got (e' & ? & ? & ? & _); simplify_eq; congruence|].
  destruct (match ed_via e with ViaPool l => _ | ViaUnwrap _ => false end) eqn:Epool.
  { left; apply (Hskip st (lb_quotes st)); [by destruct st|]. intros v' got (e' & He' & _ & _ & Hp & _). assert (e' = e) as -> by congruence. unfold pool_of in Hp.
    destruct (ed_via e) as [l|]; [|done]. apply bool_decide_eq_true in Epool. by apply (Hp (leg_pool l)). }
  destruct (table_best table g (ed_to e) to_) as [o|] eqn:Et;
    [|left; apply (Hskip st (lb_quotes st)); [by destruct st|]; intros v' got (e' & He' & _ & _ & _ & [x Hx] & _);
      assert (e' = e) as -> by congruence; congruence].
  destruct (quote e (cl_amount c)) as [got|err] eqn:Eq;
    [|left; eapply Hskip; [reflexivity|]; intros v' got (e' & He' & _ & _ & _ & _ & Hq);
      assert (e' = e) as -> by congruence; congruence].
  assert (Htakes : forall v' got', takes layers h u (cl_amount c) id v' got' -> v' = v /\ got' = got).
  { intros v' got' (e' & He' & Hv' & _ & _ & _ & Hq). rewrite Ee in He'. simplify_eq. split; congruence. }
  cbn [lb_next lb_best lb_quotes]. apply (gk_node g Hg) in Ev as Hv. apply lookup_lt_Some in Hv as Hvlt.
  destruct (lookup_lt_is_Some_2 (lb_next st) v) as [cell Hvc]; [by rewrite (fi_len _ _ _ Hfill)|]. rewrite Hvc.
  destruct (Z.ltb_spec (cl_amount cell) got) as [Hlt|Hge];
    [right|left; eexists; split; [reflexivity|]; intros v' got' [-> ->]%Htakes; by exists cell].
  unfold try_from_nat. apply lookup_lt_Some in Hu as Hult. pose proof (gk_size g Hg).
  rewrite !(proj2 (Z.leb_le _ _)) by (unfold umax; lia). cbn [default].
  exists v, cell, (mkCell got (Some id) (Some u)). eexists. split_and!; [|done|done| |exact Htakes].
  - rewrite (best_after_eq _ _ _ _ Ev). unfold better. cbn [cl_amount].
    by destruct (_ && _ && _).
  - exists u, c, id, e. rewrite (Hfrom e eq_refl). cbn. split_and!; try done.
    + unfold pool_of. destruct (ed_via e) as [l|]; [|done]. intros p [= <-]. by apply bool_decide_eq_false in Epool.
    + destruct (fi_cell _ _ _ Hfill v cell Hvc) as [->|(? & ? & ? & ? & _ & _ & _ & _ & _ & _ & _ & _ & _ & ? & _)];
        cbn in *; lia.
Qed.

Lemma label_edge_ok st id : filling layers h st -> (forall e, edge g id = Some e -> ed_from e = at_) ->
  let st' := label_edge g table to_ min_hops max_hops h u (cl_amount c) (fst lp) (snd lp) st id in
  filling layers h st' /\ grown st st' /\
  forall v got, takes layers h u (cl_amount c) id v got -> exists c', lb_next st' !! v = Some c' /\ got <= cl_amount c'.
Proof.
  intros Hfill Hfrom. cbv zeta.
  destruct (label_edge_cases st id Hfill Hfrom) as [(q & -> & Htk)|(v & cell & c' & q & -> & Hv & Hlt & Hcame & Htk)].
  - split_and!; [by destruct Hfill; split|split; [cbn; lia|intros v d Hd; by exists d]|exact Htk].
  - destruct (filling_set layers h st v cell c' _ q Hfill Hlen Hv Hlt Hcame eq_refl) as [Hf Hgr].
    split_and!; [exact Hf|exact Hgr|]. intros v' got' [-> ->]%Htk. exists c'. cbn [lb_next].
    apply lookup_lt_Some in Hv. by rewrite list_lookup_insert_eq.
Qed.

Lemma label_edges_ok ids : forall st, filling layers h st ->
  (forall id e, id ∈ ids -> edge g id = Some e -> ed_from e = at_) ->
  let st' := foldl (label_edge g table to_ min_hops max_hops h u (cl_amount c) (fst lp) (snd lp)) st ids in
  filling layers h st' /\ grown st st' /\
  forall id v got, id ∈ ids -> takes layers h u (cl_amount c) id v got ->
    exists c', lb_next st' !! v = Some c' /\ got <= cl_amount c'.
Proof.
  induction ids as [|id ids IH]; intros st Hfill Hfrom; cbv zeta; cbn [foldl].
  { split_and!; [done|apply grown_refl|by intros ? ? ? ?%elem_of_nil]. }
  destruct (label_edge_ok st id Hfill) as (Hf1 & Hg1 & Ht1); [intros e; apply Hfrom; by constructor|].
  destruct (IH _ Hf1) as (Hf2 & Hg2 & Ht2); [intros i e Hi; apply Hfrom; by constructor|].
  split_and!; [done|by eapply grown_trans|].
  intros i v got [->|Hi]%elem_of_cons Ht; [|by eapply Ht2].
  destruct (Ht1 _ _ Ht) as (c1 & Hc1 & Hle1). destruct (proj2 Hg2 _ _ Hc1) as (c2 & Hc2 & Hle2).
  exists c2. split; [done|lia].
Qed.
End Leave.

(** ** The layers *)

(** The label [c] at [u] was left: it cannot beat [best], or all it offers is in [next]. *)
Definition left_by (layers : list Layer) (h u : nat) (c : Cell) (best : Z) (next : Layer) : Prop :=
  forall at_ fh, tg_nodes g !! u = Some at_ -> at_ <> to_ -> 0 < cl_amount c -> table_best table g at_ to_ = Some fh ->
    (exists b, 0 < b <= best /\ label_cut (Some (b, 0%nat)) (cl_amount c) fh = true) \/
    forall id v got, id ∈ out_edges g at_ -> takes layers h u (cl_amount c) id v got ->
      exists c', next !! v = Some c' /\ got <= cl_amount c'.

Lemma left_by_grown layers h u c st st' : grown st st' ->
  left_by layers h u c (best_val (lb_best st)) (lb_next st) -> left_by layers h u c (best_val (lb_best st')) (lb_next st').
Proof.
  intros [Hb Hn] Hl at_ fh Hat Hne Hpos Ht. destruct (Hl at_ fh Hat Hne Hpos Ht) as [(b & Hle & Hcut)|Hall].
  - left. exists b. split; [lia|done].
  - right. intros id v got Hid Htk. destruct (Hall id v got Hid Htk) as (c1 & Hc1 & Hle1).
    destruct (Hn _ _ Hc1) as (c2 & Hc2 & Hle2). exists c2. split; [done|lia].
Qed.

Section Layer.
Context (layers : list Layer) (h : nat).
Hypothesis Hlen : (S h < length layers)%nat.
Hypothesis Hh : (S h <= 255)%nat.

Lemma label_token_ok u c st : cell_at layers h u = Some c -> 0 <= cl_amount c -> filling layers h st ->
  let st' := label_token g table to_ min_hops max_hops layers h u c st in
  filling layers h st' /\ grown st st' /\ left_by layers h u c (best_val (lb_best st')) (lb_next st').
Proof.
  intros Hc Hnn Hfill. cbv zeta. unfold label_token.
  destruct (Z.eqb_spec (cl_amount c) 0) as [H0|H0].
  { split_and!; [done|apply grown_refl|]. intros ? ? _ _ Hpos. lia. }
  destruct (tg_nodes g !! u) as [at_|] eqn:Hu.
  2: { split_and!; [done|apply grown_refl|]. intros ? ? Hn. congruence. }
  destruct (Z.eqb_spec at_ to_) as [->|Hat].
  { split_and!; [done|apply grown_refl|]. intros ? ? Hn Hne. congruence. }
  destruct (label_path g layers h u) as [ks ps] eqn:Elp.
  destruct (table_best table g at_ to_) as [fh|] eqn:Et.
  2: { split_and!; [done|apply grown_refl|]. intros ? ? Hn _ _ Ht. congruence. }
  destruct (label_cut (lb_best st) (cl_amount c) fh) eqn:Ecut.
  { split_and!; [done|apply grown_refl|]. intros at' fh' Hn _ _ Ht. left.
    assert (at' = at_) as -> by congruence. assert (fh' = fh) as -> by congruence.
    unfold label_cut in Ecut. destruct (lb_best st) as [[b hp]|] eqn:Eb; [|done]. exists b.
    destruct (fi_best _ _ _ Hfill b hp Eb) as [Hb0 _]. split; [by split; [|reflexivity]|exact Ecut]. }
  destruct (label_edges_ok layers h u c at_ Hlen Hh Hc ltac:(lia) Hu Hat (out_edges g at_) st Hfill) as (Hf & Hgr & Htk).
  { intros id e Hid He. apply (gk_out g Hg) in Hid as (e' & He' & <-). congruence. }
  rewrite Elp in Hf, Hgr, Htk. cbn [fst snd] in *.
  split_and!; [done|done|]. intros at' fh' Hn _ _ _. right. assert (at' = at_) as -> by congruence. exact Htk.
Qed.

Lemma label_tokens_ok cur : forall u st, (forall i c, cur !! i = Some c -> cell_at layers h (u + i) = Some c /\ 0 <= cl_amount c) ->
  filling layers h st ->
  let st' := label_tokens g table to_ min_hops max_hops layers h u cur st in
  filling layers h st' /\ grown st st' /\
  forall i c, cur !! i = Some c -> left_by layers h (u + i) c (best_val (lb_best st')) (lb_next st').
Proof.
  induction cur as [|c cur IH]; intros u st Hcur Hfill; cbv zeta; cbn [label_tokens].
  { split_and!; [done|apply grown_refl|done]. }
  destruct (Hcur 0%nat c eq_refl) as [Hc Hnn]. rewrite Nat.add_0_r in Hc.
  destruct (label_token_ok u c st Hc Hnn Hfill) as (Hf1 & Hg1 & Hl1).
  destruct (IH (S u) _ ltac:(intros i d Hi; rewrite Nat.add_succ_comm; by apply (Hcur (S i))) Hf1) as (Hf2 & Hg2 & Hl2).
  split_and!; [done|by eapply grown_trans|]. intros [|i] d Hd.
  - simplify_eq/=. rewrite Nat.add_0_r. by eapply left_by_grown.
  - rewrite <- Nat.add_succ_comm. by apply Hl2.
Qed.
End Layer.

(** The state of the outer loop: layers up to [h] are done and were left, the others blank. *)
Record loop_inv (start : nat) (layers : list Layer) (best : option (Z * nat)) (h : nat) : Prop := {
  lv_len : length layers = S max_hops;
  lv_row : forall l row, layers !! l = Some row -> length row = n;
  lv_ok : layers_ok layers h;
  lv_blank : forall l row, (h < l)%nat -> layers !! l = Some row -> row = replicate n blank_cell;
  lv_start : exists c, cell_at layers 0 start = Some c /\ cl_amount c = amount;
  lv_best : forall b hp, best = Some (b, hp) -> 0 < b /\ (1 <= hp)%nat /\ (min_hops <= hp <= h)%nat /\
    exists t c, node g to_ = Some t /\ cell_at layers hp t = Some c /\ cl_amount c = b;
  lv_top : forall l t c, (min_hops <= l <= h)%nat -> (1 <= l)%nat -> node g to_ = Some t ->
    cell_at layers l t = Some c -> cl_amount c <= best_val best;
  lv_left : forall l u c, (l < h)%nat -> cell_at layers l u = Some c ->
    exists next, layers !! S l = Some next /\ left_by layers l u c (best_val best) next
}.

Lemma takes_low layers layers' h u have id v got : (forall h', (h' <= h)%nat -> layers' !! h' = layers !! h') ->
  takes layers' h u have id v got <-> takes layers h u have id v got.
Proof. intros Hsame. unfold takes. by rewrite (label_path_low layers layers' h Hsame). Qed.

Lemma filling_start start layers best quotes h : (h < max_hops)%nat -> loop_inv start layers best h ->
  filling layers h (mkLabelled (replicate n blank_cell) best quotes).
Proof.
  intros Hh [Vlen _ _ _ _ Vbest Vtop _].
  assert (Hb0 : 0 <= best_val best) by (destruct best as [[b hp]|]; cbn; [pose proof (Vbest b hp eq_refl); lia|lia]).
  split; cbn [lb_next lb_best].
  - apply length_replicate.
  - intros v c Hc. apply lookup_replicate_1 in Hc as [-> _]. by left.
  - intros b hp Hb. destruct (Vbest b hp Hb) as (? & ? & ? & t & c & ? & Hc & ?).
    split_and!; try done; try lia. exists t, c. rewrite cell_at_other by lia. done.
  - intros l t c Hl H1 Ht Hc. destruct (decide (l = S h)) as [->|].
    + rewrite cell_at_next in Hc by lia. apply lookup_replicate_1 in Hc as [-> _]. exact Hb0.
    + rewrite cell_at_other in Hc by done. apply (Vtop l t c); [lia|done|done|done].
Qed.

(** The layers with the next one in place. *)
Lemma layers_ok_next layers h st : (S h < length layers)%nat -> layers_ok layers h -> filling layers h st ->
  layers_ok (<[S h := lb_next st]> layers) (S h).
Proof.
  intros Hlen Vok [_ Fcell _ _]. set (layers' := <[S h := lb_next st]> layers).
  assert (Hlow : forall h', (h' <= h)%nat -> layers' !! h' = layers !! h')
    by (intros h' Hh'; apply list_lookup_insert_ne; lia).
  assert (Hold : layers_ok layers' h).
  { intros l v c Hle Hc. unfold layers' in Hc. rewrite cell_at_other in Hc by lia.
    destruct (Vok l v c Hle Hc) as [? Hlab]. split; [done|].
    intros Hpos. eapply label_low; [|by apply Hlab]. intros h' Hh'. apply Hlow. lia. }
  intros l v c Hle Hc. destruct (decide (l = S h)) as [->|Hne]; [|apply Hold; [lia|done]].
  assert (Hn : lb_next st !! v = Some c) by (unfold layers' in Hc; by rewrite cell_at_next in Hc by lia).
  destruct (Fcell v c Hn) as [->|Hcame]; [cbn; split; [lia|by intros []%Z.lt_irrefl]|].
  split; [destruct Hcame as (? & ? & ? & ? & _ & _ & _ & _ & _ & _ & _ & _ & _ & ? & _); lia|].
  intros _. apply label_extend; [done|done|].
  destruct Hcame as (u & cu & id & e & Hcu & Hrest). exists u, cu, id, e.
  rewrite (label_path_low layers layers' h Hlow). split; [|done]. unfold layers'. rewrite cell_at_other by lia. done.
Qed.

Lemma left_by_next layers layers' h l u c best best' next : (l <= h)%nat -> best <= best' ->
  (forall h', (h' <= h)%nat -> layers' !! h' = layers !! h') ->
  left_by layers l u c best next -> left_by layers' l u c best' next.
Proof.
  intros Hl Hb Hlow Hlf at_ fh Hat Hne Hpos Ht.
  destruct (Hlf at_ fh Hat Hne Hpos Ht) as [(b & Hle & Hcut)|Hall].
  - left. exists b. split; [lia|done].
  - right. intros id v got Hid Htk. apply (Hall id v got Hid).
    apply (takes_low layers layers' l); [|done]. intros h' Hh'. apply Hlow. lia.
Qed.

Lemma loop_step start layers best quotes h cur next : (max_hops <= 255)%nat -> (h < max_hops)%nat ->
  loop_inv start layers best h -> layers !! h = Some cur -> layers !! S h = Some next ->
  let st := label_tokens g table to_ min_hops max_hops layers h 0 cur (mkLabelled next best quotes) in
  loop_inv start (<[S h := lb_next st]> layers) (lb_best st) (S h).
Proof.
  intros Hm Hh Hinv Hcur Hnext. cbv zeta.
  assert (next = replicate n blank_cell) as -> by (apply (lv_blank _ _ _ _ Hinv (S h)); [lia|done]).
  pose proof (filling_start start layers best quotes h Hh Hinv) as Hfill.
  destruct Hinv as [Vlen Vrow Vok Vblank Vstart _ _ Vleft].
  edestruct (label_tokens_ok layers h ltac:(lia) ltac:(lia) cur 0) as (Hf & Hgr & Hl); [|exact Hfill|].
  { intros i c Hc. cbn. assert (cell_at layers h i = Some c) as Hca by (unfold cell_at; by rewrite Hcur).
    split; [done|]. by apply (Vok h i c). }
  set (st := label_tokens _ _ _ _ _ _ _ _ _ _) in *. set (layers' := <[S h := lb_next st]> layers).
  assert (Hlow : forall h', (h' <= h)%nat -> layers' !! h' = layers !! h')
    by (intros h' Hh'; apply list_lookup_insert_ne; lia).
  assert (Hcl : forall l u, (l <= h)%nat -> cell_at layers' l u = cell_at layers l u)
    by (intros l u Hle; apply cell_at_other; lia).
  pose proof (layers_ok_next layers h st ltac:(lia) Vok Hf) as Hok'.
  destruct Hf as [Flen _ Fbest Ftop]. split; [|..|exact Hok'| | |exact Fbest|exact Ftop|].
  - unfold layers'. by rewrite length_insert.
  - intros l row Hr. apply list_lookup_insert_Some in Hr as [(<- & <- & _)|[_ Hr]]; [done|by eapply Vrow].
  - intros l row Hl' Hr. unfold layers' in Hr. rewrite list_lookup_insert_ne in Hr by lia. apply (Vblank l); [lia|done].
  - destruct Vstart as (c & Hc & Ha). exists c. rewrite Hcl by lia. done.
  - intros l u c Hlt Hc. rewrite Hcl in Hc by lia. destruct (decide (l = h)) as [->|Hne].
    + exists (lb_next st). split; [unfold layers'; apply list_lookup_insert_eq; lia|].
      assert (cur !! u = Some c) as Hu by (unfold cell_at in Hc; by rewrite Hcur in Hc).
      eapply (left_by_next layers layers' h); [lia|reflexivity|done|]. exact (Hl u c Hu).
    + destruct (Vleft l u c ltac:(lia) Hc) as (nx & Hnx & Hlf). exists nx.
      split; [unfold layers'; rewrite list_lookup_insert_ne by lia; done|].
      eapply (left_by_next layers layers' h); [lia|exact (proj1 Hgr)|done|done].
Qed.

Lemma loop_all turns start : (max_hops <= 255)%nat -> forall h layers best quotes, (h + turns = max_hops)%nat ->
  loop_inv start layers best h ->
  exists layers' best' quotes', label_loop g table to_ turns min_hops max_hops h layers best quotes = (layers', best', quotes') /\
    loop_inv start layers' best' max_hops.
Proof.
  intros Hm. induction turns as [|turns IH]; intros h layers best quotes Hh Hinv; cbn [label_loop].
  - exists layers, best, quotes. split; [done|]. replace max_hops with h by lia. done.
  - destruct (lookup_lt_is_Some_2 layers h) as [cur Hcur]; [rewrite (lv_len _ _ _ _ Hinv); lia|].
    destruct (lookup_lt_is_Some_2 layers (S h)) as [next Hnext]; [rewrite (lv_len _ _ _ _ Hinv); lia|].
    rewrite Hcur, Hnext. apply IH; [lia|]. by apply loop_step; [done|lia|..].
Qed.

Definition first_layers (start : nat) : list Layer :=
  <[0%nat := <[start := mkCell amount None None]> (replicate n blank_cell)]> (replicate (S max_hops) (replicate n blank_cell)).

Lemma loop_start start : node g from = Some start -> 0 < amount -> loop_inv start (first_layers start) None 0.
Proof.
  intros Hs Ha. apply (gk_node g Hg) in Hs as Hst. apply lookup_lt_Some in Hst as Hlt.
  assert (H0 : first_layers start !! 0%nat = Some (<[start := mkCell amount None None]> (replicate n blank_cell)))
    by (unfold first_layers; rewrite list_lookup_insert_eq; [done|rewrite length_replicate; lia]).
  assert (Hrest : forall l row, (0 < l)%nat -> first_layers start !! l = Some row -> row = replicate n blank_cell).
  { intros l row Hl Hr. unfold first_layers in Hr. rewrite list_lookup_insert_ne in Hr by lia.
    by apply lookup_replicate_1 in Hr as [-> _]. }
  assert (Hc0 : cell_at (first_layers start) 0 start = Some (mkCell amount None None)).
  { unfold cell_at. rewrite H0. rewrite list_lookup_insert_eq; [done|by rewrite length_replicate]. }
  split.
  - unfold first_layers. by rewrite length_insert, length_replicate.
  - intros l row Hr. destruct l as [|l].
    + rewrite H0 in Hr. injection Hr as <-. by rewrite length_insert, length_replicate.
    + rewrite (Hrest (S l) row ltac:(lia) Hr). apply length_replicate.
  - intros l v c Hl Hc. assert (l = 0)%nat as -> by lia. unfold cell_at in Hc. rewrite H0 in Hc.
    apply list_lookup_insert_Some in Hc as [(<- & <- & _)|[_ Hc]].
    2: { apply lookup_replicate_1 in Hc as [-> _]. cbn. split; [lia|by intros []%Z.lt_irrefl]. }
    split; [cbn; lia|]. intros _. exists [], [].
    split; [constructor|done|by exists from|apply NoDup_singleton|constructor|done|by intros ? ?%elem_of_nil|..|done].
    + intros k. cbn [label_path]. rewrite Hc0. cbn. setoid_rewrite list_elem_of_singleton. split.
      * intros ->. by exists from.
      * intros (a & Hk & ->). eapply NoDup_lookup; [apply (gk_nodup g Hg)|exact Hk|exact Hst].
    + intros p. cbn [label_path]. by rewrite Hc0.
  - exact Hrest.
  - eexists. split; [exact Hc0|done].
  - done.
  - intros l t c Hl. lia.
  - intros l u c Hl. lia.
Qed.

(** The label at the target of a done layer is the route [route_from] rebuilds. *)
Lemma route_from_label start layers best hp t c : loop_inv start layers best max_hops -> (hp <= max_hops)%nat ->
  node g to_ = Some t -> cell_at layers hp t = Some c -> 0 < cl_amount c ->
  exists r, route_from g to_ layers hp = Some r /\ ro_amount_out r = cl_amount c /\ length (ro_edges r) = hp /\
    real_path g to_ hp from amount (ro_edges r) (ro_amount_out r) (ro_hop_gas r).
Proof.
  intros Hinv Hhp Ht Hc Hpos. destruct (lv_ok _ _ _ _ Hinv hp t c Hhp Hc) as [_ Hlab].
  destruct (Hlab Hpos) as (ids & es & [L1 L2 (a & La & L3) L4 L5 L6 _ _ _ L10]).
  apply (gk_node g Hg) in Ht as Htn. rewrite Htn in La. injection La as <-.
  unfold route_from. rewrite Ht, Hc. rewrite (proj2 (Z.eqb_neq _ _)) by lia. rewrite L10. eexists.
  split; [reflexivity|]. cbn. rewrite app_nil_r. split_and!; [done|done|].
  exists es. split_and!; try done; [lia|]. apply gas_back_of.
  apply Forall_forall. intros e [i He]%list_elem_of_lookup_1.
  destruct (Forall2_lookup_r _ _ _ _ _ L1 He) as (id & _ & Hid). by eapply Hgas.
Qed.

(** Whatever [best_path] returns is a real path within the hops asked for. *)
Lemma best_path_real r q : (max_hops <= 255)%nat -> 0 <= amount ->
  best_path g table to_ from amount min_hops max_hops = (Some r, q) ->
  (min_hops <= length (ro_edges r))%nat /\ ro_net r = ro_amount_out r /\
  real_path g to_ max_hops from amount (ro_edges r) (ro_amount_out r) (ro_hop_gas r).
Proof.
  intros Hm Ha. unfold best_path, label_layers. destruct (node g from) as [start|] eqn:Es; [|done].
  destruct (Z.eqb_spec from to_); [done|]. destruct (Z.eqb_spec amount 0); [done|].
  destruct (_ =? 0)%nat; [done|]. destruct (_ <? _)%nat; [done|]. cbn [orb].
  destruct (loop_all max_hops start Hm 0 (first_layers start) None 0 eq_refl) as (layers & best & quotes & Hloop & Hinv);
    [apply loop_start; [done|lia]|].
  unfold first_layers in Hloop. rewrite Hloop. destruct best as [[b hp]|]; [|done]. intros [= Hr _].
  destruct (lv_best _ _ _ _ Hinv b hp eq_refl) as (Hb & H1 & Hhp & t & c & Ht & Hc & Hcb).
  destruct (route_from_label start layers _ hp t c Hinv ltac:(lia) Ht Hc ltac:(lia)) as (r' & Hr' & _ & Hlen & Hreal).
  rewrite Hr in Hr'. injection Hr' as <-. split_and!; [lia| |].
  - revert Hr. unfold route_from. rewrite Ht, Hc. destruct (_ =? 0); [done|].
    destruct (walk_back _ _ _ _ _ _) as [[? ?]|]; [|done]. by intros [= <-].
  - destruct Hreal as (es & E1 & E2 & E3). exists es. split; [done|]. split; [lia|done].
Qed.
End Labels.

(** ** The best path *)

(** More in pays more out, up to an amount no hop passes. *)
Class HopsGrow (g : TokenGraph) (cap : Z) `{HopQuoter} : Prop := {
  grow_cap : forall id e a b, edge g id = Some e -> 0 <= a <= cap -> quote e a = Ok b -> b <= cap;
  grow_more : forall id e a a' b, edge g id = Some e -> 0 < a <= a' -> a' <= cap -> quote e a = Ok b ->
    exists b', quote e a' = Ok b' /\ b <= b'
}.

(** Every pool of the graph is between two coins. *)
Definition two_coins (g : TokenGraph) : Prop :=
  forall i1 i2 e1 e2 p, edge g i1 = Some e1 -> edge g i2 = Some e2 -> pool_of e1 = Some p -> pool_of e2 = Some p ->
    ed_to e2 = ed_from e1 \/ ed_to e2 = ed_to e1.

Section Best.
Context (g : TokenGraph) (book : Book) (table : ZeroTable) `{HopQuoter} (to_ : AssetId)
  (from : AssetId) (amount cap : Z) (min_hops max_hops k : nat).
Hypothesis Hg : graph_ok g.
Hypothesis Hbook : book_words book.
Hypothesis Hk : (max_hops <= k <= 10)%nat.
Hypothesis Htable : table_ok g book k table.
Context `{!QuoterLaws g book} `{!HopsGrow g cap}.
Hypothesis Hcap : cap < 2 ^ 256.
Hypothesis Hamount : 0 < amount <= cap.
Hypothesis Htwo : two_coins g.

Abbreviation in_graph := (fun es => Forall (fun e => exists id, edge g id = Some e) es).

Lemma pays_cap es : forall a out, in_graph es -> 0 < a <= cap -> pays a es = Some out -> 0 < out <= cap.
Proof.
  induction es as [|e es IH]; intros a out Hin Ha Hp; simpl in Hp; [by simplify_eq|].
  apply Forall_cons in Hin as [[id He] Hin]. destruct (quote e a) as [got|] eqn:Eq; [|done].
  destruct (Z.ltb_spec 0 got); [|done]. pose proof (grow_cap (cap:=cap) id e a got He ltac:(lia) Eq). apply (IH got); [done|lia|done].
Qed.

(** What a path pays is bounded by the walk it is. *)
Lemma pays_walk es : forall at_ a out, in_graph es -> (forall e, e ∈ es -> ed_from e <> to_) -> linked at_ es to_ ->
  0 < a < 2 ^ 256 -> pays a es = Some out ->
  exists x, rate_walk g book to_ (length es) at_ x /\ (lg out <= lg a + IZR x)%R.
Proof.
  induction es as [|e es IH]; intros at_ a out Hin Hne Hl Ha Hp; simpl in Hp, Hl.
  - simplify_eq. exists 0. split; [constructor|lra].
  - destruct Hl as [<- Hl]. apply Forall_cons in Hin as [[id He] Hin].
    destruct (quote e a) as [got|] eqn:Eq; [|done]. destruct (Z.ltb_spec 0 got) as [Hgot|]; [|done].
    pose proof (quote_word e a got ltac:(lia) Eq).
    destruct (quote_rate id e a got He Ha Eq Hgot) as (rate & Hr & Hle).
    destruct (IH (ed_to e) got out Hin) as (x & Hx & Hlex); [|done|lia|done|].
    { intros e' He'. apply Hne. by constructor. }
    exists (rate + x). split; [|rewrite plus_IZR; lra]. cbn [length].
    econstructor; [done|done|apply Hne; by constructor|done].
Qed.

Lemma pays_table es at_ a out : (length es <= k)%nat -> in_graph es -> (forall e, e ∈ es -> ed_from e <> to_) ->
  linked at_ es to_ -> 0 < a < 2 ^ 256 -> pays a es = Some out ->
  exists v, table_best table g at_ to_ = Some v /\ Z.abs v <= 10 * RATE_MAX /\ (lg out <= lg a + IZR v)%R.
Proof.
  intros Hlen Hin Hne Hl Ha Hp. destruct (pays_walk es at_ a out Hin Hne Hl Ha Hp) as (x & Hx & Hle).
  apply (rate_walk_mono g book to_ _ k) in Hx; [|done]. destruct Htable as [_ Ht]. specialize (Ht at_ to_).
  destruct (table_best table g at_ to_) as [v|]; [|by apply Ht in Hx]. destruct Ht as [Hw Hmax].
  exists v. pose proof (rate_walk_bound g book to_ Hbook k at_ v Hw). split_and!; [done|unfold RATE_MAX in *; lia|].
  apply Hmax, IZR_le in Hx. lra.
Qed.

(** Tokens of a path, and the ends of its hops. *)
Lemma linked_from es : forall a b e, linked a es b -> e ∈ es -> ed_from e ∈ a :: (ed_to <$> es).
Proof.
  induction es as [|x es IH]; intros a b e Hl He; [by apply elem_of_nil in He|]. destruct Hl as [<- Hl].
  apply elem_of_cons in He as [->|He]; [by constructor|]. right. rewrite fmap_cons. by eapply IH.
Qed.

(** A label that is not at the target has not passed it. *)
Lemma target_not_on es : forall a b, linked a es b -> b <> to_ -> (forall e, e ∈ es -> ed_from e <> to_) ->
  to_ ∉ a :: (ed_to <$> es).
Proof.
  induction es as [|x es IH]; intros a b Hl Hb Hne; simpl in Hl.
  - subst. cbn. by rewrite list_elem_of_singleton.
  - destruct Hl as [<- Hl]. rewrite fmap_cons, elem_of_cons. intros [Heq|Hin].
    + by apply (Hne x ltac:(by constructor)).
    + apply (IH (ed_to x) b Hl Hb); [|done]. intros e He. apply Hne. by constructor.
Qed.

Lemma simple_before es : forall a, linked a es to_ -> NoDup (a :: (ed_to <$> es)) -> forall e, e ∈ es -> ed_from e <> to_.
Proof.
  induction es as [|x es IH]; intros a Hl Hnd e He; [by apply elem_of_nil in He|].
  pose proof (linked_last a (x :: es) to_ Hl ltac:(done)) as Hlast. destruct Hl as [<- Hl].
  apply NoDup_cons in Hnd as [Hx Hnd]. apply elem_of_cons in He as [->|He]; [by intros Heq; rewrite Heq in Hx|].
  rewrite fmap_cons in Hnd. by apply (IH (ed_to x)).
Qed.

Section Reach.
Context (start : nat) (layers : list Layer) (best : option (Z * nat)).
Hypothesis Hinv : loop_inv g table to_ from amount min_hops max_hops start layers best max_hops.

(** A label's own path, as a path of the graph. *)
Lemma label_in h u c : (h <= max_hops)%nat -> cell_at layers h u = Some c -> 0 < cl_amount c ->
  exists ids es, label g to_ from amount layers h u c ids es /\ in_graph es /\ cl_amount c <= cap.
Proof.
  intros Hh Hc Hpos. destruct (lv_ok _ _ _ _ _ _ _ _ _ _ _ Hinv h u c Hh Hc) as [_ Hlab].
  destruct (Hlab Hpos) as (ids & es & Hl). exists ids, es.
  assert (in_graph es).
  { apply Forall_forall. intros e [i He]%list_elem_of_lookup_1.
    destruct (Forall2_lookup_r _ _ _ _ _ (la_ids _ _ _ _ _ _ _ _ _ _ Hl) He) as (id & _ & Hid). by exists id. }
  split_and!; [done|done|]. apply (pays_cap es amount); [done|done|]. apply Hl.
Qed.

(** Whether the label at [u] may take the hop [e]: always when [e] ends at the target, and
    when the label's path is as short as the first two layers'. *)
Lemma label_free h u c ids es e id : label g to_ from amount layers h u c ids es -> in_graph es ->
  edge g id = Some e -> tg_nodes g !! u = Some (ed_from e) -> ed_from e <> to_ -> ed_to e <> from ->
  (ed_to e = to_ \/ (h <= 1)%nat) ->
  ed_to e ∉ from :: (ed_to <$> es).
Proof.
  intros Hl Hin He Hu Hft Hne Hcase. destruct (la_link _ _ _ _ _ _ _ _ _ _ Hl) as (a & Ha & Hlink).
  rewrite Hu in Ha. injection Ha as <-. destruct Hcase as [->|Hh].
  - apply (target_not_on es from (ed_from e)); [done|done|apply Hl].
  - pose proof (la_len _ _ _ _ _ _ _ _ _ _ Hl) as Hlen. pose proof (Forall2_length _ _ _ (la_ids _ _ _ _ _ _ _ _ _ _ Hl)).
    destruct (gk_ends g Hg _ _ He) as (_ & _ & Hdiff).
    destruct es as [|e1 [|e2 es]]; cbn in *; [|destruct Hlink as [_ Hlink]|lia];
      rewrite !elem_of_cons; intros [?|Hin']; try congruence.
    + by apply elem_of_nil in Hin'.
    + destruct Hin' as [?|?%elem_of_nil]; congruence.
Qed.

Lemma label_free_pool h u c ids es e id p : label g to_ from amount layers h u c ids es -> in_graph es ->
  edge g id = Some e -> pool_of e = Some p -> ed_to e ∉ from :: (ed_to <$> es) -> p ∉ omap pool_of es.
Proof.
  intros Hl Hin He Hp Hfree (e1 & He1 & Hp1)%list_elem_of_omap. rewrite Forall_forall in Hin.
  destruct (Hin e1 He1) as [i1 Hi1]. destruct (la_link _ _ _ _ _ _ _ _ _ _ Hl) as (a & _ & Hlink).
  apply Hfree. destruct (Htwo _ _ _ _ _ Hi1 He Hp1 Hp) as [->| ->].
  - by eapply linked_from.
  - right. by apply list_elem_of_fmap_2.
Qed.

Lemma best_val_cap : best_val best <= cap.
Proof.
  assert (Hall : forall b hp, best = Some (b, hp) -> b <= cap).
  { intros b hp Hb. destruct (lv_best _ _ _ _ _ _ _ _ _ _ _ Hinv b hp Hb) as (Hb0 & _ & Hhp & t & c & _ & Hc & <-).
    destruct (label_in hp t c ltac:(lia) Hc Hb0) as (_ & _ & _ & _ & ?). done. }
  clear Hinv. destruct best as [[b hp]|]; cbn; [by eapply Hall|lia].
Qed.

(** A label that was not worth leaving: the best output found beats what a smaller amount
    gets from there. *)
Lemma cut_beats c A out fh b : label_cut (Some (b, 0%nat)) (cl_amount c) fh = true -> 0 < b <= cap ->
  0 < A <= cl_amount c -> cl_amount c <= cap -> 0 < out -> Z.abs fh <= 10 * RATE_MAX ->
  (lg out <= lg A + IZR fh)%R -> out < b.
Proof.
  intros Hcut Hb HA Hc Hout Hfh Hlg. unfold label_cut in Hcut.
  destruct (log2_q32 (cl_amount c)) as [lh|] eqn:Elh; [|done].
  destruct (log2_q32 b) as [lb|] eqn:Elb; [|done]. apply Z.ltb_lt in Hcut.
  eapply bound_under; [..|exact Elh|exact Elb|exact Hcut|]; [lia|lia|lia|done|].
  assert (lg A <= lg (cl_amount c))%R; [|lra]. unfold lg.
  pose proof (l2_le (IZR A) (IZR (cl_amount c)) ltac:(apply IZR_lt; lia) ltac:(apply IZR_le; lia)). lra.
Qed.

(** A label at least as large takes the hop, and gets at least as much. *)
Lemma label_takes h u c e id v A got0 : (h <= max_hops)%nat -> cell_at layers h u = Some c -> 0 < A <= cl_amount c ->
  edge g id = Some e -> tg_nodes g !! u = Some (ed_from e) -> tg_nodes g !! v = Some (ed_to e) ->
  ed_from e <> to_ -> ed_to e <> from -> (ed_to e = to_ \/ (h <= 1)%nat) ->
  is_Some (table_best table g (ed_to e) to_) -> quote e A = Ok got0 ->
  exists got, takes g table to_ layers h u (cl_amount c) id v got /\ got0 <= got.
Proof.
  intros Hh Hc HA He Hu Hv Hfe Hte Hcase Hsome Hq0.
  destruct (label_in h u c Hh Hc ltac:(lia)) as (ids & es & Hlab & Hines & Hccap).
  destruct (grow_more (cap:=cap) id e A (cl_amount c) got0 He HA Hccap Hq0) as (got & Hq & Hge).
  pose proof (label_free h u c ids es e id Hlab Hines He Hu Hfe Hte Hcase) as Hfree.
  exists got. split; [|done]. exists e. split_and!; [done|by apply (gk_node g Hg)|..|done|done].
  - intros (a & Ha & Hina)%(la_nodes _ _ _ _ _ _ _ _ _ _ Hlab). rewrite Hv in Ha. by simplify_eq.
  - intros p Hp Hinp%(la_used _ _ _ _ _ _ _ _ _ _ Hlab). by eapply (label_free_pool h u c ids es e id p).
Qed.

(** Along a path of up to three hops the labels keep up with the amounts, or the best output
    found is as good already. *)
Lemma label_reaches es2 : forall es1 u a0 A out c,
  in_graph (es1 ++ es2) -> linked from es1 a0 -> linked a0 es2 to_ -> NoDup (from :: (ed_to <$> es1 ++ es2)) ->
  (forall e, e ∈ es1 ++ es2 -> ed_from e <> to_) -> (length (es1 ++ es2) <= max_hops)%nat -> (length (es1 ++ es2) <= 3)%nat ->
  tg_nodes g !! u = Some a0 -> cell_at layers (length es1) u = Some c ->
  pays amount es1 = Some A -> A <= cl_amount c -> pays A es2 = Some out ->
  out <= best_val best \/
  exists t c', node g to_ = Some t /\ cell_at layers (length (es1 ++ es2)) t = Some c' /\ out <= cl_amount c'.
Proof.
  induction es2 as [|e es2 IH]; intros es1 u a0 A out c Hin Hl1 Hl2 Hnd Hne Hlen H3 Hu Hc HA HAc Hout.
  { simpl in *. simplify_eq. right. exists u, c. rewrite app_nil_r. split_and!; [by apply (gk_node g Hg)|done|done]. }
  destruct Hl2 as [<- Hl2]. rewrite length_app in Hlen, H3. simpl in Hlen, H3.
  apply Forall_app in Hin as Hin'. destruct Hin' as [Hin1 Hin2].
  assert (0 < A <= cap) as HAr by (by apply (pays_cap es1 amount)).
  assert (0 < out <= cap) as Hor by (by apply (pays_cap (e :: es2) A)).
  assert (Hne2 : forall e', e' ∈ e :: es2 -> ed_from e' <> to_) by (intros e' He'; apply Hne, elem_of_app; by right).
  destruct (pays_table (e :: es2) (ed_from e) A out ltac:(simpl; lia) Hin2 Hne2 ltac:(done) ltac:(lia) Hout)
    as (fh & Hfh & Hfb & Hlg).
  apply Forall_cons in Hin2 as [[id He] Hin2]. simpl in Hout.
  destruct (quote e A) as [got0|] eqn:Eq0; [|done]. destruct (Z.ltb_spec 0 got0) as [Hgot0|]; [|done].
  pose proof (grow_cap (cap:=cap) id e A got0 He ltac:(lia) Eq0) as Hgc.
  destruct (pays_table es2 (ed_to e) got0 out ltac:(lia) Hin2) as (fh2 & Hfh2 & _);
    [intros e' He'; apply Hne2; by constructor|done|lia|done|].
  destruct (lv_left _ _ _ _ _ _ _ _ _ _ _ Hinv (length es1) u c ltac:(lia) Hc) as (next & Hnext & Hleft).
  assert (Hfe : ed_from e <> to_) by (apply Hne2; by constructor).
  destruct (label_in (length es1) u c ltac:(lia) Hc ltac:(lia)) as (_ & _ & _ & _ & Hccap).
  destruct (Hleft (ed_from e) fh Hu Hfe ltac:(lia) Hfh) as [(b & Hb & Hcut)|Hall].
  - left. pose proof best_val_cap. assert (out < b); [|lia]. by apply (cut_beats c A out fh b); try done; lia.
  - destruct (gk_ends g Hg _ _ He) as (_ & [v Hv]%list_elem_of_lookup_1 & _).
    destruct (label_takes (length es1) u c e id v A got0) as (got & Htk & Hge); try done; try lia.
    { rewrite fmap_app, fmap_cons in Hnd. apply NoDup_cons in Hnd as [Hnf _]. intros Heq. apply Hnf.
      rewrite <- Heq, elem_of_app. right. by constructor. }
    { destruct es2 as [|e2 es2]; [by left|right]. simpl in H3. lia. }
    destruct (Hall id v got) as (c' & Hc' & Hgc'); [apply (gk_out g Hg); by exists e|done|].
    change (e :: es2) with ([e] ++ es2) in *. rewrite app_assoc in *.
    apply (IH (es1 ++ [e]) v (ed_to e) got0 out c'); try done.
    + by eapply linked_app.
    + rewrite !length_app. simpl. lia.
    + rewrite !length_app. simpl. lia.
    + unfold cell_at. rewrite length_app, Nat.add_1_r. by rewrite Hnext.
    + rewrite pays_app, HA. simpl. rewrite Eq0. destruct (Z.ltb_spec 0 got0); [done|lia].
    + lia.
Qed.
End Reach.

Lemma best_path_optimal ids out gs : (1 <= max_hops)%nat -> from <> to_ ->
  (forall id e, edge g id = Some e -> 0 <= ed_hop_gas e) ->
  real_path g to_ max_hops from amount ids out gs -> (min_hops <= length ids <= 3)%nat ->
  exists r q, best_path g table to_ from amount min_hops max_hops = (Some r, q) /\ out <= ro_amount_out r.
Proof.
  intros Hm Hft Hgas (es & Hids & Hlen & Hlink & Hnd & _ & Hpays & _) H3.
  pose proof (Forall2_length _ _ _ Hids) as Hll.
  assert (Hin : in_graph es).
  { apply Forall_forall. intros e [i He]%list_elem_of_lookup_1.
    destruct (Forall2_lookup_r _ _ _ _ _ Hids He) as (id & _ & Hid). by exists id. }
  assert (Hes : es <> []) by (intros ->; simpl in Hlink; done).
  pose proof (simple_before es from Hlink Hnd) as Hne.
  assert (exists start, node g from = Some start) as [start Es].
  { destruct es as [|e es]; [done|]. destruct Hlink as [<- _]. apply Forall_cons in Hin as [[id He] _].
    destruct (gk_ends g Hg _ _ He) as ([s Hs]%list_elem_of_lookup_1 & _). exists s. by apply (gk_node g Hg). }
  unfold best_path, label_layers. rewrite Es, (proj1 Htable).
  rewrite (proj2 (Z.eqb_neq _ _)), (proj2 (Z.eqb_neq _ _)), (proj2 (Nat.eqb_neq _ _)), (proj2 (Nat.ltb_ge _ _)) by (done || lia).
  cbn [orb].
  destruct (loop_all g table to_ from amount min_hops max_hops Hg max_hops start ltac:(lia) 0
    (first_layers g amount max_hops start) None 0 eq_refl) as (layers & best & quotes & Hloop & Hinv);
    [apply loop_start; [done|done|lia]|].
  unfold first_layers in Hloop. rewrite Hloop.
  destruct (lv_start _ _ _ _ _ _ _ _ _ _ _ Hinv) as (c0 & Hc0 & Ha0).
  assert (out <= best_val best) as Hle.
  { destruct (label_reaches start layers best Hinv es [] start from amount out c0) as [?|(t & c & Ht & Hc & Hle)];
      try done; try (simpl; lia).
    - by apply (gk_node g Hg).
    - etransitivity; [exact Hle|]. eapply (lv_top _ _ _ _ _ _ _ _ _ _ _ Hinv (length es)); [lia| |done|done].
      destruct es; [done|simpl; lia]. }
  pose proof (pays_cap es amount out Hin Hamount Hpays).
  destruct best as [[b hp]|]; [|cbn in Hle; lia]. cbn in Hle.
  destruct (lv_best _ _ _ _ _ _ _ _ _ _ _ Hinv b hp eq_refl) as (Hb & H1 & Hhp & t & c & Ht & Hc & Hcb).
  destruct (route_from_label g table to_ from amount min_hops max_hops Hg Hgas start layers _ hp t c Hinv ltac:(lia) Ht Hc ltac:(lia))
    as (r & -> & Hr & _). exists r, quotes. split; [done|lia].
Qed.
End Best.

(** [best_path] is right up to three hops where pools have two coins and hops pay more for
    more: what it returns is a real path within the hops asked for, no token and no pool
    twice, and no such path of up to three hops pays more; in particular it returns one
    whenever there is one. *)
Theorem best_path_exact_to_three book keep g k table `{HopQuoter} from to_ amount cap min_hops max_hops :
  build_with book keep = Ok g -> book_words book ->
  (forall e, book_edge book keep e -> 0 <= ed_hop_gas e) ->
  (1 <= max_hops <= k)%nat -> (k <= 10)%nat -> table_build g book k = Ok table ->
  QuoterLaws g book -> HopsGrow g cap -> cap < 2 ^ 256 -> 0 < amount <= cap -> two_coins g -> from <> to_ ->
  (forall r q, best_path g table to_ from amount min_hops max_hops = (Some r, q) ->
    (min_hops <= length (ro_edges r))%nat /\
    real_path g to_ max_hops from amount (ro_edges r) (ro_amount_out r) (ro_hop_gas r)) /\
  (forall ids out gs, real_path g to_ max_hops from amount ids out gs -> (min_hops <= length ids <= 3)%nat ->
    exists r q, best_path g table to_ from amount min_hops max_hops = (Some r, q) /\ out <= ro_amount_out r).
Proof.
  intros Hbuild Hwords Hgas Hm Hk Htab Hlaws Hgrow Hcap Ha Htwo Hne.
  destruct (build_with_ok _ _ _ Hbuild) as [Hg Hin].
  assert (Hgas' : forall id e, edge g id = Some e -> 0 <= ed_hop_gas e)
    by (intros id e He; apply Hgas, Hin; by eapply list_elem_of_lookup_2).
  assert (Htable : table_ok g book k table).
  { destruct (table_build_rows g book Hg Hwords k ltac:(lia)) as (z & Hz & Hrows). rewrite Htab in Hz.
    injection Hz as <-. by apply table_rows_ok. }
  split.
  - intros r q Hr. apply best_path_real in Hr as (? & _ & ?); [done|done|done|lia|lia].
  - intros ids out gs Hp Hlen. apply (best_path_optimal g book table to_ from amount cap min_hops max_hops k) with (ids := ids) (gs := gs);
      try done; lia.
Qed.

(** *** Pairs *)

Lemma v2_quote_more s i j a a' b : 0 <= v2_reserve0 s < 2 ^ 112 -> 0 <= v2_reserve1 s < 2 ^ 112 ->
  0 < a <= a' -> a' <= 2 ^ 112 -> v2_quote s i j a = Ok b -> exists b', v2_quote s i j a' = Ok b' /\ b <= b'.
Proof.
  intros H0 H1 Ha Ha' Hq. unfold v2_quote in *. rewrite (proj2 (Z.eqb_neq a 0)) in Hq by lia. rewrite (proj2 (Z.eqb_neq a' 0)) by lia.
  destruct (zero_for_one _ _) as [zfo|]; [|done].
  destruct (v2_swap s zfo a) as [[o s']|] eqn:Es; [|done]. injection Hq as <-.
  apply v2_swap_Ok in Es as (Hin & Hrout & Ho & Hor & _); [|lia|lia|lia]. cbn.
  set (rin := if zfo then v2_reserve0 s else v2_reserve1 s) in *.
  set (rout := if zfo then v2_reserve1 s else v2_reserve0 s) in *.
  assert (rin < 2 ^ 112 /\ rout < 2 ^ 112) as [Hri Hro] by (destruct zfo; lia).
  unfold v2_swap. assert ((if zfo then (v2_reserve0 s, v2_reserve1 s) else (v2_reserve1 s, v2_reserve0 s)) = (rin, rout)) as ->
    by (by destruct zfo).
  rewrite !(proj2 (Z.eqb_neq _ _)) by lia. cbn [orb].
  rewrite checked_mul_ok by (unfold umax; lia). cbn [math ok_or].
  rewrite checked_mul_ok by (unfold umax; nia). cbn [math ok_or].
  rewrite checked_mul_ok by (unfold umax; lia). rewrite checked_add_ok by (unfold umax; lia). cbn [math ok_or].
  unfold checked_div. rewrite (proj2 (Z.eqb_neq _ _)) by lia. cbn [math ok_or].
  set (o' := a' * 997 * rout / (rin * 1000 + a' * 997)).
  assert (o' < rout) by (apply Z.div_lt_upper_bound; nia).
  assert (o <= o').
  { apply Z.div_le_lower_bound; [lia|]. pose proof (Z.mul_div_le (a * 997 * rout) (rin * 1000 + a * 997) ltac:(lia)) as Hd.
    rewrite <- Ho in Hd. assert (o * (a' - a) <= rout * (a' - a)) by (apply Z.mul_le_mono_nonneg_r; lia). nia. }
  rewrite (proj2 (Z.leb_gt _ _)) by lia. rewrite checked_add_ok by (unfold umax; lia). cbn [math ok_or].
  rewrite checked_sub_ok by lia. cbn [math ok_or]. destruct zfo; by eexists.
Qed.

#[export] Instance pair_grow g b : pairs_fit b -> pb_unwraps b = [] -> @HopsGrow g (2 ^ 112) (pair_quoter b).
Proof.
  intros Hb Hu. split.
  - intros id e a out _ Ha Hq. unfold quote, pair_quoter in Hq. destruct (ed_via e) as [l|w];
      [|unfold unwrap_of in Hq; by rewrite Hu in Hq].
    destruct (pb_pairs b !! leg_pool l) as [p|] eqn:Ep; [|done]. cbn in Hq.
    destruct (v2_is_live (pr_state p)); [|done]. destruct (pairs_at _ _ _ Hb Ep) as [H0 H1].
    cbn in Hq. unfold v2_quote in Hq. destruct (a =? 0); [simplify_eq; lia|].
    destruct (zero_for_one _ _) as [zfo|]; [|done].
    destruct (v2_swap (pr_state p) zfo a) as [[o s']|] eqn:Es; [|done]. injection Hq as <-. cbn.
    apply v2_swap_Ok in Es as (_ & _ & _ & Hor & _); [|lia|lia|lia]. destruct zfo; lia.
  - intros id e a a' out _ Ha Ha' Hq. unfold quote, pair_quoter in *. destruct (ed_via e) as [l|w];
      [|unfold unwrap_of in Hq; by rewrite Hu in Hq].
    destruct (pb_pairs b !! leg_pool l) as [p|] eqn:Ep; [|done]. cbn in Hq |- *.
    destruct (v2_is_live (pr_state p)); [|done]. destruct (pairs_at _ _ _ Hb Ep) as [H0 H1].
    by apply (v2_quote_more _ _ _ a).
Qed.

Lemma pair_two_coins b keep g : build_with (pair_view b) keep = Ok g -> two_coins g.
Proof.
  intros Hbuild i1 i2 e1 e2 p H1 H2 Hp1 Hp2. destruct (build_with_ok _ _ _ Hbuild) as [_ Hin].
  assert (Hface : forall i e, edge g i = Some e -> pool_of e = Some p ->
    exists q a c, pb_pairs b !! p = Some q /\ ed_from e = a /\ ed_to e = c /\ a <> c /\
      a ∈ [pr_asset0 q; pr_asset1 q] /\ c ∈ [pr_asset0 q; pr_asset1 q]).
  { intros i e He Hp. assert (e ∈ tg_edges g) as [(p' & f & Hf & _ & Hpe)|(u & _ & _ & ->)]%Hin
      by (by eapply list_elem_of_lookup_2); [|done].
    destruct Hpe as (x & y & a & c & Ha & Hc & _ & Hac & ->). cbn in Hp. injection Hp as <-.
    cbn in Hf. apply list_lookup_fmap_Some in Hf as (q & -> & Hq). cbn in *.
    exists q, a, c. split_and!; try done; by eapply list_elem_of_lookup_2. }
  destruct (Hface _ _ H1 Hp1) as (q & a & c & Hq & <- & <- & Hd1 & Ha & Hc).
  destruct (Hface _ _ H2 Hp2) as (q' & a' & c' & Hq' & <- & <- & Hd2 & Ha' & Hc').
  rewrite Hq in Hq'. injection Hq' as <-. set_unfold. intuition congruence.
Qed.

Lemma best_path_exact_to_three_witness :
  exists r q, best_path ex_pair_graph ex_pair_table (H := pair_quoter ex_pairs) 3 1 100000 1 3 = (Some r, q) /\
    ro_edges r = [1; 3]%nat /\
    forall ids out gs, real_path ex_pair_graph (H := pair_quoter ex_pairs) 3 3 1 100000 ids out gs ->
      (1 <= length ids <= 3)%nat -> out <= ro_amount_out r.
Proof.
  destruct (best_path_exact_to_three (pair_view ex_pairs) (fun _ => true) ex_pair_graph 3 ex_pair_table
    (H := pair_quoter ex_pairs) 1 3 100000 (2 ^ 112) 1 3) as [_ Hbest].
  - vm_compute. reflexivity.
  - apply pair_view_words.
  - intros e [(p & q & Hq & _ & i & j & a & b & _ & _ & _ & _ & ->)|(u & Hu & _)]; [|by apply elem_of_nil in Hu].
    destruct p as [|[|[|p]]]; cbn in Hq; simplify_eq; cbn; lia.
  - lia.
  - lia.
  - vm_compute. reflexivity.
  - apply pair_laws, ex_pairs_fit.
  - apply pair_grow; [apply ex_pairs_fit|reflexivity].
  - lia.
  - lia.
  - apply (pair_two_coins ex_pairs (fun _ => true)). vm_compute. reflexivity.
  - lia.
  - destruct (best_path ex_pair_graph ex_pair_table (H := pair_quoter ex_pairs) 3 1 100000 1 3) as [r q] eqn:E.
    pose proof E as Hval. vm_compute in Hval. injection Hval as <- <-.
    eexists _, _. split; [reflexivity|]. split; [reflexivity|]. intros ids out gs Hp Hlen.
    destruct (Hbest ids out gs Hp Hlen) as (r & q & Hr & Hle). injection Hr as <- _. exact Hle.
Defined.

(** *** A pool of three coins *)

(** Pool 0 holds coins 1, 2, 3 and is short of 3 against 1; pool 1 holds 1 and 2 and pays one
    percent less than pool 0. *)
Definition tri_book : Book :=
  mkBook [mkFace [1; 2; 3] 100; mkFace [1; 2] 100] [] (fun _ _ _ => Some (2 ^ 96)) (fun _ => None).
Definition tri_graph : TokenGraph := match build tri_book with Ok g => g | Err _ => mkGraph [] ∅ [] [] end.
Definition tri_table : ZeroTable := match table_build tri_graph tri_book 3 with Ok z => z | Err _ => mkTable 0 0 [] [] end.

Definition tri_quoter : HopQuoter := fun e a =>
  match ed_via e with
  | ViaPool (mkLeg 0 0 2) => Ok (a / 2)
  | ViaPool (mkLeg 1 _ _) => Ok (a * 99 / 100)
  | ViaPool _ => Ok a
  | ViaUnwrap _ => Err BadLeg
  end.

Lemma tri_quote_cases e a b : @quote tri_quoter e a = Ok b ->
  (exists l, ed_via e = ViaPool l) /\ (b = a \/ b = a / 2 \/ b = a * 99 / 100) /\
  (forall a', exists b', @quote tri_quoter e a' = Ok b' /\ (a <= a' -> b <= b')).
Proof.
  unfold quote, tri_quoter. destruct (ed_via e) as [[p i j]|w]; [|done].
  intros Hq. split; [by eexists|].
  destruct p as [|[|p]]; [destruct i as [|i]; [destruct j as [|[|[|j]]]|]| |];
    injection Hq as <-; (split; [auto|]); intros a'; eexists; (split; [reflexivity|]); intros Hle; try done;
    apply Z.div_le_mono; lia.
Qed.

Lemma tri_laws : @QuoterLaws tri_graph tri_book tri_quoter.
Proof.
  split.
  - intros e a b Ha (_ & Hb & _)%tri_quote_cases.
    assert (0 <= a / 2 <= a) by (split; [apply Z.div_pos; lia|apply Z.div_le_upper_bound; lia]).
    assert (0 <= a * 99 / 100 <= a) by (split; [apply Z.div_pos; lia|apply Z.div_le_upper_bound; lia]). lia.
  - intros id e a b _ Ha ([l Hl] & Hb & _)%tri_quote_cases Hpos. unfold edge_rate. rewrite Hl. cbn [tri_book bk_pool_rho].
    exists 8. split; [vm_compute; reflexivity|].
    assert (a / 2 <= a) by (apply Z.div_le_upper_bound; lia).
    assert (a * 99 / 100 <= a) by (apply Z.div_le_upper_bound; lia).
    unfold lg. pose proof (l2_le (IZR b) (IZR a) ltac:(apply IZR_lt; lia) ltac:(apply IZR_le; lia)). lra.
Qed.

Lemma tri_grow : @HopsGrow tri_graph (2 ^ 112) tri_quoter.
Proof.
  split.
  - intros id e a b _ Ha (_ & Hb & _)%tri_quote_cases.
    assert (a / 2 <= a) by (apply Z.div_le_upper_bound; lia).
    assert (a * 99 / 100 <= a) by (apply Z.div_le_upper_bound; lia). lia.
  - intros id e a a' b _ Ha _ (_ & _ & Hm)%tri_quote_cases. destruct (Hm a') as (b' & Hb' & Hle).
    exists b'. split; [done|apply Hle; lia].
Qed.

(** The label search is not exact where a pool has three coins, although hops pay more for
    more and stay under their rates: the larger label at a token came through the pool the
    next hop needs, the smaller one was dropped, and a two-hop path that pays 990 is not seen
    next to the 500 returned. *)
Theorem three_coin_pool_hides_path :
  @QuoterLaws tri_graph tri_book tri_quoter /\ @HopsGrow tri_graph (2 ^ 112) tri_quoter /\
  (exists r q, @best_path tri_graph tri_table tri_quoter 3 1 1000 1 3 = (Some r, q) /\ ro_amount_out r = 500) /\
  exists ids gs, @real_path tri_graph tri_quoter 3 3 1 1000 ids 990 gs /\ length ids = 2%nat.
Proof.
  split; [exact tri_laws|]. split; [exact tri_grow|]. split.
  - eexists _, _. split; [vm_compute; reflexivity|reflexivity].
  - exists [2; 4]%nat, 200. split; [|reflexivity].
    eexists. split; [repeat (constructor; [vm_compute; reflexivity|]); constructor|].
    split; [simpl; lia|]. split; [vm_compute; auto|]. split; [apply (bool_decide_unpack _); vm_compute; exact I|].
    split; [apply (bool_decide_unpack _); vm_compute; exact I|]. split; vm_compute; reflexivity.
Qed.
