(* ===== verification/RouterExit.v ===== *)
(** * Exits

    What the exact tier answers for an exit ([liq-router/src/exact.rs]: allocations, unwraps,
    hubs, chains), and [ExitBook], what sizing, selection and the warm tier ask of the pool
    book and of the exact tier. The theorems over [ExitBook] assume nothing of its answers. *)

From stdpp Require Import strings.
From S2P Require Import Prelude Fixed Types Flash RouterFees PoolMath RouterGraph.
Local Open Scope Z_scope.

Definition OUT_PER_ETH_WETH : Z := WEI_PER_ETH.

Record SolveBudget := mkSolveBudget { sv_max_pools : Z; sv_max_iters : Z }.
Definition SOLVE_BUDGET_DEFAULT : SolveBudget := mkSolveBudget 12 64.

Record Allocation := mkAlloc { al_leg : Leg; al_amount_in : Z; al_amount_out : Z }.

Inductive UnwrapKind :=
| Erc4626
| PendlePt (yt sy : Address)
| CurveLp (i : Z)
| PendleMarket (market yt sy : Address).

Record UnwrapUse := mkUnwrapUse {
  uu_kind : UnwrapKind; uu_wrapper : AssetId; uu_into : AssetId; uu_amount_out : Z }.

Record HubUse := mkHubUse {
  hu_hub : AssetId; hu_allocs : list Allocation; hu_amount_in : Z; hu_amount_out : Z }.

Inductive ChainUse := mkChainUse {
  cu_hops : list Leg; cu_data : list Z; cu_amount_out : Z; cu_with : list ChainUse; cu_exact_out : bool }.

Record ExitQuote := mkExit {
  eq_allocs : list Allocation;
  eq_amount_in : Z;
  eq_amount_out : Z;
  eq_hop_gas : Z;
  eq_rho0 : Z;
  eq_unwrap : option UnwrapUse;
  eq_hub : option HubUse;
  eq_chain : option ChainUse
}.

Record BatchQuote := mkBatch {
  bq_order : list Z; bq_quotes : list ExitQuote; bq_amount_out : Z; bq_hop_gas : Z }.

(** ** The book and the exact tier

    Reads of [PoolBook], and the entry points of [exact.rs] on it. [solve_pair] outside a
    [reuse_routes] scope is a function of its arguments; inside one it also reads and extends
    the routes found so far ([Reuse], empty when the scope opens). *)
Class ExitBook := {
  xb_hub : option AssetId;
  xb_address : PoolId -> option Address;
  xb_is_v3_contract : PoolId -> option bool;
  xb_pairs : list (AssetId * AssetId);
  xb_exit_legs : AssetId -> AssetId -> list Leg;
  xb_live_rho : Leg -> option Z;
  xb_generation : Z;
  exit_rho0 : AssetId -> AssetId -> option Z;
  solve_pair : AssetId -> AssetId -> Z -> GasTerms -> SolveBudget -> RRes ExitQuote;
  Reuse : Type;
  reuse_new : Reuse;
  solve_reusing : AssetId -> AssetId -> Z -> GasTerms -> SolveBudget -> Reuse -> RRes ExitQuote * Reuse;
  solve_pair_single_lender : AssetId -> AssetId -> Z -> GasTerms -> SolveBudget -> RRes ExitQuote;
  refine_exit : AssetId -> AssetId -> GasTerms -> SolveBudget -> ExitQuote -> RRes ExitQuote;
  solve_batch : list (AssetId * Z) -> AssetId -> GasTerms -> SolveBudget -> RRes BatchQuote
}.

(** The pool a flash swap could borrow from: the only one the exit sells through. *)
Definition lender_of `{ExitBook} (exit : ExitQuote) : option PoolId :=
  if match eq_hub exit with Some h => negb (bool_decide (Some (hu_hub h) = xb_hub)) | None => false end then None else
  match eq_chain exit with
  | Some _ => None
  | None =>
      match List.filter (fun a => negb (al_amount_in a =? 0)) (eq_allocs exit) with
      | [a] => let p := leg_pool (al_leg a) in
               let! v3 := xb_is_v3_contract p in
               if v3 : bool then Some p else None
      | _ => None
      end
  end.

(** [RouteError::InsufficientLiquidity | RouteError::StalePool]: no route at this size. *)
Definition unroutable (e : RouteError) : bool :=
  match e with InsufficientLiquidity | StalePool => true | _ => false end.

(** ** A book of one pair

    Token 1 against token 2, for concrete evaluations. *)
Definition sample_solve (pool : V2State) (asset_in asset_out : AssetId) (total : Z) : RRes ExitQuote :=
  if asset_in =? asset_out then Ok (mkExit [] total total 0 (2 ^ 96) None None None) else
  if negb ((asset_in =? 1) && (asset_out =? 2)) then Err InsufficientLiquidity else
  let? r := v2_swap pool true total in
  Ok (mkExit [mkAlloc (mkLeg 0 0 1) total (fst r)] total (fst r) 100000 (2 ^ 96) None None None).

Definition pair_book (pool : V2State) : ExitBook := {|
  xb_hub := None;
  xb_address := fun p => if (p =? 0)%nat then Some 7 else None;
  xb_is_v3_contract := fun p => if (p =? 0)%nat then Some false else None;
  xb_pairs := [(1, 2)];
  xb_exit_legs := fun a b => if (a =? 1) && (b =? 2) then [mkLeg 0 0 1] else [];
  xb_live_rho := fun _ => Some (2 ^ 96);
  xb_generation := 0;
  exit_rho0 := fun a b => if (a =? 1) && (b =? 2) then Some (2 ^ 96) else None;
  solve_pair := fun a b x _ _ => sample_solve pool a b x;
  Reuse := unit;
  reuse_new := tt;
  solve_reusing := fun a b x _ _ r => (sample_solve pool a b x, r);
  solve_pair_single_lender := fun a b x _ _ => sample_solve pool a b x;
  refine_exit := fun _ _ _ _ q => Ok q;
  solve_batch := fun colls debt _ _ =>
    Ok (mkBatch (Z.of_nat <$> seq 0 (length colls))
          (omap (fun c => match sample_solve pool (fst c) debt (snd c) with Ok q => Some q | Err _ => None end) colls) 0 0)
|}.

(** Equal reserves. *)
Definition sample_book : ExitBook := pair_book (mkV2 (10 ^ 24) (10 ^ 24) 0).
