(* ===== verification/RouterWarm.v ===== *)
(** * The warm tier

    [liq-router/src/warm.rs]: the table of exits re-solved after each block at a ladder of
    sizes, with the time-weighted average of each bucket; [liq-router/src/cache.rs]: the table
    as the route cache eligibility reads. *)

From S2P Require Import Prelude Fixed Types Flash Eligible RouterFees RouterGraph RouterBand RouterExit.
Local Open Scope Z_scope.

Definition BUCKETS : nat := 4.
Definition MAX_TWA_BLOCKS : nat := 32.
Definition WARM_BPS : Z := 10000.
Definition WARM_Q96 : Z := 2 ^ 96.

(** [trait WarmInputs]. *)
Record WarmInputs := mkInputs {
  wi_bucket_sizes : AssetId -> option (list Z);
  wi_per_eth : AssetId -> option Z;
  wi_next_base_fee : Z;
  wi_priority_fee_wei : Z;
  wi_block : Z;
  wi_evaluated : AssetId -> bool
}.

Record WarmConfig := mkWarmCfg { wc_max_impact_bps : Z; wc_twa_blocks : Z; wc_budget : SolveBudget }.

Record Bucket := mkBucket {
  bu_size_in : Z; bu_out_spot : option Z; bu_out_min : option Z; bu_pools : Z; bu_hop_gas : Z; bu_viable : bool }.

Record RouteEntry := mkREntry { re_legs : list Leg; re_rho0 : Z; re_buckets : list Bucket }.

Record RouteTable := mkRTable {
  rt_pairs : gmap (AssetId * AssetId) RouteEntry;
  rt_exit_cap : list Z;
  rt_unbanded : list bool;
  rt_block : Z;
  rt_base_fee : Z;
  rt_generation : Z
}.

Definition rt_entry (t : RouteTable) (coll debt : AssetId) : option RouteEntry := rt_pairs t !! (coll, debt).
Definition unbanded (t : RouteTable) (coll : AssetId) : bool := default false (rt_unbanded t !! Z.to_nat coll).
Definition exit_cap (t : RouteTable) (coll : AssetId) : Z := default 0 (rt_exit_cap t !! Z.to_nat coll).

(** The [min(spot, twa)] haircut at any size, from the bucket at or above it. *)
Definition min_spot_twa (t : RouteTable) (coll debt : AssetId) (size_in spot_out : Z) : Z :=
  match rt_entry t coll debt with
  | None => spot_out
  | Some e =>
      let b := match List.find (fun b => size_in <=? bu_size_in b) (re_buckets e) with
               | Some b => Some b
               | None => last (re_buckets e)
               end in
      match b with
      | Some b =>
          match bu_out_spot b, bu_out_min b with
          | Some s, Some m =>
              if (m <? s) && negb (s =? 0) then
                match mul_div_512 spot_out m s with Ok v => v | Err _ => spot_out end
              else spot_out
          | _, _ => spot_out
          end
      | None => spot_out
      end
  end.

(** ** The ring of a bucket *)

Record Ring := mkRing { rg_vals : list Z; rg_next : nat }.
Definition RING_EMPTY : Ring := mkRing [] 0.

Definition ring_push (r : Ring) (v : Z) (n : nat) : Ring :=
  let vals := if (length (rg_vals r) <? n)%nat then rg_vals r ++ [v] else <[rg_next r := v]> (rg_vals r) in
  mkRing vals (match checked_add_nat 64 (rg_next r) 1 with None => 0 | Some k => k mod Nat.max n 1 end)%nat.

Definition ring_sum (l : list Z) : option Z :=
  fold_left (fun a v => let! a := a in checked_add 256 a v) l (Some 0).

Definition ring_mean (r : Ring) : option Z :=
  match rg_vals r with
  | [] => None
  | l => let! sum := ring_sum l in checked_div sum (Z.of_nat (length l))
  end.

(** ** Rebuilding *)

Definition within_impact (size_in rho0 out max_impact_bps : Z) : bool :=
  match (let? v := mul_div_512 size_in rho0 WARM_Q96 in mul_div_512 v rho0 WARM_Q96) with
  | Err _ => false
  | Ok zero_impact =>
      match checked_sub WARM_BPS max_impact_bps with
      | None => false
      | Some keep =>
          match checked_mul 256 out WARM_BPS, checked_mul 256 zero_impact keep with
          | Some lhs, Some rhs => rhs <=? lhs
          | _, _ => false
          end
      end
  end.

(** [Vec::resize] up to an index. *)
Definition reach {A} (l : list A) (idx : nat) (d : A) : list A :=
  if (length l <=? idx)%nat then l ++ replicate (S idx - length l) d else l.

Section Rebuild.
Context `{ExitBook} (cfg : WarmConfig) (inputs : WarmInputs).

Definition n_twa : nat := Nat.min (Nat.max (Z.to_nat (wc_twa_blocks cfg)) 1) MAX_TWA_BLOCKS.

(** One bucket: its ring pushed and read back. *)
Definition bucket_of (coll debt : AssetId) (gas : GasTerms) (rho0 size_in : Z) (r : option Ring) : option Ring * Bucket :=
  let solved := match solve_pair coll debt size_in gas (wc_budget cfg) with Ok q => Some q | Err _ => None end in
  let out_spot := eq_amount_out <$> solved in
  let r := (fun r => ring_push r (default 0 out_spot) n_twa) <$> r in
  let twa := let! r := r in ring_mean r in
  let out_min := match out_spot, twa with
                 | Some s, Some t => Some (Z.min s t)
                 | Some s, None => Some s
                 | None, _ => None
                 end in
  let viable := match out_min with
                | Some m => within_impact size_in rho0 m (wc_max_impact_bps cfg)
                | None => false
                end in
  let pools := match solved with
               | Some q => default 255 (try_from 8 (Z.of_nat (length
                   (List.filter (fun a => negb (al_amount_in a =? 0)) (eq_allocs q)))))
               | None => 0
               end in
  (r, mkBucket size_in out_spot out_min pools (match solved with Some q => eq_hop_gas q | None => 0 end) viable).

(** The buckets of a pair, from bucket [k] on. *)
Fixpoint ladder (coll debt : AssetId) (gas : GasTerms) (rho0 : Z) (k : nat) (sizes : list Z)
  (rings : list Ring) : list Ring * list Bucket :=
  match sizes with
  | [] => (rings, [])
  | size_in :: sizes =>
      let '(r, b) := bucket_of coll debt gas rho0 size_in (rings !! k) in
      let rings := match r with Some r => <[k := r]> rings | None => rings end in
      let '(rings, bs) := ladder coll debt gas rho0 (S k) sizes rings in
      (rings, b :: bs)
  end.

(** The largest viable bucket. *)
Definition viable_cap (bs : list Bucket) : Z :=
  fold_left (fun cap b => if bu_viable b then Z.max cap (bu_size_in b) else cap) bs 0.

Abbreviation History := (gmap (AssetId * AssetId) (list Ring)).

Definition rebuild_pair (st : History * RouteTable) (p : AssetId * AssetId) : History * RouteTable :=
  let '(history, t) := st in
  let '(coll, debt) := p in
  let idx := Z.to_nat coll in
  let t := if bool_decide (wi_bucket_sizes inputs coll = None) && negb (wi_evaluated inputs coll)
           then mkRTable (rt_pairs t) (rt_exit_cap t) (<[idx := true]> (reach (rt_unbanded t) idx false))
                  (rt_block t) (rt_base_fee t) (rt_generation t)
           else t in
  match wi_bucket_sizes inputs coll, wi_per_eth inputs debt with
  | Some sizes, Some per_eth =>
      let gas := mkGas (wi_next_base_fee inputs) (wi_priority_fee_wei inputs) per_eth in
      let legs := omap (fun l => let! r := xb_live_rho l in Some (r, l)) (xb_exit_legs coll debt) in
      let legs := sort_by (fun x y => fst y <=? fst x) legs in
      match exit_rho0 coll debt with
      | None => (history, t)
      | Some rho0 =>
          let rings := default (replicate BUCKETS RING_EMPTY) (history !! p) in
          let '(rings, buckets) := ladder coll debt gas rho0 0 (take BUCKETS sizes) rings in
          let caps := alter (fun c => Z.max c (viable_cap buckets)) idx (reach (rt_exit_cap t) idx 0) in
          (<[p := rings]> history,
           mkRTable (<[p := mkREntry (snd <$> legs) rho0 buckets]> (rt_pairs t)) caps (rt_unbanded t)
             (rt_block t) (rt_base_fee t) (rt_generation t))
      end
  | _, _ => (history, t)
  end.

Definition rebuild (history : History) : History * RouteTable :=
  fold_left rebuild_pair xb_pairs
    (history, mkRTable ∅ [] [] (wi_block inputs) (wi_next_base_fee inputs) xb_generation).
End Rebuild.

(** ** The cache *)

Record WarmRouteCache := mkWarmCache { wrc_slot : RouteTable }.

#[export] Instance RouteCache_warm : RouteCache WarmRouteCache := {|
  has_exit r coll amount :=
    if amount =? 0 then false else
    (amount <=? exit_cap (wrc_slot r) coll) || unbanded (wrc_slot r) coll
|}.

(** * What the table says *)

Lemma reach_lookup {A} (l : list A) idx d i :
  reach l idx d !! i = if bool_decide (i < length l)%nat then l !! i
                       else if bool_decide (i <= idx)%nat then Some d else None.
Proof.
  unfold reach. destruct (Nat.leb_spec (length l) idx) as [Hl|Hl]; repeat case_bool_decide; try lia; try done.
  - by rewrite lookup_app_l by lia.
  - rewrite lookup_app_r by lia. apply lookup_replicate_2. lia.
  - rewrite lookup_app_r by lia. apply lookup_ge_None_2. rewrite length_replicate. lia.
  - apply lookup_ge_None_2. lia.
Qed.

(** A default read is not changed by making room for it. *)
Lemma reach_default {A} (l : list A) idx d i : default d (reach l idx d !! i) = default d (l !! i).
Proof.
  rewrite reach_lookup. repeat case_bool_decide; try done; rewrite (proj2 (lookup_ge_None l i)); try done; lia.
Qed.

Lemma reach_length {A} (l : list A) idx d : (idx < length (reach l idx d))%nat.
Proof.
  unfold reach. destruct (Nat.leb_spec (length l) idx); [|lia]. rewrite length_app, length_replicate. lia.
Qed.

Lemma viable_cap_from bs : forall c,
  fold_left (fun cap b => if bu_viable b then Z.max cap (bu_size_in b) else cap) bs c =
  Z.max c (foldr (fun b m => if bu_viable b then Z.max (bu_size_in b) m else m) c bs).
Proof.
  induction bs as [|b bs IH]; intros c; cbn [fold_left foldr]; [lia|]. rewrite IH.
  destruct (bu_viable b); [|done]. clear IH.
  enough (forall x y, x <= y -> foldr (fun b m => if bu_viable b then Z.max (bu_size_in b) m else m) y bs =
    Z.max y (foldr (fun b m => if bu_viable b then Z.max (bu_size_in b) m else m) x bs)) as E.
  { rewrite (E c (Z.max c (bu_size_in b)) ltac:(lia)). lia. }
  intros x y Hxy. induction bs as [|b' bs IH]; cbn [foldr]; [lia|]. destruct (bu_viable b'); rewrite IH; lia.
Qed.

(** The cap is what the viable buckets reach. *)
Lemma viable_cap_ge bs a : 0 < a ->
  a <= viable_cap bs <-> exists b, b ∈ bs /\ bu_viable b = true /\ a <= bu_size_in b.
Proof.
  intros Ha. unfold viable_cap. rewrite viable_cap_from. setoid_rewrite list_elem_of_In.
  induction bs as [|b bs IH]; cbn [foldr In].
  - split; [lia|]. by intros (b & [] & _).
  - destruct (bu_viable b) eqn:Eb.
    + split.
      * intros H. destruct (Z.le_gt_cases a (bu_size_in b)) as [?|?]; [exists b; auto|].
        destruct (proj1 IH ltac:(lia)) as (b' & Hb & ?). exists b'. auto.
      * intros (b' & [<-|Hb] & Hv & Hs); [lia|]. pose proof (proj2 IH ltac:(eauto)). lia.
    + rewrite IH. split; intros (b' & Hb & Hv & Hs); [eauto|].
      destruct Hb as [<-|Hb]; [congruence|eauto].
Qed.

Section Table.
Context `{ExitBook} (cfg : WarmConfig) (inputs : WarmInputs).

(** What a published bucket of [(coll, debt)] says: the exact tier's output at its size, at
    most that after averaging, and viable only within the impact bound. *)
Definition bucket_backed (coll debt : AssetId) (gas : GasTerms) (rho0 size : Z) (b : Bucket) : Prop :=
  bu_size_in b = size /\
  bu_out_spot b = (match solve_pair coll debt size gas (wc_budget cfg) with Ok q => Some (eq_amount_out q) | Err _ => None end) /\
  match bu_out_min b with
  | Some m => exists s, bu_out_spot b = Some s /\ m <= s
  | None => bu_out_spot b = None
  end /\
  (bu_viable b = true -> exists m, bu_out_min b = Some m /\ within_impact size rho0 m (wc_max_impact_bps cfg) = true).

Lemma bucket_of_backed coll debt gas rho0 size r :
  bucket_backed coll debt gas rho0 size (snd (bucket_of cfg coll debt gas rho0 size r)).
Proof.
  unfold bucket_of. cbv zeta. cbn [snd]. unfold bucket_backed. cbn [bu_size_in bu_out_spot bu_out_min bu_viable].
  destruct (solve_pair _ _ _ _ _) as [q|e]; cbn [fmap option_fmap option_map default]; split_and!; try done.
  - destruct (let! r := _ in ring_mean r) as [t|]; [exists (eq_amount_out q); split; [done|lia]|eauto with lia].
  - destruct (let! r := _ in ring_mean r) as [t|]; eauto.
Qed.

Lemma ladder_backed coll debt gas rho0 : forall sizes k rings,
  Forall2 (bucket_backed coll debt gas rho0) sizes (snd (ladder cfg coll debt gas rho0 k sizes rings)).
Proof.
  induction sizes as [|s sizes IH]; intros k rings; cbn [ladder]; [constructor|].
  pose proof (bucket_of_backed coll debt gas rho0 s (rings !! k)) as Hb.
  destruct (bucket_of _ _ _ _ _ _ _) as [r b]. cbn [snd] in Hb.
  set (rings' := match r with Some r0 => _ | None => _ end).
  specialize (IH (S k) rings'). destruct (ladder _ _ _ _ _ _ _ _) as [rs bs]. by constructor.
Qed.

Definition entry_backed (p : AssetId * AssetId) (e : RouteEntry) : Prop :=
  exists sizes per_eth, p ∈ xb_pairs /\ wi_bucket_sizes inputs (fst p) = Some sizes /\
    wi_per_eth inputs (snd p) = Some per_eth /\ exit_rho0 (fst p) (snd p) = Some (re_rho0 e) /\
    Forall2 (bucket_backed (fst p) (snd p)
      (mkGas (wi_next_base_fee inputs) (wi_priority_fee_wei inputs) per_eth) (re_rho0 e))
      (take BUCKETS sizes) (re_buckets e).

(** A collateral the book routes and no band was asked about. *)
Definition unseen (done : list (AssetId * AssetId)) (coll : AssetId) : Prop :=
  exists debt, (coll, debt) ∈ done /\ wi_bucket_sizes inputs coll = None /\ wi_evaluated inputs coll = false.

(** What holds after the pairs [done]. *)
Record table_ok (done : list (AssetId * AssetId)) (t : RouteTable) : Prop := {
  to_entries : map_Forall entry_backed (rt_pairs t);
  to_done : forall p e, rt_pairs t !! p = Some e -> p ∈ done;
  to_caps : forall coll a, 0 <= coll -> 0 < a ->
    a <= exit_cap t coll <-> exists debt e b, rt_entry t coll debt = Some e /\ b ∈ re_buckets e /\
      bu_viable b = true /\ a <= bu_size_in b;
  to_unbanded : forall coll, 0 <= coll -> unbanded t coll = true <-> unseen done coll
}.

Lemma unbanded_set l idx coll : 0 <= coll -> 0 <= idx ->
  default false (<[Z.to_nat idx := true]> (reach l (Z.to_nat idx) false) !! Z.to_nat coll) =
  if bool_decide (coll = idx) then true else default false (l !! Z.to_nat coll).
Proof.
  intros Hc Hi. case_bool_decide as E; [subst|].
  - by rewrite list_lookup_insert_eq by apply reach_length.
  - rewrite list_lookup_insert_ne by lia. apply reach_default.
Qed.

Lemma cap_set l idx v coll : 0 <= coll -> 0 <= idx ->
  default 0 (alter (fun c => Z.max c v) (Z.to_nat idx) (reach l (Z.to_nat idx) 0) !! Z.to_nat coll) =
  if bool_decide (coll = idx) then Z.max (default 0 (l !! Z.to_nat coll)) v else default 0 (l !! Z.to_nat coll).
Proof.
  intros Hc Hi. case_bool_decide as E; [subst|].
  - rewrite list_lookup_alter. rewrite <- (reach_default l (Z.to_nat idx) 0 (Z.to_nat idx)).
    destruct (lookup_lt_is_Some_2 (reach l (Z.to_nat idx) 0) (Z.to_nat idx) (reach_length _ _ _)) as [x ->].
    cbn. by rewrite decide_True.
  - rewrite list_lookup_alter_ne by lia. apply reach_default.
Qed.

(** Marking a collateral no band has seen, or not. *)
Lemma marked_ok done t coll debt : 0 <= coll -> table_ok done t ->
  table_ok (done ++ [(coll, debt)])
    (if bool_decide (wi_bucket_sizes inputs coll = None) && negb (wi_evaluated inputs coll)
     then mkRTable (rt_pairs t) (rt_exit_cap t)
            (<[Z.to_nat coll := true]> (reach (rt_unbanded t) (Z.to_nat coll) false))
            (rt_block t) (rt_base_fee t) (rt_generation t)
     else t).
Proof.
  intros Hc [He Hd Hcap Hu].
  assert (forall c, unseen (done ++ [(coll, debt)]) c <->
    unseen done c \/ (c = coll /\ wi_bucket_sizes inputs coll = None /\ wi_evaluated inputs coll = false)) as Hun.
  { intros c. unfold unseen. setoid_rewrite elem_of_app. setoid_rewrite list_elem_of_singleton. naive_solver. }
  case_bool_decide as Es; [destruct (wi_evaluated inputs coll) eqn:Ev|]; cbn [andb negb].
  1, 3: constructor; [done|by intros p e ?%Hd; apply elem_of_app; left|done|];
    intros c Hc'; rewrite Hun, Hu by done; split; [by left|intros [?|(-> & ? & ?)]; [done|congruence]].
  constructor; cbn [rt_pairs].
  - done.
  - intros p e ?%Hd. apply elem_of_app. by left.
  - intros c a Hc' Ha. exact (Hcap c a Hc' Ha).
  - intros c Hc'. unfold unbanded. cbn [rt_unbanded]. rewrite unbanded_set, Hun by done.
    case_bool_decide as E; [naive_solver|]. fold (unbanded t c). rewrite Hu by done. naive_solver.
Qed.

(** Publishing the entry of a pair not seen before. *)
Lemma published_ok done t p e : 0 <= fst p -> rt_pairs t !! p = None -> entry_backed p e ->
  p ∈ done -> table_ok done t ->
  table_ok done (mkRTable (<[p := e]> (rt_pairs t))
    (alter (fun c => Z.max c (viable_cap (re_buckets e))) (Z.to_nat (fst p)) (reach (rt_exit_cap t) (Z.to_nat (fst p)) 0))
    (rt_unbanded t) (rt_block t) (rt_base_fee t) (rt_generation t)).
Proof.
  intros Hc Hnew He Hp [Hes Hd Hcap Hu]. constructor; cbn [rt_pairs].
  - by apply map_Forall_insert_2.
  - intros p' e' [[-> _]|[_ ?]]%lookup_insert_Some; eauto.
  - intros c a Hc' Ha. unfold exit_cap, rt_entry. cbn [rt_pairs rt_exit_cap]. rewrite cap_set by done.
    specialize (Hcap c a Hc' Ha). unfold exit_cap, rt_entry in Hcap. destruct p as [coll debt]. cbn [fst] in *.
    case_bool_decide as E; [subst c|].
    + rewrite Z.max_le_iff, viable_cap_ge, Hcap by done. split.
      * intros [(d & e' & b & H1 & H2)|(b & H2)].
        -- exists d, e', b. split; [|done]. rewrite lookup_insert_ne; [done|]. intros [= ->]. congruence.
        -- exists debt, e, b. split; [by rewrite lookup_insert_eq|done].
      * intros (d & e' & b & [[[= ->] ->]|[_ H1]]%lookup_insert_Some & H2); [by right; exists b|left; by exists d, e', b].
    + rewrite Hcap. split; intros (d & e' & b & H1 & H2); exists d, e', b; (split; [|done]).
      * rewrite lookup_insert_ne; [done|]. congruence.
      * rewrite lookup_insert_ne in H1; [done|]. congruence.
  - intros c Hc'. exact (Hu c Hc').
Qed.

Lemma rebuild_pair_ok done h t p : 0 <= fst p -> p ∈ xb_pairs -> p ∉ done -> table_ok done t ->
  table_ok (done ++ [p]) (snd (rebuild_pair cfg inputs (h, t) p)).
Proof.
  intros Hc Hin Hnew Hok. destruct p as [coll debt]. cbn [fst] in Hc. unfold rebuild_pair.
  pose proof (marked_ok done t coll debt Hc Hok) as Hm.
  set (t' := if _ && _ then _ else _) in *.
  assert (rt_pairs t' = rt_pairs t) as Et by (unfold t'; by destruct (_ && _)).
  destruct (wi_bucket_sizes inputs coll) as [sizes|] eqn:Es; [|done].
  destruct (wi_per_eth inputs debt) as [per|] eqn:Ep; [|done].
  destruct (exit_rho0 coll debt) as [rho0|] eqn:Er; [|done].
  pose proof (ladder_backed coll debt (mkGas (wi_next_base_fee inputs) (wi_priority_fee_wei inputs) per) rho0
    (take BUCKETS sizes) 0 (default (replicate BUCKETS RING_EMPTY) (h !! (coll, debt)))) as Hl.
  destruct (ladder _ _ _ _ _ _ _ _) as [rings bs]. cbn [snd] in *.
  match goal with |- context [mkREntry ?l rho0 bs] =>
    apply (published_ok (done ++ [(coll, debt)]) t' (coll, debt) (mkREntry l rho0 bs)) end; try done.
  - rewrite Et. destruct (rt_pairs t !! (coll, debt)) eqn:E; [|done]. by apply (to_done _ _ Hok) in E.
  - by exists sizes, per.
  - apply elem_of_app. right. by apply list_elem_of_singleton.
Qed.

Lemma rebuild_ok h : NoDup xb_pairs -> Forall (fun p : AssetId * AssetId => 0 <= fst p) xb_pairs ->
  table_ok xb_pairs (snd (rebuild cfg inputs h)).
Proof.
  intros Hnd Hpos. unfold rebuild.
  assert (table_ok [] (mkRTable ∅ [] [] (wi_block inputs) (wi_next_base_fee inputs) xb_generation)) as H0.
  { constructor.
    - apply map_Forall_empty.
    - done.
    - intros c a _ Ha. unfold exit_cap, rt_entry. cbn [rt_exit_cap rt_pairs]. rewrite lookup_nil. cbn.
      split; [lia|]. by intros (d & e & b & ?%lookup_empty_Some & _).
    - intros c _. unfold unbanded. cbn [rt_unbanded]. rewrite lookup_nil. split; [done|].
      by intros (d & ?%not_elem_of_nil & _). }
  revert H0. generalize (mkRTable ∅ [] [] (wi_block inputs) (wi_next_base_fee inputs) xb_generation). intros t H0.
  enough (forall todo done h t, xb_pairs = done ++ todo -> table_ok done t ->
    table_ok xb_pairs (snd (fold_left (rebuild_pair cfg inputs) todo (h, t)))) as E by by apply (E xb_pairs []).
  clear h t H0. induction todo as [|p todo IH]; intros done h t E Hok; cbn [fold_left].
  { by rewrite E, app_nil_r. }
  assert (p ∈ xb_pairs) as Hin by (rewrite E; apply elem_of_app; right; apply elem_of_cons; by left).
  pose proof (rebuild_pair_ok done h t p) as Hs. destruct (rebuild_pair _ _ _ _) as [h' t'].
  apply (IH (done ++ [p])); [by rewrite E, <- app_assoc|]. apply Hs; try done.
  - rewrite Forall_forall in Hpos. by apply Hpos.
  - rewrite E in Hnd. apply NoDup_app in Hnd as (_ & Hd & _). intros Hp. apply (Hd p Hp). apply elem_of_cons. by left.
Qed.
End Table.

(** The route cache over a freshly published table: a nonzero amount of a collateral has an
    exit exactly when the book routes it and no band was asked about it, or some bucket of
    some debt pair reaches the amount and is viable; and a viable bucket is backed by the exact
    tier, which solved its size for at least the published output, itself within the impact
    bound of the zero-size rate. *)
Theorem warm_exit_is_backed `{ExitBook} (cfg : WarmConfig) (inputs : WarmInputs)
    (h : gmap (AssetId * AssetId) (list Ring)) (coll : AssetId) (amount : Z)
    (Hnd : NoDup xb_pairs) (Hids : Forall (fun p : AssetId * AssetId => 0 <= fst p) xb_pairs)
    (Hcoll : 0 <= coll) (Hamt : 0 < amount) :
  let t := snd (rebuild cfg inputs h) in
  (has_exit (mkWarmCache t) coll amount = true <->
     unseen inputs xb_pairs coll \/
     exists debt e b, rt_entry t coll debt = Some e /\ b ∈ re_buckets e /\ bu_viable b = true /\ amount <= bu_size_in b) /\
  (forall debt e b, rt_entry t coll debt = Some e -> b ∈ re_buckets e -> bu_viable b = true ->
     exists per_eth rho0 q m, wi_per_eth inputs debt = Some per_eth /\ exit_rho0 coll debt = Some rho0 /\
       solve_pair coll debt (bu_size_in b)
         (mkGas (wi_next_base_fee inputs) (wi_priority_fee_wei inputs) per_eth) (wc_budget cfg) = Ok q /\
       bu_out_min b = Some m /\ m <= eq_amount_out q /\
       within_impact (bu_size_in b) rho0 m (wc_max_impact_bps cfg) = true).
Proof.
  intros t. pose proof (rebuild_ok cfg inputs h Hnd Hids) as [He _ Hcap Hu]. fold t in He, Hcap, Hu. split.
  - unfold has_exit, RouteCache_warm. cbn [wrc_slot]. rewrite (proj2 (Z.eqb_neq amount 0)) by lia.
    rewrite orb_true_iff, Z.leb_le, Hcap, Hu by done. tauto.
  - intros debt e b Hb Hin Hv. destruct (He _ _ Hb) as (sizes & per & _ & _ & Hper & Hrho & Hall).
    apply list_elem_of_lookup in Hin as [k Hk]. destruct (Forall2_lookup_r _ _ _ _ _ Hall Hk) as (size & _ & Hbk).
    destruct Hbk as (Hsz & Hsp & Hmin & Hvi). destruct (Hvi Hv) as (m & Hm & Hw). rewrite Hm in Hmin.
    destruct Hmin as (s & Hs & Hle). subst size. cbn [fst snd] in *. rewrite Hs in Hsp.
    destruct (solve_pair _ _ _ _ _) as [q|] eqn:Eq; [|done]. injection Hsp as ->.
    by exists per, (re_rho0 e), q, m.
Qed.

(** * The average *)

(** A ring of capacity [n] after the pushes [hist]: it holds the last [n]. *)
Record ring_holds (n : nat) (r : Ring) (hist : list Z) : Prop := {
  rh_next : rg_next r = (length hist mod n)%nat;
  rh_fill : (length hist < n)%nat -> rg_vals r = hist;
  rh_full : (n <= length hist)%nat ->
    length (rg_vals r) = n /\ drop (rg_next r) (rg_vals r) ++ take (rg_next r) (rg_vals r) = lastn n hist
}.

Lemma ring_push_holds n r hist v : (0 < n <= MAX_TWA_BLOCKS)%nat -> ring_holds n r hist ->
  ring_holds n (ring_push r v n) (hist ++ [v]).
Proof.
  intros Hn [Hnx Hfill Hfull]. unfold ring_push.
  assert (rg_next r < n)%nat as Hlt by (rewrite Hnx; apply Nat.mod_upper_bound; lia).
  rewrite (proj2 (checked_add_nat_Some 64 (rg_next r) 1 (rg_next r + 1)%nat)).
  2:{ split; [done|]. unfold umax, MAX_TWA_BLOCKS in *. lia. }
  rewrite (Nat.max_l n 1), Nat.add_1_r by lia.
  assert (S (rg_next r) mod n = length (hist ++ [v]) mod n)%nat as Hnext.
  { rewrite length_app, Hnx. cbn [length]. rewrite Nat.add_1_r, <- (Nat.add_1_l (_ mod n)), <- (Nat.add_1_l (length hist)).
    by rewrite Nat.Div0.add_mod_idemp_r. }
  destruct (Nat.lt_ge_cases (length hist) n) as [Hl|Hl].
  - rewrite (Hfill Hl), (proj2 (Nat.ltb_lt _ _) Hl). constructor; cbn [rg_next rg_vals]; [done|done|].
    rewrite length_app. cbn [length]. intros ?. assert (length hist + 1 = n)%nat as E by lia.
    split; [done|]. rewrite Hnext, length_app. cbn [length]. rewrite E, Nat.Div0.mod_same, drop_0, take_0, app_nil_r.
    unfold lastn. rewrite length_app. cbn [length]. by rewrite E, Nat.sub_diag, drop_0.
  - destruct (Hfull Hl) as [El Ev]. rewrite El, (proj2 (Nat.ltb_ge n n) (le_n n)).
    constructor; cbn [rg_next rg_vals]; rewrite ?length_app; cbn [length]; [by rewrite Hnext, length_app|lia|].
    intros _. rewrite length_insert. split; [done|].
    rewrite (ring_view_insert _ _ _ n) by done. by rewrite lastn_snoc, Ev by lia.
Qed.

Lemma ring_vals_perm n r hist : (0 < n)%nat -> ring_holds n r hist -> rg_vals r ≡ₚ lastn n hist.
Proof.
  intros Hn [_ Hfill Hfull]. destruct (Nat.lt_ge_cases (length hist) n) as [Hl|Hl].
  - rewrite (Hfill Hl). unfold lastn. by assert (length hist - n = 0)%nat as -> by lia.
  - destruct (Hfull Hl) as [_ <-]. by rewrite Permutation_app_comm, take_drop.
Qed.

Definition total (l : list Z) : Z := foldr Z.add 0 l.

Lemma total_perm l1 l2 : l1 ≡ₚ l2 -> total l1 = total l2.
Proof. unfold total. induction 1; cbn [foldr]; lia. Qed.

Lemma ring_sum_total l : Forall (Z.le 0) l -> total l <= umax 256 -> ring_sum l = Some (total l).
Proof.
  intros Hpos. unfold ring_sum.
  enough (forall a, 0 <= a -> a + total l <= umax 256 ->
    fold_left (fun a v => let! a := a in checked_add 256 a v) l (Some a) = Some (a + total l)) as E
    by (intros; rewrite E; [by rewrite Z.add_0_l|lia|lia]).
  induction Hpos as [|v l Hv Hpos IH]; intros a Ha Hle; cbn [fold_left total foldr] in *; [by rewrite Z.add_0_r|].
  assert (0 <= total l) as Ht by (clear -Hpos; unfold total; induction Hpos; cbn [foldr]; lia).
  unfold total in *. rewrite checked_add_ok by lia. rewrite IH by lia. f_equal. lia.
Qed.

Lemma omap_single {A B} (f : A -> option B) x : omap f [x] = match f x with Some y => [y] | None => [] end.
Proof. done. Qed.

(** What a solve adds to the average: its output, zero when there is none. *)
Definition output (r : RRes ExitQuote) : Z := match r with Ok q => eq_amount_out q | Err _ => 0 end.

(** The book and the inputs of a block. *)
Abbreviation WarmBlock := (ExitBook * WarmInputs)%type.

Section Average.
Context (cfg : WarmConfig).

Lemma n_twa_pos : (0 < n_twa cfg <= MAX_TWA_BLOCKS)%nat.
Proof. unfold n_twa, MAX_TWA_BLOCKS. lia. Qed.

Lemma ladder_rings `{ExitBook} coll debt gas rho0 : forall sizes k rings rings' bs,
  ladder cfg coll debt gas rho0 k sizes rings = (rings', bs) ->
  length rings' = length rings /\
  (forall j r, rings !! j = Some r ->
     rings' !! j = Some (match (if (j <? k)%nat then None else sizes !! (j - k)%nat) with
                         | Some size => ring_push r (output (solve_pair coll debt size gas (wc_budget cfg))) (n_twa cfg)
                         | None => r
                         end)) /\
  (forall i b r, bs !! i = Some b -> rings' !! (k + i)%nat = Some r ->
     bu_out_min b = (let! s := bu_out_spot b in
       Some (match ring_mean r with Some t => Z.min s t | None => s end))).
Proof.
  induction sizes as [|size sizes IH]; intros k rings rings' bs; cbn [ladder].
  { intros [= <- <-]. split; [done|]. split; [|done]. intros j r Hj. rewrite Hj. by destruct (j <? k)%nat. }
  set (v := output (solve_pair coll debt size gas (wc_budget cfg))).
  assert (bucket_of cfg coll debt gas rho0 size (rings !! k) =
    ((fun r => ring_push r v (n_twa cfg)) <$> rings !! k,
     snd (bucket_of cfg coll debt gas rho0 size (rings !! k)))) as ->.
  { unfold bucket_of, v, output. cbv zeta. cbn [snd]. f_equal. by destruct (solve_pair _ _ _ _ _). }
  destruct (ladder _ _ _ _ _ _ _ _) as [rs bs'] eqn:El. intros [= <- <-].
  destruct (IH _ _ _ _ El) as (IHl & IHr & IHb). clear IH El.
  split; [by destruct (rings !! k); cbn [fmap option_fmap option_map] in IHl; rewrite IHl, ?length_insert|]. split.
  - intros j r Hj. destruct (Nat.lt_trichotomy j k) as [Hjk|[->|Hjk]].
    + rewrite (proj2 (Nat.ltb_lt _ _) Hjk).
      rewrite (IHr j r); [by rewrite (proj2 (Nat.ltb_lt j (S k)) ltac:(lia))|].
      destruct (rings !! k); cbn [fmap option_fmap option_map]; [rewrite list_lookup_insert_ne by lia|]; done.
    + rewrite Nat.ltb_irrefl, Nat.sub_diag. cbn [lookup list_lookup].
      rewrite (IHr k (ring_push r v (n_twa cfg)));
        [by rewrite (proj2 (Nat.ltb_lt k (S k)) ltac:(lia))|]. rewrite Hj. cbn [fmap option_fmap option_map].
      apply list_lookup_insert_eq. by eapply lookup_lt_Some.
    + rewrite (proj2 (Nat.ltb_ge j k)) by lia.
      rewrite (IHr j r); [|destruct (rings !! k); cbn [fmap option_fmap option_map]; [rewrite list_lookup_insert_ne by lia|]; done].
      rewrite (proj2 (Nat.ltb_ge j (S k))) by lia. by replace (j - k)%nat with (S (j - S k)) by lia.
  - intros [|i] b r Hb Hr; [|apply (IHb i); [done|by rewrite Nat.add_succ_r in Hr]].
    injection Hb as <-. rewrite Nat.add_0_r in Hr. unfold bucket_of. cbv zeta. cbn [snd bu_out_min bu_out_spot].
    destruct (rings !! k) as [r0|] eqn:Ek; cbn [fmap option_fmap option_map] in IHr |- *.
    + assert (r = ring_push r0 v (n_twa cfg)) as ->.
      { pose proof (IHr k (ring_push r0 v (n_twa cfg)) ltac:(apply list_lookup_insert_eq; by eapply lookup_lt_Some)) as E.
        rewrite (proj2 (Nat.ltb_lt k (S k))) in E by lia. cbn [fmap option_fmap option_map] in Hr. rewrite Hr in E. by injection E. }
      assert (default 0 (eq_amount_out <$> match solve_pair coll debt size gas (wc_budget cfg) with Ok q => Some q | Err _ => None end) = v)
        as -> by (unfold v, output; by destruct (solve_pair _ _ _ _ _)).
      destruct (solve_pair _ _ _ _ _); [|done]. cbn [fmap option_fmap option_map]. by destruct (ring_mean _).
    + exfalso. cbn [fmap option_fmap option_map] in *. apply lookup_lt_Some in Hr. apply lookup_ge_None in Ek. lia.
Qed.

(** What a block pushes to bucket [k] of a pair; [None] when the pair was skipped. *)
Definition pushed (b : WarmBlock) (p : AssetId * AssetId) (k : nat) : option Z :=
  let '(book, inputs) := b in
  if bool_decide (p ∈ @xb_pairs book) then
    match wi_bucket_sizes inputs (fst p), wi_per_eth inputs (snd p), @exit_rho0 book (fst p) (snd p) with
    | Some sizes, Some per_eth, Some _ =>
        let! size := take BUCKETS sizes !! k in
        Some (output (@solve_pair book (fst p) (snd p) size
          (mkGas (wi_next_base_fee inputs) (wi_priority_fee_wei inputs) per_eth) (wc_budget cfg)))
    | _, _, _ => None
    end
  else None.

Definition rings_of (h : gmap (AssetId * AssetId) (list Ring)) (p : AssetId * AssetId) : list Ring :=
  default (replicate BUCKETS RING_EMPTY) (h !! p).

Definition history_ok (h : gmap (AssetId * AssetId) (list Ring)) (bs : list WarmBlock) : Prop :=
  forall p, length (rings_of h p) = BUCKETS /\
    forall k r, rings_of h p !! k = Some r -> ring_holds (n_twa cfg) r (omap (fun b => pushed b p k) bs).

(** What a published entry says of its rings. *)
Definition averaged (h : gmap (AssetId * AssetId) (list Ring)) (p : AssetId * AssetId) (e : RouteEntry) : Prop :=
  forall k b r, re_buckets e !! k = Some b -> rings_of h p !! k = Some r ->
    bu_out_min b = (let! s := bu_out_spot b in Some (match ring_mean r with Some t => Z.min s t | None => s end)).

Section OneBlock.
Context `{B : ExitBook} (inputs : WarmInputs).

(** A published bucket shows what the block pushed. *)
Definition recorded (p : AssetId * AssetId) (e : RouteEntry) : Prop :=
  forall k b, re_buckets e !! k = Some b -> pushed (B, inputs) p k = Some (default 0 (bu_out_spot b)).

(** A pair solved in the block: each ring gets what the block pushes. *)
Lemma rebuild_pair_rings h t p h' t' : p ∈ xb_pairs ->
  rebuild_pair cfg inputs (h, t) p = (h', t') ->
  (forall p', p' <> p -> h' !! p' = h !! p' /\ rt_pairs t' !! p' = rt_pairs t !! p') /\
  length (rings_of h' p) = length (rings_of h p) /\
  (forall k r, rings_of h p !! k = Some r -> rings_of h' p !! k =
     Some (match pushed (B, inputs) p k with Some v => ring_push r v (n_twa cfg) | None => r end)) /\
  (forall e, rt_pairs t' !! p = Some e -> rt_pairs t !! p = Some e \/ (averaged h' p e /\ recorded p e)).
Proof.
  intros Hin. destruct p as [coll debt]. unfold rebuild_pair, recorded, pushed. rewrite (bool_decide_true (_ ∈ _)) by done. cbn [fst snd].
  set (t1 := if _ && _ then _ else _).
  assert (rt_pairs t1 = rt_pairs t) as Et by (unfold t1; by destruct (_ && _)).
  destruct (wi_bucket_sizes inputs coll) as [sizes|]; [|intros [= <- <-]; rewrite Et; naive_solver].
  destruct (wi_per_eth inputs debt) as [per|]; [|intros [= <- <-]; rewrite Et; naive_solver].
  destruct (exit_rho0 coll debt) as [rho0|]; [|intros [= <- <-]; rewrite Et; naive_solver].
  fold (rings_of h (coll, debt)).
  destruct (ladder _ _ _ _ _ _ _ _) as [rs bs] eqn:El. intros [= <- <-].
  destruct (ladder_rings _ _ _ _ _ _ _ _ _ El) as (Hlen & Hr & Hb). cbn [rt_pairs]. rewrite Et.
  pose proof (f_equal snd El) as Hback. cbn [snd] in Hback.
  assert (rings_of (<[(coll, debt) := rs]> h) (coll, debt) = rs) as Ers
    by (unfold rings_of; by rewrite lookup_insert_eq).
  split_and!.
  - intros p' Hp. by rewrite !lookup_insert_ne by congruence.
  - by rewrite Ers.
  - intros k r Hk. rewrite Ers. rewrite (Hr k r Hk). change (k <? 0)%nat with false. cbn iota. rewrite Nat.sub_0_r.
    by destruct (take BUCKETS sizes !! k).
  - intros e. rewrite lookup_insert_eq. intros [= <-]. right. cbn [re_buckets]. split.
    + intros k b r. cbn [re_buckets]. rewrite Ers. apply Hb.
    + intros k b Hkb.
      pose proof (ladder_backed cfg coll debt (mkGas (wi_next_base_fee inputs) (wi_priority_fee_wei inputs) per) rho0
        (take BUCKETS sizes) 0 (rings_of h (coll, debt))) as Hall. rewrite Hback in Hall.
      destruct (Forall2_lookup_r _ _ _ _ _ Hall Hkb) as (size & -> & _ & Hsp & _). f_equal. rewrite Hsp.
      unfold output. by destruct (solve_pair _ _ _ _ _).
Qed.

Lemma rebuild_rings h h' t' : NoDup xb_pairs -> rebuild cfg inputs h = (h', t') ->
  (forall p, length (rings_of h' p) = length (rings_of h p) /\
     forall k r, rings_of h p !! k = Some r -> rings_of h' p !! k =
       Some (match pushed (B, inputs) p k with Some v => ring_push r v (n_twa cfg) | None => r end)) /\
  map_Forall (fun p e => averaged h' p e /\ recorded p e) (rt_pairs t').
Proof.
  unfold rebuild. set (t0 := mkRTable _ _ _ _ _ _). intros Hnd.
  enough (forall todo h t h' t', NoDup todo -> Forall (fun q => q ∈ xb_pairs) todo ->
    (forall p e, rt_pairs t !! p = Some e -> p ∉ todo /\ averaged h p e /\ recorded p e) ->
    fold_left (rebuild_pair cfg inputs) todo (h, t) = (h', t') ->
    (forall p, if bool_decide (p ∈ todo) then
        length (rings_of h' p) = length (rings_of h p) /\
        forall k r, rings_of h p !! k = Some r -> rings_of h' p !! k =
          Some (match pushed (B, inputs) p k with Some v => ring_push r v (n_twa cfg) | None => r end)
      else h' !! p = h !! p) /\
    map_Forall (fun p e => averaged h' p e /\ recorded p e) (rt_pairs t')) as E.
  { intros Hf. destruct (E xb_pairs h t0 h' t' Hnd ltac:(by apply Forall_forall) ltac:(intros p e; cbn [rt_pairs t0]; by intros ?%lookup_empty_Some) Hf) as [H1 H2].
    split; [|done]. intros p. specialize (H1 p). case_bool_decide as Ep; [done|].
    unfold rings_of, pushed. rewrite H1, bool_decide_false by done. done. }
  clear. induction todo as [|p todo IH]; intros h t h' t' Hnd Hsub Hav; cbn [fold_left].
  { intros [= <- <-]. split; [done|]. intros p e Hp. by apply (Hav p e). }
  destruct (rebuild_pair cfg inputs (h, t) p) as [h1 t1] eqn:E1. apply NoDup_cons in Hnd as [Hp Hnd].
  apply Forall_cons in Hsub as [Hpin Hsub]. destruct (rebuild_pair_rings h t p h1 t1 Hpin E1) as (Hne & Hl & Hk & He).
  assert (forall q, h1 !! q = h !! q -> rings_of h1 q = rings_of h q) as Hro by (unfold rings_of; by intros q ->).
  intros Hf. destruct (IH h1 t1 h' t' Hnd Hsub) as [H1 H2]; [|done|].
  { intros q e Hq. destruct (decide (q = p)) as [->|Hqp].
    - split; [done|]. destruct (He e Hq) as [Ho|?]; [|done]. destruct (Hav p e Ho). set_solver.
    - rewrite (proj2 (Hne q Hqp)) in Hq. destruct (Hav q e Hq) as (? & Ha & Hrec). split; [set_solver|].
      split; [|done]. intros k b r Hb Hr. apply (Ha k b r Hb). by rewrite <- Hro by by apply Hne. }
  split; [|done]. intros q. specialize (H1 q). destruct (decide (q = p)) as [->|Hqp].
  - rewrite bool_decide_true by set_solver. rewrite bool_decide_false in H1 by done.
    assert (rings_of h' p = rings_of h1 p) as -> by (unfold rings_of; by rewrite H1). done.
  - destruct (Hne q Hqp) as [Eh _]. case_bool_decide as Eq.
    + rewrite bool_decide_true by set_solver. by rewrite <- (Hro q Eh).
    + rewrite bool_decide_false by set_solver. by rewrite H1.
Qed.
End OneBlock.

(** The history after the blocks [bs], from a new builder. *)
Definition history_after (bs : list WarmBlock) : gmap (AssetId * AssetId) (list Ring) :=
  fold_left (fun h b => fst (@rebuild (fst b) cfg (snd b) h)) bs ∅.

Lemma history_after_ok bs : Forall (fun b : WarmBlock => NoDup (@xb_pairs (fst b))) bs -> history_ok (history_after bs) bs.
Proof.
  intros Hall. unfold history_after.
  assert (history_ok ∅ []) as H0.
  { intros p. unfold rings_of. rewrite lookup_empty. cbn [default]. split; [done|].
    intros k r [-> _]%lookup_replicate. constructor; [by rewrite Nat.Div0.mod_0_l|done|].
    pose proof n_twa_pos. cbn. lia. }
  enough (forall pre h, history_ok h pre ->
    history_ok (fold_left (fun h b => fst (@rebuild (fst b) cfg (snd b) h)) bs h) (pre ++ bs)) as E by exact (E [] ∅ H0).
  clear H0. induction Hall as [|[B I] bs Hb _ IH]; intros pre h Hh; cbn [fold_left].
  { by rewrite app_nil_r. }
  rewrite (cons_middle (B, I)), app_assoc. apply IH. cbn [fst snd] in *.
  destruct (rebuild cfg I h) as [h' t'] eqn:Er. destruct (rebuild_rings I h h' t' Hb Er) as [Hr _]. cbn [fst].
  intros p. destruct (Hr p) as [Hl Hk]. destruct (Hh p) as [Hlen Hold]. split; [congruence|].
  intros k r Hr'. destruct (lookup_lt_is_Some_2 (rings_of h p) k) as [r0 Hr0].
  { rewrite <- Hl. by eapply lookup_lt_Some. }
  specialize (Hk k r0 Hr0). rewrite Hr' in Hk. apply (inj Some) in Hk as ->. specialize (Hold k r0 Hr0).
  rewrite omap_app, omap_single. destruct (pushed (B, I) p k) as [v|]; [|by rewrite app_nil_r].
  apply ring_push_holds; [apply n_twa_pos|done].
Qed.
End Average.

(** The published output of a bucket is the spot output or the average, whichever is less:
    after any blocks, the average is the mean over the last [twa_blocks] blocks in which the
    pair was solved (the current one included), a size no pools absorbed counting as zero. *)
Theorem warm_average_exact (cfg : WarmConfig) (bs : list WarmBlock) (book : ExitBook) (inputs : WarmInputs)
    (p : AssetId * AssetId) (e : RouteEntry) (k : nat) (b : Bucket) (s : Z)
    (Hnd : Forall (fun b : WarmBlock => NoDup (@xb_pairs (fst b))) (bs ++ [(book, inputs)]))
    (He : rt_pairs (snd (rebuild cfg inputs (history_after cfg bs))) !! p = Some e)
    (Hb : re_buckets e !! k = Some b) (Hs : bu_out_spot b = Some s) :
  let hist := lastn (n_twa cfg) (omap (fun b => pushed cfg b p k) (bs ++ [(book, inputs)])) in
  Forall (Z.le 0) hist -> RouterWarm.total hist <= umax 256 ->
  last hist = Some s /\
  bu_out_min b = Some (Z.min s (RouterWarm.total hist / Z.of_nat (length hist))).
Proof.
  intros hist Hpos Hsum.
  pose proof (history_after_ok cfg (bs ++ [(book, inputs)]) Hnd) as Hh.
  apply Forall_app in Hnd as [_ Hnd]. apply Forall_inv in Hnd. cbn [fst] in Hnd.
  destruct (rebuild cfg inputs (history_after cfg bs)) as [h' t'] eqn:Er. cbn [snd] in He.
  destruct (rebuild_rings cfg inputs _ h' t' Hnd Er) as [_ Hent]. destruct (Hent p e He) as [Hav Hrec].
  assert (history_after cfg (bs ++ [(book, inputs)]) = h') as Eh
    by (unfold history_after; rewrite fold_left_app; cbn [fold_left fst snd]; fold (history_after cfg bs); by rewrite Er).
  rewrite Eh in Hh. destruct (Hh p) as [Hlen Hring].
  specialize (Hrec k b Hb). rewrite Hs in Hrec. cbn [default] in Hrec.
  pose proof (n_twa_pos cfg) as Hn.
  set (all := omap (fun b => pushed cfg b p k) (bs ++ [(book, inputs)])) in *.
  assert (all = omap (fun b => pushed cfg b p k) bs ++ [s]) as Eall
    by (unfold all; by rewrite omap_app, omap_single, Hrec).
  assert (length all <> 0)%nat as Hne by (rewrite Eall, length_app; cbn; lia).
  split.
  { unfold hist, lastn. rewrite Eall, drop_app_le by (rewrite length_app; cbn [length]; lia). apply last_snoc. }
  destruct (lookup_lt_is_Some_2 (rings_of h' p) k) as [r Hr].
  { rewrite Hlen. unfold pushed in Hrec. cbn [fst snd] in Hrec. repeat case_match; try done.
    match goal with H : take _ _ !! _ = Some _ |- _ => apply lookup_lt_Some in H; rewrite length_take in H; lia end. }
  rewrite (Hav k b r Hb Hr), Hs. specialize (Hring k r Hr).
  pose proof (ring_vals_perm _ _ _ (proj1 Hn) Hring) as Hp. fold all hist in Hp.
  assert (ring_mean r = Some (RouterWarm.total hist / Z.of_nat (length hist))) as ->; [|done].
  assert (length (rg_vals r) = length hist) as El by by rewrite Hp.
  assert (length hist <> 0)%nat as Hh0 by (unfold hist, lastn; rewrite length_drop; lia).
  assert (ring_mean r = (let! sum := ring_sum (rg_vals r) in checked_div sum (Z.of_nat (length (rg_vals r))))) as ->.
  { unfold ring_mean. destruct (rg_vals r); [cbn in El; lia|done]. }
  rewrite ring_sum_total by (rewrite ?(total_perm _ _ Hp), ?Hp; done).
  rewrite (total_perm _ _ Hp), El. unfold checked_div. by rewrite (proj2 (Z.eqb_neq _ 0)) by lia.
Qed.

Definition sample_inputs : WarmInputs :=
  mkInputs (fun a => if a =? 1 then Some [10 ^ 18; 10 ^ 20; 10 ^ 21; 10 ^ 23] else None) (fun _ => Some (10 ^ 18)) 10 1 5 (fun _ => true).
Definition sample_cfg : WarmConfig := mkWarmCfg 200 2 SOLVE_BUDGET_DEFAULT.

(** The three smaller buckets of the sample pair are within two per cent of its zero-size
    rate, the largest is not. *)
Lemma warm_exit_is_backed_witness :
  has_exit (mkWarmCache (snd (@rebuild sample_book sample_cfg sample_inputs ∅))) 1 (10 ^ 21) = true /\
  has_exit (mkWarmCache (snd (@rebuild sample_book sample_cfg sample_inputs ∅))) 1 (10 ^ 21 + 1) = false /\
  exists debt e b, rt_entry (snd (@rebuild sample_book sample_cfg sample_inputs ∅)) 1 debt = Some e /\
    b ∈ re_buckets e /\ bu_viable b = true /\ 10 ^ 21 <= bu_size_in b.
Proof.
  assert (has_exit (mkWarmCache (snd (@rebuild sample_book sample_cfg sample_inputs ∅))) 1 (10 ^ 21) = true) as H
    by (vm_compute; reflexivity).
  split; [exact H|]. split; [vm_compute; reflexivity|].
  destruct (@warm_exit_is_backed sample_book sample_cfg sample_inputs ∅ 1 (10 ^ 21)
    ltac:(apply NoDup_singleton) ltac:(repeat constructor; cbn; lia) ltac:(lia) ltac:(lia)) as [Hiff _].
  destruct (proj1 Hiff H) as [(d & _ & Hn & _)|?]; [discriminate Hn|assumption].
Defined.
