(* ===== verification/RouterProfit.v ===== *)
(** * Sizing and profit

    [liq-router/src/profit.rs]: the size of a liquidation leg and the exit that pays for it,
    the flash swap that may fund it instead of a loan, reward-only quotes, and the search over
    the legs of a quote. The pool book and the exact tier are an [ExitBook]; the theorems hold
    whatever they answer. *)

From stdpp Require Import strings.
From S2P Require Import Prelude Fixed Types Halt Flash Bonus RouterFees PoolMath RouterGraph RouterBand RouterExit RouterWarm.
Local Open Scope Z_scope.

Definition LEARNING_P_RAY : Z := RAY.

Inductive ProfitError :=
| Missing (what : string)
| PRoute (e : RouteError)
| UnpriceableFee
| ArchiveUnavailable.

#[export] Instance ProfitError_eq_dec : EqDecision ProfitError.
Proof. solve_decision. Defined.

Abbreviation PfRes A := (Result ProfitError A).

(** [?] on a [RouteError] inside a function that returns [ProfitError]. *)
Definition rt {A} (r : RRes A) : PfRes A := map_err PRoute r.
Definition rmath {A} (o : option A) : PfRes A := rt (math o).

(** [trait MarketView]. *)
Record MarketView := mkMarket {
  mv_pair_terms : ProtocolId -> AssetId -> AssetId -> option PairTerms;
  mv_per_eth : AssetId -> option Z;
  mv_band : ProtocolId -> AssetId -> AssetId -> option ViabilityBand
}.

(** ** Wrap gas *)

Record WrapGas := mkWrapGas {
  wg_by_provider : list Z; wg_aave_v4 : Z; wg_aave_v4_protocol : option ProtocolId }.

Definition wrap_of (w : WrapGas) (provider : FlashProvider) (protocol : ProtocolId) : option Z :=
  if bool_decide (provider = FNone) then Some 0 else
  let g := if bool_decide (provider = FAave) && bool_decide (wg_aave_v4_protocol w = Some protocol)
           then wg_aave_v4 w
           else default 0 (wg_by_provider w !! Z.to_nat (flash_u8 provider)) in
  if g =? 0 then None else Some g.

Record SizedLeg := mkSized {
  sl_choice : LegChoice;
  sl_debt : AssetId;
  sl_coll : AssetId;
  sl_s : Z;
  sl_seized : Z;
  sl_swap_out : Z;
  sl_flash_fee : Z;
  sl_flash_owed : Z;
  sl_contribution : Z;
  sl_hop_gas : Z;
  sl_route : FlashRoute;
  sl_exit : ExitQuote;
  sl_terms : PairTerms;
  sl_rewards : list (AssetId * Z)
}.

Definition leg_is_reward_only (l : SizedLeg) : bool := match sl_rewards l with [] => false | _ => true end.

Definition min4 (a b c d : Z) : Z := Z.min (Z.min (Z.min a b) c) d.

(** [s·(1 + bonus)·coll_per_debt], with the oracle ratio required. *)
Definition leg_seized_for (s : Z) (t : PairTerms) : PfRes Z :=
  if pt_coll_per_debt t =? 0 then Err (Missing "coll_per_debt") else
  let? one_plus := rmath (checked_add 256 RAY (pt_bonus t)) in
  let? eq := rt (mul_div_512 s one_plus RAY) in
  rt (mul_div_512 eq (pt_coll_per_debt t) RAY).

Definition repay_for_seized (seized : Z) (t : PairTerms) : PfRes Z :=
  let? one_plus := rmath (checked_add 256 RAY (pt_bonus t)) in
  let? den := rt (mul_div_512 one_plus (pt_coll_per_debt t) RAY) in
  if den =? 0 then Err (Missing "coll_per_debt") else
  rt (mul_div_512 seized RAY den).

Definition available_after_haircut (e : SourceEntry) (h : Haircut) : Z := haircut_apply h (se_available e).

Definition route_depth_repay (warm : RouteTable) (coll : AssetId) (terms : PairTerms) : PfRes Z :=
  let cap := exit_cap warm coll in
  if cap =? 0 then Ok 0 else repay_for_seized cap terms.

Definition FIT_TOLERANCE : Z := 1000.

Section Profit.
Context `{B : ExitBook}.

(** ** Sizing *)

(** [try_quote] on what a solve answered for the seized amount. *)
Definition try_quote_with (solve : Z -> RRes ExitQuote) (s : Z) (terms : PairTerms) : PfRes (option ExitQuote) :=
  if s =? 0 then Ok None else
  let? seized := leg_seized_for s terms in
  if seized =? 0 then Ok None else
  match solve seized with
  | Ok q => Ok (Some q)
  | Err e => if unroutable e then Ok None else Err (PRoute e)
  end.

Definition try_quote (coll debt : AssetId) (s : Z) (terms : PairTerms) (gas : GasTerms) (budget : SolveBudget)
  : PfRes (option ExitQuote) :=
  try_quote_with (fun seized => solve_pair coll debt seized gas budget) s terms.

(** [try_quote] in a [reuse_routes] scope: the routes found so far come along. *)
Definition try_quote_reusing (coll debt : AssetId) (s : Z) (terms : PairTerms) (gas : GasTerms) (budget : SolveBudget)
  (u : Reuse) : PfRes (option ExitQuote) * Reuse :=
  if s =? 0 then (Ok None, u) else
  match leg_seized_for s terms with
  | Err e => (Err e, u)
  | Ok seized =>
      if seized =? 0 then (Ok None, u) else
      let '(r, u) := solve_reusing coll debt seized gas budget u in
      (match r with
       | Ok q => Ok (Some q)
       | Err e => if unroutable e then Ok None else Err (PRoute e)
       end, u)
  end.

(** The bisection of [fit_size]: [turns] are what is left of [0..80]. *)
Fixpoint fit_loop (probe : Z -> Reuse -> PfRes (option ExitQuote) * Reuse) (close : Z) (turns : nat) (lo hi : Z)
  (u : Reuse) : PfRes Z :=
  match turns with
  | O => Ok lo
  | S turns =>
      match checked_sub hi lo with
      | Some span =>
          if close <? span then
            let? mid := rmath (checked_add 256 lo (Z.shiftr span 1)) in
            match probe mid u with
            | (Err e, _) => Err e
            | (Ok (Some _), u) => fit_loop probe close turns mid hi u
            | (Ok None, u) => fit_loop probe close turns lo mid u
            end
          else Ok lo
      | None => Ok lo
      end
  end.

Definition fit_close (s_max : Z) : Z := Z.max (default 0 (checked_div s_max FIT_TOLERANCE)) 1.

(** [reuse_routes(|| fit_size(..))]. *)
Definition fit_size (coll debt : AssetId) (s_max : Z) (terms : PairTerms) (gas : GasTerms) (budget : SolveBudget) : PfRes Z :=
  if s_max =? 0 then Ok 0 else
  let probe s u := try_quote_reusing coll debt s terms gas budget u in
  match probe s_max reuse_new with
  | (Err e, _) => Err e
  | (Ok (Some _), _) => Ok s_max
  | (Ok None, u) => fit_loop probe (fit_close s_max) 80 0 s_max u
  end.

Definition leg_flash_fee (r : FlashRoute) (s : Z) : PfRes Z :=
  ok_or (fee_amount (fr_provider r) s (fr_fee_bps r)) UnpriceableFee.

(** ** One pair of legs *)

Record ProfitCtx := mkPctx {
  px_protocol : ProtocolId;
  px_flash : FlashIndex;
  px_haircut : Haircut;
  px_warm : option RouteTable;
  px_market : MarketView;
  px_gas : GasTerms;
  px_budget : SolveBudget;
  px_wrap : option WrapGas
}.

(** What a funding leaves after gas. *)
Definition funding_net (gas : GasTerms) (out owed hops wrap : Z) : PfRes Z :=
  let? cost := rt (cost_in_out gas (saturating_add 64 hops wrap)) in
  Ok (saturating_sub (saturating_sub out owed) cost).

Definition flash_swap_alternative (ctx : ProfitCtx) (gas : GasTerms) (coll debt : AssetId) (s : Z) (terms : PairTerms)
  (loan : FlashRoute) (loan_exit : ExitQuote) (loan_fee : Z) : PfRes (option (ExitQuote * FlashRoute)) :=
  match px_wrap ctx with
  | None => Ok None
  | Some wrap =>
      match wrap_of wrap FUniV3Swap (px_protocol ctx), wrap_of wrap (fr_provider loan) (px_protocol ctx) with
      | Some wrap_swap, Some wrap_loan =>
          let? seized := leg_seized_for s terms in
          match solve_pair_single_lender coll debt seized gas (px_budget ctx) with
          | Err (InsufficientLiquidity | StalePool | RMath) => Ok None
          | Err e => Err (PRoute e)
          | Ok single =>
              match lender_of single with
              | None => Ok None
              | Some pool =>
                  let? owed_loan := rmath (checked_add 256 s loan_fee) in
                  let? loan_net := funding_net gas (eq_amount_out loan_exit) owed_loan (eq_hop_gas loan_exit) wrap_loan in
                  let? swap_net := funding_net gas (eq_amount_out single) s (eq_hop_gas single) wrap_swap in
                  if (eq_amount_out single <=? s) || (swap_net <=? loan_net) then Ok None else
                  let? source := ok_or (xb_address pool) (Missing "lender pool") in
                  Ok (Some (single, mkRoute FUniV3Swap source debt s 0 UniV3SwapCallback))
              end
          end
      | _, _ => Ok None
      end
  end.

(** [sources.iter().map(..).max().unwrap_or_default()]. *)
Definition deepest (h : Haircut) (sources : list SourceEntry) : Z :=
  match (fun e => available_after_haircut e h) <$> sources with
  | [] => 0
  | x :: l => fold_left Z.max l x
  end.

(** The most a leg may repay: what the protocol, the flash depth, the route and the band
    admit. *)
Definition size_cap (ctx : ProfitCtx) (repay : RepayOption) (seize : SeizeOption) (terms : PairTerms)
  (band : ViabilityBand) (sources : list SourceEntry) : PfRes Z :=
  let? route_cap := match px_warm ctx with
                    | Some w => route_depth_repay w (so_asset seize) terms
                    | None => Ok (ro_max_repay repay)
                    end in
  let? seize_cap := repay_for_seized (so_max_seize seize) terms in
  Ok (min4 (Z.min (ro_max_repay repay) seize_cap) (deepest (px_haircut ctx) sources) route_cap (vb_max_size band)).

(** [terms.bonus = seize.bonus]. *)
Definition with_bonus (t : PairTerms) (bonus : Z) : PairTerms :=
  RouterBand.mkTerms bonus (pt_coll_per_debt t) (pt_flash_fee_bps t) (pt_fixed_gas t).

(** The leg once its size and exit are settled: funded by the cheapest source that covers it,
    or by a flash swap. *)
Definition fund_leg (ctx : ProfitCtx) (gas : GasTerms) (choice : LegChoice) (coll debt : AssetId) (s : Z) (terms : PairTerms)
  (exit : ExitQuote) (sources : list SourceEntry) : PfRes (option SizedLeg) :=
  match List.find (fun e => s <=? available_after_haircut e (px_haircut ctx)) sources with
  | None => Ok None
  | Some entry =>
      let loan := route entry debt s in
      let? fee := leg_flash_fee loan s in
      let? owed := rmath (checked_add 256 s fee) in
      match checked_sub (eq_amount_out exit) owed with
      | None => Ok None
      | Some contribution =>
          if contribution =? 0 then Ok None else
          let? alt := flash_swap_alternative ctx gas coll debt s terms loan exit fee in
          let? (exit, r, fee, owed, contribution) :=
            match alt with
            | Some (single, swap) =>
                let? c := rmath (checked_sub (eq_amount_out single) s) in
                Ok (single, swap, 0, s, c)
            | None => Ok (exit, loan, fee, owed, contribution)
            end in
          Ok (Some (mkSized choice debt coll s (eq_amount_in exit) (eq_amount_out exit) fee owed contribution
                (eq_hop_gas exit) r exit terms []))
      end
  end.

Definition evaluate (ctx : ProfitCtx) (q : Quote) (choice : LegChoice) (sources : list SourceEntry) : PfRes (option SizedLeg) :=
  let? repay := ok_or (q_repay_options q !! Z.to_nat (lc_repay choice)) (Missing "repay option") in
  let? seize := ok_or (q_seize_options q !! Z.to_nat (lc_seize choice)) (Missing "seize option") in
  if negb (pairs_with repay (lc_seize choice)) then Ok None else
  let coll := so_asset seize in
  let debt := ro_asset repay in
  let? terms := ok_or (mv_pair_terms (px_market ctx) (px_protocol ctx) coll debt) (Missing "pair_terms") in
  let? per := ok_or (let! p := mv_per_eth (px_market ctx) debt in if p =? 0 then None else Some p) (Missing "per_eth") in
  let leg_gas := mkGas (gt_base_fee_wei (px_gas ctx)) (gt_priority_fee_wei (px_gas ctx)) per in
  let terms := with_bonus terms (so_bonus seize) in
  match mv_band (px_market ctx) (px_protocol ctx) coll debt with
  | None => Ok None
  | Some band =>
      let? s0 := size_cap ctx repay seize terms band sources in
      let? s := fit_size coll debt s0 terms leg_gas (px_budget ctx) in
      if (s =? 0) || (s <? vb_min_size band) || (s <? ro_min_repay repay) then Ok None else
      let? quoted := try_quote coll debt s terms leg_gas (px_budget ctx) in
      match quoted with
      | None => Ok None
      | Some exit =>
          let? exit := rt (refine_exit coll debt leg_gas (px_budget ctx) exit) in
          fund_leg ctx leg_gas choice coll debt s terms exit sources
      end
  end.

(** ** Reward-only quotes *)

Definition is_reward_only (q : Quote) : bool :=
  match q_repay_options q with [] => false | l => forallb (fun r => ro_max_repay r =? 0) l end.

Record Rewards := mkRewards {
  rw_total : Z; rw_hop_gas : Z; rw_paid : list (AssetId * Z); rw_best : option (Z * Z * AssetId * Z * ExitQuote) }.

Definition reward_exit (ctx : ProfitCtx) (weth asset : AssetId) (amount : Z) : RRes ExitQuote :=
  if asset =? weth then Ok (mkExit [] amount amount 0 0 None None None)
  else solve_pair asset weth amount (px_gas ctx) (px_budget ctx).

Fixpoint reward_loop (ctx : ProfitCtx) (weth : AssetId) (si : nat) (seizes : list SeizeOption) (st : Rewards) : PfRes Rewards :=
  match seizes with
  | [] => Ok st
  | seize :: seizes =>
      match try_from_nat 8 si with
      | None => reward_loop ctx weth (S si) seizes st
      | Some si8 =>
          let amount := so_max_seize seize in
          let asset := so_asset seize in
          if amount =? 0 then reward_loop ctx weth (S si) seizes st else
          match reward_exit ctx weth asset amount with
          | Err e =>
              if unroutable e then
                reward_loop ctx weth (S si) seizes
                  (mkRewards (rw_total st) (rw_hop_gas st) (rw_paid st ++ [(asset, amount)]) (rw_best st))
              else Err (PRoute e)
          | Ok exit =>
              let? total := rmath (checked_add 256 (rw_total st) (eq_amount_out exit)) in
              let better := match rw_best st with
                            | None => true
                            | Some (b, _, _, _, _) => b <? eq_amount_out exit
                            end in
              reward_loop ctx weth (S si) seizes
                (mkRewards total (saturating_add 64 (rw_hop_gas st) (eq_hop_gas exit)) (rw_paid st ++ [(asset, amount)])
                   (if better then Some (eq_amount_out exit, Z.of_nat si8, asset, amount, exit) else rw_best st))
          end
      end
  end.

Definition reward_plan (ctx : ProfitCtx) (q : Quote) (weth : AssetId) : PfRes (option SizedLeg) :=
  match q_repay_options q with
  | [] => Ok None
  | repay :: _ =>
      let? st := reward_loop ctx weth 0 (q_seize_options q) (mkRewards 0 0 [] None) in
      match rw_best st with
      | None => Ok None
      | Some (_, si, coll, seized, exit) =>
          if rw_total st =? 0 then Ok None else
          Ok (Some (mkSized (mkLegs 0 si) (ro_asset repay) coll 0 seized (rw_total st) 0 0 (rw_total st) (rw_hop_gas st)
                (mkRoute FNone 0 (ro_asset repay) 0 0 Direct) exit (RouterBand.mkTerms 0 RAY 0 0) (rw_paid st)))
      end
  end.

(** ** The search over a quote *)

(** The contribution of a leg in wei, at its debt's price. *)
Definition contribution_wei (market : MarketView) (leg : SizedLeg) : option (RRes Z) :=
  let! per := mv_per_eth market (sl_debt leg) in
  if per =? 0 then None else Some (mul_div_512 (sl_contribution leg) OUT_PER_ETH_WETH per).

(** One combination of [best_plan]. *)
Definition try_combo (ctx : ProfitCtx) (q : Quote) (sources : list SourceEntry) (choice : LegChoice)
  (best : option (Z * SizedLeg)) : PfRes (option (Z * SizedLeg)) :=
  match evaluate ctx q choice sources with
  | Ok (Some leg) =>
      match contribution_wei (px_market ctx) leg with
      | None => Ok best
      | Some r =>
          let? wei := rt r in
          match best with
          | Some (b, _) => Ok (if b <? wei then Some (wei, leg) else best)
          | None => Ok (Some (wei, leg))
          end
      end
  | Ok None => Ok best
  | Err (Missing _ | UnpriceableFee) => Ok best
  | Err e => Err e
  end.

Fixpoint best_seize (ctx : ProfitCtx) (q : Quote) (sources : list SourceEntry) (repay : RepayOption) (ri : nat)
  (si : nat) (seizes : list SeizeOption) (best : option (Z * SizedLeg)) : PfRes (option (Z * SizedLeg)) :=
  match seizes with
  | [] => Ok best
  | _ :: seizes =>
      match try_from_nat 8 si with
      | None => best_seize ctx q sources repay ri (S si) seizes best
      | Some si8 =>
          if negb (pairs_with repay (Z.of_nat si8)) then best_seize ctx q sources repay ri (S si) seizes best else
          let? best := try_combo ctx q sources (mkLegs (Z.of_nat ri) (Z.of_nat si8)) best in
          best_seize ctx q sources repay ri (S si) seizes best
      end
  end.

Fixpoint best_repay (ctx : ProfitCtx) (q : Quote) (ri : nat) (repays : list RepayOption) (best : option (Z * SizedLeg))
  : PfRes (option (Z * SizedLeg)) :=
  match repays with
  | [] => Ok best
  | repay :: repays =>
      match try_from_nat 8 ri with
      | None => best_repay ctx q (S ri) repays best
      | Some ri8 =>
          match entries (px_flash ctx) (ro_asset repay) with
          | [] => best_repay ctx q (S ri) repays best
          | sources =>
              let? best := best_seize ctx q sources repay ri8 0 (q_seize_options q) best in
              best_repay ctx q (S ri) repays best
          end
      end
  end.

Definition best_plan (ctx : ProfitCtx) (q : Quote) : PfRes (option SizedLeg) :=
  let? best := best_repay ctx q 0 (q_repay_options q) None in
  Ok (snd <$> best).

End Profit.

(** ** Expected values *)

Definition expected_gas (p_ray gas_success gas_failed : Z) : option Z :=
  if RAY <? p_ray then None else
  let! one_m := checked_sub RAY p_ray in
  let! a := checked_mul 256 p_ray gas_success in
  let! failed_term := checked_mul 256 one_m gas_failed in
  let! sum := checked_add 256 a failed_term in
  let! eg := checked_div sum RAY in
  try_from 64 eg.

Definition expected_contrib_per_gas (contribution p_ray gas_success gas_failed : Z) : PfRes Z :=
  if RAY <? p_ray then Err (Missing "p > 1") else
  let? one_m := rmath (checked_sub RAY p_ray) in
  let? failed_term := rmath (checked_mul 256 one_m gas_failed) in
  let? sum := rmath (let! a := checked_mul 256 p_ray gas_success in checked_add 256 a failed_term) in
  let? eg := rmath (checked_div sum RAY) in
  if eg =? 0 then Err (Missing "expected_gas") else
  let? numer := rmath (let! n := checked_mul 256 p_ray contribution in checked_div n RAY) in
  ok_or (checked_div numer eg) (Missing "contrib/gas").

Definition delta_net (contribution p_ray expected_gas gas_cost_in_debt : Z) : PfRes (option Z) :=
  if RAY <? p_ray then Err (Missing "p > 1") else
  let? exp_c := rmath (let! n := checked_mul 256 p_ray contribution in checked_div n RAY) in
  let? cost := rmath (checked_mul 256 expected_gas gas_cost_in_debt) in
  Ok (checked_sub exp_c cost).

Definition gas_price_in_debt (gas : GasTerms) : PfRes Z := rt (cost_in_out gas 1).

Definition flash_with_over_borrow (s extra available : Z) : option Z :=
  let! want := checked_add 256 s extra in
  Some (Z.max (Z.min want (planable available)) (Z.min s (planable available))).

(** * Sizing ends close to the largest size that routes *)

(** Some probe of [s] answered, with a quote or without. *)
Definition probed {U} (probe : Z -> U -> PfRes (option ExitQuote) * U) (found : bool) (s : Z) : Prop :=
  exists u r u', probe s u = (Ok r, u') /\ found = match r with Some _ => true | None => false end.

Section Fit.
Context `{B : ExitBook} (probe : Z -> Reuse -> PfRes (option ExitQuote) * Reuse) (s_max close : Z).
Hypothesis (Hmax : 0 <= s_max <= umax 256) (Hclose : 1 <= close).

(** What the bisection keeps. *)
Definition bracket (lo hi : Z) : Prop :=
  0 <= lo < hi /\ hi <= s_max /\ (lo = 0 \/ probed probe true lo) /\ probed probe false hi.

Lemma fit_loop_spec : forall turns lo hi u r, bracket lo hi -> hi - lo <= close * 2 ^ Z.of_nat turns ->
  fit_loop probe close turns lo hi u = r ->
  match r with
  | Ok s => exists hi', bracket s hi' /\ hi' - s <= close
  | Err e => e = PRoute RMath \/ exists s u, 0 < s < s_max /\ fst (probe s u) = Err e
  end.
Proof.
  induction turns as [|turns IH]; intros lo hi u r Hb Hspan; cbn [fit_loop].
  { intros <-. exists hi. split; [done|]. cbn in Hspan. lia. }
  destruct Hb as (Hlo & Hhi & Hgood & Hbad).
  rewrite checked_sub_ok by lia. destruct (Z.ltb_spec close (hi - lo)) as [Hw|Hw].
  2:{ intros <-. exists hi. split; [done|lia]. }
  rewrite Z.shiftr_div_pow2, Z.pow_1_r by lia. unfold rmath, math.
  destruct (div_rem_spec (hi - lo) 2 ltac:(lia)) as [Hdm Hmod]. set (h := (hi - lo) / 2) in *.
  assert (lo < lo + h < hi) as Hm by lia.
  rewrite checked_add_ok by (clear -Hm Hhi Hmax; lia). cbn [ok_or rt map_err]. set (m := lo + h) in *.
  assert (close * 2 ^ Z.of_nat (S turns) = 2 * (close * 2 ^ Z.of_nat turns)) as Hp
    by (rewrite Nat2Z.inj_succ, Z.pow_succ_r by lia; ring).
  destruct (probe m u) as [[[x|]|e] u'] eqn:Ep.
  - apply IH; [|unfold m; lia]. split_and!; try lia; [|done]. right. by exists u, (Some x), u'.
  - apply IH; [|unfold m; lia]. split_and!; try lia; [done|]. by exists u, None, u'.
  - intros <-. right. exists m, u. split; [lia|]. by rewrite Ep.
Qed.
End Fit.

Lemma fit_close_spec s : 0 <= s -> 1 <= fit_close s /\ s <= fit_close s * 2 ^ 80 /\ fit_close s <= Z.max 1 (s / 1000).
Proof. intros Hs. unfold fit_close, FIT_TOLERANCE, checked_div. cbn. destruct (div_rem_spec s 1000 ltac:(lia)). lia. Qed.

(** Sizing answers whenever the probes do, with zero or a size that was quoted, and stops
    within a thousandth of the range of a size that was not (or at the top): eighty halvings
    are enough. *)
Lemma fit_size_is_tight `{B : ExitBook} (coll debt : AssetId) (s_max : Z) (terms : PairTerms) (gas : GasTerms)
    (budget : SolveBudget) (Hmax : 0 <= s_max <= umax 256) :
  let probe s u := try_quote_reusing coll debt s terms gas budget u in
  match fit_size coll debt s_max terms gas budget with
  | Ok s => 0 <= s <= s_max /\ (s = 0 \/ probed probe true s) /\
            (s = s_max \/ exists hi, s < hi <= s_max /\ hi - s <= Z.max 1 (s_max / 1000) /\ probed probe false hi)
  | Err e => e = PRoute RMath \/ exists s u, 0 < s <= s_max /\ fst (probe s u) = Err e
  end.
Proof.
  intros probe. unfold fit_size. destruct (Z.eqb_spec s_max 0) as [->|Hz]; [naive_solver lia|].
  fold probe. change (try_quote_reusing coll debt s_max terms gas budget reuse_new) with (probe s_max reuse_new).
  destruct (probe s_max reuse_new) as [[[x|]|e] u] eqn:Ep.
  - split; [lia|]. split; [|by left]. right. by exists reuse_new, (Some x), u.
  - destruct (fit_close_spec s_max ltac:(lia)) as (Hc & Hr & Hle).
    assert (bracket probe s_max 0 s_max) as Hb
      by (split; [lia|]; split; [lia|]; split; [by left|]; by exists reuse_new, None, u).
    assert (s_max - 0 <= fit_close s_max * 2 ^ Z.of_nat 80) as H80 by (change (2 ^ Z.of_nat 80) with (2 ^ 80); lia).
    pose proof (fit_loop_spec probe s_max (fit_close s_max) Hmax Hc 80 0 s_max u _ Hb H80 eq_refl) as H.
    destruct (fit_loop _ _ _ _ _ _) as [s|e].
    + destruct H as (hi & (Hlo & Hhi & Hg & Hbad) & Hd). split; [lia|]. split; [done|]. right. exists hi. split_and!; (lia || done).
    + destruct H as [?|(s & u' & Hs & E)]; [by left|]. right. exists s, u'. split; [lia|done].
  - right. exists s_max, reuse_new. split; [lia|]. by rewrite Ep.
Qed.

(** * Legs *)

Lemma rt_Ok {A} (r : RRes A) a : rt r = Ok a <-> r = Ok a.
Proof. unfold rt, map_err. destruct r; naive_solver. Qed.
Lemma rmath_Ok {A} (o : option A) a : rmath o = Ok a <-> o = Some a.
Proof. unfold rmath, math. by rewrite rt_Ok, ok_or_Ok. Qed.

(** How a leg of size [s] is paid for: by a loan of [e], or by the pool its exit sells
    through, when that leaves more after gas than the loan would. *)
Inductive leg_funded `{ExitBook} (ctx : ProfitCtx) (gas : GasTerms) (e : SourceEntry) (loan_exit : ExitQuote) (loan_fee : Z) (leg : SizedLeg) : Prop :=
| by_loan : sl_route leg = route e (sl_debt leg) (sl_s leg) -> sl_exit leg = loan_exit ->
    sl_flash_fee leg = loan_fee -> sl_flash_owed leg = sl_s leg + loan_fee ->
    leg_funded ctx gas e loan_exit loan_fee leg
| by_flash_swap pool source seized w ws wl nl ns :
    px_wrap ctx = Some w -> wrap_of w FUniV3Swap (px_protocol ctx) = Some ws ->
    wrap_of w (se_provider e) (px_protocol ctx) = Some wl ->
    leg_seized_for (sl_s leg) (sl_terms leg) = Ok seized ->
    solve_pair_single_lender (sl_coll leg) (sl_debt leg) seized gas (px_budget ctx) = Ok (sl_exit leg) ->
    lender_of (sl_exit leg) = Some pool -> xb_address pool = Some source ->
    sl_route leg = mkRoute FUniV3Swap source (sl_debt leg) (sl_s leg) 0 UniV3SwapCallback ->
    sl_flash_fee leg = 0 -> sl_flash_owed leg = sl_s leg ->
    funding_net gas (eq_amount_out loan_exit) (sl_s leg + loan_fee) (eq_hop_gas loan_exit) wl = Ok nl ->
    funding_net gas (sl_swap_out leg) (sl_flash_owed leg) (sl_hop_gas leg) ws = Ok ns ->
    nl < ns ->
    leg_funded ctx gas e loan_exit loan_fee leg.

(** The first source, cheapest first, that covers [s]. *)
Definition first_covering (h : Haircut) (sources : list SourceEntry) (s : Z) (e : SourceEntry) : Prop :=
  exists before after, sources = before ++ e :: after /\ s <= available_after_haircut e h /\
    Forall (fun e' => available_after_haircut e' h < s) before.

Lemma find_first {A} (f : A -> bool) l x : List.find f l = Some x ->
  exists before after, l = before ++ x :: after /\ f x = true /\ Forall (fun y => f y = false) before.
Proof.
  induction l as [|y l IH]; cbn; [done|]. destruct (f y) eqn:Ef.
  - intros [= <-]. by exists [], l.
  - intros (b & a & -> & ? & ?)%IH. exists (y :: b), a. split; [done|]. split; [done|]. by constructor.
Qed.

Lemma fund_leg_spec `{B : ExitBook} ctx gas choice coll debt s terms exit sources leg :
  fund_leg ctx gas choice coll debt s terms exit sources = Ok (Some leg) ->
  sl_choice leg = choice /\ sl_debt leg = debt /\ sl_coll leg = coll /\ sl_s leg = s /\ sl_terms leg = terms /\
  sl_swap_out leg = eq_amount_out (sl_exit leg) /\ sl_seized leg = eq_amount_in (sl_exit leg) /\
  sl_hop_gas leg = eq_hop_gas (sl_exit leg) /\ sl_rewards leg = [] /\
  0 < sl_contribution leg /\ sl_contribution leg = sl_swap_out leg - sl_flash_owed leg /\
  exists e fee, first_covering (px_haircut ctx) sources s e /\
    fee_amount (se_provider e) s (se_fee_bps e) = Some fee /\ leg_funded ctx gas e exit fee leg.
Proof.
  unfold fund_leg. destruct (List.find _ _) as [e|] eqn:Ef; [|done].
  apply find_first in Ef as (bf & af & Es & Hs%Z.leb_le & Hbf). cbv zeta. intros H.
  apply bind_Ok in H as (fee & Hfee%ok_or_Ok & H). apply bind_Ok in H as (owed & Ho & H).
  apply rmath_Ok, checked_add_Some in Ho as [-> _].
  destruct (checked_sub _ _) as [c|] eqn:Ec; [|done]. apply checked_sub_Some in Ec as [-> Hle].
  destruct (Z.eqb_spec (eq_amount_out exit - (s + fee)) 0) as [|Hc]; [done|].
  apply bind_Ok in H as (alt & Halt & H). apply bind_Ok in H as ([[[[ex r] fe] ow] c] & Hr & [= <-]).
  assert (first_covering (px_haircut ctx) sources s e) as Hfirst.
  { exists bf, af. split; [done|]. split; [done|]. eapply Forall_impl; [exact Hbf|]. cbn. intros e' ?%Z.leb_gt. lia. }
  cbn [sl_choice sl_debt sl_coll sl_s sl_terms sl_swap_out sl_exit sl_seized sl_hop_gas sl_rewards sl_contribution sl_flash_owed].
  do 9 (split; [done|]). destruct alt as [[single swap]|].
  2:{ injection Hr as <- <- <- <- <-. split; [lia|]. split; [done|]. exists e, fee. do 2 (split; [done|]). by apply by_loan. }
  apply bind_Ok in Hr as (c' & [-> Hcs]%rmath_Ok%checked_sub_Some & [= <- <- <- <- <-]).
  unfold flash_swap_alternative in Halt. destruct (px_wrap ctx) as [w|] eqn:Ew; [|done].
  destruct (wrap_of w FUniV3Swap _) as [ws|] eqn:Ews; [|done]. destruct (wrap_of w (fr_provider _) _) as [wl|] eqn:Ewl; [|done].
  apply bind_Ok in Halt as (seized & Hsz & Halt).
  destruct (solve_pair_single_lender _ _ _ _ _) as [sg|[]] eqn:Esl; try done.
  destruct (lender_of sg) as [pool|] eqn:El; [|done].
  apply bind_Ok in Halt as (ol & Hol & Halt). apply rmath_Ok, checked_add_Some in Hol as [-> _].
  apply bind_Ok in Halt as (nl & Hnl & Halt). apply bind_Ok in Halt as (ns & Hns & Halt).
  destruct (_ || _) eqn:Eor; [done|]. zbool. apply bind_Ok in Halt as (src & Hsrc%ok_or_Ok & [= <- <-]).
  split; [lia|]. split; [done|]. exists e, fee. do 2 (split; [done|]).
  by eapply (by_flash_swap _ _ _ _ _ _ pool src seized w ws wl nl ns).
Qed.

(** What a repay of [s] seizes at the terms of a pair: the repaid debt with its bonus, at the
    oracle's price, each step rounded down. *)
Definition seized_at (s : Z) (t : PairTerms) : Z :=
  s * (RAY + pt_bonus t) / RAY * pt_coll_per_debt t / RAY.

(** A repay within [repay_for_seized] of an amount seizes no more than that amount, but for
    what the price lost in truncation: less than one unit per [RAY] of the repay. *)
Lemma seized_within s m t cap :
  0 < s -> 0 <= pt_coll_per_debt t -> repay_for_seized m t = Ok cap -> s <= cap ->
  seized_at s t <= m + (s - 1) / RAY.
Proof.
  intros Hs Hc H Hle. unfold repay_for_seized in H.
  apply bind_Ok in H as (o & [-> _]%rmath_Ok%checked_add_Some & H).
  apply bind_Ok in H as (den & (_ & Hd & [Hd0 _])%rt_Ok%mul_div_512_Ok & H).
  destruct (Z.eqb_spec den 0); [done|]. apply rt_Ok, mul_div_512_Ok in H as (_ & Hcap & _).
  unfold seized_at. set (P := RAY + pt_bonus t) in *. set (c := pt_coll_per_debt t) in *.
  assert (0 < RAY) as HR by done. generalize RAY, HR, Hd, Hcap. clear HR Hd Hcap. intros R HR Hd Hcap.
  pose proof (Z.mul_div_le (s * P) R HR). pose proof (Z.mul_div_le (s * P / R * c) R HR).
  pose proof (Z.mul_succ_div_gt (P * c) R HR) as Hp. rewrite <- Hd in Hp.
  pose proof (Z.mul_div_le (m * R) den ltac:(lia)) as Hm. rewrite <- Hcap in Hm.
  set (q := s * P / R) in *. set (x := q * c / R) in *.
  assert (R * q * c <= s * P * c) by (by apply Z.mul_le_mono_nonneg_r).
  assert (den * s <= m * R) by nia. assert (s * (P * c) < s * (R * Z.succ den)) by (by apply Z.mul_lt_mono_pos_l).
  assert (R * (R * x) < R * (m * R + s)) by nia. assert (R * x < m * R + s) as Hx by nia.
  enough (x - m <= (s - 1) / R) by lia. apply Z.div_le_lower_bound; [done|]. nia.
Qed.

(** What sizing promises of a leg: within every ceiling and above both floors. *)
Record leg_within `{ExitBook} (ctx : ProfitCtx) (repay : RepayOption) (seize : SeizeOption) (band : ViabilityBand)
    (sources : list SourceEntry) (leg : SizedLeg) : Prop := {
  lw_repay : 0 < sl_s leg <= ro_max_repay repay;
  lw_min : ro_min_repay repay <= sl_s leg;
  lw_band : vb_min_size band <= sl_s leg <= vb_max_size band;
  lw_flash : sl_s leg <= deepest (px_haircut ctx) sources;
  lw_seize : seized_at (sl_s leg) (sl_terms leg) <= so_max_seize seize + (sl_s leg - 1) / RAY;
  lw_route : forall w, px_warm ctx = Some w ->
    seized_at (sl_s leg) (sl_terms leg) <= exit_cap w (so_asset seize) + (sl_s leg - 1) / RAY
}.

(** The inputs are what the types of the source hold. *)
Definition leg_inputs_ok (ctx : ProfitCtx) (q : Quote) (sources : list SourceEntry) : Prop :=
  Forall (fun r => uint_ok 256 (ro_max_repay r)) (q_repay_options q) /\
  haircut_ok (px_haircut ctx) /\ Forall (fun e => uint_ok 256 (se_available e)) sources /\
  (forall p c d t, mv_pair_terms (px_market ctx) p c d = Some t -> 0 <= pt_coll_per_debt t) /\
  forall p c d b, mv_band (px_market ctx) p c d = Some b -> 0 <= vb_max_size b.

Lemma repay_for_seized_range x t r : repay_for_seized x t = Ok r -> uint_ok 256 r.
Proof.
  unfold repay_for_seized. intros H. apply bind_Ok in H as (o & _ & H). apply bind_Ok in H as (d & _ & H).
  destruct (d =? 0); [done|]. by apply rt_Ok, mul_div_512_Ok in H as (_ & _ & ?).
Qed.

Lemma fold_max_ge l : forall x, x <= fold_left Z.max l x.
Proof. induction l as [|y l IH]; intros x; cbn; [lia|]. specialize (IH (Z.max x y)). lia. Qed.

Lemma deepest_nonneg h sources : haircut_ok h -> Forall (fun e => uint_ok 256 (se_available e)) sources ->
  0 <= deepest h sources.
Proof.
  intros Hh Hs. unfold deepest. destruct Hs as [|e l [He He'] _]; cbn [fmap list_fmap]; [done|].
  etransitivity; [|apply fold_max_ge]. unfold available_after_haircut. rewrite haircut_apply_eq by done.
  apply Z.div_pos; [|done]. destruct Hh. nia.
Qed.

(** C17. A leg that [evaluate] returns is one of the quote's paired options. Its size is positive,
    at least the option's minimum and the band's, and at most the option's maximal repay, the
    deepest source after the haircut and the band's. What it seizes at the pair's terms is at
    most the seize option's maximum and, with a warm table, the exit cap of the collateral,
    each up to less than one unit per 10^27 units repaid: the code truncates the price before
    it turns a ceiling of collateral into one of debt, so only repays beyond that size can
    overshoot it ([seize_cap_overshoots] is one). The exact tier quoted its exit at its size;
    it is funded by the first source that covers it, or by a flash swap that nets more after
    gas; and what the exit pays exceeds what the funding is owed by the contribution it is
    ranked on. *)
Theorem evaluated_leg_is_sound `{B : ExitBook} (ctx : ProfitCtx) (q : Quote) (choice : LegChoice)
    (sources : list SourceEntry) (leg : SizedLeg)
    (Hin : leg_inputs_ok ctx q sources) (Hleg : evaluate ctx q choice sources = Ok (Some leg)) :
  exists repay seize terms band per,
    q_repay_options q !! Z.to_nat (lc_repay choice) = Some repay /\
    q_seize_options q !! Z.to_nat (lc_seize choice) = Some seize /\
    pairs_with repay (lc_seize choice) = true /\
    mv_pair_terms (px_market ctx) (px_protocol ctx) (so_asset seize) (ro_asset repay) = Some terms /\
    mv_band (px_market ctx) (px_protocol ctx) (so_asset seize) (ro_asset repay) = Some band /\
    mv_per_eth (px_market ctx) (ro_asset repay) = Some per /\
    sl_choice leg = choice /\ sl_debt leg = ro_asset repay /\ sl_coll leg = so_asset seize /\
    sl_terms leg = with_bonus terms (so_bonus seize) /\
    leg_within ctx repay seize band sources leg /\
    0 < sl_contribution leg /\ sl_contribution leg = sl_swap_out leg - sl_flash_owed leg /\
    sl_swap_out leg = eq_amount_out (sl_exit leg) /\
    let gas := mkGas (gt_base_fee_wei (px_gas ctx)) (gt_priority_fee_wei (px_gas ctx)) per in
    exists quoted exit e fee,
      try_quote (sl_coll leg) (sl_debt leg) (sl_s leg) (sl_terms leg) gas (px_budget ctx) = Ok (Some quoted) /\
      refine_exit (sl_coll leg) (sl_debt leg) gas (px_budget ctx) quoted = Ok exit /\
      first_covering (px_haircut ctx) sources (sl_s leg) e /\
      fee_amount (se_provider e) (sl_s leg) (se_fee_bps e) = Some fee /\
      leg_funded ctx gas e exit fee leg.
Proof.
  destruct Hin as (Hrep & Hhc & Hsrc & Hterms & Hband). unfold evaluate in Hleg.
  apply bind_Ok in Hleg as (repay & Er%ok_or_Ok & H). apply bind_Ok in H as (seize & Es%ok_or_Ok & H).
  destruct (pairs_with repay (lc_seize choice)) eqn:Ep; [|done]. cbn [negb] in H.
  apply bind_Ok in H as (terms & Et%ok_or_Ok & H). apply bind_Ok in H as (per & Eper%ok_or_Ok & H).
  destruct (mv_per_eth _ _) as [per'|] eqn:Epe; [|done]. destruct (per' =? 0) eqn:Ez; [done|]. injection Eper as ->.
  destruct (mv_band _ _ _ _) as [band|] eqn:Eb; [|done].
  apply bind_Ok in H as (s0 & Hs0 & H). apply bind_Ok in H as (s & Hs & H).
  destruct (_ || _ || _) eqn:Eor; [done|]. zbool. apply bind_Ok in H as (quoted & Hq & H).
  destruct quoted as [quoted|]; [|done]. apply bind_Ok in H as (exit & Hex%rt_Ok & H).
  apply fund_leg_spec in H as (Hch & Hd & Hc & Hss & Htm & Hso & _ & _ & _ & Hpos & Hcon & e & fee & Hf & Hfee & Hfund).
  unfold size_cap in Hs0. apply bind_Ok in Hs0 as (rc & Hrc & Hs0). apply bind_Ok in Hs0 as (sc & Hsc & [= <-]).
  assert (uint_ok 256 (ro_max_repay repay)) as [Hr0 Hr1].
  { rewrite Forall_forall in Hrep. apply Hrep. by eapply list_elem_of_lookup_2. }
  assert (0 <= rc) as Hrc0.
  { destruct (px_warm ctx); [|injection Hrc as <-; done]. unfold route_depth_repay in Hrc.
    destruct (_ =? 0); [by injection Hrc as <-|by apply repay_for_seized_range in Hrc as []]. }
  pose proof (repay_for_seized_range _ _ _ Hsc) as [Hsc0 _]. pose proof (Hband _ _ _ _ Eb) as Hb0.
  pose proof (deepest_nonneg _ _ Hhc Hsrc) as Hdp.
  pose proof (fit_size_is_tight (so_asset seize) (ro_asset repay) (min4 (Z.min (ro_max_repay repay) sc)
    (deepest (px_haircut ctx) sources) rc (vb_max_size band)) (with_bonus terms (so_bonus seize))
    (mkGas (gt_base_fee_wei (px_gas ctx)) (gt_priority_fee_wei (px_gas ctx)) per) (px_budget ctx)
    ltac:(unfold min4; lia)) as Hfit. cbv zeta in Hfit. rewrite Hs in Hfit. destruct Hfit as (Hfit & _ & _).
  exists repay, seize, terms, band, per. do 9 (split; [done|]). split; [done|]. split.
  { rewrite <- Hss in *. unfold min4 in Hfit. pose proof (Hterms _ _ _ _ Et) as Hct.
    constructor; try lia; rewrite Htm.
    - eapply seized_within; [lia|exact Hct|exact Hsc|lia].
    - intros w Ew. rewrite Ew in Hrc. unfold route_depth_repay in Hrc. destruct (_ =? 0); [injection Hrc as <-; lia|].
      eapply seized_within; [lia|exact Hct|exact Hrc|lia]. }
  do 3 (split; [done|]). exists quoted, exit, e, fee. rewrite Hd, Hc, Hss, Htm. done.
Qed.

(** * The best leg of a quote *)

Section Best.
Context `{B : ExitBook} (ctx : ProfitCtx) (q : Quote).

(** The combinations [best_plan] tries, in its order: the first 256 repay options that have a
    source, each with the first 256 seize options it pairs with. *)
Definition combos_of (ri : nat) (repay : RepayOption) (sis : list nat) : list LegChoice :=
  mkLegs (Z.of_nat ri) <$> (Z.of_nat <$> List.filter (fun si => (si <=? 255)%nat && pairs_with repay (Z.of_nat si)) sis).

Fixpoint combos_from (ri : nat) (repays : list RepayOption) : list (LegChoice * list SourceEntry) :=
  match repays with
  | [] => []
  | repay :: repays =>
      (if (ri <=? 255)%nat then
         match entries (px_flash ctx) (ro_asset repay) with
         | [] => []
         | sources => (fun c => (c, sources)) <$> combos_of ri repay (seq 0 (length (q_seize_options q)))
         end
       else []) ++ combos_from (S ri) repays
  end.

Definition combos : list (LegChoice * list SourceEntry) := combos_from 0 (q_repay_options q).

(** The leg of a combination and what it contributes, in wei. *)
Definition scored (c : LegChoice * list SourceEntry) : option (Z * SizedLeg) :=
  match evaluate ctx q (fst c) (snd c) with
  | Ok (Some leg) =>
      match contribution_wei (px_market ctx) leg with
      | Some (Ok w) => Some (w, leg)
      | _ => None
      end
  | _ => None
  end.

Definition keep_best (best : option (Z * SizedLeg)) (c : option (Z * SizedLeg)) : option (Z * SizedLeg) :=
  match c, best with
  | Some (w, leg), Some (b, _) => if b <? w then c else best
  | Some _, None => c
  | None, _ => best
  end.

Lemma try_combo_Ok c best r : try_combo ctx q (snd c) (fst c) best = Ok r -> r = keep_best best (scored c).
Proof.
  unfold try_combo, scored. destruct (evaluate ctx q (fst c) (snd c)) as [[leg|]|[]]; try done; try (by intros [= <-]).
  destruct (contribution_wei _ _) as [[w|]|]; cbn [rt map_err]; try done; try (by intros [= <-]).
  destruct best as [[b l]|]; cbn; intros [= <-]; by try destruct (b <? w).
Qed.

Lemma try_from_nat_8 n : try_from_nat 8 n = if (n <=? 255)%nat then Some n else None.
Proof. unfold try_from_nat. destruct (Z.leb_spec (Z.of_nat n) (umax 8)), (Nat.leb_spec n 255); unfold umax in *; (done || lia). Qed.

Lemma best_seize_Ok sources repay ri : forall seizes si best r,
  best_seize ctx q sources repay ri si seizes best = Ok r ->
  r = fold_left (fun b c => keep_best b (scored (c, sources))) (combos_of ri repay (seq si (length seizes))) best.
Proof.
  unfold combos_of. induction seizes as [|s seizes IH]; intros si best r; cbn [best_seize length seq].
  { by intros [= <-]. }
  rewrite try_from_nat_8. cbn [List.filter]. destruct (si <=? 255)%nat; cbn [andb]; [|apply IH].
  destruct (pairs_with repay (Z.of_nat si)); cbn [negb]; [|apply IH].
  intros H. apply bind_Ok in H as (b & Hb & H). apply (try_combo_Ok (_, sources)) in Hb as ->. by apply IH in H.
Qed.

Lemma best_repay_Ok : forall repays ri best r, best_repay ctx q ri repays best = Ok r ->
  r = fold_left (fun b c => keep_best b (scored c)) (combos_from ri repays) best.
Proof.
  induction repays as [|repay repays IH]; intros ri best r; cbn [best_repay combos_from]; [by intros [= <-]|].
  rewrite try_from_nat_8. destruct (ri <=? 255)%nat; [|apply IH].
  destruct (entries (px_flash ctx) (ro_asset repay)) as [|e es]; [apply IH|].
  intros H. apply bind_Ok in H as (b & ->%best_seize_Ok & H). apply IH in H as ->.
  rewrite fold_left_app. f_equal. generalize (combos_of ri repay (seq 0 (length (q_seize_options q)))) as l.
  intros l. revert best. induction l as [|c l IHl]; intros best; cbn [fold_left fmap list_fmap]; [done|apply IHl].
Qed.

(** Folding [keep_best] leaves the first of the greatest. *)
Lemma keep_best_fold l : forall best,
  match fold_left (fun b c => keep_best b (scored c)) l best with
  | None => best = None /\ Forall (fun c => scored c = None) l
  | Some (w, leg) =>
      (best = Some (w, leg) /\ Forall (fun c => forall w' leg', scored c = Some (w', leg') -> w' <= w) l) \/
      ((forall b x, best = Some (b, x) -> b < w) /\
       exists before c after, l = before ++ c :: after /\ scored c = Some (w, leg) /\
         Forall (fun c => forall w' leg', scored c = Some (w', leg') -> w' < w) before /\
         Forall (fun c => forall w' leg', scored c = Some (w', leg') -> w' <= w) after)
  end.
Proof.
  induction l as [|c l IH]; intros best; cbn [fold_left].
  { destruct best as [[w leg]|]; [left|]; split; by try constructor. }
  specialize (IH (keep_best best (scored c))).
  destruct (fold_left _ l _) as [[w leg]|].
  - destruct IH as [[Hb Hl]|(Hlt & bf & c' & af & -> & Hc & Hbf & Haf)].
    + unfold keep_best in Hb. destruct (scored c) as [[w' l']|] eqn:Ec.
      2:{ left. split; [done|]. constructor; [|done]. by rewrite Ec. }
      destruct best as [[b x]|]; [destruct (Z.ltb_spec b w')|]; injection Hb as -> ->.
      * right. split; [by intros ? ? [= <- <-]|]. by exists [], c, l.
      * left. split; [done|]. constructor; [|done]. rewrite Ec. by intros ? ? [= <- <-].
      * right. split; [done|]. by exists [], c, l.
    + right. split.
      * intros b x ->. unfold keep_best in Hlt. destruct (scored c) as [[w' l']|]; [destruct (Z.ltb_spec b w')|];
          specialize (Hlt _ _ eq_refl); lia.
      * exists (c :: bf), c', af. split_and!; try done. constructor; [|done]. intros w' l' Es. rewrite Es in Hlt.
        unfold keep_best in Hlt. destruct best as [[b x]|]; [destruct (Z.ltb_spec b w')|]; specialize (Hlt _ _ eq_refl); lia.
  - destruct IH as [Hb Hl]. unfold keep_best in Hb.
    destruct (scored c) as [[w' l']|] eqn:Ec; [by destruct best as [[b x]|]; [destruct (b <? w')|]|].
    split; [done|]. by constructor.
Qed.
End Best.

(** C16. [best_plan] returns the leg that contributes most, in wei, over every combination of a
    repay option that has a source and a seize option it pairs with (of the first 256 of each,
    the reach of an option index); among equals the first in the quote's order; and none only when no combination evaluates to a priced leg. *)
Theorem best_plan_is_best `{B : ExitBook} (ctx : ProfitCtx) (q : Quote) (r : option SizedLeg)
    (Hr : best_plan ctx q = Ok r) :
  match r with
  | None => Forall (fun c => scored ctx q c = None) (combos ctx q)
  | Some leg => exists before c after w, combos ctx q = before ++ c :: after /\ scored ctx q c = Some (w, leg) /\
      Forall (fun c' => forall w' leg', scored ctx q c' = Some (w', leg') -> w' < w) before /\
      Forall (fun c' => forall w' leg', scored ctx q c' = Some (w', leg') -> w' <= w) after
  end.
Proof.
  unfold best_plan in Hr. apply bind_Ok in Hr as (best & Hb%best_repay_Ok & [= <-]). fold (combos ctx q) in Hb.
  pose proof (keep_best_fold ctx q (combos ctx q) None) as H. rewrite <- Hb in H. clear Hb.
  destruct best as [[w leg]|]; cbn [fmap option_fmap option_map snd].
  - destruct H as [[? _]|(_ & bf & c & af & H)]; [done|]. by exists bf, c, af, w.
  - by destruct H.
Qed.

(** * The seize ceiling *)

(** The collateral a capped repay asks for passes the cap by at most the cap over the
    truncated price of one unit of debt, so not at all below that price. *)
Lemma seize_cap_bound t x s z : 0 <= x -> 0 <= pt_bonus t -> 0 <= pt_coll_per_debt t ->
  repay_for_seized x t = Ok s -> leg_seized_for s t = Ok z ->
  let den := (RAY + pt_bonus t) * pt_coll_per_debt t / RAY in z <= x + x / den /\ (x < den -> z <= x).
Proof.
  intros Hx Hb Hc Hs Hz den. unfold repay_for_seized in Hs.
  apply bind_Ok in Hs as (o & [-> _]%rmath_Ok%checked_add_Some & Hs).
  apply bind_Ok in Hs as (d & (_ & -> & _)%rt_Ok%mul_div_512_Ok & Hs). fold den in Hs.
  destruct (Z.eqb_spec den 0) as [|Hd]; [done|]. apply rt_Ok, mul_div_512_Ok in Hs as (_ & -> & _).
  unfold leg_seized_for in Hz. destruct (_ =? 0); [done|].
  apply bind_Ok in Hz as (o & [-> _]%rmath_Ok%checked_add_Some & Hz).
  apply bind_Ok in Hz as (e & (_ & -> & _)%rt_Ok%mul_div_512_Ok & Hz). apply rt_Ok, mul_div_512_Ok in Hz as (_ & -> & _).
  set (o := RAY + pt_bonus t) in *. set (c := pt_coll_per_debt t) in *.
  assert (0 < RAY) as HR by done. assert (0 <= o) as Ho by (unfold o; lia).
  assert (0 < den) as Hdp by (pose proof (Z.div_pos (o * c) RAY ltac:(nia) HR); fold den in H; lia).
  set (s := x * RAY / den).
  assert (s * den <= x * RAY) as H1 by (rewrite Z.mul_comm; apply Z.mul_div_le; lia).
  assert (o * c < (den + 1) * RAY) as H2.
  { pose proof (Z.mul_succ_div_gt (o * c) RAY HR). fold den in H. lia. }
  assert (0 <= s) as Hs by (apply Z.div_pos; nia).
  set (e := s * o / RAY). assert (e * RAY <= s * o) as H3 by (rewrite Z.mul_comm; apply Z.mul_div_le; lia).
  set (z := e * c / RAY). assert (z * RAY <= e * c) as H4 by (rewrite Z.mul_comm; apply Z.mul_div_le; lia).
  assert (0 <= e) as He by (apply Z.div_pos; nia).
  (* z·RAY² ≤ s·o·c, so z·RAY²·den ≤ s·den·o·c ≤ x·RAY·(den+1)·RAY *)
  assert (z * den <= x * (den + 1)) as Hfin.
  { assert (z * RAY * RAY <= s * (o * c)) as H5 by nia.
    assert (s * (o * c) <= s * ((den + 1) * RAY)) as H6 by (apply Z.mul_le_mono_nonneg_l; lia).
    assert (z * RAY <= s * (den + 1)) as H7 by nia.
    assert (s * den * (den + 1) <= x * RAY * (den + 1)) as H8 by (apply Z.mul_le_mono_nonneg_r; lia).
    assert (z * RAY * den <= s * (den + 1) * den) as H9 by (apply Z.mul_le_mono_nonneg_r; lia). nia. }
  split; [|intros; nia].
  pose proof (Z.div_mod x den Hd). pose proof (Z.mod_pos_bound x den Hdp). nia.
Qed.

Definition sample_terms : PairTerms := RouterBand.mkTerms 0 10000001 0 0.
Definition sample_market : MarketView := mkMarket (fun _ _ _ => Some sample_terms) (fun _ => Some (10 ^ 18))
  (fun _ _ _ => Some (mkVBand 1 (10 ^ 33) 0 0)).
Definition sample_index : FlashIndex :=
  mkIndex [[]; []; [mkEntry (10 ^ 31) 9 0 0 FMorpho MorphoFlashCallback]] [0; 0; 10 ^ 31].
Definition sample_ctx : ProfitCtx :=
  mkPctx 1 sample_index HAIRCUT_NONE None sample_market (mkGas 1 1 (10 ^ 18)) SOLVE_BUDGET_DEFAULT None.
(** A hundred coins of eight decimals against a debt token of eighteen, ten orders of magnitude
    cheaper. *)
Definition sample_quote : Quote := mkQuote 0 (mkKey 1 0 5)
  [mkRepay 2 (10 ^ 32) 0 None ByAsset] [mkSeize 1 (10 ^ 10) (RAY / 20) (Static (RAY / 20)) 8 ByAsset].
Definition deep_book : ExitBook := pair_book (mkV2 (10 ^ 13) (10 ^ 33) 0).

(** The position's collateral is not the ceiling it is documented to be: the repay cap is
    computed from a truncated price, so a leg can be sized to seize more than the seize
    option holds. *)
Theorem seize_cap_overshoots :
  exists leg seize, @evaluate deep_book sample_ctx sample_quote (mkLegs 0 0) (entries sample_index 2) = Ok (Some leg) /\
    q_seize_options sample_quote !! 0%nat = Some seize /\ so_max_seize seize < sl_seized leg.
Proof.
  destruct (@evaluate deep_book sample_ctx sample_quote (mkLegs 0 0) (entries sample_index 2)) as [[leg|]|] eqn:E;
    [|vm_compute in E; discriminate E|vm_compute in E; discriminate E].
  exists leg, (mkSeize 1 (10 ^ 10) (RAY / 20) (Static (RAY / 20)) 8 ByAsset). split; [done|]. split; [done|].
  vm_compute in E. injection E as <-. done.
Qed.

(** The leg of the sample quote is the best of its combinations, and sound. *)
Lemma best_plan_is_best_witness :
  exists leg w, @best_plan deep_book sample_ctx sample_quote = Ok (Some leg) /\
    @scored deep_book sample_ctx sample_quote (mkLegs 0 0, entries sample_index 2) = Some (w, leg) /\ sl_s leg = 952380861678013173522554902613.
Proof.
  destruct (@best_plan deep_book sample_ctx sample_quote) as [[leg|]|] eqn:E;
    [|vm_compute in E; discriminate E|vm_compute in E; discriminate E].
  destruct (@best_plan_is_best deep_book sample_ctx sample_quote _ E) as (bf & c & af & w & Hc & Hs & _).
  exists leg, w. split; [reflexivity|].
  assert (combos sample_ctx sample_quote = [(mkLegs 0 0, entries sample_index 2)]) as Ec by (vm_compute; reflexivity).
  rewrite Ec in Hc. destruct bf as [|? [|? ?]]; [|discriminate Hc|discriminate Hc]. injection Hc as <- _.
  split; [exact Hs|]. vm_compute in E. injection E as <-. reflexivity.
Defined.

Lemma evaluated_leg_is_sound_witness :
  exists leg, @evaluate deep_book sample_ctx sample_quote (mkLegs 0 0) (entries sample_index 2) = Ok (Some leg) /\
    seized_at (sl_s leg) (sl_terms leg) <= 10 ^ 10 + (sl_s leg - 1) / RAY /\
    0 < sl_contribution leg /\ sl_contribution leg = sl_swap_out leg - sl_flash_owed leg.
Proof.
  destruct (@evaluate deep_book sample_ctx sample_quote (mkLegs 0 0) (entries sample_index 2)) as [[leg|]|] eqn:E;
    [|vm_compute in E; discriminate E|vm_compute in E; discriminate E].
  exists leg. split; [reflexivity|].
  assert (leg_inputs_ok sample_ctx sample_quote (entries sample_index 2)) as Hin.
  { split; [|split; [|split; [|split]]].
    - repeat constructor; vm_compute; congruence.
    - split; vm_compute; congruence.
    - repeat constructor; vm_compute; congruence.
    - intros p c d t Ht. injection Ht as <-. vm_compute. congruence.
    - intros p c d b Hb. injection Hb as <-. vm_compute. congruence. }
  destruct (@evaluated_leg_is_sound deep_book sample_ctx sample_quote _ _ leg Hin E)
    as (? & sz & ? & ? & ? & _ & Hsz & _ & _ & _ & _ & _ & _ & _ & _ & Hw & Hp & Hc & _).
  injection Hsz as <-. split; [exact (@lw_seize _ _ _ _ _ _ _ Hw)|]. split; [exact Hp|exact Hc].
Defined.
