(* ===== verification/RouterSelect.v ===== *)
(** * Selection

    [liq-router/src/select.rs]: the gate, the two-stage ranking, and the packing of legs into
    plans with the cascade that funds each debt. *)

From stdpp Require Import strings.
From S2P Require Import Prelude Fixed Types Halt Flash Bonus Candidate Wire RouterFees PoolMath RouterGraph RouterBand RouterExit RouterWarm RouterProfit.
Local Open Scope Z_scope.

Inductive SelectError :=
| SProfit (e : ProfitError)
| MissingGasLimit
| NoNonceSlots
| ZeroExactK
| ZeroWrapGas
| ZeroFailedGas
| BadP
| UnmeasuredLiqGas (p : ProtocolId).

Abbreviation SRes A := (Result SelectError A).

(** [?] on a [ProfitError], and on a [RouteError] through it. *)
Definition pf {A} (r : PfRes A) : SRes A := map_err SProfit r.

(** ** Measured gas *)

Definition LIQ_GAS_N : nat := 64.
Abbreviation LiqGas := (list Z) (only parsing).

Definition liq_gas_none : LiqGas := replicate LIQ_GAS_N 0.
Definition liq_gas_uniform (gas : Z) : LiqGas := replicate LIQ_GAS_N gas.
Definition liq_gas_set (l : LiqGas) (protocol : ProtocolId) (gas : Z) : LiqGas * bool :=
  match vec_set l (Z.to_nat protocol) gas with Some l' => (l', true) | None => (l, false) end.
Definition liq_gas_get (l : LiqGas) (protocol : ProtocolId) : SRes Z :=
  match l !! Z.to_nat protocol with
  | Some g => if g =? 0 then Err (UnmeasuredLiqGas protocol) else Ok g
  | None => Err (UnmeasuredLiqGas protocol)
  end.

(** ** The gate *)

Record PositionInput := mkPInput {
  pi_position : PositionId;
  pi_protocol : ProtocolId;
  pi_health : Health;
  pi_quote : Quote;
  pi_cause : TriggerKind;
  pi_p : Z;
  pi_gas_success : option Z;
  pi_gas_failed : Z
}.

Record Eligible := mkEligible { el_pos : PositionInput }.

Definition is_liquidatable (h : Health) : bool :=
  match h_state h with HLiquidatable => h_hf h <? RAY | _ => false end.

Definition admit_input (p : PositionInput) : option Eligible :=
  if bool_decide (pi_cause p = OraclePredicted) then None else
  if RAY <? pi_p p then None else
  if negb (is_liquidatable (pi_health p)) then None else
  Some (mkEligible p).

Definition EXACT_K : Z := 8.
Definition NONCE_SLOTS : Z := 20.
Definition MIN_OUT_TOLERANCE_BPS : Z := 50.

Record SelectCfg := mkSelectCfg {
  cf_cost : CostModel;
  cf_close_bps : Z;
  cf_exact_k : Z;
  cf_legs_per_plan : Z;
  cf_nonce_slots : Z;
  cf_header_gas_limit : Z;
  cf_wrap_gas : list Z;
  cf_wrap_aave_v4 : Z;
  cf_aave_v4 : option ProtocolId;
  cf_liq_gas : LiqGas;
  cf_over_borrow : Z;
  cf_min_out_tolerance_bps : Z;
  cf_budget : SolveBudget;
  cf_bids : option BidSchedule;
  cf_weth : option AssetId
}.

Definition cfg_wrap (c : SelectCfg) : WrapGas := mkWrapGas (cf_wrap_gas c) (cf_wrap_aave_v4 c) (cf_aave_v4 c).

Record Scored := mkScored {
  sd_position : PositionId;
  sd_protocol : ProtocolId;
  sd_p : Z;
  sd_gas_success : Z;
  sd_gas_failed : Z;
  sd_expected_gas : Z;
  sd_contribution_wei : Z;
  sd_contrib_per_gas : Z;
  sd_leg : SizedLeg;
  sd_bid_bps : option Z
}.

Record DebtGroup := mkGroup {
  dg_debt : AssetId; dg_legs : list Scored; dg_cascade : Cascade; dg_need : Z; dg_reward_only : bool }.
Record SelectedPlan := mkSelPlan { pl_groups : list DebtGroup; pl_hop_and_wrap_gas : Z }.

Definition wrap_gas (cfg : SelectCfg) (provider : FlashProvider) (protocol : ProtocolId) : SRes Z :=
  ok_or (wrap_of (cfg_wrap cfg) provider protocol) ZeroWrapGas.

Definition success_gas (cfg : SelectCfg) (scored_hop : Z) (provider : FlashProvider) (protocol : ProtocolId) : SRes Z :=
  let? w := wrap_gas cfg provider protocol in
  let? l := liq_gas_get (cf_liq_gas cfg) protocol in
  ok_or (let! a := checked_add 64 w l in checked_add 64 a scored_hop) ZeroWrapGas.

(** ** The crude rank *)

(** What a pair of options promises at the largest viable bucket that fits, per gas, in wei;
    [None] where the source continues with the next pair. *)
Definition crude_pair (protocol : ProtocolId) (table : RouteTable) (market : MarketView) (repay : RepayOption) (si : nat)
  (seize : SeizeOption) : option Z :=
  if negb (match try_from_nat 8 si with Some si8 => pairs_with repay (Z.of_nat si8) | None => false end) then None else
  let! terms := mv_pair_terms market protocol (so_asset seize) (ro_asset repay) in
  let terms := with_bonus terms (so_bonus seize) in
  let! entry := rt_entry table (so_asset seize) (ro_asset repay) in
  let! bucket := List.find (fun b => bu_viable b && (bu_size_in b <=? so_max_seize seize) &&
                              bool_decide (is_Some (bu_out_min b)) && (0 <? bu_hop_gas b)) (rev (re_buckets entry)) in
  let! out := bu_out_min bucket in
  match repay_for_seized (bu_size_in bucket) terms with
  | Err _ => None
  | Ok s =>
      let s := Z.min s (ro_max_repay repay) in
      if s =? 0 then None else
      let fee := default 0 (let! n := checked_mul 256 s (pt_flash_fee_bps terms) in checked_div n 10000) in
      let owed := saturating_add 256 s fee in
      let! per := mv_per_eth market (ro_asset repay) in
      if per =? 0 then None else
      match mul_div_512 (saturating_sub out owed) OUT_PER_ETH_WETH per with
      | Err _ => None
      | Ok contrib => checked_div contrib (bu_hop_gas bucket)
      end
  end.

Definition crude_key (e : Eligible) (warm : option RouteTable) (market : MarketView) : Z :=
  match warm with
  | None => 0
  | Some table =>
      let q := pi_quote (el_pos e) in
      fold_left (fun best repay =>
        fold_left (fun best '(si, seize) =>
          match crude_pair (pi_protocol (el_pos e)) table market repay si seize with
          | Some cpg => if best <? cpg then cpg else best
          | None => best
          end) (imap pair (q_seize_options q)) best) (q_repay_options q) 0
  end.

(** The candidates in crude order: greatest key first, admission order among equals. *)
Definition crude_order (admitted : list Eligible) (warm : option RouteTable) (market : MarketView) : list (Z * nat) :=
  sort_by (fun x y => (fst y <? fst x) || ((fst x =? fst y) && (snd x <=? snd y)%nat))
    (imap (fun i e => (crude_key e warm market, i)) admitted).

Section Select.
Context `{B : ExitBook} (cfg : SelectCfg) (flash : FlashIndex) (haircut : Haircut) (warm : option RouteTable)
  (market : MarketView) (gas : GasTerms).

(** ** Scoring *)

(** The leg of a candidate; [None] when it is skipped. *)
Definition size_candidate (el : Eligible) : SRes (option SizedLeg) :=
  let q := pi_quote (el_pos el) in
  let ctx := mkPctx (pi_protocol (el_pos el)) flash haircut warm market gas (cf_budget cfg) (Some (cfg_wrap cfg)) in
  if is_reward_only q then
    match cf_weth cfg with
    | None => Ok None
    | Some weth => pf (reward_plan ctx q weth)
    end
  else pf (best_plan ctx q).

(** Its gas when it succeeds. *)
Definition candidate_gas (el : Eligible) (leg : SizedLeg) : SRes (option Z) :=
  match pi_gas_success (el_pos el) with
  | Some g => if 0 <? g then Ok (Some g) else Err ZeroWrapGas
  | None =>
      match success_gas cfg (sl_hop_gas leg) (fr_provider (sl_route leg)) (pi_protocol (el_pos el)) with
      | Ok g => Ok (Some g)
      | Err (UnmeasuredLiqGas _) => Ok None
      | Err e => Err e
      end
  end.

(** The bid of a leg: [None] when the leg is not bid, [Some None] without a schedule. *)
Definition candidate_bid (protocol : ProtocolId) (s per : Z) : option (option Z) :=
  match cf_bids cfg with
  | None => Some None
  | Some sched =>
      let! size := debt_notional_eth_wei s per in
      match beta_of (schedule_config sched protocol size) 0 with
      | Ok bps => Some (Some bps)
      | Err _ => None
      end
  end.

Definition score_one (el : Eligible) : SRes (option Scored) :=
  let? leg := size_candidate el in
  match leg with
  | None => Ok None
  | Some leg =>
      let? gs := candidate_gas el leg in
      match gs with
      | None => Ok None
      | Some gs =>
          let pos := el_pos el in
          let p_raw := pi_p pos in
          if (pi_gas_failed pos =? 0) && negb (p_raw =? RAY) then Ok None else
          let? eg := ok_or (expected_gas p_raw gs (pi_gas_failed pos)) BadP in
          let per := if leg_is_reward_only leg then Some OUT_PER_ETH_WETH
                     else let! p := mv_per_eth market (sl_debt leg) in if p =? 0 then None else Some p in
          match per with
          | None => Ok None
          | Some per =>
              let? wei := pf (rt (mul_div_512 (sl_contribution leg) OUT_PER_ETH_WETH per)) in
              let? cpg := pf (expected_contrib_per_gas wei p_raw gs (pi_gas_failed pos)) in
              match candidate_bid (pi_protocol pos) (sl_s leg) per with
              | None => Ok None
              | Some bid =>
                  Ok (Some (mkScored (pi_position pos) (pi_protocol pos) p_raw gs (pi_gas_failed pos) eg wei cpg leg bid))
              end
          end
      end
  end.

Fixpoint score_all (admitted : list Eligible) (order : list (Z * nat)) : SRes (list Scored) :=
  match order with
  | [] => Ok []
  | (_, idx) :: order =>
      match admitted !! idx with
      | None => score_all admitted order
      | Some el =>
          let? s := score_one el in
          let? ss := score_all admitted order in
          Ok (match s with Some s => s :: ss | None => ss end)
      end
  end.

Definition score_leb (a b : Scored) : bool :=
  (sd_contrib_per_gas b <? sd_contrib_per_gas a) ||
  ((sd_contrib_per_gas a =? sd_contrib_per_gas b) && (sd_position a <=? sd_position b)%nat).

(** ** Packing *)

Definition same_group (g : DebtGroup) (s : Scored) : bool :=
  (dg_debt g =? sl_debt (sd_leg s)) && Bool.eqb (dg_reward_only g) (leg_is_reward_only (sd_leg s)).

Definition cur_bid_bps (p : SelectedPlan) : option Z :=
  let! g := head (pl_groups p) in let! s := head (dg_legs g) in sd_bid_bps s.

Definition plan_leg_count (p : SelectedPlan) : nat := list_sum ((fun g => length (dg_legs g)) <$> pl_groups p).

Definition debt_group_full (p : SelectedPlan) (s : Scored) : bool :=
  existsb (fun g => same_group g s && (LEG_TIE_MAX <=? length (dg_legs g))%nat) (pl_groups p).

(** A leg that must be alone in its group. *)
Definition alone (x : Scored) : bool :=
  bool_decide (is_Some (eq_hub (sl_exit (sd_leg x)))) || bool_decide (fr_provider (sl_route (sd_leg x)) = FUniV3Swap).

Definition needs_own_group (p : SelectedPlan) (s : Scored) : bool :=
  existsb (fun g => same_group g s && (alone s || existsb alone (dg_legs g))) (pl_groups p).

Definition NO_CASCADE : Cascade := mkCascade [] 0 0.

(** The group of a leg, with it pushed; a new group last when there is none. *)
Fixpoint join_group (gs : list DebtGroup) (s : Scored) : list DebtGroup :=
  match gs with
  | [] => [mkGroup (sl_debt (sd_leg s)) [s] NO_CASCADE (sl_s (sd_leg s)) (leg_is_reward_only (sd_leg s))]
  | g :: gs =>
      if same_group g s
      then mkGroup (dg_debt g) (dg_legs g ++ [s]) (dg_cascade g) (saturating_add 256 (dg_need g) (sl_s (sd_leg s))) (dg_reward_only g) :: gs
      else g :: join_group gs s
  end.

Definition push_leg (p : SelectedPlan) (s : Scored) (incr : Z) : SelectedPlan :=
  mkSelPlan (join_group (pl_groups p) s) (saturating_add 64 (pl_hop_and_wrap_gas p) incr).

(** *** Sealing *)

Definition direct_route (debt : AssetId) : FlashRoute := mkRoute FNone 0 debt 0 0 Direct.

(** The book's pools in the order [solve_batch] first sees them. *)
Definition scratch_ids (colls : list (AssetId * Z)) (debt : AssetId) : list PoolId :=
  fold_left (fun ids l => if bool_decide (leg_pool l ∈ ids) then ids else ids ++ [leg_pool l])
    (flat_map (fun c => xb_exit_legs (fst c) debt) colls) [].

Definition remap_alloc (ids : list PoolId) (a : Allocation) : Allocation :=
  match ids !! leg_pool (al_leg a) with
  | Some pid => mkAlloc (mkLeg pid (leg_i (al_leg a)) (leg_j (al_leg a))) (al_amount_in a) (al_amount_out a)
  | None => a
  end.

Definition remap_quote (ids : list PoolId) (q : ExitQuote) : ExitQuote :=
  mkExit (remap_alloc ids <$> eq_allocs q) (eq_amount_in q) (eq_amount_out q) (eq_hop_gas q) (eq_rho0 q)
    (eq_unwrap q) (eq_hub q) (eq_chain q).

(** A leg on its displaced quote. *)
Definition displaced (s : Scored) (q : ExitQuote) : Scored :=
  let l := sd_leg s in
  let c := saturating_sub (eq_amount_out q) (sl_flash_owed l) in
  let l := mkSized (sl_choice l) (sl_debt l) (sl_coll l) (sl_s l) (eq_amount_in q) (eq_amount_out q) (sl_flash_fee l)
             (sl_flash_owed l) c (eq_hop_gas q) (sl_route l) q (sl_terms l) (sl_rewards l) in
  let cpg := match expected_contrib_per_gas c (sd_p s) (sd_gas_success s) (sd_gas_failed s) with
             | Ok x => x
             | Err _ => sd_contrib_per_gas s
             end in
  mkScored (sd_position s) (sd_protocol s) (sd_p s) (sd_gas_success s) (sd_gas_failed s) (sd_expected_gas s)
    (sd_contribution_wei s) cpg l (sd_bid_bps s).

(** [for (qi, &oi) in batch.order.iter().enumerate()]. *)
Fixpoint displace (order : list Z) (quotes : list ExitQuote) (legs : list Scored) : list Scored :=
  match order, quotes with
  | oi :: order, q :: quotes => displace order quotes (alter (fun s => displaced s q) (Z.to_nat oi) legs)
  | _, _ => legs
  end.

Definition sat_sum (legs : list Scored) : Z := fold_left (fun a s => saturating_add 256 a (sl_s (sd_leg s))) legs 0.

Definition with_legs (g : DebtGroup) (legs : list Scored) (need : Z) : DebtGroup :=
  mkGroup (dg_debt g) legs (dg_cascade g) need (dg_reward_only g).

Definition apply_displaced (g : DebtGroup) : SRes DebtGroup :=
  if (length (dg_legs g) <? 2)%nat then Ok g else
  let colls := (fun s => (sl_coll (sd_leg s), sl_seized (sd_leg s))) <$> dg_legs g in
  match solve_batch colls (dg_debt g) gas (cf_budget cfg) with
  | Err e => if unroutable e then Ok (with_legs g [] 0) else Err (SProfit (PRoute e))
  | Ok batch =>
      let ids := scratch_ids colls (dg_debt g) in
      let legs := displace (bq_order batch) (remap_quote ids <$> bq_quotes batch) (dg_legs g) in
      let legs := List.filter (fun s => negb (sl_contribution (sd_leg s) =? 0)) legs in
      Ok (with_legs g legs (sat_sum legs))
  end.

(** The legs, in order, that [left] still covers. *)
Fixpoint keep_funded (legs : list Scored) (left : Z) : list Scored :=
  match legs with
  | [] => []
  | s :: legs =>
      if left =? 0 then [] else
      if sl_s (sd_leg s) <=? left then s :: keep_funded legs (saturating_sub left (sl_s (sd_leg s))) else []
  end.

Definition shrink_to_funded (g : DebtGroup) (funded : Z) : DebtGroup :=
  let legs := keep_funded (dg_legs g) funded in with_legs g legs (sat_sum legs).

Definition with_cascade (g : DebtGroup) (c : Cascade) : DebtGroup :=
  mkGroup (dg_debt g) (dg_legs g) c (dg_need g) (dg_reward_only g).

Definition cascade_need (legs : list Scored) : SRes Z :=
  ok_or (fold_left (fun a s => let! a := a in checked_add 256 a (sl_s (sd_leg s))) legs (Some (cf_over_borrow cfg)))
    (SProfit (Missing "cascade need")).

(** The flash swap that leads a group. *)
Definition lead_swap (g : DebtGroup) : option FlashRoute :=
  let! s := head (dg_legs g) in
  let r := sl_route (sd_leg s) in
  if bool_decide (fr_provider r = FUniV3Swap) then Some r else None.

Definition seal_group (g : DebtGroup) : SRes DebtGroup :=
  if dg_reward_only g then Ok (with_cascade g (mkCascade [direct_route (dg_debt g)] 0 0)) else
  match lead_swap g with
  | Some r =>
      if negb (length (dg_legs g) =? 1)%nat then Err (SProfit (Missing "one leg per flash-swap group")) else
      Ok (mkGroup (dg_debt g) (dg_legs g) (mkCascade [r] (fr_amount r) 0) (fr_amount r) (dg_reward_only g))
  | None =>
      let? g := apply_displaced g in
      match dg_legs g with
      | [] => Ok g
      | legs =>
          let? need := cascade_need legs in
          let g := with_legs g legs (sat_sum legs) in
          let? c := ok_or (Flash.plan flash (dg_debt g) need (cf_cost cfg) (cf_close_bps cfg)) (SProfit (Missing "cascade")) in
          if ca_funded c =? 0 then Err (SProfit (Missing "cascade funded")) else
          let g := if ca_funded c <? need then shrink_to_funded g (ca_funded c) else g in
          Ok (with_cascade g c)
      end
  end.

Fixpoint seal_groups (gs : list DebtGroup) : SRes (list DebtGroup) :=
  match gs with
  | [] => Ok []
  | g :: gs => let? g := seal_group g in let? gs := seal_groups gs in Ok (g :: gs)
  end.

Definition seal_cascades (p : SelectedPlan) : SRes SelectedPlan :=
  let? gs := seal_groups (pl_groups p) in
  Ok (mkSelPlan (List.filter (fun g => match dg_legs g with [] => false | _ => dg_reward_only g || negb (dg_need g =? 0) end) gs)
        (pl_hop_and_wrap_gas p)).

(** *** The loop *)

Definition EMPTY_PLAN : SelectedPlan := mkSelPlan [] 0.

Definition no_groups (p : SelectedPlan) : bool := match pl_groups p with [] => true | _ => false end.

(** Seal the current plan when [now], and go on with a new one unless the slots are used up. *)
Definition flush (now : bool) (plans : list SelectedPlan) (cur : SelectedPlan)
  (k : list SelectedPlan -> SelectedPlan -> SRes (list SelectedPlan)) : SRes (list SelectedPlan) :=
  if now then
    let? cur := seal_cascades cur in
    let plans := if no_groups cur then plans else plans ++ [cur] in
    if cf_nonce_slots cfg <=? Z.of_nat (length plans) then Ok plans else k plans EMPTY_PLAN
  else k plans cur.

Fixpoint pack_loop (price : Z) (scored : list Scored) (plans : list SelectedPlan) (cur : SelectedPlan)
  : SRes (list SelectedPlan) :=
  match scored with
  | [] =>
      if negb (no_groups cur) && (Z.of_nat (length plans) <? cf_nonce_slots cfg) then
        let? cur := seal_cascades cur in
        Ok (if no_groups cur then plans else plans ++ [cur])
      else Ok plans
  | s :: scored =>
      let? d := pf (delta_net (sd_contribution_wei s) (sd_p s) (sd_expected_gas s) price) in
      if match d with None => true | Some v => v =? 0 end then pack_loop price scored plans cur else
      let? wrap := wrap_gas cfg (fr_provider (sl_route (sd_leg s))) (sd_protocol s) in
      flush (match sd_bid_bps s with
             | Some bps => match cur_bid_bps cur with Some have => negb (have =? bps) | None => false end && negb (no_groups cur)
             | None => false
             end) plans cur (fun plans cur =>
      let full := (negb (cf_legs_per_plan cfg =? 255) && (Z.to_nat (cf_legs_per_plan cfg) <=? plan_leg_count cur)%nat) ||
                  debt_group_full cur s in
      flush ((full || needs_own_group cur s) && negb (no_groups cur)) plans cur (fun plans cur =>
      let? liq := liq_gas_get (cf_liq_gas cfg) (sd_protocol s) in
      let base := saturating_add 64 (sl_hop_gas (sd_leg s)) liq in
      let fresh := saturating_add 64 base wrap in
      let incr := if existsb (fun g => same_group g s) (pl_groups cur) then base else fresh in
      if cf_header_gas_limit cfg <? saturating_add 64 (pl_hop_and_wrap_gas cur) incr then
        if negb (no_groups cur) && (cf_nonce_slots cfg <=? saturating_add 64 (Z.of_nat (length plans)) 1)
        then pack_loop price scored plans cur else
        if negb (no_groups cur) then
          flush true plans cur (fun plans cur =>
            if cf_header_gas_limit cfg <? fresh then pack_loop price scored plans cur else
            if (cf_nonce_slots cfg <=? Z.of_nat (length plans)) && no_groups cur then Ok plans else
            pack_loop price scored plans (push_leg cur s fresh))
        else pack_loop price scored plans cur
      else if (cf_nonce_slots cfg <=? Z.of_nat (length plans)) && no_groups cur then
        (* [break]: what follows the loop finds an empty plan *) Ok plans
      else pack_loop price scored plans (push_leg cur s incr)))
  end.

Definition pack (scored : list Scored) : SRes (list SelectedPlan) :=
  let? price := pf (gas_price_in_debt gas) in
  pack_loop price scored [] EMPTY_PLAN.

(** ** The drain *)

Definition rank (admitted : list Eligible) : SRes (list SelectedPlan) :=
  match admitted with
  | [] => Ok []
  | _ =>
      let crude := crude_order admitted warm market in
      let k := Nat.min (Z.to_nat (cf_exact_k cfg)) (length crude) in
      let? scored := score_all admitted (take k crude) in
      pack (sort_by score_leb scored)
  end.

Definition select (inputs : list PositionInput) : SRes (list SelectedPlan) :=
  if cf_header_gas_limit cfg =? 0 then Err MissingGasLimit else
  if cf_nonce_slots cfg =? 0 then Err NoNonceSlots else
  if cf_exact_k cfg =? 0 then Err ZeroExactK else
  rank (omap admit_input inputs).

End Select.

Definition learning_p : Z := LEARNING_P_RAY.
