(* ===== verification/RouterSelectThms.v ===== *)
(** * What selection selects

    The plans [RouterSelect.select] returns: only admitted positions, each at most once, within
    the slots, the legs, the gas and the group limits, one bid per plan, each debt funded. *)

From stdpp Require Import strings.
From S2P Require Import Prelude Fixed Types Halt Flash Bonus Candidate Wire RouterFees PoolMath RouterGraph RouterBand RouterExit RouterWarm RouterProfit RouterSelect.
Local Open Scope Z_scope.

(** The legs of a plan, and their positions. *)
Definition plan_legs (p : SelectedPlan) : list Scored := flat_map dg_legs (pl_groups p).
Definition plan_jobs (p : SelectedPlan) : list PositionId := sd_position <$> plan_legs p.

(** [s] is [s0] with its exit quoted again. *)
Definition requoted (s0 s : Scored) : Prop :=
  sd_position s = sd_position s0 /\ sd_protocol s = sd_protocol s0 /\ sd_p s = sd_p s0 /\ sd_bid_bps s = sd_bid_bps s0 /\
  sl_debt (sd_leg s) = sl_debt (sd_leg s0) /\ sl_coll (sd_leg s) = sl_coll (sd_leg s0) /\
  sl_s (sd_leg s) = sl_s (sd_leg s0) /\ sl_flash_owed (sd_leg s) = sl_flash_owed (sd_leg s0) /\
  sl_route (sd_leg s) = sl_route (sd_leg s0) /\ sl_rewards (sd_leg s) = sl_rewards (sd_leg s0).

#[local] Instance requoted_refl : Reflexive requoted.
Proof. unfold requoted. intros s. split_and!; reflexivity. Qed.
#[local] Instance requoted_trans : Transitive requoted.
Proof. unfold requoted. intros a b c H1 H2. destruct_and!. split_and!; congruence. Qed.

Lemma displaced_requoted s q : requoted s (displaced s q).
Proof. unfold requoted, displaced. cbn. split_and!; reflexivity. Qed.

(** The legs [l'] are some of the legs [l], in order, quoted again. *)
Definition drawn (l l' : list Scored) : Prop := exists m, m `sublist_of` l /\ Forall2 requoted m l'.

Lemma drawn_of_Forall2 l l' : Forall2 requoted l l' -> drawn l l'.
Proof. intros H. exists l. split; [reflexivity|done]. Qed.

Lemma requoted_all l : Forall2 requoted l l.
Proof. induction l; constructor; [reflexivity|done]. Qed.

Lemma drawn_refl l : drawn l l.
Proof. apply drawn_of_Forall2, requoted_all. Qed.

Lemma Forall2_sublist_r {A B} (R : A -> B -> Prop) (l : list A) (k k' : list B) :
  Forall2 R l k -> k' `sublist_of` k -> exists l', l' `sublist_of` l /\ Forall2 R l' k'.
Proof.
  intros H Hs. revert l H. induction Hs as [|y k1 k2 _ IH|y k1 k2 _ IH]; intros l H.
  - inversion H; subst. by exists [].
  - inversion H as [|x ? l2 ? Hx Hr]; subst. destruct (IH _ Hr) as (l' & Hl & HR).
    exists (x :: l'). split; by constructor.
  - inversion H as [|x ? l2 ? Hx Hr]; subst. destruct (IH _ Hr) as (l' & Hl & HR).
    exists l'. split; [by constructor|done].
Qed.

Lemma drawn_sublist l k k' : drawn l k -> k' `sublist_of` k -> drawn l k'.
Proof.
  intros (m & Hm & HR) Hs. destruct (Forall2_sublist_r _ _ _ _ HR Hs) as (m' & Hm' & HR').
  exists m'. split; [by etransitivity|done].
Qed.

Lemma filter_sublist {A} (f : A -> bool) l : List.filter f l `sublist_of` l.
Proof. induction l as [|x l IH]; cbn; [constructor|]. destruct (f x); by constructor. Qed.

Lemma drawn_jobs l l' : drawn l l' -> sd_position <$> l' `sublist_of` sd_position <$> l.
Proof.
  intros (m & Hm & HR). assert (sd_position <$> l' = sd_position <$> m) as ->.
  { clear -HR. induction HR as [|a b m l' (E & _) _ IH]; cbn; [done|]. by rewrite E, IH. }
  clear HR. induction Hm; cbn; [apply sublist_nil|by apply sublist_skip|by apply sublist_cons].
Qed.

Lemma drawn_length l l' : drawn l l' -> (length l' <= length l)%nat.
Proof. intros (m & Hm & HR). apply Forall2_length in HR. apply sublist_length in Hm. lia. Qed.

(** What holds of every leg and survives a new quote holds of what is drawn. *)
Lemma drawn_Forall (P : Scored -> Prop) l l' : (forall a b, requoted a b -> P a -> P b) ->
  drawn l l' -> Forall P l -> Forall P l'.
Proof.
  intros HP (m & Hm & HR) Hl. assert (Forall P m) as Hmm.
  { rewrite Forall_forall in *. intros x Hx. apply Hl. by eapply elem_of_submseteq, sublist_submseteq. }
  clear -HR Hmm HP. induction HR; inversion Hmm; subst; constructor; eauto.
Qed.

Section Packing.
Context `{B : ExitBook} (cfg : SelectCfg) (flash : FlashIndex) (gas : GasTerms).

Lemma displace_requoted order : forall quotes legs, Forall2 requoted legs (displace order quotes legs).
Proof.
  induction order as [|oi order IH]; intros [|q quotes] legs; cbn [displace]; try apply requoted_all.
  etransitivity; [|apply IH]. clear. revert legs.
  induction (Z.to_nat oi) as [|n IH]; intros [|s legs]; [constructor| |constructor|]; cbn [alter list_alter]; constructor.
  - apply displaced_requoted.
  - apply requoted_all.
  - reflexivity.
  - apply IH.
Qed.

Lemma apply_displaced_drawn g g' : apply_displaced cfg gas g = Ok g' ->
  dg_debt g' = dg_debt g /\ dg_reward_only g' = dg_reward_only g /\ drawn (dg_legs g) (dg_legs g').
Proof.
  unfold apply_displaced. destruct (_ <? 2)%nat; [intros [= <-]; split_and!; try done; apply drawn_refl|].
  destruct (solve_batch _ _ _ _) as [b|e].
  - intros [= <-]. cbn. split_and!; try done.
    eapply drawn_sublist; [apply drawn_of_Forall2, displace_requoted|apply filter_sublist].
  - destruct (unroutable e); [|done]. intros [= <-]. cbn. split_and!; try done.
    exists []. split; [apply sublist_nil_l|constructor].
Qed.

Definition leg_sum (legs : list Scored) : Z := zsum (fun s => sl_s (sd_leg s)) legs.

Lemma keep_funded_prefix legs : forall left, exists k, keep_funded legs left = take k legs.
Proof.
  induction legs as [|s legs IH]; intros left; cbn [keep_funded]; [by exists 0%nat|].
  destruct (left =? 0); [by exists 0%nat|]. destruct (_ <=? left); [|by exists 0%nat].
  destruct (IH (saturating_sub left (sl_s (sd_leg s)))) as [k ->]. by exists (S k).
Qed.

Lemma keep_funded_sum legs : forall left, keep_funded legs left <> [] -> leg_sum (keep_funded legs left) <= left.
Proof.
  unfold leg_sum. induction legs as [|s legs IH]; intros left; cbn [keep_funded]; [done|].
  destruct (left =? 0); [done|]. destruct (Z.leb_spec (sl_s (sd_leg s)) left) as [Hle|]; [|done]. intros _.
  cbn [zsum foldr]. specialize (IH (saturating_sub left (sl_s (sd_leg s)))). unfold saturating_sub in *.
  destruct (keep_funded legs _) as [|a l]; [cbn; lia|]. specialize (IH ltac:(done)). unfold zsum in IH. lia.
Qed.

Lemma cascade_need_sum legs need : cascade_need cfg legs = Ok need -> need = cf_over_borrow cfg + leg_sum legs.
Proof.
  unfold cascade_need, leg_sum. intros H%ok_or_Ok. revert H. generalize (cf_over_borrow cfg) as a.
  induction legs as [|s legs IH]; intros a; cbn [fold_left zsum foldr]; [intros [= ->]; lia|].
  destruct (checked_add 256 a (sl_s (sd_leg s))) as [b|] eqn:E.
  - apply checked_add_Some in E as [-> _]. intros ->%IH. unfold zsum. lia.
  - intros H. exfalso. clear -H. induction legs; cbn [fold_left] in H; [done|auto].
Qed.

(** *** Sealing a group *)

Definition is_swap (s : Scored) : Prop := fr_provider (sl_route (sd_leg s)) = FUniV3Swap.

(** What pays for a group: nothing when the protocol pays, the pool of its only exit, or the
    cascade of its debt; and it lends at least what the legs repay. *)
Definition funded (g : DebtGroup) : Prop :=
  if dg_reward_only g then dg_cascade g = mkCascade [direct_route (dg_debt g)] 0 0 else
  leg_sum (dg_legs g) <= ca_funded (dg_cascade g) /\
  ((exists s, dg_legs g = [s] /\ is_swap s /\ dg_cascade g = mkCascade [sl_route (sd_leg s)] (fr_amount (sl_route (sd_leg s))) 0) \/
   exists need, Flash.plan flash (dg_debt g) need (cf_cost cfg) (cf_close_bps cfg) = Some (dg_cascade g)).

(** The loan of a leg is for what it repays. *)
Definition lends (s : Scored) : Prop := fr_amount (sl_route (sd_leg s)) = sl_s (sd_leg s).

Lemma seal_group_spec g g' : 0 <= cf_over_borrow cfg -> Forall lends (dg_legs g) -> seal_group cfg flash gas g = Ok g' ->
  dg_debt g' = dg_debt g /\ dg_reward_only g' = dg_reward_only g /\ drawn (dg_legs g) (dg_legs g') /\
  (dg_legs g' <> [] -> funded g').
Proof.
  intros Hob Hl. unfold seal_group, funded. destruct (dg_reward_only g) eqn:Er.
  { intros [= <-]. cbn. rewrite Er. split_and!; try done. apply drawn_refl. }
  destruct (lead_swap g) as [r|] eqn:El.
  - unfold lead_swap in El. destruct (dg_legs g) as [|s [|s' l]] eqn:Eg; cbn in El; [done| |done].
    case_bool_decide as Hsw; [|done]. injection El as <-. cbn [length Nat.eqb negb]. intros [= <-]. cbn.
    split_and!; try done; [apply drawn_refl|]. intros _. inversion Hl as [|? ? Hs _]; subst.
    unfold leg_sum. cbn. unfold lends in Hs. split; [lia|]. left. by exists s.
  - intros H. apply bind_Ok in H as (g1 & H1 & H). destruct (apply_displaced_drawn _ _ H1) as (Ed & Ero & Hd).
    destruct (dg_legs g1) as [|s1 l1] eqn:E1.
    { injection H as <-. rewrite Ero, E1. split_and!; done. }
    rewrite <- E1 in H, Hd. assert (dg_legs g1 <> []) as Hne by (by rewrite E1). clear E1 s1 l1.
    apply bind_Ok in H as (need & Hn%cascade_need_sum & H). apply bind_Ok in H as (c & Hc%ok_or_Ok & H).
    cbn [dg_debt with_legs] in Hc. destruct (ca_funded c =? 0); [done|]. injection H as <-.
    destruct (Z.ltb_spec (ca_funded c) need) as [Hlt|Hge]; unfold shrink_to_funded;
      cbn [dg_debt dg_reward_only dg_legs dg_cascade with_cascade with_legs]; rewrite Ero; try rewrite Er; (split_and!; try done).
    + destruct (keep_funded_prefix (dg_legs g1) (ca_funded c)) as [k ->]. eapply drawn_sublist; [done|apply sublist_take].
    + intros Hk. split; [by apply keep_funded_sum|]. right. by exists need.
    + intros _. split; [lia|]. right. by exists need.
Qed.

(** *** Plans *)

(** A group while it is packed. *)
Record group_ok (g : DebtGroup) : Prop := {
  gk_legs : (1 <= length (dg_legs g) <= LEG_TIE_MAX)%nat;
  gk_same : Forall (fun s => same_group g s = true) (dg_legs g);
  gk_alone : existsb alone (dg_legs g) = true -> length (dg_legs g) = 1%nat
}.

(** A group of a plan that is sent: legs of one debt, at most as many as a tie names, a flash
    swap alone, and funded. *)
Record group_sound (g : DebtGroup) : Prop := {
  gs_legs : (1 <= length (dg_legs g) <= LEG_TIE_MAX)%nat;
  gs_same : Forall (fun s => same_group g s = true) (dg_legs g);
  gs_alone : Exists is_swap (dg_legs g) -> length (dg_legs g) = 1%nat;
  gs_funded : funded g
}.

Definition group_key (g : DebtGroup) : AssetId * bool := (dg_debt g, dg_reward_only g).

(** The limits of a plan, whatever holds of its groups. *)
Record plan_ok (G : DebtGroup -> Prop) (p : SelectedPlan) : Prop := {
  po_gas : pl_hop_and_wrap_gas p <= cf_header_gas_limit cfg;
  po_groups : Forall G (pl_groups p);
  po_keys : NoDup (group_key <$> pl_groups p);
  po_count : cf_legs_per_plan cfg <> 255 -> (plan_leg_count p <= Nat.max 1 (Z.to_nat (cf_legs_per_plan cfg)))%nat;
  po_bid : exists b, Forall (fun s => sd_bid_bps s = b) (plan_legs p);
  po_lends : Forall lends (plan_legs p)
}.

Lemma plan_leg_count_length p : plan_leg_count p = length (plan_legs p).
Proof.
  unfold plan_leg_count, plan_legs. induction (pl_groups p) as [|g gs IH]; [done|].
  rewrite fmap_cons. cbn [list_sum foldr flat_map]. rewrite length_app. unfold list_sum in IH. lia.
Qed.

Lemma same_group_iff g s : same_group g s = true <-> group_key g = (sl_debt (sd_leg s), leg_is_reward_only (sd_leg s)).
Proof.
  unfold same_group, group_key. rewrite andb_true_iff, Z.eqb_eq, eqb_true_iff. split; [by intros [-> ->]|by intros [= -> ->]].
Qed.

Lemma requoted_same_group g g' s0 s : group_key g = group_key g' -> requoted s0 s -> same_group g s0 = true -> same_group g' s = true.
Proof.
  rewrite !same_group_iff. intros <- (_ & _ & _ & _ & -> & _ & _ & _ & _ & Hr) ->. unfold leg_is_reward_only. by rewrite Hr.
Qed.

Lemma seal_group_sound g g' : 0 <= cf_over_borrow cfg -> Forall lends (dg_legs g) -> group_ok g ->
  seal_group cfg flash gas g = Ok g' -> dg_legs g' <> [] -> group_sound g'.
Proof.
  intros Hob Hl [Hlen Hsame Hal] H Hne. destruct (seal_group_spec g g' Hob Hl H) as (Ed & Er & Hd & Hf).
  pose proof (drawn_length _ _ Hd) as Hle. assert (1 <= length (dg_legs g'))%nat as H1 by (destruct (dg_legs g'); [done|cbn; lia]).
  constructor; [lia| | |by apply Hf].
  - assert (group_key g = group_key g') as Ek by (unfold group_key; congruence).
    eapply drawn_Forall; [|exact Hd|].
    + intros a b. by apply requoted_same_group.
    + eapply Forall_impl; [exact Hsame|]. intros s Hs. apply (requoted_same_group g g' s s Ek); [reflexivity|done].
  - intros Hex. assert (existsb alone (dg_legs g) = true) as Ha; [|rewrite (Hal Ha) in Hle; lia].
    destruct (existsb alone (dg_legs g)) eqn:E; [done|]. exfalso.
    assert (Forall (fun s => ~ is_swap s) (dg_legs g)) as Hno.
    { apply Forall_forall. intros s Hs Hsw. apply list_elem_of_In in Hs.
      assert (existsb alone (dg_legs g) = true) as E'; [|congruence]. apply existsb_exists. exists s. split; [done|].
      unfold alone. rewrite (bool_decide_true (fr_provider _ = _)) by done. apply orb_true_r. }
    eapply drawn_Forall in Hno; [|intros a b Hab Ha; unfold is_swap in *; by destruct Hab as (_ & _ & _ & _ & _ & _ & _ & _ & -> & _)|exact Hd].
    apply Exists_exists in Hex as (s & Hs & Hsw). rewrite Forall_forall in Hno. by apply (Hno s).
Qed.

Lemma drawn_nil l : drawn l [].
Proof. exists []. split; [apply sublist_nil_l|constructor]. Qed.

Lemma drawn_app l1 l2 k1 k2 : drawn l1 k1 -> drawn l2 k2 -> drawn (l1 ++ l2) (k1 ++ k2).
Proof.
  intros (m1 & H1 & R1) (m2 & H2 & R2). exists (m1 ++ m2). split; [by apply sublist_app|by apply Forall2_app].
Qed.

(** The groups a sealed plan keeps. *)
Definition kept (g : DebtGroup) : bool :=
  match dg_legs g with [] => false | _ => dg_reward_only g || negb (dg_need g =? 0) end.

Lemma seal_groups_sound gs : 0 <= cf_over_borrow cfg -> Forall lends (flat_map dg_legs gs) -> Forall group_ok gs ->
  forall gs', seal_groups cfg flash gas gs = Ok gs' ->
  Forall group_sound (List.filter kept gs') /\ drawn (flat_map dg_legs gs) (flat_map dg_legs (List.filter kept gs')) /\
  group_key <$> List.filter kept gs' `sublist_of` group_key <$> gs.
Proof.
  intros Hob. induction gs as [|g gs IH]; cbn [flat_map seal_groups]; intros Hl Hok gs'.
  { intros [= <-]. cbn. split_and!; [constructor|apply drawn_nil|constructor]. }
  apply Forall_app in Hl as [Hl Hls]. apply Forall_cons in Hok as [Hg Hgs]. intros H.
  apply bind_Ok in H as (g' & Hg' & H). apply bind_Ok in H as (gs1 & Hgs1 & [= <-]).
  destruct (IH Hls Hgs gs1 Hgs1) as (IH1 & IH2 & IH3). destruct (seal_group_spec g g' Hob Hl Hg') as (Ed & Er & Hd & _).
  assert (group_key g' = group_key g) as Ek by (unfold group_key; congruence).
  cbn [List.filter]. destruct (kept g') eqn:Ek'.
  - cbn [flat_map]. rewrite !fmap_cons, Ek. split_and!.
    + constructor; [|done]. apply (seal_group_sound g g' Hob Hl Hg Hg'). intros E. unfold kept in Ek'. by rewrite E in Ek'.
    + by apply drawn_app.
    + by apply sublist_skip.
  - split_and!; [done| |by rewrite fmap_cons; apply sublist_cons].
    change (flat_map dg_legs (List.filter kept gs1)) with ([] ++ flat_map dg_legs (List.filter kept gs1)).
    apply drawn_app; [apply drawn_nil|done].
Qed.

Lemma seal_cascades_sound p p' : 0 <= cf_over_borrow cfg -> plan_ok group_ok p -> seal_cascades cfg flash gas p = Ok p' ->
  plan_ok group_sound p' /\ drawn (plan_legs p) (plan_legs p').
Proof.
  intros Hob [Hg Hgr Hk Hc [b Hb] Hl] H. unfold seal_cascades in H. apply bind_Ok in H as (gs & Hgs & [= <-]).
  destruct (seal_groups_sound _ Hob Hl Hgr gs Hgs) as (H1 & H2 & H3). fold kept.
  assert (drawn (plan_legs p) (plan_legs (mkSelPlan (List.filter kept gs) (pl_hop_and_wrap_gas p)))) as Hd by exact H2.
  split; [|exact Hd]. constructor; cbn [pl_hop_and_wrap_gas pl_groups]; try done.
  - by eapply sublist_NoDup.
  - intros Hn. specialize (Hc Hn). rewrite plan_leg_count_length in *. pose proof (drawn_length _ _ Hd). lia.
  - exists b. eapply drawn_Forall; [|exact Hd|exact Hb]. intros x y Hxy Hx. destruct Hxy as (_ & _ & _ & -> & _). done.
  - eapply drawn_Forall; [|exact Hd|exact Hl]. intros x y Hxy Hx. unfold lends in *.
    destruct Hxy as (_ & _ & _ & _ & _ & _ & -> & _ & -> & _). done.
Qed.

(** *** Pushing a leg *)

Lemma join_group_legs gs s : flat_map dg_legs (join_group gs s) ≡ₚ flat_map dg_legs gs ++ [s].
Proof.
  induction gs as [|g gs IH]; cbn [join_group flat_map]; [done|]. destruct (same_group g s); cbn [flat_map dg_legs].
  - rewrite <- !app_assoc. f_equiv. apply Permutation_app_comm.
  - by rewrite IH, app_assoc.
Qed.

Lemma join_group_keys gs s : NoDup (group_key <$> gs) -> NoDup (group_key <$> join_group gs s) /\
  forall k, k ∈ group_key <$> join_group gs s ->
    k ∈ group_key <$> gs \/ k = (sl_debt (sd_leg s), leg_is_reward_only (sd_leg s)).
Proof.
  induction gs as [|g gs IH]; cbn [join_group]; rewrite ?fmap_cons.
  { intros _. split; [apply NoDup_singleton|]. intros k Hk. right. by apply list_elem_of_singleton in Hk. }
  intros [Hg Hgs]%NoDup_cons. destruct (same_group g s) eqn:E; rewrite fmap_cons.
  - change (group_key (mkGroup _ _ _ _ _)) with (group_key g). split; [by constructor|]. intros k Hk. by left.
  - destruct (IH Hgs) as [IH1 IH2]. split.
    + constructor; [|done]. intros [?|Hk]%IH2; [done|]. apply same_group_iff in Hk. congruence.
    + intros k. rewrite !elem_of_cons. intros [->|[?|?]%IH2]; auto.
Qed.

Lemma join_group_ok gs s : Forall group_ok gs ->
  existsb (fun g => same_group g s && (LEG_TIE_MAX <=? length (dg_legs g))%nat) gs = false ->
  existsb (fun g => same_group g s && (alone s || existsb alone (dg_legs g))) gs = false ->
  Forall group_ok (join_group gs s).
Proof.
  induction 1 as [|g gs Hg Hgs IH]; cbn [join_group existsb].
  { intros _ _. repeat constructor; cbn; unfold LEG_TIE_MAX; try lia. unfold same_group. cbn.
    by rewrite Z.eqb_refl, eqb_reflx. }
  rewrite !orb_false_iff. intros [Hf Hfs] [Ha Has]. destruct (same_group g s) eqn:E; [|constructor; [done|by apply IH]].
  cbn [andb] in Hf, Ha. apply Nat.leb_gt in Hf. apply orb_false_iff in Ha as [Ha1 Ha2]. destruct Hg as [Hl Hs Hal].
  constructor; [|done]. constructor; cbn [dg_legs].
  - rewrite length_app. cbn. lia.
  - apply Forall_app. split; [exact Hs|]. constructor; [exact E|constructor].
  - rewrite existsb_app. cbn. by rewrite Ha1, Ha2.
Qed.

Lemma push_leg_ok p s incr : plan_ok group_ok p -> lends s ->
  debt_group_full p s = false -> needs_own_group p s = false ->
  (cf_legs_per_plan cfg <> 255 -> pl_groups p = [] \/ (plan_leg_count p < Z.to_nat (cf_legs_per_plan cfg))%nat) ->
  (pl_groups p = [] \/ Forall (fun s' => sd_bid_bps s' = sd_bid_bps s) (plan_legs p)) ->
  saturating_add 64 (pl_hop_and_wrap_gas p) incr <= cf_header_gas_limit cfg ->
  plan_ok group_ok (push_leg p s incr) /\ plan_legs (push_leg p s incr) ≡ₚ plan_legs p ++ [s].
Proof.
  intros [Hg Hgr Hk Hc Hb Hl] Hs Hfull Hown Hcount Hbid Hgas.
  assert (plan_legs (push_leg p s incr) ≡ₚ plan_legs p ++ [s]) as Hp by apply join_group_legs.
  split; [|exact Hp]. constructor; cbn [pl_hop_and_wrap_gas push_leg pl_groups].
  - exact Hgas.
  - by apply join_group_ok.
  - by apply join_group_keys.
  - intros Hn. rewrite plan_leg_count_length, Hp, length_app. cbn [length]. rewrite <- plan_leg_count_length.
    destruct (Hcount Hn) as [E|?]; [|lia]. unfold plan_leg_count. rewrite E. cbn. lia.
  - exists (sd_bid_bps s). rewrite Hp. apply Forall_app. split; [|by repeat constructor].
    destruct Hbid as [E|?]; [|done]. unfold plan_legs. rewrite E. constructor.
  - rewrite Hp. apply Forall_app. split; [done|]. by repeat constructor.
Qed.

(** *** The loop *)

Context (price : Z) (all : list Scored) (scheduled : bool).
Hypothesis (Hborrow : 0 <= cf_over_borrow cfg) (Hlimit : 0 <= cf_header_gas_limit cfg).
Hypothesis (Hall : Forall (fun s => lends s /\ bool_decide (is_Some (sd_bid_bps s)) = scheduled) all).

(** A leg is worth its gas: its marginal net is positive. *)
Definition worth (s : Scored) : Prop :=
  exists v, delta_net (sd_contribution_wei s) (sd_p s) (sd_expected_gas s) price = Ok (Some v) /\ v <> 0.

(** A packed leg is one of the scored legs that is worth its gas, perhaps quoted again. *)
Definition picked (s : Scored) : Prop := exists s0, s0 ∈ all /\ worth s0 /\ requoted s0 s.

Lemma picked_requoted s s' : requoted s s' -> picked s -> picked s'.
Proof. intros H (s0 & ? & ? & ?). exists s0. split; [done|]. split; [done|]. by etransitivity. Qed.

Definition jobs (l : list Scored) : list PositionId := sd_position <$> l.

Definition sent (p : SelectedPlan) : Prop := plan_ok group_sound p /\ pl_groups p <> [].

Record packed (plans : list SelectedPlan) (cur : SelectedPlan) (rest : list Scored) : Prop := {
  pa_slots : Z.of_nat (length plans) < cf_nonce_slots cfg;
  pa_plans : Forall sent plans;
  pa_cur : plan_ok group_ok cur;
  pa_picked : Forall picked (flat_map plan_legs plans ++ plan_legs cur);
  pa_jobs : jobs (flat_map plan_legs plans ++ plan_legs cur ++ rest) ⊆+ jobs all
}.

Record packed_done (plans : list SelectedPlan) : Prop := {
  pd_slots : Z.of_nat (length plans) <= cf_nonce_slots cfg;
  pd_plans : Forall sent plans;
  pd_picked : Forall picked (flat_map plan_legs plans);
  pd_jobs : jobs (flat_map plan_legs plans) ⊆+ jobs all
}.

Lemma empty_ok : plan_ok group_ok EMPTY_PLAN.
Proof. constructor; cbn; [lia|constructor|constructor|lia|exists None; constructor|constructor]. Qed.

Lemma packed_drop plans cur s rest : packed plans cur (s :: rest) -> packed plans cur rest.
Proof.
  intros [? ? ? ? Hj]. constructor; try done. etransitivity; [|exact Hj]. unfold jobs. rewrite !fmap_app, fmap_cons.
  do 2 apply submseteq_skips_l. by apply submseteq_cons.
Qed.

Lemma packed_stop plans cur rest : packed plans cur rest -> packed_done plans.
Proof.
  intros [? ? ? [Hp _]%Forall_app Hj]. constructor; try done; [lia|]. etransitivity; [|exact Hj]. unfold jobs.
  rewrite !fmap_app. apply submseteq_inserts_r. reflexivity.
Qed.

(** Sealing the current plan, kept when it has a group left. *)
Lemma packed_seal plans cur rest cur' : packed plans cur rest -> seal_cascades cfg flash gas cur = Ok cur' ->
  let plans' := if no_groups cur' then plans else plans ++ [cur'] in
  packed_done plans' /\ (Z.of_nat (length plans') < cf_nonce_slots cfg -> packed plans' EMPTY_PLAN rest).
Proof.
  intros [Hs Hp Hc Hpk Hj] H. destruct (seal_cascades_sound _ _ Hborrow Hc H) as [Hok Hd]. cbv zeta.
  apply Forall_app in Hpk as [Hpk Hpc]. pose proof (drawn_Forall picked _ _ picked_requoted Hd Hpc) as Hpc'.
  assert (jobs (flat_map plan_legs plans ++ rest) ⊆+ jobs all) as Hj0.
  { etransitivity; [|exact Hj]. unfold jobs. rewrite !fmap_app. apply submseteq_skips_l, submseteq_inserts_l. reflexivity. }
  unfold no_groups. destruct (pl_groups cur') as [|g gs] eqn:Eg.
  { split; [|intros ?; constructor; try done].
    - constructor; try done; [lia|]. etransitivity; [|exact Hj0]. unfold jobs. rewrite fmap_app. apply submseteq_inserts_r. reflexivity.
    - apply empty_ok.
    - by rewrite app_nil_r. }
  assert (sent cur') as Hsent by (split; [done|by rewrite Eg]).
  assert (jobs ((flat_map plan_legs plans ++ plan_legs cur') ++ rest) ⊆+ jobs all) as Hj1.
  { etransitivity; [|exact Hj]. unfold jobs. rewrite <- app_assoc, !fmap_app. apply submseteq_skips_l, submseteq_skips_r.
    by apply sublist_submseteq, drawn_jobs. }
  assert (flat_map plan_legs (plans ++ [cur']) = flat_map plan_legs plans ++ plan_legs cur') as Efm
    by (rewrite flat_map_app; cbn [flat_map]; by rewrite app_nil_r).
  split; [|intros Hlt]; constructor; rewrite ?Efm; try done.
  - rewrite length_app. cbn. lia.
  - apply Forall_app. split; [done|]. constructor; [done|constructor].
  - by apply Forall_app.
  - etransitivity; [|exact Hj1]. unfold jobs. rewrite (fmap_app _ (_ ++ _) rest). apply submseteq_inserts_r. reflexivity.
  - apply Forall_app. split; [done|]. constructor; [done|constructor].
  - apply empty_ok.
  - rewrite app_nil_r. by apply Forall_app.
Qed.

(** A flush stops with the slots used up, or goes on with the same plan or a new one. *)
Lemma flush_packed now plans cur rest k out : packed plans cur rest -> flush cfg flash gas now plans cur k = Ok out ->
  packed_done out \/ exists plans' cur', packed plans' cur' rest /\ k plans' cur' = Ok out /\
    (if now then cur' = EMPTY_PLAN else plans' = plans /\ cur' = cur).
Proof.
  intros Hp. unfold flush. destruct now; [|intros H; right; by exists plans, cur]. intros H.
  apply bind_Ok in H as (cur' & Hc & H). destruct (packed_seal _ _ _ _ Hp Hc) as [Hd Hn]. cbv zeta in *.
  set (plans' := if no_groups cur' then plans else plans ++ [cur']) in *.
  destruct (Z.leb_spec (cf_nonce_slots cfg) (Z.of_nat (length plans'))); [by left; injection H as <-|].
  right. exists plans', EMPTY_PLAN. by split; [apply Hn|].
Qed.

Lemma no_groups_nil p : no_groups p = true <-> pl_groups p = [].
Proof. unfold no_groups. by destruct (pl_groups p). Qed.

(** The bid of a plan with legs is that of each of its legs. *)
Lemma cur_bid_all p : plan_ok group_ok p -> pl_groups p <> [] -> Forall (fun s => sd_bid_bps s = cur_bid_bps p) (plan_legs p).
Proof.
  intros [_ Hg _ _ [b Hb] _] Hne. enough (cur_bid_bps p = b) as -> by exact Hb. unfold cur_bid_bps, plan_legs in *.
  destruct (pl_groups p) as [|g gs]; [done|]. cbn [head flat_map] in *. apply Forall_cons in Hg as [[Hl _ _] _].
  destruct (dg_legs g) as [|s l]; [cbn in Hl; lia|]. cbn [head app] in *. by apply Forall_inv in Hb.
Qed.

Lemma picked_scheduled s : picked s -> bool_decide (is_Some (sd_bid_bps s)) = scheduled.
Proof.
  intros (s0 & Hs & _ & (_ & _ & _ & -> & _)). rewrite Forall_forall in Hall. by apply Hall.
Qed.

(** After the first flush the plan has no other bid than the leg's. *)
Lemma bid_matches plans cur s rest : packed plans cur rest -> picked s ->
  (match sd_bid_bps s with
   | Some bps => match cur_bid_bps cur with Some have => negb (have =? bps) | None => false end && negb (no_groups cur)
   | None => false
   end) = false ->
  pl_groups cur = [] \/ Forall (fun s' => sd_bid_bps s' = sd_bid_bps s) (plan_legs cur).
Proof.
  intros [_ _ Hc Hpk _] Hs H. destruct (pl_groups cur) as [|g gs] eqn:Eg; [by left|]. right.
  assert (pl_groups cur <> []) as Hne by (by rewrite Eg). pose proof (cur_bid_all cur Hc Hne) as Hb.
  eapply Forall_impl; [exact Hb|]. intros s' Es'. cbn beta in *.
  assert (exists x, x ∈ plan_legs cur) as [x Hx].
  { destruct Hc as [_ Hg _ _ _ _]. rewrite Eg in Hg. apply Forall_inv in Hg as [Hl _ _]. unfold plan_legs. rewrite Eg. cbn [flat_map].
    destruct (dg_legs g) as [|x l]; [cbn in Hl; lia|]. exists x. apply elem_of_cons. by left. }
  apply Forall_app in Hpk as [_ Hpk]. rewrite Forall_forall in Hpk, Hb. pose proof (picked_scheduled x (Hpk x Hx)) as Hxs.
  pose proof (picked_scheduled s Hs) as Hss. rewrite (Hb x Hx) in Hxs. rewrite Es'.
  assert (no_groups cur = false) as Hng by (unfold no_groups; by rewrite Eg). rewrite Hng in H.
  destruct (sd_bid_bps s) as [bps|], (cur_bid_bps cur) as [have|]; cbn in *; try congruence.
  rewrite andb_true_r in H. apply negb_false_iff, Z.eqb_eq in H. congruence.
Qed.

Lemma packed_push plans cur s rest incr : packed plans cur (s :: rest) -> picked s -> lends s ->
  debt_group_full cur s = false -> needs_own_group cur s = false ->
  (cf_legs_per_plan cfg <> 255 -> pl_groups cur = [] \/ (plan_leg_count cur < Z.to_nat (cf_legs_per_plan cfg))%nat) ->
  (pl_groups cur = [] \/ Forall (fun s' => sd_bid_bps s' = sd_bid_bps s) (plan_legs cur)) ->
  saturating_add 64 (pl_hop_and_wrap_gas cur) incr <= cf_header_gas_limit cfg ->
  packed plans (push_leg cur s incr) rest.
Proof.
  intros [Hs Hp Hc Hpk Hj] Hs' Hl Hf Ho Hcnt Hb Hg. destruct (push_leg_ok cur s incr Hc Hl Hf Ho Hcnt Hb Hg) as [Hok Hperm].
  constructor; try done.
  - rewrite Hperm, app_assoc. apply Forall_app. split; [done|]. constructor; [done|constructor].
  - unfold jobs in *. rewrite Hperm. by rewrite <- app_assoc.
Qed.

(** With no leg in the plan, a leg fits every limit but gas. *)
Lemma fits_empty s : debt_group_full EMPTY_PLAN s = false /\ needs_own_group EMPTY_PLAN s = false.
Proof. done. Qed.

Lemma pack_loop_packed : forall scored plans cur out, Forall (fun s => s ∈ all) scored ->
  packed plans cur scored -> pack_loop cfg flash gas price scored plans cur = Ok out -> packed_done out.
Proof.
  induction scored as [|s scored IH]; intros plans cur out Hin Hp H; cbn [pack_loop] in H.
  { destruct (negb _ && _); [|injection H as <-; by eapply packed_stop]. apply bind_Ok in H as (cur' & Hc & [= <-]).
    by destruct (packed_seal _ _ _ _ Hp Hc) as [Hd _]. }
  apply Forall_cons in Hin as [Hs Hin]. apply bind_Ok in H as (d & Hd & H).
  destruct d as [v|]; [|apply (IH _ _ _ Hin (packed_drop _ _ _ _ Hp) H)].
  destruct (Z.eqb_spec v 0) as [|Hv]; [apply (IH _ _ _ Hin (packed_drop _ _ _ _ Hp) H)|].
  assert (picked s) as Hpick.
  { exists s. split; [done|]. split; [|reflexivity]. exists v. split; [|done]. unfold pf, map_err in Hd.
    destruct (delta_net _ _ _ _); [by injection Hd as ->|done]. }
  assert (lends s) as Hl by (rewrite Forall_forall in Hall; by apply Hall).
  apply bind_Ok in H as (wrap & _ & H).
  apply flush_packed with (rest := s :: scored) in H as [?|(plans1 & cur1 & Hp1 & H & E1)]; [done| |done].
  assert (pl_groups cur1 = [] \/ Forall (fun s' => sd_bid_bps s' = sd_bid_bps s) (plan_legs cur1)) as Hb1.
  { match goal with H : if ?b then _ else _ |- _ => destruct b eqn:Eb end; [subst cur1; by left|].
    destruct E1 as [-> ->]. by eapply bid_matches. }
  clear E1. cbv zeta in H.
  apply flush_packed with (rest := s :: scored) in H as [?|(plans2 & cur2 & Hp2 & H & E2)]; [done| |done].
  assert (debt_group_full cur2 s = false /\ needs_own_group cur2 s = false /\
    (cf_legs_per_plan cfg <> 255 -> pl_groups cur2 = [] \/ (plan_leg_count cur2 < Z.to_nat (cf_legs_per_plan cfg))%nat) /\
    (pl_groups cur2 = [] \/ Forall (fun s' => sd_bid_bps s' = sd_bid_bps s) (plan_legs cur2))) as (Hf & Ho & Hcnt & Hb2).
  { match goal with H : if ?b then _ else _ |- _ => destruct b eqn:Eb end.
    { subst cur2. split_and!; try done; by left. }
    destruct E2 as [-> ->]. destruct (no_groups cur1) eqn:En.
    { apply no_groups_nil in En. unfold debt_group_full, needs_own_group. rewrite En. split_and!; try done; by left. }
    rewrite andb_true_r, !orb_false_iff in Eb. destruct Eb as [[Ef1 Ef2] Eo]. split_and!; try done.
    intros Hn. right. rewrite (proj2 (Z.eqb_neq _ _) Hn) in Ef1. by apply Nat.leb_gt in Ef1. }
  clear E2 Hb1 Hp1 Hp plans cur plans1 cur1. apply bind_Ok in H as (liq & _ & H).
  set (base := saturating_add 64 (sl_hop_gas (sd_leg s)) liq) in *. set (fresh := saturating_add 64 base wrap) in *.
  set (incr := if existsb _ _ then base else fresh) in *. pose proof (packed_drop _ _ _ _ Hp2) as Hdrop.
  destruct (Z.ltb_spec (cf_header_gas_limit cfg) (saturating_add 64 (pl_hop_and_wrap_gas cur2) incr)) as [Hg|Hg].
  2:{ destruct (_ && no_groups cur2); [injection H as <-; by eapply packed_stop|].
      eapply IH; [done| |exact H]. by eapply packed_push. }
  destruct (negb (no_groups cur2) && _); [by eapply IH|]. destruct (negb (no_groups cur2)); [|by eapply IH].
  apply flush_packed with (rest := s :: scored) in H as [?|(plans3 & cur3 & Hp3 & H & ->)]; [done| |done].
  pose proof (packed_drop _ _ _ _ Hp3) as Hdrop3.
  destruct (Z.ltb_spec (cf_header_gas_limit cfg) fresh) as [|Hfr]; [by eapply IH|].
  destruct (_ && no_groups EMPTY_PLAN); [injection H as <-; by eapply packed_stop|].
  eapply IH; [done| |exact H]. eapply packed_push; try done; try (by left).
  cbn. unfold saturating_add at 1. lia.
Qed.
End Packing.

(** ** Scoring *)

Section Scoring.
Context `{B : ExitBook} (cfg : SelectCfg) (flash : FlashIndex) (haircut : Haircut) (warm : option RouteTable)
  (market : MarketView) (gas : GasTerms).

Lemma evaluate_lends ctx q choice sources leg : evaluate ctx q choice sources = Ok (Some leg) ->
  fr_amount (sl_route leg) = sl_s leg.
Proof.
  unfold evaluate. intros H. do 2 apply bind_Ok in H as (? & _ & H). destruct (negb _); [done|].
  do 2 apply bind_Ok in H as (? & _ & H). destruct (mv_band _ _ _ _); [|done].
  apply bind_Ok in H as (? & _ & H). apply bind_Ok in H as (s & _ & H). destruct (_ || _ || _); [done|].
  apply bind_Ok in H as ([quoted|] & _ & H); [|done]. apply bind_Ok in H as (exit & _ & H).
  apply fund_leg_spec in H as (_ & _ & _ & _ & _ & _ & _ & _ & _ & _ & _ & e & fee & _ & _ & Hf).
  by destruct Hf as [-> _ _ _|pool src sz w ws wl nl ns _ _ _ _ _ _ _ -> _ _ _ _ _].
Qed.

Lemma best_plan_lends ctx q leg : best_plan ctx q = Ok (Some leg) -> fr_amount (sl_route leg) = sl_s leg.
Proof.
  unfold best_plan. intros H. apply bind_Ok in H as (best & Hb%best_repay_Ok & H). injection H as H.
  pose proof (keep_best_fold ctx q (combos_from ctx q 0 (q_repay_options q)) None) as Hk. rewrite <- Hb in Hk.
  destruct best as [[w leg']|]; [|done]. injection H as ->.
  destruct Hk as [[? _]|(_ & bf & c & af & _ & Hs & _)]; [done|]. unfold scored in Hs.
  destruct (evaluate ctx q c.1 c.2) as [[l|]|] eqn:E; try done. destruct (contribution_wei _ _) as [[x|]|]; try done.
  injection Hs as _ ->. by eapply evaluate_lends.
Qed.

Lemma size_candidate_lends el leg : size_candidate cfg flash haircut warm market gas el = Ok (Some leg) ->
  fr_amount (sl_route leg) = sl_s leg.
Proof.
  unfold size_candidate. cbv zeta. destruct (is_reward_only _).
  - destruct (cf_weth cfg) as [weth|]; [|done]. unfold pf, map_err.
    destruct (reward_plan _ _ weth) as [r|] eqn:E; [|done]. intros [= ->]. unfold reward_plan in E.
    destruct (q_repay_options _) as [|rp ?]; [done|]. apply bind_Ok in E as (st & _ & E).
    destruct (rw_best st) as [[[[[? ?] ?] ?] ?]|]; [|done]. destruct (_ =? 0); [done|]. by injection E as <-.
  - unfold pf, map_err. destruct (best_plan _ _) as [r|] eqn:E; [|done]. intros [= ->]. by eapply best_plan_lends.
Qed.

Lemma score_one_spec el s : score_one cfg flash haircut warm market gas el = Ok (Some s) ->
  sd_position s = pi_position (el_pos el) /\ lends s /\
  bool_decide (is_Some (sd_bid_bps s)) = bool_decide (is_Some (cf_bids cfg)).
Proof.
  unfold score_one. intros H. apply bind_Ok in H as ([leg|] & Hleg & H); [|done].
  apply size_candidate_lends in Hleg.
  apply bind_Ok in H as ([gs|] & _ & H); [|done]. cbv zeta in H. destruct (_ && _); [done|].
  apply bind_Ok in H as (eg & _ & H). case_match; [|done]. apply bind_Ok in H as (wei & _ & H).
  apply bind_Ok in H as (cpg & _ & H). destruct (candidate_bid _ _ _ _) as [bid|] eqn:Eb; [|done]. injection H as <-.
  cbn [sd_position sd_leg sd_bid_bps]. split; [done|]. split; [done|]. unfold candidate_bid in Eb.
  destruct (cf_bids cfg) as [sched|]; [|by injection Eb as <-]. destruct (debt_notional_eth_wei _ _); [|done].
  destruct (beta_of _ _); [|done]. by injection Eb as <-.
Qed.

Lemma score_all_spec admitted : forall order ss, score_all cfg flash haircut warm market gas admitted order = Ok ss ->
  Forall (fun s => exists el, el ∈ admitted /\ score_one cfg flash haircut warm market gas el = Ok (Some s)) ss /\
  jobs ss `sublist_of` (fun el => pi_position (el_pos el)) <$> omap (fun i => admitted !! i) (snd <$> order).
Proof.
  induction order as [|[k i] order IH]; intros ss; cbn [score_all]; [intros [= <-]; split; constructor|].
  rewrite fmap_cons. cbn [snd omap list_omap]. destruct (admitted !! i) as [el|] eqn:Ei; [|apply IH]. intros H.
  apply bind_Ok in H as (s & Hs & H). apply bind_Ok in H as (ss' & Hss & [= <-]). destruct (IH ss' Hss) as [IH1 IH2].
  destruct s as [s|]; rewrite fmap_cons.
  - split.
    + constructor; [|done]. exists el. split; [by eapply list_elem_of_lookup_2|done].
    + destruct (score_one_spec _ _ Hs) as (Epos & _). unfold jobs. rewrite fmap_cons, Epos. by apply sublist_skip.
  - split; [done|]. by apply sublist_cons.
Qed.

Lemma omap_seq_lookup {A} (l : list A) : omap (fun i => l !! i) (seq 0 (length l)) = l.
Proof.
  enough (forall l1 l2 : list A, omap (fun i => (l1 ++ l2) !! i) (seq (length l1) (length l2)) = l2) as E by exact (E [] l).
  intros l1 l2. revert l1. induction l2 as [|x l2 IH]; intros l1; [done|]. cbn [length seq omap list_omap].
  rewrite lookup_app_r, Nat.sub_diag by lia. cbn [lookup list_lookup]. f_equal. specialize (IH (l1 ++ [x])).
  rewrite length_app, Nat.add_1_r, <- app_assoc in IH. exact IH.
Qed.

Lemma crude_order_jobs admitted k :
  omap (fun i => admitted !! i) (snd <$> take k (crude_order admitted warm market)) ⊆+ admitted.
Proof.
  transitivity (omap (fun i => admitted !! i) (snd <$> crude_order admitted warm market)).
  - apply sublist_submseteq. rewrite fmap_take. generalize (snd <$> crude_order admitted warm market) as l.
    intros l. revert k. induction l as [|i l IH]; intros [|k]; cbn; try apply sublist_nil_l.
    destruct (admitted !! i); [by apply sublist_skip|done].
  - unfold crude_order. rewrite sort_by_perm. rewrite fmap_imap.
    assert (imap (fun i e => snd (crude_key e warm market, i)) admitted = seq 0 (length admitted)) as E.
    { clear. assert (forall n (l : list Eligible), imap (fun i _ => (n + i)%nat) l = seq n (length l)) as E.
      { intros n l. revert n. induction l as [|x l IH]; intros n; cbn; [done|]. rewrite Nat.add_0_r. f_equal.
        rewrite <- (IH (S n)). apply imap_ext. intros; cbn; lia. }
      rewrite <- (E 0%nat). by apply imap_ext. }
    change (fun (i : nat) (e : Eligible) => _) with (fun (i : nat) (e : Eligible) => snd (crude_key e warm market, i)) in E.
    unfold compose. cbn in *. rewrite E, omap_seq_lookup. reflexivity.
Qed.
End Scoring.

(** C18. The plans a drain selects: no more than the nonce slots; every position at most as often
    as it was put in, and only positions that are liquidatable now, triggered by something that
    happened, with a leg that was scored and is worth its gas; each plan within the header's
    gas and the legs of a bundle, with one bid; each of its debts at most once, with at most as
    many legs as a tie can name, a flash swap alone, and lent at least what its legs repay. *)
Theorem selected_plans_are_sound `{B : ExitBook} (cfg : SelectCfg) (flash : FlashIndex) (haircut : Haircut)
    (warm : option RouteTable) (market : MarketView) (gas : GasTerms) (inputs : list PositionInput) (plans : list SelectedPlan)
    (Hslots : 0 <= cf_nonce_slots cfg) (Hborrow : 0 <= cf_over_borrow cfg) (Hlimit : 0 <= cf_header_gas_limit cfg)
    (Hsel : select cfg flash haircut warm market gas inputs = Ok plans) :
  Z.of_nat (length plans) <= cf_nonce_slots cfg /\
  Forall (sent cfg flash) plans /\
  jobs (flat_map plan_legs plans) ⊆+ pi_position <$> inputs /\
  Forall (fun s => exists i s0 price, i ∈ inputs /\ is_liquidatable (pi_health i) = true /\
    pi_cause i <> OraclePredicted /\ pi_p i <= RAY /\
    score_one cfg flash haircut warm market gas (mkEligible i) = Ok (Some s0) /\
    gas_price_in_debt gas = Ok price /\ worth price s0 /\ requoted s0 s) (flat_map plan_legs plans).
Proof.
  unfold select in Hsel. destruct (_ =? 0); [done|]. destruct (Z.eqb_spec (cf_nonce_slots cfg) 0); [done|].
  destruct (cf_exact_k cfg =? 0); [done|].
  assert ((fun el => pi_position (el_pos el)) <$> omap admit_input inputs `sublist_of` pi_position <$> inputs) as Hsub.
  { clear. induction inputs as [|i l IH]; cbn; [constructor|]. unfold admit_input at 1.
    repeat case_match; simplify_eq; try (by apply sublist_cons). by apply sublist_skip. }
  assert (forall el, el ∈ omap admit_input inputs -> exists i, i ∈ inputs /\ el = mkEligible i /\
    is_liquidatable (pi_health i) = true /\ pi_cause i <> OraclePredicted /\ pi_p i <= RAY) as Hel.
  { intros el (i & Hi & Ha)%list_elem_of_omap. exists i. unfold admit_input in Ha. case_bool_decide; [done|].
    destruct (Z.ltb_spec RAY (pi_p i)); [done|]. destruct (is_liquidatable _) eqn:E; [|done]. injection Ha as <-. done. }
  unfold rank in Hsel. destruct (omap admit_input inputs) as [|e0 es] eqn:Ead.
  { injection Hsel as <-. cbn. split_and!; try lia; try constructor. apply submseteq_nil_l. }
  rewrite <- Ead in *. clear Ead e0 es. cbv zeta in Hsel. apply bind_Ok in Hsel as (ss & Hss & Hsel).
  destruct (score_all_spec cfg flash haircut warm market gas _ _ _ Hss) as [Hfrom Hjobs].
  unfold pack in Hsel. apply bind_Ok in Hsel as (price & Hprice & Hsel). unfold pf, map_err in Hprice.
  destruct (gas_price_in_debt gas) as [pr|] eqn:Eprice; [|done]. injection Hprice as ->.
  set (all := sort_by score_leb ss) in *. assert (all ≡ₚ ss) as Hperm by apply sort_by_perm.
  assert (Forall (fun s => lends s /\ bool_decide (is_Some (sd_bid_bps s)) = bool_decide (is_Some (cf_bids cfg))) all) as Hall.
  { rewrite Hperm. eapply Forall_impl; [exact Hfrom|]. by intros s (el & _ & (_ & ?)%score_one_spec). }
  destruct (pack_loop_packed cfg flash gas price all _ Hborrow Hlimit Hall all [] EMPTY_PLAN plans) as [H1 H2 H3 H4].
  { by apply Forall_forall. }
  { constructor; [cbn; lia|constructor|by apply empty_ok|constructor|reflexivity]. }
  { exact Hsel. }
  split; [done|]. split; [done|]. split.
  - etransitivity; [exact H4|]. unfold jobs. rewrite Hperm. fold (jobs ss). etransitivity; [by apply sublist_submseteq|].
    etransitivity; [|by apply sublist_submseteq]. apply fmap_submseteq, crude_order_jobs.
  - eapply Forall_impl; [exact H3|]. intros s (s0 & Hs0 & Hw & Hr). rewrite Hperm in Hs0.
    rewrite Forall_forall in Hfrom. destruct (Hfrom s0 Hs0) as (el & He & Hsc). destruct (Hel el He) as (i & Hi & -> & Hli & Hca & Hpi).
    by exists i, s0, price.
Qed.

Definition sample_select_cfg : SelectCfg := mkSelectCfg FEE_ONLY 10 8 8 20 30000000 (replicate 7 100000) 0 None
  (liq_gas_uniform 300000) 0 MIN_OUT_TOLERANCE_BPS SOLVE_BUDGET_DEFAULT None None.
Definition sample_input (pos : PositionId) (state : HealthState) : PositionInput :=
  mkPInput pos 1 (mkHealth (RAY - 1) 1 1 0 state) sample_quote OraclePublic RAY None 0.
Definition sample_inputs : list PositionInput :=
  [sample_input 3 HLiquidatable; sample_input 9 HHealthy; sample_input 4 HLiquidatable].
Definition sample_select : SRes (list SelectedPlan) :=
  @select deep_book sample_select_cfg sample_index HAIRCUT_NONE None sample_market (mkGas 1 1 (10 ^ 18)) sample_inputs.

(** Two liquidatable positions of one debt go out in one plan, the healthy one does not. *)
Lemma selected_plans_are_sound_witness :
  exists p, sample_select = Ok [p] /\ plan_jobs p = [3%nat; 4%nat] /\ @sent sample_select_cfg sample_index p.
Proof.
  destruct sample_select as [plans|] eqn:E; [|vm_compute in E; discriminate E].
  assert ((plan_jobs <$> plans) = [[3%nat; 4%nat]]) as Hj
    by (pose proof E as E'; vm_compute in E'; injection E' as <-; reflexivity).
  destruct (@selected_plans_are_sound deep_book sample_select_cfg sample_index HAIRCUT_NONE None sample_market
    (mkGas 1 1 (10 ^ 18)) sample_inputs plans ltac:(vm_compute; congruence) ltac:(vm_compute; congruence) ltac:(vm_compute; congruence) E)
    as (_ & Hsent & _).
  destruct plans as [|p [|? ?]]; [discriminate Hj| |discriminate Hj].
  exists p. split; [reflexivity|]. split; [by injection Hj|]. exact (Forall_inv Hsent).
Defined.
