(* ===== verification/Balancer.v ===== *)
(** * Balancer V2 weighted pools

    [liq-router/src/balancer.rs]: fixed point with 18 decimals, [LogExpMath], the weighted
    formulas and the two-token pool. [int256] operations are checked at 256 bits and truncate
    toward zero. *)

From S2P Require Import Prelude Fixed Types RouterFees PoolMath RouterPairs.
Local Open Scope Z_scope.

Module Balancer.

Definition ONE : Z := 1000000000000000000.
Definition MAX_POW_RELATIVE_ERROR : Z := 10000.
Definition MAX_RATIO : Z := 300000000000000000.

(** ** Fixed point *)

Definition add (a b : Z) : RRes Z := math (checked_add 256 a b).
Definition sub (a b : Z) : RRes Z := math (checked_sub a b).
Definition mul_down (a b : Z) : RRes Z := let? p := math (checked_mul 256 a b) in Ok (p / ONE).
Definition mul_up (a b : Z) : RRes Z :=
  let? p := math (checked_mul 256 a b) in
  if p =? 0 then Ok 0 else add ((p - 1) / ONE) 1.
Definition div_down (a b : Z) : RRes Z :=
  if b =? 0 then Err RMath else
  if a =? 0 then Ok 0 else
  let? p := math (checked_mul 256 a ONE) in Ok (p / b).
Definition div_up (a b : Z) : RRes Z :=
  if b =? 0 then Err RMath else
  if a =? 0 then Ok 0 else
  let? p := math (checked_mul 256 a ONE) in
  add ((p - 1) / b) 1.
Definition complement (x : Z) : Z := if x <? ONE then ONE - x else 0.

(** ** Logarithm and exponential *)

Definition ck (x : Z) : RRes Z := math (checked_i 256 x).
Definition ck_add (a b : Z) : RRes Z := ck (a + b).
Definition ck_sub (a b : Z) : RRes Z := ck (a - b).
Definition ck_mul (a b : Z) : RRes Z := ck (a * b).
Definition ck_div (a b : Z) : RRes Z := if b =? 0 then Err RMath else ck (Z.quot a b).
Definition ck_rem (a b : Z) : RRes Z :=
  if (b =? 0) || ((a =? - 2 ^ 255) && (b =? -1)) then Err RMath else ck (Z.rem a b).
Definition ck_neg (a : Z) : RRes Z := ck (- a).

Definition one_18 : Z := 10 ^ 18.
Definition one_20 : Z := 10 ^ 20.
Definition one_36 : Z := 10 ^ 36.

(** [Consts::x] and [Consts::a]: the first two without the twenty decimals of the rest. *)
Definition X0 : Z := 128000000000000000000.
Definition X1 : Z := 64000000000000000000.
Definition A0 : Z := 38877084059945950922200000000000000000000000000000000000.
Definition A1 : Z := 6235149080811616882910000000.
Definition XA : list (Z * Z) :=
  [ (3200000000000000000000, 7896296018268069516100000000000000);
    (1600000000000000000000, 888611052050787263676000000);
    (800000000000000000000, 298095798704172827474000);
    (400000000000000000000, 5459815003314423907810);
    (200000000000000000000, 738905609893065022723);
    (100000000000000000000, 271828182845904523536);
    (50000000000000000000, 164872127070012814685);
    (25000000000000000000, 128402541668774148407);
    (12500000000000000000, 113314845306682631683);
    (6250000000000000000, 106449445891785942956) ].

(** The series both logarithms end in: [num] times [z_squared] at each odd divisor. *)
Fixpoint odd_series (unit z_squared : Z) (divisors : list Z) (num series : Z) : RRes Z :=
  match divisors with
  | [] => Ok series
  | d :: divisors =>
      let? p := ck_mul num z_squared in
      let? num := ck_div p unit in
      let? t := ck_div num d in
      let? series := ck_add series t in
      odd_series unit z_squared divisors num series
  end.

(** [z = (x - unit) / (x + unit)] and twice its series. *)
Definition log_series (unit : Z) (divisors : list Z) (x : Z) : RRes Z :=
  let? d := ck_sub x unit in
  let? n := ck_mul d unit in
  let? s := ck_add x unit in
  let? z := ck_div n s in
  let? zz := ck_mul z z in
  let? z_squared := ck_div zz unit in
  let? series := odd_series unit z_squared divisors z z in
  ck_mul series 2.

Definition ln_36 (x : Z) : RRes Z :=
  let? x := ck_mul x one_18 in
  log_series one_36 [3; 5; 7; 9; 11; 13; 15] x.

Fixpoint ln_loop (xa : list (Z * Z)) (a sum : Z) : RRes (Z * Z) :=
  match xa with
  | [] => Ok (a, sum)
  | (xn, an) :: xa =>
      if an <=? a then
        let? p := ck_mul a one_20 in
        let? a := ck_div p an in
        let? sum := ck_add sum xn in
        ln_loop xa a sum
      else ln_loop xa a sum
  end.

Definition ln_body (a : Z) : RRes Z :=
  let? t0 := ck_mul A0 one_18 in
  let? (a, sum) :=
    (if t0 <=? a then let? a := ck_div a A0 in let? s := ck_add 0 X0 in Ok (a, s) else Ok (a, 0)) in
  let? t1 := ck_mul A1 one_18 in
  let? (a, sum) :=
    (if t1 <=? a then let? a := ck_div a A1 in let? s := ck_add sum X1 in Ok (a, s) else Ok (a, sum)) in
  let? sum := ck_mul sum 100 in
  let? a := ck_mul a 100 in
  let? (a, sum) := ln_loop XA a sum in
  let? series := log_series one_20 [3; 5; 7; 9; 11] a in
  let? t := ck_add sum series in
  ck_div t 100.

(** [ln] calls itself once, on the inverse of a value below one; [fuel] counts those calls. *)
Fixpoint ln (fuel : nat) (a : Z) : RRes Z :=
  if a <? one_18 then
    let? sq := ck_mul one_18 one_18 in
    let? inv := ck_div sq a in
    match fuel with
    | O => Err RMath
    | S fuel => let? l := ln fuel inv in ck_neg l
    end
  else ln_body a.

Fixpoint exp_loop (xa : list (Z * Z)) (x product : Z) : RRes (Z * Z) :=
  match xa with
  | [] => Ok (x, product)
  | (xn, an) :: xa =>
      if xn <=? x then
        let? x := ck_sub x xn in
        let? p := ck_mul product an in
        let? product := ck_div p one_20 in
        exp_loop xa x product
      else exp_loop xa x product
  end.

Fixpoint taylor (x : Z) (ns : list Z) (term series : Z) : RRes Z :=
  match ns with
  | [] => Ok series
  | n :: ns =>
      let? p := ck_mul term x in
      let? q := ck_div p one_20 in
      let? term := ck_div q n in
      let? series := ck_add series term in
      taylor x ns term series
  end.

Definition exp_body (x : Z) : RRes Z :=
  let? (x, first_an) :=
    (if X0 <=? x then let? x := ck_sub x X0 in Ok (x, A0)
     else if X1 <=? x then let? x := ck_sub x X1 in Ok (x, A1)
     else Ok (x, 1)) in
  let? x := ck_mul x 100 in
  let? (x, product) := exp_loop (take 8 XA) x one_20 in
  let? series := ck_add one_20 x in
  let? series := taylor x [2; 3; 4; 5; 6; 7; 8; 9; 10; 11; 12] x series in
  let? p := ck_mul product series in
  let? q := ck_div p one_20 in
  let? r := ck_mul q first_an in
  ck_div r 100.

Definition EXP_MIN : Z := -41000000000000000000.
Definition EXP_MAX : Z := 130000000000000000000.

(** [exp] calls itself once, on the opposite of a negative value. *)
Fixpoint exp (fuel : nat) (x : Z) : RRes Z :=
  if (x <? EXP_MIN) || (EXP_MAX <? x) then Err RMath else
  if x <? 0 then
    let? neg := ck_neg x in
    match fuel with
    | O => Err RMath
    | S fuel =>
        let? pos := exp fuel neg in
        let? sq := ck_mul one_18 one_18 in
        ck_div sq pos
    end
  else exp_body x.

Definition MILD_EXPONENT_BOUND : Z := 2 ^ 254 / 10 ^ 20.

Definition log_exp_pow (x y : Z) : RRes Z :=
  if y =? 0 then Ok ONE else
  if x =? 0 then Ok 0 else
  if negb (Z.shiftr x 255 =? 0) then Err RMath else
  if MILD_EXPONENT_BOUND <=? y then Err RMath else
  let? lower := ck_add one_18 (-100000000000000000) in
  let? upper := ck_add one_18 100000000000000000 in
  let? logx_times_y :=
    (if (lower <? x) && (x <? upper) then
       let? ln36 := ln_36 x in
       let? q := ck_div ln36 one_18 in
       let? a := ck_mul q y in
       let? r := ck_rem ln36 one_18 in
       let? b := ck_mul r y in
       let? b := ck_div b one_18 in
       ck_add a b
     else let? l := ln 1 x in ck_mul l y) in
  let? logx_times_y := ck_div logx_times_y one_18 in
  if (logx_times_y <? EXP_MIN) || (EXP_MAX <? logx_times_y) then Err RMath else
  let? r := exp 1 logx_times_y in
  Ok (r mod 2 ^ 256).

Definition pow_up (x y : Z) (fast : bool) : RRes Z :=
  if fast && (y =? ONE) then Ok x else
  if fast && (y =? 2 * ONE) then mul_up x x else
  if fast && (y =? 4 * ONE) then let? sq := mul_up x x in mul_up sq sq else
  let? raw := log_exp_pow x y in
  let? m := mul_up raw MAX_POW_RELATIVE_ERROR in
  let? max_error := add m 1 in
  add raw max_error.

(** ** The weighted formulas *)

Definition calc_out_given_in (balance_in weight_in balance_out weight_out amount_in : Z) (fast : bool) : RRes Z :=
  let? cap := mul_down balance_in MAX_RATIO in
  if cap <? amount_in then Err RMath else
  let? denominator := add balance_in amount_in in
  let? base := div_up balance_in denominator in
  let? exponent := div_down weight_in weight_out in
  let? power := pow_up base exponent fast in
  mul_down balance_out (complement power).

Definition calc_in_given_out (balance_in weight_in balance_out weight_out amount_out : Z) (fast : bool) : RRes Z :=
  let? cap := mul_down balance_out MAX_RATIO in
  if cap <? amount_out then Err RMath else
  let? rest := sub balance_out amount_out in
  let? base := div_up balance_out rest in
  let? exponent := div_up weight_out weight_in in
  let? power := pow_up base exponent fast in
  let? ratio := sub power ONE in
  mul_up balance_in ratio.

(** ** The pool *)

Record BalancerRead := mkRead {
  br_balances : list Z; br_weights : list Z; br_swap_fee : Z; br_paused : bool }.

Record BalancerState := mkBalancer {
  bl_pool_id : Z;
  bl_tokens : list Address;
  bl_balances : list Z;
  bl_weights : list Z;
  bl_scaling : list Z;
  bl_swap_fee : Z;
  bl_fast_pow : bool;
  bl_stale : bool;
  bl_stale_block : Z;
  bl_read_block : Z
}.

Definition with_balances (s : BalancerState) (bs : list Z) : BalancerState :=
  mkBalancer (bl_pool_id s) (bl_tokens s) bs (bl_weights s) (bl_scaling s) (bl_swap_fee s)
    (bl_fast_pow s) (bl_stale s) (bl_stale_block s) (bl_read_block s).

(** [pair]: the two indices, in range and with a weight and a scale each. *)
Definition pair (s : BalancerState) (i j : nat) : RRes (nat * nat) :=
  if (i =? j)%nat || (length (bl_balances s) <=? i)%nat || (length (bl_balances s) <=? j)%nat then Err BadLeg else
  if negb (length (bl_weights s) =? length (bl_balances s))%nat ||
     negb (length (bl_scaling s) =? length (bl_balances s))%nat then Err BadLeg else Ok (i, j).

Definition is_live (s : BalancerState) : bool :=
  negb (bl_stale s) && (length (bl_balances s) =? 2)%nat && forallb (fun b => negb (b =? 0)) (bl_balances s) &&
  (length (bl_weights s) =? 2)%nat && (length (bl_scaling s) =? 2)%nat.

(** An index [pair] has checked. The scales are powers of ten, so the divisions by them have
    a divisor. *)
Definition at_ (l : list Z) (i : nat) : Z := l !!! i.

Definition dy (s : BalancerState) (i j : nat) (dx : Z) : RRes Z :=
  if bl_stale s then Err StalePool else
  let? (i, j) := pair s i j in
  if dx =? 0 then Ok 0 else
  let si := at_ (bl_scaling s) i in let sj := at_ (bl_scaling s) j in
  let? bi := math (checked_mul 256 (at_ (bl_balances s) i) si) in
  let? bj := math (checked_mul 256 (at_ (bl_balances s) j) sj) in
  let? fee := mul_up dx (bl_swap_fee s) in
  let? net := sub dx fee in
  let? amount := math (checked_mul 256 net si) in
  let? out := calc_out_given_in bi (at_ (bl_weights s) i) bj (at_ (bl_weights s) j) amount (bl_fast_pow s) in
  Ok (out / sj).

Definition dx (s : BalancerState) (i j : nat) (dy : Z) : RRes Z :=
  if bl_stale s then Err StalePool else
  let? (i, j) := pair s i j in
  let si := at_ (bl_scaling s) i in let sj := at_ (bl_scaling s) j in
  let? bi := math (checked_mul 256 (at_ (bl_balances s) i) si) in
  let? bj := math (checked_mul 256 (at_ (bl_balances s) j) sj) in
  let? amount := math (checked_mul 256 dy sj) in
  let? raw := calc_in_given_out bi (at_ (bl_weights s) i) bj (at_ (bl_weights s) j) amount (bl_fast_pow s) in
  let down := if raw =? 0 then 0 else (raw - 1) / si + 1 in
  div_up down (complement (bl_swap_fee s)).

Definition capacity_in (s : BalancerState) (i : nat) : option Z :=
  let! bal := bl_balances s !! i in
  let! cap := checked_mul 256 bal MAX_RATIO in
  let! c := checked_mul 256 (cap / ONE) ONE in
  checked_div c (complement (bl_swap_fee s)).

Definition apply (s : BalancerState) (i j : nat) (dx : Z) : BalancerState * RRes Z :=
  match dy s i j dx with
  | Err e => (s, Err e)
  | Ok out =>
      match pair s i j with
      | Err e => (s, Err e)
      | Ok (i, j) =>
          match add (at_ (bl_balances s) i) dx with
          | Err e => (s, Err e)
          | Ok bi =>
              let s := with_balances s (<[i := bi]> (bl_balances s)) in
              match sub (at_ (bl_balances s) j) out with
              | Err e => (s, Err e)
              | Ok bj => (with_balances s (<[j := bj]> (bl_balances s)), Ok out)
              end
          end
      end
  end.

Definition rho (s : BalancerState) (i j : nat) (x : Z) : RRes Z :=
  let? bi := ok_or (bl_balances s !! i) BadLeg in
  let h := Z.max (bi / 100000) 1 in
  let a := if x =? 0 then h else x in
  let? q0 := dy s i j a in
  let? a' := add a h in
  let? q1 := dy s i j a' in
  let dq := saturating_sub q1 q0 in
  let? p := math (checked_mul 512 dq Q192) in
  let? q := math (checked_div p h) in
  narrow (Z.sqrt q).

(** ** Recorded answers

    Answers of the Vault to exact-input and exact-output queries, recorded at one block: a pool
    of 2023 with the power shortcuts and one of 2021 without. *)
Definition wsteth_aave : BalancerState :=
  mkBalancer 0 [] [223471482668371503245; 16578258915757705904299] [200000000000000000; 800000000000000000]
    [1; 1] 2920000000000000 true false 0 0.

Definition wbtc_weth : BalancerState :=
  mkBalancer 0 [] [1150039575; 383801728193370107743] [500000000000000000; 500000000000000000]
    [10000000000; 1] 2500000000000000 false false 0 0.

(** The model answers what the Vault answered, to the last unit, and refuses what it refused. *)
Lemma recorded_answers :
  dy wsteth_aave 0 1 11173574133418575162 = Ok 200416381081987403539 /\
  dx wsteth_aave 0 1 828912945787885295214 = Ok 51041915638302835692 /\
  is_ok (dy wsteth_aave 0 1 69276159627195166005) = false /\
  is_ok (dx wsteth_aave 0 1 5139260263884888830332) = false /\
  dy wsteth_aave 1 0 828912945787885295214 = Ok 39518649355285808520 /\
  dx wsteth_aave 1 0 11173574133418575162 = Ok 214583853369363737617 /\
  dy wbtc_weth 0 1 57501978 = Ok 18232752411808104635 /\
  dx wbtc_weth 0 1 19190086409668505387 = Ok 60680100 /\
  dy wbtc_weth 0 1 172505936 = Ok 49952230911897435484 /\
  is_ok (dx wbtc_weth 0 1 118978535739944733400) = false /\
  dy wbtc_weth 1 0 57570259229005516161 = Ok 149678957 /\
  dx wbtc_weth 1 0 172505936 = Ok 67899465287753173819.
Proof. vm_compute. tauto. Qed.

(** ** The rounding *)

Lemma math_Ok {A} (o : option A) a : math o = Ok a <-> o = Some a.
Proof. unfold math, ok_or. destruct o; split; congruence. Qed.

Lemma fp_add_Ok a b c : add a b = Ok c -> c = a + b /\ c <= umax 256.
Proof. unfold add. rewrite math_Ok. intros H%checked_add_Some. lia. Qed.
Lemma fp_sub_Ok a b c : sub a b = Ok c -> c = a - b /\ b <= a.
Proof. unfold sub. rewrite math_Ok. intros H%checked_sub_Some. lia. Qed.

Lemma mul_down_Ok a b c : 0 <= a -> 0 <= b -> mul_down a b = Ok c -> 0 <= c /\ c * ONE <= a * b.
Proof.
  intros Ha Hb H. unfold mul_down in H. destruct (math _) as [p|] eqn:E; [|done]. injection H as <-.
  apply math_Ok, checked_mul_Some in E as [-> _].
  pose proof (div_rem_spec (a * b) ONE eq_refl). split; [apply Z.div_pos; [nia|done]|lia].
Qed.

(** What [mul_up] and [div_up] compute: a quotient that reaches the product. *)
Lemma round_up_reaches p d q : 0 < d -> 0 <= p -> q = (if p =? 0 then 0 else (p - 1) / d + 1) -> 0 <= q /\ p <= q * d.
Proof.
  intros Hd Hp ->. destruct (p =? 0) eqn:E; zbool; [lia|].
  pose proof (div_rem_spec (p - 1) d Hd). pose proof (Z.div_pos (p - 1) d ltac:(lia) Hd). nia.
Qed.

Lemma mul_up_Ok a b c : 0 <= a -> 0 <= b -> mul_up a b = Ok c -> 0 <= c /\ a * b <= c * ONE.
Proof.
  intros Ha Hb H. unfold mul_up in H. destruct (math _) as [p|] eqn:E; [|done].
  apply math_Ok, checked_mul_Some in E as [-> _].
  apply round_up_reaches; [done|nia|]. destruct (a * b =? 0); [congruence|]. by apply fp_add_Ok in H as [-> _].
Qed.

Lemma div_up_Ok a b c : 0 <= a -> 0 <= b -> div_up a b = Ok c -> 0 < b /\ 0 <= c /\ a * ONE <= c * b.
Proof.
  intros Ha Hb H. unfold div_up in H. destruct (b =? 0) eqn:Eb; [done|]. zbool. split; [lia|].
  destruct (a =? 0) eqn:Ea; zbool; [injection H as <-; lia|].
  destruct (math _) as [p|] eqn:E; [|done]. apply math_Ok, checked_mul_Some in E as [-> _].
  apply round_up_reaches; [lia|unfold ONE; lia|].
  apply fp_add_Ok in H as [-> _]. replace (a * ONE =? 0) with false; [done|]. symmetry. apply Z.eqb_neq. unfold ONE. lia.
Qed.

(** ** The weighted product *)

(** The exponents of [powUp] with a shortcut. *)
Definition short (e : Z) : Prop := e = 1 \/ e = 2 \/ e = 4.

Lemma pow_up_short x e p : short e -> 0 <= x -> pow_up x (e * ONE) true = Ok p -> 0 <= p /\ x ^ e <= p * ONE ^ (e - 1).
Proof.
  intros He Hx H. unfold pow_up in H. destruct He as [-> | [-> | ->]].
  - change (true && (1 * ONE =? ONE)) with true in H. injection H as <-. rewrite Z.pow_1_r. cbn. lia.
  - change (true && (2 * ONE =? ONE)) with false in H. change (true && (2 * ONE =? 2 * ONE)) with true in H. cbv iota in H.
    apply mul_up_Ok in H as [? ?]; [|done..]. rewrite Z.pow_2_r. by rewrite Z.pow_1_r.
  - change (true && (4 * ONE =? ONE)) with false in H. change (true && (4 * ONE =? 2 * ONE)) with false in H.
    change (true && (4 * ONE =? 4 * ONE)) with true in H. cbv iota in H.
    destruct (mul_up x x) as [sq|] eqn:E; [|done]. apply mul_up_Ok in E as [Hsq E]; [|done..].
    apply mul_up_Ok in H as [Hp H]; [|done..]. split; [done|].
    assert (Hxx : (x * x) * (x * x) <= (sq * ONE) * (sq * ONE)) by (apply Z.mul_le_mono_nonneg; nia).
    replace (x ^ 4) with ((x * x) * (x * x)) by ring. replace (ONE ^ (4 - 1)) with (ONE * ONE * ONE) by reflexivity.
    assert (0 < ONE) by done. nia.
Qed.

(** Powers of a rounded-up quotient. *)
Lemma pow_quotient a b q e : short e -> 0 <= a -> 0 < b -> 0 <= q -> a * ONE <= q * b ->
  a ^ e * ONE ^ e <= q ^ e * b ^ e.
Proof.
  intros He Ha Hb Hq H. assert (0 <= e) by (destruct He as [-> | [-> | ->]]; lia).
  rewrite <- !Z.pow_mul_l. apply Z.pow_le_mono_l. assert (0 < ONE) by done. nia.
Qed.

Lemma one_pow e : short e -> ONE ^ e = ONE * ONE ^ (e - 1) /\ 0 < ONE ^ (e - 1).
Proof. intros [-> | [-> | ->]]; done. Qed.

Lemma out_given_in_keeps bi wi bo wo a e out : short e -> wi = e * wo -> 0 < wo -> 0 <= bi -> 0 <= bo -> 0 <= a ->
  calc_out_given_in bi wi bo wo a true = Ok out -> bi ^ e * bo <= (bi + a) ^ e * (bo - out).
Proof.
  intros He -> Hwo Hbi Hbo Ha H. unfold calc_out_given_in in H.
  destruct (mul_down bi MAX_RATIO) as [cap|]; [|done]. destruct (cap <? a); [done|].
  destruct (add bi a) as [den|] eqn:Ed; [|done]. apply fp_add_Ok in Ed as [-> _].
  destruct (div_up bi (bi + a)) as [base|] eqn:Eb; [|done].
  apply div_up_Ok in Eb as (Hden & Hbase & Eb); [|lia..].
  assert (He0 : 0 < e) by (destruct He as [-> | [-> | ->]]; lia).
  destruct (div_down (e * wo) wo) as [y|] eqn:Ey; [|done].
  assert (y = e * ONE) as ->.
  { unfold div_down in Ey. destruct (wo =? 0) eqn:?; zbool; [lia|]. destruct (e * wo =? 0) eqn:?; zbool; [nia|].
    destruct (math _) as [p|] eqn:E; [|done]. injection Ey as <-. apply math_Ok, checked_mul_Some in E as [-> _].
    replace (e * wo * ONE) with (e * ONE * wo) by ring. apply Z.div_mul. lia. }
  destruct (pow_up _ _ _) as [p|] eqn:Ep; [|done]. apply pow_up_short in Ep as [Hp Ep]; [|done..].
  pose proof (pow_quotient bi (bi + a) base e He Hbi Hden Hbase Eb) as Hq. destruct (one_pow e He) as [E1 Hpos].
  assert (0 <= (bi + a) ^ e) by (apply Z.pow_nonneg; lia).
  assert (Hmain : bi ^ e * ONE <= p * (bi + a) ^ e).
  { apply (Z.mul_le_mono_pos_r _ _ (ONE ^ (e - 1)) Hpos). rewrite E1 in Hq. nia. }
  unfold complement in H. apply mul_down_Ok in H as [Ho H]; [|done|destruct (p <? ONE) eqn:?; zbool; lia].
  assert (HO : 0 < ONE) by done. apply (Z.mul_le_mono_pos_r _ _ ONE HO). destruct (p <? ONE) eqn:Ec; zbool.
  - assert (Hleft : bo * p <= (bo - out) * ONE) by lia.
    apply (Z.mul_le_mono_nonneg_l _ _ ((bi + a) ^ e)) in Hleft; [|done].
    apply (Z.mul_le_mono_nonneg_l _ _ bo) in Hmain; [|done]. lia.
  - assert (out = 0) as -> by nia. rewrite Z.sub_0_r. apply Z.mul_le_mono_nonneg_r; [lia|].
    apply Z.mul_le_mono_nonneg_r; [done|]. apply Z.pow_le_mono_l. lia.
Qed.

Lemma in_given_out_keeps bi wi bo wo a e inp : short e -> wo = e * wi -> 0 < wi -> 0 <= bi -> 0 <= bo -> 0 <= a ->
  calc_in_given_out bi wi bo wo a true = Ok inp -> bi * bo ^ e <= (bi + inp) * (bo - a) ^ e.
Proof.
  intros He -> Hwi Hbi Hbo Ha H. unfold calc_in_given_out in H.
  destruct (mul_down bo MAX_RATIO) as [cap|]; [|done]. destruct (cap <? a); [done|].
  destruct (sub bo a) as [den|] eqn:Ed; [|done]. apply fp_sub_Ok in Ed as [-> Hle].
  destruct (div_up bo (bo - a)) as [base|] eqn:Eb; [|done].
  apply div_up_Ok in Eb as (Hden & Hbase & Eb); [|lia..].
  destruct (div_up (e * wi) wi) as [y|] eqn:Ey; [|done].
  assert (He0 : 0 < e) by (destruct He as [-> | [-> | ->]]; lia).
  assert (y = e * ONE) as ->.
  { unfold div_up in Ey. destruct (wi =? 0) eqn:?; zbool; [lia|]. destruct (e * wi =? 0) eqn:?; zbool; [nia|].
    destruct (math _) as [p|] eqn:E; [|done]. apply math_Ok, checked_mul_Some in E as [-> _].
    apply fp_add_Ok in Ey as [-> _]. rewrite (div_unique_pos _ wi (e * ONE - 1) (wi - 1)); [lia|lia|ring]. }
  destruct (pow_up _ _ _) as [p|] eqn:Ep; [|done]. apply pow_up_short in Ep as [Hp Ep]; [|done..].
  destruct (sub p ONE) as [r|] eqn:Er; [|done]. apply fp_sub_Ok in Er as [-> Hone].
  apply mul_up_Ok in H as [Hi H]; [|lia..].
  pose proof (pow_quotient bo (bo - a) base e He Hbo Hden Hbase Eb) as Hq. destruct (one_pow e He) as [E1 Hpos].
  assert (0 <= (bo - a) ^ e) by (apply Z.pow_nonneg; lia).
  assert (Hmain : bo ^ e * ONE <= p * (bo - a) ^ e).
  { apply (Z.mul_le_mono_pos_r _ _ (ONE ^ (e - 1)) Hpos). rewrite E1 in Hq. nia. }
  assert (HO : 0 < ONE) by done. apply (Z.mul_le_mono_pos_r _ _ ONE HO).
  assert (Hleft : bi * p <= (bi + inp) * ONE) by lia.
  apply (Z.mul_le_mono_nonneg_l _ _ ((bo - a) ^ e)) in Hleft; [|done].
  apply (Z.mul_le_mono_nonneg_l _ _ bi) in Hmain; [|done]. lia.
Qed.

Lemma log_exp_pow_nonneg x y r : log_exp_pow x y = Ok r -> 0 <= r.
Proof.
  unfold log_exp_pow. intros H.
  destruct (y =? 0); [by injection H as <-|]. destruct (x =? 0); [by injection H as <-|].
  destruct (negb _); [done|]. destruct (MILD_EXPONENT_BOUND <=? y); [done|].
  destruct (ck_add _ _) as [lo|]; [|done]. destruct (ck_add _ _) as [hi|]; [|done].
  match type of H with match ?c with Ok _ => _ | Err _ => _ end = _ => destruct c as [t|]; [|done] end.
  destruct (ck_div t one_18) as [q|]; [|done]. destruct (_ || _); [done|].
  destruct (exp 1 q) as [v|]; [|done]. injection H as <-. by apply Z.mod_pos_bound.
Qed.

Lemma pow_up_nonneg x y fast p : 0 <= x -> pow_up x y fast = Ok p -> 0 <= p.
Proof.
  intros Hx H. unfold pow_up in H. repeat case_match; simplify_eq; try done.
  - by apply mul_up_Ok in H as [? _].
  - apply mul_up_Ok in H as [? _]; [done|..]; by eapply mul_up_Ok.
  - apply fp_add_Ok in H as [-> _]. repeat match goal with E : log_exp_pow _ _ = Ok _ |- _ => apply log_exp_pow_nonneg in E end.
    match goal with E : mul_up _ _ = Ok _ |- _ => apply mul_up_Ok in E as [? _]; [|done..] end.
    match goal with E : add _ _ = Ok _ |- _ => apply fp_add_Ok in E as [-> _] end. lia.
Qed.

Lemma complement_range x : 0 <= x -> 0 <= complement x <= ONE.
Proof. intros Hx. unfold complement. destruct (x <? ONE) eqn:E; zbool; [lia|done]. Qed.

Lemma out_within bi wi bo wo a fast out : 0 <= bi -> 0 <= bo -> 0 <= a ->
  calc_out_given_in bi wi bo wo a fast = Ok out -> 0 <= out <= bo.
Proof.
  intros Hbi Hbo Ha H. unfold calc_out_given_in in H.
  destruct (mul_down bi MAX_RATIO) as [cap|]; [|done]. destruct (cap <? a); [done|].
  destruct (add bi a) as [den|] eqn:Ed; [|done]. apply fp_add_Ok in Ed as [-> _].
  destruct (div_up bi (bi + a)) as [base|] eqn:Eb; [|done].
  apply div_up_Ok in Eb as (_ & Hbase & _); [|lia..].
  destruct (div_down _ _) as [y|]; [|done]. destruct (pow_up _ _ _) as [p|] eqn:Ep; [|done].
  apply pow_up_nonneg in Ep; [|done]. assert (0 < ONE) by done.
  pose proof (complement_range p Ep).
  apply mul_down_Ok in H as [? ?]; [nia|lia..].
Qed.

Lemma in_given_out_range bi wi bo wo a fast inp : 0 <= bi ->
  calc_in_given_out bi wi bo wo a fast = Ok inp -> 0 <= inp /\ a <= bo.
Proof.
  intros Hbi H. unfold calc_in_given_out in H.
  destruct (mul_down bo MAX_RATIO) as [cap|]; [|done]. destruct (cap <? a); [done|].
  destruct (sub bo a) as [den|] eqn:Ed; [|done]. apply fp_sub_Ok in Ed as [-> Hle].
  destruct (div_up bo _) as [base|]; [|done]. destruct (div_up wo wi) as [y|]; [|done].
  destruct (pow_up _ _ _) as [p|]; [|done]. destruct (sub p ONE) as [r|] eqn:Er; [|done]. apply fp_sub_Ok in Er as [-> Hone].
  apply mul_up_Ok in H as [? _]; [done|done|lia].
Qed.

(** A pool whose numbers are of their types, with scales that are powers of ten. *)
Record pool_ok (s : BalancerState) : Prop := {
  pk_balances : Forall (Z.le 0) (bl_balances s);
  pk_scaling : Forall (Z.lt 0) (bl_scaling s);
  pk_fee : 0 <= bl_swap_fee s }.

Lemma pair_Ok s i j p : pair s i j = Ok p -> p = (i, j) /\ i <> j /\
  exists bi bj wi wj si sj, bl_balances s !! i = Some bi /\ bl_balances s !! j = Some bj /\
    bl_weights s !! i = Some wi /\ bl_weights s !! j = Some wj /\ bl_scaling s !! i = Some si /\ bl_scaling s !! j = Some sj.
Proof.
  unfold pair. intros H. destruct (_ || _) eqn:E1 in H; [done|]. destruct (_ || _) eqn:E2 in H; [done|].
  zbool. injection H as <-. split; [done|]. split; [done|].
  assert (forall (l : list Z) k, (k < length l)%nat -> exists x, l !! k = Some x) as G by (intros l k; apply lookup_lt_is_Some_2).
  destruct (G (bl_balances s) i), (G (bl_balances s) j), (G (bl_weights s) i), (G (bl_weights s) j),
    (G (bl_scaling s) i), (G (bl_scaling s) j); try lia. naive_solver.
Qed.

Lemma at_lookup l i x : l !! i = Some x -> at_ l i = x.
Proof. apply list_lookup_total_correct. Qed.

(** What [dy] pays, and what it leaves of the weighted product. *)
Lemma dy_spec s i j dx out : pool_ok s -> 0 <= dx -> dy s i j dx = Ok out ->
  i <> j /\ exists bi bj, bl_balances s !! i = Some bi /\ bl_balances s !! j = Some bj /\ 0 <= bi /\ 0 <= out <= bj /\
  forall e w, short e -> 0 < w -> bl_fast_pow s = true -> bl_weights s !! i = Some (e * w) -> bl_weights s !! j = Some w ->
    bi ^ e * bj <= (bi + dx) ^ e * (bj - out).
Proof.
  intros [Hb Hs Hf] Hx H. unfold dy in H. destruct (bl_stale s); [done|].
  destruct (pair s i j) as [[i' j']|] eqn:Ep; [|done].
  apply pair_Ok in Ep as ([= -> ->] & Hij & bi & bj & wi & wj & si & sj & Ebi & Ebj & Ewi & Ewj & Esi & Esj).
  split; [done|]. exists bi, bj. do 2 (split; [done|]).
  pose proof (Forall_lookup_1 _ _ _ _ Hb Ebi) as Hbi. pose proof (Forall_lookup_1 _ _ _ _ Hb Ebj) as Hbj.
  pose proof (Forall_lookup_1 _ _ _ _ Hs Esi) as Hsi. pose proof (Forall_lookup_1 _ _ _ _ Hs Esj) as Hsj. cbn in *.
  split; [done|]. destruct (dx =? 0) eqn:Ex; zbool.
  { injection H as <-. subst dx. split; [lia|]. intros. by rewrite Z.add_0_r, Z.sub_0_r. }
  rewrite (at_lookup _ _ _ Ebi), (at_lookup _ _ _ Ebj), (at_lookup _ _ _ Ewi), (at_lookup _ _ _ Ewj),
    (at_lookup _ _ _ Esi), (at_lookup _ _ _ Esj) in H.
  destruct (math (checked_mul 256 bi si)) as [ui|] eqn:Eui; [|done]. apply math_Ok, checked_mul_Some in Eui as [-> _].
  destruct (math (checked_mul 256 bj sj)) as [uj|] eqn:Euj; [|done]. apply math_Ok, checked_mul_Some in Euj as [-> _].
  destruct (mul_up dx (bl_swap_fee s)) as [fee|] eqn:Efee; [|done]. apply mul_up_Ok in Efee as [Hfee _]; [|lia..].
  destruct (sub dx fee) as [net|] eqn:Enet; [|done]. apply fp_sub_Ok in Enet as [-> Hnet].
  destruct (math (checked_mul 256 (dx - fee) si)) as [am|] eqn:Eam; [|done]. apply math_Ok, checked_mul_Some in Eam as [-> _].
  destruct (calc_out_given_in _ _ _ _ _ _) as [o|] eqn:Eo; [|done]. injection H as <-.
  assert (Hui : 0 <= bi * si) by nia. assert (Huj : 0 <= bj * sj) by nia. assert (Ham : 0 <= (dx - fee) * si) by nia.
  pose proof (out_within _ _ _ _ _ _ _ Hui Huj Ham Eo) as Ho.
  pose proof (div_rem_spec o sj Hsj) as [Hdiv Hmod].
  split; [split; [apply Z.div_pos; lia|apply Z.div_le_upper_bound; lia]|].
  intros e w He Hw Hfast Hwi Hwj. simplify_eq. rewrite Hfast in Eo.
  pose proof (out_given_in_keeps _ _ _ _ _ _ _ He eq_refl Hw Hui Huj Ham Eo) as Hk.
  assert (He0 : 0 <= e) by (destruct He as [-> | [-> | ->]]; lia).
  assert (Hse : 0 < si ^ e) by (apply Z.pow_pos_nonneg; lia).
  apply (Z.mul_le_mono_pos_r _ _ (si ^ e * sj)); [nia|].
  replace (bi ^ e * bj * (si ^ e * sj)) with ((bi * si) ^ e * (bj * sj)) by (rewrite Z.pow_mul_l; ring).
  etransitivity; [exact Hk|].
  replace ((bi + dx) ^ e * (bj - o / sj) * (si ^ e * sj)) with ((bi * si + dx * si) ^ e * (bj * sj - sj * (o / sj)))
    by (replace (bi * si + dx * si) with ((bi + dx) * si) by ring; rewrite Z.pow_mul_l; ring).
  apply Z.mul_le_mono_nonneg; [apply Z.pow_nonneg; nia| |nia|lia]. apply Z.pow_le_mono_l. nia.
Qed.

(** C35. A swap on a weighted pool is all or nothing: refused, it leaves the pool as it was;
    made, it takes exactly the input, pays the output out of what the pool holds and moves no
    other balance. Where the power has a shortcut (a 2023 pool whose weights are as 1, 2 or 4
    to 1) the weighted product of the balances never falls. *)
Theorem balancer_product_never_falls (s : BalancerState) (i j : nat) (dx : Z) (Hs : pool_ok s) (Hx : 0 <= dx) :
  match apply s i j dx with
  | (s', Err _) => s' = s
  | (s', Ok out) => exists bi bj,
      bl_balances s !! i = Some bi /\ bl_balances s !! j = Some bj /\ i <> j /\ 0 <= out <= bj /\
      s' = with_balances s (<[j := bj - out]> (<[i := bi + dx]> (bl_balances s))) /\ pool_ok s' /\
      forall e w, short e -> 0 < w -> bl_fast_pow s = true ->
        bl_weights s !! i = Some (e * w) -> bl_weights s !! j = Some w ->
        bi ^ e * bj <= (bi + dx) ^ e * (bj - out)
  end.
Proof.
  unfold apply. destruct (dy s i j dx) as [out|e] eqn:E; [|done].
  destruct (dy_spec s i j dx out Hs Hx E) as (Hij & bi & bj & Ei & Ej & Hbi & Ho & Hk).
  destruct (pair s i j) as [[i' j']|e] eqn:Ep; [|done]. apply pair_Ok in Ep as [[= -> ->] _].
  destruct (add _ dx) as [b|e] eqn:Ea; [|done]. apply fp_add_Ok in Ea as [-> _]. rewrite (at_lookup _ _ _ Ei). cbn.
  rewrite (at_lookup _ j bj) by (by rewrite list_lookup_insert_ne).
  unfold sub. rewrite checked_sub_ok by lia. cbn. exists bi, bj.
  do 3 (split; [done|]). split; [lia|]. split; [done|]. split; [|done].
  destruct Hs as [H1 H2 H3]. split; [|done..]. cbn. apply Forall_insert; [apply Forall_insert; [done|cbn; lia]|cbn; lia].
Qed.

(** The input asked for an exact output keeps the weighted product too, the other way round. *)
Theorem balancer_exact_out_keeps_product (s : BalancerState) (i j : nat) (want inp e w : Z)
    (Hs : pool_ok s) (Hw : 0 <= want) (He : short e) (Hpos : 0 < w) (Hfast : bl_fast_pow s = true)
    (Hwi : bl_weights s !! i = Some w) (Hwj : bl_weights s !! j = Some (e * w)) (Hdx : dx s i j want = Ok inp) :
  exists bi bj, bl_balances s !! i = Some bi /\ bl_balances s !! j = Some bj /\ 0 <= inp /\ want <= bj /\
    bi * bj ^ e <= (bi + inp) * (bj - want) ^ e.
Proof.
  destruct Hs as [Hb Hs Hf]. unfold dx in Hdx. destruct (bl_stale s); [done|].
  destruct (pair s i j) as [[i' j']|] eqn:Ep; [|done].
  apply pair_Ok in Ep as ([= -> ->] & Hij & bi & bj & wi & wj & si & sj & Ebi & Ebj & Ewi & Ewj & Esi & Esj).
  simplify_eq. exists bi, bj. do 2 (split; [done|]).
  pose proof (Forall_lookup_1 _ _ _ _ Hb Ebi) as Hbi. pose proof (Forall_lookup_1 _ _ _ _ Hb Ebj) as Hbj.
  pose proof (Forall_lookup_1 _ _ _ _ Hs Esi) as Hsi. pose proof (Forall_lookup_1 _ _ _ _ Hs Esj) as Hsj. cbn in *.
  rewrite (at_lookup _ _ _ Ebi), (at_lookup _ _ _ Ebj), (at_lookup _ _ _ Hwi), (at_lookup _ _ _ Hwj),
    (at_lookup _ _ _ Esi), (at_lookup _ _ _ Esj), Hfast in Hdx.
  destruct (math (checked_mul 256 bi si)) as [ui|] eqn:Eui; [|done]. apply math_Ok, checked_mul_Some in Eui as [-> _].
  destruct (math (checked_mul 256 bj sj)) as [uj|] eqn:Euj; [|done]. apply math_Ok, checked_mul_Some in Euj as [-> _].
  destruct (math (checked_mul 256 want sj)) as [am|] eqn:Eam; [|done]. apply math_Ok, checked_mul_Some in Eam as [-> _].
  destruct (calc_in_given_out _ _ _ _ _ _) as [raw|] eqn:Er; [|done].
  assert (Hui : 0 <= bi * si) by nia. assert (Huj : 0 <= bj * sj) by nia. assert (Ham : 0 <= want * sj) by nia.
  pose proof (in_given_out_keeps _ _ _ _ _ _ _ He eq_refl Hpos Hui Huj Ham Er) as Hk.
  destruct (in_given_out_range _ _ _ _ _ _ _ Hui Er) as [Hraw Hle].
  destruct (round_up_reaches raw si _ Hsi Hraw eq_refl) as [Hd Hdown].
  destruct (complement_range _ Hf) as [Hc0 Hc1]. apply div_up_Ok in Hdx as (Hc & Hi & Hinp); [|done..].
  set (down := if raw =? 0 then 0 else (raw - 1) / si + 1) in *.
  assert (down <= inp) by (assert (0 < ONE) by done; nia).
  split; [done|]. split; [nia|]. assert (He0 : 0 <= e) by (destruct He as [-> | [-> | ->]]; lia).
  assert (Hse : 0 < sj ^ e) by (apply Z.pow_pos_nonneg; lia).
  apply (Z.mul_le_mono_pos_r _ _ (si * sj ^ e)); [nia|].
  replace (bi * bj ^ e * (si * sj ^ e)) with (bi * si * (bj * sj) ^ e) by (rewrite Z.pow_mul_l; ring).
  etransitivity; [exact Hk|]. replace (bj * sj - want * sj) with ((bj - want) * sj) by ring. rewrite Z.pow_mul_l.
  replace ((bi + inp) * (bj - want) ^ e * (si * sj ^ e)) with ((bi * si + inp * si) * ((bj - want) ^ e * sj ^ e)) by ring.
  apply Z.mul_le_mono_nonneg_r; [|nia]. apply Z.mul_nonneg_nonneg; [apply Z.pow_nonneg; nia|lia].
Qed.

Lemma balancer_exact_out_keeps_product_witness :
  223471482668371503245 * 16578258915757705904299 ^ 4 <=
  (223471482668371503245 + 51041915638302835692) * (16578258915757705904299 - 828912945787885295214) ^ 4.
Proof.
  destruct (balancer_exact_out_keeps_product wsteth_aave 0 1 828912945787885295214 51041915638302835692 4 200000000000000000
    ltac:(split; [constructor; [done|constructor; [done|constructor]]|constructor; [done|constructor; [done|constructor]]|done])
    ltac:(done) ltac:(unfold short; tauto) ltac:(done) ltac:(reflexivity) ltac:(reflexivity) ltac:(reflexivity)
    ltac:(vm_compute; reflexivity)) as (bi & bj & Ei & Ej & _ & _ & H).
  injection Ei as <-. injection Ej as <-. exact H.
Defined.

Lemma balancer_product_never_falls_witness :
  exists s' out, apply wsteth_aave 1 0 16578258915757705904 = (s', Ok out) /\ out = 889058523283180987 /\
    16578258915757705904299 ^ 4 * 223471482668371503245 <=
    (16578258915757705904299 + 16578258915757705904) ^ 4 * (223471482668371503245 - out).
Proof.
  pose proof (balancer_product_never_falls wsteth_aave 1 0 16578258915757705904
    ltac:(split; [constructor; [done|constructor; [done|constructor]]|constructor; [done|constructor; [done|constructor]]|done])
    ltac:(done)) as H.
  assert (E : snd (apply wsteth_aave 1 0 16578258915757705904) = Ok 889058523283180987) by (vm_compute; reflexivity).
  destruct (apply wsteth_aave 1 0 16578258915757705904) as [s' r]. cbn in E. subst r.
  destruct H as (bi & bj & Ei & Ej & _ & _ & _ & _ & Hk). injection Ei as <-. injection Ej as <-.
  exists s', 889058523283180987. split; [reflexivity|]. split; [reflexivity|].
  apply (Hk 4 200000000000000000); [unfold short; tauto|lia|reflexivity|reflexivity|reflexivity].
Defined.

End Balancer.
