(* ===== verification/PoolBook.v ===== *)
(** * The pool book

    [Pool], [PoolState] and [PoolBook] of [liq-router/src/solver.rs]: the swap of each venue
    behind one quote and one state change, the unwraps, the indexes the book keeps over its
    pools, and the logs and reads it folds. The arithmetic of the crypto and Fluid pools and of
    a Pendle market is the class [OtherMath]; the ABI decoder is [PoolAbi]. *)

From stdpp Require Import gmap.
From S2P Require Import Prelude Fixed Types RouterFees PoolMath PoolV3 RouterLog RouterGraph RouterPairs RouterExit Balancer.
Local Open Scope Z_scope.

Module PoolBook.

(** ** States *)

Inductive CryptoKind := TwoV1 | TwoV200 | TwoV210 | TwoStable | Tri.

Record TweakState := mkTweak {
  tw_v3 : bool; tw_price_oracle : Z; tw_last_prices : Z; tw_last_timestamp : Z;
  tw_packed_rebalancing_params : Z; tw_total_supply : Z; tw_donation_shares : Z; tw_donation_duration : Z;
  tw_last_donation_release_ts : Z; tw_donation_protection_expiry_ts : Z; tw_donation_protection_period : Z;
  tw_virtual_price : Z; tw_xcp_profit : Z; tw_lp_xcp_profit : Z; tw_reserved_profit_fraction : Z;
  tw_admin_fee : Z; tw_exec_ts : Z; tw_oracle_slot : Z }.

Record CryptoRead := mkCryptoRead {
  cr_balances : list Z; cr_price_scale : list Z; cr_d : Z; cr_ann : Z; cr_gamma : Z; cr_mid_fee : Z;
  cr_out_fee : Z; cr_fee_gamma : Z; cr_ramping : bool; cr_tweak : option TweakState }.

Record CryptoState := mkCrypto {
  cy_kind : CryptoKind; cy_balances : list Z; cy_precisions : list Z; cy_price_scale : list Z; cy_d : Z;
  cy_ann : Z; cy_gamma : Z; cy_mid_fee : Z; cy_out_fee : Z; cy_fee_gamma : Z; cy_stale : bool;
  cy_tweak : option TweakState; cy_stale_block : Z; cy_read_block : Z; cy_handler : Z }.

Definition crypto_is_live (s : CryptoState) : bool :=
  negb (cy_stale s) && negb (cy_d s =? 0) && forallb (fun b => negb (b =? 0)) (cy_balances s).

Record LiqToken := mkLiqToken {
  lq_ep_cfg : Z; lq_totals : Z; lq_configs2 : Z; lq_rate_data : Z; lq_supply : Z; lq_borrow : Z; lq_balance : Z }.

Record FluidRead := mkFluidRead {
  fl_read_dex_vars : Z; fl_read_dex_vars2 : Z; fl_read_center_ext : option Z; fl_read_tokens : list LiqToken;
  fl_read_exec_ts : Z; fl_read_constants : option (list Z * Address) }.

(** [liq] and [native] are arrays of two. *)
Record FluidState := mkFluid {
  fl_prec : list Z; fl_tokens : list Address; fl_native : bool * bool; fl_deployer : Address; fl_dex_vars : Z;
  fl_dex_vars2 : Z; fl_center_ext : option Z; fl_liq : list LiqToken; fl_exec_ts : Z; fl_stale : bool;
  fl_stale_block : Z; fl_read_block : Z }.

Definition bits (v : Z) (lo n : Z) : Z := Z.land (Z.shiftr v lo) (2 ^ n - 1).
Definition flag (v : Z) (lo : Z) : bool := Z.land (Z.shiftr v lo) 1 =? 1.

(** A position of the pool at the Liquidity layer is defined. *)
Definition has_position (t : option LiqToken) : bool :=
  match t with Some t => negb (lq_supply t =? 0) || negb (lq_borrow t =? 0) | None => false end.

Definition fluid_is_live (s : FluidState) : bool :=
  let dv2 := fl_dex_vars2 s in
  negb (fl_stale s) && (length (fl_tokens s) =? 2)%nat && negb (flag dv2 255) && negb (Z.land dv2 3 =? 0) &&
  negb (flag dv2 26) && negb (flag dv2 248) && negb (flag dv2 67) && (bits dv2 142 30 =? 0) &&
  ((bits dv2 112 30 =? 0) || match fl_center_ext s with Some _ => true | None => false end) &&
  has_position (fl_liq s !! 0%nat) && has_position (fl_liq s !! 1%nat).

Inductive PoolState :=
| V2 (s : V2State)
| V3 (s : V3State)
| Curve (s : CurveState)
| Crypto (s : CryptoState)
| BalancerPool (s : Balancer.BalancerState)
| Fluid (s : FluidState).

Record Pool := mkPool {
  po_address : Address; po_assets : list AssetId; po_tokens : list Address; po_hop_gas : Z; po_state : PoolState }.

Definition with_state (p : Pool) (s : PoolState) : Pool :=
  mkPool (po_address p) (po_assets p) (po_tokens p) (po_hop_gas p) s.

Inductive Venue := UniV2 | UniV3 | CurveStable | CurveCrypto | VBalancer | VFluid.

Definition venue (p : Pool) : Venue :=
  match po_state p with
  | V2 _ => UniV2 | V3 _ => UniV3 | Curve _ => CurveStable | Crypto _ => CurveCrypto
  | BalancerPool _ => VBalancer | Fluid _ => VFluid
  end.

Definition is_v4 (p : Pool) : bool :=
  match po_state p with V3 s => match v3_v4 s with Some _ => true | None => false end | _ => false end.

Definition is_v3_contract (p : Pool) : bool :=
  match venue p with UniV3 => negb (is_v4 p) | _ => false end.

Definition position {A} (f : A -> bool) (l : list A) : option nat := fst <$> list_find f l.

Definition coin (p : Pool) (asset : AssetId) : option nat :=
  let! k := position (Z.eqb asset) (po_assets p) in try_from_nat 8 k.

Definition state_is_live (s : PoolState) : bool :=
  match s with
  | V2 s => v2_is_live s
  | V3 s => v3_is_live s
  | Curve s => negb (cv_stale s) && forallb (fun b => negb (b =? 0)) (cv_balances s)
  | Crypto s => crypto_is_live s
  | BalancerPool s => Balancer.is_live s
  | Fluid s => fluid_is_live s
  end.
Definition is_live (p : Pool) : bool := state_is_live (po_state p).

(** ** Swaps *)

Record MarketSnapshot := mkSnapshot {
  ms_total_pt : Z; ms_total_sy : Z; ms_scalar_root : Z; ms_expiry : Z; ms_ln_fee_rate_root : Z;
  ms_reserve_fee_percent : Z; ms_last_ln_implied_rate : Z; ms_index : Z; ms_quote_ts : Z;
  ms_out_per_sy_scale : Z; ms_sy_scale : Z }.

(** [crypto.rs], [fluid.rs] and [pendle.rs]. *)
Class OtherMath := {
  crypto_dy : CryptoState -> nat -> nat -> Z -> RRes Z;
  crypto_apply : CryptoState -> nat -> nat -> Z -> CryptoState * RRes Z;
  crypto_rho : CryptoState -> nat -> nat -> Z -> RRes Z;
  fluid_dy : FluidState -> nat -> nat -> Z -> RRes Z;
  fluid_apply : FluidState -> nat -> nat -> Z -> FluidState * RRes Z;
  fluid_rho : FluidState -> nat -> nat -> Z -> RRes Z;
  fluid_capacity_in : FluidState -> nat -> option Z;
  sell_pt_for_out : MarketSnapshot -> Z -> RRes Z
}.

Section Swaps.
Context `{TickMath} `{OtherMath}.

(** The result of a V3 loop; its fuel is one turn per tick, which is enough
    ([PoolV3.swap_loop_ok]). *)
Definition ended {A} (r : option (RRes A)) : RRes A := match r with Some r => r | None => Err RMath end.

Definition PIPS : Z := 1000000.

Definition v3_rho (sqrt_p fee_pips : Z) (zfo : bool) : RRes Z :=
  let? r := if zfo then Ok sqrt_p else math (checked_div Q192 sqrt_p) in
  let? keep := math (checked_sub PIPS fee_pips) in
  let? sq := math (let! v := checked_mul 512 r r in let! v := checked_mul 512 v keep in checked_div v PIPS) in
  narrow (Z.sqrt sq).

(** [v3_capacity_in]: the input the known ticks absorb. *)
Fixpoint capacity_loop (fuel : nat) (s : V3State) (zfo : bool) (limit consumed sqrt_p tick liq : Z) : option (RRes Z) :=
  if sqrt_p =? limit then Some (Ok consumed) else
  match fuel with
  | O => None
  | S fuel =>
      match bounded_next_tick s tick zfo with
      | None => Some (Ok 0)
      | Some (next_tick, initialized, at_edge) =>
          match (let? sqrt_next := math (get_sqrt_ratio_at_tick next_tick) in
                 let? (sqrt_after, step_in, _, fee) :=
                   math (compute_swap_step sqrt_p (target_of zfo sqrt_next limit) liq (2 ^ 255 - 1) (v3_fee_pips s)) in
                 let? consumed := math (let! c := checked_add 256 consumed step_in in checked_add 256 c fee) in
                 Ok (sqrt_next, sqrt_after, consumed)) with
          | Err e => Some (Err e)
          | Ok (sqrt_next, sqrt_after, consumed) =>
              if negb (sqrt_after =? sqrt_next) || at_edge then Some (Ok consumed) else
              match cross s zfo next_tick initialized liq with
              | Err e => Some (Err e)
              | Ok (liq, tick) => capacity_loop fuel s zfo limit consumed sqrt_after tick liq
              end
          end
      end
  end.

Definition v3_capacity_in (s : V3State) (zfo : bool) : RRes Z :=
  if v3_sqrt_price_x96 s =? 0 then Err StalePool else
  let? limit := limit_of zfo in
  ended (capacity_loop turns s zfo limit 0 (v3_sqrt_price_x96 s) (v3_tick s) (v3_liquidity s)).

(** *** StableSwap's marginal rate *)

Fixpoint k18_loop (n d k18 : Z) (xp : list Z) : RRes Z :=
  match xp with
  | [] => Ok k18
  | x :: xp =>
      let? den := math (checked_mul 256 x n) in
      if den =? 0 then Err InsufficientLiquidity else
      let? k18 := mul_div_512 k18 d den in
      k18_loop n d k18 xp
  end.

Definition rho_term (k18 ann18 x : Z) : RRes Z :=
  if x =? 0 then Err InsufficientLiquidity else
  math (let! v := checked_div k18 x in checked_add 256 v ann18).

Definition curve_rho (s : CurveState) (i j : nat) (dx : Z) : RRes Z :=
  if (i =? j)%nat then Err BadLeg else
  if cv_stale s then Err StalePool else
  let? n := n_coins s in
  let? xp := curve_xp s in
  let? ri := ok_or (cv_rates s !! i) BadLeg in
  let? rj := ok_or (cv_rates s !! j) BadLeg in
  let? xp :=
    (if dx =? 0 then Ok xp else
     let? xi := ok_or (xp !! i) BadLeg in
     let? xi_new := math (let! v := checked_mul 256 dx ri in let! v := checked_div v WAD in checked_add 256 v xi) in
     let? y := curve_get_y s i j xi_new xp in
     let? xp := ok_or (vec_set xp i xi_new) BadLeg in
     ok_or (vec_set xp j y) BadLeg) in
  let? d := curve_get_d s xp in
  let? ann := curve_ann s n in
  let? ann18 := math (let! v := checked_mul 256 ann WAD in checked_div v (cv_a_precision s)) in
  let? k18 := math (checked_mul 256 d WAD) in
  let? k18 := k18_loop n d k18 xp in
  let? xi := ok_or (xp !! i) BadLeg in
  let? xj := ok_or (xp !! j) BadLeg in
  let? ti := rho_term k18 ann18 xi in
  let? tj := rho_term k18 ann18 xj in
  let? fee := swap_fee s xi xj in
  let? keep := math (checked_sub CURVE_FEE_DENOM fee) in
  let? num := math (let! v := checked_mul 512 ti ri in let! v := checked_mul 512 v keep in checked_mul 512 v Q192) in
  let? den := math (let! v := checked_mul 512 tj rj in checked_mul 512 v CURVE_FEE_DENOM) in
  if den =? 0 then Err RMath else
  let? q := math (checked_div num den) in
  narrow (Z.sqrt q).

(** *** One quote and one state change for every venue *)

Definition zfo_of (i j : nat) : RRes bool := zero_for_one (Z.of_nat i) (Z.of_nat j).

Definition quote (s : PoolState) (i j : nat) (amount_in : Z) : RRes Z :=
  if amount_in =? 0 then Ok 0 else
  match s with
  | V3 s => let? zfo := zfo_of i j in map_res sw_out (ended (v3_swap s zfo amount_in))
  | V2 s => let? zfo := zfo_of i j in map_res fst (v2_swap s zfo amount_in)
  | Curve s => map_res (fun r => fst (fst r)) (curve_exchange s i j amount_in)
  | Crypto s => crypto_dy s i j amount_in
  | BalancerPool s => Balancer.dy s i j amount_in
  | Fluid s => fluid_dy s i j amount_in
  end.

Definition set_balances (s : CurveState) (bs : list Z) : CurveState :=
  mkCurve bs (cv_rates s) (cv_a s) (cv_a_precision s) (cv_fee s) (cv_stale s) (cv_stale_block s) (cv_ng s)
    (cv_d_once s) (cv_offpeg_fee_multiplier s) (cv_dynamic_rates s) (cv_read_block s) (cv_handler s).

Definition apply (s : PoolState) (i j : nat) (amount_in : Z) : PoolState * RRes Z :=
  if amount_in =? 0 then (s, Ok 0) else
  match s with
  | V3 v =>
      match zfo_of i j with
      | Err e => (s, Err e)
      | Ok zfo =>
          match ended (v3_swap v zfo amount_in) with
          | Err e => (s, Err e)
          | Ok r => (V3 (mkV3 (v3_factory v) (sw_sqrt_price_x96 r) (sw_tick r) (sw_liquidity r) (v3_fee_pips v)
                           (v3_tick_spacing v) (v3_ticks v) (v3_v4 v) (v3_window v)), Ok (sw_out r))
          end
      end
  | V2 v =>
      match (let? zfo := zfo_of i j in v2_swap v zfo amount_in) with
      | Err e => (s, Err e)
      | Ok (out, next) => (V2 next, Ok out)
      end
  | Curve c =>
      match curve_exchange c i j amount_in with
      | Err e => (s, Err e)
      | Ok (out, bi, bj) =>
          match vec_set (cv_balances c) i bi with
          | None => (s, Err BadLeg)
          | Some bs =>
              match vec_set bs j bj with
              | None => (Curve (set_balances c bs), Err BadLeg)
              | Some bs => (Curve (set_balances c bs), Ok out)
              end
          end
      end
  | Crypto c => let '(c, r) := crypto_apply c i j amount_in in (Crypto c, r)
  | BalancerPool b => let '(b, r) := Balancer.apply b i j amount_in in (BalancerPool b, r)
  | Fluid f => let '(f, r) := fluid_apply f i j amount_in in (Fluid f, r)
  end.

Definition quote_exact_in (p : Pool) (i j : nat) (amount_in : Z) : RRes Z := quote (po_state p) i j amount_in.

Definition apply_exact_in (p : Pool) (i j : nat) (amount_in : Z) : Pool * RRes Z :=
  let '(s, r) := apply (po_state p) i j amount_in in (with_state p s, r).

Definition capacity_in (p : Pool) (i j : nat) : option Z :=
  match po_state p with
  | V3 s => res_ok (v3_capacity_in s (i <? j)%nat)
  | BalancerPool s => Balancer.capacity_in s i
  | Fluid s => fluid_capacity_in s i
  | _ => None
  end.

Definition rho_at_zero (p : Pool) (i j : nat) : RRes Z :=
  match po_state p with
  | V3 s => let? zfo := zfo_of i j in v3_rho (v3_sqrt_price_x96 s) (v3_fee_pips s) zfo
  | V2 s => v2_rho s i j
  | Curve s => curve_rho s i j 0
  | Crypto s => crypto_rho s i j 0
  | BalancerPool s => Balancer.rho s i j 0
  | Fluid s => fluid_rho s i j 0
  end.
End Swaps.

(** ** The book *)

Inductive UnwrapRate :=
| Unread
| Linear (assets_per_scale : Z) (max_into : option Z)
| RCurveLp (total_supply : Z)
| Pendle (s : MarketSnapshot).

#[export] Instance MarketSnapshot_eq_dec : EqDecision MarketSnapshot.
Proof. solve_decision. Defined.
#[export] Instance UnwrapRate_eq_dec : EqDecision UnwrapRate.
Proof. solve_decision. Defined.

Record Unwrap := mkUnwrap {
  un_kind : UnwrapKind; un_wrapper : AssetId; un_wrapper_token : Address; un_into : AssetId; un_into_token : Address;
  un_rate : UnwrapRate; un_scale : Z; un_read_block : Z; un_gas : Z; un_expiry_gas : Z; un_cash_capped : bool }.

Definition unwrap_is_live (u : Unwrap) : bool :=
  if (un_read_block u =? 0) || (un_scale u =? 0) then false else
  match un_rate u with
  | Unread => false
  | Linear aps _ => negb (aps =? 0)
  | RCurveLp total_supply => negb (total_supply =? 0)
  | Pendle s => (0 <? ms_total_pt s) && negb (ms_sy_scale s =? 0)
  end.

(** [GraphRoutes] is only carried. *)
Record Book {G : Type} := mkBook {
  bk_pools : list Pool;
  bk_by_address : gmap Address PoolId;
  bk_legs : gmap (AssetId * AssetId) (list Leg);
  bk_assets : gmap Address AssetId;
  bk_unwraps : gmap AssetId Unwrap;
  bk_pending_v2 : gmap PoolId Z;
  bk_v3_factory : option Address;
  bk_by_v4_id : gmap Z PoolId;
  bk_by_balancer_id : gmap Z PoolId;
  bk_by_fluid_token : gmap Address (list PoolId);
  bk_v3_hop_gas : Z;
  bk_hub : option AssetId;
  bk_graph : option G;
  bk_discovered : Z;
  bk_generation : Z
}.
Arguments Book : clear implicits.

Section Book.
Context {G : Type}.
Implicit Types b : Book G.

Definition new (assets : gmap Address AssetId) (v3_factory : option Address) (v3_hop_gas : Z) : Book G :=
  mkBook _ [] ∅ ∅ assets ∅ ∅ v3_factory ∅ ∅ ∅ v3_hop_gas None None 0 0.

Definition set_pools b (ps : list Pool) : Book G :=
  mkBook _ ps (bk_by_address b) (bk_legs b) (bk_assets b) (bk_unwraps b) (bk_pending_v2 b) (bk_v3_factory b) (bk_by_v4_id b)
    (bk_by_balancer_id b) (bk_by_fluid_token b) (bk_v3_hop_gas b) (bk_hub b) (bk_graph b) (bk_discovered b) (bk_generation b).
Definition set_unwraps b (us : gmap AssetId Unwrap) : Book G :=
  mkBook _ (bk_pools b) (bk_by_address b) (bk_legs b) (bk_assets b) us (bk_pending_v2 b) (bk_v3_factory b) (bk_by_v4_id b)
    (bk_by_balancer_id b) (bk_by_fluid_token b) (bk_v3_hop_gas b) (bk_hub b) (bk_graph b) (bk_discovered b) (bk_generation b).
Definition set_pending b (pending : gmap PoolId Z) : Book G :=
  mkBook _ (bk_pools b) (bk_by_address b) (bk_legs b) (bk_assets b) (bk_unwraps b) pending (bk_v3_factory b) (bk_by_v4_id b)
    (bk_by_balancer_id b) (bk_by_fluid_token b) (bk_v3_hop_gas b) (bk_hub b) (bk_graph b) (bk_discovered b) (bk_generation b).
Definition bump b : Book G :=
  mkBook _ (bk_pools b) (bk_by_address b) (bk_legs b) (bk_assets b) (bk_unwraps b) (bk_pending_v2 b) (bk_v3_factory b) (bk_by_v4_id b)
    (bk_by_balancer_id b) (bk_by_fluid_token b) (bk_v3_hop_gas b) (bk_hub b) (bk_graph b) (bk_discovered b)
    (wrapping_add 64 (bk_generation b) 1).
Definition with_hub b (hub : option AssetId) : Book G :=
  mkBook _ (bk_pools b) (bk_by_address b) (bk_legs b) (bk_assets b) (bk_unwraps b) (bk_pending_v2 b) (bk_v3_factory b) (bk_by_v4_id b)
    (bk_by_balancer_id b) (bk_by_fluid_token b) (bk_v3_hop_gas b) hub (bk_graph b) (bk_discovered b) (bk_generation b).
Definition with_graph b (graph : option G) : Book G :=
  mkBook _ (bk_pools b) (bk_by_address b) (bk_legs b) (bk_assets b) (bk_unwraps b) (bk_pending_v2 b) (bk_v3_factory b) (bk_by_v4_id b)
    (bk_by_balancer_id b) (bk_by_fluid_token b) (bk_v3_hop_gas b) (bk_hub b) graph (bk_discovered b) (bk_generation b).
Definition set_discovered b (n : Z) : Book G :=
  mkBook _ (bk_pools b) (bk_by_address b) (bk_legs b) (bk_assets b) (bk_unwraps b) (bk_pending_v2 b) (bk_v3_factory b) (bk_by_v4_id b)
    (bk_by_balancer_id b) (bk_by_fluid_token b) (bk_v3_hop_gas b) (bk_hub b) (bk_graph b) n (bk_generation b).

Definition set_graph b (graph : option G) : Book G := bump (with_graph b graph).
Definition set_hub b (weth : AssetId) : Book G := bump (with_hub b (Some weth)).
Definition asset_id b (token : Address) : option AssetId := bk_assets b !! token.
Definition get b (id : PoolId) : option Pool := bk_pools b !! id.
Definition by_address b (a : Address) : option PoolId := bk_by_address b !! a.
Definition legs b (asset_in asset_out : AssetId) : list Leg := default [] (bk_legs b !! (asset_in, asset_out)).

(** A write through [get_mut]. *)
Definition put b (id : PoolId) (p : Pool) : Book G := set_pools b (<[id := p]> (bk_pools b)).
Definition put_state b (id : PoolId) (p : Pool) (s : PoolState) : Book G := put b id (with_state p s).

(** *** Registering a pool *)

Definition push_leg (m : gmap (AssetId * AssetId) (list Leg)) (k : AssetId * AssetId) (l : Leg)
  : gmap (AssetId * AssetId) (list Leg) := <[k := default [] (m !! k) ++ [l]]> m.

(** The inner loop of [add]: [false] is its early return, what was pushed stays. *)
Fixpoint legs_from (id : PoolId) (i : nat) (a : AssetId) (j : nat) (bs : list AssetId)
    (m : gmap (AssetId * AssetId) (list Leg)) : gmap (AssetId * AssetId) (list Leg) * bool :=
  match bs with
  | [] => (m, true)
  | c :: bs =>
      if (i =? j)%nat then legs_from id i a (S j) bs m else
      match try_from_nat 8 i, try_from_nat 8 j with
      | Some i8, Some j8 => legs_from id i a (S j) bs (push_leg m (a, c) (mkLeg id i8 j8))
      | _, _ => (m, false)
      end
  end.

Fixpoint legs_all (id : PoolId) (all : list AssetId) (i : nat) (l : list AssetId)
    (m : gmap (AssetId * AssetId) (list Leg)) : gmap (AssetId * AssetId) (list Leg) * bool :=
  match l with
  | [] => (m, true)
  | a :: l =>
      match legs_from id i a 0 all m with
      | (m, true) => legs_all id all (S i) l m
      | r => r
      end
  end.

(** The coins the state holds against the [n] of the pool. *)
Definition width_ok (n : nat) (s : PoolState) : bool :=
  match s with
  | V2 _ | V3 _ => (n =? 2)%nat
  | Curve c => (length (cv_balances c) =? n)%nat && (length (cv_rates c) =? n)%nat
  | Crypto c => (length (cy_balances c) =? n)%nat && (length (cy_precisions c) =? n)%nat
  | BalancerPool s => (n =? 2)%nat && (length (Balancer.bl_balances s) =? n)%nat &&
      (length (Balancer.bl_weights s) =? n)%nat && (length (Balancer.bl_scaling s) =? n)%nat
  | Fluid f => (n =? 2)%nat && (length (fl_tokens f) =? n)%nat
  end.

Definition v4_id (s : PoolState) : option Z :=
  match s with V3 s => k4_id <$> v3_v4 s | _ => None end.
Definition balancer_id (s : PoolState) : option Z :=
  match s with BalancerPool s => Some (Balancer.bl_pool_id s) | _ => None end.
Definition fluid_tokens (s : PoolState) : list Address :=
  match s with Fluid f => fl_tokens f | _ => [] end.

Definition push_id (m : gmap Address (list PoolId)) (id : PoolId) (t : Address) : gmap Address (list PoolId) :=
  <[t := default [] (m !! t) ++ [id]]> m.

Definition set_indexes b (by_address : gmap Address PoolId) (ls : gmap (AssetId * AssetId) (list Leg))
    (by_v4_id by_balancer_id : gmap Z PoolId) (by_fluid_token : gmap Address (list PoolId)) : Book G :=
  mkBook _ (bk_pools b) by_address ls (bk_assets b) (bk_unwraps b) (bk_pending_v2 b) (bk_v3_factory b) by_v4_id
    by_balancer_id by_fluid_token (bk_v3_hop_gas b) (bk_hub b) (bk_graph b) (bk_discovered b) (bk_generation b).

Definition is_key {A} (m : gmap Z A) (k : option Z) : bool :=
  match k with Some k => match m !! k with Some _ => true | None => false end | None => false end.
Definition index_by (m : gmap Z PoolId) (k : option Z) (id : PoolId) : gmap Z PoolId :=
  match k with Some k => <[k := id]> m | None => m end.

Definition add b (pool : Pool) : Book G * RRes PoolId :=
  let s := po_state pool in
  if is_key (bk_by_address b) (Some (po_address pool)) || negb (length (po_assets pool) =? length (po_tokens pool))%nat
  then (b, Err BadLeg) else
  if negb (width_ok (length (po_assets pool)) s) then (b, Err BadLeg) else
  if is_key (bk_by_balancer_id b) (balancer_id s) then (b, Err BadLeg) else
  match try_from_nat 32 (length (bk_pools b)) with
  | None => (b, Err RMath)
  | Some id =>
      if is_key (bk_by_v4_id b) (v4_id s) then (b, Err BadLeg) else
      let by_v4 := index_by (bk_by_v4_id b) (v4_id s) id in
      match legs_all id (po_assets pool) 0 (po_assets pool) (bk_legs b) with
      | (m, false) => (set_indexes b (bk_by_address b) m by_v4 (bk_by_balancer_id b) (bk_by_fluid_token b), Err BadLeg)
      | (m, true) =>
          let b := set_indexes b (<[po_address pool := id]> (bk_by_address b)) m by_v4
                     (index_by (bk_by_balancer_id b) (balancer_id s) id)
                     (fold_left (fun m t => push_id m id t) (fluid_tokens s) (bk_by_fluid_token b)) in
          (bump (set_pools b (bk_pools b ++ [pool])), Ok id)
      end
  end.

(** *** V2 pairs added while running *)

Definition add_pending_v2 b (pool : Pool) : Book G * RRes PoolId :=
  match po_state pool with
  | V2 _ =>
      match add b pool with
      | (b, Ok id) => (set_pending b (<[id := 0]> (bk_pending_v2 b)), Ok id)
      | r => r
      end
  | _ => (b, Err BadLeg)
  end.

Definition seed_pending_v2 b (id : PoolId) (r0 r1 block : Z) : Book G * bool :=
  match bk_pending_v2 b !! id with
  | None => (b, false)
  | Some last_sync =>
      let b := set_pending b (delete id (bk_pending_v2 b)) in
      if block <=? last_sync then (b, false) else
      match get b id with
      | Some p =>
          match po_state p with
          | V2 s => (bump (put_state b id p (V2 (mkV2 r0 r1 (v2_factory s)))), true)
          | _ => (b, false)
          end
      | None => (b, false)
      end
  end.

(** *** Staleness *)

Definition curve_stale (s : CurveState) (block : Z) : CurveState :=
  mkCurve (cv_balances s) (cv_rates s) (cv_a s) (cv_a_precision s) (cv_fee s) true (Z.max (cv_stale_block s) block) (cv_ng s)
    (cv_d_once s) (cv_offpeg_fee_multiplier s) (cv_dynamic_rates s) (cv_read_block s) (cv_handler s).
Definition crypto_stale (s : CryptoState) (block : Z) : CryptoState :=
  mkCrypto (cy_kind s) (cy_balances s) (cy_precisions s) (cy_price_scale s) (cy_d s) (cy_ann s) (cy_gamma s) (cy_mid_fee s)
    (cy_out_fee s) (cy_fee_gamma s) true (cy_tweak s) (Z.max (cy_stale_block s) block) (cy_read_block s) (cy_handler s).
Definition balancer_stale (s : Balancer.BalancerState) (block : Z) : Balancer.BalancerState :=
  Balancer.mkBalancer (Balancer.bl_pool_id s) (Balancer.bl_tokens s) (Balancer.bl_balances s) (Balancer.bl_weights s)
    (Balancer.bl_scaling s) (Balancer.bl_swap_fee s) (Balancer.bl_fast_pow s) true
    (Z.max (Balancer.bl_stale_block s) block) (Balancer.bl_read_block s).
Definition fluid_stale (s : FluidState) (block : Z) : FluidState :=
  mkFluid (fl_prec s) (fl_tokens s) (fl_native s) (fl_deployer s) (fl_dex_vars s) (fl_dex_vars2 s) (fl_center_ext s) (fl_liq s)
    (fl_exec_ts s) true (Z.max (fl_stale_block s) block) (fl_read_block s).

(** The venues re-read rather than folded. *)
Definition state_stale (s : PoolState) (block : Z) : option PoolState :=
  match s with
  | Curve s => Some (Curve (curve_stale s block))
  | Crypto s => Some (Crypto (crypto_stale s block))
  | BalancerPool s => Some (BalancerPool (balancer_stale s block))
  | Fluid s => Some (Fluid (fluid_stale s block))
  | V2 _ | V3 _ => None
  end.

Definition mark_stale b (id : PoolId) (block : Z) : Book G * bool :=
  match get b id with
  | None => (b, false)
  | Some p =>
      match state_stale (po_state p) block with
      | None => (b, false)
      | Some s => (bump (put_state b id p s), true)
      end
  end.

(** *** Unwraps *)

Definition remove_unwrap b (wrapper : AssetId) : Book G * bool :=
  match bk_unwraps b !! wrapper with
  | Some _ => (bump (set_unwraps b (delete wrapper (bk_unwraps b))), true)
  | None => (b, false)
  end.

Definition add_unwrap b (u : Unwrap) : Book G := bump (set_unwraps b (<[un_wrapper u := u]> (bk_unwraps b))).

Definition with_rate (u : Unwrap) (rate : UnwrapRate) (block : Z) : Unwrap :=
  mkUnwrap (un_kind u) (un_wrapper u) (un_wrapper_token u) (un_into u) (un_into_token u) rate (un_scale u) block (un_gas u)
    (un_expiry_gas u) (un_cash_capped u).

Definition set_unwrap_rate b (wrapper : AssetId) (rate : UnwrapRate) (block : Z) : Book G * bool :=
  match bk_unwraps b !! wrapper with
  | None => (b, false)
  | Some u =>
      if block <? un_read_block u then (b, false) else
      let b := set_unwraps b (<[wrapper := with_rate u rate block]> (bk_unwraps b)) in
      (if bool_decide (un_rate u = rate) then b else bump b, true)
  end.

Definition expire_pendle_market b (wrapper : AssetId) : Book G * bool :=
  match bk_unwraps b !! wrapper with
  | None => (b, false)
  | Some u =>
      match un_kind u with
      | PendleMarket _ yt sy =>
          let u := mkUnwrap (PendlePt yt sy) (un_wrapper u) (un_wrapper_token u) (un_into u) (un_into_token u) Unread
                     (saturating_mul 256 (un_scale u) 1000) 0 (un_expiry_gas u) (un_expiry_gas u) (un_cash_capped u) in
          (bump (set_unwraps b (<[wrapper := u]> (bk_unwraps b))), true)
      | _ => (b, false)
      end
  end.

Definition unwrap_of b (wrapper : AssetId) : option Unwrap := bk_unwraps b !! wrapper.

(** *** Where an exit comes from *)

Inductive ExitSource := Direct (l : list Leg) | ViaUnwrapped (u : Unwrap) (l : list Leg).

Definition is_nil {A} (l : list A) : bool := match l with [] => true | _ => false end.

Definition exit_source b (coll debt : AssetId) : ExitSource :=
  let direct := legs b coll debt in
  if negb (is_nil direct) then Direct direct else
  match bk_unwraps b !! coll with
  | Some u =>
      if unwrap_is_live u && ((un_into u =? debt) || negb (is_nil (legs b (un_into u) debt)))
      then ViaUnwrapped u (legs b (un_into u) debt) else Direct direct
  | None => Direct direct
  end.

Record HubRoute := mkHubRoute {
  hr_hub : AssetId; hr_unwrap : option Unwrap; hr_into_hub : list Leg; hr_out_of_hub : list Leg }.

Definition hub_route b (coll debt : AssetId) : option HubRoute :=
  let! hub := bk_hub b in
  if (coll =? hub) || (debt =? hub) || (coll =? debt) then None else
  let out_of_hub := legs b hub debt in
  if is_nil out_of_hub then None else
  let own := legs b coll hub in
  if negb (is_nil own) then Some (mkHubRoute hub None own out_of_hub) else
  let! u := bk_unwraps b !! coll in
  if negb (unwrap_is_live u) then None else
  if (un_into u =? hub) || (un_into u =? debt) then None else
  let inner := legs b (un_into u) hub in
  if is_nil inner then None else Some (mkHubRoute hub (Some u) inner out_of_hub).

Definition exit_legs b (coll debt : AssetId) : list Leg :=
  match exit_source b coll debt with Direct l | ViaUnwrapped _ l => l end.

(** The pairs with a leg, and a wrapper's pairs that have none of their own. *)
Definition pairs b : gset (AssetId * AssetId) :=
  let direct : gset _ := dom (bk_legs b) in
  let via := flat_map (fun wu =>
    (un_wrapper (snd wu), un_into (snd wu)) ::
    ((fun k => (un_wrapper (snd wu), snd k)) <$> List.filter (fun k => fst k =? un_into (snd wu)) (elements direct)))
    (map_to_list (bk_unwraps b)) in
  direct ∪ list_to_set (List.filter (fun k => match bk_legs b !! k with Some _ => false | None => true end) via).
End Book.

(** ** Unwrap rates *)

Section Rates.
Context `{OtherMath} {G : Type}.
Implicit Types b : Book G.

Definition convert (u : Unwrap) (amount : Z) b : RRes Z :=
  if negb (unwrap_is_live u) then Err StalePool else
  match un_rate u, un_kind u with
  | Linear aps max_into, _ =>
      let? raw := mul_div_512 amount aps (un_scale u) in
      if match max_into with Some cap => cap <? raw | None => false end then Err InsufficientLiquidity else
      let haircut := default 0 (checked_div raw 1000000) in
      Ok (saturating_sub (saturating_sub raw haircut) 1)
  | RCurveLp total_supply, CurveLp i =>
      match (let! id := by_address b (un_wrapper_token u) in get b id) with
      | None => Err BadLeg
      | Some p => match po_state p with Curve s => ng_withdraw_one_coin s (Z.to_nat i) amount total_supply | _ => Err BadLeg end
      end
  | Pendle s, PendleMarket _ _ _ => sell_pt_for_out s amount
  | _, _ => Err BadLeg
  end.

Definition marginal (u : Unwrap) b : RRes (Z * Z) :=
  match un_rate u with
  | Linear aps _ => Ok (aps, un_scale u)
  | _ => let? v := convert u (un_scale u) b in Ok (v, un_scale u)
  end.

Definition unwrap_rho (u : Unwrap) b : RRes Z :=
  let? (num, den) := marginal u b in
  let? q := math (let! v := checked_mul 512 num Q192 in checked_div v den) in
  narrow (Z.sqrt q).

Definition scale_rho (u : Unwrap) (rho_inner : Z) b : RRes Z :=
  let? (num, den) := marginal u b in
  let? q := math (let! v := checked_mul 512 rho_inner rho_inner in
                  let! v := checked_mul 512 v num in checked_div v den) in
  narrow (Z.sqrt q).
End Rates.

(** ** Reads *)

Section Reads.
Context {G : Type}.
Implicit Types b : Book G.

Definition with_a_precision (s : CurveState) (ap : Z) : CurveState :=
  mkCurve (cv_balances s) (cv_rates s) (cv_a s) ap (cv_fee s) (cv_stale s) (cv_stale_block s) (cv_ng s)
    (cv_d_once s) (cv_offpeg_fee_multiplier s) (cv_dynamic_rates s) (cv_read_block s) (cv_handler s).

(** What follows the guards of [reseed_curve], on the pool's state. *)
Definition curve_read (c : CurveState) (balances : list Z) (a a_precision fee : Z) (ng : option (list Z * Z)) (block : Z)
  : CurveState * RRes bool :=
  match (match ng with Some (rates, offpeg) => set_ng_params c rates offpeg | None => (c, Ok tt) end) with
  | (c, Err e) => (c, Err e)
  | (c, Ok _) =>
      let prev := cv_a_precision c in
      match reseed_at (with_a_precision c a_precision) balances a fee block with
      | (c, Ok true) => (c, Ok true)
      | (c, other) => (with_a_precision c prev, other)
      end
  end.

Definition reseed_curve b (id : PoolId) (balances : list Z) (a a_precision fee : Z) (ng : option (list Z * Z)) (block : Z)
  : Book G * RRes bool :=
  match get b id with
  | Some p =>
      match po_state p with
      | Curve c =>
          if negb (Bool.eqb (cv_ng c) (match ng with Some _ => true | None => false end)) then (b, Err BadLeg) else
          if cv_stale c && (block <? cv_stale_block c) then (b, Ok false) else
          match curve_read c balances a a_precision fee ng block with
          | (c, Ok true) => (bump (put_state b id p (Curve c)), Ok true)
          | (c, other) => (put_state b id p (Curve c), other)
          end
      | _ => (b, Ok false)
      end
  | None => (b, Ok false)
  end.

Definition reseed_balancer b (id : PoolId) (read : Balancer.BalancerRead) (block : Z) : Book G * RRes bool :=
  match get b id with
  | Some p =>
      match po_state p with
      | BalancerPool s =>
          if Balancer.bl_stale s && (block <? Balancer.bl_stale_block s) then (b, Ok false) else
          if negb (length (Balancer.br_balances read) =? length (Balancer.bl_balances s))%nat ||
             negb (length (Balancer.br_weights read) =? length (Balancer.bl_weights s))%nat ||
             existsb (Z.eqb 0) (Balancer.br_balances read) then (b, Err BadLeg) else
          let s := Balancer.mkBalancer (Balancer.bl_pool_id s) (Balancer.bl_tokens s) (Balancer.br_balances read)
                     (Balancer.br_weights read) (Balancer.bl_scaling s) (Balancer.br_swap_fee read) (Balancer.bl_fast_pow s)
                     (Balancer.br_paused read) (Balancer.bl_stale_block s) block in
          (bump (put_state b id p (BalancerPool s)), Ok true)
      | _ => (b, Ok false)
      end
  | None => (b, Ok false)
  end.

Definition reseed_fluid b (id : PoolId) (read : FluidRead) (block : Z) : Book G * RRes bool :=
  match get b id with
  | Some p =>
      match po_state p with
      | Fluid f =>
          if fl_stale f && (block <? fl_stale_block f) then (b, Ok false) else
          let '(prec, deployer) := default (fl_prec f, fl_deployer f) (fl_read_constants read) in
          let f := mkFluid prec (fl_tokens f) (fl_native f) deployer (fl_read_dex_vars read) (fl_read_dex_vars2 read)
                     (fl_read_center_ext read) (fl_read_tokens read) (fl_read_exec_ts read) false (fl_stale_block f) block in
          (bump (put_state b id p (Fluid f)), Ok true)
      | _ => (b, Ok false)
      end
  | None => (b, Ok false)
  end.

Definition reseed_crypto b (id : PoolId) (read : CryptoRead) (block : Z) : Book G * RRes bool :=
  match get b id with
  | Some p =>
      match po_state p with
      | Crypto c =>
          if cy_stale c && (block <? cy_stale_block c) then (b, Ok false) else
          if negb (length (cr_balances read) =? length (cy_balances c))%nat ||
             negb (length (cr_price_scale read) =? length (cy_price_scale c))%nat ||
             existsb (Z.eqb 0) (cr_balances read) then (b, Err BadLeg) else
          let c := mkCrypto (cy_kind c) (cr_balances read) (cy_precisions c) (cr_price_scale read) (cr_d read) (cr_ann read)
                     (cr_gamma read) (cr_mid_fee read) (cr_out_fee read) (cr_fee_gamma read) (cr_ramping read) (cr_tweak read)
                     (cy_stale_block c) block (cy_handler c) in
          (bump (put_state b id p (Crypto c)), Ok true)
      | _ => (b, Ok false)
      end
  | None => (b, Ok false)
  end.
End Reads.

(** ** Logs *)

Record DecodedLog := mkLog { lg_address : Address; lg_topics : list Z; lg_data : list Z; lg_block : Z }.

Record PoolCreated := mkCreated { pc_token0 : Address; pc_token1 : Address; pc_fee : Z; pc_tick_spacing : Z; pc_pool : Address }.
Record LogOperate := mkOperate {
  op_user : Address; op_token : Address; op_supply_amount : Z; op_borrow_amount : Z; op_total_amounts : Z;
  op_exchange_prices_and_config : Z }.

(** A log of a V4 pool, a V2 pair and a Balancer pool by its topic; [None] inside does not
    decode. *)
Inductive V4Log := V4Swap (after : option (Z * Z * Z)) | V4Modify (ev : option (Z * Z * Z)) | V4Other.
Inductive V2Log := V2Sync (ev : option (Z * Z)) | V2Other.
Inductive VaultLog := VaultSwap (ev : option (Address * Address * Z * Z)) | VaultBalances | VaultOther.

(** The events of [sol!] and their decoder; a factory names the shape of its pools' [Swap]. *)
Class PoolAbi := {
  sig_pool_created : Z;
  sig_log_operate : Z;
  decode_pool_created : list Z -> list Z -> option PoolCreated;
  decode_log_operate : list Z -> list Z -> option LogOperate;
  v3_log : Z -> list Z -> list Z -> V3Log;
  v4_log : list Z -> list Z -> V4Log;
  v2_log : list Z -> list Z -> V2Log;
  vault_log : list Z -> list Z -> VaultLog;
  CURVE_STALE_TOPICS : list Z;
  CURVE_NG_STALE_TOPICS : list Z;
  CRYPTO_STALE_TOPICS : list Z;
  BALANCER_POOL_STALE_TOPICS : list Z;
  BALANCER_VAULT : Address;
  FLUID_LIQUIDITY : Address;
  V4_POOL_MANAGER : Address
}.

Section Logs.
Context `{PoolAbi} {G : Type}.
Implicit Types b : Book G.

Definition stale_topics (s : CurveState) : list Z := if cv_ng s then CURVE_NG_STALE_TOPICS else CURVE_STALE_TOPICS.

Definition fold_v4 (s : V3State) (log : DecodedLog) : V3State * bool :=
  match v4_log (lg_topics log) (lg_data log) with
  | V4Swap (Some (price, liquidity, tick)) =>
      (mkV3 (v3_factory s) price tick liquidity (v3_fee_pips s) (v3_tick_spacing s) (v3_ticks s) (v3_v4 s) (v3_window s), true)
  | V4Modify (Some (lower, upper, delta)) =>
      (match try_from 128 (Z.abs delta) with
       | Some amount => v3_modify s lower upper amount (0 <=? delta)
       | None => set_price s 0
       end, true)
  | V4Swap None | V4Modify None => (set_price s 0, true)
  | V4Other => (s, false)
  end.

Definition fold_v2 (s : V2State) (log : DecodedLog) : V2State * bool :=
  match v2_log (lg_topics log) (lg_data log) with
  | V2Other => (s, false)
  | V2Sync (Some (r0, r1)) => (mkV2 r0 r1 (v2_factory s), true)
  | V2Sync None => (mkV2 0 0 (v2_factory s), true)
  end.

Definition fold_balancer (s : Balancer.BalancerState) (log : DecodedLog) : Balancer.BalancerState * bool :=
  let stale := balancer_stale s (lg_block log) in
  match vault_log (lg_topics log) (lg_data log) with
  | VaultSwap (Some (token_in, token_out, amount_in, amount_out)) =>
      match position (Z.eqb token_in) (Balancer.bl_tokens s), position (Z.eqb token_out) (Balancer.bl_tokens s) with
      | Some i, Some j =>
          match (let! v := Balancer.bl_balances s !! i in checked_add 256 v amount_in),
                (let! v := Balancer.bl_balances s !! j in checked_sub v amount_out) with
          | Some bi, Some bj => (Balancer.with_balances s (<[j := bj]> (<[i := bi]> (Balancer.bl_balances s))), true)
          | _, _ => (stale, true)
          end
      | _, _ => (stale, true)
      end
  | VaultSwap None => (stale, true)
  | VaultBalances => (stale, true)
  | VaultOther => (s, false)
  end.

(** One pool holding the token of a [LogOperate]: [None] where the loop goes on without a
    change. *)
Definition fluid_operate (p : Pool) (ev : LogOperate) (block : Z) : option PoolState :=
  match po_state p with
  | Fluid f =>
      let! k := position (Z.eqb (op_token ev)) (fl_tokens f) in
      if op_user ev =? po_address p then Some (Fluid (fluid_stale f block)) else
      let! t := fl_liq f !! k in
      let d := checked_i 256 (op_supply_amount ev - op_borrow_amount ev) in
      let balance := match d with
                     | Some d => if d <? 0 then saturating_sub (lq_balance t) (Z.abs d)
                                 else saturating_add 256 (lq_balance t) (Z.abs d)
                     | None => lq_balance t
                     end in
      let t := mkLiqToken (op_exchange_prices_and_config ev) (op_total_amounts ev) (lq_configs2 t) (lq_rate_data t)
                 (lq_supply t) (lq_borrow t) balance in
      let f := mkFluid (fl_prec f) (fl_tokens f) (fl_native f) (fl_deployer f) (fl_dex_vars f) (fl_dex_vars2 f)
                 (fl_center_ext f) (<[k := t]> (fl_liq f)) (fl_exec_ts f) (fl_stale f) (fl_stale_block f) (fl_read_block f) in
      Some (Fluid (match d with Some _ => f | None => fluid_stale f block end))
  | _ => None
  end.

Fixpoint operate_loop (ids : list PoolId) (ev : LogOperate) (block : Z) (ps : list Pool) (changed : bool) : list Pool * bool :=
  match ids with
  | [] => (ps, changed)
  | id :: ids =>
      match (let! p := ps !! id in let! s := fluid_operate p ev block in Some (with_state p s)) with
      | Some p => operate_loop ids ev block (<[id := p]> ps) true
      | None => operate_loop ids ev block ps changed
      end
  end.

Definition on_fluid_operate b (log : DecodedLog) : Book G * bool :=
  match decode_log_operate (lg_topics log) (lg_data log) with
  | None => (b, false)
  | Some ev =>
      match bk_by_fluid_token b !! op_token ev with
      | None => (b, false)
      | Some ids =>
          let '(ps, changed) := operate_loop ids ev (lg_block log) (bk_pools b) false in (set_pools b ps, changed)
      end
  end.

Definition on_pool_created b (log : DecodedLog) : Book G :=
  match decode_pool_created (lg_topics log) (lg_data log) with
  | None => b
  | Some ev =>
      match bk_assets b !! pc_token0 ev, bk_assets b !! pc_token1 ev with
      | Some a0, Some a1 =>
          let fee_pips := default (umax 32) (try_from 32 (pc_fee ev)) in
          let pool := mkPool (pc_pool ev) [a0; a1] [pc_token0 ev; pc_token1 ev] (bk_v3_hop_gas b)
                        (V3 (mkV3 0 0 0 0 fee_pips (pc_tick_spacing ev) [] None None)) in
          match add b pool with
          | (b, Ok _) => set_discovered b (saturating_add 64 (bk_discovered b) 1)
          | (b, Err _) => b
          end
      | _, _ => b
      end
  end.

(** The state of a pool after a log of its own contract. *)
Definition fold_own (s : PoolState) (t0 : Z) (log : DecodedLog) : PoolState * bool :=
  match s with
  | V3 s => let '(s, c) := fold_v3 s (v3_log (v3_factory s) (lg_topics log) (lg_data log)) in (V3 s, c)
  | V2 s => let '(s, c) := fold_v2 s log in (V2 s, c)
  | Curve s => if existsb (Z.eqb t0) (stale_topics s) then (Curve (curve_stale s (lg_block log)), true) else (Curve s, false)
  | Crypto s => if existsb (Z.eqb t0) CRYPTO_STALE_TOPICS then (Crypto (crypto_stale s (lg_block log)), true) else (Crypto s, false)
  | BalancerPool s =>
      if existsb (Z.eqb t0) BALANCER_POOL_STALE_TOPICS then (BalancerPool (balancer_stale s (lg_block log)), true)
      else (BalancerPool s, false)
  | Fluid f => (Fluid f, false)
  end.

(** Fold a state change into the pool at [id]; the generation moves with it. *)
Definition fold_at b (id : PoolId) (f : PoolState -> PoolState * bool) : Book G :=
  match get b id with
  | None => b
  | Some p => let '(s, changed) := f (po_state p) in
              let b := put_state b id p s in if changed : bool then bump b else b
  end.

Definition apply_log b (log : DecodedLog) : Book G :=
  match lg_topics log with
  | [] => b
  | t0 :: rest =>
      if bool_decide (Some (lg_address log) = bk_v3_factory b) then
        (if t0 =? sig_pool_created then on_pool_created b log else b) else
      if lg_address log =? BALANCER_VAULT then
        match (let! pid := head rest in bk_by_balancer_id b !! pid) with
        | None => b
        | Some id => fold_at b id (fun s => match s with
                                            | BalancerPool s => let '(s, c) := fold_balancer s log in (BalancerPool s, c)
                                            | s => (s, false)
                                            end)
        end else
      if lg_address log =? FLUID_LIQUIDITY then
        (if t0 =? sig_log_operate then let '(b, changed) := on_fluid_operate b log in if changed : bool then bump b else b else b) else
      if lg_address log =? V4_POOL_MANAGER then
        match (let! pid := head rest in bk_by_v4_id b !! pid) with
        | None => b
        | Some id => fold_at b id (fun s => match s with
                                            | V3 s => let '(s, c) := fold_v4 s log in (V3 s, c)
                                            | s => (s, false)
                                            end)
        end else
      match by_address b (lg_address log) with
      | None => b
      | Some id =>
          match get b id with
          | None => b
          | Some _ =>
              let b := match bk_pending_v2 b !! id with
                       | Some last => set_pending b (<[id := Z.max last (lg_block log)]> (bk_pending_v2 b))
                       | None => b
                       end in
              fold_at b id (fun s => fold_own s t0 log)
          end
      end
  end.
End Logs.

End PoolBook.
