(* ===== verification/PoolBookThms.v ===== *)
(** * The pool book's indexes

    Over any run of its operations the indexes of a [PoolBook] list exactly its pools
    ([book_ok]), and what an exit is quoted on does not change without the generation moving. *)

From stdpp Require Import gmap.
From S2P Require Import Prelude Fixed Types RouterFees PoolMath PoolV3 RouterLog RouterGraph RouterPairs RouterExit Balancer PoolBook.
Import PoolBook.
Local Open Scope Z_scope.

(** ** Reference definitions *)

Definition pool_legs (id : PoolId) (assets : list AssetId) (a c : AssetId) : list Leg :=
  flat_map (fun i => omap (fun j =>
      if bool_decide (i <> j /\ assets !! i = Some a /\ assets !! j = Some c) then Some (mkLeg id i j) else None)
    (seq 0 (length assets))) (seq 0 (length assets)).

(** Every directed leg of every pool, in pool order. *)
Definition scan_legs (ps : list Pool) (a c : AssetId) : list Leg :=
  concat (imap (fun id p => pool_legs id (po_assets p) a c) ps).

Record book_ok {G} (b : Book G) : Prop := {
  ok_address : forall a id, bk_by_address b !! a = Some id <-> exists p, get b id = Some p /\ po_address p = a;
  ok_legs : forall a c, legs b a c = scan_legs (bk_pools b) a c;
  ok_v4 : forall k id, bk_by_v4_id b !! k = Some id <-> exists p, get b id = Some p /\ v4_id (po_state p) = Some k;
  ok_balancer : forall k id, bk_by_balancer_id b !! k = Some id <-> exists p, get b id = Some p /\ balancer_id (po_state p) = Some k;
  ok_fluid : forall t id, id ∈ default [] (bk_by_fluid_token b !! t) <->
    exists p, get b id = Some p /\ t ∈ fluid_tokens (po_state p);
  ok_width : forall id p, get b id = Some p ->
    length (po_tokens p) = length (po_assets p) /\ width_ok (length (po_assets p)) (po_state p) = true;
  ok_pending : forall id, is_Some (bk_pending_v2 b !! id) -> exists p s, get b id = Some p /\ po_state p = V2 s
}.

(** ** The legs a pool adds *)

Lemma push_leg_lookup m k l k' :
  default [] (push_leg m k l !! k') = default [] (m !! k') ++ (if bool_decide (k = k') then [l] else []).
Proof.
  unfold push_leg. case_bool_decide as E; [subst; by rewrite lookup_insert_eq|].
  by rewrite lookup_insert_ne, app_nil_r.
Qed.

Lemma try_from_nat_8' n : (n < 256)%nat -> try_from_nat 8 n = Some n.
Proof. intros. unfold try_from_nat. change (umax 8) with 255. case_match eqn:E; [done|]. apply Z.leb_gt in E. lia. Qed.

Lemma legs_from_lookup (all : list AssetId) (id : PoolId) (i : nat) (a : AssetId) : (length all <= 256)%nat -> (i < 256)%nat ->
  forall bs (j : nat) m, (j + length bs = length all)%nat -> drop j all = bs -> exists m',
  legs_from id i a j bs m = (m', true) /\
  forall x c, default [] (m' !! (x, c)) = default [] (m !! (x, c)) ++
    omap (fun j => if bool_decide (i <> j /\ x = a /\ all !! j = Some c) then Some (mkLeg id i j) else None) (seq j (length bs)).
Proof.
  intros Hn Hi. induction bs as [|d bs IH]; intros j m Hj Hd; cbn [legs_from].
  { exists m. split; [done|]. intros. cbn. by rewrite app_nil_r. }
  assert (Hjn : (j < 256)%nat) by (cbn in Hj; lia).
  assert (Ed : all !! j = Some d) by (rewrite <- (Nat.add_0_r j), <- lookup_drop, Hd; done).
  assert (Hd' : drop (S j) all = bs) by (rewrite <- Nat.add_1_r, <- drop_drop, Hd; done).
  destruct (i =? j)%nat eqn:E; zbool.
  - destruct (IH (S j) m ltac:(cbn in Hj; lia) Hd') as (m' & -> & Hm'). exists m'. split; [done|].
    intros x c. rewrite Hm'. cbn. rewrite bool_decide_eq_false_2 by naive_solver. done.
  - rewrite !try_from_nat_8' by done.
    destruct (IH (S j) (push_leg m (a, d) (mkLeg id i j)) ltac:(cbn in Hj; lia) Hd') as (m' & -> & Hm').
    exists m'. split; [done|]. intros x c. rewrite Hm', push_leg_lookup. cbn [length seq omap list_omap].
    rewrite <- app_assoc. f_equal.
    destruct (bool_decide ((a, d) = (x, c))) eqn:B1; [apply bool_decide_eq_true in B1|apply bool_decide_eq_false in B1].
    + injection B1 as -> ->. by rewrite bool_decide_eq_true_2.
    + rewrite bool_decide_eq_false_2 by naive_solver. done.
Qed.

Lemma legs_all_lookup (all : list AssetId) (id : PoolId) : (length all <= 256)%nat ->
  forall l (i : nat) m, (i + length l = length all)%nat -> drop i all = l -> exists m',
  legs_all id all i l m = (m', true) /\
  forall a c, default [] (m' !! (a, c)) = default [] (m !! (a, c)) ++
    flat_map (fun i => omap (fun j =>
      if bool_decide (i <> j /\ all !! i = Some a /\ all !! j = Some c) then Some (mkLeg id i j) else None)
      (seq 0 (length all))) (seq i (length l)).
Proof.
  intros Hn. induction l as [|d l IH]; intros i m Hi Hd; cbn [legs_all].
  { exists m. split; [done|]. intros. cbn. by rewrite app_nil_r. }
  assert (Ed : all !! i = Some d) by (rewrite <- (Nat.add_0_r i), <- lookup_drop, Hd; done).
  assert (Hd' : drop (S i) all = l) by (rewrite <- Nat.add_1_r, <- drop_drop, Hd; done).
  destruct (legs_from_lookup all id i d Hn ltac:(cbn in Hi; lia) all 0 m ltac:(lia) ltac:(done)) as (m1 & -> & Hm1).
  destruct (IH (S i) m1 ltac:(cbn in Hi; lia) Hd') as (m' & -> & Hm'). exists m'. split; [done|]. intros a c.
  rewrite Hm', Hm1, <- app_assoc. cbn [length seq flat_map]. do 2 f_equal.
  apply list_omap_ext, Forall_Forall2_diag, Forall_forall. intros j _.
  rewrite (bool_decide_ext _ (i <> j /\ all !! i = Some a /\ all !! j = Some c)); [done|]. rewrite Ed. naive_solver.
Qed.

(** ** A pool's state changes under its indexes *)

(** What the indexes read of a state. *)
Record same_shape (s s' : PoolState) : Prop := {
  sh_v4 : v4_id s' = v4_id s;
  sh_balancer : balancer_id s' = balancer_id s;
  sh_fluid : fluid_tokens s' = fluid_tokens s;
  sh_width : forall n, width_ok n s = true -> width_ok n s' = true;
  sh_v2 : forall v, s = V2 v -> exists v', s' = V2 v' }.

Lemma same_shape_refl s : same_shape s s.
Proof. split; try done. intros v ->. by exists v. Qed.

Lemma get_put {G} (b : Book G) id p s id' q : get b id = Some p ->
  get (put_state b id p s) id' = Some q <->
  (id' = id /\ q = with_state p s) \/ (id' <> id /\ get b id' = Some q).
Proof.
  intros Hp. unfold get, put_state, put, set_pools in *. cbn.
  destruct (decide (id' = id)) as [->|Hne].
  - rewrite list_lookup_insert_eq by (by eapply lookup_lt_Some). naive_solver.
  - rewrite list_lookup_insert_ne by done. naive_solver.
Qed.

(** A question about one pool has the same answers where the state keeps its shape. *)
Lemma ex_put {G} (b : Book G) id p s (P : Pool -> Prop) id' : get b id = Some p -> (P (with_state p s) <-> P p) ->
  (exists q, get (put_state b id p s) id' = Some q /\ P q) <-> (exists q, get b id' = Some q /\ P q).
Proof.
  intros Hp HP. split.
  - intros (q & Hq & H). apply (get_put b id p s id' q Hp) in Hq as [[-> ->]|[_ Hq]]; naive_solver.
  - intros (q & Hq & H). destruct (decide (id' = id)) as [->|Hne].
    + exists (with_state p s). split; [apply get_put; [done|naive_solver]|]. assert (q = p) as -> by congruence. by apply HP.
    + exists q. split; [apply get_put; naive_solver|done].
Qed.

Lemma imap_insert_same {A B} (f : nat -> A -> B) (l : list A) i x y : l !! i = Some y -> f i x = f i y ->
  imap f (<[i := x]> l) = imap f l.
Proof.
  intros Hy Hf. apply list_eq. intros k. rewrite !list_lookup_imap.
  destruct (decide (k = i)) as [->|Hne].
  - rewrite list_lookup_insert_eq by (by eapply lookup_lt_Some). rewrite Hy. cbn. by rewrite Hf.
  - by rewrite list_lookup_insert_ne.
Qed.

Lemma put_state_ok {G} (b : Book G) id p s : book_ok b -> get b id = Some p -> same_shape (po_state p) s ->
  book_ok (put_state b id p s).
Proof.
  intros [H1 H2 H3 H4 H5 H6 H7] Hp [S1 S2 S3 S4 S5]. split.
  - intros a k. cbn [bk_by_address put_state put set_pools]. rewrite H1. symmetry. by apply ex_put.
  - intros a c. change (legs (put_state b id p s) a c) with (legs b a c). rewrite H2. unfold scan_legs. f_equal. symmetry.
    by eapply imap_insert_same.
  - intros k n. change (bk_by_v4_id (put_state b id p s)) with (bk_by_v4_id b). rewrite H3. symmetry. apply ex_put; [done|]. cbn. by rewrite S1.
  - intros k n. change (bk_by_balancer_id (put_state b id p s)) with (bk_by_balancer_id b). rewrite H4. symmetry. apply ex_put; [done|]. cbn. by rewrite S2.
  - intros t n. change (bk_by_fluid_token (put_state b id p s)) with (bk_by_fluid_token b). rewrite H5. symmetry. apply ex_put; [done|]. cbn. by rewrite S3.
  - intros n q Hq. apply get_put in Hq as [[-> ->]|[_ Hq]]; [|by apply H6 in Hq|done].
    destruct (H6 _ _ Hp) as [? ?]. split; [done|]. by apply S4.
  - intros n Hn. change (bk_pending_v2 (put_state b id p s)) with (bk_pending_v2 b) in Hn.
    destruct (H7 n Hn) as (q & v & Hq & Hv). destruct (decide (n = id)) as [->|Hne].
    + assert (q = p) as -> by congruence. destruct (S5 v Hv) as [v' Hv'].
      exists (with_state p s), v'. split; [apply get_put; naive_solver|done].
    + exists q, v. split; [apply get_put; naive_solver|done].
Qed.

(** What [book_ok] does not read. *)
Lemma ok_same {G} (b b' : Book G) : bk_pools b' = bk_pools b -> bk_by_address b' = bk_by_address b ->
  bk_legs b' = bk_legs b -> bk_by_v4_id b' = bk_by_v4_id b -> bk_by_balancer_id b' = bk_by_balancer_id b ->
  bk_by_fluid_token b' = bk_by_fluid_token b ->
  (forall id, is_Some (bk_pending_v2 b' !! id) -> is_Some (bk_pending_v2 b !! id)) -> book_ok b -> book_ok b'.
Proof.
  intros E1 E2 E3 E4 E5 E6 E7 [H1 H2 H3 H4 H5 H6 H7].
  assert (Eg : forall id, get b' id = get b id) by (intros; unfold get; by rewrite E1).
  split.
  - intros a id. rewrite E2, H1. by setoid_rewrite Eg.
  - intros a c. unfold legs. rewrite E1, E3. apply H2.
  - intros k id. rewrite E4, H3. by setoid_rewrite Eg.
  - intros k id. rewrite E5, H4. by setoid_rewrite Eg.
  - intros t id. rewrite E6, H5. by setoid_rewrite Eg.
  - intros id p. rewrite Eg. apply H6.
  - intros id Hid. setoid_rewrite Eg. auto.
Qed.

Lemma bump_keeps {G} (b : Book G) : book_ok b -> book_ok (bump b).
Proof. by apply ok_same. Qed.

Lemma new_ok {G} assets f gas : book_ok (@new G assets f gas).
Proof.
  split; cbn; try done.
  - intros a id. rewrite lookup_empty. split; [done|]. by intros (p & ? & _).
  - intros k id. rewrite lookup_empty. split; [done|]. by intros (p & ? & _).
  - intros k id. rewrite lookup_empty. split; [done|]. by intros (p & ? & _).
  - intros t id. rewrite lookup_empty. cbn. split; [by intros ?%not_elem_of_nil|]. by intros (p & ? & _).
  - intros id. rewrite lookup_empty. by intros [? ?].
Qed.

(** ** Registering a pool *)

Lemma index_snoc (m : gmap Z PoolId) (k : Pool -> option Z) (ps : list Pool) (pool : Pool) :
  (forall x id, m !! x = Some id <-> exists p, ps !! id = Some p /\ k p = Some x) -> is_key m (k pool) = false ->
  forall x id, index_by m (k pool) (length ps) !! x = Some id <-> exists p, (ps ++ [pool]) !! id = Some p /\ k p = Some x.
Proof.
  intros Hm Hkey x id. setoid_rewrite lookup_app_Some. unfold index_by, is_key in *.
  destruct (k pool) as [y|] eqn:Ek.
  - destruct (m !! y) as [|] eqn:Ey in Hkey; [done|]. destruct (decide (y = x)) as [->|Hne].
    + rewrite lookup_insert_eq. split.
      * intros [= <-]. exists pool. split; [right; rewrite Nat.sub_diag; split; [lia|done]|done].
      * intros (p & [Hp|[Hle Hp]] & Hx); [exfalso; assert (m !! x = Some id) by (apply Hm; eauto); congruence|].
        apply lookup_lt_Some in Hp as Hlt. cbn in Hlt. f_equal. lia.
    + rewrite lookup_insert_ne, Hm by done. split; [naive_solver|].
      intros (p & [Hp|[Hle Hp]] & Hx); [eauto|]. apply list_lookup_singleton_Some in Hp as [_ <-]. congruence.
  - rewrite Hm. split; [naive_solver|].
    intros (p & [Hp|[Hle Hp]] & Hx); [eauto|]. apply list_lookup_singleton_Some in Hp as [_ <-]. congruence.
Qed.

Lemma push_ids id ts : forall (m : gmap Address (list PoolId)) t k,
  k ∈ default [] (fold_left (fun m t => push_id m id t) ts m !! t) <-> k ∈ default [] (m !! t) \/ (k = id /\ t ∈ ts).
Proof.
  induction ts as [|u ts IH]; intros m t k; cbn [fold_left].
  { rewrite elem_of_nil. naive_solver. }
  rewrite IH. unfold push_id. destruct (decide (u = t)) as [->|Hne].
  - rewrite lookup_insert_eq. cbn. rewrite elem_of_app, list_elem_of_singleton, elem_of_cons. naive_solver.
  - rewrite lookup_insert_ne by done. rewrite elem_of_cons. naive_solver.
Qed.

Lemma add_effect {G} (b : Book G) pool : (length (po_assets pool) <= 256)%nat ->
  (exists e, add b pool = (b, Err e)) \/
  (add b pool = (fst (add b pool), Ok (length (bk_pools b))) /\
   bk_pools (fst (add b pool)) = bk_pools b ++ [pool] /\
   bk_unwraps (fst (add b pool)) = bk_unwraps b /\ bk_pending_v2 (fst (add b pool)) = bk_pending_v2 b /\
   bk_generation (fst (add b pool)) = wrapping_add 64 (bk_generation b) 1 /\
   (book_ok b -> book_ok (fst (add b pool)))).
Proof.
  intros Hn. unfold add. destruct (_ || _) eqn:E1; [eauto|]. destruct (negb (width_ok _ _)) eqn:E2; [eauto|].
  destruct (is_key (bk_by_balancer_id b) _) eqn:E3; [eauto|].
  destruct (try_from_nat 32 (length (bk_pools b))) as [id|] eqn:E4; [|eauto].
  destruct (is_key (bk_by_v4_id b) _) eqn:E5; [eauto|]. right.
  assert (id = length (bk_pools b)) as -> by (unfold try_from_nat in E4; by case_match; simplify_eq).
  destruct (legs_all_lookup (po_assets pool) (length (bk_pools b)) Hn (po_assets pool) 0 (bk_legs b) ltac:(lia) ltac:(done))
    as (m & -> & Hm). cbn [fst].
  do 4 (split; [done|]). split; [done|]. intros [H1 H2 H3 H4 H5 H6 H7]. zbool.
  assert (Hget : forall (b' : Book G) id p, bk_pools b' = bk_pools b ++ [pool] ->
    get b' id = Some p <-> get b id = Some p \/ id = length (bk_pools b) /\ p = pool).
  { intros b' id p E. unfold get. rewrite E, lookup_app_Some. split.
    - intros [?|[? Hp]]; [by left|]. right. apply list_lookup_singleton_Some in Hp as [? <-]. split; [lia|done].
    - intros [?|[-> ->]]; [by left|]. right. by rewrite Nat.sub_diag. }
  split.
  - intros a id. cbn. pose proof (index_snoc (bk_by_address b) (fun p => Some (po_address p)) (bk_pools b) pool) as HI.
    cbn in HI. rewrite HI; [unfold get; cbn; naive_solver| |done]. intros x k. rewrite H1. unfold get. naive_solver.
  - intros a c. unfold legs, scan_legs. cbn. rewrite Hm, imap_app, concat_app. cbn. rewrite app_nil_r.
    f_equal; [apply H2|]. by rewrite Nat.add_0_r.
  - by apply (index_snoc (bk_by_v4_id b) (fun p => v4_id (po_state p))).
  - by apply (index_snoc (bk_by_balancer_id b) (fun p => balancer_id (po_state p))).
  - intros t id. cbn [bk_by_fluid_token bump set_pools set_indexes]. rewrite push_ids, H5. split.
    + intros [(p & Hp & Ht)|[-> Ht]]; [exists p|exists pool]; (split; [apply Hget; [done|]|done]); auto.
    + intros (p & Hp & Ht). apply Hget in Hp as [Hp|[-> ->]]; [|by right|done]. left. eauto.
  - intros id p Hp. apply Hget in Hp as [Hp|[-> ->]]; [by apply (H6 id)| |done]. split; [done|]. done.
  - intros id Hid. destruct (H7 id Hid) as (p & v & Hp & Hv). exists p, v. split; [|done]. apply Hget; [done|by left].
Qed.

(** ** Runs *)

Inductive BookOp {G : Type} :=
| OpAdd (pool : Pool)
| OpAddPending (pool : Pool)
| OpSeed (id : PoolId) (r0 r1 block : Z)
| OpStale (id : PoolId) (block : Z)
| OpRemoveUnwrap (wrapper : AssetId)
| OpAddUnwrap (u : Unwrap)
| OpSetRate (wrapper : AssetId) (rate : UnwrapRate) (block : Z)
| OpExpire (wrapper : AssetId)
| OpCurve (id : PoolId) (balances : list Z) (a a_precision fee : Z) (ng : option (list Z * Z)) (block : Z)
| OpBalancer (id : PoolId) (read : Balancer.BalancerRead) (block : Z)
| OpFluid (id : PoolId) (read : FluidRead) (block : Z)
| OpCrypto (id : PoolId) (read : CryptoRead) (block : Z)
| OpLog (log : DecodedLog)
| OpHub (weth : AssetId)
| OpGraph (graph : option G).
Arguments BookOp : clear implicits.

Definition run_op `{PoolAbi} {G} (b : Book G) (op : BookOp G) : Book G :=
  match op with
  | OpAdd pool => fst (add b pool)
  | OpAddPending pool => fst (add_pending_v2 b pool)
  | OpSeed id r0 r1 block => fst (seed_pending_v2 b id r0 r1 block)
  | OpStale id block => fst (mark_stale b id block)
  | OpRemoveUnwrap w => fst (remove_unwrap b w)
  | OpAddUnwrap u => add_unwrap b u
  | OpSetRate w rate block => fst (set_unwrap_rate b w rate block)
  | OpExpire w => fst (expire_pendle_market b w)
  | OpCurve id balances a ap fee ng block => fst (reseed_curve b id balances a ap fee ng block)
  | OpBalancer id read block => fst (reseed_balancer b id read block)
  | OpFluid id read block => fst (reseed_fluid b id read block)
  | OpCrypto id read block => fst (reseed_crypto b id read block)
  | OpLog log => apply_log b log
  | OpHub weth => set_hub b weth
  | OpGraph graph => set_graph b graph
  end.

(** The callers' side: coin indices fit a byte, a registered unwrap is unread, and a rate is
    read at a block after genesis. *)
Definition op_ok {G} (op : BookOp G) : Prop :=
  match op with
  | OpAdd pool | OpAddPending pool => (length (po_assets pool) <= 256)%nat
  | OpAddUnwrap u => un_rate u = Unread /\ 0 <= un_read_block u
  | OpSetRate _ _ block => 0 < block
  | _ => True
  end.

Inductive reachable `{PoolAbi} {G} : Book G -> Prop :=
| r_new assets factory gas : reachable (new assets factory gas)
| r_step b op : reachable b -> op_ok op -> reachable (run_op b op).

(** *** Every operation keeps the shape of the pools *)

Lemma v3_modify_v4 s lower upper amount mint : v3_v4 (v3_modify s lower upper amount mint) = v3_v4 s.
Proof. unfold v3_modify. repeat case_match; done. Qed.

Lemma v3_shape s s' : v3_v4 s' = v3_v4 s -> same_shape (V3 s) (V3 s').
Proof. intros E. split; cbn; try done. by rewrite E. Qed.

Lemma fold_v3_shape s l : same_shape (V3 s) (V3 (fst (fold_v3 s l))).
Proof. apply v3_shape. destruct l as [[[[]]|]|[[[]]|]|[[[]]|]|[[]|]|]; cbn; rewrite ?v3_modify_v4; done. Qed.

Lemma state_stale_shape s block s' : state_stale s block = Some s' -> same_shape s s'.
Proof. intros E. destruct s; cbn in E; simplify_eq; (split; [done..|]); done. Qed.

Lemma width_length (s : Balancer.BalancerState) bs : length bs = length (Balancer.bl_balances s) ->
  same_shape (BalancerPool s) (BalancerPool (Balancer.with_balances s bs)).
Proof. intros E. split; cbn; try done. by rewrite E. Qed.

Section Runs.
Context `{PoolAbi}.

Lemma fold_v4_shape s log : same_shape (V3 s) (V3 (fst (fold_v4 s log))).
Proof. apply v3_shape. unfold fold_v4. repeat case_match; cbn; rewrite ?v3_modify_v4; done. Qed.

Lemma fold_balancer_shape s log : same_shape (BalancerPool s) (BalancerPool (fst (fold_balancer s log))).
Proof.
  assert (Hst : same_shape (BalancerPool s) (BalancerPool (balancer_stale s (lg_block log)))) by (by eapply state_stale_shape).
  unfold fold_balancer. cbv zeta. repeat case_match; cbn [fst]; try exact Hst; try apply same_shape_refl;
    apply width_length; by rewrite !length_insert.
Qed.

Lemma fold_own_shape s t0 log : same_shape s (fst (fold_own s t0 log)).
Proof.
  destruct s as [s|s|s|s|s|s]; cbn.
  - destruct (fold_v2 s log). cbn. split; try done. intros. by eexists.
  - pose proof (fold_v3_shape s (v3_log (v3_factory s) (lg_topics log) (lg_data log))) as Hs. by destruct (fold_v3 _ _).
  - case_match; [by eapply state_stale_shape|apply same_shape_refl].
  - case_match; [by eapply state_stale_shape|apply same_shape_refl].
  - case_match; [by eapply state_stale_shape|apply same_shape_refl].
  - apply same_shape_refl.
Qed.

(** A fold that reports no change makes none. *)
Lemma fold_own_same s t0 log : snd (fold_own s t0 log) = false -> fst (fold_own s t0 log) = s.
Proof.
  destruct s as [s|s|s|s|s|s]; cbn; try (case_match; done); try done.
  - unfold fold_v2. by destruct (v2_log _ _) as [[[]|]|].
  - unfold fold_v3. destruct (v3_log _ _ _) as [[[[]]|]|[[[]]|]|[[[]]|]|[[]|]|]; done.
Qed.
Lemma fold_v4_same s log : snd (fold_v4 s log) = false -> fst (fold_v4 s log) = s.
Proof. unfold fold_v4. repeat case_match; done. Qed.
Lemma fold_balancer_same s log : snd (fold_balancer s log) = false -> fst (fold_balancer s log) = s.
Proof. unfold fold_balancer. repeat case_match; done. Qed.

Lemma fluid_operate_shape p ev block s : fluid_operate p ev block = Some s -> same_shape (po_state p) s.
Proof.
  unfold fluid_operate. destruct (po_state p) as [| | | | |f]; try done. intros E.
  destruct (position _ _) as [k|]; [|done]. destruct (op_user ev =? po_address p); [injection E as <-; by split|].
  destruct (fl_liq f !! k); [|done]. injection E as <-. destruct (checked_i 256 _); by split.
Qed.

Context {G : Type}.
Implicit Types b : Book G.

Lemma fold_at_ok b id f : (forall s, same_shape s (fst (f s))) -> book_ok b -> book_ok (fold_at b id f).
Proof.
  intros Hf Hb. unfold fold_at. destruct (get b id) as [p|] eqn:E; [|done]. specialize (Hf (po_state p)).
  destruct (f (po_state p)) as [s c]. cbn in Hf. destruct c; [apply bump_keeps|]; by apply put_state_ok.
Qed.

Lemma operate_loop_ok ids ev block : forall b ps changed, book_ok (set_pools b ps) ->
  book_ok (set_pools b (fst (operate_loop ids ev block ps changed))).
Proof.
  induction ids as [|id ids IH]; intros b ps changed Hb; cbn [operate_loop]; [done|].
  destruct (ps !! id) as [p|] eqn:Ep; [|by apply IH]. destruct (fluid_operate p ev block) as [s|] eqn:Es; [|by apply IH].
  apply IH. apply (put_state_ok (set_pools b ps) id p s Hb Ep). by eapply fluid_operate_shape.
Qed.

Lemma operate_loop_same ids ev block : forall ps, snd (operate_loop ids ev block ps false) = false ->
  fst (operate_loop ids ev block ps false) = ps.
Proof.
  assert (Ht : forall ids ps, snd (operate_loop ids ev block ps true) = true).
  { induction ids0 as [|id ids0 IH0]; intros ps; cbn; [done|]. case_match; apply IH0. }
  induction ids as [|id ids IH]; intros ps; cbn; [done|]. case_match; [by rewrite Ht|apply IH].
Qed.

(** *** What an exit is quoted on *)

(** An unwrap without the block of its read. *)
Definition unwrap_view (u : Unwrap) :=
  (un_kind u, un_wrapper u, un_wrapper_token u, un_into u, un_into_token u, un_rate u, un_scale u, un_gas u, unwrap_is_live u).

Record same_answers b b' : Prop := {
  sa_pools : bk_pools b' = bk_pools b;
  sa_address : bk_by_address b' = bk_by_address b;
  sa_legs : bk_legs b' = bk_legs b;
  sa_hub : bk_hub b' = bk_hub b;
  sa_graph : bk_graph b' = bk_graph b;
  sa_unwraps : forall w, unwrap_view <$> bk_unwraps b' !! w = unwrap_view <$> bk_unwraps b !! w }.

Definition moved b b' : Prop := same_answers b b' \/ bk_generation b' = wrapping_add 64 (bk_generation b) 1.

(** An unwrap that was never read has no rate. *)
Definition reads_ok b : Prop :=
  forall w u, bk_unwraps b !! w = Some u -> 0 <= un_read_block u /\ (un_read_block u = 0 -> un_rate u = Unread).

Lemma moved_refl b : moved b b.
Proof. by left. Qed.

Lemma moved_put b id p s b' : bk_generation b' = wrapping_add 64 (bk_generation (put_state b id p s)) 1 -> moved b b'.
Proof. by right. Qed.

Lemma put_same b id p : get b id = Some p -> put_state b id p (po_state p) = b.
Proof.
  intros Hp. unfold put_state, put, set_pools. destruct b, p. cbn in *. f_equal. by apply list_insert_id.
Qed.

Lemma fold_at_moved b id f : (forall s, snd (f s) = false -> fst (f s) = s) -> moved b (fold_at b id f).
Proof.
  intros Hf. unfold fold_at. destruct (get b id) as [p|] eqn:E; [|by left]. specialize (Hf (po_state p)).
  destruct (f (po_state p)) as [s c]. destruct c; [by right|]. cbn in Hf. rewrite Hf by done. rewrite put_same by done. by left.
Qed.

(** *** Steps *)

Lemma add_step b pool : (length (po_assets pool) <= 256)%nat ->
  (book_ok b -> book_ok (fst (add b pool))) /\ moved b (fst (add b pool)) /\ bk_unwraps (fst (add b pool)) = bk_unwraps b.
Proof.
  intros Hn. destruct (add_effect b pool Hn) as [[e ->]|(-> & _ & Hu & _ & Hg & Hok)]; [split_and!; [done|by left|done]|].
  cbn [fst]. split; [done|]. split; [by right|done].
Qed.

Lemma on_pool_created_step b log :
  (book_ok b -> book_ok (on_pool_created b log)) /\ moved b (on_pool_created b log) /\
  bk_unwraps (on_pool_created b log) = bk_unwraps b.
Proof.
  unfold on_pool_created. destruct (decode_pool_created _ _) as [ev|]; [|split_and!; [done|by left|done]].
  destruct (bk_assets b !! pc_token0 ev) as [a0|]; [|split_and!; [done|by left|done]].
  destruct (bk_assets b !! pc_token1 ev) as [a1|]; [|split_and!; [done|by left|done]].
  match goal with |- context [add b ?p] => destruct (add_step b p) as (H1 & H2 & H3); [cbn; lia|]; destruct (add b p) as [b' [id|e]] end;
    cbn in *; [|done].
  split; [intros Hb; apply (ok_same b'); [done..|by apply H1]|]. split; [|done].
  destruct H2 as [[? ? ? ? ? ?]|?]; [left; by split|by right].
Qed.

Lemma on_fluid_step b log :
  (book_ok b -> book_ok (fst (on_fluid_operate b log))) /\
  (snd (on_fluid_operate b log) = false -> fst (on_fluid_operate b log) = b) /\
  bk_unwraps (fst (on_fluid_operate b log)) = bk_unwraps b /\ bk_generation (fst (on_fluid_operate b log)) = bk_generation b.
Proof.
  unfold on_fluid_operate. destruct (decode_log_operate _ _) as [ev|]; [|done].
  destruct (bk_by_fluid_token b !! op_token ev) as [ids|]; [|done].
  pose proof (operate_loop_ok ids ev (lg_block log) b (bk_pools b) false) as Hok.
  pose proof (operate_loop_same ids ev (lg_block log) (bk_pools b)) as Hsame.
  destruct (operate_loop _ _ _ _ _) as [ps c]. cbn in *. split; [|split; [|done]].
  - intros Hb. apply Hok. by destruct b.
  - intros ->. rewrite Hsame by done. by destruct b.
Qed.

Lemma fold_at_rest b id f : bk_unwraps (fold_at b id f) = bk_unwraps b.
Proof. unfold fold_at. destruct (get b id); [|done]. destruct (f _) as [s []]; done. Qed.

Lemma apply_log_step b log :
  (book_ok b -> book_ok (apply_log b log)) /\ moved b (apply_log b log) /\ bk_unwraps (apply_log b log) = bk_unwraps b.
Proof.
  assert (Hid : (book_ok b -> book_ok b) /\ moved b b /\ bk_unwraps b = bk_unwraps b) by (split_and!; [done|by left|done]).
  unfold apply_log. destruct (lg_topics log) as [|t0 rest]; [done|].
  destruct (bool_decide _); [destruct (t0 =? sig_pool_created); [apply on_pool_created_step|done]|].
  destruct (lg_address log =? BALANCER_VAULT).
  { match goal with |- context [match ?c with Some _ => _ | None => _ end] => destruct c as [id|]; [|done] end.
    split_and!; [apply fold_at_ok|apply fold_at_moved|apply fold_at_rest]; intros s; destruct s as [s|s|s|s|s|s]; try done;
      try apply same_shape_refl; [pose proof (fold_balancer_shape s log) as Hs|pose proof (fold_balancer_same s log) as Hs];
      destruct (fold_balancer s log); cbn in *; [done|]. intros ->. by rewrite Hs. }
  destruct (lg_address log =? FLUID_LIQUIDITY).
  { destruct (t0 =? sig_log_operate); [|done]. destruct (on_fluid_step b log) as (H1 & H2 & H3 & H4).
    destruct (on_fluid_operate b log) as [b' c]. cbn in *. destruct c.
    - split; [intros; by apply bump_keeps, H1|]. split; [right; cbn; by rewrite H4|done].
    - rewrite H2 by done. done. }
  destruct (lg_address log =? V4_POOL_MANAGER).
  { match goal with |- context [match ?c with Some _ => _ | None => _ end] => destruct c as [id|]; [|done] end.
    split_and!; [apply fold_at_ok|apply fold_at_moved|apply fold_at_rest]; intros s; destruct s as [s|s|s|s|s|s]; try done;
      try apply same_shape_refl; [pose proof (fold_v4_shape s log) as Hs|pose proof (fold_v4_same s log) as Hs];
      destruct (fold_v4 s log); cbn in *; [done|]. intros ->. by rewrite Hs. }
  destruct (by_address b (lg_address log)) as [id|]; [|done]. destruct (get b id) as [p|] eqn:Ep; [|done].
  destruct (bk_pending_v2 b !! id) as [last|] eqn:El.
  2: { split_and!; [apply fold_at_ok; intros; apply fold_own_shape|apply fold_at_moved; intros; by apply fold_own_same|apply fold_at_rest]. }
  set (b1 := set_pending b _). split; [|split; [|apply (fold_at_rest b1)]].
  - intros Hb. apply fold_at_ok; [intros; apply fold_own_shape|]. apply (ok_same b); [done..| |exact Hb].
    intros k. cbn. destruct (decide (k = id)) as [->|Hne]; [by rewrite El|by rewrite lookup_insert_ne].
  - destruct (fold_at_moved b1 id (fun s => fold_own s t0 log)) as [[? ? ? ? ? ?]|?]; [intros; by apply fold_own_same|by left|by right].
Qed.

Lemma curve_read_shape c balances a ap fee ng block :
  same_shape (Curve c) (Curve (fst (curve_read c balances a ap fee ng block))).
Proof.
  split; [done..| |done]. intros n. cbn. intros Hw. zbool. unfold curve_read.
  assert (Hng : forall c', fst (match ng with Some (rates, offpeg) => set_ng_params c rates offpeg | None => (c, Ok tt) end) = c' ->
    length (cv_balances c') = n /\ length (cv_rates c') = n).
  { intros c' <-. destruct ng as [[rates offpeg]|]; [|done]. unfold set_ng_params. destruct (_ || _) eqn:E; [done|]. zbool. cbn. lia. }
  destruct (match ng with Some _ => _ | None => _ end) as [c1 [u|e]]; specialize (Hng c1 eq_refl) as [Hb Hr]; [|cbn; by rewrite Hb, Hr, Nat.eqb_refl].
  unfold reseed_at. destruct (cv_stale _ && _); [cbn; by rewrite Hb, Hr, Nat.eqb_refl|].
  unfold reseed. destruct (negb (length balances =? _)%nat) eqn:E; [cbn; by rewrite Hb, Hr, Nat.eqb_refl|]. zbool. cbn in *. rewrite E, Hr, Nat.eqb_refl. done.
Qed.

(** A read of all the coins of the pool. *)
Definition whole_read b (op : BookOp G) : Prop :=
  match op with
  | OpCurve id balances _ _ _ (Some _) _ =>
      forall p c, get b id = Some p -> po_state p = Curve c -> length balances = length (cv_rates c)
  | _ => True
  end.

Lemma reseed_curve_step b id balances a ap fee ng block :
  let b' := fst (reseed_curve b id balances a ap fee ng block) in
  (book_ok b -> book_ok b') /\ bk_unwraps b' = bk_unwraps b /\
  (whole_read b (OpCurve id balances a ap fee ng block) -> moved b b').
Proof.
  unfold reseed_curve. destruct (get b id) as [p|] eqn:Ep; [|cbn; split_and!; [done|done|by left]].
  destruct (po_state p) as [| |c| | |] eqn:Es; try (cbn; split_and!; [done|done|by left]).
  destruct (negb _); [cbn; split_and!; [done|done|by left]|].
  destruct (cv_stale c && _) eqn:Est; [cbn; split_and!; [done|done|by left]|].
  pose proof (curve_read_shape c balances a ap fee ng block) as Hsh. rewrite <- Es in Hsh at 1.
  assert (Hsame : (ng = None \/ length balances = length (cv_rates c)) ->
    snd (curve_read c balances a ap fee ng block) <> Ok true -> fst (curve_read c balances a ap fee ng block) = c).
  { unfold curve_read. intros Hw.
    destruct ng as [[rates offpeg]|].
    - unfold set_ng_params. destruct (_ || _) eqn:E; [done|]. zbool. unfold reseed_at. cbn. rewrite Est.
      unfold reseed. cbn. destruct Hw as [Hw|Hw]; [done|]. replace (length balances =? length rates)%nat with true; [done|].
      symmetry. apply Nat.eqb_eq. lia.
    - unfold reseed_at. cbn. rewrite Est. unfold reseed. cbn.
      destruct (length balances =? length (cv_rates c))%nat; cbn; [done|]. intros _. by destruct c. }
  destruct (curve_read c balances a ap fee ng block) as [c' r] eqn:Er. cbn in Hsh, Hsame.
  assert (Hput : book_ok b -> book_ok (put_state b id p (Curve c'))) by (intros; by apply put_state_ok).
  assert (Hmv : whole_read b (OpCurve id balances a ap fee ng block) -> r <> Ok true -> moved b (put_state b id p (Curve c'))).
  { intros Hw Hr. rewrite Hsame; [rewrite <- Es, put_same by done; by left| |done].
    destruct ng; [right|by left]. cbn in Hw. by apply (Hw p). }
  destruct r as [[]|e]; cbn; split_and!; auto; try by right.
  intros. by apply bump_keeps, Hput.
Qed.

(** What a step keeps. *)
Definition step_ok b b' (whole : Prop) : Prop := (book_ok b -> book_ok b') /\ reads_ok b' /\ (whole -> moved b b').

Lemma step_same b whole : reads_ok b -> step_ok b b whole.
Proof. intros. split_and!; [done|done|by left]. Qed.

Lemma step_put b b1 id p s whole : reads_ok b -> bk_unwraps b1 = bk_unwraps b -> bk_generation b1 = bk_generation b ->
  (book_ok b -> book_ok b1) -> get b1 id = Some p -> same_shape (po_state p) s -> step_ok b (bump (put_state b1 id p s)) whole.
Proof.
  intros Hr Hu Hg Hb Hp Hs. split_and!; [intros; apply bump_keeps, put_state_ok; auto| |right; cbn; by rewrite Hg].
  unfold reads_ok. cbn. by rewrite Hu.
Qed.

Lemma add_pending_step b pool whole : reads_ok b -> (length (po_assets pool) <= 256)%nat ->
  step_ok b (fst (add_pending_v2 b pool)) whole.
Proof.
  intros Hrd Hop. unfold add_pending_v2. destruct (po_state pool) as [v| | | | |] eqn:Es; try by apply step_same.
  destruct (add_effect b pool Hop) as [[e Ha]|(Ha & Hps & Hu & Hpe & Hg & Hok)]; [rewrite Ha; by apply step_same|].
  rewrite Ha. destruct (add b pool) as [b1 r]. cbn in *. split_and!; [|unfold reads_ok; cbn; by rewrite Hu|by right].
  intros [H1 H2 H3 H4 H5 H6 H7]%Hok. split; [exact H1|exact H2|exact H3|exact H4|exact H5|exact H6|].
  intros k. cbn. destruct (decide (k = length (bk_pools b))) as [->|Hne].
  - intros _. exists pool, v. split; [|done]. unfold get. cbn. rewrite Hps, lookup_app_r, Nat.sub_diag by done. done.
  - rewrite lookup_insert_ne by done. apply H7.
Qed.

Lemma seed_step b id r0 r1 block whole : reads_ok b -> step_ok b (fst (seed_pending_v2 b id r0 r1 block)) whole.
Proof.
  intros Hrd. unfold seed_pending_v2. destruct (bk_pending_v2 b !! id) as [last|] eqn:El; [|by apply step_same].
  set (b1 := set_pending b _). assert (Hb1 : book_ok b -> book_ok b1).
  { apply ok_same; try done. intros k. cbn. destruct (decide (k = id)) as [->|Hne]; [by rewrite El|by rewrite lookup_delete_ne]. }
  assert (Hid1 : step_ok b b1 whole) by (split_and!; [done|done|intros _; left; by split]).
  destruct (block <=? last); [done|]. destruct (get b1 id) as [p|] eqn:Ep; [|done].
  destruct (po_state p) as [v| | | | |] eqn:Es; try done. cbn [fst].
  apply step_put; try done. rewrite Es. split; try done. intros. by eexists.
Qed.

Lemma set_rate_step b w rate block whole : reads_ok b -> 0 < block -> step_ok b (fst (set_unwrap_rate b w rate block)) whole.
Proof.
  intros Hrd Hop. unfold set_unwrap_rate. destruct (bk_unwraps b !! w) as [u|] eqn:Eu; [|by apply step_same].
  destruct (block <? un_read_block u) eqn:Eb; [by apply step_same|]. zbool.
  set (b1 := set_unwraps b _).
  assert (Hr1 : reads_ok b1).
  { intros k v. cbn. rewrite lookup_insert_Some. intros [[<- <-]|[_ ?]]; [cbn; lia|by apply (Hrd k)]. }
  case_bool_decide as Er; cbn; (split_and!; [by apply ok_same|done|]); [|by right].
  intros _. left. split; try done. intros k. cbn. destruct (decide (k = w)) as [->|Hne]; [|by rewrite lookup_insert_ne].
  rewrite lookup_insert_eq, Eu. cbn. f_equal. destruct (Hrd w u Eu) as [H0 H1]. unfold unwrap_view, unwrap_is_live. cbn. rewrite <- Er.
  replace (block =? 0) with false by (symmetry; apply Z.eqb_neq; lia). cbn.
  destruct (un_read_block u =? 0) eqn:E0; [|done]. zbool. rewrite H1 by done. by destruct (un_scale u =? 0).
Qed.

Lemma unwraps_step b us whole : (forall w u, us !! w = Some u -> 0 <= un_read_block u /\ (un_read_block u = 0 -> un_rate u = Unread)) ->
  step_ok b (bump (set_unwraps b us)) whole.
Proof. intros Hus. split_and!; [by apply ok_same|exact Hus|by right]. Qed.

Lemma reseeds_step b whole : reads_ok b ->
  (forall id read block, step_ok b (fst (reseed_balancer b id read block)) whole) /\
  (forall id read block, step_ok b (fst (reseed_fluid b id read block)) whole) /\
  (forall id read block, step_ok b (fst (reseed_crypto b id read block)) whole).
Proof.
  intros Hrd. split_and!; intros id read block; unfold reseed_balancer, reseed_fluid, reseed_crypto;
    (destruct (get b id) as [p|] eqn:Ep; [|by apply step_same]); destruct (po_state p) as [| | |s|s|s] eqn:Es; try (by apply step_same);
    (destruct (_ && _); [by apply step_same|]).
  - destruct (_ || _) eqn:E; [by apply step_same|]. zbool. apply step_put; try done. rewrite Es. split; try done.
    cbn. intros n Hw. zbool. repeat (apply andb_true_intro; split); apply Nat.eqb_eq; lia.
  - destruct (default _ _). apply step_put; try done. rewrite Es. by split.
  - destruct (_ || _) eqn:E; [by apply step_same|]. zbool. apply step_put; try done. rewrite Es. split; try done.
    cbn. intros n Hw. zbool. repeat (apply andb_true_intro; split); apply Nat.eqb_eq; lia.
Qed.

Lemma run_op_step b op : op_ok op -> reads_ok b -> step_ok b (run_op b op) (whole_read b op).
Proof.
  intros Hop Hrd. destruct (reseeds_step b (whole_read b op) Hrd) as (Hbal & Hflu & Hcry).
  destruct op as [pool|pool|id r0 r1 block|id block|w|u|w rate block|w|id bs a ap fee ng block|id read block|id read block
    |id read block|log|weth|g]; cbn [run_op] in *; auto.
  - destruct (add_step b pool Hop) as (H1 & H2 & H3). split_and!; [done| |done]. unfold reads_ok. by rewrite H3.
  - by apply add_pending_step.
  - by apply seed_step.
  - unfold mark_stale. destruct (get b id) as [p|] eqn:Ep; [|by apply step_same].
    destruct (state_stale _ _) as [s|] eqn:Es; [|by apply step_same]. cbn [fst]. apply step_put; try done.
    by eapply state_stale_shape.
  - unfold remove_unwrap. destruct (bk_unwraps b !! w); [|by apply step_same]. apply unwraps_step.
    intros k v. rewrite lookup_delete_Some. intros [_ ?]. by apply (Hrd k).
  - destruct Hop. apply unwraps_step. intros k v. rewrite lookup_insert_Some. intros [[<- <-]|[_ ?]]; [done|by apply (Hrd k)].
  - by apply set_rate_step.
  - unfold expire_pendle_market. destruct (bk_unwraps b !! w) as [u|]; [|by apply step_same].
    destruct (un_kind u); try by apply step_same. apply unwraps_step.
    intros k v. rewrite lookup_insert_Some. intros [[<- <-]|[_ ?]]; [done|by apply (Hrd k)].
  - destruct (reseed_curve_step b id bs a ap fee ng block) as (H1 & H2 & H3). split_and!; [done| |done]. unfold reads_ok. by rewrite H2.
  - destruct (apply_log_step b log) as (H1 & H2 & H3). split_and!; [done| |done]. unfold reads_ok. by rewrite H3.
  - split_and!; [by apply ok_same|done|by right].
  - split_and!; [by apply ok_same|done|by right].
Qed.

Lemma reachable_ok b : reachable b -> book_ok b /\ reads_ok b.
Proof.
  induction 1 as [assets factory gas|b op Hr [IHb IHr] Hop].
  - split; [apply new_ok|]. intros w u Hu. cbn in Hu. by rewrite lookup_empty in Hu.
  - destruct (run_op_step b op Hop IHr) as (H1 & H2 & _). auto.
Qed.
End Runs.

(** C24. The indexes of a book list its pools: whatever was registered (pools of at most 256
    coins, the reach of a coin index), seeded, read, folded and expired since it was new, the legs of a pair are those of a scan of the pools in their
    order, an address, a V4 id and a Balancer id name the pool that has it and no other, a
    Fluid token names the pools that hold it, every pool's state has one entry per coin, and
    only V2 pairs wait for a seed. *)
Theorem book_index_exact `{PoolAbi} {G : Type} (b : Book G) (Hb : reachable b) : book_ok b.
Proof. by apply reachable_ok. Qed.

(** What exits are quoted on does not change behind the generation: an operation on a book that
    was built by operations leaves the pools, the legs, the unwraps and their liveness, the hub
    and the graph as they were, or moves the generation by one; reads are of all the coins of
    their pool. *)
Theorem quotes_move_the_generation `{PoolAbi} {G : Type} (b : Book G) (op : BookOp G)
    (Hb : reachable b) (Hop : op_ok op) (Hread : whole_read b op) :
  moved b (run_op b op).
Proof. destruct (reachable_ok b Hb) as [_ Hr]. by apply (run_op_step b op Hop Hr). Qed.

(** *** A read that is refused halfway *)

Definition ng_pool : CurveState :=
  mkCurve [1000000000; 1000000000] [1000000000000000000; 1000000000000000000] 20000 100 4000000 false 0 true false 0 false 0 0.

Definition ng_book : Book unit :=
  fst (add (new ∅ None 0) (mkPool 7 [1; 2] [11; 12] 0 (Curve ng_pool))).

(** A read of an NG pool that gives rates for all its coins and balances for fewer is refused as
    a bad leg, after the rates were written: the pool quotes differently and the generation has
    not moved. *)
Theorem refused_read_changes_rates `{PoolAbi} :
  reachable ng_book /\
  exists b', reseed_curve ng_book 0 [1000000000] 20000 100 4000000 (Some ([1000000000000000000; 2000000000000000000], 0)) 5 = (b', Err BadLeg) /\
    bk_generation b' = bk_generation ng_book /\
    exists p p' s s', get ng_book 0 = Some p /\ po_state p = Curve s /\ get b' 0 = Some p' /\ po_state p' = Curve s' /\
      map_res (fun r => fst (fst r)) (curve_exchange s 0 1 1000000) = Ok 999596 /\
      map_res (fun r => fst (fst r)) (curve_exchange s' 0 1 1000000) <> Ok 999596.
Proof.
  split.
  - apply (r_step (new ∅ None 0) (OpAdd (mkPool 7 [1; 2] [11; 12] 0 (Curve ng_pool)))); [constructor|cbn; lia].
  - eexists. split; [vm_compute; reflexivity|]. split; [vm_compute; reflexivity|].
    do 4 eexists. do 4 (split; [vm_compute; reflexivity|]). split; [vm_compute; reflexivity|]. vm_compute. discriminate.
Qed.

(** ** Quotes and swaps *)

Lemma curve_exchange_range c i j dx r : curve_exchange c i j dx = Ok r ->
  i <> j /\ (i < length (cv_balances c))%nat /\ (j < length (cv_balances c))%nat.
Proof.
  unfold curve_exchange. intros H. destruct (i =? j)%nat eqn:E; [done|]. zbool. split; [done|].
  apply bind_Ok in H as ([[out dy] y] & _ & H). apply bind_Ok in H as (bi & Hi%ok_or_Ok & H).
  apply bind_Ok in H as (bi' & _ & H). apply bind_Ok in H as (bj & Hj%ok_or_Ok & _). split; by eapply lookup_lt_Some.
Qed.

Lemma vec_set_in {A} (l : list A) k x : (k < length l)%nat -> vec_set l k x = Some (<[k := x]> l).
Proof. intros Hk%Nat.ltb_lt. unfold vec_set. by rewrite Hk. Qed.

(** The venues whose state after a swap is followed here. *)
Definition followed (s : PoolState) : Prop :=
  match s with Crypto _ | Fluid _ => False | BalancerPool s => Balancer.pool_ok s | _ => True end.

(** A swap pays what it was quoted: on a V2 pair, a V3 or V4 pool, a StableSwap pool and a
    weighted pool, a state change that succeeds returns the quote of the state it started from
    and keeps the coins and the ids of the pool, and one that is refused changes nothing. *)
Theorem applied_swap_pays_its_quote `{TickMath} `{OtherMath} (s : PoolState) (i j : nat) (x : Z)
    (Hs : followed s) (Hx : 0 <= x) :
  match apply s i j x with
  | (s', Ok out) => quote s i j x = Ok out /\ same_shape s s'
  | (s', Err _) => s' = s
  end.
Proof.
  unfold apply, quote. destruct (x =? 0); [split; [done|apply same_shape_refl]|].
  destruct s as [v|v|c|c|b|f]; try done.
  - destruct (zfo_of i j) as [zfo|]; [|done]. destruct (v2_swap v zfo x) as [[out next]|]; [|done].
    split; [done|]. split; try done. intros. by eexists.
  - destruct (zfo_of i j) as [zfo|]; [|done]. destruct (ended _) as [r|]; [|done]. split; [done|]. by apply v3_shape.
  - destruct (curve_exchange c i j x) as [[[out bi] bj]|] eqn:E; [|done]. apply curve_exchange_range in E as (Hij & Hi & Hj).
    rewrite vec_set_in by done. rewrite vec_set_in by (by rewrite length_insert).
    split; [done|]. split; try done. intros n. cbn. by rewrite !length_insert.
  - unfold Balancer.apply. destruct (Balancer.dy b i j x) as [out|] eqn:E; [|done].
    destruct (Balancer.dy_spec b i j x out Hs Hx E) as (Hij & bi & bj & Ei & Ej & _ & Ho & _).
    destruct (Balancer.pair b i j) as [[i' j']|] eqn:Ep; [|done]. apply Balancer.pair_Ok in Ep as [[= -> ->] _].
    destruct (Balancer.add _ x) as [bi'|]; [|done]. cbn.
    rewrite (Balancer.at_lookup _ j bj) by (by rewrite list_lookup_insert_ne).
    unfold Balancer.sub. rewrite checked_sub_ok by lia. cbn. split; [done|]. split; try done. cbn. by rewrite !length_insert.
Qed.

(** ** Witnesses *)

#[local] Instance no_other_math : OtherMath := {|
  crypto_dy := fun _ _ _ _ => Err RMath; crypto_apply := fun s _ _ _ => (s, Err RMath); crypto_rho := fun _ _ _ _ => Err RMath;
  fluid_dy := fun _ _ _ _ => Err RMath; fluid_apply := fun s _ _ _ => (s, Err RMath); fluid_rho := fun _ _ _ _ => Err RMath;
  fluid_capacity_in := fun _ _ => None; sell_pt_for_out := fun _ _ => Err RMath |}.

Lemma applied_swap_pays_its_quote_witness :
  exists s', @apply ex_math no_other_math (Curve ng_pool) 0 1 1000000 = (s', Ok 999596) /\
    @quote ex_math no_other_math (Curve ng_pool) 0 1 1000000 = Ok 999596.
Proof.
  pose proof (@applied_swap_pays_its_quote ex_math no_other_math (Curve ng_pool) 0 1 1000000 I ltac:(done)) as Hq.
  assert (E : snd (@apply ex_math no_other_math (Curve ng_pool) 0 1 1000000) = Ok 999596) by (vm_compute; reflexivity).
  destruct (@apply ex_math no_other_math (Curve ng_pool) 0 1 1000000) as [s' r]. cbn in E. subst r.
  exists s'. split; [reflexivity|]. exact (proj1 Hq).
Defined.


(** An ABI whose pairs report their reserves in the data of any log. *)
Definition sample_abi : PoolAbi := {|
  sig_pool_created := 1; sig_log_operate := 2;
  decode_pool_created := fun _ _ => None; decode_log_operate := fun _ _ => None;
  v3_log := fun _ _ _ => LogOther; v4_log := fun _ _ => V4Other;
  v2_log := fun _ data => match data with [r0; r1] => V2Sync (Some (r0, r1)) | _ => V2Sync None end;
  vault_log := fun _ _ => VaultOther;
  CURVE_STALE_TOPICS := [3]; CURVE_NG_STALE_TOPICS := [4]; CRYPTO_STALE_TOPICS := []; BALANCER_POOL_STALE_TOPICS := [];
  BALANCER_VAULT := 100; FLUID_LIQUIDITY := 101; V4_POOL_MANAGER := 102 |}.

Definition sample_ops : list (BookOp unit) :=
  [ OpAdd (mkPool 7 [1; 2] [11; 12] 0 (Curve ng_pool));
    OpAddPending (mkPool 8 [2; 3] [12; 13] 0 (V2 (mkV2 0 0 0)));
    OpLog (mkLog 8 [9] [500; 600] 4); OpSeed 1 1 1 3; OpLog (mkLog 7 [4] [] 5) ].

Lemma book_index_exact_witness :
  let b := fold_left (@run_op sample_abi unit) sample_ops (new ∅ None 0) in
  legs b 2 3 = [mkLeg 1 0 1] /\ get b 1 = Some (mkPool 8 [2; 3] [12; 13] 0 (V2 (mkV2 500 600 0))) /\ book_ok b.
Proof.
  intros b. split; [vm_compute; reflexivity|]. split; [vm_compute; reflexivity|].
  apply (@book_index_exact sample_abi). cbn [fold_left sample_ops] in b.
  repeat (refine (@r_step sample_abi unit _ _ _ _); [|vm_compute; repeat constructor]). constructor.
Defined.

Lemma quotes_move_the_generation_witness :
  @moved unit ng_book (@run_op sample_abi unit ng_book (OpLog (mkLog 7 [4] [] 5))) /\
  bk_generation (@run_op sample_abi unit ng_book (OpLog (mkLog 7 [4] [] 5))) = 2.
Proof.
  split; [|vm_compute; reflexivity].
  apply (@quotes_move_the_generation sample_abi unit ng_book (OpLog (mkLog 7 [4] [] 5))).
  - apply (@r_step sample_abi unit (new ∅ None 0) (OpAdd (mkPool 7 [1; 2] [11; 12] 0 (Curve ng_pool)))); [constructor|cbn; lia].
  - exact I.
  - exact I.
Defined.
