(* ===== verification/RouterAssemble.v ===== *)
(** * Assembly

    [liq-router/src/assemble.rs]: the tails of the liquidation legs, the swap legs an exit
    becomes, the floor under the profit, the assembly of a selected plan into a [BatchPlan],
    and its re-encoding onto the next flash source. The search for a chain through the token
    graph ([graph.rs], [best_chain]) is the class [ChainSearch]. *)

From stdpp Require Import strings gmap.
From S2P Require Import Prelude Fixed Types Halt Flash Bonus Bytes Wire Plan PlanCheck RouterFees PoolMath PoolV3 RouterLog RouterGraph RouterPairs RouterExit RouterWarm RouterProfit RouterSelect Balancer PoolBook.
Local Open Scope Z_scope.

Module Assemble.

Abbreviation SwapLeg := Plan.SwapLeg (only parsing).
Abbreviation mkLeg' := Plan.mkSwap (only parsing).
Abbreviation Book := PoolBook.Book (only parsing).

Inductive AssembleError :=
| AProfit (e : ProfitError)
| AMissing (what : string)
| AmountTooLarge
| NoEncodableVenue (pool : Address)
| FeeIncreased
| NextSourceTooShallow
| AValidate (e : EncodeError)
| ARoute (e : RouteError).

Abbreviation ARes A := (Result AssembleError A).

(** [?] on a [RouteError], and on an [Option] with a message. *)
Definition ar {A} (r : RRes A) : ARes A := map_err ARoute r.
Definition or_missing {A} (o : option A) (what : string) : ARes A := ok_or o (AMissing what).
Definition amath {A} (r : Result FixedError A) : ARes A := map_err (fun _ => ARoute RMath) r.

Definition u128_of (x : Z) : ARes Z := ok_or (try_from 128 x) AmountTooLarge.

(** A nonzero value, or the message. *)
Definition required (o : option Z) (what : string) : ARes Z :=
  match o with Some v => if v =? 0 then Err (AMissing what) else Ok v | None => Err (AMissing what) end.

(** ** Tails *)

Record LegMeta := mkMeta {
  me_adapter : ExecutorAdapter; me_market : Address; me_borrower : Address; me_tail : LegTail; me_protocol_pull : option Z }.

(** [trait AssembleView]. *)
Class AssembleView := {
  av_token : AssetId -> option Address;
  av_meta : PositionId -> option LegMeta;
  av_per_eth : AssetId -> option Z
}.

Record FluidPins := mkFluidPins { fp_kind : Z; fp_flags : Z; fp_debt_units : Z; fp_col_units : Z }.
Record FluidTailFigures := mkFigures {
  ff_col_per_unit_debt : Z; ff_debt_shares_min_per_token : Z; ff_col_per_share_min : Z }.

Record TailPins := mkPins {
  tp_adapter : ExecutorAdapter;
  tp_market : Address;
  tp_borrower : Address;
  tp_protocol_pull : option Z;
  tp_euler_min_yield : option Z;
  tp_euler_collateral_vault : option Address;
  tp_liquity_trove_id : option Z;
  tp_fluid : option FluidPins;
  tp_fluid_tail : option FluidTailFigures;
  tp_gearbox_min_seized : option Z;
  tp_gearbox_full : bool;
  tp_compound_ctoken_collateral : option Address;
  tp_compound_is_cether : option bool;
  tp_aave_v4_collateral_reserve_id : option Z;
  tp_aave_v4_debt_reserve_id : option Z;
  tp_morpho_market_id : option Z
}.

Definition with_min_out_tolerance (v tol_bps : Z) : ARes Z :=
  if tol_bps =? 0 then Ok v else
  let keep := saturating_sub 10000 tol_bps in
  map_err (fun _ => AMissing "min-out tolerance") (mul_div v keep 10000 Down).

(** [euler_min_yield_from_quote] and [gearbox_min_seized_from_quote]: the quoted seize less the
    tolerance, never zero. *)
Definition min_seize_from_quote (no_seize zero : string) (q : Quote) (seize : nat) (tol_bps : Z) : ARes Z :=
  let? s := or_missing (q_seize_options q !! seize) no_seize in
  if so_max_seize s =? 0 then Err (AMissing zero) else
  let? out := with_min_out_tolerance (so_max_seize s) tol_bps in
  if out =? 0 then Err (AMissing zero) else Ok out.
Definition euler_min_yield_from_quote := min_seize_from_quote "euler seize" "euler min_yield".
Definition gearbox_min_seized_from_quote := min_seize_from_quote "gearbox seize" "gearbox min_seized".

Definition fluid_ratio (num den : Z) : ARes Z :=
  map_err (fun _ => AMissing "fluid ratio") (col_per_unit_debt_1e18 num den).
Definition fluid_floor (tol_bps v : Z) : ARes Z :=
  let? out := with_min_out_tolerance v tol_bps in
  if out =? 0 then Err (AMissing "fluid floor") else Ok out.

Definition fluid_tail_from_quote (f : FluidPins) (q : Quote) (repay seize : nat) (tol_bps : Z) : ARes FluidTailFigures :=
  let? r := or_missing (q_repay_options q !! repay) "fluid repay" in
  let r := ro_max_repay r in
  let? s := or_missing (q_seize_options q !! seize) "fluid seize" in
  let s := so_max_seize s in
  if (r =? 0) || (s =? 0) || (fp_debt_units f =? 0) || (fp_col_units f =? 0) then Err (AMissing "fluid quoted units") else
  let floor_of num den := (let? v := fluid_ratio num den in fluid_floor tol_bps v) in
  let? col_per_unit_debt := floor_of (fp_col_units f) (fp_debt_units f) in
  let? debt_shares := if (fp_kind f =? FLUID_T3) || (fp_kind f =? FLUID_T4) then floor_of (fp_debt_units f) r else Ok 0 in
  let? col_per_share := if (fp_kind f =? FLUID_T2) || (fp_kind f =? FLUID_T4) then floor_of s (fp_col_units f) else Ok 0 in
  Ok (mkFigures col_per_unit_debt debt_shares col_per_share).

Definition tail_of (p : TailPins) : ARes LegTail :=
  match tp_adapter p with
  | XAaveV3 | XSiloV2 => Ok TNone
  | XEulerV2 =>
      let? min_yield := required (tp_euler_min_yield p) "euler min_yield" in
      let? vault := required (tp_euler_collateral_vault p) "euler collateral vault" in
      Ok (TEuler min_yield vault)
  | XLiquityV2 =>
      let? trove_id := required (tp_liquity_trove_id p) "liquity trove_id" in
      Ok (TLiquity trove_id)
  | XFluid =>
      let? f := or_missing (tp_fluid p) "fluid vault_type" in
      let? t := or_missing (tp_fluid_tail p) "fluid col_per_unit_debt" in
      if ff_col_per_unit_debt t =? 0 then Err (AMissing "fluid col_per_unit_debt") else
      Ok (TFluid (fp_kind f) (fp_flags f) (ff_col_per_unit_debt t) (ff_debt_shares_min_per_token t) (ff_col_per_share_min t))
  | XGearbox =>
      let? min_seized := required (tp_gearbox_min_seized p) "gearbox min_seized" in
      Ok (TGearbox min_seized (tp_gearbox_full p))
  | XCompoundV2 =>
      let? ctoken := required (tp_compound_ctoken_collateral p) "compound ctoken_collateral" in
      let? is_cether := or_missing (tp_compound_is_cether p) "compound is_cether" in
      Ok (TCompoundV2 ctoken (if is_cether : bool then 1 else 0))
  | XAaveV4 =>
      let? c := or_missing (tp_aave_v4_collateral_reserve_id p) "aave v4 collateral_reserve_id" in
      let? d := or_missing (tp_aave_v4_debt_reserve_id p) "aave v4 debt_reserve_id" in
      Ok (TAaveV4 c d)
  | XMorphoBlue =>
      let? market_id := required (tp_morpho_market_id p) "morpho market_id" in
      Ok (TMorpho market_id)
  end.

Definition leg_meta_from_pins (p : TailPins) : ARes LegMeta :=
  let? tail := tail_of p in
  if tp_market p =? 0 then Err (AMissing "market") else
  if tp_borrower p =? 0 then Err (AMissing "borrower") else
  Ok (mkMeta (tp_adapter p) (tp_market p) (tp_borrower p) tail (tp_protocol_pull p)).

Definition token `{AssembleView} (a : AssetId) : ARes Address := required (av_token a) "token".

(** ** The floor under the profit *)

Record FloorGroup := mkFloor { fl_legs : list Scored; fl_per_eth : Z; fl_premium : Z }.

Definition to_wei (v per_eth : Z) (r : Rounding) : ARes Z :=
  map_err (fun _ => AMissing "per_eth") (mul_div v WEI_PER_ETH per_eth r).
Definition signed (v : Z) : ARes Z := ok_or (checked_i 256 v) AmountTooLarge.
Definition i256 (o : option Z) : ARes Z := ok_or o (ARoute RMath).

(** What a leg realizes at least, in wei: the value of its exit, less what it repays, less the
    tolerance its swaps are guarded with. *)
Definition leg_value (per_eth tol_bps : Z) (s : Scored) : ARes Z :=
  let? moved := to_wei (sl_swap_out (sd_leg s)) per_eth Down in
  let? owed := to_wei (sl_s (sd_leg s)) per_eth Up in
  let? slack := map_err (fun _ => AMissing "profit tolerance") (mul_div moved tol_bps 10000 Up) in
  let? m := signed moved in
  let? o := signed owed in
  i256 (let! v := checked_i 256 (m - o) in let! s := checked_i 256 slack in checked_i 256 (v - s)).

Fixpoint weakest_loop (per_eth tol_bps : Z) (legs : list Scored) (weakest : option Z) : ARes (option Z) :=
  match legs with
  | [] => Ok weakest
  | s :: legs =>
      let? v := leg_value per_eth tol_bps s in
      weakest_loop per_eth tol_bps legs (Some (match weakest with Some w => Z.min w v | None => v end))
  end.

Fixpoint worst_loop (tol_bps : Z) (groups : list FloorGroup) (worst : Z) : ARes Z :=
  match groups with
  | [] => Ok worst
  | fg :: groups =>
      let? w := weakest_loop (fl_per_eth fg) tol_bps (fl_legs fg) None in
      let? weakest := or_missing w "no legs" in
      let? premium := to_wei (fl_premium fg) (fl_per_eth fg) Up in
      let? premium := signed premium in
      let? worst := i256 (let! w := checked_i 256 (worst + weakest) in checked_i 256 (w - premium)) in
      worst_loop tol_bps groups worst
  end.

Definition min_profit_floor (groups : list FloorGroup) (bid : Bid) (gas_cost_wei tol_bps : Z) : ARes Z :=
  let? worst := worst_loop tol_bps groups 0 in
  match groups with
  | [] => Err (AMissing "no legs")
  | _ =>
      let? gas := signed gas_cost_wei in
      let? worst := i256 (checked_i 256 (worst - gas)) in
      if negb (0 <? worst) then Ok 1 else
      let? keep := or_missing (searcher_net worst (bd_coinbase_bps bid)) "searcher_net" in
      let? keep := u128_of keep in
      Ok (Z.max keep 1)
  end.

(** ** Swap legs *)

(** The chain a closer falls back to: its venue-10 data. *)
Class ChainSearch (G : Type) := {
  best_chain : Book G -> AssetId -> AssetId -> Z -> option (list Z)
}.

Definition V3_FACTORY_UNISWAP : Z := 0.

(** A [u24] field of a key: the low three bytes of its big-endian form. *)
Definition leg_data (k : V4Key) : list Z :=
  be 20 (k4_currency0 k) ++ be 20 (k4_currency1 k) ++ be 3 (k4_fee k mod 2 ^ 24) ++ be 3 (k4_tick_spacing k mod 2 ^ 24) ++
  be 20 (k4_hooks k).

Section Legs.
Context `{TickMath} `{PoolBook.OtherMath} {G : Type} `{ChainSearch G}.
Implicit Types book : Book G.

Definition venue_bytes book (pool_id : PoolId) (i j : nat) : ARes (Z * list Z) :=
  let? pool := or_missing (PoolBook.get book pool_id) "pool" in
  let d := be 20 (PoolBook.po_address pool) in
  let i8 := Z.of_nat i in let j8 := Z.of_nat j in
  match PoolBook.po_state pool with
  | PoolBook.V3 s =>
      match v3_v4 s with
      | Some k => Ok (VENUE_UNIV4_POOL, leg_data k)
      | None => Ok (VENUE_UNIV3_POOL, if v3_factory s =? V3_FACTORY_UNISWAP then d else d ++ [v3_factory s])
      end
  | PoolBook.V2 s => Ok (VENUE_UNIV2_POOL, d ++ [v2_factory s])
  | PoolBook.Curve c => Ok (VENUE_CURVE_POOL, d ++ [i8; j8; cv_handler c])
  | PoolBook.Crypto c => Ok (VENUE_CURVE_CRYPTO_POOL, d ++ [i8; j8; PoolBook.cy_handler c])
  | PoolBook.BalancerPool b => Ok (VENUE_BALANCER, be 32 (Balancer.bl_pool_id b))
  | PoolBook.Fluid _ => Ok (VENUE_FLUID, d ++ [if (i =? 0)%nat && (j =? 1)%nat then 1 else 0])
  end.

Definition curve_lp_bytes book (lp : Address) (i : Z) : ARes (list Z) :=
  match (let! id := PoolBook.by_address book lp in PoolBook.get book id) with
  | None => Err (AMissing "curve lp pool")
  | Some pool =>
      match PoolBook.po_state pool with
      | PoolBook.Curve c => Ok (be 20 lp ++ [i; cv_handler c])
      | _ => Err (AMissing "curve lp pool")
      end
  end.

(** *** The shares of a pull *)

Fixpoint share_loop (pull total_out : Z) (nz : list Allocation) (assigned : Z) : ARes (list (Allocation * Z)) :=
  match nz with
  | [] => Ok []
  | [a] =>
      let? share := ok_or (checked_sub pull assigned) AmountTooLarge in
      Ok (if share =? 0 then [] else [(a, share)])
  | a :: nz =>
      let? q := ar (mul_div_512 (al_amount_out a) pull total_out) in
      let? sh := u128_of q in
      let? assigned := ok_or (checked_add 128 assigned sh) AmountTooLarge in
      let? out := share_loop pull total_out nz assigned in
      Ok (if sh =? 0 then out else (a, sh) :: out)
  end.

Definition sum_opt {A} (w : Z) (f : A -> Z) (l : list A) : option Z :=
  fold_left (fun acc a => let! acc := acc in checked_add w acc (f a)) l (Some 0).

Definition shares_of_pull (exit : ExitQuote) (pull : Z) : ARes (list (Allocation * Z)) :=
  let nz := List.filter (fun a => negb (al_amount_in a =? 0) && negb (al_amount_out a =? 0)) (eq_allocs exit) in
  if PoolBook.is_nil nz then Err (AMissing "allocation") else
  let? total_out := ok_or (sum_opt 256 al_amount_out nz) AmountTooLarge in
  if total_out =? 0 then Err (AMissing "allocation") else
  let? out := share_loop pull total_out nz 0 in
  let? sum := ok_or (sum_opt 128 snd out) AmountTooLarge in
  if negb (sum =? pull) || PoolBook.is_nil out then Err (AMissing "alloc shares") else Ok out.

(** *** Inputs along a path *)

Fixpoint path_out book (hops : list Leg) (x : Z) : option Z :=
  match hops with
  | [] => Some x
  | l :: hops =>
      let! p := PoolBook.get book (leg_pool l) in
      let! x := res_ok (PoolBook.quote_exact_in p (leg_i l) (leg_j l) x) in
      path_out book hops x
  end.

(** The doubling: [hi] doubles until it overflows, so 257 turns are enough. *)
Fixpoint double_loop (fuel : nat) book (hops : list Leg) (want hi : Z) (answered : bool) : option Z :=
  match fuel with
  | O => None
  | S fuel =>
      match path_out book hops hi with
      | Some o =>
          if want <=? o then Some hi else
          let! hi := checked_mul 256 hi 2 in
          double_loop fuel book hops want hi (answered || negb (o =? 0))
      | None =>
          if answered then None else
          let! hi := checked_mul 256 hi 2 in
          double_loop fuel book hops want hi answered
      end
  end.

(** [Some(o) if o >= want]. *)
Definition delivers book (hops : list Leg) (want x : Z) : bool :=
  match path_out book hops x with Some o => want <=? o | None => false end.

(** The bisection: the interval halves, so 256 turns are enough. *)
Fixpoint halve_loop (fuel : nat) book (hops : list Leg) (want lo hi : Z) : Z :=
  if 1 <? saturating_sub hi lo then
    match fuel with
    | O => hi
    | S fuel =>
        let mid := saturating_add 256 lo (saturating_sub hi lo / 2) in
        if delivers book hops want mid then halve_loop fuel book hops want lo mid else halve_loop fuel book hops want mid hi
    end
  else hi.

Definition path_in_for book (hops : list Leg) (want : Z) : option Z :=
  if want =? 0 then Some 0 else
  let! hi := double_loop 257 book hops want 1 false in
  Some (halve_loop 256 book hops want 0 hi).

(** *** The repay legs *)

(** [apply_exact_in] on the pool of a leg in a scratch book. *)
Definition apply_leg book (l : Leg) (x : Z) : Book G * option (RRes Z) :=
  match PoolBook.get book (leg_pool l) with
  | None => (book, None)
  | Some p => let '(p, r) := PoolBook.apply_exact_in p (leg_i l) (leg_j l) x in (PoolBook.put book (leg_pool l) p, Some r)
  end.

Fixpoint run_hops book (hops : list Leg) (x : Z) : Book G :=
  match hops with
  | [] => book
  | l :: hops =>
      match apply_leg book l x with
      | (book, Some (Ok o)) => run_hops book hops o
      | (book, _) => book
      end
  end.

(** The book after the direct legs of the exit. *)
Definition displaced_book book (allocs : list Allocation) : Book G :=
  fold_left (fun work a => fst (apply_leg work (al_leg a) (al_amount_in a)))
    (List.filter (fun a => negb (al_amount_in a =? 0)) allocs) book.

(** What is sold to buy [share] where there is no exact output: raised by [overshoot_bps]. *)
Definition overshoot (base overshoot_bps : Z) : ARes Z :=
  let? with_ := amath (mul_div base (saturating_add 32 10000 overshoot_bps) 10000 Up) in
  u128_of with_.

Definition curve_exact_in (a : Allocation) (share overshoot_bps : Z) : ARes Z :=
  if al_amount_out a =? 0 then Err (AMissing "curve quote") else
  let? base := amath (mul_div (al_amount_in a) share (al_amount_out a) Up) in
  overshoot base overshoot_bps.

(** The part of the pull chain [k] of [n] buys. *)
Definition chain_part (exit : ExitQuote) (direct : bool) (total pull : Z) (k n : nat) (ch : ChainUse) : ARes Z :=
  if negb direct && (S k =? n)%nat then Ok pull else
  if eq_amount_out exit =? 0 then Ok 0 else
  let? q := ar (mul_div_512 total (cu_amount_out ch) (eq_amount_out exit)) in
  let? part := u128_of q in
  Ok (Z.min part pull).

(** One chain's leg, and the scratch book after it. *)
Definition chain_leg book (work : option (Book G)) (token_in debt_addr : Address) (overshoot_bps part : Z) (ch : ChainUse)
  : ARes (SwapLeg * option (Book G)) :=
  if cu_exact_out ch then
    let work := match work with
                | Some w => Some (match path_in_for w (cu_hops ch) part with
                                  | Some need => run_hops w (cu_hops ch) need
                                  | None => w
                                  end)
                | None => None
                end in
    Ok (Plan.mkSwap VENUE_CHAIN token_in debt_addr LEG_EXACT_OUT part (cu_data ch), work)
  else
    let on := default book work in
    let? need := or_missing (path_in_for on (cu_hops ch) part) "chain input" in
    let work := match work with Some w => Some (run_hops w (cu_hops ch) need) | None => None end in
    let? amount := overshoot need overshoot_bps in
    Ok (Plan.mkSwap VENUE_CHAIN token_in debt_addr 0 amount (cu_data ch), work).

Fixpoint chain_loop book (exit : ExitQuote) (direct : bool) (total : Z) (n : nat) (token_in debt_addr : Address)
    (overshoot_bps : Z) (k : nat) (chains : list ChainUse) (pull : Z) (work : option (Book G)) : ARes (list SwapLeg * Z) :=
  match chains with
  | [] => Ok ([], pull)
  | ch :: chains =>
      let? part := chain_part exit direct total pull k n ch in
      let? (leg, work) :=
        (if part =? 0 then Ok ([], work) else
         let? (l, w) := chain_leg book work token_in debt_addr overshoot_bps part ch in Ok ([l], w)) in
      let? pull := ok_or (checked_sub pull part) AmountTooLarge in
      let? (legs, pull) := chain_loop book exit direct total n token_in debt_addr overshoot_bps (S k) chains pull work in
      Ok (leg ++ legs, pull)
  end.

(** The venues without an exact output. *)
Definition exact_in_venue (v : Z) : bool :=
  (v =? VENUE_CURVE_POOL) || (v =? VENUE_CURVE_CRYPTO_POOL) || (v =? VENUE_FLUID).

Fixpoint share_legs book (token_in debt_addr : Address) (overshoot_bps : Z) (shares : list (Allocation * Z)) : ARes (list SwapLeg) :=
  match shares with
  | [] => Ok []
  | (a, amount) :: shares =>
      let? (venue, data) := venue_bytes book (leg_pool (al_leg a)) (leg_i (al_leg a)) (leg_j (al_leg a)) in
      let? (flags, amount) :=
        (if exact_in_venue venue then let? x := curve_exact_in a amount overshoot_bps in Ok (0, x)
         else Ok (LEG_EXACT_OUT, amount)) in
      let? legs := share_legs book token_in debt_addr overshoot_bps shares in
      Ok (Plan.mkSwap venue token_in debt_addr flags amount data :: legs)
  end.

(** The last pool's venue and data, which no caller reads, are left out. *)
Definition repay_legs (exit : ExitQuote) book (pull : Z) (token_in debt_addr : Address) (overshoot_bps : Z) : ARes (list SwapLeg) :=
  let? (chain_legs, pull) :=
    (match eq_chain exit with
     | None => Ok ([], pull)
     | Some c =>
         let direct := existsb (fun a => negb (al_amount_out a =? 0)) (eq_allocs exit) in
         let all := c :: cu_with c in
         let displaced := if existsb (fun ch => negb (cu_exact_out ch)) all
                          then Some (displaced_book book (eq_allocs exit)) else None in
         chain_loop book exit direct pull (length all) token_in debt_addr overshoot_bps 0 all pull displaced
     end) in
  match eq_chain exit with
  | Some _ =>
      if pull =? 0 then (if PoolBook.is_nil chain_legs then Err (AMissing "chain share") else Ok chain_legs) else
      let? shares := shares_of_pull exit pull in
      let? repay := share_legs book token_in debt_addr overshoot_bps shares in
      Ok (repay ++ chain_legs)
  | None =>
      let? shares := shares_of_pull exit pull in
      share_legs book token_in debt_addr overshoot_bps shares
  end.

(** *** Closers *)

(** The loop of [closer_pair]: the pool with the best score, the first among equals. *)
Definition closer_score (amount : Z) (i j : nat) (p : PoolBook.Pool) : Z :=
  default 0 (res_ok (if amount =? 0 then PoolBook.rho_at_zero p i j else PoolBook.quote_exact_in p i j amount)).

Definition closer_of book (token_in token_out : Address) (amount : Z) (p : PoolBook.Pool) : option (Z * PoolId * nat * nat) :=
  if negb (PoolBook.is_live p) then None else
  let! i := PoolBook.position (Z.eqb token_in) (PoolBook.po_tokens p) in
  let! j := PoolBook.position (Z.eqb token_out) (PoolBook.po_tokens p) in
  let! i := try_from_nat 8 i in
  let! j := try_from_nat 8 j in
  let! id := PoolBook.by_address book (PoolBook.po_address p) in
  Some (closer_score amount i j p, id, i, j).

Definition closer_loop book (token_in token_out : Address) (amount : Z) : option (Z * PoolId * nat * nat) :=
  fold_left (fun best p =>
    match closer_of book token_in token_out amount p, best with
    | Some (score, id, i, j), Some (b, _, _, _) => if b <? score then Some (score, id, i, j) else best
    | Some c, None => Some c
    | None, _ => best
    end) (PoolBook.bk_pools book) None.

Definition closer_pair book (token_in token_out : Address) (amount : Z) : ARes (Z * list Z) :=
  match closer_loop book token_in token_out amount with
  | Some (_, id, i, j) => venue_bytes book id i j
  | None =>
      match PoolBook.asset_id book token_in, PoolBook.asset_id book token_out with
      | Some from, Some to_ =>
          let amount := if amount =? 0 then 1 else amount in
          match best_chain book from to_ amount with
          | Some data => Ok (VENUE_CHAIN, data)
          | None => Err (AMissing "pair pool")
          end
      | _, _ => Err (AMissing "pair pool")
      end
  end.

Definition closer book (token_in weth : Address) (amount : Z) : ARes SwapLeg :=
  let? (venue, data) := closer_pair book token_in weth amount in
  Ok (Plan.mkSwap venue token_in weth LEG_TAKE_BALANCE 0 data).

Definition univ3_addr_for book (a b : Address) : option Address :=
  PoolBook.po_address <$> List.find (fun p => PoolBook.is_v3_contract p && PoolBook.is_live p &&
    existsb (Z.eqb a) (PoolBook.po_tokens p) && existsb (Z.eqb b) (PoolBook.po_tokens p)) (PoolBook.bk_pools book).

(** *** The legs of one liquidation *)

(** [mul_div_512(..).unwrap_or(d)]. *)
Definition res_or {A} (r : RRes A) (d : A) : A := match r with Ok a => a | Err _ => d end.

Definition residual_after (leg : SizedLeg) (pull : Z) : Z :=
  let sold := if eq_amount_out (sl_exit leg) =? 0 then sl_seized leg
              else res_or (mul_div_512 (sl_seized leg) pull (eq_amount_out (sl_exit leg))) (sl_seized leg) in
  saturating_sub (sl_seized leg) sold.

Definition swaps_for_leg (s : Scored) book (weth : Address) (pull : Z) (debt_addr coll_addr : Address) (overshoot_bps : Z)
  : ARes (list SwapLeg * option SwapLeg) :=
  let? repay := repay_legs (sl_exit (sd_leg s)) book pull coll_addr debt_addr overshoot_bps in
  if coll_addr =? weth then Ok (repay, None) else
  let? profit := closer book coll_addr weth (residual_after (sd_leg s) pull) in
  Ok (repay, Some profit).

(** [max_by_key]: the last index of the largest. *)
Fixpoint max_index (l : list Allocation) (k : nat) (best : option (nat * Z)) : option nat :=
  match l with
  | [] => fst <$> best
  | a :: l =>
      max_index l (S k) (match best with
                         | Some (_, b) => if b <=? al_amount_in a then Some (k, al_amount_in a) else best
                         | None => Some (k, al_amount_in a)
                         end)
  end.

Fixpoint hub_loop book (hub_addr sell_addr : Address) (tol_bps : Z) (close k : nat) (sold : list Allocation)
  : ARes (list SwapLeg * list SwapLeg) :=
  match sold with
  | [] => Ok ([], [])
  | a :: sold =>
      let? (venue, data) := venue_bytes book (leg_pool (al_leg a)) (leg_i (al_leg a)) (leg_j (al_leg a)) in
      if (k =? close)%nat then
        let? (legs, closers) := hub_loop book hub_addr sell_addr tol_bps close (S k) sold in
        Ok (legs, Plan.mkSwap venue sell_addr hub_addr LEG_TAKE_BALANCE 0 data :: closers)
      else
        let? v := with_min_out_tolerance (al_amount_in a) tol_bps in
        let? amount := u128_of v in
        let? (legs, closers) := hub_loop book hub_addr sell_addr tol_bps close (S k) sold in
        Ok (Plan.mkSwap venue sell_addr hub_addr 0 amount data :: legs, closers)
  end.

Definition hub_sell_legs (hub : HubUse) book (hub_addr sell_addr : Address) (tol_bps : Z) : ARes (list SwapLeg) :=
  let sold := List.filter (fun a => negb (al_amount_in a =? 0)) (hu_allocs hub) in
  let? close := or_missing (max_index sold 0 None) "hub allocation" in
  let? (legs, closers) := hub_loop book hub_addr sell_addr tol_bps close 0 sold in
  Ok (legs ++ closers).

Definition hub_swaps_for_leg (exit : ExitQuote) (hub : HubUse) book (weth hub_addr : Address) (pull : Z)
    (debt_addr sell_addr : Address) (overshoot_bps tol_bps : Z) : ARes (list SwapLeg * option SwapLeg) :=
  let? legs := hub_sell_legs hub book hub_addr sell_addr tol_bps in
  let? repay := repay_legs exit book pull hub_addr debt_addr overshoot_bps in
  let legs := legs ++ repay in
  if hub_addr =? weth then Ok (legs, None) else
  let left := if eq_amount_out exit =? 0 then hu_amount_out hub
              else res_or (mul_div_512 (hu_amount_out hub) (saturating_sub (eq_amount_out exit) pull) (eq_amount_out exit))
                     (hu_amount_out hub) in
  let? profit := closer book hub_addr weth left in
  Ok (legs, Some profit).

Definition flash_swap_swaps_for_leg (s : Scored) book (weth : Address) (pull : Z) (sell_addr : Address) (tol_bps : Z)
  : ARes (list SwapLeg * option SwapLeg) :=
  match eq_hub (sl_exit (sd_leg s)) with
  | Some hub =>
      if negb (bool_decide (Some (hu_hub hub) = PoolBook.bk_hub book))
      then Err (AMissing "flash swap through a hub other than WETH") else
      let? legs := hub_sell_legs hub book weth sell_addr tol_bps in Ok (legs, None)
  | None =>
      if sell_addr =? weth then Ok ([], None) else
      let? profit := closer book sell_addr weth (residual_after (sd_leg s) pull) in
      Ok ([], Some profit)
  end.
End Legs.

(** ** Premiums *)

Definition flash_premium (provider : FlashProvider) (fee_bps flash_amount : Z) : ARes Z :=
  let? fee := ok_or (fee_amount provider flash_amount fee_bps) (AProfit UnpriceableFee) in
  u128_of fee.

Definition buys_premium (legs : list SwapLeg) : bool :=
  existsb (fun s => has_flag (Plan.s_flags s) LEG_EXACT_OUT &&
    ((Plan.s_venue s =? VENUE_UNIV3_POOL) || (Plan.s_venue s =? VENUE_UNIV2_POOL) || (Plan.s_venue s =? VENUE_UNIV4_POOL) ||
     (Plan.s_venue s =? VENUE_CHAIN))) legs.

Definition premium_bps_of (premium pull : Z) : ARes Z :=
  if premium =? 0 then Ok 0 else
  if pull =? 0 then Ok (umax 16) else
  let? bps := amath (mul_div premium 10000 pull Up) in
  Ok (default (umax 16) (try_from 16 bps)).

(** ** One plan *)

Record Assembled := mkAssembled {
  as_plan : BatchPlan; as_fallbacks : list (list FlashRoute); as_group_fee_bps : list Z }.

(** The legs a source funds: in rank order while they fit its capacity and a tie can name
    them; what was taken before is passed over. *)
Fixpoint pick (n : nat) (capacity : Z) (legs : list Scored) (assigned : list bool) : list bool * list Scored :=
  match legs, assigned with
  | s :: legs, a :: assigned =>
      if (LEG_TIE_MAX <=? n)%nat then (a :: assigned, []) else
      if a || (capacity <? sl_s (sd_leg s)) then
        let '(assigned, members) := pick n capacity legs assigned in (a :: assigned, members)
      else
        let '(assigned, members) := pick (S n) (saturating_sub capacity (sl_s (sd_leg s))) legs assigned in
        (true :: assigned, s :: members)
  | _, assigned => (assigned, [])
  end.

Section Plans.
Context `{TickMath} `{PoolBook.OtherMath} {G : Type} `{ChainSearch G} `{AssembleView}.
Context (cfg : SelectCfg) (book : Book G) (weth : Address).

Definition liq_leg (reward_only : bool) (s : Scored) : ARes Plan.LiqLeg :=
  let? meta := or_missing (av_meta (sd_position s)) "leg meta" in
  let? coll_addr := token (sl_coll (sd_leg s)) in
  let? repay := u128_of (sl_s (sd_leg s)) in
  let pull := default repay (me_protocol_pull meta) in
  if (pull =? 0) && negb (bool_decide (me_adapter meta = XLiquityV2)) && negb reward_only
  then Err (AMissing "protocol_pull") else
  if reward_only && negb (pull =? 0) then Err (AMissing "reward-only leg with a pull") else
  Ok (Plan.mkLiq (me_adapter meta) (me_market meta) (me_borrower meta) coll_addr repay (me_tail meta) pull).

Fixpoint liq_legs (reward_only : bool) (members : list Scored) : ARes (list Plan.LiqLeg) :=
  match members with
  | [] => Ok []
  | s :: members => let? l := liq_leg reward_only s in let? ls := liq_legs reward_only members in Ok (l :: ls)
  end.

Definition takes_all (token_in : Address) (x : SwapLeg) : bool :=
  (Plan.s_token_in x =? token_in) && has_flag (Plan.s_flags x) LEG_TAKE_BALANCE.

(** A reward-only leg: every paid asset closes to WETH, once. *)
Fixpoint reward_closers (rewards : list (AssetId * Z)) (profit_swaps : list SwapLeg) : ARes (list SwapLeg) :=
  match rewards with
  | [] => Ok profit_swaps
  | (asset, paid) :: rewards =>
      let? addr := token asset in
      if (addr =? weth) || existsb (takes_all addr) profit_swaps then reward_closers rewards profit_swaps else
      let? c := closer book addr weth paid in
      reward_closers rewards (profit_swaps ++ [c])
  end.

Definition unwrap_bytes (u : UnwrapUse) (coll_addr : Address) : ARes (Z * list Z) :=
  match uu_kind u with
  | Erc4626 => Ok (VENUE_UNWRAP_4626, be 20 coll_addr)
  | PendlePt yt _ => Ok (VENUE_PENDLE_PT_REDEEM, be 20 yt)
  | CurveLp i => let? d := curve_lp_bytes book coll_addr i in Ok (VENUE_CURVE_LP_ONE_COIN, d)
  | PendleMarket market _ _ => Ok (VENUE_PENDLE_MARKET_SELL, be 20 market)
  end.

(** What the leg sells, and the unwrap put ahead of the group's swaps. *)
Definition sell_of (s : Scored) (coll_addr : Address) (repay_swaps : list SwapLeg) : ARes (Address * list SwapLeg) :=
  match eq_unwrap (sl_exit (sd_leg s)) with
  | None => Ok (coll_addr, repay_swaps)
  | Some u =>
      let? into := token (uu_into u) in
      if existsb (fun x => is_unwrap_venue (Plan.s_venue x) && (Plan.s_token_in x =? coll_addr)) repay_swaps
      then Ok (into, repay_swaps) else
      let? (venue, data) := unwrap_bytes u coll_addr in
      Ok (into, Plan.mkSwap venue coll_addr into LEG_TAKE_BALANCE 0 data :: repay_swaps)
  end.

Definition legs_at (s : Scored) (flash_swap : bool) (pull : Z) (debt_addr sell_addr : Address) (overshoot_bps : Z)
  : ARes (list SwapLeg * option SwapLeg) :=
  let tol := cf_min_out_tolerance_bps cfg in
  if sell_addr =? debt_addr then Ok ([], None) else
  if flash_swap then flash_swap_swaps_for_leg s book weth pull sell_addr tol else
  match eq_hub (sl_exit (sd_leg s)) with
  | Some hub =>
      let? hub_addr := token (hu_hub hub) in
      hub_swaps_for_leg (sl_exit (sd_leg s)) hub book weth hub_addr pull debt_addr sell_addr overshoot_bps tol
  | None => swaps_for_leg s book weth pull debt_addr sell_addr overshoot_bps
  end.

Fixpoint tie_legs (k : nat) (legs : list SwapLeg) : ARes (list SwapLeg) :=
  match legs with
  | [] => Ok []
  | r :: legs =>
      let? r :=
        (if has_flag (Plan.s_flags r) LEG_TAKE_BALANCE then Ok r else
         let? f := or_missing (tie_flags (Plan.s_flags r) k) "tie" in
         Ok (Plan.mkSwap (Plan.s_venue r) (Plan.s_token_in r) (Plan.s_token_out r) f (Plan.s_amount r) (Plan.s_data r))) in
      let? legs := tie_legs k legs in
      Ok (r :: legs)
  end.

(** One leg of a funded group: what it adds to the repay swaps and the profit swaps. *)
Definition leg_swaps (flash_swap : bool) (premium : Z) (debt_addr : Address) (k : nat) (s : Scored) (l : Plan.LiqLeg)
    (repay_swaps profit_swaps : list SwapLeg) : ARes (list SwapLeg * list SwapLeg) :=
  let tol := cf_min_out_tolerance_bps cfg in
  let coll_addr := Plan.l_collateral_asset l in
  let pull := Plan.l_protocol_pull l in
  let? (sell_addr, repay_swaps) := sell_of s coll_addr repay_swaps in
  let? (repay, profit) := legs_at s flash_swap pull debt_addr sell_addr tol in
  let? repay :=
    (if negb (premium =? 0) && negb (buys_premium repay) then
       let? bps := premium_bps_of premium pull in
       let? (repay, _) := legs_at s flash_swap pull debt_addr sell_addr (saturating_add 16 tol bps) in Ok repay
     else Ok repay) in
  let? repay := tie_legs k repay in
  Ok (repay_swaps ++ repay,
      match profit with
      | Some p => if existsb (takes_all sell_addr) profit_swaps then profit_swaps else profit_swaps ++ [p]
      | None => profit_swaps
      end).

Fixpoint swaps_loop (reward_only flash_swap : bool) (premium : Z) (debt_addr : Address) (k : nat)
    (members : list Scored) (liqs : list Plan.LiqLeg) (repay_swaps profit_swaps : list SwapLeg)
  : ARes (list SwapLeg * list SwapLeg) :=
  match members, liqs with
  | s :: members, l :: liqs =>
      let? (repay_swaps, profit_swaps) :=
        (if reward_only then let? p := reward_closers (sl_rewards (sd_leg s)) profit_swaps in Ok (repay_swaps, p)
         else leg_swaps flash_swap premium debt_addr k s l repay_swaps profit_swaps) in
      swaps_loop reward_only flash_swap premium debt_addr (S k) members liqs repay_swaps profit_swaps
  | _, _ => Ok (repay_swaps, profit_swaps)
  end.

(** What the loops over groups and sources build. *)
Record Acc := mkAcc {
  ac_groups : list FlashGroup; ac_floor : list FloorGroup; ac_profit : list SwapLeg;
  ac_fallbacks : list (list FlashRoute); ac_fees : list Z }.

Definition sum_pulls (liqs : list Plan.LiqLeg) : ARes Z := ok_or (sum_opt 128 Plan.l_protocol_pull liqs) AmountTooLarge.

(** The chain excluding the source itself. *)
Definition fallbacks_of (flash : FlashIndex) (haircut : Haircut) (g : DebtGroup) (cg : FlashRoute) : list FlashRoute :=
  if dg_reward_only g || bool_decide (fr_provider cg = FUniV3Swap) then [] else
  List.filter (fun r => negb (fr_source r =? fr_source cg) || negb (bool_decide (fr_provider r = fr_provider cg)))
    (fallback_chain flash (dg_debt g) (fr_amount cg) haircut (cf_cost cfg)).

(** A source of a group with the legs it funds. *)
Definition fund_group (flash : FlashIndex) (haircut : Haircut) (g : DebtGroup) (debt_addr : Address) (per_eth : Z)
    (cg : FlashRoute) (members : list Scored) (acc : Acc) : ARes Acc :=
  let flash_swap := bool_decide (fr_provider cg = FUniV3Swap) in
  let? liqs := liq_legs (dg_reward_only g) members in
  let? pull_sum := sum_pulls liqs in
  let? take := u128_of (fr_amount cg) in
  let? spare := or_missing (checked_sub take pull_sum) "flash depth" in
  let? extra := u128_of (cf_over_borrow cfg) in
  let add := if flash_swap then 0 else Z.min extra spare in
  let? flash_amt := ok_or (checked_add 128 pull_sum add) AmountTooLarge in
  let? premium := flash_premium (fr_provider cg) (fr_fee_bps cg) flash_amt in
  let? (repay_swaps, profit) :=
    swaps_loop (dg_reward_only g) flash_swap premium debt_addr 0 members liqs [] (ac_profit acc) in
  Ok (mkAcc
    (ac_groups acc ++ [Plan.mkFlash (fr_provider cg) (fr_source cg) debt_addr flash_amt (fr_fee_bps cg) liqs repay_swaps])
    (ac_floor acc ++ [mkFloor members per_eth premium]) profit
    (ac_fallbacks acc ++ [fallbacks_of flash haircut g cg]) (ac_fees acc ++ [fr_fee_bps cg])).

Fixpoint sources_loop (flash : FlashIndex) (haircut : Haircut) (g : DebtGroup) (debt_addr : Address) (per_eth : Z)
    (sources : list FlashRoute) (assigned : list bool) (acc : Acc) : ARes Acc :=
  match sources with
  | [] => Ok acc
  | cg :: sources =>
      let '(assigned, members) := pick 0 (fr_amount cg) (dg_legs g) assigned in
      match members with
      | [] => sources_loop flash haircut g debt_addr per_eth sources assigned acc
      | _ =>
          let? acc := fund_group flash haircut g debt_addr per_eth cg members acc in
          sources_loop flash haircut g debt_addr per_eth sources assigned acc
      end
  end.

Definition group_per_eth (g : DebtGroup) : ARes Z :=
  if dg_reward_only g then Ok WEI_PER_ETH else required (av_per_eth (dg_debt g)) "per_eth".

Fixpoint groups_loop (flash : FlashIndex) (haircut : Haircut) (gs : list DebtGroup) (acc : Acc) : ARes Acc :=
  match gs with
  | [] => Ok acc
  | g :: gs =>
      let? debt_addr := token (dg_debt g) in
      let? per_eth := group_per_eth g in
      let? acc := sources_loop flash haircut g debt_addr per_eth (ca_groups (dg_cascade g))
                    (replicate (length (dg_legs g)) false) acc in
      groups_loop flash haircut gs acc
  end.

(** *** Surplus debt *)

Definition sells_into_debt (g : FlashGroup) : bool :=
  existsb (fun s => (Plan.s_token_out s =? Plan.fg_debt_asset g) &&
    (negb (has_flag (Plan.s_flags s) (Z.lor LEG_EXACT_OUT LEG_TAKE_BALANCE)) || is_unwrap_venue (Plan.s_venue s)))
    (Plan.fg_repay_swaps g).

Definition sum_pulls_of (g : FlashGroup) : ARes Z := sum_pulls (Plan.fg_liqs g).

Fixpoint surplus_loop (gs : list FlashGroup) (profit : list SwapLeg) (need_pool : option (Address * Address))
  : ARes (list SwapLeg * option (Address * Address)) :=
  match gs with
  | [] => Ok (profit, need_pool)
  | g :: gs =>
      let? pull := sum_pulls_of g in
      if (Plan.fg_debt_asset g =? weth) || ((Plan.fg_flash_amount g <=? pull) && negb (sells_into_debt g))
      then surplus_loop gs profit need_pool else
      if existsb (routes_surplus (Plan.fg_debt_asset g) weth) profit then surplus_loop gs profit need_pool else
      match closer book (Plan.fg_debt_asset g) weth (saturating_sub (Plan.fg_flash_amount g) pull) with
      | Ok c => surplus_loop gs (profit ++ [c]) need_pool
      | Err _ => surplus_loop gs profit (Some (Plan.fg_debt_asset g, weth))
      end
  end.

Definition with_profit (plan : BatchPlan) (profit : list SwapLeg) : BatchPlan :=
  Plan.mkBatch (Plan.bp_flags plan) (Plan.bp_bid_bps plan) (Plan.bp_gas_cost_wei plan) (Plan.bp_min_profit_wei plan)
    (Plan.bp_groups plan) profit.

Definition route_surplus_debt (plan : BatchPlan) : ARes BatchPlan :=
  let? (profit, need_pool) := surplus_loop (Plan.bp_groups plan) (Plan.bp_profit_swaps plan) None in
  let plan := with_profit plan profit in
  match need_pool with
  | Some (debt, w) =>
      let? pool := or_missing (univ3_addr_for book debt w) "surplus v3 pool" in
      Ok (ensure_surplus_borrow_profit_legs plan weth pool)
  | None =>
      match head (Plan.bp_groups plan) with
      | Some g0 =>
          match univ3_addr_for book (Plan.fg_debt_asset g0) weth with
          | Some pool => Ok (ensure_surplus_borrow_profit_legs plan weth pool)
          | None => Ok plan
          end
      | None => Ok plan
      end
  end.
End Plans.

Section Assembly.
Context `{TickMath} `{PoolBook.OtherMath} {G : Type} `{ChainSearch G} `{AssembleView}.
Context (market_hash : Z -> Z -> Z -> Z -> Z -> Z).

Definition checked_plan (plan : BatchPlan) (ctx : ValidateCtx) : ARes BatchPlan :=
  let? _ := map_err AValidate (validate market_hash plan ctx) in Ok plan.

Definition assemble_one (p : SelectedPlan) (cfg : SelectCfg) (book : Book G) (ctx : ValidateCtx) (bid : Bid) (gas : GasTerms)
    (flags : Z) (flash : FlashIndex) (haircut : Haircut) : ARes Assembled :=
  let? per_gas := ar (accounting_wei_per_gas gas) in
  let? cost := ar (math (checked_mul 256 (pl_hop_and_wrap_gas p) per_gas)) in
  let? gas_cost_wei := u128_of cost in
  let? acc := groups_loop cfg book (vc_weth ctx) flash haircut (pl_groups p) (mkAcc [] [] [] [] []) in
  if PoolBook.is_nil (ac_groups acc) then Err (AMissing "groups") else
  let? min_profit_wei := min_profit_floor (ac_floor acc) bid gas_cost_wei (cf_min_out_tolerance_bps cfg) in
  let plan := Plan.mkBatch flags (bd_coinbase_bps bid) gas_cost_wei min_profit_wei (ac_groups acc) (ac_profit acc) in
  let? plan := route_surplus_debt book (vc_weth ctx) plan in
  let? plan := checked_plan plan ctx in
  Ok (mkAssembled plan (ac_fallbacks acc) (ac_fees acc)).

Fixpoint assemble_all (plans : list SelectedPlan) (cfg : SelectCfg) (book : Book G) (ctx : ValidateCtx) (bid : Bid) (gas : GasTerms)
    (flags : Z) (flash : FlashIndex) (haircut : Haircut) : ARes (list Assembled) :=
  match plans with
  | [] => Ok []
  | p :: plans =>
      let? a := assemble_one p cfg book ctx bid gas flags flash haircut in
      let? rest := assemble_all plans cfg book ctx bid gas flags flash haircut in
      Ok (a :: rest)
  end.

Definition assemble (plans : list SelectedPlan) (cfg : SelectCfg) (book : Book G) (ctx : ValidateCtx) (bid : Bid) (gas : GasTerms)
    (flags : Z) (flash : FlashIndex) (haircut : Haircut) : ARes (list Assembled) :=
  if vc_weth ctx =? 0 then Err (AMissing "weth") else assemble_all plans cfg book ctx bid gas flags flash haircut.

(** ** The next source *)

Definition fee_of (group_idx : nat) (a : Assembled) : Z := default 0 (as_group_fee_bps a !! group_idx).

Definition on_source (g : FlashGroup) (next : FlashRoute) : FlashGroup :=
  Plan.mkFlash (fr_provider next) (fr_source next) (Plan.fg_debt_asset g) (Plan.fg_flash_amount g) (fr_fee_bps next)
    (Plan.fg_liqs g) (Plan.fg_repay_swaps g).

Definition with_groups (plan : BatchPlan) (gs : list FlashGroup) : BatchPlan :=
  Plan.mkBatch (Plan.bp_flags plan) (Plan.bp_bid_bps plan) (Plan.bp_gas_cost_wei plan) (Plan.bp_min_profit_wei plan)
    gs (Plan.bp_profit_swaps plan).

(** What both re-encodings do once the fee is known not to rise. *)
Definition reencode (plan : BatchPlan) (group_idx : nat) (g : FlashGroup) (next : FlashRoute) (ctx : ValidateCtx) : ARes BatchPlan :=
  let? pull := sum_pulls_of g in
  if (fr_amount next <? Plan.fg_flash_amount g) && (fr_amount next <? pull) then Err NextSourceTooShallow else
  checked_plan (with_groups plan (<[group_idx := on_source g next]> (Plan.bp_groups plan))) ctx.

Definition reencode_next_source (a : Assembled) (group_idx : nat) (ctx : ValidateCtx) : ARes BatchPlan :=
  let? next := or_missing (let! c := as_fallbacks a !! group_idx in head c) "fallback" in
  let? g := or_missing (Plan.bp_groups (as_plan a) !! group_idx) "group" in
  if fee_of group_idx a <? fr_fee_bps next then Err FeeIncreased else
  reencode (as_plan a) group_idx g next ctx.

Definition next_in_chain (chain : list FlashRoute) (used : FlashRoute) : option FlashRoute :=
  let! i := PoolBook.position (fun r => bool_decide (fr_provider r = fr_provider used) && (fr_source r =? fr_source used)) chain in
  chain !! S i.

Definition reencode_with (plan : BatchPlan) (group_idx : nat) (next : FlashRoute) (current_fee_bps : Z) (ctx : ValidateCtx)
  : ARes BatchPlan :=
  if current_fee_bps <? fr_fee_bps next then Err FeeIncreased else
  let? g := or_missing (Plan.bp_groups plan !! group_idx) "group" in
  reencode plan group_idx g next ctx.
End Assembly.

End Assemble.
