(* ===== verification/RouterAssembleThms.v ===== *)
(** * What assembly guarantees

    Theorems about [RouterAssemble]: the floor under the profit against every landing of the
    plan, the shares and legs that buy a pull, the input along a path, the groups of an
    assembled plan, and re-encoding onto another source. *)

From stdpp Require Import strings gmap.
From S2P Require Import Prelude Fixed Types Halt Flash Bonus Bytes Wire Plan PlanCheck RouterFees PoolMath PoolV3 RouterLog RouterGraph RouterPairs RouterBand RouterExit RouterWarm RouterProfit RouterSelect Balancer PoolBook RouterAssemble.
Import Assemble.
Local Open Scope Z_scope.

Lemma map_err_Ok {E F A} (f : E -> F) (r : Result E A) a : map_err f r = Ok a <-> r = Ok a.
Proof. destruct r; cbn; split; congruence. Qed.

Tactic Notation "bind_inv" hyp(H) ident(x) simple_intropattern(Hx) := apply bind_Ok in H as (x & Hx & H).

(** ** The floor *)

(** One leg that filled, with the debt its exit bought. *)
Record Fill := mkFill { fi_leg : Scored; fi_out : Z }.

(** What a filled leg brings in wei, and a group that landed, after its source's premium. *)
Definition fill_wei (per_eth : Z) (f : Fill) : Z :=
  (fi_out f - sl_s (sd_leg (fi_leg f))) * WEI_PER_ETH / per_eth.
Definition group_wei (g : FloorGroup * list Fill) : Z :=
  zsum (fill_wei (fl_per_eth (fst g))) (snd g) - div_up (fl_premium (fst g) * WEI_PER_ETH) (fl_per_eth (fst g)).
Definition landing_wei (gas_cost_wei : Z) (l : list (FloorGroup * list Fill)) : Z := zsum group_wei l - gas_cost_wei.

(** A landing of the group: some of its legs filled, each within the tolerance of its quote and
    buying at least what it repays. *)
Definition lands (tol_bps : Z) (g : FloorGroup) (fills : list Fill) : Prop :=
  fills <> [] /\ Forall (fun f => fi_leg f ∈ fl_legs g /\
    sl_swap_out (sd_leg (fi_leg f)) * (10000 - tol_bps) <= fi_out f * 10000 /\
    sl_s (sd_leg (fi_leg f)) <= fi_out f) fills.

(** The amounts are of their types. *)
Definition floor_typed (g : FloorGroup) : Prop :=
  u256 (fl_per_eth g) /\ 0 < fl_per_eth g /\ u256 (fl_premium g) /\
  Forall (fun s => u256 (sl_swap_out (sd_leg s)) /\ u256 (sl_s (sd_leg s))) (fl_legs g).

Lemma wei_u256 : u256 WEI_PER_ETH.
Proof. split; [done|]. vm_compute. discriminate. Qed.

Lemma to_wei_Ok v per r w : u256 v -> u256 per -> to_wei v per r = Ok w ->
  u256 w /\ 0 < per /\ w = round_div r (v * WEI_PER_ETH) per.
Proof.
  intros Hv Hp H%map_err_Ok. pose proof (mul_div_ok_u256 _ _ _ _ _ Hv wei_u256 Hp H) as Hw.
  apply mul_div_Ok in H as (Hnz & -> & _); [|done|apply wei_u256|done]. split; [done|]. destruct Hp. split; [lia|done].
Qed.

Lemma signed_Ok v w : signed v = Ok w -> w = v.
Proof. unfold signed. rewrite ok_or_Ok, checked_i_Some. tauto. Qed.

Lemma leg_value_bound per tol s v out : 0 <= tol <= 10000 -> u256 per ->
  u256 (sl_swap_out (sd_leg s)) -> u256 (sl_s (sd_leg s)) -> leg_value per tol s = Ok v ->
  sl_swap_out (sd_leg s) * (10000 - tol) <= out * 10000 -> v <= fill_wei per (mkFill s out).
Proof.
  intros Ht Hper Hso Hs H Hout. unfold leg_value in H. bind_inv H moved Hm. bind_inv H owed Ho.
  bind_inv H slack Hsl. bind_inv H m' Em. bind_inv H o' Eo. apply signed_Ok in Em as ->. apply signed_Ok in Eo as ->.
  apply to_wei_Ok in Hm as (Hmu & Hp & Hm); [|done..]. apply to_wei_Ok in Ho as (_ & _ & Ho); [|done..].
  apply map_err_Ok, mul_div_Ok in Hsl as (_ & Hsl & _); [|done|split; [lia|unfold umax; lia]|split; [lia|unfold umax; lia]].
  unfold i256 in H. apply ok_or_Ok in H. destruct (checked_i 256 (moved - owed)) as [d|] eqn:Ed; [|done].
  apply checked_i_Some in Ed as [-> _]. destruct (checked_i 256 slack) as [sl|] eqn:Esl; [|done].
  apply checked_i_Some in Esl as [-> _]. apply checked_i_Some in H as [-> _].
  cbn [round_div] in *. pose proof (div_rem_spec (sl_swap_out (sd_leg s) * WEI_PER_ETH) per Hp) as [Hd Hr].
  rewrite <- Hm in Hd. pose proof (div_up_spec (sl_s (sd_leg s) * WEI_PER_ETH) per Hp) as [Hou _]. rewrite <- Ho in Hou.
  pose proof (div_up_spec (moved * tol) 10000 eq_refl) as [Hsu _]. rewrite <- Hsl in Hsu.
  unfold fill_wei. cbn [fi_out fi_leg]. apply Z.div_le_lower_bound; [done|].
  set (so := sl_swap_out (sd_leg s)) in *. set (ss := sl_s (sd_leg s)) in *. clearbody so ss.
  assert (HW : 0 < WEI_PER_ETH) by done. set (W := WEI_PER_ETH) in *. clearbody W.
  assert (H1 : (moved - slack) * 10000 <= moved * (10000 - tol)) by lia.
  assert (H2 : per * moved <= so * W) by lia. destruct Hmu as [Hm0 _].
  assert (H3 : per * moved * (10000 - tol) <= so * W * (10000 - tol)) by (apply Z.mul_le_mono_nonneg_r; lia).
  assert (H4 : so * (10000 - tol) * W <= out * 10000 * W) by (apply Z.mul_le_mono_nonneg_r; lia). nia.
Qed.

Lemma weakest_spec per tol legs : forall w0 r, weakest_loop per tol legs w0 = Ok r ->
  (forall w, w0 = Some w -> exists m, r = Some m /\ m <= w) /\
  (forall s, s ∈ legs -> exists m v, r = Some m /\ leg_value per tol s = Ok v /\ m <= v).
Proof.
  induction legs as [|s legs IH]; cbn; intros w0 r H.
  { injection H as <-. split; [intros w ->; eauto with lia|]. by intros s ?%not_elem_of_nil. }
  bind_inv H v Hv. apply IH in H as [H1 H2]. destruct (H1 _ eq_refl) as (m & -> & Hm). split.
  - intros w ->. cbn in Hm. exists m. split; [done|lia].
  - intros s' [->|Hs]%elem_of_cons; [|by apply H2]. exists m, v. split; [done|]. split; [done|]. destruct w0; lia.
Qed.

Lemma zsum_nonneg {A} (f : A -> Z) l : Forall (fun x => 0 <= f x) l -> 0 <= zsum f l.
Proof. induction 1 as [|x l Hx _ IH]; cbn; [done|]. unfold zsum in IH. lia. Qed.

Lemma group_lands tol fg fills w : 0 <= tol <= 10000 -> floor_typed fg -> lands tol fg fills ->
  weakest_loop (fl_per_eth fg) tol (fl_legs fg) None = Ok (Some w) -> w <= zsum (fill_wei (fl_per_eth fg)) fills.
Proof.
  intros Ht (Hper & Hp & _ & Hlegs) [Hne Hf] Hw. apply weakest_spec in Hw as [_ Hw].
  destruct fills as [|[s out] fills]; [done|]. apply Forall_cons in Hf as [(Hin & Hout & Hge) Hf]. cbn [fi_leg fi_out] in *.
  change (zsum ?f (?x :: ?l)) with (f x + zsum f l).
  rewrite Forall_forall in Hlegs. destruct (Hlegs _ Hin) as [Hso Hs].
  destruct (Hw s Hin) as (m & v & [= <-] & Hv & Hmv).
  pose proof (leg_value_bound _ _ _ _ out Ht Hper Hso Hs Hv Hout).
  assert (0 <= zsum (fill_wei (fl_per_eth fg)) fills); [|lia].
  apply zsum_nonneg. eapply Forall_impl; [exact Hf|]. intros f (_ & _ & Hfge). unfold fill_wei.
  apply Z.div_pos; [|done]. assert (0 < WEI_PER_ETH) by done. nia.
Qed.

Lemma worst_spec tol groups landing : 0 <= tol <= 10000 -> Forall floor_typed groups -> Forall2 (lands tol) groups landing ->
  forall w0 w, worst_loop tol groups w0 = Ok w -> w <= w0 + zsum group_wei (zip groups landing).
Proof.
  intros Ht. revert landing. induction groups as [|fg groups IH]; intros landing Hty Hl w0 w H.
  { injection H as <-. cbn. lia. }
  apply Forall_cons in Hty as [Hfg Hty]. apply Forall2_cons_inv_l in Hl as (fills & landing' & Hl & Hls & ->).
  cbn [worst_loop] in H. bind_inv H wk Hwk. bind_inv H weakest Hw. apply ok_or_Ok in Hw as ->.
  bind_inv H pr Hpr. bind_inv H pr' Hpr'. apply signed_Ok in Hpr' as ->. bind_inv H w1 Hw1.
  destruct Hfg as (Hper & Hp & Hprem & Hlegs).
  apply to_wei_Ok in Hpr as (_ & _ & ->); [|done..]. apply ok_or_Ok in Hw1.
  destruct (checked_i 256 (w0 + weakest)) as [x|] eqn:Ex; [|done]. apply checked_i_Some in Ex as [-> _].
  apply checked_i_Some in Hw1 as [-> _]. apply (IH landing' Hty Hls) in H.
  pose proof (group_lands tol fg fills weakest Ht ltac:(done) Hl Hwk).
  cbn [zip zip_with zsum foldr]. unfold zsum in H. unfold group_wei at 1. cbn [fst snd round_div] in *. lia.
Qed.

(** C21. The floor is the worst landing: however many legs of each group fill, with each within the
    tolerance of its quote and none buying less than it repays, what the plan brings in wei
    after premiums and gas, less the bid's share, is at least the floor, or the floor is one
    wei. *)
Theorem floor_is_worst_landing (groups : list FloorGroup) (landing : list (list Fill)) (bid : Bid) (gas tol f : Z)
    (Htol : 0 <= tol <= 10000) (Hty : Forall floor_typed groups) (Hgas : 0 <= gas) (Hbid : 0 <= bd_coinbase_bps bid)
    (Hl : Forall2 (lands tol) groups landing) (Hf : min_profit_floor groups bid gas tol = Ok f) :
  1 <= f /\
  (f = 1 \/ f <= landing_wei gas (zip groups landing) * (BID_BPS - bd_coinbase_bps bid) / BID_BPS).
Proof.
  unfold min_profit_floor in Hf. bind_inv Hf worst Hw.
  destruct groups as [|g groups']; [done|]. pose proof (worst_spec _ _ _ Htol Hty Hl _ _ Hw) as Hle.
  bind_inv Hf gas' Hg. apply signed_Ok in Hg as ->. bind_inv Hf w Hw'. apply ok_or_Ok, checked_i_Some in Hw' as [-> _].
  destruct (0 <? worst - gas) eqn:E; cbn [negb] in Hf; zbool; [|injection Hf as <-; lia].
  bind_inv Hf keep Hk. apply ok_or_Ok in Hk. bind_inv Hf keep' Hk'. apply ok_or_Ok, try_from_Some in Hk' as [-> Hku].
  injection Hf as <-. split; [lia|]. destruct (decide (keep <= 1)); [left; lia|]. right. rewrite Z.max_l by lia.
  unfold searcher_net in Hk. destruct (BID_BPS <=? bd_coinbase_bps bid) eqn:Eb; [done|]. zbool.
  rewrite checked_sub_ok in Hk by lia.
  destruct (checked_mul 256 (worst - gas) (BID_BPS - bd_coinbase_bps bid)) as [m|] eqn:Em; [|done].
  apply checked_mul_Some in Em as [-> _]. apply checked_div_Some in Hk as [_ ->].
  apply Z.div_le_mono; [done|]. unfold landing_wei. nia.
Qed.

(** *** Where the floor is not one *)

(** A leg by what its exit sells for and what it repays. *)
Definition sample_scored (pos : PositionId) (swap_out s : Z) : Scored :=
  mkScored pos 0 0 0 0 0 0 0
    (mkSized PREFERRED 2 3 s 0 swap_out 0 0 0 0 (mkRoute FMorpho 11 2 s 0 MorphoFlashCallback)
       (mkExit [] 0 0 0 0 None None None) (mkTerms 0 0 0 0) []) None.

Definition thin_groups : list FloorGroup :=
  [ mkFloor [sample_scored 0%nat 1000 990; sample_scored 1%nat 1000 990] WEI_PER_ETH 0;
    mkFloor [sample_scored 2%nat 2000 1000] WEI_PER_ETH 0 ].
Definition thin_landing : list (list Fill) :=
  [ [mkFill (sample_scored 0%nat 1000 990) 980; mkFill (sample_scored 1%nat 1000 990) 980];
    [mkFill (sample_scored 2%nat 2000 1000) 1960] ].

(** Two legs of a group whose margin is under the tolerance cost more together than the weaker
    alone: at two percent, with every leg of the plan filled and each within the tolerance of
    its quote, the plan brings 940 wei and its floor is 950. *)
Theorem floor_above_landing :
  Forall2 (fun g fills => fills <> [] /\ Forall (fun f => fi_leg f ∈ fl_legs g /\
    sl_swap_out (sd_leg (fi_leg f)) * (10000 - 200) <= fi_out f * 10000) fills) thin_groups thin_landing /\
  min_profit_floor thin_groups (mkBid 0 0 0) 0 200 = Ok 950 /\
  landing_wei 0 (zip thin_groups thin_landing) = 940.
Proof.
  split; [|split; vm_compute; reflexivity].
  assert (Hin : forall g f n, fl_legs g !! n = Some (fi_leg f) -> fi_leg f ∈ fl_legs g)
    by (intros g f n Hn; by eapply list_elem_of_lookup_2).
  apply Forall2_cons; split; [split; [done|]|apply Forall2_cons; split; [split; [done|]|apply Forall2_nil; done]].
  - apply Forall_cons; split; [|apply Forall_cons; split; [|apply Forall_nil; done]]; (split; [|cbn; lia]);
      [by apply (Hin _ _ 0%nat)|by apply (Hin _ _ 1%nat)].
  - apply Forall_cons; split; [|apply Forall_nil; done]. split; [|cbn; lia]. by apply (Hin _ _ 0%nat).
Qed.

Definition sample_landing : list (list Fill) := [[mkFill (sample_scored 2%nat 2000 1000) 1960]].
Definition sample_floor : list FloorGroup := [mkFloor [sample_scored 2%nat 2000 1000] WEI_PER_ETH 7].

Lemma floor_is_worst_landing_witness :
  min_profit_floor sample_floor (mkBid 1000 0 0) 3 200 = Ok 855 /\
  855 <= landing_wei 3 (zip sample_floor sample_landing) * (BID_BPS - 1000) / BID_BPS.
Proof.
  assert (E : min_profit_floor sample_floor (mkBid 1000 0 0) 3 200 = Ok 855) by (vm_compute; reflexivity).
  split; [exact E|].
  assert (U : forall x, 0 <= x <= 10 ^ 20 -> u256 x) by (intros x Hx; split; [lia|unfold umax; lia]).
  destruct (floor_is_worst_landing sample_floor sample_landing (mkBid 1000 0 0) 3 200 855) as [_ [H|H]];
    [lia| |lia|cbn; lia| |exact E|discriminate H|exact H].
  - constructor; [|constructor]. unfold floor_typed. cbn [fl_per_eth fl_premium fl_legs]. split; [apply wei_u256|]. split; [done|]. split; [apply U; lia|].
    constructor; [|constructor]. split; apply U; cbn [sample_scored sd_leg sl_swap_out sl_s]; lia.
  - constructor; [|constructor]. split; [discriminate|]. constructor; [|constructor].
    split; [apply list_elem_of_singleton; reflexivity|]. split; cbn; lia.
Defined.

(** ** The shares of a pull *)

Lemma fold_add_None {A} w (f : A -> Z) l :
  fold_left (fun acc a => match acc with Some acc => checked_add w acc (f a) | None => None end) l None = None.
Proof. by induction l. Qed.

Lemma fold_add_Some {A} w (f : A -> Z) l : forall a s,
  fold_left (fun acc a => match acc with Some acc => checked_add w acc (f a) | None => None end) l (Some a) = Some s -> s = a + zsum f l.
Proof.
  induction l as [|x l IH]; intros a s H; cbn [fold_left] in H; [injection H as <-; cbn; lia|].
  destruct (checked_add w a (f x)) as [b|] eqn:E; [|by rewrite fold_add_None in H].
  apply checked_add_Some in E as [-> _]. apply IH in H. cbn [zsum foldr]. unfold zsum in H. lia.
Qed.

Lemma fold_add_fits {A} w (f : A -> Z) l : Forall (fun x => 0 <= f x) l -> forall a, a + zsum f l <= umax w ->
  fold_left (fun acc a => match acc with Some acc => checked_add w acc (f a) | None => None end) l (Some a) = Some (a + zsum f l).
Proof.
  induction 1 as [|x l Hx Hl IH]; intros a Ha; cbn [fold_left]; [cbn in *; f_equal; lia|].
  change (zsum f (x :: l)) with (f x + zsum f l) in *. pose proof (zsum_nonneg f l Hl).
  rewrite checked_add_ok by lia. rewrite IH by lia. f_equal. lia.
Qed.

Lemma sum_opt_Some {A} w (f : A -> Z) l s : sum_opt w f l = Some s -> s = zsum f l.
Proof. intros H%fold_add_Some. lia. Qed.

Lemma mul_div_512_total a b d : u256 a -> u256 b -> 0 < d -> a * b / d <= umax 256 -> mul_div_512 a b d = Ok (a * b / d).
Proof.
  intros [Ha Ha'] [Hb Hb'] Hd Hq. unfold mul_div_512. rewrite (proj2 (Z.eqb_neq d 0)) by lia.
  assert (0 <= a * b) by nia. assert (a * b <= umax 256 * umax 256) by (apply Z.mul_le_mono_nonneg; lia).
  rewrite checked_mul_ok by (unfold umax in *; lia). cbn. unfold checked_div. rewrite (proj2 (Z.eqb_neq d 0)) by lia. cbn.
  unfold u256_from_u512. rewrite try_from_ok; [done|]. split; [by apply Z.div_pos|done].
Qed.

(** What a share is: positive, of a pool of the exit, and at least the pool's part of the pull
    rounded down. *)
Definition fair_share (pull total : Z) (nz : list Allocation) (p : Allocation * Z) : Prop :=
  fst p ∈ nz /\ 0 < snd p /\ al_amount_out (fst p) * pull < (snd p + 1) * total.

Lemma share_loop_cons pull total a b nz assigned :
  share_loop pull total (a :: b :: nz) assigned =
  let? q := ar (mul_div_512 (al_amount_out a) pull total) in
  let? sh := u128_of q in
  let? assigned := ok_or (checked_add 128 assigned sh) AmountTooLarge in
  let? out := share_loop pull total (b :: nz) assigned in
  Ok (if sh =? 0 then out else (a, sh) :: out).
Proof. reflexivity. Qed.

Lemma share_loop_total pull total nz : forall assigned, nz <> [] -> 0 < total -> u256 total -> uint_ok 128 pull ->
  Forall (fun a => 0 <= al_amount_out a) nz -> 0 <= assigned ->
  assigned * total <= pull * (total - zsum al_amount_out nz) -> zsum al_amount_out nz <= total ->
  exists out, share_loop pull total nz assigned = Ok out /\ zsum snd out = pull - assigned /\
    Forall (fair_share pull total nz) out /\ fst <$> out `sublist_of` nz.
Proof.
  induction nz as [|a nz IH]; intros assigned Hne Ht Htu Hp Hout Ha Hinv Hsum; [done|].
  apply Forall_cons in Hout as [Hoa Hout]. pose proof (zsum_nonneg _ _ Hout) as Hrest.
  change (zsum al_amount_out (a :: nz)) with (al_amount_out a + zsum al_amount_out nz) in *. destruct Hp as [Hp0 Hp1].
  assert (Hle : assigned <= pull) by nia.
  destruct nz as [|b nz].
  - cbn [share_loop]. rewrite checked_sub_ok by done. cbn. cbn in Hinv.
    destruct (pull - assigned =? 0) eqn:E; zbool.
    + exists []. split; [done|]. cbn. split; [lia|]. split; [constructor|apply sublist_nil_l].
    + exists [(a, pull - assigned)]. split; [done|]. cbn. split; [lia|]. split; [|done].
      constructor; [|constructor]. split; [apply list_elem_of_here|]. cbn. nia.
  - set (q := al_amount_out a * pull / total). assert (Hq0 : 0 <= q) by (apply Z.div_pos; nia).
    pose proof (div_rem_spec (al_amount_out a * pull) total Ht) as [Hd Hr]. fold q in Hd.
    assert (Hqp : q <= pull) by (apply Z.div_le_upper_bound; nia).
    rewrite share_loop_cons, mul_div_512_total; [|split; [lia|destruct Htu; lia]|split; [lia|unfold umax in *; lia]|done|fold q; unfold umax in *; lia].
    fold q. cbn [ar map_err]. unfold u128_of. rewrite try_from_ok by (split; [lia|lia]). cbn [ok_or].
    assert (Hnext : (assigned + q) * total <= pull * (total - zsum al_amount_out (b :: nz))) by nia.
    assert (assigned + q <= pull) by nia.
    rewrite checked_add_ok by lia. cbn [ok_or].
    destruct (IH (assigned + q) ltac:(done) Ht Htu ltac:(done) Hout ltac:(lia) Hnext ltac:(lia)) as (out & -> & Hs & Hf & Hsub).
    assert (Hf' : Forall (fair_share pull total (a :: b :: nz)) out).
    { eapply Forall_impl; [exact Hf|]. intros p (? & ? & ?). split; [by apply list_elem_of_further|done]. }
    destruct (q =? 0) eqn:E; zbool; eexists; (split; [reflexivity|]).
    + split; [lia|]. split; [done|by apply sublist_cons].
    + split; [change (zsum snd ((a, q) :: out)) with (q + zsum snd out); lia|].
      split; [|by apply sublist_skip]. constructor; [|done]. split; [apply list_elem_of_here|]. cbn. split; [lia|]. nia.
Qed.

(** The pools of an exit that sell something. *)
Definition nonzero_allocs (exit : ExitQuote) : list Allocation :=
  List.filter (fun a => negb (al_amount_in a =? 0) && negb (al_amount_out a =? 0)) (eq_allocs exit).

(** A positive pull is always split: over any exit with a pool that sells something, the shares
    are positive, sum exactly to the pull, follow the pools in their order, and each is at
    least its pool's part of the quote rounded down. *)
Theorem pull_is_split_exactly (exit : ExitQuote) (pull : Z) (Hpull : 0 < pull <= umax 128)
    (Hne : nonzero_allocs exit <> []) (Hty : Forall (fun a => 0 <= al_amount_out a) (eq_allocs exit))
    (Hfit : zsum al_amount_out (nonzero_allocs exit) <= umax 256) :
  exists out, shares_of_pull exit pull = Ok out /\ zsum snd out = pull /\ out <> [] /\
    Forall (fair_share pull (zsum al_amount_out (nonzero_allocs exit)) (nonzero_allocs exit)) out /\
    fst <$> out `sublist_of` nonzero_allocs exit.
Proof.
  unfold shares_of_pull. fold (nonzero_allocs exit).
  assert (Hall : Forall (fun a => 0 < al_amount_out a) (nonzero_allocs exit)).
  { apply Forall_forall. intros a Hin. unfold nonzero_allocs in Hin. apply list_elem_of_In, filter_In in Hin as [Hin Hnz].
    rewrite Forall_forall in Hty. zbool. apply list_elem_of_In, Hty in Hin. lia. }
  assert (Hall0 : Forall (fun a => 0 <= al_amount_out a) (nonzero_allocs exit)) by (eapply Forall_impl; [exact Hall|cbn; lia]).
  assert (Htot : 0 < zsum al_amount_out (nonzero_allocs exit)).
  { destruct Hall as [|a l Ha Hl]; [done|]. change (zsum ?f (?x :: ?l)) with (f x + zsum f l).
    apply Forall_cons in Hall0 as [_ Hl0]. pose proof (zsum_nonneg _ _ Hl0). lia. }
  replace (PoolBook.is_nil (nonzero_allocs exit)) with false by (by destruct (nonzero_allocs exit)).
  unfold sum_opt at 1. rewrite (fold_add_fits 256 al_amount_out) by (done || lia). cbn [ok_or]. rewrite Z.add_0_l.
  rewrite (proj2 (Z.eqb_neq _ 0)) by lia.
  destruct (share_loop_total pull _ (nonzero_allocs exit) 0 Hne Htot) as (out & -> & Hs & Hf & Hsub); try done; try lia.
  { split; lia. } { split; lia. }
  exists out. assert (Ho : out <> []) by (intros ->; cbn in Hs; lia).
  assert (Hpos : Forall (fun p => 0 <= snd p) out) by (eapply Forall_impl; [exact Hf|]; intros p (_ & ? & _); lia).
  unfold sum_opt. rewrite (fold_add_fits 128 snd) by (done || lia). cbn [ok_or]. rewrite Z.add_0_l, Hs, Z.sub_0_r, Z.eqb_refl.
  replace (PoolBook.is_nil out) with false by (by destruct out). cbn. done.
Qed.

(** ** The legs that buy a pull *)

Section Repay.
Context `{TickMath} `{PoolBook.OtherMath} {G : Type} `{ChainSearch G}.
Implicit Types book : PoolBook.Book G.

(** The chains of an exit. *)
Definition chains_of (exit : ExitQuote) : list ChainUse :=
  match eq_chain exit with Some c => c :: cu_with c | None => [] end.

(** A leg buys its part of the pull: exactly, or by selling what buys it at the rate the exit
    was quoted (a pool) or on a book (a chain), raised by the overshoot. *)
Inductive buys (exit : ExitQuote) (ov : Z) (l : SwapLeg) (part : Z) : Prop :=
| buys_exactly : Plan.s_flags l = LEG_EXACT_OUT -> Plan.s_amount l = part -> buys exit ov l part
| buys_at_quote a : a ∈ nonzero_allocs exit -> Plan.s_flags l = 0 ->
    al_amount_in a * part * (10000 + ov) <= Plan.s_amount l * al_amount_out a * 10000 -> buys exit ov l part
| buys_along ch book need : ch ∈ chains_of exit -> Plan.s_flags l = 0 -> path_in_for book (cu_hops ch) part = Some need ->
    need * (10000 + ov) <= Plan.s_amount l * 10000 -> buys exit ov l part.

Lemma overshoot_Ok base ov x : 0 <= base -> u256 base -> uint_ok 16 ov -> overshoot base ov = Ok x -> base * (10000 + ov) <= x * 10000.
Proof.
  intros Hb Hu [Ho Ho'] Hx. unfold overshoot in Hx. bind_inv Hx w Hw. apply map_err_Ok in Hw.
  assert (Hs : saturating_add 32 10000 ov = 10000 + ov) by (unfold saturating_add, umax in *; lia). rewrite Hs in Hw.
  apply mul_div_Ok in Hw as (_ & -> & _); [|done|split; unfold umax in *; lia|split; unfold umax; lia].
  unfold u128_of in Hx. apply ok_or_Ok, try_from_Some in Hx as [-> _]. cbn [round_div].
  pose proof (div_up_spec (base * (10000 + ov)) 10000 eq_refl). lia.
Qed.

Lemma curve_exact_in_Ok a share ov x : u256 (al_amount_in a) -> u256 (al_amount_out a) -> uint_ok 128 share -> uint_ok 16 ov ->
  curve_exact_in a share ov = Ok x -> al_amount_in a * share * (10000 + ov) <= x * al_amount_out a * 10000.
Proof.
  intros Hi Ho [Hs Hs'] Hov Hx. unfold curve_exact_in in Hx. destruct (al_amount_out a =? 0) eqn:E; [done|]. zbool.
  bind_inv Hx base Hb. apply map_err_Ok in Hb.
  assert (Hsu : u256 share) by (split; [done|unfold umax in *; lia]).
  pose proof (mul_div_ok_u256 _ _ _ _ _ Hi Hsu Ho Hb) as Hbu. apply mul_div_Ok in Hb as (_ & Hb & _); [|done..].
  assert (Hpos : 0 < al_amount_out a) by (destruct Ho; lia). cbn [round_div] in Hb.
  pose proof (div_up_spec (al_amount_in a * share) (al_amount_out a) Hpos) as [Hle _]. rewrite <- Hb in Hle.
  apply overshoot_Ok in Hx; [|by destruct Hbu|done|done]. destruct Hov.
  assert (al_amount_in a * share * (10000 + ov) <= al_amount_out a * base * (10000 + ov)) by (apply Z.mul_le_mono_nonneg_r; lia). nia.
Qed.

(** The amounts of the exit are of their types. *)
Definition exit_typed (exit : ExitQuote) : Prop :=
  Forall (fun a => u256 (al_amount_in a) /\ u256 (al_amount_out a)) (eq_allocs exit).

Lemma share_loop_in pull total nz : forall assigned out, 0 <= assigned -> pull <= umax 128 -> share_loop pull total nz assigned = Ok out ->
  Forall (fun p => fst p ∈ nz /\ uint_ok 128 (snd p)) out.
Proof.
  induction nz as [|a nz IH]; intros assigned out Ha Hp Ho; [injection Ho as <-; constructor|].
  destruct nz as [|b nz].
  - cbn in Ho. bind_inv Ho share Hs. apply ok_or_Ok, checked_sub_Some in Hs as [-> Hle]. injection Ho as <-.
    destruct (_ =? 0); [constructor|]. constructor; [|constructor]. split; [apply list_elem_of_here|]. cbn. split; lia.
  - rewrite share_loop_cons in Ho. bind_inv Ho q Hq. bind_inv Ho sh Hsh. apply ok_or_Ok, try_from_Some in Hsh as [-> Hu].
    bind_inv Ho as' Has. apply ok_or_Ok, checked_add_Some in Has as [-> _]. bind_inv Ho rest Hrest. injection Ho as <-.
    apply IH in Hrest; [|destruct Hu; lia|done].
    assert (Hr : Forall (fun p => fst p ∈ a :: b :: nz /\ uint_ok 128 (snd p)) rest).
    { eapply Forall_impl; [exact Hrest|]. intros p [? ?]. split; [by apply list_elem_of_further|done]. }
    destruct (q =? 0); [done|]. constructor; [|done]. split; [apply list_elem_of_here|done].
Qed.

Lemma share_legs_buy book exit tin debt ov shares : exit_typed exit -> uint_ok 16 ov ->
  Forall (fun p => fst p ∈ nonzero_allocs exit /\ uint_ok 128 (snd p)) shares -> forall legs,
  share_legs book tin debt ov shares = Ok legs ->
  Forall2 (buys exit ov) legs (snd <$> shares) /\ Forall (fun l => Plan.s_token_in l = tin /\ Plan.s_token_out l = debt) legs.
Proof.
  intros Hty Hov Hsh. induction Hsh as [|[a amount] shares [Hin Hu] Hsh IH]; intros legs Hl; cbn [share_legs] in Hl.
  { injection Hl as <-. split; constructor. }
  bind_inv Hl vd Hvd. destruct vd as [venue data]. bind_inv Hl fa Hfa. destruct fa as [flags x]. bind_inv Hl rest Hrest.
  injection Hl as <-. destruct (IH rest Hrest) as [Hb Htok]. cbn in Hin, Hu. split; [|by constructor]. cbn. constructor; [|done].
  destruct (exact_in_venue venue).
  - bind_inv Hfa y Hy. injection Hfa as <- <-. apply (buys_at_quote _ _ _ _ a Hin); [done|]. cbn.
    assert (Hal : u256 (al_amount_in a) /\ u256 (al_amount_out a)).
    { unfold nonzero_allocs in Hin. apply list_elem_of_In, filter_In in Hin as [Hin _].
      unfold exit_typed in Hty. rewrite Forall_forall in Hty. by apply Hty, list_elem_of_In. }
    destruct Hal. by apply curve_exact_in_Ok in Hy.
  - injection Hfa as <- <-. by apply buys_exactly.
Qed.

(** A quantity found along a path is one of the type. *)
Lemma double_loop_u256 book hops want fuel : forall hi answered r, u256 hi -> double_loop fuel book hops want hi answered = Some r -> u256 r.
Proof.
  induction fuel as [|fuel IH]; intros hi answered r Hu H'; cbn in H'; [done|].
  assert (Hdbl : forall h, checked_mul 256 hi 2 = Some h -> u256 h) by (intros h [-> ?]%checked_mul_Some; destruct Hu; split; lia).
  destruct (path_out book hops hi) as [o|].
  - destruct (want <=? o); [by injection H' as <-|]. destruct (checked_mul 256 hi 2) as [h|]; [|done]. by apply IH in H'; auto.
  - destruct answered; [done|]. destruct (checked_mul 256 hi 2) as [h|]; [|done]. by apply IH in H'; auto.
Qed.

Lemma halve_loop_range book hops want fuel : forall lo hi, 0 <= lo -> lo <= hi <= umax 256 ->
  lo <= halve_loop fuel book hops want lo hi <= hi.
Proof.
  induction fuel as [|fuel IH]; intros lo hi Hlo Hhi; cbn [halve_loop];
    (destruct (1 <? saturating_sub hi lo) eqn:E; zbool; [|lia]); [lia|].
  assert (Hsub : saturating_sub hi lo = hi - lo) by (unfold saturating_sub; lia). rewrite Hsub in *.
  pose proof (div_rem_spec (hi - lo) 2 eq_refl).
  assert (Hmid : saturating_add 256 lo ((hi - lo) / 2) = lo + (hi - lo) / 2) by (unfold saturating_add; lia). rewrite Hmid.
  destruct (delivers _ _ _ _); [specialize (IH lo (lo + (hi - lo) / 2))|specialize (IH (lo + (hi - lo) / 2) hi)]; lia.
Qed.

Lemma path_in_for_u256 book hops want x : path_in_for book hops want = Some x -> u256 x.
Proof.
  unfold path_in_for. intros H'. destruct (want =? 0); [injection H' as <-; split; [done|unfold umax; lia]|].
  destruct (double_loop _ _ _ _ _ _) as [hi|] eqn:E; [|done]. apply (inj Some) in H' as <-.
  apply double_loop_u256 in E as [? ?]; [|split; unfold umax; lia].
  pose proof (halve_loop_range book hops want 256 0 hi). split; lia.
Qed.

Lemma chain_loop_buys book exit direct total n tin debt ov : uint_ok 16 ov -> forall chains k pull work legs pull',
  chains ⊆ chains_of exit -> 0 <= pull -> chain_loop book exit direct total n tin debt ov k chains pull work = Ok (legs, pull') ->
  exists parts, Forall2 (buys exit ov) legs parts /\ zsum id parts + pull' = pull /\ 0 <= pull' /\ Forall (Z.lt 0) parts /\
    Forall (fun l => Plan.s_token_in l = tin /\ Plan.s_token_out l = debt) legs.
Proof.
  intros Hov. induction chains as [|ch chains IH]; intros k pull work legs pull' Hsub Hp H'; cbn [chain_loop] in H'.
  { injection H' as <- <-. exists []. split_and!; try constructor; cbn; lia. }
  bind_inv H' part Hpart. bind_inv H' lw Hlw. destruct lw as [leg work']. bind_inv H' p2 Hp2. bind_inv H' rest Hrest.
  destruct rest as [legs2 p3]. injection H' as <- <-. apply ok_or_Ok, checked_sub_Some in Hp2 as [-> Hle].
  assert (Hpart0 : 0 <= part).
  { unfold chain_part in Hpart. destruct (_ && _); [injection Hpart as <-; lia|]. destruct (_ =? 0); [injection Hpart as <-; lia|].
    bind_inv Hpart q Hq. bind_inv Hpart q' Hq'. apply ok_or_Ok, try_from_Some in Hq' as [-> [? _]]. injection Hpart as <-. lia. }
  assert (Hsub' : chains ⊆ chains_of exit) by set_solver. assert (Hge : 0 <= pull - part) by lia.
  destruct (IH _ _ _ _ _ Hsub' Hge Hrest) as (parts & Hb & Hs & Hp3 & Hpos & Htok).
  destruct (part =? 0) eqn:E; zbool.
  { injection Hlw as <- <-. exists parts. split_and!; try done. lia. }
  bind_inv Hlw r Hr. destruct r as [l w]. injection Hlw as <- <-. exists (part :: parts).
  assert (Hl : buys exit ov l part /\ Plan.s_token_in l = tin /\ Plan.s_token_out l = debt).
  { unfold chain_leg in Hr. destruct (cu_exact_out ch).
    - injection Hr as <- _. split; [|done]. by apply buys_exactly.
    - bind_inv Hr need Hneed. apply ok_or_Ok in Hneed. bind_inv Hr amount Ham. injection Hr as <- _. split; [|done].
      pose proof (path_in_for_u256 _ _ _ _ Hneed) as Hu.
      apply overshoot_Ok in Ham; [|by destruct Hu|done|done]. eapply buys_along; [|done|exact Hneed|exact Ham]. set_solver. }
  destruct Hl as [Hbl Htl]. cbn. split_and!; [by constructor|unfold zsum, id in *; lia|done|constructor; [lia|done]|by constructor].
Qed.

(** C13. The repay legs buy the pull: each leg of an exit has a part that is not negative, the
    parts sum to the pull exactly, and a leg either buys its part exactly or, where the venue
    has no exact output, sells at least what buys it at the quoted rate (for a chain, along its
    hops on some book), raised by the overshoot; all sell
    what the leg sells for the debt. *)
Theorem repay_legs_buy_the_pull (exit : ExitQuote) book (pull : Z) (tin debt : Address) (ov : Z) (legs : list SwapLeg)
    (Hty : exit_typed exit) (Hov : uint_ok 16 ov) (Hpull : uint_ok 128 pull)
    (Hl : repay_legs exit book pull tin debt ov = Ok legs) :
  exists parts, Forall2 (buys exit ov) legs parts /\ zsum id parts = pull /\ Forall (Z.le 0) parts /\
    Forall (fun l => Plan.s_token_in l = tin /\ Plan.s_token_out l = debt) legs.
Proof.
  destruct Hpull as [Hp0 Hp1].
  assert (Hshares : forall p l, 0 <= p <= pull ->
    (let? shares := shares_of_pull exit p in share_legs book tin debt ov shares) = Ok l ->
    exists parts, Forall2 (buys exit ov) l parts /\ zsum id parts = p /\ Forall (Z.le 0) parts /\
      Forall (fun l => Plan.s_token_in l = tin /\ Plan.s_token_out l = debt) l).
  { intros p l Hp H'. bind_inv H' shares Hs. unfold shares_of_pull in Hs. fold (nonzero_allocs exit) in Hs.
    destruct (PoolBook.is_nil _); [done|]. bind_inv Hs total Ht. destruct (total =? 0); [done|]. bind_inv Hs out Hout.
    bind_inv Hs sum Hsum. apply ok_or_Ok, sum_opt_Some in Hsum. destruct (_ || _) eqn:E; [done|]. injection Hs as <-.
    apply orb_false_iff in E as [E%negb_false_iff%Z.eqb_eq _].
    apply share_loop_in in Hout; [|lia|lia]. destruct (share_legs_buy _ _ _ _ _ _ Hty Hov Hout _ H') as [Hb Htok].
    exists (snd <$> out). split_and!; [done| | |done].
    - rewrite <- E, Hsum. clear. induction out as [|x out IH]; [done|]. cbn. unfold zsum, id in *. by rewrite IH.
    - apply Forall_fmap. eapply Forall_impl; [exact Hout|]. intros x [_ [? _]]. done. }
  unfold repay_legs in Hl. destruct (eq_chain exit) as [c|] eqn:Ec.
  2: { cbn in Hl. apply (Hshares pull legs); [lia|done]. }
  bind_inv Hl cl Hcl. destruct cl as [chain_legs p'].
  destruct (chain_loop_buys book exit _ _ _ tin debt ov Hov (c :: cu_with c) 0 pull _ chain_legs p'
    ltac:(unfold chains_of; rewrite Ec; done) Hp0 Hcl) as (parts & Hb & Hs & Hp' & Hpos & Htok).
  assert (Hpos' : Forall (Z.le 0) parts) by (eapply Forall_impl; [exact Hpos|]; intros; lia).
  pose proof (zsum_nonneg id parts Hpos') as Hnn.
  destruct (p' =? 0) eqn:E; zbool.
  { destruct (PoolBook.is_nil chain_legs); [done|]. injection Hl as <-. exists parts. split_and!; try done. lia. }
  bind_inv Hl shares Hsh. bind_inv Hl repay Hr. injection Hl as <-.
  destruct (Hshares p' repay ltac:(lia)) as (parts' & Hb' & Hs' & Hn' & Ht'); [by rewrite Hsh|].
  exists (parts' ++ parts). split_and!; [by apply Forall2_app|rewrite zsum_app; lia|by apply Forall_app|by apply Forall_app].
Qed.
End Repay.

(** ** The input along a path *)

Section Paths.
Context `{TickMath} `{PoolBook.OtherMath} {G : Type} (book : PoolBook.Book G) (hops : list Leg).

Lemma path_out_zero : path_out book hops 0 = None \/ path_out book hops 0 = Some 0.
Proof.
  induction hops as [|l hs IH]; cbn; [by right|]. destruct (PoolBook.get book (leg_pool l)) as [p|]; [|by left].
  exact IH.
Qed.

Lemma halve_loop_tight want fuel : forall lo hi, 0 <= lo < hi -> hi <= umax 256 -> hi - lo <= 2 ^ Z.of_nat fuel ->
  delivers book hops want lo = false -> delivers book hops want hi = true ->
  let r := halve_loop fuel book hops want lo hi in
  lo < r <= hi /\ delivers book hops want r = true /\ delivers book hops want (r - 1) = false.
Proof.
  induction fuel as [|fuel IH]; intros lo hi Hlo Hu Hw Hl Hh; cbn [halve_loop];
    assert (Hsub : saturating_sub hi lo = hi - lo) by (unfold saturating_sub; lia); rewrite Hsub.
  - change (2 ^ Z.of_nat 0) with 1 in Hw. assert (hi = lo + 1) as -> by lia. rewrite (proj2 (Z.ltb_ge 1 (lo + 1 - lo))) by lia.
    cbn. replace (lo + 1 - 1) with lo by lia. split_and!; [lia|lia|done|done].
  - destruct (1 <? hi - lo) eqn:E; zbool.
    2: { cbn. assert (hi = lo + 1) as -> by lia. replace (lo + 1 - 1) with lo by lia. split_and!; [lia|lia|done|done]. }
    pose proof (div_rem_spec (hi - lo) 2 eq_refl) as [Hd Hr].
    assert (Hmid : saturating_add 256 lo ((hi - lo) / 2) = lo + (hi - lo) / 2) by (unfold saturating_add; lia). rewrite Hmid.
    rewrite Nat2Z.inj_succ, Z.pow_succ_r in Hw by lia.
    destruct (delivers book hops want (lo + (hi - lo) / 2)) eqn:Em.
    + destruct (IH lo (lo + (hi - lo) / 2)) as ([? ?] & ? & ?); try done; try lia. cbn. split_and!; [lia|lia|done|done].
    + destruct (IH (lo + (hi - lo) / 2) hi) as ([? ?] & ? & ?); try done; try lia. cbn. split_and!; [lia|lia|done|done].
Qed.

Lemma double_loop_delivers want fuel : forall hi answered r,
  double_loop fuel book hops want hi answered = Some r -> delivers book hops want r = true.
Proof.
  induction fuel as [|fuel IH]; intros hi answered r Hr; cbn [double_loop] in Hr; [done|].
  destruct (path_out book hops hi) as [o|] eqn:Eo.
  - destruct (want <=? o) eqn:Ew.
    + injection Hr as <-. unfold delivers. by rewrite Eo.
    + destruct (checked_mul 256 hi 2); [|done]. by eapply IH.
  - destruct answered; [done|]. destruct (checked_mul 256 hi 2); [|done]. by eapply IH.
Qed.

Lemma double_loop_answers want k : forall fuel j answered, 0 <= j <= k -> k < 256 -> k - j < Z.of_nat fuel ->
  delivers book hops want (2 ^ k) = true -> (forall i, 0 <= i < k -> path_out book hops (2 ^ i) <> None) ->
  exists r, double_loop fuel book hops want (2 ^ j) answered = Some r /\ 1 <= r <= 2 ^ k.
Proof.
  induction fuel as [|fuel IH]; intros j answered Hj Hk Hf Hd Hp; [lia|]. cbn [double_loop].
  pose proof (Z.pow_pos_nonneg 2 j ltac:(lia) ltac:(lia)). pose proof (Z.pow_le_mono_r 2 j k ltac:(lia) ltac:(lia)).
  destruct (path_out book hops (2 ^ j)) as [o|] eqn:Eo.
  - destruct (want <=? o) eqn:Ew; [eexists; split; [reflexivity|lia]|].
    destruct (decide (j = k)) as [->|Hne]; [unfold delivers in Hd; rewrite Eo, Ew in Hd; done|].
    rewrite checked_mul_ok; [cbn [fst]|rewrite Z.mul_comm, <- Z.pow_succ_r by lia; unfold umax;
      pose proof (Z.pow_lt_mono_r 2 (Z.succ j) 256); lia].
    rewrite Z.mul_comm, <- Z.pow_succ_r by lia. apply IH; try done; lia.
  - destruct (decide (j = k)) as [->|Hne]; [unfold delivers in Hd; by rewrite Eo in Hd|]. destruct (Hp j); [lia|done].
Qed.

(** The input [path_in_for] answers buys the output wanted and one unit less does not; where
    more input never delivers less it is the least. It answers whenever some power of two
    delivers and every smaller one is quoted. *)
Theorem path_input_is_least (want : Z) (Hw : 0 < want) :
  (forall x, path_in_for book hops want = Some x ->
     0 < x <= umax 256 /\ delivers book hops want x = true /\ delivers book hops want (x - 1) = false /\
     ((forall y z, 0 <= y <= z -> delivers book hops want y = true -> delivers book hops want z = true) ->
      forall y, 0 <= y < x -> delivers book hops want y = false)) /\
  (forall k, 0 <= k < 256 -> delivers book hops want (2 ^ k) = true ->
     (forall i, 0 <= i < k -> path_out book hops (2 ^ i) <> None) -> exists x, path_in_for book hops want = Some x /\ x <= 2 ^ k).
Proof.
  unfold path_in_for. rewrite (proj2 (Z.eqb_neq want 0)) by lia.
  assert (H0' : delivers book hops want 0 = false).
  { unfold delivers. destruct path_out_zero as [-> | ->]; [done|]. apply Z.leb_gt. lia. }
  assert (Htight : forall hi, u256 hi -> delivers book hops want hi = true ->
    let r := halve_loop 256 book hops want 0 hi in
    0 < r <= hi /\ delivers book hops want r = true /\ delivers book hops want (r - 1) = false).
  { intros hi [Hh0 Hh1] Hd. apply halve_loop_tight; try done.
    - split; [lia|]. destruct (decide (hi = 0)) as [->|]; [congruence|lia].
    - change (2 ^ Z.of_nat 256) with (umax 256 + 1). lia. }
  split.
  - intros x Hx. destruct (double_loop _ _ _ _ _ _) as [hi|] eqn:E; [|done]. apply (inj Some) in Hx as <-.
    pose proof (double_loop_delivers _ _ _ _ _ E) as Hd.
    assert (Hu : u256 hi) by (eapply double_loop_u256; [|exact E]; split; unfold umax; lia).
    destruct (Htight hi Hu Hd) as ([? ?] & Hr & Hr1). split; [destruct Hu; lia|]. split; [exact Hr|]. split; [exact Hr1|].
    intros Hmono y Hy. destruct (delivers book hops want y) eqn:Ey; [|done].
    rewrite (Hmono y (halve_loop 256 book hops want 0 hi - 1)) in Hr1; [done|lia|done].
  - intros k Hk Hd Hp.
    destruct (double_loop_answers want k 257 0 false ltac:(lia) ltac:(lia) ltac:(lia) Hd Hp) as (hi & E & Hhi).
    change (2 ^ 0) with 1 in E. rewrite E. eexists. split; [reflexivity|].
    assert (Hu : u256 hi) by (eapply double_loop_u256; [|exact E]; split; unfold umax; lia).
    destruct (Htight hi Hu (double_loop_delivers _ _ _ _ _ E)) as ([? ?] & _). lia.
Qed.
End Paths.

(** ** The plan *)

Section PlanSound.
Context `{TickMath} `{PoolBook.OtherMath} {G : Type} `{ChainSearch G} `{AssembleView}.
Context (cfg : SelectCfg) (book : PoolBook.Book G) (weth : Address) (flash : FlashIndex) (haircut : Haircut).

(** A source of a debt group with the legs it was given. *)
Record Funding := mkFunding { fu_group : DebtGroup; fu_source : FlashRoute; fu_members : list Scored }.

(** The wire leg of a scored one. *)
Definition liq_of (reward_only : bool) (s : Scored) (l : Plan.LiqLeg) : Prop :=
  exists meta, av_meta (sd_position s) = Some meta /\
    Plan.l_adapter l = me_adapter meta /\ Plan.l_market l = me_market meta /\ Plan.l_borrower l = me_borrower meta /\
    Plan.l_tail l = me_tail meta /\ av_token (sl_coll (sd_leg s)) = Some (Plan.l_collateral_asset l) /\
    Plan.l_repay_amount l = sl_s (sd_leg s) /\
    Plan.l_protocol_pull l = default (sl_s (sd_leg s)) (me_protocol_pull meta) /\
    (if reward_only then Plan.l_protocol_pull l = 0 else Plan.l_protocol_pull l <> 0 \/ me_adapter meta = XLiquityV2).

(** A wire group borrows from its source what its legs pull, with the over-borrow at most on
    top, never past what the source was planned to lend. *)
Definition borrows (fu : Funding) (g : FlashGroup) : Prop :=
  let pulls := zsum Plan.l_protocol_pull (Plan.fg_liqs g) in
  Plan.fg_provider g = fr_provider (fu_source fu) /\ Plan.fg_flash_source g = fr_source (fu_source fu) /\
  Plan.fg_fee_bps g = fr_fee_bps (fu_source fu) /\ av_token (dg_debt (fu_group fu)) = Some (Plan.fg_debt_asset g) /\
  pulls <= Plan.fg_flash_amount g <= fr_amount (fu_source fu) /\
  Plan.fg_flash_amount g <= pulls + cf_over_borrow cfg /\
  (fr_provider (fu_source fu) = FUniV3Swap -> Plan.fg_flash_amount g = pulls).

(** The legs fit the source and a tie can name each; the fallbacks are other sources of the
    debt that lend as much. *)
Definition funds (fu : Funding) (g : FlashGroup) : Prop :=
  fu_source fu ∈ ca_groups (dg_cascade (fu_group fu)) /\ fu_members fu <> [] /\
  (length (fu_members fu) <= LEG_TIE_MAX)%nat /\
  zsum (fun s => sl_s (sd_leg s)) (fu_members fu) <= fr_amount (fu_source fu) /\
  Forall2 (liq_of (dg_reward_only (fu_group fu))) (fu_members fu) (Plan.fg_liqs g) /\ borrows fu g.

Definition falls_back (fu : Funding) (chain : list FlashRoute) : Prop :=
  Forall (fun r => r ∈ fallback_chain flash (dg_debt (fu_group fu)) (fr_amount (fu_source fu)) haircut (cf_cost cfg) /\
    (fr_provider r, fr_source r) <> (fr_provider (fu_source fu), fr_source (fu_source fu))) chain /\
  (dg_reward_only (fu_group fu) = true \/ fr_provider (fu_source fu) = FUniV3Swap -> chain = []).

(** The floor is computed over the same legs, at the debt's price and the source's premium. *)
Definition floored (fu : Funding) (g : FlashGroup) (fl : FloorGroup) : Prop :=
  fl_legs fl = fu_members fu /\ group_per_eth (fu_group fu) = Ok (fl_per_eth fl) /\
  fee_amount (Plan.fg_provider g) (Plan.fg_flash_amount g) (Plan.fg_fee_bps g) = Some (fl_premium fl).

(** What the loops have built is what these fundings say. *)
Definition built (fus : list Funding) (acc : Acc) : Prop :=
  Forall2 funds fus (ac_groups acc) /\ Forall2 falls_back fus (ac_fallbacks acc) /\
  ac_fees acc = Plan.fg_fee_bps <$> ac_groups acc /\
  Forall2 (fun p fl => floored (fst p) (snd p) fl) (zip fus (ac_groups acc)) (ac_floor acc).

(** The legs of a group not taken yet. *)
Fixpoint untaken (legs : list Scored) (assigned : list bool) : list Scored :=
  match legs, assigned with
  | s :: legs, a :: assigned => if a : bool then untaken legs assigned else s :: untaken legs assigned
  | _, _ => []
  end.

Lemma pick_spec legs : forall n capacity assigned assigned' members,
  pick n capacity legs assigned = (assigned', members) ->
  untaken legs assigned ≡ₚ members ++ untaken legs assigned' /\
  (members <> [] -> zsum (fun s => sl_s (sd_leg s)) members <= capacity) /\ (members = [] \/ (n + length members <= LEG_TIE_MAX)%nat).
Proof.
  induction legs as [|s legs IH]; intros n capacity [|a assigned] assigned' members Hp; cbn [pick] in Hp;
    try (injection Hp as <- <-; by split_and!; [..|left]).
  destruct (LEG_TIE_MAX <=? n)%nat eqn:En; [injection Hp as <- <-; by split_and!; [..|left]|]. apply Nat.leb_gt in En.
  destruct (a || (capacity <? sl_s (sd_leg s))) eqn:Ea.
  - destruct (pick n capacity legs assigned) as [as' m] eqn:E. injection Hp as <- <-.
    destruct (IH _ _ _ _ _ E) as (Hpm & Hc & Hn). split_and!; [|done|done]. cbn. destruct a; [done|].
    rewrite Hpm. by rewrite Permutation_middle.
  - apply orb_false_iff in Ea as [-> Ec]. zbool.
    destruct (pick (S n) _ legs assigned) as [as' m] eqn:E. injection Hp as <- <-.
    destruct (IH _ _ _ _ _ E) as (Hpm & Hc & Hn). split_and!.
    + cbn. by rewrite Hpm.
    + intros _. change (zsum ?f (?x :: ?l)) with (f x + zsum f l). destruct m as [|s' m]; [cbn; lia|].
      specialize (Hc ltac:(done)). unfold saturating_sub in Hc. lia.
    + right. cbn. destruct Hn as [-> | Hn]; cbn in *; lia.
Qed.

Lemma required_Ok o w x : required o w = Ok x -> o = Some x /\ x <> 0.
Proof. destruct o as [v|]; cbn; [|done]. destruct (v =? 0) eqn:E; [done|]. intros [= <-]. zbool. done. Qed.

Lemma liq_leg_spec reward_only s l : liq_leg reward_only s = Ok l -> liq_of reward_only s l.
Proof.
  intros Hl. unfold liq_leg in Hl. bind_inv Hl meta Hm. apply ok_or_Ok in Hm. bind_inv Hl c Hc. apply required_Ok in Hc as [Hc _].
  bind_inv Hl r Hr. apply ok_or_Ok, try_from_Some in Hr as [-> _]. exists meta. split; [done|]. cbv zeta in Hl.
  set (pull := default _ _) in *. destruct ((pull =? 0) && _ && _) eqn:E1; [done|]. destruct (reward_only && _) eqn:E2; [done|].
  injection Hl as <-. cbn. split_and!; try done.
  destruct reward_only; cbn in *.
  - by apply negb_false_iff, Z.eqb_eq in E2.
  - rewrite andb_true_r in E1. apply andb_false_iff in E1 as [E1%Z.eqb_neq|E1%negb_false_iff%bool_decide_eq_true]; auto.
Qed.

Lemma liq_legs_spec reward_only members : forall ls, liq_legs reward_only members = Ok ls -> Forall2 (liq_of reward_only) members ls.
Proof.
  induction members as [|s members IH]; intros ls Hl; cbn in Hl; [injection Hl as <-; constructor|].
  bind_inv Hl l Hl'. bind_inv Hl rest Hr. injection Hl as <-. constructor; [by apply liq_leg_spec|by apply IH].
Qed.

Lemma fallbacks_spec g cg : falls_back (mkFunding g cg []) (fallbacks_of cfg flash haircut g cg).
Proof.
  unfold falls_back, fallbacks_of. cbn [fu_group fu_source].
  destruct (dg_reward_only g) eqn:Er; cbn [orb]; [split; [constructor|done]|].
  destruct (bool_decide (fr_provider cg = FUniV3Swap)) eqn:Ep; [split; [constructor|done]|].
  apply bool_decide_eq_false in Ep. split; [|intros [?|?]; done]. apply Forall_forall. intros r Hr.
  apply list_elem_of_In, filter_In in Hr as [Hr Hne]. split; [by apply list_elem_of_In|]. intros [= E1 E2].
  rewrite E1, E2, Z.eqb_refl, bool_decide_true in Hne by done. done.
Qed.

Lemma fund_group_spec g debt_addr per_eth cg members acc acc' fus :
  token (dg_debt g) = Ok debt_addr -> group_per_eth g = Ok per_eth ->
  cg ∈ ca_groups (dg_cascade g) -> members <> [] -> (length members <= LEG_TIE_MAX)%nat ->
  zsum (fun s => sl_s (sd_leg s)) members <= fr_amount cg -> 0 <= cf_over_borrow cfg ->
  fund_group cfg book weth flash haircut g debt_addr per_eth cg members acc = Ok acc' ->
  built fus acc -> built (fus ++ [mkFunding g cg members]) acc'.
Proof.
  intros Htok Hper Hcg Hne Hlen Hsum Hob Hf (Hg & Hfb & Hfee & Hfl). apply required_Ok in Htok as [Htok _].
  unfold fund_group in Hf. bind_inv Hf liqs Hliqs. bind_inv Hf pulls Hpulls. unfold sum_pulls in Hpulls. apply ok_or_Ok, sum_opt_Some in Hpulls.
  bind_inv Hf take Htake. apply ok_or_Ok, try_from_Some in Htake as [-> Htake]. bind_inv Hf spare Hsp.
  apply ok_or_Ok, checked_sub_Some in Hsp as [-> Hsp]. bind_inv Hf extra Hex. apply ok_or_Ok, try_from_Some in Hex as [-> _].
  bind_inv Hf amt Hamt. apply ok_or_Ok, checked_add_Some in Hamt as [-> _]. bind_inv Hf premium Hpr. bind_inv Hf sw Hsw.
  destruct sw as [repay profit]. injection Hf as <-. unfold built. cbn [ac_groups ac_floor ac_fallbacks ac_fees].
  pose proof (Forall2_length _ _ _ Hg) as Hl1.
  rewrite zip_with_app by done. rewrite fmap_app. cbn [fmap list_fmap zip zip_with]. split_and!.
  - apply Forall2_app; [done|]. constructor; [|constructor]. unfold funds, borrows.
    cbn [fu_group fu_source fu_members Plan.fg_provider Plan.fg_flash_source Plan.fg_debt_asset Plan.fg_flash_amount Plan.fg_fee_bps Plan.fg_liqs].
    rewrite <- Hpulls.
    split_and!; try done; try (destruct (bool_decide _); lia); [by apply liq_legs_spec|].
    intros E. rewrite bool_decide_true by done. lia.
  - apply Forall2_app; [done|]. constructor; [|constructor]. apply fallbacks_spec.
  - by rewrite Hfee.
  - apply Forall2_app; [done|]. constructor; [|constructor]. unfold floored. cbn. split_and!; try done.
    unfold flash_premium in Hpr. bind_inv Hpr fee Hfee'. apply ok_or_Ok in Hfee'. apply ok_or_Ok, try_from_Some in Hpr as [-> _]. done.
Qed.

Lemma sources_loop_spec g debt_addr per_eth sources : token (dg_debt g) = Ok debt_addr -> group_per_eth g = Ok per_eth ->
  0 <= cf_over_borrow cfg -> sources ⊆ ca_groups (dg_cascade g) -> forall assigned acc acc' fus,
  sources_loop cfg book weth flash haircut g debt_addr per_eth sources assigned acc = Ok acc' -> built fus acc ->
  exists more, built (fus ++ more) acc' /\ Forall (fun fu => fu_group fu = g) more /\
    flat_map fu_members more ⊆+ untaken (dg_legs g) assigned.
Proof.
  intros Htok Hper Hob. induction sources as [|cg sources IH]; intros Hsub assigned acc acc' fus Hs Hb; cbn [sources_loop] in Hs.
  { injection Hs as <-. exists []. rewrite app_nil_r. split_and!; [done|constructor|apply submseteq_nil_l]. }
  destruct (pick 0 (fr_amount cg) (dg_legs g) assigned) as [assigned' members] eqn:Ep.
  destruct (pick_spec _ _ _ _ _ _ Ep) as (Hperm & Hsum & Hlen). assert (Hsub' : sources ⊆ ca_groups (dg_cascade g)) by set_solver.
  destruct members as [|s members].
  { destruct (IH Hsub' _ _ _ _ Hs Hb) as (more & ? & ? & Hm). exists more. split_and!; [done|done|]. by rewrite Hperm. }
  bind_inv Hs acc1 Hf. destruct Hlen as [?|Hlen]; [done|].
  pose proof (fund_group_spec g debt_addr per_eth cg (s :: members) acc acc1 fus Htok Hper ltac:(set_solver) ltac:(done) Hlen
    (Hsum ltac:(done)) Hob Hf Hb) as Hb1.
  destruct (IH Hsub' _ _ _ _ Hs Hb1) as (more & Hb2 & Hg & Hm). exists (mkFunding g cg (s :: members) :: more).
  rewrite <- app_assoc in Hb2. split_and!; [done|by constructor|]. rewrite Hperm. cbn [flat_map fu_members].
  by apply submseteq_app.
Qed.

Lemma untaken_all legs : untaken legs (replicate (length legs) false) = legs.
Proof. induction legs as [|s legs IH]; cbn; [done|by rewrite IH]. Qed.

Lemma groups_loop_spec gs : 0 <= cf_over_borrow cfg -> forall acc acc' fus,
  groups_loop cfg book weth flash haircut gs acc = Ok acc' -> built fus acc ->
  exists more, built (fus ++ more) acc' /\ Forall (fun fu => fu_group fu ∈ gs) more /\
    flat_map fu_members more ⊆+ flat_map dg_legs gs.
Proof.
  intros Hob. induction gs as [|g gs IH]; intros acc acc' fus Hg Hb; cbn [groups_loop] in Hg.
  { injection Hg as <-. exists []. rewrite app_nil_r. by split_and!; [|constructor|]. }
  bind_inv Hg debt Hd. bind_inv Hg per Hp. bind_inv Hg acc1 Hs.
  destruct (sources_loop_spec g debt per _ Hd Hp Hob ltac:(done) _ _ _ _ Hs Hb) as (m1 & Hb1 & Hg1 & Hm1).
  destruct (IH _ _ _ Hg Hb1) as (m2 & Hb2 & Hg2 & Hm2). exists (m1 ++ m2). rewrite app_assoc. split_and!; [done| |].
  - apply Forall_app. split; (eapply Forall_impl; [eassumption|]); cbn; set_solver.
  - rewrite flat_map_app. cbn. rewrite untaken_all in Hm1. by apply submseteq_app.
Qed.

Lemma surplus_keeps plan plan' : route_surplus_debt book weth plan = Ok plan' ->
  Plan.bp_flags plan' = Plan.bp_flags plan /\ Plan.bp_bid_bps plan' = Plan.bp_bid_bps plan /\
  Plan.bp_gas_cost_wei plan' = Plan.bp_gas_cost_wei plan /\ Plan.bp_min_profit_wei plan' = Plan.bp_min_profit_wei plan /\
  Plan.bp_groups plan' = Plan.bp_groups plan.
Proof.
  intros Hr. unfold route_surplus_debt in Hr. bind_inv Hr sp Hsp. destruct sp as [profit [[d w]|]].
  - bind_inv Hr pool Hp. by injection Hr as <-.
  - destruct (head _) as [g0|]; [destruct (univ3_addr_for _ _ _)|]; by injection Hr as <-.
Qed.
End PlanSound.

(** The loops of [assemble_one] and what it returns of them. *)
Lemma assemble_one_built `{TickMath} `{PoolBook.OtherMath} {G : Type} `{ChainSearch G} `{AssembleView} market_hash
    p cfg (book : PoolBook.Book G) ctx bid gas flags flash haircut a : 0 <= cf_over_borrow cfg ->
  assemble_one market_hash p cfg book ctx bid gas flags flash haircut = Ok a ->
  exists fus acc, built cfg flash haircut fus acc /\ Forall (fun fu => fu_group fu ∈ pl_groups p) fus /\
    flat_map fu_members fus ⊆+ flat_map dg_legs (pl_groups p) /\ ac_groups acc <> [] /\
    ac_groups acc = Plan.bp_groups (as_plan a) /\ ac_fallbacks acc = as_fallbacks a /\ ac_fees acc = as_group_fee_bps a /\
    min_profit_floor (ac_floor acc) bid (Plan.bp_gas_cost_wei (as_plan a)) (cf_min_out_tolerance_bps cfg) =
      Ok (Plan.bp_min_profit_wei (as_plan a)) /\
    Plan.bp_flags (as_plan a) = flags /\ Plan.bp_bid_bps (as_plan a) = bd_coinbase_bps bid /\
    validate market_hash (as_plan a) ctx = Ok tt.
Proof.
  intros Hob Ha. unfold assemble_one in Ha. bind_inv Ha pg Hpg. bind_inv Ha cost Hcost. bind_inv Ha gw Hgw. bind_inv Ha acc Hacc.
  destruct (groups_loop_spec cfg book _ flash haircut (pl_groups p) Hob _ _ [] Hacc) as (fus & Hb & Hin & Hsub).
  { repeat split; constructor. }
  destruct (PoolBook.is_nil (ac_groups acc)) eqn:En; [done|]. bind_inv Ha mp Hmp. cbv zeta in Ha. bind_inv Ha plan Hplan.
  apply surplus_keeps in Hplan as (H1' & H2' & H3' & H4' & H5'). bind_inv Ha plan' Hv. injection Ha as <-.
  unfold checked_plan in Hv. bind_inv Hv u Hu. destruct u. apply map_err_Ok in Hu. injection Hv as <-.
  cbn [as_plan as_fallbacks as_group_fee_bps Plan.bp_flags Plan.bp_bid_bps Plan.bp_gas_cost_wei Plan.bp_min_profit_wei Plan.bp_groups app] in *.
  exists fus, acc. rewrite H1', H2', H3', H4', H5'. split_and!; try done. by destruct (ac_groups acc).
Qed.

(** C19. An assembled plan is the selected one, priced: its groups are fundings of the plan's debt
    groups by the sources their cascades planned, in order, no leg placed twice; each group
    borrows what its legs pull and no more than its source lends; each liquidation leg is the
    protocol's own; the fallbacks are other sources of the same debt; the floor is that of the
    legs placed, at their premiums, and the whole passes validation. *)
Theorem assembled_plan_is_sound `{TickMath} `{PoolBook.OtherMath} {G : Type} `{ChainSearch G} `{AssembleView} market_hash
    (p : SelectedPlan) (cfg : SelectCfg) (book : PoolBook.Book G) (ctx : ValidateCtx) (bid : Bid) (gas : GasTerms) (flags : Z)
    (flash : FlashIndex) (haircut : Haircut) (a : Assembled) (Hob : 0 <= cf_over_borrow cfg)
    (Ha : assemble_one market_hash p cfg book ctx bid gas flags flash haircut = Ok a) :
  exists (fus : list Funding) (floors : list FloorGroup),
    fus <> [] /\ Forall (fun fu => fu_group fu ∈ pl_groups p) fus /\
    flat_map fu_members fus ⊆+ flat_map dg_legs (pl_groups p) /\
    Forall2 (funds cfg) fus (Plan.bp_groups (as_plan a)) /\
    Forall2 (falls_back cfg flash haircut) fus (as_fallbacks a) /\
    as_group_fee_bps a = Plan.fg_fee_bps <$> Plan.bp_groups (as_plan a) /\
    Forall2 (fun q fl => floored (fst q) (snd q) fl) (zip fus (Plan.bp_groups (as_plan a))) floors /\
    min_profit_floor floors bid (Plan.bp_gas_cost_wei (as_plan a)) (cf_min_out_tolerance_bps cfg) =
      Ok (Plan.bp_min_profit_wei (as_plan a)) /\
    Plan.bp_flags (as_plan a) = flags /\ Plan.bp_bid_bps (as_plan a) = bd_coinbase_bps bid /\
    validate market_hash (as_plan a) ctx = Ok tt.
Proof.
  destruct (assemble_one_built _ _ _ _ _ _ _ _ _ _ _ Hob Ha)
    as (fus & acc & (Hg & Hfb & Hfee & Hfl) & Hin & Hsub & Hne & E1 & E2 & E3 & Hmp & Hfl' & Hbid & Hv).
  rewrite E1, ?E2, ?E3 in *. exists fus, (ac_floor acc). split_and!; try done.
  intros ->. apply Forall2_nil_inv_l in Hg. done.
Qed.

(** ** The next source *)

(** What a premium may rise by at no higher a fee: nothing, but for the unit Sky rounds away. *)
Definition fee_slack (p : FlashProvider) : Z := if bool_decide (p = FSkyDss) then 1 else 0.

Lemma fee_amount_bounds p amount bps f : 0 <= amount -> u256 amount -> u256 bps -> fee_amount p amount bps = Some f ->
  amount * bps <= (f + fee_slack p) * BPS /\ (f - 1) * BPS < amount * bps.
Proof.
  intros Ha Hu Hb Hf. unfold fee_amount in Hf. assert (Hbps : u256 BPS) by (split; [done|unfold umax; vm_compute; discriminate]).
  destruct (bps =? 0) eqn:E; zbool.
  { injection Hf as <-. subst. unfold fee_slack. assert (0 < BPS) by done. destruct (bool_decide _); lia. }
  assert (Hmd : forall r, mul_div amount bps BPS r = Ok f -> f = round_div r (amount * bps) BPS)
    by (intros r (_ & ? & _)%mul_div_Ok; done).
  assert (Hok : forall r, ok_opt (mul_div amount bps BPS r) = Some f -> f = round_div r (amount * bps) BPS).
  { intros r. destruct (mul_div amount bps BPS r) eqn:Em; cbn; [|done]. intros [= ->]. by apply Hmd. }
  assert (HB : 0 < BPS) by done.
  pose proof (div_up_spec (amount * bps) BPS HB). pose proof (div_rem_spec (amount * bps) BPS HB).
  change BPS with 10000 in *.
  destruct p; try done; unfold fee_slack; first [rewrite bool_decide_false by done|rewrite bool_decide_true by done].
  - destruct (checked_div _ _); [|done]. destruct (_ <? _); [done|]. apply Hok in Hf. cbn [round_div] in Hf. lia.
  - apply Hok in Hf. cbn [round_div] in Hf. lia.
  - apply Hok in Hf. cbn [round_div] in Hf. lia.
Qed.

(** At no higher a fee, a premium rises by at most the old source's slack. *)
Lemma premium_rise p p' amount bps bps' f f' : u256 amount -> u256 bps -> u256 bps' -> bps' <= bps ->
  fee_amount p amount bps = Some f -> fee_amount p' amount bps' = Some f' -> f' <= f + fee_slack p.
Proof.
  intros Ha Hb Hb' Hle Hf Hf'. assert (Ha0 : 0 <= amount) by (by destruct Ha).
  destruct (fee_amount_bounds _ _ _ _ Ha0 Ha Hb Hf) as [H1 _]. destruct (fee_amount_bounds _ _ _ _ Ha0 Ha Hb' Hf') as [_ H2].
  assert (amount * bps' <= amount * bps) by (apply Z.mul_le_mono_nonneg_l; lia).
  change BPS with 10000 in *. lia.
Qed.

Lemma fallback_amount idx debt need haircut m r : r ∈ fallback_chain idx debt need haircut m -> fr_amount r = need.
Proof.
  unfold fallback_chain. destruct (need =? 0); [by intros ?%not_elem_of_nil|].
  destruct (gross_up haircut need); [|by intros ?%not_elem_of_nil]. intros Hr%list_elem_of_In%in_map_iff.
  destruct Hr as ([c r'] & <- & Hin). apply list_elem_of_In in Hin. rewrite sort_by_perm in Hin. apply list_elem_of_omap in Hin as (e & _ & He).
  destruct (effective_cost e need m); [|done]. by injection He as <- <-.
Qed.

Lemma validated_premium market_hash p c g : validate market_hash p c = Ok tt -> g ∈ Plan.bp_groups p ->
  exists f, fee_amount (Plan.fg_provider g) (Plan.fg_flash_amount g) (Plan.fg_fee_bps g) = Some f.
Proof.
  intros Hv Hg. destruct (group_parts _ _ _ Hv g Hg) as (_ & _ & _ & _ & _ & _ & Hsz & Hsw & _).
  destruct (decide (Plan.fg_provider g = FUniV3Swap)) as [E|E].
  - specialize (Hsw E). unfold flash_swap_group in Hsw. destruct (negb _); [done|].
    destruct (Plan.fg_fee_bps g =? 0) eqn:E0; cbn [negb] in Hsw; [|done]. exists 0. unfold fee_amount. by rewrite E0.
  - unfold size_repay_to_pull in Hsz. bind_inv Hsz pull Hp. destruct (_ <? _); [done|]. rewrite bool_decide_false in Hsz by done.
    bind_inv Hsz fee Hfee. apply ok_or_Ok in Hfee. by exists fee.
Qed.

Lemma reencode_Ok market_hash plan i g next ctx plan' : reencode market_hash plan i g next ctx = Ok plan' ->
  plan' = with_groups plan (<[i := on_source g next]> (Plan.bp_groups plan)) /\ validate market_hash plan' ctx = Ok tt /\
  (Plan.fg_flash_amount g <= fr_amount next \/ zsum Plan.l_protocol_pull (Plan.fg_liqs g) <= fr_amount next).
Proof.
  intros Hr. unfold reencode in Hr. bind_inv Hr pull Hp. unfold sum_pulls_of, sum_pulls in Hp. apply ok_or_Ok, sum_opt_Some in Hp.
  destruct (_ && _) eqn:E; [done|]. unfold checked_plan in Hr. bind_inv Hr u Hu. destruct u. apply map_err_Ok in Hu. injection Hr as <-.
  split_and!; [done|done|]. apply andb_false_iff in E as [E|E]; zbool; lia.
Qed.

(** The premiums and amounts are of their types. *)
Definition assembled_typed (a : Assembled) : Prop :=
  Forall (fun g => u256 (Plan.fg_flash_amount g) /\ u256 (Plan.fg_fee_bps g)) (Plan.bp_groups (as_plan a)) /\
  Forall (Forall (fun r => u256 (fr_fee_bps r))) (as_fallbacks a).

(** C20. Falling back keeps the plan: the group asks another source of its debt, one that lends what
    the plan borrows, for the same amount, legs and swaps; nothing else of the plan changes; the
    result passes validation; and the premium is at most the one the floor was computed with,
    but for the unit that a Sky source's rounding had spared. *)
Theorem next_source_funds_the_plan `{TickMath} `{PoolBook.OtherMath} {G : Type} `{ChainSearch G} `{AssembleView} market_hash
    (p : SelectedPlan) (cfg : SelectCfg) (book : PoolBook.Book G) (ctx ctx' : ValidateCtx) (bid : Bid) (gas : GasTerms) (flags : Z)
    (flash : FlashIndex) (haircut : Haircut) (a : Assembled) (i : nat) (plan' : BatchPlan)
    (Hob : 0 <= cf_over_borrow cfg) (Hty : assembled_typed a)
    (Ha : assemble_one market_hash p cfg book ctx bid gas flags flash haircut = Ok a)
    (Hr : reencode_next_source market_hash a i ctx' = Ok plan') :
  exists g next rest f f',
    Plan.bp_groups (as_plan a) !! i = Some g /\ as_fallbacks a !! i = Some (next :: rest) /\
    plan' = with_groups (as_plan a) (<[i := on_source g next]> (Plan.bp_groups (as_plan a))) /\
    (fr_provider next, fr_source next) <> (Plan.fg_provider g, Plan.fg_flash_source g) /\
    Plan.fg_flash_amount g <= fr_amount next /\ validate market_hash plan' ctx' = Ok tt /\
    fee_amount (Plan.fg_provider g) (Plan.fg_flash_amount g) (Plan.fg_fee_bps g) = Some f /\
    fee_amount (fr_provider next) (Plan.fg_flash_amount g) (fr_fee_bps next) = Some f' /\
    f' <= f + fee_slack (Plan.fg_provider g).
Proof.
  destruct (assemble_one_built _ _ _ _ _ _ _ _ _ _ _ Hob Ha)
    as (fus & acc & (Hg & Hfb & Hfee & _) & _ & _ & _ & E1 & E2 & E3 & _ & _ & _ & Hv). rewrite E1 in *. rewrite E2 in Hfb. rewrite E3 in Hfee.
  unfold reencode_next_source in Hr. bind_inv Hr next Hn. apply ok_or_Ok in Hn. bind_inv Hr g Hgi. apply ok_or_Ok in Hgi.
  destruct (as_fallbacks a !! i) as [chain|] eqn:Ec; [|done]. destruct chain as [|n0 rest]; [done|]. injection Hn as ->.
  destruct (fee_of i a <? fr_fee_bps next) eqn:Ef; [done|]. zbool. apply reencode_Ok in Hr as (-> & Hv' & _).
  destruct (Forall2_lookup_r _ _ _ _ _ Hg Hgi) as (fu & Hfu & Hfunds).
  destruct (Forall2_lookup_r _ _ _ _ _ Hfb Ec) as (fu' & Hfu' & [Hfall _]). rewrite Hfu in Hfu'. injection Hfu' as <-.
  apply Forall_cons in Hfall as [[Hin Hne] _]. apply fallback_amount in Hin.
  destruct Hfunds as (_ & _ & _ & _ & _ & Hprov & Hsrc & Hfeeg & _ & [_ Hamt] & _).
  assert (Hfo : fee_of i a = Plan.fg_fee_bps g) by (unfold fee_of; by rewrite Hfee, list_lookup_fmap, Hgi).
  destruct Hty as [Ht1 Ht2]. destruct (Forall_lookup_1 _ _ _ _ Ht1 Hgi) as [Hua Huf].
  pose proof (Forall_lookup_1 _ _ _ _ Ht2 Ec) as Hun. apply Forall_cons in Hun as [Hun _]. cbn in Hun.
  destruct (validated_premium _ _ _ g Hv) as [f Hf]; [by eapply list_elem_of_lookup_2|].
  destruct (validated_premium _ _ _ (on_source g next) Hv') as [f' Hf'].
  { cbn. eapply list_elem_of_lookup_2, list_lookup_insert_eq, lookup_lt_Some, Hgi. }
  cbn in Hf'. exists g, next, rest, f, f'. split_and!; try done; [by rewrite Hprov, Hsrc|lia|].
  apply (premium_rise _ _ _ _ _ _ _ Hua Huf Hun ltac:(lia) Hf Hf').
Qed.

(** ** Witnesses *)

#[local] Instance no_other_math : PoolBook.OtherMath := {|
  PoolBook.crypto_dy := fun _ _ _ _ => Err RMath; PoolBook.crypto_apply := fun s _ _ _ => (s, Err RMath);
  PoolBook.crypto_rho := fun _ _ _ _ => Err RMath; PoolBook.fluid_dy := fun _ _ _ _ => Err RMath;
  PoolBook.fluid_apply := fun s _ _ _ => (s, Err RMath); PoolBook.fluid_rho := fun _ _ _ _ => Err RMath;
  PoolBook.fluid_capacity_in := fun _ _ => None; PoolBook.sell_pt_for_out := fun _ _ => Err RMath |}.
#[local] Instance no_chains : ChainSearch unit := {| best_chain := fun _ _ _ _ => None |}.
#[local] Instance sample_view : AssembleView := {|
  av_token := fun a => Some (100 + a); av_meta := fun p => Some (mkMeta XAaveV3 401 (500 + Z.of_nat p) TNone None);
  av_per_eth := fun _ => Some WEI_PER_ETH |}.

(** WETH is asset 1, the debt 2 and the collateral 3, with a pair for each two of them. *)
Definition sample_pair (addr : Address) (a0 a1 : AssetId) : PoolBook.Pool :=
  PoolBook.mkPool addr [a0; a1] [100 + a0; 100 + a1] 0 (PoolBook.V2 (mkV2 (10 ^ 9) (10 ^ 9) 0)).
Definition sample_pools : PoolBook.Book unit :=
  fold_left (fun b p => fst (PoolBook.add b p)) [sample_pair 201 3 2; sample_pair 202 3 1; sample_pair 203 2 1] (PoolBook.new ∅ None 0).

Definition aave_route : FlashRoute := mkRoute FAave 301 2 2010 5 AaveExecuteOperation.
Definition sample_sources : FlashIndex :=
  mkIndex [[]; []; [mkEntry (10 ^ 6) 301 0 5 FAave AaveExecuteOperation; mkEntry (10 ^ 6) 302 0 0 FMorpho MorphoFlashCallback]] [].
Definition pair_exit : ExitQuote := mkExit [mkAlloc (mkLeg 0 0 1) 1100 1096] 1100 1096 0 0 None None None.
Definition pair_leg (pos : PositionId) : Scored :=
  mkScored pos 0 0 0 0 0 0 0
    (mkSized PREFERRED 2 3 1000 1100 1096 0 1000 0 0 aave_route pair_exit (mkTerms 0 0 0 0) []) None.
Definition sample_plan : SelectedPlan :=
  mkSelPlan [mkGroup 2 [pair_leg 5; pair_leg 6] (mkCascade [aave_route] 2010 0) 2010 false] 10.
Definition assemble_cfg : SelectCfg := mkSelectCfg FEE_ONLY 10 8 8 20 30000000 (replicate 7 100000) 0 None
  (liq_gas_uniform 300000) 10 MIN_OUT_TOLERANCE_BPS SOLVE_BUDGET_DEFAULT None None.
Definition weth_ctx : ValidateCtx := mkCtx 101 [] [] [] [].
Definition sample_assembly : ARes Assembled :=
  @assemble_one ex_math no_other_math unit no_chains sample_view demo_hash sample_plan assemble_cfg sample_pools
    weth_ctx (mkBid 1000 0 0) (mkGas 1 0 (10 ^ 18)) 0 sample_sources HAIRCUT_NONE.
Definition sample_assembled : Assembled :=
  Eval vm_compute in match sample_assembly with Ok a => a | Err _ => mkAssembled demo_plan [] [] end.

Lemma sample_assembly_eq : sample_assembly = Ok sample_assembled.
Proof. vm_compute. reflexivity. Qed.

(** Two legs go into one group, borrowed with the over-borrow from the planned source. *)
Lemma assembled_plan_is_sound_witness :
  (Plan.fg_flash_amount <$> Plan.bp_groups (as_plan sample_assembled)) = [2010] /\
  exists fus, fus <> [] /\ Forall2 (@funds sample_view assemble_cfg) fus (Plan.bp_groups (as_plan sample_assembled)) /\
    flat_map fu_members fus ⊆+ [pair_leg 5; pair_leg 6].
Proof.
  split; [reflexivity|].
  destruct (@assembled_plan_is_sound ex_math no_other_math unit no_chains sample_view demo_hash sample_plan assemble_cfg sample_pools
    weth_ctx (mkBid 1000 0 0) (mkGas 1 0 (10 ^ 18)) 0 sample_sources HAIRCUT_NONE sample_assembled
    ltac:(vm_compute; discriminate) sample_assembly_eq) as (fus & floors & Hne & _ & Hsub & Hf & _).
  exists fus. split; [exact Hne|]. split; [exact Hf|exact Hsub].
Defined.

Lemma next_source_funds_the_plan_witness :
  exists plan' g next, reencode_next_source demo_hash sample_assembled 0 weth_ctx = Ok plan' /\
    Plan.bp_groups (as_plan sample_assembled) !! 0%nat = Some g /\ fr_provider next = FMorpho /\
    plan' = with_groups (as_plan sample_assembled) [on_source g next] /\ Plan.fg_flash_amount g <= fr_amount next.
Proof.
  destruct (reencode_next_source demo_hash sample_assembled 0 weth_ctx) as [plan'|] eqn:E; [|vm_compute in E; discriminate E].
  assert (Hty : assembled_typed sample_assembled).
  { assert (U : forall x, 0 <= x <= 10 ^ 20 -> u256 x) by (intros x Hx; split; [lia|unfold umax; lia]).
    split; repeat constructor; apply U; vm_compute; split; discriminate. }
  destruct (@next_source_funds_the_plan ex_math no_other_math unit no_chains sample_view demo_hash sample_plan assemble_cfg sample_pools
    weth_ctx weth_ctx (mkBid 1000 0 0) (mkGas 1 0 (10 ^ 18)) 0 sample_sources HAIRCUT_NONE sample_assembled 0 plan'
    ltac:(vm_compute; discriminate) Hty sample_assembly_eq E) as (g & next & rest & f & f' & Hg & Hn & Hp & _ & Ha & _).
  exists plan', g, next. split; [reflexivity|]. split; [exact Hg|].
  split; [cbn in Hn; injection Hn as <- _; reflexivity|]. split; [exact Hp|exact Ha].
Defined.

(** [reencode_with] accepts a source that lends less than the plan borrows: the assembled group
    borrows 2010 and pulls 2000, the next source has 2005, and the plan still asks it for
    2010. *)
Theorem reencode_overdraws :
  exists next plan' g, reencode_with demo_hash (as_plan sample_assembled) 0 next 5 weth_ctx = Ok plan' /\
    Plan.bp_groups plan' = [g] /\ Plan.fg_flash_source g = fr_source next /\ fr_amount next < Plan.fg_flash_amount g.
Proof.
  exists (mkRoute FMorpho 302 2 2005 0 MorphoFlashCallback). eexists _, _. split; [vm_compute; reflexivity|].
  split; [reflexivity|]. split; [reflexivity|]. vm_compute. reflexivity.
Qed.

(** Two pools sell 600 and 496: a pull of 1000 takes 547 from the first and the rest, 453, from
    the second. *)
Definition split_exit : ExitQuote :=
  mkExit [mkAlloc (mkLeg 0 0 1) 602 600; mkAlloc (mkLeg 1 0 1) 0 0; mkAlloc (mkLeg 2 0 1) 498 496] 1100 1096 0 0 None None None.

Lemma pull_is_split_exactly_witness :
  (snd <$> match shares_of_pull split_exit 1000 with Ok out => out | Err _ => [] end) = [547; 453] /\
  exists out, shares_of_pull split_exit 1000 = Ok out /\ zsum snd out = 1000.
Proof.
  split; [vm_compute; reflexivity|].
  destruct (pull_is_split_exactly split_exit 1000) as (out & Ho & Hs & _).
  - split; [lia|vm_compute; discriminate].
  - vm_compute. discriminate.
  - repeat constructor; vm_compute; discriminate.
  - vm_compute. discriminate.
  - exists out. split; [exact Ho|exact Hs].
Defined.

Lemma repay_legs_buy_the_pull_witness :
  exists legs parts, @repay_legs ex_math no_other_math unit pair_exit sample_pools 1000 103 102 50 = Ok legs /\
    Forall2 (@buys ex_math no_other_math unit pair_exit 50) legs parts /\ zsum id parts = 1000.
Proof.
  destruct (@repay_legs ex_math no_other_math unit pair_exit sample_pools 1000 103 102 50) as [legs|] eqn:E;
    [|vm_compute in E; discriminate E].
  destruct (@repay_legs_buy_the_pull ex_math no_other_math unit pair_exit sample_pools 1000 103 102 50 legs) as (parts & Hb & Hs & _).
  - repeat constructor; vm_compute; discriminate.
  - split; vm_compute; discriminate.
  - split; vm_compute; discriminate.
  - exact E.
  - exists legs, parts. split; [reflexivity|]. split; [exact Hb|exact Hs].
Defined.

Lemma path_input_is_least_witness :
  @path_in_for ex_math no_other_math unit sample_pools [mkLeg 0 0 1] 1000 = Some 1004 /\
  @delivers ex_math no_other_math unit sample_pools [mkLeg 0 0 1] 1000 1004 = true /\
  @delivers ex_math no_other_math unit sample_pools [mkLeg 0 0 1] 1000 1003 = false.
Proof.
  assert (E : @path_in_for ex_math no_other_math unit sample_pools [mkLeg 0 0 1] 1000 = Some 1004) by (vm_compute; reflexivity).
  split; [exact E|].
  destruct (proj1 (@path_input_is_least ex_math no_other_math unit sample_pools [mkLeg 0 0 1] 1000 ltac:(lia)) _ E) as (_ & Hd & Hn & _).
  split; [exact Hd|exact Hn].
Defined.
