(* ===== verification/Oracle.v ===== *)
(** * Prices

    [crates/liq-oracle]: decimal quotes and book tops of exchanges ([cex.rs]), the canonical
    book of on-chain answers with its staleness ([canonical.rs]), the simulated aggregators
    that predict the next answer ([aggsim.rs]), publication ([publish.rs]) and the fusion of
    all of them ([fusion.rs]). A string is the list of its code points; an [Instant] counts
    nanoseconds. The ABI decoders are the class [OracleAbi]; the feed registry, which
    [feeds.rs] binds from files, is an argument, and so is the node [seed] reads. *)

From stdpp Require Import strings gmap.
From S2P Require Import Prelude Fixed Types Halt Gate Flash Ingest Engine.
Local Open Scope Z_scope.

Abbreviation str := (list Z) (only parsing).

(** The code points of a literal. *)
Fixpoint lit (s : string) : str :=
  match s with
  | EmptyString => []
  | String c s => Z.of_N (Ascii.N_of_ascii c) :: lit s
  end.

Definition is_nil {A} (l : list A) : bool := match l with [] => true | _ => false end.

(** [char::is_whitespace]. *)
Definition is_whitespace (c : Z) : bool :=
  ((9 <=? c) && (c <=? 13)) || (c =? 32) || (c =? 0x85) || (c =? 0xA0) || (c =? 0x1680) ||
  ((0x2000 <=? c) && (c <=? 0x200A)) || (c =? 0x2028) || (c =? 0x2029) || (c =? 0x202F) || (c =? 0x205F) || (c =? 0x3000).

Fixpoint drop_spaces (s : str) : str :=
  match s with c :: s' => if is_whitespace c then drop_spaces s' else s | [] => [] end.
Definition trim (s : str) : str := reverse (drop_spaces (reverse (drop_spaces s))).
Definition to_ascii_lowercase (s : str) : str := (fun c => if (65 <=? c) && (c <=? 90) then c + 32 else c) <$> s.

(** [str::split_once] at a character. *)
Fixpoint split_once (d : Z) (s : str) : option (str * str) :=
  match s with
  | [] => None
  | c :: s => if c =? d then Some ([], s) else let! p := split_once d s in Some (c :: fst p, snd p)
  end.

(** The errors of [OracleError] that the modelled code raises. *)
Inductive OracleError :=
| OLoad (what : string)
| ONoAggregator (proxy : Address)
| OZeroAggregator (aggregator : Address)
| OInternAsset (asset : Address)
| OScaleOverflow (decimals : Z)
| ONonPositiveAnswer
| OBadAnswerUpdated
| OSourceMigrated (asset expected found : Address)
| OUnknownCexVenue (venue : str)
| OBadCexSource (source : str)
| OBadCexPrice
| OCrossedBook
| OTooManyCexSources.

Abbreviation ORes A := (Result OracleError A).

(** ** Exchanges *)

Definition CHANNEL_CAP : nat := Z.to_nat 8192.

Inductive CexVenue := Binance | Coinbase | Kraken | Okx.
#[export] Instance CexVenue_eq_dec : EqDecision CexVenue.
Proof. solve_decision. Defined.
#[export] Instance CexVenue_countable : Countable CexVenue.
Proof.
  refine (inj_countable' (fun v => match v with Binance => 0 | Coinbase => 1 | Kraken => 2 | Okx => 3 end)
    (fun z => if z =? 0 then Binance else if z =? 1 then Coinbase else if z =? 2 then Kraken else Okx) _).
  by intros [].
Defined.

Record CexTick := mkTick { ct_venue : CexVenue; ct_symbol : str; ct_bid : Z; ct_ask : Z; ct_mid : Z }.

Definition venue_parse (s : str) : ORes CexVenue :=
  let v := to_ascii_lowercase (trim s) in
  if bool_decide (v = lit "binance") then Ok Binance else
  if bool_decide (v = lit "coinbase") then Ok Coinbase else
  if bool_decide (v = lit "kraken") then Ok Kraken else
  if bool_decide (v = lit "okx") then Ok Okx else Err (OUnknownCexVenue v).

Definition parse_source (raw : str) : ORes (CexVenue * str) :=
  match split_once 58 raw with
  | None => Err (OBadCexSource raw)
  | Some (v, sym) =>
      if is_nil sym then Err (OBadCexSource raw) else
      let? venue := venue_parse v in Ok (venue, sym)
  end.

(** [TEN_POW]: the powers of ten up to the 27th. *)
Definition TEN_POW : list Z := (fun k => 10 ^ Z.of_nat k) <$> seq 0 28.

Definition is_digit (c : Z) : bool := (48 <=? c) && (c <=? 57).

(** [U256::from_str_radix(s, 10)] on digits. *)
Definition digits (s : str) : Z := fold_left (fun acc c => acc * 10 + (c - 48)) s 0.
Definition from_str_radix10 (s : str) : option Z := try_from 256 (digits s).

Definition decimal_to_ray (s : str) : ORes Z :=
  let s := trim s in
  let bad_head := match s with c :: _ => (c =? 43) || (c =? 45) | [] => true end in
  if bad_head || existsb (fun c => (c =? 101) || (c =? 69)) s then Err OBadCexPrice else
  let '(whole, frac) := default (s, []) (split_once 46 s) in
  let whole := if is_nil whole then [48] else whole in
  if existsb (fun b => negb (is_digit b)) whole || existsb (fun b => negb (is_digit b)) frac then Err OBadCexPrice else
  if (27 <? length frac)%nat then Err OBadCexPrice else
  let? w := ok_or (from_str_radix10 whole) OBadCexPrice in
  let? scale := ok_or (TEN_POW !! 27%nat) (OScaleOverflow 27) in
  let? acc := ok_or (checked_mul 256 w scale) OBadCexPrice in
  let? acc :=
    (if is_nil frac then Ok acc else
     let? f := ok_or (from_str_radix10 frac) OBadCexPrice in
     let? fscale := ok_or (TEN_POW !! (27 - length frac)%nat) OBadCexPrice in
     let? fpart := ok_or (checked_mul 256 f fscale) OBadCexPrice in
     ok_or (checked_add 256 acc fpart) OBadCexPrice) in
  if acc =? 0 then Err OBadCexPrice else Ok acc.

Definition mid_ray (bid ask : Z) : ORes Z :=
  if ask <? bid then Err OCrossedBook else
  if (bid =? 0) || (ask =? 0) then Err OBadCexPrice else
  let? sum := ok_or (checked_add 256 bid ask) OBadCexPrice in
  if sum mod 2 =? 0 then Ok (sum / 2) else ok_or (checked_add 256 (sum / 2) 1) OBadCexPrice.

Definition tick (venue : CexVenue) (symbol bid_s ask_s : str) : ORes CexTick :=
  let? bid := decimal_to_ray bid_s in
  let? ask := decimal_to_ray ask_s in
  let? mid := mid_ray bid ask in
  Ok (mkTick venue symbol bid ask mid).

(** ** Feeds *)

Inductive Mechanism := ChainlinkSvr | ChainlinkPush.

Record FeedSpec := mkFeedSpec {
  fs_protocol : str; fs_market : Z; fs_asset : Address; fs_mechanism : Mechanism; fs_proxy : Address; fs_svr_aggregator : option Address;
  fs_standard_aggregator : option Address; fs_decimals : Z; fs_heartbeat_secs : Z; fs_deviation_bps : Z;
  fs_sources : list str }.

Record ResolvedFeed := mkFeed {
  rf_spec : FeedSpec; rf_id : Z; rf_asset : AssetId; rf_protocol : ProtocolId; rf_market : MarketId; rf_watch : list Address }.

(** The [specs] of a [FeedSet], which [FeedSet::bind] made of the rows; its other fields are
    subscriptions. *)
Abbreviation FeedSet := (list ResolvedFeed) (only parsing).

Fixpoint watch_loop (l : list (option Address)) (out : list Address) : ORes (list Address) :=
  match l with
  | [] => Ok out
  | None :: l => watch_loop l out
  | Some a :: l =>
      if a =? 0 then Err (OZeroAggregator a) else
      watch_loop l (if existsb (Z.eqb a) out then out else out ++ [a])
  end.

Definition watch (s : FeedSpec) : ORes (list Address) :=
  let? out := watch_loop [fs_standard_aggregator s; fs_svr_aggregator s] [] in
  if is_nil out then Err (ONoAggregator (fs_proxy s)) else Ok out.

Definition configured_aggregator (s : FeedSpec) : ORes Address :=
  match fs_mechanism s with
  | ChainlinkPush => ok_or (fs_standard_aggregator s) (ONoAggregator (fs_proxy s))
  | ChainlinkSvr => ok_or (fs_svr_aggregator s) (ONoAggregator (fs_proxy s))
  end.

(** ** The canonical book *)

Definition stale_after (heartbeat_secs : Z) : Z := saturating_add 64 heartbeat_secs (heartbeat_secs / 2).

Definition answer_to_ray (answer decimals : Z) : ORes Z :=
  if negb (0 <? answer) then Err ONonPositiveAnswer else
  let? exp := ok_or (checked_sub 27 decimals) (OScaleOverflow decimals) in
  let? factor := ok_or (TEN_POW !! Z.to_nat exp) (OScaleOverflow decimals) in
  ok_or (checked_mul 256 answer factor) (OScaleOverflow decimals).

Definition pow10 (decimals : Z) : ORes Z := ok_or (TEN_POW !! Z.to_nat decimals) (OScaleOverflow decimals).

Record AssetSlot := mkSlot { as_heartbeat_secs : Z; as_last_ts : Z }.
Record CanonicalBook := mkBook {
  cb_feeds : FeedSet;
  cb_by_agg : gmap Address (list nat);
  cb_by_asset : list (option AssetSlot);
  cb_asset_addrs : list Address;
  cb_vector : PriceVector
}.

Definition with_prices (b : CanonicalBook) (slots : list (option AssetSlot)) (v : PriceVector) : CanonicalBook :=
  mkBook (cb_feeds b) (cb_by_agg b) slots (cb_asset_addrs b) v.

(** The loop over the feeds in [new]. *)
Fixpoint bind_feeds (i : nat) (feeds : FeedSet) (by_agg : gmap Address (list nat)) (by_asset : list (option AssetSlot))
  : ORes (gmap Address (list nat) * list (option AssetSlot)) :=
  match feeds with
  | [] => Ok (by_agg, by_asset)
  | f :: feeds =>
      let? idx := ok_or (try_from_nat 16 i) (OLoad "too many feeds") in
      let? canon := configured_aggregator (rf_spec f) in
      let slot := default [] (by_agg !! canon) in
      let by_agg := <[canon := if existsb (Nat.eqb idx) slot then slot else slot ++ [idx]]> by_agg in
      let ai := Z.to_nat (rf_asset f) in
      match by_asset !! ai with
      | None => Err (OInternAsset (fs_asset (rf_spec f)))
      | Some (Some existing) =>
          if negb (as_heartbeat_secs existing =? fs_heartbeat_secs (rf_spec f))
          then Err (OLoad "heartbeat disagree for asset") else bind_feeds (S i) feeds by_agg by_asset
      | Some None => bind_feeds (S i) feeds by_agg (<[ai := Some (mkSlot (fs_heartbeat_secs (rf_spec f)) 0)]> by_asset)
      end
  end.

(** [CanonicalBook::new] over the addresses of the intern table, zero for a retired id. The
    assets a market lists and no feed prices, which it returns beside the book, are a reading
    of the registry and are left out. *)
Definition book_new (feeds : FeedSet) (asset_addrs : list Address) : ORes CanonicalBook :=
  let n := length asset_addrs in
  if (Z.to_nat (2 ^ 16) <? n)%nat then Err (OLoad "asset id past u16") else
  let vector := (fun i => mkPrice (Z.of_nat i) 0 Canonical 0 0) <$> seq 0 n in
  let? (by_agg, by_asset) := bind_feeds 0 feeds ∅ (replicate n None) in
  Ok (mkBook feeds by_agg by_asset asset_addrs vector).

Definition price (b : CanonicalBook) (asset : AssetId) : option Price :=
  let! p := cb_vector b !! Z.to_nat asset in if p_ts p =? 0 then None else Some p.

Definition write_price (b : CanonicalBook) (asset : AssetId) (px block ts : Z) : CanonicalBook * ORes bool :=
  let i := Z.to_nat asset in
  match cb_asset_addrs b !! i with
  | None => (b, Err (OLoad "asset id is outside intern table"))
  | Some addr =>
      match cb_by_asset b !! i with
      | Some (Some slot) =>
          if negb (as_last_ts slot =? 0) && (ts <? as_last_ts slot) then (b, Ok false) else
          match cb_vector b !! i with
          | None => (b, Err (OInternAsset addr))
          | Some _ =>
              (with_prices b (<[i := Some (mkSlot (as_heartbeat_secs slot) ts)]> (cb_by_asset b))
                 (<[i := mkPrice asset px Canonical block ts]> (cb_vector b)), Ok true)
          end
      | _ => (b, Err (OInternAsset addr))
      end
  end.

(** The topics of the three events and their decoders: the answer with its [updatedAt], the
    asset with its new source, and whether the third decodes. *)
Class OracleAbi := {
  ANSWER_UPDATED_TOPIC0 : Z;
  asset_source_updated_topic0 : Z;
  price_oracle_updated_topic0 : Z;
  decode_answer_updated : list Z -> list Z -> option (Z * Z);
  decode_asset_source_updated : list Z -> list Z -> option (Address * Address);
  decode_price_oracle_updated : list Z -> list Z -> option unit
}.

Section Book.
Context `{OracleAbi} {S : Type} `{HaltSink S}.

Fixpoint answer_loop (b : CanonicalBook) (sink : S) (current block ts : Z) (idxs : list nat) (changed : bool)
  : CanonicalBook * S * ORes bool :=
  match idxs with
  | [] => (b, sink, Ok changed)
  | idx :: idxs =>
      match cb_feeds b !! idx with
      | None => (b, sink, Err (OLoad "feed index"))
      | Some feed =>
          match answer_to_ray current (fs_decimals (rf_spec feed)) with
          | Err e => (b, sink, Err e)
          | Ok px =>
              match write_price b (rf_asset feed) px block ts with
              | (b, Err e) => (b, sink, Err e)
              | (b, Ok true) => answer_loop b (sink_clear sink (SAsset (rf_asset feed)) OracleStale) current block ts idxs true
              | (b, Ok false) => answer_loop b sink current block ts idxs changed
              end
          end
      end
  end.

Definition apply_answer (b : CanonicalBook) (log : DecodedLog) (sink : S) : CanonicalBook * S * ORes bool :=
  match decode_answer_updated (dl_topics log) (dl_data log) with
  | None => (b, sink, Err OBadAnswerUpdated)
  | Some (current, updated_at) =>
      match try_from 64 updated_at with
      | None => (b, sink, Err OBadAnswerUpdated)
      | Some ts =>
          if ts =? 0 then (b, sink, Err OBadAnswerUpdated) else
          match cb_by_agg b !! dl_address log with
          | None => (b, sink, Ok false)
          | Some idxs => answer_loop b sink current (dl_block log) ts idxs false
          end
      end
  end.

Fixpoint source_loop (feeds : FeedSet) (asset source : Address) (sink : S) : S * ORes bool :=
  match feeds with
  | [] => (sink, Ok false)
  | f :: feeds =>
      if negb (fs_asset (rf_spec f) =? asset) then source_loop feeds asset source sink else
      if negb (source =? fs_proxy (rf_spec f))
      then (sink_halt sink (SProtocol (rf_protocol f)) ProxyUpgrade, Err (OSourceMigrated asset (fs_proxy (rf_spec f)) source))
      else source_loop feeds asset source sink
  end.

Definition apply_source_swap (b : CanonicalBook) (log : DecodedLog) (sink : S) : CanonicalBook * S * ORes bool :=
  match decode_asset_source_updated (dl_topics log) (dl_data log) with
  | None => (b, sink, Err OBadAnswerUpdated)
  | Some (asset, source) => let '(sink, r) := source_loop (cb_feeds b) asset source sink in (b, sink, r)
  end.

Definition apply_oracle_contract_swap (b : CanonicalBook) (log : DecodedLog) (sink : S) : CanonicalBook * S * ORes bool :=
  match decode_price_oracle_updated (dl_topics log) (dl_data log) with
  | None => (b, sink, Err OBadAnswerUpdated)
  | Some _ =>
      (b, fold_left (fun sink f => sink_halt sink (SProtocol (rf_protocol f)) ProxyUpgrade) (cb_feeds b) sink,
       if is_nil (cb_feeds b) then Ok false else Err (OLoad "PriceOracleUpdated"))
  end.

Definition book_apply_log (b : CanonicalBook) (log : DecodedLog) (sink : S) : CanonicalBook * S * ORes bool :=
  match dl_topics log with
  | [] => (b, sink, Ok false)
  | t0 :: _ =>
      if t0 =? ANSWER_UPDATED_TOPIC0 then apply_answer b log sink else
      if t0 =? asset_source_updated_topic0 then apply_source_swap b log sink else
      if t0 =? price_oracle_updated_topic0 then apply_oracle_contract_swap b log sink else
      (b, sink, Ok false)
  end.

Fixpoint staleness_loop (i : nat) (slots : list (option AssetSlot)) (now : Z) (sink : S) : S :=
  match slots with
  | [] => sink
  | None :: slots => staleness_loop (Datatypes.S i) slots now sink
  | Some slot :: slots =>
      if stale_after (as_heartbeat_secs slot) <? saturating_sub now (as_last_ts slot) then
        match try_from_nat 16 i with
        | None => sink_halt sink SGlobal AdapterPanic
        | Some raw => staleness_loop (Datatypes.S i) slots now (sink_halt sink (SAsset (Z.of_nat raw)) OracleStale)
        end
      else staleness_loop (Datatypes.S i) slots now sink
  end.

Definition check_staleness (b : CanonicalBook) (now : Z) (sink : S) : S := staleness_loop 0 (cb_by_asset b) now sink.
End Book.

(** *** Seeding from the node *)

(** [latestRoundData] of each configured aggregator, once. *)
Fixpoint seed_reads (latest : Address -> ORes (Z * Z)) (feeds : FeedSet) (seen : gmap Address (Z * Z)) : ORes (gmap Address (Z * Z)) :=
  match feeds with
  | [] => Ok seen
  | f :: feeds =>
      let? agg := configured_aggregator (rf_spec f) in
      match seen !! agg with
      | Some _ => seed_reads latest feeds seen
      | None =>
          let? (answer, updated_at) := latest agg in
          let? ts := ok_or (try_from 64 updated_at) OBadAnswerUpdated in
          if ts =? 0 then Err OBadAnswerUpdated else seed_reads latest feeds (<[agg := (answer, ts)]> seen)
      end
  end.

Fixpoint seed_specs (feeds : FeedSet) : ORes (list (Address * Z * AssetId)) :=
  match feeds with
  | [] => Ok []
  | f :: feeds =>
      let? agg := configured_aggregator (rf_spec f) in
      let? rest := seed_specs feeds in
      Ok ((agg, fs_decimals (rf_spec f), rf_asset f) :: rest)
  end.

Fixpoint seed_writes (b : CanonicalBook) (block : Z) (seen : gmap Address (Z * Z)) (specs : list (Address * Z * AssetId))
  : CanonicalBook * ORes unit :=
  match specs with
  | [] => (b, Ok tt)
  | (agg, decimals, asset) :: specs =>
      match seen !! agg with
      | None => (b, Err (OLoad "seed missing latestRoundData"))
      | Some (answer, ts) =>
          match answer_to_ray answer decimals with
          | Err e => (b, Err e)
          | Ok px =>
              match write_price b asset px block ts with
              | (b, Err e) => (b, Err e)
              | (b, Ok _) => seed_writes b block seen specs
              end
          end
      end
  end.

Definition seed (b : CanonicalBook) (block_number : ORes Z) (latest : Address -> ORes (Z * Z)) : CanonicalBook * ORes unit :=
  match block_number with
  | Err e => (b, Err e)
  | Ok block =>
      match (let? seen := seed_reads latest (cb_feeds b) ∅ in let? specs := seed_specs (cb_feeds b) in Ok (seen, specs)) with
      | Err e => (b, Err e)
      | Ok (seen, specs) => seed_writes b block seen specs
      end
  end.

(** ** Simulated aggregators *)

Definition ETA_SEAM_SECS : Z := 12.
Definition HEARTBEAT_CONFIDENCE_BPS : Z := 2500.
Definition CERTAIN : Z := 10000.

Record PendingUpdate := mkPending {
  pu_feed : Z; pu_asset : AssetId; pu_predicted : Z; pu_eta : Z; pu_confidence : Z }.

Record AggregatorSim := mkSim {
  sm_feed : Z; sm_asset : AssetId; sm_deviation_threshold_bps : Z; sm_heartbeat_secs : Z;
  sm_last_onchain : option (Z * Z); sm_quotes : list (option Z) }.

Definition sim_new (feed : Z) (asset : AssetId) (deviation_threshold_bps heartbeat_secs : Z) (n_sources : nat) : ORes AggregatorSim :=
  if (8 <? n_sources)%nat then Err OTooManyCexSources else
  Ok (mkSim feed asset deviation_threshold_bps heartbeat_secs None (replicate n_sources None)).

Definition set_onchain (s : AggregatorSim) (px ts : Z) : AggregatorSim :=
  mkSim (sm_feed s) (sm_asset s) (sm_deviation_threshold_bps s) (sm_heartbeat_secs s) (Some (px, ts)) (sm_quotes s).

Definition on_quote (s : AggregatorSim) (slot : nat) (t : CexTick) : AggregatorSim :=
  match sm_quotes s !! slot with
  | None => s
  | Some _ =>
      mkSim (sm_feed s) (sm_asset s) (sm_deviation_threshold_bps s) (sm_heartbeat_secs s) (sm_last_onchain s)
        (<[slot := Some (ct_mid t)]> (sm_quotes s))
  end.

Definition median (s : AggregatorSim) : option Z :=
  let v := omap id (sm_quotes s) in
  if is_nil v then None else sort_by Z.leb v !! (length v / 2)%nat.

Definition deviation_bps (px last : Z) : ORes Z :=
  if last =? 0 then Err ONonPositiveAnswer else
  let? diff := ok_or (if last <=? px then checked_sub px last else checked_sub last px) ONonPositiveAnswer in
  let? bps := map_err (fun _ => ONonPositiveAnswer) (mul_div diff 10000 last Down) in
  Ok (default (umax 16) (try_from 16 bps)).

Definition predicted_confidence (dev_bps threshold_bps : Z) (heartbeat_only : bool) : Z :=
  if heartbeat_only then HEARTBEAT_CONFIDENCE_BPS else
  let t := Z.max threshold_bps 1 in
  let num := Z.min (dev_bps * 10000) (umax 32) in
  let den := saturating_add 32 dev_bps t in
  let c := Z.min (default 0 (checked_div num den)) 9999 in
  default 9999 (try_from 16 c).

(** An [Instant] holds its seconds in an [i64]. *)
Definition estimate_eta (now : Z) : option Z :=
  let t := now + ETA_SEAM_SECS * 10 ^ 9 in if t / 10 ^ 9 <=? 2 ^ 63 - 1 then Some t else None.

Definition on_tick (s : AggregatorSim) (now now_unix : Z) : option PendingUpdate :=
  let! px := median s in
  let! p := sm_last_onchain s in
  let '(last, last_ts) := p in
  match deviation_bps px last with
  | Err _ => None
  | Ok dev =>
      let hb_due := sm_heartbeat_secs s <=? saturating_sub now_unix last_ts in
      if (dev <? sm_deviation_threshold_bps s) && negb hb_due then None else
      let heartbeat_only := dev <? sm_deviation_threshold_bps s in
      let! eta := estimate_eta now in
      Some (mkPending (sm_feed s) (sm_asset s) px eta (predicted_confidence dev (sm_deviation_threshold_bps s) heartbeat_only))
  end.

(** ** Publication and fusion *)

(** The triple buffer: what its vectors hold, and the last one published. *)
Record PricePublish := mkPublish { pb_len : nat; pb_latest : PriceVector }.

Definition publish_split (init : PriceVector) : PricePublish := mkPublish (length init) init.
Definition publish_write (p : PricePublish) (v : PriceVector) : PricePublish :=
  if negb (pb_len p =? length v)%nat then p else mkPublish (pb_len p) v.
Definition publish_read (p : PricePublish) : PriceVector := pb_latest p.

Abbreviation RouteKey := (CexVenue * list Z)%type (only parsing).

Record Fusion := mkFusion {
  fu_book : CanonicalBook;
  fu_publish : PricePublish;
  fu_sims : list AggregatorSim;
  fu_route : gmap RouteKey (list (nat * nat));
  fu_forward : PriceVector;
  fu_pending : list PendingUpdate;
  fu_rx : list CexTick;
  fu_dropped : Z
}.

Fixpoint route_sources (idx slot : nat) (sources : list str) (route : gmap RouteKey (list (nat * nat)))
  : ORes (gmap RouteKey (list (nat * nat))) :=
  match sources with
  | [] => Ok route
  | raw :: sources =>
      let? k := parse_source raw in
      let? s := ok_or (try_from_nat 8 slot) OTooManyCexSources in
      route_sources idx (S slot) sources (<[k := default [] (route !! k) ++ [(idx, s)]]> route)
  end.

Fixpoint bind_sims (i : nat) (feeds : FeedSet) (route : gmap RouteKey (list (nat * nat)))
  : ORes (list AggregatorSim * gmap RouteKey (list (nat * nat))) :=
  match feeds with
  | [] => Ok ([], route)
  | f :: feeds =>
      let? idx := ok_or (try_from_nat 16 i) (OLoad "too many feeds") in
      let? sim := sim_new (rf_id f) (rf_asset f) (fs_deviation_bps (rf_spec f)) (fs_heartbeat_secs (rf_spec f))
                    (length (fs_sources (rf_spec f))) in
      let? route := route_sources idx 0 (fs_sources (rf_spec f)) route in
      let? (sims, route) := bind_sims (S i) feeds route in
      Ok (sim :: sims, route)
  end.

(** The forward slots before any prediction: a copy of the canonical price with no time. *)
Definition blank_forward (v : PriceVector) : PriceVector :=
  (fun p => mkPrice (p_asset p) (p_price p) (Predicted None 0) 0 0) <$> v.

Definition split_fusion (book : CanonicalBook) : ORes Fusion :=
  let? (sims, route) := bind_sims 0 (cb_feeds book) ∅ in
  Ok (mkFusion book (publish_split (cb_vector book)) sims route (blank_forward (cb_vector book)) [] [] 0).

(** [push_cex] on the sender of the fusion's channel. *)
Definition push_cex (f : Fusion) (t : CexTick) : Fusion :=
  if (length (fu_rx f) <? CHANNEL_CAP)%nat
  then mkFusion (fu_book f) (fu_publish f) (fu_sims f) (fu_route f) (fu_forward f) (fu_pending f) (fu_rx f ++ [t]) (fu_dropped f)
  else mkFusion (fu_book f) (fu_publish f) (fu_sims f) (fu_route f) (fu_forward f) (fu_pending f) (fu_rx f) ((fu_dropped f + 1) mod 2 ^ 64).

Definition write_forward (forward : PriceVector) (p : PendingUpdate) : PriceVector :=
  match forward !! Z.to_nat (pu_asset p) with
  | None => forward
  | Some _ =>
      <[Z.to_nat (pu_asset p) := mkPrice (pu_asset p) (pu_predicted p) (Predicted (Some (pu_eta p)) (pu_confidence p)) 0 1]> forward
  end.

(** One simulator a tick is routed to. *)
Definition quote_sim (tick : CexTick) (now now_unix : Z) (f : Fusion) (hit : nat * nat) : Fusion :=
  match fu_sims f !! fst hit with
  | None => f
  | Some sim =>
      let sim := on_quote sim (snd hit) tick in
      let sims := <[fst hit := sim]> (fu_sims f) in
      match on_tick sim now now_unix with
      | None => mkFusion (fu_book f) (fu_publish f) sims (fu_route f) (fu_forward f) (fu_pending f) (fu_rx f) (fu_dropped f)
      | Some p =>
          mkFusion (fu_book f) (fu_publish f) sims (fu_route f) (write_forward (fu_forward f) p) (fu_pending f ++ [p])
            (fu_rx f) (fu_dropped f)
      end
  end.

Definition ingest_cex (now now_unix : Z) (f : Fusion) (tick : CexTick) : Fusion :=
  match fu_route f !! (ct_venue tick, ct_symbol tick) with
  | None => f
  | Some hits => fold_left (quote_sim tick now now_unix) hits f
  end.

(** What the channel holds, in order; what arrives meanwhile is a later call's. *)
Definition drain_cex (f : Fusion) (now now_unix : Z) : Fusion :=
  fold_left (ingest_cex now now_unix) (fu_rx f)
    (mkFusion (fu_book f) (fu_publish f) (fu_sims f) (fu_route f) (fu_forward f) (fu_pending f) [] (fu_dropped f)).

Definition sync_onchain (book : CanonicalBook) (sims : list AggregatorSim) : list AggregatorSim :=
  (fun sim => match price book (sm_asset sim) with Some p => set_onchain sim (p_price p) (p_ts p) | None => sim end) <$> sims.

Definition apply_log `{OracleAbi} {S} `{HaltSink S} (f : Fusion) (log : DecodedLog) (sink : S) : Fusion * S * ORes bool :=
  let '(book, sink, r) := book_apply_log (fu_book f) log sink in
  match r with
  | Ok true =>
      (mkFusion book (publish_write (fu_publish f) (cb_vector book)) (sync_onchain book (fu_sims f)) (fu_route f) (fu_forward f)
         (fu_pending f) (fu_rx f) (fu_dropped f), sink, r)
  | _ => (mkFusion book (fu_publish f) (fu_sims f) (fu_route f) (fu_forward f) (fu_pending f) (fu_rx f) (fu_dropped f), sink, r)
  end.

Definition take_pending (f : Fusion) : Fusion * list PendingUpdate :=
  (mkFusion (fu_book f) (fu_publish f) (fu_sims f) (fu_route f) (fu_forward f) [] (fu_rx f) (fu_dropped f), fu_pending f).

Definition canonical (f : Fusion) : PriceVector := cb_vector (fu_book f).
Definition best_forward (f : Fusion) : PriceVector := fu_forward f.

(** One slot of [vector_at]. *)
Definition overlay (min : Z) (v : PriceVector) (i : nat) (f : Price) : PriceVector :=
  if p_ts f =? 0 then v else
  match p_source f with
  | Predicted _ confidence => if confidence <? min then v else match v !! i with Some _ => <[i := f]> v | None => v end
  | _ => v
  end.

Fixpoint overlay_loop (min : Z) (v : PriceVector) (i : nat) (forward : PriceVector) : PriceVector :=
  match forward with [] => v | f :: forward => overlay_loop min (overlay min v i f) (S i) forward end.

Definition vector_at (f : Fusion) (min : Z) : PriceVector :=
  if CERTAIN <=? min then canonical f else overlay_loop min (canonical f) 0 (fu_forward f).

Fixpoint heartbeat (feeds : FeedSet) (asset : AssetId) : Z :=
  match feeds with
  | [] => 0
  | f :: feeds => if rf_asset f =? asset then fs_heartbeat_secs (rf_spec f) else heartbeat feeds asset
  end.

Definition is_stale (f : Fusion) (asset : AssetId) (now : Z) : bool :=
  match canonical f !! Z.to_nat asset with
  | None => true
  | Some p =>
      if p_ts p =? 0 then true else
      stale_after (heartbeat (cb_feeds (fu_book f)) asset) <? saturating_sub now (p_ts p)
  end.

Fixpoint spawn_sources (sources : list str) (m : gmap CexVenue (list str)) : ORes (gmap CexVenue (list str)) :=
  match sources with
  | [] => Ok m
  | raw :: sources =>
      let? (v, s) := parse_source raw in
      let e := default [] (m !! v) in
      spawn_sources sources (<[v := if existsb (fun x => bool_decide (x = s)) e then e else e ++ [s]]> m)
  end.

Fixpoint venues_to_spawn (feeds : FeedSet) (m : gmap CexVenue (list str)) : ORes (gmap CexVenue (list str)) :=
  match feeds with
  | [] => Ok m
  | f :: feeds => let? m := spawn_sources (fs_sources (rf_spec f)) m in venues_to_spawn feeds m
  end.
