(* ===== verification/OracleThms.v ===== *)
(** * What the oracle promises

    Theorems about [Oracle]: exchange ticks never move the canonical prices, a canonical price
    is the newest answer of its feeds, staleness reaches the risk gate, predictions are gated
    and never certain, and decimals are read exactly. *)

From stdpp Require Import strings gmap.
From S2P Require Import Prelude Fixed Types Halt Gate Flash Ingest Engine RouterFees Oracle.
Local Open Scope Z_scope.

(** ** Runs *)

Inductive FusionOp :=
| FLog (log : DecodedLog)
| FPush (t : CexTick)
| FDrain (now now_unix : Z)
| FTake.

Section Runs.
Context `{OracleAbi} {S : Type} `{HaltSink S}.

Definition fusion_step (st : Fusion * S) (op : FusionOp) : Fusion * S :=
  match op with
  | FLog log => fst (apply_log (fst st) log (snd st))
  | FPush t => (push_cex (fst st) t, snd st)
  | FDrain now now_unix => (drain_cex (fst st) now now_unix, snd st)
  | FTake => (fst (take_pending (fst st)), snd st)
  end.
Definition fusion_run (st : Fusion * S) (ops : list FusionOp) : Fusion * S := fold_left fusion_step ops st.

Definition is_log (op : FusionOp) : bool := match op with FLog _ => true | _ => false end.

(** What the chain determines of a fusion. *)
Definition same_chain (f g : Fusion) : Prop := fu_book f = fu_book g /\ fu_publish f = fu_publish g.

Lemma quote_sim_chain tick now unix f hit : same_chain (quote_sim tick now unix f hit) f.
Proof. unfold quote_sim. destruct (fu_sims f !! fst hit); [|done]. by destruct (on_tick _ _ _). Qed.

Lemma fold_chain {A} (step : Fusion -> A -> Fusion) l : (forall f x, same_chain (step f x) f) ->
  forall f, same_chain (fold_left step l f) f.
Proof.
  intros Hs. induction l as [|x l IH]; intros f; cbn; [done|]. destruct (IH (step f x)), (Hs f x). split; congruence.
Qed.

Lemma ingest_cex_chain now unix f tick : same_chain (ingest_cex now unix f tick) f.
Proof. unfold ingest_cex. destruct (fu_route f !! _); [|done]. apply fold_chain. intros. apply quote_sim_chain. Qed.

Lemma tick_keeps_chain f sink op : is_log op = false ->
  same_chain (fst (fusion_step (f, sink) op)) f /\ snd (fusion_step (f, sink) op) = sink.
Proof.
  destruct op; cbn [is_log fusion_step fst snd]; intros Hl; try done; (split; [|done]).
  - unfold push_cex. by destruct (_ <? _)%nat.
  - unfold drain_cex. set (f0 := mkFusion _ _ _ _ _ _ _ _).
    destruct (fold_chain (ingest_cex now now_unix) (fu_rx f) (fun f t => ingest_cex_chain now now_unix f t) f0). done.
Qed.

Lemma apply_log_chain f g log sink : same_chain f g ->
  same_chain (fst (fst (apply_log f log sink))) (fst (fst (apply_log g log sink))) /\
  snd (fst (apply_log f log sink)) = snd (fst (apply_log g log sink)) /\ snd (apply_log f log sink) = snd (apply_log g log sink).
Proof.
  intros [Hb Hp]. unfold apply_log. rewrite Hb, Hp. destruct (book_apply_log (fu_book g) log sink) as [[b s] [[]|e]]; done.
Qed.

(** C30. Exchanges never move the canonical price: after any run of logs, ticks, drains and takes,
    the canonical book, the vector its readers see and everything told to the halt sink are
    those of the logs alone. *)
Theorem cex_never_moves_canonical (f : Fusion) (sink : S) (ops : list FusionOp) :
  let '(f1, s1) := fusion_run (f, sink) ops in
  let '(f2, s2) := fusion_run (f, sink) (List.filter is_log ops) in
  canonical f1 = canonical f2 /\ fu_book f1 = fu_book f2 /\ publish_read (fu_publish f1) = publish_read (fu_publish f2) /\ s1 = s2.
Proof.
  assert (Hsim : forall ops f g s, same_chain f g ->
    same_chain (fst (fusion_run (f, s) ops)) (fst (fusion_run (g, s) (List.filter is_log ops))) /\
    snd (fusion_run (f, s) ops) = snd (fusion_run (g, s) (List.filter is_log ops))).
  { clear. intros ops. induction ops as [|op ops IH]; intros f g s Hfg; [done|]. cbn [List.filter].
    destruct (is_log op) eqn:Hl.
    - destruct op; try done. cbn [fusion_run fold_left]. unfold fusion_run in IH.
      destruct (apply_log_chain f g log s Hfg) as (Hc & Hs & _). cbn [fusion_step fst snd].
      destruct (fst (apply_log f log s)) as [f' s'], (fst (apply_log g log s)) as [g' s'']. cbn in Hc, Hs. subst s''. by apply IH.
    - cbn [fusion_run fold_left]. destruct (tick_keeps_chain f s op Hl) as [Hc Hs].
      destruct (fusion_step (f, s) op) as [f' s']. cbn in Hc, Hs. subst s'. apply IH.
      destruct Hc, Hfg. split; congruence. }
  destruct (Hsim ops f f sink) as [Hc Hs]; [done|].
  destruct (fusion_run (f, sink) ops) as [f1 s1], (fusion_run (f, sink) (List.filter is_log ops)) as [f2 s2].
  cbn in Hc, Hs. destruct Hc as [Hb Hp]. unfold canonical. rewrite Hb, Hp. done.
Qed.
End Runs.

(** ** The canonical price *)

(** An answer in ray for an asset, from a feed. *)
Record Answer := mkAnswer { an_asset : AssetId; an_price : Z; an_block : Z; an_ts : Z }.

Definition on_agg (agg : Address) (f : ResolvedFeed) : bool :=
  match configured_aggregator (rf_spec f) with Ok a => a =? agg | Err _ => false end.

(** The answers of one log: one for each feed of its aggregator, in order, up to the first that
    does not convert. *)
Fixpoint converted (feeds : FeedSet) (agg : Address) (current block ts : Z) : list Answer :=
  match feeds with
  | [] => []
  | f :: feeds =>
      if on_agg agg f then
        match answer_to_ray current (fs_decimals (rf_spec f)) with
        | Ok px => mkAnswer (rf_asset f) px block ts :: converted feeds agg current block ts
        | Err _ => []
        end
      else converted feeds agg current block ts
  end.

Definition deliveries `{OracleAbi} (feeds : FeedSet) (log : DecodedLog) : list Answer :=
  match dl_topics log with
  | [] => []
  | t0 :: _ =>
      if t0 =? ANSWER_UPDATED_TOPIC0 then
        match decode_answer_updated (dl_topics log) (dl_data log) with
        | Some (current, updated_at) =>
            match try_from 64 updated_at with
            | Some ts => if ts =? 0 then [] else converted feeds (dl_address log) current (dl_block log) ts
            | None => []
            end
        | None => []
        end
      else []
  end.

Definition for_asset (i : nat) (ds : list Answer) : list Answer := List.filter (fun d => an_asset d =? Z.of_nat i) ds.

(** A slot holds the newest of the answers of its asset, the last of those with the same time,
    or nothing before the first. *)
Definition slot_holds (ds : list Answer) (i : nat) (p : Price) : Prop :=
  match for_asset i ds with
  | [] => p = mkPrice (Z.of_nat i) 0 Canonical 0 0
  | l => exists l1 d l2, l = l1 ++ d :: l2 /\ Forall (fun d' => an_ts d' <= an_ts d) l1 /\
      Forall (fun d' => an_ts d' < an_ts d) l2 /\ p = mkPrice (Z.of_nat i) (an_price d) Canonical (an_block d) (an_ts d)
  end.

Definition feeds_typed (feeds : FeedSet) : Prop := Forall (fun f => 0 <= rf_asset f) feeds.

Fixpoint positions (i : nat) (feeds : FeedSet) (agg : Address) : list nat :=
  match feeds with
  | [] => []
  | f :: feeds => if on_agg agg f then i :: positions (S i) feeds agg else positions (S i) feeds agg
  end.

Record book_ok (feeds : FeedSet) (ds : list Answer) (b : CanonicalBook) : Prop := {
  bo_feeds : cb_feeds b = feeds;
  bo_slots : length (cb_by_asset b) = length (cb_asset_addrs b);
  bo_vector : length (cb_vector b) = length (cb_asset_addrs b);
  bo_fed : forall f, f ∈ feeds -> exists s, cb_by_asset b !! Z.to_nat (rf_asset f) = Some (Some s) /\
    as_heartbeat_secs s = fs_heartbeat_secs (rf_spec f);
  bo_by_agg : forall agg, default [] (cb_by_agg b !! agg) = positions 0 feeds agg;
  bo_newest : forall i p, cb_vector b !! i = Some p -> slot_holds ds i p;
  bo_last : forall i p s, cb_vector b !! i = Some p -> cb_by_asset b !! i = Some (Some s) -> as_last_ts s = p_ts p
}.

Lemma for_asset_snoc i ds d : for_asset i (ds ++ [d]) = for_asset i ds ++ (if an_asset d =? Z.of_nat i then [d] else []).
Proof. unfold for_asset. rewrite List.filter_app. cbn. by destruct (_ =? _). Qed.

Lemma slot_holds_at ds i l1 d l2 : for_asset i ds = l1 ++ d :: l2 -> Forall (fun d' => an_ts d' <= an_ts d) l1 ->
  Forall (fun d' => an_ts d' < an_ts d) l2 -> slot_holds ds i (mkPrice (Z.of_nat i) (an_price d) Canonical (an_block d) (an_ts d)).
Proof.
  intros E H1 H2. unfold slot_holds. destruct (for_asset i ds) eqn:E2; [by destruct l1|]. by exists l1, d, l2.
Qed.

(** The next answer of the asset: taken unless it is older than what the slot holds. *)
Lemma slot_holds_next ds i p d : slot_holds ds i p -> an_asset d = Z.of_nat i -> 0 < an_ts d ->
  slot_holds (ds ++ [d]) i (if an_ts d <? p_ts p then p else mkPrice (Z.of_nat i) (an_price d) Canonical (an_block d) (an_ts d)).
Proof.
  intros Hs Ha Ht. pose proof (for_asset_snoc i ds d) as E. rewrite Ha, Z.eqb_refl in E. unfold slot_holds in Hs.
  destruct (for_asset i ds) as [|d0 l].
  - subst p. cbn [p_ts]. rewrite (proj2 (Z.ltb_ge _ _)) by lia. by apply (slot_holds_at _ _ [] d []).
  - destruct Hs as (l1 & e & l2 & Hl & H1 & H2 & ->). rewrite Hl in E. cbn [p_ts].
    destruct (an_ts d <? an_ts e) eqn:Et; zbool.
    + apply (slot_holds_at _ _ l1 e (l2 ++ [d])); [by rewrite E, <- app_assoc|done|]. apply Forall_app. split; [done|by constructor].
    + apply (slot_holds_at _ _ (l1 ++ e :: l2) d []); [done| |constructor]. apply Forall_app. split.
      * eapply Forall_impl; [exact H1|]. cbn. lia.
      * constructor; [done|]. eapply Forall_impl; [exact H2|]. cbn. lia.
Qed.

Lemma slot_holds_other ds i p d : an_asset d <> Z.of_nat i -> slot_holds ds i p -> slot_holds (ds ++ [d]) i p.
Proof. intros Hn Hs. unfold slot_holds in *. by rewrite for_asset_snoc, (proj2 (Z.eqb_neq _ _) Hn), app_nil_r. Qed.

(** An answer of a feed is taken or passed over, never an error. *)
Lemma write_price_ok feeds ds b d : book_ok feeds ds b -> 0 <= an_asset d -> 0 < an_ts d ->
  (exists f, f ∈ feeds /\ rf_asset f = an_asset d) ->
  exists b' c, write_price b (an_asset d) (an_price d) (an_block d) (an_ts d) = (b', Ok c) /\ book_ok feeds (ds ++ [d]) b' /\
    cb_asset_addrs b' = cb_asset_addrs b.
Proof.
  intros [Hf Hs Hv Hfed Hagg Hn Hl] Ha Ht (f & Hin & Hfa). destruct (Hfed f Hin) as (s & Hsl & Hhb). rewrite Hfa in Hsl.
  set (i := Z.to_nat (an_asset d)) in *. assert (Hai : an_asset d = Z.of_nat i) by (unfold i; lia).
  assert (Hlt : (i < length (cb_asset_addrs b))%nat) by (rewrite <- Hs; by eapply lookup_lt_Some).
  destruct (lookup_lt_is_Some_2 (cb_asset_addrs b) i Hlt) as [addr Hadd].
  destruct (lookup_lt_is_Some_2 (cb_vector b) i ltac:(lia)) as [p Hp].
  pose proof (Hl i p s Hp Hsl) as Hlast. pose proof (slot_holds_next ds i p d (Hn i p Hp) Hai Ht) as Hnext.
  unfold write_price. fold i. rewrite Hadd, Hsl, Hp.
  assert (Hothers : forall j p', j <> i -> cb_vector b !! j = Some p' -> slot_holds (ds ++ [d]) j p')
    by (intros j p' Hj Hp'; apply slot_holds_other; [lia|by apply Hn]).
  destruct (negb (as_last_ts s =? 0) && (an_ts d <? as_last_ts s)) eqn:Ec.
  - exists b, false. split; [done|]. split; [|done]. constructor; try done. intros j p' Hp'.
    destruct (decide (j = i)) as [->|Hj]; [|by apply Hothers]. rewrite Hp in Hp'. injection Hp' as <-.
    apply andb_true_iff in Ec as [_ Ec]. rewrite <- Hlast, Ec in Hnext. done.
  - eexists _, true. split; [reflexivity|]. split; [|done].
    assert (Hns : (an_ts d <? p_ts p) = false).
    { rewrite <- Hlast. apply andb_false_iff in Ec as [Ec|Ec]; [|done]. apply negb_false_iff, Z.eqb_eq in Ec. rewrite Ec. apply Z.ltb_ge. lia. }
    rewrite Hns in Hnext. unfold with_prices. constructor; cbn; try done; rewrite ?length_insert; try done.
    + intros f' Hf'. destruct (Hfed f' Hf') as (s' & Hs' & Hb'). destruct (decide (Z.to_nat (rf_asset f') = i)) as [E|E].
      * rewrite E in *. rewrite Hsl in Hs'. injection Hs' as <-. eexists. rewrite list_lookup_insert_eq by (rewrite Hs; done). done.
      * exists s'. by rewrite list_lookup_insert_ne.
    + intros j p' Hp'. destruct (decide (j = i)) as [->|Hj].
      * rewrite list_lookup_insert_eq in Hp' by (rewrite Hv; done). injection Hp' as <-. by rewrite Hai.
      * rewrite list_lookup_insert_ne in Hp' by done. by apply Hothers.
    + intros j p' s' Hp' Hs'. destruct (decide (j = i)) as [->|Hj].
      * rewrite list_lookup_insert_eq in Hp' by (rewrite Hv; done). rewrite list_lookup_insert_eq in Hs' by (rewrite Hs; done).
        by injection Hp' as <-; injection Hs' as <-.
      * rewrite list_lookup_insert_ne in Hp' by done. rewrite list_lookup_insert_ne in Hs' by done. by eapply Hl.
Qed.

Lemma converted_in feeds agg current block ts d : d ∈ converted feeds agg current block ts ->
  an_ts d = ts /\ exists f, f ∈ feeds /\ rf_asset f = an_asset d.
Proof.
  induction feeds as [|f feeds IH]; cbn; [by intros ?%not_elem_of_nil|]. intros Hd.
  assert (Hrest : d ∈ converted feeds agg current block ts -> an_ts d = ts /\ exists g, g ∈ f :: feeds /\ rf_asset g = an_asset d).
  { intros H'. destruct (IH H') as (Ht & g & Hg & Ha). split; [done|]. exists g. split; [by apply list_elem_of_further|done]. }
  destruct (on_agg agg f); [|auto]. destruct (answer_to_ray _ _); [|by apply not_elem_of_nil in Hd].
  apply elem_of_cons in Hd as [->|Hd]; [|auto]. split; [done|]. exists f. split; [apply list_elem_of_here|done].
Qed.

Section BookRuns.
Context `{OracleAbi} {S : Type} `{HaltSink S}.

Definition book_step (st : CanonicalBook * S) (log : DecodedLog) : CanonicalBook * S := fst (book_apply_log (fst st) log (snd st)).
Definition book_run (st : CanonicalBook * S) (logs : list DecodedLog) : CanonicalBook * S := fold_left book_step logs st.

Lemma answer_loop_ok feeds agg current block ts : feeds_typed feeds -> 0 < ts -> forall fs pre ds b sink changed,
  feeds = pre ++ fs -> book_ok feeds ds b ->
  let '(b', _, _) := answer_loop b sink current block ts (positions (length pre) fs agg) changed in
  book_ok feeds (ds ++ converted fs agg current block ts) b' /\ cb_asset_addrs b' = cb_asset_addrs b.
Proof.
  intros Hty Ht. induction fs as [|f fs IH]; intros pre ds b sink changed Hfs Hb; cbn [positions converted answer_loop].
  { by rewrite app_nil_r. }
  assert (Hpre : feeds = (pre ++ [f]) ++ fs) by (by rewrite <- app_assoc).
  assert (Hlen : length (pre ++ [f]) = Datatypes.S (length pre)) by (rewrite length_app; cbn; lia).
  destruct (on_agg agg f); [|rewrite <- Hlen; by apply IH]. cbn [answer_loop].
  assert (Hlk : feeds !! length pre = Some f) by (rewrite Hfs; by apply list_lookup_middle).
  rewrite (bo_feeds _ _ _ Hb), Hlk.
  destruct (answer_to_ray current (fs_decimals (rf_spec f))) as [px|e]; [|by rewrite app_nil_r].
  set (d := mkAnswer (rf_asset f) px block ts). assert (Hin : f ∈ feeds) by (rewrite Hfs; set_solver).
  unfold feeds_typed in Hty. rewrite Forall_forall in Hty.
  destruct (write_price_ok feeds ds b d Hb (Hty f Hin) Ht (ex_intro _ f (conj Hin eq_refl))) as (b' & c & Hw & Hb' & Ha).
  cbn in Hw. rewrite Hw, <- Hlen. rewrite (cons_middle d ds (converted _ _ _ _ _)), app_assoc.
  destruct c; [specialize (IH (pre ++ [f]) _ b' (sink_clear sink (SAsset (rf_asset f)) OracleStale) true Hpre Hb')
              |specialize (IH (pre ++ [f]) _ b' sink changed Hpre Hb')];
    (destruct (answer_loop _ _ _ _ _ _ _) as [[b2 s2] r2]; destruct IH as [IH1 IH2]; split; [done|congruence]).
Qed.

Lemma book_step_ok feeds ds b sink log : feeds_typed feeds -> book_ok feeds ds b ->
  book_ok feeds (ds ++ deliveries feeds log) (fst (book_step (b, sink) log)) /\
  cb_asset_addrs (fst (book_step (b, sink) log)) = cb_asset_addrs b.
Proof.
  intros Hty Hb. unfold book_step, book_apply_log, deliveries. cbn [fst snd].
  destruct (dl_topics log) as [|t0 ts'] eqn:Et; [by rewrite app_nil_r|].
  destruct (t0 =? ANSWER_UPDATED_TOPIC0).
  - unfold apply_answer. rewrite Et. destruct (decode_answer_updated _ _) as [[current upd]|]; [|by rewrite app_nil_r].
    destruct (try_from 64 upd) as [ts|] eqn:Etf; [|by rewrite app_nil_r].
    destruct (ts =? 0) eqn:E0; [by rewrite app_nil_r|]. zbool. apply try_from_Some in Etf as [-> Hu].
    pose proof (bo_by_agg _ _ _ Hb (dl_address log)) as Hpos. destruct Hu as [Hu _].
    pose proof (answer_loop_ok feeds (dl_address log) current (dl_block log) upd Hty ltac:(lia) feeds [] ds b sink false eq_refl Hb) as Hloop.
    cbn [length] in Hloop. rewrite <- Hpos in Hloop.
    destruct (cb_by_agg b !! dl_address log) as [idxs|]; cbn [default] in Hloop.
    + by destruct (answer_loop _ _ _ _ _ _ _) as [[? ?] ?].
    + cbn in Hloop. exact Hloop.
  - rewrite app_nil_r. destruct (t0 =? asset_source_updated_topic0).
    { unfold apply_source_swap. destruct (decode_asset_source_updated _ _) as [[a s']|]; [|done]. by destruct (source_loop _ _ _ _). }
    destruct (t0 =? price_oracle_updated_topic0); [|done].
    unfold apply_oracle_contract_swap. by destruct (decode_price_oracle_updated _ _).
Qed.

Lemma book_run_ok feeds logs : feeds_typed feeds -> forall ds b sink, book_ok feeds ds b ->
  book_ok feeds (ds ++ flat_map (deliveries feeds) logs) (fst (book_run (b, sink) logs)) /\
  cb_asset_addrs (fst (book_run (b, sink) logs)) = cb_asset_addrs b.
Proof.
  intros Hty. induction logs as [|log logs IH]; intros ds b sink Hb; cbn; [by rewrite app_nil_r|].
  destruct (book_step_ok feeds ds b sink log Hty Hb) as [H1 H2]. destruct (book_step (b, sink) log) as [b' s']. cbn in H1, H2.
  destruct (IH _ b' s' H1) as [H3 H4]. unfold book_run in *. rewrite app_assoc. split; [done|congruence].
Qed.
End BookRuns.

(** *** The book at the start *)

Lemma bind_feeds_index fs : forall i m slots m' slots', bind_feeds i fs m slots = Ok (m', slots') ->
  (forall agg k, k ∈ default [] (m !! agg) -> (k < i)%nat) ->
  forall agg, default [] (m' !! agg) = default [] (m !! agg) ++ positions i fs agg.
Proof.
  induction fs as [|f fs IH]; intros i m slots m' slots' H Hlt agg; cbn [bind_feeds positions] in *.
  { injection H as <- <-. by rewrite app_nil_r. }
  apply bind_Ok in H as (idx & Hi & H). apply ok_or_Ok in Hi. unfold try_from_nat in Hi.
  destruct (_ <=? _); [|done]. injection Hi as <-. apply bind_Ok in H as (canon & Hc & H). cbv zeta in H.
  assert (Hnot : existsb (Nat.eqb i) (default [] (m !! canon)) = false).
  { apply not_true_is_false. intros (k & Hk & E)%existsb_exists. apply Nat.eqb_eq in E as <-.
    apply list_elem_of_In, Hlt in Hk. lia. }
  rewrite Hnot in H. set (m1 := <[canon := _]> m) in H.
  assert (Hrec : exists slots1, bind_feeds (S i) fs m1 slots1 = Ok (m', slots')).
  { destruct (slots !! _) as [[ex|]|]; [|by eexists|done]. destruct (negb _); [done|by eexists]. }
  destruct Hrec as [slots1 Hrec].
  assert (Hm1 : forall a, default [] (m1 !! a) = default [] (m !! a) ++ (if canon =? a then [i] else [])).
  { intros a. unfold m1. destruct (canon =? a) eqn:E; zbool.
    - subst. by rewrite lookup_insert_eq.
    - by rewrite lookup_insert_ne, app_nil_r. }
  rewrite (IH _ _ _ _ _ Hrec), Hm1.
  - unfold on_agg. rewrite Hc. rewrite <- app_assoc. by destruct (canon =? agg).
  - intros a k Hk. rewrite Hm1 in Hk. apply elem_of_app in Hk as [Hk|Hk]; [apply Hlt in Hk; lia|].
    destruct (canon =? a); [apply list_elem_of_singleton in Hk; lia|by apply not_elem_of_nil in Hk].
Qed.

Lemma bind_feeds_slots fs : forall i m slots m' slots', bind_feeds i fs m slots = Ok (m', slots') ->
  length slots' = length slots /\
  (forall k s, slots !! k = Some (Some s) -> slots' !! k = Some (Some s)) /\
  (forall k s, slots' !! k = Some (Some s) -> slots !! k = Some (Some s) \/ as_last_ts s = 0) /\
  (forall f, f ∈ fs -> exists s, slots' !! Z.to_nat (rf_asset f) = Some (Some s) /\ as_heartbeat_secs s = fs_heartbeat_secs (rf_spec f)).
Proof.
  induction fs as [|f fs IH]; intros i m slots m' slots' H; cbn [bind_feeds] in H.
  { injection H as <- <-. split_and!; auto. by intros f ?%not_elem_of_nil. }
  apply bind_Ok in H as (idx & _ & H). apply bind_Ok in H as (canon & _ & H). cbv zeta in H.
  set (k0 := Z.to_nat (rf_asset f)) in *. destruct (slots !! k0) as [[ex|]|] eqn:Ek; [| |done].
  - destruct (negb _) eqn:Eh; [done|]. apply negb_false_iff, Z.eqb_eq in Eh. destruct (IH _ _ _ _ _ H) as (Hl & H1 & H2 & H3).
    split_and!; try done. intros g [->|Hg]%elem_of_cons; [|by apply H3]. exists ex. split; [by apply H1|done].
  - set (s0 := mkSlot (fs_heartbeat_secs (rf_spec f)) 0) in *. destruct (IH _ _ _ _ _ H) as (Hl & H1 & H2 & H3).
    rewrite length_insert in Hl. assert (Hlt : (k0 < length slots)%nat) by (by eapply lookup_lt_Some). split_and!; try done.
    + intros k s Hs. apply H1. rewrite list_lookup_insert_ne by (intros <-; congruence). done.
    + intros k s Hs. destruct (H2 k s Hs) as [Hs2|]; [|by right]. destruct (decide (k = k0)) as [->|Hk].
      * rewrite list_lookup_insert_eq in Hs2 by done. injection Hs2 as <-. by right.
      * rewrite list_lookup_insert_ne in Hs2 by done. by left.
    + intros g [->|Hg]%elem_of_cons; [|by apply H3]. exists s0. split; [apply H1; by rewrite list_lookup_insert_eq|done].
Qed.

Lemma book_new_ok feeds addrs b : book_new feeds addrs = Ok b -> book_ok feeds [] b /\ cb_asset_addrs b = addrs.
Proof.
  unfold book_new. destruct (_ <? _)%nat; [done|]. intros H. apply bind_Ok in H as ([m slots] & Hb & H). injection H as <-.
  pose proof (bind_feeds_index _ _ _ _ _ _ Hb) as Hidx. apply bind_feeds_slots in Hb as (Hl & _ & Hslots & Hfed).
  rewrite length_replicate in Hl. split; [|done].
  assert (Hv : forall i p, ((fun i => mkPrice (Z.of_nat i) 0 Canonical 0 0) <$> seq 0 (length addrs)) !! i = Some p ->
    p = mkPrice (Z.of_nat i) 0 Canonical 0 0).
  { intros i p Hp. rewrite list_lookup_fmap in Hp. destruct (seq 0 (length addrs) !! i) as [k|] eqn:E; [|done].
    apply lookup_seq in E as [-> _]. by injection Hp as <-. }
  constructor; cbn [cb_feeds cb_by_agg cb_by_asset cb_asset_addrs cb_vector]; try done.
  - by rewrite length_fmap, length_seq.
  - intros agg. rewrite Hidx; [by rewrite lookup_empty|]. intros a k Hk. rewrite lookup_empty in Hk. by apply not_elem_of_nil in Hk.
  - intros i p s Hp Hs. apply Hv in Hp as ->. destruct (Hslots i s Hs) as [Hr|Hz]; [|done].
    apply lookup_replicate in Hr as [? _]. done.
Qed.

(** C9. The canonical price is the newest answer: whatever logs a fresh book was folded over, each
    slot holds the newest answer of the feeds of its asset, scaled to ray, the latest of those
    with one time, or nothing before the first; answers of other aggregators, older answers and
    every other log leave it as it was. *)
Theorem canonical_is_newest_answer `{OracleAbi} {S : Type} `{HaltSink S} (feeds : FeedSet) (addrs : list Address)
    (b0 : CanonicalBook) (sink : S) (logs : list DecodedLog) (Hty : feeds_typed feeds) (Hnew : book_new feeds addrs = Ok b0) :
  let b := fst (book_run (b0, sink) logs) in
  length (cb_vector b) = length addrs /\
  forall i p, cb_vector b !! i = Some p -> slot_holds (flat_map (deliveries feeds) logs) i p.
Proof.
  destruct (book_new_ok _ _ _ Hnew) as [Hok Ha]. destruct (book_run_ok feeds logs Hty [] b0 sink Hok) as [Hb Hadd].
  cbv zeta. split; [by rewrite (bo_vector _ _ _ Hb), Hadd, Ha|]. exact (bo_newest _ _ _ Hb).
Qed.

(** ** Staleness and the risk gate *)

Definition slot_stale (now : Z) (o : option AssetSlot) : bool :=
  match o with Some s => stale_after (as_heartbeat_secs s) <? saturating_sub now (as_last_ts s) | None => false end.

Lemma entry_at_stale g a s :
  entry_at (sink_halt g (SAsset a) OracleStale) s = if bool_decide (s = SAsset a) then Some OracleStale else entry_at g s.
Proof.
  cbn [sink_halt HaltSink_gate]. rewrite entry_at_halt. change (normalize_scope _ _ _) with (Some (SAsset a)).
  erewrite bool_decide_ext; [reflexivity|]. split; [intros [[= <-] _]; done|intros ->; done].
Qed.

Lemma staleness_gate now slots : forall i (g : RiskGate), Z.of_nat (i + length slots) <= 2 ^ 16 ->
  (forall a, a < Z.of_nat i -> entry_at (staleness_loop i slots now g) (SAsset a) = entry_at g (SAsset a)) /\
  (forall k o, slots !! k = Some o -> entry_at (staleness_loop i slots now g) (SAsset (Z.of_nat (i + k))) =
     if slot_stale now o then Some OracleStale else entry_at g (SAsset (Z.of_nat (i + k)))) /\
  (forall s, (forall a, s <> SAsset a) -> entry_at (staleness_loop i slots now g) s = entry_at g s).
Proof.
  induction slots as [|o slots IH]; intros i g Hl; [done|]. cbn [length] in Hl.
  assert (Hl' : Z.of_nat (S i + length slots) <= 2 ^ 16) by lia.
  assert (Hstep : exists g', staleness_loop i (o :: slots) now g = staleness_loop (S i) slots now g' /\
    forall s, entry_at g' s = if slot_stale now o && bool_decide (s = SAsset (Z.of_nat i)) then Some OracleStale else entry_at g s).
  { cbn [staleness_loop slot_stale]. destruct o as [sl|]; [|by exists g]. cbn [slot_stale].
    destruct (stale_after _ <? _); [|by exists g]. unfold try_from_nat.
    rewrite (proj2 (Z.leb_le _ _)) by (unfold umax; lia). eexists. split; [reflexivity|]. intros s. apply entry_at_stale. }
  destruct Hstep as (g' & -> & Hg'). destruct (IH (S i) g' Hl') as (H1 & H2 & H3).
  assert (Hne : forall a, a <> Z.of_nat i -> entry_at g' (SAsset a) = entry_at g (SAsset a)).
  { intros a Ha. rewrite Hg', bool_decide_eq_false_2, andb_false_r by congruence. done. }
  split_and!.
  - intros a Ha. rewrite H1 by lia. apply Hne. lia.
  - intros [|k] o' Ho; cbn in Ho.
    + injection Ho as <-. rewrite Nat.add_0_r, H1 by lia. rewrite Hg', bool_decide_eq_true_2, andb_true_r by done. done.
    + replace (i + S k)%nat with (S i + k)%nat by lia. rewrite (H2 k o' Ho). destruct (slot_stale now o'); [done|]. apply Hne. lia.
  - intros s Hs. rewrite H3 by done. rewrite Hg', bool_decide_eq_false_2, andb_false_r by (intros ->; by eapply Hs). done.
Qed.

Lemma heartbeat_fed feeds ds b f : book_ok feeds ds b -> feeds_typed feeds -> f ∈ feeds ->
  exists s, cb_by_asset b !! Z.to_nat (rf_asset f) = Some (Some s) /\ as_heartbeat_secs s = heartbeat feeds (rf_asset f).
Proof.
  intros Hb Hty Hin. destruct (bo_fed _ _ _ Hb f Hin) as (s & Hs & _). exists s. split; [done|].
  assert (Hall : forall g, g ∈ feeds -> rf_asset g = rf_asset f -> fs_heartbeat_secs (rf_spec g) = as_heartbeat_secs s).
  { intros g Hg Ha. destruct (bo_fed _ _ _ Hb g Hg) as (s' & Hs' & Hh). rewrite Ha, Hs in Hs'. by injection Hs' as <-. }
  clear Hs Hty Hb. revert Hall Hin. generalize (as_heartbeat_secs s) as hb. intros hb. induction feeds as [|g feeds IH]; intros Hall Hin;
    [by apply not_elem_of_nil in Hin|]. cbn. destruct (rf_asset g =? rf_asset f) eqn:E; zbool.
  - symmetry. apply Hall; [apply list_elem_of_here|done].
  - apply IH; [intros g' Hg'; apply Hall; by apply list_elem_of_further|].
    apply elem_of_cons in Hin as [->|Hin]; [done|exact Hin].
Qed.

Section Fusions.
Context `{OracleAbi} {S : Type} `{HaltSink S}.

Lemma fusion_run_ok feeds ops : feeds_typed feeds -> forall ds (f : Fusion) (sink : S), book_ok feeds ds (fu_book f) ->
  exists ds', book_ok feeds ds' (fu_book (fst (fusion_run (f, sink) ops))) /\
    cb_asset_addrs (fu_book (fst (fusion_run (f, sink) ops))) = cb_asset_addrs (fu_book f).
Proof.
  intros Hty. induction ops as [|op ops IH]; intros ds f sink Hb; cbn [fusion_run fold_left]; [by exists ds|].
  assert (Hstep : exists ds', book_ok feeds ds' (fu_book (fst (fusion_step (f, sink) op))) /\
    cb_asset_addrs (fu_book (fst (fusion_step (f, sink) op))) = cb_asset_addrs (fu_book f)).
  { destruct (is_log op) eqn:El.
    - destruct op; try done. destruct (book_step_ok feeds ds (fu_book f) sink log Hty Hb) as [H1 H2].
      exists (ds ++ deliveries feeds log). unfold book_step in H1, H2. cbn [fst snd] in H1, H2. cbn [fusion_step fst snd]. unfold apply_log.
      destruct (book_apply_log (fu_book f) log sink) as [[b s] [[]|e]]; done.
    - destruct (tick_keeps_chain f sink op El) as [[Hc _] _]. exists ds. by rewrite Hc. }
  destruct Hstep as (ds' & H1 & H2). destruct (fusion_step (f, sink) op) as [f' s']. cbn in H1, H2.
  destruct (IH ds' f' s' H1) as (ds2 & H3 & H4). exists ds2. unfold fusion_run in *. split; [done|congruence].
Qed.
End Fusions.

(** C32. Stale prices stop submissions: at any point of any run, a staleness check at a time past
    its window denies every submission that borrows or seizes an asset whose price [is_stale]
    reports stale, raises no halt for an asset whose price is fresh, and touches no other
    scope of the gate. *)
Theorem stale_prices_deny `{OracleAbi} (feeds : FeedSet) (addrs : list Address) (b0 : CanonicalBook) (f0 : Fusion) (g0 : RiskGate)
    (ops : list FusionOp) (now : Z) (fd : ResolvedFeed) (q : AllowQuery)
    (Hty : feeds_typed feeds) (Hnew : book_new feeds addrs = Ok b0) (Hsplit : split_fusion b0 = Ok f0)
    (Hfd : fd ∈ feeds) (Hnow : stale_after (fs_heartbeat_secs (rf_spec fd)) < now) :
  let '(f, g) := fusion_run (f0, g0) ops in
  let g' := check_staleness (fu_book f) now g in
  (is_stale f (rf_asset fd) now = true -> hits q (SAsset (rf_asset fd)) -> allow g' q <> AYes) /\
  (is_stale f (rf_asset fd) now = false -> entry_at g' (SAsset (rf_asset fd)) = entry_at g (SAsset (rf_asset fd))) /\
  (forall s, (forall a, s <> SAsset a) -> entry_at g' s = entry_at g s).
Proof.
  destruct (book_new_ok _ _ _ Hnew) as [Hok Haddr]. unfold split_fusion in Hsplit.
  apply bind_Ok in Hsplit as ([sims route] & _ & Hsplit). injection Hsplit as Hsplit.
  assert (Hb0 : book_ok feeds [] (fu_book f0)) by (by subst f0).
  destruct (fusion_run_ok feeds ops Hty [] f0 g0 Hb0) as (ds & Hb & Hadd).
  destruct (fusion_run (f0, g0) ops) as [f g]. cbn [fst] in Hb, Hadd. cbv zeta.
  assert (Hn : Z.of_nat (0 + length (cb_by_asset (fu_book f))) <= 2 ^ 16).
  { rewrite (bo_slots _ _ _ Hb), Hadd. subst f0. cbn [fu_book]. rewrite Haddr. unfold book_new in Hnew.
    destruct (_ <? _)%nat eqn:E in Hnew; [done|]. apply Nat.ltb_ge in E. lia. }
  destruct (staleness_gate now _ 0%nat g Hn) as (_ & H2 & H3).
  assert (Ha : 0 <= rf_asset fd) by (unfold feeds_typed in Hty; rewrite Forall_forall in Hty; by apply Hty).
  destruct (heartbeat_fed _ _ _ fd Hb Hty Hfd) as (s & Hs & Hhb).
  destruct (bo_fed _ _ _ Hb fd Hfd) as (s' & Hs' & Hhb'). rewrite Hs in Hs'. injection Hs' as <-.
  specialize (H2 _ _ Hs). rewrite Nat.add_0_l, Z2Nat.id in H2 by done.
  destruct (lookup_lt_is_Some_2 (cb_vector (fu_book f)) (Z.to_nat (rf_asset fd))) as [p Hp].
  { rewrite (bo_vector _ _ _ Hb), <- (bo_slots _ _ _ Hb). by eapply lookup_lt_Some. }
  assert (Hst : is_stale f (rf_asset fd) now = slot_stale now (Some s)).
  { unfold is_stale, canonical, slot_stale. rewrite Hp, (bo_feeds _ _ _ Hb), <- Hhb.
    rewrite (bo_last _ _ _ Hb _ _ _ Hp Hs). destruct (p_ts p =? 0) eqn:E; [|done]. zbool. rewrite E, Hhb'.
    symmetry. apply Z.ltb_lt. unfold saturating_sub. lia. }
  rewrite Hst. split_and!; [| |exact H3].
  - intros Hss Hq. rewrite Hss in H2. by eapply hit_denied.
  - intros Hss. by rewrite Hss in H2.
Qed.

(** ** Publication *)

Section Published.
Context `{OracleAbi} {S : Type} `{HaltSink S}.

(** Every log of the run was folded without an error. *)
Fixpoint clean (st : Fusion * S) (ops : list FusionOp) : Prop :=
  match ops with
  | [] => True
  | op :: ops =>
      match op with FLog log => exists c, snd (apply_log (fst st) log (snd st)) = Ok c | _ => True end /\
      clean (fusion_step st op) ops
  end.

Lemma answer_loop_unchanged current block ts idxs : forall b sink changed b' s' c,
  answer_loop b sink current block ts idxs changed = (b', s', Ok c) -> (changed = true -> c = true) /\ (c = false -> b' = b).
Proof.
  induction idxs as [|idx idxs IH]; intros b sink changed b' s' c Hl; cbn [answer_loop] in Hl.
  { injection Hl as <- <- <-. done. }
  destruct (cb_feeds b !! idx) as [feed|]; [|done]. destruct (answer_to_ray _ _) as [px|]; [|done].
  destruct (write_price b (rf_asset feed) px block ts) as [b1 [[]|e]] eqn:Ew; [| |done].
  - apply IH in Hl as [H1 _]. specialize (H1 eq_refl). subst c. done.
  - assert (b1 = b) as ->; [|by apply IH in Hl].
    unfold write_price in Ew. destruct (cb_asset_addrs b !! _); [|by injection Ew]. destruct (cb_by_asset b !! _) as [[sl|]|]; [|by injection Ew..].
    destruct (_ && _); [by injection Ew|]. by destruct (cb_vector b !! _).
Qed.

Lemma apply_log_unchanged b log (sink : S) b' s' : book_apply_log b log sink = (b', s', Ok false) -> b' = b.
Proof.
  unfold book_apply_log. destruct (dl_topics log) as [|t0 tl]; [by intros [= <-]|].
  destruct (t0 =? ANSWER_UPDATED_TOPIC0).
  - unfold apply_answer. destruct (decode_answer_updated _ _) as [[cur upd]|]; [|done]. destruct (try_from 64 upd) as [ts|]; [|done].
    destruct (ts =? 0); [done|]. destruct (cb_by_agg b !! _); [|by intros [= <-]]. intros Hl. by apply answer_loop_unchanged in Hl as [_ Hl]; auto.
  - destruct (t0 =? asset_source_updated_topic0).
    { unfold apply_source_swap. destruct (decode_asset_source_updated _ _) as [[? ?]|]; [|done]. destruct (source_loop _ _ _ _). by intros [= <-]. }
    destruct (t0 =? price_oracle_updated_topic0); [|by intros [= <-]].
    unfold apply_oracle_contract_swap. destruct (decode_price_oracle_updated _ _); [|done]. by intros [= <-].
Qed.

(** Readers see the canonical vector: from a fresh fusion, through any run whose logs fold
    without an error, what is published is the canonical vector. *)
Theorem published_is_canonical (feeds : FeedSet) (addrs : list Address) (b0 : CanonicalBook) (f0 : Fusion) (sink : S)
    (ops : list FusionOp) (Hty : feeds_typed feeds) (Hnew : book_new feeds addrs = Ok b0) (Hsplit : split_fusion b0 = Ok f0)
    (Hclean : clean (f0, sink) ops) :
  let f := fst (fusion_run (f0, sink) ops) in publish_read (fu_publish f) = canonical f.
Proof.
  destruct (book_new_ok _ _ _ Hnew) as [Hok _]. unfold split_fusion in Hsplit.
  apply bind_Ok in Hsplit as ([sims route] & _ & Hsplit). injection Hsplit as Hsplit. cbv zeta.
  assert (Hinv : forall ops ds f s, book_ok feeds ds (fu_book f) -> pb_len (fu_publish f) = length (cb_asset_addrs (fu_book f)) ->
    pb_latest (fu_publish f) = canonical f -> clean (f, s) ops ->
    pb_latest (fu_publish (fst (fusion_run (f, s) ops))) = canonical (fst (fusion_run (f, s) ops))).
  { clear ops Hclean. intros ops. induction ops as [|op ops IH]; intros ds f s Hb Hl Hp Hc; [done|]. destruct Hc as [Hop Hc].
    cbn [fusion_run fold_left]. unfold fusion_run in IH. destruct (is_log op) eqn:El.
    - destruct op; try done. destruct Hop as [c Hop]. cbn [fusion_step fst snd] in *.
      destruct (book_step_ok feeds ds (fu_book f) s log Hty Hb) as [H1 H2]. unfold book_step in H1, H2. cbn [fst snd] in H1, H2.
      unfold apply_log in *. destruct (book_apply_log (fu_book f) log s) as [[b s'] r] eqn:Eb. cbn [fst snd] in *.
      destruct r as [[]|e]; cbn [fst snd] in *; [| |done].
      + match type of Hc with clean (?f1, _) _ => apply (IH (ds ++ deliveries feeds log) f1 s' H1) end; cbn [fu_publish fu_book];
          [| |exact Hc]; unfold publish_write; rewrite (bo_vector _ _ _ H1), H2, Hl, Nat.eqb_refl; done.
      + pose proof (apply_log_unchanged _ _ _ _ _ Eb) as ->. match type of Hc with clean (?f1, _) _ => by apply (IH (ds ++ deliveries feeds log) f1 s' H1) end.
    - destruct (tick_keeps_chain f s op El) as [[Hcb Hcp] Hs]. destruct (fusion_step (f, s) op) as [f' s']. cbn in Hcb, Hcp, Hs. subst s'.
      apply (IH ds); [by rewrite Hcb|by rewrite Hcb, Hcp|unfold canonical in *; by rewrite Hcb, Hcp|exact Hc]. }
  unfold publish_read. apply (Hinv ops [] f0 sink); subst f0; try done. cbn. by rewrite (bo_vector _ _ _ Hok).
Qed.
End Published.

(** ** Predictions *)

Definition live (s : AggregatorSim) : list Z := omap id (sm_quotes s).

(** The median of the quotes is one of them, with more than half of them at most it and at most
    half of them below it, whatever their order. *)
Theorem median_is_middle (s : AggregatorSim) (m : Z) (Hm : median s = Some m) :
  m ∈ live s /\ (length (live s) < 2 * count_le m (live s))%nat /\ (2 * count_lt m (live s) <= length (live s))%nat.
Proof.
  unfold median in Hm. fold (live s) in Hm. destruct (is_nil (live s)); [done|].
  pose proof (sort_by_perm Z.leb (live s)) as Hp. destruct (sorted_rank _ (sorted_le (live s)) _ _ Hm) as [H1 H2].
  unfold count_le, count_lt in *. rewrite (filter_perm_length _ _ _ Hp) in H1. rewrite (filter_perm_length _ _ _ Hp) in H2.
  pose proof (Nat.div_mod (length (live s)) 2 ltac:(lia)). pose proof (Nat.mod_upper_bound (length (live s)) 2 ltac:(lia)).
  split; [rewrite <- Hp; by eapply list_elem_of_lookup_2|]. split; lia.
Qed.

(** The deviation is the exact one, cut off at the type's largest. *)
Lemma deviation_bps_exact px last : u256 px -> u256 last -> 0 < last -> px * 10000 <= umax 256 -> last * 10000 <= umax 256 ->
  deviation_bps px last = Ok (Z.min (Z.abs (px - last) * 10000 / last) (umax 16)).
Proof.
  intros [Hp0 Hp] [Hl0 Hl] Hpos Hb1 Hb2. unfold deviation_bps. rewrite (proj2 (Z.eqb_neq last 0)) by lia.
  assert (Hd : (if last <=? px then checked_sub px last else checked_sub last px) = Some (Z.abs (px - last))).
  { destruct (last <=? px) eqn:E; zbool; rewrite checked_sub_ok by lia; f_equal; lia. }
  rewrite Hd. cbn [ok_or]. set (diff := Z.abs (px - last)) in *.
  assert (Hdiff : 0 <= diff /\ diff * 10000 <= umax 256) by (unfold diff; lia).
  assert (Hq : 0 <= diff * 10000 / last <= umax 256).
  { split; [apply Z.div_pos; lia|]. apply Z.div_le_upper_bound; [done|]. nia. }
  rewrite mul_div_eq; [|split; unfold umax in *; lia|split; unfold umax; lia|split; lia|lia]. cbn [round_div].
  rewrite try_from_ok by done. cbn [ok_or map_err]. f_equal. destruct (decide (diff * 10000 / last <= umax 16)) as [E|E].
  - rewrite try_from_ok by (split; lia). cbn. lia.
  - destruct (try_from 16 _) as [v|] eqn:Ev; cbn; [|lia]. apply try_from_Some in Ev as [_ [? ?]]. lia.
Qed.

Lemma confidence_range dev thr hb : 0 <= dev <= umax 16 -> 0 <= thr <= umax 16 ->
  0 <= predicted_confidence dev thr hb < CERTAIN /\
  (hb = false -> 0 < thr -> thr <= dev -> 5000 <= predicted_confidence dev thr hb).
Proof.
  intros Hd Ht. change (umax 16) with 65535 in *. unfold predicted_confidence. destruct hb; [split; [vm_compute; split; [discriminate|reflexivity]|done]|].
  change (umax 32) with 4294967295. rewrite (Z.min_l (dev * 10000)) by lia.
  unfold saturating_add. change (umax 32) with 4294967295. rewrite (Z.min_l (dev + _)) by lia.
  set (t := Z.max thr 1). assert (Hden : 0 < dev + t) by (unfold t; lia). unfold checked_div.
  rewrite (proj2 (Z.eqb_neq (dev + t) 0)) by lia. cbn [default].
  pose proof (div_rem_spec (dev * 10000) (dev + t) Hden) as [Hdv Hr]. set (q := dev * 10000 / (dev + t)) in *.
  assert (Hq : 0 <= q) by (apply Z.div_pos; lia).
  unfold id. rewrite try_from_ok by (split; [lia|change (umax 16) with 65535; lia]). cbn [default]. unfold CERTAIN, id. split; [lia|].
  intros _ Ht0 Hle. assert (t = thr) by (unfold t; lia). assert (5000 <= q); [|lia].
  apply Z.div_le_lower_bound; lia.
Qed.

(** A prediction is made exactly when it is due: with quotes and an on-chain answer known, a
    simulator emits when the median deviates from the answer by the feed's threshold or the
    heartbeat has run out, and then it predicts the median, at a confidence short of certain,
    at least half when it is a deviation that is due. *)
Theorem prediction_exact (s : AggregatorSim) (now unix px last ts : Z)
    (Hm : median s = Some px) (Ho : sm_last_onchain s = Some (last, ts)) (Hpos : 0 < last) (Hpx : 0 <= px)
    (Hb1 : px * 10000 <= umax 256) (Hb2 : last * 10000 <= umax 256) (Hthr : 0 < sm_deviation_threshold_bps s <= umax 16)
    (Heta : is_Some (estimate_eta now)) :
  let moved := sm_deviation_threshold_bps s * last <= Z.abs (px - last) * 10000 in
  let due := sm_heartbeat_secs s <= saturating_sub unix ts in
  match on_tick s now unix with
  | Some p => (moved \/ due) /\ pu_feed p = sm_feed s /\ pu_asset p = sm_asset s /\ pu_predicted p = px /\
      0 <= pu_confidence p < CERTAIN /\ (moved -> 5000 <= pu_confidence p)
  | None => ~ moved /\ ~ due
  end.
Proof.
  cbv zeta. unfold on_tick. rewrite Hm, Ho. change (umax 16) with 65535 in Hthr.
  rewrite deviation_bps_exact; [|split; unfold umax in *; lia|split; unfold umax in *; lia|done|done|done].
  set (thr := sm_deviation_threshold_bps s) in *. set (dev := Z.min _ _).
  pose proof (div_rem_spec (Z.abs (px - last) * 10000) last Hpos) as [Hdv Hr].
  set (q := Z.abs (px - last) * 10000 / last) in *. assert (Hq : 0 <= q) by (apply Z.div_pos; lia).
  assert (Hdev : 0 <= dev <= umax 16) by (unfold dev, umax; lia).
  assert (Hmoved : (dev <? thr) = false <-> thr * last <= Z.abs (px - last) * 10000).
  { rewrite Z.ltb_ge. unfold dev. change (umax 16) with 65535. split; intros Hx; [nia|]. assert (thr <= q); [|lia].
    apply Z.div_le_lower_bound; lia. }
  assert (Hdue : (sm_heartbeat_secs s <=? saturating_sub unix ts) = true <-> sm_heartbeat_secs s <= saturating_sub unix ts)
    by (split; apply Z.leb_le).
  destruct Heta as [eta ->]. destruct (confidence_range dev thr (dev <? thr) Hdev ltac:(change (umax 16) with 65535; lia)) as [Hc Hc5].
  destruct (dev <? thr) eqn:Em; cbn [andb].
  - destruct (sm_heartbeat_secs s <=? saturating_sub unix ts) eqn:Ed; cbn [negb].
    + split; [right; by apply Hdue|]. do 4 (split; [done|]). intros Hx. apply Hmoved in Hx. congruence.
    + split; [intros Hx; apply Hmoved in Hx; congruence|intros Hx; apply Hdue in Hx; congruence].
  - split; [left; by apply Hmoved|]. do 4 (split; [done|]). intros _. apply Hc5; [done|lia|]. apply Z.ltb_ge in Em. lia.
Qed.

(** *** The overlay *)

Definition predicted_slot (p : Price) : Prop :=
  p_ts p = 0 \/ exists eta c, p_source p = Predicted (Some eta) c /\ c < CERTAIN.

Lemma confidence_below dev thr hb : predicted_confidence dev thr hb < CERTAIN.
Proof.
  unfold predicted_confidence, CERTAIN. destruct hb; [done|]. cbv zeta. destruct (try_from 16 _) as [v|] eqn:E; cbn; [|lia].
  apply try_from_Some in E as [-> _]. lia.
Qed.

Lemma on_tick_below s now unix p : on_tick s now unix = Some p -> pu_confidence p < CERTAIN.
Proof.
  unfold on_tick. destruct (median s); [|done]. destruct (sm_last_onchain s) as [[last ts]|]; [|done].
  destruct (deviation_bps _ _); [|done]. destruct (_ && _); [done|]. destruct (estimate_eta now); [|done].
  intros [= <-]. apply confidence_below.
Qed.

Lemma write_forward_ok v p : Forall predicted_slot v -> pu_confidence p < CERTAIN -> Forall predicted_slot (write_forward v p).
Proof.
  intros Hv Hp. unfold write_forward. destruct (v !! _); [|done]. apply Forall_insert; [done|]. right. by eexists _, _.
Qed.

Lemma fold_forward {A} (step : Fusion -> A -> Fusion) l :
  (forall f x, Forall predicted_slot (fu_forward f) -> Forall predicted_slot (fu_forward (step f x))) ->
  forall f, Forall predicted_slot (fu_forward f) -> Forall predicted_slot (fu_forward (fold_left step l f)).
Proof. intros Hs. induction l as [|x l IH]; intros f Hf; cbn; [done|]. by apply IH, Hs. Qed.

Lemma ingest_cex_forward now unix f t : Forall predicted_slot (fu_forward f) -> Forall predicted_slot (fu_forward (ingest_cex now unix f t)).
Proof.
  intros Hf. unfold ingest_cex. destruct (fu_route f !! _); [|done]. apply fold_forward; [|done]. clear. intros f hit Hf.
  unfold quote_sim. destruct (fu_sims f !! _); [|done]. destruct (on_tick _ _ _) as [p|] eqn:E; [|done].
  apply write_forward_ok; [done|by eapply on_tick_below].
Qed.

Lemma fusion_run_forward `{OracleAbi} {S} `{HaltSink S} ops : forall (f : Fusion) (sink : S), Forall predicted_slot (fu_forward f) ->
  Forall predicted_slot (fu_forward (fst (fusion_run (f, sink) ops))).
Proof.
  induction ops as [|op ops IH]; intros f sink Hf; [done|]. cbn [fusion_run fold_left]. unfold fusion_run in IH.
  assert (Hs : Forall predicted_slot (fu_forward (fst (fusion_step (f, sink) op)))).
  { destruct op; cbn [fusion_step fst snd].
    - unfold apply_log. by destruct (book_apply_log _ _ _) as [[? ?] [[]|?]].
    - unfold push_cex. by destruct (_ <? _)%nat.
    - unfold drain_cex. apply fold_forward; [|done]. intros. by apply ingest_cex_forward.
    - done. }
  destruct (fusion_step (f, sink) op) as [f' s']. by apply IH.
Qed.

Lemma overlay_loop_lookup min fwd : forall v i k, length v = (i + length fwd)%nat ->
  overlay_loop min v i fwd !! k =
    match (if (i <=? k)%nat then fwd !! (k - i)%nat else None) with
    | Some f => match p_source f with
                | Predicted _ c => if (p_ts f =? 0) || (c <? min) then v !! k else Some f
                | _ => v !! k
                end
    | None => v !! k
    end.
Proof.
  induction fwd as [|f fwd IH]; intros v i k Hl; cbn [overlay_loop]; [by destruct (i <=? k)%nat|]. cbn [length] in Hl.
  assert (Hlen : length (overlay min v i f) = length v).
  { unfold overlay. destruct (p_ts f =? 0); [done|]. destruct (p_source f); try done. destruct (_ <? _); [done|].
    destruct (v !! i); [apply length_insert|done]. }
  rewrite IH by lia. destruct (lookup_lt_is_Some_2 v i ltac:(lia)) as [x Hx]. destruct (Nat.lt_trichotomy k i) as [Hlt|[->|Hlt]].
  - rewrite (proj2 (Nat.leb_gt (S i) k)), (proj2 (Nat.leb_gt i k)) by lia. unfold overlay. destruct (p_ts f =? 0); [done|].
    destruct (p_source f); try done. destruct (_ <? _); [done|]. rewrite Hx. by rewrite list_lookup_insert_ne by lia.
  - rewrite (proj2 (Nat.leb_gt (S i) i)), Nat.leb_refl, Nat.sub_diag by lia. cbn [lookup list_lookup]. unfold overlay.
    destruct (p_ts f =? 0); [by destruct (p_source f)|]. destruct (p_source f); try done. cbn [orb]. destruct (_ <? _); [done|].
    rewrite Hx. by rewrite list_lookup_insert_eq by lia.
  - rewrite (proj2 (Nat.leb_le (S i) k)), (proj2 (Nat.leb_le i k)) by lia. replace (k - i)%nat with (S (k - S i)) by lia. cbn [lookup list_lookup].
    assert (Hk : overlay min v i f !! k = v !! k).
    { unfold overlay. destruct (p_ts f =? 0); [done|]. destruct (p_source f); try done. destruct (_ <? _); [done|].
      rewrite Hx. by rewrite list_lookup_insert_ne by lia. }
    by rewrite Hk.
Qed.

Lemma write_forward_length v p : length (write_forward v p) = length v.
Proof. unfold write_forward. destruct (v !! _); [apply length_insert|done]. Qed.

Section Lengths.
Context `{OracleAbi} {S : Type} `{HaltSink S}.

Lemma answer_loop_length current block ts idxs : forall b (sink : S) changed,
  length (cb_vector (fst (fst (answer_loop b sink current block ts idxs changed)))) = length (cb_vector b).
Proof.
  assert (Hw : forall b a px, length (cb_vector (fst (write_price b a px block ts))) = length (cb_vector b)).
  { intros b a px. unfold write_price. destruct (cb_asset_addrs b !! _); [|done]. destruct (cb_by_asset b !! _) as [[?|]|]; try done.
    destruct (_ && _); [done|]. destruct (cb_vector b !! _); [|done]. apply length_insert. }
  induction idxs as [|idx idxs IH]; intros b sink changed; cbn [answer_loop]; [done|].
  destruct (cb_feeds b !! idx) as [feed|]; [|done]. destruct (answer_to_ray _ _) as [px|]; [|done].
  specialize (Hw b (rf_asset feed) px). destruct (write_price _ _ _ _ _) as [b1 [[]|e]]; cbn in Hw; [by rewrite IH..|done].
Qed.

Lemma book_apply_log_length b log (sink : S) : length (cb_vector (fst (fst (book_apply_log b log sink)))) = length (cb_vector b).
Proof.
  unfold book_apply_log. destruct (dl_topics log); [done|]. destruct (_ =? ANSWER_UPDATED_TOPIC0).
  - unfold apply_answer. destruct (decode_answer_updated _ _) as [[? ?]|]; [|done]. destruct (try_from _ _); [|done].
    destruct (_ =? 0); [done|]. destruct (cb_by_agg b !! _); [apply answer_loop_length|done].
  - destruct (_ =? asset_source_updated_topic0).
    { unfold apply_source_swap. destruct (decode_asset_source_updated _ _) as [[? ?]|]; [|done]. by destruct (source_loop _ _ _ _). }
    destruct (_ =? price_oracle_updated_topic0); [|done]. unfold apply_oracle_contract_swap. by destruct (decode_price_oracle_updated _ _).
Qed.

Lemma fusion_run_lengths ops : forall (f : Fusion) (sink : S),
  length (canonical (fst (fusion_run (f, sink) ops))) = length (canonical f) /\
  length (fu_forward (fst (fusion_run (f, sink) ops))) = length (fu_forward f).
Proof.
  assert (Hfold : forall A (step : Fusion -> A -> Fusion) l, (forall f x, length (fu_forward (step f x)) = length (fu_forward f)) ->
    forall f, length (fu_forward (fold_left step l f)) = length (fu_forward f)).
  { intros A step l Hs. induction l as [|x l IH]; intros f; cbn; [done|]. by rewrite IH, Hs. }
  assert (Hing : forall now unix f t, length (fu_forward (ingest_cex now unix f t)) = length (fu_forward f)).
  { intros now unix f t. unfold ingest_cex. destruct (fu_route f !! _); [|done]. apply Hfold. intros g hit.
    unfold quote_sim. destruct (fu_sims g !! _); [|done]. destruct (on_tick _ _ _); [apply write_forward_length|done]. }
  induction ops as [|op ops IH]; intros f sink; [done|]. cbn [fusion_run fold_left]. unfold fusion_run in IH.
  assert (Hstep : length (canonical (fst (fusion_step (f, sink) op))) = length (canonical f) /\
    length (fu_forward (fst (fusion_step (f, sink) op))) = length (fu_forward f)).
  { destruct (is_log op) eqn:El.
    - destruct op; try done. cbn [fusion_step fst snd]. unfold apply_log, canonical. pose proof (book_apply_log_length (fu_book f) log sink) as Hb.
      destruct (book_apply_log _ _ _) as [[b s'] [[]|?]]; cbn in Hb |- *; done.
    - destruct (tick_keeps_chain f sink op El) as [[Hc _] _]. unfold canonical. rewrite Hc. split; [done|].
      destruct op; cbn [fusion_step fst snd]; try done; [unfold push_cex; by destruct (_ <? _)%nat|]. unfold drain_cex. by rewrite Hfold. }
  destruct (fusion_step (f, sink) op) as [f' s']. cbn in Hstep. destruct Hstep as [H1 H2]. destruct (IH f' s') as [H3 H4]. split; congruence.
Qed.
End Lengths.

(** What a reader of predictions gets: at any point of any run, a slot of [vector_at] is the
    canonical one or a prediction whose confidence is at least what was asked for and short of
    certain; every prediction confident enough is there; asking for certainty gives the
    canonical vector. *)
Theorem overlay_short_of_certain `{OracleAbi} {S : Type} `{HaltSink S} (b0 : CanonicalBook) (f0 : Fusion) (sink : S) (ops : list FusionOp)
    (min : Z) (i : nat) (p : Price) (Hsplit : split_fusion b0 = Ok f0)
    (Hp : vector_at (fst (fusion_run (f0, sink) ops)) min !! i = Some p) :
  let f := fst (fusion_run (f0, sink) ops) in
  (canonical f !! i = Some p \/ exists eta c, p_source p = Predicted (Some eta) c /\ min <= c < CERTAIN) /\
  (CERTAIN <= min -> canonical f !! i = Some p) /\
  (forall q eta c, best_forward f !! i = Some q -> p_ts q <> 0 -> p_source q = Predicted eta c -> min <= c -> min < CERTAIN -> p = q).
Proof.
  cbv zeta in *. unfold split_fusion in Hsplit. apply bind_Ok in Hsplit as ([sims route] & _ & Hsplit). injection Hsplit as Hsplit.
  assert (Hfwd : Forall predicted_slot (fu_forward (fst (fusion_run (f0, sink) ops)))).
  { apply fusion_run_forward. subst f0. cbn. unfold blank_forward. apply Forall_fmap, Forall_true. intros. by left. }
  assert (Hlen : length (fu_forward (fst (fusion_run (f0, sink) ops))) = length (canonical (fst (fusion_run (f0, sink) ops)))).
  { destruct (fusion_run_lengths ops f0 sink) as [-> ->]. subst f0. apply length_fmap. }
  set (f := fst (fusion_run (f0, sink) ops)) in *. clearbody f. unfold vector_at in Hp.
  destruct (CERTAIN <=? min) eqn:Ec; zbool.
  { split_and!; [by left|done|]. intros. lia. }
  rewrite overlay_loop_lookup in Hp by (cbn; lia). cbn [Nat.leb] in Hp. rewrite Nat.sub_0_r in Hp. unfold best_forward.
  destruct (fu_forward f !! i) as [q|] eqn:Eq; [|split_and!; [by left|lia|done]].
  pose proof (Forall_lookup_1 _ _ _ _ Hfwd Eq) as Hq. destruct (p_source q) as [|? ?|? ?|eta c|?] eqn:Es;
    try (split_and!; [by left|lia|]; intros q' eta' c' [= <-] _ Hs; congruence).
  destruct ((p_ts q =? 0) || (c <? min)) eqn:E.
  - split_and!; [by left|lia|]. intros q' eta' c' [= <-] Hts Hs Hc _. rewrite Es in Hs. injection Hs as <- <-.
    apply orb_true_iff in E as [E|E]; zbool; [done|lia].
  - injection Hp as <-. apply orb_false_iff in E as [E1 E2]. zbool.
    destruct Hq as [Hq|(eta' & c' & Hs & Hc)]; [done|]. rewrite Es in Hs. injection Hs as -> <-.
    split_and!; [right; by exists eta', c|lia|]. by intros q' ? ? [= <-].
Qed.

(** ** Decimals *)

(** The [k] last decimal digits of a number. *)
Fixpoint fixed_digits (k : nat) (n : Z) : str :=
  match k with O => [] | S k => fixed_digits k (n / 10) ++ [48 + n mod 10] end.

(** A ray in decimal: 51 digits, which hold any, a point, and 27 digits. *)
Definition print_ray (r : Z) : str := fixed_digits 51 (r / 10 ^ 27) ++ 46 :: fixed_digits 27 (r mod 10 ^ 27).

Lemma fixed_digits_digits k : forall n, 0 <= n -> Forall (fun c => is_digit c = true) (fixed_digits k n).
Proof.
  induction k as [|k IH]; intros n Hn; cbn; [constructor|]. apply Forall_app. split; [apply IH; by apply Z.div_pos|].
  constructor; [|constructor]. pose proof (Z.mod_pos_bound n 10 eq_refl). unfold is_digit. apply andb_true_iff. split; apply Z.leb_le; lia.
Qed.

Lemma fixed_digits_length k n : length (fixed_digits k n) = k.
Proof. revert n. induction k as [|k IH]; intros n; cbn; [done|]. rewrite length_app, IH. cbn. lia. Qed.

Lemma digits_fixed k : forall n, 0 <= n < 10 ^ Z.of_nat k -> digits (fixed_digits k n) = n.
Proof.
  induction k as [|k IH]; intros n Hn; cbn [fixed_digits]; [change (10 ^ Z.of_nat 0) with 1 in Hn; cbn; lia|].
  rewrite Nat2Z.inj_succ, Z.pow_succ_r in Hn by lia. pose proof (div_rem_spec n 10 eq_refl) as [Hd Hr].
  unfold digits in *. rewrite fold_left_app. cbn [fold_left]. rewrite IH; [lia|]. split; [apply Z.div_pos; lia|]. lia.
Qed.

(** A numeral: digits and points. *)
Definition numeral (c : Z) : Prop := is_digit c = true \/ c = 46.

Lemma numeral_plain c : numeral c -> is_whitespace c = false /\ (c =? 101) || (c =? 69) = false /\ (c =? 43) || (c =? 45) = false.
Proof.
  intros Hc. assert (Hr : 46 <= c <= 57).
  { destruct Hc as [Hc| ->]; [|lia]. unfold is_digit in Hc. apply andb_true_iff in Hc as [? ?]. zbool. lia. }
  assert (forall k, k < 46 \/ 57 < k -> (c =? k) = false) as Hne by (intros k Hk; apply Z.eqb_neq; lia).
  unfold is_whitespace. rewrite !Hne by lia. rewrite (proj2 (Z.leb_gt c 13)), (proj2 (Z.leb_gt 0x2000 c)) by lia.
  rewrite andb_false_r. done.
Qed.

Lemma drop_spaces_id s : Forall numeral s -> drop_spaces s = s.
Proof. destruct 1 as [|c s Hc _]; cbn; [done|]. by rewrite (proj1 (numeral_plain c Hc)). Qed.

Lemma trim_id s : Forall numeral s -> trim s = s.
Proof.
  intros Hs. unfold trim. rewrite (drop_spaces_id s Hs), drop_spaces_id by (by rewrite reverse_Permutation). apply reverse_involutive.
Qed.

Lemma split_once_at s rest : Forall (fun c => is_digit c = true) s -> split_once 46 (s ++ 46 :: rest) = Some (s, rest).
Proof.
  induction 1 as [|c s Hc _ IH]; cbn [app split_once]; [done|].
  assert ((c =? 46) = false) as ->; [|by rewrite IH].
  apply Z.eqb_neq. intros ->. done.
Qed.

Lemma digits_only s : Forall (fun c => is_digit c = true) s -> existsb (fun b => negb (is_digit b)) s = false.
Proof. induction 1 as [|c s Hc _ IH]; cbn; [done|]. by rewrite Hc. Qed.

Lemma TEN_POW_lookup k : (k < 28)%nat -> TEN_POW !! k = Some (10 ^ Z.of_nat k).
Proof. intros Hk. unfold TEN_POW. rewrite list_lookup_fmap, lookup_seq_lt by done. done. Qed.

(** Every price survives print and parse: a positive ray printed in decimal, with its 27
    places, is read back as the same ray. *)
Theorem decimal_round_trip (r : Z) (Hr : 0 < r <= umax 256) : decimal_to_ray (print_ray r) = Ok r.
Proof.
  pose proof (div_rem_spec r (10 ^ 27) eq_refl) as [Hd Hm]. set (w := r / 10 ^ 27) in *. set (f := r mod 10 ^ 27) in *.
  assert (Hw : 0 <= w < 10 ^ Z.of_nat 51).
  { split; [apply Z.div_pos; lia|]. apply Z.div_lt_upper_bound; [done|]. unfold umax in Hr. cbn. lia. }
  pose proof (fixed_digits_digits 51 w ltac:(lia)) as HW. pose proof (fixed_digits_digits 27 f ltac:(lia)) as HF.
  assert (Hnum : Forall numeral (print_ray r)).
  { unfold print_ray. fold w f. apply Forall_app. split; [eapply Forall_impl; [exact HW|]; by left|].
    constructor; [by right|]. eapply Forall_impl; [exact HF|]. by left. }
  unfold decimal_to_ray. rewrite (trim_id _ Hnum).
  assert (Hhead : match print_ray r with c :: _ => (c =? 43) || (c =? 45) | [] => true end = false).
  { destruct (print_ray r) as [|c s] eqn:E; [|apply numeral_plain; by apply Forall_inv in Hnum].
    apply (f_equal length) in E. unfold print_ray in E. rewrite length_app, fixed_digits_length in E. cbn in E. lia. }
  rewrite Hhead. assert (He : existsb (fun c => (c =? 101) || (c =? 69)) (print_ray r) = false).
  { clear Hhead. induction Hnum as [|c s Hc _ IH]; cbn; [done|]. destruct (numeral_plain c Hc) as (_ & -> & _). done. }
  rewrite He. cbn [orb]. unfold print_ray. fold w f. rewrite (split_once_at _ _ HW). cbn [default]. unfold id. cbv zeta iota.
  assert (Hnil : forall k n, is_nil (fixed_digits (S k) n) = false) by (intros k n; cbn; by destruct (fixed_digits k _)).
  rewrite Hnil, (digits_only _ HW), (digits_only _ HF), fixed_digits_length. cbn [orb Nat.ltb Nat.leb].
  unfold from_str_radix10. rewrite (digits_fixed 51 w Hw), (digits_fixed 27 f) by (cbn; lia).
  assert (w <= r) by nia. rewrite (try_from_ok 256 w) by (split; lia). cbn [ok_or].
  rewrite TEN_POW_lookup by lia. cbn [ok_or]. change (10 ^ Z.of_nat 27) with (10 ^ 27). rewrite checked_mul_ok by lia. cbn [ok_or].
  rewrite Hnil, (try_from_ok 256 f) by (split; [lia|unfold umax; lia]). cbn [ok_or]. rewrite TEN_POW_lookup by lia. cbn [ok_or].
  change (10 ^ Z.of_nat (27 - 27)) with 1. rewrite checked_mul_ok by (unfold umax in *; lia). cbn [ok_or].
  rewrite checked_add_ok by lia. cbn [ok_or]. replace (w * 10 ^ 27 + f * 1) with r by lia.
  by rewrite (proj2 (Z.eqb_neq r 0)) by lia.
Qed.

(** ** Witnesses *)

#[local] Instance sample_abi : OracleAbi := {|
  ANSWER_UPDATED_TOPIC0 := 1; asset_source_updated_topic0 := 2; price_oracle_updated_topic0 := 3;
  decode_answer_updated := fun _ data => match data with [a; t] => Some (a, t) | _ => None end;
  decode_asset_source_updated := fun _ data => match data with [a; s] => Some (a, s) | _ => None end;
  decode_price_oracle_updated := fun _ _ => Some tt |}.

Definition eth_sources : list str := [lit "binance:ETHUSDT"; lit "Okx:ETH-USDT"; lit "kraken:ETH/USD"].
Definition eth_feed : ResolvedFeed :=
  mkFeed (mkFeedSpec (lit "aave") 1 900 ChainlinkPush 700 None (Some 50) 8 3600 50 eth_sources) 0 0 1 0%nat [50].
Definition btc_feed : ResolvedFeed := mkFeed (mkFeedSpec (lit "aave") 1 901 ChainlinkSvr 701 (Some 51) None 8 3600 50 []) 1 2 1 0%nat [51].
Definition sample_feeds : FeedSet := [eth_feed; btc_feed].
Definition sample_addrs : list Address := [900; 0; 901].

Definition sample_book : CanonicalBook :=
  Eval vm_compute in match book_new sample_feeds sample_addrs with Ok b => b | Err _ => mkBook [] ∅ [] [] [] end.
Lemma sample_book_eq : book_new sample_feeds sample_addrs = Ok sample_book.
Proof. vm_compute. reflexivity. Qed.
Lemma sample_typed : feeds_typed sample_feeds.
Proof. repeat constructor; vm_compute; discriminate. Qed.

Definition answer_log (agg answer ts : Z) : DecodedLog := mkDecoded agg [1] [answer; ts] 7 ts.
Definition eth_tick (venue : CexVenue) (symbol : string) (mid : Z) : CexTick := mkTick venue (lit symbol) mid mid mid.

(** An answer of 1000 dollars, an older one that comes late, and one for the other feed. *)
Definition sample_logs : list DecodedLog :=
  [answer_log 50 100000000000 2000; answer_log 50 90000000000 1900; answer_log 51 5000000000000 1950].

Lemma canonical_is_newest_answer_witness :
  let b := fst (book_run (sample_book, gate_new) sample_logs) in
  cb_vector b !! 0%nat = Some (mkPrice 0 (1000 * 10 ^ 27) Canonical 7 2000) /\
  slot_holds (flat_map (deliveries sample_feeds) sample_logs) 0 (mkPrice 0 (1000 * 10 ^ 27) Canonical 7 2000).
Proof.
  intros b. assert (E : cb_vector b !! 0%nat = Some (mkPrice 0 (1000 * 10 ^ 27) Canonical 7 2000)) by (vm_compute; reflexivity).
  split; [exact E|]. destruct (canonical_is_newest_answer sample_feeds sample_addrs sample_book gate_new sample_logs sample_typed sample_book_eq)
    as [_ Hn]. exact (Hn _ _ E).
Defined.

Definition sample_fusion : Fusion :=
  Eval vm_compute in match split_fusion sample_book with Ok f => f | Err _ => mkFusion sample_book (mkPublish 0 []) [] ∅ [] [] [] 0 end.
Lemma sample_fusion_eq : split_fusion sample_book = Ok sample_fusion.
Proof. vm_compute. reflexivity. Qed.

(** The answer, then quotes half a percent above it. *)
Definition sample_ops : list FusionOp :=
  [FLog (answer_log 50 100000000000 2000); FPush (eth_tick Binance "ETHUSDT" (1005 * 10 ^ 27));
   FPush (eth_tick Okx "ETH-USDT" (1006 * 10 ^ 27)); FDrain 0 2001].

Lemma stale_prices_deny_witness :
  let '(f, g) := fusion_run (sample_fusion, gate_new) sample_ops in
  is_stale f 0 7401 = true /\ allow (check_staleness (fu_book f) 7401 g) (mkQuery 1 0%nat 0 2 FMorpho OraclePublic 99) <> AYes.
Proof.
  pose proof (stale_prices_deny sample_feeds sample_addrs sample_book sample_fusion gate_new sample_ops 7401 eth_feed
    (mkQuery 1 0%nat 0 2 FMorpho OraclePublic 99) sample_typed sample_book_eq sample_fusion_eq
    ltac:(apply list_elem_of_here) ltac:(vm_compute; reflexivity)) as Hs.
  assert (Es : is_stale (fst (fusion_run (sample_fusion, gate_new) sample_ops)) 0 7401 = true) by (vm_compute; reflexivity).
  destruct (fusion_run (sample_fusion, gate_new) sample_ops) as [f g]. split; [exact Es|].
  apply (proj1 Hs); [exact Es|right; reflexivity].
Defined.

Lemma published_is_canonical_witness :
  let f := fst (fusion_run (sample_fusion, gate_new) sample_ops) in
  publish_read (fu_publish f) = canonical f /\ (p_price <$> canonical f !! 0%nat) = Some (1000 * 10 ^ 27).
Proof.
  intros f. split; [|vm_compute; reflexivity].
  apply (published_is_canonical sample_feeds sample_addrs sample_book sample_fusion gate_new sample_ops sample_typed sample_book_eq sample_fusion_eq).
  repeat (split; [try exact I; try (eexists; vm_compute; reflexivity)|]). exact I.
Defined.

Definition sample_sim : AggregatorSim := mkSim 0 0 50 3600 (Some (1000 * 10 ^ 27, 2000)) [Some (1006 * 10 ^ 27); None; Some (1005 * 10 ^ 27)].

Lemma median_is_middle_witness : median sample_sim = Some (1006 * 10 ^ 27) /\ 1006 * 10 ^ 27 ∈ live sample_sim.
Proof.
  assert (E : median sample_sim = Some (1006 * 10 ^ 27)) by (vm_compute; reflexivity).
  split; [exact E|]. exact (proj1 (median_is_middle sample_sim _ E)).
Defined.

Lemma prediction_exact_witness :
  exists p, on_tick sample_sim 0 2001 = Some p /\ pu_predicted p = 1006 * 10 ^ 27 /\ 5000 <= pu_confidence p < CERTAIN.
Proof.
  pose proof (prediction_exact sample_sim 0 2001 (1006 * 10 ^ 27) (1000 * 10 ^ 27) 2000 ltac:(vm_compute; reflexivity) ltac:(reflexivity)
    ltac:(lia) ltac:(lia) ltac:(vm_compute; discriminate) ltac:(vm_compute; discriminate) ltac:(vm_compute; split; [reflexivity|discriminate])
    ltac:(eexists; vm_compute; reflexivity)) as Hp. cbv zeta in Hp.
  destruct (on_tick sample_sim 0 2001) as [p|] eqn:E; [|vm_compute in E; discriminate E].
  destruct Hp as (_ & _ & _ & Hpx & Hc & H5). exists p. split; [reflexivity|]. split; [exact Hpx|].
  split; [apply H5; vm_compute; discriminate|apply Hc].
Defined.

Lemma overlay_short_of_certain_witness :
  let f := fst (fusion_run (sample_fusion, gate_new) sample_ops) in
  exists p, vector_at f 5000 !! 0%nat = Some p /\ p_price p = 1006 * 10 ^ 27 /\
    (canonical f !! 0%nat = Some p \/ exists eta c, p_source p = Predicted (Some eta) c /\ 5000 <= c < CERTAIN).
Proof.
  intros f. destruct (vector_at f 5000 !! 0%nat) as [p|] eqn:E; [|vm_compute in E; discriminate E]. exists p. split; [reflexivity|].
  split; [vm_compute in E; injection E as <-; reflexivity|].
  exact (proj1 (overlay_short_of_certain sample_book sample_fusion gate_new sample_ops 5000 0 p sample_fusion_eq E)).
Defined.

Lemma decimal_round_trip_witness :
  decimal_to_ray (lit " 1005.5 ") = Ok (1005 * 10 ^ 27 + 5 * 10 ^ 26) /\
  decimal_to_ray (print_ray (1005 * 10 ^ 27 + 5 * 10 ^ 26)) = Ok (1005 * 10 ^ 27 + 5 * 10 ^ 26).
Proof.
  split; [vm_compute; reflexivity|]. apply (decimal_round_trip (1005 * 10 ^ 27 + 5 * 10 ^ 26)). split; [lia|vm_compute; discriminate].
Defined.
