(* ===== verification/Overlay.v ===== *)
(** Read views and the pending overlay: [crates/liq-state/src/view.rs].

    An [Overlay] is a delta over a store: the first write to a position or to a market copies
    it into a pooled buffer of the overlay, later reads come from the copy. [clear] drops the
    delta and keeps the buffers, so a live entry is found through an index and the pool past
    [ov_pos_len] holds what earlier deltas left. [OverlayWriter] is the pair of a store and an
    overlay: its methods take both and return the overlay. A pool's length is that of a vector
    and stays under [usize::MAX], so the saturating increments are successors. *)

From S2P Require Import Prelude Mask Types Interner Columns Undo Store Ingest.
Local Open Scope Z_scope.

(** Overlay copy of one position. *)
Record OvPos := mkOvPos {
  op_key : PositionKey;
  op_config : AssetMask;
  op_extra : PositionExtraRepr;
  op_supply : list Z;
  op_debt : list Z;
  op_slot_extra : list PositionExtraRepr
}.

(** [OvPos::empty]. *)
Definition ovpos_empty : OvPos := mkOvPos (mkKey 0 0 0) EMPTY EXTRA_ZERO [] [] [].

(** [OvPos::blank]: every column cleared and resized to [n]. *)
Definition ovpos_blank (n : nat) (p : OvPos) : OvPos :=
  mkOvPos (op_key p) (op_config p) (op_extra p) (resize n 0 []) (resize n 0 []) (resize n EXTRA_ZERO []).

Record Overlay := mkOverlay {
  ov_tip : BlockNum;
  ov_base_len : nat;
  ov_base_writes : Z;
  ov_pos_index : gmap PositionId nat;
  ov_pos : list OvPos;
  ov_pos_len : nat;
  ov_new_keys : gmap PositionKey PositionId;
  ov_mkt_index : gmap MarketId nat;
  ov_mkt : list (list MarketRow);
  ov_mkt_len : nat
}.

(** [Overlay::new], the derived [Default]. *)
Definition overlay_new : Overlay := mkOverlay 0 0 0 ∅ [] 0 ∅ ∅ [] 0.

(** [Overlay::clear]. *)
Definition overlay_clear (o : Overlay) : Overlay :=
  mkOverlay (ov_tip o) (ov_base_len o) (ov_base_writes o) ∅ (ov_pos o) 0 ∅ ∅ (ov_mkt o) 0.

Definition overlay_is_empty (o : Overlay) : bool := (ov_pos_len o =? 0)%nat && (ov_mkt_len o =? 0)%nat.

(** Field updates. *)
Definition set_pool (pool : list OvPos) (o : Overlay) : Overlay :=
  mkOverlay (ov_tip o) (ov_base_len o) (ov_base_writes o) (ov_pos_index o) pool (ov_pos_len o)
    (ov_new_keys o) (ov_mkt_index o) (ov_mkt o) (ov_mkt_len o).
Definition set_pos_len (n : nat) (o : Overlay) : Overlay :=
  mkOverlay (ov_tip o) (ov_base_len o) (ov_base_writes o) (ov_pos_index o) (ov_pos o) n
    (ov_new_keys o) (ov_mkt_index o) (ov_mkt o) (ov_mkt_len o).
Definition set_pos_index (ix : gmap PositionId nat) (o : Overlay) : Overlay :=
  mkOverlay (ov_tip o) (ov_base_len o) (ov_base_writes o) ix (ov_pos o) (ov_pos_len o)
    (ov_new_keys o) (ov_mkt_index o) (ov_mkt o) (ov_mkt_len o).
Definition set_new_keys (ks : gmap PositionKey PositionId) (o : Overlay) : Overlay :=
  mkOverlay (ov_tip o) (ov_base_len o) (ov_base_writes o) (ov_pos_index o) (ov_pos o) (ov_pos_len o)
    ks (ov_mkt_index o) (ov_mkt o) (ov_mkt_len o).
Definition set_mkt (ix : gmap MarketId nat) (mkt : list (list MarketRow)) (n : nat) (o : Overlay) : Overlay :=
  mkOverlay (ov_tip o) (ov_base_len o) (ov_base_writes o) (ov_pos_index o) (ov_pos o) (ov_pos_len o)
    (ov_new_keys o) ix mkt n.

(** [Overlay::check_base]. *)
Definition check_base (o : Overlay) (base : StateStore) : Result StateError unit :=
  if negb (ov_tip o =? tip base) || negb (ov_base_len o =? store_len base)%nat || negb (ov_base_writes o =? st_writes base)
  then Err (OverlayStale (ov_tip o) (ov_base_len o) (ov_base_writes o) (tip base) (store_len base) (st_writes base))
  else Ok tt.

(** [Overlay::writer]: the overlay the writer starts from. *)
Definition overlay_writer (o : Overlay) (base : StateStore) : Overlay * Result StateError unit :=
  if overlay_is_empty o
  then (mkOverlay (tip base) (store_len base) (st_writes base) (ov_pos_index o) (ov_pos o) (ov_pos_len o)
          (ov_new_keys o) (ov_mkt_index o) (ov_mkt o) (ov_mkt_len o), Ok tt)
  else (o, check_base o base).

(** [Overlay::position], [Overlay::rows]. *)
Definition ov_position (o : Overlay) (id : PositionId) : option OvPos :=
  let! i := ov_pos_index o !! id in ov_pos o !! i.
Definition ov_rows (o : Overlay) (m : MarketId) : option (list MarketRow) :=
  let! i := ov_mkt_index o !! m in ov_mkt o !! i.

(** [Overlay::alloc_pos], [Overlay::alloc_mkt]. *)
Definition alloc_pos (o : Overlay) : Overlay * nat :=
  let i := ov_pos_len o in
  let o := if (i =? length (ov_pos o))%nat then set_pool (ov_pos o ++ [ovpos_empty]) o else o in
  (set_pos_len (S i) o, i).
Definition alloc_mkt (o : Overlay) : Overlay * nat :=
  let i := ov_mkt_len o in
  let pool := if (i =? length (ov_mkt o))%nat then ov_mkt o ++ [[]] else ov_mkt o in
  (set_mkt (ov_mkt_index o) pool (S i) o, i).

(** ** Views *)

Definition or_else {A} (x y : option A) : option A := match x with Some a => Some a | None => y end.

(** [StateStore::view_with], [StateView::new]. *)
Record StateView := mkView { vw_base : StateStore; vw_overlay : option Overlay; vw_timestamp : Timestamp }.

Definition view (s : StateStore) (ts : Timestamp) : StateView := mkView s None ts.
Definition view_with (s : StateStore) (o : Overlay) (ts : Timestamp) : Result StateError StateView :=
  let? _ := check_base o s in Ok (mkView s (Some o) ts).

Definition view_len (v : StateView) : nat :=
  match vw_overlay v with
  | None => store_len (vw_base v)
  | Some o => (store_len (vw_base v) + size (ov_new_keys o))%nat
  end.
Definition view_is_empty (v : StateView) : bool := (view_len v =? 0)%nat.

(** [StateView::markets]. *)
Definition view_markets (v : StateView) (m : MarketId) : Result StateError (list MarketRow) :=
  ok_or (or_else (let! o := vw_overlay v in ov_rows o m) (st_rows (vw_base v) m)) (SUnknownMarket m).

Definition set_ref_markets (rows : list MarketRow) (r : PositionRef) : PositionRef :=
  mkPosRef (pr_id r) (pr_key r) (pr_config r) (pr_supply r) (pr_debt r) (pr_extra r) (pr_slot_extra r) rows
    (pr_timestamp r).

(** [StateView::position]. *)
Definition view_position (v : StateView) (id : PositionId) : Result StateError PositionRef :=
  match vw_overlay v with
  | None => position_ref (vw_base v) id (vw_timestamp v)
  | Some o =>
      match ov_position o id with
      | Some p =>
          let m := pk_market (op_key p) in
          let? markets := ok_or (or_else (ov_rows o m) (st_rows (vw_base v) m)) (SUnknownMarket m) in
          Ok (mkPosRef id (op_key p) (op_config p) (op_supply p) (op_debt p) (op_extra p) (op_slot_extra p) markets
                (vw_timestamp v))
      | None =>
          let? r := position_ref (vw_base v) id (vw_timestamp v) in
          match ov_rows o (pk_market (pr_key r)) with
          | Some rows => Ok (set_ref_markets rows r)
          | None => Ok r
          end
      end
  end.

(** ** The writer *)

(** [OverlayWriter::rows_len]. *)
Definition rows_len (base : StateStore) (o : Overlay) (m : MarketId) : Result ProtocolError nat :=
  ok_or (length <$> or_else (ov_rows o m) (st_rows base m)) (PUnknownMarket m).

(** The copy [materialise] makes of a base position, at [n] slots. *)
Definition copy_ref (n : nat) (r : PositionRef) : OvPos :=
  mkOvPos (pr_key r) (pr_config r) (pr_extra r) (resize n 0 (pr_supply r)) (resize n 0 (pr_debt r))
    (resize n EXTRA_ZERO (pr_slot_extra r)).

(** [OverlayWriter::materialise]. *)
Definition materialise (base : StateStore) (pos : PositionId) (o : Overlay) : Overlay * Result ProtocolError nat :=
  match ov_pos_index o !! pos with
  | Some i => (o, Ok i)
  | None =>
      match position_ref base pos 0 with
      | Err _ => (o, Err (PUnknownPosition pos))
      | Ok r =>
          let# n := rows_len base o (pk_market (pr_key r)) at o in
          let '(o, i) := alloc_pos o in
          let# _ := ok_or (ov_pos o !! i) (PUnknownPosition pos) at o in
          let o := set_pool (<[i := copy_ref n r]> (ov_pos o)) o in
          (set_pos_index (<[pos := i]> (ov_pos_index o)) o, Ok i)
      end
  end.

(** [OverlayWriter::materialise_market]. *)
Definition materialise_market (base : StateStore) (m : MarketId) (create : bool) (o : Overlay)
    : Overlay * Result ProtocolError nat :=
  match ov_mkt_index o !! m with
  | Some i => (o, Ok i)
  | None =>
      let# base_rows := (match st_rows base m, create with
                         | Some rows, _ => Ok rows
                         | None, true => Ok []
                         | None, false => Err (PUnknownMarket m)
                         end) at o in
      let '(o, i) := alloc_mkt o in
      let# _ := ok_or (ov_mkt o !! i) (PUnknownMarket m) at o in
      (set_mkt (<[m := i]> (ov_mkt_index o)) (<[i := base_rows]> (ov_mkt o)) (ov_mkt_len o) o, Ok i)
  end.

Definition op_col (c : Col) (p : OvPos) : list Z := match c with Supply => op_supply p | Debt => op_debt p end.
Definition op_set_col (c : Col) (v : list Z) (p : OvPos) : OvPos :=
  match c with
  | Supply => mkOvPos (op_key p) (op_config p) (op_extra p) v (op_debt p) (op_slot_extra p)
  | Debt => mkOvPos (op_key p) (op_config p) (op_extra p) (op_supply p) v (op_slot_extra p)
  end.
Definition op_set_config (c : AssetMask) (p : OvPos) : OvPos :=
  mkOvPos (op_key p) c (op_extra p) (op_supply p) (op_debt p) (op_slot_extra p).
Definition op_set_extra (e : PositionExtraRepr) (p : OvPos) : OvPos :=
  mkOvPos (op_key p) (op_config p) e (op_supply p) (op_debt p) (op_slot_extra p).
Definition op_set_slot_extra (v : list PositionExtraRepr) (p : OvPos) : OvPos :=
  mkOvPos (op_key p) (op_config p) (op_extra p) (op_supply p) (op_debt p) v.

(** Write back pool entry [i]. *)
Definition put_pos (i : nat) (p : OvPos) (o : Overlay) : Overlay := set_pool (<[i := p]> (ov_pos o)) o.

(** [OverlayWriter::set_column]: the cell is written before the mask is computed. *)
Definition ow_set_column (base : StateStore) (c : Col) (pos : PositionId) (slot : nat) (shares : Z) (o : Overlay)
    : Overlay * Result ProtocolError unit :=
  match materialise base pos o with
  | (o, Err e) => (o, Err e)
  | (o, Ok i) =>
      let# p := ok_or (ov_pos o !! i) (PUnknownPosition pos) at o in
      let at_ := mkSlot (pk_market (op_key p)) slot in
      let# other := ok_or (op_col (other_col c) p !! slot) (SlotOutOfRange at_) at o in
      let other_nonzero := negb (other =? 0) in
      let# column := ok_or (vec_set (op_col c p) slot shares) (SlotOutOfRange at_) at o in
      let p := op_set_col c column p in
      let o := put_pos i p o in
      let# config := (if negb (shares =? 0) || other_nonzero
                      then ok_or (with_slot (op_config p) slot) (SlotOutOfRange at_)
                      else Ok (without_slot (op_config p) slot)) at o in
      (put_pos i (op_set_config config p) o, Ok tt)
  end.

(** [OverlayWriter::column]. *)
Definition ow_column (base : StateStore) (o : Overlay) (c : Col) (pos : PositionId) (slot : nat) : Result ProtocolError Z :=
  match ov_position o pos with
  | None => match c with Supply => supply base pos slot | Debt => debt base pos slot end
  | Some p => ok_or (op_col c p !! slot) (SlotOutOfRange (mkSlot (pk_market (op_key p)) slot))
  end.

(** The [StateWriter] methods of [OverlayWriter]. *)
Definition ow_intern (base : StateStore) (key : PositionKey) (o : Overlay) : Overlay * Result ProtocolError PositionId :=
  match position_id base key with
  | Some id => (o, Ok id)
  | None =>
      match ov_new_keys o !! key with
      | Some id => (o, Ok id)
      | None =>
          let# n := rows_len base o (pk_market key) at o in
          let# id := ok_or (let! i := checked_add_nat 64 (ov_base_len o) (size (ov_new_keys o)) in try_from_nat 32 i)
                       Internal at o in
          let '(o, i) := alloc_pos o in
          let# p := ok_or (ov_pos o !! i) (PUnknownPosition id) at o in
          let p := ovpos_blank n (mkOvPos key EMPTY EXTRA_ZERO (op_supply p) (op_debt p) (op_slot_extra p)) in
          let o := put_pos i p o in
          let o := set_pos_index (<[id := i]> (ov_pos_index o)) o in
          (set_new_keys (<[key := id]> (ov_new_keys o)) o, Ok id)
      end
  end.

Definition ow_supply (base : StateStore) (o : Overlay) (pos : PositionId) (slot : nat) : Result ProtocolError Z :=
  ow_column base o Supply pos slot.
Definition ow_debt (base : StateStore) (o : Overlay) (pos : PositionId) (slot : nat) : Result ProtocolError Z :=
  ow_column base o Debt pos slot.
Definition ow_set_supply (base : StateStore) (pos : PositionId) (slot : nat) (shares : Z) (o : Overlay) :=
  ow_set_column base Supply pos slot shares o.
Definition ow_set_debt (base : StateStore) (pos : PositionId) (slot : nat) (shares : Z) (o : Overlay) :=
  ow_set_column base Debt pos slot shares o.

Definition ow_extra (base : StateStore) (o : Overlay) (pos : PositionId) : Result ProtocolError PositionExtraRepr :=
  match ov_position o pos with Some p => Ok (op_extra p) | None => extra base pos end.

Definition ow_set_extra (base : StateStore) (pos : PositionId) (e : PositionExtraRepr) (o : Overlay)
    : Overlay * Result ProtocolError unit :=
  match materialise base pos o with
  | (o, Err e) => (o, Err e)
  | (o, Ok i) =>
      let# p := ok_or (ov_pos o !! i) (PUnknownPosition pos) at o in
      (put_pos i (op_set_extra e p) o, Ok tt)
  end.

Definition ow_markets (base : StateStore) (o : Overlay) (m : MarketId) : Result ProtocolError (list MarketRow) :=
  ok_or (or_else (ov_rows o m) (st_rows base m)) (PUnknownMarket m).

Definition ow_market (base : StateStore) (o : Overlay) (at_ : MarketSlot) : Result ProtocolError MarketRow :=
  let? rows := ow_markets base o (ms_market at_) in
  ok_or (rows !! ms_slot at_) (SlotOutOfRange at_).

Definition ow_set_market (base : StateStore) (at_ : MarketSlot) (row : MarketRow) (o : Overlay)
    : Overlay * Result ProtocolError unit :=
  match materialise_market base (ms_market at_) false o with
  | (o, Err e) => (o, Err e)
  | (o, Ok i) =>
      let# rows := ok_or (let! rows := ov_mkt o !! i in vec_set rows (ms_slot at_) row) (SlotOutOfRange at_) at o in
      (set_mkt (ov_mkt_index o) (<[i := rows]> (ov_mkt o)) (ov_mkt_len o) o, Ok tt)
  end.

(** A copy's columns resized to [n] slots. *)
Definition op_resize (n : nat) (p : OvPos) : OvPos :=
  mkOvPos (op_key p) (op_config p) (op_extra p) (resize n 0 (op_supply p)) (resize n 0 (op_debt p))
    (resize n EXTRA_ZERO (op_slot_extra p)).

(** The loop of [push_market] over the live copies, [pos.iter_mut().take(pos_len)]. *)
Definition grow_live (m : MarketId) (n len : nat) (pool : list OvPos) : list OvPos :=
  ((fun p => if (pk_market (op_key p) =? m)%nat then op_resize n p else p) <$> take len pool) ++ drop len pool.

Definition ow_push_market (base : StateStore) (m : MarketId) (row : MarketRow) (o : Overlay)
    : Overlay * Result ProtocolError MarketSlot :=
  match materialise_market base m true o with
  | (o, Err e) => (o, Err e)
  | (o, Ok i) =>
      let# rows := ok_or (ov_mkt o !! i) (PUnknownMarket m) at o in
      let# slot := ok_or (try_from_nat 16 (length rows)) (SlotOutOfRange (mkSlot m (Z.to_nat (umax 16)))) at o in
      let at_ := mkSlot m slot in
      if MAX_SLOTS <=? Z.of_nat slot then (o, Err (SlotOutOfRange at_)) else
      let rows := rows ++ [row] in
      let o := set_mkt (ov_mkt_index o) (<[i := rows]> (ov_mkt o)) (ov_mkt_len o) o in
      (set_pool (grow_live m (length rows) (ov_pos_len o) (ov_pos o)) o, Ok at_)
  end.

Definition ow_slot_extra (base : StateStore) (o : Overlay) (pos : PositionId) (slot : nat)
    : Result ProtocolError PositionExtraRepr :=
  match ov_position o pos with
  | None => slot_extra base pos slot
  | Some p => ok_or (op_slot_extra p !! slot) (SlotOutOfRange (mkSlot (pk_market (op_key p)) slot))
  end.

Definition ow_set_slot_extra (base : StateStore) (pos : PositionId) (slot : nat) (e : PositionExtraRepr) (o : Overlay)
    : Overlay * Result ProtocolError unit :=
  match materialise base pos o with
  | (o, Err e) => (o, Err e)
  | (o, Ok i) =>
      let# p := ok_or (ov_pos o !! i) (PUnknownPosition pos) at o in
      let at_ := mkSlot (pk_market (op_key p)) slot in
      let# col := ok_or (vec_set (op_slot_extra p) slot e) (SlotOutOfRange at_) at o in
      (put_pos i (op_set_slot_extra col p) o, Ok tt)
  end.

Definition ow_positions_len (o : Overlay) : Z :=
  default (umax 32) (try_from 32 (saturating_add 64 (Z.of_nat (ov_base_len o)) (Z.of_nat (size (ov_new_keys o))))).

Definition ow_position_key (base : StateStore) (o : Overlay) (pos : PositionId) : Result ProtocolError PositionKey :=
  match ov_position o pos with Some p => Ok (op_key p) | None => position_key base pos end.

(** A program of [StateWriter] calls run through the writer. *)
Fixpoint run_overlay {A} (base : StateStore) (p : Prog A) (o : Overlay) : Overlay * option A :=
  match p with
  | PRet a => (o, Some a)
  | PPanic => (o, None)
  | PIntern key k => let '(o, r) := ow_intern base key o in run_overlay base (k r) o
  | PSupply pos slot k => run_overlay base (k (ow_supply base o pos slot)) o
  | PDebt pos slot k => run_overlay base (k (ow_debt base o pos slot)) o
  | PSetSupply pos slot v k => let '(o, r) := ow_set_supply base pos slot v o in run_overlay base (k r) o
  | PSetDebt pos slot v k => let '(o, r) := ow_set_debt base pos slot v o in run_overlay base (k r) o
  | PExtra pos k => run_overlay base (k (ow_extra base o pos)) o
  | PSetExtra pos x k => let '(o, r) := ow_set_extra base pos x o in run_overlay base (k r) o
  | PSlotExtra pos slot k => run_overlay base (k (ow_slot_extra base o pos slot)) o
  | PSetSlotExtra pos slot x k => let '(o, r) := ow_set_slot_extra base pos slot x o in run_overlay base (k r) o
  | PPositionsLen k => run_overlay base (k (ow_positions_len o)) o
  | PPositionKey pos k => run_overlay base (k (ow_position_key base o pos)) o
  | PMarket at_ k => run_overlay base (k (ow_market base o at_)) o
  | PMarkets id k => run_overlay base (k (ow_markets base o id)) o
  | PSetMarket at_ row k => let '(o, r) := ow_set_market base at_ row o in run_overlay base (k r) o
  | PPushMarket id row k => let '(o, r) := ow_push_market base id row o in run_overlay base (k r) o
  end.
