(* ===== verification/OverlayThms.v ===== *)
(** The overlay refines the store: what a program of [StateWriter] calls reads and writes
    through [OverlayWriter] is what it would read and write on the store itself.

    First what a store shows of its positions, as the records an overlay copies, and what each
    setter of [Store] does to it: every reader of the store is a function of these records, the
    market rows and the keys. *)

From S2P Require Import Prelude Mask Types Interner Columns Undo Store StoreInv StoreOps StoreUnwind StoreThms StoreReads.
From S2P Require Import Ingest Overlay.
Local Open Scope nat_scope.

(** ** What a store shows of a position *)

(** Row [l] of a column, cut to the first [n] slots. *)
Definition prow {A} (n st : nat) (col : list A) (l : nat) : list A := take n (drop (l * st) col).

Definition seen (m : Market) (e : PosEntry) (c : AssetMask) (x : PositionExtraRepr) : OvPos :=
  let row {A} (col : list A) := prow (length (m_rows m)) (m_stride m) col (pe_local e) in
  mkOvPos (pe_key e) c x (row (m_supply m)) (row (m_debt m)) (row (m_slot_extra m)).

Definition sees (s : StateStore) (p : nat) : option OvPos :=
  match position_ref s p 0 with
  | Ok r => Some (mkOvPos (pr_key r) (pr_config r) (pr_extra r) (pr_supply r) (pr_debt r) (pr_slot_extra r))
  | Err _ => None
  end.

Lemma prow_lookup {A} n st (col : list A) l j :
  prow n st col l !! j = if decide (j < n) then cell_at col st l j else None.
Proof.
  unfold prow, cell_at. case_decide.
  - by rewrite lookup_take_lt, lookup_drop.
  - rewrite lookup_take_ge by lia. done.
Qed.

Lemma prow_length {A} (z : A) n st rows col l :
  column_ok z n st rows col -> l < n -> rows <= st -> length (prow rows st col l) = rows.
Proof.
  intros [Hlen _] Hl Hr. unfold prow. rewrite length_take, length_drop, Hlen.
  assert (S l * st <= n * st) by (apply Nat.mul_le_mono_r; lia). simpl in *. lia.
Qed.

Lemma prow_ext {A} n st1 st2 (c1 c2 : list A) l1 l2 :
  (forall j, j < n -> cell_at c1 st1 l1 j = cell_at c2 st2 l2 j) -> prow n st1 c1 l1 = prow n st2 c2 l2.
Proof. intros H. apply list_eq. intros j. rewrite !prow_lookup. case_decide; [by apply H|done]. Qed.

Lemma slice_prow {A} (z : A) n st rows (col : list A) l :
  column_ok z n st rows col -> l < n -> rows <= st ->
  slice_get col (l * st, l * st + rows) = Some (prow rows st col l).
Proof.
  intros Hc Hl Hr. unfold slice_get, prow. destruct Hc as [Hlen _].
  assert (S l * st <= n * st) by (apply Nat.mul_le_mono_r; lia). simpl in *.
  rewrite (proj2 (Nat.leb_le _ _)) by lia. rewrite (proj2 (Nat.leb_le _ _)) by lia. cbn [andb]. do 2 f_equal. lia.
Qed.

Lemma entry_columns s p e :
  store_wf s -> pt_entries (st_positions s) !! p = Some e -> is_Some (st_config s !! p) /\ is_Some (st_extra s !! p).
Proof.
  intros [_ Hs] He. apply lookup_lt_Some in He. split; apply lookup_lt_is_Some_2.
  - by rewrite (sw_config_len s Hs).
  - by rewrite (sw_extra_len s Hs).
Qed.

Lemma position_ref_seen s p e mi m c x ts :
  store_wf s -> resolved s p e mi m -> st_config s !! p = Some c -> st_extra s !! p = Some x ->
  position_ref s p ts = Ok (mkPosRef p (pe_key e) c (op_supply (seen m e c x)) (op_debt (seen m e c x)) x
    (op_slot_extra (seen m e c x)) (m_rows m) ts).
Proof.
  intros Hs Hr Hc Hx. destruct (resolved_wf _ _ _ _ _ Hs Hr) as [Hm Hl]. pose proof (mw_rows m Hm).
  unfold position_ref, table_entry. rewrite Hc, (rs_entry _ _ _ _ _ Hr), Hx. cbn [ok_or]. cbv zeta.
  change (pk_market (pe_key e)) with (entry_market e). rewrite (resolved_find _ _ _ _ _ Hr). cbn [ok_or].
  rewrite row_range_eq by done. cbn [ok_or].
  rewrite (slice_prow _ _ _ _ _ _ (mw_supply m Hm) Hl H), (slice_prow _ _ _ _ _ _ (mw_debt m Hm) Hl H),
    (slice_prow _ _ _ _ _ _ (mw_slot_extra m Hm) Hl H). done.
Qed.

Lemma sees_seen s p e mi m c x :
  store_wf s -> resolved s p e mi m -> st_config s !! p = Some c -> st_extra s !! p = Some x ->
  sees s p = Some (seen m e c x).
Proof. intros Hs Hr Hc Hx. unfold sees. by rewrite (position_ref_seen _ _ _ _ _ _ _ _ Hs Hr Hc Hx). Qed.

Lemma sees_unknown s p : store_wf s -> pt_entries (st_positions s) !! p = None -> sees s p = None.
Proof.
  intros [_ Hs] He. unfold sees, position_ref, table_entry. rewrite He.
  destruct (st_config s !! p); done.
Qed.

(** A known position, taken apart. *)
Lemma sees_Some s p o :
  store_wf s -> sees s p = Some o ->
  exists e mi m c x, resolved s p e mi m /\ market_wf m /\ pe_local e < m_n_pos m /\
    st_config s !! p = Some c /\ st_extra s !! p = Some x /\ o = seen m e c x /\
    st_rows s (pk_market (op_key o)) = Some (m_rows m).
Proof.
  intros Hs Ho. destruct (pt_entries (st_positions s) !! p) as [e|] eqn:He.
  2: { by rewrite sees_unknown in Ho. }
  destruct (entry_resolved s p e Hs He) as (mi & m & Hr & Hm & Hl).
  destruct (entry_columns s p e Hs He) as [[c Hc] [x Hx]].
  rewrite (sees_seen _ _ _ _ _ _ _ Hs Hr Hc Hx) in Ho. injection Ho as <-.
  exists e, mi, m, c, x. split_and!; try done. cbn [seen op_key]. unfold st_rows.
  change (pk_market (pe_key e)) with (entry_market e). by rewrite (resolved_find _ _ _ _ _ Hr).
Qed.

Lemma sees_keys s p : store_wf s -> op_key <$> sees s p = keys s !! p.
Proof.
  intros Hs. unfold keys. rewrite list_lookup_fmap. destruct (pt_entries (st_positions s) !! p) as [e|] eqn:He.
  - destruct (entry_resolved s p e Hs He) as (mi & m & Hr & _ & _).
    destruct (entry_columns s p e Hs He) as [[c Hc] [x Hx]]. by rewrite (sees_seen _ _ _ _ _ _ _ Hs Hr Hc Hx).
  - by rewrite sees_unknown.
Qed.

(** The columns of a position are as long as its market has rows. *)
Definition full (n : nat) (o : OvPos) : Prop :=
  length (op_supply o) = n /\ length (op_debt o) = n /\ length (op_slot_extra o) = n.

Lemma sees_full s p o : store_wf s -> sees s p = Some o ->
  exists rows, st_rows s (pk_market (op_key o)) = Some rows /\ full (length rows) o /\ length rows <= 128 /\ mask_ok (op_config o).
Proof.
  intros Hs Ho. destruct (sees_Some s p o Hs Ho) as (e & mi & m & c & x & Hr & Hm & Hl & Hc & Hx & -> & Hrows).
  exists (m_rows m). split; [done|]. pose proof (mw_rows m Hm). pose proof (mw_stride m Hm). split.
  - split_and!; cbn [seen op_supply op_debt op_slot_extra]; eapply prow_length; try done; apply Hm.
  - split; [lia|]. cbn. eapply (Forall_lookup_1 mask_ok); [apply Hs|done].
Qed.

(** ** Reads of the store are reads of what it shows *)

Lemma read_column_sees s c p j :
  store_wf s ->
  read_column s c p j = match sees s p with
    | Some o => ok_or (op_col c o !! j) (SlotOutOfRange (mkSlot (pk_market (op_key o)) j))
    | None => Err (PUnknownPosition p)
    end.
Proof.
  intros Hs. destruct (sees s p) as [o|] eqn:Ho.
  - destruct (sees_Some s p o Hs Ho) as (e & mi & m & cf & x & Hr & Hm & Hl & _ & _ & -> & _).
    rewrite (read_column_eq _ _ _ _ _ _ _ Hs Hr). cbn [seen op_key].
    assert (op_col c (seen m e cf x) = prow (length (m_rows m)) (m_stride m) (col_get c m) (pe_local e)) as -> by by destruct c.
    rewrite prow_lookup. case_decide; done.
  - assert (He : pt_entries (st_positions s) !! p = None).
    { destruct (pt_entries (st_positions s) !! p) eqn:He; [|done]. pose proof (sees_keys s p Hs) as Hk.
      rewrite Ho in Hk. unfold keys in Hk. rewrite list_lookup_fmap, He in Hk. done. }
    unfold read_column, table_entry. by rewrite He.
Qed.

Lemma sees_None s p : store_wf s -> sees s p = None -> pt_entries (st_positions s) !! p = None.
Proof.
  intros Hs Ho. destruct (pt_entries (st_positions s) !! p) eqn:He; [|done]. pose proof (sees_keys s p Hs) as Hk.
  rewrite Ho in Hk. unfold keys in Hk. rewrite list_lookup_fmap, He in Hk. done.
Qed.

Lemma slot_extra_sees s p j :
  store_wf s ->
  slot_extra s p j = match sees s p with
    | Some o => ok_or (op_slot_extra o !! j) (SlotOutOfRange (mkSlot (pk_market (op_key o)) j))
    | None => Err (PUnknownPosition p)
    end.
Proof.
  intros Hs. destruct (sees s p) as [o|] eqn:Ho.
  - destruct (sees_Some s p o Hs Ho) as (e & mi & m & cf & x & Hr & Hm & Hl & _ & _ & -> & _).
    pose proof (mw_rows m Hm). unfold slot_extra, table_entry. rewrite (rs_entry _ _ _ _ _ Hr). cbn [ok_or]. cbv zeta.
    change (pk_market (pe_key e)) with (entry_market e). rewrite (resolved_find _ _ _ _ _ Hr). cbn [ok_or].
    cbn [seen op_key op_slot_extra]. rewrite prow_lookup. case_decide.
    + rewrite (proj2 (Nat.leb_gt _ _)) by done. rewrite cell_Some by (done || lia). done.
    + by rewrite (proj2 (Nat.leb_le _ _)) by lia.
  - unfold slot_extra, table_entry. by rewrite (sees_None s p Hs Ho).
Qed.

Lemma extra_sees s p : store_wf s ->
  extra s p = match sees s p with Some o => Ok (op_extra o) | None => Err (PUnknownPosition p) end.
Proof.
  intros Hs. unfold extra. destruct (sees s p) as [o|] eqn:Ho.
  - by destruct (sees_Some s p o Hs Ho) as (e & mi & m & cf & x & Hr & Hm & Hl & _ & -> & -> & _).
  - assert (st_extra s !! p = None) as ->; [|done]. apply lookup_ge_None. rewrite (sw_extra_len s (proj2 Hs)).
    by apply lookup_ge_None, sees_None.
Qed.

Lemma position_key_sees s p : store_wf s ->
  position_key s p = match sees s p with Some o => Ok (op_key o) | None => Err (PUnknownPosition p) end.
Proof.
  intros Hs. unfold position_key, table_entry. pose proof (sees_keys s p Hs) as Hk. unfold keys in Hk.
  rewrite list_lookup_fmap in Hk. rewrite <- Hk. by destruct (sees s p).
Qed.

(** A reference spelled out by what the store shows and by its rows. *)
Definition ref_of (p : nat) (x : OvPos) (rows : list MarketRow) (ts : Timestamp) : PositionRef :=
  mkPosRef p (op_key x) (op_config x) (op_supply x) (op_debt x) (op_extra x) (op_slot_extra x) rows ts.

Lemma position_ref_of s p ts : store_wf s ->
  position_ref s p ts = match sees s p with
    | Some x => Ok (ref_of p x (default [] (st_rows s (pk_market (op_key x)))) ts)
    | None => Err (SUnknownPosition p)
    end.
Proof.
  intros Hs. destruct (sees s p) as [x|] eqn:Hx.
  - destruct (sees_Some s p x Hs Hx) as (e & mi & m & c & ex & Hr & _ & _ & Hc & Hex & -> & Hrows).
    rewrite (position_ref_seen _ _ _ _ _ _ _ _ Hs Hr Hc Hex), Hrows. done.
  - pose proof (sees_None s p Hs Hx) as He. unfold position_ref.
    assert (st_config s !! p = None) as ->; [|done]. apply lookup_ge_None. rewrite (sw_config_len s (proj2 Hs)). by apply lookup_ge_None.
Qed.

(** ** What a setter does to what the store shows *)

(** Positions whose entry, columns and market row are untouched are shown as before. *)
Lemma sees_same s s' q :
  store_wf s -> store_wf s' ->
  pt_entries (st_positions s') !! q = pt_entries (st_positions s) !! q ->
  st_config s' !! q = st_config s !! q -> st_extra s' !! q = st_extra s !! q ->
  (forall e m, pt_entries (st_positions s) !! q = Some e -> find_market s (entry_market e) = Some m ->
    exists m', find_market s' (entry_market e) = Some m' /\ forall c x, seen m' e c x = seen m e c x) ->
  sees s' q = sees s q.
Proof.
  intros Hs Hs' He Hc Hx Hm. destruct (pt_entries (st_positions s) !! q) as [e|] eqn:E.
  2: { rewrite !sees_unknown by (done || congruence). done. }
  destruct (entry_resolved s q e Hs E) as (mi & m & Hr & _ & _).
  destruct (entry_resolved s' q e Hs' He) as (mi' & m' & Hr' & _ & _).
  destruct (entry_columns s q e Hs E) as [[c Hc'] [x Hx']].
  destruct (Hm e m eq_refl (resolved_find _ _ _ _ _ Hr)) as (m2 & Hf & Hseen).
  rewrite (resolved_find _ _ _ _ _ Hr') in Hf. injection Hf as <-.
  rewrite (sees_seen _ _ _ _ _ _ _ Hs Hr Hc' Hx'). rewrite <- (Hseen c x).
  by apply (sees_seen _ _ _ mi' m'); [| |congruence..].
Qed.

(** [find_market] after replacing market [mi]. *)
Lemma find_market_replaced s s' mi m m' id :
  store_wf s -> st_market_index s' = st_market_index s -> st_markets s !! mi = Some m ->
  st_markets s' = <[mi := m']> (st_markets s) ->
  find_market s' id = if decide (market_idx (st_market_index s) id = Some mi) then Some m' else find_market s id.
Proof.
  intros Hs Ei Hm Em. unfold find_market. rewrite Ei, Em. destruct (market_idx _ id) as [i|]; [|by rewrite decide_False].
  case_decide as H.
  - injection H as ->. apply list_lookup_insert_eq. by eapply lookup_lt_Some.
  - rewrite list_lookup_insert_ne; [done|]. congruence.
Qed.

(** Two positions of one market have different locals. *)
Lemma locals_differ s p q e f mi m :
  store_wf s -> resolved s p e mi m -> pt_entries (st_positions s) !! q = Some f ->
  market_idx (st_market_index s) (entry_market f) = Some mi -> q <> p -> pe_local f <> pe_local e.
Proof.
  intros [_ Hs] [He Hi Hm] Hf Hfi Hne Heq. apply Hne.
  assert (Em : entry_market f = entry_market e) by by eapply (sw_index_inj s Hs).
  destruct (sw_entry s Hs _ _ He) as [_ H1]. destruct (sw_entry s Hs _ _ Hf) as [_ H2].
  eapply (count_market_inj (entry_market e)); [exact Hf|exact He|done|done|]. rewrite <- H1, <- Em, <- H2. done.
Qed.

(** Writing one cell of row [l] shows in row [l] only. *)
Lemma prow_set {A} (z : A) n st rows col l j v l' :
  column_ok z n st rows col -> l < n -> j < rows -> rows <= st -> l' < n ->
  prow rows st (<[l * st + j := v]> col) l' =
    if decide (l' = l) then <[j := v]> (prow rows st col l) else prow rows st col l'.
Proof.
  intros Hc Hl Hj Hr Hl'. apply list_eq. intros i. rewrite prow_lookup. case_decide as Hi.
  - rewrite (column_set_lookup _ _ _ _ _ _ _ _ _ _ Hc Hl Hj Hr Hl' Hi). destruct (decide (l' = l)) as [->|].
    + rewrite list_lookup_insert. rewrite (prow_length _ _ _ _ _ _ Hc Hl Hr). rewrite prow_lookup, (decide_True _ _ Hi).
      destruct (decide (i = j)) as [->|].
      * rewrite !decide_True by done. done.
      * rewrite !decide_False by naive_solver. done.
    + rewrite decide_False by naive_solver. by rewrite prow_lookup, decide_True.
  - destruct (decide (l' = l)) as [->|]; [|by rewrite prow_lookup, decide_False].
    rewrite list_lookup_insert_ne by lia. by rewrite prow_lookup, decide_False.
Qed.

(** Replacing one market by another that shows everyone but [p] the same row. *)
Lemma sees_replaced s s' p e mi m m' q :
  store_wf s -> store_wf s' -> resolved s p e mi m ->
  pt_entries (st_positions s') = pt_entries (st_positions s) -> st_market_index s' = st_market_index s ->
  st_markets s' = <[mi := m']> (st_markets s) ->
  st_config s' !! q = st_config s !! q -> st_extra s' !! q = st_extra s !! q ->
  (forall f c x, pe_local f < m_n_pos m -> pe_local f <> pe_local e -> seen m' f c x = seen m f c x) ->
  q <> p -> sees s' q = sees s q.
Proof.
  intros Hs Hs' Hr Ep Ei Em Hc Hx Hseen Hne. apply sees_same; try done; [by rewrite Ep|].
  intros f mf Hf Hmf. rewrite (find_market_replaced s s' mi m m' _ Hs Ei (rs_market _ _ _ _ _ Hr) Em).
  case_decide as Hd; [|by exists mf]. exists m'. split; [done|]. intros c x.
  destruct (entry_resolved s q f Hs Hf) as (mi2 & m2 & Hr2 & _ & Hl2).
  pose proof (rs_idx _ _ _ _ _ Hr2) as Hi2. assert (mi2 = mi) as -> by congruence.
  assert (m2 = m) as -> by (destruct Hr, Hr2; congruence).
  rewrite (resolved_find _ _ _ _ _ Hr2) in Hmf. injection Hmf as <-. apply Hseen; [done|].
  exact (locals_differ s p q e f mi m Hs Hr Hf Hd Hne).
Qed.

(** The record a write to a slot leaves. *)
Definition written (c : Col) (slot : nat) (v : Z) (o : OvPos) : OvPos :=
  let other := default 0%Z (op_col (other_col c) o !! slot) in
  op_set_config (if negb (v =? 0)%Z || negb (other =? 0)%Z then default (op_config o) (with_slot (op_config o) slot)
                 else without_slot (op_config o) slot) (op_set_col c (<[slot := v]> (op_col c o)) o).

Lemma seen_col_set c m e v l j cf x :
  market_wf m -> l < m_n_pos m -> j < length (m_rows m) -> pe_local e < m_n_pos m ->
  seen (col_set c (<[l * m_stride m + j := v]> (col_get c m)) m) e cf x =
    if decide (pe_local e = l) then op_set_col c (<[j := v]> (op_col c (seen m e cf x))) (seen m e cf x)
    else seen m e cf x.
Proof.
  intros Hm Hl Hj He. pose proof (mw_rows m Hm) as Hr. unfold seen.
  destruct c; cbn [col_set col_get m_rows m_stride m_supply m_debt m_slot_extra op_set_col op_col op_supply op_debt op_key op_config op_extra op_slot_extra].
  - rewrite (prow_set _ _ _ _ _ _ _ v _ (mw_supply m Hm) Hl Hj Hr He). case_decide as Hd; [by rewrite Hd|done].
  - rewrite (prow_set _ _ _ _ _ _ _ v _ (mw_debt m Hm) Hl Hj Hr He). case_decide as Hd; [by rewrite Hd|done].
Qed.

(** A store after a setter: the shape every setter's lemma below has. *)
Definition shows (s s' : StateStore) (f : nat -> option OvPos) : Prop :=
  store_wf s' /\ keys s' = keys s /\ same_rows s s' /\ forall q, sees s' q = f q.

Lemma set_column_sees c pos slot v s :
  store_wf s ->
  match sees s pos with
  | None => set_column c pos slot v s = (s, Err (PUnknownPosition pos))
  | Some o =>
      if decide (slot < length (op_supply o))
      then exists s', set_column c pos slot v s = (s', Ok tt) /\
             shows s s' (fun q => if decide (q = pos) then Some (written c slot v o) else sees s q)
      else set_column c pos slot v s = (s, Err (SlotOutOfRange (mkSlot (pk_market (op_key o)) slot)))
  end.
Proof.
  intros Hs. destruct (sees s pos) as [o|] eqn:Ho.
  2: { unfold set_column, table_entry. by rewrite (sees_None s pos Hs Ho). }
  destruct (sees_Some s pos o Hs Ho) as (e & mi & m & cf & x & Hr & Hm & Hl & Hc & Hx & Eo & Hrows).
  pose proof (mw_rows m Hm) as Hrw.
  assert (Hlen : length (op_supply o) = length (m_rows m)).
  { subst o. cbn. by apply (prow_length _ _ _ _ _ _ (mw_supply m Hm)). }
  rewrite Hlen. case_decide as Hslot.
  - destruct (set_column_resolved c pos slot v s e mi m Hs Hr Hslot)
      as (cfg & cfg' & prev & other & Hcfg & Hok & Hprev & Hother & Hbits & Heq).
    destruct (set_column_reads c pos slot v s _ Hs Heq) as (Hwf & Hk & Hsr & _).
    rewrite Heq. eexists. split; [reflexivity|]. split; [done|]. split; [done|]. split; [done|].
    intros q. case_decide as Hq.
    + subst q. erewrite (sees_seen _ pos e mi); [|exact Hwf| |apply list_lookup_insert_eq; by eapply lookup_lt_Some|exact Hx].
      2: { destruct Hr as [H1 H2 H3]. constructor; [done|done|]. cbn. apply list_lookup_insert_eq. by eapply lookup_lt_Some. }
      f_equal. rewrite seen_col_set by done. rewrite decide_True by done. rewrite Eo. unfold written.
      assert (Hoth : op_col (other_col c) (seen m e cf x) !! slot = Some other).
      { destruct c; cbn [other_col op_col seen op_supply op_debt]; rewrite prow_lookup, decide_True by done; exact Hother. }
      rewrite Hoth. cbn [from_option id]. assert (cfg = cf) as -> by congruence.
      replace (op_config (seen m e cf x)) with cf by done.
      assert (cfg' = (if negb (v =? 0)%Z || negb (other =? 0)%Z then default cf (with_slot cf slot) else without_slot cf slot)) as ->.
      2: by destruct c.
      assert (mask_ok cf) as Hmk by (eapply (Forall_lookup_1 mask_ok); [apply Hs|done]).
      pose proof (mw_stride m Hm). destruct (proj2 (with_slot_is_Some cf slot) ltac:(lia)) as [cw Hcw]. rewrite Hcw. cbn [from_option id].
      apply mask_ext; [done|destruct (negb (v =? 0)%Z || negb (other =? 0)%Z); [by eapply with_slot_ok|by apply without_slot_ok]|]. intros j _. rewrite Hbits.
      destruct (negb (v =? 0)%Z || negb (other =? 0)%Z).
      * rewrite (contains_with _ _ _ j Hcw). case_decide; subst; [by rewrite Nat.eqb_refl|].
        by rewrite (proj2 (Nat.eqb_neq slot j)).
      * rewrite contains_without by done. case_decide; subst; [by rewrite Nat.eqb_refl, andb_false_r|].
        rewrite (proj2 (Nat.eqb_neq slot j)) by done. by rewrite andb_true_r.
    + eapply (sees_replaced s _ pos e mi m); try done.
      * cbn. by rewrite list_lookup_insert_ne.
      * intros f c0 x0 Hf Hne. rewrite seen_col_set by done. by rewrite decide_False.
  - unfold set_column, table_entry. rewrite (rs_entry _ _ _ _ _ Hr). cbn [ok_or]. cbv zeta.
    change (pk_market (pe_key e)) with (entry_market e). rewrite (rs_idx _ _ _ _ _ Hr). cbn [ok_or].
    rewrite (rs_market _ _ _ _ _ Hr). cbn [ok_or]. rewrite (proj2 (Nat.leb_le _ _)) by lia. by subst o.
Qed.

Lemma set_slot_extra_sees pos slot v s :
  store_wf s ->
  match sees s pos with
  | None => set_slot_extra pos slot v s = (s, Err (PUnknownPosition pos))
  | Some o =>
      if decide (slot < length (op_slot_extra o))
      then exists s', set_slot_extra pos slot v s = (s', Ok tt) /\
             shows s s' (fun q => if decide (q = pos) then Some (op_set_slot_extra (<[slot := v]> (op_slot_extra o)) o) else sees s q)
      else set_slot_extra pos slot v s = (s, Err (SlotOutOfRange (mkSlot (pk_market (op_key o)) slot)))
  end.
Proof.
  intros Hs. destruct (sees s pos) as [o|] eqn:Ho.
  2: { unfold set_slot_extra, table_entry. by rewrite (sees_None s pos Hs Ho). }
  destruct (sees_Some s pos o Hs Ho) as (e & mi & m & cf & x & Hr & Hm & Hl & Hc & Hx & Eo & Hrows).
  pose proof (mw_rows m Hm) as Hrw.
  assert (Hlen : length (op_slot_extra o) = length (m_rows m)).
  { subst o. cbn. by apply (prow_length _ _ _ _ _ _ (mw_slot_extra m Hm)). }
  rewrite Hlen.
  assert (Hop : set_slot_extra pos slot v s = if (length (m_rows m) <=? slot) then (s, Err (SlotOutOfRange (mkSlot (entry_market e) slot))) else
      let# prev := ok_or (m_slot_extra m !! (pe_local e * m_stride m + slot)) (SlotOutOfRange (mkSlot (entry_market e) slot)) at s in
      (bump_writes (set_market_at mi (set_slot_extra_col (<[pe_local e * m_stride m + slot := v]> (m_slot_extra m)) m)
        (set_undo (ring_push_slot_extra pos slot prev (st_undo s)) s)), Ok tt)).
  { unfold set_slot_extra, table_entry. rewrite (rs_entry _ _ _ _ _ Hr). cbn [ok_or]. cbv zeta.
    change (pk_market (pe_key e)) with (entry_market e). rewrite (rs_idx _ _ _ _ _ Hr). cbn [ok_or].
    rewrite (rs_market _ _ _ _ _ Hr). cbn [ok_or]. destruct (Nat.leb_spec (length (m_rows m)) slot); [done|].
    rewrite cell_Some by (done || lia). done. }
  case_decide as Hslot; rewrite Hop.
  2: { rewrite (proj2 (Nat.leb_le _ _)) by lia. by subst o. }
  rewrite (proj2 (Nat.leb_gt _ _)) in * by done.
  destruct (cell_at_Some _ _ _ _ _ _ slot (mw_slot_extra m Hm) Hl ltac:(lia)) as [prev Hprev].
  unfold cell_at in Hprev. rewrite Hprev in *. cbn [ok_or] in *.
  assert (Hwf := proj1 (set_slot_extra_mutates _ _ _ _ _ Hs Hop)).
  eexists. split; [reflexivity|]. split; [done|]. split; [done|].
  assert (Hcell : forall f c0 x0, pe_local f < m_n_pos m ->
    seen (set_slot_extra_col (<[pe_local e * m_stride m + slot := v]> (m_slot_extra m)) m) f c0 x0 =
    if decide (pe_local f = pe_local e) then op_set_slot_extra (<[slot := v]> (op_slot_extra (seen m f c0 x0))) (seen m f c0 x0)
    else seen m f c0 x0).
  { intros f c0 x0 Hf. unfold seen, set_slot_extra_col. cbn [m_rows m_stride m_supply m_debt m_slot_extra op_slot_extra op_set_slot_extra op_key op_config op_extra op_supply op_debt].
    rewrite (prow_set _ _ _ _ _ _ _ v _ (mw_slot_extra m Hm) Hl Hslot Hrw Hf). case_decide as Hd; [by rewrite Hd|done]. }
  split.
  - intros id. unfold st_rows. erewrite (find_market_replaced s _ mi m _ id Hs); [|done|apply Hr|done].
    case_decide as Hd; [|done]. unfold find_market. by rewrite Hd, (rs_market _ _ _ _ _ Hr).
  - intros q. case_decide as Hq.
    + subst q. erewrite (sees_seen _ pos e mi); [|exact Hwf| |exact Hc|exact Hx].
      2: { destruct Hr as [H1 H2 H3]. constructor; [done|done|]. cbn. apply list_lookup_insert_eq. by eapply lookup_lt_Some. }
      rewrite Hcell, decide_True by done. by subst o.
    + eapply (sees_replaced s _ pos e mi m); try done. intros f c0 x0 Hf Hne. rewrite Hcell by done. by rewrite decide_False.
Qed.

Lemma set_extra_sees pos v s :
  store_wf s ->
  match sees s pos with
  | None => set_extra pos v s = (s, Err (PUnknownPosition pos))
  | Some o => exists s', set_extra pos v s = (s', Ok tt) /\
      shows s s' (fun q => if decide (q = pos) then Some (op_set_extra v o) else sees s q)
  end.
Proof.
  intros Hs. pose proof (extra_sees s pos Hs) as Hex. unfold extra in Hex. destruct (sees s pos) as [o|] eqn:Ho.
  2: { unfold set_extra. by rewrite Hex. }
  destruct (sees_Some s pos o Hs Ho) as (e & mi & m & cf & x & Hr & Hm & Hl & Hc & Hx & Eo & Hrows).
  assert (Hop : exists s', set_extra pos v s = (s', Ok tt) /\ st_extra s' = <[pos := v]> (st_extra s) /\
    st_config s' = st_config s /\ st_positions s' = st_positions s /\ st_markets s' = st_markets s /\ st_market_index s' = st_market_index s).
  { unfold set_extra. rewrite Hx. cbn [ok_or]. eexists. done. }
  destruct Hop as (s' & Hop & Ex & Ec & Ep & Em & Ei). assert (Hwf := proj1 (set_extra_mutates _ _ _ _ Hs Hop)).
  exists s'. split; [done|]. split; [done|]. split; [unfold keys; by rewrite Ep|].
  assert (Hfm : forall id, find_market s' id = find_market s id) by (intros id; unfold find_market; by rewrite Em, Ei).
  split; [intros id; unfold st_rows; by rewrite Hfm|]. intros q. case_decide as Hq.
  - subst q. erewrite (sees_seen _ pos e mi m); [by subst o|exact Hwf| |by rewrite Ec|rewrite Ex; apply list_lookup_insert_eq; by eapply lookup_lt_Some].
    destruct Hr. constructor; congruence.
  - apply sees_same; try done; [by rewrite Ep|by rewrite Ec|rewrite Ex; by rewrite list_lookup_insert_ne|].
    intros f mf _ Hmf. exists mf. by rewrite Hfm.
Qed.

Lemma set_market_sees at_ row s :
  store_wf s ->
  match st_rows s (ms_market at_) with
  | Some rows =>
      if decide (ms_slot at_ < length rows)
      then exists s', set_market at_ row s = (s', Ok tt) /\ store_wf s' /\ keys s' = keys s /\
             (forall id, st_rows s' id = if decide (id = ms_market at_) then Some (<[ms_slot at_ := row]> rows) else st_rows s id) /\
             forall q, sees s' q = sees s q
      else set_market at_ row s = (s, Err (SlotOutOfRange at_))
  | None => set_market at_ row s = (s, Err (SlotOutOfRange at_))
  end.
Proof.
  intros Hs. unfold st_rows, find_market. destruct (market_idx (st_market_index s) (ms_market at_)) as [mi|] eqn:Hi; cbn.
  2: { unfold set_market, row_at. by rewrite Hi. }
  destruct (lookup_lt_is_Some_2 (st_markets s) mi) as [m Hm]; [by eapply (sw_index s (proj2 Hs))|]. rewrite Hm. cbn.
  case_decide as Hd.
  2: { unfold set_market, row_at. rewrite Hi, Hm. cbn. by rewrite lookup_ge_None_2 by lia. }
  destruct (lookup_lt_is_Some_2 _ _ Hd) as [prev Hp].
  assert (Hop : exists s', set_market at_ row s = (s', Ok tt) /\ st_extra s' = st_extra s /\ st_config s' = st_config s /\
    st_positions s' = st_positions s /\ st_market_index s' = st_market_index s /\
    st_markets s' = <[mi := set_rows (<[ms_slot at_ := row]> (m_rows m)) m]> (st_markets s)).
  { unfold set_market, row_at. rewrite Hi, Hm. cbn. rewrite Hp. cbn. by eexists. }
  destruct Hop as (s' & Hop & Ex & Ec & Ep & Ei & Em).
  destruct (set_market_reads _ _ _ _ Hs Hop) as (Hwf & Hk & _ & rows & Hr & _ & Hrows).
  assert (rows = m_rows m) as ->.
  { unfold st_rows, find_market in Hr. rewrite Hi in Hr. cbn in Hr. rewrite Hm in Hr. by injection Hr. }
  exists s'. split_and!; try done. intros q. apply sees_same; try done; [by rewrite Ep|by rewrite Ec|by rewrite Ex|].
  intros f mf _ Hmf. rewrite (find_market_replaced s s' mi m _ _ Hs Ei Hm Em). case_decide as Hf; [|by exists mf].
  eexists. split; [done|]. unfold find_market in Hmf. rewrite Hf in Hmf. cbn in Hmf.
  assert (mf = m) as -> by congruence. intros c x. unfold seen. cbn [set_rows m_rows m_stride m_supply m_debt m_slot_extra].
  by rewrite length_insert.
Qed.

(** Growing a market shows its positions the same rows and the new one a blank row. *)
Lemma prow_grow {A} (z : A) n st rows col l :
  column_ok z n st rows col -> rows <= st -> l <= n ->
  prow rows st (resize (n * st + st) z col) l = if decide (l = n) then resize rows z [] else prow rows st col l.
Proof.
  intros Hc Hr Hl. destruct (column_grow_ok _ _ _ _ _ Hc Hr) as (_ & Hold & Hnew).
  destruct (decide (l = n)) as [->|].
  - rewrite resize_nil. apply list_eq. intros j. rewrite prow_lookup. case_decide.
    + rewrite Hnew by lia. symmetry. by apply lookup_replicate_2.
    + symmetry. apply lookup_ge_None. rewrite length_replicate. lia.
  - apply prow_ext. intros j Hj. apply Hold; lia.
Qed.

Definition blank_pos (k : PositionKey) (n : nat) : OvPos := ovpos_blank n (mkOvPos k EMPTY EXTRA_ZERO [] [] []).

Lemma seen_grow m f c x :
  market_wf m -> pe_local f <= m_n_pos m ->
  seen (market_grow (S (m_n_pos m)) m) f c x =
    if decide (pe_local f = m_n_pos m) then mkOvPos (pe_key f) c x (resize (length (m_rows m)) 0%Z []) (resize (length (m_rows m)) 0%Z [])
      (resize (length (m_rows m)) EXTRA_ZERO []) else seen m f c x.
Proof.
  intros Hm Hf. pose proof (mw_rows m Hm) as Hr. unfold seen, market_grow. cbn [m_rows m_stride m_supply m_debt m_slot_extra].
  rewrite (prow_grow _ _ _ _ _ _ (mw_supply m Hm) Hr Hf), (prow_grow _ _ _ _ _ _ (mw_debt m Hm) Hr Hf),
    (prow_grow _ _ _ _ _ _ (mw_slot_extra m Hm) Hr Hf). by case_decide.
Qed.

Lemma count_le id es : count_market id es <= length es.
Proof. unfold count_market. apply length_filter. Qed.

(** A position not seen before gets the next id and a blank row. *)
Lemma intern_fresh_run k s rows :
  store_wf s -> position_id s k = None -> st_rows s (pk_market k) = Some rows ->
  (Z.of_nat (length (keys s)) < umax 32)%Z ->
  exists s' mi m, intern k s = (s', Ok (length (keys s))) /\ m_rows m = rows /\ market_wf m /\
    market_idx (st_market_index s) (pk_market k) = Some mi /\ st_markets s !! mi = Some m /\
    st_config s' = st_config s ++ [EMPTY] /\ st_extra s' = st_extra s ++ [EXTRA_ZERO] /\
    pt_entries (st_positions s') = pt_entries (st_positions s) ++ [mkEntry k (m_n_pos m)] /\
    st_markets s' = <[mi := market_grow (S (m_n_pos m)) m]> (st_markets s) /\ st_market_index s' = st_market_index s.
Proof.
  intros Hs Hk Hr Hn. unfold st_rows, find_market in Hr.
  destruct (market_idx (st_market_index s) (pk_market k)) as [mi|] eqn:Hi; cbn in Hr; [|done].
  destruct (st_markets s !! mi) as [m|] eqn:Hm; cbn in Hr; [|done]. injection Hr as Hr.
  assert (market_wf m) as Hwm by (eapply Forall_lookup_1; [apply Hs|done]).
  assert (Hnp : m_n_pos m <= length (keys s)).
  { rewrite (sw_n_pos s (proj2 Hs) _ _ _ Hi Hm). unfold keys. rewrite length_fmap. apply count_le. }
  pose proof (mw_stride m Hwm) as Hst. unfold keys in Hn, Hnp. rewrite length_fmap in Hn, Hnp.
  unfold intern. unfold position_id in Hk. rewrite Hk. cbv zeta. rewrite Hi. cbn [ok_or]. rewrite Hm. cbn [ok_or].
  unfold table_next_id. rewrite (proj2 (try_from_nat_Some 32 (length (pt_entries (st_positions s))) (length (pt_entries (st_positions s))))) by (split; [done|lia]). cbn [ok_or].
  rewrite (proj2 (checked_add_nat_Some 32 (m_n_pos m) 1 (S (m_n_pos m)))) by lia. cbn [ok_or].
  rewrite (co_len _ _ _ _ _ (mw_supply m Hwm)).
  rewrite (proj2 (checked_add_nat_Some 64 (m_n_pos m * m_stride m) (m_stride m) (m_n_pos m * m_stride m + m_stride m))).
  2: { split; [reflexivity|]. assert (m_n_pos m * m_stride m <= m_n_pos m * 128) by (apply Nat.mul_le_mono_l; lia). unfold umax in *. lia. }
  cbn [ok_or]. eexists _, mi, m. split; [unfold keys; rewrite length_fmap; reflexivity|]. split_and!; try done.
Qed.

Lemma intern_sees k s :
  store_wf s -> (Z.of_nat (length (keys s)) < umax 32)%Z ->
  match position_id s k with
  | Some id => intern k s = (s, Ok id)
  | None =>
      match st_rows s (pk_market k) with
      | None => intern k s = (s, Err (PUnknownMarket (pk_market k)))
      | Some rows =>
          exists s', intern k s = (s', Ok (length (keys s))) /\ store_wf s' /\ keys s' = keys s ++ [k] /\ same_rows s s' /\
            forall q, sees s' q = if decide (q = length (keys s)) then Some (blank_pos k (length rows)) else sees s q
      end
  end.
Proof.
  intros Hs Hn. destruct (position_id s k) as [id|] eqn:Hk.
  { unfold intern. unfold position_id in Hk. by rewrite Hk. }
  destruct (st_rows s (pk_market k)) as [rows|] eqn:Hr.
  2: { unfold intern. unfold position_id in Hk. rewrite Hk. cbv zeta. unfold st_rows, find_market in Hr.
       destruct (market_idx _ _) as [mi|] eqn:Hi; cbn [ok_or]; [|done].
       destruct (st_markets s !! mi) as [m|] eqn:Hm; cbn in Hr |- *; done. }
  destruct (intern_fresh_run k s rows Hs Hk Hr Hn) as (s' & mi & m & Hop & Hrm & Hwm & Hi & Hm & Ec & Ex & Ep & Em & Ei).
  destruct (intern_reads _ _ _ _ Hs Hop) as (Hwf & _ & Hsr & Hor).
  assert (Hlen : length (keys s) = length (pt_entries (st_positions s))) by (unfold keys; by rewrite length_fmap).
  assert (Hkeys : keys s' = keys s ++ [k]) by (unfold keys; rewrite Ep, fmap_app; done).
  assert (Hcl := sw_config_len s (proj2 Hs)). assert (Hxl := sw_extra_len s (proj2 Hs)).
  exists s'. split_and!; try done. intros q. case_decide as Hq.
  - subst q. erewrite (sees_seen _ _ (mkEntry k (m_n_pos m)) mi (market_grow (S (m_n_pos m)) m)); [|done| | |].
    + rewrite seen_grow by done. rewrite decide_True by done. by rewrite Hrm.
    + constructor; [rewrite Ep, lookup_app_r, Hlen, Nat.sub_diag by lia; done|by rewrite Ei|].
      rewrite Em. apply list_lookup_insert_eq. by eapply lookup_lt_Some.
    + rewrite Ec, lookup_app_r, Hlen, Hcl, Nat.sub_diag by lia. done.
    + rewrite Ex, lookup_app_r, Hlen, Hxl, Nat.sub_diag by lia. done.
  - assert (Hsame : forall A (l l' : list A) x, length l = length (pt_entries (st_positions s)) -> l' = l ++ [x] -> l' !! q = l !! q).
    { intros A l l' x Hl ->. destruct (decide (q < length l)); [by rewrite lookup_app_l|].
      rewrite (lookup_ge_None_2 l) by lia. apply lookup_ge_None. rewrite length_app. cbn. lia. }
    apply sees_same; [done|done|by eapply Hsame|by eapply Hsame|by eapply Hsame|].
    intros f mf Hf Hmf. rewrite (find_market_replaced s s' mi m _ _ Hs Ei Hm Em). case_decide as Hd; [|by exists mf].
    eexists. split; [done|]. intros c x. destruct (entry_resolved s q f Hs Hf) as (mi2 & m2 & Hr2 & _ & Hl2).
    pose proof (rs_idx _ _ _ _ _ Hr2). assert (mi2 = mi) as -> by congruence.
    assert (m2 = m) as -> by (destruct Hr2; congruence). rewrite (resolved_find _ _ _ _ _ Hr2) in Hmf. injection Hmf as <-.
    rewrite seen_grow by (done || lia). rewrite decide_False by lia. done.
Qed.

(** ** Listing *)

Lemma prow_append {A} (z : A) n st rows col l :
  column_ok z n st rows col -> l < n -> S rows <= st ->
  prow (S rows) st col l = resize (S rows) z (prow rows st col l).
Proof.
  intros Hc Hl Hr. apply list_eq. intros j. rewrite prow_lookup. case_decide as Hj.
  - destruct (decide (j < rows)).
    + rewrite lookup_resize; [|lia|rewrite (prow_length _ _ _ _ _ _ Hc Hl); lia]. by rewrite prow_lookup, decide_True.
    + rewrite lookup_resize_new; [|rewrite (prow_length _ _ _ _ _ _ Hc Hl); lia|done]. apply Hc; lia.
  - symmetry. apply lookup_ge_None. rewrite length_resize. lia.
Qed.

(** What a listing in market [m] does to a position. *)
Definition listed (m : MarketId) (n : nat) (o : OvPos) : OvPos := if (pk_market (op_key o) =? m) then op_resize n o else o.

Lemma seen_append row m m' f c x :
  market_wf m' -> market_eqv m m' -> m_rows m' = m_rows m -> S (length (m_rows m)) <= m_stride m' ->
  pe_local f < m_n_pos m ->
  seen (append_row row m') f c x = op_resize (S (length (m_rows m))) (seen m f c x).
Proof.
  intros Hw Hq Er Hst Hf. destruct Hq as [_ En Ec Es]. unfold seen, append_row, op_resize.
  cbn [set_rows m_rows m_stride m_supply m_debt m_slot_extra op_key op_config op_extra op_supply op_debt op_slot_extra].
  rewrite length_app. cbn [length]. rewrite Nat.add_1_r, Er. assert (pe_local f < m_n_pos m') by congruence.
  pose proof (mw_supply m' Hw) as H1. pose proof (mw_debt m' Hw) as H2. pose proof (mw_slot_extra m' Hw) as H3. rewrite Er in H1, H2, H3.
  rewrite (prow_append _ _ _ _ _ _ H1), (prow_append _ _ _ _ _ _ H2), (prow_append _ _ _ _ _ _ H3) by done.
  rewrite (prow_ext _ _ (m_stride m) (m_supply m') (m_supply m) _ (pe_local f)) by (intros j Hj; symmetry; by apply (Ec Supply)).
  rewrite (prow_ext _ _ (m_stride m) (m_debt m') (m_debt m) _ (pe_local f)) by (intros j Hj; symmetry; by apply (Ec Debt)).
  rewrite (prow_ext _ _ (m_stride m) (m_slot_extra m') (m_slot_extra m) _ (pe_local f)) by (intros j Hj; symmetry; by apply Es). done.
Qed.

(** The store can take a listing of [id]: it knows the market, or there is room for one more. *)
Definition can_list (s : StateStore) (id : MarketId) : Prop :=
  st_rows s id = None -> (Z.of_nat id < MAX_MARKETS /\ Z.of_nat (length (st_markets s)) < MAX_MARKETS)%Z.

Lemma push_known_sees id row s rows :
  store_wf s -> st_rows s id = Some rows ->
  if decide (length rows < 128)
  then exists s', push_market id row s = (s', Ok (mkSlot id (length rows))) /\
         forall q, sees s' q = listed id (S (length rows)) <$> sees s q
  else push_market id row s = (s, Err (SlotOutOfRange (mkSlot id (length rows)))).
Proof.
  intros Hs Hr. unfold st_rows, find_market in Hr.
  destruct (market_idx (st_market_index s) id) as [mi|] eqn:Hi; cbn in Hr; [|done].
  destruct (st_markets s !! mi) as [m|] eqn:Hm; cbn in Hr; [|done]. injection Hr as <-.
  assert (market_wf m) as Hwm by (eapply Forall_lookup_1; [apply Hs|done]). pose proof (mw_rows m Hwm). pose proof (mw_stride m Hwm).
  destruct (push_market_known id row s mi m Hs Hi Hm) as [[Hge [err E]]|(Hlt & m' & Hw' & Hq & Er' & En' & Hst & E)].
  - rewrite decide_False by lia. unfold push_market. rewrite Hi. cbn [andb]. rewrite Hm. cbn [ok_or].
    rewrite (proj2 (try_from_nat_Some 16 (length (m_rows m)) (length (m_rows m)))) by (split; [done|unfold umax; lia]).
    cbn [ok_or]. cbv zeta. unfold MAX_SLOTS. by rewrite (proj2 (Z.leb_le 128 _)) by lia.
  - rewrite decide_True by done. pose proof (push_market_spec _ _ _ _ _ Hs E) as [Hs' _]. eexists. split; [exact E|].
    intros q. destruct (sees s q) as [o|] eqn:Ho.
    2: { cbn. apply sees_unknown; [done|]. exact (sees_None s q Hs Ho). }
    destruct (sees_Some s q o Hs Ho) as (e & mi2 & m2 & cf & x & Hr & _ & Hl & Hc & Hx & -> & _). cbn [fmap option_fmap option_map].
    unfold listed. cbn [seen op_key]. pose proof Hr as [R1 R2 R3]. destruct (Nat.eqb_spec (pk_market (pe_key e)) id) as [Heq|Hne].
    + unfold entry_market in R2. rewrite Heq, Hi in R2. injection R2 as <-. assert (m2 = m) as -> by congruence.
      rewrite <- (seen_append row m m' e cf x Hw' Hq Er' Hst Hl). eapply (sees_seen _ q e mi); [done| |done|done].
      constructor; [done|cbn; unfold entry_market; by rewrite Heq|]. cbn. apply list_lookup_insert_eq. by eapply lookup_lt_Some.
    + eapply (sees_seen _ q e mi2); [done| |done|done]. constructor; [done|done|]. cbn. rewrite list_lookup_insert_ne; [done|].
      intros ->. apply Hne. by eapply (sw_index_inj s (proj2 Hs)).
Qed.

Lemma push_market_sees id row s :
  store_wf s -> can_list s id ->
  let rows := default [] (st_rows s id) in
  if decide (length rows < 128)
  then exists s', push_market id row s = (s', Ok (mkSlot id (length rows))) /\ store_wf s' /\ keys s' = keys s /\
         (forall i, st_rows s' i = if decide (i = id) then Some (rows ++ [row]) else st_rows s i) /\
         forall q, sees s' q = listed id (S (length rows)) <$> sees s q
  else push_market id row s = (s, Err (SlotOutOfRange (mkSlot id (length rows)))).
Proof.
  intros Hs Hroom rows. subst rows. destruct (st_rows s id) as [rows|] eqn:Hr; [change (default [] (Some rows)) with rows|change (default [] None) with (@nil MarketRow)].
  - pose proof (push_known_sees id row s rows Hs Hr) as H. case_decide; [|done]. destruct H as (s' & Hop & Hsees).
    destruct (push_market_reads _ _ _ _ _ Hs Hop) as (Hwf & Hk & _ & _ & Hrows). rewrite Hr in Hrows. by exists s'.
  - assert (Hi : market_idx (st_market_index s) id = None).
    { unfold st_rows, find_market in Hr. destruct (market_idx _ id) as [mi|] eqn:Hi; [|done]. cbn in Hr.
      destruct (lookup_lt_is_Some_2 (st_markets s) mi) as [m Hm]; [by eapply (sw_index s (proj2 Hs))|]. by rewrite Hm in Hr. }
    destruct (Hroom Hr) as [Hb1 Hb2]. destruct (push_market_fresh id row s Hs Hi) as [[[]  _]|[_ E]]; [lia|lia|].
    rewrite decide_True by (cbn; lia). pose proof (push_market_spec _ _ _ _ _ Hs E) as [Hs' _]. eexists. split; [exact E|].
    destruct (push_market_reads _ _ _ _ _ Hs E) as (_ & Hk & _ & _ & Hrows). rewrite Hr in Hrows. split_and!; try done.
    intros q. destruct (sees s q) as [o|] eqn:Ho.
    2: { cbn. apply sees_unknown; [done|]. exact (sees_None s q Hs Ho). }
    destruct (sees_Some s q o Hs Ho) as (e & mi & m & cf & x & Hr2 & _ & Hl & Hc & Hx & -> & Hrw). cbn [fmap option_fmap option_map].
    unfold listed. destruct (Nat.eqb_spec (pk_market (op_key (seen m e cf x))) id) as [Heq|Hne]; [congruence|].
    pose proof Hr2 as [R1 R2 R3]. eapply (sees_seen _ q e mi); [done| |done|done].
    constructor; [done| |cbn; by apply lookup_app_l_Some]. cbn. rewrite fresh_idx by done. rewrite decide_False; [done|].
    intros <-. congruence.
Qed.

(** ** The simulation *)

Definition nrows (s : StateStore) (m : MarketId) : nat := length (default [] (st_rows s m)).

(** [covers base o s]: over [base], the overlay [o] stands for the store [s]. A position with a
    copy is shown by it; any other is the base's, with blank cells for what was listed since. *)
Record covers (base : StateStore) (o : Overlay) (s : StateStore) : Prop := {
  cv_base : store_wf base;
  cv_store : store_wf s;
  cv_stamp : ov_tip o = tip base /\ ov_base_len o = store_len base /\ ov_base_writes o = st_writes base;
  cv_keys : exists new, keys s = keys base ++ new /\ size (ov_new_keys o) = length new;
  cv_new : forall k id, ov_new_keys o !! k = Some id <-> length (keys base) <= id /\ keys s !! id = Some k;
  cv_rows : forall id, or_else (ov_rows o id) (st_rows base id) = st_rows s id;
  cv_grow : forall id, nrows base id <= nrows s id;
  cv_mkt : forall id i, ov_mkt_index o !! id = Some i -> i < ov_mkt_len o;
  cv_mkt_inj : forall a b i, ov_mkt_index o !! a = Some i -> ov_mkt_index o !! b = Some i -> a = b;
  cv_mkt_len : ov_mkt_len o <= length (ov_mkt o);
  cv_idx : forall p i, ov_pos_index o !! p = Some i -> i < ov_pos_len o;
  cv_idx_inj : forall p q i, ov_pos_index o !! p = Some i -> ov_pos_index o !! q = Some i -> p = q;
  cv_pos_len : ov_pos_len o <= length (ov_pos o);
  cv_copy : forall p i, ov_pos_index o !! p = Some i -> exists x, ov_pos o !! i = Some x /\ sees s p = Some x;
  cv_rest : forall p, ov_pos_index o !! p = None ->
    sees s p = (fun b => op_resize (nrows s (pk_market (op_key b))) b) <$> sees base p
}.

Lemma resize_full {A} n (z : A) l : length l = n -> resize n z l = l.
Proof. intros <-. by apply resize_all. Qed.

Lemma op_resize_full n o : full n o -> op_resize n o = o.
Proof. intros (H1 & H2 & H3). unfold op_resize. rewrite !resize_full by done. by destruct o. Qed.

Lemma resize_twice {A} n m (z : A) l : length l <= n -> n <= m -> resize m z (resize n z l) = resize m z l.
Proof.
  intros Hl Hm. apply list_eq. intros j. destruct (decide (j < m)); [|rewrite !lookup_ge_None_2 by (rewrite length_resize; lia); done].
  destruct (decide (j < length l)).
  - rewrite !lookup_resize by (rewrite ?length_resize; lia). done.
  - rewrite (lookup_resize_new l) by lia. destruct (decide (j < n)).
    + rewrite lookup_resize by (rewrite ?length_resize; lia). by apply lookup_resize_new; lia.
    + apply lookup_resize_new; rewrite ?length_resize; lia.
Qed.

Lemma sees_nrows s p o : store_wf s -> sees s p = Some o -> full (nrows s (pk_market (op_key o))) o /\ nrows s (pk_market (op_key o)) <= 128.
Proof. intros Hs Ho. destruct (sees_full s p o Hs Ho) as (rows & Hr & Hf & Hl & _). unfold nrows. by rewrite Hr. Qed.

Lemma store_len_keys s : store_len s = length (keys s).
Proof. unfold store_len, table_len, keys. by rewrite length_fmap. Qed.

(** A cleared overlay, whatever its pools hold, stands for its base. *)
Lemma covers_start base x :
  store_wf base -> exists o, overlay_writer (overlay_clear x) base = (o, Ok tt) /\ covers base o base /\ ov_pos_index o = ∅.
Proof.
  intros Hb. eexists. split; [reflexivity|]. split; [|done]. constructor; cbn; try done; try lia.
  - exists []. by rewrite app_nil_r.
  - intros k id. rewrite lookup_empty. split; [done|]. intros [Hl Hk]. apply lookup_lt_Some in Hk. lia.
  - intros p _. destruct (sees base p) as [o|] eqn:Ho; [|done]. cbn. f_equal. symmetry. by apply op_resize_full, (sees_nrows base p).
Qed.

(** A write to the copy of a position. *)
Lemma covers_put base o s s' pos i x :
  covers base o s -> ov_pos_index o !! pos = Some i ->
  shows s s' (fun q => if decide (q = pos) then Some x else sees s q) -> covers base (put_pos i x o) s'.
Proof.
  intros [] Hi (Hwf & Hk & Hsr & Hsees).
  assert (Hn : forall m, nrows s' m = nrows s m) by (intros m; unfold nrows; by rewrite Hsr).
  constructor; cbn [put_pos set_pool ov_tip ov_base_len ov_base_writes ov_new_keys ov_mkt_index ov_mkt ov_mkt_len ov_pos_index ov_pos ov_pos_len]; try done.
  - rewrite Hk. exact cv_keys0.
  - intros k id. rewrite Hk. apply cv_new0.
  - intros id. rewrite Hsr. apply cv_rows0.
  - intros id. rewrite Hn. apply cv_grow0.
  - rewrite length_insert. done.
  - intros p j Hp. rewrite Hsees. case_decide as Hd.
    + subst p. assert (j = i) as -> by congruence. exists x. split; [|done]. apply list_lookup_insert_eq.
      apply cv_idx0 in Hi. lia.
    + rewrite list_lookup_insert_ne; [by apply cv_copy0|]. intros ->. apply Hd. by eapply cv_idx_inj0.
  - intros p Hp. rewrite Hsees, decide_False by congruence. rewrite (cv_rest0 p Hp). destruct (sees base p); cbn; [|done]. by rewrite Hn.
Qed.

(** Allocation: a pool entry nobody points to. *)
Lemma alloc_pos_spec o : ov_pos_len o <= length (ov_pos o) ->
  exists o1, alloc_pos o = (o1, ov_pos_len o) /\ is_Some (ov_pos o1 !! ov_pos_len o) /\ ov_pos_len o1 = S (ov_pos_len o) /\
    S (ov_pos_len o) <= length (ov_pos o1) /\ (forall j, j < ov_pos_len o -> ov_pos o1 !! j = ov_pos o !! j) /\
    ov_pos_index o1 = ov_pos_index o /\ ov_new_keys o1 = ov_new_keys o /\ ov_mkt_index o1 = ov_mkt_index o /\
    ov_mkt o1 = ov_mkt o /\ ov_mkt_len o1 = ov_mkt_len o /\ ov_tip o1 = ov_tip o /\ ov_base_len o1 = ov_base_len o /\
    ov_base_writes o1 = ov_base_writes o.
Proof.
  intros Hl. unfold alloc_pos. eexists. split; [reflexivity|].
  destruct (Nat.eqb_spec (ov_pos_len o) (length (ov_pos o))) as [He|Hne];
    cbn [set_pos_len set_pool ov_pos ov_pos_len ov_pos_index ov_new_keys ov_mkt_index ov_mkt ov_mkt_len ov_tip ov_base_len ov_base_writes].
  - split_and!; try done.
    + rewrite He, lookup_app_r, Nat.sub_diag by done. by eexists.
    + rewrite length_app. cbn. lia.
    + intros j Hj. by rewrite lookup_app_l by lia.
  - split_and!; try done; [apply lookup_lt_is_Some_2; lia|lia].
Qed.

Lemma rows_len_covers base o s m : covers base o s ->
  rows_len base o m = match st_rows s m with Some rows => Ok (length rows) | None => Err (PUnknownMarket m) end.
Proof. intros []. unfold rows_len. rewrite cv_rows0. by destruct (st_rows s m). Qed.

Lemma position_ref_sees s p : store_wf s ->
  match position_ref s p 0 with
  | Ok r => sees s p = Some (mkOvPos (pr_key r) (pr_config r) (pr_extra r) (pr_supply r) (pr_debt r) (pr_slot_extra r))
  | Err _ => sees s p = None
  end.
Proof. intros _. unfold sees. by destruct (position_ref s p 0). Qed.

Lemma materialise_covers base o s pos :
  covers base o s ->
  match sees s pos with
  | None => materialise base pos o = (o, Err (PUnknownPosition pos))
  | Some x => exists o' i, materialise base pos o = (o', Ok i) /\ covers base o' s /\
      ov_pos_index o' !! pos = Some i /\ ov_pos o' !! i = Some x
  end.
Proof.
  intros Hc. pose proof Hc as []. unfold materialise. destruct (ov_pos_index o !! pos) as [i|] eqn:Hi.
  { destruct (cv_copy0 pos i Hi) as (x & Hx & ->). by exists o, i. }
  pose proof (cv_rest0 pos Hi) as Hrest. pose proof (position_ref_sees base pos cv_base0) as Hb.
  destruct (position_ref base pos 0) as [r|e]; rewrite Hb in Hrest; cbn in Hrest; rewrite Hrest; [|done].
  assert (Hkey : keys base !! pos = Some (pr_key r)) by (rewrite <- (sees_keys base pos cv_base0), Hb; done).
  destruct cv_keys0 as (new & Hks & Hsz).
  assert (Hkey' : keys s !! pos = Some (pr_key r)) by (rewrite Hks; by apply lookup_app_l_Some).
  destruct (keys_listed s pos _ cv_store0 Hkey') as [rows Hrows].
  rewrite (rows_len_covers _ _ _ _ Hc), Hrows. destruct (alloc_pos_spec o cv_pos_len0)
    as (o1 & -> & [x0 Hx0] & E1 & E2 & E3 & E4 & E5 & E6 & E7 & E8 & E9 & E10 & E11). rewrite Hx0. cbn [ok_or].
  eexists _, _. split; [reflexivity|].
  assert (Hnr : nrows s (pk_market (pr_key r)) = length rows) by (unfold nrows; by rewrite Hrows). rewrite Hnr in Hrest |- *.
  assert (Hfresh : forall p, ov_pos_index o !! p <> Some (ov_pos_len o)) by (intros p Hp; apply cv_idx0 in Hp; lia).
  cbn [set_pos_index set_pool ov_pos_index ov_pos]. rewrite E4, lookup_insert_eq. rewrite list_lookup_insert_eq by lia.
  split; [|split; done].
  constructor; cbn [set_pos_index set_pool ov_tip ov_base_len ov_base_writes ov_new_keys ov_mkt_index ov_mkt ov_mkt_len ov_pos_index ov_pos ov_pos_len];
    rewrite ?E1, ?E4, ?E5, ?E6, ?E7, ?E8, ?E9, ?E10, ?E11; try done.
  - by exists new.
  - intros id. unfold ov_rows. cbn [set_pos_index set_pool ov_mkt_index ov_mkt]. rewrite E6, E7. apply cv_rows0.
  - intros p j. rewrite lookup_insert. case_decide; [intros [= <-]; lia|]. intros Hp. apply cv_idx0 in Hp. lia.
  - intros p q j. rewrite !lookup_insert. repeat case_decide; subst; try done.
    + intros [= <-] Hq. by apply Hfresh in Hq.
    + intros Hp [= <-]. by apply Hfresh in Hp.
    + apply cv_idx_inj0.
  - by rewrite length_insert.
  - intros p j. rewrite lookup_insert. case_decide as Hd.
    + subst p. intros [= <-]. eexists. split; [apply list_lookup_insert_eq; lia|]. exact Hrest.
    + intros Hp. destruct (cv_copy0 p j Hp) as (x & Hx & Hs). exists x. split; [|done]. apply cv_idx0 in Hp.
      rewrite list_lookup_insert_ne by lia. by rewrite E3.
  - intros p. rewrite lookup_insert. case_decide; [done|]. apply cv_rest0.
Qed.

Lemma put_pos_twice i a b o : put_pos i a (put_pos i b o) = put_pos i a o.
Proof. unfold put_pos, set_pool. cbn. by rewrite list_insert_insert_eq. Qed.

(** ** One call of the writer *)

(** Both sides give one answer and stay related. *)
Definition in_step {A} (base : StateStore) (x : Overlay * A) (y : StateStore * A) : Prop :=
  snd x = snd y /\ covers base (fst x) (fst y).

Lemma op_col_length c n x : full n x -> length (op_col c x) = n.
Proof. intros (H1 & H2 & _). by destruct c. Qed.

Lemma ow_set_column_step base o s c pos slot v :
  covers base o s -> in_step base (ow_set_column base c pos slot v o) (set_column c pos slot v s).
Proof.
  intros Hc. unfold ow_set_column. pose proof (materialise_covers base o s pos Hc) as Hm.
  pose proof (set_column_sees c pos slot v s (cv_store _ _ _ Hc)) as Hst.
  destruct (sees s pos) as [x|] eqn:Hx; [|by rewrite Hm, Hst].
  destruct Hm as (o' & i & -> & Hc' & Hi & Hp). rewrite Hp. cbn [ok_or]. cbv zeta.
  destruct (sees_nrows s pos x (cv_store _ _ _ Hc) Hx) as [Hf H128]. pose proof Hf as (Hsu & _ & _). rewrite Hsu in Hst.
  pose proof (op_col_length c _ _ Hf) as Hl1. pose proof (op_col_length (other_col c) _ _ Hf) as Hl2.
  case_decide as Hslot.
  - destruct Hst as (s' & -> & Hshow). destruct (lookup_lt_is_Some_2 (op_col (other_col c) x) slot ltac:(lia)) as [other Hother].
    rewrite Hother. cbn [ok_or]. rewrite vec_set_lt by lia. cbn [ok_or].
    replace (op_config (op_set_col c (<[slot := v]> (op_col c x)) x)) with (op_config x) by by destruct c.
    destruct (proj2 (with_slot_is_Some (op_config x) slot) ltac:(lia)) as [cw Hcw]. rewrite Hcw. cbn [ok_or].
    unfold written in Hshow. rewrite Hother, Hcw in Hshow. cbn [from_option id] in Hshow.
    pose proof (covers_put base o' s s' pos i _ Hc' Hi Hshow) as Hcov.
    destruct (negb (v =? 0)%Z || negb (other =? 0)%Z); rewrite put_pos_twice; split; done.
  - rewrite Hst. rewrite (lookup_ge_None_2 (op_col (other_col c) x)) by lia. done.
Qed.

Lemma ow_set_slot_extra_step base o s pos slot v :
  covers base o s -> in_step base (ow_set_slot_extra base pos slot v o) (set_slot_extra pos slot v s).
Proof.
  intros Hc. unfold ow_set_slot_extra. pose proof (materialise_covers base o s pos Hc) as Hm.
  pose proof (set_slot_extra_sees pos slot v s (cv_store _ _ _ Hc)) as Hst.
  destruct (sees s pos) as [x|] eqn:Hx; [|by rewrite Hm, Hst].
  destruct Hm as (o' & i & -> & Hc' & Hi & Hp). rewrite Hp. cbn [ok_or]. cbv zeta.
  case_decide as Hslot.
  - destruct Hst as (s' & -> & Hshow). rewrite vec_set_lt by lia. cbn [ok_or]. split; [done|]. by eapply covers_put.
  - rewrite Hst. unfold vec_set. rewrite (proj2 (Nat.ltb_ge _ _)) by lia. done.
Qed.

Lemma ow_set_extra_step base o s pos v :
  covers base o s -> in_step base (ow_set_extra base pos v o) (set_extra pos v s).
Proof.
  intros Hc. unfold ow_set_extra. pose proof (materialise_covers base o s pos Hc) as Hm.
  pose proof (set_extra_sees pos v s (cv_store _ _ _ Hc)) as Hst.
  destruct (sees s pos) as [x|] eqn:Hx; [|by rewrite Hm, Hst].
  destruct Hm as (o' & i & -> & Hc' & Hi & Hp). rewrite Hp. cbn [ok_or].
  destruct Hst as (s' & -> & Hshow). split; [done|]. by eapply covers_put.
Qed.

Lemma position_id_None s k : store_wf s -> position_id s k = None <-> forall p, keys s !! p <> Some k.
Proof.
  intros Hs. split.
  - intros Hn p Hp. apply (position_id_key s k p Hs) in Hp. congruence.
  - intros Hn. destruct (position_id s k) as [p|] eqn:Hp; [|done]. apply (position_id_key s k p Hs) in Hp. by apply Hn in Hp.
Qed.

(** A key is known to the store when the base or the overlay has it. *)
Lemma position_id_covers base o s k : covers base o s ->
  position_id s k = or_else (position_id base k) (ov_new_keys o !! k).
Proof.
  intros []. destruct cv_keys0 as (new & Hks & _). destruct (position_id base k) as [p|] eqn:Hb; cbn.
  - apply position_id_key; [done|]. apply (position_id_key base k p cv_base0) in Hb. rewrite Hks. by apply lookup_app_l_Some.
  - destruct (ov_new_keys o !! k) as [p|] eqn:Hn.
    + apply position_id_key; [done|]. by apply cv_new0 in Hn as [_ ?].
    + apply position_id_None; [done|]. intros p Hp. destruct (decide (p < length (keys base))).
      * rewrite Hks, lookup_app_l in Hp by done. by eapply (proj1 (position_id_None base k cv_base0)).
      * assert (ov_new_keys o !! k = Some p) by (apply cv_new0; split; [lia|done]). congruence.
Qed.

(** A new position: a pool entry no index points to, a new key, a blank copy. *)
Lemma covers_intern base o o1 s s' k i x n :
  covers base o s -> alloc_pos o = (o1, i) -> x = blank_pos k n ->
  store_wf s' -> keys s' = keys s ++ [k] -> same_rows s s' -> ov_new_keys o !! k = None ->
  (forall q, sees s' q = if decide (q = length (keys s)) then Some x else sees s q) ->
  covers base (set_new_keys (<[k := length (keys s)]> (ov_new_keys o1))
    (set_pos_index (<[length (keys s) := i]> (ov_pos_index o1)) (put_pos i x o1))) s'.
Proof.
  intros [] Hal -> Hwf Hk Hsr Hnew Hsees. destruct (alloc_pos_spec o cv_pos_len0)
    as (o1' & Hal' & [x0 Hx0] & E1 & E2 & E3 & E4 & E5 & E6 & E7 & E8 & E9 & E10 & E11).
  rewrite Hal in Hal'. injection Hal' as <- ->. destruct cv_keys0 as (new & Hks & Hsz).
  assert (Hn : forall m, nrows s' m = nrows s m) by (intros m; unfold nrows; by rewrite Hsr).
  assert (Hfresh : forall p, ov_pos_index o !! p <> Some (ov_pos_len o)) by (intros p Hp; apply cv_idx0 in Hp; lia).
  assert (Hunk : sees s (length (keys s)) = None).
  { apply sees_unknown; [done|]. apply lookup_ge_None. unfold keys. rewrite length_fmap. done. }
  assert (Hidx : ov_pos_index o !! length (keys s) = None).
  { destruct (ov_pos_index o !! length (keys s)) as [j|] eqn:Hj; [|done]. destruct (cv_copy0 _ _ Hj) as (y & _ & Hy). congruence. }
  constructor; cbn [set_new_keys set_pos_index put_pos set_pool ov_tip ov_base_len ov_base_writes ov_new_keys ov_mkt_index ov_mkt ov_mkt_len ov_pos_index ov_pos ov_pos_len];
    rewrite ?E1, ?E4, ?E5, ?E6, ?E7, ?E8, ?E9, ?E10, ?E11; try done.
  - exists (new ++ [k]). rewrite Hk, Hks, app_assoc. split; [done|]. rewrite map_size_insert_None by done. rewrite length_app. cbn. lia.
  - intros k' id. rewrite lookup_insert, Hk. case_decide as Hd.
    + subst k'. split.
      * intros [= <-]. rewrite lookup_app_r, Nat.sub_diag by done. split; [|done]. rewrite Hks, length_app. lia.
      * intros [Hge Hid]. apply lookup_app_Some in Hid as [Hid|[Hge' Hid]].
        -- assert (ov_new_keys o !! k = Some id) by (apply cv_new0; done). congruence.
        -- apply list_lookup_singleton_Some in Hid as [Hz _]. f_equal. lia.
    + rewrite cv_new0, lookup_app_Some. split; [naive_solver|]. intros [Hge [Hid|[_ Hid]]]; [done|].
      apply list_lookup_singleton_Some in Hid as [_ ?]. done.
  - intros id. unfold ov_rows. cbn [set_new_keys set_pos_index put_pos set_pool ov_mkt_index ov_mkt]. rewrite E6, E7, Hsr. apply cv_rows0.
  - intros id. rewrite Hn. apply cv_grow0.
  - intros p j. rewrite lookup_insert. case_decide; [intros [= <-]; lia|]. intros Hp. apply cv_idx0 in Hp. lia.
  - intros p q j. rewrite !lookup_insert. repeat case_decide; subst; try done.
    + intros [= <-] Hq. by apply Hfresh in Hq.
    + intros Hp [= <-]. by apply Hfresh in Hp.
    + apply cv_idx_inj0.
  - by rewrite length_insert.
  - intros p j. rewrite lookup_insert, Hsees. case_decide as Hd.
    + subst p. rewrite decide_True by done. intros [= <-]. eexists. split; [apply list_lookup_insert_eq; lia|done].
    + rewrite decide_False by done. intros Hp. destruct (cv_copy0 p j Hp) as (x & Hx & Hs). exists x. split; [|done]. apply cv_idx0 in Hp.
      rewrite list_lookup_insert_ne by lia. by rewrite E3.
  - intros p. rewrite lookup_insert, Hsees. case_decide; [done|]. rewrite decide_False by done. intros Hp.
    rewrite (cv_rest0 p Hp). destruct (sees base p); cbn; [|done]. by rewrite Hn.
Qed.

Lemma ow_intern_step base o s k :
  covers base o s -> (Z.of_nat (length (keys s)) < umax 32)%Z ->
  in_step base (ow_intern base k o) (intern k s).
Proof.
  intros Hc Hn. pose proof (intern_sees k s (cv_store _ _ _ Hc) Hn) as Hst.
  rewrite (position_id_covers base o s k Hc) in Hst. unfold ow_intern.
  destruct (position_id base k) as [id|] eqn:Hb; cbn [or_else] in Hst; [by rewrite Hst|].
  destruct (ov_new_keys o !! k) as [id|] eqn:Hk; [by rewrite Hst|].
  rewrite (rows_len_covers _ _ _ _ Hc). destruct (st_rows s (pk_market k)) as [rows|]; [|by rewrite Hst].
  destruct Hst as (s' & -> & Hwf & Hks' & Hsr & Hsees). destruct (cv_keys _ _ _ Hc) as (new & Hks & Hsz).
  destruct (cv_stamp _ _ _ Hc) as (_ & Hlen & _). rewrite store_len_keys in Hlen.
  assert (Hid : ov_base_len o + size (ov_new_keys o) = length (keys s)) by (rewrite Hks, length_app; lia).
  rewrite (proj2 (checked_add_nat_Some 64 (ov_base_len o) (size (ov_new_keys o)) (length (keys s)))) by (unfold umax in *; lia).
  rewrite (proj2 (try_from_nat_Some 32 (length (keys s)) (length (keys s)))) by lia. cbn [ok_or].
  destruct (alloc_pos_spec o (cv_pos_len _ _ _ Hc)) as (o1 & Hal & [x0 Hx0] & _). rewrite Hal, Hx0. cbn [ok_or].
  split; [done|]. exact (covers_intern base o o1 s s' k _ _ (length rows) Hc Hal eq_refl Hwf Hks' Hsr Hk Hsees).
Qed.

(** ** Market rows *)

(** [o'] is [o] but for the market pool, where [m] now has the rows [rows]. *)
Record market_copied (m : MarketId) (rows : list MarketRow) (o o' : Overlay) : Prop := {
  mc_rest : exists ix pool n, o' = set_mkt ix pool n o;
  mc_rows : forall id, ov_rows o' id = if decide (id = m) then Some rows else ov_rows o id;
  mc_idx : forall id i, ov_mkt_index o' !! id = Some i -> i < ov_mkt_len o';
  mc_inj : forall a b i, ov_mkt_index o' !! a = Some i -> ov_mkt_index o' !! b = Some i -> a = b;
  mc_len : ov_mkt_len o' <= length (ov_mkt o')
}.

Lemma materialise_market_spec base o s m create :
  covers base o s -> is_Some (st_rows s m) \/ create = true ->
  exists o' i, materialise_market base m create o = (o', Ok i) /\ ov_mkt_index o' !! m = Some i /\
    ov_mkt o' !! i = Some (default [] (st_rows s m)) /\ market_copied m (default [] (st_rows s m)) o o'.
Proof.
  intros [] Hsome. unfold materialise_market. pose proof (cv_rows0 m) as Hrows. unfold ov_rows in Hrows.
  destruct (ov_mkt_index o !! m) as [i|] eqn:Hi.
  - assert (i < ov_mkt_len o) by by eapply cv_mkt0. destruct (lookup_lt_is_Some_2 (ov_mkt o) i ltac:(lia)) as [rows Hr].
    rewrite Hr in Hrows. cbn in Hrows. rewrite <- Hrows. exists o, i. split_and!; try done. constructor; try done.
    + exists (ov_mkt_index o), (ov_mkt o), (ov_mkt_len o). by destruct o.
    + intros id. case_decide; [|done]. subst. unfold ov_rows. by rewrite Hi, Hr.
  - cbn [or_else] in Hrows. rewrite Hrows.
    assert ((match st_rows s m with Some rows => Ok rows | None => if create then Ok [] else Err (PUnknownMarket m) end)
      = Ok (E := ProtocolError) (default [] (st_rows s m))) as E.
    { destruct (st_rows s m), create; try done. by destruct Hsome as [[]|]. }
    rewrite E. set (rows := default [] (st_rows s m)) in *. unfold alloc_mkt. cbn [set_mkt ov_mkt].
    set (pool := if ov_mkt_len o =? length (ov_mkt o) then ov_mkt o ++ [[]] else ov_mkt o).
    assert (Hpool : S (ov_mkt_len o) <= length pool /\ forall j, j < ov_mkt_len o -> pool !! j = ov_mkt o !! j).
    { unfold pool. destruct (Nat.eqb_spec (ov_mkt_len o) (length (ov_mkt o))) as [He|].
      - split; [rewrite length_app; cbn; lia|]. intros j Hj. by rewrite lookup_app_l by lia.
      - split; [lia|done]. }
    destruct Hpool as [Hlen Hsame]. destruct (lookup_lt_is_Some_2 pool (ov_mkt_len o) ltac:(lia)) as [r0 Hr0].
    rewrite Hr0. cbn [ok_or]. eexists _, _. split; [reflexivity|]. cbn [set_mkt ov_mkt_index ov_mkt ov_mkt_len].
    split; [by rewrite lookup_insert_eq|]. split; [by rewrite list_lookup_insert_eq by lia|].
    assert (Hfresh : forall p, ov_mkt_index o !! p <> Some (ov_mkt_len o)) by (intros p Hp; apply cv_mkt0 in Hp; lia).
    constructor; cbn [set_mkt ov_mkt_index ov_mkt ov_mkt_len].
    + eexists _, _, _. done.
    + intros id. unfold ov_rows. cbn [set_mkt ov_mkt_index ov_mkt]. rewrite lookup_insert. case_decide as Hd.
      * subst id. rewrite decide_True by done. by rewrite list_lookup_insert_eq by lia.
      * rewrite decide_False by done. destruct (ov_mkt_index o !! id) as [j|] eqn:Hj; [|done]. apply cv_mkt0 in Hj.
        rewrite list_lookup_insert_ne by lia. by rewrite Hsame.
    + intros id i. rewrite lookup_insert. case_decide; [intros [= <-]; lia|]. intros Hp. apply cv_mkt0 in Hp. lia.
    + intros a b i. rewrite !lookup_insert. repeat case_decide; subst; try done.
      * intros [= <-] Hq. by apply Hfresh in Hq.
      * intros Hp [= <-]. by apply Hfresh in Hp.
      * apply cv_mkt_inj0.
    + by rewrite length_insert.
Qed.

(** The rows of [m] replaced, and the live copies of its positions resized to them. *)
Lemma covers_market base o o' s s' m rows pp :
  covers base o s -> market_copied m rows o o' -> store_wf s' -> keys s' = keys s ->
  (forall id, st_rows s' id = if decide (id = m) then Some rows else st_rows s id) ->
  nrows s m <= length rows ->
  (forall q, sees s' q = listed m (length rows) <$> sees s q) ->
  length pp = length (ov_pos o) ->
  (forall p i x, ov_pos_index o !! p = Some i -> ov_pos o !! i = Some x -> pp !! i = Some (listed m (length rows) x)) ->
  covers base (set_pool pp o') s'.
Proof.
  intros [] [(ix & pool & n & ->) Hrw Hix Hinj Hlen] Hwf Hk Hrows Hgrow Hsees Hpl Hpp.
  assert (Hn : forall id, nrows s' id = if decide (id = m) then length rows else nrows s id).
  { intros id. unfold nrows. rewrite Hrows. by case_decide. }
  constructor; cbn [set_mkt set_pool ov_tip ov_base_len ov_base_writes ov_new_keys ov_mkt_index ov_mkt ov_mkt_len ov_pos_index ov_pos ov_pos_len] in *; try done.
  - by rewrite Hk.
  - intros k id. rewrite Hk. apply cv_new0.
  - intros id. change (ov_rows (set_pool pp (set_mkt ix pool n o)) id) with (ov_rows (set_mkt ix pool n o) id).
    rewrite Hrw, Hrows. case_decide; [done|]. apply cv_rows0.
  - intros id. rewrite Hn. specialize (cv_grow0 id). case_decide; subst; lia.
  - lia.
  - intros p i Hp. destruct (cv_copy0 p i Hp) as (x & Hx & Hs). rewrite Hsees, Hs. exists (listed m (length rows) x). split; [|done].
    by eapply Hpp.
  - intros p Hp. rewrite Hsees, (cv_rest0 p Hp). destruct (sees base p) as [b|] eqn:Hb; [|done]. cbn [fmap option_fmap option_map].
    f_equal. rewrite Hn. unfold listed. cbn [op_resize op_key]. destruct (Nat.eqb_spec (pk_market (op_key b)) m) as [Em|Hne].
    + rewrite decide_True by done. destruct (sees_nrows base p b cv_base0 Hb) as [(H1 & H2 & H3) _].
      unfold op_resize. cbn [op_key op_config op_extra op_supply op_debt op_slot_extra]. rewrite Em in *.
      specialize (cv_grow0 m). rewrite !resize_twice by lia. done.
    + by rewrite decide_False.
Qed.

Lemma ow_set_market_step base o s at_ row :
  covers base o s -> is_Some (st_rows s (ms_market at_)) ->
  in_step base (ow_set_market base at_ row o) (set_market at_ row s).
Proof.
  intros Hc Hsome. unfold ow_set_market. destruct (materialise_market_spec base o s (ms_market at_) false Hc (or_introl Hsome))
    as (o' & i & -> & Hi & Hr & Hcp).
  pose proof (set_market_sees at_ row s (cv_store _ _ _ Hc)) as Hst. destruct Hsome as [rows Hrows]. rewrite Hrows in *. cbn in Hr. rewrite Hr.
  assert (Hn : nrows s (ms_market at_) = length rows) by (unfold nrows; by rewrite Hrows).
  assert (Hlist : forall q x, sees s q = Some x -> listed (ms_market at_) (length rows) x = x).
  { intros q x Hx. unfold listed. destruct (Nat.eqb_spec (pk_market (op_key x)) (ms_market at_)) as [E|]; [|done].
    apply op_resize_full. rewrite <- Hn, <- E. by apply (sees_nrows s q x (cv_store _ _ _ Hc)). }
  assert (Hpp : forall p j x, ov_pos_index o !! p = Some j -> ov_pos o !! j = Some x -> ov_pos o !! j = Some (listed (ms_market at_) (length rows) x)).
  { intros p j x Hp Hx. destruct (cv_copy _ _ _ Hc p j Hp) as (y & Hy & Hs). assert (y = x) as -> by congruence. by rewrite (Hlist p x Hs). }
  destruct Hcp as [(ix & pool & n & ->) Hrw Hix Hinj Hlen]. cbn [set_mkt ov_mkt_index ov_mkt ov_mkt_len] in *.
  case_decide as Hd.
  - destruct Hst as (s' & -> & Hwf & Hk & Hrows' & Hsees). rewrite vec_set_lt by done. cbn [ok_or]. split; [done|]. cbn [fst snd].
    enough (covers base (set_pool (ov_pos o) (set_mkt ix (<[i := <[ms_slot at_ := row]> rows]> pool) n o)) s') by done.
    apply (covers_market base o _ s s' (ms_market at_) (<[ms_slot at_ := row]> rows) (ov_pos o) Hc); rewrite ?length_insert; try done.
    + constructor; cbv beta iota delta [set_mkt ov_mkt_index ov_mkt ov_mkt_len]; [by eexists _, _, _| |done|done|exact (eq_ind_r (le n) Hlen (length_insert pool i _))].
      intros id. specialize (Hrw id). unfold ov_rows in Hrw |- *. cbv beta iota delta [set_mkt ov_mkt_index ov_mkt] in Hrw |- *.
      destruct (decide (id = ms_market at_)) as [->|Hne].
      * rewrite Hi. apply list_lookup_insert_eq. by eapply lookup_lt_Some.
      * rewrite <- Hrw. destruct (ix !! id) as [j|] eqn:Hj; [|done]. rewrite list_lookup_insert_ne; [done|]. intros ->. apply Hne.
        by eapply Hinj.
    + lia.
    + intros q. rewrite Hsees. destruct (sees s q) as [x|] eqn:Hx; [|done]. cbn. by rewrite (Hlist q x Hx).
  - rewrite Hst. unfold vec_set. rewrite (proj2 (Nat.ltb_ge _ _)) by lia. cbn [ok_or]. split; [done|]. cbn [fst snd].
    apply (covers_market base o (set_mkt ix pool n o) s s (ms_market at_) rows (ov_pos o) Hc); try done; [by constructor; [eexists _, _, _|..]|apply Hc| |lia|].
    + intros id. case_decide; [by subst|done].
    + intros q. destruct (sees s q) as [x|] eqn:Hx; [|done]. cbn. by rewrite (Hlist q x Hx).
Qed.

Lemma lookup_grow_live m n len pool i x :
  i < len -> pool !! i = Some x -> grow_live m n len pool !! i = Some (listed m n x).
Proof.
  intros Hi Hx. unfold grow_live. rewrite lookup_app_l by (rewrite length_fmap, length_take; apply lookup_lt_Some in Hx; lia).
  rewrite list_lookup_fmap, lookup_take_lt, Hx by done. done.
Qed.

Lemma length_grow_live m n len pool : length (grow_live m n len pool) = length pool.
Proof. unfold grow_live. rewrite length_app, length_fmap, length_take, length_drop. lia. Qed.

Lemma st_rows_bound s id : store_wf s -> nrows s id <= 128.
Proof.
  intros Hs. unfold nrows, st_rows, find_market. destruct (market_idx _ id) as [mi|]; cbn; [|lia].
  destruct (st_markets s !! mi) as [m|] eqn:Hm; cbn; [|lia].
  assert (market_wf m) as Hw by (eapply Forall_lookup_1; [apply Hs|done]). pose proof (mw_rows m Hw). pose proof (mw_stride m Hw). lia.
Qed.

Lemma ow_push_market_step base o s id row :
  covers base o s -> can_list s id ->
  in_step base (ow_push_market base id row o) (push_market id row s).
Proof.
  intros Hc Hroom. unfold ow_push_market. destruct (materialise_market_spec base o s id true Hc (or_intror eq_refl))
    as (o' & i & -> & Hi & Hr & Hcp).
  pose proof (push_market_sees id row s (cv_store _ _ _ Hc) Hroom) as Hst. cbv zeta in Hst. rewrite Hr. cbn [ok_or].
  pose proof (st_rows_bound s id (cv_store _ _ _ Hc)) as H128. unfold nrows in H128. set (rows := default [] (st_rows s id)) in *.
  rewrite (proj2 (try_from_nat_Some 16 (length rows) (length rows))) by (split; [done|unfold umax; lia]). cbn [ok_or]. cbv zeta.
  unfold MAX_SLOTS. pose proof (cv_pos_len _ _ _ Hc) as Hpl. destruct Hcp as [(ix & pool & n & ->) Hrw Hix Hinj Hlen].
  cbn [set_mkt set_pool ov_mkt_index ov_mkt ov_mkt_len ov_pos ov_pos_len] in *. case_decide as Hd.
  - destruct Hst as (s' & -> & Hwf & Hk & Hrows' & Hsees). rewrite (proj2 (Z.leb_gt 128 _)) by lia. split; [done|]. cbn [fst snd].
    assert (Hl : length (rows ++ [row]) = S (length rows)) by (rewrite length_app; cbn; lia).
    enough (covers base (set_pool (grow_live id (length (rows ++ [row])) (ov_pos_len o) (ov_pos o)) (set_mkt ix (<[i := rows ++ [row]]> pool) n o)) s') by done.
    apply (covers_market base o _ s s' id (rows ++ [row]) _ Hc); rewrite ?Hl; try done.
    + constructor; cbv beta iota delta [set_mkt ov_mkt_index ov_mkt ov_mkt_len]; [by eexists _, _, _| |done|done|exact (eq_ind_r (le n) Hlen (length_insert pool i _))].
      intros m. specialize (Hrw m). unfold ov_rows in Hrw |- *. cbv beta iota delta [set_mkt ov_mkt_index ov_mkt] in Hrw |- *.
      destruct (decide (m = id)) as [->|Hne].
      * rewrite Hi. apply list_lookup_insert_eq. by eapply lookup_lt_Some.
      * rewrite <- Hrw. destruct (ix !! m) as [j|] eqn:Hj; [|done]. rewrite list_lookup_insert_ne; [done|]. intros ->. apply Hne.
        by eapply Hinj.
    + unfold nrows. fold rows. lia.
    + apply length_grow_live.
    + intros p j x Hp Hx. apply lookup_grow_live; [|done]. by eapply (cv_idx _ _ _ Hc).
  - rewrite Hst. rewrite (proj2 (Z.leb_le 128 _)) by lia. split; [done|]. cbn [fst snd].
    assert (Hsome : st_rows s id = Some rows).
    { unfold rows in *. destruct (st_rows s id); [done|]. cbn in Hd. lia. }
    assert (Hlist : forall q x, sees s q = Some x -> listed id (length rows) x = x).
    { intros q x Hx. unfold listed. destruct (Nat.eqb_spec (pk_market (op_key x)) id) as [E|]; [|done].
      apply op_resize_full. destruct (sees_nrows s q x (cv_store _ _ _ Hc) Hx) as [Hf _]. rewrite E in Hf. unfold nrows in Hf. by rewrite Hsome in Hf. }
    apply (covers_market base o (set_mkt ix pool n o) s s id rows (ov_pos o) Hc); try done; [by constructor; [eexists _, _, _|..]|apply Hc| | |].
    + intros m. case_decide; [by subst|done].
    + intros q. destruct (sees s q) as [x|] eqn:Hx; [|done]. cbn. by rewrite (Hlist q x Hx).
    + intros p j x Hp Hx. destruct (cv_copy _ _ _ Hc p j Hp) as (y & Hy & Hs). assert (y = x) as -> by congruence. by rewrite (Hlist p x Hs).
Qed.

(** ** Reads *)

(** A read of slot [j] of a position without a copy, listed since the base. *)
Definition listed_since (base : StateStore) (o : Overlay) (s : StateStore) (p j : nat) : Prop :=
  ov_pos_index o !! p = None /\
  exists k, keys base !! p = Some k /\ nrows base (pk_market k) <= j < nrows s (pk_market k).

Lemma ov_position_covers base o s p : covers base o s ->
  match ov_pos_index o !! p with Some _ => ov_position o p = sees s p | None => ov_position o p = None end.
Proof.
  intros []. unfold ov_position. destruct (ov_pos_index o !! p) as [i|] eqn:Hi; [|done].
  destruct (cv_copy0 p i Hi) as (x & -> & ->). done.
Qed.

Lemma lookup_pad {A} n (z : A) l j :
  length l <= n -> ~ (length l <= j < n) -> resize n z l !! j = l !! j.
Proof.
  intros Hn Hj. destruct (decide (j < length l)); [by rewrite lookup_resize by lia|].
  rewrite !lookup_ge_None_2 by (rewrite ?length_resize; lia). done.
Qed.

Lemma op_col_resize c n b : op_col c (op_resize n b) = resize n 0%Z (op_col c b).
Proof. by destruct c. Qed.

Lemma sees_base_key base p b : store_wf base -> sees base p = Some b -> keys base !! p = Some (op_key b).
Proof. intros Hb Hs. rewrite <- (sees_keys base p Hb), Hs. done. Qed.

Lemma ow_column_step base o s c p j :
  covers base o s -> ~ listed_since base o s p j -> ow_column base o c p j = read_column s c p j.
Proof.
  intros Hc Hl. unfold ow_column. pose proof (ov_position_covers base o s p Hc) as Hp. pose proof Hc as [].
  rewrite (read_column_sees s c p j cv_store0). destruct (ov_pos_index o !! p) as [i|] eqn:Hi; rewrite Hp.
  - destruct (cv_copy0 p i Hi) as (x & _ & ->). done.
  - rewrite (cv_rest0 p Hi).
    transitivity (read_column base c p j); [by destruct c|]. rewrite (read_column_sees base c p j cv_base0).
    destruct (sees base p) as [b|] eqn:Hb; [|done]. cbn [fmap option_fmap option_map]. rewrite op_col_resize.
    destruct (sees_nrows base p b cv_base0 Hb) as [Hf _]. pose proof (op_col_length c _ _ Hf) as Hlen.
    rewrite lookup_pad; [done|rewrite Hlen; apply cv_grow0|]. rewrite Hlen. intros Hr. apply Hl. split; [done|].
    exists (op_key b). split; [by apply sees_base_key|done].
Qed.

Lemma ow_slot_extra_step base o s p j :
  covers base o s -> ~ listed_since base o s p j -> ow_slot_extra base o p j = slot_extra s p j.
Proof.
  intros Hc Hl. unfold ow_slot_extra. pose proof (ov_position_covers base o s p Hc) as Hp. pose proof Hc as [].
  rewrite (slot_extra_sees s p j cv_store0). destruct (ov_pos_index o !! p) as [i|] eqn:Hi; rewrite Hp.
  - destruct (cv_copy0 p i Hi) as (x & _ & ->). done.
  - rewrite (cv_rest0 p Hi), (slot_extra_sees base p j cv_base0).
    destruct (sees base p) as [b|] eqn:Hb; [|done]. cbn [fmap option_fmap option_map op_resize op_slot_extra op_key].
    destruct (sees_nrows base p b cv_base0 Hb) as [(_ & _ & Hlen) _].
    rewrite lookup_pad; [done|rewrite Hlen; apply cv_grow0|]. rewrite Hlen. intros Hr. apply Hl. split; [done|].
    exists (op_key b). split; [by apply sees_base_key|done].
Qed.

Lemma ow_extra_step base o s p : covers base o s -> ow_extra base o p = extra s p.
Proof.
  intros Hc. unfold ow_extra. pose proof (ov_position_covers base o s p Hc) as Hp. pose proof Hc as [].
  rewrite (extra_sees s p cv_store0). destruct (ov_pos_index o !! p) as [i|] eqn:Hi; rewrite Hp.
  - by destruct (cv_copy0 p i Hi) as (x & _ & ->).
  - rewrite (cv_rest0 p Hi), (extra_sees base p cv_base0). by destruct (sees base p).
Qed.

Lemma ow_position_key_step base o s p : covers base o s -> ow_position_key base o p = position_key s p.
Proof.
  intros Hc. unfold ow_position_key. pose proof (ov_position_covers base o s p Hc) as Hp. pose proof Hc as [].
  rewrite (position_key_sees s p cv_store0). destruct (ov_pos_index o !! p) as [i|] eqn:Hi; rewrite Hp.
  - by destruct (cv_copy0 p i Hi) as (x & _ & ->).
  - rewrite (cv_rest0 p Hi), (position_key_sees base p cv_base0). by destruct (sees base p).
Qed.

Lemma ow_markets_step base o s m : covers base o s -> ow_markets base o m = markets s m.
Proof. intros []. unfold ow_markets, markets. by rewrite cv_rows0. Qed.

Lemma ow_market_step base o s a : covers base o s -> ow_market base o a = market s a.
Proof. intros Hc. unfold ow_market. by rewrite (ow_markets_step _ _ _ _ Hc). Qed.

Lemma covers_len base o s : covers base o s -> ov_base_len o + size (ov_new_keys o) = store_len s.
Proof.
  intros []. destruct cv_keys0 as (new & Hk & Hsz). destruct cv_stamp0 as (_ & -> & _).
  rewrite !store_len_keys, Hk, length_app. lia.
Qed.

Lemma ow_positions_len_step base o s : covers base o s -> ow_positions_len o = positions_len s.
Proof.
  intros Hc. unfold ow_positions_len, positions_len, saturating_add. rewrite <- Nat2Z.inj_add, (covers_len _ _ _ Hc). fold (store_len s).
  destruct (decide (Z.of_nat (store_len s) <= umax 64)%Z); [by rewrite Z.min_l|]. rewrite Z.min_r by lia.
  unfold try_from, fitsb. rewrite (proj2 (Z.leb_gt (Z.of_nat (store_len s)) (umax 32))) by (unfold umax in *; lia).
  change (umax 64 <=? umax 32)%Z with false. by rewrite !andb_false_r.
Qed.

(** ** Programs *)

(** Where the two writers part: the store runs out of ids or of markets, it names an unknown
    market by its slot, and the overlay does not read what was listed since. A program that
    stays away from these is [tame]. *)
Fixpoint tame {A} (p : Prog A) (base : StateStore) (o : Overlay) (s : StateStore) : Prop :=
  match p with
  | PRet _ | PPanic => True
  | PIntern key k => (Z.of_nat (length (keys s)) < umax 32)%Z /\
      tame (k (snd (ow_intern base key o))) base (fst (ow_intern base key o)) (fst (intern key s))
  | PSupply pos slot k => ~ listed_since base o s pos slot /\ tame (k (ow_supply base o pos slot)) base o s
  | PDebt pos slot k => ~ listed_since base o s pos slot /\ tame (k (ow_debt base o pos slot)) base o s
  | PSetSupply pos slot v k =>
      tame (k (snd (ow_set_supply base pos slot v o))) base (fst (ow_set_supply base pos slot v o)) (fst (set_supply pos slot v s))
  | PSetDebt pos slot v k =>
      tame (k (snd (ow_set_debt base pos slot v o))) base (fst (ow_set_debt base pos slot v o)) (fst (set_debt pos slot v s))
  | PExtra pos k => tame (k (ow_extra base o pos)) base o s
  | PSetExtra pos x k =>
      tame (k (snd (ow_set_extra base pos x o))) base (fst (ow_set_extra base pos x o)) (fst (set_extra pos x s))
  | PSlotExtra pos slot k => ~ listed_since base o s pos slot /\ tame (k (ow_slot_extra base o pos slot)) base o s
  | PSetSlotExtra pos slot x k =>
      tame (k (snd (ow_set_slot_extra base pos slot x o))) base (fst (ow_set_slot_extra base pos slot x o)) (fst (set_slot_extra pos slot x s))
  | PPositionsLen k => tame (k (ow_positions_len o)) base o s
  | PPositionKey pos k => tame (k (ow_position_key base o pos)) base o s
  | PMarket at_ k => tame (k (ow_market base o at_)) base o s
  | PMarkets id k => tame (k (ow_markets base o id)) base o s
  | PSetMarket at_ row k => is_Some (st_rows s (ms_market at_)) /\
      tame (k (snd (ow_set_market base at_ row o))) base (fst (ow_set_market base at_ row o)) (fst (set_market at_ row s))
  | PPushMarket id row k => can_list s id /\
      tame (k (snd (ow_push_market base id row o))) base (fst (ow_push_market base id row o)) (fst (push_market id row s))
  end.

(** One call, on both sides. *)
Ltac both step H IH :=
  let Hs := fresh "Hs" in let Hk := fresh "Hk" in
  pose proof step as [Hs Hk];
  match type of Hk with covers _ (fst ?x) (fst ?y) => destruct x as [? ?], y as [? ?] end;
  cbn [fst snd] in *; subst; by apply IH.

Lemma run_overlay_step {A} (p : Prog A) : forall base o s, covers base o s -> tame p base o s ->
  in_step base (run_overlay base p o) (run_prog p s).
Proof.
  induction p as [a| |key k IH|pos slot k IH|pos slot k IH|pos slot v k IH|pos slot v k IH|pos k IH|pos x k IH
    |pos slot k IH|pos slot x k IH|k IH|pos k IH|at_ k IH|id k IH|at_ row k IH|id row k IH];
    intros base o s Hc Ht; cbn [run_overlay run_prog tame] in *; [by split|by split|..].
  - destruct Ht as [H1 H2]. both (ow_intern_step base o s key Hc H1) H2 IH.
  - destruct Ht as [H1 H2]. unfold ow_supply, supply in *. rewrite <- (ow_column_step _ _ _ Supply _ _ Hc H1). by apply IH.
  - destruct Ht as [H1 H2]. unfold ow_debt, debt in *. rewrite <- (ow_column_step _ _ _ Debt _ _ Hc H1). by apply IH.
  - unfold ow_set_supply, set_supply in *. both (ow_set_column_step base o s Supply pos slot v Hc) Ht IH.
  - unfold ow_set_debt, set_debt in *. both (ow_set_column_step base o s Debt pos slot v Hc) Ht IH.
  - rewrite <- (ow_extra_step _ _ _ _ Hc). by apply IH.
  - both (ow_set_extra_step base o s pos x Hc) Ht IH.
  - destruct Ht as [H1 H2]. rewrite <- (ow_slot_extra_step _ _ _ _ _ Hc H1). by apply IH.
  - both (ow_set_slot_extra_step base o s pos slot x Hc) Ht IH.
  - rewrite <- (ow_positions_len_step _ _ _ Hc). by apply IH.
  - rewrite <- (ow_position_key_step _ _ _ _ Hc). by apply IH.
  - rewrite <- (ow_market_step _ _ _ _ Hc). by apply IH.
  - rewrite <- (ow_markets_step _ _ _ _ Hc). by apply IH.
  - destruct Ht as [H1 H2]. both (ow_set_market_step base o s at_ row Hc H1) H2 IH.
  - destruct Ht as [H1 H2]. both (ow_push_market_step base o s id row Hc H1) H2 IH.
Qed.

(** ** Views over an overlay *)

(** A reference with its columns brought to the length of its market's rows. *)
Definition pad_ref (r : PositionRef) : PositionRef :=
  let n := length (pr_markets r) in
  mkPosRef (pr_id r) (pr_key r) (pr_config r) (resize n 0%Z (pr_supply r)) (resize n 0%Z (pr_debt r)) (pr_extra r)
    (resize n EXTRA_ZERO (pr_slot_extra r)) (pr_markets r) (pr_timestamp r).

Definition map_ok {E A B} (f : A -> B) (r : Result E A) : Result E B := match r with Ok a => Ok (f a) | Err e => Err e end.

Lemma view_position_covers base o s ts p :
  covers base o s -> map_ok pad_ref (view_position (mkView base (Some o) ts) p) = position_ref s p ts.
Proof.
  intros Hc. pose proof (ov_position_covers base o s p Hc) as Hp. pose proof Hc as []. unfold view_position. cbn [vw_overlay vw_base vw_timestamp].
  rewrite (position_ref_of s p ts cv_store0). destruct (ov_pos_index o !! p) as [i|] eqn:Hi; rewrite Hp.
  - destruct (cv_copy0 p i Hi) as (x & _ & Hx). rewrite Hx. cbv zeta. rewrite cv_rows0.
    destruct (sees_full s p x cv_store0 Hx) as (rows & Hrows & (H1 & H2 & H3) & _). rewrite Hrows. cbn [ok_or map_ok].
    unfold pad_ref, ref_of. cbn [pr_id pr_key pr_config pr_supply pr_debt pr_extra pr_slot_extra pr_markets pr_timestamp from_option].
    by rewrite !resize_full.
  - rewrite (cv_rest0 p Hi), (position_ref_of base p ts cv_base0). destruct (sees base p) as [b|] eqn:Hb; [|done].
    cbn [fmap option_fmap option_map ref_of pr_key op_resize op_key]. specialize (cv_rows0 (pk_market (op_key b))).
    destruct (sees_full base p b cv_base0 Hb) as (rows & Hrows & _). rewrite Hrows in *. unfold nrows.
    destruct (ov_rows o (pk_market (op_key b))) as [r|]; cbn [or_else] in cv_rows0; rewrite <- cv_rows0; done.
Qed.

(** C11. The overlay refines the store, for [tame] programs of writer calls: those that, run
    through an [OverlayWriter], never read a slot listed through the overlay of a position it
    holds no copy of ([listed_slot_unreadable] shows the two answers differ there), name only
    known markets to [set_market], and stay within the store's numbers of ids and markets.
    Such a program gets the answers it would get writing to the store itself, and a view over
    the overlay shows every market and the count of positions as that store would, and every
    position it holds a copy of exactly; a position it holds no copy of is shown as the store
    has it up to [pad_ref], that is without the blank cells of slots listed since. Neither the
    pools' earlier content nor the order of the copies shows. *)
Theorem overlay_refines_store {A} (base : StateStore) (h : list StateStore) (x o0 : Overlay) (p : Prog A) (ts : Timestamp)
    (Hreach : reach base h) (Hw : overlay_writer (overlay_clear x) base = (o0, Ok tt)) (Ht : tame p base o0 base) :
  let '(o, a) := run_overlay base p o0 in
  let '(s, b) := run_prog p base in
  a = b /\
  exists v, view_with base o ts = Ok v /\ view_len v = store_len s /\
    (forall m, view_markets v m = ok_or (st_rows s m) (SUnknownMarket m)) /\
    (forall id, map_ok pad_ref (view_position v id) = position_ref s id ts) /\
    (forall id i, ov_pos_index o !! id = Some i -> view_position v id = position_ref s id ts).
Proof.
  assert (Hwf : store_wf base) by apply (reach_hist _ _ Hreach).
  destruct (covers_start base x Hwf) as (o1 & Ho1 & Hc0 & _). assert (o1 = o0) as -> by congruence.
  destruct (run_overlay_step p base o0 base Hc0 Ht) as [Ha Hc].
  destruct (run_overlay base p o0) as [o a]. destruct (run_prog p base) as [s b]. cbn [fst snd] in Ha, Hc. split; [done|].
  exists (mkView base (Some o) ts). pose proof Hc as []. destruct cv_stamp0 as (E1 & E2 & E3). split_and!.
  - unfold view_with, check_base. by rewrite E1, E2, E3, Z.eqb_refl, Nat.eqb_refl, Z.eqb_refl.
  - unfold view_len. cbn [vw_overlay vw_base]. rewrite <- (covers_len _ _ _ Hc). lia.
  - intros m. unfold view_markets. cbn [vw_overlay vw_base]. by rewrite cv_rows0.
  - intros id. by apply view_position_covers.
  - intros id i Hi. rewrite <- (view_position_covers base o s ts id Hc). unfold view_position. cbn [vw_overlay vw_base vw_timestamp].
    destruct (cv_copy0 id i Hi) as (y & Hy & Hs). unfold ov_position. rewrite Hi, Hy. cbv zeta. rewrite cv_rows0.
    destruct (sees_full s id y cv_store0 Hs) as (rows & -> & (H1 & H2 & H3) & _). cbn [ok_or map_ok].
    unfold pad_ref. cbn [pr_id pr_key pr_config pr_supply pr_debt pr_extra pr_slot_extra pr_markets pr_timestamp].
    by rewrite !resize_full.
Qed.

(** ** What an overlay is refused for *)

(** Going forward: a setter, or the next block. *)
Definition forward_step (s : StateStore) (a : Setter + BlockNum) : StateStore :=
  match a with inl w => fst (run_setter w s) | inr b => fst (begin_block s b) end.
Definition forward (acts : list (Setter + BlockNum)) (s : StateStore) : StateStore := fold_left forward_step acts s.

(** A setter counts itself when it changes anything. *)
Definition counted (s s' : StateStore) : Prop :=
  st_writes s' = wrapping_add 64 (st_writes s) 1 \/ (st_writes s' = st_writes s /\ store_eqv s s').

Lemma set_column_writes c p j v s : store_wf s -> counted s (fst (set_column c p j v s)).
Proof.
  intros Hs. destruct (set_column c p j v s) as [s' [[]|e]] eqn:E; cbn [fst].
  - destruct (set_column_Ok _ _ _ _ _ _ Hs E) as (e & mi & m & Hr & Hj).
    destruct (set_column_resolved c p j v s e mi m Hs Hr Hj) as (? & ? & ? & ? & _ & _ & _ & _ & _ & Heq).
    rewrite Heq in E. injection E as <-. by left.
  - right. by rewrite (set_column_Err _ _ _ _ _ _ _ E).
Qed.

Lemma run_setter_writes w s : store_wf s -> counted s (fst (run_setter w s)).
Proof.
  intros Hs. destruct w as [p j v|p j v|p x|p j x|a r|i r|k]; cbn [run_setter]; unfold prod_map; cbn [fst].
  - by apply set_column_writes.
  - by apply set_column_writes.
  - destruct (set_extra p x s) as [s' [[]|e]] eqn:E; cbn [fst]; [left|right; by rewrite (set_extra_Err _ _ _ _ _ E)].
    unfold set_extra in E. destruct (st_extra s !! p); cbn in E; by simplify_eq.
  - destruct (set_slot_extra p j x s) as [s' [[]|e]] eqn:E; cbn [fst]; [left|right; by rewrite (set_slot_extra_Err _ _ _ _ _ _ E)].
    by destruct (set_slot_extra_Ok _ _ _ _ _ Hs E) as (? & ? & ? & ? & _ & _ & _ & ->).
  - destruct (set_market a r s) as [s' [[]|e]] eqn:E; cbn [fst]; [left|right; by rewrite (set_market_Err _ _ _ _ _ E)].
    unfold set_market in E. destruct (row_at s a) as [[[? ?] ?]|]; cbn in E; by simplify_eq.
  - destruct (market_idx (st_market_index s) i) as [mi|] eqn:Hi.
    + destruct (lookup_lt_is_Some_2 (st_markets s) mi) as [m Hm]; [by eapply (sw_index s (proj2 Hs))|].
      destruct (push_market_known i r s mi m Hs Hi Hm) as [[_ [err ->]]|(_ & m' & _ & _ & _ & _ & _ & ->)]; [by right|by left].
    + destruct (push_market_fresh i r s Hs Hi) as [[_ ->]|[_ ->]]; [by right|by left].
  - destruct (intern k s) as [s' [id|e]] eqn:E; cbn [fst]; [|right; by rewrite (intern_Err _ _ _ _ E)].
    destruct (intern_Ok _ _ _ _ Hs E) as [[-> _]|(? & ? & _ & _ & _ & _ & _ & ->)]; [by right|by left].
Qed.

Lemma forward_step_wf s a : store_wf s -> store_wf (forward_step s a).
Proof.
  intros Hs. destruct a as [w|b]; cbn [forward_step].
  - destruct (run_setter w s) as [s' ok] eqn:E. pose proof (run_setter_spec w s s' ok Hs E) as H. cbn [fst].
    destruct ok; [destruct H as [H|H]|]; apply H.
  - unfold begin_block. destruct (ring_begin _ _) as [u r]. split; [by apply layout_set_undo, Hs|by apply logical_ok_undo, Hs].
Qed.

Lemma forward_step_counted s a : store_wf s -> counted s (forward_step s a).
Proof.
  intros Hs. destruct a as [w|b]; cbn [forward_step]; [by apply run_setter_writes|]. right.
  unfold begin_block. destruct (ring_begin _ _) as [u r]. split; [done|]. symmetry. apply store_eqv_undo.
Qed.

Lemma forward_writes acts : forall s, store_wf s ->
  store_wf (forward acts s) /\
  ((st_writes (forward acts s) = st_writes s /\ store_eqv s (forward acts s)) \/
   exists k, (1 <= k <= Z.of_nat (length acts))%Z /\ st_writes (forward acts s) = ((st_writes s + k) mod 2 ^ 64)%Z).
Proof.
  unfold forward. induction acts as [|a acts IH]; intros s Hs; cbn [fold_left]; [split; [done|by left]|].
  destruct (IH (forward_step s a) (forward_step_wf s a Hs)) as [Hw Hr]. split; [done|].
  destruct (forward_step_counted s a Hs) as [Hc|[Hc Hq]].
  - right. destruct Hr as [[E _]|(k & Hk & E)].
    + exists 1%Z. split; [cbn [length]; lia|]. rewrite E, Hc. done.
    + exists (1 + k)%Z. split; [cbn [length]; lia|]. rewrite E, Hc. unfold wrapping_add. rewrite Zplus_mod_idemp_l. f_equal. lia.
  - destruct Hr as [[E Hq']|(k & Hk & E)].
    + left. split; [congruence|]. by etransitivity.
    + right. exists k. split; [cbn [length]; lia|]. by rewrite E, Hc.
Qed.

(** A view over a stale overlay is refused: between the moment an overlay was stamped with
    and any later one reached without a reorg, [check_base] accepts the overlay only when
    nothing a reader sees was written in between (over fewer than 2^64 calls). *)
Theorem stale_overlay_refused (s : StateStore) (h : list StateStore) (o : Overlay) (acts : list (Setter + BlockNum))
    (Hreach : reach s h) (Hn : (Z.of_nat (length acts) < 2 ^ 64)%Z)
    (Ho : check_base o s = Ok tt) (Hnow : check_base o (forward acts s) = Ok tt) :
  reads_agree s (forward acts s).
Proof.
  assert (Hs : store_wf s) by apply (reach_hist _ _ Hreach). destruct (forward_writes acts s Hs) as [Hw Hor].
  apply eqv_reads_agree; [done|done|]. destruct Hor as [[_ Hq]|(k & Hk & E)]; [done|exfalso].
  assert (Hst : forall t, check_base o t = Ok tt -> ov_base_writes o = st_writes t).
  { intros t Ht. unfold check_base in Ht. destruct (ov_base_writes o =? st_writes t)%Z eqn:Hz; [by apply Z.eqb_eq|].
    rewrite !orb_true_r in Ht. done. }
  rewrite <- (Hst _ Hnow), (Hst _ Ho) in E. pose proof (Z.mod_pos_bound (st_writes s + k) (2 ^ 64) eq_refl) as Hb.
  rewrite <- E in Hb. pose proof (Z.div_mod (st_writes s + k) (2 ^ 64) ltac:(done)) as Hd. rewrite <- E in Hd.
  assert ((st_writes s + k) / 2 ^ 64 = 0 \/ 1 <= (st_writes s + k) / 2 ^ 64)%Z as [Hz|Hz]; [|lia|lia].
  assert (0 <= (st_writes s + k) / 2 ^ 64)%Z by (apply Z.div_pos; lia). lia.
Qed.

(** ** Concrete overlays *)

(** The overlay a pending write of position 0's supply leaves over [wit_s2]. *)
Definition wit_overlay : Overlay :=
  fst (run_overlay wit_s2 (PSetSupply 0 0 9 (fun _ => PRet tt)) (fst (overlay_writer overlay_new wit_s2))).

(** [wit_s2] after its last block was unwound and replaced by an empty one. *)
Definition wit_reorged : StateStore := fst (begin_block (fst (unwind_to 1000 wit_s2)) 1001).

(** *** A reorg the stamp does not see *)

Ltac writes_cases :=
  repeat match goal with
  | |- context [match ?x with _ => _ end] => destruct x eqn:?; cbn [fst snd st_writes set_index set_undo set_market_at]
  end; done.

Lemma revert_writes op ex rw s : st_writes (revert op ex rw s).1.1.1 = st_writes s.
Proof.
  destruct op; cbn [revert fst snd]; unfold restore_cell, revert_created, revert_pushed; cbv zeta; writes_cases.
Qed.

Lemma revert_all_writes ops : forall ex rw s, st_writes (fst (revert_all ops ex rw s)) = st_writes s.
Proof.
  induction ops as [|op ops IH]; intros ex rw s; cbn [revert_all]; [done|].
  pose proof (revert_writes op ex rw s) as H. destruct (revert op ex rw s) as [[[t e] r] [x|x]]; cbn [fst] in *; [|done].
  by rewrite IH.
Qed.

Lemma unwind_loop_writes n : forall b t s, st_writes (fst (unwind_loop n b t s)) = st_writes s.
Proof.
  induction n as [|n IH]; intros b t s; cbn [unwind_loop]; destruct (t <? b)%Z; try done.
  assert (st_writes (fst (unwind_block b s)) = st_writes s) as H.
  { unfold unwind_block. destruct (ok_or _ _) as [sl|]; [|done]. destruct (ring_take _ _) as [u [rec|]]; [|done].
    pose proof (revert_all_writes (rev (bu_ops rec)) (bu_extras rec) (bu_rows rec) (set_undo u s)) as H.
    by destruct (revert_all _ _ _ _). }
  destruct (unwind_block b s) as [q [x|e]]; cbn [fst] in *; [|done]. by rewrite IH.
Qed.

(** [unwind_to] takes back writes without counting as one. *)
Lemma unwind_writes t s : st_writes (fst (unwind_to t s)) = st_writes s.
Proof.
  unfold unwind_to. destruct (_ <? _)%Z; [done|]. destruct (_ <? _)%Z; [done|].
  pose proof (unwind_loop_writes (Z.to_nat (ur_tip (st_undo s) - t)) (ur_tip (st_undo s)) t s) as H.
  destruct (unwind_loop _ _ _ _) as [q [x|e]]; cbn [fst] in *; [|done]. by destruct (rewind _ _).
Qed.

(** The next [n] blocks, nothing written in them. *)
Fixpoint open_blocks (n : nat) (s : StateStore) : StateStore * Result StateError unit :=
  match n with
  | O => (s, Ok tt)
  | S n' => match begin_block s (tip s + 1)%Z with
            | (s', Ok _) => open_blocks n' s'
            | (s', Err e) => (s', Err e)
            end
  end.

Lemma open_blocks_Ok n : forall s h, hist_ok s h -> (tip s + Z.of_nat n <= umax 64)%Z ->
  exists s', open_blocks n s = (s', Ok tt) /\ store_wf s' /\ store_eqv s s' /\
    tip s' = (tip s + Z.of_nat n)%Z /\ st_writes s' = st_writes s.
Proof.
  induction n as [|n IH]; intros s h Hh Ht; cbn [open_blocks].
  { exists s. split; [done|]. split; [apply Hh|]. split; [done|]. split; [lia|done]. }
  destruct (begin_block s (tip s + 1)%Z) as [s1 r] eqn:Eb.
  assert (r = Ok tt) as ->.
  { unfold begin_block, ring_begin in Eb. rewrite decide_True in Eb; [by injection Eb as _ <-|].
    unfold checked_add, tip in *. rewrite (proj2 (Z.leb_le _ _)); [done|lia]. }
  pose proof (hist_begin _ _ _ _ Hh Eb) as Hh1. pose proof Eb as Eb1.
  apply begin_block_Ok in Eb as [Es Hb]. apply (ring_begin_Ok _ _ _ (ho_ring _ _ Hh)) in Hb as (_ & _ & Et & _).
  assert (tip s1 = (tip s + 1)%Z) as Et1 by exact Et.
  destruct (IH s1 _ Hh1 ltac:(lia)) as (s' & -> & Hw & Hq & Ht' & Hwr). exists s'. split; [done|]. split; [done|].
  split; [|split; [lia|]]. { etransitivity; [|exact Hq]. rewrite Es. symmetry. apply store_eqv_undo. }
  rewrite Hwr, Es. done.
Qed.

(** C39. A reorg the stamp does not see. Unwinding takes writes back without counting as one, so
    take any reachable store and any overlay stamped with it, unwind any number of blocks that
    added no position, and open as many empty blocks again: the store reads as it did at the
    target, yet [check_base] accepts the overlay taken on the abandoned blocks, and the view
    shows every position the overlay holds a copy of exactly as it did over them (with the
    market rows of now), whatever the store now has of it. *)
Theorem unwound_overlay_admitted (s : StateStore) (h : list StateStore) (target : BlockNum) (d : StateStore)
    (o : Overlay) (ts : Timestamp)
    (Hreach : reach s h) (Ht : (floor s <= target <= tip s)%Z) (Hd : h !! Z.to_nat (tip s - target) = Some d)
    (Hlen : store_len d = store_len s) (Ho : check_base o s = Ok tt) :
  exists su s2 v, unwind_to target s = (su, Ok tt) /\ open_blocks (Z.to_nat (tip s - target)) su = (s2, Ok tt) /\
    reads_agree d s2 /\ view_with s2 o ts = Ok v /\
    forall id r, is_Some (ov_position o id) -> view_position (mkView s (Some o) ts) id = Ok r ->
      view_position v id = (let? rows := view_markets v (pk_market (pr_key r)) in Ok (set_ref_markets rows r)).
Proof.
  pose proof (reach_hist _ _ Hreach) as Hh.
  destruct (unwind_spec s h target Hh Ht) as (su & d' & Eu & Hd' & Hq & Etu & _ & Hhu).
  assert (d' = d) as -> by congruence.
  destruct (open_blocks_Ok (Z.to_nat (tip s - target)) su _ Hhu) as (s2 & E2 & Hw2 & Hq2 & Et2 & Ewr).
  { rewrite Etu. pose proof (ro_tip _ (ho_ring _ _ Hh)). unfold tip in *. lia. }
  assert (reads_agree d s2) as Hra.
  { apply eqv_reads_agree; [|done|by etransitivity]. eapply Forall_lookup_1; [apply Hh|done]. }
  assert (check_base o s2 = Ok tt) as Ho2.
  { pose proof (unwind_writes target s) as Hu. rewrite Eu in Hu. cbn [fst] in Hu.
    destruct Hra as (_ & _ & _ & El). revert Ho. unfold check_base.
    replace (tip s2) with (tip s) by lia. by rewrite <- El, Hlen, Ewr, Hu. }
  exists su, s2, (mkView s2 (Some o) ts). split; [done|]. split; [done|]. split; [done|].
  split; [unfold view_with; by rewrite Ho2|]. intros id r [x Hx]. unfold view_position. cbn [vw_overlay].
  rewrite Hx. cbv zeta. cbn [vw_base]. intros Hr. apply bind_Ok in Hr as (rows & _ & [= <-]). done.
Qed.

(** On [wit_s2]: the view over the replaced block shows the debt of 40 the reorg took back. *)
Lemma unwound_overlay_admitted_witness :
  (let? r := position_ref wit_reorged 0 0 in Ok (pr_debt r)) = Ok [0; 0]%Z /\
  exists v, view_with wit_reorged wit_overlay 0 = Ok v /\
    (let? r := view_position v 0 in Ok (pr_debt r)) = Ok [0; 40]%Z.
Proof.
  split; [vm_compute; reflexivity|].
  destruct (unwound_overlay_admitted wit_s2 _ 1000%Z wit_s0 wit_overlay 0%Z wit_reach2) as (su & s2 & v & Eu & E2 & _ & Ev & Hv).
  - vm_compute. split; discriminate.
  - vm_compute. reflexivity.
  - vm_compute. reflexivity.
  - vm_compute. reflexivity.
  - assert (s2 = wit_reorged) as ->.
    { unfold wit_reorged. rewrite Eu. cbn [fst]. vm_compute in Eu. injection Eu as <-. vm_compute in E2. injection E2 as <-.
      vm_compute. reflexivity. }
    exists v. split; [exact Ev|].
    destruct (view_position (mkView wit_s2 (Some wit_overlay) 0) 0) as [r|e] eqn:Er; [|vm_compute in Er; discriminate Er].
    rewrite (Hv 0 r); [|vm_compute; eexists; reflexivity|exact Er].
    vm_compute in Er. injection Er as <-. vm_compute in Ev. injection Ev as <-. vm_compute. reflexivity.
Defined.

(** A new position borrows, a reserve is listed, position 0 supplies it. *)
Definition wit_prog : Prog (Result ProtocolError Z) :=
  PIntern (mkKey 1 2 8) (fun _ => PSetDebt 1 1 5%Z (fun _ => PPushMarket 2 (blank 7 18) (fun _ =>
    PSetSupply 0 2 3%Z (fun _ => PSupply 0 2 PRet)))).

Lemma wit_tame : tame wit_prog wit_s2 (fst (overlay_writer overlay_new wit_s2)) wit_s2.
Proof.
  cbn [wit_prog tame]. split; [vm_compute; reflexivity|]. split; [intros H; vm_compute in H; discriminate H|].
  split; [|done]. intros [H _]. vm_compute in H. discriminate H.
Qed.

Lemma overlay_refines_store_witness :
  snd (run_overlay wit_s2 wit_prog (fst (overlay_writer overlay_new wit_s2))) = Some (Ok 3%Z) /\
  exists v, view_with wit_s2 (fst (run_overlay wit_s2 wit_prog (fst (overlay_writer overlay_new wit_s2)))) 5 = Ok v /\ view_len v = 2.
Proof.
  assert (Hw : overlay_writer (overlay_clear overlay_new) wit_s2 = (fst (overlay_writer overlay_new wit_s2), Ok tt)) by reflexivity.
  pose proof (overlay_refines_store wit_s2 _ overlay_new _ wit_prog 5%Z wit_reach2 Hw wit_tame) as H.
  destruct (run_overlay wit_s2 wit_prog (fst (overlay_writer overlay_new wit_s2))) as [o a] eqn:Eo.
  destruct (run_prog wit_prog wit_s2) as [s b] eqn:Es. destruct H as (Ha & v & Hv & Hlen & _). cbn [fst snd].
  assert (Hb : snd (run_prog wit_prog wit_s2) = Some (Ok 3%Z) /\ store_len (fst (run_prog wit_prog wit_s2)) = 2) by (vm_compute; split; reflexivity).
  rewrite Es in Hb. destruct Hb as [Hb1 Hb2]. cbn [fst snd] in Hb1, Hb2. split; [congruence|]. exists v. split; [done|congruence].
Defined.

Lemma stale_overlay_refused_witness :
  check_base wit_overlay wit_s2 = Ok tt /\
  reads_agree wit_s2 (forward [inl (WIntern wit_key); inl (WSupply 9 0 1)] wit_s2).
Proof.
  assert (H1 : check_base wit_overlay wit_s2 = Ok tt) by (vm_compute; reflexivity). split; [exact H1|].
  apply (stale_overlay_refused wit_s2 _ wit_overlay _ wit_reach2).
  - vm_compute. reflexivity.
  - exact H1.
  - vm_compute. reflexivity.
Defined.

(** The slots listed since: of a position the overlay has no copy of, a slot listed through
    the overlay cannot be read through it, while the store it stands for has it at zero. *)
Theorem listed_slot_unreadable {A} (base : StateStore) (h : list StateStore) (x o0 : Overlay) (p : Prog A) (c : Col) (pos slot : nat)
    (Hreach : reach base h) (Hw : overlay_writer (overlay_clear x) base = (o0, Ok tt)) (Ht : tame p base o0 base)
    (Hl : listed_since base (fst (run_overlay base p o0)) (fst (run_prog p base)) pos slot) :
  exists m, ow_column base (fst (run_overlay base p o0)) c pos slot = Err (SlotOutOfRange (mkSlot m slot)) /\
    read_column (fst (run_prog p base)) c pos slot = Ok 0%Z.
Proof.
  assert (Hwf : store_wf base) by apply (reach_hist _ _ Hreach).
  destruct (covers_start base x Hwf) as (o1 & Ho1 & Hc0 & _). assert (o1 = o0) as -> by congruence.
  destruct (run_overlay_step p base o0 base Hc0 Ht) as [_ Hc].
  set (o := fst (run_overlay base p o0)) in *. set (s := fst (run_prog p base)) in *.
  destruct Hl as (Hi & k & Hk & Hj). pose proof (ov_position_covers base o s pos Hc) as Hp. pose proof Hc as []. rewrite Hi in Hp.
  destruct (sees base pos) as [b|] eqn:Hb; pose proof (sees_keys base pos Hwf) as Hkey; rewrite Hb in Hkey; cbn in Hkey; [|congruence].
  assert (op_key b = k) as Ek by congruence. exists (pk_market k).
  destruct (sees_nrows base pos b Hwf Hb) as [Hf _]. pose proof (op_col_length c _ _ Hf) as Hlen. rewrite Ek in Hlen.
  unfold ow_column. rewrite Hp. split.
  - transitivity (read_column base c pos slot); [by destruct c|]. rewrite (read_column_sees base c pos slot Hwf), Hb.
    rewrite lookup_ge_None_2 by lia. by rewrite Ek.
  - rewrite (read_column_sees s c pos slot cv_store0), (cv_rest0 pos Hi), Hb. cbn [fmap option_fmap option_map].
    rewrite op_col_resize, Ek. rewrite lookup_resize_new; [done|lia|lia].
Qed.

Lemma listed_slot_unreadable_witness :
  let p := PPushMarket 2 (blank 7 18) PRet in
  let o0 := fst (overlay_writer overlay_new wit_s2) in
  exists m, ow_column wit_s2 (fst (run_overlay wit_s2 p o0)) Supply 0 2 = Err (SlotOutOfRange (mkSlot m 2)).
Proof.
  cbv zeta. destruct (listed_slot_unreadable wit_s2 _ overlay_new (fst (overlay_writer overlay_new wit_s2))
    (PPushMarket 2 (blank 7 18) PRet) Supply 0 2 wit_reach2) as (m & H & _).
  - reflexivity.
  - cbn [tame]. split; [intros H; vm_compute in H; discriminate H|done].
  - split; [vm_compute; reflexivity|]. exists wit_key. split; [vm_compute; reflexivity|]. vm_compute. lia.
  - by exists m.
Defined.
