(* ===== verification/Snapshot.v ===== *)
(** On-disk snapshots of the store: [crates/liq-state/src/snapshot.rs] and [from_captured] of
    [store.rs].

    [bytemuck] reads and writes the memory of [repr(C)] types without padding, on a
    little-endian target: a [Pod] is a size, the bytes of a value and the value of bytes. The
    CRC of [crc32fast] is an argument (class [Crc32]). A file is the list of its bytes; the
    file system of [write_to] is a map from paths to files, and its steps can stop anywhere.
    [Shared] holds the last snapshot published. *)

From S2P Require Import Prelude Mask Types Interner Columns Undo Store Bytes.
From stdpp Require Import strings.
Local Open Scope Z_scope.

(** ** Little-endian bytes and buffers *)

(** [to_le_bytes], [from_le_bytes]. *)
Definition le_bytes (n : nat) (x : Z) : list Z := rev (be n x).
Definition of_le_bytes (l : list Z) : Z := of_be (rev l).

(** [buf.get(at..at.saturating_add(n))]. *)
Definition saturating_add_nat (a b : nat) : nat :=
  match checked_add_nat 64 a b with Some c => c | None => Z.to_nat (umax 64) end.
Definition bytes_at (b : list Z) (at_ n : nat) : option (list Z) := slice_get b (at_, saturating_add_nat at_ n).

(** ** Plain old data *)

Record Pod (A : Type) := mkPod { pod_size : nat; bytes_of : A -> list Z; pod_read : list Z -> A }.
Arguments pod_size {A}. Arguments bytes_of {A}. Arguments pod_read {A}. Arguments mkPod {A}.

(** [n] bytes at [o] of a value's memory, as an integer. *)
Definition field (b : list Z) (o n : nat) : Z := of_le_bytes (take n (drop o b)).

Definition pod_u16 : Pod Z := mkPod 2 (le_bytes 2) of_le_bytes.
Definition pod_u128 : Pod Z := mkPod 16 (le_bytes 16) of_le_bytes.

(** [PositionExtraRepr]: four [u128]. *)
Definition pod_extra : Pod PositionExtraRepr := mkPod 64
  (fun x => le_bytes 16 (ex0 x) ++ le_bytes 16 (ex1 x) ++ le_bytes 16 (ex2 x) ++ le_bytes 16 (ex3 x))
  (fun b => mkExtra (field b 0 16) (field b 16 16) (field b 32 16) (field b 48 16)).

(** [MarketRow]: the header's fields, then fifteen [u128]. *)
Definition pod_row : Pod MarketRow := mkPod 256
  (fun r => le_bytes 2 (mr_asset r) ++ le_bytes 2 (mr_price_feed r) ++ le_bytes 1 (mr_decimals r) ++ le_bytes 1 (mr_flags r) ++
            le_bytes 2 (mr_hub_slot r) ++ le_bytes 4 (mr_hub_market r) ++ le_bytes 4 (mr_last_update r) ++ concat (le_bytes 16 <$> mr_body r))
  (fun b => mkRow (field b 0 2) (field b 2 2) (field b 4 1) (field b 5 1) (field b 6 2) (field b 8 4) (field b 12 4)
            ((fun i => field b (16 + 16 * i) 16) <$> seq 0 BODY_CELLS)).

(** [KeyRec]. *)
Record KeyRec := mkKeyRec { kr_protocol : Z; kr_pad : Z; kr_market : nat; kr_user : Z; kr_local : nat }.

(** The address is its twenty bytes, most significant first. *)
Definition pod_key : Pod KeyRec := mkPod 32
  (fun k => le_bytes 2 (kr_protocol k) ++ le_bytes 2 (kr_pad k) ++ le_bytes 4 (Z.of_nat (kr_market k)) ++ be 20 (kr_user k) ++
            le_bytes 4 (Z.of_nat (kr_local k)))
  (fun b => mkKeyRec (field b 0 2) (field b 2 2) (Z.to_nat (field b 4 4)) (of_be (take 20 (drop 8 b)))
              (Z.to_nat (field b 28 4))).

(** [bytemuck::cast_slice] to bytes. *)
Definition cast_slice {A} (p : Pod A) (l : list A) : list Z := concat (bytes_of p <$> l).

(** ** CRC *)

(** [crc32fast::hash], and [Hasher::new_with_initial], [update], [finalize]. *)
Class Crc32 := { crc_hash : list Z -> Z; crc_resume : Z -> list Z -> Z }.

(** [!] on a [u32]. *)
Definition not32 (x : Z) : Z := umax 32 - x.

Definition crc32_feed `{Crc32} (crc : Z) (data : list Z) : Z := not32 (crc_resume (not32 crc) data).
Definition crc32 `{Crc32} (data : list Z) : Z := crc_hash data.

(** ** Data *)

Definition SNAP_MAGIC : list Z := [76; 73; 81; 83; 78; 65; 80; 49].
Definition VERSION : Z := 2.
Definition HEADER : nat := 64.
Definition ALIGN : nat := 64.

Inductive SnapshotError :=
| SnapIo
| SnapMagic
| SnapVersion (v : Z)
| SnapCrc
| SnapTruncated
| SnapLayout
| SnapState (e : StateError).

Record SnapKey := mkSnapKey { sk_key : PositionKey; sk_local : nat }.

Record SnapMarket := mkSnapMarket {
  sm_stride : nat;
  sm_n_pos : nat;
  sm_rows : list MarketRow;
  sm_supply : list Z;
  sm_debt : list Z;
  sm_slot_extra : list PositionExtraRepr
}.

Record StoreSnapshot := mkSnap {
  sn_tip : BlockNum;
  sn_writes : Z;
  sn_config : list AssetMask;
  sn_extra : list PositionExtraRepr;
  sn_keys : list SnapKey;
  sn_market_index : list Z;
  sn_markets : list SnapMarket
}.

(** [StoreSnapshot::empty], [len], [is_empty]. *)
Definition snap_empty : StoreSnapshot := mkSnap 0 0 [] [] [] [] [].
Definition snap_len (s : StoreSnapshot) : nat := length (sn_keys s).
Definition snap_is_empty (s : StoreSnapshot) : bool := match sn_keys s with [] => true | _ => false end.

(** [StoreSnapshot::position]. *)
Definition snap_position (s : StoreSnapshot) (id : PositionId) (timestamp : Timestamp) : Result StateError PositionRef :=
  let? config := ok_or (sn_config s !! id) (SUnknownPosition id) in
  let? key := ok_or (sn_keys s !! id) (SUnknownPosition id) in
  let? extra := ok_or (sn_extra s !! id) (SUnknownPosition id) in
  let market := pk_market (sk_key key) in
  let? mi := ok_or (market_idx (sn_market_index s) market) (SUnknownMarket market) in
  let? m := ok_or (sn_markets s !! mi) (SUnknownMarket market) in
  let? start := ok_or (checked_mul_nat 64 (sk_local key) (sm_stride m)) Inconsistent in
  let? stop := ok_or (checked_add_nat 64 start (length (sm_rows m))) Inconsistent in
  let? supply := ok_or (slice_get (sm_supply m) (start, stop)) Inconsistent in
  let? debt := ok_or (slice_get (sm_debt m) (start, stop)) Inconsistent in
  let? slot_extra := ok_or (slice_get (sm_slot_extra m) (start, stop)) Inconsistent in
  Ok (mkPosRef id (sk_key key) config supply debt extra slot_extra (sm_rows m) timestamp).

(** [StoreSnapshot::from_store] and [StateStore::snapshot]. *)
Definition snap_of_market (m : Market) : SnapMarket :=
  mkSnapMarket (m_stride m) (m_n_pos m) (m_rows m) (m_supply m) (m_debt m) (m_slot_extra m).
Definition from_store (s : StateStore) : StoreSnapshot :=
  mkSnap (tip s) (st_writes s) (st_config s) (st_extra s)
    ((fun e => mkSnapKey (pe_key e) (pe_local e)) <$> pt_entries (st_positions s))
    (st_market_index s) (snap_of_market <$> st_markets s).

(** [StateStore::from_captured]: the ring starts empty at the captured tip. *)
Definition from_captured (base : BlockNum) (writes : Z) (config : list AssetMask) (positions : PositionTable)
    (extra : list PositionExtraRepr) (markets : list Market) (market_index : list Z) : Result StateError StateStore :=
  if negb (length config =? length extra)%nat || negb (length config =? table_len positions)%nat
  then Err Inconsistent
  else Ok (mkStore config positions extra markets market_index (ring_new base) writes).

(** The layout tests of [into_store]'s loop. *)
Definition market_of_snap (m : SnapMarket) : Result SnapshotError Market :=
  if negb (sm_stride m mod LINE_CELLS =? 0)%nat && negb (sm_stride m =? 0)%nat then Err SnapLayout else
  if (sm_stride m <? length (sm_rows m))%nat then Err SnapLayout else
  let? cells := ok_or (checked_mul_nat 64 (sm_n_pos m) (sm_stride m)) SnapLayout in
  if negb (length (sm_supply m) =? cells)%nat || negb (length (sm_debt m) =? cells)%nat ||
     negb (length (sm_slot_extra m) =? cells)%nat then Err SnapLayout else
  Ok (mkMarket (sm_rows m) (sm_stride m) (sm_n_pos m) (sm_supply m) (sm_debt m) (sm_slot_extra m)).

Fixpoint markets_of_snap (ms : list SnapMarket) : Result SnapshotError (list Market) :=
  match ms with
  | [] => Ok []
  | m :: ms => let? m := market_of_snap m in let? ms := markets_of_snap ms in Ok (m :: ms)
  end.

(** [?] from a [StateError]. *)
Definition state_err {A} (r : Result StateError A) : Result SnapshotError A :=
  match r with Ok a => Ok a | Err e => Err (SnapState e) end.

(** [StoreSnapshot::into_store]. *)
Definition into_store (s : StoreSnapshot) : Result SnapshotError StateStore :=
  if negb (length (sn_config s) =? length (sn_extra s))%nat || negb (length (sn_config s) =? length (sn_keys s))%nat
  then Err SnapLayout else
  let entries := (fun k => mkEntry (sk_key k) (sk_local k)) <$> sn_keys s in
  let? positions := state_err (from_entries entries) in
  let? markets := markets_of_snap (sn_markets s) in
  state_err (from_captured (sn_tip s) (sn_writes s) (sn_config s) positions (sn_extra s) markets (sn_market_index s)).

(** ** Encoding *)

(** [pad_to]. *)
Definition pad_to (buf : list Z) (align : nat) : list Z :=
  match align with
  | O => buf
  | _ => match (length buf mod align)%nat with
         | O => buf
         | rem => resize (saturating_add_nat (length buf) (align - rem)) 0 buf
         end
  end.

Definition key_rec (k : SnapKey) : KeyRec :=
  mkKeyRec (pk_protocol (sk_key k)) 0 (pk_market (sk_key k)) (pk_user (sk_key k)) (sk_local k).

(** One market's columns after [body]. *)
Definition encode_market (m : SnapMarket) (body : list Z) : Result SnapshotError (list Z) :=
  let? stride := ok_or (try_from_nat 32 (sm_stride m)) SnapLayout in
  let? n_rows := ok_or (try_from_nat 32 (length (sm_rows m))) SnapLayout in
  let body := body ++ le_bytes 4 (Z.of_nat stride) ++ le_bytes 4 (Z.of_nat (sm_n_pos m)) ++ le_bytes 4 (Z.of_nat n_rows) ++ le_bytes 4 0 in
  let body := pad_to body ALIGN in
  let body := body ++ cast_slice pod_row (sm_rows m) in
  let body := body ++ cast_slice pod_u128 (sm_supply m) in
  let body := body ++ cast_slice pod_u128 (sm_debt m) in
  let body := body ++ cast_slice pod_extra (sm_slot_extra m) in
  Ok (pad_to body ALIGN).

Fixpoint encode_markets (ms : list SnapMarket) (body : list Z) : Result SnapshotError (list Z) :=
  match ms with
  | [] => Ok body
  | m :: ms => let? body := encode_market m body in encode_markets ms body
  end.

(** [put_u32], [put_u64]: nothing out of range. *)
Definition put_bytes (buf : list Z) (at_ n : nat) (v : list Z) : list Z :=
  match bytes_at buf at_ n with
  | Some _ => take at_ buf ++ v ++ drop (at_ + n) buf
  | None => buf
  end.
Definition put_u32 (buf : list Z) (at_ : nat) (v : Z) : list Z := put_bytes buf at_ 4 (le_bytes 4 v).
Definition put_u64 (buf : list Z) (at_ : nat) (v : Z) : list Z := put_bytes buf at_ 8 (le_bytes 8 v).

(** The header before its CRC. *)
Definition encode_header (n_pos : nat) (tip writes : Z) (n_markets ix_len : nat) : list Z :=
  let out := replicate HEADER 0 in
  let out := put_bytes out 0 8 SNAP_MAGIC in
  let out := put_u32 out 8 VERSION in
  let out := put_u32 out 12 (Z.of_nat n_pos) in
  let out := put_u64 out 16 tip in
  let out := put_u64 out 24 writes in
  let out := put_u32 out 32 (Z.of_nat n_markets) in
  put_u32 out 36 (Z.of_nat ix_len).

(** [encode]. *)
Definition encode `{Crc32} (snap : StoreSnapshot) : Result SnapshotError (list Z) :=
  let? n_pos := ok_or (try_from_nat 32 (length (sn_keys snap))) SnapLayout in
  let? n_markets := ok_or (try_from_nat 32 (length (sn_markets snap))) SnapLayout in
  let? ix_len := ok_or (try_from_nat 32 (length (sn_market_index snap))) SnapLayout in
  let body := cast_slice pod_u128 (sn_config snap) in
  let body := body ++ cast_slice pod_extra (sn_extra snap) in
  let body := body ++ cast_slice pod_key (key_rec <$> sn_keys snap) in
  let body := pad_to body ALIGN in
  let body := body ++ cast_slice pod_u16 (sn_market_index snap) in
  let body := pad_to body ALIGN in
  let? body := encode_markets (sn_markets snap) body in
  let out := encode_header n_pos (sn_tip snap) (sn_writes snap) n_markets ix_len in
  let? hdr := ok_or (slice_get out (0, 40)%nat) SnapTruncated in
  let crc := not32 (crc32_feed (crc32_feed (umax 32) hdr) body) in
  Ok (put_u32 out 40 crc ++ body).

(** ** Decoding *)

Definition u32_at (buf : list Z) (at_ : nat) : Result SnapshotError Z :=
  let? s := ok_or (bytes_at buf at_ 4) SnapTruncated in Ok (of_le_bytes s).
Definition u64_at (buf : list Z) (at_ : nat) : Result SnapshotError Z :=
  let? s := ok_or (bytes_at buf at_ 8) SnapTruncated in Ok (of_le_bytes s).

Definition align_off (off align : nat) : nat :=
  match align with
  | O => off
  | _ => match (off mod align)%nat with
         | O => off
         | rem => saturating_add_nat off (align - rem)
         end
  end.

(** [copy_pod]: an aligned slice is cast in place, any other is read value by value; the values
    are the same. *)
Definition copy_pod {A} (p : Pod A) (body : list Z) (off n : nat) : Result SnapshotError (list A * nat) :=
  let? need := ok_or (checked_mul_nat 64 n (pod_size p)) SnapLayout in
  let? stop := ok_or (checked_add_nat 64 off need) SnapLayout in
  let? slice := ok_or (slice_get body (off, stop)) SnapTruncated in
  Ok ((fun i => pod_read p (take (pod_size p) (drop (i * pod_size p) slice))) <$> seq 0 n, stop).

Definition decode_market (body : list Z) (off : nat) : Result SnapshotError (SnapMarket * nat) :=
  let? stride := u32_at body off in
  let? n := u32_at body (saturating_add_nat off 4) in
  let? n_rows := u32_at body (saturating_add_nat off 8) in
  let off := saturating_add_nat off 16 in
  let off := align_off off ALIGN in
  let? (rows, off) := copy_pod pod_row body off (Z.to_nat n_rows) in
  let? cells := ok_or (checked_mul_nat 64 (Z.to_nat n) (Z.to_nat stride)) SnapLayout in
  let? (supply, off) := copy_pod pod_u128 body off cells in
  let? (debt, off) := copy_pod pod_u128 body off cells in
  let? (slot_extra, off) := copy_pod pod_extra body off cells in
  Ok (mkSnapMarket (Z.to_nat stride) (Z.to_nat n) rows supply debt slot_extra, align_off off ALIGN).

Fixpoint decode_markets (body : list Z) (n off : nat) : Result SnapshotError (list SnapMarket) :=
  match n with
  | O => Ok []
  | S n =>
      let? (m, off) := decode_market body off in
      let? ms := decode_markets body n off in
      Ok (m :: ms)
  end.

(** A [KeyRec] back to a key. *)
Definition key_of_rec (r : KeyRec) : SnapKey := mkSnapKey (mkKey (kr_protocol r) (kr_market r) (kr_user r)) (kr_local r).

(** [decode]. *)
Definition decode `{Crc32} (bytes : list Z) : Result SnapshotError StoreSnapshot :=
  let? hdr := ok_or (slice_get bytes (0, HEADER)%nat) SnapTruncated in
  if negb (bool_decide (slice_get hdr (0, 8)%nat = Some SNAP_MAGIC)) then Err SnapMagic else
  let? version := u32_at hdr 8 in
  if negb (version =? VERSION) then Err (SnapVersion version) else
  let? n_pos := u32_at hdr 12 in
  let? tip := u64_at hdr 16 in
  let? writes := u64_at hdr 24 in
  let? n_markets := u32_at hdr 32 in
  let? ix_len := u32_at hdr 36 in
  let? crc := u32_at hdr 40 in
  let? body := ok_or (slice_get bytes (HEADER, length bytes)) SnapTruncated in
  let? prefix := ok_or (slice_get hdr (0, 40)%nat) SnapTruncated in
  if negb (not32 (crc32_feed (crc32_feed (umax 32) prefix) body) =? crc) then Err SnapCrc else
  let? (config, off) := copy_pod pod_u128 body 0 (Z.to_nat n_pos) in
  let? (extra, off) := copy_pod pod_extra body off (Z.to_nat n_pos) in
  let? (recs, off) := copy_pod pod_key body off (Z.to_nat n_pos) in
  let off := align_off off ALIGN in
  let? (market_index, off) := copy_pod pod_u16 body off (Z.to_nat ix_len) in
  let off := align_off off ALIGN in
  let? markets := decode_markets body (Z.to_nat n_markets) off in
  Ok (mkSnap tip writes config extra (key_of_rec <$> recs) market_index markets).

(** ** Files *)

Abbreviation Fs := (gmap string (list Z)) (only parsing).

(** [tmp_path]. *)
Definition tmp_path (path : string) : string := String.append path ".tmp".

(** The system calls of [write_to]; [WriteAll] may be cut short. *)
Inductive FsStep :=
| Truncate (path : string)
| WriteAll (path : string) (buf : list Z)
| SyncAll (path : string)
| Rename (from to : string).

Definition fs_step (fs : Fs) (st : FsStep) : Fs :=
  match st with
  | Truncate p => <[p := []]> fs
  | WriteAll p buf => <[p := default [] (fs !! p) ++ buf]> fs
  | SyncAll _ => fs
  | Rename a b => match fs !! a with Some f => <[b := f]> (delete a fs) | None => fs end
  end.

(** [StoreSnapshot::write_to]: the steps, once the snapshot is encoded. *)
Definition write_to `{Crc32} (snap : StoreSnapshot) (path : string) : Result SnapshotError (list FsStep) :=
  let? buf := encode snap in
  let tmp := tmp_path path in
  Ok [Truncate tmp; WriteAll tmp buf; SyncAll tmp; Rename tmp path].

(** [StoreSnapshot::load]. *)
Definition load `{Crc32} (fs : Fs) (path : string) : Result SnapshotError StoreSnapshot :=
  let? bytes := ok_or (fs !! path) SnapIo in
  if (length bytes <? HEADER)%nat then Err SnapTruncated else decode bytes.

(** [Shared::leak], [Shared::publish]: readers load the last one published. *)
Record Shared := mkShared { sh_snapshot : StoreSnapshot }.
Definition shared_leak (initial : StoreSnapshot) : Shared := mkShared initial.
Definition shared_publish (sh : Shared) (snap : StoreSnapshot) : Shared := mkShared snap.
