(* ===== verification/SnapshotThms.v ===== *)
(** Snapshots: reading back what was written gives the snapshot, and restoring it the store. *)

From S2P Require Import Prelude Mask Types Interner Columns Undo Store StoreInv StoreOps StoreUnwind StoreThms StoreReads.
From S2P Require Import Bytes Snapshot.
From stdpp Require Import strings.
Local Open Scope Z_scope.

(** ** Integers and segments *)

Lemma Ok_inj {E A} (a b : A) : Ok (E := E) a = Ok b -> a = b.
Proof. congruence. Qed.

Lemma le_bytes_length n x : length (le_bytes n x) = n.
Proof. unfold le_bytes. by rewrite length_rev, be_length. Qed.

Lemma of_le_le_bytes n w x : w = 8 * Z.of_nat n -> uint_ok w x -> of_le_bytes (le_bytes n x) = x.
Proof. intros Hw Hx. unfold of_le_bytes, le_bytes. rewrite rev_involutive. by apply (of_be_uint n w). Qed.

Lemma seg_slice b o s n : seg b o s -> n = length s -> slice_get b (o, o + n)%nat = Some s.
Proof.
  intros [Hl Ht] ->. unfold slice_get. rewrite (proj2 (Nat.leb_le _ _)) by lia. rewrite (proj2 (Nat.leb_le _ _)) by lia.
  cbn [andb]. f_equal. replace (o + length s - o)%nat with (length s) by lia. done.
Qed.

(** A buffer fits the address space. *)
Definition small (b : list Z) : Prop := Z.of_nat (length b) < 2 ^ 63.

Lemma sat_add a b (l : list Z) : small l -> (a + b <= length l + 64)%nat -> saturating_add_nat a b = (a + b)%nat.
Proof.
  unfold small. intros Hl Hab. unfold saturating_add_nat.
  rewrite (proj2 (checked_add_nat_Some 64 a b (a + b)%nat)); [done|]. split; [done|]. unfold umax. lia.
Qed.

Lemma seg_bytes_at b o s n : small b -> seg b o s -> n = length s -> bytes_at b o n = Some s.
Proof.
  intros Hb Hs ->. unfold bytes_at. pose proof (seg_le _ _ _ Hs). rewrite (sat_add _ _ b) by (done || lia). by apply seg_slice.
Qed.

Lemma field_seg b o n w x : seg b o (le_bytes n x) -> w = 8 * Z.of_nat n -> uint_ok w x -> field b o n = x.
Proof. intros [_ H] Hw Hx. unfold field. rewrite le_bytes_length in H. rewrite H. by apply (of_le_le_bytes n w). Qed.

(** ** Plain old data *)

Record pod_ok {A} (p : Pod A) (typed : A -> Prop) : Prop := {
  po_size : (0 < pod_size p)%nat;
  po_len : forall a, typed a -> length (bytes_of p a) = pod_size p;
  po_read : forall a, typed a -> pod_read p (bytes_of p a) = a
}.

Lemma pod_u16_ok : pod_ok pod_u16 (uint_ok 16).
Proof. constructor; cbn; [lia|intros; apply le_bytes_length|]. intros a Ha. by apply (of_le_le_bytes 2 16). Qed.
Lemma pod_u128_ok : pod_ok pod_u128 (uint_ok 128).
Proof. constructor; cbn; [lia|intros; apply le_bytes_length|]. intros a Ha. by apply (of_le_le_bytes 16 128). Qed.

Definition extra_typed (x : PositionExtraRepr) : Prop :=
  uint_ok 128 (ex0 x) /\ uint_ok 128 (ex1 x) /\ uint_ok 128 (ex2 x) /\ uint_ok 128 (ex3 x).

(** Splits the segment of a concatenation into the segments of its parts. *)
Ltac segs H :=
  repeat (match type of H with seg _ _ (_ ++ _) => apply seg_app in H as [? H] end); repeat rewrite ?le_bytes_length, ?be_length in *; cbn [Nat.add] in *.

Lemma pod_extra_ok : pod_ok pod_extra extra_typed.
Proof.
  constructor; cbn [pod_extra pod_size bytes_of pod_read]; [lia|intros; rewrite !length_app, !le_bytes_length; done|].
  intros [a b c d] (H1 & H2 & H3 & H4). cbn [ex0 ex1 ex2 ex3] in *. set (buf := _ ++ _). pose proof (seg_refl buf) as Hs.
  unfold buf in Hs at 2. segs Hs. f_equal; by eapply field_seg.
Qed.

Record row_typed (r : MarketRow) : Prop := {
  rt_asset : uint_ok 16 (mr_asset r);
  rt_feed : uint_ok 16 (mr_price_feed r);
  rt_decimals : uint_ok 8 (mr_decimals r);
  rt_flags : uint_ok 8 (mr_flags r);
  rt_hub_slot : uint_ok 16 (mr_hub_slot r);
  rt_hub_market : uint_ok 32 (mr_hub_market r);
  rt_last : uint_ok 32 (mr_last_update r);
  rt_cells : length (mr_body r) = BODY_CELLS;
  rt_body : Forall (uint_ok 128) (mr_body r)
}.

Lemma concat_length {A} (f : A -> list Z) k l : (forall a, a ∈ l -> length (f a) = k) -> length (concat (f <$> l)) = (length l * k)%nat.
Proof.
  induction l as [|a l IH]; intros H; cbn; [done|]. rewrite length_app, IH, (H a); [lia|by left|].
  intros b Hb. apply H. by right.
Qed.

(** Value [i] of a run of values of one size. *)
Lemma concat_seg {A} (f : A -> list Z) k l b o i a :
  (forall a, a ∈ l -> length (f a) = k) -> seg b o (concat (f <$> l)) -> l !! i = Some a -> seg b (o + i * k) (f a).
Proof.
  revert o i. induction l as [|c l IH]; intros o i Hk Hs Hi; [done|]. cbn in Hs. apply seg_app in Hs as [H1 H2].
  rewrite (Hk c) in H2 by (by left). destruct i as [|i].
  - injection Hi as <-. eapply seg_at; [exact H1|lia].
  - eapply seg_at; [eapply (IH (o + k)%nat i); [|exact H2|exact Hi]|cbn; lia]. intros d Hd. apply Hk. by right.
Qed.

Lemma pod_row_ok : pod_ok pod_row row_typed.
Proof.
  assert (Hb : forall r, row_typed r -> length (concat (le_bytes 16 <$> mr_body r)) = 240%nat).
  { intros r Hr. rewrite (concat_length _ 16) by (intros; apply le_bytes_length). by rewrite (rt_cells r Hr). }
  constructor; cbn [pod_row pod_size bytes_of pod_read]; [lia|intros r Hr; rewrite !length_app, !le_bytes_length, (Hb r Hr); done|].
  intros r Hr. pose proof (Hb r Hr) as Hlen. pose proof Hr as []. set (buf := _ ++ _).
  pose proof (seg_refl buf) as Hs. unfold buf in Hs at 2. segs Hs.
  destruct r as [r1 r2 r3 r4 r5 r6 r7 body]; cbn [mr_asset mr_price_feed mr_decimals mr_flags mr_hub_slot mr_hub_market mr_last_update mr_body] in *.
  f_equal; [by eapply field_seg..|]. apply list_eq. intros i. rewrite list_lookup_fmap.
  destruct (decide (i < BODY_CELLS)%nat) as [Hi|Hi].
  - rewrite lookup_seq_lt by done. cbn [fmap option_fmap option_map]. destruct (lookup_lt_is_Some_2 body i) as [x Hx]; [lia|]. rewrite Hx. f_equal.
    apply (field_seg _ _ _ 128); [|done|by eapply (Forall_lookup_1 (uint_ok 128))].
    eapply seg_at; [eapply (concat_seg (le_bytes 16) 16); [intros; apply le_bytes_length|exact Hs|exact Hx]|lia].
  - rewrite (lookup_ge_None_2 (seq _ _)) by (rewrite length_seq; lia). symmetry. apply lookup_ge_None. lia.
Qed.

Definition keyrec_typed (k : KeyRec) : Prop :=
  uint_ok 16 (kr_protocol k) /\ uint_ok 16 (kr_pad k) /\ uint_ok 32 (Z.of_nat (kr_market k)) /\
  uint_ok 160 (kr_user k) /\ uint_ok 32 (Z.of_nat (kr_local k)).

Lemma pod_key_ok : pod_ok pod_key keyrec_typed.
Proof.
  constructor; cbn [pod_key pod_size bytes_of pod_read]; [lia|intros; rewrite !length_app, !le_bytes_length, be_length; done|].
  intros [p pad m u l] (H1 & H2 & H3 & H4 & H5). cbn [kr_protocol kr_pad kr_market kr_user kr_local] in *. set (buf := _ ++ _).
  pose proof (seg_refl buf) as Hs. unfold buf in Hs at 2. segs Hs.
  f_equal; [by eapply field_seg|by eapply field_seg| | |].
  - rewrite (field_seg _ _ _ 32 (Z.of_nat m)) by done. lia.
  - match goal with H : seg buf 8 (be 20 u) |- _ => destruct H as [_ H]; rewrite be_length in H; rewrite H end. by apply (of_be_uint 20 160).
  - rewrite (field_seg _ _ _ 32 (Z.of_nat l)) by done. lia.
Qed.

(** Reading a column back. *)
Lemma copy_pod_seg {A} (p : Pod A) typed body off l :
  pod_ok p typed -> Forall typed l -> small body -> seg body off (cast_slice p l) ->
  copy_pod p body off (length l) = Ok (l, (off + length (cast_slice p l))%nat).
Proof.
  intros Hp Ht Hb Hs. assert (Hk : forall a, a ∈ l -> length (bytes_of p a) = pod_size p).
  { intros a Ha. apply (po_len p typed Hp). by eapply Forall_forall. }
  pose proof (concat_length _ _ l Hk) as Hlen. change (concat (bytes_of p <$> l)) with (cast_slice p l) in Hlen.
  pose proof (seg_le _ _ _ Hs). unfold small in Hb. unfold copy_pod.
  rewrite (proj2 (checked_mul_nat_Some 64 (length l) (pod_size p) (length (cast_slice p l)))) by (split; [lia|unfold umax; lia]). cbn [ok_or].
  rewrite (proj2 (checked_add_nat_Some 64 off (length (cast_slice p l)) (off + length (cast_slice p l))%nat)) by (split; [done|unfold umax; lia]).
  cbn [ok_or]. rewrite (seg_slice _ _ _ _ Hs eq_refl). cbn [ok_or]. do 2 f_equal. apply list_eq. intros i. rewrite list_lookup_fmap.
  destruct (l !! i) as [a|] eqn:Ha.
  - rewrite lookup_seq_lt by (by eapply lookup_lt_Some). cbn [fmap option_fmap option_map]. f_equal.
    assert (Hsa : seg (cast_slice p l) (0 + i * pod_size p) (bytes_of p a)) by (eapply concat_seg; [done|apply seg_refl|done]).
    destruct Hsa as [_ Hsa]. rewrite (Hk a) in Hsa by (by eapply list_elem_of_lookup_2). cbn [Nat.add] in Hsa.
    cbn [Nat.add]. rewrite Hsa. apply (po_read p typed Hp). by eapply (Forall_lookup_1 typed).
  - rewrite (lookup_ge_None_2 (seq _ _)); [done|]. rewrite length_seq. by apply lookup_ge_None.
Qed.

(** ** Padding *)

Lemma pad_small b : small (pad_to b ALIGN) -> small b.
Proof.
  unfold small, pad_to, ALIGN. destruct (length b mod 64)%nat as [|r] eqn:E; [done|]. rewrite length_resize.
  unfold saturating_add_nat. destruct (checked_add_nat 64 (length b) (64 - S r)) as [c|] eqn:Ec.
  - apply checked_add_nat_Some in Ec as [-> _]. lia.
  - intros H. unfold umax in H. lia.
Qed.

Lemma pad_spec b : small b ->
  (exists z, pad_to b ALIGN = b ++ z) /\ length (pad_to b ALIGN) = align_off (length b) ALIGN.
Proof.
  intros Hb. unfold pad_to, align_off, ALIGN. destruct (length b mod 64)%nat as [|r] eqn:E; [split; [by exists []; rewrite app_nil_r|done]|].
  pose proof (Nat.mod_upper_bound (length b) 64 ltac:(lia)). rewrite (sat_add _ _ b) by (done || lia).
  rewrite length_resize. split; [|done]. rewrite resize_ge by lia. by eexists.
Qed.

Lemma seg_head b c z : seg b 0 (c ++ z) -> seg b 0 c.
Proof. intros H. by apply seg_app in H as [H _]. Qed.

Lemma small_seg b c : small b -> seg b 0 c -> small c.
Proof. unfold small. intros Hb Hs. apply seg_le in Hs. lia. Qed.

(** ** Markets *)

Record snap_market_ok (m : SnapMarket) : Prop := {
  smo_stride : Z.of_nat (sm_stride m) <= umax 32;
  smo_n_pos : Z.of_nat (sm_n_pos m) <= umax 32;
  smo_supply_len : length (sm_supply m) = (sm_n_pos m * sm_stride m)%nat;
  smo_debt_len : length (sm_debt m) = (sm_n_pos m * sm_stride m)%nat;
  smo_extra_len : length (sm_slot_extra m) = (sm_n_pos m * sm_stride m)%nat;
  smo_rows : Forall row_typed (sm_rows m);
  smo_supply : Forall (uint_ok 128) (sm_supply m);
  smo_debt : Forall (uint_ok 128) (sm_debt m);
  smo_slot_extra : Forall extra_typed (sm_slot_extra m)
}.

Lemma u32_at_seg b o x : small b -> seg b o (le_bytes 4 x) -> uint_ok 32 x -> u32_at b o = Ok x.
Proof.
  intros Hb Hs Hx. unfold u32_at. rewrite (seg_bytes_at _ _ _ _ Hb Hs) by (by rewrite le_bytes_length). cbn [ok_or].
  by rewrite (of_le_le_bytes 4 32).
Qed.

Lemma u64_at_seg b o x : small b -> seg b o (le_bytes 8 x) -> uint_ok 64 x -> u64_at b o = Ok x.
Proof.
  intros Hb Hs Hx. unfold u64_at. rewrite (seg_bytes_at _ _ _ _ Hb Hs) by (by rewrite le_bytes_length). cbn [ok_or].
  by rewrite (of_le_le_bytes 8 64).
Qed.

Lemma uint_of_nat w n : Z.of_nat n <= umax w -> uint_ok w (Z.of_nat n).
Proof. intros H. split; [lia|done]. Qed.

(** The buffer a market is written into is a prefix of the one it leaves. *)
Lemma encode_market_app m b b' : encode_market m b = Ok b' -> small b' -> exists z, b' = b ++ z.
Proof.
  intros H Hs. unfold encode_market in H. destruct (try_from_nat 32 (sm_stride m)); cbn [ok_or] in H; [|done].
  destruct (try_from_nat 32 (length (sm_rows m))); cbn [ok_or] in H; [|done]. cbv zeta in H. apply Ok_inj in H as <-.
  pose proof (pad_small _ Hs) as H1. destruct (pad_spec _ H1) as [[z1 E1] _]. rewrite E1. clear E1 Hs.
  set (h := _ ++ _ ++ _ ++ le_bytes 4 0) in *.
  assert (H2 : small (pad_to (b ++ h) ALIGN)) by (unfold small in *; rewrite !length_app in H1; lia).
  destruct (pad_spec _ (pad_small _ H2)) as [[z2 E2] _]. rewrite E2. eexists. rewrite <- !app_assoc. reflexivity.
Qed.

Lemma market_round_trip m b b' full :
  snap_market_ok m -> encode_market m b = Ok b' -> small full -> seg full 0 b' ->
  decode_market full (length b) = Ok (m, length b').
Proof.
  intros Hm H Hf Hs. pose proof Hm as []. pose proof (small_seg _ _ Hf Hs) as Hs'. unfold encode_market in H.
  destruct (try_from_nat 32 (sm_stride m)) as [st|] eqn:Est; cbn [ok_or] in H; [|done]. apply try_from_nat_Some in Est as [-> _].
  destruct (try_from_nat 32 (length (sm_rows m))) as [nr|] eqn:Enr; cbn [ok_or] in H; [|done]. apply try_from_nat_Some in Enr as [-> Hnr].
  cbv zeta in H. apply Ok_inj in H as <-. pose proof (pad_small _ Hs') as H1. destruct (pad_spec _ H1) as [[z1 E1] L1].
  set (h := le_bytes 4 (Z.of_nat (sm_stride m)) ++ le_bytes 4 (Z.of_nat (sm_n_pos m)) ++ le_bytes 4 (Z.of_nat (length (sm_rows m))) ++ le_bytes 4 0) in *.
  assert (Hh : length h = 16%nat) by (unfold h; by rewrite !length_app, !le_bytes_length).
  assert (H2 : small (pad_to (b ++ h) ALIGN)) by (unfold small in *; rewrite !length_app in H1; lia).
  pose proof (pad_small _ H2) as H3. destruct (pad_spec _ H3) as [[z2 E2] L2].
  rewrite L1. rewrite E1, <- !app_assoc in Hs. apply seg_app in Hs as [Hp Hs]. cbn [Nat.add] in Hs.
  set (P := pad_to (b ++ h) ALIGN) in *.
  apply seg_app in Hs as [Hrow Hs]. apply seg_app in Hs as [Hsu Hs]. apply seg_app in Hs as [Hde Hs]. apply seg_app in Hs as [Hse _].
  assert (Hhs : seg full (length b) h).
  { rewrite E2, <- app_assoc in Hp. apply seg_app in Hp as [_ Hp]. by apply seg_app in Hp as [Hp _]. }
  unfold h in Hhs. segs Hhs. unfold decode_market. unfold small in H3. rewrite length_app, Hh in H3.
  assert (Hlf : (length b + 16 <= length full)%nat).
  { apply seg_le in Hp. pose proof (f_equal length E2) as E. rewrite !length_app in E. lia. }
  rewrite !(sat_add _ _ full) by (done || lia).
  rewrite (u32_at_seg full _ (Z.of_nat (sm_stride m))) by (done || (eapply seg_at; [eassumption|lia]) || by apply uint_of_nat).
  rewrite (u32_at_seg full _ (Z.of_nat (sm_n_pos m))) by (done || (eapply seg_at; [eassumption|lia]) || by apply uint_of_nat).
  rewrite (u32_at_seg full _ (Z.of_nat (length (sm_rows m)))) by (done || (eapply seg_at; [eassumption|lia]) || by apply uint_of_nat).
  rewrite !Nat2Z.id. assert (Hoff : align_off (length b + 16) ALIGN = length P) by (rewrite L2, length_app, Hh; done). rewrite Hoff.
  rewrite (copy_pod_seg pod_row row_typed) by (done || apply pod_row_ok).
  assert (Hc : checked_mul_nat 64 (sm_n_pos m) (sm_stride m) = Some (sm_n_pos m * sm_stride m)%nat).
  { apply checked_mul_nat_Some. split; [done|]. rewrite Nat2Z.inj_mul. unfold umax in *. nia. }
  rewrite Hc. cbn [ok_or]. rewrite <- smo_supply_len0 at 1.
  rewrite (copy_pod_seg pod_u128 (uint_ok 128)) by (done || apply pod_u128_ok). rewrite <- smo_debt_len0 at 1.
  rewrite (copy_pod_seg pod_u128 (uint_ok 128)) by (done || apply pod_u128_ok). rewrite <- smo_extra_len0 at 1.
  rewrite (copy_pod_seg pod_extra extra_typed) by (done || apply pod_extra_ok).
  rewrite !length_app. by destruct m.
Qed.

Lemma encode_markets_app ms : forall b b', encode_markets ms b = Ok b' -> small b' -> exists z, b' = b ++ z.
Proof.
  induction ms as [|m ms IH]; intros b b' H Hs; cbn [encode_markets] in H; [injection H as <-; by exists []; rewrite app_nil_r|].
  destruct (encode_market m b) as [b1|] eqn:E; cbn in H; [|done]. destruct (IH b1 b' H Hs) as [z ->].
  destruct (encode_market_app m b b1 E) as [z' ->]; [unfold small in *; rewrite length_app in Hs; lia|].
  eexists. by rewrite <- app_assoc.
Qed.

Lemma markets_round_trip ms : forall b b' full,
  Forall snap_market_ok ms -> encode_markets ms b = Ok b' -> small full -> seg full 0 b' ->
  decode_markets full (length ms) (length b) = Ok ms.
Proof.
  induction ms as [|m ms IH]; intros b b' full Hms H Hf Hs; [done|]. cbn [encode_markets] in H.
  apply Forall_cons in Hms as [Hm Hms]. destruct (encode_market m b) as [b1|] eqn:E; cbn in H; [|done].
  destruct (encode_markets_app ms b1 b' H (small_seg _ _ Hf Hs)) as [z Ez].
  assert (Hs1 : seg full 0 b1) by (rewrite Ez in Hs; by apply seg_head in Hs).
  cbn [decode_markets length]. rewrite (market_round_trip m b b1 full Hm E Hf Hs1). by rewrite (IH b1 b' full Hms H Hf Hs).
Qed.

(** ** The header *)

Lemma seg_mid a b c : seg (a ++ b ++ c) (length a) b.
Proof. apply seg_prefix. eapply seg_head with (z := c). apply seg_refl. Qed.

Lemma put_app a b c o n v : small (a ++ b ++ c) -> length a = o -> length b = n ->
  put_bytes (a ++ b ++ c) o n v = a ++ v ++ c.
Proof.
  intros Hs <- <-. unfold put_bytes. rewrite (seg_bytes_at _ _ b _ Hs (seg_mid a b c) eq_refl).
  rewrite take_app_length. f_equal. f_equal. rewrite app_assoc, <- length_app. by rewrite drop_app_length.
Qed.

Definition header_fields (n_pos : nat) (tip writes : Z) (n_markets ix_len : nat) : list Z :=
  SNAP_MAGIC ++ le_bytes 4 VERSION ++ le_bytes 4 (Z.of_nat n_pos) ++ le_bytes 8 tip ++ le_bytes 8 writes ++
  le_bytes 4 (Z.of_nat n_markets) ++ le_bytes 4 (Z.of_nat ix_len).

Lemma header_fields_length a b c d e : length (header_fields a b c d e) = 40%nat.
Proof. unfold header_fields. by rewrite !length_app, !le_bytes_length. Qed.

Lemma small_64 (l : list Z) : (length l <= 64)%nat -> small l.
Proof. unfold small. lia. Qed.

(** A field put at the end of what is written so far. *)
Lemma put_next a v t k o n : t = (n + k)%nat -> (length a + t <= 64)%nat -> length a = o -> length v = n ->
  put_bytes (a ++ replicate t 0) o n v = (a ++ v) ++ replicate k 0.
Proof.
  intros -> Hl Ho Hv. rewrite replicate_add, (put_app a (replicate n 0) (replicate k 0) o n v); [by rewrite app_assoc| |done|by rewrite length_replicate].
  apply small_64. rewrite !length_app, !length_replicate. lia.
Qed.

Lemma encode_header_eq n_pos tp wr nm ix : encode_header n_pos tp wr nm ix = header_fields n_pos tp wr nm ix ++ replicate 24 0.
Proof.
  unfold encode_header, put_u32, put_u64, HEADER. cbv zeta. rewrite <- (app_nil_l (replicate 64 0)).
  pose proof (fun n x => le_bytes_length n x) as Hll. rewrite (put_next [] SNAP_MAGIC 64 56 0 8) by (done || cbn; lia).
  rewrite (put_next _ (le_bytes 4 VERSION) 56 52 8 4) by (rewrite ?length_app, ?Hll; cbn; lia).
  rewrite (put_next _ (le_bytes 4 (Z.of_nat n_pos)) 52 48 12 4) by (rewrite ?length_app, ?Hll; cbn; lia).
  rewrite (put_next _ (le_bytes 8 tp) 48 40 16 8) by (rewrite ?length_app, ?Hll; cbn; lia).
  rewrite (put_next _ (le_bytes 8 wr) 40 32 24 8) by (rewrite ?length_app, ?Hll; cbn; lia).
  rewrite (put_next _ (le_bytes 4 (Z.of_nat nm)) 32 28 32 4) by (rewrite ?length_app, ?Hll; cbn; lia).
  rewrite (put_next _ (le_bytes 4 (Z.of_nat ix)) 28 24 36 4) by (rewrite ?length_app, ?Hll; cbn; lia).
  unfold header_fields. rewrite <- !app_assoc. done.
Qed.

(** ** The snapshot *)

Record snap_ok (s : StoreSnapshot) : Prop := {
  so_tip : uint_ok 64 (sn_tip s);
  so_writes : uint_ok 64 (sn_writes s);
  so_config_len : length (sn_config s) = length (sn_keys s);
  so_extra_len : length (sn_extra s) = length (sn_keys s);
  so_config : Forall (uint_ok 128) (sn_config s);
  so_extra : Forall extra_typed (sn_extra s);
  so_keys : Forall (fun k => keyrec_typed (key_rec k)) (sn_keys s);
  so_index : Forall (uint_ok 16) (sn_market_index s);
  so_markets : Forall snap_market_ok (sn_markets s)
}.

Lemma key_rec_inv k : key_of_rec (key_rec k) = k.
Proof. by destruct k as [[]]. Qed.

(** What [encode] writes, spelled out. *)
Lemma encode_eq `{Crc32} s buf : encode s = Ok buf -> small buf ->
  exists body crc, let f := header_fields (length (sn_keys s)) (sn_tip s) (sn_writes s) (length (sn_markets s)) (length (sn_market_index s)) in
    buf = f ++ le_bytes 4 crc ++ replicate 20 0 ++ body /\ crc = not32 (crc32_feed (crc32_feed (umax 32) f) body) /\
    Z.of_nat (length (sn_keys s)) <= umax 32 /\ Z.of_nat (length (sn_markets s)) <= umax 32 /\
    Z.of_nat (length (sn_market_index s)) <= umax 32 /\
    encode_markets (sn_markets s) (pad_to (pad_to (cast_slice pod_u128 (sn_config s) ++ cast_slice pod_extra (sn_extra s) ++
      cast_slice pod_key (key_rec <$> sn_keys s)) ALIGN ++ cast_slice pod_u16 (sn_market_index s)) ALIGN) = Ok body.
Proof.
  intros He Hs. unfold encode in He.
  destruct (try_from_nat 32 (length (sn_keys s))) as [a|] eqn:Ea; cbn [ok_or] in He; [|done]. apply try_from_nat_Some in Ea as [-> Ha].
  destruct (try_from_nat 32 (length (sn_markets s))) as [b|] eqn:Eb; cbn [ok_or] in He; [|done]. apply try_from_nat_Some in Eb as [-> Hb].
  destruct (try_from_nat 32 (length (sn_market_index s))) as [c|] eqn:Ec; cbn [ok_or] in He; [|done]. apply try_from_nat_Some in Ec as [-> Hc].
  cbv zeta in He. rewrite <- (app_assoc (cast_slice pod_u128 (sn_config s))) in He.
  destruct (encode_markets _ _) as [body|] eqn:Em; [|done]. rewrite encode_header_eq in He.
  set (f := header_fields _ _ _ _ _) in *. assert (Hf : length f = 40%nat) by apply header_fields_length.
  assert (Hsl : slice_get (f ++ replicate 24 0) (0, 40)%nat = Some f).
  { apply (seg_slice _ 0 f 40); [|done]. eapply seg_head. apply seg_refl. }
  rewrite Hsl in He. cbn [ok_or] in He. apply Ok_inj in He. unfold put_u32 in He.
  rewrite (put_next f _ 24 20 40 4) in He by (rewrite ?le_bytes_length; lia). exists body, (not32 (crc32_feed (crc32_feed (umax 32) f) body)).
  cbv zeta. rewrite <- He, <- !app_assoc. done.
Qed.

(** The columns of the body, in the order they are read back. *)
Lemma body_round_trip s body full :
  snap_ok s -> small body -> seg body 0 full ->
  full = pad_to (pad_to (cast_slice pod_u128 (sn_config s) ++ cast_slice pod_extra (sn_extra s) ++
    cast_slice pod_key (key_rec <$> sn_keys s)) ALIGN ++ cast_slice pod_u16 (sn_market_index s)) ALIGN ->
  exists o1 o2 o3 o4,
    copy_pod pod_u128 body 0 (length (sn_keys s)) = Ok (sn_config s, o1) /\
    copy_pod pod_extra body o1 (length (sn_keys s)) = Ok (sn_extra s, o2) /\
    copy_pod pod_key body o2 (length (sn_keys s)) = Ok (key_rec <$> sn_keys s, o3) /\
    copy_pod pod_u16 body (align_off o3 ALIGN) (length (sn_market_index s)) = Ok (sn_market_index s, o4) /\
    align_off o4 ALIGN = length full.
Proof.
  intros [] Hb Hs ->. pose proof (small_seg _ _ Hb Hs) as H1. pose proof (pad_small _ H1) as H2. destruct (pad_spec _ H2) as [[z1 E1] L1].
  set (Q := pad_to (_ ++ _ ++ _) ALIGN) in *. assert (H3 : small Q) by (unfold small in *; rewrite length_app in H2; lia).
  pose proof (pad_small _ H3) as H4. destruct (pad_spec _ H4) as [[z2 E2] L2]. fold Q in E2, L2.
  rewrite E1, <- app_assoc in Hs. apply seg_app in Hs as [HQ Hs]. apply seg_app in Hs as [Hix _]. cbn [Nat.add] in Hix.
  rewrite E2, <- !app_assoc in HQ. apply seg_app in HQ as [Hc HQ]. apply seg_app in HQ as [Hx HQ]. apply seg_app in HQ as [Hk _]. cbn [Nat.add] in *.
  eexists _, _, _, _. split.
  { rewrite <- so_config_len0 at 1. by apply (copy_pod_seg pod_u128 (uint_ok 128) _ _ _ pod_u128_ok). }
  split. { rewrite <- so_extra_len0 at 1. by apply (copy_pod_seg pod_extra extra_typed _ _ _ pod_extra_ok). }
  split.
  { rewrite <- (length_fmap key_rec (sn_keys s)) at 1. apply (copy_pod_seg pod_key keyrec_typed _ _ _ pod_key_ok); [|done|done]. by apply Forall_fmap. }
  assert (Hoff : align_off (0 + length (cast_slice pod_u128 (sn_config s)) + length (cast_slice pod_extra (sn_extra s)) +
    length (cast_slice pod_key (key_rec <$> sn_keys s))) ALIGN = length Q) by (rewrite L2, !length_app; f_equal; lia).
  rewrite Hoff. split; [by apply (copy_pod_seg pod_u16 (uint_ok 16) _ _ _ pod_u16_ok)|]. rewrite L1, length_app. done.
Qed.

(** The CRC is a [u32]. *)
Class Crc32Laws `{Crc32} : Prop := {
  crc_hash_range : forall b, uint_ok 32 (crc_hash b);
  crc_resume_range : forall x b, uint_ok 32 (crc_resume x b)
}.

Lemma crc32_feed_range `{Crc32Laws} x b : uint_ok 32 (not32 (crc32_feed x b)).
Proof. unfold crc32_feed, not32. pose proof (crc_resume_range (umax 32 - x) b) as [H1 H2]. split; lia. Qed.

Lemma decode_encode `{Crc32Laws} s buf : snap_ok s -> encode s = Ok buf -> small buf -> decode buf = Ok s.
Proof.
  intros Hs He Hb. destruct (encode_eq s buf He Hb) as (body & crc & Hbuf & Hcrc & Hn & Hm & Hi & Hem). cbv zeta in Hbuf, Hcrc.
  set (f := header_fields _ _ _ _ _) in *. assert (Hf : length f = 40%nat) by apply header_fields_length.
  set (hdr := f ++ le_bytes 4 crc ++ replicate 20 0). assert (Hhl : length hdr = 64%nat) by (unfold hdr; by rewrite !length_app, le_bytes_length, length_replicate, Hf).
  assert (Hbuf' : buf = hdr ++ body) by (unfold hdr; rewrite Hbuf, <- !app_assoc; done).
  assert (Hsh : small hdr) by (apply small_64; lia). assert (Hsb : small body) by (unfold small in *; rewrite Hbuf', length_app in Hb; lia).
  pose proof Hs as [Ht Hw _ _ _ _ _ _ Hms]. unfold decode.
  assert (E1 : slice_get buf (0, HEADER)%nat = Some hdr).
  { rewrite Hbuf'. apply (seg_slice _ 0 hdr HEADER); [|done]. eapply seg_head. apply seg_refl. }
  assert (E2 : slice_get buf (HEADER, length buf) = Some body).
  { rewrite Hbuf', length_app, Hhl. apply (seg_slice _ HEADER body (length body)); [|done]. unfold HEADER. rewrite <- Hhl.
    apply seg_prefix. apply seg_refl. }
  assert (E3 : slice_get hdr (0, 40)%nat = Some f) by (apply (seg_slice _ 0 f 40); [eapply seg_head, seg_refl|done]).
  rewrite E1. cbn [ok_or]. pose proof (seg_refl hdr) as Hseg. unfold hdr at 2 in Hseg. apply seg_app in Hseg as [Hfs Hseg].
  apply seg_app in Hseg as [Hcs _]. rewrite Hf in Hcs. cbn [Nat.add] in Hcs. unfold f, header_fields in Hfs.
  apply seg_app in Hfs as [Hmg Hfs]. segs Hfs.
  assert (Emg : slice_get hdr (0, 8)%nat = Some SNAP_MAGIC) by exact (seg_slice _ 0 SNAP_MAGIC 8 Hmg eq_refl).
  rewrite Emg, bool_decide_true by done. cbn [negb].
  change (length SNAP_MAGIC) with 8%nat in *. cbn [Nat.add] in *.
  assert (Hver : uint_ok 32 VERSION) by (split; [done|vm_compute; discriminate]).
  rewrite (u32_at_seg hdr 8 VERSION) by done. rewrite Z.eqb_refl. cbn [negb].
  rewrite (u32_at_seg hdr 12 (Z.of_nat (length (sn_keys s)))) by (done || by apply uint_of_nat).
  rewrite (u64_at_seg hdr 16 (sn_tip s)), (u64_at_seg hdr 24 (sn_writes s)) by done.
  rewrite (u32_at_seg hdr 32 (Z.of_nat (length (sn_markets s)))) by (done || by apply uint_of_nat).
  rewrite (u32_at_seg hdr 36 (Z.of_nat (length (sn_market_index s)))) by (done || by apply uint_of_nat).
  assert (Hcr : uint_ok 32 crc) by (rewrite Hcrc; apply crc32_feed_range).
  rewrite (u32_at_seg hdr 40 crc) by done. rewrite E2, E3. cbn [ok_or]. rewrite <- Hcrc, Z.eqb_refl. cbn [negb]. rewrite !Nat2Z.id.
  destruct (encode_markets_app _ _ _ Hem Hsb) as [z Hz].
  assert (Hpre : seg body 0 (pad_to (pad_to (cast_slice pod_u128 (sn_config s) ++ cast_slice pod_extra (sn_extra s) ++
      cast_slice pod_key (key_rec <$> sn_keys s)) ALIGN ++ cast_slice pod_u16 (sn_market_index s)) ALIGN)).
  { pose proof (seg_refl body) as Hr. rewrite Hz in Hr at 2. by eapply seg_head. }
  destruct (body_round_trip s body _ Hs Hsb Hpre eq_refl) as (o1 & o2 & o3 & o4 & -> & -> & -> & -> & Hoff). rewrite Hoff.
  rewrite (markets_round_trip _ _ _ body Hms Hem Hsb (seg_refl body)). f_equal. rewrite <- list_fmap_compose.
  rewrite (list_fmap_ext _ id) by (intros; apply key_rec_inv). rewrite list_fmap_id. by destruct s.
Qed.

(** ** Stores *)

(** The values of a store fit their types. *)
Record market_typed (m : Market) : Prop := {
  mt_rows : Forall row_typed (m_rows m);
  mt_supply : Forall (uint_ok 128) (m_supply m);
  mt_debt : Forall (uint_ok 128) (m_debt m);
  mt_slot_extra : Forall extra_typed (m_slot_extra m)
}.

Record store_typed (s : StateStore) : Prop := {
  sty_writes : uint_ok 64 (st_writes s);
  sty_extra : Forall extra_typed (st_extra s);
  sty_entries : Forall (fun e => keyrec_typed (key_rec (mkSnapKey (pe_key e) (pe_local e)))) (pt_entries (st_positions s));
  sty_index : Forall (uint_ok 16) (st_market_index s);
  sty_markets : Forall market_typed (st_markets s)
}.

Lemma from_store_ok s h : reach s h -> store_typed s -> snap_ok (from_store s).
Proof.
  intros Hr []. destruct (reach_hist _ _ Hr) as [Hring [Hl Hg] _ _ _ _]. constructor; cbn [from_store sn_tip sn_writes sn_config sn_extra sn_keys sn_market_index sn_markets]; try done.
  - unfold tip. destruct Hring. split; [lia|done].
  - rewrite length_fmap. apply Hg.
  - rewrite length_fmap. apply Hg.
  - eapply Forall_impl; [apply Hg|]. done.
  - by apply Forall_fmap.
  - apply Forall_fmap. apply Forall_forall. intros m Hm.
    pose proof (proj1 (Forall_forall _ _) (lo_markets s Hl) m Hm) as Hw. pose proof (proj1 (Forall_forall _ _) sty_markets0 m Hm) as [].
    destruct Hw. constructor; cbn [snap_of_market sm_stride sm_n_pos sm_rows sm_supply sm_debt sm_slot_extra]; try done.
    + unfold umax. lia.
    + apply mw_supply. + apply mw_debt. + apply mw_slot_extra.
Qed.

Lemma markets_of_snap_ok ms : Forall market_wf ms -> markets_of_snap (snap_of_market <$> ms) = Ok ms.
Proof.
  induction 1 as [|m ms Hm _ IH]; [done|]. cbn [fmap list_fmap markets_of_snap].
  assert (market_of_snap (snap_of_market m) = Ok m) as ->; [|by rewrite IH].
  pose proof Hm as [Hr Hst Hline Hn Hsu Hde Hse]. unfold market_of_snap. cbn [snap_of_market sm_stride sm_n_pos sm_rows sm_supply sm_debt sm_slot_extra].
  rewrite Hline. cbn [Nat.eqb negb andb]. rewrite (proj2 (Nat.ltb_ge _ _)) by lia.
  rewrite (proj2 (checked_mul_nat_Some 64 (m_n_pos m) (m_stride m) (m_n_pos m * m_stride m)%nat)).
  2: { split; [done|]. rewrite Nat2Z.inj_mul. unfold umax in *. nia. }
  cbn [ok_or]. rewrite (co_len _ _ _ _ _ Hsu), (co_len _ _ _ _ _ Hde), (co_len _ _ _ _ _ Hse), Nat.eqb_refl. cbn [negb orb]. by destruct m.
Qed.

(** The position table is rebuilt from its entries. *)
Lemma from_entries_loop_Ok es : forall i m,
  NoDup (pe_key <$> es) -> (forall e, e ∈ es -> m !! pe_key e = None) -> Z.of_nat (i + length es) <= umax 32 + 1 ->
  exists m', from_entries_loop i es m = Ok m'.
Proof.
  induction es as [|e es IH]; intros i m Hnd Hm Hl; cbn [from_entries_loop]; [by eexists|]. cbn [length] in Hl.
  rewrite (proj2 (try_from_nat_Some 32 i i)) by (split; [done|lia]). cbn [ok_or].
  rewrite (Hm e) by (by left). apply NoDup_cons in Hnd as [Hne Hnd]. apply IH; [done| |lia].
  intros f Hf. rewrite lookup_insert_ne; [by apply Hm; right|]. intros E. apply Hne. rewrite E. by apply list_elem_of_fmap_2.
Qed.

Lemma from_entries_table t :
  table_ok t -> Z.of_nat (length (pt_entries t)) <= umax 32 -> from_entries (pt_entries t) = Ok t.
Proof.
  intros Ht Hl. unfold from_entries.
  destruct (from_entries_loop_Ok (pt_entries t) 0 ∅) as [m Hm]; [by apply table_keys_NoDup|intros; apply lookup_empty|cbn; lia|].
  rewrite Hm. cbn. destruct (from_entries_ok (pt_entries t) (mkTable m (pt_entries t))) as [Ht' _]; [unfold from_entries; by rewrite Hm|].
  f_equal. destruct t as [tm es]. cbn in *. f_equal. apply map_eq. intros k. destruct (m !! k) as [i|] eqn:Ei.
  - apply (Ht' k i) in Ei. cbn in Ei. symmetry. by apply (Ht k i).
  - destruct (tm !! k) as [i|] eqn:Ej; [|done]. apply (Ht k i) in Ej. apply (Ht' k i) in Ej. cbn in Ej. congruence.
Qed.

(** The store a snapshot restores: the columns, and an empty ring at the tip. *)
Definition restored (s : StateStore) : StateStore := set_undo (ring_new (tip s)) s.

Lemma into_store_from_store s : store_wf s -> Z.of_nat (store_len s) <= umax 32 -> into_store (from_store s) = Ok (restored s).
Proof.
  intros [Hl Hg] Hlen. unfold into_store. cbn [from_store sn_tip sn_writes sn_config sn_extra sn_keys sn_market_index sn_markets].
  rewrite length_fmap, (sw_config_len s Hg), (sw_extra_len s Hg), Nat.eqb_refl. cbn [negb orb]. cbv zeta.
  rewrite <- list_fmap_compose, (list_fmap_ext _ id) by (by intros ? []). rewrite list_fmap_id.
  rewrite from_entries_table by (done || apply Hg). cbn [state_err].
  rewrite markets_of_snap_ok by apply Hl. unfold from_captured, table_len.
  rewrite (sw_config_len s Hg), (sw_extra_len s Hg), Nat.eqb_refl. done.
Qed.

Lemma restored_wf s : store_wf s -> store_wf (restored s).
Proof. intros [Hl Hg]. split; [by apply layout_set_undo|by apply logical_ok_undo]. Qed.

(** A position of the snapshot is the position of the store. *)
Lemma snap_position_eq s id ts : snap_position (from_store s) id ts = position_ref s id ts.
Proof.
  unfold snap_position, position_ref, table_entry. cbn [from_store sn_config sn_keys sn_extra sn_market_index sn_markets].
  destruct (st_config s !! id) as [c|]; cbn [ok_or]; [|done]. rewrite list_lookup_fmap.
  destruct (pt_entries (st_positions s) !! id) as [e|]; cbn [fmap option_fmap option_map ok_or]; [|done].
  destruct (st_extra s !! id) as [x|]; cbn [ok_or]; [|done]. cbv zeta. cbn [sk_key sk_local]. unfold find_market.
  destruct (market_idx _ _) as [mi|]; cbn [ok_or]; [|done]. rewrite list_lookup_fmap.
  destruct (st_markets s !! mi) as [m|]; cbn [fmap option_fmap option_map ok_or]; [|done].
  unfold row_range. cbn [snap_of_market sm_stride sm_rows sm_supply sm_debt sm_slot_extra].
  destruct (checked_mul_nat 64 (pe_local e) (m_stride m)) as [a|]; cbn [ok_or]; [|done].
  destruct (checked_add_nat 64 a (length (m_rows m))) as [b|]; cbn [ok_or]; done.
Qed.

(** C27. A snapshot is the store: what is written for any store the hot thread can reach is read
    back whole, its positions read as the store's do, and the store rebuilt from it answers
    every reader as the original, at the same tip and write count, with nothing to unwind. *)
Theorem snapshot_round_trip `{Crc32Laws} (s : StateStore) (h : list StateStore) (buf : list Z)
    (Hreach : reach s h) (Htyped : store_typed s) (Hbuf : encode (from_store s) = Ok buf) (Hsmall : small buf) :
  exists snap r, decode buf = Ok snap /\ into_store snap = Ok r /\ reads_agree s r /\
    tip r = tip s /\ Store.floor r = tip s /\ st_writes r = st_writes s /\ snap_len snap = store_len s /\
    forall id ts, snap_position snap id ts = position_ref s id ts.
Proof.
  assert (Hwf : store_wf s) by apply (reach_hist _ _ Hreach).
  destruct (encode_eq _ _ Hbuf Hsmall) as (_ & _ & _ & _ & Hn & _). cbn [from_store sn_keys] in Hn. rewrite length_fmap in Hn.
  exists (from_store s), (restored s). split; [eapply decode_encode; [by eapply from_store_ok|done|done]|].
  split; [by apply into_store_from_store|]. split; [|split_and!; try done].
  - apply eqv_reads_agree; [done|by apply restored_wf|]. symmetry. apply store_eqv_undo.
  - unfold snap_len. cbn [from_store sn_keys]. by rewrite length_fmap.
  - intros. apply snap_position_eq.
Qed.

(** ** Writing the file *)

(** Where the process may die: between two calls, or inside a write. *)
Inductive crash : list FsStep -> gmap string (list Z) -> gmap string (list Z) -> Prop :=
| crash_here steps fs : crash steps fs fs
| crash_mid p buf k steps fs : crash (WriteAll p buf :: steps) fs (fs_step fs (WriteAll p (take k buf)))
| crash_later st steps fs fs' : crash steps (fs_step fs st) fs' -> crash (st :: steps) fs fs'.

Lemma tmp_path_ne p : tmp_path p <> p.
Proof.
  unfold tmp_path. induction p as [|c p IH]; [done|]. intros E. apply IH. by injection E.
Qed.

(** A snapshot is never lost: wherever the process dies while a snapshot is written, the
    path loads what it loaded before or the new snapshot. *)
Theorem snapshot_write_atomic `{Crc32Laws} (snap : StoreSnapshot) (path : string) (steps : list FsStep)
    (fs fs' : gmap string (list Z)) (buf : list Z)
    (Hok : snap_ok snap) (Hbuf : encode snap = Ok buf) (Hsmall : small buf)
    (Hsteps : write_to snap path = Ok steps) (Hcrash : crash steps fs fs') :
  load fs' path = load fs path \/ load fs' path = Ok snap.
Proof.
  unfold write_to in Hsteps. rewrite Hbuf in Hsteps. cbn in Hsteps. apply Ok_inj in Hsteps as <-.
  pose proof (tmp_path_ne path) as Hne.
  assert (Hnew : forall f : gmap string (list Z), f !! path = Some buf -> load f path = Ok snap).
  { intros f Hf. unfold load. rewrite Hf. cbn [ok_or]. destruct (encode_eq _ _ Hbuf Hsmall) as (b & c & E & _).
    rewrite (proj2 (Nat.ltb_ge _ _)); [by eapply decode_encode|]. rewrite E, !length_app, header_fields_length, le_bytes_length, length_replicate.
    unfold HEADER. lia. }
  assert (Hold : forall f : gmap string (list Z), f !! path = fs !! path -> load f path = load fs path \/ load f path = Ok snap).
  { intros f Hf. left. unfold load. by rewrite Hf. }
  inversion Hcrash as [| |? ? ? ? H1]; subst; [by apply Hold|].
  cbn [fs_step] in H1. inversion H1 as [| |? ? ? ? H2]; subst.
  - apply Hold. by rewrite lookup_insert_ne.
  - apply Hold. cbn [fs_step]. by rewrite !lookup_insert_ne.
  - cbn [fs_step] in H2. rewrite lookup_insert_eq in H2. cbn [from_option id app] in H2. rewrite insert_insert_eq in H2.
    inversion H2 as [| |? ? ? ? H3]; subst; [apply Hold; by rewrite lookup_insert_ne|].
    cbn [fs_step] in H3. inversion H3 as [| |? ? ? ? H4]; subst; [apply Hold; by rewrite lookup_insert_ne|].
    cbn [fs_step] in H4. rewrite lookup_insert_eq in H4. inversion H4; subst. right. apply Hnew. by rewrite lookup_insert_eq.
Qed.

(** ** A concrete CRC and runs for the witnesses *)

(** CRC-32 of IEEE 802.3, a bit at a time, on a [u32]. *)
Definition crc_bit (c : Z) : Z :=
  let h := Z.shiftr c 1 in if Z.odd c then Z.lxor h 0xEDB88320 else h.
Definition crc_byte (c b : Z) : Z := Nat.iter 8 crc_bit (Z.lxor c (Z.land b 255)).
Definition crc_run (x : Z) (b : list Z) : Z := not32 (Z.land (fold_left crc_byte b (not32 x)) (Z.ones 32)).

#[export] Instance crc_ieee : Crc32 := { crc_hash := crc_run 0; crc_resume := crc_run }.

Lemma crc_run_range x b : uint_ok 32 (crc_run x b).
Proof.
  unfold crc_run, not32, uint_ok, umax. rewrite Z.land_ones by lia.
  pose proof (Z.mod_pos_bound (fold_left crc_byte b (2 ^ 32 - 1 - x)) (2 ^ 32)). lia.
Qed.

#[export] Instance crc_ieee_laws : Crc32Laws := { crc_hash_range := crc_run_range 0; crc_resume_range := crc_run_range }.

(** The check value of the standard, of the bytes of 123456789. *)
Lemma crc_ieee_check : crc32 [49; 50; 51; 52; 53; 54; 55; 56; 57] = 0xCBF43926.
Proof. vm_compute. reflexivity. Qed.

Definition wit_buf : list Z := match encode (from_store wit_s2) with Ok b => b | Err _ => [] end.

#[export] Instance extra_typed_dec x : Decision (extra_typed x).
Proof. unfold extra_typed. apply _. Defined.
#[export] Instance keyrec_typed_dec k : Decision (keyrec_typed k).
Proof. unfold keyrec_typed. apply _. Defined.

(** A row, by its fields. *)
Lemma row_typed_fields r :
  Forall (fun p => uint_ok (fst p) (snd p))
    [(16, mr_asset r); (16, mr_price_feed r); (8, mr_decimals r); (8, mr_flags r); (16, mr_hub_slot r); (32, mr_hub_market r);
     (32, mr_last_update r)] /\ length (mr_body r) = BODY_CELLS /\ Forall (uint_ok 128) (mr_body r) -> row_typed r.
Proof. intros (H & Hl & Hb). rewrite !Forall_cons in H. destruct H as (? & ? & ? & ? & ? & ? & ? & _). by constructor. Qed.

Ltac decide_typed := apply (bool_decide_unpack _); vm_compute; exact I.

Lemma wit_row_typed : row_typed (blank 5 18) /\ row_typed (blank 6 6).
Proof. split; apply row_typed_fields; decide_typed. Qed.

Definition wit_market : Market := default market_new (head (st_markets wit_s2)).

Lemma wit_market_typed : market_typed wit_market.
Proof.
  constructor; try decide_typed. assert (m_rows wit_market = [blank 5 18; blank 6 6]) as -> by (vm_compute; reflexivity).
  pose proof wit_row_typed as [? ?]. by repeat constructor.
Qed.

Lemma wit_s2_typed : store_typed wit_s2.
Proof.
  constructor; try decide_typed. assert (st_markets wit_s2 = [wit_market]) as -> by (vm_compute; reflexivity).
  constructor; [apply wit_market_typed|done].
Qed.

Lemma snapshot_round_trip_witness :
  exists snap r, decode wit_buf = Ok snap /\ into_store snap = Ok r /\ reads_agree wit_s2 r /\
    tip r = tip wit_s2 /\ Store.floor r = tip wit_s2 /\ st_writes r = st_writes wit_s2 /\ snap_len snap = store_len wit_s2 /\
    forall id ts, snap_position snap id ts = position_ref wit_s2 id ts.
Proof.
  apply (snapshot_round_trip wit_s2 [wit_s2; wit_s0] wit_buf wit_reach2 wit_s2_typed); vm_compute; reflexivity.
Defined.

(** The process dies inside the write: the temporary file is cut, the path as it was. *)
Definition wit_crash_fs : gmap string (list Z) :=
  fs_step (fs_step ∅ (Truncate "snap.tmp")) (WriteAll "snap.tmp" (take 100 wit_buf)).

Lemma snapshot_write_atomic_witness :
  load wit_crash_fs "snap" = load ∅ "snap" \/ load wit_crash_fs "snap" = Ok (from_store wit_s2).
Proof.
  apply (snapshot_write_atomic (from_store wit_s2) "snap"
    [Truncate "snap.tmp"; WriteAll "snap.tmp" wit_buf; SyncAll "snap.tmp"; Rename "snap.tmp" "snap"] ∅ wit_crash_fs wit_buf
    (from_store_ok _ _ wit_reach2 wit_s2_typed)).
  - vm_compute. reflexivity.
  - vm_compute. reflexivity.
  - vm_compute. reflexivity.
  - apply crash_later. exact (crash_mid "snap.tmp" wit_buf 100 _ (fs_step ∅ (Truncate "snap.tmp"))).
Defined.
