(* ===== verification/Wal.v ===== *)
(** The write-ahead log and recovery: [crates/liq-state/src/wal.rs].

    The writer thread consumes commands from a bounded channel that never drops: here, the
    list of commands it received, whose end is the disconnection. The log is its bytes and how
    many of them the last [sync_all] made durable. System calls that fail are not modelled,
    except an end of file. *)

From S2P Require Import Prelude Mask Types Interner Columns Undo Store Bytes Snapshot.
From stdpp Require Import strings.
Local Open Scope Z_scope.

Definition WAL_MAGIC : list Z := [76; 73; 81; 87; 65; 76; 48; 49].
Definition MAX_FRAME : nat := 512.

Inductive WalRecord :=
| RBeginBlock (block : BlockNum)
| RIntern (key : PositionKey)
| RSetSupply (pos : PositionId) (slot : nat) (shares : Z)
| RSetDebt (pos : PositionId) (slot : nat) (shares : Z)
| RSetExtra (pos : PositionId) (extra : PositionExtraRepr)
| RSetSlotExtra (pos : PositionId) (slot : nat) (extra : PositionExtraRepr)
| RSetMarket (at_ : MarketSlot) (row : MarketRow)
| RPushMarket (market : MarketId) (row : MarketRow)
| RSnapshot (block : BlockNum)
| RUnwindTo (target : BlockNum).

Inductive WalCmd := CRecord (rec : WalRecord) | CShutdown.

Inductive WalError := WIo | WMagic | WCrc | WCorrupt | WClosed | WZeroBound | WTag (t : Z).

Inductive RecoverError :=
| RecSnapshot (e : SnapshotError)
| RecWal (e : WalError)
| RecProtocol (e : ProtocolError)
| RecState (e : StateError).

(** ** Encoding *)

Definition TAG_BEGIN : Z := 1.
Definition TAG_INTERN : Z := 2.
Definition TAG_SUPPLY : Z := 3.
Definition TAG_DEBT : Z := 4.
Definition TAG_EXTRA : Z := 5.
Definition TAG_MARKET : Z := 6.
Definition TAG_PUSH : Z := 7.
Definition TAG_SNAP : Z := 8.
Definition TAG_UNWIND : Z := 9.
Definition TAG_SLOT_EXTRA : Z := 10.

(** [to_le_bytes] of the ids and slots. *)
Definition le_nat (n : nat) (x : nat) : list Z := le_bytes n (Z.of_nat x).

Definition put_cell (pos : PositionId) (slot : nat) (shares : Z) : list Z :=
  le_nat 4 pos ++ le_nat 2 slot ++ le_bytes 16 shares.

Definition wal_encode (rec : WalRecord) : list Z :=
  match rec with
  | RBeginBlock block => TAG_BEGIN :: le_bytes 8 block
  | RIntern key => TAG_INTERN :: le_bytes 2 (pk_protocol key) ++ le_nat 4 (pk_market key) ++ be 20 (pk_user key)
  | RSetSupply pos slot shares => TAG_SUPPLY :: put_cell pos slot shares
  | RSetDebt pos slot shares => TAG_DEBT :: put_cell pos slot shares
  | RSetExtra pos extra => TAG_EXTRA :: le_nat 4 pos ++ bytes_of pod_extra extra
  | RSetSlotExtra pos slot extra => TAG_SLOT_EXTRA :: le_nat 4 pos ++ le_nat 2 slot ++ bytes_of pod_extra extra
  | RSetMarket at_ row => TAG_MARKET :: le_nat 4 (ms_market at_) ++ le_nat 2 (ms_slot at_) ++ bytes_of pod_row row
  | RPushMarket market row => TAG_PUSH :: le_nat 4 market ++ bytes_of pod_row row
  | RSnapshot block => TAG_SNAP :: le_bytes 8 block
  | RUnwindTo target => TAG_UNWIND :: le_bytes 8 target
  end.

(** [write_frame]: the bytes appended. *)
Definition write_frame `{Crc32} (rec : WalRecord) : Result WalError (list Z) :=
  let payload := wal_encode rec in
  let crc := crc32 payload in
  let? len := ok_or (try_from_nat 32 (length payload)) WCorrupt in
  Ok (le_nat 4 len ++ le_bytes 4 crc ++ payload).

(** ** The writer *)

Record WalFile := mkWalFile { wf_bytes : list Z; wf_synced : nat }.

Definition sync_all (f : WalFile) : WalFile := mkWalFile (wf_bytes f) (length (wf_bytes f)).

(** [Wal::open] refuses a channel without room. *)
Definition wal_open (bound : nat) : Result WalError unit := if (bound =? 0)%nat then Err WZeroBound else Ok tt.

(** The start of [writer_loop], on the file at the path (nothing: created empty). *)
Definition writer_start (file : list Z) : Result WalError WalFile :=
  if (length file =? 0)%nat then Ok (sync_all (mkWalFile WAL_MAGIC 0)) else
  if (length file <? 8)%nat then Err WIo else
  if negb (bool_decide (take 8 file = WAL_MAGIC)) then Err WMagic else
  Ok (mkWalFile file (length file)).

(** The records that end a batch. *)
Definition is_marker (rec : WalRecord) : bool :=
  match rec with RBeginBlock _ | RSnapshot _ | RUnwindTo _ => true | _ => false end.

(** One record: written, and synced after a marker. The answer is whether a sync is pending. *)
Definition writer_record `{Crc32} (rec : WalRecord) (f : WalFile) : WalFile * Result WalError bool :=
  let# frame := write_frame rec at f in
  let f := mkWalFile (wf_bytes f ++ frame) (wf_synced f) in
  if is_marker rec then (sync_all f, Ok false) else (f, Ok true).

(** The loop of [writer_loop]. *)
Fixpoint writer_loop `{Crc32} (cmds : list WalCmd) (pending : bool) (f : WalFile) : WalFile * Result WalError unit :=
  match cmds with
  | CRecord rec :: cmds =>
      match writer_record rec f with
      | (f, Ok pending) => writer_loop cmds pending f
      | (f, Err e) => (f, Err e)
      end
  | CShutdown :: _ | [] => (if pending then sync_all f else f, Ok tt)
  end.

(** ** Decoding *)

(** [b.get(at..at.saturating_add(n))] as a little-endian integer. *)
Definition get_le (b : list Z) (at_ n : nat) : Result WalError Z :=
  let? s := ok_or (bytes_at b at_ n) WCorrupt in Ok (of_le_bytes s).
Definition u16_le (b : list Z) (at_ : nat) : Result WalError nat := let? x := get_le b at_ 2 in Ok (Z.to_nat x).
Definition u32_le (b : list Z) (at_ : nat) : Result WalError nat := let? x := get_le b at_ 4 in Ok (Z.to_nat x).
Definition u64_le (b : list Z) (at_ : nat) : Result WalError Z := get_le b at_ 8.
Definition u128_le (b : list Z) (at_ : nat) : Result WalError Z := get_le b at_ 16.
Definition pod_at {A} (p : Pod A) (b : list Z) (at_ : nat) : Result WalError A :=
  let? s := ok_or (bytes_at b at_ (pod_size p)) WCorrupt in Ok (pod_read p s).

Definition wal_cell (rest : list Z) : Result WalError (PositionId * nat * Z) :=
  let? pos := u32_le rest 0 in
  let? slot := u16_le rest 4 in
  let? shares := u128_le rest 6 in
  Ok (pos, slot, shares).

Definition wal_decode (p : list Z) : Result WalError WalRecord :=
  match p with
  | [] => Err WCorrupt
  | tag :: rest =>
      if tag =? TAG_BEGIN then let? block := u64_le rest 0 in Ok (RBeginBlock block) else
      if tag =? TAG_INTERN then
        let? protocol := get_le rest 0 2 in
        let? market := u32_le rest 2 in
        let? user := ok_or (slice_get rest (6, 26)%nat) WCorrupt in
        Ok (RIntern (mkKey protocol market (of_be user))) else
      if tag =? TAG_SUPPLY then let? (pos, slot, shares) := wal_cell rest in Ok (RSetSupply pos slot shares) else
      if tag =? TAG_DEBT then let? (pos, slot, shares) := wal_cell rest in Ok (RSetDebt pos slot shares) else
      if tag =? TAG_EXTRA then
        let? pos := u32_le rest 0 in
        let? extra := pod_at pod_extra rest 4 in
        Ok (RSetExtra pos extra) else
      if tag =? TAG_SLOT_EXTRA then
        let? pos := u32_le rest 0 in
        let? slot := u16_le rest 4 in
        let? extra := pod_at pod_extra rest 6 in
        Ok (RSetSlotExtra pos slot extra) else
      if tag =? TAG_MARKET then
        let? market := u32_le rest 0 in
        let? slot := u16_le rest 4 in
        let? row := pod_at pod_row rest 6 in
        Ok (RSetMarket (mkSlot market slot) row) else
      if tag =? TAG_PUSH then
        let? market := u32_le rest 0 in
        let? row := pod_at pod_row rest 4 in
        Ok (RPushMarket market row) else
      if tag =? TAG_SNAP then let? block := u64_le rest 0 in Ok (RSnapshot block) else
      if tag =? TAG_UNWIND then let? target := u64_le rest 0 in Ok (RUnwindTo target) else
      Err (WTag tag)
  end.

(** [read_frame]: the record and what is left of the file, or nothing at a torn end. *)
Definition read_frame `{Crc32} (file : list Z) : Result WalError (option (WalRecord * list Z)) :=
  if (length file <? 8)%nat then Ok None else
  let len := Z.to_nat (of_le_bytes (take 4 file)) in
  let expect_crc := of_le_bytes (take 4 (drop 4 file)) in
  if (len =? 0)%nat || (MAX_FRAME <? len)%nat then Err WCorrupt else
  let file := drop 8 file in
  if (length file <? len)%nat then Ok None else
  let payload := take len file in
  if negb (crc32 payload =? expect_crc) then Err WCrc else
  let? rec := wal_decode payload in
  Ok (Some (rec, drop len file)).

(** The loop of [replay]; a frame takes more than eight bytes. *)
Fixpoint replay_loop `{Crc32} (fuel : nat) (file : list Z) : Result WalError (list WalRecord) :=
  match fuel with
  | O => Err WCorrupt
  | S fuel =>
      match read_frame file with
      | Err e => Err e
      | Ok None => Ok []
      | Ok (Some (rec, file)) => let? recs := replay_loop fuel file in Ok (rec :: recs)
      end
  end.

Definition replay `{Crc32} (file : list Z) : Result WalError (list WalRecord) :=
  if (length file <? 8)%nat then Err WMagic else
  if negb (bool_decide (take 8 file = WAL_MAGIC)) then Err WMagic else
  replay_loop (S (length file)) (drop 8 file).

(** ** Recovery *)

(** [?] from the errors of the store. *)
Definition rec_state {A} (p : StateStore * Result StateError A) : StateStore * Result RecoverError unit :=
  match p with (s, Ok _) => (s, Ok tt) | (s, Err e) => (s, Err (RecState e)) end.
Definition rec_protocol {A} (p : StateStore * Result ProtocolError A) : StateStore * Result RecoverError unit :=
  match p with (s, Ok _) => (s, Ok tt) | (s, Err e) => (s, Err (RecProtocol e)) end.

(** [apply]. *)
Definition apply_record (rec : WalRecord) (s : StateStore) : StateStore * Result RecoverError unit :=
  match rec with
  | RBeginBlock block => rec_state (begin_block s block)
  | RIntern key => rec_protocol (intern key s)
  | RSetSupply pos slot shares => rec_protocol (set_supply pos slot shares s)
  | RSetDebt pos slot shares => rec_protocol (set_debt pos slot shares s)
  | RSetExtra pos extra => rec_protocol (set_extra pos extra s)
  | RSetSlotExtra pos slot extra => rec_protocol (set_slot_extra pos slot extra s)
  | RSetMarket at_ row => rec_protocol (set_market at_ row s)
  | RPushMarket market row => rec_protocol (push_market market row s)
  | RSnapshot _ => (s, Ok tt)
  | RUnwindTo target => rec_state (unwind_to target s)
  end.

(** The loop of [replay_into]. *)
Fixpoint replay_recs (recs : list WalRecord) (snap_tip : BlockNum) (after_snap : bool) (s : StateStore)
    : StateStore * Result RecoverError unit :=
  let continue (after : bool) (rec : WalRecord) (recs : list WalRecord) :=
    if after then
      match apply_record rec s with
      | (s, Ok _) => replay_recs recs snap_tip after s
      | (s, Err e) => (s, Err e)
      end
    else replay_recs recs snap_tip after s in
  match recs with
  | [] => (s, Ok tt)
  | RSnapshot block :: recs => replay_recs recs snap_tip (if block =? snap_tip then true else after_snap) s
  | RBeginBlock block as rec :: recs => continue (if snap_tip <? block then true else after_snap) rec recs
  | rec :: recs => continue after_snap rec recs
  end.

Definition replay_into `{Crc32} (s : StateStore) (wal : list Z) (snap_tip : BlockNum)
    : StateStore * Result RecoverError unit :=
  match replay wal with
  | Err e => (s, Err (RecWal e))
  | Ok recs => replay_recs recs snap_tip false s
  end.

(** [recover]. *)
Definition recover `{Crc32} (fs : gmap string (list Z)) (snapshot_path wal_path : string) : Result RecoverError StateStore :=
  match load fs snapshot_path with
  | Err e => Err (RecSnapshot e)
  | Ok snap =>
      match into_store snap with
      | Err e => Err (RecSnapshot e)
      | Ok store =>
          match fs !! wal_path with
          | None => Err (RecWal WIo)
          | Some wal =>
              match replay_into store wal (sn_tip snap) with
              | (store, Ok _) => Ok store
              | (_, Err e) => Err e
              end
          end
      end
  end.
