(* ===== verification/WalThms.v ===== *)
(** The write-ahead log: records survive a crash up to the last sync, and recovery gives back
    the store. *)

From S2P Require Import Prelude Mask Types Interner Columns Undo Store StoreInv StoreOps StoreUnwind StoreThms StoreReads.
From S2P Require Import Bytes Snapshot SnapshotThms Wal.
From stdpp Require Import strings.
Local Open Scope Z_scope.

(** ** Records *)

Definition id_ok (w : Z) (n : nat) : Prop := Z.of_nat n <= umax w.

Definition rec_typed (r : WalRecord) : Prop :=
  match r with
  | RBeginBlock b | RSnapshot b | RUnwindTo b => uint_ok 64 b
  | RIntern k => uint_ok 16 (pk_protocol k) /\ id_ok 32 (pk_market k) /\ uint_ok 160 (pk_user k)
  | RSetSupply p j v | RSetDebt p j v => id_ok 32 p /\ id_ok 16 j /\ uint_ok 128 v
  | RSetExtra p x => id_ok 32 p /\ extra_typed x
  | RSetSlotExtra p j x => id_ok 32 p /\ id_ok 16 j /\ extra_typed x
  | RSetMarket a r => id_ok 32 (ms_market a) /\ id_ok 16 (ms_slot a) /\ row_typed r
  | RPushMarket m r => id_ok 32 m /\ row_typed r
  end.

Lemma get_le_seg b o n w x : small b -> seg b o (le_bytes n x) -> w = 8 * Z.of_nat n -> uint_ok w x -> get_le b o n = Ok x.
Proof.
  intros Hb Hs Hw Hx. unfold get_le. rewrite (seg_bytes_at _ _ _ _ Hb Hs) by (by rewrite le_bytes_length). cbn [ok_or].
  by rewrite (of_le_le_bytes n w).
Qed.

Lemma u32_le_seg b o x : small b -> seg b o (le_nat 4 x) -> id_ok 32 x -> u32_le b o = Ok x.
Proof. intros Hb Hs Hx. unfold u32_le. rewrite (get_le_seg b o 4 32 (Z.of_nat x)) by (done || by apply uint_of_nat). by rewrite Nat2Z.id. Qed.

Lemma u16_le_seg b o x : small b -> seg b o (le_nat 2 x) -> id_ok 16 x -> u16_le b o = Ok x.
Proof. intros Hb Hs Hx. unfold u16_le. rewrite (get_le_seg b o 2 16 (Z.of_nat x)) by (done || by apply uint_of_nat). by rewrite Nat2Z.id. Qed.

Lemma pod_at_seg {A} (p : Pod A) typed b o a : pod_ok p typed -> typed a -> small b -> seg b o (bytes_of p a) -> pod_at p b o = Ok a.
Proof.
  intros Hp Ha Hb Hs. unfold pod_at. rewrite (seg_bytes_at _ _ _ _ Hb Hs) by (symmetry; by apply (po_len p typed Hp)). cbn [ok_or].
  by rewrite (po_read p typed Hp).
Qed.

Lemma wal_cell_seg b p j v : small b -> seg b 0 (put_cell p j v) -> id_ok 32 p -> id_ok 16 j -> uint_ok 128 v -> wal_cell b = Ok (p, j, v).
Proof.
  intros Hb Hs Hp Hj Hv. unfold put_cell in Hs. apply seg_app in Hs as [H1 Hs]. apply seg_app in Hs as [H2 H3].
  unfold le_nat in H2, H3. rewrite !le_bytes_length in *. cbn [Nat.add] in *. unfold wal_cell. rewrite (u32_le_seg b 0 p), (u16_le_seg b 4 j) by done.
  unfold u128_le. by rewrite (get_le_seg b 6 16 128 v).
Qed.

Lemma le_nat_length n x : length (le_nat n x) = n.
Proof. apply le_bytes_length. Qed.

(** Every record fits a frame. *)
Lemma wal_encode_length r : rec_typed r -> (1 <= length (wal_encode r) <= 263)%nat.
Proof.
  intros Hr. destruct r; cbn [wal_encode rec_typed length] in *; unfold put_cell; rewrite ?length_app, ?le_nat_length, ?le_bytes_length, ?be_length;
    rewrite ?(po_len pod_extra extra_typed pod_extra_ok), ?(po_len pod_row row_typed pod_row_ok) by tauto; cbn; lia.
Qed.

Lemma wal_encode_small r : rec_typed r -> small (tail (wal_encode r)).
Proof. intros Hr. pose proof (wal_encode_length r Hr). unfold small. destruct (wal_encode r); cbn [tail length] in *; lia. Qed.

Lemma wal_decode_encode r : rec_typed r -> wal_decode (wal_encode r) = Ok r.
Proof.
  intros Hr. pose proof (wal_encode_small r Hr) as Hs. destruct r as [b|k|p j v|p j v|p x|p j x|a w|m w|b|b];
    cbn [wal_encode rec_typed tail] in *; unfold wal_decode; cbn -[get_le u32_le u16_le pod_at wal_cell slice_get u64_le].
  - unfold u64_le. by rewrite (get_le_seg _ 0 8 64 b (Hs) (seg_refl _)).
  - destruct Hr as (H1 & H2 & H3). set (buf := _ ++ _) in *. pose proof (seg_refl buf) as Hb. unfold buf in Hb at 2.
    apply seg_app in Hb as [S1 Hb]. apply seg_app in Hb as [S2 S3]. rewrite le_nat_length, ?le_bytes_length in *. cbn [Nat.add] in *.
    rewrite (get_le_seg buf 0 2 16 (pk_protocol k)), (u32_le_seg buf 2 (pk_market k)) by done.
    assert (E : slice_get buf (6, 26)%nat = Some (be 20 (pk_user k))) by (apply (seg_slice _ 6 _ 20 S3); by rewrite be_length).
    rewrite E. cbn [ok_or]. rewrite (of_be_uint 20 160) by done. by destruct k.
  - destruct Hr as (H1 & H2 & H3). by rewrite (wal_cell_seg _ p j v Hs (seg_refl _)).
  - destruct Hr as (H1 & H2 & H3). by rewrite (wal_cell_seg _ p j v Hs (seg_refl _)).
  - destruct Hr as (H1 & H2). set (buf := _ ++ _) in *. pose proof (seg_refl buf) as Hb. unfold buf in Hb at 2.
    apply seg_app in Hb as [S1 S2]. rewrite le_nat_length in *. cbn [Nat.add] in *.
    rewrite (u32_le_seg buf 0 p), (pod_at_seg pod_extra extra_typed buf 4 x pod_extra_ok) by done. done.
  - destruct Hr as (H1 & H2 & H3). set (buf := _ ++ _) in *. pose proof (seg_refl buf) as Hb. unfold buf in Hb at 2.
    apply seg_app in Hb as [S1 Hb]. apply seg_app in Hb as [S2 S3]. rewrite !le_nat_length in *. cbn [Nat.add] in *.
    rewrite (u32_le_seg buf 0 p), (u16_le_seg buf 4 j), (pod_at_seg pod_extra extra_typed buf 6 x pod_extra_ok) by done. done.
  - destruct Hr as (H1 & H2 & H3). set (buf := _ ++ _) in *. pose proof (seg_refl buf) as Hb. unfold buf in Hb at 2.
    apply seg_app in Hb as [S1 Hb]. apply seg_app in Hb as [S2 S3]. rewrite !le_nat_length in *. cbn [Nat.add] in *.
    rewrite (u32_le_seg buf 0 (ms_market a)), (u16_le_seg buf 4 (ms_slot a)), (pod_at_seg pod_row row_typed buf 6 w pod_row_ok) by done.
    by destruct a.
  - destruct Hr as (H1 & H2). set (buf := _ ++ _) in *. pose proof (seg_refl buf) as Hb. unfold buf in Hb at 2.
    apply seg_app in Hb as [S1 S2]. rewrite le_nat_length in *. cbn [Nat.add] in *.
    rewrite (u32_le_seg buf 0 m), (pod_at_seg pod_row row_typed buf 4 w pod_row_ok) by done. done.
  - unfold u64_le. by rewrite (get_le_seg _ 0 8 64 b (Hs) (seg_refl _)).
  - unfold u64_le. by rewrite (get_le_seg _ 0 8 64 b (Hs) (seg_refl _)).
Qed.

(** ** Frames *)

Section Frames.
Context `{Crc32Laws}.

(** The bytes of a frame. *)
Definition frame (r : WalRecord) : list Z :=
  le_nat 4 (length (wal_encode r)) ++ le_bytes 4 (crc32 (wal_encode r)) ++ wal_encode r.

Lemma write_frame_eq r : rec_typed r -> write_frame r = Ok (frame r).
Proof.
  intros Hr. pose proof (wal_encode_length r Hr). unfold write_frame.
  rewrite (proj2 (try_from_nat_Some 32 (length (wal_encode r)) (length (wal_encode r)))); [done|]. split; [done|]. unfold umax. lia.
Qed.

Lemma frame_length r : length (frame r) = (8 + length (wal_encode r))%nat.
Proof. unfold frame. rewrite !length_app, le_nat_length, le_bytes_length. lia. Qed.

(** What a frame's header says, of a file that has it whole. *)
Lemma frame_header r t k : rec_typed r -> (8 <= k)%nat ->
  of_le_bytes (take 4 (take k (frame r) ++ t)) = Z.of_nat (length (wal_encode r)) /\
  of_le_bytes (take 4 (drop 4 (take k (frame r) ++ t))) = crc32 (wal_encode r) /\
  drop 8 (take k (frame r) ++ t) = take (k - 8) (wal_encode r) ++ t.
Proof.
  intros Hr Hk. pose proof (wal_encode_length r Hr) as Hlen.
  assert (E : take k (frame r) ++ t = le_nat 4 (length (wal_encode r)) ++ le_bytes 4 (crc32 (wal_encode r)) ++ (take (k - 8) (wal_encode r) ++ t)).
  { unfold frame. rewrite (take_app_ge (le_nat 4 _)) by (rewrite le_nat_length; lia). rewrite le_nat_length.
    rewrite (take_app_ge (le_bytes 4 _)) by (rewrite le_bytes_length; lia). rewrite le_bytes_length, <- !app_assoc.
    replace (k - 4 - 4)%nat with (k - 8)%nat by lia. done. }
  rewrite E. split_and!.
  - rewrite take_app_length' by (by rewrite le_nat_length). apply (of_le_le_bytes 4 32); [done|]. split; [lia|unfold umax; lia].
  - rewrite drop_app_length' by (by rewrite le_nat_length). rewrite take_app_length' by (by rewrite le_bytes_length). apply (of_le_le_bytes 4 32); [done|]. apply crc_hash_range.
  - rewrite app_assoc. apply drop_app_length'. by rewrite length_app, le_nat_length, le_bytes_length.
Qed.

Lemma read_frame_whole r rest : rec_typed r -> read_frame (frame r ++ rest) = Ok (Some (r, rest)).
Proof.
  intros Hr. pose proof (wal_encode_length r Hr) as Hlen. pose proof (frame_length r) as Hfl.
  destruct (frame_header r rest (length (frame r)) Hr ltac:(lia)) as (H1 & H2 & H3). rewrite firstn_all in H1, H2, H3.
  rewrite take_ge in H3 by lia. unfold read_frame. rewrite length_app, (proj2 (Nat.ltb_ge _ _)) by lia.
  rewrite H1, H2, Nat2Z.id. rewrite (proj2 (Nat.eqb_neq _ _)), (proj2 (Nat.ltb_ge MAX_FRAME _)) by (unfold MAX_FRAME; lia). cbn [orb].
  cbv zeta. rewrite H3, length_app, (proj2 (Nat.ltb_ge _ _)) by lia. rewrite take_app_length, drop_app_length, Z.eqb_refl. cbn [negb].
  by rewrite wal_decode_encode.
Qed.

Lemma read_frame_torn r k : rec_typed r -> (k < length (frame r))%nat -> read_frame (take k (frame r)) = Ok None.
Proof.
  intros Hr Hk. pose proof (wal_encode_length r Hr) as Hlen. pose proof (frame_length r) as Hfl. unfold read_frame. rewrite length_take.
  destruct (Nat.ltb_spec (Nat.min k (length (frame r))) 8) as [|H8]; [done|].
  destruct (frame_header r [] k Hr ltac:(lia)) as (H1 & H2 & H3). rewrite !app_nil_r in H1, H2, H3.
  rewrite H1, Nat2Z.id. rewrite (proj2 (Nat.eqb_neq _ _)), (proj2 (Nat.ltb_ge MAX_FRAME _)) by (unfold MAX_FRAME; lia). cbn [orb].
  cbv zeta. rewrite H3, !app_nil_r.
  rewrite length_take, (proj2 (Nat.ltb_lt _ _)) by lia. done.
Qed.

(** What a cut may leave of the next frame. *)
Definition torn (t : list Z) : Prop := t = [] \/ exists r k, rec_typed r /\ (k < length (frame r))%nat /\ t = take k (frame r).

Lemma read_torn t : torn t -> read_frame t = Ok None.
Proof. intros [->|(r & k & Hr & Hk & ->)]; [done|by apply read_frame_torn]. Qed.

Definition frames (recs : list WalRecord) : list Z := concat (frame <$> recs).

Lemma frames_app a b : frames (a ++ b) = frames a ++ frames b.
Proof. unfold frames. by rewrite fmap_app, concat_app. Qed.

Lemma frames_length recs : (length recs <= length (frames recs))%nat.
Proof. induction recs as [|r recs IH]; cbn; [done|]. unfold frames in IH. rewrite length_app, frame_length. lia. Qed.

(** Replay reads the whole frames and stops at a torn one. *)
Lemma replay_frames recs t fuel : Forall rec_typed recs -> torn t -> (length recs < fuel)%nat ->
  replay_loop fuel (frames recs ++ t) = Ok recs.
Proof.
  intros Hr Ht. revert fuel. induction Hr as [|r recs Hr _ IH]; intros fuel Hf; (destruct fuel as [|fuel]; [lia|]); cbn [replay_loop].
  - change (frames [] ++ t) with t. by rewrite (read_torn t Ht).
  - change (frames (r :: recs)) with (frame r ++ frames recs). rewrite <- app_assoc, read_frame_whole by done.
    cbn [length] in Hf. by rewrite IH by lia.
Qed.

Lemma replay_file recs t : Forall rec_typed recs -> torn t -> replay (WAL_MAGIC ++ frames recs ++ t) = Ok recs.
Proof.
  intros Hr Ht. unfold replay. rewrite length_app. change (length WAL_MAGIC) with 8%nat. rewrite (proj2 (Nat.ltb_ge _ _)) by lia.
  assert (E1 : take 8 (WAL_MAGIC ++ frames recs ++ t) = WAL_MAGIC) by exact (take_app_length WAL_MAGIC _).
  assert (E2 : drop 8 (WAL_MAGIC ++ frames recs ++ t) = frames recs ++ t) by exact (drop_app_length WAL_MAGIC _).
  rewrite E1, E2, bool_decide_true by done. cbn [negb].
  apply replay_frames; [done|done|]. rewrite length_app. pose proof (frames_length recs). lia.
Qed.

(** A prefix of a log: whole frames and a torn one. *)
Lemma cut_frames recs : Forall rec_typed recs -> forall k,
  exists n t, take k (frames recs) = frames (take n recs) ++ t /\ torn t /\ (n <= length recs)%nat /\
    forall m, (m <= length recs)%nat -> (length (frames (take m recs)) <= k)%nat -> (m <= n)%nat.
Proof.
  induction 1 as [|r recs Hr Hrs IH]; intros k.
  { exists 0%nat, []. split_and!; [by destruct k|by left|done|]. intros m Hm _. cbn in Hm. lia. }
  change (frames (r :: recs)) with (frame r ++ frames recs). destruct (decide (length (frame r) <= k)%nat) as [Hk|Hk].
  - destruct (IH (k - length (frame r))%nat) as (n & t & E & Ht & Hn & Hmax). exists (S n), t. cbn [take length].
    change (frames (r :: take n recs)) with (frame r ++ frames (take n recs)).
    rewrite take_app_ge, E, <- app_assoc by done. split_and!; [done|done|lia|]. intros [|m] Hm Hl; [lia|]. cbn [take] in Hl.
    change (frames (r :: take m recs)) with (frame r ++ frames (take m recs)) in Hl. rewrite length_app in Hl.
    apply le_n_S, Hmax; lia.
  - exists 0%nat, (take k (frame r)). rewrite take_app_le by lia. split_and!; [done|right; exists r, k; split_and!; [done|lia|done]|lia|].
    intros [|m] Hm Hl; [done|]. cbn [take] in Hl. change (frames (r :: take m recs)) with (frame r ++ frames (take m recs)) in Hl.
    rewrite length_app in Hl. lia.
Qed.

(** ** The writer *)

(** The log after the writer took [recs], before any later command. *)
Fixpoint written_log (recs : list WalRecord) (f : WalFile) : WalFile :=
  match recs with [] => f | r :: recs => written_log recs (fst (writer_record r f)) end.

(** The records up to the last one that ends a batch. *)
Fixpoint synced_count (recs : list WalRecord) (i best : nat) : nat :=
  match recs with [] => best | r :: recs => synced_count recs (S i) (if is_marker r then S i else best) end.

Lemma writer_record_eq r f : rec_typed r ->
  fst (writer_record r f) = mkWalFile (wf_bytes f ++ frame r) (if is_marker r then length (wf_bytes f ++ frame r) else wf_synced f).
Proof. intros Hr. unfold writer_record. rewrite (write_frame_eq r Hr). by destruct (is_marker r). Qed.

Lemma synced_count_le recs : forall i best, (best <= i)%nat -> (synced_count recs i best <= i + length recs)%nat.
Proof.
  induction recs as [|r recs IH]; intros i best Hb; cbn [synced_count length]; [lia|].
  etransitivity; [apply IH; destruct (is_marker r); lia|lia].
Qed.

Lemma written_log_eq recs : Forall rec_typed recs -> forall done_ best b,
  (best <= length done_)%nat ->
  written_log recs (mkWalFile (b ++ frames done_) (length (b ++ frames (take best done_)))) =
    mkWalFile (b ++ frames (done_ ++ recs))
      (length (b ++ frames (take (synced_count recs (length done_) best) (done_ ++ recs)))).
Proof.
  induction 1 as [|r recs Hr _ IH]; intros done_ best b Hb; cbn [written_log synced_count].
  { by rewrite app_nil_r. }
  rewrite (writer_record_eq r _ Hr). cbn [wf_bytes wf_synced].
  assert (E : (b ++ frames done_) ++ frame r = b ++ frames (done_ ++ [r])).
  { rewrite frames_app, app_assoc. f_equal. unfold frames. cbn. by rewrite app_nil_r. }
  rewrite E. replace (S (length done_)) with (length (done_ ++ [r])) by (rewrite length_app; cbn; lia).
  replace (done_ ++ r :: recs) with ((done_ ++ [r]) ++ recs) by (by rewrite <- app_assoc).
  rewrite <- (IH (done_ ++ [r]) _ b) by (rewrite length_app; cbn; destruct (is_marker r); lia). f_equal. f_equal.
  destruct (is_marker r).
  - by rewrite firstn_all.
  - rewrite take_app_le by done. done.
Qed.
End Frames.

(** C28. The log survives a crash: of a log written from scratch, whatever prefix of the file past
    the last sync a crash leaves, replay returns a prefix of the records that has every record
    up to the last block, snapshot or unwind marker; with the whole file, all of them. *)
Theorem wal_survives_crash `{Crc32Laws} (recs : list WalRecord) (f0 : WalFile) (k : nat)
    (Ht : Forall rec_typed recs) (Hstart : writer_start [] = Ok f0)
    (Hk : (wf_synced (written_log recs f0) <= k)%nat) :
  exists n, replay (take k (wf_bytes (written_log recs f0))) = Ok (take n recs) /\
    (synced_count recs 0 0 <= n)%nat /\
    ((length (wf_bytes (written_log recs f0)) <= k)%nat -> take n recs = recs).
Proof.
  cbn in Hstart. apply Ok_inj in Hstart as <-. pose proof (written_log_eq recs Ht [] 0 WAL_MAGIC (le_n 0)) as E.
  change (mkWalFile (WAL_MAGIC ++ frames []) (length (WAL_MAGIC ++ frames (take 0 [])))) with (sync_all (mkWalFile WAL_MAGIC 0)) in E.
  rewrite E in *. cbn [app length wf_bytes wf_synced] in *. change (length WAL_MAGIC) with 8%nat in *.
  rewrite length_app in Hk. change (length WAL_MAGIC) with 8%nat in Hk.
  destruct (cut_frames recs Ht (k - 8)) as (n & t & Ec & Htorn & Hn & Hmax). exists n.
  rewrite take_app_ge by (change (length WAL_MAGIC) with 8%nat; lia). change (length WAL_MAGIC) with 8%nat. rewrite Ec.
  rewrite replay_file by (try apply Forall_take; done). split; [done|]. split.
  - apply Hmax; [|lia]. pose proof (synced_count_le recs 0 0 (le_n 0)). lia.
  - intros Hl. apply firstn_all2. apply Hmax; [done|]. rewrite firstn_all. rewrite length_app in Hl. change (length WAL_MAGIC) with 8%nat in Hl. lia.
Qed.

(** Shutting down syncs what was written. *)
Lemma writer_loop_shutdown `{Crc32Laws} recs : Forall rec_typed recs -> forall p f rest,
  (p = false -> wf_synced f = length (wf_bytes f)) ->
  writer_loop ((CRecord <$> recs) ++ CShutdown :: rest) p f = (sync_all (written_log recs f), Ok tt).
Proof.
  induction 1 as [|r recs Hr _ IH]; intros p f rest Hp; cbn [fmap list_fmap app writer_loop written_log].
  - destruct p; [done|]. unfold sync_all. rewrite <- Hp by done. by destruct f.
  - pose proof (writer_record_eq r f Hr) as E. destruct (writer_record r f) as [g [q|e]] eqn:Ew; cbn [fst] in E; subst g.
    + cbn [fst]. apply IH. intros ->. cbn [wf_synced wf_bytes]. unfold writer_record in Ew. rewrite (write_frame_eq r Hr) in Ew.
      by destruct (is_marker r).
    + unfold writer_record in Ew. rewrite (write_frame_eq r Hr) in Ew. by destruct (is_marker r).
Qed.

(** ** Stores that differ in their rings

    Recovery restores the columns of a snapshot and an empty ring at its tip; the records of
    the later blocks are then pushed again, so an unwind that stays above the snapshot finds
    the same inverses. *)













(** ** Reverting *)







(** ** Mirrors *)











(** ** Recovery *)

(** The live store: the calls behind the records, none of which failed. *)
Fixpoint live (recs : list WalRecord) (s : StateStore) : option StateStore :=
  match recs with
  | [] => Some s
  | r :: recs => match apply_record r s with (s, Ok _) => live recs s | (_, Err _) => None end
  end.


(** A record that does not open the cut of a snapshot at [t]. *)
Definition before_cut (t : BlockNum) (r : WalRecord) : Prop :=
  match r with RBeginBlock b => b <= t | RSnapshot b => b <> t | _ => True end.










(** ** Witnesses *)

Definition wit_recs : list WalRecord := [RIntern wit_key; RBeginBlock 1001; RSetSupply 0 0 7; RSetDebt 0 1 40].
Definition wit_log : WalFile := written_log wit_recs (sync_all (mkWalFile WAL_MAGIC 0)).

#[export] Instance row_typed_dec r : Decision (row_typed r).
Proof.
  refine (cast_if (decide (Forall (fun p => uint_ok (fst p) (snd p))
    [(16, mr_asset r); (16, mr_price_feed r); (8, mr_decimals r); (8, mr_flags r); (16, mr_hub_slot r); (32, mr_hub_market r);
     (32, mr_last_update r)] /\ length (mr_body r) = BODY_CELLS /\ Forall (uint_ok 128) (mr_body r)))).
  - by apply row_typed_fields.
  - intros []. apply n. split; [by rewrite !Forall_cons, Forall_nil|done].
Defined.

#[export] Instance rec_typed_dec r : Decision (rec_typed r).
Proof. destruct r; cbn [rec_typed]; unfold id_ok; apply _. Defined.

(** A crash five bytes into the frame after the last sync. *)
Lemma wal_survives_crash_witness :
  exists n, replay (take (wf_synced wit_log + 5) (wf_bytes wit_log)) = Ok (take n wit_recs) /\ (2 <= n)%nat /\
    ((length (wf_bytes wit_log) <= wf_synced wit_log + 5)%nat -> take n wit_recs = wit_recs).
Proof.
  apply (wal_survives_crash wit_recs (sync_all (mkWalFile WAL_MAGIC 0)) (wf_synced wit_log + 5)).
  - decide_typed.
  - reflexivity.
  - apply Nat.le_add_r.
Defined.


#[export] Instance before_cut_dec t r : Decision (before_cut t r).
Proof. destruct r; cbn [before_cut]; apply _. Defined.



(** ** What recovery does not handle *)

Definition fork_log : list WalRecord := [RBeginBlock 1001; RSnapshot 1001; RUnwindTo 1000; RBeginBlock 1001; RSnapshot 1001].
Definition list_log : list WalRecord := [RPushMarket 2 (blank 5 18); RSnapshot 1000; RPushMarket 2 (blank 6 6); RSnapshot 1000].

(** The disk once the store that ran [recs] is snapshotted. *)
Definition disk (recs : list WalRecord) (s : StateStore) : gmap string (list Z) :=
  <["snap" := match encode (from_store s) with Ok b => b | Err _ => [] end]> {["wal" := WAL_MAGIC ++ frames recs]}.

(** Two markers of one height: the snapshot on disk is the later one and its marker ends the
    log, so nothing is to be replayed; recovery starts at the first marker, and refuses the log
    of a block that was replaced, or lists twice the slot listed between the markers. *)
Theorem repeated_marker_misrecovers :
  (exists s, live fork_log (store_new 1000) = Some s /\
     recover (disk fork_log s) "snap" "wal" = Err (RecState (ReorgTooDeep 1 0))) /\
  (exists s r, live list_log (store_new 1000) = Some s /\ recover (disk list_log s) "snap" "wal" = Ok r /\
     st_rows s 2 = Some [blank 5 18; blank 6 6] /\ st_rows r 2 = Some [blank 5 18; blank 6 6; blank 6 6]).
Proof.
  split.
  - eexists. split; [vm_compute; reflexivity|]. vm_compute. reflexivity.
  - eexists _, _. split; [vm_compute; reflexivity|]. split; [vm_compute; reflexivity|]. split; vm_compute; reflexivity.
Qed.

(** *** Appending behind a torn frame *)

(** The low byte of a frame's length is never small. *)
Lemma wal_encode_low r : rec_typed r -> 5 <= Z.of_nat (length (wal_encode r)) mod 256.
Proof.
  intros Hr. destruct r; cbn [wal_encode rec_typed length] in *; unfold put_cell; rewrite ?length_app, ?le_nat_length, ?le_bytes_length, ?be_length;
    rewrite ?(po_len pod_extra extra_typed pod_extra_ok), ?(po_len pod_row row_typed pod_row_ok) by tauto; vm_compute; discriminate.
Qed.

Lemma le_nat4 n : exists b, le_nat 4 n = Z.of_nat n mod 256 :: b /\ Forall (fun x => 0 <= x) b /\ length b = 3%nat.
Proof.
  exists [Z.of_nat n / 256 mod 256; Z.of_nat n / 256 / 256 mod 256; Z.of_nat n / 256 / 256 / 256 mod 256].
  split; [reflexivity|]. split; [|done]. repeat constructor; by apply Z.mod_pos_bound.
Qed.

Section Torn.
Context `{Crc32Laws}.

(** A header cut inside its length and completed by the length of the next frame. *)
Lemma read_frame_mixed r k r2 rest : rec_typed r -> rec_typed r2 -> (0 < k < 4)%nat ->
  read_frame (take k (frame r) ++ frame r2 ++ rest) = Err WCorrupt.
Proof.
  intros Hr Hr2 Hk. pose proof (wal_encode_low r2 Hr2) as Hlow. unfold frame.
  destruct (le_nat4 (length (wal_encode r))) as (b & -> & Hb & Lb), (le_nat4 (length (wal_encode r2))) as (b2 & -> & Hb2 & Lb2).
  pose proof (Z.mod_pos_bound (Z.of_nat (length (wal_encode r))) 256 eq_refl) as Ha.
  set (x := Z.of_nat (length (wal_encode r)) mod 256) in *. set (y := Z.of_nat (length (wal_encode r2)) mod 256) in *.
  destruct b as [|b0 [|b1 [|b3 [|? ?]]]]; try discriminate Lb. destruct b2 as [|c0 [|c1 [|c3 [|? ?]]]]; try discriminate Lb2.
  rewrite !Forall_cons in Hb, Hb2. destruct Hb as (? & ? & ? & _), Hb2 as (? & ? & ? & _).
  unfold read_frame. rewrite (proj2 (Nat.ltb_ge _ _)).
  2:{ rewrite !length_app, length_take. cbn [length app]. rewrite !length_app, !le_bytes_length. lia. }
  assert (Hgt : (MAX_FRAME < Z.to_nat (of_le_bytes (take 4 (take k ((x :: [b0; b1; b3]) ++ le_bytes 4 (crc32 (wal_encode r)) ++ wal_encode r) ++
    ((y :: [c0; c1; c3]) ++ le_bytes 4 (crc32 (wal_encode r2)) ++ wal_encode r2) ++ rest))))%nat).
  { destruct k as [|[|[|[|k]]]]; [lia| | | |lia]; unfold of_le_bytes, of_be, MAX_FRAME; cbn -[Z.mul Z.add]; lia. }
  rewrite (proj2 (Nat.ltb_lt _ _) Hgt), orb_true_r. done.
Qed.

(** A frame cut after its length and completed by what comes behind it: too little of it, or
    a payload its checksum does not fit. *)
Lemma read_frame_spliced r k t : rec_typed r -> (4 <= k)%nat -> (k < length (frame r))%nat ->
  let file := take k (frame r) ++ t in
  ((length file < length (frame r))%nat -> read_frame file = Ok None) /\
  ((length (frame r) <= length file)%nat ->
   crc32 (take (length (wal_encode r)) (drop 8 file)) <> of_le_bytes (take 4 (drop 4 file)) -> read_frame file = Err WCrc).
Proof.
  intros Hr H4 Hk file. pose proof (wal_encode_length r Hr) as Hlen. pose proof (frame_length r) as Hfl.
  assert (E1 : of_le_bytes (take 4 file) = Z.of_nat (length (wal_encode r))).
  { unfold file, frame. rewrite (take_app_ge (le_nat 4 _)), <- app_assoc by (rewrite le_nat_length; lia).
    rewrite take_app_length' by (by rewrite le_nat_length). apply (of_le_le_bytes 4 32); [done|]. split; [lia|unfold umax; lia]. }
  unfold read_frame. rewrite E1, Nat2Z.id, (proj2 (Nat.eqb_neq _ _)), (proj2 (Nat.ltb_ge MAX_FRAME _)) by (unfold MAX_FRAME; lia).
  cbn [orb]. cbv zeta. rewrite length_drop. split.
  - intros Hs. destruct (Nat.ltb_spec (length file) 8); [done|]. by rewrite (proj2 (Nat.ltb_lt _ _)) by lia.
  - intros Hs Hc. rewrite (proj2 (Nat.ltb_ge (length file) 8)), (proj2 (Nat.ltb_ge _ _)) by lia.
    by rewrite (proj2 (Z.eqb_neq _ _) Hc).
Qed.

(** Replay past whole frames is decided by what is behind them. *)
Lemma replay_prefix recs t x : Forall rec_typed recs ->
  (forall e, x = Err e -> read_frame t = Err e) -> (forall l, x = Ok l -> l = [] /\ read_frame t = Ok None) ->
  replay (WAL_MAGIC ++ frames recs ++ t) = let? l := x in Ok (recs ++ l).
Proof.
  intros Hr He Ho. unfold replay. rewrite length_app. change (length WAL_MAGIC) with 8%nat. rewrite (proj2 (Nat.ltb_ge _ _)) by lia.
  assert (E1 : take 8 (WAL_MAGIC ++ frames recs ++ t) = WAL_MAGIC) by exact (take_app_length WAL_MAGIC _).
  assert (E2 : drop 8 (WAL_MAGIC ++ frames recs ++ t) = frames recs ++ t) by exact (drop_app_length WAL_MAGIC _).
  rewrite E1, E2, bool_decide_true by done. cbn [negb]. clear E1 E2.
  assert (length recs < S (8 + length (frames recs ++ t)))%nat as Hf by (rewrite length_app; pose proof (frames_length recs); lia).
  revert Hf. generalize (S (8 + length (frames recs ++ t))) as fuel.
  induction Hr as [|r recs Hr _ IH]; intros fuel Hf; (destruct fuel as [|fuel]; [lia|]); cbn [replay_loop].
  - change (frames [] ++ t) with t. destruct x as [l|e]; [destruct (Ho l eq_refl) as [-> ->]; done|by rewrite (He e eq_refl)].
  - change (frames (r :: recs)) with (frame r ++ frames recs). rewrite <- app_assoc, read_frame_whole by done.
    cbn [length] in Hf. rewrite IH by lia. by destruct x.
Qed.

Lemma written_log_bytes recs : Forall rec_typed recs -> forall f, wf_bytes (written_log recs f) = wf_bytes f ++ frames recs.
Proof.
  induction 1 as [|r recs Hr _ IH]; intros f; cbn [written_log]; [by rewrite app_nil_r|].
  rewrite IH, (writer_record_eq r f Hr). cbn [wf_bytes]. by rewrite <- app_assoc.
Qed.
End Torn.

(** C40. Replay drops a torn last frame, but the writer that opens the file after the crash appends
    behind it, and what it writes there is not read back. For any log whose last frame is cut
    anywhere (of [r], after [k] bytes), and any records written after the restart: cut inside
    the four bytes of its length, replay refuses the log as corrupt; cut later, replay returns
    the records from before the crash alone while the bytes behind the cut are too few to make
    up the torn frame, and refuses the whole log once they are enough, unless the checksum of
    the torn frame happens to fit the bytes it is completed with. *)
Theorem append_after_torn_frame_unreadable `{Crc32Laws} (recs rs : list WalRecord) (r : WalRecord) (k : nat)
    (Hrecs : Forall rec_typed recs) (Hrs : Forall rec_typed rs) (Hne : rs <> []) (Hr : rec_typed r)
    (Hk : (0 < k < length (frame r))%nat) :
  let log := WAL_MAGIC ++ frames recs ++ take k (frame r) in
  let tail_ := take k (frame r) ++ frames rs in
  replay log = Ok recs /\
  exists f, writer_start log = Ok f /\
    let after := wf_bytes (written_log rs f) in
    after = log ++ frames rs /\
    ((k < 4)%nat -> replay after = Err WCorrupt) /\
    ((4 <= k)%nat -> (length tail_ < length (frame r))%nat -> replay after = Ok recs) /\
    ((4 <= k)%nat -> (length (frame r) <= length tail_)%nat ->
     crc32 (take (length (wal_encode r)) (drop 8 tail_)) <> of_le_bytes (take 4 (drop 4 tail_)) ->
     replay after = Err WCrc).
Proof.
  intros log tail_. split; [apply replay_file; [done|right; exists r, k; split; [done|split; [lia|done]]]|].
  exists (mkWalFile log (length log)). split.
  { assert (E : take 8 log = WAL_MAGIC) by exact (take_app_length WAL_MAGIC _).
    unfold writer_start. rewrite E, bool_decide_true by done. unfold log. rewrite length_app. change (length WAL_MAGIC) with 8%nat.
    rewrite (proj2 (Nat.eqb_neq _ _)), (proj2 (Nat.ltb_ge _ _)) by lia. done. }
  cbv zeta. rewrite (written_log_bytes rs Hrs). cbn [wf_bytes]. split; [done|].
  assert (log ++ frames rs = WAL_MAGIC ++ frames recs ++ tail_) as -> by (unfold log, tail_; by rewrite <- !app_assoc).
  split_and!.
  - intros Hk4. rewrite (replay_prefix recs tail_ (Err WCorrupt)); [done..| |done]. intros e [= <-].
    destruct rs as [|r2 rs']; [done|]. apply Forall_cons in Hrs as [Hr2 _].
    apply (read_frame_mixed r k r2 (frames rs')); [done|done|lia].
  - intros H4 Hl. rewrite (replay_prefix recs tail_ (Ok [])); [by cbn; rewrite app_nil_r|done|done|]. intros l [= <-].
    split; [done|]. apply (read_frame_spliced r k (frames rs)); [done|done|lia|done].
  - intros H4 Hl Hc. rewrite (replay_prefix recs tail_ (Err WCrc)); [done..| |done]. intros e [= <-].
    by apply (read_frame_spliced r k (frames rs)); [|lia|lia|..].
Qed.

(** With the standard checksum: a frame cut after twelve bytes and two blocks behind it. *)
Lemma append_after_torn_frame_unreadable_witness :
  let log := WAL_MAGIC ++ frames [RBeginBlock 1001] ++ take 12 (frame (RUnwindTo 1000)) in
  replay log = Ok [RBeginBlock 1001] /\
  exists f, writer_start log = Ok f /\ replay (wf_bytes (written_log [RBeginBlock 1002; RBeginBlock 1003] f)) = Err WCrc.
Proof.
  destruct (append_after_torn_frame_unreadable [RBeginBlock 1001] [RBeginBlock 1002; RBeginBlock 1003] (RUnwindTo 1000) 12)
    as (H1 & f & H2 & _ & _ & _ & H3).
  - decide_typed.
  - decide_typed.
  - discriminate.
  - decide_typed.
  - split; [lia|apply Nat.ltb_lt; vm_compute; reflexivity].
  - split; [exact H1|]. exists f. split; [exact H2|]. apply H3; [lia|apply Nat.leb_le; vm_compute; reflexivity|].
    apply Z.eqb_neq. vm_compute. reflexivity.
Defined.
